(* ===== verification/_CoqProject ===== *)
-Q . S2P
Prelude.v
Memory.v
OverlayBuffer.v
OverlayBufferFacts.v
OverlayBufferSpec.v
Cstring.v
Ctype.v
Str.v
StrHex.v
StrBase64.v
Strbuf.v
StrbufSpec.v
StrNumbers.v
Uri.v
UriSpec.v
StrText.v
Golay.v
GolaySpec.v
Rotbuf.v
Limit.v
DataFormats.v
DataFormatsSpec.v
Uuid.v
OverlayAddress.v
OverlayAddressFacts.v
OverlayAddressWalk.v
OverlayAddressSpec.v
OverlayPacket.v
OverlayPacketSpec.v
OverlayPacketLoop.v
MdpFilter.v
MdpFilterCursor.v
MdpFilterParse.v
MdpFilterSpec.v
ConfOm.v
ConfOmFacts.v
ConfOmTree.v
ConfOmWf.v
ConfOmPath.v
ConfOmSpec.v
ConfOmParse.v
ConfOmMatch.v
ConfOmIter.v
Linked.v
FdQueue.v
FdQueueLists.v
FdQueueSpec.v
FdQueueLive.v
FdQueueTheorems.v
FdQueueWatch.v
Fec.v
RadioLink.v
RadioLinkSpec.v
RadioLinkSend.v
RadioLinkTheorems.v
OverlayQueue.v
OverlayQueueAlarm.v
OverlayQueueSpec.v
OverlayQueueRemove.v
OverlayQueueTime.v
OverlayQueueAck.v
OverlayQueueEnqueue.v
OverlayQueueStuff.v
OverlayQueueTheorems.v
Msp.v
MspWindows.v
MspFrame.v
MspDeliver.v
MspProgress.v
MspSend.v
MspTheorems.v
Http.v
HttpValues.v
HttpParse.v
HttpWp.v
HttpReserve.v
HttpKeeps.v
HttpText.v
HttpHead.v
HttpTheorems.v
