(* ===== verification/Prelude.v ===== *)
(** * Serval DNA: a verification of its packet, text and addressing core

    The program is the Serval DNA daemon (src/jni/serval-dna), the C core of the
    Serval Mesh: it keeps a table of mesh subscribers known by 32-byte
    identities, routes datagrams between them over packets built in growable
    buffers, filters those datagrams by rules, rate-limits, corrects errors on
    serial radios, and reads and writes a large amount of text (identities,
    numbers, URIs, base64, configuration).  This library models the self-contained
    parts below the sockets and the database, function by function, and proves
    what makes them correct; where the code does not do what it means to, the
    theorem states what it does instead.

    ** How the parts fit together

    overlay_address.c resolves and abbreviates subscriber identities and reads
    and writes them in packets through overlay_buffer.c; mdp_filter.c reads rules
    that name subscribers, with the number and identity parsers of str.c and
    dataformats.c; strbuf.c is how all of them print.  overlay_payload.c and
    overlay_packetformats.c put frames into packets and take them out again, on
    top of the buffers and the addresses.  conf_om.c keeps the configuration
    tree.  fdqueue.c is the event loop that calls all the rest: timers are alarms
    it runs, sockets are descriptors it polls.  radio_link.c carries packets over
    a serial radio, in link packets with Golay-coded lengths and, through the
    coder of fec-3.0.1, Reed-Solomon coded contents.  overlay_queue.c
    keeps the frames to send, asks route_link.c where they go, and sets an alarm
    of the event loop for the time limit.c allows the next packet.  msp_client.c
    is a client of the daemon: streams of numbered packets over its datagrams, with
    windows, acknowledgements and handlers.  http_server.c is the HTTP server: an
    alarm of the event loop calls it when a packet arrives, and it runs one parsing
    function after the other, and the caller's handlers, on what is in its buffer.
    uuid.c, golay.c, rotbuf.c and limit.c stand alone.

    ** Files

    - [Prelude] (this file): lists indexed by [Z], machine integers at their
      width, the [outcome] of C code ([Ret], [Abort] for a failed assertion or a
      fatal error, [Undef] for undefined behaviour), tactics and hints.
    - [Memory]: a heap of byte blocks, pointers that may alias, [malloc] as the
      class [Allocator] (it may fail), the heap monad [HM].
    - [OverlayBuffer], [OverlayBufferFacts], [OverlayBufferSpec]:
      overlay_buffer.c.  [struct overlay_buffer] is the record [overlay_buffer];
      each [ob_*] function has the definition of its name.
    - [Cstring]: NUL-terminated strings and the parts of <string.h>, <ctype.h>
      and <stdlib.h> the code uses.  [Ctype]: the character class tables.
    - [Str]: str.c except the printable-text functions; [StrHex], [StrBase64],
      [StrNumbers], [StrText] its theorems; [Uri], [UriSpec] the URI functions.
    - [Strbuf], [StrbufSpec]: strbuf.c over the memory it prints into.
    - [Golay], [GolaySpec]: golay.c.  [Rotbuf]: rotbuf.c and rotbuf.h.
      [Limit]: limit.c.  [Uuid]: uuid.c.
    - [DataFormats], [DataFormatsSpec]: dataformats.c.
    - [OverlayAddress]: overlay_address.c.  The static variables and the
      subscribers are the record [oa_state], code runs in the monad [OM];
      a slot of a [struct tree_node] is the type [slot].
      [OverlayAddressFacts]: the invariant of the tree, lookup and insertion;
      [OverlayAddressWalk]: [walk_tree]; [OverlayAddressSpec]: the theorems.
    - [MdpFilter]: mdp_filter.c, the cursor in the monad [CO], the parser in
      [CM]; [MdpFilterCursor]: what the cursor's primitives do to the text they
      see; [MdpFilterParse], [MdpFilterSpec]: parsing of printed rules.
    - [OverlayPacket]: overlay_payload.c and overlay_packetformats.c, in the
      monad [OM]; [parseMdpPacketHeader] is cut into the stages [parse_source],
      [parse_broadcast], [parse_unicast], [parse_ttl], [parse_type] and
      [parse_seq].  [OverlayPacketSpec]: the theorems about frames;
      [OverlayPacketLoop]: the loop over the frames of a packet.
    - [ConfOm]: conf_om.c.  A [struct cf_om_node] is the inductive type
      [cf_om_node], allocation the monad [AM].  [ConfOmFacts]: keys and names;
      [ConfOmTree]: sorted children and the search among them; [ConfOmWf]: the
      invariant [om_wf] and the texts of a tree; [ConfOmPath]: descending along
      a name, creating nodes; [ConfOmSpec], [ConfOmParse], [ConfOmMatch],
      [ConfOmIter]: the theorems.
    - [Linked]: linked lists of objects in memory, for the two that follow.
    - [FdQueue]: fdqueue.c.  A [struct sched_ent] is the record [sched_ent],
      named by its address; the variables of the file are the record
      [fq_state], code runs in the monad [FQ], the functions of the alarms and
      the system calls are parameters of [fd_poll].  [FdQueueLists]: linked
      segments and the loops over them; [FdQueueSpec]: the invariant [fq_wf];
      [FdQueueLive]: what a call of [fd_poll] does; [FdQueueTheorems]: the
      theorems about alarms; [FdQueueWatch]: the table of descriptors.
    - [Fec]: the Reed-Solomon coder that radio_link.c calls, in fec-3.0.1
      (encode_rs.h, decode_rs.h and the tables), with what is proved of it.
    - [RadioLink]: radio_link.c.  The receiving half of [struct
      radio_link_state] is the record [radio_rx] and runs in the monad [RM], the
      transmitting half is [radio_tx] and runs in [TM], over the event loop and
      the memory of packets.  [RadioLinkSpec]: reassembly, memory safety, and
      recognising link packets in a stream of bytes; [RadioLinkSend]: the link packets of a packet; [RadioLinkTheorems].
    - [OverlayQueue]: overlay_queue.c, and [link_add_destinations] and the
      reference counts of route_link.c.  Frames and destinations are objects
      named by their addresses, the variables of the file with the event loop,
      the subscribers and the memory of payloads are the record [oq_state], code
      runs in the monad [QM].  One turn of the loop of [overlay_stuff_packet] is
      [stuff_frame], one of [overlay_queue_ack] is [ack_frame].
      [OverlayQueueAlarm]: setting the alarm; [OverlayQueueSpec]: the invariant
      [oq_wf]; [OverlayQueueRemove]: taking frames out; [OverlayQueueTime]: the
      time to send; [OverlayQueueAck], [OverlayQueueEnqueue], [OverlayQueueStuff]:
      the operations; [OverlayQueueTheorems].
    - [Msp]: msp_client.c.  A [struct msp_sock] is the record [msp_sock], named by
      its address, a window has its packets in the list [chain]; the variables of
      the file are the record [msp_state], code runs in the monad [PM], the
      surroundings are the class [MspEnv].  A handler is a program of the type
      [client].  [process_sock] is cut into [deliver], [check_window],
      [transmit_loop] and [acknowledge], [process_packet] into [search_loop],
      [accept] and [receive].  [MspWindows]: windows as sorted lists;
      [MspFrame]: what code leaves alone; [MspDeliver]: reading in order;
      [MspProgress]: reading ends and is complete; [MspSend]; [MspTheorems].
    - [Http], [HttpValues], [HttpParse]: http_server.c from the request
      to the start of the response: the lexical functions, the parsers of header
      values with the reserved strings, the functions that [r->parser] points to, and
      the loop that calls them.  [struct http_request] is the record [http_request],
      its pointers into the buffer are offsets; code runs in the monad [HP] over the
      class [HttpEnv] of handlers and surroundings.  A header that
      [http_request_parse_header] knows has a definition of its own, and so has each
      state of [http_request_parse_body_form_data].  [HttpWp]: what code leaves
      alone; [HttpReserve]: the reserved strings and the invariant; [HttpKeeps]: that
      the parsers keep it and receiving ends; [HttpText], [HttpHead]: running the
      parsers on a known text; [HttpTheorems]: a server to run, and the theorems.

    ** What the theorems show

    - Buffers: every session of operations keeps the invariant and, by a frame
      property, changes no memory but the bytes of the buffer's own window, and
      freeing releases what it took; appending refines appending to an abstract
      sequence, with overrun as an error that changes nothing; integers written are read back, and exactly which
      64-bit and packed values are not.
    - Text: hexadecimal, base64, UUID, identity and scaled-number round trips;
      integer parsing on every input with digits, including where its overflow
      test fails; safety of decoding arbitrary text; URI parts; strbuf refines
      an abstract text cut to the size of the buffer, also without a limit and
      without a buffer.
    - Golay: every pattern of at most three bit errors is corrected, by a
      computation over all syndromes lifted to all words by linearity.
    - Rate limiter and rotating buffer: bounds and round trip.
    - Addresses: lookup refines "the only known subscriber with this prefix",
      creation adds exactly one subscriber and keeps the tree well formed under
      allocation failure, sequences of addresses round trip through a packet,
      explain requests visit exactly the subscribers characterised.
    - Filter rules: printing and parsing are inverse through the buffered
      cursor, the decision is that of the first rule that applies, and two ways
      in which text that ends too early is mishandled.
    - Packets: a frame header is read back as far as it carries the frame (the
      queue modulo 4), with the decisions to process and forward that it calls
      for; a frame is added whole or not at all; no packet makes the reader loop,
      act on an address it could not resolve, or forward a frame without hops
      left; and a full packet stops the daemon.
    - Configuration: every operation keeps the children sorted without
      duplicates; parsing a file and setting an option refine updates of a map
      from names to texts; the binary search is insertion into a sorted list;
      patterns match as they are documented; iteration visits every node once;
      and where lookup by prefix, the stack of the iterator and [cf_om_add_child]
      go wrong.
    - Event loop: scheduling and unscheduling are insertion into and removal
      from three sorted lists, on doubly and singly linked structures in memory;
      exactly the due alarms are moved; without descriptors every due alarm is
      called after a bounded number of rounds, also when the functions of alarms
      schedule themselves and others again; the table of descriptors keeps its
      entries together, and taking one out moves the last one whole.
    - Radio: a packet cut into link packets is delivered again, with up to
      three bit errors in every length; arbitrary bytes are processed in bounded
      time and inside the buffers, unless the run comes to a link packet of 37
      bytes whose code word the Reed-Solomon decoder accepts; reassembly refines
      an abstract one; and what such a short word does.  Of the coder: what is
      encoded is a code word (the register holds a remainder, by linearity) and is
      decoded unchanged, lengths are kept, and bad paddings are refused.
    - Transmit queues: adding a frame, acknowledging frames and dropping
      expired ones keep doubly linked lists, reference counts and the memory of
      payloads well formed, and are appending to, filtering and updating
      sequences of frames; which destinations a broadcast gets; an accepted frame
      sets the alarm.
    - Streams: whatever arrives in whatever order and whatever handlers do, a
      stream is read in order, without gaps or repetitions; windows are sorted
      lists across the wrap-around of sequence numbers; delivering ends, and hands
      over everything up to the first missing packet; what [msp_send] queues; that
      a packet sent arrives in the peer's window as it is, with the
      acknowledgement; and how a short packet stops the program
      and failures leave dangling pointers.
    - HTTP: whatever arrives, the offsets of a request stay in order, its reserved
      strings whole until they are freed, nothing is stored outside the buffer and
      receiving ends; the body of a part of form data is handed on exactly, once
      it is in the buffer with its boundary; the first line and
      headers of lengths and ranges are read back as written; which verbs are
      taken; ranges close to the positions they ask for.  [HttpTheorems] has requests
      that stop the server or are misread when they are cut into packets.

    ** Bounds and fuel

    Loops that are not structural take fuel that their definition computes from
    the data, and running out of fuel is [Undef], so a theorem that a function
    returns also shows that the fuel was enough: a nibble per round in
    [find_loop], a byte per round in [space_loop], [rules_loop] and
    [process_explain_loop], five rounds in [preload_loop] (one move, two reads),
    ten seven-bit groups in the packed integers, a character per round in the
    loops over names, the depth of the stack (20 entries) in [iter_loop], the
    halving interval in [child_search], whose indices are [int]s: a node has at
    most 2^30 children.  [packet_loop] takes as argument what running out of fuel
    means, and its theorem says that this never matters.  In the HTTP parser running out of
    fuel is a result of its own, [Ret None], which a store outside the buffer gives
    as well; a loop over the text takes its length,
    and the receive loop at most [receive_fuel] rounds: each goes on in the text, of
    at most 8192 bytes, or to a later one of eight parsers.  The loops over lists of
    alarms, of frames and of sockets take the number of them in memory, delivering
    packets the number of their bytes and packets.  Sizes are 32 or 64
    bits through the class [Arch].

    ** Not modelled

    Logging, debugging output and profiling, sockets, the database
    (Rhizome), cryptography, audio and the vendored libraries; in the files
    modelled, str.c's toprint family, which formats through strbuf_helpers.c.
    [link_explained] (route_link.c) is recorded as an event, the packet queue is
    a parameter of [send_please_explain], read errors on the rules file are left
    out, memory that the configuration tree frees is not tracked, and the
    handlers of received frames, the queue and link state routing are parameters
    of the packet loop.  That the Reed-Solomon coder of the radio corrects errors
    is not proved, only run on examples, and erasures are left out.  The hooks of
    queued frames, the state of the interfaces and [recv_remote_request], which
    asks another process over a socket, are parameters.  Of packing frames into packets the cases in which a frame
    goes into the packet are modelled and run but have no theorem yet.  Of
    the stream protocol the handlers are parameters that do not themselves call
    [msp_processing], [msp_recv] or [msp_close_all], and addresses of sockets are not
    used twice; that the sockets form a list and that the assertions about
    MSP_STATE_DATAOUT hold otherwise is not proved.  Of the HTTP server
    rendering and sending the response, pausing and the alarms are left out; the
    handlers are the same for the whole request, where the code lets them set each
    other, and leave the text that is being parsed alone.  That the parsing functions
    never read outside the buffer or fail an assertion is not proved (they do: numbers
    are read beyond the received text), nor what form data means that arrives in
    parts.  Times in milliseconds are integers of any size in [Limit], [FdQueue] and
    [Msp], where the code has 64 bits.  The next parts to
    model are the rest of link state routing (route_link.c) and HTTP responses. *)

From stdpp Require Import base tactics list fin_maps gmap.
From Stdlib Require Import ZArith Lia.

(** ** Notations *)

Declare Scope serval_scope.
Delimit Scope serval_scope with serval.

(** Length of a list as a [Z]: the sizes the C code computes with are [size_t]
    and [int] values, so the whole development counts in [Z]. *)
Definition zlen {A} (l : list A) : Z := Z.of_nat (length l).

(** Indexing a list with a [Z]; negative or large indices give [None]. *)
Definition zlookup {A} (i : Z) (l : list A) : option A :=
  if (i <? 0)%Z then None else l !! Z.to_nat i.

(** The [n] elements of [l] from offset [off]. *)
Definition slice {A} (off n : Z) (l : list A) : list A :=
  take (Z.to_nat n) (drop (Z.to_nat off) l).

(** Overwrite the elements of [l] from offset [off] with [new]. *)
Definition splice {A} (off : Z) (new l : list A) : list A :=
  take (Z.to_nat off) l ++ new ++ drop (Z.to_nat off + length new) l.

Notation "l @@ i" := (zlookup i l) (at level 20, no associativity) : serval_scope.
Open Scope serval_scope.
Open Scope Z_scope.

(** ** Machine integers

    A w-bit unsigned value is a [Z] in [0, 2^w); [uN] reduces a mathematical
    result to that range, [sN] to the two's complement signed range. *)
Definition uN (w x : Z) : Z := x mod 2 ^ w.
Definition sN (w x : Z) : Z := (x + 2 ^ (w - 1)) mod 2 ^ w - 2 ^ (w - 1).

Abbreviation u8 := (uN 8).
Abbreviation u16 := (uN 16).
Abbreviation u32 := (uN 32).
Abbreviation u64 := (uN 64).
Abbreviation s8 := (sN 8).
Abbreviation s16 := (sN 16).
Abbreviation s32 := (sN 32).
Abbreviation s64 := (sN 64).

Definition is_byte (x : Z) : Prop := 0 <= x < 256.
Definition is_byteb (x : Z) : bool := (0 <=? x) && (x <? 256).

Definition INT32_MIN : Z := - 2 ^ 31.
Definition INT32_MAX : Z := 2 ^ 31 - 1.
Definition UINT32_MAX : Z := 2 ^ 32 - 1.
Definition UINT64_MAX : Z := 2 ^ 64 - 1.

(** The data model of the target: 4-byte pointers and [size_t] on the 32-bit
    Android ABIs, 8-byte ones on a 64-bit host. *)
Class Arch : Type := {
  ptr_bytes : Z;
  ptr_bytes_spec : ptr_bytes = 4 \/ ptr_bytes = 8
}.

Definition SIZE_MAX `{Arch} : Z := 2 ^ (8 * ptr_bytes) - 1.
Definition SSIZE_MAX `{Arch} : Z := 2 ^ (8 * ptr_bytes - 1) - 1.

(** [size_t] arithmetic wraps at [SIZE_MAX + 1]. *)
Definition sz `{Arch} (x : Z) : Z := x mod (SIZE_MAX + 1).

(** The two data models (neither is declared as a global instance: theorems
    quantify over [Arch], only witnesses choose one). *)
Definition LP64 : Arch := {| ptr_bytes := 8; ptr_bytes_spec := or_intror eq_refl |}.
Definition ILP32 : Arch := {| ptr_bytes := 4; ptr_bytes_spec := or_introl eq_refl |}.

(** ** Outcomes of C code

    [Ret a]: the code returned [a].  [Abort]: an [assert], [FATAL] or [abort]
    stopped the process.  [Undef]: the code did something the C standard leaves
    undefined, such as an access outside an object or an over-wide shift. *)
Inductive outcome (A : Type) : Type :=
| Ret (a : A)
| Abort
| Undef.
Arguments Ret {A} a.
Arguments Abort {A}.
Arguments Undef {A}.

Global Instance outcome_ret : MRet outcome := fun A a => Ret a.
Global Instance outcome_bind : MBind outcome := fun A B f m =>
  match m with Ret a => f a | Abort => Abort | Undef => Undef end.
Global Instance outcome_fmap : FMap outcome := fun A B f m =>
  match m with Ret a => Ret (f a) | Abort => Abort | Undef => Undef end.

(** [assert(c)]. *)
Definition cassert (c : bool) : outcome unit := if c then Ret tt else Abort.

(** An option whose [None] is undefined behaviour. *)
Definition or_undef {A} (o : option A) : outcome A :=
  match o with Some a => Ret a | None => Undef end.

(** [safe m P]: [m] has no undefined behaviour, and if it returns, its result
    satisfies [P].  ([m] may still stop on an assertion.) *)
Definition safe {A} (m : outcome A) (P : A -> Prop) : Prop :=
  match m with Ret a => P a | Abort => True | Undef => False end.

(** [returns m P]: [m] returns a result that satisfies [P]. *)
Definition returns {A} (m : outcome A) (P : A -> Prop) : Prop :=
  match m with Ret a => P a | _ => False end.

(** ** Generic lemmas: outcomes *)

Create HintDb serval.
Create Rewrite HintDb serval.

Lemma safe_bind {A B} (m : outcome A) (f : A -> outcome B) P Q :
  safe m P -> (forall a, P a -> safe (f a) Q) -> safe (m ≫= f) Q.
Proof. destruct m; simpl; auto. Qed.

Lemma safe_mono {A} (m : outcome A) (P Q : A -> Prop) :
  safe m P -> (forall a, P a -> Q a) -> safe m Q.
Proof. destruct m; simpl; auto. Qed.

Lemma safe_cassert c (P : unit -> Prop) : (c = true -> P tt) -> safe (cassert c) P.
Proof. destruct c; simpl; auto. Qed.

Lemma returns_bind {A B} (m : outcome A) (f : A -> outcome B) P Q :
  returns m P -> (forall a, P a -> returns (f a) Q) -> returns (m ≫= f) Q.
Proof. destruct m; simpl; tauto || auto. Qed.

Lemma returns_mono {A} (m : outcome A) (P Q : A -> Prop) :
  returns m P -> (forall a, P a -> Q a) -> returns m Q.
Proof. destruct m; simpl; auto. Qed.

Lemma returns_safe {A} (m : outcome A) P : returns m P -> safe m P.
Proof. destruct m; simpl; tauto. Qed.

Lemma returns_inv {A} (m : outcome A) P : returns m P -> exists a, m = Ret a /\ P a.
Proof. destruct m; simpl; [eauto | tauto | tauto]. Qed.

(** ** Generic lemmas: integers *)

Lemma uN_range w x : 0 <= w -> 0 <= uN w x < 2 ^ w.
Proof. intros. apply Z.mod_pos_bound. lia. Qed.

Lemma uN_small w x : 0 <= x < 2 ^ w -> uN w x = x.
Proof. intros. by apply Z.mod_small. Qed.

Lemma sN_small w x : 0 < w -> - 2 ^ (w - 1) <= x < 2 ^ (w - 1) -> sN w x = x.
Proof.
  intros Hw Hx. unfold sN. replace (2 ^ w) with (2 * 2 ^ (w - 1)).
  - rewrite Z.mod_small by lia. lia.
  - rewrite <- Z.pow_succ_r by lia. f_equal. lia.
Qed.

Lemma is_byteb_spec x : is_byteb x = true <-> is_byte x.
Proof. unfold is_byteb, is_byte. rewrite andb_true_iff, Z.leb_le, Z.ltb_lt. lia. Qed.

Lemma land_ff x : Z.land x 0xFF = x mod 256.
Proof. change 0xFF with (Z.ones 8). by rewrite Z.land_ones. Qed.

Lemma land_7f x : Z.land x 0x7f = x mod 128.
Proof. change 0x7f with (Z.ones 7). by rewrite Z.land_ones. Qed.

(** [a | (b << k)] is an addition when [a] fits below bit [k]. *)
Lemma lor_shiftl_add a b k :
  0 <= k -> 0 <= a < 2 ^ k -> Z.lor a (Z.shiftl b k) = a + b * 2 ^ k.
Proof.
  intros Hk Ha. rewrite <- Z.shiftl_mul_pow2 by done.
  rewrite <- Z.add_lor_land.
  assert (Z.land a (Z.shiftl b k) = 0) as ->; [|lia].
  apply Z.bits_inj'. intros n Hn. rewrite Z.land_spec, Z.bits_0.
  destruct (decide (n < k)).
  - rewrite Z.shiftl_spec_low by done. apply andb_false_r.
  - rewrite <- (Z.mod_small a (2 ^ k)) by done.
    by rewrite Z.mod_pow2_bits_high by lia.
Qed.

Lemma lor_mul_pow2 a b k :
  0 <= k -> 0 <= a < 2 ^ k -> Z.lor a (b * 2 ^ k) = a + b * 2 ^ k.
Proof. intros. rewrite <- Z.shiftl_mul_pow2 by done. rewrite lor_shiftl_add by done. by rewrite Z.shiftl_mul_pow2. Qed.

Lemma shiftl_lor_add a b k :
  0 <= k -> 0 <= a < 2 ^ k -> Z.lor (Z.shiftl b k) a = a + b * 2 ^ k.
Proof. intros. rewrite Z.lor_comm. by apply lor_shiftl_add. Qed.

Lemma SIZE_MAX_cases `{Arch} : SIZE_MAX = 2 ^ 32 - 1 \/ SIZE_MAX = 2 ^ 64 - 1.
Proof. unfold SIZE_MAX. destruct ptr_bytes_spec as [-> | ->]; auto. Qed.

Lemma SIZE_MAX_ge `{Arch} : 2 ^ 32 - 1 <= SIZE_MAX.
Proof. destruct SIZE_MAX_cases; lia. Qed.

Lemma sz_small `{Arch} x : 0 <= x <= SIZE_MAX -> sz x = x.
Proof. intros. apply Z.mod_small. lia. Qed.

(** ** Generic lemmas: lists indexed by [Z] *)

Section zlists.
Context {A : Type}.
Implicit Types l new : list A.

Lemma zlen_nonneg l : 0 <= zlen l.
Proof. unfold zlen. lia. Qed.

Lemma zlen_app l1 l2 : zlen (l1 ++ l2) = zlen l1 + zlen l2.
Proof. unfold zlen. rewrite length_app. lia. Qed.

Lemma zlen_cons x l : zlen (x :: l) = 1 + zlen l.
Proof. unfold zlen. simpl. lia. Qed.

Lemma zlen_slice off n l :
  0 <= off -> 0 <= n -> off + n <= zlen l -> zlen (slice off n l) = n.
Proof. unfold zlen, slice. rewrite length_take, length_drop. lia. Qed.

Lemma zlen_splice off new l :
  0 <= off -> off + zlen new <= zlen l -> zlen (splice off new l) = zlen l.
Proof.
  unfold zlen, splice. rewrite !length_app, length_take, length_drop. lia.
Qed.

Lemma slice_splice_same off new l :
  0 <= off -> off + zlen new <= zlen l ->
  slice off (zlen new) (splice off new l) = new.
Proof.
  unfold zlen, splice, slice. intros.
  rewrite drop_app_length' by (rewrite length_take; lia).
  by rewrite Nat2Z.id, take_app_length.
Qed.

(** A write does not change what lies entirely before it. *)
Lemma slice_splice_before off new l o n :
  0 <= off -> off + zlen new <= zlen l -> 0 <= o -> o + n <= off ->
  slice o n (splice off new l) = slice o n l.
Proof.
  unfold zlen, splice, slice. intros.
  rewrite drop_app, take_app.
  rewrite length_drop, length_take.
  rewrite (proj2 (Nat.sub_0_le (Z.to_nat n) _)) by lia.
  rewrite take_0, app_nil_r.
  rewrite skipn_firstn_comm, take_take. f_equal. lia.
Qed.

Lemma slice_app_split off n m l :
  0 <= off -> 0 <= n -> 0 <= m ->
  slice off (n + m) l = slice off n l ++ slice (off + n) m l.
Proof.
  unfold slice. intros. rewrite !Z2Nat.inj_add by done.
  by rewrite <- drop_drop, take_take_drop.
Qed.

Lemma slice_all n l : n = zlen l -> slice 0 n l = l.
Proof. unfold zlen, slice. intros ->. rewrite Nat2Z.id. by rewrite drop_0, firstn_all. Qed.

Lemma slice_0_app l1 l2 n : n = zlen l1 -> slice 0 n (l1 ++ l2) = l1.
Proof. unfold zlen, slice. intros ->. rewrite Nat2Z.id, drop_0. by rewrite take_app_length. Qed.

Lemma slice_nil off l : slice off 0 l = [].
Proof. unfold slice. by rewrite take_0. Qed.

Lemma zlookup_Some_lt i l x : zlookup i l = Some x -> 0 <= i < zlen l.
Proof.
  unfold zlookup, zlen. destruct (Z.ltb_spec i 0); [done|].
  intros Hl%lookup_lt_Some. lia.
Qed.

Lemma zlookup_lt i l : 0 <= i < zlen l -> is_Some (zlookup i l).
Proof.
  unfold zlookup, zlen. intros. destruct (Z.ltb_spec i 0); [lia|].
  apply lookup_lt_is_Some. lia.
Qed.

Lemma zlookup_slice off n l i :
  0 <= off -> 0 <= i < n -> zlookup i (slice off n l) = zlookup (off + i) l.
Proof.
  unfold zlookup, slice. intros.
  destruct (Z.ltb_spec i 0); [lia|]. destruct (Z.ltb_spec (off + i) 0); [lia|].
  rewrite lookup_take_lt by lia. rewrite lookup_drop. f_equal. lia.
Qed.

(** Induction two elements at a time. *)
Lemma pair_ind (P : list A -> Prop) :
  P [] -> (forall x, P [x]) -> (forall x y l, P l -> P (x :: y :: l)) -> forall l, P l.
Proof.
  intros H0 H1 H2 l. cut (P l /\ forall x, P (x :: l)); [tauto|].
  induction l as [|y l [IH IH']]; auto.
Qed.
End zlists.

(** ** Tactics *)

(** Split the boolean tests of a definition into the propositions they decide. *)
Ltac bsplit :=
  repeat match goal with
  | H : _ && _ = true |- _ => apply andb_true_iff in H; destruct H
  | H : _ || _ = false |- _ => apply orb_false_iff in H; destruct H
  | H : negb _ = true |- _ => apply negb_true_iff in H
  | H : negb _ = false |- _ => apply negb_false_iff in H
  | H : (_ <=? _) = true |- _ => apply Z.leb_le in H
  | H : (_ <=? _) = false |- _ => apply Z.leb_gt in H
  | H : (_ <? _) = true |- _ => apply Z.ltb_lt in H
  | H : (_ <? _) = false |- _ => apply Z.ltb_ge in H
  | H : (_ =? _) = true |- _ => apply Z.eqb_eq in H
  | H : (_ =? _) = false |- _ => apply Z.eqb_neq in H
  | H : bool_decide _ = true |- _ => apply bool_decide_eq_true in H
  | H : bool_decide _ = false |- _ => apply bool_decide_eq_false in H
  end.

(** Case analysis on the next comparison in the goal. *)
Ltac zcase :=
  match goal with
  | |- context [?a <=? ?b] => destruct (Z.leb_spec a b)
  | |- context [?a <? ?b] => destruct (Z.ltb_spec a b)
  | |- context [?a =? ?b] => destruct (Z.eqb_spec a b)
  end.

(** [lia] on goals with [/] and [mod] by constants. *)
Ltac dmlia := Z.div_mod_to_equations; lia.

#[export] Hint Resolve zlen_nonneg : serval.
#[export] Hint Rewrite @zlen_app @zlen_cons : serval.
