(* ===== verification/Memory.v ===== *)
(** * Byte memory, pointers and the allocator

    The part of the C memory model the buffer code uses.  A heap maps block
    numbers to byte sequences; a pointer is a block and an offset, so two
    pointers into the same block alias.  Accesses outside a block are [Undef].
    [malloc(3)] is not part of the repository: it is the class [Allocator],
    whose laws are what the manual page promises. *)

From stdpp Require Import base tactics list fin_maps gmap infinite.
From Stdlib Require Import ZArith Lia.
From S2P Require Import Prelude.

Definition block : Type := nat.
Definition ptr : Type := block * Z.
Abbreviation heap := (gmap nat (list Z)).

(** ** Access *)

(** Pointer arithmetic ([p + n]); the offset is checked on access. *)
Definition ptr_add (p : ptr) (n : Z) : ptr := (p.1, p.2 + n).

(** [NULL + n] is only defined for [n = 0]. *)
Definition optr_add (p : option ptr) (n : Z) : outcome (option ptr) :=
  match p with
  | Some q => Ret (Some (ptr_add q n))
  | None => if n =? 0 then Ret None else Undef
  end.

Definition load_bytes (h : heap) (p : ptr) (n : Z) : outcome (list Z) :=
  match h !! p.1 with
  | Some blk =>
      if (0 <=? p.2) && (0 <=? n) && (p.2 + n <=? zlen blk)
      then Ret (slice p.2 n blk) else Undef
  | None => Undef
  end.

Definition load (h : heap) (p : ptr) : outcome Z :=
  match h !! p.1 with
  | Some blk => or_undef (zlookup p.2 blk)
  | None => Undef
  end.

Definition store_bytes (h : heap) (p : ptr) (new : list Z) : outcome heap :=
  match h !! p.1 with
  | Some blk =>
      if (0 <=? p.2) && (p.2 + zlen new <=? zlen blk)
      then Ret (<[p.1 := splice p.2 new blk]> h) else Undef
  | None => Undef
  end.

(** Dereferencing a possibly-NULL pointer. *)
Definition deref (p : option ptr) : outcome ptr := or_undef p.

(** ** Allocation *)

(** What [malloc(n)] gives: [None] for [NULL], else the (unspecified) initial
    contents of a new object of [n] bytes.  Objects are never larger than
    [SSIZE_MAX] bytes. *)
Class Allocator `{Arch} : Type := {
  malloc_bytes : heap -> Z -> option (list Z);
  malloc_size : forall h n l, malloc_bytes h n = Some l -> zlen l = n;
  malloc_max : forall h n l, malloc_bytes h n = Some l -> n <= SSIZE_MAX;
  malloc_range : forall h n l, malloc_bytes h n = Some l -> Forall is_byte l
}.

(** [malloc] places the object in a block that is not in use. *)
Definition emalloc `{Allocator} (h : heap) (n : Z) : option ptr * heap :=
  match malloc_bytes h n with
  | Some l => let b := fresh (dom h) in (Some (b, 0), <[b := l]> h)
  | None => (None, h)
  end.

(** [free(p)] of a pointer to the start of a block. *)
Definition mfree (h : heap) (p : ptr) : outcome heap :=
  match h !! p.1 with
  | Some _ => if p.2 =? 0 then Ret (delete p.1 h) else Undef
  | None => Undef
  end.

(** A concrete allocator that zeroes what it returns and fails on requests
    that exceed [limit] or [SSIZE_MAX]. *)
Definition zero_malloc (ssize_max limit : Z) (h : heap) (n : Z) : option (list Z) :=
  if (0 <=? n) && (n <=? Z.min limit ssize_max) then Some (repeat 0 (Z.to_nat n)) else None.

Lemma zero_malloc_spec m limit h n l :
  zero_malloc m limit h n = Some l -> zlen l = n /\ n <= m /\ Forall is_byte l.
Proof.
  unfold zero_malloc. case_match eqn:E; intros; simplify_eq. bsplit.
  unfold zlen. rewrite repeat_length. repeat split; [lia | lia |].
  apply Forall_forall. intros x Hx%list_elem_of_In%repeat_spec. unfold is_byte. lia.
Qed.

Program Definition zero_allocator (A : Arch) (limit : Z) : @Allocator A :=
  {| malloc_bytes := zero_malloc (@SSIZE_MAX A) limit |}.
Next Obligation. intros A limit h n l E. by apply zero_malloc_spec in E as (? & ? & ?). Qed.
Next Obligation. intros A limit h n l E. by apply zero_malloc_spec in E as (? & ? & ?). Qed.
Next Obligation. intros A limit h n l E. by apply zero_malloc_spec in E as (? & ? & ?). Qed.

(** ** Lemmas *)

Lemma load_bytes_ok h p n blk :
  h !! p.1 = Some blk -> 0 <= p.2 -> 0 <= n -> p.2 + n <= zlen blk ->
  load_bytes h p n = Ret (slice p.2 n blk).
Proof.
  intros Hb ???. unfold load_bytes. rewrite Hb.
  repeat (rewrite (proj2 (Z.leb_le _ _)) by lia). done.
Qed.

Lemma store_bytes_ok h p new blk :
  h !! p.1 = Some blk -> 0 <= p.2 -> p.2 + zlen new <= zlen blk ->
  store_bytes h p new = Ret (<[p.1 := splice p.2 new blk]> h).
Proof.
  intros Hb ??. unfold store_bytes. rewrite Hb.
  repeat (rewrite (proj2 (Z.leb_le _ _)) by lia). done.
Qed.

Lemma load_ok h p blk :
  h !! p.1 = Some blk -> 0 <= p.2 < zlen blk ->
  exists x, zlookup p.2 blk = Some x /\ load h p = Ret x.
Proof.
  intros Hb Hr. unfold load. rewrite Hb. destruct (zlookup_lt p.2 blk Hr) as [x Hx].
  exists x. by rewrite Hx.
Qed.

Lemma emalloc_spec `{Allocator} h n p h' :
  emalloc h n = (p, h') ->
  match p with
  | None => h' = h
  | Some q => q.2 = 0 /\ h !! q.1 = None /\ n <= SSIZE_MAX /\
      exists l, zlen l = n /\ Forall is_byte l /\ h' = <[q.1 := l]> h
  end.
Proof.
  unfold emalloc. case_match eqn:E; intros; simplify_eq; [|done].
  simpl. split; [done|]. split.
  - apply not_elem_of_dom. apply is_fresh.
  - split; [by eapply malloc_max|]. eexists. split; [by eapply malloc_size|].
    split; [by eapply malloc_range | done].
Qed.

(** ** The heap monad

    C code that touches memory: state passing over the heap, with outcomes. *)
Definition HM (A : Type) : Type := heap -> outcome (A * heap).

Global Instance HM_ret : MRet HM := fun A a h => Ret (a, h).
Global Instance HM_bind : MBind HM := fun A B f m h =>
  match m h with
  | Ret (a, h') => f a h'
  | Abort => Abort
  | Undef => Undef
  end.

Definition hlift {A} (m : outcome A) : HM A := fun h =>
  match m with Ret a => Ret (a, h) | Abort => Abort | Undef => Undef end.
Definition hread {A} (f : heap -> outcome A) : HM A := fun h => hlift (f h) h.
Definition hwrite (f : heap -> outcome heap) : HM unit := fun h =>
  match f h with Ret h' => Ret (tt, h') | Abort => Abort | Undef => Undef end.
Definition hassert (c : bool) : HM unit := hlift (cassert c).
Definition halloc `{Allocator} (n : Z) : HM (option ptr) := fun h => Ret (emalloc h n).

(** Whether [emalloc_zero(n)] of a C struct succeeds.  The struct itself is a
    Rocq record, so only the success of its allocation matters. *)
Definition hstruct `{Allocator} (n : Z) : HM bool := fun h =>
  Ret (match malloc_bytes h n with Some _ => true | None => false end, h).

(** [hsafe m h P]: started in [h], [m] has no undefined behaviour, and when it
    returns, [P] holds of the result and the final heap. *)
Definition hsafe {A} (m : HM A) (h : heap) (P : A -> heap -> Prop) : Prop :=
  match m h with Ret (a, h') => P a h' | Abort => True | Undef => False end.

Lemma hsafe_bind {A B} (m : HM A) (f : A -> HM B) h P Q :
  hsafe m h P -> (forall a h', P a h' -> hsafe (f a) h' Q) -> hsafe (m ≫= f) h Q.
Proof.
  intros Hm Hf. unfold hsafe in *. unfold mbind, HM_bind.
  destruct (m h) as [[a h']| |]; [by apply Hf | done | done].
Qed.

Lemma hsafe_ret {A} (a : A) h (P : A -> heap -> Prop) : P a h -> hsafe (mret a) h P.
Proof. done. Qed.

Lemma hsafe_assert c h (P : unit -> heap -> Prop) :
  (c = true -> P tt h) -> hsafe (hassert c) h P.
Proof. destruct c; unfold hsafe; simpl; auto. Qed.

Lemma hsafe_mono {A} (m : HM A) h (P Q : A -> heap -> Prop) :
  hsafe m h P -> (forall a h', P a h' -> Q a h') -> hsafe m h Q.
Proof. unfold hsafe. destruct (m h) as [[a h']| |]; auto. Qed.

Lemma HM_bind_Ret {A B} (m : HM A) (f : A -> HM B) h a h' :
  m h = Ret (a, h') -> (m ≫= f) h = f a h'.
Proof. unfold mbind, HM_bind. by intros ->. Qed.

Lemma hassert_true c h : c = true -> hassert c h = Ret (tt, h).
Proof. by intros ->. Qed.
