(* ===== verification/OverlayBuffer.v ===== *)
(** * overlay_buffer.c: the growable packet buffer

    [struct overlay_buffer] and every operation on it, over the byte heap of
    [Memory].  Buffers made by [ob_static] and [ob_slice] alias memory they do
    not own, buffers made by [ob_new] own a block that [ob_makespace] grows.
    The [DEBUGF]/[dump] calls guarded by [config.debug.overlaybuffer] only log
    and are left out. *)

From stdpp Require Import base tactics list fin_maps gmap.
From Stdlib Require Import ZArith Lia.
From S2P Require Import Prelude Memory.

Record overlay_buffer : Type := OB {
  ob_bytes : option ptr;       (* unsigned char *bytes *)
  checkpointLength : Z;
  position : Z;
  sizeLimit : Z;
  allocSize : Z;
  allocated : option ptr       (* unsigned char *allocated *)
}.

Definition set_bytes (p : option ptr) (b : overlay_buffer) : overlay_buffer :=
  OB p (checkpointLength b) (position b) (sizeLimit b) (allocSize b) (allocated b).
Definition set_checkpointLength (n : Z) (b : overlay_buffer) : overlay_buffer :=
  OB (ob_bytes b) n (position b) (sizeLimit b) (allocSize b) (allocated b).
Definition set_position (n : Z) (b : overlay_buffer) : overlay_buffer :=
  OB (ob_bytes b) (checkpointLength b) n (sizeLimit b) (allocSize b) (allocated b).
Definition set_sizeLimit (n : Z) (b : overlay_buffer) : overlay_buffer :=
  OB (ob_bytes b) (checkpointLength b) (position b) n (allocSize b) (allocated b).

Definition is_null (p : option ptr) : bool := match p with None => true | Some _ => false end.

(** ** Lifecycle *)
Section overlay_buffer.
Context {AR : Arch} {AL : Allocator}.

(** Six pointer-sized fields. *)
Definition sizeof_overlay_buffer : Z := 6 * ptr_bytes.

Definition ob_zero : overlay_buffer := OB None 0 0 0 0 None.

Definition ob_unlimitsize (b : overlay_buffer) : overlay_buffer :=
  set_sizeLimit SIZE_MAX b.

Definition ob_new : HM (option overlay_buffer) :=
  ok ← hstruct sizeof_overlay_buffer;
  mret (if ok : bool then Some (ob_unlimitsize ob_zero) else None).

Definition ob_static (bytes : option ptr) (size : Z) : HM (option overlay_buffer) :=
  ok ← hstruct sizeof_overlay_buffer;
  mret (if ok : bool then Some (ob_unlimitsize (OB bytes 0 0 0 size None)) else None).

Definition ob_slice (b : overlay_buffer) (offset length : Z) : HM (option overlay_buffer) :=
  if allocSize b <? sz (offset + length) then mret None
  else
    ok ← hstruct sizeof_overlay_buffer;
    if ok : bool then
      p ← hlift (optr_add (ob_bytes b) offset);
      mret (Some (ob_unlimitsize (OB p 0 0 0 length None)))
    else mret None.

Definition ob_free (b : overlay_buffer) : HM unit :=
  match allocated b with
  | Some p => hwrite (fun h => mfree h p)
  | None => mret tt
  end.

Definition ob_checkpoint (b : overlay_buffer) : overlay_buffer :=
  set_checkpointLength (position b) b.

Definition ob_rewind (b : overlay_buffer) : overlay_buffer :=
  set_position (checkpointLength b) b.

Definition ob_limitsize (b : overlay_buffer) (bytes : Z) : outcome overlay_buffer :=
  cassert (negb (bytes =? SIZE_MAX));;
  cassert (position b <=? bytes);;
  cassert (checkpointLength b <=? bytes);;
  cassert (if negb (is_null (ob_bytes b)) && is_null (allocated b)
           then bytes <=? allocSize b else true);;
  Ret (set_sizeLimit bytes b).

Definition ob_flip (b : overlay_buffer) : outcome overlay_buffer :=
  let b := set_checkpointLength 0 b in
  b ← ob_limitsize b (position b);
  Ret (set_position 0 b).

Definition ob_clear (b : overlay_buffer) : overlay_buffer :=
  ob_unlimitsize (set_position 0 (set_checkpointLength 0 b)).

(** ** Growing *)

(** The size [ob_makespace] allocates for [n] bytes: at least 64, rounded up
    to 64, to 1024 beyond 1024 and to 65536 beyond 65536. *)
Definition ob_grow_size (n : Z) : Z :=
  let s := if n <? 64 then 64 else n in
  let s := if Z.land s 63 =? 0 then s else sz (s + (64 - Z.land s 63)) in
  let s := if (1024 <? s) && negb (Z.land s 1023 =? 0)
           then sz (s + (1024 - Z.land s 1023)) else s in
  if (65536 <? s) && negb (Z.land s 65535 =? 0)
  then sz (s + (65536 - Z.land s 65535)) else s.

(** Returns 1 if space is available, 0 if not. *)
Definition ob_makespace (b : overlay_buffer) (bytes : Z) : HM (Z * overlay_buffer) :=
  hassert (position b <=? sizeLimit b);;
  hassert (position b <=? allocSize b);;
  hassert (if position b =? 0 then true else negb (is_null (ob_bytes b)));;
  if sizeLimit b <? sz (position b + bytes) then mret (0, b)
  else if sz (position b + bytes) <=? allocSize b then mret (1, b)
  else if negb (is_null (ob_bytes b)) && is_null (allocated b) then mret (0, b)
  else
    let newSize := ob_grow_size (sz (position b + bytes)) in
    new ← halloc newSize;
    match new with
    | None => mret (0, b)
    | Some q =>
        (* bcopy(b->bytes, new, b->position) *)
        (if position b =? 0 then mret tt
         else p ← hlift (deref (ob_bytes b));
              old ← hread (fun h => load_bytes h p (position b));
              hwrite (fun h => store_bytes h q old));;
        match allocated b with
        | Some a =>
            hassert (bool_decide (allocated b = ob_bytes b));;
            hwrite (fun h => mfree h a)
        | None => mret tt
        end;;
        mret (1, OB (Some q) (checkpointLength b) (position b) (sizeLimit b)
                    newSize (Some q))
    end.

(** ** Appending

    [ob_put b vs]: the common shape of the fixed-size appenders, which write
    [vs] at [position] when [ob_makespace] finds room and always advance. *)
Definition ob_put (b : overlay_buffer) (vs : list Z) : HM overlay_buffer :=
  '(r, b) ← ob_makespace b (zlen vs);
  (if negb (r =? 0)
   then p ← hlift (deref (ob_bytes b));
        hwrite (fun h => store_bytes h (ptr_add p (position b)) vs)
   else mret tt);;
  mret (set_position (sz (position b + zlen vs)) b).

Definition ob_append_byte (b : overlay_buffer) (byte : Z) : HM overlay_buffer :=
  ob_put b [u8 byte].

(** Returns the pointer to the reserved space, or [NULL]. *)
Definition ob_append_space (b : overlay_buffer) (count : Z)
    : HM (option ptr * overlay_buffer) :=
  hassert (0 <? count);;
  '(r, b) ← ob_makespace b count;
  let p := if negb (r =? 0)
           then option_map (fun p => ptr_add p (position b)) (ob_bytes b) else None in
  mret (p, set_position (sz (position b + count)) b).

(** [src] are the [count] bytes the caller points at. *)
Definition ob_append_bytes (b : overlay_buffer) (src : list Z) : HM overlay_buffer :=
  hassert (0 <? zlen src);;
  ob_put b src.

(** [str] without its terminating NUL, which is appended too. *)
Definition ob_append_str (b : overlay_buffer) (str : list Z) : HM overlay_buffer :=
  ob_append_bytes b (str ++ [0]).

Definition byte_at (v k : Z) : Z := Z.land (Z.shiftr v k) 0xFF.

Definition ob_append_ui16 (b : overlay_buffer) (v : Z) : HM overlay_buffer :=
  ob_put b [byte_at v 8; byte_at v 0].
Definition ob_append_ui16_rv (b : overlay_buffer) (v : Z) : HM overlay_buffer :=
  ob_put b [byte_at v 0; byte_at v 8].
Definition ob_append_ui32 (b : overlay_buffer) (v : Z) : HM overlay_buffer :=
  ob_put b [byte_at v 24; byte_at v 16; byte_at v 8; byte_at v 0].
Definition ob_append_ui32_rv (b : overlay_buffer) (v : Z) : HM overlay_buffer :=
  ob_put b [byte_at v 0; byte_at v 8; byte_at v 16; byte_at v 24].
Definition ob_append_ui64 (b : overlay_buffer) (v : Z) : HM overlay_buffer :=
  ob_put b [byte_at v 56; byte_at v 48; byte_at v 40; byte_at v 32;
            byte_at v 24; byte_at v 16; byte_at v 8; byte_at v 0].
Definition ob_append_ui64_rv (b : overlay_buffer) (v : Z) : HM overlay_buffer :=
  ob_put b [byte_at v 0; byte_at v 8; byte_at v 16; byte_at v 24;
            byte_at v 32; byte_at v 40; byte_at v 48; byte_at v 56].

(** Variable-length integers: seven bits per byte, least significant first,
    the top bit set on every byte but the last.  The loops run until the
    value is zero; ten rounds are enough for 64 bits. *)
Definition pack_byte (v : Z) : Z := Z.lor (Z.land v 0x7f) (if 0x7f <? v then 0x80 else 0).

Fixpoint measure_packed_loop (fuel : nat) (v ret : Z) : Z :=
  match fuel with
  | O => ret
  | S fuel =>
      let v := Z.shiftr v 7 in
      let ret := ret + 1 in
      if v =? 0 then ret else measure_packed_loop fuel v ret
  end.
Definition measure_packed_uint (v : Z) : Z := measure_packed_loop 10 v 0.

(** The bytes [pack_uint] stores; it returns their number. *)
Fixpoint pack_uint_loop (fuel : nat) (v : Z) : list Z :=
  match fuel with
  | O => []
  | S fuel =>
      pack_byte v ::
      (if Z.shiftr v 7 =? 0 then [] else pack_uint_loop fuel (Z.shiftr v 7))
  end.
Definition pack_uint (v : Z) : list Z := pack_uint_loop 10 v.

(** [(byte & 0x7f) << k] on [int]: undefined for [k >= 32]; the result is
    converted to the type it is or-ed into, which sign-extends it. *)
Definition int_shl (x k : Z) : outcome Z :=
  if 32 <=? k then Undef else Ret (s32 (Z.shiftl x k)).

(** [unpack_uint]: -1 when the bytes end early, else the number of bytes read
    and the value. *)
Fixpoint unpack_uint_loop (buffer : list Z) (i v : Z) : outcome (option (Z * Z)) :=
  match buffer with
  | [] => Ret None
  | byte :: rest =>
      x ← int_shl (Z.land byte 0x7f) (i * 7);
      let v := Z.lor v (u64 x) in
      let i := i + 1 in
      if Z.land byte 0x80 =? 0 then Ret (Some (i, v)) else unpack_uint_loop rest i v
  end.
Definition unpack_uint (buffer : list Z) : outcome (option (Z * Z)) :=
  unpack_uint_loop buffer 0 0.

Fixpoint ob_append_packed_loop (fuel : nat) (b : overlay_buffer) (v : Z) : HM overlay_buffer :=
  match fuel with
  | O => mret b
  | S fuel =>
      b ← ob_append_byte b (pack_byte v);
      let v := Z.shiftr v 7 in
      if v =? 0 then mret b else ob_append_packed_loop fuel b v
  end.
Definition ob_append_packed_ui32 (b : overlay_buffer) (v : Z) : HM overlay_buffer :=
  ob_append_packed_loop 5 b v.
Definition ob_append_packed_ui64 (b : overlay_buffer) (v : Z) : HM overlay_buffer :=
  ob_append_packed_loop 10 b v.

(** ** Reading *)

(** 0 when [length] bytes from [position] are valid for reading, else -1. *)
Definition test_offset (b : overlay_buffer) (length : Z) : Z :=
  if sizeLimit b <? sz (position b + length) then -1
  else if allocSize b <? sz (position b + length) then -1
  else 0.

Definition readable (b : overlay_buffer) (length : Z) : bool := test_offset b length =? 0.

(** [b->bytes[b->position + i]] *)
Definition ob_byte (b : overlay_buffer) (i : Z) : HM Z :=
  p ← hlift (deref (ob_bytes b));
  hread (fun h => load h (ptr_add p (position b + i))).

Definition ob_peek (b : overlay_buffer) : HM Z :=
  if readable b 1 then ob_byte b 0 else mret (-1).

Definition ob_skip (b : overlay_buffer) (n : Z) : overlay_buffer :=
  set_position (sz (position b + n)) b.

(** Scan for the NUL from [position]: [test_offset(b, ofs)] is checked before
    [ret[ofs]] is read.  [fuel] bounds the scan by the size of the buffer; a
    scan that has not stopped by then has left the buffer. *)
Fixpoint ob_get_str_loop (fuel : nat) (b : overlay_buffer) (ofs : Z)
    : HM (option ptr * overlay_buffer) :=
  match fuel with
  | O => hlift Undef
  | S fuel =>
      if readable b ofs then
        c ← ob_byte b ofs;
        if c =? 0
        then mret (option_map (fun p => ptr_add p (position b)) (ob_bytes b),
                   set_position (sz (position b + (ofs + 1))) b)
        else ob_get_str_loop fuel b (ofs + 1)
      else mret (None, b)
  end.
Definition ob_get_str_ptr (b : overlay_buffer) : HM (option ptr * overlay_buffer) :=
  ob_get_str_loop (S (S (Z.to_nat (allocSize b - position b)))) b 0.

(** [None] stands for the -1 return; the bytes are copied to the caller. *)
Definition ob_get_bytes (b : overlay_buffer) (len : Z)
    : HM (option (list Z) * overlay_buffer) :=
  if readable b len then
    src ← (if len =? 0 then mret []
           else p ← hlift (deref (ob_bytes b));
                hread (fun h => load_bytes h (ptr_add p (position b)) len));
    mret (Some src, set_position (sz (position b + len)) b)
  else mret (None, b).

Definition ob_get_bytes_ptr (b : overlay_buffer) (len : Z)
    : HM (option ptr * overlay_buffer) :=
  if readable b len then
    p ← hlift (optr_add (ob_bytes b) (position b));
    mret (p, set_position (sz (position b + len)) b)
  else mret (None, b).

(** The [n] bytes at [position], one array access each, and the advance. *)
Fixpoint ob_fetch (b : overlay_buffer) (i : Z) (n : nat) : HM (list Z) :=
  match n with
  | O => mret []
  | S n => x ← ob_byte b i; xs ← ob_fetch b (i + 1) n; mret (x :: xs)
  end.

Definition ob_get_fixed (b : overlay_buffer) (n dflt : Z) (combine : list Z -> Z)
    : HM (Z * overlay_buffer) :=
  if readable b n then
    xs ← ob_fetch b 0 (Z.to_nat n);
    mret (combine xs, set_position (sz (position b + n)) b)
  else mret (dflt, b).

(** [x << k] of a byte promoted to [int]. *)
Definition ishl (x k : Z) : Z := s32 (Z.shiftl x k).
(** [(uint64_t)x << k]. *)
Definition ushl64 (x k : Z) : Z := u64 (Z.shiftl x k).

Definition be32 (xs : list Z) : Z :=
  match xs with
  | [a; b; c; d] => u32 (Z.lor (Z.lor (Z.lor (ishl a 24) (ishl b 16)) (ishl c 8)) d)
  | _ => 0 end.
Definition le32 (xs : list Z) : Z :=
  match xs with
  | [a; b; c; d] => u32 (Z.lor (Z.lor (Z.lor a (ishl b 8)) (ishl c 16)) (ishl d 24))
  | _ => 0 end.
(** As written: the fourth byte is shifted by 36, and the low four bytes are
    combined as [int], whose sign extends into the upper half. *)
Definition be64 (xs : list Z) : Z :=
  match xs with
  | [a; b; c; d; e; f; g; i] =>
      Z.lor (Z.lor (Z.lor (Z.lor (Z.lor (Z.lor (Z.lor
        (ushl64 a 56) (ushl64 b 48)) (ushl64 c 40)) (ushl64 d 36))
        (u64 (ishl e 24))) (u64 (ishl f 16))) (u64 (ishl g 8))) i
  | _ => 0 end.
Definition le64 (xs : list Z) : Z :=
  match xs with
  | [a; b; c; d; e; f; g; i] =>
      Z.lor (Z.lor (Z.lor (Z.lor (Z.lor (Z.lor (Z.lor
        a (ushl64 b 8)) (ushl64 c 16)) (ushl64 d 24))
        (ushl64 e 32)) (ushl64 f 40)) (ushl64 g 48)) (ushl64 i 56)
  | _ => 0 end.
Definition be16 (xs : list Z) : Z :=
  match xs with [a; b] => u16 (Z.lor (ishl a 8) b) | _ => 0 end.
Definition le16 (xs : list Z) : Z :=
  match xs with [a; b] => u16 (Z.lor a (ishl b 8)) | _ => 0 end.

Definition ob_get_ui32 b := ob_get_fixed b 4 0xFFFFFFFF be32.
Definition ob_get_ui32_rv b := ob_get_fixed b 4 0xFFFFFFFF le32.
Definition ob_get_ui64 b := ob_get_fixed b 8 0xFFFFFFFF be64.
Definition ob_get_ui64_rv b := ob_get_fixed b 8 0xFFFFFFFF le64.
Definition ob_get_ui16 b := ob_get_fixed b 2 0xFFFF be16.
Definition ob_get_ui16_rv b := ob_get_fixed b 2 0xFFFF le16.

Definition ob_get (b : overlay_buffer) : HM (Z * overlay_buffer) :=
  if readable b 1 then
    x ← ob_byte b 0; mret (x, set_position (sz (position b + 1)) b)
  else mret (-1, b).

(** [w] is 32 or 64.  [WHY] returns -1, converted to the result type.  The
    sixth round would shift by 35 bits and is undefined, so six rounds are
    enough. *)
Fixpoint ob_get_packed_loop (fuel : nat) (w : Z) (b : overlay_buffer) (ret shift : Z)
    : HM (Z * overlay_buffer) :=
  match fuel with
  | O => hlift Undef
  | S fuel =>
      '(byte, b) ← ob_get b;
      if byte <? 0 then mret (uN w (-1), b)
      else
        x ← hlift (int_shl (Z.land byte 0x7f) shift);
        let ret := Z.lor ret (uN w x) in
        if Z.land byte 0x80 =? 0 then mret (ret, b)
        else ob_get_packed_loop fuel w b ret (shift + 7)
  end.
Definition ob_get_packed_ui32 b := ob_get_packed_loop 6 32 b 0 0.
Definition ob_get_packed_ui64 b := ob_get_packed_loop 6 64 b 0 0.

(** ** Overwriting and information *)

Definition ob_set_at (b : overlay_buffer) (offset : Z) (vs : list Z) : HM unit :=
  hassert (sz (offset + zlen vs) <=? sizeLimit b);;
  hassert (sz (offset + zlen vs) <=? allocSize b);;
  p ← hlift (deref (ob_bytes b));
  hwrite (fun h => store_bytes h (ptr_add p offset) vs).
Definition ob_set_ui16 (b : overlay_buffer) (offset v : Z) : HM unit :=
  ob_set_at b offset [byte_at v 8; byte_at v 0].
Definition ob_set (b : overlay_buffer) (offset byte : Z) : HM unit :=
  ob_set_at b offset [u8 byte].

Definition ob_position (b : overlay_buffer) : Z := position b.
Definition ob_limit (b : overlay_buffer) : Z := sizeLimit b.
Definition ob_remaining (b : overlay_buffer) : outcome Z :=
  cassert (negb (sizeLimit b =? SIZE_MAX));;
  cassert (position b <=? sizeLimit b);;
  Ret (sizeLimit b - position b).
Definition ob_overrun (b : overlay_buffer) : bool :=
  (if negb (sizeLimit b =? SIZE_MAX) && (sizeLimit b <? allocSize b)
   then sizeLimit b else allocSize b) <? position b.
Definition ob_ptr (b : overlay_buffer) : option ptr := ob_bytes b.
Definition ob_current_ptr (b : overlay_buffer) : outcome (option ptr) :=
  optr_add (ob_bytes b) (position b).

Definition asprintable (c : Z) : Z :=
  if c <? 32 then 46 else if 0x7e <? c then 46 else c.

(** [ob_append_bytes] reads its source only when there is room; here the
    source is the buffer being duplicated. *)
Definition ob_dup (b : overlay_buffer) : HM (option overlay_buffer) :=
  ok ← hstruct sizeof_overlay_buffer;
  if ok : bool then
    let ret := OB None (checkpointLength b) (position b) (sizeLimit b) 0 None in
    if negb (is_null (ob_bytes b)) && negb (allocSize b =? 0) then
      hassert (if sizeLimit b =? SIZE_MAX then true else position b <=? sizeLimit b);;
      let byteCount := if sizeLimit b =? SIZE_MAX then position b else sizeLimit b in
      let byteCount := if allocSize b <? byteCount then allocSize b else byteCount in
      if byteCount =? 0 then mret (Some ret)
      else
        p ← hlift (deref (ob_bytes b));
        src ← hread (fun h => load_bytes h p byteCount);
        ret ← ob_append_bytes ret src;
        mret (Some ret)
    else mret (Some ret)
  else mret None.
End overlay_buffer.
