(* ===== verification/OverlayBufferFacts.v ===== *)
(** * overlay_buffer.c: memory safety and functional behaviour

    The well-formedness invariant of a buffer and its heap, the exact behaviour
    of [ob_makespace] and of the appenders built on it, memory safety of every
    sequence of buffer operations, and the read/write round trips. *)

From stdpp Require Import base tactics list fin_maps gmap.
From Stdlib Require Import ZArith Lia.
From S2P Require Import Prelude Memory OverlayBuffer.

Section facts.
Context {AR : Arch} {AL : Allocator}.
Implicit Types (h : heap) (b : overlay_buffer).

(** ** Invariant *)

(** Every object holds bytes and is at most [SSIZE_MAX] long. *)
Definition heap_ok h : Prop :=
  forall i blk, h !! i = Some blk -> zlen blk <= SSIZE_MAX /\ Forall is_byte blk.

Record ob_wf h b : Prop := {
  wf_pos : 0 <= position b <= SIZE_MAX;
  wf_chk : 0 <= checkpointLength b <= SIZE_MAX;
  wf_lim : 0 <= sizeLimit b <= SIZE_MAX;
  wf_mem :
    match ob_bytes b with
    | None => allocSize b = 0
    | Some p => 0 <= p.2 /\ 0 <= allocSize b /\
        exists blk, h !! p.1 = Some blk /\ p.2 + allocSize b <= zlen blk
    end;
  wf_own : forall a, allocated b = Some a -> ob_bytes b = Some a /\ a.2 = 0
}.

(** The bytes written so far. *)
Definition ob_contents h b : list Z :=
  match ob_bytes b with
  | Some p => match h !! p.1 with Some blk => slice p.2 (position b) blk | None => [] end
  | None => []
  end.

(** A buffer over memory it does not own cannot grow. *)
Definition is_static b : bool := negb (is_null (ob_bytes b)) && is_null (allocated b).

(** A write changes only the bytes it covers. *)
Lemma zlookup_splice_out off (new l : list Z) j :
  0 <= off -> off + zlen new <= zlen l -> j < off \/ off + zlen new <= j ->
  zlookup j (splice off new l) = zlookup j l.
Proof.
  unfold zlen, splice, zlookup. intros H0 H1 Hj. destruct (Z.ltb_spec j 0); [done|].
  destruct Hj.
  - by rewrite lookup_app_l, lookup_take_lt by (rewrite ?length_take; lia).
  - rewrite lookup_app_r by (rewrite length_take; lia).
    rewrite lookup_app_r by (rewrite length_take; lia).
    rewrite lookup_drop, length_take. f_equal. lia.
Qed.

(** The block [i] holds the buffer's bytes. *)
Definition points b (i : nat) : Prop := exists o, ob_bytes b = Some (i, o).

(** What passing from [b] in [h] to [b'] in [h'] leaves alone.  Blocks the
    buffer does not point into keep their contents, and it does not come to
    point into them.  A buffer over memory it does not own stays on it, and of
    that block only the bytes of the buffer's own window may change.  No block
    appears but the one the buffer points into, and the block it pointed into
    is either still its own or freed. *)
Record framed h b h' b' : Prop := {
  fr_blocks : forall i blk, h !! i = Some blk -> ~ points b i -> h' !! i = Some blk /\ ~ points b' i;
  fr_window : forall p blk, ob_bytes b = Some p -> allocated b = None -> h !! p.1 = Some blk ->
    ob_bytes b' = Some p /\ allocated b' = None /\ allocSize b' = allocSize b /\
    exists blk', h' !! p.1 = Some blk' /\ zlen blk' = zlen blk /\
      forall j, j < p.2 \/ p.2 + allocSize b <= j -> zlookup j blk' = zlookup j blk;
  fr_leak : forall i, is_Some (h' !! i) -> points b' i \/ (is_Some (h !! i) /\ ~ points b i);
  fr_own : is_static b = false -> is_static b' = false
}.

#[local] Instance points_dec b i : Decision (points b i).
Proof.
  destruct (ob_bytes b) as [[j o]|] eqn:E.
  - destruct (decide (j = i)) as [<-|Hn]; [left; by exists o|].
    right. intros [o' Ho]. rewrite E in Ho. congruence.
  - right. intros [o' Ho]. congruence.
Qed.

(** Nothing happened to the memory, and the buffer still covers the same. *)
Lemma framed_same h b b' :
  ob_bytes b' = ob_bytes b -> allocated b' = allocated b -> allocSize b' = allocSize b ->
  framed h b h b'.
Proof.
  intros Eb Ea Es. assert (forall i, points b' i <-> points b i) as Hp
    by (intros i; unfold points; by rewrite Eb).
  split.
  - intros i blk Hi Hn. split; [done|]. by rewrite Hp.
  - intros p blk Hp' Ha Hi. rewrite Eb, Ea, Es. split; [done|]. split; [done|]. split; [done|].
    by exists blk.
  - intros i Hi. destruct (points_dec b i) as [|Hn]; [left; by apply Hp|by right].
  - unfold is_static. by rewrite Eb, Ea.
Qed.

Lemma framed_refl h b : framed h b h b.
Proof. by apply framed_same. Qed.

Lemma framed_trans h b h1 b1 h2 b2 : framed h b h1 b1 -> framed h1 b1 h2 b2 -> framed h b h2 b2.
Proof.
  intros [Hb1 Hw1 Hl1 Ho1] [Hb2 Hw2 Hl2 Ho2]. split; [..|by auto].
  - intros i blk Hi Hn. destruct (Hb1 _ _ Hi Hn) as [Hi1 Hn1]. by apply Hb2.
  - intros p blk Hp Ha Hi. destruct (Hw1 _ _ Hp Ha Hi) as (Hp1 & Ha1 & Es & blk1 & Hi1 & El & Hj1).
    destruct (Hw2 _ _ Hp1 Ha1 Hi1) as (Hp2 & Ha2 & Es2 & blk2 & Hi2 & El2 & Hj2).
    split; [done|]. split; [done|]. split; [congruence|]. exists blk2. split; [done|].
    split; [congruence|]. intros j Hj. rewrite Hj2 by (rewrite Es; done). by apply Hj1.
  - intros i [Hi|[Hi Hn]]%Hl2; [by left|]. destruct (Hl1 _ Hi) as [|]; [done|by right].
Qed.

(** A store inside the buffer's window. *)
Lemma framed_store h b b' p blk off vs :
  ob_bytes b = Some p -> h !! p.1 = Some blk -> 0 <= p.2 -> p.2 + allocSize b <= zlen blk ->
  0 <= off -> off + zlen vs <= allocSize b ->
  ob_bytes b' = ob_bytes b -> allocated b' = allocated b -> allocSize b' = allocSize b ->
  framed h b (<[p.1 := splice (p.2 + off) vs blk]> h) b'.
Proof.
  intros Hp Hblk H0 Hal Hoff Hlen Eb Ea Es. pose proof (zlen_nonneg vs).
  assert (points b p.1) as Hpt by (exists p.2; rewrite Hp; by destruct p).
  assert (forall i, points b' i <-> points b i) as Hpi
    by (intros i; unfold points; by rewrite Eb).
  split.
  - intros i bl Hi Hn. split; [|by rewrite Hpi]. rewrite lookup_insert_ne; [done|].
    by intros <-.
  - intros p' bl Hp' Ha Hi. rewrite Hp in Hp'. injection Hp' as <-.
    rewrite Hblk in Hi. injection Hi as <-. rewrite Eb, Ea, Es. repeat (split; [done|]).
    eexists. rewrite lookup_insert_eq. split; [done|]. split; [apply zlen_splice; lia|].
    intros j Hj. apply zlookup_splice_out; lia.
  - intros i Hi. destruct (points_dec b i) as [|Hn]; [left; by apply Hpi|]. right. split; [|done].
    rewrite lookup_insert_ne in Hi; [done|]. by intros <-.
  - unfold is_static. by rewrite Eb, Ea.
Qed.

Lemma SSIZE_SIZE : 2 * SSIZE_MAX + 1 = SIZE_MAX /\ 2 ^ 31 - 1 <= SSIZE_MAX.
Proof. unfold SSIZE_MAX, SIZE_MAX. destruct ptr_bytes_spec as [-> | ->]; split; lia. Qed.

Lemma wf_allocSize h b : heap_ok h -> ob_wf h b -> 0 <= allocSize b <= SSIZE_MAX.
Proof.
  intros Hh [_ _ _ Hm _]. pose proof SSIZE_SIZE.
  destruct (ob_bytes b) as [p|]; [|lia].
  destruct Hm as (? & ? & blk & Hb & ?). apply Hh in Hb. lia.
Qed.

(** ** Growth *)

Lemma land_pow2_sub_1 s k : 0 <= k -> Z.land s (2 ^ k - 1) = s mod 2 ^ k.
Proof. intros. rewrite <- Z.land_ones by done. by rewrite Z.ones_equiv, Z.sub_1_r. Qed.

Lemma grow_step s k s' :
  0 <= k <= 16 -> 0 <= s <= SSIZE_MAX + 2 ^ 17 ->
  s' = (if Z.land s (2 ^ k - 1) =? 0 then s else sz (s + (2 ^ k - Z.land s (2 ^ k - 1)))) ->
  s <= s' < s + 2 ^ k.
Proof.
  intros Hk Hs ->. rewrite land_pow2_sub_1 by lia.
  pose proof (Z.mod_pos_bound s (2 ^ k)). pose proof SSIZE_SIZE.
  assert (2 ^ k <= 2 ^ 16) by (apply Z.pow_le_mono_r; lia).
  zcase; [lia|]. rewrite sz_small by lia. lia.
Qed.

(** The new size is big enough and the computation does not wrap. *)
Lemma ob_grow_size_ge n : 0 <= n <= SSIZE_MAX -> n <= ob_grow_size n <= SSIZE_MAX + 2 ^ 17.
Proof.
  intros Hn. unfold ob_grow_size. pose proof SSIZE_SIZE.
  set (s0 := if n <? 64 then 64 else n).
  assert (n <= s0 <= SSIZE_MAX) by (subst s0; zcase; lia). clearbody s0.
  set (s1 := if Z.land s0 63 =? 0 then s0 else sz (s0 + (64 - Z.land s0 63))).
  pose proof (grow_step s0 6 s1 ltac:(lia) ltac:(lia) eq_refl). clearbody s1.
  set (s2 := if (1024 <? s1) && negb (Z.land s1 1023 =? 0)
             then sz (s1 + (1024 - Z.land s1 1023)) else s1).
  assert (s1 <= s2 < s1 + 1024).
  { pose proof (grow_step s1 10 _ ltac:(lia) ltac:(lia) eq_refl) as G. subst s2.
    change (2 ^ 10 - 1) with 1023 in G. change (2 ^ 10) with 1024 in G.
    revert G. destruct (1024 <? s1), (Z.land s1 1023 =? 0); simpl; lia. }
  clearbody s2.
  pose proof (grow_step s2 16 _ ltac:(lia) ltac:(lia) eq_refl) as G.
  change (2 ^ 16 - 1) with 65535 in G. change (2 ^ 16) with 65536 in G.
  revert G. destruct (65536 <? s2), (Z.land s2 65535 =? 0); simpl; lia.
Qed.

(** ** [ob_makespace] *)

(** Whether [n] more bytes can be had: within the limit, and either already
    allocated or obtainable from [malloc]. *)
Definition has_room h b (n : Z) : bool :=
  (position b + n <=? sizeLimit b) &&
  ((position b + n <=? allocSize b) ||
   (negb (is_static b) &&
    match malloc_bytes h (ob_grow_size (position b + n)) with Some _ => true | None => false end)).

(** [b'] in [h'] is [b] in [h], possibly moved to a bigger block; memory that
    is not the buffer's is untouched. *)
Record moved h b h' b' : Prop := {
  mv_heap : heap_ok h';
  mv_wf : ob_wf h' b';
  mv_pos : position b' = position b;
  mv_chk : checkpointLength b' = checkpointLength b;
  mv_lim : sizeLimit b' = sizeLimit b;
  mv_alloc : allocSize b <= allocSize b';
  mv_contents : ob_contents h' b' = ob_contents h b;
  mv_frame : framed h b h' b'
}.

(** The state in which [ob_makespace] does not stop on an assertion. *)
Definition in_bounds b : Prop := position b <= sizeLimit b /\ position b <= allocSize b.

Lemma in_bounds_bytes h b :
  ob_wf h b -> in_bounds b -> position b <> 0 -> exists p, ob_bytes b = Some p.
Proof.
  intros [? _ _ Hm _] [_ Hb] Hp. destruct (ob_bytes b) as [p|]; [by eexists|].
  lia.
Qed.

Lemma heap_ok_insert h i l :
  heap_ok h -> zlen l <= SSIZE_MAX -> Forall is_byte l -> heap_ok (<[i := l]> h).
Proof.
  intros Hh ? ? j blk. rewrite lookup_insert. case_decide; [by intros [= <-]|apply Hh].
Qed.

Lemma Forall_splice (P : Z -> Prop) off new (l : list Z) :
  Forall P new -> Forall P l -> Forall P (splice off new l).
Proof. intros. unfold splice. eauto 6 using Forall_app_2, Forall_take, Forall_drop. Qed.

(** The new block becomes the buffer's, and the old one is freed. *)
Lemma framed_realloc h b q l chk pos lim n :
  ob_wf h b -> h !! q.1 = None -> is_static b = false ->
  let h1 := <[q.1 := l]> h in
  let h' := match allocated b with Some a => delete a.1 h1 | None => h1 end in
  framed h b h' (OB (Some q) chk pos lim n (Some q)).
Proof.
  intros [_ _ _ Hm Ho] Hq Hst h1 h'. unfold is_static in Hst.
  assert (forall i, h' !! i = if decide (points b i) then (if decide (i = q.1) then Some l else None)
                              else if decide (i = q.1) then Some l else h !! i) as Hlook.
  { intros i. unfold h', h1. destruct (allocated b) as [a|] eqn:Ea.
    - destruct (Ho _ eq_refl) as [Hoa _]. rewrite Hoa in Hm. destruct Hm as (_ & _ & blk & Hb & _).
      assert (points b i <-> i = a.1) as Hp.
      { unfold points. rewrite Hoa. split; [intros [o [= ->]]; done|].
        intros ->. exists a.2. by destruct a. }
      case_decide as Hpi; [apply Hp in Hpi as ->|].
      + rewrite lookup_delete_eq, decide_False; [done|]. congruence.
      + rewrite lookup_delete_ne by (intros <-; by apply Hpi, Hp).
        rewrite lookup_insert. case_decide; case_decide; congruence.
    - destruct (ob_bytes b) eqn:Eb; [done|].
      rewrite decide_False by (intros [o Hpo]; congruence).
      rewrite lookup_insert. case_decide; case_decide; congruence. }
  assert (forall i, points (OB (Some q) chk pos lim n (Some q)) i <-> i = q.1) as Hpq.
  { intros i. unfold points. simpl. split; [intros [o [= ->]]; done|].
    intros ->. exists q.2. by destruct q. }
  split.
  - intros i blk Hi Hn. rewrite Hlook, Hpq, decide_False by done.
    assert (i <> q.1) by (intros ->; unfold block in *; congruence).
    by rewrite decide_False.
  - intros p blk Hp Ha. rewrite Hp, Ha in Hst. done.
  - intros i. rewrite Hlook, Hpq. case_decide as Hpi; case_decide as Hiq; intros Hi;
      [by left|by destruct Hi|by left|by right].
  - done.
Qed.

(** The copy step of the reallocation: allocate, copy, free. *)
Lemma realloc_moved h b q l n :
  heap_ok h -> ob_wf h b -> in_bounds b -> h !! q.1 = None -> q.2 = 0 ->
  zlen l = n -> n <= SSIZE_MAX -> Forall is_byte l -> allocSize b < n -> is_static b = false ->
  let old := ob_contents h b in
  let h1 := <[q.1 := splice 0 old l]> h in
  let h' := match allocated b with Some a => delete a.1 h1 | None => h1 end in
  moved h b h' (OB (Some q) (checkpointLength b) (position b) (sizeLimit b) n (Some q)).
Proof.
  intros Hh Hw [Hl Hp] Hq Hq0 Hn Hmax Hby Hlt Hst old h1 h'.
  pose proof (wf_allocSize _ _ Hh Hw) as Ha. destruct Hw as [? ? ? Hm Ho].
  assert (zlen old = position b /\ Forall is_byte old) as [Hold Hoby].
  { unfold old, ob_contents. destruct (ob_bytes b) as [p|].
    - destruct Hm as (? & ? & blk & Hb & ?). rewrite Hb. split; [apply zlen_slice; lia|].
      apply Forall_take, Forall_drop. by apply (Hh _ _ Hb).
    - split; [|constructor]. change (zlen (@nil Z)) with 0. lia. }
  assert (h' !! q.1 = Some (splice 0 old l)) as Hlook.
  { unfold h'. destruct (allocated b) as [a|] eqn:Ea; unfold h1; simplify_map_eq; [|done].
    destruct (Ho _ eq_refl) as [Hoa _]. rewrite Hoa in Hm.
    destruct Hm as (? & ? & blk & Hb & ?).
    rewrite lookup_delete_ne by congruence. by simplify_map_eq. }
  assert (zlen (splice 0 old l) = n) as Hlen by (rewrite zlen_splice; lia).
  split; simpl; try done.
  - intros i blk Hi. unfold h' in Hi.
    assert (h1 !! i = Some blk) as Hi1.
    { destruct (allocated b); [|done]. by apply lookup_delete_Some in Hi as []. }
    revert Hi1. apply heap_ok_insert; [done | lia | by apply Forall_splice].
  - split; simpl; try done; [|by intros a [= <-]].
    split; [lia|]. split; [lia|]. eexists. split; [done|]. lia.
  - lia.
  - unfold ob_contents at 1. simpl. rewrite Hlook, Hq0. rewrite <- Hold.
    fold old. apply (slice_splice_same 0 old l); lia.
  - by apply framed_realloc.
Qed.

Lemma moved_refl h b : heap_ok h -> ob_wf h b -> moved h b h b.
Proof. intros. split; try done. apply framed_refl. Qed.

(** The reallocating branch of [ob_makespace], run to completion. *)
Lemma realloc_run h b q l :
  heap_ok h -> ob_wf h b -> in_bounds b -> h !! q.1 = None -> q.2 = 0 ->
  allocSize b < zlen l ->
  let h1 := <[q.1 := splice 0 (ob_contents h b) l]> h in
  ((if position b =? 0 then mret tt
    else p ← hlift (deref (ob_bytes b));
         old ← hread (fun h => load_bytes h p (position b));
         hwrite (fun h => store_bytes h q old)) : HM unit) (<[q.1 := l]> h)
  = Ret (tt, h1).
Proof.
  intros Hh Hw Hb Hq Hq0 Hlt h1. zcase.
  - unfold h1, ob_contents, splice. simpl.
    destruct (ob_bytes b) as [p|]; [destruct (h !! p.1)|]; try done.
    rewrite e, slice_nil. done.
  - destruct (in_bounds_bytes _ _ Hw Hb n) as [p Hp]. rewrite Hp.
    pose proof Hw as [? ? ? Hm Ho]. rewrite Hp in Hm. destruct Hb as [_ Hb].
    destruct Hm as (? & ? & blk & Hblk & ?). unfold h1, ob_contents. rewrite Hp, Hblk.
    assert (q.1 <> p.1) by congruence.
    unfold mbind, HM_bind; simpl. unfold hread, hwrite.
    rewrite (load_bytes_ok _ _ _ blk) by (try lia; by rewrite lookup_insert_ne).
    simpl. assert (zlen (slice p.2 (position b) blk) = position b) by (apply zlen_slice; lia).
    rewrite (store_bytes_ok _ _ _ l) by (try lia; by rewrite lookup_insert_eq).
    by rewrite insert_insert_eq, Hq0.
Qed.

(** ** [ob_makespace], on every branch

    In bounds, it returns 1 exactly when there is room, leaving the buffer
    with the room asked for, its contents and everybody else's memory
    unchanged; otherwise it returns 0 and changes nothing. *)
Lemma ob_makespace_spec h b n :
  heap_ok h -> ob_wf h b -> in_bounds b -> 0 <= n -> position b + n <= SSIZE_MAX ->
  if has_room h b n
  then exists b' h', ob_makespace b n h = Ret ((1, b'), h') /\ moved h b h' b' /\
         position b + n <= sizeLimit b /\ position b + n <= allocSize b'
  else ob_makespace b n h = Ret ((0, b), h).
Proof.
  intros Hh Hw Hb Hn Hmax. pose proof SSIZE_SIZE. pose proof (wf_allocSize _ _ Hh Hw).
  pose proof Hw as [Hwp ? ? ? Ho]. unfold ob_makespace, has_room.
  rewrite sz_small by lia.
  assert ((if position b =? 0 then true else negb (is_null (ob_bytes b))) = true) as Hasrt.
  { zcase; [done|]. destruct (in_bounds_bytes _ _ Hw Hb n0) as [p ->]. done. }
  pose proof Hb as [? ?].
  do 3 (erewrite HM_bind_Ret by (apply hassert_true; first [exact Hasrt | by apply Z.leb_le])).
  destruct (Z.ltb_spec (sizeLimit b) (position b + n)) as [Hov|Hov].
  { rewrite (proj2 (Z.leb_gt _ _)) by lia. done. }
  rewrite (proj2 (Z.leb_le (position b + n) (sizeLimit b))) by lia. simpl.
  destruct (Z.leb_spec (position b + n) (allocSize b)) as [Hal|Hal].
  { simpl. eexists _, _. split; [done|]. split; [by apply moved_refl|]. lia. }
  simpl. fold (is_static b). destruct (is_static b) eqn:Es; simpl; [done|].
  pose proof (ob_grow_size_ge (position b + n) ltac:(lia)) as Hg.
  set (sz' := ob_grow_size (position b + n)) in *.
  destruct (malloc_bytes h sz') as [l|] eqn:El;
    (erewrite HM_bind_Ret by (unfold halloc, emalloc; rewrite El; done)); [|done].
  cbv beta iota. set (q := (fresh (dom h), 0)).
  assert (h !! q.1 = None) as Hq by (apply not_elem_of_dom, is_fresh).
  pose proof (malloc_size _ _ _ El) as Hl. pose proof (malloc_max _ _ _ El).
  pose proof (malloc_range _ _ _ El).
  pose proof (realloc_run h b q l Hh Hw Hb Hq eq_refl ltac:(lia)) as Hrun.
  erewrite HM_bind_Ret by exact Hrun.
  pose proof (realloc_moved h b q l sz' Hh Hw Hb Hq eq_refl Hl ltac:(lia) ltac:(done) ltac:(lia)
    Es) as Hmv. simpl in Hmv.
  destruct (allocated b) as [a|] eqn:Ea.
  - destruct (Ho _ eq_refl) as [Hoa Ha0]. rewrite Hoa.
    erewrite HM_bind_Ret.
    2: { erewrite HM_bind_Ret by (apply hassert_true; by apply bool_decide_eq_true).
         unfold hwrite, mfree. rewrite lookup_insert_ne; [|].
         - destruct Hw as [_ _ _ Hm _]. rewrite Hoa in Hm.
           destruct Hm as (_ & _ & blk & -> & _). by rewrite Ha0.
         - destruct Hw as [_ _ _ Hm _]. rewrite Hoa in Hm.
           destruct Hm as (_ & _ & blk & Hblk & _). congruence. }
    eexists _, _. split; [done|]. split; [exact Hmv|]. simpl. lia.
  - erewrite HM_bind_Ret by done.
    eexists _, _. split; [done|]. split; [exact Hmv|]. simpl. lia.
Qed.

(** ** Appending *)

(** [b'] in [h'] is [b] in [h] with [vs] appended; memory the buffer does not
    point into is untouched. *)
Record appended h b (vs : list Z) h' b' : Prop := {
  ap_heap : heap_ok h';
  ap_wf : ob_wf h' b';
  ap_bounds : in_bounds b';
  ap_pos : position b' = position b + zlen vs;
  ap_chk : checkpointLength b' = checkpointLength b;
  ap_lim : sizeLimit b' = sizeLimit b;
  ap_contents : ob_contents h' b' = ob_contents h b ++ vs;
  ap_frame : framed h b h' b'
}.

(** The store of an appender into a buffer that has room. *)
Lemma put_store h b p vs :
  heap_ok h -> ob_wf h b -> ob_bytes b = Some p -> Forall is_byte vs ->
  position b + zlen vs <= sizeLimit b -> position b + zlen vs <= allocSize b ->
  exists h', store_bytes h (ptr_add p (position b)) vs = Ret h' /\
    appended h b vs h' (set_position (position b + zlen vs) b).
Proof.
  intros Hh Hw Hp Hvs Hlim Hal. pose proof Hw as [? ? ? Hm Ho].
  pose proof (zlen_nonneg vs). rewrite Hp in Hm.
  destruct Hm as (? & ? & blk & Hblk & ?).
  eexists. split; [apply (store_bytes_ok _ _ _ blk); simpl; [done | lia | lia]|]. simpl.
  set (blk' := splice (p.2 + position b) vs blk).
  assert (zlen blk' = zlen blk) by (apply zlen_splice; lia).
  destruct (Hh _ _ Hblk) as [? Hby].
  split; simpl; try done.
  - apply heap_ok_insert; [done | lia | by apply Forall_splice].
  - split; simpl; try done; [lia|]. rewrite Hp. split; [lia|]. split; [lia|].
    exists blk'. rewrite lookup_insert_eq. split; [done|lia].
  - unfold ob_contents. simpl. rewrite Hp, lookup_insert_eq, Hblk.
    rewrite slice_app_split by lia. unfold blk'.
    rewrite slice_splice_before by lia. by rewrite slice_splice_same by lia.
  - apply (framed_store h b _ p blk); done || lia.
Qed.

Lemma moved_appended h b h1 b1 vs h2 b2 :
  moved h b h1 b1 -> appended h1 b1 vs h2 b2 -> appended h b vs h2 b2.
Proof.
  intros [? ? Hp Hc Hl ? Hcon Hf] [? ? ? Hp' Hc' Hl' Hcon' Hf'].
  split; try done; try congruence. by eapply framed_trans.
Qed.

Lemma ob_put_room h b vs :
  heap_ok h -> ob_wf h b -> in_bounds b -> Forall is_byte vs -> vs <> [] ->
  position b + zlen vs <= SSIZE_MAX -> has_room h b (zlen vs) = true ->
  exists b' h', ob_put b vs h = Ret (b', h') /\ appended h b vs h' b'.
Proof.
  intros Hh Hw Hb Hvs Hne Hmax Hroom. pose proof SSIZE_SIZE.
  assert (0 < zlen vs) by (destruct vs; [done | rewrite zlen_cons; pose proof (zlen_nonneg vs); lia]).
  pose proof (ob_makespace_spec h b (zlen vs) Hh Hw Hb ltac:(lia) Hmax) as Hms.
  rewrite Hroom in Hms. destruct Hms as (b1 & h1 & Hms & Hmv & Hlim & Hal).
  pose proof Hmv as [Hh1 Hw1 Hp1 ? Hl1 ? _ _].
  assert (exists p, ob_bytes b1 = Some p) as [p Hp].
  { destruct Hw1 as [? _ _ Hm _]. destruct (ob_bytes b1); [by eexists|].
    pose proof Hw as [? _ _ _ _]. lia. }
  destruct (put_store h1 b1 p vs Hh1 Hw1 Hp Hvs ltac:(lia) ltac:(lia)) as (h2 & Hst & Hap).
  unfold ob_put. erewrite HM_bind_Ret by exact Hms. cbv beta iota.
  erewrite HM_bind_Ret.
  2: { simpl. rewrite Hp. erewrite HM_bind_Ret by done.
       unfold hwrite. rewrite Hst. done. }
  eexists _, _. split; [done|]. rewrite sz_small.
  - by eapply moved_appended.
  - pose proof Hw as [? _ _ _ _]. lia.
Qed.

(** Without room the bytes are dropped and the buffer is marked overrun. *)
Lemma ob_put_overrun h b vs :
  heap_ok h -> ob_wf h b -> in_bounds b -> position b + zlen vs <= SSIZE_MAX ->
  has_room h b (zlen vs) = false ->
  let b' := set_position (position b + zlen vs) b in
  ob_put b vs h = Ret (b', h) /\ ob_wf h b' /\ ob_overrun b' = true.
Proof.
  intros Hh Hw Hb Hmax Hroom b'. pose proof SSIZE_SIZE. pose proof (zlen_nonneg vs).
  pose proof (ob_makespace_spec h b (zlen vs) Hh Hw Hb ltac:(lia) Hmax) as Hms.
  rewrite Hroom in Hms. pose proof Hw as [? ? ? Hm Ho].
  split; [|split].
  - unfold ob_put. erewrite HM_bind_Ret by exact Hms. simpl.
    unfold mbind, HM_bind; simpl. rewrite sz_small by lia. done.
  - split; simpl; try done. lia.
  - pose proof (wf_allocSize _ _ Hh Hw). unfold ob_overrun, b'; simpl.
    unfold has_room in Hroom. apply Z.ltb_lt.
    destruct (Z.leb_spec (position b + zlen vs) (sizeLimit b)) as [Hle|Hle].
    + destruct (Z.leb_spec (position b + zlen vs) (allocSize b)); [done|].
      destruct (sizeLimit b =? SIZE_MAX), (Z.ltb_spec (sizeLimit b) (allocSize b)); simpl; lia.
    + destruct (Z.eqb_spec (sizeLimit b) SIZE_MAX), (Z.ltb_spec (sizeLimit b) (allocSize b));
        simpl; lia.
Qed.

(** Once a buffer is out of bounds, the next request for space stops the
    process: [ob_makespace] asserts that the position is within the limit and
    within the allocation. *)
Lemma ob_makespace_out_of_bounds h b n :
  ~ in_bounds b -> ob_makespace b n h = Abort.
Proof.
  intros Hb. unfold ob_makespace, in_bounds in *.
  destruct (Z.leb_spec (position b) (sizeLimit b)); [|done].
  erewrite HM_bind_Ret by done.
  destruct (Z.leb_spec (position b) (allocSize b)); [tauto|done].
Qed.

(** ** The appenders that write in one step *)

Inductive append_op : Type :=
| AByte (v : Z) | ABytes (l : list Z) | AStr (l : list Z)
| AUi16 (v : Z) | AUi16_rv (v : Z) | AUi32 (v : Z) | AUi32_rv (v : Z)
| AUi64 (v : Z) | AUi64_rv (v : Z).

Definition append_run (o : append_op) b : HM overlay_buffer :=
  match o with
  | AByte v => ob_append_byte b v
  | ABytes l => ob_append_bytes b l
  | AStr l => ob_append_str b l
  | AUi16 v => ob_append_ui16 b v
  | AUi16_rv v => ob_append_ui16_rv b v
  | AUi32 v => ob_append_ui32 b v
  | AUi32_rv v => ob_append_ui32_rv b v
  | AUi64 v => ob_append_ui64 b v
  | AUi64_rv v => ob_append_ui64_rv b v
  end.

(** The wire format: [v] as [n] bytes, most or least significant first. *)
Fixpoint le_bytes (n : nat) (v : Z) : list Z :=
  match n with O => [] | S n => v mod 256 :: le_bytes n (v / 256) end.
Definition be_bytes (n : nat) (v : Z) : list Z := rev (le_bytes n v).

Definition append_enc (o : append_op) : list Z :=
  match o with
  | AByte v => [v mod 256]
  | ABytes l => l
  | AStr l => l ++ [0]
  | AUi16 v => be_bytes 2 v
  | AUi16_rv v => le_bytes 2 v
  | AUi32 v => be_bytes 4 v
  | AUi32_rv v => le_bytes 4 v
  | AUi64 v => be_bytes 8 v
  | AUi64_rv v => le_bytes 8 v
  end.

Definition append_valid (o : append_op) : Prop :=
  match o with
  | ABytes l => l <> [] /\ Forall is_byte l
  | AStr l => Forall is_byte l
  | _ => True
  end.

Lemma byte_at_div v k : 0 <= k -> byte_at v k = (v / 2 ^ k) mod 256.
Proof. intros. unfold byte_at. by rewrite land_ff, Z.shiftr_div_pow2. Qed.

Lemma is_byte_mod v : is_byte (v mod 256).
Proof. unfold is_byte. by apply Z.mod_pos_bound. Qed.

Lemma le_bytes_range n v : Forall is_byte (le_bytes n v).
Proof. revert v. induction n; intros; constructor; auto using is_byte_mod. Qed.

Lemma be_bytes_range n v : Forall is_byte (be_bytes n v).
Proof. apply Forall_rev, le_bytes_range. Qed.

Lemma zlen_le_bytes n v : zlen (le_bytes n v) = Z.of_nat n.
Proof. revert v. induction n; intros; [done|]. simpl. rewrite zlen_cons, IHn. lia. Qed.

Lemma zlen_be_bytes n v : zlen (be_bytes n v) = Z.of_nat n.
Proof. unfold be_bytes, zlen. rewrite length_rev. apply zlen_le_bytes. Qed.

(** Every appender is one [ob_put] of its encoding. *)
Lemma append_run_put o b h :
  append_valid o -> append_run o b h = ob_put b (append_enc o) h.
Proof.
  destruct o; simpl; intros Hv; try done.
  - destruct Hv as [Hne _]. unfold ob_append_bytes.
    erewrite HM_bind_Ret; [done|]. apply hassert_true, Z.ltb_lt.
    destruct l; [done|]. rewrite zlen_cons. pose proof (zlen_nonneg l). lia.
  - unfold ob_append_str, ob_append_bytes.
    erewrite HM_bind_Ret; [done|]. apply hassert_true, Z.ltb_lt.
    rewrite zlen_app. pose proof (zlen_nonneg l). change (zlen [0]) with 1. lia.
  - unfold ob_append_ui16. rewrite !byte_at_div by lia. by rewrite Z.div_1_r.
  - unfold ob_append_ui16_rv. rewrite !byte_at_div by lia. by rewrite Z.div_1_r.
  - unfold ob_append_ui32. rewrite !byte_at_div by lia. unfold be_bytes; simpl.
    by rewrite !Z.div_div, Z.div_1_r by lia.
  - unfold ob_append_ui32_rv. rewrite !byte_at_div by lia. simpl.
    by rewrite !Z.div_div, Z.div_1_r by lia.
  - unfold ob_append_ui64. rewrite !byte_at_div by lia. unfold be_bytes; simpl.
    by rewrite !Z.div_div, Z.div_1_r by lia.
  - unfold ob_append_ui64_rv. rewrite !byte_at_div by lia. simpl.
    by rewrite !Z.div_div, Z.div_1_r by lia.
Qed.

Lemma append_enc_range o : append_valid o -> Forall is_byte (append_enc o).
Proof.
  destruct o; cbn [append_enc append_valid]; intros Hv;
    auto using le_bytes_range, be_bytes_range.
  - constructor; [apply is_byte_mod | constructor].
  - tauto.
  - apply Forall_app_2; [done|]. constructor; [unfold is_byte; lia | constructor].
Qed.

Lemma append_enc_nonempty o : append_valid o -> append_enc o <> [].
Proof. destruct o; simpl; try done; [tauto|]. intros _. by destruct l. Qed.

(** The abstract view of a buffer: the bytes written, or [None] after an
    overrun, when the contents are no longer meaningful. *)
Definition ob_abs h b : option (list Z) :=
  if ob_overrun b then None else Some (ob_contents h b).

Lemma in_bounds_not_overrun h b : heap_ok h -> ob_wf h b -> in_bounds b -> ob_overrun b = false.
Proof.
  intros Hh Hw [? ?]. pose proof (wf_allocSize _ _ Hh Hw). unfold ob_overrun.
  apply Z.ltb_ge. case_match; lia.
Qed.

(** ** Reading *)

Lemma readable_spec b n :
  0 <= position b -> 0 <= n -> position b + n <= SIZE_MAX ->
  readable b n = true <-> position b + n <= sizeLimit b /\ position b + n <= allocSize b.
Proof.
  intros. unfold readable, test_offset. rewrite sz_small by lia.
  do 2 zcase; simpl; split; try done; lia.
Qed.

(** The byte at [position + i], for an index inside the allocation. *)
Lemma ob_byte_ok h b i :
  heap_ok h -> ob_wf h b -> 0 <= i -> position b + i < allocSize b ->
  exists p blk x, ob_bytes b = Some p /\ h !! p.1 = Some blk /\
    zlookup (p.2 + (position b + i)) blk = Some x /\ is_byte x /\ ob_byte b i h = Ret (x, h).
Proof.
  intros Hh Hw Hi Hlt. pose proof Hw as [Hp _ _ Hm _]. unfold ob_byte.
  destruct (ob_bytes b) as [p|]; [|lia]. destruct Hm as (? & ? & blk & Hb & ?).
  destruct (load_ok h (ptr_add p (position b + i)) blk Hb) as (x & Hx & Hl); [simpl; lia|].
  exists p, blk, x. split; [done|]. split; [done|]. split; [done|]. split.
  - destruct (Hh _ _ Hb) as [_ Hby]. eapply Forall_lookup_1; [exact Hby|].
    revert Hx. unfold zlookup. simpl. case_match; [done|eauto].
  - erewrite HM_bind_Ret by done. unfold hread. by rewrite Hl.
Qed.

Lemma ob_fetch_ok h b n i :
  heap_ok h -> ob_wf h b -> 0 <= i -> position b + i + Z.of_nat n <= allocSize b ->
  exists xs, length xs = n /\ Forall is_byte xs /\ ob_fetch b i n h = Ret (xs, h).
Proof.
  intros Hh Hw. revert i. induction n as [|n IH]; intros i Hi Hle; [by exists []|].
  destruct (ob_byte_ok h b i Hh Hw Hi ltac:(lia)) as (_ & _ & x & _ & _ & _ & Hx & Hr).
  destruct (IH (i + 1) ltac:(lia) ltac:(lia)) as (xs & Hl & Hxs & Hr').
  exists (x :: xs). simpl. rewrite Hl. split; [done|]. split; [by constructor|].
  erewrite HM_bind_Ret by exact Hr. by erewrite HM_bind_Ret by exact Hr'.
Qed.

(** What [ob_fetch] reads is the slice of the block at [position + i]. *)
Lemma ob_fetch_slice h b p blk n i :
  ob_bytes b = Some p -> h !! p.1 = Some blk -> 0 <= p.2 -> 0 <= position b -> 0 <= i ->
  p.2 + position b + i + Z.of_nat n <= zlen blk ->
  ob_fetch b i n h = Ret (slice (p.2 + position b + i) (Z.of_nat n) blk, h).
Proof.
  intros Hp Hb H0 H1. revert i. induction n as [|n IH]; intros i Hi Hle.
  - simpl. by rewrite slice_nil.
  - cbn [ob_fetch]. destruct (load_ok h (ptr_add p (position b + i)) blk Hb) as (x & Hx & Hl);
      [simpl; lia|].
    erewrite HM_bind_Ret.
    2: { unfold ob_byte. rewrite Hp. erewrite HM_bind_Ret by done. unfold hread.
         rewrite Hl. done. }
    erewrite HM_bind_Ret by (apply IH; lia). simpl in Hx.
    replace (Z.of_nat (S n)) with (1 + Z.of_nat n) by lia.
    rewrite slice_app_split by lia. unfold mret, HM_ret. do 2 f_equal.
    replace (p.2 + position b + (i + 1)) with (p.2 + position b + i + 1) by lia.
    change (x :: ?l) with ([x] ++ l). f_equal.
    revert Hx. unfold zlookup, slice. zcase; [done|].
    replace (p.2 + (position b + i)) with (p.2 + position b + i) by lia. intros Hx.
    rewrite (drop_S _ _ _ Hx). done.
Qed.

(** ** Every operation, as a command *)

Inductive ob_cmd : Type :=
| CAppend (o : append_op) | CAppendSpace (n : Z)
| CAppendPacked32 (v : Z) | CAppendPacked64 (v : Z)
| CGet | CPeek | CSkip (n : Z) | CGetBytes (n : Z) | CGetBytesPtr (n : Z)
| CGetUi16 | CGetUi16_rv | CGetUi32 | CGetUi32_rv | CGetUi64 | CGetUi64_rv
| CCheckpoint | CRewind | CLimitsize (n : Z) | CUnlimitsize | CFlip | CClear
| CSet (off v : Z) | CSetUi16 (off v : Z) | CRemaining
| CGetPacked32 | CGetPacked64 | CGetStrPtr | CDup.

Definition drop_val {A} (m : HM (A * overlay_buffer)) : HM overlay_buffer :=
  '(_, b) ← m; mret b.

Definition ob_exec (c : ob_cmd) b : HM overlay_buffer :=
  match c with
  | CAppend o => append_run o b
  | CAppendSpace n => drop_val (ob_append_space b n)
  | CAppendPacked32 v => ob_append_packed_ui32 b v
  | CAppendPacked64 v => ob_append_packed_ui64 b v
  | CGet => drop_val (ob_get b)
  | CPeek => ob_peek b;; mret b
  | CSkip n => mret (ob_skip b n)
  | CGetBytes n => drop_val (ob_get_bytes b n)
  | CGetBytesPtr n => drop_val (ob_get_bytes_ptr b n)
  | CGetUi16 => drop_val (ob_get_ui16 b)
  | CGetUi16_rv => drop_val (ob_get_ui16_rv b)
  | CGetUi32 => drop_val (ob_get_ui32 b)
  | CGetUi32_rv => drop_val (ob_get_ui32_rv b)
  | CGetUi64 => drop_val (ob_get_ui64 b)
  | CGetUi64_rv => drop_val (ob_get_ui64_rv b)
  | CCheckpoint => mret (ob_checkpoint b)
  | CRewind => mret (ob_rewind b)
  | CLimitsize n => hlift (ob_limitsize b n)
  | CUnlimitsize => mret (ob_unlimitsize b)
  | CFlip => hlift (ob_flip b)
  | CClear => mret (ob_clear b)
  | CSet off v => ob_set b off v;; mret b
  | CSetUi16 off v => ob_set_ui16 b off v;; mret b
  | CRemaining => hlift (ob_remaining b);; mret b
  | CGetPacked32 => drop_val (ob_get_packed_ui32 b)
  | CGetPacked64 => drop_val (ob_get_packed_ui64 b)
  | CGetStrPtr => drop_val (ob_get_str_ptr b)
  | CDup => (* the copy is freed again *)
      d ← ob_dup b; match d with Some d => ob_free d | None => mret tt end;; mret b
  end.

Fixpoint ob_run (cs : list ob_cmd) b : HM overlay_buffer :=
  match cs with [] => mret b | c :: cs => b ← ob_exec c b; ob_run cs b end.

(** By how much a command can move the position (and the checkpoint). *)
Definition cmd_size (c : ob_cmd) : Z :=
  match c with
  | CAppend o => zlen (append_enc o)
  | CAppendSpace n | CSkip n | CGetBytes n | CGetBytesPtr n => n
  | CAppendPacked32 _ => 5 | CAppendPacked64 _ => 10
  | CGet | CPeek => 1
  | CGetPacked32 | CGetPacked64 => 6
  | CGetUi16 | CGetUi16_rv => 2 | CGetUi32 | CGetUi32_rv => 4 | CGetUi64 | CGetUi64_rv => 8
  | _ => 0
  end.

(** The highest position the buffer can come back to. *)
Definition ob_high b : Z := Z.max (position b) (checkpointLength b).

(** The bytes from the position to the limit or the end of the allocation. *)
Definition ahead_bytes h b : list Z :=
  match ob_bytes b with
  | Some p =>
      match h !! p.1 with
      | Some blk => slice (p.2 + position b) (Z.min (sizeLimit b) (allocSize b) - position b) blk
      | None => []
      end
  | None => []
  end.

(** One of the first [n] bytes ends a packed integer, or there are no more. *)
Fixpoint packed_end (n : nat) (l : list Z) : bool :=
  match l, n with
  | [], _ => true
  | _ :: _, O => false
  | x :: l, S n => (x <? 128) || packed_end n l
  end.

(** What the caller of an operation must see to: the arguments are of their
    types and the position stays below [SSIZE_MAX]; a packed integer ends
    within five bytes, since a longer one is shifted out of an [int]; and a
    string has its NUL, or the position has passed the end, since the scan
    tests the offset before the byte it reads. *)
Definition cmd_pre (c : ob_cmd) h b : Prop :=
  ob_high b + cmd_size c <= SSIZE_MAX /\
  match c with
  | CAppend o => append_valid o
  | CAppendSpace n | CSkip n | CGetBytes n | CGetBytesPtr n => 0 <= n
  | CLimitsize n => 0 <= n <= SIZE_MAX
  | CSet off _ | CSetUi16 off _ => 0 <= off <= SSIZE_MAX
  | CGetPacked32 | CGetPacked64 => packed_end 5 (ahead_bytes h b) = true
  | CGetStrPtr => 0 ∈ ahead_bytes h b \/ readable b 0 = false
  | _ => True
  end.

(** The caller sees to it at every step of a session. *)
Fixpoint session_ok (cs : list ob_cmd) h b : Prop :=
  match cs with
  | [] => True
  | c :: cs =>
      cmd_pre c h b /\
      match ob_exec c b h with Ret (b', h') => session_ok cs h' b' | _ => True end
  end.

Definition ok_after h b (n : Z) b' h' : Prop :=
  heap_ok h' /\ ob_wf h' b' /\ framed h b h' b' /\ ob_high b' <= ob_high b + n.

Lemma append_size o : append_valid o -> 0 < zlen (append_enc o).
Proof.
  intros Hv%append_enc_nonempty. destruct (append_enc o); [done|].
  rewrite zlen_cons. pose proof (zlen_nonneg l). lia.
Qed.

Lemma in_bounds_dec b : {in_bounds b} + {~ in_bounds b}.
Proof. unfold in_bounds. destruct (decide (position b <= sizeLimit b)), (decide (position b <= allocSize b)); [left|right..]; tauto. Qed.

Lemma ob_put_safe h b vs :
  heap_ok h -> ob_wf h b -> Forall is_byte vs -> vs <> [] ->
  position b + zlen vs <= SSIZE_MAX ->
  hsafe (ob_put b vs) h (ok_after h b (zlen vs)).
Proof.
  intros Hh Hw Hvs Hne Hmax. unfold hsafe. pose proof (zlen_nonneg vs).
  destruct (in_bounds_dec b) as [Hb|Hb].
  - destruct (has_room h b (zlen vs)) eqn:Hr.
    + destruct (ob_put_room h b vs) as (b' & h' & -> & [? ? ? Hp Hc ? ? ?]); try done.
      split_and!; [done..|]. unfold ob_high. lia.
    + destruct (ob_put_overrun h b vs) as (-> & ? & ?); try done.
      split_and!; [done|done|by apply framed_same|]. unfold ob_high. simpl. lia.
  - unfold ob_put. unfold mbind, HM_bind. by rewrite ob_makespace_out_of_bounds.
Qed.

Lemma ob_append_space_safe h b n :
  heap_ok h -> ob_wf h b -> 0 <= n -> position b + n <= SSIZE_MAX ->
  hsafe (drop_val (ob_append_space b n)) h (ok_after h b n).
Proof.
  intros Hh Hw Hn Hmax. unfold hsafe, drop_val, ob_append_space. pose proof SSIZE_SIZE.
  destruct (Z.ltb_spec 0 n); [|done]. unfold mbind, HM_bind; simpl.
  destruct (in_bounds_dec b) as [Hb|Hb]; [|by rewrite ob_makespace_out_of_bounds].
  pose proof Hw as [? ? ? ? ?].
  pose proof (ob_makespace_spec h b n Hh Hw Hb Hn Hmax) as Hms.
  assert (forall b1 h1, heap_ok h1 -> ob_wf h1 b1 -> framed h b h1 b1 ->
            position b1 = position b -> checkpointLength b1 = checkpointLength b ->
            ok_after h b n (set_position (sz (position b1 + n)) b1) h1) as Hgo.
  { intros b1 h1 ? [? ? ? ? ?] Hf Hp Hc. rewrite sz_small by lia. split_and!; [done| | |].
    - split; simpl; try done; lia.
    - eapply framed_trans; [exact Hf|by apply framed_same].
    - unfold ob_high; simpl. lia. }
  destruct (has_room h b n).
  - destruct Hms as (b1 & h1 & -> & [? ? ? ? ? ? ? ?] & ? & ?). simpl. by apply Hgo.
  - rewrite Hms. simpl. apply Hgo; auto using framed_refl.
Qed.

Lemma ok_after_trans h b n b1 h1 m b2 h2 :
  ok_after h b n b1 h1 -> ok_after h1 b1 m b2 h2 -> ok_after h b (n + m) b2 h2.
Proof.
  intros (? & ? & ? & ?) (? & ? & ? & ?). split_and!; [done..|by eapply framed_trans|lia].
Qed.

Lemma ok_after_le h b n m b' h' : ok_after h b n b' h' -> n <= m -> ok_after h b m b' h'.
Proof. intros (? & ? & ? & ?) ?. split_and!; [done..|lia]. Qed.

Lemma ob_append_packed_safe fuel h b v :
  heap_ok h -> ob_wf h b -> ob_high b + Z.of_nat fuel <= SSIZE_MAX ->
  hsafe (ob_append_packed_loop fuel b v) h (ok_after h b (Z.of_nat fuel)).
Proof.
  revert h b v. induction fuel as [|fuel IH]; intros h b v Hh Hw Hmax.
  { simpl. apply hsafe_ret. split_and!; [done|done|apply framed_refl|lia]. }
  cbn [ob_append_packed_loop]. assert (position b <= ob_high b) by (unfold ob_high; lia).
  eapply hsafe_bind.
  { apply (ob_put_safe h b [u8 (pack_byte v)] Hh Hw).
    - constructor; [apply is_byte_mod | constructor].
    - done.
    - change (zlen [u8 (pack_byte v)]) with 1. lia. }
  change (zlen [u8 (pack_byte v)]) with 1. intros b1 h1 Hok. pose proof Hok as (? & ? & ? & ?).
  zcase.
  - apply hsafe_ret. eapply ok_after_le; [exact Hok|lia].
  - eapply hsafe_mono; [apply IH; [done | done | lia]|].
    intros b2 h2 Hok2. replace (Z.of_nat (S fuel)) with (1 + Z.of_nat fuel) by lia.
    by eapply ok_after_trans.
Qed.

Lemma ok_after_refl h b n : heap_ok h -> ob_wf h b -> 0 <= n -> ok_after h b n b h.
Proof. intros. split_and!; [done|done|apply framed_refl|lia]. Qed.

Lemma ok_after_position h b n :
  heap_ok h -> ob_wf h b -> 0 <= n -> position b + n <= SIZE_MAX ->
  ok_after h b n (set_position (sz (position b + n)) b) h.
Proof.
  intros Hh [? ? ? ? ?] ??. rewrite sz_small by lia.
  split_and!; [done| |by apply framed_same|unfold ob_high; simpl; lia].
  split; simpl; try done; lia.
Qed.

Lemma ob_get_fixed_safe h b n dflt f :
  heap_ok h -> ob_wf h b -> 0 <= n -> position b + n <= SSIZE_MAX ->
  hsafe (drop_val (ob_get_fixed b n dflt f)) h (ok_after h b n).
Proof.
  intros Hh Hw Hn Hmax. pose proof SSIZE_SIZE. pose proof Hw as [? ? ? ? ?].
  unfold drop_val, ob_get_fixed. destruct (readable b n) eqn:Hr.
  - apply readable_spec in Hr as [? ?]; [|lia..].
    destruct (ob_fetch_ok h b (Z.to_nat n) 0 Hh Hw) as (xs & _ & _ & Hf); [lia|lia|].
    unfold hsafe, mbind, HM_bind. rewrite Hf. simpl. apply ok_after_position; [done..|lia].
  - apply hsafe_ret. by apply ok_after_refl.
Qed.

Lemma ob_get_safe h b :
  heap_ok h -> ob_wf h b -> position b + 1 <= SSIZE_MAX ->
  hsafe (drop_val (ob_get b)) h (ok_after h b 1) /\
  hsafe (ob_peek b;; mret b) h (ok_after h b 1).
Proof.
  intros Hh Hw Hmax. pose proof SSIZE_SIZE. pose proof Hw as [? ? ? ? ?].
  unfold drop_val, ob_get, ob_peek. destruct (readable b 1) eqn:Hr.
  - apply readable_spec in Hr as [? ?]; [|lia..].
    destruct (ob_byte_ok h b 0 Hh Hw) as (_ & _ & x & _ & _ & _ & _ & Hf); [lia|lia|].
    unfold hsafe, mbind, HM_bind. rewrite Hf. simpl.
    split; [apply ok_after_position|apply ok_after_refl]; done || lia.
  - split; apply hsafe_ret; by apply ok_after_refl.
Qed.

Lemma ob_get_bytes_safe h b n :
  heap_ok h -> ob_wf h b -> 0 <= n -> position b + n <= SSIZE_MAX ->
  hsafe (drop_val (ob_get_bytes b n)) h (ok_after h b n) /\
  hsafe (drop_val (ob_get_bytes_ptr b n)) h (ok_after h b n).
Proof.
  intros Hh Hw Hn Hmax. pose proof SSIZE_SIZE. pose proof Hw as [? ? ? Hm ?].
  unfold drop_val, ob_get_bytes, ob_get_bytes_ptr. destruct (readable b n) eqn:Hr.
  2: { split; apply hsafe_ret; by apply ok_after_refl. }
  apply readable_spec in Hr as [? ?]; [|lia..].
  pose proof (ok_after_position h b n Hh Hw Hn ltac:(lia)) as Hok.
  destruct (ob_bytes b) as [p|].
  - destruct Hm as (? & ? & blk & Hb & ?). split; [|exact Hok].
    zcase; [exact Hok|]. unfold hsafe, mbind, HM_bind; simpl. unfold hread.
    rewrite (load_bytes_ok _ _ _ blk) by (simpl; done || lia). exact Hok.
  - assert (n = 0 /\ position b = 0) as [-> Hp0] by lia. rewrite Hp0 in *.
    split; exact Hok.
Qed.

Lemma ob_set_at_safe h b off vs n :
  heap_ok h -> ob_wf h b -> Forall is_byte vs -> vs <> [] ->
  0 <= off -> off + zlen vs <= SIZE_MAX -> 0 <= n ->
  hsafe (ob_set_at b off vs;; mret b) h (ok_after h b n).
Proof.
  intros Hh Hw Hvs Hne H0 H1 Hn. unfold ob_set_at. pose proof Hw as [Hp ? ? Hm ?].
  assert (0 < zlen vs) by (destruct vs; [done|]; rewrite zlen_cons; pose proof (zlen_nonneg vs); lia).
  rewrite sz_small by lia. unfold hsafe, mbind, HM_bind.
  destruct (Z.leb_spec (off + zlen vs) (sizeLimit b)); [|done]. simpl.
  destruct (Z.leb_spec (off + zlen vs) (allocSize b)); [|done]. simpl.
  destruct (ob_bytes b) as [p|] eqn:Eb; [|lia]. simpl.
  destruct Hm as (? & ? & blk & Hb & ?). unfold hwrite.
  rewrite (store_bytes_ok _ _ _ blk) by (simpl; done || lia).
  destruct (Hh _ _ Hb) as [? ?]. simpl. split_and!; [| |by apply (framed_store h b b p blk); try done; lia|lia].
  - apply heap_ok_insert; [done| |by apply Forall_splice].
    rewrite zlen_splice; lia.
  - split; try done; rewrite Eb; [|done]. split; [done|]. split; [done|].
    exists (splice (p.2 + off) vs blk). rewrite lookup_insert_eq, zlen_splice by lia. done.
Qed.

Lemma ob_limitsize_wf h b n :
  ob_wf h b -> 0 <= n <= SIZE_MAX -> safe (ob_limitsize b n) (ob_wf h).
Proof.
  intros [? ? ? ? ?] Hn. unfold ob_limitsize.
  repeat (eapply safe_bind; [by apply (safe_cassert _ (fun _ => True))|]; intros [] _).
  by split.
Qed.

Lemma ob_limitsize_high b n :
  safe (ob_limitsize b n) (fun b' => ob_high b' = ob_high b /\ position b' = position b /\
    ob_bytes b' = ob_bytes b /\ allocated b' = allocated b /\ allocSize b' = allocSize b).
Proof.
  unfold ob_limitsize.
  by repeat (eapply safe_bind; [by apply (safe_cassert _ (fun _ => True))|]; intros [] _).
Qed.

Lemma hsafe_hlift {A} (m : outcome A) h (P : A -> heap -> Prop) :
  safe m (fun a => P a h) -> hsafe (hlift m) h P.
Proof. destruct m; done. Qed.

Lemma ob_limitsize_safe h b n m :
  heap_ok h -> ob_wf h b -> 0 <= n <= SIZE_MAX -> 0 <= m ->
  hsafe (hlift (ob_limitsize b n)) h (ok_after h b m).
Proof.
  intros Hh Hw Hn Hm. apply hsafe_hlift.
  pose proof (ob_limitsize_wf h b n Hw Hn) as H1. pose proof (ob_limitsize_high b n) as H2.
  destruct (ob_limitsize b n); simpl in *; try done. destruct H2 as (? & ? & ? & ? & ?).
  split_and!; [done|done|by apply framed_same|lia].
Qed.

Lemma ob_flip_safe h b m :
  heap_ok h -> ob_wf h b -> 0 <= m -> hsafe (hlift (ob_flip b)) h (ok_after h b m).
Proof.
  intros Hh Hw Hm. apply hsafe_hlift. pose proof Hw as [? ? ? ? ?].
  assert (ob_wf h (set_checkpointLength 0 b)) as Hw1 by (split; simpl; try done; lia).
  pose proof (ob_limitsize_wf h _ (position b) Hw1 ltac:(done)) as H1.
  pose proof (ob_limitsize_high (set_checkpointLength 0 b) (position b)) as H2.
  unfold ob_flip. simpl.
  destruct (ob_limitsize _ (position b)) as [b1| |]; simpl in *; try done.
  destruct H1 as [? ? ? ? ?]. destruct H2 as (Hh2 & Hp2 & ? & ? & ?). revert Hh2.
  unfold ok_after, ob_high. simpl. intros.
  split_and!; [done|split; simpl; try done; lia|by apply framed_same|lia].
Qed.

(** *** Packed integers *)

(** [ob_get] takes the first of the bytes ahead. *)
Lemma ob_get_first_ahead h b :
  heap_ok h -> ob_wf h b -> position b + 1 <= SSIZE_MAX ->
  let b1 := set_position (position b + 1) b in
  match ahead_bytes h b with
  | [] => ob_get b h = Ret ((-1, b), h)
  | x :: l => is_byte x /\ ob_get b h = Ret ((x, b1), h) /\ ahead_bytes h b1 = l
  end.
Proof.
  intros Hh Hw Hmax b1. pose proof SSIZE_SIZE. pose proof Hw as [? ? ? Hm ?].
  unfold ob_get. destruct (readable b 1) eqn:Hr.
  - apply readable_spec in Hr as [? ?]; [|lia..].
    destruct (ob_byte_ok h b 0 Hh Hw) as (p & blk & x & Hp & Hblk & Hx & Hby & Hf); [lia|lia|].
    rewrite Hp in Hm. destruct Hm as (? & ? & blk' & Hblk' & ?).
    rewrite Hblk in Hblk'. injection Hblk' as <-.
    assert (ahead_bytes h b = x :: ahead_bytes h b1) as ->.
    { unfold ahead_bytes. simpl. rewrite Hp, Hblk.
      set (m := Z.min _ _). replace (m - position b) with (1 + (m - (position b + 1))) by lia.
      rewrite slice_app_split by lia. rewrite Z.add_assoc. change (x :: ?l) with ([x] ++ l). f_equal.
      revert Hx. unfold zlookup, slice. zcase; [done|]. rewrite Z.add_0_r. intros Hx.
      by rewrite (drop_S _ _ _ Hx). }
    split; [done|]. split; [|done]. erewrite HM_bind_Ret by exact Hf.
    by rewrite sz_small by lia.
  - assert (~ (position b + 1 <= sizeLimit b /\ position b + 1 <= allocSize b)) as Hn
      by (intros Hn; apply readable_spec in Hn; [congruence|lia..]).
    assert (ahead_bytes h b = []) as ->; [|done].
    unfold ahead_bytes. destruct (ob_bytes b) as [p|]; [|done]. destruct (h !! p.1); [|done].
    unfold slice. by replace (Z.to_nat _) with 0%nat by lia.
Qed.

Lemma land_128 x : 0 <= x < 128 -> (Z.land x 0x80 =? 0) = true.
Proof.
  intros Hx. apply Z.eqb_eq, Z.bits_inj'. intros k Hk. rewrite Z.land_spec, Z.bits_0.
  change 0x80 with (2 ^ 7). rewrite Z.pow2_bits_eqb by lia. destruct (Z.eqb_spec 7 k) as [<-|]; [|by rewrite andb_false_r].
  rewrite andb_true_r. rewrite Z.testbit_eqb by lia. by rewrite Z.div_small.
Qed.

Lemma ob_get_packed_safe n w h b ret shift :
  heap_ok h -> ob_wf h b -> (n <= 5)%nat -> ob_high b + Z.of_nat (S n) <= SSIZE_MAX ->
  packed_end n (ahead_bytes h b) = true -> shift = 7 * (5 - Z.of_nat n) ->
  hsafe (drop_val (ob_get_packed_loop (S n) w b ret shift)) h (ok_after h b (Z.of_nat (S n))).
Proof.
  revert b ret shift. induction n as [|n IH]; intros b ret shift Hh Hw Hn Hmax Hend Hsh;
    pose proof SSIZE_SIZE;
    assert (position b <= ob_high b) by (unfold ob_high; lia);
    pose proof (ob_get_first_ahead h b Hh Hw ltac:(lia)) as Hg;
    destruct (ahead_bytes h b) as [|x l]; try done; unfold drop_val, hsafe.
  1: { cbn [ob_get_packed_loop]. unfold mbind, HM_bind. rewrite Hg. by apply ok_after_refl. }
  1: { remember (S n) as m. cbn [ob_get_packed_loop]. unfold mbind, HM_bind. rewrite Hg.
       simpl. apply ok_after_refl; done || lia. }
  destruct Hg as (Hby & Hg & Hl). unfold is_byte in Hby.
  pose proof (ok_after_position h b 1 Hh Hw ltac:(lia) ltac:(lia)) as Hok.
  rewrite sz_small in Hok by (pose proof Hw as [? _ _ _ _]; lia).
  remember (S n) as m eqn:Hm. cbn [ob_get_packed_loop]. unfold mbind at 1, HM_bind at 1.
  erewrite HM_bind_Ret by exact Hg. cbv beta iota.
  destruct (Z.ltb_spec x 0); [lia|]. unfold int_shl. destruct (Z.leb_spec 32 shift); [lia|].
  erewrite HM_bind_Ret by done. cbv zeta.
  destruct (Z.land x 0x80 =? 0) eqn:Ex; [simpl; eapply ok_after_le; [exact Hok|lia]|].
  subst m. cbn [packed_end] in Hend.
  destruct (Z.ltb_spec x 128); [by rewrite land_128 in Ex|]. cbn [orb] in Hend.
  pose proof Hok as (_ & Hw1 & _ & ?).
  assert (ob_high (set_position (position b + 1) b) + Z.of_nat (S n) <= SSIZE_MAX) as Hm1 by lia.
  specialize (IH _ (Z.lor ret (uN w (s32 (Z.shiftl (Z.land x 127) shift)))) (shift + 7)
    Hh Hw1 ltac:(lia) Hm1).
  rewrite Hl in IH. specialize (IH Hend ltac:(lia)). unfold hsafe, drop_val, mbind at 1, HM_bind at 1 in IH.
  revert IH. destruct (ob_get_packed_loop (S n) w _ _ _ h) as [[[v b'] h']| |]; try done.
  cbv beta iota. intros Hok2. eapply ok_after_le; [eapply ok_after_trans; [exact Hok|exact Hok2]|lia].
Qed.

(** *** Strings *)

Lemma ahead_bytes_lookup h b k x :
  heap_ok h -> ob_wf h b -> zlookup k (ahead_bytes h b) = Some x ->
  0 <= k /\ position b + k < Z.min (sizeLimit b) (allocSize b) /\ ob_byte b k h = Ret (x, h).
Proof.
  intros Hh Hw Hk. pose proof (zlookup_Some_lt _ _ _ Hk) as Hlt. unfold ahead_bytes in *.
  pose proof Hw as [? _ _ Hm _].
  destruct (ob_bytes b) as [p|] eqn:Hp; [|change (zlen (@nil Z)) with 0 in Hlt; lia].
  destruct Hm as (? & ? & blk & Hblk & ?). rewrite Hblk in *.
  assert (zlen (slice (p.2 + position b) (Z.min (sizeLimit b) (allocSize b) - position b) blk)
          = Z.max 0 (Z.min (sizeLimit b) (allocSize b) - position b)) as Hlen.
  { destruct (Z.le_ge_cases 0 (Z.min (sizeLimit b) (allocSize b) - position b)).
    - rewrite zlen_slice; lia.
    - unfold slice. replace (Z.to_nat (_ - _)) with 0%nat by lia. change (zlen (take _ _)) with 0. lia. }
  rewrite Hlen in Hlt. split; [lia|]. split; [lia|].
  destruct (ob_byte_ok h b k Hh Hw) as (p' & blk' & y & Hp' & Hblk' & Hy & _ & ->); [lia|lia|].
  rewrite Hp in Hp'. injection Hp' as <-. rewrite Hblk in Hblk'. injection Hblk' as <-.
  rewrite zlookup_slice in Hk by lia. replace (p.2 + (position b + k)) with (p.2 + position b + k) in Hy by lia.
  congruence.
Qed.

Lemma ob_get_str_safe fuel h b ofs k :
  heap_ok h -> ob_wf h b -> 0 <= ofs <= k -> zlookup k (ahead_bytes h b) = Some 0 ->
  k - ofs < Z.of_nat fuel ->
  hsafe (ob_get_str_loop fuel b ofs) h (fun r h' => h' = h /\
    exists n, r.2 = set_position (position b + n) b /\ 0 <= n /\ position b + n <= SSIZE_MAX).
Proof.
  intros Hh Hw Hofs Hk. revert ofs Hofs. induction fuel as [|fuel IH]; intros ofs Hofs Hf; [lia|].
  pose proof SSIZE_SIZE. pose proof (wf_allocSize _ _ Hh Hw).
  destruct (ahead_bytes_lookup h b k 0 Hh Hw Hk) as (? & ? & Hk0). pose proof Hw as [? ? ? ? ?].
  cbn [ob_get_str_loop]. rewrite (proj2 (readable_spec b ofs ltac:(lia) ltac:(lia) ltac:(lia))) by lia.
  destruct (ob_byte_ok h b ofs Hh Hw) as (_ & _ & x & _ & _ & _ & _ & Hx); [lia|lia|].
  unfold hsafe. erewrite HM_bind_Ret by exact Hx. destruct (Z.eqb_spec x 0) as [->|Hn].
  - split; [done|]. exists (ofs + 1). simpl. rewrite sz_small by lia. split; [done|]. lia.
  - assert (ofs <> k) by (intros ->; congruence). apply IH; lia.
Qed.

Lemma ob_get_str_ptr_safe h b :
  heap_ok h -> ob_wf h b -> 0 ∈ ahead_bytes h b \/ readable b 0 = false ->
  hsafe (drop_val (ob_get_str_ptr b)) h (fun b' h' => heap_ok h' /\ ob_wf h' b' /\ framed h b h' b').
Proof.
  intros Hh Hw [Hin|Hr].
  - apply list_elem_of_lookup in Hin as [i Hi].
    assert (zlookup (Z.of_nat i) (ahead_bytes h b) = Some 0) as Hk
      by (unfold zlookup; rewrite Nat2Z.id; by destruct (Z.ltb_spec (Z.of_nat i) 0); [lia|]).
    destruct (ahead_bytes_lookup h b _ 0 Hh Hw Hk) as (? & ? & _).
    pose proof Hw as [? ? ? ? ?]. pose proof SSIZE_SIZE.
    eapply hsafe_bind; [apply (ob_get_str_safe _ h b 0 (Z.of_nat i) Hh Hw ltac:(lia) Hk); lia|].
    intros [r b'] h' (-> & n & E & ? & ?). cbn [snd] in E. subst b'. apply hsafe_ret.
    split_and!; [done| |by apply framed_same]. split; simpl; try done; lia.
  - unfold ob_get_str_ptr. cbn [ob_get_str_loop]. unfold drop_val, hsafe, mbind, HM_bind. rewrite Hr.
    split_and!; [done|done|apply framed_refl].
Qed.

(** *** Freeing and duplicating *)

(** [ob_free] of a well-formed buffer frees its own block, if it has one. *)
Lemma ob_free_run h b :
  ob_wf h b ->
  ob_free b h = Ret (tt, match allocated b with Some a => delete a.1 h | None => h end).
Proof.
  intros [_ _ _ Hm Ho]. unfold ob_free. destruct (allocated b) as [a|]; [|done].
  destruct (Ho _ eq_refl) as [Hb Ha]. rewrite Hb in Hm. destruct Hm as (_ & _ & blk & Hblk & _).
  unfold hwrite, mfree. by rewrite Hblk, Ha.
Qed.

(** Freeing a buffer that began with no memory restores the heap. *)
Lemma framed_free h b h1 b1 :
  ob_wf h1 b1 -> framed h b h1 b1 -> ob_bytes b = None ->
  ob_free b1 h1 = Ret (tt, h).
Proof.
  intros Hw [Hb _ Hl Ho] Hnull. rewrite (ob_free_run _ _ Hw). do 2 f_equal.
  assert (forall i, ~ points b i) as Hnp by (intros i [o E]; congruence).
  pose proof (Ho ltac:(unfold is_static; by rewrite Hnull)) as Hst. unfold is_static in Hst.
  assert (match allocated b1 with Some a => forall i, points b1 i <-> i = a.1 | None => forall i, ~ points b1 i end) as Hp.
  { destruct Hw as [_ _ _ _ Hown]. destruct (allocated b1) as [a|].
    - destruct (Hown _ eq_refl) as [Hb1 _]. intros i. unfold points. rewrite Hb1. split.
      + by intros [o [= ->]].
      + intros ->. exists a.2. by destruct a.
    - intros i [o E]. by rewrite E in Hst. }
  apply map_eq. intros i. destruct (h !! i) as [blk|] eqn:Ei.
  - destruct (Hb _ _ Ei (Hnp i)) as [Ei1 Hni]. destruct (allocated b1) as [a|]; [|done].
    rewrite lookup_delete_ne; [done|]. intros <-. by apply Hni, Hp.
  - assert (~ points b1 i -> h1 !! i = None) as Hno.
    { intros Hni. destruct (h1 !! i) eqn:E1; [|done].
      destruct (Hl i) as [|[[? ?] _]]; [by rewrite E1|done|congruence]. }
    destruct (allocated b1) as [a|]; [|by apply Hno].
    rewrite lookup_delete. case_decide as Hd; [done|]. apply Hno. rewrite Hp. congruence.
Qed.

(** A copy that is made and freed leaves no trace. *)
Lemma ob_dup_safe h b :
  heap_ok h -> ob_wf h b ->
  hsafe (d ← ob_dup b; match d with Some d => ob_free d | None => mret tt end) h (fun _ h' => h' = h).
Proof.
  intros Hh Hw. pose proof (wf_allocSize _ _ Hh Hw). pose proof Hw as [? ? ? Hm ?].
  unfold ob_dup. set (ret := OB None _ _ _ 0 None).
  assert (ob_wf h ret) as Hwr by (split; simpl; done).
  unfold hsafe, mbind at 1 2, HM_bind at 1 2, hstruct.
  destruct (malloc_bytes h sizeof_overlay_buffer); [|done]. cbv beta iota.
  destruct (negb (is_null (ob_bytes b)) && negb (allocSize b =? 0)) eqn:Eb; [|done].
  apply andb_prop in Eb as [Eb Ea]. destruct (ob_bytes b) as [p|]; [|done].
  destruct Hm as (? & ? & blk & Hblk & ?). bsplit.
  unfold mbind at 1, HM_bind at 1. destruct (hassert _ h) as [[[] h0]| |] eqn:E0; [|done|].
  2: { unfold hassert, hlift, cassert in E0. repeat case_match; done. }
  assert (h0 = h) as -> by (unfold hassert, hlift, cassert in E0; repeat case_match; congruence).
  set (n := if allocSize b <? _ then _ else _).
  assert (0 <= n <= allocSize b) by (subst n; repeat case_match; bsplit; lia).
  destruct (Z.eqb_spec n 0); [done|]. unfold mbind at 1, HM_bind at 1. simpl.
  unfold mbind at 1, HM_bind at 1, hread. rewrite (load_bytes_ok h p n blk) by (done || lia). simpl.
  assert (zlen (slice p.2 n blk) = n) as Hn by (apply zlen_slice; lia).
  set (src := slice p.2 n blk) in *.
  change (ob_append_bytes ret src) with (append_run (ABytes src) ret).
  assert (Forall is_byte src) as Hby by (apply Forall_take, Forall_drop; by apply (Hh _ _ Hblk)).
  assert (src <> []) as Hne by (intros E; rewrite E in Hn; change (zlen (@nil Z)) with 0 in Hn; lia).
  unfold mbind at 1, HM_bind at 1. rewrite (append_run_put (ABytes src) ret h) by done.
  cbn [append_enc]. destruct (in_bounds_dec ret) as [[_ Hin]|Hnb].
  2: { unfold ob_put, mbind, HM_bind. by rewrite ob_makespace_out_of_bounds. }
  cbn [position allocSize ret] in Hin.
  pose proof (ob_put_safe h ret src Hh Hwr Hby Hne ltac:(simpl; lia)) as Hs. unfold hsafe in Hs.
  destruct (ob_put ret src h) as [[b1 h1]| |]; [|done|done].
  destruct Hs as (_ & Hw1 & Hf & _). unfold mret, HM_ret. by rewrite (framed_free h ret h1 b1).
Qed.

(** One command: no undefined behaviour, the invariant is preserved, and what
    is not the buffer's is left alone. *)
Lemma ob_exec_safe c h b :
  heap_ok h -> ob_wf h b -> cmd_pre c h b ->
  hsafe (ob_exec c b) h (fun b' h' => heap_ok h' /\ ob_wf h' b' /\ framed h b h' b').
Proof.
  intros Hh Hw [Hmax Hv]. pose proof SSIZE_SIZE. pose proof Hw as [? ? ? ? ?].
  assert (position b <= ob_high b /\ checkpointLength b <= ob_high b) as [Hp Hc]
    by (unfold ob_high; lia).
  assert (forall m n, hsafe m h (ok_after h b n) ->
    hsafe m h (fun b' h' => heap_ok h' /\ ob_wf h' b' /\ framed h b h' b')) as Hok.
  { intros m n Hm. eapply hsafe_mono; [exact Hm|]. by intros b' h' (? & ? & ? & _). }
  assert (forall b', ob_bytes b' = ob_bytes b -> allocated b' = allocated b ->
    allocSize b' = allocSize b -> ob_wf h b' ->
    hsafe (mret b') h (fun b' h' => heap_ok h' /\ ob_wf h' b' /\ framed h b h' b')) as Hret.
  { intros b' ? ? ? ?. apply hsafe_ret. split_and!; [done|done|by apply framed_same]. }
  destruct c; cbn [ob_exec cmd_size] in *.
  - eapply Hok. unfold hsafe. rewrite append_run_put by done.
    apply ob_put_safe; auto using append_enc_range, append_enc_nonempty. lia.
  - eapply Hok, ob_append_space_safe; auto; lia.
  - eapply Hok, (ob_append_packed_safe 5); auto; lia.
  - eapply Hok, (ob_append_packed_safe 10); auto; lia.
  - eapply Hok, ob_get_safe; auto; lia.
  - eapply Hok, ob_get_safe; auto; lia.
  - eapply Hok, hsafe_ret, ok_after_position; eauto; lia.
  - eapply Hok, ob_get_bytes_safe; auto; lia.
  - eapply Hok, ob_get_bytes_safe; auto; lia.
  - eapply Hok, ob_get_fixed_safe; auto; lia.
  - eapply Hok, ob_get_fixed_safe; auto; lia.
  - eapply Hok, ob_get_fixed_safe; auto; lia.
  - eapply Hok, ob_get_fixed_safe; auto; lia.
  - eapply Hok, ob_get_fixed_safe; auto; lia.
  - eapply Hok, ob_get_fixed_safe; auto; lia.
  - by apply Hret.
  - by apply Hret.
  - by eapply Hok, (ob_limitsize_safe _ _ _ 0).
  - apply Hret; try done. split; simpl; try done; lia.
  - by eapply Hok, (ob_flip_safe _ _ 0).
  - apply Hret; try done. split; simpl; try done; lia.
  - eapply Hok, (ob_set_at_safe _ _ _ _ 0); try done; try lia; [|change (zlen [u8 v]) with 1; lia].
    constructor; [apply is_byte_mod|constructor].
  - eapply Hok, (ob_set_at_safe _ _ _ _ 0); try done; try lia; [|change (zlen [_; _]) with 2; lia].
    rewrite !byte_at_div by lia. repeat constructor; apply is_byte_mod.
  - apply (hsafe_bind _ _ _ (fun _ h' => h' = h)); [|intros ? h' E; subst h'; by apply Hret].
    apply (hsafe_hlift _ _ (fun _ h' => h' = h)). unfold ob_remaining.
    by do 2 (eapply safe_bind; [by apply (safe_cassert _ (fun _ => True))|]; intros [] _).
  - eapply Hok, (ob_get_packed_safe 5); auto; lia.
  - eapply Hok, (ob_get_packed_safe 5); auto; lia.
  - by apply ob_get_str_ptr_safe.
  - pose proof (ob_dup_safe h b Hh Hw) as Hd. unfold hsafe, mbind, HM_bind in *.
    destruct (ob_dup b h) as [[d h1]| |]; try done.
    destruct (match d with Some d => ob_free d | None => mret tt end h1) as [[[] h2]| |]; try done.
    subst h2. by apply Hret.
Qed.

(** The property of a whole session. *)
Lemma ob_run_safe cs h b :
  heap_ok h -> ob_wf h b -> session_ok cs h b ->
  hsafe (ob_run cs b) h (fun b' h' => heap_ok h' /\ ob_wf h' b' /\ framed h b h' b').
Proof.
  revert h b. induction cs as [|c cs IH]; intros h b Hh Hw Hv.
  { apply hsafe_ret. split_and!; [done|done|apply framed_refl]. }
  destruct Hv as [Hc Hcs]. pose proof (ob_exec_safe c h b Hh Hw Hc) as Hs.
  cbn [ob_run]. unfold hsafe, mbind, HM_bind in *.
  destruct (ob_exec c b h) as [[b1 h1]| |]; try done. destruct Hs as (Hh1 & Hw1 & Hf1).
  specialize (IH h1 b1 Hh1 Hw1 Hcs). destruct (ob_run cs b1 h1) as [[b2 h2]| |]; try done.
  destruct IH as (? & ? & ?). split_and!; [done|done|by eapply framed_trans].
Qed.
End facts.
