(* ===== verification/OverlayBufferSpec.v ===== *)
(** * overlay_buffer.c: the properties

    Memory safety of sessions, refinement of the appenders to an abstract byte
    sequence, the integer round trips (and where they fail), and the operations
    that stop the process or read out of bounds. *)

From stdpp Require Import base tactics list fin_maps gmap.
From Stdlib Require Import ZArith Lia.
From S2P Require Import Prelude Memory OverlayBuffer OverlayBufferFacts.

(** ** Variable-length integers *)

Lemma pack_byte_low v : 0 <= v -> Z.land (pack_byte v) 0x7f = v mod 128.
Proof.
  intros. unfold pack_byte. rewrite Z.land_lor_distr_l, !land_7f, Zmod_mod.
  case_match; simpl; apply Z.lor_0_r.
Qed.

Lemma pack_byte_high v : 0 <= v -> (Z.land (pack_byte v) 0x80 =? 0) = (v <=? 0x7f).
Proof.
  intros. unfold pack_byte. rewrite Z.land_lor_distr_l, <- Z.land_assoc. simpl (Z.land 0x7f 0x80).
  rewrite Z.land_0_r, Z.lor_0_l. by destruct (Z.ltb_spec 0x7f v), (Z.leb_spec v 0x7f); try lia.
Qed.

Lemma pack_byte_range v : 0 <= v -> is_byte (pack_byte v).
Proof.
  intros. unfold pack_byte, is_byte. rewrite land_7f.
  pose proof (Z.mod_pos_bound v 128 ltac:(lia)). case_match.
  - change (Z.lor (v mod 128) 128) with (Z.lor (v mod 128) (Z.shiftl 1 7)).
    rewrite lor_shiftl_add by lia. lia.
  - rewrite Z.lor_0_r. lia.
Qed.

(** The decoding loop over a byte sequence: what [unpack_uint] and
    [ob_get_packed_ui32/64] compute, [w] being the width of the result. *)
Fixpoint unpack_bytes (w : Z) (bs : list Z) (ret shift : Z) : outcome (option (Z * list Z)) :=
  match bs with
  | [] => Ret None
  | byte :: rest =>
      x ← int_shl (Z.land byte 0x7f) shift;
      let ret := Z.lor ret (uN w x) in
      if Z.land byte 0x80 =? 0 then Ret (Some (ret, rest)) else unpack_bytes w rest ret (shift + 7)
  end.

(** [B] bounds the values a [w]-bit decoder can represent without its [int]
    intermediate changing sign. *)
Definition packed_bound (w B : Z) : Prop := (w = 32 /\ B = 2 ^ 32) \/ (w = 64 /\ B = 2 ^ 31).

Lemma uN_s32_small w B x : packed_bound w B -> 0 <= x < B -> uN w (s32 x) = x.
Proof.
  intros [[-> ->]|[-> ->]] Hx.
  - unfold uN, sN. rewrite Zminus_mod_idemp_l. rewrite Z.mod_small; lia.
  - rewrite sN_small by lia. apply uN_small. lia.
Qed.

Lemma div_128_lt v B : 0 <= v -> 0 < B -> v * 128 < B * 128 -> v < B.
Proof. lia. Qed.

Lemma unpack_bytes_pack w B fuel k acc v rest :
  packed_bound w B -> 0 <= k -> 0 <= v < 128 ^ Z.of_nat fuel -> (0 < fuel)%nat ->
  0 <= acc < 2 ^ (7 * k) -> acc + v * 2 ^ (7 * k) < B -> (k = 0 \/ 0 < v) ->
  unpack_bytes w (pack_uint_loop fuel v ++ rest) acc (7 * k) = Ret (Some (acc + v * 2 ^ (7 * k), rest)).
Proof.
  intros HB. revert k acc v. induction fuel as [|fuel IH]; intros k acc v Hk Hv Hf Hacc HV Hkv; [lia|].
  cbn [pack_uint_loop app unpack_bytes].
  rewrite pack_byte_low by lia. rewrite pack_byte_high by lia.
  rewrite Z.shiftr_div_pow2 by lia. change (2 ^ 7) with 128.
  set (P := 2 ^ (7 * k)) in *. assert (0 < P) by (apply Z.pow_pos_nonneg; lia).
  pose proof (Z.mod_pos_bound v 128 ltac:(lia)). pose proof (Z.div_mod v 128 ltac:(lia)).
  assert (7 * k < 32) as Hk32.
  { destruct Hkv as [->|Hv0]; [lia|]. destruct (Z.lt_ge_cases (7 * k) 32) as [?|Hge]; [done|].
    assert (2 ^ 32 <= P) by (apply Z.pow_le_mono_r; lia).
    destruct HB as [[_ ->]|[_ ->]]; nia. }
  unfold int_shl. rewrite (proj2 (Z.leb_gt 32 (7 * k))) by lia.
  rewrite Z.shiftl_mul_pow2 by lia. fold P. cbn [mbind outcome_bind].
  assert (0 <= v mod 128 * P <= v * P).
  { split; [nia|]. apply Z.mul_le_mono_nonneg_r; [lia|]. apply Z.mod_le; lia. }
  rewrite (uN_s32_small w B) by (done || lia).
  assert (Z.lor acc (v mod 128 * P) = acc + v mod 128 * P) as ->.
  { apply lor_mul_pow2; [lia|done]. }
  destruct (Z.leb_spec v 0x7f).
  - rewrite (Z.mod_small v 128) by lia. rewrite Z.div_small by lia. done.
  - assert (1 <= v / 128) by (apply Z.div_le_lower_bound; lia).
    rewrite (proj2 (Z.eqb_neq _ _)) by lia.
    assert (2 ^ (7 * (k + 1)) = 128 * P) as HP'.
    { unfold P. replace (7 * (k + 1)) with (7 + 7 * k) by lia. rewrite Z.pow_add_r by lia. done. }
    replace (7 * k + 7) with (7 * (k + 1)) by lia.
    destruct fuel as [|fuel].
    { exfalso. simpl in Hv. lia. }
    rewrite IH.
    + rewrite HP'. do 3 f_equal. nia.
    + lia.
    + replace (Z.of_nat (S (S fuel))) with (1 + Z.of_nat (S fuel)) in Hv by lia.
      rewrite Z.pow_add_r in Hv by lia. split; [lia|]. apply Z.div_lt_upper_bound; lia.
    + lia.
    + rewrite HP'. nia.
    + rewrite HP'. nia.
    + right. lia.
Qed.

(** One round of the decoder on a continued byte, while the shift stays below
    the width of [int]. *)
Lemma unpack_step w k acc v f rest :
  (w = 32 \/ w = 64) -> 0 <= k <= 3 -> 0 <= acc < 2 ^ (7 * k) -> 128 <= v ->
  unpack_bytes w (pack_uint_loop (S f) v ++ rest) acc (7 * k) =
  unpack_bytes w (pack_uint_loop f (v / 128) ++ rest) (acc + v mod 128 * 2 ^ (7 * k)) (7 * (k + 1)).
Proof.
  intros Hw Hk Hacc Hv. cbn [pack_uint_loop app unpack_bytes].
  rewrite pack_byte_low, pack_byte_high by lia.
  rewrite Z.shiftr_div_pow2 by lia. change (2 ^ 7) with 128.
  pose proof (Z.mod_pos_bound v 128 ltac:(lia)).
  assert (1 <= v / 128) by (apply Z.div_le_lower_bound; lia).
  rewrite (proj2 (Z.eqb_neq (v / 128) 0)) by lia. rewrite (proj2 (Z.leb_gt v _)) by lia.
  unfold int_shl. rewrite (proj2 (Z.leb_gt 32 (7 * k))) by lia.
  rewrite Z.shiftl_mul_pow2 by lia. cbn [mbind outcome_bind].
  assert (0 <= v mod 128 * 2 ^ (7 * k) < 2 ^ 28) as Hx.
  { assert (2 ^ (7 * k) <= 2 ^ 21) by (apply Z.pow_le_mono_r; lia).
    assert (0 < 2 ^ (7 * k)) by (apply Z.pow_pos_nonneg; lia). nia. }
  rewrite (sN_small 32) by lia.
  rewrite uN_small by (destruct Hw as [-> | ->]; lia).
  rewrite lor_mul_pow2 by lia. f_equal. lia.
Qed.

(** Four rounds: the low 28 bits have been collected. *)
Lemma unpack_four w v f rest :
  (w = 32 \/ w = 64) -> 2 ^ 28 <= v ->
  unpack_bytes w (pack_uint_loop (4 + f) v ++ rest) 0 0 =
  unpack_bytes w (pack_uint_loop f (v / 2 ^ 28) ++ rest) (v mod 2 ^ 28) 28.
Proof.
  intros Hw Hv. change (4 + f)%nat with (S (S (S (S f)))).
  pose proof (unpack_step w 0 0 v (S (S (S f))) rest Hw ltac:(lia) ltac:(lia) ltac:(lia)) as E1.
  change (7 * 0) with 0 in E1. rewrite E1. clear E1.
  assert (2 ^ 21 <= v / 128) by (apply Z.div_le_lower_bound; lia).
  pose proof (Z.mod_pos_bound v 128 ltac:(lia)).
  rewrite unpack_step by (simpl; lia).
  assert (2 ^ 14 <= v / 128 / 128) by (apply Z.div_le_lower_bound; lia).
  pose proof (Z.mod_pos_bound (v / 128) 128 ltac:(lia)).
  rewrite unpack_step by (simpl; lia).
  assert (2 ^ 7 <= v / 128 / 128 / 128) by (apply Z.div_le_lower_bound; lia).
  pose proof (Z.mod_pos_bound (v / 128 / 128) 128 ltac:(lia)).
  rewrite unpack_step by (simpl; lia).
  rewrite !Z.div_div by lia. f_equal.
  pose proof (Z.div_mod v (2 ^ 28) ltac:(lia)). pose proof (Z.div_mod v 128 ltac:(lia)).
  pose proof (Z.div_mod (v / 128) 128 ltac:(lia)) as E2. rewrite Z.div_div in E2 by lia.
  pose proof (Z.div_mod (v / (128 * 128)) 128 ltac:(lia)) as E3. rewrite Z.div_div in E3 by lia.
  pose proof (Z.div_mod (v / (128 * 128 * 128)) 128 ltac:(lia)) as E4.
  rewrite Z.div_div in E4 by lia. change (128 * 128 * 128 * 128) with (2 ^ 28) in E4.
  change (2 ^ (7 * 0)) with 1. change (2 ^ (7 * (0 + 1))) with 128.
  change (2 ^ (7 * (0 + 1 + 1))) with (128 * 128).
  change (2 ^ (7 * (0 + 1 + 1 + 1))) with (128 * 128 * 128). lia.
Qed.

Lemma s32_high acc t :
  0 <= acc < 2 ^ 28 -> 0 <= t ->
  Z.lor acc (u64 (s32 (t * 2 ^ 28))) = u64 (s32 (acc + t * 2 ^ 28)).
Proof.
  intros Ha Ht. unfold sN, uN. change (2 ^ (32 - 1)) with (8 * 2 ^ 28).
  change (2 ^ 32) with (16 * 2 ^ 28). change (2 ^ 64) with (2 ^ 36 * 2 ^ 28).
  replace (t * 2 ^ 28 + 8 * 2 ^ 28) with ((t + 8) * 2 ^ 28) by lia.
  replace (acc + t * 2 ^ 28 + 8 * 2 ^ 28) with ((t + 8) * 2 ^ 28 + acc) by lia.
  rewrite Zmult_mod_distr_r.
  pose proof (Z.mod_pos_bound (t + 8) 16 ltac:(lia)) as Hm.
  assert (((t + 8) * 2 ^ 28 + acc) mod (16 * 2 ^ 28) = ((t + 8) mod 16) * 2 ^ 28 + acc) as ->.
  { rewrite <- Z.add_mod_idemp_l by lia. rewrite Zmult_mod_distr_r. apply Z.mod_small. lia. }
  set (m := (t + 8) mod 16) in *.
  replace (m * 2 ^ 28 - 8 * 2 ^ 28) with ((m - 8) * 2 ^ 28) by lia.
  replace (m * 2 ^ 28 + acc - 8 * 2 ^ 28) with ((m - 8) * 2 ^ 28 + acc) by lia.
  rewrite Zmult_mod_distr_r, lor_mul_pow2 by lia.
  rewrite <- Z.add_mod_idemp_l by lia. rewrite Zmult_mod_distr_r.
  pose proof (Z.mod_pos_bound (m - 8) (2 ^ 36) ltac:(lia)).
  rewrite (Z.mod_small (_ + acc)) by lia. lia.
Qed.

(** The complete behaviour of the 64-bit decoder on an encoded value. *)
Lemma unpack_bytes_64 v f rest :
  0 <= v < 2 ^ 64 -> (10 <= f)%nat ->
  unpack_bytes 64 (pack_uint_loop f v ++ rest) 0 0 =
  if v <? 2 ^ 35 then Ret (Some (u64 (s32 v), rest)) else Undef.
Proof.
  intros Hv Hf. destruct (Z.lt_ge_cases v (2 ^ 28)) as [Hlo|Hhi].
  - rewrite (proj2 (Z.ltb_lt v _)) by lia.
    pose proof (unpack_bytes_pack 64 (2 ^ 31) f 0 0 v rest) as E.
    rewrite Z.mul_0_r, Z.pow_0_r in E.
    rewrite E; [|by right|lia| |lia|lia|lia|by left].
    + rewrite (uN_s32_small 64 (2 ^ 31)); [|by right|lia]. do 3 f_equal. lia.
    + split; [lia|]. assert (128 ^ 10 <= 128 ^ Z.of_nat f) by (apply Z.pow_le_mono_r; lia). lia.
  - destruct f as [|[|[|[|[|f]]]]]; try lia.
    change (S (S (S (S (S f))))) with (4 + S f)%nat. rewrite unpack_four by (auto; lia).
    pose proof (Z.div_mod v (2 ^ 28) ltac:(lia)) as Ed.
    pose proof (Z.mod_pos_bound v (2 ^ 28) ltac:(lia)).
    set (t := v / 2 ^ 28) in *. set (acc := v mod 2 ^ 28) in *.
    assert (1 <= t) by lia. cbn [pack_uint_loop app unpack_bytes].
    rewrite pack_byte_low, pack_byte_high by lia.
    rewrite Z.shiftr_div_pow2 by lia. change (2 ^ 7) with 128.
    change (int_shl (t mod 128) 28) with (Ret (s32 (Z.shiftl (t mod 128) 28))).
    cbn [mbind outcome_bind]. rewrite Z.shiftl_mul_pow2 by lia.
    destruct (Z.leb_spec t 0x7f) as [Ht|Ht].
    + rewrite (Z.mod_small t) by lia. rewrite (Z.div_small t) by lia.
      rewrite s32_high by lia. rewrite (proj2 (Z.ltb_lt v _)) by lia. simpl (_ ++ _).
      do 3 f_equal. do 2 f_equal. lia.
    + rewrite (proj2 (Z.ltb_ge v _)) by lia.
      assert (1 <= t / 128) by (apply Z.div_le_lower_bound; lia).
      rewrite (proj2 (Z.eqb_neq (t / 128) 0)) by lia.
      destruct f as [|f]; [lia|]. done.
Qed.

Lemma unpack_uint_bytes bs i v :
  0 <= i ->
  unpack_uint_loop bs i v =
  match unpack_bytes 64 bs v (i * 7) with
  | Ret (Some (ret, rest)) => Ret (Some (i + (zlen bs - zlen rest), ret))
  | Ret None => Ret None
  | Abort => Abort
  | Undef => Undef
  end.
Proof.
  revert i v. induction bs as [|x bs IH]; intros i v Hi; [done|].
  cbn [unpack_uint_loop unpack_bytes]. destruct (int_shl _ _); [|done..].
  cbn [mbind outcome_bind]. rewrite zlen_cons. destruct (Z.land x 0x80 =? 0).
  - do 3 f_equal. lia.
  - rewrite IH by lia. replace ((i + 1) * 7) with (i * 7 + 7) by lia.
    destruct (unpack_bytes _ _ _ _) as [[[ret rest]|]| |]; [|done..]. do 3 f_equal. lia.
Qed.

Lemma measure_packed_loop_length f v r :
  measure_packed_loop f v r = r + zlen (pack_uint_loop f v).
Proof.
  revert v r. induction f as [|f IH]; intros v r; [unfold zlen; simpl; lia|].
  cbn [measure_packed_loop pack_uint_loop]. rewrite zlen_cons.
  destruct (Z.shiftr v 7 =? 0); [unfold zlen; simpl; lia|]. rewrite IH. lia.
Qed.

(** ** Decoding fixed-width integers *)

Lemma uN_lor w a b : 0 <= w -> uN w (Z.lor a b) = Z.lor (uN w a) (uN w b).
Proof. intros. unfold uN. rewrite <- !Z.land_ones by done. apply Z.land_lor_distr_l. Qed.

Lemma uN_s32 x : uN 32 (s32 x) = uN 32 x.
Proof.
  unfold uN, sN. rewrite Zminus_mod_idemp_l. f_equal. lia.
Qed.

Lemma uN_uN w x : uN w (uN w x) = uN w x.
Proof. unfold uN. apply Zmod_mod. Qed.

(** Or-ing in a part [b] that lies below bit [k]. *)
Lemma lor_mul_pow2_r a b k : 0 <= k -> 0 <= b < 2 ^ k -> Z.lor (a * 2 ^ k) b = a * 2 ^ k + b.
Proof. intros. rewrite Z.lor_comm, lor_mul_pow2 by done. lia. Qed.

Ltac byte_bounds :=
  repeat match goal with
  | |- context [?x mod 256] =>
      lazymatch goal with
      | _ : 0 <= x mod 256 < 256 |- _ => fail
      | _ => pose proof (Z.mod_pos_bound x 256 ltac:(lia))
      end
  end.

(** The value of [n] little-endian bytes. *)
Lemma le_bytes_value n v : 0 <= n -> v mod 256 ^ (n + 1) = v mod 256 + 256 * ((v / 256) mod 256 ^ n).
Proof.
  intros. rewrite Z.add_comm, Z.pow_add_r, Z.pow_1_r by lia.
  assert (0 < 256 ^ n) by (apply Z.pow_pos_nonneg; lia). rewrite Z.rem_mul_r by lia. lia.
Qed.

Lemma uN_shl8 w x k : 0 <= k -> 0 <= x * 2 ^ k < 2 ^ w -> uN w (Z.shiftl x k) = x * 2 ^ k.
Proof. intros. rewrite Z.shiftl_mul_pow2 by done. by apply uN_small. Qed.

(** The generic shapes: a big-endian or little-endian chain of ors. *)
Lemma be32_val a b c d :
  is_byte a -> is_byte b -> is_byte c -> is_byte d ->
  be32 [a; b; c; d] = ((a * 256 + b) * 256 + c) * 256 + d.
Proof.
  unfold is_byte. intros. unfold be32, ishl. rewrite !uN_lor, !uN_s32 by lia.
  rewrite !uN_shl8 by lia. rewrite (uN_small 32 d) by lia.
  replace (b * 2 ^ 16) with (b * 2 ^ 16 + 0) by lia.
  replace (a * 2 ^ 24) with (a * 2 ^ 8 * 2 ^ 16) by lia.
  rewrite Z.add_0_r.
  assert (Z.lor (a * 2 ^ 8 * 2 ^ 16) (b * 2 ^ 16) = (a * 2 ^ 8 + b) * 2 ^ 8 * 2 ^ 8) as ->.
  { replace (a * 2 ^ 8 * 2 ^ 16) with (a * 2 ^ 24) by lia.
    rewrite lor_mul_pow2_r by lia. lia. }
  assert (Z.lor ((a * 2 ^ 8 + b) * 2 ^ 8 * 2 ^ 8) (c * 2 ^ 8) = ((a * 2 ^ 8 + b) * 2 ^ 8 + c) * 2 ^ 8) as ->.
  { replace ((a * 2 ^ 8 + b) * 2 ^ 8 * 2 ^ 8) with ((a * 2 ^ 8 + b) * 2 ^ 16) by lia.
    rewrite lor_mul_pow2_r by lia. lia. }
  rewrite lor_mul_pow2_r by lia. lia.
Qed.

Lemma le32_val a b c d :
  is_byte a -> is_byte b -> is_byte c -> is_byte d ->
  le32 [a; b; c; d] = a + 256 * (b + 256 * (c + 256 * d)).
Proof.
  unfold is_byte. intros. unfold le32, ishl. rewrite !uN_lor, !uN_s32 by lia.
  rewrite !uN_shl8 by lia. rewrite (uN_small 32 a) by lia.
  rewrite (lor_mul_pow2 a b) by lia. rewrite (lor_mul_pow2 _ c) by lia.
  rewrite (lor_mul_pow2 _ d) by lia. lia.
Qed.

Lemma be16_val a b : is_byte a -> is_byte b -> be16 [a; b] = a * 256 + b.
Proof.
  unfold is_byte. intros. unfold be16, ishl. rewrite uN_lor by lia.
  rewrite sN_small by (rewrite ?Z.shiftl_mul_pow2; lia).
  rewrite uN_shl8, (uN_small 16 b) by lia. rewrite lor_mul_pow2_r by lia. lia.
Qed.

Lemma le16_val a b : is_byte a -> is_byte b -> le16 [a; b] = a + 256 * b.
Proof.
  unfold is_byte. intros. unfold le16, ishl. rewrite uN_lor by lia.
  rewrite sN_small by (rewrite ?Z.shiftl_mul_pow2; lia).
  rewrite uN_shl8, (uN_small 16 a) by lia. rewrite lor_mul_pow2 by lia. lia.
Qed.

Lemma le64_val a b c d e f g i :
  Forall is_byte [a; b; c; d; e; f; g; i] ->
  le64 [a; b; c; d; e; f; g; i] =
  a + 256 * (b + 256 * (c + 256 * (d + 256 * (e + 256 * (f + 256 * (g + 256 * i)))))).
Proof.
  unfold is_byte. intros Hall. rewrite !Forall_cons in Hall. destruct_and!.
  unfold le64, ushl64. rewrite !uN_shl8 by lia.
  rewrite (lor_mul_pow2 a b) by lia. rewrite (lor_mul_pow2 _ c) by lia.
  rewrite (lor_mul_pow2 _ d) by lia. rewrite (lor_mul_pow2 _ e) by lia.
  rewrite (lor_mul_pow2 _ f) by lia. rewrite (lor_mul_pow2 _ g) by lia.
  rewrite (lor_mul_pow2 _ i) by lia. lia.
Qed.

(** A value below [2^(8n)] is the sum of its bytes. *)
Lemma bytes16 v : v mod 2 ^ 16 = v mod 256 + 256 * ((v / 256) mod 256).
Proof.
  change (2 ^ 16) with (256 ^ (1 + 1)). rewrite le_bytes_value by lia. done.
Qed.

Lemma bytes32 v :
  v mod 2 ^ 32 = v mod 256 + 256 * ((v / 256) mod 256 +
    256 * ((v / 256 / 256) mod 256 + 256 * ((v / 256 / 256 / 256) mod 256))).
Proof.
  change (2 ^ 32) with (256 ^ (3 + 1)). rewrite le_bytes_value by lia.
  change (256 ^ 3) with (256 ^ (2 + 1)). rewrite le_bytes_value by lia.
  change (256 ^ 2) with (256 ^ (1 + 1)). rewrite le_bytes_value by lia. done.
Qed.

Lemma bytes64 v :
  v mod 2 ^ 64 = v mod 256 + 256 * ((v / 256) mod 256 + 256 * ((v / 256 / 256) mod 256 +
    256 * ((v / 256 / 256 / 256) mod 256 + 256 * ((v / 256 / 256 / 256 / 256) mod 256 +
    256 * ((v / 256 / 256 / 256 / 256 / 256) mod 256 +
    256 * ((v / 256 / 256 / 256 / 256 / 256 / 256) mod 256 +
    256 * ((v / 256 / 256 / 256 / 256 / 256 / 256 / 256) mod 256))))))).
Proof.
  change (2 ^ 64) with (256 ^ (7 + 1)). rewrite le_bytes_value by lia.
  change (256 ^ 7) with (256 ^ (6 + 1)). rewrite le_bytes_value by lia.
  change (256 ^ 6) with (256 ^ (5 + 1)). rewrite le_bytes_value by lia.
  change (256 ^ 5) with (256 ^ (4 + 1)). rewrite le_bytes_value by lia.
  change (256 ^ 4) with (256 ^ (3 + 1)). rewrite le_bytes_value by lia.
  change (256 ^ 3) with (256 ^ (2 + 1)). rewrite le_bytes_value by lia.
  change (256 ^ 2) with (256 ^ (1 + 1)). rewrite le_bytes_value by lia. done.
Qed.

Lemma fixed_decode v :
  be16 (be_bytes 2 v) = v mod 2 ^ 16 /\ le16 (le_bytes 2 v) = v mod 2 ^ 16 /\
  be32 (be_bytes 4 v) = v mod 2 ^ 32 /\ le32 (le_bytes 4 v) = v mod 2 ^ 32 /\
  le64 (le_bytes 8 v) = v mod 2 ^ 64.
Proof.
  unfold be_bytes. cbn [le_bytes rev app].
  rewrite be16_val, le16_val, be32_val, le32_val, le64_val
    by (repeat constructor; apply is_byte_mod).
  rewrite bytes16, bytes32, bytes64. repeat split; lia.
Qed.

(** Big-endian 64-bit reads: below [2^40] the three top bytes are zero and the
    fourth byte lands four bits too high. *)
Lemma be64_low d l :
  is_byte d -> 0 <= l < 2 ^ 32 ->
  be64 [0; 0; 0; d; (l / 2 ^ 24) mod 256; (l / 2 ^ 16) mod 256; (l / 2 ^ 8) mod 256; l mod 256] =
  Z.lor (d * 2 ^ 36) (u64 (s32 l)).
Proof.
  unfold is_byte. intros Hd Hl. unfold be64, ushl64, ishl.
  rewrite !Z.shiftl_0_l, (uN_small 64 0), !Z.lor_0_l by lia.
  rewrite uN_shl8 by lia. rewrite <- !Z.lor_assoc. f_equal.
  pose proof (Z.mod_pos_bound (l / 2 ^ 16) 256 ltac:(lia)).
  pose proof (Z.mod_pos_bound (l / 2 ^ 8) 256 ltac:(lia)).
  pose proof (Z.mod_pos_bound l 256 ltac:(lia)).
  assert (0 <= l / 2 ^ 24 < 256) by (split; [apply Z.div_pos|apply Z.div_lt_upper_bound]; lia).
  rewrite (Z.mod_small (l / 2 ^ 24)) by lia.
  rewrite (sN_small 32 (Z.shiftl ((l / 2 ^ 16) mod 256) 16)) by (rewrite ?Z.shiftl_mul_pow2; lia).
  rewrite (sN_small 32 (Z.shiftl ((l / 2 ^ 8) mod 256) 8)) by (rewrite ?Z.shiftl_mul_pow2; lia).
  rewrite (uN_shl8 64 ((l / 2 ^ 8) mod 256)), (uN_shl8 64 ((l / 2 ^ 16) mod 256)) by lia.
  rewrite (lor_mul_pow2_r ((l / 2 ^ 8) mod 256)) by lia.
  assert (l mod 2 ^ 24 = (l / 2 ^ 16) mod 256 * 2 ^ 16 + ((l / 2 ^ 8) mod 256 * 2 ^ 8 + l mod 256)) as E24.
  { change (2 ^ 24) with (256 ^ (2 + 1)). rewrite le_bytes_value by lia.
    change (256 ^ 2) with (256 ^ (1 + 1)). rewrite le_bytes_value by lia.
    rewrite Z.div_div by lia. change (256 ^ 1) with 256. change (2 ^ 8) with 256.
    change (2 ^ 16) with (256 * 256). lia. }
  rewrite (lor_mul_pow2_r ((l / 2 ^ 16) mod 256)) by lia. rewrite <- E24.
  rewrite Z.shiftl_mul_pow2 by lia.
  pose proof (Z.mod_pos_bound l (2 ^ 24) ltac:(lia)). pose proof (Z.div_mod l (2 ^ 24) ltac:(lia)) as El.
  set (t := l / 2 ^ 24) in *. set (a := l mod 2 ^ 24) in *.
  assert (s32 l = s32 (t * 2 ^ 24) + a) as ->.
  { rewrite El. unfold sN. change (2 ^ (32 - 1)) with (128 * 2 ^ 24).
    change (2 ^ 32) with (256 * 2 ^ 24).
    replace (2 ^ 24 * t + a + 128 * 2 ^ 24) with ((t + 128) * 2 ^ 24 + a) by lia.
    replace (t * 2 ^ 24 + 128 * 2 ^ 24) with ((t + 128) * 2 ^ 24) by lia.
    rewrite Zmult_mod_distr_r. rewrite <- Z.add_mod_idemp_l by lia. rewrite Zmult_mod_distr_r.
    pose proof (Z.mod_pos_bound (t + 128) 256 ltac:(lia)).
    rewrite (Z.mod_small (_ + a)) by lia. lia. }
  assert (exists q, s32 (t * 2 ^ 24) = q * 2 ^ 24) as [q ->].
  { unfold sN. change (2 ^ (32 - 1)) with (128 * 2 ^ 24). change (2 ^ 32) with (256 * 2 ^ 24).
    replace (t * 2 ^ 24 + 128 * 2 ^ 24) with ((t + 128) * 2 ^ 24) by lia.
    rewrite Zmult_mod_distr_r. exists ((t + 128) mod 256 - 128). lia. }
  unfold uN. change (2 ^ 64) with (2 ^ 40 * 2 ^ 24). rewrite Zmult_mod_distr_r.
  rewrite <- (Z.add_mod_idemp_l (q * 2 ^ 24)) by lia. rewrite Zmult_mod_distr_r.
  pose proof (Z.mod_pos_bound q (2 ^ 40) ltac:(lia)).
  rewrite (Z.mod_small (_ + a)) by lia. apply lor_mul_pow2_r; lia.
Qed.

Lemma be_bytes_8_low v :
  0 <= v < 2 ^ 40 ->
  be_bytes 8 v = [0; 0; 0; v / 2 ^ 32; (v mod 2 ^ 32 / 2 ^ 24) mod 256;
                  (v mod 2 ^ 32 / 2 ^ 16) mod 256; (v mod 2 ^ 32 / 2 ^ 8) mod 256; v mod 2 ^ 32 mod 256].
Proof.
  intros Hv. unfold be_bytes. cbn [le_bytes rev app]. rewrite !Z.div_div by lia.
  assert (forall k, 2 ^ 40 <= k -> (v / k) mod 256 = 0) as Hz
    by (intros; rewrite Z.div_small by lia; done).
  rewrite !Hz by lia. clear Hz.
  assert (0 <= v / 2 ^ 32 < 256) by (split; [apply Z.div_pos|apply Z.div_lt_upper_bound]; lia).
  assert (forall k j, 0 <= j -> k = 2 ^ j -> j <= 24 -> (v / k) mod 256 = (v mod 2 ^ 32 / k) mod 256) as Hm.
  { intros k j Hj -> Hj2.
    rewrite (Z.div_mod v (2 ^ 32)) at 1 by lia.
    replace (2 ^ 32) with (2 ^ (24 - j) * 256 * 2 ^ j) at 1
      by (change 256 with (2 ^ 8); rewrite <- !Z.pow_add_r by lia; f_equal; lia).
    replace (2 ^ (24 - j) * 256 * 2 ^ j * (v / 2 ^ 32) + v mod 2 ^ 32)
      with (v mod 2 ^ 32 + (2 ^ (24 - j) * (v / 2 ^ 32) * 256) * 2 ^ j) by ring.
    rewrite Z.div_add by (apply Z.pow_nonzero; lia). by rewrite Z.mod_add by lia. }
  rewrite (Hm (256 * (256 * 256)) 24), (Hm (256 * 256) 16), (Hm 256 8) by lia.
  change (256 * (256 * (256 * 256))) with (2 ^ 32). rewrite (Z.mod_small (v / 2 ^ 32)) by lia.
  assert (v mod 256 = v mod 2 ^ 32 mod 256) as ->; [|done].
  rewrite <- (Z.div_1_r v) at 1. rewrite (Hm 1 0) by lia. by rewrite Z.div_1_r.
Qed.

(** The whole set of values a big-endian 64-bit read gives back, below 2^40. *)
Lemma be64_roundtrip_iff v :
  0 <= v < 2 ^ 40 -> be64 (be_bytes 8 v) = v <-> v < 2 ^ 31.
Proof.
  intros Hv. rewrite be_bytes_8_low by done.
  assert (0 <= v / 2 ^ 32 < 256) as Hd by (split; [apply Z.div_pos|apply Z.div_lt_upper_bound]; lia).
  pose proof (Z.mod_pos_bound v (2 ^ 32) ltac:(lia)) as Hl. pose proof (Z.div_mod v (2 ^ 32) ltac:(lia)).
  rewrite be64_low by done. set (d := v / 2 ^ 32) in *. set (l := v mod 2 ^ 32) in *.
  destruct (Z.lt_ge_cases l (2 ^ 31)) as [Hs|Hs].
  - rewrite sN_small by lia. rewrite uN_small by lia. rewrite lor_mul_pow2_r by lia. lia.
  - assert (s32 l = l - 2 ^ 32) as ->.
    { unfold sN. change (2 ^ (32 - 1)) with (2 ^ 31).
      replace (l + 2 ^ 31) with ((l - 2 ^ 31) + 1 * 2 ^ 32) by lia.
      rewrite Z.mod_add by lia. rewrite Z.mod_small by lia. lia. }
    split; [intros E|lia]. exfalso.
    apply (f_equal (fun x => Z.testbit x 63)) in E. revert E.
    assert (u64 (l - 2 ^ 32) = 2 ^ 64 - 2 ^ 32 + l) as ->.
    { unfold uN. replace (l - 2 ^ 32) with (2 ^ 64 - 2 ^ 32 + l + (-1) * 2 ^ 64) by lia.
      rewrite Z.mod_add by lia. apply Z.mod_small. lia. }
    rewrite Z.lor_spec. replace (2 ^ 64 - 2 ^ 32 + l) with (1 * 2 ^ 63 + (2 ^ 63 - 2 ^ 32 + l)) by lia.
    rewrite <- (lor_mul_pow2_r 1 (2 ^ 63 - 2 ^ 32 + l) 63) by lia.
    rewrite Z.lor_spec, Z.mul_1_l, Z.pow2_bits_true, orb_true_l, orb_true_r by lia.
    rewrite <- (Z.mod_small v (2 ^ 40)) by lia. by rewrite Z.mod_pow2_bits_high by lia.
Qed.

Section buffer_spec.
Context {AR : Arch} {AL : Allocator}.
Implicit Types (h : heap) (b : overlay_buffer).

(** ** Reading what is there *)

(** The bytes [l] lie at the position of [b] and may be read. *)
Definition ob_ahead h b (l : list Z) : Prop :=
  exists p blk, ob_bytes b = Some p /\ h !! p.1 = Some blk /\ 0 <= p.2 /\ 0 <= position b /\
    position b + zlen l <= sizeLimit b /\ position b + zlen l <= allocSize b /\
    p.2 + allocSize b <= zlen blk /\ allocSize b <= SSIZE_MAX /\
    slice (p.2 + position b) (zlen l) blk = l.

Lemma ob_ahead_readable h b l n :
  ob_ahead h b l -> 0 <= n <= zlen l -> readable b n = true.
Proof.
  intros (p & blk & ? & ? & ? & ? & ? & ? & ? & ? & ?) Hn. pose proof SSIZE_SIZE.
  apply readable_spec; lia.
Qed.

Lemma ob_ahead_fetch h b l1 l2 :
  ob_ahead h b (l1 ++ l2) -> ob_fetch b 0 (length l1) h = Ret (l1, h).
Proof.
  intros (p & blk & Hp & Hb & ? & ? & Hl & Ha & ? & ? & Hs). rewrite zlen_app in *.
  pose proof (zlen_nonneg l1). pose proof (zlen_nonneg l2).
  rewrite (ob_fetch_slice h b p blk); [| done..| lia |unfold zlen in *; lia].
  rewrite Z.add_0_r. rewrite slice_app_split in Hs by lia.
  apply app_inj_1 in Hs as [Hs _]; [by fold (zlen l1); rewrite Hs|].
  apply (f_equal zlen) in Hs. apply Nat2Z.inj. fold (zlen l1).
  fold (zlen (slice (p.2 + position b) (zlen l1) blk)). apply zlen_slice; lia.
Qed.

Lemma ob_ahead_skip h b l1 l2 :
  ob_ahead h b (l1 ++ l2) -> ob_ahead h (set_position (position b + zlen l1) b) l2.
Proof.
  intros (p & blk & Hp & Hb & ? & ? & Hl & Ha & ? & ? & Hs). rewrite zlen_app in *.
  pose proof (zlen_nonneg l1). pose proof (zlen_nonneg l2).
  exists p, blk. simpl. repeat (split; [done || lia|]).
  rewrite slice_app_split in Hs by lia. apply app_inj_1 in Hs as [_ Hs].
  - rewrite Z.add_assoc. exact Hs.
  - apply Nat2Z.inj. fold (zlen l1).
    fold (zlen (slice (p.2 + position b) (zlen l1) blk)). apply zlen_slice; lia.
Qed.

Lemma ob_ahead_pos h b l : ob_ahead h b l -> sz (position b + zlen l) = position b + zlen l.
Proof.
  intros (p & blk & ? & ? & ? & ? & ? & ? & ? & ? & ?). pose proof SSIZE_SIZE.
  pose proof (zlen_nonneg l). apply sz_small. lia.
Qed.

Lemma ob_get_fixed_ahead h b l n d f :
  ob_ahead h b l -> zlen l = n ->
  ob_get_fixed b n d f h = Ret ((f l, set_position (position b + n) b), h).
Proof.
  intros Ha <-. unfold ob_get_fixed. pose proof (zlen_nonneg l).
  rewrite (ob_ahead_readable h b l) by (done || lia).
  pose proof (ob_ahead_pos _ _ _ Ha) as Hsz. rewrite <- (app_nil_r l) in Ha.
  erewrite HM_bind_Ret by (unfold zlen; rewrite Nat2Z.id; apply (ob_ahead_fetch _ _ _ _ Ha)).
  by rewrite Hsz.
Qed.

Lemma ob_get_ahead h b x l :
  ob_ahead h b (x :: l) ->
  ob_get b h = Ret ((x, set_position (position b + 1) b), h) /\
  ob_ahead h (set_position (position b + 1) b) l.
Proof.
  intros Ha. split; [|by apply (ob_ahead_skip h b [x] l)]. unfold ob_get.
  pose proof (zlen_nonneg l). rewrite (ob_ahead_readable h b (x :: l)) by (rewrite ?zlen_cons; done || lia).
  pose proof (ob_ahead_fetch h b [x] l Ha) as Hf. simpl in Hf.
  unfold mbind, HM_bind in *. destruct (ob_byte b 0 h) as [[y h']| |]; try done.
  unfold mret, HM_ret in *. simplify_eq/=.
  assert (sz (position b + 1) = position b + 1) as ->; [|done].
  apply sz_small. destruct Ha as (p & blk & ? & ? & ? & ? & ? & ? & ? & ? & ?).
  rewrite zlen_cons in *. pose proof SSIZE_SIZE. lia.
Qed.

(** [ob_get_packed_ui32/64] decode exactly like [unpack_bytes]. *)
Lemma ob_get_packed_ahead fuel w h b l ret shift :
  ob_ahead h b l -> Forall is_byte l -> (length l <= fuel)%nat ->
  match unpack_bytes w l ret shift with
  | Ret (Some (v, rest)) =>
      ob_get_packed_loop fuel w b ret shift h =
      Ret ((v, set_position (position b + (zlen l - zlen rest)) b), h)
  | Ret None => True
  | Abort => True
  | Undef => ob_get_packed_loop fuel w b ret shift h = Undef
  end.
Proof.
  revert fuel b ret shift.
  induction l as [|x l IH]; intros fuel b ret shift Ha Hby Hf; [done|].
  destruct fuel as [|fuel]; [simpl in Hf; lia|]. cbn [unpack_bytes ob_get_packed_loop].
  destruct (ob_get_ahead h b x l Ha) as [Hg Ha']. apply Forall_cons in Hby as [[Hx _] Hby].
  rewrite (HM_bind_Ret _ _ _ _ _ Hg). cbv beta iota.
  rewrite (proj2 (Z.ltb_ge x 0)) by done.
  destruct (int_shl (Z.land x 0x7f) shift) as [y| |]; cbn [mbind outcome_bind]; [|done..].
  rewrite (HM_bind_Ret _ _ h y h) by done. rewrite zlen_cons.
  destruct (Z.land x 0x80 =? 0).
  - by replace (1 + zlen l - zlen l) with 1 by lia.
  - specialize (IH fuel _ (Z.lor ret (uN w y)) (shift + 7) Ha' Hby ltac:(simpl in Hf; lia)).
    destruct (unpack_bytes _ _ _ _) as [[[v rest]|]| |]; [|done..]. rewrite IH. simpl.
    by replace (position b + 1 + (zlen l - zlen rest)) with (position b + (1 + zlen l - zlen rest)) by lia.
Qed.

(** ** Appending and reading back *)

Lemma zlen_contents h b : heap_ok h -> ob_wf h b -> in_bounds b -> zlen (ob_contents h b) = position b.
Proof.
  intros Hh Hw [_ Hb]. pose proof Hw as [? _ _ Hm _]. unfold ob_contents.
  destruct (ob_bytes b) as [p|].
  - destruct Hm as (? & ? & blk & -> & ?). apply zlen_slice; lia.
  - change (zlen (@nil Z)) with 0. lia.
Qed.

(** What was appended can be read from the position it was appended at. *)
Lemma appended_ahead h b vs h' b' :
  heap_ok h -> ob_wf h b -> in_bounds b -> vs <> [] -> appended h b vs h' b' ->
  ob_ahead h' (set_position (position b) b') vs.
Proof.
  intros Hh Hw Hb Hne [Hh' Hw' [? ?] Hp _ _ Hc _].
  pose proof (zlen_contents h b Hh Hw Hb) as Hlen. pose proof (zlen_nonneg vs).
  pose proof (wf_allocSize _ _ Hh' Hw') as Hal. pose proof Hw as [? _ _ _ _].
  pose proof Hw' as [? _ _ Hm _]. unfold ob_contents in Hc at 1.
  destruct (ob_bytes b') as [p|] eqn:Eb.
  2: { exfalso. symmetry in Hc. by apply app_eq_nil in Hc as [_ ?]. }
  destruct Hm as (? & ? & blk & Hblk & ?). rewrite Hblk, Hp in Hc.
  exists p, blk. simpl. rewrite Eb. repeat (split; [done || lia|]).
  rewrite slice_app_split in Hc by lia. apply app_inj_1 in Hc as [_ Hc]; [done|].
  apply Nat2Z.inj. fold (zlen (ob_contents h b)).
  fold (zlen (slice p.2 (position b) blk)). rewrite Hlen. apply zlen_slice; lia.
Qed.

(** A one-step append that did not overrun appended its encoding. *)
Lemma append_no_overrun h b o b' h' :
  heap_ok h -> ob_wf h b -> in_bounds b -> append_valid o ->
  position b + zlen (append_enc o) <= SSIZE_MAX ->
  append_run o b h = Ret (b', h') -> ob_overrun b' = false ->
  appended h b (append_enc o) h' b'.
Proof.
  intros Hh Hw Hb Hv Hmax Hr Hov. rewrite append_run_put in Hr by done.
  destruct (has_room h b (zlen (append_enc o))) eqn:Hroom.
  - destruct (ob_put_room h b (append_enc o)) as (b1 & h1 & Hr1 & Hap);
      auto using append_enc_range, append_enc_nonempty. congruence.
  - destruct (ob_put_overrun h b (append_enc o)) as (Hr1 & _ & Hov1); auto. congruence.
Qed.

Lemma appended_trans h b v1 h1 b1 v2 h2 b2 :
  appended h b v1 h1 b1 -> appended h1 b1 v2 h2 b2 -> appended h b (v1 ++ v2) h2 b2.
Proof.
  intros [? ? ? Hp Hc Hl Hcon Hf] [? ? ? Hp' Hc' Hl' Hcon' Hf'].
  split; try done; try congruence.
  - rewrite zlen_app. lia.
  - rewrite Hcon', Hcon. by rewrite app_assoc.
  - by eapply framed_trans.
Qed.

Lemma overrun_out_of_bounds h b : heap_ok h -> ob_wf h b -> ob_overrun b = true -> ~ in_bounds b.
Proof. intros Hh Hw Ho Hb. by rewrite (in_bounds_not_overrun h b) in Ho. Qed.

Lemma append_packed_no_overrun fuel h b v b' h' :
  heap_ok h -> ob_wf h b -> in_bounds b -> 0 <= v < 128 ^ Z.of_nat fuel -> (0 < fuel)%nat ->
  position b + Z.of_nat fuel <= SSIZE_MAX ->
  ob_append_packed_loop fuel b v h = Ret (b', h') -> ob_overrun b' = false ->
  appended h b (pack_uint_loop fuel v) h' b'.
Proof.
  revert h b v. induction fuel as [|fuel IH]; intros h b v Hh Hw Hb Hv Hf Hmax Hr Hov; [lia|].
  cbn [ob_append_packed_loop pack_uint_loop] in *.
  assert (append_enc (AByte (pack_byte v)) = [pack_byte v]) as Hby.
  { simpl. pose proof (pack_byte_range v ltac:(lia)). unfold is_byte in *. by rewrite Z.mod_small. }
  unfold mbind, HM_bind in Hr. change (ob_append_byte b (pack_byte v)) with (append_run (AByte (pack_byte v)) b) in Hr.
  assert (position b + zlen (append_enc (AByte (pack_byte v))) <= SSIZE_MAX) as Hm1
    by (rewrite Hby; change (zlen [pack_byte v]) with 1; lia).
  destruct (append_run (AByte (pack_byte v)) b h) as [[b1 h1]| |] eqn:E1; try done.
  rewrite Z.shiftr_div_pow2 in * by lia. change (2 ^ 7) with 128 in *.
  destruct (v / 128 =? 0) eqn:Ez.
  { unfold mret, HM_ret in Hr. simplify_eq. rewrite <- Hby.
    by apply (append_no_overrun h b (AByte (pack_byte v))). }
  destruct (ob_overrun b1) eqn:Eo1.
  - assert (~ in_bounds b1) as Hnb.
    { rewrite append_run_put in E1 by done.
      pose proof (ob_put_safe h b (append_enc (AByte (pack_byte v))) Hh Hw) as Hs.
      unfold hsafe in Hs. rewrite E1 in Hs.
      destruct Hs as (? & ? & ? & ?); [by apply append_enc_range | done | done |].
      by eapply overrun_out_of_bounds. }
    destruct fuel; [bsplit; simpl in Hv; rewrite Z.div_small in Ez by lia; lia|].
    cbn [ob_append_packed_loop] in Hr. unfold mbind, HM_bind in Hr.
    unfold ob_append_byte, ob_put, mbind, HM_bind in Hr.
    by rewrite ob_makespace_out_of_bounds in Hr.
  - bsplit. pose proof (append_no_overrun h b (AByte (pack_byte v)) b1 h1 Hh Hw Hb I Hm1 E1 Eo1) as Hap.
    rewrite Hby in Hap. change (pack_byte v :: ?l) with ([pack_byte v] ++ l).
    eapply appended_trans; [exact Hap|]. destruct Hap as [? ? ? Hp _ _ _ _].
    change (zlen [pack_byte v]) with 1 in Hp.
    destruct fuel as [|fuel]; [exfalso; simpl in Hv; rewrite Z.div_small in Ez by lia; lia|].
    apply IH; try done; try lia.
    replace (Z.of_nat (S (S fuel))) with (1 + Z.of_nat (S fuel)) in Hv by lia.
    rewrite Z.pow_add_r in Hv by lia. split; [apply Z.div_pos; lia|].
    apply Z.div_lt_upper_bound; lia.
Qed.
End buffer_spec.

(** ** Properties *)
Section buffer_properties.
Context {AR : Arch} {AL : Allocator}.
Implicit Types (h : heap) (b : overlay_buffer).

(** Freeing the buffer after a session. *)
Lemma free_after h b h' b' :
  ob_wf h b -> ob_wf h' b' -> framed h b h' b' ->
  hsafe (ob_free b') h' (fun _ h'' =>
    (forall i blk, h !! i = Some blk -> ~ points b i -> h'' !! i = Some blk) /\
    (forall i, is_Some (h'' !! i) -> is_Some (h !! i) /\ (points b i -> is_static b = true))).
Proof.
  intros Hw Hw' [Hb Hwin Hl Ho]. unfold hsafe. rewrite (ob_free_run _ _ Hw').
  assert (forall a i, allocated b' = Some a -> points b' i <-> i = a.1) as Hp.
  { intros a i Ha. destruct Hw' as [_ _ _ _ Hown]. destruct (Hown _ Ha) as [Hb' _].
    unfold points. rewrite Hb'. split; [by intros [o [= ->]]|]. intros ->. exists a.2. by destruct a. }
  split.
  - intros i blk Hi Hn. destruct (Hb _ _ Hi Hn) as [Hi' Hn']. destruct (allocated b') as [a|] eqn:Ea; [|done].
    rewrite lookup_delete_ne; [done|]. intros <-. by apply Hn', (Hp a).
  - intros i Hi. destruct (allocated b') as [a|] eqn:Ea.
    + apply lookup_delete_is_Some in Hi as [Hne Hi]. destruct (Hl _ Hi) as [Hp'|[? ?]]; [|tauto].
      apply (Hp a) in Hp'; congruence.
    + destruct (Hl _ Hi) as [[o Hp']|[? ?]]; [|tauto].
      assert (is_static b = true) as Hs.
      { destruct (is_static b); [done|]. specialize (Ho eq_refl). unfold is_static in Ho.
        by rewrite Hp', Ea in Ho. }
      split; [|done]. unfold is_static in Hs. destruct Hw as [_ _ _ Hm _].
      destruct (ob_bytes b) as [p|] eqn:Ep; [|done]. destruct (allocated b) eqn:Eal; [done|].
      destruct Hm as (_ & _ & blk & Hblk & _).
      destruct (Hwin p blk eq_refl eq_refl Hblk) as (Hp2 & _). rewrite Hp' in Hp2.
      injection Hp2 as <-. by exists blk.
Qed.

(** C1: Run in any order from a well-formed buffer, by a caller that sees to
    each operation's own conditions ([cmd_pre]), the operations of
    overlay_buffer.c never access memory they should not: they stop on an
    assertion or return a well-formed buffer in a well-formed heap, and
    [framed] holds of it.  That is, every block the buffer does not point into
    is as it was; of a block the buffer was laid over, only the bytes of its own
    window may have changed; and no memory is leaked.  Freeing the buffer then
    is safe, restores nobody else's memory and leaves no block that was not
    there before, nor the buffer's own.  [ob_new] makes a well-formed empty
    buffer, and [ob_slice] a well-formed one whose window lies in its
    parent's. *)
Theorem ob_session_safe cs h b off n :
  heap_ok h -> ob_wf h b -> session_ok cs h b ->
  0 <= off -> 0 <= n -> off + n <= SIZE_MAX ->
  hsafe (ob_run cs b) h (fun b' h' => heap_ok h' /\ ob_wf h' b' /\ framed h b h' b' /\
    hsafe (ob_free b') h' (fun _ h'' =>
      (forall i blk, h !! i = Some blk -> ~ points b i -> h'' !! i = Some blk) /\
      (forall i, is_Some (h'' !! i) -> is_Some (h !! i) /\ (points b i -> is_static b = true)))) /\
  hsafe ob_new h (fun o h' => h' = h /\
    forall b', o = Some b' -> ob_wf h b' /\ ob_bytes b' = None /\ is_static b' = false) /\
  hsafe (ob_slice b off n) h (fun o h' => h' = h /\
    forall b', o = Some b' -> ob_wf h b' /\ off + n <= allocSize b /\ allocSize b' = n /\
      allocated b' = None /\ ob_bytes b' = option_map (fun p => ptr_add p off) (ob_bytes b)).
Proof.
  intros Hh Hw Hv Hoff Hn Hsz. pose proof SSIZE_SIZE.
  split; [|split].
  - eapply hsafe_mono; [by apply ob_run_safe|]. intros b' h' (Hh' & Hw' & Hf).
    split_and!; [done..|]. by apply free_after.
  - unfold ob_new, hsafe, mbind, HM_bind, hstruct. split; [done|].
    intros b'. case_match; intros; simplify_eq. split; [split; simpl; done || lia|done].
  - unfold ob_slice. rewrite sz_small by lia. zcase; [by apply hsafe_ret|].
    unfold hsafe, mbind, HM_bind, hstruct. destruct (malloc_bytes h sizeof_overlay_buffer); [|done]. simpl.
    pose proof Hw as [_ _ _ Hm _]. destruct (ob_bytes b) as [p|]; simpl.
    + split; [done|]. intros b' [= <-]. destruct Hm as (? & ? & blk & ? & ?).
      split_and!; try done; try lia. split; simpl; try done; try lia.
      split; [lia|]. split; [lia|]. exists blk. split; [done|lia].
    + assert (off = 0 /\ n = 0) as [-> ->] by lia. simpl. split; [done|]. intros b' [= <-].
      split_and!; try done; try lia; split; simpl; done || lia.
Qed.

(** C2: The appenders refine an abstract byte sequence.  From a buffer in
    bounds, an append of an encoding [e] always returns, with the position
    advanced by the size of [e] and the checkpoint and limit as they were.
    When there is room (within the size limit, and allocated or obtainable from
    malloc), the contents are the old ones extended with [e] and no memory but
    the buffer's has changed; when there is not, the buffer is overrun and
    nothing else has happened: the whole heap and every other field of the
    buffer are what they were. *)
Theorem ob_append_refines o h b :
  heap_ok h -> ob_wf h b -> in_bounds b -> append_valid o ->
  position b + zlen (append_enc o) <= SSIZE_MAX ->
  exists b' h', append_run o b h = Ret (b', h') /\ ob_wf h' b' /\ framed h b h' b' /\
    position b' = position b + zlen (append_enc o) /\
    checkpointLength b' = checkpointLength b /\ sizeLimit b' = sizeLimit b /\
    if has_room h b (zlen (append_enc o))
    then ob_abs h' b' = Some (ob_contents h b ++ append_enc o)
    else ob_abs h' b' = None /\ h' = h /\ b' = set_position (position b') b.
Proof.
  intros Hh Hw Hb Hv Hmax. rewrite append_run_put by done. unfold ob_abs.
  destruct (has_room h b (zlen (append_enc o))) eqn:Hr.
  - destruct (ob_put_room h b (append_enc o)) as (b' & h' & Hrun & [? ? ? ? ? ? Hc Hf]);
      auto using append_enc_range, append_enc_nonempty.
    exists b', h'. rewrite (in_bounds_not_overrun h' b') by done. rewrite Hc.
    by repeat (split; [done|]).
  - destruct (ob_put_overrun h b (append_enc o)) as (Hrun & ? & Ho); auto.
    eexists _, h. rewrite Ho. split_and!; try done. by apply framed_same.
Qed.

(** The reader that matches a fixed-width appender, and the value it gives. *)
Definition reader (o : append_op) : option ((overlay_buffer -> HM (Z * overlay_buffer)) * Z) :=
  match o with
  | AUi16 v => Some (ob_get_ui16, v mod 2 ^ 16)
  | AUi16_rv v => Some (ob_get_ui16_rv, v mod 2 ^ 16)
  | AUi32 v => Some (ob_get_ui32, v mod 2 ^ 32)
  | AUi32_rv v => Some (ob_get_ui32_rv, v mod 2 ^ 32)
  | AUi64_rv v => Some (ob_get_ui64_rv, v mod 2 ^ 64)
  | _ => None
  end.

(** 16- and 32-bit integers in both byte orders, and 64-bit integers in
    reverse byte order, are read back as they were appended, and the reader
    stops where the appender did. *)
Theorem ob_int_roundtrip o get v h b b' h' :
  heap_ok h -> ob_wf h b -> in_bounds b -> position b + 8 <= SSIZE_MAX ->
  reader o = Some (get, v) -> append_run o b h = Ret (b', h') -> ob_overrun b' = false ->
  exists b'', get (set_position (position b) b') h' = Ret ((v, b''), h') /\
              position b'' = position b'.
Proof.
  intros Hh Hw Hb Hmax Hrd Hr Ho.
  assert (append_valid o /\ zlen (append_enc o) <= 8) as [Hv Hlen].
  { destruct o; try done; cbn [append_enc]; rewrite ?zlen_be_bytes, ?zlen_le_bytes; lia. }
  pose proof (append_no_overrun h b o b' h' Hh Hw Hb Hv ltac:(lia) Hr Ho) as Hap.
  pose proof (appended_ahead _ _ _ _ _ Hh Hw Hb (append_enc_nonempty _ Hv) Hap) as Ha.
  destruct Hap as [_ _ _ Hp _ _ _ _].
  destruct o; try done; cbn [reader append_enc] in *; simplify_eq;
    rewrite ?zlen_be_bytes, ?zlen_le_bytes in Hp; eexists;
    (split; [unfold ob_get_ui16, ob_get_ui16_rv, ob_get_ui32, ob_get_ui32_rv, ob_get_ui64_rv;
             rewrite (ob_get_fixed_ahead _ _ _ _ _ _ Ha) by (by rewrite ?zlen_be_bytes, ?zlen_le_bytes);
             do 3 f_equal; apply fixed_decode
            | simpl; lia]).
Qed.

(** A 64-bit integer below [2^40] appended with [ob_append_ui64] is read
    back by [ob_get_ui64] if and only if it is below [2^31]: the fourth byte is
    shifted by 36 instead of 32 and the low four bytes are sign-extended. *)
Theorem ob_ui64_roundtrip_iff v h b b' h' :
  heap_ok h -> ob_wf h b -> in_bounds b -> position b + 8 <= SSIZE_MAX -> 0 <= v < 2 ^ 40 ->
  ob_append_ui64 b v h = Ret (b', h') -> ob_overrun b' = false ->
  exists v' b'', ob_get_ui64 (set_position (position b) b') h' = Ret ((v', b''), h') /\
    (v' = v <-> v < 2 ^ 31).
Proof.
  intros Hh Hw Hb Hmax Hv Hr Ho.
  assert (zlen (append_enc (AUi64 v)) = 8) as Hlen by (cbn [append_enc]; by rewrite zlen_be_bytes).
  pose proof (append_no_overrun h b (AUi64 v) b' h' Hh Hw Hb I ltac:(lia) Hr Ho) as Hap.
  pose proof (appended_ahead _ _ _ _ _ Hh Hw Hb (append_enc_nonempty (AUi64 v) I) Hap) as Ha.
  eexists _, _. split; [unfold ob_get_ui64; by rewrite (ob_get_fixed_ahead _ _ _ _ _ _ Ha)|].
  by apply be64_roundtrip_iff.
Qed.

(** Every 32-bit value survives [ob_append_packed_ui32] followed by
    [ob_get_packed_ui32], whatever follows it in the buffer. *)
Theorem ob_packed_ui32_roundtrip v h b b' h' :
  heap_ok h -> ob_wf h b -> in_bounds b -> position b + 5 <= SSIZE_MAX -> 0 <= v < 2 ^ 32 ->
  ob_append_packed_ui32 b v h = Ret (b', h') -> ob_overrun b' = false ->
  exists b'', ob_get_packed_ui32 (set_position (position b) b') h' = Ret ((v, b''), h') /\
              position b'' = position b'.
Proof.
  intros Hh Hw Hb Hmax Hv Hr Ho.
  pose proof (append_packed_no_overrun 5 h b v b' h' Hh Hw Hb ltac:(lia) ltac:(lia) ltac:(lia) Hr Ho) as Hap.
  assert (pack_uint_loop 5 v <> []) as Hne by done.
  pose proof (appended_ahead _ _ _ _ _ Hh Hw Hb Hne Hap) as Ha. destruct Hap as [_ _ _ Hp _ _ _ _].
  assert (Forall is_byte (pack_uint_loop 5 v) /\ (length (pack_uint_loop 5 v) <= 5)%nat) as [Hby Hln].
  { generalize 5%nat as f. intros f. clear -Hv. destruct Hv as [Hv _]. revert v Hv.
    induction f as [|f IH]; intros v Hv; [split; [constructor | done]|].
    destruct (IH (Z.shiftr v 7)) as [? ?]; [by apply Z.shiftr_nonneg|].
    cbn [pack_uint_loop]. split.
    - constructor; [by apply pack_byte_range|]. by case_match.
    - simpl. case_match; simpl; lia. }
  pose proof (ob_get_packed_ahead 6 32 h' _ _ 0 0 Ha Hby ltac:(lia)) as Hg.
  pose proof (unpack_bytes_pack 32 (2 ^ 32) 5 0 0 v []) as Hu.
  rewrite Z.mul_0_r, Z.pow_0_r, app_nil_r in Hu.
  rewrite Hu in Hg; [|by left|lia|lia|lia|lia|lia|by left].
  eexists. split; [unfold ob_get_packed_ui32; rewrite Hg; do 3 f_equal; lia|].
  cbn [position set_position]. change (zlen (@nil Z)) with 0. lia.
Qed.

(** [unpack_uint] after [pack_uint] on the full 64-bit range: below
    [2^35] it consumes exactly [measure_packed_uint v] bytes and gives [v]
    reduced to a sign-extended 32-bit value (so [v] itself below [2^31]); from
    [2^35] on it shifts an [int] by more than its width. *)
Theorem pack_unpack_uint v rest :
  0 <= v < 2 ^ 64 ->
  unpack_uint (pack_uint v ++ rest) =
    (if v <? 2 ^ 35 then Ret (Some (measure_packed_uint v, u64 (s32 v))) else Undef) /\
  (v < 2 ^ 31 -> u64 (s32 v) = v).
Proof.
  intros Hv. split.
  - unfold unpack_uint, pack_uint, measure_packed_uint.
    rewrite unpack_uint_bytes by lia. rewrite (unpack_bytes_64 v 10) by lia.
    rewrite measure_packed_loop_length, zlen_app. zcase; [|done]. do 3 f_equal. lia.
  - intros. apply (uN_s32_small 64 (2 ^ 31)); [by right|lia].
Qed.

(** After an overrun the next append stops the process: a buffer whose
    position has passed its limit or its allocation fails the assertions of
    [ob_makespace], for every appender. *)
Theorem ob_append_after_overrun o h b :
  heap_ok h -> ob_wf h b -> append_valid o -> ob_overrun b = true ->
  append_run o b h = Abort.
Proof.
  intros Hh Hw Hv Ho. rewrite append_run_put by done. unfold ob_put, mbind, HM_bind.
  rewrite ob_makespace_out_of_bounds; [done|]. by eapply overrun_out_of_bounds.
Qed.

(** [ob_dup] cannot duplicate a buffer that has been written to: it
    copies the position before the bytes, so whenever bytes are to be copied
    and the position is not zero, [ob_makespace] stops on an assertion. *)
Theorem ob_dup_aborts h b :
  heap_ok h -> ob_wf h b -> in_bounds b -> 0 < position b ->
  malloc_bytes h sizeof_overlay_buffer <> None ->
  ob_dup b h = Abort.
Proof.
  intros Hh Hw Hb Hp Hm. pose proof Hb as [Hb1 Hb2]. pose proof Hw as [_ _ _ Hmem _].
  destruct (in_bounds_bytes h b Hw Hb ltac:(lia)) as [p Ep]. rewrite Ep in Hmem.
  destruct Hmem as (? & ? & blk & Hblk & ?).
  unfold ob_dup, mbind at 1, HM_bind at 1, hstruct. destruct (malloc_bytes h _); [|done].
  rewrite Ep. cbn [is_null negb andb]. rewrite (proj2 (Z.eqb_neq _ _)) by lia. cbn [negb].
  unfold mbind at 1, HM_bind at 1. rewrite hassert_true by (destruct (sizeLimit b =? SIZE_MAX); [done|by apply Z.leb_le]).
  set (n := if allocSize b <? _ then _ else _).
  assert (0 < n <= allocSize b) by (subst n; repeat case_match; bsplit; lia).
  rewrite (proj2 (Z.eqb_neq _ _)) by lia. unfold mbind, HM_bind. simpl. unfold hread.
  rewrite (load_bytes_ok h p n blk) by (done || lia). simpl.
  assert (zlen (slice p.2 n blk) = n) as Hn by (apply zlen_slice; lia).
  unfold ob_append_bytes, mbind, HM_bind. rewrite hassert_true by (apply Z.ltb_lt; lia).
  unfold ob_put, mbind, HM_bind. rewrite ob_makespace_out_of_bounds; [done|].
  unfold in_bounds. simpl. lia.
Qed.

Lemma ob_ahead_byte h b l1 x l2 :
  ob_ahead h b (l1 ++ x :: l2) -> ob_byte b (zlen l1) h = Ret (x, h).
Proof.
  intros Ha. pose proof (ob_ahead_skip _ _ _ _ Ha) as Ha2.
  pose proof (ob_ahead_fetch _ _ [x] l2 Ha2) as Hf. simpl in Hf.
  assert (ob_byte (set_position (position b + zlen l1) b) 0 h = ob_byte b (zlen l1) h) as E.
  { unfold ob_byte. simpl. by rewrite Z.add_0_r. }
  rewrite <- E. unfold mbind, HM_bind, mret, HM_ret in Hf.
  destruct (ob_byte _ 0 h) as [[y h1]| |]; simplify_eq/=. done.
Qed.

(** The scan passes over the non-NUL bytes [l2] that follow [l1]. *)
Lemma ob_get_str_scan fuel h b l1 l2 rest :
  ob_ahead h b (l1 ++ l2 ++ rest) -> Forall (fun x => x <> 0) l2 ->
  ob_get_str_loop (length l2 + fuel) b (zlen l1) h =
  ob_get_str_loop fuel b (zlen (l1 ++ l2)) h.
Proof.
  revert l1. induction l2 as [|x l2 IH]; intros l1 Ha Hnz; [by rewrite app_nil_r|].
  apply Forall_cons in Hnz as [Hx Hnz]. cbn [length Nat.add ob_get_str_loop].
  pose proof (zlen_nonneg l1). pose proof (zlen_nonneg l2). pose proof (zlen_nonneg rest).
  rewrite (ob_ahead_readable h b (l1 ++ (x :: l2) ++ rest))
    by (try done; rewrite !zlen_app, zlen_cons; lia).
  rewrite (HM_bind_Ret _ _ _ _ _ (ob_ahead_byte h b l1 x (l2 ++ rest) Ha)).
  rewrite (proj2 (Z.eqb_neq x 0)) by done.
  replace (zlen l1 + 1) with (zlen (l1 ++ [x])) by (rewrite zlen_app; done).
  rewrite IH; [|by rewrite <- app_assoc|done]. by rewrite <- app_assoc.
Qed.

(** [ob_get_str_ptr] returns the string at the position and moves past
    its NUL when there is one; but the bound it checks before each read is one
    byte short, so when the bytes up to the end of the object hold no NUL it
    reads the byte after the object. *)
Theorem ob_get_str_ptr_spec s rest h b p blk :
  ob_bytes b = Some p -> h !! p.1 = Some blk -> Forall (fun x => x <> 0) s ->
  (ob_ahead h b (s ++ 0 :: rest) ->
     ob_get_str_ptr b h =
     Ret ((Some (ptr_add p (position b)), set_position (position b + zlen s + 1) b), h)) /\
  (ob_ahead h b s -> position b + zlen s = allocSize b -> p.2 + allocSize b = zlen blk ->
     ob_get_str_ptr b h = Undef).
Proof.
  intros Hp Hblk Hs. unfold ob_get_str_ptr. pose proof (zlen_nonneg s). pose proof (zlen_nonneg rest).
  split.
  - intros Ha. pose proof Ha as (p' & blk' & _ & _ & _ & Hpos & Hl & Hal & _ & Hmax & _).
    rewrite zlen_app, zlen_cons in *. pose proof SSIZE_SIZE.
    assert (exists f, S (S (Z.to_nat (allocSize b - position b))) = (length s + S f)%nat) as [f ->].
    { exists (S (Z.to_nat (allocSize b - position b)) - length s)%nat. unfold zlen in *. lia. }
    pose proof (ob_get_str_scan (S f) h b [] s (0 :: rest) Ha Hs) as Hscan.
    change (zlen (@nil Z)) with 0 in Hscan. cbn [app] in Hscan. rewrite Hscan.
    cbn [ob_get_str_loop]. rewrite (ob_ahead_readable h b (s ++ 0 :: rest))
      by (try done; rewrite zlen_app, zlen_cons; lia).
    rewrite (HM_bind_Ret _ _ _ _ _ (ob_ahead_byte h b s 0 rest Ha)). rewrite Hp. simpl.
    rewrite sz_small by lia. by rewrite Z.add_assoc.
  - intros Ha Hend Hobj. pose proof Ha as (p' & blk' & _ & _ & _ & Hpos & Hl & Hal & _ & Hmax & _).
    assert (exists f, S (S (Z.to_nat (allocSize b - position b))) = (length s + S f)%nat) as [f ->].
    { exists 1%nat. unfold zlen in *. lia. }
    rewrite <- (app_nil_r s) in Ha. pose proof (ob_get_str_scan (S f) h b [] s [] Ha Hs) as Hscan.
    change (zlen (@nil Z)) with 0 in Hscan. cbn [app] in Hscan. rewrite Hscan.
    cbn [ob_get_str_loop]. rewrite app_nil_r in Ha. rewrite (ob_ahead_readable h b s) by (done || lia).
    unfold ob_byte. rewrite Hp. unfold mbind, HM_bind. simpl. unfold hread, load. simpl. rewrite Hblk.
    assert (zlookup (p.2 + (position b + zlen s)) blk = None) as ->; [|done].
    destruct (zlookup _ blk) eqn:E; [|done]. apply zlookup_Some_lt in E. lia.
Qed.
End buffer_properties.

(** ** Witnesses *)

(** A 16-byte object holding zeros, wrapped by a static buffer, and a buffer
    with room for two bytes only, on a 64-bit host with a zeroing allocator. *)
Definition demo_alloc : @Allocator LP64 := zero_allocator LP64 4096.
Definition demo_heap : heap := {[ 0%nat := repeat 0 16 ]}.
Definition demo_buffer : overlay_buffer := OB (Some (0%nat, 0)) 0 0 16 16 None.
Definition demo_written : overlay_buffer := OB (Some (0%nat, 0)) 0 4 16 16 None.
Definition demo_full : overlay_buffer := OB (Some (0%nat, 0)) 0 17 16 16 None.

Lemma demo_heap_ok : @heap_ok LP64 demo_heap.
Proof.
  intros i blk Hi. unfold demo_heap in Hi. apply lookup_singleton_Some in Hi as [<- <-].
  split; [by vm_compute|]. apply Forall_forall. intros x Hx%list_elem_of_In%repeat_spec.
  unfold is_byte. lia.
Qed.

Lemma demo_wf n : 0 <= n <= 17 -> @ob_wf LP64 demo_heap (OB (Some (0%nat, 0)) 0 n 16 16 None).
Proof.
  intros. assert (@SIZE_MAX LP64 = 2 ^ 64 - 1) as E by done.
  split; simpl; rewrite ?E; try done; try lia.
  split; [lia|]. split; [lia|]. exists (repeat 0 16). split; [done|]. by vm_compute.
Qed.

(** A session that writes, reads back a packed integer and a string, and makes
    a copy. *)
Definition demo_session : list ob_cmd :=
  [CAppend (AUi16 0x1234); CAppendPacked32 300; CAppend (AStr [72; 105]); CFlip; CGetUi16;
   CGetPacked32; CCheckpoint; CGetStrPtr; CClear; CDup].

Lemma demo_session_ok : @session_ok LP64 demo_alloc demo_session demo_heap demo_buffer.
Proof.
  repeat split; try (vm_compute; congruence).
  - repeat constructor; unfold is_byte; lia.
  - left. apply list_elem_of_In. vm_compute. tauto.
Qed.

Lemma ob_session_safe_witness :
  (exists r, @ob_run LP64 demo_alloc demo_session demo_buffer demo_heap = Ret r) /\
  hsafe (@ob_run LP64 demo_alloc demo_session demo_buffer) demo_heap
    (fun b' h' => @heap_ok LP64 h' /\ @ob_wf LP64 h' b' /\ framed demo_heap demo_buffer h' b').
Proof.
  split; [eexists; vm_compute; reflexivity|].
  eapply hsafe_mono.
  - eapply (proj1 (@ob_session_safe LP64 demo_alloc demo_session demo_heap demo_buffer 0 4
      demo_heap_ok (demo_wf 0 ltac:(lia)) demo_session_ok ltac:(lia) ltac:(lia)
      ltac:(vm_compute; discriminate))).
  - intros b' h' (? & ? & ? & _). split; [assumption|]. split; assumption.
Defined.

Lemma ob_append_refines_witness :
  exists b' h', @append_run LP64 demo_alloc (AUi16 0x1234) demo_buffer demo_heap = Ret (b', h') /\
    @ob_abs LP64 h' b' = Some [0x12; 0x34].
Proof.
  destruct (@ob_append_refines LP64 demo_alloc (AUi16 0x1234) demo_heap demo_buffer)
    as (b' & h' & Hr & _ & _ & _ & _ & _ & Ha).
  - exact demo_heap_ok.
  - apply (demo_wf 0). lia.
  - split; simpl; lia.
  - exact I.
  - vm_compute. discriminate.
  - exists b', h'. split; [exact Hr|exact Ha].
Defined.

Lemma ob_int_roundtrip_witness :
  exists b' h' b'', @append_run LP64 demo_alloc (AUi32 0xdeadbeef) demo_buffer demo_heap = Ret (b', h') /\
    @ob_get_ui32 LP64 (set_position 0 b') h' = Ret ((0xdeadbeef, b''), h').
Proof.
  eexists _, _. destruct (@ob_int_roundtrip LP64 demo_alloc (AUi32 0xdeadbeef) (@ob_get_ui32 LP64) 0xdeadbeef
                 demo_heap demo_buffer (OB (Some (0%nat, 0)) 0 4 16 16 None)
                 {[ 0%nat := [0xde; 0xad; 0xbe; 0xef] ++ repeat 0 12 ]}) as (b'' & Hg & _).
  - exact demo_heap_ok.
  - apply (demo_wf 0). lia.
  - split; simpl; lia.
  - vm_compute. discriminate.
  - reflexivity.
  - vm_compute. reflexivity.
  - vm_compute. reflexivity.
  - exists b''. split; [vm_compute; reflexivity | exact Hg].
Defined.

Lemma ob_ui64_roundtrip_iff_witness :
  exists v' b'', @ob_get_ui64 LP64 demo_buffer {[ 0%nat := be_bytes 8 (2 ^ 32) ++ repeat 0 8 ]} =
    Ret ((v', b''), {[ 0%nat := be_bytes 8 (2 ^ 32) ++ repeat 0 8 ]}) /\ v' <> 2 ^ 32.
Proof.
  destruct (@ob_ui64_roundtrip_iff LP64 demo_alloc (2 ^ 32) demo_heap demo_buffer
              (OB (Some (0%nat, 0)) 0 8 16 16 None) {[ 0%nat := be_bytes 8 (2 ^ 32) ++ repeat 0 8 ]})
    as (v' & b'' & Hg & Hiff).
  - exact demo_heap_ok.
  - apply (demo_wf 0). lia.
  - split; simpl; lia.
  - vm_compute. discriminate.
  - lia.
  - vm_compute. reflexivity.
  - vm_compute. reflexivity.
  - exists v', b''. split; [exact Hg|]. rewrite Hiff. lia.
Defined.

Lemma ob_packed_ui32_roundtrip_witness :
  exists b'', @ob_get_packed_ui32 LP64 demo_buffer {[ 0%nat := pack_uint 0xffffffff ++ repeat 0 11 ]} =
    Ret ((0xffffffff, b''), {[ 0%nat := pack_uint 0xffffffff ++ repeat 0 11 ]}).
Proof.
  destruct (@ob_packed_ui32_roundtrip LP64 demo_alloc 0xffffffff demo_heap demo_buffer
              (OB (Some (0%nat, 0)) 0 5 16 16 None) {[ 0%nat := pack_uint 0xffffffff ++ repeat 0 11 ]})
    as (b'' & Hg & _).
  - exact demo_heap_ok.
  - apply (demo_wf 0). lia.
  - split; simpl; lia.
  - vm_compute. discriminate.
  - lia.
  - vm_compute. reflexivity.
  - vm_compute. reflexivity.
  - exists b''. exact Hg.
Defined.

Lemma pack_unpack_uint_witness :
  unpack_uint (pack_uint 300 ++ [7]) = Ret (Some (2, 300)) /\ unpack_uint (pack_uint (2 ^ 40)) = Undef.
Proof.
  split.
  - destruct (pack_unpack_uint 300 [7]) as [E _]; [lia|]. rewrite E. vm_compute. reflexivity.
  - destruct (pack_unpack_uint (2 ^ 40) []) as [E _]; [lia|]. rewrite app_nil_r in E. exact E.
Defined.

Lemma ob_append_after_overrun_witness :
  @append_run LP64 demo_alloc (AByte 1) demo_full demo_heap = Abort.
Proof.
  apply (@ob_append_after_overrun LP64 demo_alloc (AByte 1) demo_heap demo_full).
  - exact demo_heap_ok.
  - apply (demo_wf 17). lia.
  - exact I.
  - vm_compute. reflexivity.
Defined.

Lemma ob_dup_aborts_witness : @ob_dup LP64 demo_alloc demo_written demo_heap = Abort.
Proof.
  apply (@ob_dup_aborts LP64 demo_alloc demo_heap demo_written).
  - exact demo_heap_ok.
  - apply (demo_wf 4). lia.
  - split; simpl; lia.
  - simpl. lia.
  - vm_compute. discriminate.
Defined.

(** "Hi" with its NUL, and "Hi" filling its object. *)
Definition demo_str_heap : heap := {[ 0%nat := [72; 105; 0]; 1%nat := [72; 105] ]}.

Lemma ob_get_str_ptr_spec_witness :
  @ob_get_str_ptr LP64 (OB (Some (0%nat, 0)) 0 0 3 3 None) demo_str_heap =
    Ret ((Some (0%nat, 0), OB (Some (0%nat, 0)) 0 3 3 3 None), demo_str_heap) /\
  @ob_get_str_ptr LP64 (OB (Some (1%nat, 0)) 0 0 2 2 None) demo_str_heap = Undef.
Proof.
  split.
  - apply (@ob_get_str_ptr_spec LP64 [72; 105] [] demo_str_heap (OB (Some (0%nat, 0)) 0 0 3 3 None)
             (0%nat, 0) [72; 105; 0]); [reflexivity | reflexivity | repeat constructor; lia |].
    exists (0%nat, 0), [72; 105; 0]. repeat split; vm_compute; congruence.
  - apply (@ob_get_str_ptr_spec LP64 [72; 105] [] demo_str_heap (OB (Some (1%nat, 0)) 0 0 2 2 None)
             (1%nat, 0) [72; 105]); [reflexivity | reflexivity | repeat constructor; lia | | |].
    + exists (1%nat, 0), [72; 105]. repeat split; vm_compute; congruence.
    + reflexivity.
    + reflexivity.
Defined.
