(* ===== verification/Cstring.v ===== *)
(** * C strings and the library functions on them

    A [char *] is modelled by the bytes it may read: the list of bytes from the
    place the pointer points to, up to the end of the object it points into.
    Advancing the pointer drops bytes from the front, reading at the end of the
    object is [Undef].  A NUL-terminated string is such a list with a zero in
    it; [cstr] builds one from a Rocq string.  Characters are their unsigned
    values (0..255), and the [<ctype.h>] classes are those of the C locale, where
    no byte of 128 or more belongs to any class.

    The [<string.h>], [<ctype.h>] and [<stdlib.h>] functions defined here are the
    ones the modelled sources call. *)

From Stdlib Require Import ZArith Lia Ascii String.
From stdpp Require Import base tactics list numbers.
From S2P Require Import Prelude.

Local Open Scope Z_scope.

(** ** Literals *)

Definition chr (a : ascii) : Z := Z.of_N (N_of_ascii a).

Fixpoint zs (s : string) : list Z :=
  match s with EmptyString => [] | String a s => chr a :: zs s end.

(** The NUL-terminated string of a literal. *)
Definition cstr (s : string) : list Z := zs s ++ [0].

(** ** Reading through a pointer *)

(** [*p] *)
Definition rd (p : list Z) : outcome Z := or_undef (head p).

(** [p[i]] *)
Definition rdn (p : list Z) (i : Z) : outcome Z := or_undef (p @@ i).

(** ** <ctype.h> in the C locale *)

Definition between (a b c : Z) : bool := (a <=? c) && (c <=? b).

Definition isdigit (c : Z) : bool := between 48 57 c.
Definition isupper (c : Z) : bool := between 65 90 c.
Definition islower (c : Z) : bool := between 97 122 c.
Definition isalpha (c : Z) : bool := isupper c || islower c.
Definition isalnum (c : Z) : bool := isalpha c || isdigit c.
Definition isxdigit (c : Z) : bool := isdigit c || between 65 70 c || between 97 102 c.
Definition isspace (c : Z) : bool := (c =? 32) || between 9 13 c.
Definition iscntrl (c : Z) : bool := between 0 31 c || (c =? 127).
Definition isprint (c : Z) : bool := between 32 126 c.
Definition isascii (c : Z) : bool := between 0 127 c.
Definition toupper (c : Z) : Z := if islower c then c - 32 else c.
Definition tolower (c : Z) : Z := if isupper c then c + 32 else c.

(** ** <string.h> *)

Fixpoint strlen (s : list Z) : outcome Z :=
  match s with
  | [] => Undef
  | c :: s => if c =? 0 then Ret 0 else n ← strlen s; Ret (1 + n)
  end.

(** [strncmp] and [strncasecmp] compare at most [n] characters after mapping
    them with [f]; only the sign of the result is meaningful. *)
Fixpoint strncmp_by (f : Z -> Z) (s t : list Z) (n : nat) : outcome Z :=
  match n with
  | O => Ret 0
  | S n =>
    c ← rd s; d ← rd t;
    if f c =? f d then
      (if c =? 0 then Ret 0
       else match s, t with
            | _ :: s, _ :: t => strncmp_by f s t n
            | _, _ => Undef
            end)
    else Ret (if f c <? f d then -1 else 1)
  end.

Definition strncmp (s t : list Z) (n : Z) : outcome Z := strncmp_by id s t (Z.to_nat n).
Definition strncasecmp (s t : list Z) (n : Z) : outcome Z := strncmp_by tolower s t (Z.to_nat n).

(** ** <stdlib.h>: strtol and its relatives *)

(** The value of a digit or letter as a radix digit, 99 for anything else. *)
Definition radix_digit (c : Z) : Z :=
  if isdigit c then c - 48
  else if isupper c then c - 55
  else if islower c then c - 87
  else 99.

Fixpoint skip_space (s : list Z) : outcome (list Z) :=
  match s with
  | [] => Undef
  | c :: s' => if isspace c then skip_space s' else Ret s
  end.

(** The longest run of digits below [base]: its value, its length, the rest. *)
Fixpoint radix_run (base acc n : Z) (s : list Z) : outcome (Z * Z * list Z) :=
  match s with
  | [] => Undef
  | c :: s' =>
    if radix_digit c <? base then radix_run base (acc * base + radix_digit c) (n + 1) s'
    else Ret (acc, n, s)
  end.

(** The optional sign. *)
Definition strto_sign (s : list Z) : bool * list Z :=
  match s with
  | c :: s' => if c =? chr "-" then (true, s') else if c =? chr "+" then (false, s') else (false, s)
  | [] => (false, s)
  end.

(** The optional [0x] prefix of base 16 (taken only when a hex digit follows it)
    and the base that base 0 stands for. *)
Definition strto_prefix (base : Z) (s : list Z) : Z * list Z :=
  match s with
  | c0 :: c1 :: ((c2 :: _) as s2) =>
    if ((base =? 0) || (base =? 16)) && (c0 =? 48) && (tolower c1 =? 120) && isxdigit c2
    then (16, s2)
    else if base =? 0 then (if c0 =? 48 then 8 else 10, s) else (base, s)
  | c0 :: _ => if base =? 0 then (if c0 =? 48 then 8 else 10, s) else (base, s)
  | [] => (base, s)
  end.

(** The mathematical integer at the start of [s] and the rest of the string;
    [None] when no conversion can be performed. *)
Definition strto_scan (s : list Z) (base : Z) : outcome (option (Z * list Z)) :=
  s1 ← skip_space s;
  let '(neg, s2) := strto_sign s1 in
  let '(b, s3) := strto_prefix base s2 in
  '(v, n, rest) ← radix_run b 0 0 s3;
  if n =? 0 then Ret None else Ret (Some (if neg : bool then - v else v, rest)).

(** [strtol]/[strtoll] with a result type of [w] bits: value, end pointer and
    whether [errno] was set to [ERANGE]. *)
Definition strto_signed (w : Z) (s : list Z) (base : Z) : outcome (Z * list Z * bool) :=
  r ← strto_scan s base;
  match r with
  | None => Ret (0, s, false)
  | Some (v, rest) =>
    if 2 ^ (w - 1) - 1 <? v then Ret (2 ^ (w - 1) - 1, rest, true)
    else if v <? - 2 ^ (w - 1) then Ret (- 2 ^ (w - 1), rest, true)
    else Ret (v, rest, false)
  end.

(** [strtoul]/[strtoull]: a minus sign negates in the unsigned type. *)
Definition strto_unsigned (w : Z) (s : list Z) (base : Z) : outcome (Z * list Z * bool) :=
  r ← strto_scan s base;
  match r with
  | None => Ret (0, s, false)
  | Some (v, rest) =>
    if 2 ^ w - 1 <? Z.abs v then Ret (2 ^ w - 1, rest, true)
    else Ret (uN w v, rest, false)
  end.

Definition strtol `{Arch} := strto_signed (8 * ptr_bytes).
Definition strtoll := strto_signed 64.
Definition strtoull := strto_unsigned 64.

(** ** Printing: the [%lu]/[%llu] conversions of printf *)

Fixpoint decimal_loop (fuel : nat) (v : Z) (acc : list Z) : list Z :=
  match fuel with
  | O => acc
  | S fuel => if v <? 10 then 48 + v :: acc else decimal_loop fuel (v / 10) (48 + v mod 10 :: acc)
  end.

(** Twenty digits are enough for any 64-bit value. *)
Definition decimal (v : Z) : list Z := decimal_loop 20 v [].

(** ** Lemmas *)

(** Strings without a NUL, and lists of byte values. *)
Definition no_nul (s : list Z) : Prop := Forall (fun c => c <> 0) s.
Definition bytes (s : list Z) : Prop := Forall is_byte s.

(** Deciding a property of every byte by computation. *)
Lemma all_bytes_dec (P : Z -> bool) :
  forallb P (seqZ 0 256) = true -> forall c, is_byte c -> P c = true.
Proof.
  intros Hall c Hc. rewrite forallb_forall in Hall. apply Hall.
  apply list_elem_of_In, elem_of_seqZ. unfold is_byte in Hc. lia.
Qed.

Lemma strlen_nul s rest : no_nul s -> strlen (s ++ 0 :: rest) = Ret (zlen s).
Proof.
  induction 1 as [|c s Hc _ IH]; [done|]. simpl.
  destruct (Z.eqb_spec c 0); [done|]. rewrite IH. simpl. by rewrite zlen_cons.
Qed.

Lemma rd_cons c s : rd (c :: s) = Ret c.
Proof. done. Qed.

Lemma no_nul_app s t : no_nul (s ++ t) <-> no_nul s /\ no_nul t.
Proof. apply Forall_app. Qed.

#[export] Hint Rewrite rd_cons : serval.
