(* ===== verification/Ctype.v ===== *)
(** * Character classes (str.c, str.h)

    The three lookup tables [_serval_ctype_0/1/2], written like the designated
    initialisers of the source, and the inline predicates of str.h that read
    them.  The tables have [UINT8_MAX] = 255 elements, so looking up the byte 255
    reads outside the array: the predicates return an [outcome]. *)

From Stdlib Require Import ZArith Lia Ascii String.
From stdpp Require Import base tactics list numbers.
From S2P Require Import Prelude Cstring.

Local Open Scope Z_scope.
Local Infix ".|" := Z.lor (at level 50, left associativity).

Definition UINT8_MAX : Z := 255.

Definition _SERVAL_CTYPE_0_BASE64_MASK : Z := 0x3f.
Definition _SERVAL_CTYPE_0_BASE64 : Z := Z.shiftl 1 6.
Definition _SERVAL_CTYPE_0_BASE64URL : Z := Z.shiftl 1 7.

Definition _SERVAL_CTYPE_1_HEX_MASK : Z := 0xf.
Definition _SERVAL_CTYPE_1_HTTP_SEPARATOR : Z := Z.shiftl 1 4.
Definition _SERVAL_CTYPE_1_URI_SCHEME : Z := Z.shiftl 1 5.
Definition _SERVAL_CTYPE_1_URI_UNRESERVED : Z := Z.shiftl 1 6.
Definition _SERVAL_CTYPE_1_URI_RESERVED : Z := Z.shiftl 1 7.

Definition _SERVAL_CTYPE_2_MULTIPART_BOUNDARY : Z := Z.shiftl 1 0.

(** An array of [UINT8_MAX] elements from its designated initialisers; the
    elements not named are zero. *)
Definition designated (init : list (Z * Z)) : list Z :=
  foldl (fun t '(i, v) => <[Z.to_nat i := v]> t) (replicate (Z.to_nat UINT8_MAX) 0) init.

Local Abbreviation _B64 := _SERVAL_CTYPE_0_BASE64.
Local Abbreviation _B64U := _SERVAL_CTYPE_0_BASE64URL.

Definition _serval_ctype_0 : list Z := designated [
  (chr "A", _B64 .| _B64U .| 0);
  (chr "B", _B64 .| _B64U .| 1);
  (chr "C", _B64 .| _B64U .| 2);
  (chr "D", _B64 .| _B64U .| 3);
  (chr "E", _B64 .| _B64U .| 4);
  (chr "F", _B64 .| _B64U .| 5);
  (chr "G", _B64 .| _B64U .| 6);
  (chr "H", _B64 .| _B64U .| 7);
  (chr "I", _B64 .| _B64U .| 8);
  (chr "J", _B64 .| _B64U .| 9);
  (chr "K", _B64 .| _B64U .| 10);
  (chr "L", _B64 .| _B64U .| 11);
  (chr "M", _B64 .| _B64U .| 12);
  (chr "N", _B64 .| _B64U .| 13);
  (chr "O", _B64 .| _B64U .| 14);
  (chr "P", _B64 .| _B64U .| 15);
  (chr "Q", _B64 .| _B64U .| 16);
  (chr "R", _B64 .| _B64U .| 17);
  (chr "S", _B64 .| _B64U .| 18);
  (chr "T", _B64 .| _B64U .| 19);
  (chr "U", _B64 .| _B64U .| 20);
  (chr "V", _B64 .| _B64U .| 21);
  (chr "W", _B64 .| _B64U .| 22);
  (chr "X", _B64 .| _B64U .| 23);
  (chr "Y", _B64 .| _B64U .| 24);
  (chr "Z", _B64 .| _B64U .| 25);
  (chr "a", _B64 .| _B64U .| 26);
  (chr "b", _B64 .| _B64U .| 27);
  (chr "c", _B64 .| _B64U .| 28);
  (chr "d", _B64 .| _B64U .| 29);
  (chr "e", _B64 .| _B64U .| 30);
  (chr "f", _B64 .| _B64U .| 31);
  (chr "g", _B64 .| _B64U .| 32);
  (chr "h", _B64 .| _B64U .| 33);
  (chr "i", _B64 .| _B64U .| 34);
  (chr "j", _B64 .| _B64U .| 35);
  (chr "k", _B64 .| _B64U .| 36);
  (chr "l", _B64 .| _B64U .| 37);
  (chr "m", _B64 .| _B64U .| 38);
  (chr "n", _B64 .| _B64U .| 39);
  (chr "o", _B64 .| _B64U .| 40);
  (chr "p", _B64 .| _B64U .| 41);
  (chr "q", _B64 .| _B64U .| 42);
  (chr "r", _B64 .| _B64U .| 43);
  (chr "s", _B64 .| _B64U .| 44);
  (chr "t", _B64 .| _B64U .| 45);
  (chr "u", _B64 .| _B64U .| 46);
  (chr "v", _B64 .| _B64U .| 47);
  (chr "w", _B64 .| _B64U .| 48);
  (chr "x", _B64 .| _B64U .| 49);
  (chr "y", _B64 .| _B64U .| 50);
  (chr "z", _B64 .| _B64U .| 51);
  (chr "0", _B64 .| _B64U .| 52);
  (chr "1", _B64 .| _B64U .| 53);
  (chr "2", _B64 .| _B64U .| 54);
  (chr "3", _B64 .| _B64U .| 55);
  (chr "4", _B64 .| _B64U .| 56);
  (chr "5", _B64 .| _B64U .| 57);
  (chr "6", _B64 .| _B64U .| 58);
  (chr "7", _B64 .| _B64U .| 59);
  (chr "8", _B64 .| _B64U .| 60);
  (chr "9", _B64 .| _B64U .| 61);
  (chr "+", _B64 .| 62);
  (chr "/", _B64 .| 63);
  (chr "-", _B64U .| 62);
  (chr "_", _B64U .| 63)
].

Local Abbreviation _SEP := _SERVAL_CTYPE_1_HTTP_SEPARATOR.
Local Abbreviation _URI_SCHEME := _SERVAL_CTYPE_1_URI_SCHEME.
Local Abbreviation _URI_UNRES := _SERVAL_CTYPE_1_URI_UNRESERVED.
Local Abbreviation _URI_RES := _SERVAL_CTYPE_1_URI_RESERVED.

Definition _serval_ctype_1 : list Z := designated [
  (chr "A", _URI_SCHEME .| _URI_UNRES .| 0xA);
  (chr "B", _URI_SCHEME .| _URI_UNRES .| 0xB);
  (chr "C", _URI_SCHEME .| _URI_UNRES .| 0xC);
  (chr "D", _URI_SCHEME .| _URI_UNRES .| 0xD);
  (chr "E", _URI_SCHEME .| _URI_UNRES .| 0xE);
  (chr "F", _URI_SCHEME .| _URI_UNRES .| 0xF);
  (chr "G", _URI_SCHEME .| _URI_UNRES);
  (chr "H", _URI_SCHEME .| _URI_UNRES);
  (chr "I", _URI_SCHEME .| _URI_UNRES);
  (chr "J", _URI_SCHEME .| _URI_UNRES);
  (chr "K", _URI_SCHEME .| _URI_UNRES);
  (chr "L", _URI_SCHEME .| _URI_UNRES);
  (chr "M", _URI_SCHEME .| _URI_UNRES);
  (chr "N", _URI_SCHEME .| _URI_UNRES);
  (chr "O", _URI_SCHEME .| _URI_UNRES);
  (chr "P", _URI_SCHEME .| _URI_UNRES);
  (chr "Q", _URI_SCHEME .| _URI_UNRES);
  (chr "R", _URI_SCHEME .| _URI_UNRES);
  (chr "S", _URI_SCHEME .| _URI_UNRES);
  (chr "T", _URI_SCHEME .| _URI_UNRES);
  (chr "U", _URI_SCHEME .| _URI_UNRES);
  (chr "V", _URI_SCHEME .| _URI_UNRES);
  (chr "W", _URI_SCHEME .| _URI_UNRES);
  (chr "X", _URI_SCHEME .| _URI_UNRES);
  (chr "Y", _URI_SCHEME .| _URI_UNRES);
  (chr "Z", _URI_SCHEME .| _URI_UNRES);
  (chr "a", _URI_SCHEME .| _URI_UNRES .| 0xa);
  (chr "b", _URI_SCHEME .| _URI_UNRES .| 0xb);
  (chr "c", _URI_SCHEME .| _URI_UNRES .| 0xc);
  (chr "d", _URI_SCHEME .| _URI_UNRES .| 0xd);
  (chr "e", _URI_SCHEME .| _URI_UNRES .| 0xe);
  (chr "f", _URI_SCHEME .| _URI_UNRES .| 0xf);
  (chr "g", _URI_SCHEME .| _URI_UNRES);
  (chr "h", _URI_SCHEME .| _URI_UNRES);
  (chr "i", _URI_SCHEME .| _URI_UNRES);
  (chr "j", _URI_SCHEME .| _URI_UNRES);
  (chr "k", _URI_SCHEME .| _URI_UNRES);
  (chr "l", _URI_SCHEME .| _URI_UNRES);
  (chr "m", _URI_SCHEME .| _URI_UNRES);
  (chr "n", _URI_SCHEME .| _URI_UNRES);
  (chr "o", _URI_SCHEME .| _URI_UNRES);
  (chr "p", _URI_SCHEME .| _URI_UNRES);
  (chr "q", _URI_SCHEME .| _URI_UNRES);
  (chr "r", _URI_SCHEME .| _URI_UNRES);
  (chr "s", _URI_SCHEME .| _URI_UNRES);
  (chr "t", _URI_SCHEME .| _URI_UNRES);
  (chr "u", _URI_SCHEME .| _URI_UNRES);
  (chr "v", _URI_SCHEME .| _URI_UNRES);
  (chr "w", _URI_SCHEME .| _URI_UNRES);
  (chr "x", _URI_SCHEME .| _URI_UNRES);
  (chr "y", _URI_SCHEME .| _URI_UNRES);
  (chr "z", _URI_SCHEME .| _URI_UNRES);
  (chr "0", _URI_SCHEME .| _URI_UNRES .| 0);
  (chr "1", _URI_SCHEME .| _URI_UNRES .| 1);
  (chr "2", _URI_SCHEME .| _URI_UNRES .| 2);
  (chr "3", _URI_SCHEME .| _URI_UNRES .| 3);
  (chr "4", _URI_SCHEME .| _URI_UNRES .| 4);
  (chr "5", _URI_SCHEME .| _URI_UNRES .| 5);
  (chr "6", _URI_SCHEME .| _URI_UNRES .| 6);
  (chr "7", _URI_SCHEME .| _URI_UNRES .| 7);
  (chr "8", _URI_SCHEME .| _URI_UNRES .| 8);
  (chr "9", _URI_SCHEME .| _URI_UNRES .| 9);
  (9, _SEP);
  (chr " ", _SEP);
  (chr "_", _URI_UNRES);
  (chr "=", _SEP .| _URI_RES);
  (chr "<", _SEP);
  (chr ">", _SEP);
  (chr ";", _SEP .| _URI_RES);
  (chr ":", _SEP .| _URI_RES);
  (92, _SEP);
  (39, _URI_RES);
  (34, _SEP);
  (chr "/", _SEP .| _URI_RES);
  (chr "[", _SEP .| _URI_RES);
  (chr "]", _SEP .| _URI_RES);
  (chr "{", _SEP);
  (chr "}", _SEP);
  (chr "(", _SEP .| _URI_RES);
  (chr ")", _SEP .| _URI_RES);
  (chr ",", _SEP .| _URI_RES);
  (chr ".", _URI_SCHEME .| _URI_UNRES);
  (chr "?", _SEP .| _URI_RES);
  (chr "!", _URI_RES);
  (chr "+", _URI_SCHEME .| _URI_RES);
  (chr "-", _URI_SCHEME .| _URI_UNRES);
  (chr "*", _URI_RES);
  (chr "$", _URI_RES);
  (chr "&", _URI_RES);
  (chr "#", _URI_RES);
  (chr "@", _SEP .| _URI_RES);
  (chr "~", _URI_UNRES)
].

Local Abbreviation _BND := _SERVAL_CTYPE_2_MULTIPART_BOUNDARY.

Definition _serval_ctype_2 : list Z := designated [
  (chr "A", _BND);
  (chr "B", _BND);
  (chr "C", _BND);
  (chr "D", _BND);
  (chr "E", _BND);
  (chr "F", _BND);
  (chr "G", _BND);
  (chr "H", _BND);
  (chr "I", _BND);
  (chr "J", _BND);
  (chr "K", _BND);
  (chr "L", _BND);
  (chr "M", _BND);
  (chr "N", _BND);
  (chr "O", _BND);
  (chr "P", _BND);
  (chr "Q", _BND);
  (chr "R", _BND);
  (chr "S", _BND);
  (chr "T", _BND);
  (chr "U", _BND);
  (chr "V", _BND);
  (chr "W", _BND);
  (chr "X", _BND);
  (chr "Y", _BND);
  (chr "Z", _BND);
  (chr "a", _BND);
  (chr "b", _BND);
  (chr "c", _BND);
  (chr "d", _BND);
  (chr "e", _BND);
  (chr "f", _BND);
  (chr "g", _BND);
  (chr "h", _BND);
  (chr "i", _BND);
  (chr "j", _BND);
  (chr "k", _BND);
  (chr "l", _BND);
  (chr "m", _BND);
  (chr "n", _BND);
  (chr "o", _BND);
  (chr "p", _BND);
  (chr "q", _BND);
  (chr "r", _BND);
  (chr "s", _BND);
  (chr "t", _BND);
  (chr "u", _BND);
  (chr "v", _BND);
  (chr "w", _BND);
  (chr "x", _BND);
  (chr "y", _BND);
  (chr "z", _BND);
  (chr "0", _BND);
  (chr "1", _BND);
  (chr "2", _BND);
  (chr "3", _BND);
  (chr "4", _BND);
  (chr "5", _BND);
  (chr "6", _BND);
  (chr "7", _BND);
  (chr "8", _BND);
  (chr "9", _BND);
  (chr "+", _BND);
  (chr "/", _BND);
  (chr "=", _BND);
  (chr "-", _BND);
  (chr ".", _BND);
  (chr ":", _BND);
  (chr "_", _BND);
  (chr "(", _BND);
  (chr ")", _BND);
  (chr ",", _BND);
  (chr "?", _BND);
  (chr " ", _BND)
].

(** ** The predicates of str.h *)

(** [(table[(unsigned char) c] & mask)] *)
Definition ctype_bits (table : list Z) (mask c : Z) : outcome Z :=
  t ← or_undef (table @@ c); Ret (Z.land t mask).

Definition ctype_test (table : list Z) (mask c : Z) : outcome bool :=
  t ← ctype_bits table mask c; Ret (negb (t =? 0)).

Definition is_http_char (c : Z) : bool := isascii c.
Definition is_http_ctl (c : Z) : bool := iscntrl c.
Definition is_base64_digit (c : Z) : outcome bool := ctype_test _serval_ctype_0 _SERVAL_CTYPE_0_BASE64 c.
Definition is_base64url_digit (c : Z) : outcome bool := ctype_test _serval_ctype_0 _SERVAL_CTYPE_0_BASE64URL c.
Definition is_base64_pad (c : Z) : bool := c =? chr "=".
Definition is_base64url_pad (c : Z) : bool := c =? chr "=".
Definition base64_digit (c : Z) : outcome Z := ctype_bits _serval_ctype_0 _SERVAL_CTYPE_0_BASE64_MASK c.
Definition base64url_digit (c : Z) : outcome Z := ctype_bits _serval_ctype_0 _SERVAL_CTYPE_0_BASE64_MASK c.
Definition is_multipart_boundary (c : Z) : outcome bool :=
  ctype_test _serval_ctype_2 _SERVAL_CTYPE_2_MULTIPART_BOUNDARY c.
Definition is_http_separator (c : Z) : outcome bool :=
  ctype_test _serval_ctype_1 _SERVAL_CTYPE_1_HTTP_SEPARATOR c.
Definition is_http_token (c : Z) : outcome bool :=
  if is_http_char c && negb (is_http_ctl c)
  then s ← is_http_separator c; Ret (negb s)
  else Ret false.
Definition is_uri_char_scheme (c : Z) : outcome bool := ctype_test _serval_ctype_1 _SERVAL_CTYPE_1_URI_SCHEME c.
Definition is_uri_char_unreserved (c : Z) : outcome bool := ctype_test _serval_ctype_1 _SERVAL_CTYPE_1_URI_UNRESERVED c.
Definition is_uri_char_reserved (c : Z) : outcome bool := ctype_test _serval_ctype_1 _SERVAL_CTYPE_1_URI_RESERVED c.

Definition hexvalue (c : Z) : outcome Z :=
  if isxdigit c then ctype_bits _serval_ctype_1 _SERVAL_CTYPE_1_HEX_MASK c else Ret (-1).

(** [is_valid_multipart_boundary_string]: the loop carries the previous
    character, which [s[-1]] reads at the end. *)
Fixpoint multipart_boundary_loop (prev : Z) (s : list Z) : outcome bool :=
  match s with
  | [] => Undef
  | c :: s' =>
    if c =? 0 then Ret (negb (prev =? chr " "))
    else b ← is_multipart_boundary c;
         if b : bool then multipart_boundary_loop c s' else Ret false
  end.

Definition is_valid_multipart_boundary_string (s : list Z) : outcome bool :=
  c ← rd s;
  if c =? 0 then Ret false else multipart_boundary_loop 0 s.

Fixpoint is_xsubstring (text : list Z) (len : nat) : outcome bool :=
  match len with
  | O => Ret true
  | S len =>
    match text with
    | [] => Undef
    | c :: text => if isxdigit c then is_xsubstring text len else Ret false
    end
  end.

Fixpoint is_xstring (text : list Z) (len : nat) : outcome bool :=
  match len with
  | O => c ← rd text; Ret (c =? 0)
  | S len =>
    match text with
    | [] => Undef
    | c :: text => if isxdigit c then is_xstring text len else Ret false
    end
  end.
