(* ===== verification/Str.v ===== *)
(** * String primitives (str.c)

    Hexadecimal and Base64 conversion, prefix tests, comparison, argument
    splitting, substring search, and number parsing.  A destination buffer is
    the list of bytes written to it, a source pointer the list of bytes it can
    read (file Cstring).  An optional out-parameter [afterp] is a boolean that
    says whether the caller passed one, and the pointer the code would store is
    part of the result. *)

From Stdlib Require Import ZArith Lia Ascii String.
From stdpp Require Import base tactics list numbers.
From S2P Require Import Prelude Cstring Ctype.

Local Open Scope Z_scope.

(** ** Hexadecimal *)

Definition hexdigit_upper : list Z := zs "0123456789ABCDEF".
Definition hexdigit_lower : list Z := zs "0123456789abcdef".

(** The loop of [tohex]: [i] counts the digits written, [srcBinary] is advanced
    after each second one. *)
Fixpoint tohex_loop (n : nat) (i : Z) (srcBinary : list Z) : outcome (list Z) :=
  match n with
  | O => Ret [0]
  | S n =>
    b ← rd srcBinary;
    if Z.land i 1 =? 0
    then d ← or_undef (hexdigit_upper @@ Z.shiftr b 4);
         r ← tohex_loop n (i + 1) srcBinary; Ret (d :: r)
    else d ← or_undef (hexdigit_upper @@ Z.land b 0xf);
         r ← tohex_loop n (i + 1) (tail srcBinary); Ret (d :: r)
  end.

(** The bytes [tohex] writes at [dstHex], the NUL included. *)
Definition tohex (dstStrLen : Z) (srcBinary : list Z) : outcome (list Z) :=
  tohex_loop (Z.to_nat dstStrLen) 0 srcBinary.

(** [strn_fromhex]: the bytes produced and the [*afterHex] pointer.  [cnt] is
    [dstBinary - dstorig]. *)
Fixpoint strn_fromhex_loop (dstlen cnt : Z) (srcHex : list Z) {struct srcHex}
    : outcome (list Z * list Z) :=
  if (dstlen =? -1) || (cnt <? dstlen) then
    match srcHex with
    | [] => Undef
    | c0 :: src1 =>
      high ← hexvalue c0;
      if high =? -1 then Ret ([], srcHex)
      else match src1 with
        | [] => Undef
        | c1 :: src2 =>
          low ← hexvalue c1;
          if low =? -1 then Ret ([], srcHex)
          else '(out, after) ← strn_fromhex_loop dstlen (cnt + 1) src2;
               Ret (u8 (Z.shiftl high 4 + low) :: out, after)
        end
    end
  else Ret ([], srcHex).

Definition strn_fromhex (dstlen : Z) (srcHex : list Z) : outcome (list Z * list Z) :=
  strn_fromhex_loop dstlen 0 srcHex.

(** [fromhex] returns [nbinary] or [(size_t) -1]. *)
Definition fromhex `{Arch} (srcHex : list Z) (nbinary : Z) : outcome (Z * list Z) :=
  '(out, _) ← strn_fromhex nbinary srcHex;
  Ret (if zlen out =? nbinary then nbinary else SIZE_MAX, out).

Definition fromhexstr (srcHex : list Z) (nbinary : Z) : outcome (Z * list Z) :=
  '(out, p) ← strn_fromhex nbinary srcHex;
  if zlen out =? nbinary
  then c ← rd p; Ret (if c =? 0 then 0 else -1, out)
  else Ret (-1, out).

(** ** Base64 *)

Definition base64_symbols : list Z :=
  zs "ABCDEFGHIJKLMNOPQRSTUVWXYZabcdefghijklmnopqrstuvwxyz0123456789+/=".
Definition base64url_symbols : list Z :=
  zs "ABCDEFGHIJKLMNOPQRSTUVWXYZabcdefghijklmnopqrstuvwxyz0123456789-_=".

(** One byte through the [switch (place)]: the symbols written, the new [place]
    and [buf]. *)
Definition base64_encode_byte (symbols : list Z) (place buf src : Z)
    : outcome (list Z * Z * Z) :=
  match place with
  | 0 => s ← or_undef (symbols @@ Z.shiftr src 2);
         Ret ([s], 1, Z.land (Z.shiftl src 4) 0x3f)
  | 1 => s ← or_undef (symbols @@ Z.lor (Z.shiftr src 4) buf);
         Ret ([s], 2, Z.land (Z.shiftl src 2) 0x3f)
  | 2 => s ← or_undef (symbols @@ Z.lor (Z.shiftr src 6) buf);
         s' ← or_undef (symbols @@ Z.land src 0x3f);
         Ret ([s; s'], 0, buf)
  | _ => Ret ([], place, buf)
  end.

(** The inner loop over one buffer of the vector. *)
Fixpoint base64_encode_buf (symbols : list Z) (place buf : Z) (src : list Z)
    : outcome (list Z * Z * Z) :=
  match src with
  | [] => Ret ([], place, buf)
  | b :: src =>
    '(o, place, buf) ← base64_encode_byte symbols place buf b;
    '(o', place, buf) ← base64_encode_buf symbols place buf src;
    Ret (o ++ o', place, buf)
  end.

(** The outer loop over the vector. *)
Fixpoint base64_encode_iov (symbols : list Z) (place buf : Z) (iov : list (list Z))
    : outcome (list Z * Z * Z) :=
  match iov with
  | [] => Ret ([], place, buf)
  | v :: iov =>
    '(o, place, buf) ← base64_encode_buf symbols place buf v;
    '(o', place, buf) ← base64_encode_iov symbols place buf iov;
    Ret (o ++ o', place, buf)
  end.

(** What [_base64_encodev] writes; it returns the length of that. *)
Definition _base64_encodev (symbols : list Z) (iov : list (list Z)) : outcome (list Z) :=
  '(o, place, buf) ← base64_encode_iov symbols 0 0 iov;
  tail ← (if place =? 0 then Ret [] else s ← or_undef (symbols @@ buf); Ret [s]);
  pads ← (match place with
          | 1 => p ← or_undef (symbols @@ 64); Ret [p; p]
          | 2 => p ← or_undef (symbols @@ 64); Ret [p]
          | _ => Ret []
          end);
  Ret (o ++ tail ++ pads).

Definition base64_encodev (iov : list (list Z)) := _base64_encodev base64_symbols iov.
Definition base64url_encodev (iov : list (list Z)) := _base64_encodev base64url_symbols iov.
Definition base64_encode (src : list Z) := _base64_encodev base64_symbols [src].
Definition base64url_encode (src : list Z) := _base64_encodev base64url_symbols [src].
Definition to_base64_str (src : list Z) : outcome (list Z) := o ← base64_encode src; Ret (o ++ [0]).
Definition to_base64url_str (src : list Z) : outcome (list Z) := o ← base64url_encode src; Ret (o ++ [0]).

Definition BASE64_ENCODED_LEN (n : Z) : Z := (n + 2) / 3 * 4.

Definition B64_CONSUME_ALL : Z := Z.shiftl 1 0.

Section base64_decode.
(** The alphabet, and the arguments of the call that do not change. *)
Variables (isdigit_pred : Z -> outcome bool) (ispad_pred : Z -> bool)
          (todigit : Z -> outcome Z) (skip_pred : option (Z -> bool)).
Variables (dst : bool) (dstsiz : Z) (unbounded : bool) (flags : Z).

(** The local variables of [_base64_decode] that the loop changes ([src]
    apart); [out] is what was written at [dstBinary]. *)
Record b64_state := B64State {
  b_buf : Z;
  b_digits : Z;
  b_pads : Z;
  b_bytes : Z;
  b_first_pad : option (list Z);
  b_out : list Z
}.

(** The [switch (place)] that stores a digit. *)
Definition b64_store (st : b64_state) (place d : Z) : b64_state :=
  let set buf bytes out :=
    B64State buf (b_digits st) (b_pads st) bytes (b_first_pad st) out in
  match place with
  | 0 => set (u8 (Z.shiftl d 2)) (b_bytes st) (b_out st)
  | 1 => set (u8 (Z.shiftl d 4)) (b_bytes st + 1) (b_out st ++ [Z.lor (b_buf st) (Z.shiftr d 4)])
  | 2 => set (u8 (Z.shiftl d 6)) (b_bytes st + 1) (b_out st ++ [Z.lor (b_buf st) (Z.shiftr d 2)])
  | 3 => set (b_buf st) (b_bytes st + 1) (b_out st ++ [Z.lor (b_buf st) d])
  | _ => st
  end.

(** What one pass through the loop body does next. *)
Inductive b64_next :=
| BContinue (st : b64_state)
| BBreak (st : b64_state) (src : list Z).

Definition b64_body (st : b64_state) (src : list Z) : outcome b64_next :=
  c ← rd src;
  isd ← isdigit_pred c;
  let isp := ispad_pred c in
  if negb isd && negb isp && (match skip_pred with Some p => p c | None => false end)
  then Ret (BContinue st) else
  _ ← cassert (b_pads st <=? 2);
  if b_pads st =? 2 then Ret (BBreak st src) else
  let place := Z.land (b_digits st) 3 in
  if b_pads st =? 1 then
    if place =? 3 then Ret (BBreak st src) else
    _ ← cassert (place =? 2);
    if isp then
      Ret (BContinue (B64State (b_buf st) (b_digits st) (b_pads st + 1) (b_bytes st) (b_first_pad st) (b_out st)))
    else
      match b_first_pad st with
      | None => Abort
      | Some fp => Ret (BBreak st fp)
      end
  else
  _ ← cassert (b_pads st =? 0);
  if isp && (2 <=? place) then
    Ret (BContinue (B64State (b_buf st) (b_digits st) (b_pads st + 1) (b_bytes st) (Some src) (b_out st)))
  else
  if negb isd then Ret (BBreak st src) else
  let st := B64State (b_buf st) (b_digits st + 1) (b_pads st) (b_bytes st) (b_first_pad st) (b_out st) in
  if dst && (b_bytes st <? dstsiz) then
    d ← todigit c; Ret (BContinue (b64_store st place d))
  else if negb (Z.land flags B64_CONSUME_ALL =? 0) then
    Ret (BContinue (B64State (b_buf st) (b_digits st) (b_pads st)
           (if place =? 0 then b_bytes st else b_bytes st + 1) (b_first_pad st) (b_out st)))
  else Ret (BBreak st src).

(** The loop; [avail] is [srcend - src]. *)
Fixpoint b64_loop (avail : Z) (st : b64_state) (src : list Z) {struct src}
    : outcome (b64_state * list Z) :=
  if unbounded || (0 <? avail) then
    n ← b64_body st src;
    match n with
    | BBreak st src => Ret (st, src)
    | BContinue st =>
      match src with [] => Undef | _ :: src' => b64_loop (avail - 1) st src' end
    end
  else Ret (st, src).
End base64_decode.

(** [_base64_decode]: the return value, the bytes written, and [*afterp]. *)
Definition _base64_decode isdigit_pred ispad_pred todigit
    (dst : bool) (dstsiz : Z) (srcBase64 : list Z) (srclen : Z)
    (afterp : bool) (flags : Z) (skip_pred : option (Z -> bool))
    : outcome (Z * list Z * list Z) :=
  '(st, src) ← b64_loop isdigit_pred ispad_pred todigit skip_pred dst dstsiz
                 (srclen =? 0) flags srclen (B64State 0 0 0 0 None []) srcBase64;
  if afterp then Ret (b_bytes st, b_out st, src)
  else c ← rd src; Ret (if c =? 0 then b_bytes st else 0, b_out st, src).

Definition base64_decode := _base64_decode is_base64_digit is_base64_pad base64_digit.
Definition base64url_decode := _base64_decode is_base64url_digit is_base64url_pad base64url_digit.

(** ** Small string primitives *)

Fixpoint is_all_matching (ptr : list Z) (len : nat) (value : Z) : outcome bool :=
  match len with
  | O => Ret true
  | S len =>
    match ptr with
    | [] => Undef
    | c :: ptr => if c =? value then is_all_matching ptr len value else Ret false
    end
  end.

(** [str_toupper_inplace] and [str_tolower_inplace]: the object after the call. *)
Fixpoint map_inplace (f : Z -> Z) (str : list Z) : outcome (list Z) :=
  match str with
  | [] => Undef
  | c :: s => if c =? 0 then Ret str else r ← map_inplace f s; Ret (f c :: r)
  end.

Definition str_toupper_inplace := map_inplace toupper.
Definition str_tolower_inplace := map_inplace tolower.

Fixpoint strnchr (s : list Z) (n : nat) (c : Z) : outcome (option (list Z)) :=
  match n with
  | O => Ret None
  | S n =>
    match s with
    | [] => Undef
    | d :: s' => if d =? c then Ret (Some s) else if d =? 0 then Ret None else strnchr s' n c
    end
  end.

(** The loops of [str_startswith] and its three relatives: [None] for 0,
    [Some afterp] for 1. *)
Fixpoint str_startswith (str substring : list Z) : outcome (option (list Z)) :=
  match substring with
  | [] => Undef
  | d :: sub' =>
    if d =? 0 then Ret (Some str)
    else match str with
      | [] => Undef
      | c :: str' => if d =? c then str_startswith str' sub' else Ret None
      end
  end.

Fixpoint strn_startswith (str : list Z) (len : Z) (substring : list Z) : outcome (option (list Z)) :=
  match substring with
  | [] => Undef
  | d :: sub' =>
    if d =? 0 then Ret (Some str)
    else if len =? 0 then Ret None
    else match str with
      | [] => Undef
      | c :: str' => if d =? c then strn_startswith str' (len - 1) sub' else Ret None
      end
  end.

Fixpoint strcase_startswith (str substring : list Z) : outcome (option (list Z)) :=
  match substring with
  | [] => Undef
  | d :: sub' =>
    if d =? 0 then Ret (Some str)
    else match str with
      | [] => Undef
      | c :: str' =>
        if c =? 0 then Ret None
        else if toupper d =? toupper c then strcase_startswith str' sub' else Ret None
      end
  end.

Fixpoint strncase_startswith (str : list Z) (len : Z) (substring : list Z) : outcome (option (list Z)) :=
  match substring with
  | [] => Undef
  | d :: sub' =>
    if d =? 0 then Ret (Some str)
    else if len =? 0 then Ret None
    else match str with
      | [] => Undef
      | c :: str' =>
        if toupper d =? toupper c then strncase_startswith str' (len - 1) sub' else Ret None
      end
  end.

Definition strn_str_cmp (str1 : list Z) (len1 : Z) (str2 : list Z) : outcome Z :=
  r ← strncmp str1 str2 len1;
  if negb (r =? 0) then Ret r
  else len2 ← strlen str2;
       Ret (if len1 <? len2 then -1 else if len2 <? len1 then 1 else 0).

Definition strn_str_casecmp (str1 : list Z) (len1 : Z) (str2 : list Z) : outcome Z :=
  r ← strncasecmp str1 str2 len1;
  if negb (r =? 0) then Ret r
  else len2 ← strlen str2;
       Ret (if len1 <? len2 then -1 else if len2 <? len1 then 1 else 0).

(** [parse_argv] overwrites the delimiters in [cmdline] with NULs and stores
    pointers into it in [argv]: the result is the buffer afterwards and the
    offsets stored ([argc] is their number).  [pos] is [cmdline]'s offset. *)
Fixpoint parse_argv_loop (cmdline : list Z) (pos delim argc max_argv : Z) : outcome (list Z * list Z) :=
  match cmdline with
  | [] => Undef
  | c :: rest =>
    if c =? 0 then Ret (cmdline, [])
    else if c =? delim then
      d ← rd rest;
      if negb (d =? 0) && (argc <? max_argv)
      then '(buf, argv) ← parse_argv_loop rest (pos + 1) delim (argc + 1) max_argv;
           Ret (0 :: buf, pos + 1 :: argv)
      else '(buf, argv) ← parse_argv_loop rest (pos + 1) delim argc max_argv;
           Ret (0 :: buf, argv)
    else '(buf, argv) ← parse_argv_loop rest (pos + 1) delim argc max_argv;
         Ret (c :: buf, argv)
  end.

Definition parse_argv (cmdline : list Z) (delim max_argv : Z) : outcome (list Z * list Z) :=
  c ← rd cmdline;
  if negb (c =? 0) && (0 <? max_argv)
  then '(buf, argv) ← parse_argv_loop cmdline 0 delim 1 max_argv; Ret (buf, 0 :: argv)
  else parse_argv_loop cmdline 0 delim 0 max_argv.

Fixpoint str_str_loop (haystack needle : list Z) (haystack_len needle_len : Z) : outcome (option (list Z)) :=
  match haystack with
  | [] => Undef
  | c :: rest =>
    if negb (c =? 0) && (needle_len <=? haystack_len) then
      r ← strncmp haystack needle needle_len;
      if r =? 0 then Ret (Some haystack)
      else str_str_loop rest needle (haystack_len - 1) needle_len
    else Ret None
  end.

Definition str_str (haystack needle : list Z) (haystack_len : Z) : outcome (option (list Z)) :=
  needle_len ← strlen needle;
  if needle_len =? 0 then Ret (Some haystack)
  else if needle_len <=? haystack_len
  then str_str_loop haystack needle haystack_len needle_len
  else Ret None.

(** ** Numbers *)

(** The result of the parsers: [p_ok] is what they return, [p_value] what they
    store in [*result] when they do, [p_end] what they store in [*afterp]. *)
Record parsed := Parsed { p_ok : bool; p_value : Z; p_end : list Z }.

(** The digit loop of [strn_to_uint32] and [strn_to_uint64], which differ only in
    the width [w]; [avail] is [end - s], used when [strlen] is not zero. *)
Fixpoint uint_loop (w base : Z) (bounded : bool) (avail value newvalue : Z) (s : list Z) {struct s}
    : outcome (Z * Z * Z * list Z) :=
  let stop := Ret (value, newvalue, avail, s) in
  go ← (if bounded then Ret (0 <? avail) else c ← rd s; Ret (negb (c =? 0)));
  if go : bool then
    match s with
    | [] => Undef
    | c :: s' =>
      digit ← hexvalue c;
      if (digit <? 0) || (base <=? digit) then stop
      else
        let newvalue := uN w (value * base + digit) in
        if newvalue <? value then Ret (value, newvalue, avail, s)
        else uint_loop w base bounded (avail - 1) newvalue newvalue s'
    end
  else stop.

Definition strn_to_uint (w : Z) (str : list Z) (strlen base : Z) (afterp : bool) : outcome parsed :=
  _ ← cassert (0 <? base);
  _ ← cassert (base <=? 16);
  let bounded := negb (strlen =? 0) in
  '(value, newvalue, avail, s) ← uint_loop w base bounded strlen 0 0 str;
  let consumed := negb (Nat.eqb (length s) (length str)) in
  trailing ← (if afterp then Ret false
              else if bounded then Ret (negb (avail =? 0))
              else c ← rd s; Ret (negb (c =? 0)));
  Ret (Parsed (consumed && (value <=? 2 ^ w - 1) && (value =? newvalue) && negb trailing) value s).

Definition strn_to_uint32 := strn_to_uint 32.
Definition strn_to_uint64 := strn_to_uint 64.
Definition str_to_uint32 (str : list Z) (base : Z) (afterp : bool) := strn_to_uint32 str 0 base afterp.
Definition str_to_uint64 (str : list Z) (base : Z) (afterp : bool) := strn_to_uint64 str 0 base afterp.
Definition str_is_uint64_decimal (str : list Z) : outcome bool :=
  r ← str_to_uint64 str 10 false; Ret (p_ok r).

(** [str_to_int32] and [str_to_int64].  When the string starts with white space
    they return before storing anything. *)
Definition str_to_int32 `{Arch} (str : list Z) (base : Z) (afterp : bool) : outcome parsed :=
  c ← rd str;
  if isspace c then Ret (Parsed false 0 str) else
  '(value, e, erange) ← strtol str base;
  d ← rd e;
  Ret (Parsed (negb (erange || Nat.eqb (length e) (length str) || (INT32_MAX <? value) || (value <? INT32_MIN)
                     || isdigit d || (negb afterp && negb (d =? 0)))) value e).

Definition str_to_int64 (str : list Z) (base : Z) (afterp : bool) : outcome parsed :=
  c ← rd str;
  if isspace c then Ret (Parsed false 0 str) else
  '(value, e, erange) ← strtoll str base;
  d ← rd e;
  Ret (Parsed (negb (erange || Nat.eqb (length e) (length str)
                     || isdigit d || (negb afterp && negb (d =? 0)))) value e).

Definition scale_factors : list (Z * Z) :=
  [ (chr "G", 1024 * 1024 * 1024);
    (chr "g", 1000 * 1000 * 1000);
    (chr "M", 1024 * 1024);
    (chr "m", 1000 * 1000);
    (chr "K", 1024);
    (chr "k", 1000) ].

(** [scale_factor]: the factor and the [str] pointer afterwards. *)
Definition scale_factor (str : list Z) (afterp : bool) : outcome (Z * list Z) :=
  c ← rd str;
  let '(factor, str) :=
    match list_find (fun e => fst e = c) scale_factors with
    | Some (_, (_, f)) => (f, tail str)
    | None => (1, str)
    end in
  if afterp then Ret (factor, str)
  else d ← rd str; Ret (if d =? 0 then factor else 0, str).

(** The common body of the [_scaled] parsers: [parse] is the unscaled parser
    called with an [afterp], [wrap] the conversion of [value *= ...] back to the
    type of [value]. *)
Definition scaled_with (parse : outcome parsed) (wrap : Z -> Z) (afterp : bool) : outcome parsed :=
  r ← parse;
  if negb (p_ok r) then Ret (Parsed false 0 (p_end r)) else
  '(f, e) ← scale_factor (p_end r) true;
  let value := wrap (p_value r * f) in
  if afterp then Ret (Parsed true value e)
  else c ← rd e; Ret (Parsed (c =? 0) value e).

(** In [int64_t *= uint64_t] the product is computed in [uint64_t]. *)
Definition str_to_int64_scaled (str : list Z) (base : Z) (afterp : bool) : outcome parsed :=
  scaled_with (str_to_int64 str base true) s64 afterp.
(** In [uint32_t *= uint64_t] the 64-bit product is truncated to 32 bits. *)
Definition str_to_uint32_scaled (str : list Z) (base : Z) (afterp : bool) : outcome parsed :=
  scaled_with (str_to_uint32 str base true) (fun x => u32 (u64 x)) afterp.
Definition str_to_uint64_scaled (str : list Z) (base : Z) (afterp : bool) : outcome parsed :=
  scaled_with (str_to_uint64 str base true) u64 afterp.

(** The digits of the fraction: [value += ( *end++ - '0') * factor]. *)
Fixpoint interval_loop (fuel : nat) (factor value : Z) (e : list Z) : outcome (Z * list Z) :=
  match fuel with
  | O => Ret (value, e)
  | S fuel =>
    c ← rd e;
    if isdigit c && negb (factor =? 0)
    then interval_loop fuel (factor / 10) (u64 (value + (c - 48) * factor)) (tail e)
    else Ret (value, e)
  end.

(** [factor] starts at [precision / 10 = 100], so the loop body runs at most
    three times and four rounds of fuel reach its exit. *)
Definition str_to_uint64_interval_ms (str : list Z) (afterp : bool) : outcome parsed :=
  let precision := 1000 in
  c ← rd str;
  if isspace c then Ret (Parsed false 0 str) else
  '(v, e, _) ← strtoull str 10;
  let value := u64 (v * precision) in
  if Nat.eqb (length e) (length str) then Ret (Parsed false 0 e) else
  c0 ← rd e;
  frac ← (if c0 =? chr "." then c1 ← rdn e 1; Ret (isdigit c1) else Ret false);
  '(value, e) ← (if frac : bool then interval_loop 4 (precision / 10) value (tail e) else Ret (value, e));
  if afterp then Ret (Parsed true (s64 value) e)
  else d ← rd e; Ret (Parsed (d =? 0) (s64 value) e).

(** ** Printable representation *)

(** One escape sequence, [src] pointing after the backslash: the byte and the
    pointer after the escape. *)
Definition fromprint_escape `{Arch} (src : list Z) : outcome (Z * list Z) :=
  c ← rd src;
  if c =? 0 then Ret (chr "\", src)
  else if c =? chr "0" then Ret (0, tail src)
  else if c =? chr "n" then Ret (10, tail src)
  else if c =? chr "r" then Ret (13, tail src)
  else if c =? chr "t" then Ret (9, tail src)
  else
    hex ← (if c =? chr "x"
           then c1 ← rdn src 1;
                if isxdigit c1 then c2 ← rdn src 2; Ret (isxdigit c2) else Ret false
           else Ret false);
    if hex : bool then
      '(_, d) ← fromhex (tail src) 1;
      b ← rd d; Ret (b, drop 3 src)
    else Ret (c, tail src).

(** The loop; [avail] is [esrc - src], [room] is [edst - dst].  Every pass writes
    one byte, so [room] bounds the number of passes. *)
Fixpoint fromprint_loop `{Arch} (room : nat) (unbounded : bool) (avail endquote : Z) (src : list Z)
    : outcome (list Z * list Z) :=
  if unbounded || (0 <? avail) then
    c ← rd src;
    if (c =? 0) || (c =? endquote) then Ret ([], src)
    else match room with
      | O => Ret ([], src)
      | S room =>
        if c =? chr "\" then
          '(d, src') ← fromprint_escape (tail src);
          '(out, after) ← fromprint_loop room unbounded (avail - (zlen src - zlen src')) endquote src';
          Ret (d :: out, after)
        else
          '(out, after) ← fromprint_loop room unbounded (avail - 1) endquote (tail src);
          Ret (c :: out, after)
      end
  else Ret ([], src).

Definition strn_fromprint `{Arch} (dstsiz : Z) (src : list Z) (srclen endquote : Z) : outcome (list Z * list Z) :=
  fromprint_loop (Z.to_nat dstsiz) (srclen =? 0) srclen endquote src.
