(* ===== verification/StrHex.v ===== *)
(** * Correctness of the hexadecimal conversions (str.c)

    Encoding then decoding gives the bytes back, decoding then encoding gives the
    digits back in upper case, and decoding a NUL-terminated string never reads
    past its terminator. *)

From Stdlib Require Import ZArith Lia Ascii String.
From stdpp Require Import base tactics list numbers.
From S2P Require Import Prelude Cstring Ctype Str.

Local Open Scope Z_scope.

(** ** The character tables *)

(** [hexvalue] as a function of the byte: the table agrees with the radix value
    of the digit. *)
Definition hexval (c : Z) : Z := if isxdigit c then radix_digit c else -1.

Lemma hexvalue_hexval c : is_byte c -> hexvalue c = Ret (hexval c).
Proof.
  intros Hc.
  assert (Hd : (match hexvalue c with Ret v => v =? hexval c | _ => false end) = true).
  { revert c Hc. apply all_bytes_dec. vm_compute. reflexivity. }
  destruct (hexvalue c); [|done..]. by apply Z.eqb_eq in Hd as ->.
Qed.

Lemma hexval_range c : is_byte c -> hexval c = -1 \/ 0 <= hexval c < 16.
Proof.
  intros Hc.
  assert (Hd : ((hexval c =? -1) || ((0 <=? hexval c) && (hexval c <? 16))) = true).
  { revert c Hc. apply all_bytes_dec. vm_compute. reflexivity. }
  rewrite orb_true_iff in Hd. destruct Hd; bsplit; lia.
Qed.

Lemma hexval_isxdigit c : is_byte c -> (hexval c =? -1) = negb (isxdigit c).
Proof.
  intros Hc. unfold hexval. destruct (isxdigit c) eqn:Hx; [|done].
  assert (Hd : (negb (isxdigit c) || (0 <=? radix_digit c)) = true).
  { revert c Hc Hx. intros c Hc _. revert c Hc. apply all_bytes_dec. vm_compute. reflexivity. }
  rewrite Hx in Hd. simpl in Hd. bsplit. simpl. apply Z.eqb_neq. lia.
Qed.

Lemma isxdigit_byte c : isxdigit c = true -> is_byte c /\ c <> 0.
Proof.
  unfold isxdigit, isdigit, between, is_byte. intros H.
  repeat (apply orb_true_iff in H; destruct H as [H|H]); bsplit; lia.
Qed.

(** The digit [tohex] writes for a nibble. *)
Definition hexdig (n : Z) : Z := if n <? 10 then 48 + n else 55 + n.

Lemma hexdigit_upper_at n : 0 <= n < 16 -> hexdigit_upper @@ n = Some (hexdig n).
Proof.
  intros Hn.
  assert (Hd : ((n <? 16) && negb (bool_decide (hexdigit_upper @@ n = Some (hexdig n)))) = false).
  { assert (Hb : is_byte n) by (unfold is_byte; lia).
    apply negb_true_iff. revert n Hb Hn. intros n Hb _. revert n Hb.
    apply all_bytes_dec. vm_compute. reflexivity. }
  apply andb_false_iff in Hd as [Hd|Hd]; bsplit; [lia|done].
Qed.

Lemma hexdig_isxdigit n : 0 <= n < 16 -> isxdigit (hexdig n) = true.
Proof.
  intros Hn. unfold hexdig, isxdigit, isdigit, between.
  destruct (Z.ltb_spec n 10); repeat zcase; simpl; lia || done.
Qed.

Lemma hexval_hexdig n : 0 <= n < 16 -> hexval (hexdig n) = n.
Proof.
  intros Hn. unfold hexval. rewrite hexdig_isxdigit by done.
  unfold hexdig, radix_digit, isdigit, isupper, between.
  destruct (Z.ltb_spec n 10); repeat zcase; simpl; lia.
Qed.

Lemma hexdig_hexval c : isxdigit c = true -> hexdig (hexval c) = toupper c.
Proof.
  intros Hx. destruct (isxdigit_byte c Hx) as [Hc _].
  assert (Hd : (negb (isxdigit c) || (hexdig (hexval c) =? toupper c)) = true).
  { revert c Hc Hx. intros c Hc _. revert c Hc. apply all_bytes_dec. vm_compute. reflexivity. }
  rewrite Hx in Hd. simpl in Hd. by apply Z.eqb_eq in Hd.
Qed.

(** ** Encoding *)

(** The digits of a byte string. *)
Definition hex_of (bs : list Z) : list Z := bs ≫= fun b => [hexdig (b / 16); hexdig (b mod 16)].

Lemma hex_of_cons b bs : hex_of (b :: bs) = hexdig (b / 16) :: hexdig (b mod 16) :: hex_of bs.
Proof. done. Qed.

Lemma zlen_hex_of bs : zlen (hex_of bs) = 2 * zlen bs.
Proof. induction bs as [|b bs IH]; [done|]. rewrite hex_of_cons, !zlen_cons, IH. lia. Qed.

Lemma byte_nibbles b : is_byte b -> 0 <= b / 16 < 16 /\ 0 <= b mod 16 < 16.
Proof. unfold is_byte. intros. split; dmlia. Qed.

Lemma tohex_loop_pair bs b i n :
  is_byte b -> Z.land i 1 = 0 ->
  tohex_loop (S (S n)) i (b :: bs)
  = (r ← tohex_loop n (i + 2) bs; Ret (hexdig (b / 16) :: hexdig (b mod 16) :: r)).
Proof.
  intros Hb Hi. destruct (byte_nibbles b Hb).
  assert (Hi1 : Z.land (i + 1) 1 = 1).
  { change 1 with (Z.ones 1) at 2. change 1 with (Z.ones 1) in Hi.
    rewrite !Z.land_ones in * by lia. change (2 ^ 1) with 2 in *. dmlia. }
  cbn [tohex_loop]. rewrite Hi, Hi1. simpl.
  rewrite Z.shiftr_div_pow2 by lia. change (2 ^ 4) with 16.
  change 0xf with (Z.ones 4). rewrite Z.land_ones by lia. change (2 ^ 4) with 16.
  rewrite !hexdigit_upper_at by done. simpl.
  replace (i + 1 + 1) with (i + 2) by lia.
  by destruct (tohex_loop n (i + 2) bs).
Qed.

Lemma tohex_loop_hex_of bs : bytes bs -> forall i, Z.land i 1 = 0 ->
  tohex_loop (2 * length bs) i bs = Ret (hex_of bs ++ [0]).
Proof.
  induction 1 as [|b bs Hb Hbs IH]; intros i Hi; [done|].
  simpl length. replace (2 * S (length bs))%nat with (S (S (2 * length bs))) by lia.
  rewrite tohex_loop_pair by done. rewrite IH.
  - done.
  - change 1 with (Z.ones 1) in *. rewrite Z.land_ones in * by lia. change (2 ^ 1) with 2 in *. dmlia.
Qed.

Lemma tohex_hex_of bs n : bytes bs -> n = 2 * zlen bs -> tohex n bs = Ret (hex_of bs ++ [0]).
Proof.
  intros Hbs ->. unfold tohex, zlen.
  replace (Z.to_nat (2 * Z.of_nat (length bs))) with (2 * length bs)%nat by lia.
  by apply tohex_loop_hex_of.
Qed.

Lemma hex_of_no_nul bs : bytes bs -> no_nul (hex_of bs).
Proof.
  induction 1 as [|b bs Hb Hbs IH]; [constructor|]. rewrite hex_of_cons.
  destruct (byte_nibbles b Hb).
  constructor; [|constructor; [|exact IH]]; apply isxdigit_byte; by apply hexdig_isxdigit.
Qed.

(** ** Decoding *)

Lemma fromhex_loop_pair dstlen cnt h l src :
  (dstlen = -1 \/ cnt < dstlen) -> isxdigit h = true -> isxdigit l = true ->
  strn_fromhex_loop dstlen cnt (h :: l :: src)
  = ('(out, after) ← strn_fromhex_loop dstlen (cnt + 1) src;
     Ret (hexval h * 16 + hexval l :: out, after)).
Proof.
  intros Hn Hh Hl.
  destruct (isxdigit_byte h Hh) as [Bh _], (isxdigit_byte l Hl) as [Bl _].
  cbn [strn_fromhex_loop].
  assert (((dstlen =? -1) || (cnt <? dstlen)) = true) as ->
    by (rewrite orb_true_iff, Z.eqb_eq, Z.ltb_lt; lia).
  rewrite !hexvalue_hexval by done. simpl.
  rewrite !hexval_isxdigit, Hh, Hl by done. simpl.
  assert (u8 (Z.shiftl (hexval h) 4 + hexval l) = hexval h * 16 + hexval l) as ->; [|done].
  pose proof (hexval_range h Bh). pose proof (hexval_range l Bl).
  pose proof (hexval_isxdigit h Bh) as Eh. pose proof (hexval_isxdigit l Bl) as El.
  rewrite Hh in Eh. rewrite Hl in El. simpl in Eh, El. bsplit.
  rewrite Z.shiftl_mul_pow2 by lia. change (2 ^ 4) with 16. apply uN_small. lia.
Qed.

Lemma fromhex_loop_full dstlen cnt src :
  0 <= cnt -> dstlen = cnt -> strn_fromhex_loop dstlen cnt src = Ret ([], src).
Proof.
  intros Hc ->. assert (((cnt =? -1) || (cnt <? cnt)) = false) as E.
  { apply orb_false_iff. rewrite Z.eqb_neq, Z.ltb_ge. lia. }
  destruct src; cbn [strn_fromhex_loop]; by rewrite E.
Qed.

Lemma fromhex_loop_hex_of bs rest dstlen cnt :
  bytes bs -> dstlen = cnt + zlen bs -> 0 <= cnt ->
  strn_fromhex_loop dstlen cnt (hex_of bs ++ rest) = Ret (bs, rest).
Proof.
  intros Hbs. revert cnt. induction Hbs as [|b bs Hb Hbs IH]; intros cnt Hd Hc.
  - unfold zlen in Hd. simpl in *. by rewrite fromhex_loop_full by lia.
  - destruct (byte_nibbles b Hb). rewrite zlen_cons in Hd.
    pose proof (zlen_nonneg bs).
    rewrite hex_of_cons. simpl app.
    rewrite fromhex_loop_pair by (lia || by apply hexdig_isxdigit).
    rewrite IH by lia. simpl. rewrite !hexval_hexdig by done.
    do 3 f_equal. rewrite (Z.div_mod b 16) at 3 by lia. lia.
Qed.

(** Encoding any byte string with [tohex] and decoding the NUL-terminated
    result with [fromhexstr] succeeds and gives the bytes back; the encoding has
    exactly two digits per byte and the terminator. *)
Theorem tohex_fromhexstr_roundtrip (bs : list Z) (Hbs : bytes bs) :
  exists h, tohex (2 * zlen bs) bs = Ret h
    /\ zlen h = 2 * zlen bs + 1
    /\ fromhexstr h (zlen bs) = Ret (0, bs).
Proof.
  exists (hex_of bs ++ [0]). split; [by apply tohex_hex_of|]. split.
  - by rewrite zlen_app, zlen_hex_of.
  - unfold fromhexstr, strn_fromhex. rewrite (fromhex_loop_hex_of bs [0]) by (done || lia).
    simpl. by rewrite Z.eqb_refl.
Qed.

Lemma tohex_fromhexstr_roundtrip_witness :
  exists h, tohex 6 [0x00; 0xa5; 0xff] = Ret h /\ zlen h = 7 /\ fromhexstr h 3 = Ret (0, [0x00; 0xa5; 0xff]).
Proof.
  apply (tohex_fromhexstr_roundtrip [0x00; 0xa5; 0xff]).
  repeat constructor; vm_compute; discriminate || reflexivity.
Defined.

(** What a call of [strn_fromhex] on a NUL-terminated string does: it consumes
    [used], made of pairs of hex digits. *)
Record fromhex_result (dstlen cnt : Z) (src : list Z) (r : list Z * list Z) : Prop := {
  fhr_used : exists used, src = used ++ r.2 /\ Forall (fun c => isxdigit c = true) used
    /\ zlen used = 2 * zlen r.1 /\ map toupper used = hex_of r.1;
  fhr_bytes : bytes r.1;
  fhr_room : dstlen = -1 \/ cnt + zlen r.1 <= dstlen;
  fhr_stop : dstlen = cnt + zlen r.1 \/
    match r.2 with h :: l :: _ => isxdigit h && isxdigit l = false | [h] => isxdigit h = false | [] => False end
}.

Lemma hexval_pair_byte h l :
  isxdigit h = true -> isxdigit l = true ->
  is_byte (hexval h * 16 + hexval l)
  /\ [hexdig ((hexval h * 16 + hexval l) / 16); hexdig ((hexval h * 16 + hexval l) mod 16)]
     = [toupper h; toupper l].
Proof.
  intros Hh Hl.
  destruct (isxdigit_byte h Hh) as [Bh _], (isxdigit_byte l Hl) as [Bl _].
  pose proof (hexval_range h Bh). pose proof (hexval_range l Bl).
  pose proof (hexval_isxdigit h Bh) as Eh. pose proof (hexval_isxdigit l Bl) as El.
  rewrite Hh in Eh. rewrite Hl in El. simpl in Eh, El. bsplit.
  split; [unfold is_byte; lia|].
  rewrite Z.div_add_l, Z.div_small, Z.add_0_r by lia.
  rewrite Z.add_comm, Z.mod_add, Z.mod_small by lia.
  by rewrite !hexdig_hexval by done.
Qed.

(** Why the loop stops at [src]. *)
Definition hex_stop (src : list Z) : Prop :=
  match src with
  | h :: l :: _ => is_byte h /\ (isxdigit h = false \/ is_byte l /\ isxdigit l = false)
  | [h] => is_byte h /\ isxdigit h = false
  | [] => False
  end.

Lemma fromhex_loop_stop dstlen cnt src :
  0 <= cnt -> (dstlen = -1 \/ cnt <= dstlen) -> dstlen = cnt \/ hex_stop src ->
  strn_fromhex_loop dstlen cnt src = Ret ([], src)
  /\ fromhex_result dstlen cnt src ([], src).
Proof.
  intros Hc Hr Hs. split.
  - destruct Hs as [->|Hs]; [by rewrite fromhex_loop_full|].
    destruct src as [|h [|l src]]; cbn [strn_fromhex_loop hex_stop] in *; [done| |].
    + destruct Hs as [Hb Hx]. destruct ((dstlen =? -1) || (cnt <? dstlen)); [|done].
      rewrite hexvalue_hexval by done. simpl. by rewrite hexval_isxdigit, Hx.
    + destruct Hs as [Hb Hx]. destruct ((dstlen =? -1) || (cnt <? dstlen)); [|done].
      rewrite (hexvalue_hexval h) by done. cbn [mbind outcome_bind]. rewrite (hexval_isxdigit h) by done.
      destruct Hx as [->|[Hl Hx]]; [done|]. destruct (negb _); [done|].
      rewrite (hexvalue_hexval l) by done. simpl. by rewrite hexval_isxdigit, Hx.
  - split; simpl; [exists []; done|constructor|unfold zlen; simpl; lia|].
    destruct Hs as [->|Hs]; [left; unfold zlen; simpl; lia|right].
    destruct src as [|h [|l src]]; simpl in *; [done|tauto|].
    apply andb_false_iff. tauto.
Qed.

Lemma fromhex_result_step dstlen cnt h l src r :
  isxdigit h = true -> isxdigit l = true ->
  fromhex_result dstlen (cnt + 1) src r ->
  fromhex_result dstlen cnt (h :: l :: src) (hexval h * 16 + hexval l :: r.1, r.2).
Proof.
  intros Hh Hl [(used & -> & Hx & Hlen & Hup) Hb Hroom Hstop].
  destruct (hexval_pair_byte h l Hh Hl) as [Hbyte Hdig].
  split; simpl.
  - exists (h :: l :: used). split_and!; [done|by constructor; [|constructor]| |].
    + rewrite !zlen_cons, Hlen. lia.
    + injection Hdig as -> ->. cbn [map]. by rewrite Hup.
  - by constructor.
  - rewrite zlen_cons. lia.
  - rewrite zlen_cons. destruct Hstop; [left; lia|right; done].
Qed.

Lemma fromhex_loop_spec dstlen : -1 <= dstlen -> forall s rest cnt,
  bytes s -> 0 <= cnt -> (dstlen = -1 \/ cnt <= dstlen) ->
  exists r, strn_fromhex_loop dstlen cnt (s ++ 0 :: rest) = Ret r
    /\ fromhex_result dstlen cnt (s ++ 0 :: rest) r.
Proof.
  intros Hd s rest. assert (H0 : is_byte 0) by (unfold is_byte; lia).
  induction s as [|h|h l s IH] using pair_ind; intros cnt Hb Hc Hr; unfold bytes in Hb;
    repeat (apply Forall_cons_iff in Hb as [? Hb]).
  1-2: eexists; apply fromhex_loop_stop; [done..|right; simpl; destruct rest; auto].
  destruct (decide (dstlen = cnt)) as [->|Hne].
  { eexists. apply fromhex_loop_stop; [done..|by left]. }
  destruct (isxdigit h) eqn:Hh; [destruct (isxdigit l) eqn:Hl|].
  2-3: eexists; apply fromhex_loop_stop; [done..|right; simpl; auto].
  destruct (IH (cnt + 1)) as (r & Er & Hres); [done|lia..|].
  simpl app. rewrite fromhex_loop_pair by (done || lia). rewrite Er. destruct r as [out after].
  eexists. split; [done|]. by apply (fromhex_result_step _ _ _ _ _ (out, after)).
Qed.

(** Decoding a NUL-terminated string with [strn_fromhex], with or without a
    limit on the bytes produced, never reads past the terminator; it consumes
    pairs of hex digits only, produces one byte for each pair, whose upper-case
    encoding is what it consumed, never exceeds the limit, and stops only at the
    limit or at a place where no further pair of hex digits starts. *)
Theorem strn_fromhex_spec (dstlen : Z) (s rest : list Z) (Hd : -1 <= dstlen) (Hs : bytes s) :
  exists r, strn_fromhex dstlen (s ++ 0 :: rest) = Ret r
    /\ fromhex_result dstlen 0 (s ++ 0 :: rest) r.
Proof. apply fromhex_loop_spec; lia || done. Qed.

Lemma strn_fromhex_spec_witness :
  exists r, strn_fromhex (-1) (cstr "beEf0x") = Ret r /\ fromhex_result (-1) 0 (cstr "beEf0x") r.
Proof.
  apply (strn_fromhex_spec (-1) (zs "beEf0x") []); [lia|].
  repeat constructor; vm_compute; discriminate || reflexivity.
Defined.
