(* ===== verification/StrBase64.v ===== *)
(** * Correctness of the Base64 codec (str.c)

    [_base64_encodev] and [_base64_decode] are proved against an interface, a
    type class that says what the symbol table and the character predicates of an
    alphabet promise each other.  The two alphabets of the source are instances.
    The theorems: decoding inverts encoding however the input is split over the
    buffers of the vector, and decoding arbitrary text never trips one of the
    assertions, never reads past the end and never overfills the destination. *)

From Stdlib Require Import ZArith Lia Ascii String.
From stdpp Require Import base tactics list numbers.
From S2P Require Import Prelude Cstring Ctype Str.

Local Open Scope Z_scope.

(** ** The alphabet interface *)

Class Base64Alphabet := {
  al_symbols : list Z;
  al_isdigit : Z -> outcome bool;
  al_ispad : Z -> bool;
  al_todigit : Z -> outcome Z;
  al_symbol : forall i, 0 <= i < 64 -> exists s, al_symbols @@ i = Some s
    /\ al_isdigit s = Ret true /\ al_ispad s = false /\ al_todigit s = Ret i;
  al_pad : exists s, al_symbols @@ 64 = Some s /\ al_isdigit s = Ret false /\ al_ispad s = true;
  al_nul : al_isdigit 0 = Ret false /\ al_ispad 0 = false;
  al_defined : forall c, is_byte c -> c <> 255 ->
    (al_isdigit c = Ret true /\ exists d, al_todigit c = Ret d /\ 0 <= d < 64)
    \/ al_isdigit c = Ret false
}.

(** Deciding equality of outcomes, for the tables. *)
Global Instance outcome_eq_dec {A} `{EqDecision A} : EqDecision (outcome A).
Proof. solve_decision. Defined.

Section tables.
Variables (symbols : list Z) (isd : Z -> outcome bool) (isp : Z -> bool) (dig : Z -> outcome Z).

(** The laws of an alphabet as computable checks. *)
Definition symbol_ok (i : Z) : bool :=
  match symbols @@ i with
  | Some s => bool_decide (isd s = Ret true) && negb (isp s) && bool_decide (dig s = Ret i)
  | None => false
  end.

Definition char_ok (c : Z) : bool :=
  (c =? 255) || bool_decide (isd c = Ret false)
  || (bool_decide (isd c = Ret true)
      && match dig c with Ret d => (0 <=? d) && (d <? 64) | _ => false end).

Lemma symbol_ok_all :
  forallb symbol_ok (seqZ 0 64) = true ->
  forall i, 0 <= i < 64 -> exists s, symbols @@ i = Some s
    /\ isd s = Ret true /\ isp s = false /\ dig s = Ret i.
Proof.
  intros Hall i Hi. rewrite forallb_forall in Hall.
  assert (Hok : symbol_ok i = true) by (apply Hall, list_elem_of_In, elem_of_seqZ; lia).
  unfold symbol_ok in Hok. destruct (symbols @@ i) as [s|]; [|done]. bsplit. eauto.
Qed.

Lemma char_ok_all :
  forallb char_ok (seqZ 0 256) = true ->
  forall c, is_byte c -> c <> 255 ->
    (isd c = Ret true /\ exists d, dig c = Ret d /\ 0 <= d < 64) \/ isd c = Ret false.
Proof.
  intros Hall c Hc Hne. pose proof (all_bytes_dec _ Hall c Hc) as Hok.
  unfold char_ok in Hok. rewrite !orb_true_iff in Hok.
  destruct Hok as [[Hok|Hok]|Hok]; bsplit; [done|by right|left].
  split; [done|]. destruct (dig c) as [d| |]; [|done..]. bsplit. eauto with lia.
Qed.
End tables.

Definition base64_alphabet : Base64Alphabet.
Proof.
  refine {| al_symbols := base64_symbols; al_isdigit := is_base64_digit;
            al_ispad := is_base64_pad; al_todigit := base64_digit |}.
  - apply symbol_ok_all. vm_compute. reflexivity.
  - exists (chr "="). vm_compute. done.
  - vm_compute. done.
  - apply char_ok_all. vm_compute. reflexivity.
Defined.

Definition base64url_alphabet : Base64Alphabet.
Proof.
  refine {| al_symbols := base64url_symbols; al_isdigit := is_base64url_digit;
            al_ispad := is_base64url_pad; al_todigit := base64url_digit |}.
  - apply symbol_ok_all. vm_compute. reflexivity.
  - exists (chr "="). vm_compute. done.
  - vm_compute. done.
  - apply char_ok_all. vm_compute. reflexivity.
Defined.

(** ** Encoding *)

(** Induction three elements at a time. *)
Lemma triple_ind {A} (P : list A -> Prop) :
  P [] -> (forall x, P [x]) -> (forall x y, P [x; y]) ->
  (forall x y z l, P l -> P (x :: y :: z :: l)) -> forall l, P l.
Proof.
  intros H0 H1 H2 H3 l. cut (P l /\ (forall x, P (x :: l)) /\ forall x y, P (x :: y :: l)); [tauto|].
  induction l as [|z l (IH & IH1 & IH2)]; auto.
Qed.

Section alphabet.
Context `{Base64Alphabet}.

Definition sym (i : Z) : Z := default 0 (al_symbols @@ i).
Definition padsym : Z := default 0 (al_symbols @@ 64).

Lemma sym_at i : 0 <= i < 64 -> al_symbols @@ i = Some (sym i).
Proof. intros Hi. unfold sym. destruct (al_symbol i Hi) as (s & -> & _). done. Qed.

Lemma sym_spec i : 0 <= i < 64 ->
  al_isdigit (sym i) = Ret true /\ al_ispad (sym i) = false /\ al_todigit (sym i) = Ret i.
Proof. intros Hi. unfold sym. destruct (al_symbol i Hi) as (s & -> & ?). done. Qed.

Lemma padsym_spec : al_symbols @@ 64 = Some padsym
  /\ al_isdigit padsym = Ret false /\ al_ispad padsym = true.
Proof. unfold padsym. destruct al_pad as (s & -> & ?). done. Qed.

(** The encoding by groups of three bytes. *)
Fixpoint b64_ref (bs : list Z) : list Z :=
  match bs with
  | [] => []
  | [a] => [sym (a / 4); sym (a mod 4 * 16); padsym; padsym]
  | [a; b] => [sym (a / 4); sym (a mod 4 * 16 + b / 16); sym (b mod 16 * 4); padsym]
  | a :: b :: c :: bs =>
    sym (a / 4) :: sym (a mod 4 * 16 + b / 16) :: sym (b mod 16 * 4 + c / 64) :: sym (c mod 64)
    :: b64_ref bs
  end.

Lemma buf0 a : Z.land (Z.shiftl a 4) 0x3f = a mod 4 * 16.
Proof.
  change 0x3f with (Z.ones 6). rewrite Z.land_ones, Z.shiftl_mul_pow2 by lia.
  change (2 ^ 4) with 16. change (2 ^ 6) with 64. dmlia.
Qed.

Lemma buf1 a : Z.land (Z.shiftl a 2) 0x3f = a mod 16 * 4.
Proof.
  change 0x3f with (Z.ones 6). rewrite Z.land_ones, Z.shiftl_mul_pow2 by lia.
  change (2 ^ 2) with 4. change (2 ^ 6) with 64. dmlia.
Qed.

Lemma lor_digit16 x y : 0 <= x < 16 -> Z.lor x (y * 16) = y * 16 + x.
Proof. intros. pose proof (lor_mul_pow2 x y 4 ltac:(lia) ltac:(lia)) as E. change (2 ^ 4) with 16 in E. lia. Qed.

Lemma lor_digit4 x y : 0 <= x < 4 -> Z.lor x (y * 4) = y * 4 + x.
Proof. intros. pose proof (lor_mul_pow2 x y 2 ltac:(lia) ltac:(lia)) as E. change (2 ^ 2) with 4 in E. lia. Qed.

Lemma encode_first a : is_byte a ->
  base64_encode_byte al_symbols 0 0 a = Ret ([sym (a / 4)], 1, a mod 4 * 16).
Proof.
  intros Ha. unfold base64_encode_byte, is_byte in *. rewrite Z.shiftr_div_pow2, buf0 by lia.
  change (2 ^ 2) with 4. rewrite sym_at by dmlia. done.
Qed.

Lemma encode_first' a buf : is_byte a ->
  base64_encode_byte al_symbols 0 buf a = Ret ([sym (a / 4)], 1, a mod 4 * 16).
Proof. intros Ha. by rewrite <- encode_first. Qed.

Lemma encode_second a b : is_byte b ->
  base64_encode_byte al_symbols 1 (a mod 4 * 16) b
  = Ret ([sym (a mod 4 * 16 + b / 16)], 2, b mod 16 * 4).
Proof.
  intros Hb. unfold base64_encode_byte, is_byte in *. rewrite Z.shiftr_div_pow2, buf1 by lia.
  change (2 ^ 4) with 16. rewrite lor_digit16 by dmlia. rewrite sym_at by dmlia. done.
Qed.

Lemma encode_third b c : is_byte c ->
  base64_encode_byte al_symbols 2 (b mod 16 * 4) c
  = Ret ([sym (b mod 16 * 4 + c / 64); sym (c mod 64)], 0, b mod 16 * 4).
Proof.
  intros Hc. unfold base64_encode_byte, is_byte in *. rewrite Z.shiftr_div_pow2 by lia.
  change 0x3f with (Z.ones 6). rewrite Z.land_ones by lia.
  change (2 ^ 6) with 64. rewrite lor_digit4 by dmlia.
  rewrite !sym_at by dmlia. done.
Qed.

(** Splitting the input over the vector makes no difference. *)
Lemma encode_buf_app symbols place buf l1 l2 :
  base64_encode_buf symbols place buf (l1 ++ l2)
  = ('(o, place, buf) ← base64_encode_buf symbols place buf l1;
     '(o', place, buf) ← base64_encode_buf symbols place buf l2;
     Ret (o ++ o', place, buf)).
Proof.
  revert place buf. induction l1 as [|b l1 IH]; intros place buf; simpl.
  - destruct (base64_encode_buf symbols place buf l2) as [[[??]?]| |]; done.
  - destruct (base64_encode_byte symbols place buf b) as [[[o p] bf]| |]; [|done..]. simpl.
    rewrite IH. destruct (base64_encode_buf symbols p bf l1) as [[[o1 p1] b1]| |]; [|done..]. simpl.
    destruct (base64_encode_buf symbols p1 b1 l2) as [[[o2 p2] b2]| |]; [|done..]. simpl.
    by rewrite app_assoc.
Qed.

Lemma encode_iov_concat symbols iov place buf :
  base64_encode_iov symbols place buf iov = base64_encode_buf symbols place buf (concat iov).
Proof.
  revert place buf. induction iov as [|v iov IH]; intros place buf; [done|]. simpl.
  rewrite encode_buf_app. destruct (base64_encode_buf symbols place buf v) as [[[??]?]| |]; [|done..].
  simpl. by rewrite IH.
Qed.

Lemma encode_buf_ref bs : bytes bs -> forall buf, exists o place buf',
  base64_encode_buf al_symbols 0 buf bs = Ret (o, place, buf')
  /\ (t ← (if place =? 0 then Ret [] else s ← or_undef (al_symbols @@ buf'); Ret [s]);
      p ← (match place with
           | 1 => p ← or_undef (al_symbols @@ 64); Ret [p; p]
           | 2 => p ← or_undef (al_symbols @@ 64); Ret [p]
           | _ => Ret []
           end);
      Ret (o ++ t ++ p)) = Ret (b64_ref bs).
Proof.
  destruct padsym_spec as (Hpad & _).
  induction bs as [|a|a b|a b c bs IH] using triple_ind; intros Hb buf; unfold bytes in Hb;
    repeat (apply Forall_cons_iff in Hb as [? Hb]); cbn [base64_encode_buf].
  - by exists [], 0, buf.
  - rewrite encode_first' by done. eexists _, _, _. split; [done|]. simpl.
    rewrite Hpad, sym_at by (unfold is_byte in *; dmlia). done.
  - rewrite encode_first' by done. cbn [mbind outcome_bind].
    rewrite encode_second by done. eexists _, _, _. split; [done|]. simpl.
    rewrite Hpad, sym_at by (unfold is_byte in *; dmlia). done.
  - rewrite encode_first' by done. cbn [mbind outcome_bind].
    rewrite encode_second by done. cbn [mbind outcome_bind].
    rewrite encode_third by done. cbn [mbind outcome_bind].
    destruct (IH Hb (b mod 16 * 4)) as (o & place & buf' & Eo & Et). rewrite Eo.
    eexists _, _, _. split; [done|]. revert Et.
    destruct (if place =? 0 then _ else _) as [t| |]; [|done..]. simpl.
    destruct (match place with 1 => _ | _ => _ end) as [p| |]; [|done..]. simpl.
    intros [= <-]. done.
Qed.

Lemma encodev_ref iov : Forall bytes iov ->
  _base64_encodev al_symbols iov = Ret (b64_ref (concat iov)).
Proof.
  intros Hiov. unfold _base64_encodev. rewrite encode_iov_concat.
  destruct (encode_buf_ref (concat iov)) with (buf := 0) as (o & place & buf' & -> & Et).
  - unfold bytes. by apply Forall_concat.
  - exact Et.
Qed.

Lemma zlen_b64_ref bs : zlen (b64_ref bs) = BASE64_ENCODED_LEN (zlen bs).
Proof.
  unfold BASE64_ENCODED_LEN.
  induction bs as [|a|a b|a b c bs IH] using triple_ind; [done..|].
  cbn [b64_ref]. rewrite !zlen_cons, IH. dmlia.
Qed.

(** ** Decoding what was encoded *)

Lemma lor_digit64 x y : 0 <= x < 64 -> Z.lor (y * 64) x = y * 64 + x.
Proof.
  intros. pose proof (lor_mul_pow2 x y 6 ltac:(lia) ltac:(lia)) as E.
  change (2 ^ 6) with 64 in E. rewrite Z.lor_comm. lia.
Qed.

Lemma decode_first a e : is_byte a -> 0 <= e < 16 ->
  Z.lor (u8 (Z.shiftl (a / 4) 2)) (Z.shiftr (a mod 4 * 16 + e) 4) = a.
Proof.
  unfold is_byte. intros Ha He. rewrite Z.shiftl_mul_pow2, Z.shiftr_div_pow2 by lia.
  change (2 ^ 2) with 4. change (2 ^ 4) with 16. rewrite uN_small by dmlia.
  rewrite Z.lor_comm, lor_digit4 by dmlia. dmlia.
Qed.

Lemma decode_second a b e : is_byte a -> is_byte b -> 0 <= e < 4 ->
  Z.lor (u8 (Z.shiftl (a mod 4 * 16 + b / 16) 4)) (Z.shiftr (b mod 16 * 4 + e) 2) = b.
Proof.
  unfold is_byte. intros Ha Hb He. rewrite Z.shiftl_mul_pow2, Z.shiftr_div_pow2 by lia.
  change (2 ^ 2) with 4. change (2 ^ 4) with 16.
  assert (u8 ((a mod 4 * 16 + b / 16) * 16) = b / 16 * 16) as ->
    by (unfold uN; change (2 ^ 8) with 256; dmlia).
  rewrite Z.lor_comm, lor_digit16 by dmlia. dmlia.
Qed.

Lemma decode_third b c : is_byte b -> is_byte c ->
  Z.lor (u8 (Z.shiftl (b mod 16 * 4 + c / 64) 6)) (c mod 64) = c.
Proof.
  unfold is_byte. intros Hb Hc. rewrite Z.shiftl_mul_pow2 by lia. change (2 ^ 6) with 64.
  assert (u8 ((b mod 16 * 4 + c / 64) * 64) = c / 64 * 64) as ->
    by (unfold uN; change (2 ^ 8) with 256; dmlia).
  rewrite lor_digit64 by dmlia. dmlia.
Qed.

Section decode.
Variables (skip : option (Z -> bool)) (dstsiz flags : Z).
Let loop := b64_loop al_isdigit al_ispad al_todigit skip true dstsiz true flags.

(** [digits] counts whole groups: the place of the next digit is known. *)
Lemma place_of k p : 0 <= p < 4 -> Z.land (4 * k + p) 3 = p.
Proof. intros. change 3 with (Z.ones 2). rewrite Z.land_ones by lia. change (2 ^ 2) with 4. dmlia. Qed.

Lemma loop_digit avail buf k p n fp out i rest :
  0 <= p < 4 -> 0 <= i < 64 -> n < dstsiz ->
  loop avail (B64State buf (4 * k + p) 0 n fp out) (sym i :: rest)
  = loop (avail - 1) (b64_store (B64State buf (4 * k + p + 1) 0 n fp out) p i) rest.
Proof.
  intros Hp Hi Hn. destruct (sym_spec i Hi) as (Hd & Hs & Ht).
  unfold loop. cbn [b64_loop orb]. unfold b64_body. cbn [rd head or_undef mbind outcome_bind].
  rewrite Hd, Hs. cbn. rewrite place_of by done.
  assert ((n <? dstsiz) = true) as -> by lia. cbn. rewrite Ht. done.
Qed.

Lemma loop_group avail buf k n fp out a b c rest :
  is_byte a -> is_byte b -> is_byte c -> n + 2 < dstsiz -> exists buf',
  loop avail (B64State buf (4 * k) 0 n fp out)
    (sym (a / 4) :: sym (a mod 4 * 16 + b / 16) :: sym (b mod 16 * 4 + c / 64) :: sym (c mod 64) :: rest)
  = loop (avail - 4) (B64State buf' (4 * (k + 1)) 0 (n + 3) fp (out ++ [a; b; c])) rest.
Proof.
  intros Ha Hb Hc Hn. eexists. rewrite <- (Z.add_0_r (4 * k)).
  rewrite loop_digit by (unfold is_byte in *; dmlia). cbn [b64_store b_buf b_digits b_pads b_bytes b_first_pad b_out].
  replace (4 * k + 0 + 1) with (4 * k + 1) by lia.
  rewrite loop_digit by (unfold is_byte in *; dmlia). cbn [b64_store b_buf b_digits b_pads b_bytes b_first_pad b_out].
  replace (4 * k + 1 + 1) with (4 * k + 2) by lia.
  rewrite loop_digit by (unfold is_byte in *; dmlia). cbn [b64_store b_buf b_digits b_pads b_bytes b_first_pad b_out].
  replace (4 * k + 2 + 1) with (4 * k + 3) by lia.
  rewrite loop_digit by (unfold is_byte in *; dmlia). cbn [b64_store b_buf b_digits b_pads b_bytes b_first_pad b_out].
  rewrite decode_first, decode_second, decode_third by (unfold is_byte in *; dmlia).
  rewrite <- !app_assoc. simpl app.
  replace (4 * k + 3 + 1) with (4 * (k + 1)) by lia.
  replace (n + 1 + 1 + 1) with (n + 3) by lia.
  replace (avail - 1 - 1 - 1 - 1) with (avail - 4) by lia. reflexivity.
Qed.

(** The pads and the terminator. *)
Lemma loop_pad_first avail buf k p n fp out rest :
  2 <= p < 4 ->
  loop avail (B64State buf (4 * k + p) 0 n fp out) (padsym :: rest)
  = loop (avail - 1) (B64State buf (4 * k + p) 1 n (Some (padsym :: rest)) out) rest.
Proof.
  intros Hp. destruct padsym_spec as (_ & Hd & Hs).
  unfold loop. cbn [b64_loop orb]. unfold b64_body. cbn [rd head or_undef mbind outcome_bind].
  rewrite Hd, Hs. cbn. rewrite place_of by lia.
  assert ((2 <=? p) = true) as -> by lia. done.
Qed.

Lemma loop_pad_second avail buf k n fp out rest :
  loop avail (B64State buf (4 * k + 2) 1 n fp out) (padsym :: rest)
  = loop (avail - 1) (B64State buf (4 * k + 2) 2 n fp out) rest.
Proof.
  destruct padsym_spec as (_ & Hd & Hs).
  unfold loop. cbn [b64_loop orb]. unfold b64_body. cbn [rd head or_undef mbind outcome_bind].
  rewrite Hd, Hs. cbn. rewrite place_of by lia. done.
Qed.

Definition skips_nul : bool := match skip with Some p => p 0 | None => false end.

Lemma loop_nul avail buf k p pads n fp out rest :
  skips_nul = false -> 0 <= p < 4 -> (pads = 0 \/ pads = 1 /\ p = 3 \/ pads = 2) ->
  loop avail (B64State buf (4 * k + p) pads n fp out) (0 :: rest)
  = Ret (B64State buf (4 * k + p) pads n fp out, 0 :: rest).
Proof.
  intros Hskip Hp Hpads. destruct al_nul as [Hd Hs].
  unfold loop. cbn [b64_loop orb]. unfold b64_body. cbn [rd head or_undef mbind outcome_bind].
  rewrite Hd, Hs. fold skips_nul. rewrite Hskip. cbn. rewrite place_of by lia.
  destruct Hpads as [->|[[-> ->]| ->]]; done.
Qed.

(** Push one digit through the loop and normalise the state. *)
Ltac step_digit :=
  rewrite loop_digit by (unfold is_byte in *; dmlia);
  cbn [b64_store b_buf b_digits b_pads b_bytes b_first_pad b_out].

Lemma loop_ref bs : bytes bs -> skips_nul = false -> forall avail buf k n fp out rest,
  n + zlen bs <= dstsiz -> exists st,
  loop avail (B64State buf (4 * k) 0 n fp out) (b64_ref bs ++ 0 :: rest) = Ret (st, 0 :: rest)
  /\ b_bytes st = n + zlen bs /\ b_out st = out ++ bs.
Proof.
  intros Hb Hskip. induction bs as [|a|a b|a b c bs IH] using triple_ind;
    intros avail buf k n fp out rest Hn; unfold bytes in Hb;
    repeat (apply Forall_cons_iff in Hb as [? Hb]); rewrite ?zlen_cons in *;
    rewrite <- (Z.add_0_r (4 * k)); simpl b64_ref; simpl app.
  - rewrite loop_nul by (done || lia). eexists. split; [done|]. simpl. rewrite app_nil_r.
    unfold zlen. simpl. split; [lia|done].
  - unfold zlen in Hn; simpl in Hn.
    step_digit. replace (4 * k + 0 + 1) with (4 * k + 1) by lia.
    replace (a mod 4 * 16) with (a mod 4 * 16 + 0) by lia.
    step_digit. replace (4 * k + 1 + 1) with (4 * k + 2) by lia.
    rewrite loop_pad_first, loop_pad_second, loop_nul by (done || lia).
    eexists. split; [done|]. simpl. rewrite decode_first by (done || lia).
    unfold zlen. simpl. split; [lia|done].
  - unfold zlen in Hn; simpl in Hn.
    step_digit. replace (4 * k + 0 + 1) with (4 * k + 1) by lia.
    step_digit. replace (4 * k + 1 + 1) with (4 * k + 2) by lia.
    replace (b mod 16 * 4) with (b mod 16 * 4 + 0) by lia.
    step_digit. replace (4 * k + 2 + 1) with (4 * k + 3) by lia.
    rewrite loop_pad_first, loop_nul by (done || lia).
    eexists. split; [done|]. simpl.
    rewrite decode_first, decode_second by (done || unfold is_byte in *; dmlia).
    unfold zlen. simpl. rewrite <- app_assoc. split; [lia|done].
  - pose proof (zlen_nonneg bs). rewrite Z.add_0_r.
    edestruct loop_group as [buf' ->]; [done..|lia|].
    destruct (IH Hb (avail - 4) buf' (k + 1) (n + 3) fp (out ++ [a; b; c]) rest)
      as (st & -> & Hbytes & Hout); [lia|].
    exists st. split; [done|]. rewrite Hout, <- app_assoc. split; [lia|done].
Qed.
End decode.
End alphabet.

(** C36: for either alphabet, and however the input bytes are spread over the
    buffers of the vector, [_base64_encodev] writes [BASE64_ENCODED_LEN] symbols,
    and [_base64_decode] of these symbols, NUL-terminated and with room for the
    result, returns the number of input bytes, the input bytes, and a pointer to
    the terminator, whether or not the caller asks for the pointer and whatever
    the flags. *)
Theorem base64_roundtrip `{Base64Alphabet} (iov : list (list Z)) (rest : list Z)
    (dstsiz flags : Z) (afterp : bool) (skip : option (Z -> bool))
    (Hiov : Forall bytes iov) (Hsize : zlen (concat iov) <= dstsiz)
    (Hskip : skips_nul skip = false) :
  exists e, _base64_encodev al_symbols iov = Ret e
    /\ zlen e = BASE64_ENCODED_LEN (zlen (concat iov))
    /\ _base64_decode al_isdigit al_ispad al_todigit true dstsiz (e ++ 0 :: rest) 0 afterp flags skip
       = Ret (zlen (concat iov), concat iov, 0 :: rest).
Proof.
  exists (b64_ref (concat iov)). split; [by apply encodev_ref|]. split; [apply zlen_b64_ref|].
  unfold _base64_decode. simpl (0 =? 0).
  destruct (loop_ref skip dstsiz flags (concat iov)) with (avail := 0) (buf := 0) (k := 0) (n := 0)
    (fp := @None (list Z)) (out := @nil Z) (rest := rest) as (st & E & Hbytes & Hout).
  - unfold bytes. by apply Forall_concat.
  - done.
  - done.
  - change (4 * 0) with 0 in E. rewrite E. simpl. rewrite Hbytes, Hout. by destruct afterp.
Qed.

Lemma base64_roundtrip_witness :
  let iov := [[0xde; 0xad]; []; [0xbe; 0xef; 0x00]] in
  exists e, base64url_encodev iov = Ret e /\ zlen e = 8
    /\ base64url_decode true 5 (e ++ [0]) 0 false 0 (Some isspace) = Ret (5, concat iov, [0]).
Proof.
  apply (@base64_roundtrip base64url_alphabet [[0xde; 0xad]; []; [0xbe; 0xef; 0x00]] [] 5 0 false (Some isspace));
    [|vm_compute; discriminate|reflexivity].
  repeat constructor; vm_compute; discriminate || reflexivity.
Defined.

(** ** Decoding arbitrary text *)

Section decode_safe.
Context `{Base64Alphabet}.
Variables (skip : option (Z -> bool)) (dst : bool) (dstsiz : Z) (unbounded : bool) (flags : Z).
Variable src0 : list Z.
Hypothesis skip_nul : skips_nul skip = false.

(** A pointer into the source, to a byte that can be read. *)
Definition points_into (p : list Z) : Prop := p `suffix_of` src0 /\ p <> [].

(** The loop invariant.  The second clause is what the assertions need. *)
Record b64_inv (st : b64_state) : Prop := {
  bi_buf : is_byte (b_buf st);
  bi_pads : b_pads st = 0 \/
    ((b_pads st = 1 \/ b_pads st = 2)
     /\ (Z.land (b_digits st) 3 = 2 \/ Z.land (b_digits st) 3 = 3)
     /\ exists fp, b_first_pad st = Some fp /\ points_into fp);
  bi_out : bytes (b_out st);
  bi_room : zlen (b_out st) <= b_bytes st;
  bi_dst : zlen (b_out st) <= Z.max 0 dstsiz;
  bi_count : Z.land flags B64_CONSUME_ALL = 0 -> b_bytes st = zlen (b_out st)
}.

Lemma place_cases d : Z.land d 3 = 0 \/ Z.land d 3 = 1 \/ Z.land d 3 = 2 \/ Z.land d 3 = 3.
Proof.
  assert (Z.land d 3 = d mod 4) as -> by (change 3 with (Z.ones 2); by rewrite Z.land_ones).
  dmlia.
Qed.

Lemma lor_byte x y : is_byte x -> is_byte y -> is_byte (Z.lor x y).
Proof.
  unfold is_byte. intros Hx Hy. split; [apply Z.lor_nonneg; lia|].
  destruct (decide (Z.lor x y = 0)) as [->|Hne]; [lia|].
  apply Z.log2_lt_cancel. rewrite Z.log2_lor by lia. change (Z.log2 256) with 8.
  assert (Hlog : forall z, 0 <= z < 256 -> Z.log2 z < 8).
  { intros z Hz. destruct (decide (z = 0)) as [->|]; [reflexivity|]. apply Z.log2_lt_pow2; lia. }
  apply Z.max_lub_lt; auto.
Qed.

Lemma b64_store_inv st d :
  b64_inv st -> b_pads st = 0 -> 0 <= d < 64 -> b_bytes st < dstsiz ->
  forall dg, b64_inv (b64_store (B64State (b_buf st) dg (b_pads st) (b_bytes st) (b_first_pad st) (b_out st))
                        (Z.land (b_digits st) 3) d).
Proof.
  intros [Hbuf _ Hout Hroom Hdst Hcnt] Hp Hd Hlt dg.
  assert (Hu : forall x, is_byte (u8 x)) by (intros; unfold is_byte; apply uN_range; lia).
  assert (Hsh : forall k, 0 <= k -> is_byte (Z.shiftr d k)).
  { intros k Hk. unfold is_byte. rewrite Z.shiftr_div_pow2 by done.
    assert (0 < 2 ^ k) by lia. split; [apply Z.div_pos; lia|].
    apply Z.div_lt_upper_bound; nia. }
  assert (Hd' : is_byte d) by (unfold is_byte; lia).
  assert (Happ : forall x, is_byte x -> bytes (b_out st ++ [x])).
  { intros x Hx. apply Forall_app. split; [done|]. by apply Forall_singleton. }
  assert (Hlen : forall x : Z, zlen (b_out st ++ [x]) = zlen (b_out st) + 1)
    by (intros; by rewrite zlen_app).
  destruct (place_cases (b_digits st)) as [->|[->|[->| ->]]]; split; simpl;
    rewrite ?Hlen; auto using lor_byte with lia; intros; try specialize (Hcnt ltac:(done)); lia.
Qed.

Let body := b64_body al_isdigit al_ispad al_todigit skip dst dstsiz flags.
Let loop := b64_loop al_isdigit al_ispad al_todigit skip dst dstsiz unbounded flags.

(** What one pass of the loop guarantees. *)
Definition next_ok (c : Z) (n : b64_next) : Prop :=
  match n with
  | BContinue st => b64_inv st /\ c <> 0
  | BBreak st src => b64_inv st /\ points_into src
  end.

Lemma inv_digits st dg pads fp :
  b64_inv st ->
  (pads = 0 \/ ((pads = 1 \/ pads = 2) /\ (Z.land dg 3 = 2 \/ Z.land dg 3 = 3)
                /\ exists p, fp = Some p /\ points_into p)) ->
  b64_inv (B64State (b_buf st) dg pads (b_bytes st) fp (b_out st)).
Proof. intros [] ?. by split. Qed.

Lemma skip_pred_nul : (match skip with Some p => p 0 | None => false end) = false.
Proof. exact skip_nul. Qed.

Lemma b64_body_ok st c src :
  b64_inv st -> is_byte c -> c <> 255 -> points_into (c :: src) ->
  returns (body st (c :: src)) (next_ok c).
Proof.
  intros Hinv Hc Hne Hsrc. unfold body, b64_body. cbn [rd head or_undef mbind outcome_bind].
  assert (Hd : exists isd, al_isdigit c = Ret isd
    /\ (isd = true -> exists d, al_todigit c = Ret d /\ 0 <= d < 64)
    /\ (c = 0 -> isd = false /\ al_ispad c = false)).
  { destruct al_nul as [N1 N2].
    destruct (al_defined c Hc Hne) as [[E Hdig]|E]; eexists; (split; [exact E|]);
      split; try done; intros ->; [congruence|done]. }
  destruct Hd as (isd & -> & Hdig & Hnul). cbn [mbind outcome_bind].
  destruct (negb isd && negb (al_ispad c) && _) eqn:Hskip.
  { simpl. split; [done|]. intros ->. rewrite skip_pred_nul in Hskip.
    rewrite andb_false_r in Hskip. done. }
  assert (Hcont : isd = true \/ al_ispad c = true -> c <> 0).
  { intros Hor ->. destruct (Hnul eq_refl) as [-> Hp]. rewrite Hp in Hor. by destruct Hor. }
  destruct (bi_pads st Hinv) as [Hp|([Hp|Hp] & Hplace & fp & Hfp & Hin)]; rewrite Hp; simpl.
  - destruct (al_ispad c && (2 <=? _)) eqn:Hpad; simpl.
    { bsplit. split; [|auto]. apply inv_digits; [done|]. right. split; [by left|].
      split; [|eauto]. destruct (place_cases (b_digits st)) as [?|[?|[?|?]]]; lia. }
    destruct isd; simpl; [|done].
    destruct (Hdig eq_refl) as (d & Ed & Hd).
    destruct (dst && (b_bytes st <? dstsiz)) eqn:Hw; simpl.
    { bsplit. rewrite Ed. simpl. split; [|auto]. rewrite <- Hp. by apply b64_store_inv. }
    destruct (negb (Z.land flags B64_CONSUME_ALL =? 0)) eqn:Hf; simpl.
    + bsplit. split; [|auto]. destruct Hinv as [? ? ? ? ? ?].
      split; simpl; [done|by left|done|destruct (_ =? 0); lia|done|done].
    + split; [|done]. apply inv_digits; [done|by left].
  - destruct Hplace as [Hpl|Hpl]; rewrite Hpl; simpl; [|done].
    destruct (al_ispad c) eqn:Hpad; simpl.
    + split; [|auto]. apply inv_digits; [done|]. right. split; [by right|]. split; [|eauto].
      by left.
    + rewrite Hfp. simpl. done.
  - done.
Qed.

(** The text can be read as far as decoding goes: a bound inside the object, or
    a terminator. *)
Definition terminated (src : list Z) : Prop :=
  exists s rest, src = s ++ 0 :: rest /\ Forall (fun c => is_byte c /\ c <> 255) s.

Definition text_ok (avail : Z) (src : list Z) : Prop :=
  (unbounded = false /\ avail <= zlen src /\ Forall (fun c => is_byte c /\ c <> 255) src)
  \/ terminated src.

Lemma terminated_tail c src : terminated (c :: src) -> c <> 0 -> terminated src.
Proof.
  intros (s & rest & E & Hall) Hc. destruct s as [|c' s]; simplify_eq/=.
  apply Forall_cons_iff in Hall as [_ Hall]. by exists s, rest.
Qed.

Lemma b64_inv_init : b64_inv (B64State 0 0 0 0 None []).
Proof. split; simpl; [done|by left|constructor|done|unfold zlen; simpl; lia|done]. Qed.

Lemma text_ok_head avail src :
  text_ok avail src -> unbounded || (0 <? avail) = true ->
  exists c src', src = c :: src' /\ is_byte c /\ c <> 255 /\ (c <> 0 -> text_ok (avail - 1) src').
Proof.
  intros [(-> & Ha & Hall)|(s & rest & -> & Hall)] Hgo.
  - simpl in Hgo. bsplit. destruct src as [|c src]; [unfold zlen in Ha; simpl in Ha; lia|].
    apply Forall_cons_iff in Hall as [[??] Hall]. exists c, src. split_and!; [done..|].
    intros _. left. rewrite zlen_cons in Ha. split_and!; [done|lia|done].
  - destruct s as [|c s]; simpl.
    + exists 0, rest. split_and!; [done|unfold is_byte; lia|lia|done].
    + apply Forall_cons_iff in Hall as [[??] Hall]. exists c, (s ++ 0 :: rest).
      split_and!; [done..|]. intros _. right. by exists s, rest.
Qed.

Lemma b64_loop_ok src : forall avail st,
  b64_inv st -> text_ok avail src -> src `suffix_of` src0 ->
  returns (loop avail st src) (fun r => b64_inv r.1 /\ r.2 `suffix_of` src0
    /\ (r.2 = [] -> ~ terminated src)).
Proof.
  induction src as [|c src IH]; intros avail st Hinv Htext Hsuf; unfold loop; cbn [b64_loop].
  - destruct (unbounded || (0 <? avail)) eqn:Hgo.
    + destruct (text_ok_head _ _ Htext Hgo) as (? & ? & ? & _). done.
    + simpl. split_and!; [done..|]. intros _ (s & rest & E & _). by destruct s.
  - destruct (unbounded || (0 <? avail)) eqn:Hgo; [|simpl; done].
    destruct (text_ok_head _ _ Htext Hgo) as (? & ? & [= <- <-] & Hc & Hne & Htail).
    eapply returns_bind; [by apply b64_body_ok|].
    intros [st'|st' src'] Hnext; simpl in Hnext.
    + destruct Hnext as [Hinv' Hc0]. eapply returns_mono.
      { apply IH; [done|auto|]. etrans; [|exact Hsuf]. by apply suffix_cons_r. }
      intros r (? & ? & Hr). split_and!; [done..|].
      intros Hnil Hterm. exact (Hr Hnil (terminated_tail _ _ Hterm Hc0)).
    + destruct Hnext as [Hinv' [Hs Hnn]]. simpl. done.
Qed.
End decode_safe.

(** Decoding any text in either alphabet is safe.  When the text can be read
    up to the given length, or is NUL-terminated (and then the caller may omit
    [afterp]), and holds no byte 255 before that, [_base64_decode] returns: none
    of its assertions fails and nothing is read outside the text, for any
    destination size, flags and skip predicate that does not skip NULs.  It
    writes at most [dstsiz] bytes, [*afterp] points into the text, and without
    [B64_CONSUME_ALL] the return value is the number of bytes written, or zero
    when the caller gave no [afterp] and the text does not end there. *)
Theorem base64_decode_safe `{Base64Alphabet} (dst : bool) (dstsiz : Z) (src : list Z) (srclen : Z)
    (afterp : bool) (flags : Z) (skip : option (Z -> bool))
    (Hskip : skips_nul skip = false)
    (Htext : text_ok (srclen =? 0) srclen src)
    (Hafter : afterp = true \/ terminated src) :
  exists n out after,
    _base64_decode al_isdigit al_ispad al_todigit dst dstsiz src srclen afterp flags skip = Ret (n, out, after)
    /\ bytes out /\ zlen out <= Z.max 0 dstsiz /\ after `suffix_of` src
    /\ (Z.land flags B64_CONSUME_ALL = 0 -> n = zlen out \/ (afterp = false /\ n = 0)).
Proof.
  unfold _base64_decode.
  destruct (returns_inv _ _ (b64_loop_ok skip dst dstsiz (srclen =? 0) flags src Hskip src srclen
              (B64State 0 0 0 0 None []) (b64_inv_init _ _ _) Htext ltac:(done)))
    as ([st p] & -> & [] & Hsuf & Hnil). simpl in *.
  destruct afterp; [by eexists _, _, _; split_and!; auto|].
  destruct Hafter as [|Hterm]; [done|].
  destruct p as [|c p]; [by destruct (Hnil eq_refl)|]. simpl.
  eexists _, _, _. split_and!; [done..|]. intros Hf. destruct (c =? 0); auto.
Qed.

Lemma base64_decode_safe_witness :
  exists n out after,
    base64_decode true 2 (cstr "QUJD RE=x") 0 false 0 (Some isspace) = Ret (n, out, after)
    /\ bytes out /\ zlen out <= 2 /\ after `suffix_of` cstr "QUJD RE=x"
    /\ (0 = 0 -> n = zlen out \/ (false = false /\ n = 0)).
Proof.
  assert (Ht : terminated (cstr "QUJD RE=x")).
  { exists (zs "QUJD RE=x"), []. split; [reflexivity|].
    repeat constructor; vm_compute; discriminate || reflexivity. }
  apply (@base64_decode_safe base64_alphabet true 2 (cstr "QUJD RE=x") 0 false 0 (Some isspace));
    [reflexivity|by right|by right].
Defined.
