(* ===== verification/Strbuf.v ===== *)
(** * Bounded string assembly (strbuf.c, strbuf.h)

    A [struct strbuf] holds three pointers into (or just outside) one backing
    buffer.  The model keeps them relative to [start]: [sb_null] says that
    [start] is NULL, [sb_end] is [end - start] ([None] for a NULL [end]),
    [sb_current] is [current - start].  The backing buffer itself is the list of
    bytes of the object at [start]; every write is checked against its length.
    printf formatting is the C library's: [strbuf_sprintf] takes the text that
    [vsprintf] would produce. *)

From Stdlib Require Import ZArith Lia Ascii String.
From stdpp Require Import base tactics list numbers.
From S2P Require Import Prelude Cstring Ctype Str.

Local Open Scope Z_scope.

Record strbuf := Strbuf {
  sb_null : bool;
  sb_end : option Z;
  sb_current : Z
}.

(** A store into the backing buffer. *)
Definition poke (m : list Z) (i v : Z) : outcome (list Z) :=
  if (0 <=? i) && (i <? zlen m) then Ret (<[Z.to_nat i := v]> m) else Undef.

(** Order of two pointers given by their offsets from [start].  When [start] is
    NULL the offsets are the addresses themselves, which compare as unsigned
    numbers: [end] of a NULL buffer of size zero is the highest address. *)
Definition ptr_lt `{Arch} (sb : strbuf) (p q : Z) : bool :=
  if sb_null sb then sz p <? sz q else p <? q.

(** [sb->end && current > end]: also [strbuf_overrun]. *)
Definition strbuf_overrun `{Arch} (sb : strbuf) : bool :=
  match sb_end sb with Some e => ptr_lt sb e (sb_current sb) | None => false end.

(** [!sb->end || sb->current < sb->end] *)
Definition has_space `{Arch} (sb : strbuf) : bool :=
  match sb_end sb with Some e => ptr_lt sb (sb_current sb) e | None => true end.

Definition set_current (sb : strbuf) (c : Z) : strbuf := Strbuf (sb_null sb) (sb_end sb) c.

Definition strbuf_reset (sb : strbuf) (m : list Z) : outcome (strbuf * list Z) :=
  let sb := set_current sb 0 in
  if sb_null sb then Ret (sb, m) else m ← poke m 0 0; Ret (sb, m).

(** [size] is -1 for a buffer of unknown size. *)
Definition strbuf_init (null : bool) (size : Z) (m : list Z) : outcome (strbuf * list Z) :=
  strbuf_reset (Strbuf null (if 0 <=? size then Some (size - 1) else None) 0) m.

(** The copying loop [for (; n && ( *c = *text ); --n, ++c, ++text)]. *)
Fixpoint ncat_loop (n : nat) (c : Z) (text m : list Z) : outcome (Z * list Z) :=
  match n with
  | O => Ret (c, m)
  | S n =>
    t ← rd text;
    m ← poke m c t;
    if t =? 0 then Ret (c, m) else ncat_loop n (c + 1) (tail text) m
  end.

Definition strbuf_ncat `{Arch} (sb : strbuf) (m text : list Z) (len : Z) : outcome (strbuf * list Z) :=
  m ← (if negb (sb_null sb) && has_space sb then
         let n := match sb_end sb with Some e => Z.min (e - sb_current sb) len | None => len end in
         '(c, m) ← ncat_loop (Z.to_nat n) (sb_current sb) text m;
         poke m c 0
       else Ret m);
  Ret (set_current sb (sb_current sb + len), m).

(** The two copying loops of [strbuf_puts]; [n] is [None] for the unlimited one. *)
Fixpoint puts_loop (n : option nat) (c : Z) (text m : list Z) {struct text} : outcome (Z * list Z * list Z) :=
  match n with
  | Some O => Ret (c, text, m)
  | _ =>
    match text with
    | [] => Undef
    | t :: text' =>
      m ← poke m c t;
      if t =? 0 then Ret (c, text, m)
      else puts_loop (option_map Nat.pred n) (c + 1) text' m
    end
  end.

Definition strbuf_puts `{Arch} (sb : strbuf) (m text : list Z) : outcome (strbuf * list Z) :=
  '(c, text, m) ←
    (if sb_null sb then Ret (sb_current sb, text, m)
     else match sb_end sb with
       | None => puts_loop None (sb_current sb) text m
       | Some e =>
         if ptr_lt sb (sb_current sb) e then
           '(c, text, m) ← puts_loop (Some (Z.to_nat (e - sb_current sb))) (sb_current sb) text m;
           m ← poke m c 0;
           Ret (c, text, m)
         else Ret (sb_current sb, text, m)
       end);
  n ← strlen text;
  Ret (set_current sb (c + n), m).

(** [for (i = 0; i < strlen && p < e; ++i) *p++ = ...] *)
Fixpoint sb_tohex_loop (n : nat) (i p e : Z) (data m : list Z) : outcome (list Z) :=
  match n with
  | O => Ret m
  | S n =>
    if p <? e then
      b ← rd data;
      if Z.land i 1 =? 0
      then d ← or_undef (hexdigit_upper @@ Z.shiftr b 4);
           m ← poke m p d; sb_tohex_loop n (i + 1) (p + 1) e data m
      else d ← or_undef (hexdigit_upper @@ Z.land b 0xf);
           m ← poke m p d; sb_tohex_loop n (i + 1) (p + 1) e (tail data) m
    else Ret m
  end.

Definition strbuf_tohex `{Arch} (sb : strbuf) (m : list Z) (strlen : Z) (data : list Z)
    : outcome (strbuf * list Z) :=
  let p := sb_current sb in
  let sb := set_current sb (sb_current sb + strlen) in
  if sb_null sb then Ret (sb, m) else
  let e := match sb_end sb with
           | Some e => if e <? sb_current sb then e else sb_current sb
           | None => sb_current sb
           end in
  m ← sb_tohex_loop (Z.to_nat strlen) 0 p e data m;
  m ← poke m e 0;
  Ret (sb, m).

Definition strbuf_putc `{Arch} (sb : strbuf) (m : list Z) (ch : Z) : outcome (strbuf * list Z) :=
  m ← (if negb (sb_null sb) && has_space sb
       then m ← poke m (sb_current sb) ch; poke m (sb_current sb + 1) 0
       else Ret m);
  Ret (set_current sb (sb_current sb + 1), m).

(** Storing a run of bytes: what [vsprintf] and [vsnprintf] do. *)
Fixpoint poke_all (m : list Z) (i : Z) (text : list Z) : outcome (list Z) :=
  match text with
  | [] => Ret m
  | c :: text => m ← poke m i c; poke_all m (i + 1) text
  end.

(** [strbuf_vsprintf] when the formatted text is [out] (so [n] = its length). *)
Definition strbuf_vsprintf `{Arch} (sb : strbuf) (m out : list Z) : outcome (strbuf * list Z) :=
  let n := zlen out in
  m ← (if negb (sb_null sb) && bool_decide (sb_end sb = None)
       then poke_all m (sb_current sb) (out ++ [0])
       else match sb_end sb with
         | Some e =>
           if negb (sb_null sb) && ptr_lt sb (sb_current sb) e then
             let space := e - sb_current sb + 1 in
             m ← poke_all m (sb_current sb) (take (Z.to_nat (space - 1)) out ++ [0]);
             if space <=? n then poke m e 0 else Ret m
           else Ret m
         | None => Ret m
         end);
  Ret (set_current sb (sb_current sb + n), m).

Definition strbuf_sprintf `{Arch} := @strbuf_vsprintf _.

(** Offsets, from [start], of the pointers these return. *)
Definition strbuf_end `{Arch} (sb : strbuf) : Z :=
  match sb_end sb with
  | Some e => if ptr_lt sb e (sb_current sb) then e else sb_current sb
  | None => sb_current sb
  end.

Definition strbuf_substr `{Arch} (sb : strbuf) (offset : Z) : option Z :=
  if sb_null sb then None
  else if offset <? 0 then
    let s := strbuf_end sb + offset in Some (if s <? 0 then 0 else s)
  else match sb_end sb with
    | Some e => Some (if e <? offset then e else offset)
    | None => Some offset
    end.

Definition strbuf_trunc `{Arch} (sb : strbuf) (m : list Z) (offset : Z) : outcome (strbuf * list Z) :=
  let sb :=
    if offset <? 0 then
      let e := strbuf_end sb in
      set_current sb (if offset <=? 0 - e then 0 else e + offset)
    else if ptr_lt sb offset (sb_current sb) then set_current sb offset else sb in
  m ← (if negb (sb_null sb) && has_space sb then poke m (sb_current sb) 0 else Ret m);
  Ret (sb, m).

Definition strbuf_size (sb : strbuf) : Z :=
  match sb_end sb with Some e => e + 1 | None => -1 end.
Definition strbuf_len `{Arch} (sb : strbuf) : Z := strbuf_end sb.
Definition strbuf_remaining `{Arch} (sb : strbuf) : Z :=
  match sb_end sb with
  | None => SIZE_MAX
  | Some e => if ptr_lt sb e (sb_current sb) then 0 else sz (e - sb_current sb)
  end.
Definition strbuf_count (sb : strbuf) : Z := sb_current sb.
Definition strbuf_is_empty (sb : strbuf) : bool :=
  sb_null sb && bool_decide (sb_end sb = None) && (sb_current sb =? 0).

(** ** Formatting scaled numbers (str.c) *)

(** The search for a scale factor that divides [value]. *)
Definition scale_down (value : Z) : Z * option Z :=
  match list_find (fun e => value mod snd e = 0) scale_factors with
  | Some (_, (symbol, factor)) => (value / factor, Some symbol)
  | None => (value, None)
  end.

(** Both widths have the same body; the [%lu]/[%llu] conversion prints the value
    in decimal.  The result is what is returned and the buffer afterwards. *)
Definition scaled_to_str `{Arch} (m : list Z) (len value : Z) : outcome (bool * list Z) :=
  let '(value, symbol) := scale_down value in
  '(b, m) ← strbuf_init false len m;
  '(b, m) ← strbuf_sprintf b m (decimal value);
  '(b, m) ← (match symbol with Some s => strbuf_putc b m s | None => Ret (b, m) end);
  Ret (negb (strbuf_overrun b), m).

Definition uint32_scaled_to_str `{Arch} := @scaled_to_str _.
Definition uint64_scaled_to_str `{Arch} := @scaled_to_str _.
