(* ===== verification/StrbufSpec.v ===== *)
(** * Correctness of bounded string assembly (strbuf.c)

    The abstract state of a strbuf is the whole text appended to it; the backing
    buffer holds as much of it as fits, NUL-terminated, and nothing outside the
    buffer changes.  Every operation refines its effect on the abstract text. *)

From Stdlib Require Import ZArith Lia Ascii String.
From stdpp Require Import base tactics list numbers.
From S2P Require Import Prelude Cstring Ctype Str StrHex Strbuf.

Local Open Scope Z_scope.

(** ** Stores *)

Lemma poke_app a x b v : poke (a ++ x :: b) (zlen a) v = Ret (a ++ v :: b).
Proof.
  unfold poke. pose proof (zlen_nonneg a). pose proof (zlen_nonneg b).
  rewrite zlen_app, zlen_cons.
  assert ((0 <=? zlen a) && (zlen a <? zlen a + (1 + zlen b)) = true) as -> by lia.
  unfold zlen. rewrite Nat2Z.id. f_equal. rewrite insert_app_r_alt by lia.
  by rewrite Nat.sub_diag.
Qed.

Lemma poke_all_app a b t i :
  i = zlen a -> (length t <= length b)%nat ->
  poke_all (a ++ b) i t = Ret (a ++ t ++ drop (length t) b).
Proof.
  revert a b i. induction t as [|c t IH]; intros a b i -> Hlen; simpl; [done|].
  destruct b as [|x b]; simpl in Hlen; [lia|]. rewrite poke_app. simpl.
  change (a ++ c :: b) with (a ++ [c] ++ b). rewrite app_assoc, IH by (rewrite ?zlen_app; unfold zlen; simpl; lia).
  by rewrite <- !app_assoc.
Qed.

Lemma poke_all_snoc m i t v :
  poke_all m i (t ++ [v]) = (m ← poke_all m i t; poke m (i + zlen t) v).
Proof.
  revert m i. induction t as [|c t IH]; intros m i; simpl.
  - change (zlen []) with 0. rewrite Z.add_0_r. by destruct (poke m i v).
  - destruct (poke m i c); [|done..]. simpl. rewrite IH, zlen_cons. by rewrite Z.add_assoc, (Z.add_comm i 1), (Z.add_comm 1 i).
Qed.

(** ** The copying loops store a prefix of the text *)

Lemma ncat_loop_spec n t rest c m :
  no_nul t -> (n <= length t)%nat ->
  ncat_loop n c (t ++ rest) m = (m ← poke_all m c (take n t); Ret (c + Z.of_nat n, m)).
Proof.
  intros Ht. revert t Ht c m. induction n as [|n IH]; intros t Ht c m Hn; cbn [ncat_loop].
  - rewrite take_0. simpl. by rewrite Z.add_0_r.
  - destruct t as [|x t]; [simpl in Hn; lia|]. apply Forall_cons_iff in Ht as [Hx Ht].
    simpl. destruct (poke m c x); [|done..]. simpl. rewrite (proj2 (Z.eqb_neq _ _) Hx).
    rewrite IH by (done || simpl in Hn; lia). destruct (poke_all _ _ _); [|done..]. simpl.
    do 2 f_equal. lia.
Qed.

Lemma puts_loop_short n t rest c m :
  no_nul t -> (n <= length t)%nat ->
  puts_loop (Some n) c (t ++ rest) m
  = (m ← poke_all m c (take n t); Ret (c + Z.of_nat n, drop n t ++ rest, m)).
Proof.
  intros Ht. revert t Ht c m. induction n as [|n IH]; intros t Ht c m Hn.
  - rewrite drop_0, take_0. simpl. rewrite Z.add_0_r. by destruct (t ++ rest).
  - destruct t as [|x t]; [simpl in Hn; lia|]. apply Forall_cons_iff in Ht as [Hx Ht].
    simpl. destruct (poke m c x); [|done..]. simpl. rewrite (proj2 (Z.eqb_neq _ _) Hx).
    rewrite IH by (done || simpl in Hn; lia). destruct (poke_all _ _ _); [|done..]. simpl.
    do 3 f_equal. lia.
Qed.

Lemma puts_loop_long n t rest c m :
  no_nul t -> (length t < n)%nat ->
  puts_loop (Some n) c (t ++ 0 :: rest) m
  = (m ← poke_all m c (t ++ [0]); Ret (c + zlen t, 0 :: rest, m)).
Proof.
  intros Ht. revert n c m. induction Ht as [|x t Hx Ht IH]; intros n c m Hn.
  - destruct n as [|n]; [simpl in Hn; lia|]. simpl. destruct (poke m c 0); [|done..]. simpl.
    change (zlen []) with 0. by rewrite Z.add_0_r.
  - destruct n as [|n]; [simpl in Hn; lia|]. simpl. destruct (poke m c x); [|done..]. simpl.
    rewrite (proj2 (Z.eqb_neq _ _) Hx). rewrite IH by (simpl in Hn; lia).
    destruct (poke_all _ _ _); [|done..]. simpl. rewrite zlen_cons. do 3 f_equal. lia.
Qed.

Lemma sb_tohex_loop_end n i p e data m : e <= p -> sb_tohex_loop n i p e data m = Ret m.
Proof. intros. destruct n; simpl; [done|]. by rewrite (proj2 (Z.ltb_ge _ _)) by lia. Qed.

Lemma land1_even i : Z.land i 1 = 0 -> Z.land (i + 1) 1 = 1 /\ Z.land (i + 2) 1 = 0.
Proof.
  assert (H : forall x, Z.land x 1 = x mod 2) by (intros; change 1 with (Z.ones 1); by rewrite Z.land_ones).
  rewrite !H. dmlia.
Qed.

Lemma sb_tohex_loop_spec data n i p e m :
  bytes data -> Z.land i 1 = 0 -> (n <= 2 * length data)%nat -> p <= e ->
  sb_tohex_loop n i p e data m = poke_all m p (take (n `min` Z.to_nat (e - p)) (hex_of data)).
Proof.
  intros Hd. revert n i p m. induction Hd as [|b data Hb Hd IH]; intros n i p m Hi Hn Hp.
  { simpl in Hn. destruct n; [done|lia]. }
  destruct (land1_even i Hi) as [Hi1 Hi2].
  destruct n as [|n]; [done|]. destruct (decide (p = e)) as [->|Hpe].
  { rewrite sb_tohex_loop_end by lia. by rewrite Z.sub_diag, Nat.min_0_r. }
  replace (Z.to_nat (e - p)) with (S (Z.to_nat (e - (p + 1)))) by lia.
  destruct (byte_nibbles b Hb).
  rewrite hex_of_cons. cbn [sb_tohex_loop Nat.min take poke_all].
  rewrite (proj2 (Z.ltb_lt p e)) by lia. cbn [rd head or_undef mbind outcome_bind].
  rewrite Hi. cbn [Z.eqb].
  rewrite Z.shiftr_div_pow2 by lia. change (2 ^ 4) with 16. rewrite hexdigit_upper_at by done.
  cbn [mbind outcome_bind or_undef]. destruct (poke m p _) as [m1| |]; [|done..]. cbn [mbind outcome_bind].
  destruct n as [|n]; [done|]. destruct (decide (p + 1 = e)) as [<-|Hpe1].
  { rewrite sb_tohex_loop_end by lia. by rewrite Z.sub_diag, Nat.min_0_r. }
  replace (Z.to_nat (e - (p + 1))) with (S (Z.to_nat (e - (p + 1 + 1)))) by lia.
  cbn [sb_tohex_loop Nat.min take poke_all].
  rewrite (proj2 (Z.ltb_lt (p + 1) e)) by lia. cbn [rd head or_undef mbind outcome_bind].
  rewrite Hi1. cbn [Z.eqb].
  change 0xf with (Z.ones 4). rewrite Z.land_ones by lia. change (2 ^ 4) with 16.
  rewrite hexdigit_upper_at by done. cbn [mbind outcome_bind or_undef tail].
  destruct (poke m1 (p + 1) _) as [m2| |]; [|done..]. cbn [mbind outcome_bind].
  apply IH; [by rewrite <- Z.add_assoc|simpl in Hn; lia|lia].
Qed.

(** ** Representation *)

(** A strbuf of [size] bytes over an object that was [m0], to which the text
    [full] has been appended. *)
Record sb_rep (size : Z) (m0 full : list Z) (sb : strbuf) (m : list Z) : Prop := {
  sr_size : 1 <= size;
  sr_null : sb_null sb = false;
  sr_end : sb_end sb = Some (size - 1);
  sr_current : sb_current sb = zlen full;
  sr_text : no_nul full;
  sr_mem : exists tl, m = take (Z.to_nat (size - 1)) full ++ 0 :: tl;
  sr_len : zlen m = zlen m0 /\ size <= zlen m0;
  sr_frame : drop (Z.to_nat size) m = drop (Z.to_nat size) m0
}.

(** The operations of a session, and their effect on the abstract text. *)
Inductive sb_op :=
| OPuts (t : list Z)
| ONcat (t : list Z) (len : Z)
| OTohex (n : Z) (data : list Z)
| OPutc (c : Z)
| OSprintf (out : list Z)
| OTrunc (offset : Z)
| OReset.

Definition sb_exec `{Arch} (op : sb_op) (sb : strbuf) (m : list Z) : outcome (strbuf * list Z) :=
  match op with
  | OPuts t => strbuf_puts sb m (t ++ [0])
  | ONcat t len => strbuf_ncat sb m (t ++ [0]) len
  | OTohex n data => strbuf_tohex sb m n data
  | OPutc c => strbuf_putc sb m c
  | OSprintf out => strbuf_sprintf sb m out
  | OTrunc off => strbuf_trunc sb m off
  | OReset => strbuf_reset sb m
  end.

Definition sb_abs (size : Z) (op : sb_op) (full : list Z) : list Z :=
  match op with
  | OPuts t => full ++ t
  | ONcat t len => full ++ take (Z.to_nat len) t
  | OTohex n data => full ++ take (Z.to_nat n) (hex_of data)
  | OPutc c => full ++ [c]
  | OSprintf out => full ++ out
  | OTrunc off =>
    if off <? 0 then take (Z.to_nat (Z.min (zlen full) (size - 1) + off)) full
    else take (Z.to_nat off) full
  | OReset => []
  end.

(** Texts hold no NUL, and [strbuf_ncat] is not asked for more characters than
    the text has. *)
Definition sb_valid (op : sb_op) : Prop :=
  match op with
  | OPuts t => no_nul t
  | ONcat t len => no_nul t /\ 0 <= len <= zlen t
  | OTohex n data => bytes data /\ 0 <= n <= 2 * zlen data
  | OPutc c => c <> 0
  | OSprintf out => no_nul out
  | OTrunc _ => True
  | OReset => True
  end.

Fixpoint sb_run `{Arch} (ops : list sb_op) (sb : strbuf) (m : list Z) : outcome (strbuf * list Z) :=
  match ops with
  | [] => Ret (sb, m)
  | op :: ops => '(sb, m) ← sb_exec op sb m; sb_run ops sb m
  end.

Section rep.
Context `{Arch}.
Variables (size : Z) (m0 : list Z).

Lemma poke_idem full sb m i :
  sb_rep size m0 full sb m -> i = Z.min (zlen full) (size - 1) -> poke m i 0 = Ret m.
Proof.
  intros [Hsz _ _ _ _ [tl ->] _ _] ->.
  replace (Z.min (zlen full) (size - 1)) with (zlen (take (Z.to_nat (size - 1)) full)).
  - apply poke_app.
  - unfold zlen. rewrite length_take. lia.
Qed.

(** Storing as much of [t] as fits, and a NUL after it, when there is space. *)
Lemma append_space full sb m t :
  sb_rep size m0 full sb m -> no_nul t -> zlen full < size - 1 ->
  exists m', poke_all m (zlen full) (take (Z.to_nat (size - 1 - zlen full)) t ++ [0]) = Ret m'
    /\ sb_rep size m0 (full ++ t) (set_current sb (zlen full + zlen t)) m'.
Proof.
  intros [Hsz Hnull Hend Hcur Hful [tl Hm] [Hlen Hlen0] Hframe] Ht Hsp.
  assert (Hk : take (Z.to_nat (size - 1)) full = full) by (apply take_ge; unfold zlen in *; lia).
  rewrite Hk in Hm. set (w := take _ t ++ [0]).
  assert (Hw : (length w <= S (length tl))%nat /\ (length full + length w <= Z.to_nat size)%nat).
  { subst w m. rewrite length_app, length_take. simpl. rewrite zlen_app, zlen_cons in Hlen.
    unfold zlen in *. lia. }
  rewrite Hm, poke_all_app by (done || (simpl; lia)). eexists. split; [done|].
  split; simpl; [done..| | | | |].
  - by rewrite zlen_app.
  - by apply Forall_app.
  - exists (drop (length w) (0 :: tl)). subst w. rewrite <- !app_assoc. simpl.
    rewrite take_app, Hk, <- app_assoc.
    by replace (Z.to_nat (size - 1) - length full)%nat with (Z.to_nat (size - 1 - zlen full))
      by (unfold zlen; lia).
  - split; [|done]. rewrite <- Hlen, Hm, !zlen_app. unfold zlen. rewrite length_drop. simpl. lia.
  - rewrite <- Hframe, Hm, app_assoc.
    rewrite drop_app_ge, drop_drop by (rewrite length_app; lia).
    rewrite drop_app_ge by lia. f_equal. rewrite length_app. lia.
Qed.

(** When there is none, the buffer already holds all it can. *)
Lemma append_full full sb m t :
  sb_rep size m0 full sb m -> no_nul t -> size - 1 <= zlen full ->
  sb_rep size m0 (full ++ t) (set_current sb (zlen full + zlen t)) m.
Proof.
  intros [Hsz Hnull Hend Hcur Hful [tl Hm] Hlen Hframe] Ht Hsp.
  split; simpl; [done..| | | |done|done].
  - by rewrite zlen_app.
  - by apply Forall_app.
  - exists tl. rewrite take_app_le by (unfold zlen in *; lia). done.
Qed.

Lemma has_space_rep full sb m : sb_rep size m0 full sb m -> has_space sb = (zlen full <? size - 1).
Proof. intros []. unfold has_space, ptr_lt. by rewrite sr_end0, sr_null0, sr_current0. Qed.

Lemma overrun_rep full sb m : sb_rep size m0 full sb m -> strbuf_overrun sb = (size - 1 <? zlen full).
Proof. intros []. unfold strbuf_overrun, ptr_lt. by rewrite sr_end0, sr_null0, sr_current0. Qed.

Lemma strbuf_end_rep full sb m : sb_rep size m0 full sb m -> strbuf_end sb = Z.min (zlen full) (size - 1).
Proof.
  intros []. unfold strbuf_end, ptr_lt. rewrite sr_end0, sr_null0, sr_current0. zcase; lia.
Qed.

(** What every appending operation does to the buffer. *)
Definition append_text (full t : list Z) (sb : strbuf) (m : list Z) : outcome (strbuf * list Z) :=
  m ← (if zlen full <? size - 1
       then poke_all m (zlen full) (take (Z.to_nat (size - 1 - zlen full)) t ++ [0])
       else Ret m);
  Ret (set_current sb (zlen full + zlen t), m).

Lemma append_text_rep full t sb m :
  sb_rep size m0 full sb m -> no_nul t ->
  returns (append_text full t sb m) (fun r => sb_rep size m0 (full ++ t) r.1 r.2).
Proof.
  intros Hrep Ht. unfold append_text. zcase.
  - destruct (append_space full sb m t Hrep Ht) as (m' & -> & ?); [done|]. done.
  - simpl. by apply append_full.
Qed.

Lemma poke_twice m i v m' : poke m i v = Ret m' -> poke m' i v = Ret m'.
Proof.
  unfold poke. destruct ((0 <=? i) && (i <? zlen m)) eqn:E; [|done]. intros [= <-].
  unfold zlen in *. rewrite length_insert, E. by rewrite list_insert_insert_eq.
Qed.

(** Storing the terminator a second time changes nothing. *)
Lemma poke_all_nul_twice m i t j m' :
  poke_all m i (t ++ [0]) = Ret m' -> j = i + zlen t -> poke m' j 0 = Ret m'.
Proof.
  rewrite poke_all_snoc. intros E ->. destruct (poke_all m i t) as [m1| |]; [|done..].
  by eapply poke_twice.
Qed.

Lemma puts_append full t sb m :
  sb_rep size m0 full sb m -> no_nul t -> strbuf_puts sb m (t ++ [0]) = append_text full t sb m.
Proof.
  intros Hrep Ht. unfold strbuf_puts, append_text. pose proof Hrep as [].
  rewrite sr_null0, sr_end0. unfold ptr_lt. rewrite sr_null0, sr_current0.
  destruct (zlen full <? size - 1) eqn:Hsp; [|cbn [mbind outcome_bind]; by rewrite strlen_nul].
  bsplit. set (n := Z.to_nat _). destruct (decide (length t < n)%nat) as [Hl|Hl].
  - rewrite puts_loop_long by done. rewrite (take_ge t) by lia.
    destruct (poke_all m _ _) as [m1| |] eqn:E; [|done..]. cbn [mbind outcome_bind].
    rewrite (poke_all_nul_twice _ _ _ _ _ E) by done. simpl. do 3 f_equal. lia.
  - rewrite puts_loop_short by (done || lia). rewrite poke_all_snoc.
    destruct (poke_all m _ _) as [m1| |]; [|done..]. cbn [mbind outcome_bind].
    replace (zlen (take n t)) with (Z.of_nat n) by (unfold zlen; rewrite length_take; lia).
    destruct (poke m1 _ 0) as [m2| |]; [|done..]. cbn [mbind outcome_bind].
    rewrite strlen_nul by (by apply Forall_drop). simpl. do 3 f_equal.
    unfold zlen. rewrite length_drop. lia.
Qed.

Lemma ncat_append full t len sb m :
  sb_rep size m0 full sb m -> no_nul t -> 0 <= len <= zlen t ->
  strbuf_ncat sb m (t ++ [0]) len = append_text full (take (Z.to_nat len) t) sb m.
Proof.
  intros Hrep Ht Hlen. unfold strbuf_ncat, append_text.
  rewrite (has_space_rep full sb m Hrep). destruct Hrep.
  rewrite sr_null0, sr_end0, sr_current0. cbn [negb andb].
  replace (zlen (take (Z.to_nat len) t)) with len by (unfold zlen in *; rewrite length_take; lia).
  zcase; [|done]. rewrite ncat_loop_spec by (done || unfold zlen in *; lia).
  rewrite poke_all_snoc, take_take.
  replace (Z.to_nat (size - 1 - zlen full) `min` Z.to_nat len)%nat
    with (Z.to_nat (Z.min (size - 1 - zlen full) len)) by lia.
  destruct (poke_all m _ _) as [m1| |]; [|done..]. cbn [mbind outcome_bind].
  do 2 f_equal. unfold zlen in *. rewrite length_take. lia.
Qed.

Lemma putc_append full c sb m :
  sb_rep size m0 full sb m -> strbuf_putc sb m c = append_text full [c] sb m.
Proof.
  intros Hrep. unfold strbuf_putc, append_text.
  rewrite (has_space_rep full sb m Hrep). destruct Hrep.
  rewrite sr_null0, sr_current0. cbn [negb andb]. zcase; [|done].
  rewrite take_ge by (simpl; lia). simpl. destruct (poke m _ c) as [m1| |]; [|done..]. simpl.
  by destruct (poke m1 _ 0).
Qed.

Lemma sprintf_append full out sb m :
  sb_rep size m0 full sb m -> strbuf_sprintf sb m out = append_text full out sb m.
Proof.
  intros Hrep. unfold strbuf_sprintf, strbuf_vsprintf, append_text. destruct Hrep.
  unfold ptr_lt. rewrite sr_null0, sr_end0, sr_current0. cbn [negb andb].
  rewrite bool_decide_eq_false_2 by done. destruct (Z.ltb_spec (zlen full) (size - 1)); [|done].
  replace (size - 1 - zlen full + 1 - 1) with (size - 1 - zlen full) by lia.
  set (w := take _ out). zcase; [|by destruct (poke_all m _ _)].
  destruct (poke_all m _ _) as [m1| |] eqn:E; [|done..]. cbn [mbind outcome_bind].
  rewrite (poke_all_nul_twice _ _ _ _ _ E); [done|].
  subst w. unfold zlen in *. rewrite length_take. lia.
Qed.

Lemma tohex_append full n data sb m :
  sb_rep size m0 full sb m -> bytes data -> 0 <= n <= 2 * zlen data ->
  strbuf_tohex sb m n data = append_text full (take (Z.to_nat n) (hex_of data)) sb m.
Proof.
  intros Hrep Hd Hn. unfold strbuf_tohex, append_text.
  assert (Hlen : zlen (take (Z.to_nat n) (hex_of data)) = n).
  { pose proof (zlen_hex_of data). unfold zlen in *. rewrite length_take. lia. }
  rewrite Hlen. pose proof Hrep as []. cbn [sb_null sb_end sb_current set_current].
  rewrite sr_null0, sr_end0, sr_current0. set (e := if _ <? _ then _ else _).
  assert (He : e = Z.min (zlen full + n) (size - 1)) by (subst e; zcase; lia).
  clearbody e. subst e. zcase.
  - rewrite sb_tohex_loop_spec by (done || unfold zlen in *; lia).
    rewrite poke_all_snoc, take_take. set (w := take _ _). set (w' := take _ _).
    assert (w = w') as <- by (subst w w'; f_equal; lia).
    destruct (poke_all m _ _) as [m1| |]; [|done..]. cbn [mbind outcome_bind].
    do 2 f_equal. subst w. pose proof (zlen_hex_of data). unfold zlen in *. rewrite length_take. lia.
  - rewrite sb_tohex_loop_end by lia. cbn [mbind outcome_bind].
    rewrite (poke_idem full sb m) by (done || lia). done.
Qed.

(** Cutting the text at a place the buffer holds. *)
Lemma cut_rep full sb m j :
  sb_rep size m0 full sb m -> 0 <= j -> j <= zlen full -> j < size - 1 ->
  exists m', poke m j 0 = Ret m' /\ sb_rep size m0 (take (Z.to_nat j) full) (set_current sb j) m'.
Proof.
  intros [? ? ? ? Hful [tl Hm] [Hlen Hlen0] Hframe] Hj Hjl Hjs.
  set (a := take (Z.to_nat j) full).
  assert (Ha : j = zlen a) by (subst a; unfold zlen in *; rewrite length_take; lia).
  set (b := drop (Z.to_nat j) (take (Z.to_nat (size - 1)) full) ++ 0 :: tl).
  assert (Hab : m = a ++ b).
  { subst a b. rewrite app_assoc, Hm. f_equal.
    rewrite <- (take_drop (Z.to_nat j) (take _ full)) at 1. f_equal. rewrite take_take. f_equal. lia. }
  assert (Hb : b <> []) by (subst b; by intros [_ ?]%app_eq_nil).
  clearbody b. destruct b as [|x b']; [done|]. clear Hb.
  exists (a ++ 0 :: b'). split; [rewrite Hab, Ha; apply poke_app|].
  split; simpl; [done..| | | | |].
  - done.
  - by apply Forall_take.
  - exists b'. by rewrite (take_ge a) by (unfold zlen in *; lia).
  - split; [|done]. rewrite <- Hlen, Hab, !zlen_app, !zlen_cons. done.
  - rewrite <- Hframe, Hab. rewrite !drop_app_ge by (unfold zlen in *; lia).
    replace (Z.to_nat size - length a)%nat with (S (Z.to_nat size - length a - 1)) by (unfold zlen in *; lia).
    done.
Qed.

(** Cutting it at a place the buffer does not reach. *)
Lemma cut_beyond_rep full sb m j :
  sb_rep size m0 full sb m -> size - 1 <= j <= zlen full ->
  sb_rep size m0 (take (Z.to_nat j) full) (set_current sb j) m.
Proof.
  intros [? ? ? ? ? [tl Hm] ? ?] Hj. split; simpl; [done..| | | |done|done].
  - unfold zlen in *. rewrite length_take. lia.
  - by apply Forall_take.
  - exists tl. rewrite take_take. by rewrite Nat.min_l by lia.
Qed.

Lemma trunc_rep full off sb m :
  sb_rep size m0 full sb m ->
  returns (strbuf_trunc sb m off) (fun r => sb_rep size m0 (sb_abs size (OTrunc off) full) r.1 r.2).
Proof.
  intros Hrep. pose proof (zlen_nonneg full) as Hnn. pose proof (sr_size _ _ _ _ _ Hrep) as Hsz.
  set (j := if off <? 0 then Z.max 0 (Z.min (zlen full) (size - 1) + off) else Z.min off (zlen full)).
  assert (Hj : 0 <= j <= zlen full) by (subst j; zcase; lia).
  assert (Habs : sb_abs size (OTrunc off) full = take (Z.to_nat j) full).
  { subst j. simpl. zcase; [f_equal; lia|]. destruct (decide (off <= zlen full)); [f_equal; lia|].
    rewrite !take_ge by (unfold zlen in *; lia). done. }
  assert (Hcur : (if off <? 0
                  then set_current sb (if off <=? 0 - strbuf_end sb then 0 else strbuf_end sb + off)
                  else if ptr_lt sb off (sb_current sb) then set_current sb off else sb) = set_current sb j).
  { rewrite (strbuf_end_rep full sb m Hrep). destruct sb as [nl en cu], Hrep. simpl in *. subst.
    unfold ptr_lt, set_current. simpl. subst j. repeat zcase; f_equal; lia. }
  unfold strbuf_trunc. rewrite Hcur, Habs. unfold has_space, ptr_lt. cbn [set_current sb_null sb_end sb_current].
  rewrite (sr_null _ _ _ _ _ Hrep), (sr_end _ _ _ _ _ Hrep). cbn [negb andb]. zcase.
  - destruct (cut_rep full sb m j Hrep) as (m' & -> & ?); [lia..|]. done.
  - simpl. apply cut_beyond_rep; [done|lia].
Qed.

Lemma reset_rep sb m nl en :
  sb_null sb = nl -> sb_end sb = en -> nl = false -> en = Some (size - 1) -> 1 <= size ->
  zlen m = zlen m0 -> size <= zlen m0 -> drop (Z.to_nat size) m = drop (Z.to_nat size) m0 ->
  returns (strbuf_reset sb m) (fun r => sb_rep size m0 [] r.1 r.2).
Proof.
  intros Hnl Hen -> -> Hsz Hlen Hlen0 Hframe. unfold strbuf_reset. cbn [set_current sb_null]. rewrite Hnl.
  destruct m as [|x m]; [unfold zlen in *; simpl in *; lia|].
  pose proof (poke_app [] x m 0) as E. simpl in E. change (zlen []) with 0 in E. rewrite E. simpl.
  split; simpl; [done..| | | | |].
  - done.
  - constructor.
  - exists m. by rewrite take_nil.
  - done.
  - rewrite <- Hframe. by replace (Z.to_nat size) with (S (Z.to_nat size - 1)) by lia.
Qed.

Lemma sb_exec_rep full op sb m :
  sb_rep size m0 full sb m -> sb_valid op ->
  returns (sb_exec op sb m) (fun r => sb_rep size m0 (sb_abs size op full) r.1 r.2).
Proof.
  intros Hrep Hv. destruct op as [t|t len|n data|c|out|off|]; simpl in Hv; cbn [sb_exec sb_abs].
  - rewrite (puts_append full) by done. by apply append_text_rep.
  - destruct Hv. rewrite (ncat_append full) by done. apply append_text_rep; [done|]. by apply Forall_take.
  - destruct Hv. rewrite (tohex_append full) by done. apply append_text_rep; [done|].
    apply Forall_take, hex_of_no_nul; done.
  - rewrite (putc_append full) by done. apply append_text_rep; [done|]. by apply Forall_singleton.
  - rewrite (sprintf_append full) by done. by apply append_text_rep.
  - by apply trunc_rep.
  - pose proof Hrep as [? ? ? ? ? ? [??] ?]. by eapply reset_rep.
Qed.

Lemma sb_run_rep ops : Forall sb_valid ops -> forall full sb m, sb_rep size m0 full sb m ->
  returns (sb_run ops sb m) (fun r => sb_rep size m0 (foldl (fun f op => sb_abs size op f) full ops) r.1 r.2).
Proof.
  induction 1 as [|op ops Hv _ IH]; intros full sb m Hrep; simpl; [done|].
  eapply returns_bind; [by apply sb_exec_rep|]. intros [sb' m'] Hrep'. by apply IH.
Qed.
End rep.

(** ** Without a buffer, and without a limit *)

(** How much text there is room for, with its NUL: a size of -1 is no limit, and
    nor is the size 0 of a NULL buffer. *)
Definition sb_room `{Arch} (size : Z) : Z := if 1 <=? size then size else SIZE_MAX + 1.

(** The texts of a session, one after each operation. *)
Fixpoint sb_texts (size : Z) (ops : list sb_op) (full : list Z) : list (list Z) :=
  full :: match ops with [] => [] | op :: ops => sb_texts size ops (sb_abs size op full) end.

(** Offsets are of the type [ssize_t]. *)
Definition sb_offset `{Arch} (op : sb_op) : Prop := match op with OTrunc off => off <= SSIZE_MAX | _ => True end.

Lemma SSIZE_MAX_lt `{Arch} : SSIZE_MAX < SIZE_MAX.
Proof. unfold SSIZE_MAX, SIZE_MAX. destruct ptr_bytes_spec as [-> | ->]; reflexivity. Qed.

Section measuring.
Context `{Arch}.
Variable size : Z.
Hypothesis Hsize : -1 <= size <= SSIZE_MAX.

Record sb_counts (full : list Z) (sb : strbuf) : Prop := {
  sc_null : sb_null sb = true;
  sc_end : sb_end sb = if 0 <=? size then Some (size - 1) else None;
  sc_current : sb_current sb = zlen full
}.

Lemma counts_end full sb : sb_counts full sb -> zlen full < SIZE_MAX ->
  strbuf_end sb = Z.min (zlen full) (sb_room size - 1) /\ strbuf_overrun sb = (sb_room size - 1 <? zlen full).
Proof.
  intros [Hn He Hc] Hl. unfold strbuf_end, strbuf_overrun, ptr_lt, sb_room. rewrite He, Hn, Hc.
  pose proof SIZE_MAX_ge. pose proof (zlen_nonneg full). pose proof SSIZE_MAX_lt.
  destruct (Z.leb_spec 0 size); [|rewrite (proj2 (Z.leb_gt 1 size)) by lia; split; [lia|symmetry; apply Z.ltb_ge; lia]].
  rewrite (sz_small (zlen full)) by lia. destruct (Z.leb_spec 1 size).
  - rewrite sz_small by lia. split; [|done]. zcase; lia.
  - assert (size = 0) as -> by lia. assert (sz (0 - 1) = SIZE_MAX) as ->
      by (unfold sz; symmetry; apply Z.mod_unique_pos with (-1); lia).
    split; [zcase; lia|]. rewrite !(proj2 (Z.ltb_ge _ _)) by lia. done.
Qed.

Lemma counts_exec full op sb m :
  sb_counts full sb -> zlen full < SIZE_MAX -> sb_valid op -> sb_offset op ->
  exists sb', sb_exec op sb m = Ret (sb', m) /\ sb_counts (sb_abs (sb_room size) op full) sb'.
Proof.
  intros Hr Hl Hv Ho. destruct (counts_end full sb Hr Hl) as [Hend _]. pose proof Hr as [Hn He Hc].
  pose proof (zlen_nonneg full).
  assert (Hset : forall t c, c = zlen t -> sb_counts t (set_current sb c)) by (by intros; split).
  destruct op as [t|t len|n data|c|out|off|]; simpl in Hv, Ho; cbn [sb_exec sb_abs].
  - unfold strbuf_puts. rewrite Hn. cbn [mbind outcome_bind]. rewrite strlen_nul by done. eexists. split; [done|].
    apply Hset. rewrite zlen_app, Hc. done.
  - unfold strbuf_ncat. rewrite Hn. eexists. split; [done|]. apply Hset. rewrite zlen_app, Hc.
    unfold zlen in *. rewrite length_take. lia.
  - unfold strbuf_tohex. cbn [sb_null set_current]. rewrite Hn. eexists. split; [done|]. apply Hset. rewrite zlen_app, Hc.
    destruct Hv as [Hd Hv]. pose proof (zlen_hex_of data). unfold zlen in *. rewrite length_take. lia.
  - unfold strbuf_putc. rewrite Hn. eexists. split; [done|]. apply Hset. by rewrite zlen_app, Hc.
  - unfold strbuf_sprintf, strbuf_vsprintf. rewrite Hn. cbn [negb andb].
    destruct (sb_end sb); (eexists; split; [done|]; apply Hset; by rewrite zlen_app, Hc).
  - unfold strbuf_trunc. rewrite Hend. set (sb' := if off <? 0 then _ else _).
    assert (sb_counts (sb_abs (sb_room size) (OTrunc off) full) sb') as Hr'.
    { subst sb'. pose proof SSIZE_MAX_lt. unfold ptr_lt. rewrite Hn, Hc. cbn [sb_abs].
      assert (0 <= sb_room size - 1) by (unfold sb_room; pose proof SIZE_MAX_ge; zcase; lia).
      destruct (Z.ltb_spec off 0).
      - apply Hset. unfold zlen in *. rewrite length_take. zcase; lia.
      - rewrite (sz_small off), (sz_small (zlen full)) by lia. zcase.
        + apply Hset. unfold zlen in *. rewrite length_take. lia.
        + rewrite take_ge by (unfold zlen in *; lia). done. }
    assert (sb_null sb' = true) as -> by (by destruct Hr'). by exists sb'.
  - unfold strbuf_reset. cbn [sb_null set_current]. rewrite Hn. eexists. split; [done|]. by apply Hset.
Qed.

Lemma counts_run ops : Forall sb_valid ops -> Forall sb_offset ops -> forall full sb m,
  sb_counts full sb -> Forall (fun t => zlen t < SIZE_MAX) (sb_texts (sb_room size) ops full) ->
  exists sb', sb_run ops sb m = Ret (sb', m) /\
    let last := foldl (fun f op => sb_abs (sb_room size) op f) full ops in sb_counts last sb' /\ zlen last < SIZE_MAX.
Proof.
  intros Hv. induction Hv as [|op ops Hv _ IH]; intros Ho full sb m Hr Ht; simpl in *.
  - exists sb. by apply Forall_cons_1 in Ht as [? _].
  - apply Forall_cons_1 in Ht as [Hl Ht]. apply Forall_cons_1 in Ho as [Ho1 Ho].
    destruct (counts_exec full op sb m) as (sb1 & -> & Hr1); [done..|]. cbn [mbind outcome_bind]. by apply IH.
Qed.
End measuring.

(** Without a limit, everything fits: the buffer is one of all the memory there
    is, but for [end]. *)
Section unlimited.
Context `{Arch}.
Variable m0 : list Z.
Hypothesis Hm0 : zlen m0 <= SIZE_MAX.

Definition with_end (sb : strbuf) : strbuf := Strbuf (sb_null sb) (Some (zlen m0 - 1)) (sb_current sb).
Record sb_unlimited (full : list Z) (sb : strbuf) (m : list Z) : Prop := {
  su_end : sb_end sb = None;
  su_rep : sb_rep (zlen m0) m0 full (with_end sb) m
}.

(** Storing [t] with its NUL is all an append does. *)
Lemma unlimited_append full sb m t :
  sb_unlimited full sb m -> no_nul t -> zlen full + zlen t < zlen m0 ->
  exists m', poke_all m (zlen full) (t ++ [0]) = Ret m' /\ sb_unlimited (full ++ t) (set_current sb (zlen full + zlen t)) m'.
Proof.
  intros [He Hr] Ht Hl. pose proof (zlen_nonneg t). pose proof (sr_null _ _ _ _ _ Hr) as Hn. simpl in Hn.
  destruct (Z.lt_ge_cases (zlen full) (zlen m0 - 1)) as [Hs|Hs].
  - destruct (append_space _ _ full _ m t Hr Ht Hs) as (m' & E & Hr'). rewrite take_ge in E by (unfold zlen in *; lia).
    exists m'. split; [done|]. split; [done|]. exact Hr'.
  - assert (t = []) as -> by (destruct t; [done|]; rewrite zlen_cons in *; pose proof (zlen_nonneg t); lia).
    exists m. split.
    + simpl. rewrite (poke_idem (zlen m0) m0 full (with_end sb) m); [done|done|change (zlen []) with 0 in *; lia].
    + split; [done|]. by apply (append_full _ _ full (with_end sb)).
Qed.

Lemma puts_loop_none t rest c m :
  no_nul t -> puts_loop None c (t ++ 0 :: rest) m = (m ← poke_all m c (t ++ [0]); Ret (c + zlen t, 0 :: rest, m)).
Proof.
  intros Ht. revert c m. induction Ht as [|x t Hx Ht IH]; intros c m; simpl.
  - destruct (poke m c 0); [|done..]. simpl. change (zlen []) with 0. by rewrite Z.add_0_r.
  - destruct (poke m c x); [|done..]. simpl. rewrite (proj2 (Z.eqb_neq _ _) Hx), IH.
    destruct (poke_all _ _ _); [|done..]. simpl. rewrite zlen_cons. do 3 f_equal. lia.
Qed.

Lemma unlimited_cut full sb m j :
  sb_unlimited full sb m -> 0 <= j <= zlen full -> zlen full < zlen m0 ->
  exists m', poke m j 0 = Ret m' /\ sb_unlimited (take (Z.to_nat j) full) (set_current sb j) m'.
Proof.
  intros [He Hr] Hj Hl. destruct (Z.lt_ge_cases j (zlen m0 - 1)) as [Hs|Hs].
  - destruct (cut_rep _ _ full _ m j Hr) as (m' & E & Hr'); [lia..|]. exists m'. split; [done|]. by split.
  - exists m. split; [apply (poke_idem (zlen m0) m0 full (with_end sb)); [done|lia]|]. split; [done|].
    apply (cut_beyond_rep _ _ full (with_end sb)); [done|lia].
Qed.

Lemma unlimited_exec full op sb m :
  sb_unlimited full sb m -> sb_valid op -> zlen full < zlen m0 -> zlen (sb_abs (SIZE_MAX + 1) op full) < zlen m0 ->
  exists sb' m', sb_exec op sb m = Ret (sb', m') /\ sb_unlimited (sb_abs (SIZE_MAX + 1) op full) sb' m'.
Proof.
  intros Hu Hv Hl Hl'. pose proof Hu as [He Hr]. pose proof (sr_null _ _ _ _ _ Hr) as Hn. simpl in Hn.
  pose proof (sr_current _ _ _ _ _ Hr) as Hc. simpl in Hc. pose proof (zlen_nonneg full).
  destruct op as [t|t len|n data|c|out|off|]; simpl in Hv; cbn [sb_exec sb_abs] in *; rewrite ?zlen_app in Hl'.
  - destruct (unlimited_append full sb m t Hu Hv Hl') as (m' & E & Hu'). unfold strbuf_puts.
    rewrite Hn, He, Hc, puts_loop_none by done. rewrite E. cbn [mbind outcome_bind].
    eexists _, m'. split; [done|]. simpl. by rewrite Z.add_0_r.
  - destruct Hv as [Ht Hlen]. set (t' := take _ t) in *.
    assert (zlen t' = len) as Et by (subst t'; unfold zlen in *; rewrite length_take; lia).
    destruct (unlimited_append full sb m t' Hu) as (m' & E & Hu'); [by apply Forall_take|done|].
    unfold strbuf_ncat, has_space. rewrite Hn, He, Hc. cbn [negb andb].
    rewrite ncat_loop_spec by (done || unfold zlen in *; lia). fold t'. rewrite poke_all_snoc, Et in E.
    destruct (poke_all m _ t') as [m1| |]; [|done..]. cbn [mbind outcome_bind] in *.
    rewrite Z2Nat.id by lia. rewrite E. eexists _, m'. split; [done|]. by rewrite <- Et.
  - destruct Hv as [Hd Hlen]. set (t' := take _ _) in *. pose proof (zlen_hex_of data).
    assert (zlen t' = n) as Et by (subst t'; unfold zlen in *; rewrite length_take; lia).
    destruct (unlimited_append full sb m t' Hu) as (m' & E & Hu'); [by apply Forall_take, hex_of_no_nul|done|].
    unfold strbuf_tohex. cbn [sb_null sb_end sb_current set_current]. rewrite Hn, He, Hc.
    rewrite sb_tohex_loop_spec by (done || unfold zlen in *; lia).
    replace (Z.to_nat n `min` Z.to_nat (zlen full + n - zlen full))%nat with (Z.to_nat n) by lia. fold t'.
    rewrite poke_all_snoc, Et in E. destruct (poke_all m _ t') as [m1| |]; [|done..]. cbn [mbind outcome_bind] in *.
    rewrite E. eexists _, m'. split; [done|]. by rewrite <- Et.
  - destruct (unlimited_append full sb m [c] Hu) as (m' & E & Hu'); [by apply Forall_singleton|done|].
    unfold strbuf_putc, has_space. rewrite Hn, He, Hc. cbn [negb andb]. simpl in E.
    destruct (poke m _ c) as [m1| |]; [|done..]. cbn [mbind outcome_bind] in *.
    destruct (poke m1 _ 0) as [m2| |]; [|done..]. injection E as ->. by eexists _, m'.
  - destruct (unlimited_append full sb m out Hu Hv Hl') as (m' & E & Hu').
    unfold strbuf_sprintf, strbuf_vsprintf. rewrite Hn, He, Hc. cbn [negb andb].
    rewrite bool_decide_eq_true_2 by done. rewrite E. by eexists _, m'.
  - set (j := if off <? 0 then Z.max 0 (zlen full + off) else Z.min off (zlen full)).
    assert (0 <= j <= zlen full) as Hj by (subst j; zcase; lia).
    assert (sb_abs (SIZE_MAX + 1) (OTrunc off) full = take (Z.to_nat j) full) as Ej.
    { subst j. simpl. zcase; [f_equal; lia|]. destruct (decide (off <= zlen full)); [f_equal; lia|].
      rewrite !take_ge by (unfold zlen in *; lia). done. }
    simpl in Ej. rewrite Ej. destruct (unlimited_cut full sb m j Hu Hj Hl) as (m' & E & Hu').
    unfold strbuf_trunc, strbuf_end. rewrite He, Hc.
    assert ((if off <? 0 then set_current sb (if off <=? 0 - zlen full then 0 else zlen full + off)
             else if ptr_lt sb off (zlen full) then set_current sb off else sb) = set_current sb j) as ->.
    { destruct sb as [nl en cu]. simpl in *. subst nl en cu j. unfold ptr_lt, set_current. simpl.
      repeat zcase; f_equal; lia. }
    unfold has_space. cbn [set_current sb_null sb_end sb_current]. rewrite Hn, He. cbn [negb andb]. rewrite E.
    by eexists _, m'.
  - destruct (unlimited_cut full sb m 0 Hu ltac:(lia) Hl) as (m' & E & Hu'). unfold strbuf_reset.
    cbn [set_current sb_null]. rewrite Hn, E. by eexists _, m'.
Qed.

Lemma unlimited_run ops : Forall sb_valid ops -> forall full sb m,
  sb_unlimited full sb m -> Forall (fun t => zlen t < zlen m0) (sb_texts (SIZE_MAX + 1) ops full) ->
  exists sb' m', sb_run ops sb m = Ret (sb', m') /\
    let last := foldl (fun f op => sb_abs (SIZE_MAX + 1) op f) full ops in sb_unlimited last sb' m' /\ zlen last < zlen m0.
Proof.
  intros Hv. induction Hv as [|op ops Hv _ IH]; intros full sb m Hr Ht; simpl in *.
  - exists sb, m. by apply Forall_cons_1 in Ht as [? _].
  - apply Forall_cons_1 in Ht as [Hl Ht].
    destruct (unlimited_exec full op sb m) as (sb1 & m1 & E1 & Hr1); [done..| |].
    { destruct ops; by apply Forall_cons_1 in Ht as [? _]. }
    rewrite E1. cbn [mbind outcome_bind]. by apply IH.
Qed.
End unlimited.

(** Initialising and running a session gives a represented state. *)
Lemma strbuf_session_rep `{Arch} size m0 ops :
  1 <= size <= zlen m0 -> Forall sb_valid ops ->
  exists sb m, ('(sb, m) ← strbuf_init false size m0; sb_run ops sb m) = Ret (sb, m)
    /\ sb_rep size m0 (foldl (fun f op => sb_abs size op f) [] ops) sb m.
Proof.
  intros Hsize Hops.
  assert (Hinit : returns (strbuf_init false size m0) (fun r => sb_rep size m0 [] r.1 r.2)).
  { unfold strbuf_init. eapply reset_rep; try reflexivity; simpl; [|lia..].
    by rewrite (proj2 (Z.leb_le 0 size)) by lia. }
  apply returns_inv in Hinit as ([sb m] & -> & Hrep). simpl.
  destruct (returns_inv _ _ (sb_run_rep size m0 ops Hops [] sb m Hrep)) as ([sb' m'] & ? & ?). eauto.
Qed.

Lemma unlimited_session `{Arch} m0 ops :
  Forall sb_valid ops -> zlen m0 <= SIZE_MAX ->
  Forall (fun t => zlen t < zlen m0) (sb_texts (sb_room (-1)) ops []) ->
  let full := foldl (fun f op => sb_abs (sb_room (-1)) op f) [] ops in
  exists sb m, ('(sb, m) ← strbuf_init false (-1) m0; sb_run ops sb m) = Ret (sb, m)
    /\ strbuf_count sb = zlen full /\ strbuf_len sb = zlen full
    /\ take (length full) m = full /\ strlen m = Ret (zlen full)
    /\ strbuf_overrun sb = false /\ zlen m = zlen m0.
Proof.
  intros Hops Hm0 Ht. change (sb_room (-1)) with (SIZE_MAX + 1) in *. cbv zeta.
  assert (0 < zlen m0) as Hpos by (destruct ops; by apply Forall_cons_1 in Ht as [? _]).
  unfold strbuf_init. change (if 0 <=? -1 then _ else _) with (@None Z).
  destruct m0 as [|x m1]; [done|]. set (m0 := x :: m1) in *.
  assert (strbuf_reset (Strbuf false None 0) m0 = Ret (Strbuf false None 0, 0 :: m1)) as ->.
  { unfold strbuf_reset. cbn [set_current sb_null]. pose proof (poke_app [] x m1 0) as E. simpl in E.
    change (zlen []) with 0 in E. unfold m0. by rewrite E. }
  cbn [mbind outcome_bind].
  destruct (unlimited_run m0 Hm0 ops Hops [] (Strbuf false None 0) (0 :: m1)) as (sb & m & E & Hu & Hl); [|done|].
  { split; [done|]. split; simpl; try done; [unfold m0 in *; lia|constructor| |].
    - exists m1. by rewrite take_nil.
    - unfold zlen, m0. rewrite !drop_ge by (simpl; lia). done. }
  set (full := foldl _ [] ops) in *. destruct Hu as [He [_ Hn _ Hc Hnn [tl Hm] [Hlen _] _]]. simpl in Hc.
  rewrite take_ge in Hm by (unfold zlen in *; lia). exists sb, m.
  unfold strbuf_len, strbuf_end, strbuf_overrun. rewrite He. split_and!; try done.
  - rewrite Hm. apply take_app_length.
  - rewrite Hm. by apply strlen_nul.
Qed.

Lemma null_session `{Arch} size m0 ops :
  Forall sb_valid ops -> -1 <= size <= SSIZE_MAX -> Forall sb_offset ops ->
  Forall (fun t => zlen t < SIZE_MAX) (sb_texts (sb_room size) ops []) ->
  let full := foldl (fun f op => sb_abs (sb_room size) op f) [] ops in
  exists sb, ('(sb, m) ← strbuf_init true size m0; sb_run ops sb m) = Ret (sb, m0)
    /\ strbuf_count sb = zlen full /\ strbuf_len sb = Z.min (zlen full) (sb_room size - 1)
    /\ strbuf_overrun sb = (sb_room size - 1 <? zlen full).
Proof.
  intros Hops Hsize Ho Ht. cbv zeta. unfold strbuf_init, strbuf_reset. cbn [set_current sb_null sb_end mbind outcome_bind].
  destruct (counts_run size Hsize ops Hops Ho [] (Strbuf true (if 0 <=? size then Some (size - 1) else None) 0) m0)
    as (sb & E & Hc & Hl); [by split|done|].
  exists sb. split; [exact E|]. destruct (counts_end size Hsize _ sb Hc Hl). by destruct Hc.
Qed.



(** A buffer of size 0 gets a NUL all the same. *)
Example strbuf_init_zero_writes : strbuf_init false 0 (zs "x") = Ret (Strbuf false (Some (-1)) 0, [0]).
Proof. reflexivity. Qed.

(** [strbuf_ncat] of a text shorter than [len] advances the strbuf by [len]
    all the same: [strbuf_count] grows by [len], not by the number of characters
    the text has, and the string in the buffer ends before [strbuf_len]. *)
Theorem strbuf_ncat_overcounts `{Arch} (size len : Z) (m0 full t : list Z) (sb : strbuf) (m : list Z)
    (Hrep : sb_rep size m0 full sb m) (Ht : no_nul t)
    (Hshort : zlen t < len) (Hspace : zlen full + len <= size - 1) :
  exists sb' m', strbuf_ncat sb m (t ++ [0]) len = Ret (sb', m')
    /\ strbuf_count sb' = zlen full + len
    /\ strbuf_len sb' = zlen full + len
    /\ strlen m' = Ret (zlen full + zlen t).
Proof.
  pose proof (zlen_nonneg full) as Hn1. pose proof (zlen_nonneg t) as Hn2.
  assert (Hloop : forall n c m', (length t < n)%nat ->
    ncat_loop n c (t ++ [0]) m' = (m'' ← poke_all m' c (t ++ [0]); Ret (c + zlen t, m''))).
  { clear -Ht. induction Ht as [|x t Hx Ht IH]; intros n c m' Hn;
      (destruct n as [|n]; [simpl in Hn; lia|]); simpl.
    - destruct (poke m' c 0); [|done..]. simpl. change (zlen []) with 0. by rewrite Z.add_0_r.
    - destruct (poke m' c x); [|done..]. simpl. rewrite (proj2 (Z.eqb_neq _ _) Hx).
      rewrite IH by (simpl in Hn; lia). destruct (poke_all _ _ _); [|done..]. simpl.
      rewrite zlen_cons. do 2 f_equal. lia. }
  unfold strbuf_ncat. rewrite (has_space_rep size m0 full sb m Hrep).
  destruct (append_space size m0 full sb m t Hrep Ht) as (m' & E & Hrep'); [lia|].
  rewrite take_ge in E by (unfold zlen in *; lia).
  pose proof Hrep as []. rewrite sr_null0, sr_end0, sr_current0. cbn [negb andb].
  rewrite (proj2 (Z.ltb_lt _ _)) by lia. rewrite Hloop by (unfold zlen in *; lia). rewrite E.
  cbn [mbind outcome_bind]. rewrite (poke_all_nul_twice _ _ _ _ _ E) by done. cbn [mbind outcome_bind].
  eexists _, _. split; [done|]. split; [done|]. split.
  - unfold strbuf_len, strbuf_end, ptr_lt, set_current. simpl. rewrite sr_null0, sr_end0. zcase; lia.
  - destruct Hrep' as [? ? ? ? Hful [tl ->] ? ?].
    rewrite strlen_nul by (by apply Forall_take).
    rewrite take_ge by (rewrite length_app; unfold zlen in *; lia). by rewrite zlen_app.
Qed.

Lemma strbuf_ncat_overcounts_witness :
  exists sb' m', @strbuf_ncat LP64 (Strbuf false (Some 7) 0) (repeat 0 8) (cstr "ab") 5 = Ret (sb', m')
    /\ strbuf_count sb' = 5 /\ @strbuf_len LP64 sb' = 5 /\ strlen m' = Ret 2.
Proof.
  apply (@strbuf_ncat_overcounts LP64 8 5 (repeat 0 8) [] (zs "ab") (Strbuf false (Some 7) 0) (repeat 0 8)).
  - split; try reflexivity; [discriminate|constructor|exists (repeat 0 7); reflexivity|].
    split; [reflexivity|discriminate].
  - repeat constructor; discriminate.
  - reflexivity.
  - discriminate.
Defined.
