(* ===== verification/StrNumbers.v ===== *)
(** * Correctness of number parsing and formatting (str.c)

    When the digits denote a number that fits the type, the parsers return it
    and stop after the last digit.  The overflow test compares the wrapped
    product with the previous value, which does not see every overflow.
    Formatting with a scale suffix and parsing back gives the number. *)

From Stdlib Require Import ZArith Lia Ascii String.
From stdpp Require Import base tactics list numbers.
From S2P Require Import Prelude Cstring Ctype Str StrHex Strbuf StrbufSpec.

Local Open Scope Z_scope.

(** A digit of the given base, and the number a list of digits denotes. *)
Definition is_digit_of (base c : Z) : bool := isxdigit c && (hexval c <? base).
Definition radix_value (base acc : Z) (ds : list Z) : Z := foldl (fun a c => a * base + hexval c) acc ds.

(** The digits end at [rest]: at a byte that is not a digit (a NUL is none). *)
Definition ends_digits (base : Z) (rest : list Z) : Prop :=
  match rest with c :: _ => is_byte c /\ is_digit_of base c = false | [] => False end.

Lemma is_digit_of_spec base c :
  is_digit_of base c = true -> is_byte c /\ c <> 0 /\ 0 <= hexval c < base /\ hexval c < 16.
Proof.
  unfold is_digit_of. intros H. bsplit. destruct (isxdigit_byte c) as [Hb Hc]; [done|].
  pose proof (hexval_range c Hb). pose proof (hexval_isxdigit c Hb) as E.
  rewrite H in E. simpl in E. bsplit. split_and!; done || lia.
Qed.

Lemma radix_value_ge base acc ds :
  1 <= base -> 0 <= acc -> Forall (fun c => is_digit_of base c = true) ds -> acc <= radix_value base acc ds.
Proof.
  intros Hb. unfold radix_value. intros Ha Hds. revert acc Ha.
  induction Hds as [|c ds Hc Hds IH]; intros acc Ha; simpl; [lia|].
  apply is_digit_of_spec in Hc as (_ & _ & ? & _).
  etrans; [|apply IH]; nia.
Qed.

Section uint.
Variables (w base : Z).
Hypothesis (Hw : 0 <= w) (Hbase : 1 <= base <= 16).

(** The continuation test of the loop. *)
Definition more (bounded : bool) (avail : Z) (s : list Z) : outcome bool :=
  if bounded then Ret (0 <? avail) else c ← rd s; Ret (negb (c =? 0)).

(** One digit that does not overflow. *)
Lemma uint_loop_digit bounded avail value nv c s :
  (bounded = true -> 0 < avail) -> is_digit_of base c = true ->
  0 <= value -> value * base + hexval c < 2 ^ w ->
  uint_loop w base bounded avail value nv (c :: s)
  = uint_loop w base bounded (avail - 1) (value * base + hexval c) (value * base + hexval c) s.
Proof.
  intros Hav Hc Hv Hfit. destruct (is_digit_of_spec base c Hc) as (Hb & Hc0 & Hr & _).
  cbn [uint_loop].
  assert ((if bounded then Ret (0 <? avail) else c0 ← rd (c :: s); Ret (negb (c0 =? 0))) = Ret true) as ->.
  { destruct bounded; [rewrite (proj2 (Z.ltb_lt 0 avail)); auto|].
    simpl. by rewrite (proj2 (Z.eqb_neq _ _) Hc0). }
  cbn [mbind outcome_bind]. rewrite hexvalue_hexval by done. cbn [mbind outcome_bind].
  assert (((hexval c <? 0) || (base <=? hexval c)) = false) as -> by lia.
  rewrite uN_small by nia. assert ((value * base + hexval c <? value) = false) as -> by nia. done.
Qed.

Lemma uint_loop_digits bounded ds : Forall (fun c => is_digit_of base c = true) ds ->
  forall avail value rest, 0 <= value -> radix_value base value ds < 2 ^ w ->
  (bounded = true -> zlen ds <= avail) ->
  uint_loop w base bounded avail value value (ds ++ rest)
  = uint_loop w base bounded (avail - zlen ds) (radix_value base value ds) (radix_value base value ds) rest.
Proof.
  induction 1 as [|c ds Hc Hds IH]; intros avail value rest Hv Hfit Hav.
  - simpl. change (zlen []) with 0. by rewrite Z.sub_0_r.
  - rewrite zlen_cons in *. pose proof (zlen_nonneg ds). simpl app. simpl radix_value in *.
    pose proof (is_digit_of_spec base c Hc) as (_ & _ & ? & _).
    assert (value * base + hexval c <= radix_value base (value * base + hexval c) ds)
      by (apply radix_value_ge; [lia|nia|done]).
    rewrite uint_loop_digit by (done || lia || (intros; specialize (Hav ltac:(done)); lia)).
    rewrite IH by (nia || done || (intros; specialize (Hav ltac:(done)); lia)).
    f_equal. lia.
Qed.

(** The loop stops at a non-digit, or at the end of the length. *)
Lemma uint_loop_stop bounded avail v nv rest :
  (bounded = true /\ avail <= 0) \/ ends_digits base rest ->
  uint_loop w base bounded avail v nv rest = Ret (v, nv, avail, rest).
Proof.
  intros Hstop. destruct rest as [|c rest]; cbn [uint_loop].
  - destruct Hstop as [[-> ?]|[]]. simpl. by rewrite (proj2 (Z.ltb_ge _ _)).
  - destruct Hstop as [[-> ?]|[Hb Hnd]].
    { simpl. by rewrite (proj2 (Z.ltb_ge _ _)). }
    destruct (if bounded then _ else _) as [[]| |] eqn:E; [|done|by destruct bounded..].
    cbn [mbind outcome_bind]. rewrite hexvalue_hexval by done. cbn [mbind outcome_bind].
    assert (((hexval c <? 0) || (base <=? hexval c)) = true) as ->; [|done].
    unfold is_digit_of in Hnd. unfold hexval in *. destruct (isxdigit c); simpl in *; [lia|done].
Qed.
End uint.

(** Where the digits end, and whether that is the end of the text, for a call
    with the given [strlen] (zero for a NUL-terminated string). *)
Definition digits_stop (base strlen n : Z) (rest : list Z) : Prop :=
  if strlen =? 0 then ends_digits base rest
  else strlen = n \/ (n < strlen /\ ends_digits base rest).

Definition at_end (strlen n : Z) (rest : list Z) : bool :=
  if strlen =? 0 then match rest with c :: _ => c =? 0 | [] => false end else strlen =? n.

Lemma strn_to_uint_digits w base strlen afterp ds rest :
  0 <= w -> 1 <= base <= 16 -> 0 <= strlen ->
  Forall (fun c => is_digit_of base c = true) ds -> ds <> [] ->
  radix_value base 0 ds < 2 ^ w -> digits_stop base strlen (zlen ds) rest ->
  strn_to_uint w (ds ++ rest) strlen base afterp
  = Ret (Parsed (afterp || at_end strlen (zlen ds) rest) (radix_value base 0 ds) rest).
Proof.
  intros Hw Hb Hs Hds Hne Hfit Hstop. unfold strn_to_uint.
  rewrite (proj2 (Z.ltb_lt 0 base)), (proj2 (Z.leb_le base 16)) by lia. cbn [cassert mbind outcome_bind].
  pose proof (radix_value_ge base 0 ds ltac:(lia) ltac:(lia) Hds).
  assert (Hlen : Nat.eqb (length rest) (length (ds ++ rest)) = false).
  { apply Nat.eqb_neq. rewrite length_app. destruct ds; simpl in *; [done|lia]. }
  unfold digits_stop, at_end in *.
  assert (Hav : negb (strlen =? 0) = true -> zlen ds <= strlen).
  { intros. destruct (Z.eqb_spec strlen 0); [done|]. destruct Hstop as [?|[? _]]; lia. }
  assert (Hst : (negb (strlen =? 0) = true /\ strlen - zlen ds <= 0) \/ ends_digits base rest).
  { destruct (Z.eqb_spec strlen 0); [by right|]. destruct Hstop as [?|[? ?]]; [left|by right].
    split; [done|lia]. }
  rewrite uint_loop_digits, uint_loop_stop by (done || lia).
  cbn [mbind outcome_bind]. rewrite Hlen, Z.eqb_refl. rewrite (proj2 (Z.leb_le _ (2 ^ w - 1))) by lia.
  destruct afterp; [done|]. cbn [negb andb orb].
  destruct (Z.eqb_spec strlen 0); cbn [negb].
  - destruct rest; [done|]. simpl. by rewrite negb_involutive.
  - simpl. rewrite negb_involutive. do 2 f_equal. repeat zcase; lia.
Qed.

(** When the text starts with digits of the base that denote a number below
    [2^w], [strn_to_uint32]/[strn_to_uint64] (and their NUL-terminated forms, with
    length zero) read exactly the digits: they store that number and a pointer
    after the last digit, and succeed when the caller asked for the pointer or
    the digits are the whole text. *)
Theorem strn_to_uint_exact (w base strlen : Z) (afterp : bool) (ds rest : list Z)
    (Hw : 0 <= w) (Hbase : 1 <= base <= 16) (Hlen : 0 <= strlen)
    (Hds : Forall (fun c => is_digit_of base c = true) ds) (Hne : ds <> [])
    (Hfit : radix_value base 0 ds < 2 ^ w)
    (Hstop : digits_stop base strlen (zlen ds) rest) :
  strn_to_uint w (ds ++ rest) strlen base afterp
  = Ret (Parsed (afterp || at_end strlen (zlen ds) rest) (radix_value base 0 ds) rest).
Proof. by apply strn_to_uint_digits. Qed.

Lemma strn_to_uint_exact_witness :
  strn_to_uint 32 (cstr "4294967295") 0 10 false = Ret (Parsed true 4294967295 [0])
  /\ strn_to_uint32 (zs "ffz") 3 16 true = Ret (Parsed true 255 (zs "z")).
Proof.
  split.
  - apply (strn_to_uint_exact 32 10 0 false (zs "4294967295") [0]);
      [lia|lia|lia|repeat constructor|discriminate|reflexivity|].
    vm_compute. split; [split; [discriminate|reflexivity]|reflexivity].
  - apply (strn_to_uint_exact 32 16 3 true (zs "ff") (zs "z"));
      [lia|lia|lia|repeat constructor|discriminate|reflexivity|].
    right. vm_compute. split; [reflexivity|]. split; [split; [discriminate|reflexivity]|reflexivity].
Defined.

(** What happens at the first digit that overflows.  Let [v] be the number the
    digits before it denote, and [d] that digit, the last of a NUL-terminated
    string.  The parser refuses the string only when the wrapped result
    [(v * base + d) mod 2^w] is below [v]; otherwise it succeeds and stores the
    wrapped result. *)
Theorem strn_to_uint_overflow (w base : Z) (afterp : bool) (ds : list Z) (d : Z)
    (Hw : 0 <= w) (Hbase : 1 <= base <= 16)
    (Hds : Forall (fun c => is_digit_of base c = true) ds) (Hne : ds <> [])
    (Hd : is_digit_of base d = true)
    (Hfit : radix_value base 0 ds < 2 ^ w <= radix_value base 0 (ds ++ [d])) :
  let v := radix_value base 0 ds in
  let wrapped := uN w (v * base + hexval d) in
  strn_to_uint w (ds ++ [d; 0]) 0 base afterp
  = Ret (if wrapped <? v then Parsed false v [d; 0] else Parsed true wrapped [0]).
Proof.
  intros v wrapped. unfold strn_to_uint.
  rewrite (proj2 (Z.ltb_lt 0 base)), (proj2 (Z.leb_le base 16)) by lia. cbn [cassert mbind outcome_bind].
  rewrite uint_loop_digits by (done || lia). fold v.
  destruct (is_digit_of_spec base d Hd) as (Hb & Hd0 & Hr & _).
  cbn [uint_loop negb Z.eqb rd head or_undef mbind outcome_bind].
  rewrite (proj2 (Z.eqb_neq _ _) Hd0). cbn [negb mbind outcome_bind].
  rewrite hexvalue_hexval by done. cbn [mbind outcome_bind].
  assert (((hexval d <? 0) || (base <=? hexval d)) = false) as -> by lia. fold wrapped.
  pose proof (uN_range w (v * base + hexval d) Hw) as Hwr. fold wrapped in Hwr.
  destruct (wrapped <? v) eqn:Hcmp; bsplit; cbn [mbind outcome_bind].
  - assert ((v =? wrapped) = false) as -> by lia. rewrite andb_false_r.
    destruct afterp; simpl; by rewrite ?andb_false_l.
  - cbn [uint_loop rd head or_undef mbind outcome_bind negb Z.eqb length]. rewrite Z.eqb_refl, (proj2 (Z.leb_le _ (2 ^ w - 1))) by lia.
    assert (Nat.eqb 1 (length (ds ++ [d; 0])) = false) as ->.
    { apply Nat.eqb_neq. rewrite length_app. simpl. lia. }
    by destruct afterp.
Qed.

(** The string 10000000000 read as a 32-bit number is accepted as 1410065408. *)
Lemma strn_to_uint_overflow_witness :
  strn_to_uint 32 (cstr "10000000000") 0 10 false = Ret (Parsed true 1410065408 [0]).
Proof.
  apply (strn_to_uint_overflow 32 10 false (zs "1000000000") (chr "0"));
    [lia|lia|repeat constructor|discriminate|reflexivity|].
  vm_compute. split; [reflexivity|discriminate].
Defined.

(** ** Decimal formatting *)

Definition decimal_ok (v : Z) (ds : list Z) : Prop :=
  Forall (fun c => is_digit_of 10 c = true) ds /\ radix_value 10 0 ds = v /\ ds <> [].

Lemma dec_digit d : 0 <= d < 10 -> is_digit_of 10 (48 + d) = true /\ hexval (48 + d) = d.
Proof.
  intros Hd. pose proof (hexval_hexdig d ltac:(lia)) as E.
  pose proof (hexdig_isxdigit d ltac:(lia)) as X.
  unfold hexdig in *. rewrite (proj2 (Z.ltb_lt d 10)) in * by lia.
  split; [|done]. unfold is_digit_of. rewrite X, E. simpl. apply Z.ltb_lt. lia.
Qed.

Lemma radix_value_app base acc l1 l2 :
  radix_value base acc (l1 ++ l2) = radix_value base (radix_value base acc l1) l2.
Proof. apply foldl_app. Qed.

Lemma decimal_loop_spec fuel v acc :
  0 <= v < 10 ^ Z.of_nat fuel -> (0 < fuel)%nat ->
  exists ds, decimal_loop fuel v acc = ds ++ acc /\ decimal_ok v ds /\ (length ds <= fuel)%nat.
Proof.
  revert v acc. induction fuel as [|fuel IH]; intros v acc Hv Hf; [lia|].
  cbn [decimal_loop]. zcase.
  - exists [48 + v]. destruct (dec_digit v) as [E1 E2]; [lia|].
    split; [done|]. split; [|simpl; lia]. split_and!; [by repeat constructor|simpl; lia|done].
  - assert (Hpow : 10 ^ Z.of_nat (S fuel) = 10 * 10 ^ Z.of_nat fuel)
      by (rewrite Nat2Z.inj_succ, Z.pow_succ_r by lia; lia).
    assert (Hf' : (0 < fuel)%nat) by (destruct fuel; [simpl in *; lia|lia]).
    destruct (IH (v / 10) (48 + v mod 10 :: acc)) as (ds & E & (Hds & Hval & Hne) & Hlen);
      [split; [apply Z.div_pos; lia|apply Z.div_lt_upper_bound; lia]|done|].
    destruct (dec_digit (v mod 10)) as [E1 E2]; [dmlia|].
    exists (ds ++ [48 + v mod 10]). split; [by rewrite E, <- app_assoc|].
    split; [|rewrite length_app; simpl; lia].
    split_and!; [|rewrite radix_value_app, Hval; simpl; dmlia|by destruct ds].
    apply Forall_app. split; [done|by repeat constructor].
Qed.

Lemma decimal_spec v : 0 <= v < 2 ^ 64 -> decimal_ok v (decimal v) /\ zlen (decimal v) <= 20.
Proof.
  intros Hv. destruct (decimal_loop_spec 20 v []) as (ds & E & Hok & Hlen);
    [split; [lia|]; etrans; [apply Hv|reflexivity]|lia|].
  unfold decimal. rewrite E, app_nil_r. split; [done|unfold zlen; lia].
Qed.

Lemma digits_no_nul base ds : Forall (fun c => is_digit_of base c = true) ds -> no_nul ds.
Proof. intros Hds. eapply Forall_impl; [|exact Hds]. intros c Hc. by apply is_digit_of_spec in Hc as (_ & ? & _). Qed.

(** ** Scale suffixes *)

Lemma scale_factor_in s f rest :
  In (s, f) scale_factors -> scale_factor (s :: rest) true = Ret (f, rest) /\ 1 <= f
  /\ s <> 0 /\ ends_digits 10 (s :: rest).
Proof.
  intros Hin. simpl in Hin.
  repeat (destruct Hin as [[= <- <-]|Hin]; [split_and!; vm_compute; (discriminate || reflexivity || done)|]).
  done.
Qed.

Lemma scale_factor_nul rest : scale_factor (0 :: rest) true = Ret (1, 0 :: rest).
Proof. reflexivity. Qed.

(** A suffix is chosen only when its factor divides the value. *)
Lemma scale_down_spec v :
  0 <= v ->
  scale_down v = (v, None)
  \/ exists v' s f, scale_down v = (v', Some s) /\ In (s, f) scale_factors /\ v = v' * f /\ 0 <= v' <= v.
Proof.
  intros Hv. unfold scale_down.
  destruct (list_find (fun e : Z * Z => v mod e.2 = 0) scale_factors) as [[i [s f]]|] eqn:E; [right|by left].
  apply list_find_Some in E as (Hl & Hdiv & _). apply list_elem_of_lookup_2, list_elem_of_In in Hl.
  destruct (scale_factor_in s f [] Hl) as (_ & Hf & _). simpl in Hdiv.
  assert (v = v / f * f) by (pose proof (Z.div_mod v f); lia).
  assert (0 <= v / f) by (apply Z.div_pos; lia).
  exists (v / f), s, f. split_and!; [done|done|done|lia|nia].
Qed.

(** Parsing digits followed by a known suffix, or by the end of the string. *)
Lemma scaled_parse w wrap v' s f rest ds :
  0 <= w -> decimal_ok v' ds -> v' < 2 ^ w -> In (s, f) scale_factors -> wrap (v' * f) = v' * f ->
  scaled_with (strn_to_uint w (ds ++ s :: 0 :: rest) 0 10 true) wrap false
  = Ret (Parsed true (v' * f) (0 :: rest)).
Proof.
  intros Hw (Hds & Hval & Hne) Hfit Hin Hwrap.
  destruct (scale_factor_in s f (0 :: rest) Hin) as (E & _ & _ & Hend).
  unfold scaled_with. rewrite strn_to_uint_digits by (done || lia).
  cbn [orb mbind outcome_bind p_ok p_end p_value negb]. rewrite E. cbn [mbind outcome_bind].
  rewrite Hval, Hwrap. done.
Qed.

Lemma unscaled_parse w wrap v' rest ds :
  0 <= w -> decimal_ok v' ds -> v' < 2 ^ w -> wrap v' = v' ->
  scaled_with (strn_to_uint w (ds ++ 0 :: rest) 0 10 true) wrap false
  = Ret (Parsed true v' (0 :: rest)).
Proof.
  intros Hw (Hds & Hval & Hne) Hfit Hwrap.
  unfold scaled_with. rewrite strn_to_uint_digits by (done || lia || by simpl).
  cbn [orb mbind outcome_bind p_ok p_end p_value negb]. rewrite scale_factor_nul. cbn [mbind outcome_bind].
  rewrite Hval, Z.mul_1_r, Hwrap. done.
Qed.

(** The text [scaled_to_str] leaves in the buffer. *)
Lemma scaled_to_str_text `{Arch} m0 len v :
  0 <= v < 2 ^ 64 -> 22 <= len <= zlen m0 ->
  let '(v', symbol) := scale_down v in
  exists tl, scaled_to_str m0 len v = Ret (true, decimal v' ++ option_list symbol ++ 0 :: tl).
Proof.
  intros Hv Hlen. unfold scaled_to_str. destruct (scale_down v) as [v' symbol] eqn:Hsd.
  assert (Hv' : 0 <= v' < 2 ^ 64 /\ (forall s, symbol = Some s -> s <> 0)).
  { destruct (scale_down_spec v) as [E|(v1 & s & f & E & Hin & ? & ?)]; [lia|..]; rewrite Hsd in E;
      simplify_eq; [done|]. split; [lia|]. intros ? [= <-]. by eapply (scale_factor_in _ _ []). }
  destruct Hv' as [Hv' Hsym]. destruct (decimal_spec v' Hv') as [(Hds & _ & _) Hdl].
  set (ops := OSprintf (decimal v') :: match symbol with Some s => [OPutc s] | None => [] end).
  assert (Hops : Forall sb_valid ops).
  { constructor; [by eapply digits_no_nul|]. destruct symbol; [|constructor].
    apply Forall_singleton. simpl. auto. }
  destruct (strbuf_session_rep len m0 ops ltac:(lia) Hops) as (sb & m & E & Hrep).
  replace (foldl _ [] ops) with (decimal v' ++ option_list symbol) in Hrep
    by (subst ops; destruct symbol; simpl; by rewrite ?app_nil_r).
  assert (Hprog : scaled_to_str m0 len v = Ret (negb (strbuf_overrun sb), m)).
  { unfold scaled_to_str. rewrite Hsd. revert E. subst ops.
    destruct (strbuf_init false len m0) as [[b1 m1]| |]; [|done..]. cbn [mbind outcome_bind sb_run sb_exec].
    destruct (strbuf_sprintf b1 m1 (decimal v')) as [[b2 m2]| |]; [|done..]. cbn [mbind outcome_bind].
    destruct symbol as [s|]; cbn [sb_run sb_exec mbind outcome_bind]; [|by intros [= -> ->]].
    destruct (strbuf_putc b2 m2 s) as [[b3 m3]| |]; [|done..]. cbn. by intros [= -> ->]. }
  assert (Hfl : zlen (decimal v' ++ option_list symbol) <= len - 1).
  { rewrite zlen_app. destruct symbol; simpl; unfold zlen in *; simpl; lia. }
  unfold scaled_to_str in Hprog. rewrite Hsd in Hprog. rewrite Hprog.
  rewrite (overrun_rep len m0 _ sb m Hrep), (proj2 (Z.ltb_ge _ _)) by lia.
  destruct Hrep as [? ? ? ? ? [tl ->] ? ?]. exists tl.
  rewrite take_ge by (unfold zlen in *; lia). by rewrite <- app_assoc.
Qed.

(** Formatting any 32-bit or 64-bit number with a scale suffix into a buffer
    of at least 22 bytes succeeds, and parsing the resulting string with the
    scaled parser of that width, insisting on the end of the string, gives the
    number back. *)
Theorem scaled_roundtrip `{Arch} (m0 : list Z) (len v : Z) (Hlen : 22 <= len <= zlen m0) :
  (0 <= v < 2 ^ 64 -> exists m tl, uint64_scaled_to_str m0 len v = Ret (true, m)
     /\ str_to_uint64_scaled m 10 false = Ret (Parsed true v (0 :: tl)))
  /\ (0 <= v < 2 ^ 32 -> exists m tl, uint32_scaled_to_str m0 len v = Ret (true, m)
     /\ str_to_uint32_scaled m 10 false = Ret (Parsed true v (0 :: tl))).
Proof.
  assert (Hgen : forall w wrap, 0 <= w <= 64 -> (forall x, 0 <= x < 2 ^ w -> wrap x = x) -> 0 <= v < 2 ^ w ->
    exists m tl, scaled_to_str m0 len v = Ret (true, m)
      /\ scaled_with (strn_to_uint w m 0 10 true) wrap false = Ret (Parsed true v (0 :: tl))).
  { intros w wrap Hw Hwrap Hv. assert (2 ^ w <= 2 ^ 64) by (apply Z.pow_le_mono_r; lia).
    pose proof (scaled_to_str_text m0 len v ltac:(lia) Hlen) as Ht.
    destruct (scale_down_spec v) as [E|(v' & s & f & E & Hin & -> & Hr)]; [lia|..]; rewrite E in Ht;
      destruct Ht as [tl Et]; eexists _, tl; (split; [exact Et|]); simpl app.
    - apply unscaled_parse; [lia|by apply decimal_spec; lia|lia|auto].
    - apply scaled_parse; [lia|by apply decimal_spec; lia|lia|done|auto]. }
  split; intros Hv.
  - apply (Hgen 64); [lia|apply uN_small|done].
  - apply (Hgen 32); [lia| |done]. intros x Hx. rewrite (uN_small 64) by lia. by apply uN_small.
Qed.

Lemma scaled_roundtrip_witness :
  exists m tl, @uint64_scaled_to_str LP64 (repeat 0 24) 24 5242880 = Ret (true, m)
    /\ str_to_uint64_scaled m 10 false = Ret (Parsed true 5242880 (0 :: tl)).
Proof.
  apply (proj1 (@scaled_roundtrip LP64 (repeat 0 24) 24 5242880 ltac:(vm_compute; split; discriminate))).
  lia.
Defined.
