(* ===== verification/Uri.v ===== *)
(** * Picking a URI apart (str.c, str.h)

    Each function returns [None] for 0 or the part it found: the pointer it
    stores in [*partp] and the length it stores in [*lenp]. *)

From Stdlib Require Import ZArith Lia Ascii String.
From stdpp Require Import base tactics list numbers.
From S2P Require Import Prelude Cstring Ctype Str.

Local Open Scope Z_scope.

(** [while (p( *s)) ++s;]: how far it goes, and where it stops. *)
Fixpoint scan (p : Z -> outcome bool) (s : list Z) : outcome (Z * list Z) :=
  match s with
  | [] => Undef
  | c :: s' =>
    b ← p c;
    if b : bool then '(n, r) ← scan p s'; Ret (n + 1, r) else Ret (0, s)
  end.

(** [is_uri_char_unreserved(c) || is_uri_char_reserved(c)] *)
Definition uri_char (c : Z) : outcome bool :=
  u ← is_uri_char_unreserved c; if u : bool then Ret true else is_uri_char_reserved c.

(** [*p && (unreserved || reserved) && *p != ... ] for the given stop characters. *)
Definition uri_part_char (stops : list Z) (c : Z) : outcome bool :=
  if c =? 0 then Ret false
  else u ← uri_char c; Ret (u && negb (bool_decide (c ∈ stops))).

(** [*p && *p != ...] for the given stop characters. *)
Definition not_stop (stops : list Z) (c : Z) : outcome bool :=
  Ret (negb (c =? 0) && negb (bool_decide (c ∈ stops))).

Definition str_is_uri_scheme (scheme : list Z) : outcome bool :=
  c ← rd scheme;
  if negb (isalpha c) then Ret false
  else '(_, p) ← scan is_uri_char_scheme (tail scheme);
       d ← rd p; Ret (d =? 0).

Definition str_uri_scheme (uri : list Z) : outcome (option (list Z * Z)) :=
  c ← rd uri;
  if negb (isalpha c) then Ret None
  else '(n, p) ← scan is_uri_char_scheme (tail uri);
       d ← rd p;
       if d =? chr ":" then Ret (Some (uri, n + 1)) else Ret None.

Definition str_is_uri (uri : list Z) : outcome bool :=
  r ← str_uri_scheme uri;
  match r with
  | None => Ret false
  | Some (p, len) =>
    let q := drop (Z.to_nat (len + 1)) p in
    '(n, p) ← scan (uri_part_char (zs "?#")) q;
    if n =? 0 then Ret false else
    c ← rd p;
    p ← (if c =? chr "?" then '(_, p) ← scan (uri_part_char (zs "?#")) (tail p); Ret p else Ret p);
    c ← rd p;
    p ← (if c =? chr "#" then '(_, p) ← scan (uri_part_char (zs "?#")) (tail p); Ret p else Ret p);
    c ← rd p;
    Ret (c =? 0)
  end.

Definition str_uri_hierarchical (uri : list Z) : outcome (option (list Z * Z)) :=
  '(_, p) ← scan (not_stop (zs ":")) uri;
  c ← rd p;
  if negb (c =? chr ":") then Ret None else
  let q := tail p in
  '(n, _) ← scan (uri_part_char (zs "?#")) q;
  if n =? 0 then Ret None else Ret (Some (q, n)).

Definition str_uri_query (uri : list Z) : outcome (option (list Z * Z)) :=
  '(_, p) ← scan (not_stop (zs "?")) uri;
  c ← rd p;
  if negb (c =? chr "?") then Ret None else
  let q := tail p in
  '(n, p) ← scan (uri_part_char (zs "#")) q;
  c ← rd p;
  if (n =? 0) || (negb (c =? 0) && negb (c =? chr "#")) then Ret None else Ret (Some (q, n)).

Definition str_uri_fragment (uri : list Z) : outcome (option (list Z * Z)) :=
  '(_, p) ← scan (not_stop (zs "#")) uri;
  c ← rd p;
  if negb (c =? chr "#") then Ret None else
  let q := tail p in
  '(n, p) ← scan (uri_part_char []) q;
  c ← rd p;
  if (n =? 0) || negb (c =? 0) then Ret None else Ret (Some (q, n)).

(** [hier[0] != '/' || hier[1] != '/'] *)
Definition no_slashes (hier : list Z) : outcome bool :=
  c ← rd hier;
  if negb (c =? chr "/") then Ret true else d ← rdn hier 1; Ret (negb (d =? chr "/")).

Definition str_uri_hierarchical_authority (hier : list Z) : outcome (option (list Z * Z)) :=
  b ← no_slashes hier;
  if b : bool then Ret None else
  let q := drop 2 hier in
  '(n, p) ← scan (uri_part_char (zs "/?#")) q;
  c ← rd p;
  if (n =? 0) || (negb (c =? 0) && negb (bool_decide (c ∈ zs "/?#"))) then Ret None
  else Ret (Some (q, n)).

Definition str_uri_hierarchical_path (hier : list Z) : outcome (option (list Z * Z)) :=
  b ← no_slashes hier;
  if b : bool then Ret None else
  '(_, p) ← scan (not_stop (zs "/?#")) (drop 2 hier);
  c ← rd p;
  if c =? 0 then Ret None else
  let q := tail p in
  '(n, p) ← scan (uri_part_char (zs "/?#")) q;
  c ← rd p;
  if (n =? 0) || (negb (c =? 0) && negb (bool_decide (c ∈ zs "/?#"))) then Ret None
  else Ret (Some (q, n)).

(** The common start of the user name and password functions: is there an [@]
    before the end of the authority, and a colon before it?  Gives the number of
    characters before the colon and the pointer to it. *)
Definition authority_colon (auth : list Z) : outcome (option (Z * list Z)) :=
  '(_, p) ← scan (not_stop (zs "@/?#")) auth;
  c ← rd p;
  if negb (c =? chr "@") then Ret None else
  '(n, p) ← scan (not_stop (zs ":@")) auth;
  c ← rd p;
  if negb (c =? chr ":") then Ret None else Ret (Some (n, p)).

Definition str_uri_authority_username (auth : list Z) : outcome (option (list Z * Z)) :=
  r ← authority_colon auth;
  match r with None => Ret None | Some (n, _) => Ret (Some (auth, n)) end.

Definition str_uri_authority_password (auth : list Z) : outcome (option (list Z * Z)) :=
  r ← authority_colon auth;
  match r with
  | None => Ret None
  | Some (_, p) =>
    let q := tail p in
    '(n, p) ← scan (not_stop (zs "@")) q;
    c ← rd p;
    _ ← cassert (c =? chr "@");
    Ret (Some (q, n))
  end.

(** The scan over the authority that the host name and port functions share:
    offsets of the end [p] and of [q], the character after the last [@]. *)
Fixpoint authority_scan (pos q : Z) (s : list Z) : outcome (Z * Z) :=
  match s with
  | [] => Undef
  | c :: s =>
    if negb (c =? 0) && negb (bool_decide (c ∈ zs "/?#"))
    then authority_scan (pos + 1) (if c =? chr "@" then pos + 1 else q) s
    else Ret (pos, q)
  end.

(** [while (r > q && isdigit( *--r));] *)
Fixpoint back_digits (fuel : nat) (auth : list Z) (r q : Z) : outcome Z :=
  match fuel with
  | O => Ret r
  | S fuel =>
    if q <? r then
      c ← rdn auth (r - 1);
      if isdigit c then back_digits fuel auth (r - 1) q else Ret (r - 1)
    else Ret r
  end.

(** Offsets [(p, q, r)] and whether a port follows [r]; the backward loop runs at
    most [p - q] times. *)
Definition authority_port_at (auth : list Z) : outcome (Z * Z * Z * bool) :=
  '(p, q) ← authority_scan 0 0 auth;
  r ← back_digits (Z.to_nat (p - q) + 1) auth p q;
  has ← (if r <? p - 1 then c ← rdn auth r; Ret (c =? chr ":") else Ret false);
  Ret (p, q, r, has).

Definition str_uri_authority_hostname (auth : list Z) : outcome (option (list Z * Z)) :=
  '(p, q, r, has) ← authority_port_at auth;
  let p := if has : bool then r else p in
  Ret (Some (drop (Z.to_nat q) auth, p - q)).

(** [atoi] is [(int) strtol(s, NULL, 10)]. *)
Definition str_uri_authority_port `{Arch} (auth : list Z) : outcome (option Z) :=
  '(p, q, r, has) ← authority_port_at auth;
  if has : bool then
    '(z, s) ← scan (fun c => Ret (c =? 48)) (drop (Z.to_nat (r + 1)) auth);
    let r := r + 1 + z in
    if p - r <=? 5 then
      '(v, _, _) ← strtol s 10;
      let n := u32 (s32 v) in
      if n <=? 65535 then Ret (Some (u16 n)) else Ret None
    else Ret None
  else Ret None.
