(* ===== verification/UriSpec.v ===== *)
(** * Correctness of the URI functions (str.c)

    A string that [str_is_uri] accepts is put back together from the parts the
    other functions find in it, and an authority assembled from its parts is
    picked apart into them. *)

From Stdlib Require Import ZArith Lia Ascii String.
From stdpp Require Import base tactics list numbers.
From S2P Require Import Prelude Cstring Ctype Str StrHex StrNumbers Uri.

Local Open Scope Z_scope.

(** ** Scanning *)

Abbreviation accepts p := (Forall (fun c => p c = Ret true)).

Lemma scan_app p l x rest :
  accepts p l -> p x = Ret false -> scan p (l ++ x :: rest) = Ret (zlen l, x :: rest).
Proof.
  intros Hl Hx. induction Hl as [|c l Hc Hl IH]; simpl; [by rewrite Hx|].
  rewrite Hc. simpl. rewrite IH. simpl. rewrite zlen_cons. do 2 f_equal. lia.
Qed.

Lemma scan_inv p s n r :
  scan p s = Ret (n, r) ->
  exists l x rest, s = l ++ x :: rest /\ r = x :: rest /\ n = zlen l /\ accepts p l /\ p x = Ret false.
Proof.
  revert n r. induction s as [|c s IH]; intros n r; simpl; [done|].
  destruct (p c) as [[]| |] eqn:Hc; simpl; [|intros [= <- <-]|done..].
  - destruct (scan p s) as [[n' r']| |]; [|done..]. simpl. intros [= <- <-].
    destruct (IH n' r' eq_refl) as (l & x & rest & -> & -> & -> & Hl & Hx).
    exists (c :: l), x, rest. split_and!; [done|done|rewrite zlen_cons; lia|by constructor|done].
  - by exists [], c, s.
Qed.

Lemma accepts_impl (p q : Z -> outcome bool) l : accepts p l -> (forall c, p c = Ret true -> q c = Ret true) -> accepts q l.
Proof. intros Hl Hpq. eapply Forall_impl; [|exact Hl]. auto. Qed.

(** ** Character classes *)

Lemma scheme_not c stops :
  is_uri_char_scheme c = Ret true \/ isalpha c = true -> Forall (fun d => d ∈ zs ":?#@/") stops ->
  not_stop stops c = Ret true.
Proof.
  intros Hc Hs. unfold not_stop. f_equal. apply andb_true_iff. split.
  - apply negb_true_iff, Z.eqb_neq. intros ->. by destruct Hc.
  - apply negb_true_iff, bool_decide_eq_false. intros Hin.
    rewrite Forall_forall in Hs. specialize (Hs c (proj1 (list_elem_of_In _ _) Hin)).
    cbn [zs] in Hs.
    repeat (apply elem_of_cons in Hs as [->|Hs]; [destruct Hc as [Hc|Hc]; vm_compute in Hc; discriminate|]).
    by apply not_elem_of_nil in Hs.
Qed.

(** What a character of a part is, in terms of its stop characters. *)
Lemma part_char_spec stops c :
  uri_part_char stops c = Ret true <-> c <> 0 /\ uri_char c = Ret true /\ c ∉ stops.
Proof.
  unfold uri_part_char. destruct (Z.eqb_spec c 0); [by split; [|intros []]|].
  destruct (uri_char c) as [[]| |]; simpl; [|by split; [|intros (_ & ? & _)]..].
  destruct (bool_decide (c ∈ stops)) eqn:E; bsplit; split; try done. by intros (_ & _ & ?).
Qed.

Lemma part_char_weaken stops stops' c :
  (forall d, d ∈ stops' -> d ∈ stops) -> uri_part_char stops c = Ret true -> uri_part_char stops' c = Ret true.
Proof. rewrite !part_char_spec. intros Hsub (? & ? & Hs). split_and!; auto. Qed.

Lemma part_not_stop stops stops' c :
  (forall d, d ∈ stops' -> d ∈ stops) -> uri_part_char stops c = Ret true -> not_stop stops' c = Ret true.
Proof.
  rewrite part_char_spec. intros Hsub (H0 & _ & Hs). unfold not_stop. f_equal.
  rewrite (proj2 (Z.eqb_neq _ _) H0), bool_decide_eq_false_2; [done|]. auto.
Qed.

Lemma part_stop stops c : c ∈ stops -> (exists b, uri_char c = Ret b) -> uri_part_char stops c = Ret false.
Proof.
  intros Hin [b Hb]. unfold uri_part_char. destruct (c =? 0); [done|]. rewrite Hb. simpl.
  rewrite bool_decide_eq_true_2 by done. by rewrite andb_false_r.
Qed.

(** An optional part with its introducing character. *)
Definition opt_part (c : Z) (o : option (list Z)) : list Z :=
  match o with None => [] | Some l => c :: l end.

Definition found (o : option (list Z)) (rest : list Z) : option (list Z * Z) :=
  match o with Some ((_ :: _) as l) => Some (l ++ rest, zlen l) | _ => None end.

(** The shape of a URI. *)
Record uri_shape (scheme hier : list Z) (query frag : option (list Z)) : Prop := {
  us_scheme : exists c s, scheme = c :: s /\ isalpha c = true /\ accepts is_uri_char_scheme s;
  us_hier : accepts (uri_part_char (zs "?#")) hier /\ hier <> [];
  us_query : accepts (uri_part_char (zs "?#")) (default [] query);
  us_frag : accepts (uri_part_char (zs "?#")) (default [] frag)
}.

Definition uri_text (scheme hier : list Z) (query frag : option (list Z)) (rest : list Z) : list Z :=
  scheme ++ chr ":" :: hier ++ opt_part (chr "?") query ++ opt_part (chr "#") frag ++ 0 :: rest.

(** What follows the hierarchical part stops a scan of it. *)
Lemma after_hier query frag rest : exists x r, opt_part (chr "?") query ++ opt_part (chr "#") frag ++ 0 :: rest = x :: r
  /\ uri_part_char (zs "?#") x = Ret false.
Proof.
  destruct query as [q|]; [|destruct frag as [f|]]; simpl; eexists _, _; (split; [done|]); reflexivity.
Qed.

Lemma after_query frag rest : exists x r, opt_part (chr "#") frag ++ 0 :: rest = x :: r
  /\ uri_part_char (zs "#") x = Ret false /\ (x = 0 \/ x = chr "#").
Proof.
  destruct frag as [f|]; simpl; eexists _, _; (split; [done|]); (split; [reflexivity|auto]).
Qed.

Lemma part_accepts l : accepts (uri_part_char (zs "?#")) l -> forall stops,
  (forall d, d ∈ stops -> d ∈ zs "?#") ->
  accepts (not_stop stops) l /\ accepts (uri_part_char stops) l.
Proof.
  intros Hl stops Hsub. split; (eapply accepts_impl; [exact Hl|]); intros c.
  - by apply part_not_stop.
  - by apply part_char_weaken.
Qed.

Lemma in_query_stops d : d ∈ zs "?" \/ d ∈ zs "#" -> d ∈ zs "?#".
Proof. cbn [zs]. rewrite !elem_of_cons. tauto. Qed.

Section shape.
Variables (scheme hier : list Z) (query frag : option (list Z)) (rest : list Z).
Hypothesis Hs : uri_shape scheme hier query frag.
Let u := uri_text scheme hier query frag rest.

Lemma shape_scheme_stops stops :
  Forall (fun d => d ∈ zs ":?#@/") stops -> accepts (not_stop stops) scheme.
Proof.
  intros Hst. pose proof Hs as [(c & s & -> & Hc & Hss) _ _ _].
  constructor; [apply scheme_not; auto|]. eapply accepts_impl; [exact Hss|]. intros. apply scheme_not; auto.
Qed.

Lemma shape_scheme : str_uri_scheme u = Ret (Some (u, zlen scheme)).
Proof.
  unfold u, uri_text. pose proof Hs as [(c & s & -> & Hc & Hss) _ _ _].
  unfold str_uri_scheme. cbn [rd head or_undef mbind outcome_bind app tail]. rewrite Hc. cbn [negb].
  rewrite scan_app by (done || reflexivity). cbn [rd head or_undef mbind outcome_bind].
  rewrite Z.eqb_refl, zlen_cons. do 3 f_equal. lia.
Qed.

Lemma shape_hier : str_uri_hierarchical u
  = Ret (Some (hier ++ opt_part (chr "?") query ++ opt_part (chr "#") frag ++ 0 :: rest, zlen hier)).
Proof.
  unfold u, uri_text, str_uri_hierarchical. pose proof Hs as [_ [Hh Hne] _ _].
  rewrite scan_app; [|apply shape_scheme_stops; vm_compute; repeat constructor|reflexivity].
  cbn [rd head or_undef mbind outcome_bind tail]. rewrite Z.eqb_refl. cbn [negb].
  destruct (after_hier query frag rest) as (x & r & -> & Hx). rewrite scan_app by done. cbn [mbind outcome_bind].
  destruct hier; [done|]. rewrite zlen_cons. pose proof (zlen_nonneg l).
  by rewrite (proj2 (Z.eqb_neq _ _)) by lia.
Qed.

(** The text before the query, and before the fragment, holds no character that
    would start one. *)
Lemma before_query_stops stops :
  Forall (fun d => d ∈ zs "?#") stops -> accepts (not_stop stops) (scheme ++ chr ":" :: hier).
Proof.
  intros Hst. pose proof Hs as [_ [Hh _] _ _].
  assert (Hsub : forall d, d ∈ stops -> d ∈ zs "?#").
  { intros d Hd. rewrite Forall_forall in Hst. apply Hst. by apply list_elem_of_In. }
  apply Forall_app. split; [|constructor].
  - apply shape_scheme_stops. eapply Forall_impl; [|exact Hst]. intros d Hd.
    cbn [zs] in *. rewrite !elem_of_cons in *. tauto.
  - unfold not_stop. rewrite bool_decide_eq_false_2; [done|]. intros Hin. apply Hsub in Hin.
    cbn [zs] in Hin. rewrite !elem_of_cons in Hin.
    destruct Hin as [Hin|[Hin|Hin]]; [discriminate..|by apply not_elem_of_nil in Hin].
  - eapply accepts_impl; [exact Hh|]. intros c. by apply part_not_stop.
Qed.

Lemma shape_query : str_uri_query u = Ret (found query (opt_part (chr "#") frag ++ 0 :: rest)).
Proof.
  unfold u, uri_text, str_uri_query. pose proof Hs as [_ _ Hq Hf].
  assert (Hpre : accepts (not_stop (zs "?")) (scheme ++ chr ":" :: hier)).
  { apply before_query_stops. vm_compute. repeat constructor. }
  destruct query as [q|].
  - replace (scheme ++ _) with ((scheme ++ chr ":" :: hier) ++ chr "?" :: q ++ opt_part (chr "#") frag ++ 0 :: rest)
      by (rewrite <- !app_assoc; done).
    rewrite scan_app by (done || reflexivity). cbn [rd head or_undef mbind outcome_bind tail].
    rewrite Z.eqb_refl. cbn [negb].
    destruct (after_query frag rest) as (x & r & -> & Hx & Hx').
    simpl in Hq. destruct (part_accepts q Hq (zs "#") ltac:(intros; apply in_query_stops; by right)) as [_ Hq'].
    rewrite scan_app by done. cbn [rd head or_undef mbind outcome_bind].
    assert ((negb (x =? 0) && negb (x =? chr "#")) = false) as -> by (destruct Hx' as [-> | ->]; reflexivity).
    rewrite orb_false_r. destruct q as [|c q]; [done|]. rewrite zlen_cons. pose proof (zlen_nonneg q).
    rewrite (proj2 (Z.eqb_neq _ _)) by lia. simpl. by rewrite zlen_cons.
  - replace (scheme ++ _) with (((scheme ++ chr ":" :: hier) ++ opt_part (chr "#") frag) ++ 0 :: rest)
      by (rewrite <- !app_assoc; done).
    rewrite scan_app; [done| |done]. apply Forall_app. split; [done|].
    destruct frag as [f|]; [|constructor]. simpl in Hf. constructor; [reflexivity|].
    apply part_accepts; [done|]. intros. apply in_query_stops. by left.
Qed.

Lemma shape_frag : str_uri_fragment u = Ret (found frag (0 :: rest)).
Proof.
  unfold u, uri_text, str_uri_fragment. pose proof Hs as [_ _ Hq Hf].
  assert (Hpre : accepts (not_stop (zs "#")) ((scheme ++ chr ":" :: hier) ++ opt_part (chr "?") query)).
  { apply Forall_app. split; [apply before_query_stops; vm_compute; repeat constructor|].
    destruct query as [q|]; [|constructor]. constructor; [reflexivity|].
    apply part_accepts; [done|]. intros. apply in_query_stops. by right. }
  replace (scheme ++ _) with (((scheme ++ chr ":" :: hier) ++ opt_part (chr "?") query) ++ opt_part (chr "#") frag ++ 0 :: rest)
    by (rewrite <- !app_assoc; done).
  destruct frag as [f|]; simpl opt_part; simpl app.
  - rewrite scan_app by (done || reflexivity). cbn [rd head or_undef mbind outcome_bind tail].
    rewrite Z.eqb_refl. cbn [negb]. simpl in Hf.
    destruct (part_accepts f Hf [] ltac:(intros ? []%not_elem_of_nil)) as [_ Hf'].
    rewrite scan_app by done. cbn [rd head or_undef mbind outcome_bind]. rewrite orb_false_r.
    destruct f as [|c f]; [done|]. rewrite zlen_cons. pose proof (zlen_nonneg f).
    rewrite (proj2 (Z.eqb_neq _ _)) by lia. simpl. by rewrite zlen_cons.
  - by rewrite scan_app by done.
Qed.
End shape.

(** The optional parts [str_is_uri] consumes. *)
Lemma opt_part_scan ch x rest p' :
  (if x =? ch then '(_, p) ← scan (uri_part_char (zs "?#")) (tail (x :: rest)); Ret p else Ret (x :: rest)) = Ret p' ->
  exists o, x :: rest = opt_part ch o ++ p' /\ accepts (uri_part_char (zs "?#")) (default [] o) /\ p' <> [].
Proof.
  destruct (Z.eqb_spec x ch) as [->|]; [|intros [= <-]; exists None; by repeat split].
  simpl tail. destruct (scan _ rest) as [[n p]| |] eqn:E; [|done..]. simpl. intros [= <-].
  apply scan_inv in E as (l & y & r & -> & -> & _ & Hl & _). exists (Some l). by repeat split.
Qed.

(** [str_is_uri] accepts only texts of that shape. *)
Lemma str_is_uri_shape u :
  str_is_uri u = Ret true ->
  exists scheme hier query frag rest,
    u = uri_text scheme hier query frag rest /\ uri_shape scheme hier query frag.
Proof.
  unfold str_is_uri. destruct (str_uri_scheme u) as [[[p len]|]| |] eqn:Hsch; [|done..].
  cbn [mbind outcome_bind]. unfold str_uri_scheme in Hsch. destruct u as [|c u]; [done|].
  cbn [rd head or_undef mbind outcome_bind tail] in Hsch.
  destruct (isalpha c) eqn:Hal; [|done]. cbn [negb] in Hsch.
  destruct (scan is_uri_char_scheme u) as [[n r]| |] eqn:Hscan; [|done..].
  apply scan_inv in Hscan as (s & x & rest1 & -> & -> & -> & Hss & _).
  cbn [rd head or_undef mbind outcome_bind] in Hsch. destruct (Z.eqb_spec x (chr ":")) as [->|]; [|done].
  injection Hsch as <- <-.
  replace (drop _ _) with rest1.
  2:{ change (c :: s ++ chr ":" :: rest1) with ((c :: s) ++ [chr ":"] ++ rest1). rewrite app_assoc.
      rewrite drop_app_length'; [done|]. rewrite length_app. unfold zlen. simpl. lia. }
  destruct (scan _ rest1) as [[n p]| |] eqn:Hh; [|done..]. cbn [mbind outcome_bind].
  apply scan_inv in Hh as (hier & x & rest2 & -> & -> & -> & Hhier & _).
  destruct (Z.eqb_spec (zlen hier) 0) as [|Hne]; [done|]. cbn [rd head or_undef mbind outcome_bind].
  destruct (if x =? chr "?" then _ else _) as [p| |] eqn:Hq; [|done..]. cbn [mbind outcome_bind].
  apply opt_part_scan in Hq as (query & -> & Hquery & Hp). destruct p as [|y p]; [done|].
  cbn [rd head or_undef mbind outcome_bind].
  destruct (if y =? chr "#" then _ else _) as [p'| |] eqn:Hf; [|done..]. cbn [mbind outcome_bind].
  apply opt_part_scan in Hf as (frag & -> & Hfrag & Hp'). destruct p' as [|z p']; [done|].
  cbn. intros [= ->%Z.eqb_eq]. exists (c :: s), hier, query, frag, p'. split; [done|].
  split; [eauto|split; [done|by intros ->]|done|done].
Qed.

(** A text that [str_is_uri] accepts is [scheme ":" hier ["?" query] ["#"
    fragment]] up to its NUL, and the four functions that pick a URI apart find
    exactly these parts: pointers to where they start in the text, and their
    lengths.  Only an empty query or fragment is reported as absent. *)
Theorem str_is_uri_parts (u : list Z) (Hu : str_is_uri u = Ret true) :
  exists scheme hier query frag rest,
    u = scheme ++ chr ":" :: hier ++ opt_part (chr "?") query ++ opt_part (chr "#") frag ++ 0 :: rest
    /\ hier <> []
    /\ str_uri_scheme u = Ret (Some (u, zlen scheme))
    /\ str_uri_hierarchical u
       = Ret (Some (hier ++ opt_part (chr "?") query ++ opt_part (chr "#") frag ++ 0 :: rest, zlen hier))
    /\ str_uri_query u = Ret (found query (opt_part (chr "#") frag ++ 0 :: rest))
    /\ str_uri_fragment u = Ret (found frag (0 :: rest)).
Proof.
  destruct (str_is_uri_shape u Hu) as (scheme & hier & query & frag & rest & -> & Hs).
  exists scheme, hier, query, frag, rest. split_and!; [done|apply Hs|..].
  - by eapply shape_scheme.
  - by apply shape_hier.
  - by apply shape_query.
  - by apply shape_frag.
Qed.

Lemma str_is_uri_parts_witness :
  let u := cstr "http://host/path?q=1#f" in
  exists scheme hier query frag rest,
    u = scheme ++ chr ":" :: hier ++ opt_part (chr "?") query ++ opt_part (chr "#") frag ++ 0 :: rest
    /\ hier <> []
    /\ str_uri_scheme u = Ret (Some (u, zlen scheme))
    /\ str_uri_hierarchical u
       = Ret (Some (hier ++ opt_part (chr "?") query ++ opt_part (chr "#") frag ++ 0 :: rest, zlen hier))
    /\ str_uri_query u = Ret (found query (opt_part (chr "#") frag ++ 0 :: rest))
    /\ str_uri_fragment u = Ret (found frag (0 :: rest)).
Proof. apply (str_is_uri_parts (cstr "http://host/path?q=1#f")). vm_compute. reflexivity. Defined.

(** ** The assertion in the password function *)

Lemma scan_total p s rest :
  (forall c, c ∈ s -> exists b, p c = Ret b) -> p 0 = Ret false ->
  exists n r, scan p (s ++ 0 :: rest) = Ret (n, r).
Proof.
  intros Hs H0. induction s as [|c s IH]; simpl; [rewrite H0; simpl; eauto|].
  destruct (Hs c) as [[] ->]; [left| |]; simpl; [|eauto].
  destruct IH as (n & r & ->); [intros; apply Hs; by right|]. simpl. eauto.
Qed.

Lemma not_stop_true stops c : not_stop stops c = Ret true <-> c <> 0 /\ c ∉ stops.
Proof.
  unfold not_stop. split.
  - intros [= H]. bsplit. done.
  - intros [H1 H2]. rewrite (proj2 (Z.eqb_neq _ _) H1), bool_decide_eq_false_2; done.
Qed.

(** Two ways of cutting a list: the marker [b] comes after the marker [a], and
    only characters of [l1] lie between them. *)
Lemma cut_twice {A} (l1 l2 r1 r2 : list A) (a b : A) :
  l1 ++ b :: r1 = l2 ++ a :: r2 -> b ∉ l2 -> a <> b ->
  exists m, r2 = m ++ b :: r1 /\ l1 = l2 ++ a :: m.
Proof.
  revert l2. induction l1 as [|x l1 IH]; intros [|y l2] E Hb Hab; simplify_eq/=.
  - destruct Hb. left.
  - eauto.
  - match goal with E : l1 ++ _ = _ |- _ => destruct (IH l2 E) as (m & -> & ->) end; [by intros ?; apply Hb; right|done|]. eauto.
Qed.

(** On any NUL-terminated text [str_uri_authority_password] returns: the
    assertion that the password ends at an [@] never fails.  When it finds a
    password, it lies between a colon and an [@], and [str_uri_authority_username]
    finds the characters before that colon. *)
Theorem str_uri_authority_password_safe (s rest : list Z) :
  let auth := s ++ 0 :: rest in
  exists r, str_uri_authority_password auth = Ret r
    /\ match r with
       | None => str_uri_authority_username auth = Ret None
       | Some (q, n) => exists user pass r1,
           auth = user ++ chr ":" :: pass ++ chr "@" :: r1
           /\ q = pass ++ chr "@" :: r1 /\ n = zlen pass
           /\ str_uri_authority_username auth = Ret (Some (auth, zlen user))
       end.
Proof.
  intros auth. unfold str_uri_authority_password, str_uri_authority_username, authority_colon.
  assert (Htot : forall stops, exists n r, scan (not_stop stops) auth = Ret (n, r)).
  { intros. apply scan_total; [|done]. intros c _. unfold not_stop. eauto. }
  destruct (Htot (zs "@/?#")) as (n1 & p1 & E1), (Htot (zs ":@")) as (n2 & p2 & E2). rewrite E1, E2.
  apply scan_inv in E1 as (l1 & x1 & r1 & Ea & -> & -> & Hl1 & _).
  apply scan_inv in E2 as (l2 & x2 & r2 & Eb & -> & -> & Hl2 & _).
  cbn [rd head or_undef mbind outcome_bind tail].
  destruct (Z.eqb_spec x1 (chr "@")) as [->|]; cbn [negb mbind outcome_bind]; [|by exists None].
  destruct (Z.eqb_spec x2 (chr ":")) as [->|]; cbn [negb mbind outcome_bind tail]; [|by exists None].
  destruct (cut_twice l1 l2 r1 r2 (chr ":") (chr "@")) as (m & -> & ->).
  - congruence.
  - intros Hin%list_elem_of_In. rewrite Forall_forall in Hl2. apply Hl2, not_stop_true in Hin as [_ []].
    cbn [zs]. right. left.
  - discriminate.
  - rewrite scan_app.
    + cbn. eexists. split; [done|]. exists l2, m, r1. done.
    + apply Forall_app in Hl1 as [_ Hm]. apply Forall_cons_iff in Hm as [_ Hm].
      eapply accepts_impl; [exact Hm|]. intros c. rewrite !not_stop_true. intros [? Hn]. split; [done|].
      intros Hin. apply Hn. cbn [zs] in *. rewrite !elem_of_cons in *. tauto.
    + reflexivity.
Qed.
