(* ===== verification/StrText.v ===== *)
(** * Correctness of argument splitting, substring search and prefix tests (str.c) *)

From Stdlib Require Import ZArith Lia Ascii String.
From stdpp Require Import base tactics list numbers.
From S2P Require Import Prelude Cstring Ctype Str.

Local Open Scope Z_scope.

(** ** Splitting a command line *)

(** The text cut at every delimiter: one more piece than there are delimiters. *)
Fixpoint pieces (delim : Z) (s : list Z) : list (list Z) :=
  match s with
  | [] => [[]]
  | c :: s =>
    if c =? delim then [] :: pieces delim s
    else match pieces delim s with p :: ps => (c :: p) :: ps | [] => [[c]] end
  end.

(** An empty piece at the very end is not an argument. *)
Fixpoint strip_last (ps : list (list Z)) : list (list Z) :=
  match ps with
  | [] => []
  | [[]] => []
  | p :: ps => p :: strip_last ps
  end.

Definition arguments (delim : Z) (s : list Z) : list (list Z) := strip_last (pieces delim s).

(** The NUL-terminated string at an offset of a buffer. *)
Fixpoint c_string (s : list Z) : list Z :=
  match s with [] => [] | c :: s => if c =? 0 then [] else c :: c_string s end.

Definition string_at (buf : list Z) (off : Z) : list Z := c_string (drop (Z.to_nat off) buf).

Definition cut (delim : Z) (s : list Z) : list Z := map (fun c => if c =? delim then 0 else c) s.

Lemma pieces_cons delim s : exists p ps, pieces delim s = p :: ps.
Proof.
  induction s as [|c s (p & ps & E)]; simpl; [eauto|]. rewrite E. destruct (c =? delim); eauto.
Qed.

Lemma c_string_cut delim s rest :
  no_nul s -> delim <> 0 -> exists ps, pieces delim s = c_string (cut delim s ++ 0 :: rest) :: ps.
Proof.
  intros Hs Hd. induction Hs as [|c s Hc Hs (ps & IH)]; simpl; [eauto|].
  destruct (Z.eqb_spec c delim); simpl; [eauto|].
  rewrite (proj2 (Z.eqb_neq _ _) Hc), IH. eauto.
Qed.

Lemma string_at_S x buf off : 0 <= off -> string_at (x :: buf) (off + 1) = string_at buf off.
Proof.
  intros. unfold string_at. by replace (Z.to_nat (off + 1)) with (S (Z.to_nat off)) by lia.
Qed.

Lemma strings_shift x buf pos argv :
  Forall (fun o => pos + 1 <= o) argv ->
  map (fun o => string_at (x :: buf) (o - pos)) argv = map (fun o => string_at buf (o - (pos + 1))) argv.
Proof.
  intros Ha. apply map_ext_Forall. eapply Forall_impl; [|exact Ha]. simpl. intros o Ho.
  replace (o - pos) with (o - (pos + 1) + 1) by lia. apply string_at_S. lia.
Qed.

(** The arguments after the first. *)
Definition more_arguments (delim : Z) (s : list Z) : list (list Z) :=
  match s with [] => [] | _ => strip_last (tail (pieces delim s)) end.

Lemma more_arguments_delim delim s :
  s <> [] -> more_arguments delim (delim :: s) = arguments delim s.
Proof. intros. unfold more_arguments, arguments. simpl. by rewrite Z.eqb_refl. Qed.

Lemma more_arguments_other delim c s :
  c <> delim -> more_arguments delim (c :: s) = more_arguments delim s.
Proof.
  intros Hc. unfold more_arguments. simpl. rewrite (proj2 (Z.eqb_neq _ _) Hc).
  destruct s as [|d s]; [done|]. destruct (pieces_cons delim (d :: s)) as (p & ps & ->). done.
Qed.

Lemma arguments_cons delim s p ps :
  s <> [] -> pieces delim s = p :: ps -> arguments delim s = p :: more_arguments delim s.
Proof.
  intros Hs E. unfold arguments, more_arguments. rewrite E. destruct s as [|c s]; [done|].
  destruct p; [|done]. destruct ps; [|done]. exfalso. simpl in E.
  destruct (pieces_cons delim s) as (p & ps & E'). rewrite E' in E. by destruct (c =? delim).
Qed.

Lemma parse_argv_loop_spec delim max_argv rest s :
  no_nul s -> delim <> 0 -> forall pos argc,
  exists argv, parse_argv_loop (s ++ 0 :: rest) pos delim argc max_argv = Ret (cut delim s ++ 0 :: rest, argv)
    /\ Forall (fun o => pos + 1 <= o) argv
    /\ map (fun o => string_at (cut delim s ++ 0 :: rest) (o - pos)) argv
       = take (Z.to_nat (max_argv - argc)) (more_arguments delim s).
Proof.
  intros Hs Hd. induction Hs as [|c s Hc Hs IH]; intros pos argc.
  { exists []. simpl. split_and!; [done|constructor|]. by rewrite take_nil. }
  change (cut delim (c :: s)) with ((if c =? delim then 0 else c) :: cut delim s).
  cbn [parse_argv_loop app]. rewrite (proj2 (Z.eqb_neq _ _) Hc).
  destruct (Z.eqb_spec c delim) as [->|Hcd].
  - assert (Hhd : exists d, rd (s ++ 0 :: rest) = Ret d /\ (d =? 0) = bool_decide (s = [])).
    { destruct s as [|d s]; simpl; eexists; (split; [done|]); [done|].
      apply Forall_cons_iff in Hs as [Hd' _]. by rewrite (proj2 (Z.eqb_neq _ _) Hd'). }
    destruct Hhd as (d & -> & Hd0). cbn [mbind outcome_bind]. rewrite Hd0.
    case_bool_decide as Hnil; cbn [negb andb].
    + destruct (IH (pos + 1) argc) as (argv & -> & Hoff & Hstr). simpl. exists argv.
      split; [done|]. split; [eapply Forall_impl; [|exact Hoff]; simpl; lia|].
      rewrite strings_shift by (eapply Forall_impl; [|exact Hoff]; simpl; lia). rewrite Hstr. subst s.
      unfold more_arguments. simpl. rewrite Z.eqb_refl. done.
    + rewrite more_arguments_delim by done.
      destruct (c_string_cut delim s rest Hs Hd) as (ps & Eps).
      rewrite (arguments_cons _ _ _ _ Hnil Eps).
      destruct (Z.ltb_spec argc max_argv).
      * destruct (IH (pos + 1) (argc + 1)) as (argv & -> & Hoff & Hstr). simpl. exists (pos + 1 :: argv).
        split; [done|]. split; [constructor; [lia|]; eapply Forall_impl; [|exact Hoff]; simpl; lia|].
        replace (Z.to_nat (max_argv - argc)) with (S (Z.to_nat (max_argv - (argc + 1)))) by lia.
        simpl. f_equal.
        -- replace (pos + 1 - pos) with (0 + 1) by lia. by rewrite string_at_S by lia.
        -- rewrite strings_shift by (eapply Forall_impl; [|exact Hoff]; simpl; lia). exact Hstr.
      * destruct (IH (pos + 1) argc) as (argv & -> & Hoff & Hstr). simpl. exists argv.
        split; [done|]. split; [eapply Forall_impl; [|exact Hoff]; simpl; lia|].
        rewrite strings_shift by (eapply Forall_impl; [|exact Hoff]; simpl; lia). rewrite Hstr.
        by replace (Z.to_nat (max_argv - argc)) with O by lia.
  - rewrite more_arguments_other by done.
    destruct (IH (pos + 1) argc) as (argv & -> & Hoff & Hstr). simpl. exists argv.
    split; [done|]. split; [eapply Forall_impl; [|exact Hoff]; simpl; lia|].
    rewrite strings_shift by (eapply Forall_impl; [|exact Hoff]; simpl; lia). exact Hstr.
Qed.

(** [parse_argv] splits a NUL-terminated command line at every delimiter.  It
    writes only NULs over the delimiters, and the strings [argv] then points to
    are the first [max_argv] pieces of the text in order, empty pieces included,
    except for an empty piece at the very end. *)
Theorem parse_argv_splits (s rest : list Z) (delim max_argv : Z)
    (Hs : no_nul s) (Hdelim : delim <> 0) (Hmax : 0 <= max_argv) :
  exists argv, parse_argv (s ++ 0 :: rest) delim max_argv = Ret (cut delim s ++ 0 :: rest, argv)
    /\ zlen argv <= max_argv
    /\ map (string_at (cut delim s ++ 0 :: rest)) argv = take (Z.to_nat max_argv) (arguments delim s).
Proof.
  unfold parse_argv.
  assert (Hhd : exists d, rd (s ++ 0 :: rest) = Ret d /\ (d =? 0) = bool_decide (s = [])).
  { destruct s as [|d s]; simpl; eexists; (split; [done|]); [done|].
    apply Forall_cons_iff in Hs as [Hd' _]. by rewrite (proj2 (Z.eqb_neq _ _) Hd'). }
  destruct Hhd as (d & -> & Hd0). cbn [mbind outcome_bind]. rewrite Hd0.
  assert (Hlen : forall argv l, map (string_at (cut delim s ++ 0 :: rest)) argv = take (Z.to_nat max_argv) l ->
    zlen argv <= max_argv).
  { intros argv l E. apply (f_equal length) in E. rewrite length_map, length_take in E. unfold zlen. lia. }
  assert (Hzero : forall argv, map (fun o => string_at (cut delim s ++ 0 :: rest) (o - 0)) argv
                               = map (string_at (cut delim s ++ 0 :: rest)) argv).
  { intros. apply map_ext. intros. by rewrite Z.sub_0_r. }
  case_bool_decide as Hnil; cbn [negb andb].
  - destruct (parse_argv_loop_spec delim max_argv rest s Hs Hdelim 0 0) as (argv & -> & _ & Hstr).
    rewrite Hzero, Z.sub_0_r in Hstr. exists argv.
    split; [done|]. split; [by eapply Hlen|]. rewrite Hstr. by subst s.
  - destruct (c_string_cut delim s rest Hs Hdelim) as (ps & Eps).
    destruct (Z.ltb_spec 0 max_argv).
    + destruct (parse_argv_loop_spec delim max_argv rest s Hs Hdelim 0 1) as (argv & -> & _ & Hstr).
      rewrite Hzero in Hstr. simpl. exists (0 :: argv). split; [done|].
      assert (E : map (string_at (cut delim s ++ 0 :: rest)) (0 :: argv) = take (Z.to_nat max_argv) (arguments delim s)).
      { rewrite (arguments_cons _ _ _ _ Hnil Eps).
        replace (Z.to_nat max_argv) with (S (Z.to_nat (max_argv - 1))) by lia. simpl. by rewrite Hstr. }
      split; [by eapply Hlen|exact E].
    + destruct (parse_argv_loop_spec delim max_argv rest s Hs Hdelim 0 0) as (argv & -> & _ & Hstr).
      rewrite Hzero, Z.sub_0_r in Hstr. replace (Z.to_nat max_argv) with O in * by lia.
      exists argv. split; [done|]. split; [|done].
      apply (f_equal length) in Hstr. rewrite length_map in Hstr. unfold zlen. simpl in Hstr. lia.
Qed.

Lemma parse_argv_splits_witness :
  exists argv, parse_argv (cstr "a::bc:") (chr ":") 5 = Ret (cut (chr ":") (zs "a::bc:") ++ [0], argv)
    /\ zlen argv <= 5
    /\ map (string_at (cut (chr ":") (zs "a::bc:") ++ [0])) argv = [zs "a"; []; zs "bc"].
Proof.
  apply (parse_argv_splits (zs "a::bc:") [] (chr ":") 5);
    [repeat constructor; vm_compute; discriminate|vm_compute; discriminate|lia].
Defined.

(** ** Substring search *)

Fixpoint prefixb (p t : list Z) : bool :=
  match p, t with
  | [], _ => true
  | x :: p, y :: t => (x =? y) && prefixb p t
  | _ :: _, [] => false
  end.

(** The offset of the first occurrence of [needle] in [text]. *)
Fixpoint find_sub (needle text : list Z) : option nat :=
  if prefixb needle text then Some O
  else match text with [] => None | _ :: t => option_map S (find_sub needle t) end.

Lemma prefixb_short p t : (length t < length p)%nat -> prefixb p t = false.
Proof.
  revert t. induction p as [|x p IH]; intros [|y t] Hl; simpl in *; [lia..|done|].
  rewrite IH by lia. by rewrite andb_false_r.
Qed.

Lemma find_sub_short needle text : (length text < length needle)%nat -> find_sub needle text = None.
Proof.
  induction text as [|c t IH]; intros Hl; simpl; rewrite prefixb_short by (simpl in *; lia); [done|].
  simpl in Hl. by rewrite IH by lia.
Qed.

Lemma prefixb_take p t n : (length p <= n)%nat -> prefixb p (take n t) = prefixb p t.
Proof.
  revert t n. induction p as [|x p IH]; intros t n Hn; [by destruct t, n|].
  destruct n as [|n]; [simpl in Hn; lia|]. destruct t as [|y t]; [done|]. simpl.
  rewrite IH; [done|]. simpl in Hn. lia.
Qed.

Lemma strncmp_prefix s needle r1 r2 :
  no_nul s -> no_nul needle ->
  exists z, strncmp (s ++ 0 :: r1) (needle ++ r2) (zlen needle) = Ret z /\ (z =? 0) = prefixb needle s.
Proof.
  intros Hs Hn. unfold strncmp, zlen. rewrite Nat2Z.id. revert s Hs.
  induction Hn as [|x needle Hx Hn IH]; intros s Hs; [exists 0; by destruct s|].
  cbn [length prefixb app].
  destruct s as [|c s]; cbn [strncmp_by app rd head or_undef mbind outcome_bind]; unfold id.
  - destruct (Z.eqb_spec 0 x); [congruence|]. eexists. split; [done|]. by destruct (0 <? x).
  - apply Forall_cons_iff in Hs as [Hc Hs]. rewrite (Z.eqb_sym x c).
    destruct (Z.eqb_spec c x) as [->|]; cbn [andb].
    + rewrite (proj2 (Z.eqb_neq _ _) Hc). apply IH. done.
    + eexists. split; [done|]. by destruct (c <? x).
Qed.

Lemma str_str_loop_spec needle r2 rest s :
  no_nul s -> no_nul needle -> needle <> [] -> forall n, 0 <= n ->
  str_str_loop (s ++ 0 :: rest) (needle ++ r2) n (zlen needle)
  = Ret (option_map (fun i => drop i (s ++ 0 :: rest)) (find_sub needle (take (Z.to_nat n) s))).
Proof.
  intros Hs Hn Hne. assert (Hnl : (0 < length needle)%nat) by (destruct needle; simpl; [done|lia]).
  induction Hs as [|c s Hc Hs IH]; intros n Hn0.
  { simpl. rewrite take_nil. rewrite find_sub_short by (simpl; lia). done. }
  cbn [str_str_loop app]. rewrite (proj2 (Z.eqb_neq _ _) Hc). cbn [negb andb].
  destruct (Z.leb_spec (zlen needle) n) as [Hle|Hgt].
  - destruct (strncmp_prefix (c :: s) needle rest r2) as (z & E & Hz); [by constructor|done|].
    simpl app in E. rewrite E. cbn [mbind outcome_bind]. rewrite Hz.
    rewrite <- (prefixb_take needle (c :: s) (Z.to_nat n)) by (unfold zlen in Hle; lia).
    unfold zlen in Hle. replace (Z.to_nat n) with (S (Z.to_nat (n - 1))) by lia.
    cbn [take find_sub]. destruct (prefixb needle (c :: take _ s)); [done|].
    rewrite IH by lia. destruct (find_sub _ _); done.
  - rewrite find_sub_short; [done|]. rewrite length_take. unfold zlen in Hgt. lia.
Qed.

(** [str_str] on a NUL-terminated haystack finds the first occurrence of the
    needle that lies within the first [haystack_len] characters and before the
    NUL, and returns NULL exactly when there is none. *)
Theorem str_str_first (s rest needle r2 : list Z) (haystack_len : Z)
    (Hs : no_nul s) (Hn : no_nul needle) (Hlen : 0 <= haystack_len) :
  str_str (s ++ 0 :: rest) (needle ++ 0 :: r2) haystack_len
  = Ret (option_map (fun i => drop i (s ++ 0 :: rest)) (find_sub needle (take (Z.to_nat haystack_len) s))).
Proof.
  unfold str_str. rewrite strlen_nul by done. cbn [mbind outcome_bind].
  destruct needle as [|x needle].
  { change (zlen [] =? 0) with true. by destruct (take _ s). }
  pose proof (zlen_nonneg needle). rewrite zlen_cons.
  rewrite (proj2 (Z.eqb_neq _ _)) by lia. rewrite <- zlen_cons with (x := x).
  destruct (Z.leb_spec (zlen (x :: needle)) haystack_len) as [|Hgt].
  - by apply str_str_loop_spec.
  - rewrite find_sub_short; [done|]. rewrite length_take. unfold zlen in Hgt. lia.
Qed.

Lemma str_str_first_witness :
  str_str (cstr "GET / HTTP") (cstr "/") 10 = Ret (Some (cstr "/ HTTP")).
Proof.
  apply (str_str_first (zs "GET / HTTP") [] (zs "/") [] 10);
    [repeat constructor; vm_compute; discriminate|repeat constructor; vm_compute; discriminate|lia].
Defined.

(** [str_str] reads one character past the [haystack_len] it was given when a
    needle of one character does not occur in a haystack that is not
    NUL-terminated. *)
Theorem str_str_overread (h r2 : list Z) (x : Z) (Hh : no_nul h) (Hx : x <> 0) (Hin : x ∉ h) :
  h <> [] -> str_str h (x :: 0 :: r2) (zlen h) = Undef.
Proof.
  intros Hne. unfold str_str. pose proof (strlen_nul [x] r2) as E. simpl app in E.
  rewrite E by (by apply Forall_singleton). cbn [mbind outcome_bind]. change (zlen [x]) with 1. cbn [Z.eqb].
  assert (1 <= zlen h) by (destruct h; [done|]; rewrite zlen_cons; pose proof (zlen_nonneg h); lia).
  rewrite (proj2 (Z.leb_le _ _)) by done. clear Hne E.
  assert (Hgen : forall n, n = zlen h -> str_str_loop h (x :: 0 :: r2) n 1 = Undef); [|by apply Hgen].
  clear -Hh Hin Hx. induction Hh as [|c h Hc Hh IH]; intros n ->; [done|].
  apply not_elem_of_cons in Hin as [Hcx Hin]. cbn [str_str_loop].
  rewrite (proj2 (Z.eqb_neq _ _) Hc), zlen_cons. pose proof (zlen_nonneg h).
  rewrite (proj2 (Z.leb_le 1 _)) by lia. cbn [negb andb].
  unfold strncmp. change (Z.to_nat 1) with 1%nat.
  cbn [strncmp_by rd head or_undef mbind outcome_bind]. unfold id.
  rewrite (proj2 (Z.eqb_neq c x)) by done. cbn [mbind outcome_bind].
  assert (((if c <? x then -1 else 1) =? 0) = false) as -> by (by destruct (c <? x)).
  apply IH; [done|lia].
Qed.

Lemma str_str_overread_witness : str_str (zs "abc") (cstr "/") 3 = Undef.
Proof.
  apply (str_str_overread (zs "abc") [] (chr "/")).
  - repeat constructor; vm_compute; discriminate.
  - vm_compute. discriminate.
  - by apply (bool_decide_unpack _).
  - discriminate.
Defined.
