(* ===== verification/Golay.v ===== *)
(** * The [23,12] Golay code (golay.c)

    Encoding of 12 data bits into a 24-bit word with parity, and decoding with
    correction.  All words are unsigned 32-bit values; the loops with a fixed
    number of rounds are folds. *)

From stdpp Require Import base tactics list numbers.
From Stdlib Require Import ZArith Lia.
From S2P Require Import Prelude.

Local Open Scope Z_scope.

Definition POLY : Z := 0xAE3.

(** [for (i = 1; i <= 12; i++) { if (cw & 1) cw ^= POLY; cw >>= 1; }] *)
Definition poly_step (cw : Z) : Z :=
  Z.shiftr (if Z.land cw 1 =? 0 then cw else Z.lxor cw POLY) 1.

Definition poly_loop (cw : Z) : Z := Nat.iter 12 poly_step cw.

Definition golay (cw : Z) : Z :=
  let cw := Z.land cw 0xfff in
  let c := cw in
  Z.lor (u32 (Z.shiftl (poly_loop cw) 12)) c.

Definition parity (cw : Z) : Z :=
  let p := Z.land cw 0xFF in
  let p := Z.lxor p (Z.land (Z.shiftr cw 8) 0xFF) in
  let p := Z.lxor p (Z.land (Z.shiftr cw 16) 0xFF) in
  let p := Z.lxor p (Z.shiftr p 4) in
  let p := Z.lxor p (Z.shiftr p 2) in
  let p := Z.lxor p (Z.shiftr p 1) in
  Z.land p 1.

(** [data[0] | (data[1] << 8) | (data[2] << 16)] *)
Definition word_of (d0 d1 d2 : Z) : Z := Z.lor (Z.lor d0 (Z.shiftl d1 8)) (Z.shiftl d2 16).

(** The three bytes [golay_encode] leaves in [data]. *)
Definition golay_encode (d0 d1 d2 : Z) : Z * Z * Z :=
  let cw := word_of d0 d1 d2 in
  let cw := golay cw in
  let cw := if parity cw =? 0 then cw else Z.lor cw 0x800000 in
  (Z.land cw 0xFF, Z.land (Z.shiftr cw 8) 0xFF, Z.land (Z.shiftr cw 16) 0xFF).

Definition syndrome (cw : Z) : Z :=
  let cw := Z.land cw 0x7fffff in
  u32 (Z.shiftl (poly_loop cw) 12).

Definition wgt : list Z := [0;1;1;2;1;2;2;3;1;2;2;3;2;3;3;4].

(** [while ((k < 6) && (cw))]: [n] is [6 - k]. *)
Fixpoint weight_loop (n : nat) (bits cw : Z) : Z :=
  match n with
  | O => bits
  | S n =>
    if cw =? 0 then bits
    else weight_loop n (bits + default 0 (wgt @@ Z.land cw 0xf)) (Z.shiftr cw 4)
  end.

Definition weight (cw : Z) : Z := weight_loop 6 0 cw.

Definition rotl_step (cw : Z) : Z :=
  if negb (Z.land cw 0x400000 =? 0) then Z.lor (u32 (Z.shiftl cw 1)) 1 else u32 (Z.shiftl cw 1).

Definition rotate_left (cw : Z) (n : nat) : Z := Z.land (Nat.iter n rotl_step cw) 0x7fffff.

Definition rotr_step (cw : Z) : Z :=
  if negb (Z.land cw 1 =? 0) then Z.lor (Z.shiftr cw 1) 0x400000 else Z.shiftr cw 1.

Definition rotate_right (cw : Z) (n : nat) : Z := Z.land (Nat.iter n rotr_step cw) 0x7fffff.

(** The loop over the cyclic shifts, [i] to [i + n]: [inl] is the return from
    inside it, [inr] falling out of it; both carry [*errs]. *)
Fixpoint correct_shifts (n i : nat) (w cw s errs : Z) : (Z * Z) + Z :=
  match n with
  | O => inr errs
  | S n =>
    let errs := weight s in
    if errs <=? w then inl (rotate_right (Z.lxor cw s) i, errs)
    else
      let cw := rotate_left cw 1 in
      correct_shifts n (S i) w cw (syndrome cw) errs
  end.

(** The loop [while (j < 23)], [n] being [23 - j]. *)
Fixpoint correct_loop (n : nat) (j mask cwsaver cw w errs : Z) : Z * Z :=
  match n with
  | O => (cwsaver, errs)
  | S n =>
    let '(mask, cw, w) :=
      if negb (j =? -1) then
        let mask := if 0 <? j then u32 (mask + mask) else mask in
        (mask, Z.lxor cwsaver mask, 2)
      else (mask, cw, w) in
    let s := syndrome cw in
    if negb (s =? 0) then
      match correct_shifts 23 0 w cw s errs with
      | inl r => r
      | inr errs => correct_loop n (j + 1) mask cwsaver cw w errs
      end
    else (cw, errs)
  end.

(** The corrected word and [*errs]; [j] starts at -1, so there are 24 rounds. *)
Definition correct (cw : Z) : Z * Z := correct_loop 24 (-1) 1 cw cw 3 0.

(** The returned data bits and [*errs]. *)
Definition golay_decode (d0 d1 d2 : Z) : Z * Z :=
  let cw := word_of d0 d1 d2 in
  let parity_bit := Z.land cw 0x800000 in
  let cw := Z.land cw (Z.lxor 0xffffffff 0x800000) in
  let '(cw, errs) := correct cw in
  let cw := Z.lor cw parity_bit in
  let errs := if parity cw =? 0 then errs else errs + 1 in
  (Z.land cw 0xFFF, errs).
