(* ===== verification/GolaySpec.v ===== *)
(** * The Golay decoder corrects three errors (golay.c)

    The computation of the decoder on a damaged codeword follows, step by step,
    its computation on the error pattern alone: syndromes and rotations are
    linear, a codeword has syndrome zero, and the rotation of a codeword is a
    codeword (checked on all 4096 of them).  The error patterns of at most three
    bits are then checked by evaluation. *)

From stdpp Require Import base tactics list numbers.
From Stdlib Require Import ZArith Lia.
From S2P Require Import Prelude Golay.

Local Open Scope Z_scope.

(** ** Bit-level lemmas *)

Lemma land_pow2_testbit x k : 0 <= k -> (Z.land x (2 ^ k) =? 0) = negb (Z.testbit x k).
Proof.
  intros Hk. destruct (Z.testbit x k) eqn:E; simpl.
  - apply Z.eqb_neq. intros Hz. apply (f_equal (fun z => Z.testbit z k)) in Hz.
    by rewrite Z.land_spec, E, Z.pow2_bits_true, Z.bits_0 in Hz by done.
  - apply Z.eqb_eq, Z.bits_inj'. intros n Hn. rewrite Z.land_spec, Z.bits_0, Z.pow2_bits_eqb by done.
    destruct (Z.eqb_spec k n) as [->|]; [by rewrite E|apply andb_false_r].
Qed.

Lemma land_lxor_distr a b m : Z.land (Z.lxor a b) m = Z.lxor (Z.land a m) (Z.land b m).
Proof.
  apply Z.bits_inj'. intros n _. rewrite !Z.land_spec, !Z.lxor_spec, !Z.land_spec.
  by destruct (Z.testbit a n), (Z.testbit b n), (Z.testbit m n).
Qed.

Lemma uN_lxor w a b : 0 <= w -> uN w (Z.lxor a b) = Z.lxor (uN w a) (uN w b).
Proof. intros. unfold uN. rewrite <- !Z.land_ones by done. apply land_lxor_distr. Qed.

Lemma range_testbit x k : 0 <= k -> 0 <= x < 2 ^ k <-> (0 <= x /\ forall n, k <= n -> Z.testbit x n = false).
Proof.
  intros Hk. split.
  - intros Hx. split; [lia|]. intros n Hn. rewrite <- (Z.mod_small x (2 ^ k)) by lia.
    by apply Z.mod_pow2_bits_high.
  - intros [H0 Hb]. split; [done|]. assert (E : x = x mod 2 ^ k).
    { apply Z.bits_inj'. intros n Hn. destruct (decide (n < k)).
      - by rewrite Z.mod_pow2_bits_low by done.
      - rewrite Z.mod_pow2_bits_high by lia. apply Hb. lia. }
    rewrite E. apply Z.mod_pos_bound. lia.
Qed.

Lemma lxor_range a b k : 0 <= k -> 0 <= a < 2 ^ k -> 0 <= b < 2 ^ k -> 0 <= Z.lxor a b < 2 ^ k.
Proof.
  intros Hk. rewrite !range_testbit by done. intros [Ha Ha'] [Hb Hb']. split; [apply Z.lxor_nonneg; lia|].
  intros n Hn. by rewrite Z.lxor_spec, Ha', Hb'.
Qed.

(** [x | y] and [x ^ y] agree when no bit is in both. *)
Lemma lor_lxor x y : Z.land x y = 0 -> Z.lor x y = Z.lxor x y.
Proof. intros E. rewrite <- Z.lxor_lor; done. Qed.

Lemma testbit_pick x k (m : Z) : 0 <= k -> (if negb (Z.land x (2 ^ k) =? 0) then m else 0) = (if Z.testbit x k then m else 0).
Proof. intros. rewrite land_pow2_testbit, negb_involutive by done. done. Qed.

Lemma pick_lxor (p q : bool) (m : Z) :
  (if xorb p q then m else 0) = Z.lxor (if p then m else 0) (if q then m else 0).
Proof. destruct p, q; simpl; rewrite ?Z.lxor_nilpotent, ?Z.lxor_0_r, ?Z.lxor_0_l; done. Qed.

Lemma lxor_swap a b c d : Z.lxor (Z.lxor a b) (Z.lxor c d) = Z.lxor (Z.lxor a c) (Z.lxor b d).
Proof.
  apply Z.bits_inj'. intros n _. rewrite !Z.lxor_spec.
  by destruct (Z.testbit a n), (Z.testbit b n), (Z.testbit c n), (Z.testbit d n).
Qed.

(** ** Linearity *)

Lemma poly_step_alt x : poly_step x = Z.shiftr (Z.lxor x (if Z.testbit x 0 then POLY else 0)) 1.
Proof.
  unfold poly_step. change 1 with (2 ^ 0) at 1. rewrite land_pow2_testbit by done.
  destruct (Z.testbit x 0); simpl; by rewrite ?Z.lxor_0_r.
Qed.

Lemma poly_step_lxor a b : poly_step (Z.lxor a b) = Z.lxor (poly_step a) (poly_step b).
Proof.
  rewrite !poly_step_alt, <- Z.shiftr_lxor. f_equal. rewrite Z.lxor_spec, pick_lxor. apply lxor_swap.
Qed.

Lemma iter_lxor (f : Z -> Z) n a b :
  (forall x y, f (Z.lxor x y) = Z.lxor (f x) (f y)) ->
  Nat.iter n f (Z.lxor a b) = Z.lxor (Nat.iter n f a) (Nat.iter n f b).
Proof. intros Hf. induction n as [|n IH]; simpl; [done|]. by rewrite IH, Hf. Qed.

Lemma syndrome_lxor a b : syndrome (Z.lxor a b) = Z.lxor (syndrome a) (syndrome b).
Proof.
  unfold syndrome, poly_loop. rewrite land_lxor_distr, iter_lxor by apply poly_step_lxor.
  rewrite Z.shiftl_lxor. by apply uN_lxor.
Qed.

Lemma rotate_left_alt x :
  rotate_left x 1 = Z.land (Z.lxor (u32 (Z.shiftl x 1)) (if Z.testbit x 22 then 1 else 0)) 0x7fffff.
Proof.
  unfold rotate_left. simpl Nat.iter. unfold rotl_step. change 0x400000 with (2 ^ 22).
  rewrite land_pow2_testbit by done. destruct (Z.testbit x 22); simpl; [|by rewrite Z.lxor_0_r].
  f_equal. apply lor_lxor. change 1 with (2 ^ 0) at 2. apply Z.eqb_eq. rewrite land_pow2_testbit by done.
  unfold uN. rewrite Z.mod_pow2_bits_low by lia. by rewrite Z.shiftl_spec_low by lia.
Qed.

Lemma rotate_left_lxor a b : rotate_left (Z.lxor a b) 1 = Z.lxor (rotate_left a 1) (rotate_left b 1).
Proof.
  rewrite !rotate_left_alt, <- land_lxor_distr. f_equal.
  rewrite Z.shiftl_lxor, uN_lxor, Z.lxor_spec, pick_lxor by done. apply lxor_swap.
Qed.

Definition word23 (x : Z) : Prop := 0 <= x < 2 ^ 23.

Lemma land23_range x : word23 (Z.land x 0x7fffff).
Proof. change 0x7fffff with (Z.ones 23). rewrite Z.land_ones by lia. apply Z.mod_pos_bound. lia. Qed.

Lemma land23_id x : word23 x -> Z.land x 0x7fffff = x.
Proof. intros. change 0x7fffff with (Z.ones 23). rewrite Z.land_ones by lia. by apply Z.mod_small. Qed.

Lemma rotr_step_alt x :
  word23 x -> rotr_step x = Z.lxor (Z.shiftr x 1) (if Z.testbit x 0 then 2 ^ 22 else 0).
Proof.
  intros Hx. unfold rotr_step. change (Z.land x 1) with (Z.land x (2 ^ 0)).
  rewrite land_pow2_testbit, negb_involutive by done. destruct (Z.testbit x 0); [|by rewrite Z.lxor_0_r].
  change 0x400000 with (2 ^ 22). apply lor_lxor, Z.eqb_eq. rewrite land_pow2_testbit by done.
  rewrite Z.shiftr_spec by lia. unfold word23 in Hx. rewrite range_testbit in Hx by lia.
  destruct Hx as [_ Hx]. by rewrite Hx.
Qed.

Lemma rotr_step_range x : word23 x -> word23 (rotr_step x).
Proof.
  intros Hx. rewrite rotr_step_alt by done. unfold word23 in *. apply lxor_range; [lia| |].
  - rewrite Z.shiftr_div_pow2 by lia. change (2 ^ 1) with 2. split; [apply Z.div_pos; lia|].
    apply Z.div_lt_upper_bound; lia.
  - destruct (Z.testbit x 0); lia.
Qed.

Lemma rotr_step_lxor a b :
  word23 a -> word23 b -> rotr_step (Z.lxor a b) = Z.lxor (rotr_step a) (rotr_step b).
Proof.
  intros Ha Hb. rewrite !rotr_step_alt; [|done..|by apply lxor_range].
  rewrite Z.shiftr_lxor, Z.lxor_spec, pick_lxor. apply lxor_swap.
Qed.

Lemma rotr_iter_lxor n a b : word23 a -> word23 b ->
  Nat.iter n rotr_step (Z.lxor a b) = Z.lxor (Nat.iter n rotr_step a) (Nat.iter n rotr_step b)
  /\ word23 (Nat.iter n rotr_step a).
Proof.
  intros Ha Hb.
  assert (Hr : forall x, word23 x -> word23 (Nat.iter n rotr_step x)).
  { intros x Hx. induction n; simpl; [done|]. by apply rotr_step_range. }
  split; [|auto]. induction n as [|n IH]; simpl; [done|].
  assert (Hr' : forall x, word23 x -> word23 (Nat.iter n rotr_step x)).
  { intros x Hx. clear Hr IH. induction n; simpl; [done|]. by apply rotr_step_range. }
  rewrite IH by (intros; auto). apply rotr_step_lxor; auto.
Qed.

Lemma rotate_right_lxor n a b : word23 a -> word23 b ->
  rotate_right (Z.lxor a b) n = Z.lxor (rotate_right a n) (rotate_right b n).
Proof.
  intros Ha Hb. unfold rotate_right. rewrite (proj1 (rotr_iter_lxor n a b Ha Hb)). apply land_lxor_distr.
Qed.

(** Rotating right undoes rotating left. *)
Lemma rotr_rotl x : word23 x -> rotr_step (rotate_left x 1) = x.
Proof.
  intros Hx. pose proof (land23_range (Z.lxor (u32 (Z.shiftl x 1)) (if Z.testbit x 22 then 1 else 0))) as Hr.
  rewrite rotr_step_alt by (rewrite rotate_left_alt; exact Hr). rewrite rotate_left_alt.
  unfold word23 in Hx. pose proof (proj1 (range_testbit x 23 ltac:(lia)) Hx) as [_ Hhi].
  assert (Hbit : forall n, 0 <= n ->
    Z.testbit (Z.land (Z.lxor (u32 (Z.shiftl x 1)) (if Z.testbit x 22 then 1 else 0)) 0x7fffff) n
    = if n =? 0 then Z.testbit x 22 else (n <? 23) && Z.testbit x (n - 1)).
  { intros n Hn. change 0x7fffff with (Z.ones 23). rewrite Z.land_spec, Z.testbit_ones, Z.lxor_spec by lia.
    rewrite (proj2 (Z.leb_le 0 n)) by done.
    assert (Hone : forall b : bool, Z.testbit (if b then 1 else 0) n = b && (n =? 0)).
    { intros []; [|by rewrite Z.bits_0]. change 1 with (2 ^ 0). rewrite Z.pow2_bits_eqb by done.
      apply Z.eqb_sym. }
    rewrite Hone. unfold uN. destruct (Z.eqb_spec n 0) as [->|Hn0].
    - rewrite Z.mod_pow2_bits_low, Z.shiftl_spec_low by lia. by rewrite andb_true_r, andb_true_r.
    - destruct (Z.ltb_spec n 23); [|by rewrite andb_false_r].
      rewrite Z.mod_pow2_bits_low, Z.shiftl_spec by lia. by rewrite andb_false_r, xorb_false_r, andb_true_r. }
  apply Z.bits_inj'. intros n Hn. rewrite Z.lxor_spec, Z.shiftr_spec, !Hbit by lia. cbn [Z.eqb].
  rewrite (proj2 (Z.eqb_neq (n + 1) 0)) by lia. replace (n + 1 - 1) with n by lia.
  assert (Htop : Z.testbit (if Z.testbit x 22 then 2 ^ 22 else 0) n = Z.testbit x 22 && (n =? 22)).
  { destruct (Z.testbit x 22); [|by rewrite Z.bits_0]. rewrite Z.pow2_bits_eqb by lia. apply Z.eqb_sym. }
  rewrite Htop. destruct (Z.eqb_spec n 22) as [->|Hn22]; [by rewrite andb_true_r|].
  rewrite andb_false_r, xorb_false_r. destruct (Z.ltb_spec (n + 1) 23); [done|]. simpl. rewrite Hhi; [done|lia].
Qed.

(** ** Ranges *)

Lemma poly_step_range k x : 12 <= k -> 0 <= x < 2 ^ k -> 0 <= poly_step x < 2 ^ (k - 1).
Proof.
  intros Hk Hx. rewrite poly_step_alt, Z.shiftr_div_pow2 by lia. change (2 ^ 1) with 2.
  assert (H12 : 2 ^ 12 <= 2 ^ k) by (apply Z.pow_le_mono_r; lia).
  assert (0 <= Z.lxor x (if Z.testbit x 0 then POLY else 0) < 2 ^ k).
  { apply lxor_range; [lia|done|]. unfold POLY. destruct (Z.testbit x 0); lia. }
  assert (2 ^ k = 2 * 2 ^ (k - 1)) by (rewrite <- Z.pow_succ_r by lia; f_equal; lia).
  split; [apply Z.div_pos; lia|]. apply Z.div_lt_upper_bound; lia.
Qed.

Lemma poly_iter_range n x : (n <= 12)%nat -> word23 x -> 0 <= Nat.iter n poly_step x < 2 ^ (23 - Z.of_nat n).
Proof.
  intros Hn Hx. induction n as [|n IH]; [done|]. simpl Nat.iter.
  replace (23 - Z.of_nat (S n)) with (23 - Z.of_nat n - 1) by lia.
  apply poly_step_range; [lia|]. apply IH. lia.
Qed.

Lemma syndrome_range x : word23 (syndrome x).
Proof.
  unfold syndrome, poly_loop. pose proof (poly_iter_range 12 _ ltac:(lia) (land23_range x)) as Hr.
  change (23 - Z.of_nat 12) with 11 in Hr. rewrite Z.shiftl_mul_pow2 by lia.
  unfold word23. change (2 ^ 12) with 4096. change (2 ^ 11) with 2048 in Hr.
  rewrite uN_small by lia. lia.
Qed.

Lemma rotate_left_range x n : word23 (rotate_left x n).
Proof. apply land23_range. Qed.

(** ** Codewords *)

Definition codeword (c : Z) : Prop := exists d, 0 <= d < 4096 /\ c = golay d.

(** A property of all data words, by evaluation. *)
Lemma all_data_dec (P : Z -> bool) :
  forallb P (seqZ 0 4096) = true -> forall d, 0 <= d < 4096 -> P d = true.
Proof.
  intros Hall d Hd. rewrite forallb_forall in Hall. apply Hall, list_elem_of_In, elem_of_seqZ. lia.
Qed.

Definition codeword_check (d : Z) : bool :=
  (0 <=? golay d) && (golay d <? 2 ^ 23) && (syndrome (golay d) =? 0)
  && (rotate_left (golay d) 1 =? golay (Z.land (rotate_left (golay d) 1) 0xfff))
  && (Z.land (golay d) 0xfff =? d).

Lemma codeword_check_all d : 0 <= d < 4096 -> codeword_check d = true.
Proof. apply all_data_dec. vm_compute. reflexivity. Qed.

Local Opaque golay syndrome rotate_left.

Lemma codeword_facts c : codeword c ->
  word23 c /\ syndrome c = 0 /\ codeword (rotate_left c 1).
Proof.
  intros (d & Hd & ->). pose proof (codeword_check_all d Hd) as Hc. unfold codeword_check in Hc. bsplit.
  split_and!; [done|done|]. eexists. split; [|done].
  change 0xfff with (Z.ones 12). rewrite Z.land_ones by lia. change (2 ^ 12) with 4096. apply Z.mod_pos_bound. lia.
Qed.

Lemma golay_data d : 0 <= d < 4096 -> Z.land (golay d) 0xfff = d.
Proof. intros Hd. pose proof (codeword_check_all d Hd) as Hc. unfold codeword_check in Hc. by bsplit. Qed.

(** The rotations of a codeword. *)
Fixpoint rotations (n : nat) (c : Z) : Z :=
  match n with O => c | S n => rotate_left (rotations n c) 1 end.

Lemma rotations_codeword n c : codeword c -> codeword (rotations n c).
Proof. intros Hc. induction n; simpl; [done|]. by apply codeword_facts. Qed.

Lemma rotate_right_rotations n c : codeword c -> rotate_right (rotations n c) n = c.
Proof.
  intros Hc. unfold rotate_right.
  assert (E : Nat.iter n rotr_step (rotations n c) = c).
  { induction n as [|n IH]; [done|].
    rewrite Nat.iter_succ_r. simpl rotations. rewrite rotr_rotl; [done|].
    apply codeword_facts, rotations_codeword, Hc. }
  rewrite E. by apply land23_id, codeword_facts.
Qed.

(** ** The decoder on a damaged codeword follows the decoder on the damage *)

Lemma correct_shifts_lxor w n : forall i c cw s errs,
  codeword c -> word23 cw -> word23 s ->
  correct_shifts n i w (Z.lxor (rotations i c) cw) s errs
  = match correct_shifts n i w cw s errs with inl (r, e) => inl (Z.lxor c r, e) | inr e => inr e end.
Proof.
  induction n as [|n IH]; intros i c cw s errs Hc Hcw Hs; cbn [correct_shifts]; [done|].
  destruct (codeword_facts (rotations i c) (rotations_codeword i c Hc)) as (Hr & Hsyn & Hrc).
  destruct (weight s <=? w).
  - rewrite Z.lxor_assoc, rotate_right_lxor by (done || by apply lxor_range).
    by rewrite rotate_right_rotations.
  - rewrite rotate_left_lxor. change (rotate_left (rotations i c) 1) with (rotations (S i) c).
    rewrite syndrome_lxor. rewrite (proj1 (proj2 (codeword_facts _ (rotations_codeword (S i) c Hc)))).
    rewrite Z.lxor_0_l. apply IH; [done|apply rotate_left_range|apply syndrome_range].
Qed.

Lemma correct_loop_lxor c saver n : codeword c -> word23 saver -> forall j mask cw w errs,
  j = 23 - Z.of_nat n -> -1 <= j -> mask = 2 ^ Z.max 0 (j - 1) -> word23 cw ->
  correct_loop n j mask (Z.lxor c saver) (Z.lxor c cw) w errs
  = (let '(r, e) := correct_loop n j mask saver cw w errs in (Z.lxor c r, e)).
Proof.
  intros Hc Hsaver. induction n as [|n IH]; intros j mask cw w errs Hj Hj1 Hmask Hcw; [done|].
  destruct (codeword_facts c Hc) as (Hr & Hsyn & _).
  cbn [correct_loop].
  set (mask' := if 0 <? j then u32 (mask + mask) else mask).
  assert (Hm : j <> -1 -> mask' = 2 ^ Z.max 0 (j + 1 - 1) /\ word23 mask').
  { intros Hne. assert (E : mask' = 2 ^ Z.max 0 (j + 1 - 1)).
    { subst mask'. destruct (Z.ltb_spec 0 j).
      - rewrite Hmask, uN_small; rewrite Z.add_diag, <- Z.pow_succ_r by lia.
        + f_equal. lia.
        + split; [lia|]. apply Z.pow_lt_mono_r; lia.
      - rewrite Hmask. f_equal. lia. }
    split; [done|]. rewrite E. unfold word23. split; [lia|]. apply Z.pow_lt_mono_r; lia. }
  assert (Hstep : forall mask1 cw1 w1, word23 cw1 -> mask1 = 2 ^ Z.max 0 (j + 1 - 1) ->
    (let s := syndrome (Z.lxor c cw1) in
     if negb (s =? 0) then
       match correct_shifts 23 0 w1 (Z.lxor c cw1) s errs with
       | inl r => r
       | inr e => correct_loop n (j + 1) mask1 (Z.lxor c saver) (Z.lxor c cw1) w1 e
       end
     else (Z.lxor c cw1, errs))
    = (let '(r, e) :=
         (let s := syndrome cw1 in
          if negb (s =? 0) then
            match correct_shifts 23 0 w1 cw1 s errs with
            | inl r => r
            | inr e => correct_loop n (j + 1) mask1 saver cw1 w1 e
            end
          else (cw1, errs)) in (Z.lxor c r, e))).
  { intros mask1 cw1 w1 Hcw1 Hmask1. cbn zeta. rewrite syndrome_lxor, Hsyn, Z.lxor_0_l.
    destruct (negb (syndrome cw1 =? 0)); [|done].
    pose proof (correct_shifts_lxor w1 23 0 c cw1 (syndrome cw1) errs Hc Hcw1 (syndrome_range cw1)) as E.
    simpl rotations in E. rewrite E.
    destruct (correct_shifts 23 0 w1 cw1 (syndrome cw1) errs) as [[r e]|e]; [done|].
    apply IH; [lia|lia|done|done]. }
  destruct (Z.eqb_spec j (-1)) as [->|Hne]; cbn [negb].
  - apply Hstep; [done|]. rewrite Hmask. reflexivity.
  - rewrite Z.lxor_assoc. destruct (Hm Hne) as [Em Rm]. apply Hstep; [by apply lxor_range|done].
Qed.

Lemma correct_lxor c e : codeword c -> word23 e ->
  correct (Z.lxor c e) = (let '(r, n) := correct e in (Z.lxor c r, n)).
Proof. intros Hc He. unfold correct. by apply correct_loop_lxor. Qed.

(** ** Error patterns of at most three bits *)

(** The word with the bits at the given positions set (flipped from zero). *)
Definition flips (l : list Z) : Z := foldr (fun i a => Z.lxor (2 ^ i) a) 0 l.

Lemma flips_perm l l' : l ≡ₚ l' -> flips l = flips l'.
Proof.
  induction 1 as [|i l l' _ IH|i j l|]; simpl; [done|by rewrite IH| |congruence].
  rewrite <- !Z.lxor_assoc. f_equal. apply Z.lxor_comm.
Qed.

Definition position (i : Z) : Prop := 0 <= i < 23.

Lemma flips_range l : Forall position l -> word23 (flips l).
Proof.
  induction 1 as [|i l Hi _ IH]; [unfold word23; simpl; lia|]. simpl. apply lxor_range; [lia| |done].
  split; [apply Z.pow_nonneg; lia|]. apply Z.pow_lt_mono_r; unfold position in Hi; lia.
Qed.

(** Some rotation brings all the positions into the eleven check bits. *)
Definition fits_window (l : list Z) : bool :=
  existsb (fun r => forallb (fun i => 12 <=? (i + r) mod 23) l) (seqZ 0 23).

(** Decoding the pattern alone gives the zero codeword.  The count the decoder
    reports is the number of bits when the pattern fits the window; otherwise one
    of them was found as a trial bit, which is not counted. *)
Definition pattern_errs (l : list Z) : Z := if fits_window l then zlen l else zlen l - 1.

Definition pattern_check (l : list Z) : bool :=
  let '(r, n) := correct (flips l) in (r =? 0) && (n =? pattern_errs l).

Lemma positions_dec (P : Z -> bool) :
  forallb P (seqZ 0 23) = true -> forall i, position i -> P i = true.
Proof.
  intros Hall i Hi. rewrite forallb_forall in Hall.
  apply Hall, list_elem_of_In, elem_of_seqZ. unfold position in Hi. lia.
Qed.

Lemma patterns_checked :
  pattern_check [] = true
  /\ (forall i, position i -> pattern_check [i] = true)
  /\ (forall i, position i -> forall j, position j -> i < j -> pattern_check [i; j] = true)
  /\ (forall i, position i -> forall j, position j -> i < j -> forall k, position k -> j < k ->
      pattern_check [i; j; k] = true).
Proof.
  assert (Himp : forall a b (Q : bool), (if a <? b then Q else true) = true -> a < b -> Q = true)
    by (intros a b Q; destruct (Z.ltb_spec a b); simpl; [done|lia]).
  split; [vm_compute; reflexivity|]. split; [apply positions_dec; vm_compute; reflexivity|]. split.
  - intros i Hi j Hj. apply Himp. revert j Hj. apply positions_dec. revert i Hi. apply positions_dec.
    vm_compute. reflexivity.
  - intros i Hi j Hj Hij k Hk. apply Himp. revert k Hk. apply positions_dec. revert Hij. apply Himp.
    revert j Hj. apply positions_dec. revert i Hi. apply positions_dec. vm_compute. reflexivity.
Qed.

Lemma forallb_perm {A} (f : A -> bool) l l' : l ≡ₚ l' -> forallb f l = forallb f l'.
Proof.
  induction 1 as [|x l l' _ IH|x y l|]; simpl; [done|by rewrite IH| |congruence].
  by rewrite !andb_assoc, (andb_comm (f x)).
Qed.

Lemma pattern_perm l l' : l ≡ₚ l' -> pattern_check l = pattern_check l'.
Proof.
  intros Hp. unfold pattern_check, pattern_errs, zlen. rewrite (flips_perm l l' Hp), (Permutation_length Hp).
  assert (fits_window l = fits_window l') as ->; [|done].
  unfold fits_window. induction (seqZ 0 23) as [|r rs IH]; simpl; [done|].
  by rewrite IH, (forallb_perm _ _ _ Hp).
Qed.

Lemma swap3 {A} (x y z : A) :
  [x; y; z] ≡ₚ [x; z; y] /\ [x; y; z] ≡ₚ [y; x; z] /\ [x; y; z] ≡ₚ [y; z; x]
  /\ [x; y; z] ≡ₚ [z; x; y] /\ [x; y; z] ≡ₚ [z; y; x].
Proof. split_and!; solve_Permutation. Qed.

Lemma error_pattern_ok l :
  (length l <= 3)%nat -> NoDup l -> Forall position l -> pattern_check l = true.
Proof.
  destruct patterns_checked as (P0 & P1 & P2 & P3). intros Hlen Hnd Hpos.
  destruct l as [|i [|j [|k [|? l]]]]; simpl in Hlen; [done| | | |lia].
  - apply P1. by apply Forall_cons_iff in Hpos as [? _].
  - repeat (apply Forall_cons_iff in Hpos as [? Hpos]).
    assert (i <> j) by (intros ->; inversion_clear Hnd as [|? ? Hn _]; apply Hn; left).
    destruct (decide (i < j)); [by apply P2|].
    rewrite (pattern_perm [i; j] [j; i]) by solve_Permutation. apply P2; [done..|lia].
  - repeat (apply Forall_cons_iff in Hpos as [? Hpos]).
    inversion_clear Hnd as [|? ? Hn1 Hnd']. inversion_clear Hnd' as [|? ? Hn2 _].
    rewrite !elem_of_cons in *.
    assert (i <> j /\ i <> k /\ j <> k) as (? & ? & ?) by tauto.
    destruct (swap3 i j k) as (S1 & S2 & S3 & S4 & S5).
    destruct (decide (i < j)), (decide (j < k)), (decide (i < k)); try lia.
    + apply P3; done || lia.
    + rewrite (pattern_perm _ _ S1). apply P3; done || lia.
    + rewrite (pattern_perm _ _ S4). apply P3; done || lia.
    + rewrite (pattern_perm _ _ S2). apply P3; done || lia.
    + rewrite (pattern_perm _ _ S3). apply P3; done || lia.
    + rewrite (pattern_perm _ _ S5). apply P3; done || lia.
Qed.

(** ** Words and bytes *)

Definition bytes_of (w : Z) : Z * Z * Z :=
  (Z.land w 0xFF, Z.land (Z.shiftr w 8) 0xFF, Z.land (Z.shiftr w 16) 0xFF).

(** Flip, in three transmitted bytes, the bits of the 24-bit word [e]. *)
Definition damage (b : Z * Z * Z) (e : Z) : Z * Z * Z :=
  let '(b0, b1, b2) := b in
  let '(e0, e1, e2) := bytes_of e in
  (Z.lxor b0 e0, Z.lxor b1 e1, Z.lxor b2 e2).

Lemma damage_bytes w e : damage (bytes_of w) e = bytes_of (Z.lxor w e).
Proof. unfold damage, bytes_of. by rewrite !Z.shiftr_lxor, !land_lxor_distr. Qed.

Lemma word_of_bytes w :
  word_of (Z.land w 0xFF) (Z.land (Z.shiftr w 8) 0xFF) (Z.land (Z.shiftr w 16) 0xFF) = Z.land w 0xffffff.
Proof.
  unfold word_of. apply Z.bits_inj'. intros n Hn.
  change 0xFF with (Z.ones 8). change 0xffffff with (Z.ones 24).
  rewrite !Z.lor_spec, !Z.shiftl_spec, !Z.land_spec, !Z.testbit_ones by lia.
  rewrite (proj2 (Z.leb_le 0 n)) by done. cbn [andb].
  destruct (Z.leb_spec 0 (n - 8)), (Z.leb_spec 0 (n - 16)); try lia; cbn [andb];
    rewrite ?andb_false_r, ?Z.shiftr_spec by lia;
    rewrite ?(Z.sub_add 8 n), ?(Z.sub_add 16 n);
    repeat zcase; rewrite ?andb_true_r, ?andb_false_r, ?orb_false_r, ?orb_false_l; lia || done.
Qed.

Lemma golay_low x : golay x = golay (Z.land x 0xfff).
Proof. Local Transparent golay. unfold golay. by rewrite <- Z.land_assoc. Qed.

Local Opaque golay correct.

Definition parity_check (d : Z) : bool :=
  let c := golay d in
  let p := parity c in
  ((p =? 0) || (p =? 1)) && (parity (Z.lor c 0x800000) =? 1 - p).

Lemma parity_check_all d : 0 <= d < 4096 -> parity_check d = true.
Proof. apply all_data_dec. vm_compute. reflexivity. Qed.

(** The transmitted word: the codeword and its parity bit. *)
Definition with_parity (c : Z) (p : bool) : Z := Z.lxor c (if p then 2 ^ 23 else 0).

Lemma lor_bit23 c (p : bool) : word23 c -> Z.lor c (if p then 2 ^ 23 else 0) = with_parity c p.
Proof.
  intros Hc. unfold with_parity. destruct p; [|by rewrite Z.lor_0_r, Z.lxor_0_r].
  apply lor_lxor, Z.eqb_eq. rewrite land_pow2_testbit by done.
  unfold word23 in Hc. rewrite range_testbit in Hc by lia. destruct Hc as [_ Hc]. by rewrite Hc.
Qed.

(** The two halves [golay_decode] takes a 24-bit word apart into. *)
Lemma split_word c (p : bool) : word23 c ->
  Z.land (with_parity c p) 0xffffff = with_parity c p
  /\ Z.land (with_parity c p) 0x800000 = (if p then 2 ^ 23 else 0)
  /\ Z.land (with_parity c p) (Z.lxor 0xffffffff 0x800000) = c.
Proof.
  intros Hc. unfold with_parity. rewrite !land_lxor_distr.
  assert (Hm : forall m, Z.land (2 ^ 23) m = if Z.testbit m 23 then 2 ^ 23 else 0).
  { intros m. apply Z.bits_inj'. intros n Hn. rewrite Z.land_spec, Z.pow2_bits_eqb by lia.
    destruct (Z.eqb_spec 23 n) as [<-|]; cbn [andb]; [destruct (Z.testbit m 23); by rewrite ?Z.pow2_bits_true, ?Z.bits_0|].
    destruct (Z.testbit m 23); [|by rewrite Z.bits_0]. rewrite Z.pow2_bits_eqb by lia.
    by rewrite (proj2 (Z.eqb_neq 23 n)). }
  assert (Hlow : forall m, (forall n, 0 <= n < 23 -> Z.testbit m n = true) -> Z.land c m = c).
  { intros m Hb. unfold word23 in Hc. rewrite range_testbit in Hc by lia. destruct Hc as [_ Hc].
    apply Z.bits_inj'. intros n Hn. rewrite Z.land_spec. destruct (decide (n < 23)).
    - by rewrite Hb, andb_true_r by lia.
    - by rewrite Hc by lia. }
  assert (H24 : Z.land c 0xffffff = c).
  { apply Hlow. intros n Hn. change 0xffffff with (Z.ones 24). apply Z.ones_spec_low. lia. }
  assert (H23 : Z.land c (Z.lxor 0xffffffff 0x800000) = c).
  { apply Hlow. intros n Hn. rewrite Z.lxor_spec. change 0xffffffff with (Z.ones 32).
    rewrite Z.ones_spec_low by lia. change 0x800000 with (2 ^ 23).
    rewrite Z.pow2_bits_eqb, (proj2 (Z.eqb_neq 23 n)) by lia. done. }
  assert (H800 : Z.land c 0x800000 = 0).
  { change 0x800000 with (2 ^ 23). apply Z.eqb_eq. rewrite land_pow2_testbit by done.
    unfold word23 in Hc. rewrite range_testbit in Hc by lia. destruct Hc as [_ Hc]. by rewrite Hc. }
  rewrite H24, H23, H800. destruct p; rewrite ?Hm, ?Z.land_0_l, ?Z.lxor_0_r, ?Z.lxor_0_l; done.
Qed.

Lemma encode_word d0 d1 d2 :
  let d := Z.land (word_of d0 d1 d2) 0xfff in
  golay_encode d0 d1 d2 = bytes_of (with_parity (golay d) (negb (parity (golay d) =? 0))).
Proof.
  intros d. assert (Hd : 0 <= d < 4096).
  { subst d. change 0xfff with (Z.ones 12). rewrite Z.land_ones by lia. apply Z.mod_pos_bound. lia. }
  unfold golay_encode. rewrite golay_low. fold d.
  assert (Hw : word23 (golay d)) by (apply codeword_facts; by exists d).
  rewrite <- lor_bit23 by done. by destruct (parity (golay d) =? 0); rewrite ?Z.lor_0_r.
Qed.

(** Decoding a transmitted word damaged in at most three of its 23 code bits, and
    perhaps in its parity bit. *)
Lemma golay_decode_damaged d0 d1 d2 l (pb : bool) :
  (length l <= 3)%nat -> NoDup l -> Forall position l ->
  let '(r0, r1, r2) := damage (golay_encode d0 d1 d2) (with_parity (flips l) pb) in
  golay_decode r0 r1 r2 = (Z.land (word_of d0 d1 d2) 0xfff, pattern_errs l + if pb then 1 else 0).
Proof.
  intros Hlen Hnd Hpos. rewrite encode_word, damage_bytes. cbn zeta.
  set (d := Z.land (word_of d0 d1 d2) 0xfff).
  assert (Hd : 0 <= d < 4096).
  { subst d. change 0xfff with (Z.ones 12). rewrite Z.land_ones by lia. apply Z.mod_pos_bound. lia. }
  assert (Hc : codeword (golay d)) by (by exists d).
  pose proof (codeword_facts _ Hc) as (Hw & _ & _). pose proof (flips_range l Hpos) as Hf.
  set (par := negb (parity (golay d) =? 0)).
  assert (E : Z.lxor (with_parity (golay d) par) (with_parity (flips l) pb)
              = with_parity (Z.lxor (golay d) (flips l)) (xorb par pb)).
  { unfold with_parity. rewrite pick_lxor. apply lxor_swap. }
  rewrite E. clear E. set (e := Z.lxor (golay d) (flips l)).
  assert (He : word23 e) by (by apply lxor_range).
  unfold bytes_of, golay_decode. rewrite word_of_bytes.
  destruct (split_word e (xorb par pb) He) as (-> & -> & ->). subst e.
  rewrite correct_lxor by done. pose proof (error_pattern_ok l Hlen Hnd Hpos) as Hp.
  unfold pattern_check in Hp. destruct (correct (flips l)) as [r n]. bsplit. subst r n.
  rewrite Z.lxor_0_r. pose proof (parity_check_all d Hd) as Hpar. unfold parity_check in Hpar. bsplit.
  assert (Hpp : parity (Z.lor (golay d) (if xorb par pb then 2 ^ 23 else 0)) = if pb then 1 else 0).
  { subst par. change (2 ^ 23) with 0x800000.
    destruct (Z.eqb_spec (parity (golay d)) 0) as [E0|E0], pb; cbn [negb xorb] in *;
      rewrite ?Z.lor_0_r; simpl in *; lia. }
  rewrite Hpp. f_equal.
  - rewrite Z.land_lor_distr_l, golay_data by done.
    assert (Z.land (if xorb par pb then 2 ^ 23 else 0) 0xFFF = 0) as -> by (by destruct (xorb par pb)).
    by rewrite Z.lor_0_r.
  - destruct pb; simpl; lia.
Qed.

(** C35: the code corrects three errors.  Encode the twelve data bits held in any
    three bytes, flip any set of at most three of the 23 code bits, and possibly
    the parity bit: the decoder returns the data bits. *)
Theorem golay_corrects_three (d0 d1 d2 : Z) (l : list Z) (pb : bool)
    (Hlen : (length l <= 3)%nat) (Hnd : NoDup l) (Hpos : Forall position l) :
  let '(r0, r1, r2) := damage (golay_encode d0 d1 d2) (with_parity (flips l) pb) in
  fst (golay_decode r0 r1 r2) = Z.land (word_of d0 d1 d2) 0xfff.
Proof.
  pose proof (golay_decode_damaged d0 d1 d2 l pb Hlen Hnd Hpos) as H.
  destruct (damage _ _) as [[r0 r1] r2]. by rewrite H.
Qed.

Lemma golay_corrects_three_witness :
  let '(r0, r1, r2) := damage (golay_encode 0xcd 0x0a 0) (with_parity (flips [0; 11; 22]) true) in
  fst (golay_decode r0 r1 r2) = 0xacd.
Proof.
  apply (golay_corrects_three 0xcd 0x0a 0 [0; 11; 22] true).
  - simpl. lia.
  - by apply (bool_decide_unpack _).
  - repeat constructor; vm_compute; discriminate || reflexivity.
Defined.

(** What [*errs] tells about such damage: the number of code bits flipped when
    some rotation brings them all into the eleven check bits, one less than that
    otherwise, and one more when the parity bit was flipped too. *)
Theorem golay_errs_reported (d0 d1 d2 : Z) (l : list Z) (pb : bool)
    (Hlen : (length l <= 3)%nat) (Hnd : NoDup l) (Hpos : Forall position l) :
  let '(r0, r1, r2) := damage (golay_encode d0 d1 d2) (with_parity (flips l) pb) in
  snd (golay_decode r0 r1 r2)
  = (if fits_window l then zlen l else zlen l - 1) + if pb then 1 else 0.
Proof.
  pose proof (golay_decode_damaged d0 d1 d2 l pb Hlen Hnd Hpos) as H.
  destruct (damage _ _) as [[r0 r1] r2]. by rewrite H.
Qed.

(** Two flipped bits reported as one. *)
Lemma golay_errs_reported_witness :
  let '(r0, r1, r2) := damage (golay_encode 0xcd 0x0a 0) (with_parity (flips [0; 11]) false) in
  snd (golay_decode r0 r1 r2) = 1.
Proof.
  apply (golay_errs_reported 0xcd 0x0a 0 [0; 11] false).
  - simpl. lia.
  - by apply (bool_decide_unpack _).
  - repeat constructor; vm_compute; discriminate || reflexivity.
Defined.
