(* ===== verification/Rotbuf.v ===== *)
(** * Rotated buffers (rotbuf.c, rotbuf.h)

    The pointers [buf], [ebuf], [start] and [cursor] are offsets from [buf]; the
    memory is the list of bytes of the buffer.  The abstract state of a rotated
    buffer is one number, the bytes the cursor was asked to advance over; the
    documented invariants of rotbuf.h are what relates it to the pointers. *)

From stdpp Require Import base tactics list numbers.
From Stdlib Require Import ZArith Lia.
From S2P Require Import Prelude.

Local Open Scope Z_scope.

Record rotbuf := Rotbuf {
  rb_ebuf : Z;
  rb_start : Z;
  rb_cursor : Z;
  rb_wrap : Z
}.

Definition EOF : Z := -1.

Definition rotbuf_init (size rot : Z) : outcome rotbuf :=
  if size =? 0 then Undef
  else
    let start := if rot <? 0 then size - 1 - Z.rem (-1 - rot) size else Z.rem rot size in
    Ret (Rotbuf size start start 0).

Definition rotbuf_reset (rb : rotbuf) : rotbuf := Rotbuf (rb_ebuf rb) (rb_start rb) (rb_start rb) 0.

Definition rotbuf_position (rb : rotbuf) : Z :=
  if negb (rb_wrap rb =? 0) then rb_ebuf rb
  else if rb_start rb <=? rb_cursor rb then rb_cursor rb - rb_start rb
  else rb_cursor rb + (rb_ebuf rb - rb_start rb).

Definition rotbuf_remain (rb : rotbuf) : Z :=
  if negb (rb_wrap rb =? 0) then 0
  else if rb_cursor rb <? rb_start rb then rb_start rb - rb_cursor rb
  else (rb_ebuf rb - rb_cursor rb) + rb_start rb.

Definition rotbuf_count (rb : rotbuf) : Z :=
  if negb (rb_wrap rb =? 0) then rb_ebuf rb + rb_wrap rb - 1 else rotbuf_position rb.

Definition rotbuf_advance (rb : rotbuf) (len : Z) : rotbuf :=
  let set c w := Rotbuf (rb_ebuf rb) (rb_start rb) c w in
  if negb (rb_wrap rb =? 0) then set (rb_cursor rb) (u32 (rb_wrap rb + len))
  else if negb (len =? 0) then
    let c := rb_cursor rb + len in
    if rb_start rb <=? rb_cursor rb then
      if rb_ebuf rb <=? c then
        let c := c - rb_ebuf rb in
        if rb_start rb <=? c then set (rb_start rb) (u32 (1 + (c - rb_start rb)))
        else set c (rb_wrap rb)
      else set c (rb_wrap rb)
    else if rb_start rb <=? c then set (rb_start rb) (u32 (1 + (c - rb_start rb)))
    else set c (rb_wrap rb)
  else rb.

(** The step of the cursor that [rotbuf_getc] and [rotbuf_putc] share. *)
Definition rotbuf_step (rb : rotbuf) : rotbuf :=
  let c := rb_cursor rb + 1 in
  let c := if c =? rb_ebuf rb then 0 else c in
  Rotbuf (rb_ebuf rb) (rb_start rb) c (if c =? rb_start rb then 1 else rb_wrap rb).

Definition rotbuf_getc (rb : rotbuf) (m : list Z) : outcome (Z * rotbuf) :=
  if negb (rb_wrap rb =? 0)
  then Ret (EOF, Rotbuf (rb_ebuf rb) (rb_start rb) (rb_cursor rb) (u32 (rb_wrap rb + 1)))
  else c ← or_undef (m @@ rb_cursor rb); Ret (c, rotbuf_step rb).

Fixpoint rotbuf_getbuf (rb : rotbuf) (m : list Z) (len : nat) : outcome (list Z * rotbuf) :=
  match len with
  | O => Ret ([], rb)
  | S len =>
    '(c, rb) ← rotbuf_getc rb m;
    '(out, rb) ← rotbuf_getbuf rb m len;
    Ret (u8 c :: out, rb)
  end.

Definition rotbuf_putc (rb : rotbuf) (m : list Z) (c : Z) : outcome (rotbuf * list Z) :=
  if negb (rb_wrap rb =? 0)
  then Ret (Rotbuf (rb_ebuf rb) (rb_start rb) (rb_cursor rb) (u32 (rb_wrap rb + 1)), m)
  else _ ← or_undef (m @@ rb_cursor rb);
       Ret (rotbuf_step rb, <[Z.to_nat (rb_cursor rb) := c]> m).

Fixpoint rotbuf_putbuf (rb : rotbuf) (m src : list Z) : outcome (rotbuf * list Z) :=
  match src with
  | [] => Ret (rb, m)
  | c :: src => '(rb, m) ← rotbuf_putc rb m c; rotbuf_putbuf rb m src
  end.

(** The assertions compare [buf], which is the same by construction here. *)
Definition rotbuf_delta (origin dest : rotbuf) : outcome Z :=
  _ ← cassert (rb_ebuf origin =? rb_ebuf dest);
  _ ← cassert (rb_start origin =? rb_start dest);
  let org := if rb_cursor origin <? rb_start origin then rb_cursor origin + rb_ebuf origin else rb_cursor origin in
  _ ← cassert (rb_start origin <=? org);
  let dst := if rb_cursor dest <? rb_start dest then rb_cursor dest + rb_ebuf dest else rb_cursor dest in
  _ ← cassert (rb_start dest <=? dst);
  Ret (dst - org).

(** The chunk [(offset, length)], or [None] when it returns 0. *)
Definition rotbuf_next_chunk (rb : rotbuf) : option (Z * Z) * rotbuf :=
  let set c w := Rotbuf (rb_ebuf rb) (rb_start rb) c w in
  if negb (rb_wrap rb =? 0) then (None, rb)
  else if rb_start rb <=? rb_cursor rb then
    (Some (rb_cursor rb, rb_ebuf rb - rb_cursor rb),
     set 0 (if 0 =? rb_start rb then rb_wrap rb + 1 else rb_wrap rb))
  else (Some (rb_cursor rb, rb_start rb - rb_cursor rb), set (rb_start rb) (rb_wrap rb + 1)).

(** ** Representation *)

(** The rotated buffer of [size] bytes starting at [start], advanced over [n]
    bytes; the [wrap] counter has not overflowed. *)
Record rb_rep (size start n : Z) (rb : rotbuf) : Prop := {
  rr_size : 0 <= start < size;
  rr_ebuf : rb_ebuf rb = size;
  rr_start : rb_start rb = start;
  rr_n : 0 <= n < size + 2 ^ 32 - 1;
  rr_cursor : rb_cursor rb = if n <? size then (start + n) mod size else start;
  rr_wrap : rb_wrap rb = if n <? size then 0 else n - size + 1
}.

(** The position of the [n]-th byte without division. *)
Lemma rot_mod size start n :
  0 <= start < size -> 0 <= n < size ->
  (start + n) mod size = if start + n <? size then start + n else start + n - size.
Proof.
  intros. zcase; [by apply Z.mod_small; lia|].
  symmetry. apply (Z.mod_unique_pos _ _ 1); lia.
Qed.

Ltac rb_unfold :=
  match goal with
  | H : rb_rep ?size ?start ?n ?rb |- _ =>
    destruct H as [? ? ? ? Hc ?]; destruct rb as [e s c w];
    cbn [rb_ebuf rb_start rb_cursor rb_wrap] in *; subst e s;
    destruct (n <? size) eqn:?; bsplit;
      [rewrite rot_mod in Hc by lia | idtac]; subst
  end.

(** Decide every comparison left in the goal. *)
Ltac rb_simpl := cbn [rb_ebuf rb_start rb_cursor rb_wrap negb andb].
Ltac rb_cases := repeat (rb_simpl; first [rewrite uN_small by lia | zcase]); rb_simpl; try lia.

Lemma rotbuf_init_rep size rot rb :
  0 < size -> rotbuf_init size rot = Ret rb -> rb_rep size (rot mod size) 0 rb.
Proof.
  intros Hs. unfold rotbuf_init. rewrite (proj2 (Z.eqb_neq _ _)) by lia. intros [= <-].
  pose proof (Z.mod_pos_bound rot size Hs) as Hb.
  assert (E : (if rot <? 0 then size - 1 - Z.rem (-1 - rot) size else Z.rem rot size) = rot mod size).
  { zcase.
    - rewrite Z.rem_mod_nonneg by lia.
      pose proof (Z.mod_pos_bound (-1 - rot) size Hs). apply (Z.mod_unique_pos _ _ (- ((-1 - rot) / size) - 1)); [lia|].
      pose proof (Z.div_mod (-1 - rot) size). nia.
    - by rewrite Z.rem_mod_nonneg by lia. }
  rewrite E. split; simpl; [done..|lia| |].
  - rewrite (proj2 (Z.ltb_lt 0 size)), Z.add_0_r by lia. by rewrite Z.mod_mod by lia.
  - by rewrite (proj2 (Z.ltb_lt 0 size)) by lia.
Qed.

Lemma rotbuf_queries size start n rb :
  rb_rep size start n rb ->
  rotbuf_count rb = n /\ rotbuf_position rb = Z.min n size /\ rotbuf_remain rb = Z.max 0 (size - n).
Proof.
  intros H. unfold rotbuf_count, rotbuf_position, rotbuf_remain. rb_unfold; split_and!; rb_cases.
Qed.

Lemma rotbuf_advance_rep size start n rb len :
  rb_rep size start n rb -> 0 <= len -> n + len < size + 2 ^ 32 - 1 ->
  rb_rep size start (n + len) (rotbuf_advance rb len).
Proof.
  intros H Hl Hn. unfold rotbuf_advance. rb_unfold; rb_cases; split; rb_simpl; try lia; try done; rb_cases;
    rewrite ?rot_mod by lia; rb_cases.
Qed.

Lemma rotbuf_step_rep size start n rb :
  rb_rep size start n rb -> n < size -> rb_rep size start (n + 1) (rotbuf_step rb).
Proof.
  intros H Hn. unfold rotbuf_step. rb_unfold; [|lia]. rb_cases; split; rb_simpl; try lia; try done; rb_cases;
    rewrite ?rot_mod by lia; rb_cases.
Qed.

Lemma rotbuf_next_chunk_rep size start n rb :
  rb_rep size start n rb ->
  match rotbuf_next_chunk rb with
  | (None, rb') => rb' = rb /\ size <= n
  | (Some (off, len), rb') =>
    n < size /\ 0 < len /\ off = (start + n) mod size /\ off + len <= size
    /\ rb_rep size start (n + len) rb'
  end.
Proof.
  intros H. unfold rotbuf_next_chunk. rb_unfold; rb_cases; rewrite ?rot_mod by lia;
    split_and!; rb_cases; split; rb_simpl; try lia; try done; rb_cases; rewrite ?rot_mod by lia; rb_cases.
Qed.

(** ** Contents *)

(** The byte at logical index [k] of the rotated buffer. *)
Definition rot_at (size start : Z) (m : list Z) (k : Z) : option Z := m @@ ((start + k) mod size).

Lemma rot_index size start k : 0 <= start < size -> 0 <= k < size -> 0 <= (start + k) mod size < size.
Proof. intros. apply Z.mod_pos_bound. lia. Qed.

Lemma rot_inj size start j k :
  0 <= start < size -> 0 <= j < size -> 0 <= k < size ->
  (start + j) mod size = (start + k) mod size -> j = k.
Proof. intros Hs Hj Hk. rewrite !rot_mod by done. repeat zcase; lia. Qed.

Lemma zlookup_insert (m : list Z) i j v :
  0 <= i < zlen m -> 0 <= j -> (<[Z.to_nat i := v]> m) @@ j = if i =? j then Some v else m @@ j.
Proof.
  intros Hi Hj. unfold zlookup, zlen in *. rewrite (proj2 (Z.ltb_ge j 0)) by lia.
  destruct (Z.eqb_spec i j) as [->|Hne].
  - rewrite list_lookup_insert_eq by lia. done.
  - apply list_lookup_insert_ne. lia.
Qed.

Lemma rotbuf_putc_rep size start n rb m c :
  rb_rep size start n rb -> zlen m = size -> n + 1 < size + 2 ^ 32 - 1 ->
  exists rb' m', rotbuf_putc rb m c = Ret (rb', m') /\ rb_rep size start (n + 1) rb' /\ zlen m' = size
    /\ forall k, 0 <= k < size -> rot_at size start m' k = if k =? n then Some c else rot_at size start m k.
Proof.
  intros Hrep Hm Hn. pose proof Hrep as [Hs He Hst Hn0 Hc Hw]. unfold rotbuf_putc. rewrite Hw.
  destruct (n <? size) eqn:Hlt; bsplit.
  - simpl. rewrite Hc. destruct (zlookup_lt ((start + n) mod size) m) as [x ->].
    { rewrite Hm. apply rot_index; lia. }
    simpl. eexists _, _. split; [done|]. split; [by apply rotbuf_step_rep|].
    split; [by rewrite <- Hm; unfold zlen; rewrite length_insert|].
    intros k Hk. unfold rot_at. rewrite zlookup_insert by (rewrite ?Hm; apply rot_index; lia).
    destruct (Z.eqb_spec k n) as [->|]; [by rewrite Z.eqb_refl|].
    rewrite (proj2 (Z.eqb_neq _ _)); [done|]. intros E%rot_inj; lia.
  - rewrite (proj2 (Z.eqb_neq (n - size + 1) 0)) by lia. simpl.
    eexists _, _. split; [done|]. split; [|split; [done|]].
    + split; simpl; try done; [lia| |]; rewrite (proj2 (Z.ltb_ge (n + 1) size)) by lia; [done|].
      rewrite uN_small; lia.
    + intros k Hk. by rewrite (proj2 (Z.eqb_neq k n)) by lia.
Qed.

Lemma rotbuf_putbuf_rep size start src : forall n rb m,
  rb_rep size start n rb -> zlen m = size -> n + zlen src < size + 2 ^ 32 - 1 ->
  exists rb' m', rotbuf_putbuf rb m src = Ret (rb', m') /\ rb_rep size start (n + zlen src) rb' /\ zlen m' = size
    /\ forall k, 0 <= k < size ->
       rot_at size start m' k = if (n <=? k) && (k <? n + zlen src) then src @@ (k - n) else rot_at size start m k.
Proof.
  induction src as [|c src IH]; intros n rb m Hrep Hm Hn.
  - change (zlen []) with 0 in *. rewrite Z.add_0_r. simpl. eexists _, _. split_and!; [done..|].
    intros k Hk. by assert ((n <=? k) && (k <? n) = false) as -> by lia.
  - rewrite zlen_cons in *. pose proof (zlen_nonneg src). pose proof (rr_n _ _ _ _ Hrep).
    destruct (rotbuf_putc_rep size start n rb m c Hrep Hm) as (rb1 & m1 & E1 & Hrep1 & Hm1 & Hat1); [lia|].
    destruct (IH (n + 1) rb1 m1 Hrep1 Hm1) as (rb2 & m2 & E2 & Hrep2 & Hm2 & Hat2); [lia|].
    simpl. rewrite E1. simpl. rewrite E2. eexists _, _. split; [done|].
    split; [by replace (n + (1 + zlen src)) with (n + 1 + zlen src) by lia|]. split; [done|].
    intros k Hk. rewrite Hat2, Hat1 by done. destruct (Z.eqb_spec k n) as [->|Hne].
    + assert ((n + 1 <=? n) && (n <? n + 1 + zlen src) = false) as -> by lia.
      assert ((n <=? n) && (n <? n + (1 + zlen src)) = true) as -> by lia. by rewrite Z.sub_diag.
    + replace ((n <=? k) && (k <? n + (1 + zlen src))) with ((n + 1 <=? k) && (k <? n + 1 + zlen src))
        by (repeat zcase; simpl; lia || done).
      destruct ((n + 1 <=? k) && _) eqn:Hin; [|done]. bsplit. unfold zlookup.
      rewrite !(proj2 (Z.ltb_ge _ 0)) by lia.
      by replace (Z.to_nat (k - n)) with (S (Z.to_nat (k - (n + 1)))) by lia.
Qed.

(** Reading past the end gives EOF, stored as the byte 255. *)
Lemma rotbuf_getbuf_rep size start m len : forall n rb,
  rb_rep size start n rb -> zlen m = size -> n + Z.of_nat len < size + 2 ^ 32 - 1 ->
  exists out rb', rotbuf_getbuf rb m len = Ret (out, rb') /\ rb_rep size start (n + Z.of_nat len) rb'
    /\ zlen out = Z.of_nat len
    /\ forall k, 0 <= k < Z.of_nat len ->
       out @@ k = if n + k <? size then option_map u8 (rot_at size start m (n + k)) else Some 255.
Proof.
  induction len as [|len IH]; intros n rb Hrep Hm Hn.
  - simpl. rewrite Z.add_0_r. eexists _, _. split_and!; [done..|]. lia.
  - pose proof Hrep as [Hs He Hst Hn0 Hc Hw].
    assert (Hget : exists c rb1, rotbuf_getc rb m = Ret (c, rb1) /\ rb_rep size start (n + 1) rb1
      /\ Some (u8 c) = if n <? size then option_map u8 (rot_at size start m n) else Some 255).
    { unfold rotbuf_getc. rewrite Hw. destruct (n <? size) eqn:Hlt; bsplit.
      - simpl. unfold rot_at. rewrite Hc. destruct (zlookup_lt ((start + n) mod size) m) as [x ->].
        { rewrite Hm. apply rot_index; lia. }
        simpl. eexists _, _. split; [done|]. split; [by apply rotbuf_step_rep|done].
      - rewrite (proj2 (Z.eqb_neq (n - size + 1) 0)) by lia. simpl. eexists _, _. split; [done|]. split; [|done].
        split; simpl; try done; [lia| |]; rewrite (proj2 (Z.ltb_ge (n + 1) size)) by lia; [done|].
        rewrite uN_small; lia. }
    destruct Hget as (c & rb1 & E1 & Hrep1 & Hv).
    destruct (IH (n + 1) rb1 Hrep1 Hm) as (out & rb2 & E2 & Hrep2 & Hlen & Hat); [lia|].
    cbn [rotbuf_getbuf]. rewrite E1. cbn [mbind outcome_bind]. rewrite E2. cbn [mbind outcome_bind]. eexists _, _. split; [done|].
    split; [replace (n + Z.of_nat (S len)) with (n + 1 + Z.of_nat len) by lia; exact Hrep2|].
    split; [rewrite zlen_cons; lia|]. intros k Hk.
    destruct (decide (k = 0)) as [->|Hk0]; [by rewrite Z.add_0_r|].
    assert ((u8 c :: out) @@ k = out @@ (k - 1)) as ->.
    { unfold zlookup. rewrite !(proj2 (Z.ltb_ge _ 0)) by lia.
      by replace (Z.to_nat k) with (S (Z.to_nat (k - 1))) by lia. }
    rewrite Hat by lia. by replace (n + 1 + (k - 1)) with (n + k) by lia.
Qed.

Lemma rotbuf_reset_rep size start n rb : rb_rep size start n rb -> rb_rep size start 0 (rotbuf_reset rb).
Proof.
  intros [? ? ? ? ? ?]. split; simpl; try done; [lia| |]; rewrite (proj2 (Z.ltb_lt 0 size)) by lia; [|done].
  rewrite Z.add_0_r, Z.mod_small by lia. done.
Qed.

(** What is written into a rotated buffer is read back.  Over any buffer of
    [size > 0] bytes and any rotation, negative ones included, writing any bytes,
    resetting and reading as many bytes gives the bytes that fitted, in order,
    then EOF bytes; the count is the number of bytes written, overrun included,
    and the memory keeps its size. *)
Theorem rotbuf_write_read (size rot : Z) (m src : list Z)
    (Hsize : 0 < size) (Hm : zlen m = size) (Hsrc : Forall is_byte src)
    (Hlen : zlen src < 2 ^ 32) :
  exists rb rb' m' rb'',
    rotbuf_init size rot = Ret rb
    /\ rotbuf_putbuf rb m src = Ret (rb', m')
    /\ zlen m' = size
    /\ rotbuf_count rb' = zlen src
    /\ rotbuf_position rb' = Z.min (zlen src) size
    /\ rotbuf_getbuf (rotbuf_reset rb') m' (length src)
       = Ret (take (Z.to_nat size) src ++ replicate (length src - Z.to_nat size) 255, rb'').
Proof.
  assert (Hi : exists rb, rotbuf_init size rot = Ret rb).
  { unfold rotbuf_init. rewrite (proj2 (Z.eqb_neq _ _)) by lia. eauto. }
  destruct Hi as [rb Ei]. pose proof (rotbuf_init_rep size rot rb Hsize Ei) as Hrep.
  set (start := rot mod size) in *.
  destruct (rotbuf_putbuf_rep size start src 0 rb m Hrep Hm) as (rb' & m' & Ep & Hrep' & Hm' & Hat); [lia|].
  destruct (rotbuf_getbuf_rep size start m' (length src) 0 (rotbuf_reset rb')) as (out & rb'' & Eg & _ & Ho & Hoat).
  { by eapply rotbuf_reset_rep. }
  { done. }
  { unfold zlen in Hlen. lia. }
  exists rb, rb', m', rb''. pose proof (rotbuf_queries _ _ _ _ Hrep') as (Hcnt & Hpos & _).
  split_and!; [done..|]. rewrite Eg. do 2 f_equal.
  apply list_eq. intros i.
  destruct (decide (i < length src)%nat) as [Hlt|Hge].
  - assert (Hi : out !! i = out @@ Z.of_nat i).
    { unfold zlookup. rewrite (proj2 (Z.ltb_ge _ 0)) by lia. by rewrite Nat2Z.id. }
    rewrite Hi, Hoat by lia. rewrite Z.add_0_l. destruct (Z.ltb_spec (Z.of_nat i) size).
    + rewrite Hat by lia. assert ((0 <=? Z.of_nat i) && (Z.of_nat i <? 0 + zlen src) = true) as ->
        by (unfold zlen; lia).
      rewrite Z.sub_0_r. unfold zlookup. rewrite (proj2 (Z.ltb_ge _ 0)), Nat2Z.id by lia.
      rewrite lookup_app_l by (rewrite length_take; lia). rewrite lookup_take_lt by lia.
      destruct (src !! i) as [x|] eqn:Ex; [|done]. simpl. f_equal. apply uN_small.
      rewrite Forall_forall in Hsrc. apply Hsrc. apply list_elem_of_In. by eapply list_elem_of_lookup_2.
    + rewrite lookup_app_r by (rewrite length_take; lia). rewrite length_take.
      rewrite lookup_replicate_2 by lia. done.
  - rewrite !lookup_ge_None_2; [done| |unfold zlen in Ho; lia].
    rewrite length_app, length_take, length_replicate. lia.
Qed.

Lemma rotbuf_write_read_witness :
  exists rb rb' m' rb'',
    rotbuf_init 4 (-3) = Ret rb /\ rotbuf_putbuf rb [0; 0; 0; 0] [1; 2; 3; 4; 5] = Ret (rb', m')
    /\ zlen m' = 4 /\ rotbuf_count rb' = 5 /\ rotbuf_position rb' = 4
    /\ rotbuf_getbuf (rotbuf_reset rb') m' 5 = Ret ([1; 2; 3; 4; 255], rb'').
Proof.
  apply (rotbuf_write_read 4 (-3) [0; 0; 0; 0] [1; 2; 3; 4; 5]);
    [lia|reflexivity|repeat constructor; vm_compute; discriminate || reflexivity|reflexivity].
Defined.
