(* ===== verification/Limit.v ===== *)
(** * Rate limiting (limit.c, limit.h)

    The clock is an argument: every operation takes the value [gettime_ms()]
    returned.  Times are 64-bit milliseconds. *)

From stdpp Require Import base tactics list numbers.
From Stdlib Require Import ZArith Lia.
From S2P Require Import Prelude.

Local Open Scope Z_scope.

Record limit_state := LimitState {
  rate_micro_seconds : Z;
  burst_length : Z;
  burst_size : Z;
  sent : Z;
  next_interval : Z
}.

Definition MIN_BURST_LENGTH : Z := 5000.

Definition update_limit_state (state : limit_state) (now : Z) : limit_state :=
  if (now <? next_interval state) || (burst_size state =? 0) then state
  else
    let next :=
      if now <? next_interval state + burst_length state
      then next_interval state + burst_length state
      else now + burst_length state in
    LimitState (rate_micro_seconds state) (burst_length state) (burst_size state) 0 next.

Definition limit_next_allowed (state : limit_state) (now : Z) : Z * limit_state :=
  if burst_size state =? 0 then (now, state)
  else
    let state := update_limit_state state now in
    if sent state <? burst_size state then (now, state) else (next_interval state, state).

Definition limit_is_allowed (state : limit_state) (now : Z) : Z * limit_state :=
  if burst_size state =? 0 then (0, state)
  else
    let state := update_limit_state state now in
    if burst_size state <=? sent state then (-1, state)
    else (0, LimitState (rate_micro_seconds state) (burst_length state) (burst_size state)
               (sent state + 1) (next_interval state)).

(** [burst_size * rate_micro_seconds] is a [uint32_t] product; dividing it by the
    double 1000.0 and truncating to [time_ms_t] is an integer division, since no
    quotient of a 32-bit value by 1000 is rounded up to the next integer. *)
Definition limit_init (state : limit_state) (rate : Z) : limit_state :=
  if rate =? 0 then LimitState rate 0 0 (sent state) (next_interval state)
  else
    let size := MIN_BURST_LENGTH / rate + 1 in
    LimitState rate (u32 (size * rate) / 1000) size (sent state) (next_interval state).

(** ** Lemmas *)

(** A state that limits: what [limit_init] establishes for a nonzero rate, and
    the counter within the burst. *)
Record limiting (st : limit_state) : Prop := {
  li_length : 0 < burst_length st;
  li_size : 0 < burst_size st;
  li_sent : 0 <= sent st <= burst_size st
}.

Lemma limit_init_limiting st rate :
  0 < rate < 2 ^ 32 -> sent st = 0 -> limiting (limit_init st rate).
Proof.
  intros Hr Hs. unfold limit_init, MIN_BURST_LENGTH. rewrite (proj2 (Z.eqb_neq _ _)) by lia.
  pose proof (Z.div_mod 5000 rate ltac:(lia)). pose proof (Z.mod_pos_bound 5000 rate ltac:(lia)).
  assert (0 <= 5000 / rate) by (apply Z.div_pos; lia).
  assert (Hbig : 5000 < (5000 / rate + 1) * rate < 2 ^ 32).
  { split; [nia|]. destruct (decide (rate <= 5000)); [nia|]. rewrite Z.div_small by lia. lia. }
  split; simpl.
  - rewrite uN_small by lia. apply Z.div_str_pos. lia.
  - lia.
  - lia.
Qed.

Lemma update_limiting st now :
  limiting st ->
  limiting (update_limit_state st now)
  /\ burst_size (update_limit_state st now) = burst_size st
  /\ burst_length (update_limit_state st now) = burst_length st
  /\ now < next_interval (update_limit_state st now)
  /\ (update_limit_state st now = st /\ now < next_interval st
      \/ sent (update_limit_state st now) = 0 /\ next_interval st <= now
         /\ next_interval st + burst_length st <= next_interval (update_limit_state st now)).
Proof.
  intros [Hl Hs Hn]. unfold update_limit_state. rewrite (proj2 (Z.eqb_neq (burst_size st) 0)) by lia.
  rewrite orb_false_r. destruct (Z.ltb_spec now (next_interval st)); simpl.
  - split_and!; try done. by left.
  - split_and!; [split; simpl; lia|done|done|zcase; lia|]. right. split_and!; [done|done|zcase; lia].
Qed.

Lemma is_allowed_limiting st now :
  limiting st ->
  limiting (limit_is_allowed st now).2
  /\ burst_size (limit_is_allowed st now).2 = burst_size st
  /\ burst_length (limit_is_allowed st now).2 = burst_length st.
Proof.
  intros Hst. unfold limit_is_allowed. pose proof (update_limiting st now Hst) as ([? ? ?] & E1 & E2 & _).
  rewrite (proj2 (Z.eqb_neq (burst_size st) 0)) by (destruct Hst; lia).
  destruct (Z.leb_spec (burst_size (update_limit_state st now)) (sent (update_limit_state st now))); simpl;
    split_and!; try done; split; simpl; lia.
Qed.

(** How many of the calls at the given times were allowed. *)
Fixpoint count_allowed (st : limit_state) (times : list Z) : Z :=
  match times with
  | [] => 0
  | now :: times =>
    let '(r, st) := limit_is_allowed st now in
    (if r =? 0 then 1 else 0) + count_allowed st times
  end.

(** What may still be allowed up to time [T]: the rest of the current burst, and
    one burst for each interval that starts by then. *)
Definition allowance (st : limit_state) (T : Z) : Z :=
  (burst_size st - sent st)
  + burst_size st * (if next_interval st <=? T then (T - next_interval st) / burst_length st + 1 else 0).

Lemma allowance_nonneg st T : limiting st -> 0 <= allowance st T.
Proof.
  intros [? ? ?]. unfold allowance. zcase; [|lia].
  assert (0 <= (T - next_interval st) / burst_length st) by (apply Z.div_pos; lia). nia.
Qed.

Lemma update_allowance st now T :
  limiting st -> now <= T -> allowance (update_limit_state st now) T <= allowance st T.
Proof.
  intros Hst HT. destruct (update_limiting st now Hst) as (_ & E1 & E2 & _ & [[-> _]|(E3 & Hle & Hnext)]); [lia|].
  destruct Hst as [Hl Hs Hn]. unfold allowance. rewrite E1, E2, E3.
  rewrite (proj2 (Z.leb_le (next_interval st) T)) by lia.
  set (n' := next_interval (update_limit_state st now)) in *.
  assert (0 <= (T - next_interval st) / burst_length st) by (apply Z.div_pos; lia).
  zcase; [|nia].
  assert ((T - n') / burst_length st + 1 <= (T - next_interval st) / burst_length st).
  { rewrite <- Z.div_add by lia. apply Z.div_le_mono; lia. }
  nia.
Qed.

(** C40: a limiter bounds the rate.  However often and at whatever times up to [T]
    the caller asks, [limit_is_allowed] says yes at most as often as the rest of
    the current burst, plus [burst_size] for each burst interval that begins by
    [T]. *)
Theorem limit_rate_bound (st : limit_state) (times : list Z) (T : Z)
    (Hst : limiting st) (HT : Forall (fun t => t <= T) times) :
  count_allowed st times
  <= (burst_size st - sent st)
     + burst_size st * (if next_interval st <=? T then (T - next_interval st) / burst_length st + 1 else 0).
Proof.
  fold (allowance st T). revert st Hst. induction HT as [|now times Hnow _ IH]; intros st Hst.
  - by apply allowance_nonneg.
  - cbn [count_allowed]. pose proof (is_allowed_limiting st now Hst) as (Hst' & _).
    pose proof (update_allowance st now T Hst Hnow) as Hup. revert Hst'.
    unfold limit_is_allowed. rewrite (proj2 (Z.eqb_neq (burst_size st) 0)) by (destruct Hst; lia).
    destruct (burst_size (update_limit_state st now) <=? sent (update_limit_state st now));
      simpl; intros Hst'; specialize (IH _ Hst').
    + lia.
    + unfold allowance in *. simpl in *. lia.
Qed.

Lemma limit_rate_bound_witness :
  count_allowed (limit_init (LimitState 0 0 0 0 0) 10000) [100; 101; 102; 115] <= 1 + 1 * ((115 - 0) / 10 + 1).
Proof.
  apply (limit_rate_bound (limit_init (LimitState 0 0 0 0 0) 10000) [100; 101; 102; 115] 115).
  - apply limit_init_limiting; [lia|reflexivity].
  - repeat constructor; lia.
Defined.

(** [limit_next_allowed] tells the truth: asking [limit_is_allowed] at the time
    it returned, from the state it left, is answered yes. *)
Theorem limit_next_allowed_ok (st : limit_state) (now : Z) (Hst : limiting st) :
  let '(t, st') := limit_next_allowed st now in
  now <= t /\ fst (limit_is_allowed st' t) = 0.
Proof.
  unfold limit_next_allowed. rewrite (proj2 (Z.eqb_neq (burst_size st) 0)) by (destruct Hst; lia).
  destruct (update_limiting st now Hst) as (Hst' & _ & _ & Hlt & _).
  set (st' := update_limit_state st now) in *.
  assert (Hok : forall t, sent (update_limit_state st' t) < burst_size st' -> (limit_is_allowed st' t).1 = 0).
  { intros t Ht. unfold limit_is_allowed. rewrite (proj2 (Z.eqb_neq (burst_size st') 0)) by (destruct Hst'; lia).
    destruct (update_limiting st' t Hst') as (_ & -> & _). by rewrite (proj2 (Z.leb_gt _ _)). }
  destruct (Z.ltb_spec (sent st') (burst_size st')).
  - split; [lia|]. apply Hok. destruct (update_limiting st' now Hst') as (_ & _ & _ & _ & [[-> _]|(-> & _)]);
      [done|destruct Hst'; lia].
  - split; [lia|]. apply Hok.
    destruct (update_limiting st' (next_interval st') Hst') as (_ & _ & _ & _ & [[_ ?]|(-> & _)]);
      [lia|destruct Hst'; lia].
Qed.

Lemma limit_next_allowed_ok_witness :
  let '(t, st') := limit_next_allowed (LimitState 10000 10 1 1 205) 200 in
  200 <= t /\ fst (limit_is_allowed st' t) = 0.
Proof. apply (limit_next_allowed_ok (LimitState 10000 10 1 1 205) 200). split; simpl; lia. Defined.
