(* ===== verification/DataFormats.v ===== *)
(** * Data formats (dataformats.c)

    Parsing of subscriber identities and of the Rhizome identifiers, telephone
    numbers, little-endian integers and comparison of sequence numbers.  A parser
    that stores into an optional pointer returns what it would store. *)

From Stdlib Require Import ZArith Lia Ascii String.
From stdpp Require Import base tactics list numbers.
From S2P Require Import Prelude Cstring Ctype Str.

Local Open Scope Z_scope.

Definition SID_SIZE : Z := 32.
Definition SID_STRLEN : Z := SID_SIZE * 2.
Definition SID_BROADCAST : list Z := replicate 32 0xff.
Definition DID_MINSIZE : Z := 5.
Definition DID_MAXSIZE : Z := 32.

(** [memcmp] over the binary form; the sign is what counts. *)
Fixpoint memcmp (a b : list Z) : Z :=
  match a, b with
  | x :: a, y :: b => if x =? y then memcmp a b else if x <? y then -1 else 1
  | _, _ => 0
  end.

Definition cmp_sid_t (a b : list Z) : Z := memcmp a b.
Definition cmp_rhizome_bid_t (a b : list Z) : Z := memcmp a b.
Definition cmp_rhizome_filehash_t (a b : list Z) : Z := memcmp a b.

(** [strn_to_sid_t]: the identity stored in [*sidp] and the pointer stored in
    [*endp], or [None] for -1. *)
Definition strn_to_sid_t `{Arch} (hex : list Z) (hexlen : Z) : outcome (option (list Z * list Z)) :=
  b ← strn_startswith hex hexlen (cstr "broadcast");
  match b with
  | Some e => Ret (Some (SID_BROADCAST, e))
  | None =>
    if hexlen <? SID_SIZE * 2 then Ret None
    else
      '(n, tmp) ← fromhex hex SID_SIZE;
      if negb (s32 n =? SID_SIZE) then Ret None
      else Ret (Some (tmp, drop (Z.to_nat (SID_SIZE * 2)) hex))
  end.

Definition str_to_sid_t `{Arch} (hex : list Z) : outcome (option (list Z)) :=
  r ← strn_to_sid_t hex SIZE_MAX;
  match r with
  | Some (sid, e) => c ← rd e; Ret (if c =? 0 then Some sid else None)
  | None => Ret None
  end.

(** The length stored in [*lenp], or [None] for 0. *)
Definition strn_is_subscriber_id (sid : list Z) : outcome (option Z) :=
  r ← strncasecmp sid (cstr "broadcast") 9;
  if r =? 0 then Ret (Some 9)
  else x ← is_xsubstring sid (Z.to_nat SID_STRLEN);
       Ret (if x : bool then Some SID_STRLEN else None).

Definition str_is_subscriber_id (sid : list Z) : outcome bool :=
  r ← strn_is_subscriber_id sid;
  match r with Some len => c ← rdn sid len; Ret (c =? 0) | None => Ret false end.

(** The three Rhizome identifiers differ only in their size [n]: parsing with a
    destination, checking without one, and parsing a prefix. *)
Definition str_to_binary (n : Z) (dest : bool) (hex : list Z) : outcome (Z * list Z) :=
  if dest then fromhexstr hex n
  else x ← is_xstring hex (Z.to_nat (n * 2)); Ret (if x : bool then 0 else -1, []).

Definition strn_to_binary `{Arch} (n : Z) (hex : list Z) : outcome (option (list Z * list Z)) :=
  '(r, tmp) ← fromhex hex n;
  if negb (s32 r =? n) then Ret None else Ret (Some (tmp, drop (Z.to_nat (n * 2)) hex)).

Definition RHIZOME_BUNDLE_ID_BYTES : Z := 32.
Definition RHIZOME_FILEHASH_BYTES : Z := 64.
Definition RHIZOME_BUNDLE_KEY_BYTES : Z := 32.
Definition RHIZOME_CRYPT_KEY_BYTES : Z := 32.

Definition str_to_rhizome_bid_t := str_to_binary RHIZOME_BUNDLE_ID_BYTES.
Definition strn_to_rhizome_bid_t `{Arch} := strn_to_binary RHIZOME_BUNDLE_ID_BYTES.
Definition str_to_rhizome_filehash_t := str_to_binary RHIZOME_FILEHASH_BYTES.
Definition strn_to_rhizome_filehash_t `{Arch} := strn_to_binary RHIZOME_FILEHASH_BYTES.
Definition str_to_rhizome_bk_t := str_to_binary RHIZOME_BUNDLE_KEY_BYTES.
Definition strn_to_rhizome_bk_t `{Arch} := strn_to_binary RHIZOME_BUNDLE_KEY_BYTES.

Definition rhizome_strn_is_bundle_crypt_key (key : list Z) : outcome bool :=
  is_xsubstring key (Z.to_nat (RHIZOME_CRYPT_KEY_BYTES * 2)).
Definition rhizome_str_is_bundle_crypt_key (key : list Z) : outcome bool :=
  is_xstring key (Z.to_nat (RHIZOME_CRYPT_KEY_BYTES * 2)).

(** [while ( *text && p( *text )) ++text; return *text == '\0';] *)
Fixpoint all_until_nul (p : Z -> bool) (text : list Z) : outcome bool :=
  match text with
  | [] => Undef
  | c :: text' => if c =? 0 then Ret true else if p c then all_until_nul p text' else Ret false
  end.

Definition rhizome_str_is_manifest_service (text : list Z) : outcome bool :=
  c ← rd text;
  if c =? 0 then Ret false
  else all_until_nul (fun c => isalnum c || (c =? chr "_") || (c =? chr ".")) text.

Definition rhizome_str_is_manifest_name (text : list Z) : outcome bool :=
  all_until_nul (fun c => negb (c =? 10) && negb (c =? 13)) text.

Definition is_didchar (c : Z) : bool :=
  isdigit c || (c =? chr "*") || (c =? chr "#") || (c =? chr "+").

(** [for (i = 0; i < DID_MAXSIZE && is_didchar(did[i]); ++i)]; [n] is
    [DID_MAXSIZE - i]. *)
Fixpoint did_loop (n : nat) (i : Z) (did : list Z) : outcome Z :=
  match n with
  | O => Ret i
  | S n =>
    match did with
    | [] => Undef
    | c :: did => if is_didchar c then did_loop n (i + 1) did else Ret i
    end
  end.

Definition strn_is_did (did : list Z) : outcome (option Z) :=
  i ← did_loop (Z.to_nat DID_MAXSIZE) 0 did;
  Ret (if i <? DID_MINSIZE then None else Some i).

Definition str_is_did (did : list Z) : outcome bool :=
  r ← strn_is_did did;
  match r with Some len => c ← rdn did len; Ret (c =? 0) | None => Ret false end.

(** ** Little-endian integers *)

Fixpoint write_uint (n : nat) (v : Z) : list Z :=
  match n with O => [] | S n => Z.land v 0xff :: write_uint n (Z.shiftr v 8) end.

Definition write_uint64 (v : Z) : list Z := write_uint 8 v.
Definition write_uint32 (v : Z) : list Z := write_uint 4 v.
Definition write_uint16 (v : Z) : list Z := write_uint 2 v.

(** [for (i = 0; i < n; i++) v = (v << 8) | o[n - 1 - i]] in a [w]-bit [v]. *)
Fixpoint read_uint_loop (w : Z) (k : nat) (o : list Z) (v : Z) : outcome Z :=
  match k with
  | O => Ret v
  | S k => b ← or_undef (o @@ Z.of_nat k); read_uint_loop w k o (Z.lor (uN w (Z.shiftl v 8)) b)
  end.

Definition read_uint64 (o : list Z) : outcome Z := read_uint_loop 64 8 o 0.
Definition read_uint32 (o : list Z) : outcome Z := read_uint_loop 32 4 o 0.
Definition read_uint16 (o : list Z) : outcome Z := read_uint_loop 16 2 o 0.

(** ** Sequence numbers *)

Definition compare_wrapped_uint8 (one two : Z) : Z := s8 (one - two).
Definition compare_wrapped_uint16 (one two : Z) : Z := s16 (one - two).
