(* ===== verification/DataFormatsSpec.v ===== *)
(** * Correctness of the data formats (dataformats.c) *)

From Stdlib Require Import ZArith Lia Ascii String.
From stdpp Require Import base tactics list numbers.
From S2P Require Import Prelude Cstring Ctype Str StrHex DataFormats.

Local Open Scope Z_scope.

(** ** Subscriber identities *)

Lemma hex_not_broadcast bs rest len :
  bytes bs -> bs <> [] -> 0 < len ->
  strn_startswith (hex_of bs ++ rest) len (cstr "broadcast") = Ret None.
Proof.
  intros Hbs Hne Hlen. destruct bs as [|b bs]; [done|]. apply Forall_cons_iff in Hbs as [Hb _].
  destruct (byte_nibbles b Hb) as [Hn _]. rewrite hex_of_cons. simpl app.
  cbn [cstr zs app strn_startswith]. change (chr "b" =? 0) with false. cbn [negb].
  rewrite (proj2 (Z.eqb_neq len 0)) by lia.
  assert ((chr "b" =? hexdig (b / 16)) = false) as ->; [|done].
  change (chr "b") with 98. apply Z.eqb_neq. unfold hexdig. zcase; lia.
Qed.

(** A text starts with any of its prefixes. *)
Lemma strn_startswith_self p rest r2 len :
  no_nul p -> zlen p <= len -> strn_startswith (p ++ rest) len (p ++ 0 :: r2) = Ret (Some rest).
Proof.
  intros Hp. revert len. induction Hp as [|c p Hc Hp IH]; intros len Hlen; simpl; [by destruct rest|].
  rewrite zlen_cons in Hlen. pose proof (zlen_nonneg p).
  rewrite (proj2 (Z.eqb_neq _ _) Hc), (proj2 (Z.eqb_neq len 0)), Z.eqb_refl by lia. apply IH. lia.
Qed.

Lemma fromhex_hex_of `{Arch} bs rest : bytes bs -> fromhex (hex_of bs ++ rest) (zlen bs) = Ret (zlen bs, bs).
Proof.
  intros Hbs. unfold fromhex, strn_fromhex. rewrite (fromhex_loop_hex_of bs rest) by (done || lia).
  simpl. by rewrite Z.eqb_refl.
Qed.

(** The hexadecimal text of a subscriber identity is read back as that
    identity, insisting on the end of the string, and the text accepted for the
    broadcast identity is read as all ones. *)
Theorem sid_text_roundtrip `{Arch} (sid : list Z) (Hb : bytes sid) (Hlen : zlen sid = SID_SIZE) :
  (exists h, tohex SID_STRLEN sid = Ret h /\ str_to_sid_t h = Ret (Some sid))
  /\ str_to_sid_t (cstr "broadcast") = Ret (Some SID_BROADCAST).
Proof.
  split.
  - exists (hex_of sid ++ [0]). split.
    { apply tohex_hex_of; [done|]. rewrite Hlen. reflexivity. }
    unfold str_to_sid_t, strn_to_sid_t. pose proof SIZE_MAX_ge.
    rewrite hex_not_broadcast; [|done|by intros ->|lia]. cbn [mbind outcome_bind].
    change (SID_SIZE * 2) with 64. rewrite (proj2 (Z.ltb_ge SIZE_MAX 64)) by lia.
    rewrite <- Hlen, fromhex_hex_of by done. cbn [mbind outcome_bind]. rewrite Hlen.
    change (negb (s32 SID_SIZE =? SID_SIZE)) with false. cbn [mbind outcome_bind].
    rewrite drop_app_length'; [done|].
    pose proof (zlen_hex_of sid) as E. rewrite Hlen in E. unfold zlen in E. change (2 * SID_SIZE) with 64 in E. lia.
  - unfold str_to_sid_t, strn_to_sid_t. pose proof SIZE_MAX_ge.
    pose proof (strn_startswith_self (zs "broadcast") [0] [] SIZE_MAX) as E.
    change (zs "broadcast" ++ [0]) with (cstr "broadcast") in E. rewrite E; [done| |].
    + repeat constructor; vm_compute; discriminate.
    + change (zlen (zs "broadcast")) with 9. lia.
Qed.

Lemma sid_text_roundtrip_witness :
  (exists h, tohex SID_STRLEN (replicate 32 0xb0) = Ret h
     /\ @str_to_sid_t ILP32 h = Ret (Some (replicate 32 0xb0)))
  /\ @str_to_sid_t ILP32 (cstr "broadcast") = Ret (Some SID_BROADCAST).
Proof.
  apply (@sid_text_roundtrip ILP32 (replicate 32 0xb0)); [|reflexivity].
  unfold bytes. repeat constructor; vm_compute; discriminate || reflexivity.
Defined.

(** ** Integers *)

(** The value of the bytes of a little-endian integer. *)
Fixpoint le_value (o : list Z) : Z := match o with [] => 0 | b :: o => b + 256 * le_value o end.

Lemma write_uint_spec n v :
  0 <= v < 256 ^ Z.of_nat n ->
  bytes (write_uint n v) /\ length (write_uint n v) = n /\ le_value (write_uint n v) = v.
Proof.
  revert v. induction n as [|n IH]; intros v Hv.
  - simpl in *. split_and!; [constructor|done|lia].
  - rewrite Nat2Z.inj_succ, Z.pow_succ_r in Hv by lia. cbn [write_uint].
    rewrite land_ff, Z.shiftr_div_pow2 by lia. change (2 ^ 8) with 256.
    destruct (IH (v / 256)) as (Hb & Hl & Hval); [split; [apply Z.div_pos; lia|apply Z.div_lt_upper_bound; lia]|].
    split_and!; [constructor; [unfold is_byte; dmlia|done]|simpl; lia|]. simpl. rewrite Hval. dmlia.
Qed.

Lemma read_uint_loop_spec w o : bytes o -> w = 8 * zlen o ->
  forall k v, (k <= length o)%nat -> 0 <= v -> v * 256 ^ Z.of_nat k < 2 ^ w ->
  read_uint_loop w k o v = Ret (v * 256 ^ Z.of_nat k + le_value (take k o)).
Proof.
  intros Ho Hw. assert (Hw0 : 0 <= w) by (pose proof (zlen_nonneg o); lia).
  assert (Htake : forall k b, o !! k = Some b -> le_value (take (S k) o) = le_value (take k o) + b * 256 ^ Z.of_nat k).
  { clear. induction o as [|x o IH]; intros k b Hl; [done|]. destruct k as [|k].
    - simpl in *. injection Hl as <-. destruct o; simpl; lia.
    - simpl in Hl. rewrite Nat2Z.inj_succ, Z.pow_succ_r by lia.
      change (take (S (S k)) (x :: o)) with (x :: take (S k) o). change (take (S k) (x :: o)) with (x :: take k o).
      cbn [le_value]. rewrite (IH k b Hl). lia. }
  induction k as [|k IH]; intros v Hk Hv Hfit.
  - cbn [read_uint_loop]. rewrite take_0. simpl le_value. f_equal. change (256 ^ Z.of_nat 0) with 1. lia.
  - cbn [read_uint_loop]. unfold zlookup. rewrite (proj2 (Z.ltb_ge _ 0)), Nat2Z.id by lia.
    destruct (lookup_lt_is_Some_2 o k) as [b Hb]; [lia|]. rewrite Hb. cbn [or_undef mbind outcome_bind].
    assert (Hbb : is_byte b).
    { unfold bytes in Ho; rewrite Forall_forall in Ho. apply Ho, list_elem_of_In. by eapply list_elem_of_lookup_2. }
    rewrite Nat2Z.inj_succ, Z.pow_succ_r in Hfit by lia.
    assert (0 < 256 ^ Z.of_nat k) by (apply Z.pow_pos_nonneg; lia).
    assert (Hv8 : v * 256 < 2 ^ w) by nia.
    rewrite Z.shiftl_mul_pow2 by lia. change (2 ^ 8) with 256.
    rewrite uN_small by lia. rewrite Z.lor_comm.
    pose proof (lor_mul_pow2 b v 8 ltac:(lia) ltac:(unfold is_byte in Hbb; lia)) as E.
    change (2 ^ 8) with 256 in E. rewrite E, IH.
    + rewrite (Htake k b Hb), Nat2Z.inj_succ, Z.pow_succ_r by lia. f_equal. lia.
    + lia.
    + unfold is_byte in Hbb. lia.
    + assert (Hp : 2 ^ w = 256 ^ Z.of_nat (length o)).
      { rewrite Hw. unfold zlen. change 256 with (2 ^ 8). by rewrite <- Z.pow_mul_r by lia. }
      assert (Hq : 256 ^ Z.of_nat (length o) = 256 ^ (Z.of_nat (length o) - Z.of_nat k - 1) * (256 * 256 ^ Z.of_nat k)).
      { rewrite <- Z.pow_succ_r, <- Z.pow_add_r by lia. f_equal. lia. }
      unfold is_byte in Hbb. rewrite Hp, Hq in Hfit |- *.
      set (q := 256 ^ (Z.of_nat (length o) - Z.of_nat k - 1)) in *.
      set (p := 256 ^ Z.of_nat k) in *.
      assert (v < q) by nia. nia.
Qed.

Lemma uint_roundtrip n w v :
  w = 8 * Z.of_nat n -> 0 <= v < 2 ^ w -> read_uint_loop w n (write_uint n v) 0 = Ret v.
Proof.
  intros -> Hv. assert (Hp : 2 ^ (8 * Z.of_nat n) = 256 ^ Z.of_nat n).
  { change 256 with (2 ^ 8). by rewrite <- Z.pow_mul_r by lia. }
  rewrite Hp in Hv. destruct (write_uint_spec n v Hv) as (Hb & Hl & Hval).
  rewrite read_uint_loop_spec; [|done|unfold zlen; lia|lia|lia|rewrite Hp; lia].
  rewrite take_ge by lia. by rewrite Hval.
Qed.

(** The little-endian readers invert the writers at every width, and what is
    written is two, four or eight bytes. *)
Theorem read_write_uint (v : Z) :
  (0 <= v < 2 ^ 16 -> bytes (write_uint16 v) /\ length (write_uint16 v) = 2%nat /\ read_uint16 (write_uint16 v) = Ret v)
  /\ (0 <= v < 2 ^ 32 -> bytes (write_uint32 v) /\ length (write_uint32 v) = 4%nat /\ read_uint32 (write_uint32 v) = Ret v)
  /\ (0 <= v < 2 ^ 64 -> bytes (write_uint64 v) /\ length (write_uint64 v) = 8%nat /\ read_uint64 (write_uint64 v) = Ret v).
Proof.
  split_and!; intros Hv.
  - destruct (write_uint_spec 2 v ltac:(exact Hv)) as (? & ? & _). split_and!; [done..|by apply uint_roundtrip].
  - destruct (write_uint_spec 4 v ltac:(exact Hv)) as (? & ? & _). split_and!; [done..|by apply uint_roundtrip].
  - destruct (write_uint_spec 8 v ltac:(exact Hv)) as (? & ? & _). split_and!; [done..|by apply uint_roundtrip].
Qed.

Lemma read_write_uint_witness : read_uint32 (write_uint32 0x89abcdef) = Ret 0x89abcdef.
Proof. apply (proj1 (proj2 (read_write_uint 0x89abcdef))). split; [discriminate|reflexivity]. Defined.

(** ** Sequence numbers *)

(** Comparing wrapped sequence numbers gives the distance between them, with
    its sign, whenever that distance is below half the range: counting [k] on from
    [x], the comparison with [x] is [k]. *)
Theorem compare_wrapped_distance (x k : Z) :
  (0 <= x < 2 ^ 8 -> - 2 ^ 7 <= k < 2 ^ 7 -> compare_wrapped_uint8 (u8 (x + k)) x = k)
  /\ (0 <= x < 2 ^ 16 -> - 2 ^ 15 <= k < 2 ^ 15 -> compare_wrapped_uint16 (u16 (x + k)) x = k).
Proof.
  assert (Hgen : forall w, 0 < w -> 0 <= x < 2 ^ w -> - 2 ^ (w - 1) <= k < 2 ^ (w - 1) ->
    sN w (uN w (x + k) - x) = k).
  { intros w Hw Hx Hk. unfold sN, uN.
    assert (H2 : 2 ^ w = 2 * 2 ^ (w - 1)) by (rewrite <- Z.pow_succ_r by lia; f_equal; lia).
    replace ((x + k) mod 2 ^ w - x + 2 ^ (w - 1)) with ((x + k) mod 2 ^ w + (2 ^ (w - 1) - x)) by lia.
    rewrite Zplus_mod_idemp_l.
    replace (x + k + (2 ^ (w - 1) - x)) with (k + 2 ^ (w - 1)) by lia. rewrite Z.mod_small by lia. lia. }
  split; intros Hx Hk; apply Hgen; done || lia.
Qed.

Lemma compare_wrapped_distance_witness : compare_wrapped_uint16 (u16 (65530 + 10)) 65530 = 10.
Proof. apply (proj2 (compare_wrapped_distance 65530 10)); lia. Defined.
