(* ===== verification/Uuid.v ===== *)
(** * UUIDs (uuid.c, uuid.h)

    A UUID is its sixteen bytes [u.binary]; the fields of [u.record] are read
    from and written to these bytes in network order. *)

From Stdlib Require Import ZArith Lia Ascii String.
From stdpp Require Import base tactics list numbers.
From S2P Require Import Prelude Cstring Ctype Str StrHex Strbuf StrbufSpec.

Local Open Scope Z_scope.

Inductive uuid_version :=
| UUID_VERSION_UNSUPPORTED
| UUID_VERSION_TIME_BASED
| UUID_VERSION_DCE_SECURITY
| UUID_VERSION_NAME_MD5
| UUID_VERSION_RANDOM
| UUID_VERSION_NAME_SHA1.

Definition byte_at (u : list Z) (i : Z) : Z := default 0 (u @@ i).
Definition set_byte (u : list Z) (i v : Z) : list Z := <[Z.to_nat i := v]> u.

(** [ntohs(uuid->u.record.time_hi_and_version)] *)
Definition time_hi_and_version (u : list Z) : Z := byte_at u 6 * 256 + byte_at u 7.
Definition clock_seq_hi_and_reserved (u : list Z) : Z := byte_at u 8.

Definition uuid_is_valid (u : list Z) : bool := Z.land (clock_seq_hi_and_reserved u) 0xc0 =? 0x80.

Definition uuid_get_version (u : list Z) : outcome uuid_version :=
  _ ← cassert (uuid_is_valid u);
  let v := Z.land (time_hi_and_version u) 0xf000 in
  Ret (if v =? 0x1000 then UUID_VERSION_TIME_BASED
       else if v =? 0x2000 then UUID_VERSION_DCE_SECURITY
       else if v =? 0x3000 then UUID_VERSION_NAME_MD5
       else if v =? 0x4000 then UUID_VERSION_RANDOM
       else if v =? 0x5000 then UUID_VERSION_NAME_SHA1
       else UUID_VERSION_UNSUPPORTED).

Definition uuid_set_version (u : list Z) (version : uuid_version) : outcome (list Z) :=
  version_bits ←
    match version with
    | UUID_VERSION_TIME_BASED => Ret 0x1000
    | UUID_VERSION_DCE_SECURITY => Ret 0x2000
    | UUID_VERSION_NAME_MD5 => Ret 0x3000
    | UUID_VERSION_RANDOM => Ret 0x4000
    | UUID_VERSION_NAME_SHA1 => Ret 0x5000
    | UUID_VERSION_UNSUPPORTED => Abort
    end;
  _ ← cassert (uuid_is_valid u);
  let h := Z.lor (Z.land (time_hi_and_version u) 0xfff) version_bits in
  Ret (set_byte (set_byte u 6 (Z.shiftr h 8)) 7 (Z.land h 0xff)).

(** [random] is what [urandombytes] stored, or [None] when it returned -1. *)
Definition uuid_generate_random (random : option (list Z)) : outcome (Z * list Z) :=
  match random with
  | None => Ret (-1, [])
  | Some u =>
    let u := set_byte u 8 (Z.lor (Z.land (byte_at u 8) 0x3f) 0x80) in
    u ← uuid_set_version u UUID_VERSION_RANDOM;
    Ret (0, u)
  end.

(** The loop of [strbuf_uuid]: [i] is the index of the first byte of [bin]. *)
Fixpoint strbuf_uuid_loop `{Arch} (sb : strbuf) (m : list Z) (i : Z) (bin : list Z)
    : outcome (strbuf * list Z) :=
  match bin with
  | [] => Ret (sb, m)
  | b :: bin =>
    '(sb, m) ← (if (i =? 4) || (i =? 6) || (i =? 8) || (i =? 10) then strbuf_putc sb m (chr "-") else Ret (sb, m));
    h ← or_undef (hexdigit_lower @@ Z.shiftr b 4);
    '(sb, m) ← strbuf_putc sb m h;
    l ← or_undef (hexdigit_lower @@ Z.land b 0xf);
    '(sb, m) ← strbuf_putc sb m l;
    strbuf_uuid_loop sb m (i + 1) bin
  end.

Definition strbuf_uuid `{Arch} (sb : strbuf) (m u : list Z) : outcome (strbuf * list Z) :=
  _ ← cassert (uuid_is_valid u);
  strbuf_uuid_loop sb m 0 u.

Definition UUID_STRLEN : Z := 36.

(** The buffer [dst] after the call. *)
Definition uuid_to_str `{Arch} (u dst : list Z) : outcome (list Z) :=
  '(b, m) ← strbuf_init false (UUID_STRLEN + 1) dst;
  '(b, m) ← strbuf_uuid b m u;
  _ ← cassert (negb (strbuf_overrun b));
  Ret m.

(** One conjunct [strn_fromhex(uuid->u.binary + off, n, end, &end) == n]: whether
    it holds, the bytes of the UUID afterwards, and [end]. *)
Definition uuid_group (u : list Z) (off n : Z) (e : list Z) : outcome (bool * list Z * list Z) :=
  '(out, e) ← strn_fromhex n e;
  Ret (zlen out =? n, splice off out u, e).

(** The conjunction, for the groups that follow the first, each after a dash. *)
Fixpoint uuid_groups (u : list Z) (gs : list (Z * Z)) (e : list Z) : outcome (bool * list Z * list Z) :=
  match gs with
  | [] => Ret (true, u, e)
  | (off, n) :: gs =>
    c ← rd e;
    if negb (c =? chr "-") then Ret (false, u, e)
    else
      '(ok, u, e) ← uuid_group u off n (tail e);
      if ok : bool then uuid_groups u gs e else Ret (false, u, e)
  end.

(** The return value, the UUID afterwards and [*afterp]. *)
Definition str_to_uuid (str u : list Z) (afterp : bool) : outcome (bool * list Z * list Z) :=
  '(ok, u, e) ← uuid_group u 0 4 str;
  '(ok, u, e) ← (if ok : bool then uuid_groups u [(4, 2); (6, 2); (8, 2); (10, 6)] e else Ret (false, u, e));
  ret ← (if ok : bool
         then _ ← cassert (zlen e =? zlen str - UUID_STRLEN); Ret (uuid_is_valid u)
         else Ret false);
  if afterp then Ret (ret, u, e)
  else if ret : bool then c ← rd e; Ret (c =? 0, u, e) else Ret (false, u, e).

(** ** Lemmas *)

Definition lowdig (n : Z) : Z := if n <? 10 then 48 + n else 87 + n.

Lemma hexdigit_lower_at n : 0 <= n < 16 -> hexdigit_lower @@ n = Some (lowdig n).
Proof.
  intros Hn.
  assert (Hd : (negb (n <? 16) || bool_decide (hexdigit_lower @@ n = Some (lowdig n))) = true).
  { assert (Hb : is_byte n) by (unfold is_byte; lia). clear Hn. revert n Hb.
    apply all_bytes_dec. vm_compute. reflexivity. }
  rewrite (proj2 (Z.ltb_lt n 16)) in Hd by lia. cbn [negb orb] in Hd. by bsplit.
Qed.

Lemma lowdig_spec n : 0 <= n < 16 -> isxdigit (lowdig n) = true /\ hexval (lowdig n) = n /\ lowdig n <> 0.
Proof.
  intros Hn. assert (Hx : isxdigit (lowdig n) = true).
  { unfold lowdig, isxdigit, isdigit, between. destruct (Z.ltb_spec n 10); repeat zcase; simpl; lia || done. }
  split_and!; [done| |unfold lowdig; zcase; lia]. unfold hexval. rewrite Hx.
  unfold lowdig, radix_digit, isdigit, isupper, islower, between.
  destruct (Z.ltb_spec n 10); repeat zcase; simpl; lia.
Qed.

(** The lower-case digits of a byte string. *)
Definition low_of (bs : list Z) : list Z := bs ≫= fun b => [lowdig (b / 16); lowdig (b mod 16)].

Lemma low_of_cons b bs : low_of (b :: bs) = lowdig (b / 16) :: lowdig (b mod 16) :: low_of bs.
Proof. done. Qed.

Lemma zlen_low_of bs : zlen (low_of bs) = 2 * zlen bs.
Proof. induction bs as [|b bs IH]; [done|]. rewrite low_of_cons, !zlen_cons, IH. lia. Qed.

Lemma fromhex_loop_low_of bs rest dstlen cnt :
  bytes bs -> dstlen = cnt + zlen bs -> 0 <= cnt ->
  strn_fromhex_loop dstlen cnt (low_of bs ++ rest) = Ret (bs, rest).
Proof.
  intros Hbs. revert cnt. induction Hbs as [|b bs Hb Hbs IH]; intros cnt Hd Hc.
  - unfold zlen in Hd. simpl in *. by rewrite fromhex_loop_full by lia.
  - destruct (byte_nibbles b Hb). rewrite zlen_cons in Hd. pose proof (zlen_nonneg bs).
    destruct (lowdig_spec (b / 16)) as (? & E1 & _); [done|]. destruct (lowdig_spec (b mod 16)) as (? & E2 & _); [done|].
    rewrite low_of_cons. simpl app. rewrite fromhex_loop_pair by (done || lia).
    rewrite IH by lia. simpl. rewrite E1, E2. do 3 f_equal. rewrite (Z.div_mod b 16) at 3 by lia. lia.
Qed.

(** The canonical text. *)
Definition uuid_text (g1 g2 g3 g4 g5 : list Z) : list Z :=
  low_of g1 ++ chr "-" :: low_of g2 ++ chr "-" :: low_of g3 ++ chr "-" :: low_of g4 ++ chr "-" :: low_of g5.

(** The characters [strbuf_uuid] appends, starting at byte [i]. *)
Fixpoint uuid_chars (i : Z) (bin : list Z) : list Z :=
  match bin with
  | [] => []
  | b :: bin =>
    (if (i =? 4) || (i =? 6) || (i =? 8) || (i =? 10) then [chr "-"] else [])
    ++ lowdig (b / 16) :: lowdig (b mod 16) :: uuid_chars (i + 1) bin
  end.

Lemma uuid_loop_run `{Arch} bin : bytes bin -> forall i sb m,
  strbuf_uuid_loop sb m i bin = sb_run (map OPutc (uuid_chars i bin)) sb m.
Proof.
  induction 1 as [|b bin Hb _ IH]; intros i sb m; [done|]. destruct (byte_nibbles b Hb).
  cbn [strbuf_uuid_loop uuid_chars].
  rewrite Z.shiftr_div_pow2 by lia. change (2 ^ 4) with 16.
  change 0xf with (Z.ones 4). rewrite Z.land_ones by lia. change (2 ^ 4) with 16.
  rewrite !hexdigit_lower_at by done. cbn [or_undef mbind outcome_bind].
  assert (Htail : forall sb m,
    ('(sb, m) ← strbuf_putc sb m (lowdig (b / 16)); '(sb, m) ← strbuf_putc sb m (lowdig (b mod 16));
     strbuf_uuid_loop sb m (i + 1) bin)
    = sb_run (map OPutc (lowdig (b / 16) :: lowdig (b mod 16) :: uuid_chars (i + 1) bin)) sb m).
  { intros sb1 m1. cbn [map sb_run sb_exec].
    destruct (strbuf_putc sb1 m1 _) as [[sb2 m2]| |]; [|done..]. cbn [mbind outcome_bind].
    destruct (strbuf_putc sb2 m2 _) as [[sb3 m3]| |]; [|done..]. cbn [mbind outcome_bind]. apply IH. }
  destruct ((i =? 4) || (i =? 6) || (i =? 8) || (i =? 10)).
  - cbn [app map sb_run sb_exec]. destruct (strbuf_putc sb m (chr "-")) as [[sb1 m1]| |]; [|done..].
    cbn [mbind outcome_bind]. apply Htail.
  - cbn [app mbind outcome_bind]. apply Htail.
Qed.

Lemma uuid_chars_no_nul bin i : bytes bin -> no_nul (uuid_chars i bin).
Proof.
  intros Hb. revert i. induction Hb as [|b bin Hb _ IH]; intros i; [constructor|].
  destruct (byte_nibbles b Hb). cbn [uuid_chars]. apply Forall_app. split.
  - destruct (_ || _); [|constructor]. apply Forall_singleton. discriminate.
  - constructor; [by apply lowdig_spec|]. constructor; [by apply lowdig_spec|]. apply IH.
Qed.

Lemma uuid_chars_text u :
  length u = 16%nat ->
  uuid_chars 0 u = uuid_text (take 4 u) (slice 4 2 u) (slice 6 2 u) (slice 8 2 u) (slice 10 6 u).
Proof. intros Hl. do 16 (destruct u as [|? u]; [done|]). destruct u; [|done]. reflexivity. Qed.

(** Parsing one group of a text that has it. *)
Lemma uuid_group_ok u off n g rest :
  bytes g -> zlen g = n -> uuid_group u off n (low_of g ++ rest) = Ret (true, splice off g u, rest).
Proof.
  intros Hg Hn. unfold uuid_group, strn_fromhex. rewrite fromhex_loop_low_of by (done || lia). simpl.
  by rewrite Hn, Z.eqb_refl.
Qed.

Lemma uuid_groups_step u off n gs g rest :
  bytes g -> zlen g = n ->
  uuid_groups u ((off, n) :: gs) (chr "-" :: low_of g ++ rest) = uuid_groups (splice off g u) gs rest.
Proof.
  intros Hg Hn. cbn [uuid_groups rd head or_undef mbind outcome_bind tail].
  change (negb (chr "-" =? chr "-")) with false. cbn iota. by rewrite uuid_group_ok.
Qed.

Lemma splice_groups (g1 g2 g3 g4 g5 old : list Z) :
  length g1 = 4%nat -> length g2 = 2%nat -> length g3 = 2%nat -> length g4 = 2%nat -> length g5 = 6%nat ->
  length old = 16%nat ->
  splice 10 g5 (splice 8 g4 (splice 6 g3 (splice 4 g2 (splice 0 g1 old)))) = g1 ++ g2 ++ g3 ++ g4 ++ g5.
Proof.
  intros L1 L2 L3 L4 L5 L.
  do 4 (destruct g1 as [|? g1]; [done|]). destruct g1; [|done].
  do 2 (destruct g2 as [|? g2]; [done|]). destruct g2; [|done].
  do 2 (destruct g3 as [|? g3]; [done|]). destruct g3; [|done].
  do 2 (destruct g4 as [|? g4]; [done|]). destruct g4; [|done].
  do 6 (destruct g5 as [|? g5]; [done|]). destruct g5; [|done].
  do 16 (destruct old as [|? old]; [done|]). destruct old; [|done]. reflexivity.
Qed.

Lemma str_to_uuid_text g1 g2 g3 g4 g5 old tl :
  bytes g1 -> bytes g2 -> bytes g3 -> bytes g4 -> bytes g5 ->
  zlen g1 = 4 -> zlen g2 = 2 -> zlen g3 = 2 -> zlen g4 = 2 -> zlen g5 = 6 -> length old = 16%nat ->
  uuid_is_valid (g1 ++ g2 ++ g3 ++ g4 ++ g5) = true ->
  str_to_uuid (uuid_text g1 g2 g3 g4 g5 ++ 0 :: tl) old false = Ret (true, g1 ++ g2 ++ g3 ++ g4 ++ g5, 0 :: tl).
Proof.
  intros B1 B2 B3 B4 B5 L1 L2 L3 L4 L5 Lo Hv. unfold str_to_uuid.
  assert (Htl : zlen (uuid_text g1 g2 g3 g4 g5) = 36).
  { unfold uuid_text. repeat (rewrite ?zlen_app, ?zlen_cons). rewrite !zlen_low_of. lia. }
  assert (Hcut : (zlen (0 :: tl) =? zlen (uuid_text g1 g2 g3 g4 g5 ++ 0 :: tl) - UUID_STRLEN) = true).
  { apply Z.eqb_eq. rewrite zlen_app, Htl. unfold UUID_STRLEN. lia. }
  assert (Hshape : uuid_text g1 g2 g3 g4 g5 ++ 0 :: tl
    = low_of g1 ++ chr "-" :: low_of g2 ++ chr "-" :: low_of g3 ++ chr "-" :: low_of g4 ++ chr "-" :: low_of g5 ++ 0 :: tl).
  { unfold uuid_text. repeat (rewrite <- app_assoc; simpl). done. }
  rewrite Hshape at 1. rewrite uuid_group_ok by done. cbn [mbind outcome_bind].
  rewrite !uuid_groups_step by done. cbn [uuid_groups mbind outcome_bind].
  rewrite splice_groups by (unfold zlen in *; lia). rewrite Hcut, Hv. done.
Qed.

(** Formatting a valid UUID into a buffer of 37 bytes never overruns it and
    writes the 36 characters of its canonical form and a NUL; parsing these
    characters, insisting on the end of the string, succeeds and gives the same
    UUID back, whatever the destination held before. *)
Theorem uuid_text_roundtrip `{Arch} (u dst old : list Z)
    (Hu : bytes u) (Hlen : length u = 16%nat) (Hold : length old = 16%nat)
    (Hvalid : uuid_is_valid u = true) (Hdst : UUID_STRLEN + 1 <= zlen dst) :
  exists m, uuid_to_str u dst = Ret m
    /\ strlen m = Ret UUID_STRLEN
    /\ exists e, str_to_uuid m old false = Ret (true, u, e).
Proof.
  set (t := uuid_chars 0 u).
  set (g1 := take 4 u). set (g2 := slice 4 2 u). set (g3 := slice 6 2 u).
  set (g4 := slice 8 2 u). set (g5 := slice 10 6 u).
  assert (Ht : t = uuid_text g1 g2 g3 g4 g5) by (by apply uuid_chars_text).
  assert (Hnn : no_nul t) by (by apply uuid_chars_no_nul).
  assert (Hsplit : u = g1 ++ g2 ++ g3 ++ g4 ++ g5).
  { subst g1 g2 g3 g4 g5. clear -Hlen. do 16 (destruct u as [|? u]; [done|]). by destruct u. }
  assert (Hlens : zlen g1 = 4 /\ zlen g2 = 2 /\ zlen g3 = 2 /\ zlen g4 = 2 /\ zlen g5 = 6).
  { subst g1 g2 g3 g4 g5. clear -Hlen. do 16 (destruct u as [|? u]; [done|]). by destruct u. }
  destruct Hlens as (L1 & L2 & L3 & L4 & L5).
  assert (Hb : bytes g1 /\ bytes g2 /\ bytes g3 /\ bytes g4 /\ bytes g5).
  { clearbody g1 g2 g3 g4 g5. clear -Hu Hsplit. subst u. unfold bytes in *. rewrite !Forall_app in Hu. tauto. }
  destruct Hb as (B1 & B2 & B3 & B4 & B5).
  assert (Htl : zlen t = 36).
  { rewrite Ht. unfold uuid_text. repeat (rewrite ?zlen_app, ?zlen_cons). rewrite !zlen_low_of. lia. }
  destruct (strbuf_session_rep (UUID_STRLEN + 1) dst (map OPutc t)) as (sb & m & E & Hrep).
  { unfold UUID_STRLEN in *. lia. }
  { apply Forall_map. eapply Forall_impl; [|exact Hnn]. done. }
  assert (Hfull : foldl (fun f op => sb_abs (UUID_STRLEN + 1) op f) [] (map OPutc t) = t).
  { change t with ([] ++ t) at 2. generalize (@nil Z). clear. induction t as [|c t IH]; intros l; simpl.
    - by rewrite app_nil_r.
    - rewrite IH. by rewrite <- app_assoc. }
  rewrite Hfull in Hrep. exists m. split.
  { unfold uuid_to_str, strbuf_uuid. rewrite Hvalid. cbn [cassert].
    destruct (strbuf_init false (UUID_STRLEN + 1) dst) as [[b1 m1]| |]; [|done..]. cbn [mbind outcome_bind] in *.
    rewrite uuid_loop_run by done. fold t. rewrite E. cbn [mbind outcome_bind].
    rewrite (overrun_rep _ _ _ _ _ Hrep), Htl. done. }
  destruct Hrep as [_ _ _ _ _ [tl Hm] _ _].
  rewrite take_ge in Hm by (unfold zlen in Htl; unfold UUID_STRLEN; lia). subst m.
  split; [rewrite strlen_nul by done; by rewrite Htl|].
  exists (0 :: tl). rewrite Ht, Hsplit. apply str_to_uuid_text; try done. by rewrite <- Hsplit.
Qed.

Lemma uuid_text_roundtrip_witness :
  exists m, @uuid_to_str LP64 [0;1;2;3;4;5;0x46;7;0x88;9;10;11;12;13;14;0xff] (replicate 37 1) = Ret m
    /\ strlen m = Ret UUID_STRLEN
    /\ exists e, str_to_uuid m (replicate 16 0) false = Ret (true, [0;1;2;3;4;5;0x46;7;0x88;9;10;11;12;13;14;0xff], e).
Proof.
  apply (@uuid_text_roundtrip LP64 [0;1;2;3;4;5;0x46;7;0x88;9;10;11;12;13;14;0xff] (replicate 37 1) (replicate 16 0));
    [|reflexivity|reflexivity|reflexivity|discriminate].
  unfold bytes. repeat constructor; vm_compute; discriminate || reflexivity.
Defined.
