(* ===== verification/OverlayAddress.v ===== *)
(** * Subscriber addresses (overlay_address.c)

    Subscribers live in a 16-way tree indexed by the nibbles of their identity;
    an address is sent as the shortest prefix that is unambiguous to the sender,
    or as a one-byte code.  [struct subscriber] objects are named by their
    address (a [nat]) and stored in [subs]; a slot of a [struct tree_node] is
    empty, a subscriber, or another node, which is what [is_tree] and the union
    of the C structure say.  The state of the module is [oa_state].

    [link_explained] (route_link.c) is recorded as an event in [explained];
    [gettime_ms] reads the next value of the clock.  Messages to the log are
    left out. *)

From stdpp Require Import base tactics list fin_maps gmap infinite.
From Stdlib Require Import ZArith Lia.
From S2P Require Import Prelude Memory OverlayBuffer DataFormats.

Local Open Scope Z_scope.

Definition MAX_BPIS : Z := 1024.
Definition BPI_MASK : Z := 0x3ff.
Definition OA_CODE_SELF : Z := 0xff.
Definition OA_CODE_PREVIOUS : Z := 0xfe.
Definition OA_CODE_P2P_YOU : Z := 0xfd.
Definition OA_CODE_P2P_ME : Z := 0xfc.
Definition BROADCAST_LEN : Z := 8.
Definition REACHABLE_SELF : Z := 1.
Definition MDP_MTU : Z := 1200.
Definition PAYLOAD_TTL_DEFAULT : Z := 31.
Definition OF_TYPE_PLEASEEXPLAIN : Z := 0x60.
Definition OQ_MESH_MANAGEMENT : Z := 1.

(** The fields of [struct subscriber] this module reads or writes; of the
    pointers into other modules only whether they are [NULL] matters here. *)
Record subscriber : Type := Subscriber {
  sid : list Z;
  abbreviate_len : Z;
  send_full : Z;
  link_state : bool;
  sync_state : bool;
  reachable : Z;
  destination : bool;
  last_explained : Z;
  identity : bool
}.

Definition set_abbreviate_len (n : Z) (s : subscriber) : subscriber :=
  Subscriber (sid s) n (send_full s) (link_state s) (sync_state s) (reachable s)
             (destination s) (last_explained s) (identity s).
Definition set_send_full (n : Z) (s : subscriber) : subscriber :=
  Subscriber (sid s) (abbreviate_len s) n (link_state s) (sync_state s) (reachable s)
             (destination s) (last_explained s) (identity s).
Definition set_last_explained (t : Z) (s : subscriber) : subscriber :=
  Subscriber (sid s) (abbreviate_len s) (send_full s) (link_state s) (sync_state s)
             (reachable s) (destination s) t (identity s).

Abbreviation sub_heap := (gmap nat subscriber).

Inductive slot : Type :=
  | SEmpty
  | SSub (p : nat)
  | STree (node : list slot).

Definition empty_node : list slot := replicate 16 SEmpty.

(** The static variables of the module, the heap of subscribers, the trace of
    calls to [link_explained] and the number of clock readings so far. *)
Record oa_state : Type := OAState {
  root : list slot;
  subs : sub_heap;
  my_subscriber : option nat;
  bpilist : list (list Z);
  serverMode : bool;
  explained : list nat;
  ticks : nat
}.

Definition set_tree (t : list slot) (m : sub_heap) (s : oa_state) : oa_state :=
  OAState t m (my_subscriber s) (bpilist s) (serverMode s) (explained s) (ticks s).
Definition set_subs (m : sub_heap) (s : oa_state) : oa_state := set_tree (root s) m s.

(** [struct overlay_frame], the fields a please-explain frame sets. *)
Record overlay_frame : Type := Frame {
  f_type : Z;
  f_source : option nat;
  f_source_full : Z;
  f_ttl : Z;
  f_destination : option nat;
  f_destinations : list nat;       (* the network destinations *)
  f_queue : Z;
  f_payload : option overlay_buffer
}.
Definition frame_zero : overlay_frame := Frame 0 None 0 0 None [] 0 None.
Definition set_payload (b : option overlay_buffer) (f : overlay_frame) : overlay_frame :=
  Frame (f_type f) (f_source f) (f_source_full f) (f_ttl f) (f_destination f)
        (f_destinations f) (f_queue f) b.
Definition set_source_full (n : Z) (f : overlay_frame) : overlay_frame :=
  Frame (f_type f) (f_source f) n (f_ttl f) (f_destination f)
        (f_destinations f) (f_queue f) (f_payload f).

Record overlay_interface : Type := Iface { local_echo : Z; if_destination : nat }.

(** [struct decode_context]; [encoding_header] shares its storage with
    [invalid_addresses]. *)
Record decode_context : Type := Context_ {
  interface : option overlay_interface;
  invalid_addresses : Z;
  please_explain : option overlay_frame;
  sender : option nat;
  previous : option nat;
  point_to_point_device : option nat
}.
Definition encoding_header (c : decode_context) : Z := invalid_addresses c.
Definition context_zero : decode_context := Context_ None 0 None None None None.
Definition set_invalid (n : Z) (c : decode_context) : decode_context :=
  Context_ (interface c) n (please_explain c) (sender c) (previous c) (point_to_point_device c).
Definition set_please_explain (f : option overlay_frame) (c : decode_context) : decode_context :=
  Context_ (interface c) (invalid_addresses c) f (sender c) (previous c) (point_to_point_device c).
Definition set_previous (p : option nat) (c : decode_context) : decode_context :=
  Context_ (interface c) (invalid_addresses c) (please_explain c) (sender c) p
           (point_to_point_device c).

(** ** The monad: module state over the byte heap *)

Definition OM (A : Type) : Type := oa_state -> HM (A * oa_state).
Global Instance OM_ret : MRet OM := fun A a s => mret (a, s).
Global Instance OM_bind : MBind OM := fun A B f m s => '(a, s) ← m s; f a s.
Definition olift {A} (m : HM A) : OM A := fun s => a ← m; mret (a, s).
Definition oout {A} (m : outcome A) : OM A := olift (hlift m).
Definition oget {A} (f : oa_state -> A) : OM A := fun s => mret (f s, s).
Definition omodify (f : oa_state -> oa_state) : OM unit := fun s => mret (tt, f s).

(** [*p] and [*p = ...] of a [struct subscriber *]. *)
Definition sub_get (p : nat) : OM subscriber := fun s => hlift (s' ← or_undef (subs s !! p); Ret (s', s)).
Definition sub_put (p : nat) (v : subscriber) : OM unit :=
  omodify (fun s => set_subs (<[p := v]> (subs s)) s).

(** ** The tree *)

Definition get_nibble (sidp : list Z) (pos : Z) : outcome Z :=
  byte ← or_undef (sidp @@ Z.shiftr pos 1);
  let byte := if Z.land pos 1 =? 0 then Z.shiftr byte 4 else byte in
  Ret (Z.land byte 0xF).

(** [memcmp(a, b, n) == 0]; both operands have [n] bytes. *)
Definition memcmp_eq (a b : list Z) (n : Z) : outcome bool :=
  if (n <=? zlen a) && (n <=? zlen b)
  then Ret (bool_decide (take (Z.to_nat n) a = take (Z.to_nat n) b)) else Undef.

Definition set_slot (i : Z) (s : slot) (node : list slot) : list slot :=
  <[Z.to_nat i := s]> node.

Section overlay_address.
Context {AR : Arch} {AL : Allocator}.
(** Structure sizes and the clock, which the target platform fixes. *)
Context (sizeof_subscriber sizeof_tree_node sizeof_overlay_frame : Z) (clock : nat -> Z).

(** The loop of [_find_subscriber] from the node [ptr] at depth [pos], with
    what it leaves in [ret], the node and the subscribers.  Every iteration
    consumes a nibble. *)
Fixpoint find_loop (fuel : nat) (sidp : list Z) (len : Z) (create : bool)
    (ptr : list slot) (pos : Z) (ret : option nat) (m : sub_heap)
    : HM (option nat * list slot * sub_heap) :=
  match fuel with
  | O => hlift Undef
  | S fuel =>
      nibble ← hlift (get_nibble sidp pos);
      let pos := pos + 1 in
      match ptr @@ nibble with
      | None => hlift Undef
      | Some (STree node) =>
          if pos <? len * 2 then
            '(ret, node, m) ← find_loop fuel sidp len create node pos ret m;
            mret (ret, set_slot nibble (STree node) ptr, m)
          else mret (ret, ptr, m)
      | Some SEmpty =>
          if create then
            ok ← hstruct sizeof_subscriber;
            if ok : bool then
              let p := fresh (dom m) in
              let s := Subscriber (take 32 sidp) pos 0 false false 0 false 0 false in
              mret (Some p, set_slot nibble (SSub p) ptr, <[p := s]> m)
            else mret (None, ptr, m)
          else mret (ret, ptr, m)
      | Some (SSub q) =>
          s ← hlift (or_undef (m !! q));
          same ← hlift (memcmp_eq (sid s) sidp len);
          if same : bool then mret (Some q, ptr, m)
          else if negb create then mret (None, ptr, m)
          else
            ok ← hstruct sizeof_tree_node;
            if ok : bool then
              n2 ← hlift (get_nibble (sid s) pos);
              let new := set_slot n2 (SSub q) empty_node in
              let m := <[q := set_abbreviate_len (pos + 1) s]> m in
              if pos <? len * 2 then
                '(ret, new, m) ← find_loop fuel sidp len create new pos (Some q) m;
                mret (ret, set_slot nibble (STree new) ptr, m)
              else mret (Some q, set_slot nibble (STree new) ptr, m)
            else mret (None, ptr, m)
      end
  end.

Definition find_subscriber (sidp : list Z) (len : Z) (create : bool) : OM (option nat) :=
  fun s =>
    let create := if negb (len =? SID_SIZE) then false else create in
    '(ret, t, m) ← find_loop (S (Z.to_nat (len * 2))) sidp len create (root s) 0 None (subs s);
    mret (ret, set_tree t m s).

Definition free_subscriber (s : subscriber) : outcome unit :=
  cassert (negb (link_state s || destination s));;
  cassert (negb (sync_state s));;
  cassert (negb (identity s)).

(** Frees what hangs below a slot, in order; the slots end up empty. *)
Fixpoint free_slot (sl : slot) (m : sub_heap) : outcome sub_heap :=
  match sl with
  | SEmpty => Ret m
  | SSub p => s ← or_undef (m !! p); free_subscriber s;; Ret (delete p m)
  | STree node =>
      (fix free_children (node : list slot) (m : sub_heap) : outcome sub_heap :=
         match node with
         | [] => Ret m
         | c :: node => m ← free_slot c m; free_children node m
         end) node m
  end.

Definition free_subscribers : OM unit := fun s =>
  hlift (cassert (negb (serverMode s));;
         m ← free_slot (STree (root s)) (subs s);
         Ret (tt, set_tree empty_node m s)).

(** [walk_tree] over the node [STree node]; [start] is dropped after the first
    branch taken.  The callback returns true to stop. *)
Definition nibble_or (sidp : option (list Z)) (len pos dflt inc : Z) : outcome Z :=
  match sidp with
  | Some a => if pos <? len * 2 then n ← get_nibble a pos; Ret (n + inc) else Ret dflt
  | None => Ret dflt
  end.

Fixpoint walk_slot {C} (sl : slot) (pos : Z) (start : option (list Z)) (start_len : Z)
    (end_ : option (list Z)) (end_len : Z) (callback : nat -> C -> OM (bool * C)) (context : C)
    : OM (bool * C) :=
  match sl with
  | SEmpty => mret (false, context)
  | SSub p => callback p context
  | STree node =>
      i ← oout (nibble_or start start_len pos 0 0);
      e ← oout (nibble_or end_ end_len pos 16 1);
      (fix loop (node : list slot) (k : Z) (start : option (list Z)) (context : C)
          : OM (bool * C) :=
         match node with
         | [] => mret (false, context)
         | c :: node =>
             if k <? i then loop node (k + 1) start context
             else if k <? e then
               '(stop, context) ← walk_slot c (pos + 1) start start_len end_ end_len callback context;
               if stop : bool then mret (true, context)
               else loop node (k + 1) None context
             else mret (false, context)
         end) node 0 start context
  end.

Definition walk_tree {C} (node : list slot) (pos : Z) (start : option (list Z)) (start_len : Z)
    (end_ : option (list Z)) (end_len : Z) (callback : nat -> C -> OM (bool * C)) (context : C)
    : OM (bool * C) :=
  walk_slot (STree node) pos start start_len end_ end_len callback context.

Definition enum_subscribers {C} (start : nat) (callback : nat -> C -> OM (bool * C)) (context : C)
    : OM C :=
  s ← sub_get start;
  t ← oget root;
  r ← walk_tree t 0 (Some (sid s)) SID_SIZE None 0 callback context;
  mret r.2.

(** ** Broadcast identifiers *)

(** [rnd i] is the [i]th value of [random()]. *)
Definition overlay_broadcast_generate_address (rnd : nat -> Z) : list Z :=
  map (fun i => Z.land (rnd i) 0xff) (seq 0 8).

Definition bpi_step (bpi_index x : Z) : Z :=
  Z.lxor (Z.land (Z.shiftl bpi_index 3) 0xfff8 + Z.land (Z.shiftr bpi_index 13) 0x7) x.
Definition bpi_hash (id : list Z) : Z := Z.land (foldl bpi_step 0 id) BPI_MASK.

(** 1 to drop the frame, 0 not to. *)
Definition overlay_broadcast_drop_check (id : list Z) : OM Z :=
  l ← oget bpilist;
  old ← oout (or_undef (l @@ bpi_hash id));
  if negb (bool_decide (old = id)) then
    omodify (fun s => OAState (root s) (subs s) (my_subscriber s)
                        (<[Z.to_nat (bpi_hash id) := id]> l)
                        (serverMode s) (explained s) (ticks s));;
    mret 0
  else mret 1.

Definition overlay_broadcast_append (b : overlay_buffer) (id : list Z) : HM overlay_buffer :=
  ob_append_bytes b id.
Definition overlay_broadcast_parse (b : overlay_buffer) : HM (option (list Z) * overlay_buffer) :=
  ob_get_bytes b BROADCAST_LEN.

(** ** Encoding an address *)

Definition is_ctx (context : option decode_context) (f : decode_context -> bool) : bool :=
  match context with Some c => f c | None => false end.
Definition same_sub (p : nat) (q : option nat) : bool := bool_decide (q = Some p).

(** [interface->local_echo] is only read when [encoding_header] is set. *)
Definition p2p_me (me : option nat) (p : nat) (s : subscriber) (context : option decode_context)
    : outcome bool :=
  match context with
  | None => Ret false
  | Some c =>
      if negb (send_full s =? 0) then Ret false
      else if negb (same_sub p me) then Ret false
      else match point_to_point_device c with
      | None => Ret false
      | Some _ =>
          if encoding_header c =? 0 then Ret true
          else i ← or_undef (interface c); Ret (local_echo i =? 0)
      end
  end.

(** [sub] is asserted not to be [NULL]. *)
Definition overlay_address_append (context : option decode_context) (b : overlay_buffer)
    (sub : option nat) : OM (option decode_context * overlay_buffer) :=
  p ← oout (match sub with Some p => Ret p | None => Abort end);
  s ← sub_get p;
  me ← oget my_subscriber;
  let is_you := is_ctx context (fun c => same_sub p (point_to_point_device c)) in
  is_me ← (if is_you then mret false else oout (p2p_me me p s context));
  b ← (if is_you then olift (ob_append_byte b OA_CODE_P2P_YOU)
       else if is_me : bool then olift (ob_append_byte b OA_CODE_P2P_ME)
       else if is_ctx context (fun c => same_sub p (sender c))
       then olift (ob_append_byte b OA_CODE_SELF)
       else if is_ctx context (fun c => same_sub p (previous c))
       then olift (ob_append_byte b OA_CODE_PREVIOUS)
       else
         len ← (if negb (send_full s =? 0) then
                  sub_put p (set_send_full 0 s);; mret SID_SIZE
                else
                  let len := Z.quot (abbreviate_len s + 2) 2 in
                  let len := if is_ctx context (fun c => negb (encoding_header c =? 0))
                             then len + 1 else len in
                  mret (if SID_SIZE <? len then SID_SIZE else len));
         b ← olift (ob_append_byte b len);
         olift (ob_append_bytes b (take (Z.to_nat len) (sid s))));
  mret (option_map (set_previous (Some p)) context, b).

(** ** Please-explain frames *)

Definition gettime_ms : OM Z := fun s =>
  mret (clock (ticks s), OAState (root s) (subs s) (my_subscriber s) (bpilist s)
                           (serverMode s) (explained s) (S (ticks s))).
Definition link_explained (p : nat) : OM unit :=
  omodify (fun s => OAState (root s) (subs s) (my_subscriber s) (bpilist s)
                      (serverMode s) (explained s ++ [p]) (ticks s)).

(** [context->please_explain->payload], which the code dereferences unchecked. *)
Definition ctx_payload (c : decode_context) : OM (overlay_frame * overlay_buffer) :=
  oout (f ← or_undef (please_explain c); b ← or_undef (f_payload f); Ret (f, b)).
Definition ctx_set_payload (f : overlay_frame) (b : overlay_buffer) (c : decode_context)
    : decode_context := set_please_explain (Some (set_payload (Some b) f)) c.

(** Returns true (1) to stop the walk. *)
Definition add_explain_response (p : nat) (response : decode_context)
    : OM (bool * decode_context) :=
  s ← sub_get p;
  now ← gettime_ms;
  if now - last_explained s <? 500 then mret (false, response)
  else
    let s := set_last_explained now s in
    sub_put p s;;
    made ← (match please_explain response with
      | Some _ => mret (Some response)
      | None =>
          ok ← olift (hstruct sizeof_overlay_frame);
          if ok : bool then
            b ← olift ob_new;
            match b with
            | None => mret None
            | Some b =>
                b ← oout (ob_limitsize b 1024);
                mret (Some (ctx_set_payload frame_zero b response))
            end
          else mret None
      end);
    match made with
    | None => mret (true, response)
    | Some response =>
        me ← oget my_subscriber;
        if (reachable s =? REACHABLE_SELF) && same_sub p me then
          f ← oout (or_undef (please_explain response));
          mret (false, set_please_explain (Some (set_source_full 1 f)) response)
        else
          (if reachable s =? REACHABLE_SELF then sub_put p (set_send_full 1 s) else mret tt);;
          '(f, b) ← ctx_payload response;
          let b := ob_checkpoint b in
          b ← olift (ob_append_byte b SID_SIZE);
          b ← olift (ob_append_bytes b (take 32 (sid s)));
          if ob_overrun b then mret (true, ctx_set_payload f (ob_rewind b) response)
          else link_explained p;; mret (false, ctx_set_payload f b response)
    end.

(** The payload a parsing function asks its questions in; [None] when [ob_new]
    fails, which leaves a frame with no payload behind. *)
Definition ctx_explain_payload (c : decode_context) : OM (bool * decode_context) :=
  match please_explain c with
  | Some _ => mret (true, c)
  | None =>
      ok ← olift (hstruct sizeof_overlay_frame);
      if ok : bool then
        b ← olift ob_new;
        match b with
        | None => mret (false, set_please_explain (Some frame_zero) c)
        | Some b =>
            b ← oout (ob_limitsize b MDP_MTU);
            mret (true, ctx_set_payload frame_zero b c)
        end
      else oout Undef
  end.

(** ** Decoding an address *)

(** The return value, the context, the buffer and what is stored in
    [*subscriber] ([None] when it is left alone).  [has_out] is whether the
    caller passed a pointer to store to. *)
Definition parsed : Type := Z * decode_context * overlay_buffer * option (option nat).

Definition find_subscr_buffer (context : decode_context) (b : overlay_buffer) (len : Z)
    (has_out : bool) : OM parsed :=
  if (len <=? 0) || (SID_SIZE <? len) then mret (-1, context, b, None)
  else
    '(id, b) ← olift (ob_get_bytes_ptr b len);
    match id with
    | None => mret (-1, context, b, None)
    | Some id =>
        if negb has_out then mret (0, set_invalid 1 context, b, None)
        else
          id ← olift (hread (fun h => load_bytes h id len));
          r ← find_subscriber id len true;
          match r with
          | Some _ => mret (0, set_previous r context, b, Some r)
          | None =>
              '(ok, context) ← ctx_explain_payload (set_invalid 1 context);
              if ok : bool then
                t ← oget root;
                '(_, context) ← walk_tree t 0 (Some id) len (Some id) len
                                          add_explain_response context;
                '(f, pb) ← ctx_payload context;
                pb ← olift (ob_append_byte pb len);
                pb ← olift (ob_append_bytes pb id);
                mret (0, ctx_set_payload f pb context, b, Some None)
              else mret (-1, context, b, Some None)
          end
    end.

(** The codes store to [*subscriber] without testing the pointer. *)
Definition store_out (has_out : bool) : OM unit := oout (if has_out then Ret tt else Undef).

Definition overlay_address_parse (context : decode_context) (b : overlay_buffer) (has_out : bool)
    : OM parsed :=
  '(len, b) ← olift (ob_get b);
  if len <? 0 then mret (-1, context, b, None)
  else if len =? OA_CODE_P2P_YOU then
    match point_to_point_device context with
    | Some _ =>
        store_out has_out;;
        me ← oget my_subscriber;
        mret (0, set_previous me context, b, Some me)
    | None =>
        (* the message names context->interface->name *)
        oout (or_undef (interface context));;
        mret (0, set_invalid 1 context, b, None)
    end
  else if len =? OA_CODE_P2P_ME then
    match point_to_point_device context with
    | Some d =>
        store_out has_out;;
        mret (0, set_previous (Some d) context, b, Some (Some d))
    | None =>
        '(ok, context) ← ctx_explain_payload context;
        if ok : bool then
          '(f, pb) ← ctx_payload context;
          pb ← olift (ob_append_byte pb OA_CODE_P2P_YOU);
          mret (0, set_invalid 1 (ctx_set_payload f pb context), b, None)
        else mret (-1, context, b, None)
    end
  else if len =? OA_CODE_SELF then
    match sender context with
    | None => mret (0, set_invalid 1 context, b, None)
    | Some d => store_out has_out;; mret (0, set_previous (Some d) context, b, Some (Some d))
    end
  else if len =? OA_CODE_PREVIOUS then
    match previous context with
    | None => mret (0, set_invalid 1 context, b, None)
    | Some d => store_out has_out;; mret (0, context, b, Some (Some d))
    end
  else find_subscr_buffer context b len has_out.

(** ** Sending and answering explain requests *)

(** [overlay_payload_enqueue] (overlay_queue.c), whose result decides between
    success and freeing the frame, and the unicast destination that
    [create_unicast_destination] (overlay_interface.c) gives for the sender. *)
Context (overlay_payload_enqueue : overlay_frame -> Z).
Context (unicast_destination : overlay_interface -> option nat).

(** The return value and the frame handed to the queue, if any. *)
Definition send_please_explain (context : decode_context) (source dest : option nat)
    : OM (Z * option overlay_frame) :=
  match please_explain context with
  | None => mret (0, None)
  | Some f =>
      oout (cassert (match f_payload f with Some _ => true | None => false end));;
      me ← oget my_subscriber;
      let src := match source with Some _ => source | None => me end in
      let full := match sender context with None => 1 | Some _ => f_source_full f end in
      f ← (match dest with
           | Some _ =>
               mret (Frame OF_TYPE_PLEASEEXPLAIN src 1 PAYLOAD_TTL_DEFAULT dest
                           (f_destinations f) OQ_MESH_MANAGEMENT (f_payload f))
           | None =>
               i ← oout (match interface context with Some i => Ret i | None => Abort end);
               let ds := f_destinations f ++ [if_destination i] ++
                         match unicast_destination i with Some d => [d] | None => [] end in
               mret (Frame OF_TYPE_PLEASEEXPLAIN src full 1 None ds
                           OQ_MESH_MANAGEMENT (f_payload f))
           end);
      mret (if overlay_payload_enqueue f =? -1 then -1 else 0, Some f)
  end.

(** The loop of [process_explain]: every round reads at least one byte. *)
Fixpoint process_explain_loop (fuel : nat) (context : decode_context) (b : overlay_buffer)
    : OM (Z * decode_context * overlay_buffer) :=
  match fuel with
  | O => oout Undef
  | S fuel =>
      n ← oout (ob_remaining b);
      if 0 <? n then
        '(len, b) ← olift (ob_get b);
        if len =? OA_CODE_P2P_YOU then
          me ← oget my_subscriber;
          p ← oout (or_undef me);
          '(_, context) ← add_explain_response p context;
          process_explain_loop fuel context b
        else if (len <=? 0) || (SID_SIZE <? len) then mret (-1, context, b)
        else
          '(id, b) ← olift (ob_get_bytes_ptr b len);
          match id with
          | None => mret (-1, context, b)
          | Some id =>
              id ← olift (hread (fun h => load_bytes h id len));
              if len =? SID_SIZE then
                find_subscriber id len true;;
                process_explain_loop fuel context b
              else
                t ← oget root;
                '(_, context) ← walk_tree t 0 (Some id) len (Some id) len
                                          add_explain_response context;
                process_explain_loop fuel context b
          end
      else mret (0, context, b)
  end.

(** [frame->source], [frame->destination], [frame->interface] and
    [frame->payload] of the frame received; the frame sent in reply, if any. *)
Definition process_explain (src dst : option nat) (iface : option overlay_interface)
    (b : overlay_buffer) : OM (Z * option overlay_frame) :=
  let context := Context_ iface 0 None src None None in
  '(ret, context, b) ← process_explain_loop (S (Z.to_nat (sizeLimit b - position b))) context b;
  if ret =? -1 then mret (-1, None)
  else match please_explain context with
  | Some _ => '(_, f) ← send_please_explain context dst src; mret (0, f)
  | None => mret (0, None)
  end.
End overlay_address.
