(* ===== verification/OverlayAddressFacts.v ===== *)
(** * The subscriber tree: invariant and lookup

    Identities as sequences of nibbles, the well-formedness of the tree of
    subscribers, what [_find_subscriber] returns and how it changes the tree. *)

From stdpp Require Import base tactics list fin_maps gmap infinite.
From Stdlib Require Import ZArith Lia.
From S2P Require Import Prelude Memory OverlayBuffer DataFormats OverlayAddress.

Local Open Scope Z_scope.

(** ** Nibbles *)

Definition nibble_pair (b : Z) : list nat :=
  [Z.to_nat (Z.land (Z.shiftr b 4) 0xF); Z.to_nat (Z.land b 0xF)].
Definition nibbles (l : list Z) : list nat := l ≫= nibble_pair.

Lemma nibbles_cons b l : nibbles (b :: l) = nibble_pair b ++ nibbles l.
Proof. done. Qed.

Lemma length_nibbles l : length (nibbles l) = (2 * length l)%nat.
Proof. induction l as [|b l IH]; [done|]. rewrite nibbles_cons, length_app, IH. simpl. lia. Qed.

Lemma land_15 x : 0 <= Z.land x 0xF < 16.
Proof. change 0xF with (Z.ones 4). rewrite Z.land_ones by lia. apply Z.mod_pos_bound. lia. Qed.

Lemma nibbles_lt l d n : nibbles l !! d = Some n -> (n < 16)%nat.
Proof.
  revert d. induction l as [|b l IH]; intros d; [done|]. rewrite nibbles_cons.
  pose proof (land_15 b). pose proof (land_15 (Z.shiftr b 4)).
  destruct d as [|[|d]]; simpl; [intros [= <-]; lia .. | apply IH].
Qed.

Lemma nibbles_take k l : nibbles (take k l) = take (2 * k) (nibbles l).
Proof.
  revert l. induction k as [|k IH]; intros [|b l]; rewrite ?take_nil; try done.
  rewrite firstn_cons, !nibbles_cons, IH.
  replace (2 * S k)%nat with (S (S (2 * k))) by lia. done.
Qed.

Lemma nibble_pair_inj a b : is_byte a -> is_byte b -> nibble_pair a = nibble_pair b -> a = b.
Proof.
  unfold is_byte, nibble_pair. intros Ha Hb [= H1 H2].
  pose proof (land_15 a). pose proof (land_15 b).
  pose proof (land_15 (Z.shiftr a 4)). pose proof (land_15 (Z.shiftr b 4)).
  apply Z2Nat.inj in H1; [|lia..]. apply Z2Nat.inj in H2; [|lia..].
  change 0xF with (Z.ones 4) in *. rewrite !Z.land_ones, ?Z.shiftr_div_pow2 in * by lia.
  change (2 ^ 4) with 16 in *. dmlia.
Qed.

Lemma nibbles_inj a b :
  Forall is_byte a -> Forall is_byte b -> nibbles a = nibbles b -> a = b.
Proof.
  revert b. induction a as [|x a IH]; intros [|y b]; rewrite ?nibbles_cons; try done.
  intros Ha Hb E. apply Forall_cons_iff in Ha as [? ?], Hb as [? ?].
  apply app_inj_1 in E as [E1 E2]; [|done]. f_equal; [by apply nibble_pair_inj|by apply IH].
Qed.

Lemma get_nibble_lookup l d n :
  nibbles l !! d = Some n -> get_nibble l (Z.of_nat d) = Ret (Z.of_nat n).
Proof.
  unfold get_nibble. rewrite Z.shiftr_div_pow2 by lia. change (2 ^ 1) with 2.
  change 1 with (Z.ones 1) at 1. rewrite Z.land_ones by lia. change (2 ^ 1) with 2.
  unfold zlookup. rewrite (proj2 (Z.ltb_ge _ _)) by dmlia.
  revert d. induction l as [|b l IH]; intros d; [done|]. rewrite nibbles_cons.
  pose proof (land_15 b). pose proof (land_15 (Z.shiftr b 4)).
  destruct d as [|[|d]]; [simpl; intros [= <-]; rewrite Z2Nat.id by lia; done ..|].
  intros Hd. specialize (IH d Hd).
  replace (Z.of_nat (S (S d)) / 2) with (Z.of_nat d / 2 + 1) by dmlia.
  replace (Z.of_nat (S (S d)) mod 2) with (Z.of_nat d mod 2) by dmlia.
  replace (Z.to_nat (Z.of_nat d / 2 + 1)) with (S (Z.to_nat (Z.of_nat d / 2))) by dmlia.
  exact IH.
Qed.

(** ** The invariant *)

Fixpoint slot_subs (sl : slot) : list nat :=
  match sl with
  | SEmpty => []
  | SSub p => [p]
  | STree node => flat_map slot_subs node
  end.
Definition node_subs (node : list slot) : list nat := flat_map slot_subs node.

(** A well-formed slot reached by the nibbles [path]: a subscriber's identity
    starts with [path] and its [abbreviate_len] is the length of [path]; a tree
    node holds at least [k] subscribers. *)
Inductive wf_slot (k : nat) (m : sub_heap) : list nat -> slot -> Prop :=
  | wf_SEmpty path : wf_slot k m path SEmpty
  | wf_SSub path p s :
      m !! p = Some s -> length (sid s) = 32%nat -> Forall is_byte (sid s) ->
      abbreviate_len s = zlen path -> path `prefix_of` nibbles (sid s) ->
      wf_slot k m path (SSub p)
  | wf_STree path node :
      length node = 16%nat ->
      (forall i sl, node !! i = Some sl -> wf_slot k m (path ++ [i]) sl) ->
      (k <= length (node_subs node))%nat ->
      wf_slot k m path (STree node).

Definition wf_node (k : nat) (m : sub_heap) (path : list nat) (node : list slot) : Prop :=
  length node = 16%nat /\
  forall i sl, node !! i = Some sl -> wf_slot k m (path ++ [i]) sl.

(** Nodes made by the module hold at least two subscribers, so no shorter
    abbreviation would do. *)
Definition oa_wf (s : oa_state) : Prop := wf_node 2 (subs s) [] (root s).

(** The subscribers of a slot, by their entry in the heap. *)
Lemma elem_of_flat_map_slots p node :
  p ∈ flat_map slot_subs node <-> exists i sl, node !! i = Some sl /\ p ∈ slot_subs sl.
Proof.
  rewrite list_elem_of_In, in_flat_map. split.
  - intros (sl & Hsl & Hp). apply list_elem_of_In, list_elem_of_lookup in Hsl as [i Hi].
    exists i, sl. split; [done|]. by apply list_elem_of_In.
  - intros (i & sl & Hi & Hp). exists sl. split; apply list_elem_of_In; [|done].
    by eapply list_elem_of_lookup_2.
Qed.

Lemma wf_slot_sub k m path sl p :
  wf_slot k m path sl -> p ∈ slot_subs sl ->
  exists s, m !! p = Some s /\ length (sid s) = 32%nat /\ Forall is_byte (sid s) /\
    path `prefix_of` nibbles (sid s) /\ zlen path <= abbreviate_len s.
Proof.
  intros Hw. induction Hw as [path|path q s Hq Hl Hb Ha Hp|path node Hlen Hn IH Hk]; simpl.
  - intros ?%elem_of_nil. done.
  - intros ->%list_elem_of_singleton. exists s. repeat split; try done. lia.
  - intros (i & sl & Hi & Hp)%elem_of_flat_map_slots.
    destruct (IH i sl Hi Hp) as (s & ? & ? & ? & Hpre & Hz). exists s.
    repeat split; try done; [|rewrite zlen_app in Hz; change (zlen [i]) with 1 in Hz; lia].
    eapply prefix_app_l. exact Hpre.
Qed.

(** Only the identity and abbreviation length of the subscribers it holds
    matter to a slot. *)
Lemma wf_slot_ext k m m' path sl :
  wf_slot k m path sl ->
  (forall p s, p ∈ slot_subs sl -> m !! p = Some s -> exists s',
     m' !! p = Some s' /\ sid s' = sid s /\ abbreviate_len s' = abbreviate_len s) ->
  wf_slot k m' path sl.
Proof.
  intros Hw. induction Hw as [path|path q s Hq Hl Hb Ha Hp|path node Hlen Hn IH Hk]; intros Hm.
  - constructor.
  - destruct (Hm q s) as (s' & Hq' & Hs & Has); [simpl; set_solver | done|].
    econstructor; rewrite ?Hs, ?Has; eauto.
  - constructor; [done| |done]. intros i sl Hi. apply (IH i sl Hi). intros p s Hp.
    apply Hm. simpl. apply elem_of_flat_map_slots. eauto.
Qed.

Lemma wf_node_ext k m m' path node :
  wf_node k m path node ->
  (forall p s, p ∈ node_subs node -> m !! p = Some s -> exists s',
     m' !! p = Some s' /\ sid s' = sid s /\ abbreviate_len s' = abbreviate_len s) ->
  wf_node k m' path node.
Proof.
  intros [Hl Hn] Hm. split; [done|]. intros i sl Hi. eapply wf_slot_ext; [by apply Hn|].
  intros p s Hp. apply Hm. apply elem_of_flat_map_slots. eauto.
Qed.

Lemma wf_slot_le k k' m path sl : (k' <= k)%nat -> wf_slot k m path sl -> wf_slot k' m path sl.
Proof. intros Hk. induction 1; econstructor; eauto. lia. Qed.

Lemma wf_node_le k k' m path node : (k' <= k)%nat -> wf_node k m path node -> wf_node k' m path node.
Proof. intros Hk [? Hn]. split; [done|]. intros i sl Hi. eapply wf_slot_le; eauto. Qed.

(** A subscriber sits in the slot its identity names. *)
Lemma wf_node_slot k m path node i sl p s :
  wf_node k m path node -> node !! i = Some sl -> p ∈ slot_subs sl -> m !! p = Some s ->
  path `prefix_of` nibbles (sid s) /\ nibbles (sid s) !! length path = Some i.
Proof.
  intros [_ Hn] Hi Hp Hs. destruct (wf_slot_sub _ _ _ _ _ (Hn i sl Hi) Hp)
    as (s' & Hs' & _ & _ & [r Hpre] & _).
  rewrite Hs in Hs'. simplify_eq. rewrite Hpre. split; [by exists ([i] ++ r); rewrite app_assoc|].
  rewrite <- app_assoc. by rewrite lookup_app_r, Nat.sub_diag.
Qed.

(** ** Stepping through [_find_subscriber] *)

Lemma zlookup_of_nat {A} (l : list A) (n : nat) : l @@ Z.of_nat n = l !! n.
Proof. unfold zlookup. rewrite (proj2 (Z.ltb_ge _ _)) by lia. by rewrite Nat2Z.id. Qed.

Lemma memcmp_eq_ok a b n :
  0 <= n <= zlen a -> n <= zlen b ->
  memcmp_eq a b n = Ret (bool_decide (take (Z.to_nat n) a = take (Z.to_nat n) b)).
Proof. intros. unfold memcmp_eq. by rewrite !(proj2 (Z.leb_le _ _)) by lia. Qed.

Lemma set_slot_nat n sl (node : list slot) : set_slot (Z.of_nat n) sl node = <[n := sl]> node.
Proof. unfold set_slot. by rewrite Nat2Z.id. Qed.

Lemma set_slot_id n sl (node : list slot) :
  node !! n = Some sl -> set_slot (Z.of_nat n) sl node = node.
Proof. intros. rewrite set_slot_nat. by apply list_insert_id. Qed.

(** Two byte strings that agree on [len] bytes agree on [2 * len] nibbles. *)
Lemma nibbles_agree (len : nat) a b d :
  take len a = take len b -> (d < 2 * len)%nat -> nibbles a !! d = nibbles b !! d.
Proof.
  intros E Hd. rewrite <- (lookup_take_lt (nibbles a) (2 * len)), <- (lookup_take_lt (nibbles b) (2 * len)) by done.
  by rewrite <- !nibbles_take, E.
Qed.

Lemma agree_nibbles (len : nat) a b :
  Forall is_byte a -> Forall is_byte b ->
  take (2 * len) (nibbles a) = take (2 * len) (nibbles b) -> take len a = take len b.
Proof. rewrite <- !nibbles_take. intros. apply nibbles_inj; auto using Forall_take. Qed.

Lemma filter_none {A} (P : A -> bool) (l : list A) :
  (forall x, x ∈ l -> P x = false) -> List.filter P l = [].
Proof.
  induction l as [|x l IH]; intros Hl; simpl; [done|]. rewrite Hl by set_solver.
  apply IH. set_solver.
Qed.

Lemma filter_all {A} (P : A -> bool) (l : list A) :
  (forall x, x ∈ l -> P x = true) -> List.filter P l = l.
Proof.
  induction l as [|x l IH]; intros Hl; simpl; [done|]. rewrite Hl by set_solver.
  f_equal. apply IH. set_solver.
Qed.

Section find.
Context {AR : Arch} {AL : Allocator} (sizeof_subscriber sizeof_tree_node : Z).
Implicit Types (h : heap) (m : sub_heap).

Abbreviation floop := (find_loop sizeof_subscriber sizeof_tree_node).

(** Reading the next nibble. *)
Lemma find_nibble {B} sidp (path : list nat) n (f : Z -> HM B) h :
  nibbles sidp !! length path = Some n ->
  (hlift (get_nibble sidp (zlen path)) ≫= f) h = f (Z.of_nat n) h.
Proof. intros Hn. unfold zlen. by rewrite (get_nibble_lookup _ _ _ Hn). Qed.

(** A known subscriber is found from any prefix of its identity that is at
    least as long as its abbreviation. *)
Lemma find_loop_known fuel sidp (len : nat) create k m h path node ret p s :
  wf_node k m path node -> p ∈ node_subs node -> m !! p = Some s ->
  take len sidp = take len (sid s) -> (len <= length sidp)%nat -> (len <= 32)%nat ->
  (length path < 2 * len)%nat -> abbreviate_len s <= 2 * Z.of_nat len ->
  (2 * len - length path <= fuel)%nat ->
  floop fuel sidp (Z.of_nat len) create node (zlen path) ret m h = Ret ((Some p, node, m), h).
Proof.
  revert path node ret. induction fuel as [|fuel IH];
    intros path node ret Hw Hp Hs Heq Hlen Hl32 Hlt Habb Hf; [lia|].
  apply elem_of_flat_map_slots in Hp as (i & sl & Hi & Hp).
  destruct (wf_node_slot _ _ _ _ _ _ _ _ Hw Hi Hp Hs) as [Hpre Hnib].
  destruct Hw as [H16 Hn]. pose proof (Hn i sl Hi) as Hsl.
  cbn [find_loop].
  rewrite (find_nibble sidp path i) by (erewrite nibbles_agree by eauto; exact Hnib).
  rewrite zlookup_of_nat, Hi. cbv zeta.
  destruct sl as [|q|child]; simpl in Hp; [by apply elem_of_nil in Hp|..].
  - apply list_elem_of_singleton in Hp as ->.
    inversion_clear Hsl as [|? ? s' Hs' Hls _ _ _|]. simplify_eq.
    erewrite HM_bind_Ret by (rewrite Hs; done).
    erewrite HM_bind_Ret by (rewrite memcmp_eq_ok by (unfold zlen; lia); done).
    rewrite Nat2Z.id, bool_decide_eq_true_2; done.
  - inversion_clear Hsl as [| |? ? Hc16 Hc Hck].
    pose proof Hp as (j & sl' & Hj & Hp')%elem_of_flat_map_slots.
    destruct (wf_slot_sub _ _ _ _ _ (Hc j sl' Hj) Hp') as (s' & Hs' & _ & _ & _ & Hz).
    simplify_eq. rewrite !zlen_app in Hz. change (zlen [i]) with 1 in Hz. change (zlen [j]) with 1 in Hz.
    rewrite (proj2 (Z.ltb_lt _ _)) by lia.
    replace (zlen path + 1) with (zlen (path ++ [i])) by (by rewrite zlen_app).
    assert (length (path ++ [i]) = S (length path)) as Hlp by (rewrite length_app; simpl; lia).
    erewrite HM_bind_Ret by (apply IH; [by split | done | done | done | lia | lia |
      unfold zlen in *; lia | lia | lia]).
    cbv beta iota. by rewrite set_slot_id.
Qed.

(** ** Lookup *)

(** The subscriber at [p] has an identity that starts with the first [len]
    bytes of [sidp]. *)
Definition matches m (sidp : list Z) (len : nat) (p : nat) : bool :=
  match m !! p with
  | Some s => bool_decide (take len (sid s) = take len sidp)
  | None => false
  end.

(** The contract of the lookup: the one match, if there is exactly one. *)
Definition resolve m (sidp : list Z) (len : nat) (known : list nat) : option nat :=
  match List.filter (matches m sidp len) known with
  | [p] => Some p
  | _ => None
  end.

Lemma filter_flat_map_one (P : nat -> bool) node i sl :
  node !! i = Some sl ->
  (forall j sl' p, j <> i -> node !! j = Some sl' -> p ∈ slot_subs sl' -> P p = false) ->
  List.filter P (node_subs node) = List.filter P (slot_subs sl).
Proof.
  unfold node_subs. revert i. induction node as [|c node IH]; intros i Hi Hne; [done|].
  simpl. rewrite List.filter_app. destruct i as [|i]; simpl in Hi; simplify_eq.
  - rewrite (filter_none P (flat_map slot_subs node)), app_nil_r; [done|].
    intros p (j & sl' & Hj & Hp)%elem_of_flat_map_slots. by apply (Hne (S j) sl').
  - rewrite (filter_none P (slot_subs c)).
    + apply (IH i Hi). intros j sl' p Hji. apply (Hne (S j)). lia.
    + intros p. by apply (Hne 0%nat).
Qed.

(** Subscribers in other slots do not match. *)
Lemma matches_other_slot k m path node sidp len i j sl p :
  wf_node k m path node -> nibbles sidp !! length path = Some i -> (length path < 2 * len)%nat ->
  j <> i -> node !! j = Some sl -> p ∈ slot_subs sl -> matches m sidp len p = false.
Proof.
  intros Hw Hi Hlt Hji Hj Hp. unfold matches. destruct (m !! p) as [s|] eqn:Hs; [|done].
  apply bool_decide_eq_false. intros E.
  destruct (wf_node_slot _ _ _ _ _ _ _ _ Hw Hj Hp Hs) as [_ Hnib].
  rewrite (nibbles_agree len (sid s) sidp) in Hnib by done. congruence.
Qed.

(** Where the prefix ends, everything below matches. *)
Lemma matches_below k m path sl sidp len p :
  wf_slot k m path sl -> p ∈ slot_subs sl -> Forall is_byte sidp ->
  path = take (2 * len) (nibbles sidp) -> length path = (2 * len)%nat ->
  matches m sidp len p = true.
Proof.
  intros Hw Hp Hby Hpath Hlen. destruct (wf_slot_sub _ _ _ _ _ Hw Hp) as (s & Hs & _ & Hbs & [r Hpre] & _).
  unfold matches. rewrite Hs. apply bool_decide_eq_true. apply agree_nibbles; [done..|].
  by rewrite Hpre, <- Hpath, <- Hlen, take_app_length.
Qed.

Lemma find_loop_lookup fuel sidp (len : nat) m h path node :
  wf_node 2 m path node -> Forall is_byte sidp -> (len <= length sidp)%nat -> (len <= 32)%nat ->
  path = take (length path) (nibbles sidp) -> (length path < 2 * len)%nat ->
  (2 * len - length path <= fuel)%nat ->
  floop fuel sidp (Z.of_nat len) false node (zlen path) None m h =
  Ret ((resolve m sidp len (node_subs node), node, m), h).
Proof.
  revert path node. induction fuel as [|fuel IH];
    intros path node Hw Hby Hlen Hl32 Hpath Hlt Hf; [lia|].
  assert (length path < length (nibbles sidp))%nat as Hin by (rewrite length_nibbles; lia).
  apply lookup_lt_is_Some in Hin as [i Hi]. cbn [find_loop].
  rewrite (find_nibble sidp path i) by done. rewrite zlookup_of_nat.
  pose proof Hw as [H16 Hn]. pose proof (nibbles_lt _ _ _ Hi) as Hi16. rewrite <- H16 in Hi16.
  apply lookup_lt_is_Some in Hi16 as [sl Hsl]. rewrite Hsl. cbv zeta.
  unfold resolve. rewrite (filter_flat_map_one _ _ _ _ Hsl) by eauto using matches_other_slot.
  pose proof (Hn i sl Hsl) as Hwsl.
  assert (path ++ [i] = take (length (path ++ [i])) (nibbles sidp)) as Hpath'.
  { rewrite length_app, Nat.add_1_r. by rewrite (take_S_r _ _ i), <- Hpath. }
  assert (length (path ++ [i]) = S (length path)) as Hlp by (rewrite length_app; simpl; lia).
  destruct sl as [|q|child]; simpl; [done|..].
  - inversion_clear Hwsl as [|? ? s Hs Hls _ _ _|].
    unfold matches. rewrite Hs.
    erewrite HM_bind_Ret by done.
    erewrite HM_bind_Ret by (rewrite memcmp_eq_ok by (unfold zlen; lia); done).
    rewrite Nat2Z.id. by case_bool_decide.
  - pose proof Hwsl as Hwsl'. inversion_clear Hwsl as [| |? ? Hc16 Hc Hck].
    destruct (Z.ltb_spec (zlen path + 1) (Z.of_nat len * 2)).
    + replace (zlen path + 1) with (zlen (path ++ [i])) by (by rewrite zlen_app).
      erewrite HM_bind_Ret by (apply IH; [by split | done.. | unfold zlen in *; lia | lia]).
      cbv beta iota. by rewrite set_slot_id.
    + assert (length path + 1 = 2 * len)%nat by (unfold zlen in *; lia).
      assert (forall p, p ∈ slot_subs (STree child) -> matches m sidp len p = true) as Hall.
      { intros p Hp. eapply matches_below; [exact Hwsl' | done | done | | lia].
        rewrite Hpath' at 1. f_equal. lia. }
      rewrite filter_all by exact Hall.
      fold (node_subs child). destruct (node_subs child) as [|? [|? ?]]; simpl in Hck; [lia..|done].
Qed.

(** ** Insertion *)

(** Subscribers keep everything but their abbreviation. *)
Definition kept m m' : Prop :=
  forall q s, m !! q = Some s -> exists n, m' !! q = Some (set_abbreviate_len n s).

Definition unknown m (sidp : list Z) (l : list nat) : Prop :=
  forall q s, q ∈ l -> m !! q = Some s -> sid s <> sidp.

(** A [malloc] the insertion needs fails. *)
Definition out_of_memory h : Prop :=
  malloc_bytes h sizeof_subscriber = None \/ malloc_bytes h sizeof_tree_node = None.

Definition new_subscriber (sidp : list Z) (n : Z) : subscriber :=
  Subscriber sidp n 0 false false 0 false 0 false.

(** What a creating [_find_subscriber] may do to the node at [path]. *)
Inductive find_result (k : nat) m h (sidp : list Z) (path : list nat) (node : list slot)
    : option nat -> list slot -> sub_heap -> Prop :=
  | FR_found p s :
      p ∈ node_subs node -> m !! p = Some s -> sid s = sidp ->
      find_result k m h sidp path node (Some p) node m
  | FR_new p n node' m' :
      unknown m sidp (node_subs node) -> m !! p = None ->
      m' !! p = Some (new_subscriber sidp n) ->
      Permutation (node_subs node') (p :: node_subs node) ->
      ((k <= 2)%nat -> wf_node k m' path node') -> kept m m' ->
      (forall q, q ∉ node_subs node -> q <> p -> m' !! q = m !! q) ->
      find_result k m h sidp path node (Some p) node' m'
  | FR_oom node' m' :
      unknown m sidp (node_subs node) -> out_of_memory h ->
      Permutation (node_subs node') (node_subs node) ->
      ((k <= 1)%nat -> wf_node k m' path node') -> kept m m' ->
      (forall q, q ∉ node_subs node -> m' !! q = m !! q) ->
      find_result k m h sidp path node None node' m'.

Lemma kept_refl m : kept m m.
Proof. intros q s Hq. exists (abbreviate_len s). by destruct s. Qed.

Lemma kept_trans m1 m2 m3 : kept m1 m2 -> kept m2 m3 -> kept m1 m3.
Proof.
  intros H1 H2 q s Hq. destruct (H1 q s Hq) as [n Hn]. destruct (H2 _ _ Hn) as [n' Hn'].
  by exists n'.
Qed.

Lemma kept_insert m p s : m !! p = None -> kept m (<[p := s]> m).
Proof.
  intros Hp q s' Hq. exists (abbreviate_len s'). rewrite lookup_insert_ne by congruence.
  rewrite Hq. by destruct s'.
Qed.

Lemma node_subs_insert node i sl sl' l :
  node !! i = Some sl -> Permutation (slot_subs sl') (l ++ slot_subs sl) ->
  Permutation (node_subs (<[i := sl']> node)) (l ++ node_subs node).
Proof.
  intros Hi Hp. rewrite insert_take_drop by (by eapply lookup_lt_Some).
  rewrite <- (take_drop_middle node i sl Hi) at 3. unfold node_subs.
  rewrite !flat_map_app. simpl. rewrite Hp. solve_Permutation.
Qed.

(** Subscribers of different slots are different. *)
Lemma wf_node_disjoint k m path node i j sli slj p :
  wf_node k m path node -> node !! i = Some sli -> node !! j = Some slj -> i <> j ->
  p ∈ slot_subs sli -> p ∉ slot_subs slj.
Proof.
  intros Hw Hi Hj Hij Hp Hp'. pose proof Hw as [_ Hn].
  destruct (wf_slot_sub _ _ _ _ _ (Hn i sli Hi) Hp) as (s & Hs & _).
  destruct (wf_node_slot _ _ _ _ _ _ _ _ Hw Hi Hp Hs) as [_ H1].
  destruct (wf_node_slot _ _ _ _ _ _ _ _ Hw Hj Hp' Hs) as [_ H2]. congruence.
Qed.

(** Replacing one slot of a node keeps the node well formed. *)
Lemma wf_node_insert k m m' path node i sl sl' :
  wf_node k m path node -> node !! i = Some sl -> wf_slot k m' (path ++ [i]) sl' ->
  (forall q s, q ∉ slot_subs sl -> m !! q = Some s -> m' !! q = Some s) ->
  wf_node k m' path (<[i := sl']> node).
Proof.
  intros Hw Hi Hsl' Hm. pose proof Hw as [H16 Hn]. split; [by rewrite length_insert|].
  intros j slj. rewrite list_lookup_insert. case_decide as Hij; [by intros [= <-]; destruct Hij as [<- _]|].
  intros Hj. eapply wf_slot_ext; [by apply Hn|]. intros p s Hp Hs. exists s.
  split; [|done]. apply Hm; [|done].
  eapply (wf_node_disjoint k m path node j i); try done.
  intros <-. apply Hij. split; [done|]. by eapply lookup_lt_Some.
Qed.

(** A step down: what happened in the child node happened in this one. *)
Lemma find_result_lift k m m1 h sidp path node i sl child ret child' m' :
  wf_node k m path node -> node !! i = Some sl -> nibbles sidp !! length path = Some i ->
  kept m m1 -> (forall q, q ∉ slot_subs sl -> m1 !! q = m !! q) ->
  slot_subs sl = node_subs child -> (1 <= length (node_subs child))%nat ->
  unknown m1 sidp (node_subs child) ->
  find_result k m1 h sidp (path ++ [i]) child ret child' m' ->
  find_result k m h sidp path node ret (<[i := STree child']> node) m'.
Proof.
  intros Hw Hi Hnib Hk1 Ho1 Hsub Hne Hunk1 Hr.
  assert (unknown m sidp (node_subs node)) as Hunk.
  { intros q s (j & slj & Hj & Hq)%elem_of_flat_map_slots Hs Heq.
    destruct (wf_node_slot _ _ _ _ _ _ _ _ Hw Hj Hq Hs) as [_ H]. rewrite Heq, Hnib in H.
    simplify_eq. destruct (Hk1 q s Hs) as [n Hn]. rewrite Hsub in Hq.
    by apply (Hunk1 q _ Hq Hn). }
  assert (forall q, q ∉ node_subs node -> q ∉ slot_subs sl) as Hsup.
  { intros q Hq Hq'. apply Hq. apply elem_of_flat_map_slots. eauto. }
  destruct Hr as [p s Hp Hs Heq|p n child' m' _ Hp Hp' Hperm Hwf Hk Ho|child' m' _ Hoom Hperm Hwf Hk Ho].
  - exfalso. by apply (Hunk1 p s).
  - assert (m !! p = None) as Hmp.
    { destruct (m !! p) as [s|] eqn:E; [|done]. destruct (Hk1 p s E) as [? ?]. congruence. }
    econstructor 2; try done.
    + apply (node_subs_insert node i sl (STree child') [p]); [done|]. simpl. by rewrite Hsub.
    + intros Hk2. eapply wf_node_insert; [done..| |].
      * destruct (Hwf Hk2) as [? ?]. constructor; [done..|]. rewrite (Permutation_length Hperm). simpl. lia.
      * intros q s Hq Hs. rewrite Ho, Ho1; [done | done | by rewrite <- Hsub | congruence].
    + by eapply kept_trans.
    + intros q Hq Hqp. rewrite Ho, Ho1; auto. rewrite <- Hsub. auto.
  - constructor; try done.
    + apply (node_subs_insert node i sl (STree child') []); [done|]. simpl. by rewrite Hsub.
    + intros Hk2. eapply wf_node_insert; [done..| |].
      * destruct (Hwf Hk2) as [? ?]. constructor; [done..|]. rewrite (Permutation_length Hperm). lia.
      * intros q s Hq Hs. rewrite Ho, Ho1; [done | done | by rewrite <- Hsub].
    + by eapply kept_trans.
    + intros q Hq. rewrite Ho, Ho1; auto. rewrite <- Hsub. auto.
Qed.

Lemma hstruct_run n h :
  hstruct n h = Ret (match malloc_bytes h n with Some _ => true | None => false end, h).
Proof. done. Qed.

(** Equality of whole identities, from their first 64 nibbles. *)
Lemma sid_eq_nibbles a b :
  Forall is_byte a -> Forall is_byte b -> length a = 32%nat -> length b = 32%nat ->
  take 64 (nibbles a) = take 64 (nibbles b) -> a = b.
Proof.
  intros Ha Hb Hla Hlb E. apply (agree_nibbles 32) in E; [|done..].
  by rewrite !take_ge in E by lia.
Qed.

Lemma unknown_slot k m path node sidp i sl :
  wf_node k m path node -> node !! i = Some sl -> nibbles sidp !! length path = Some i ->
  unknown m sidp (slot_subs sl) -> unknown m sidp (node_subs node).
Proof.
  intros Hw Hi Hnib Hu q s (j & slj & Hj & Hq)%elem_of_flat_map_slots Hs Heq.
  destruct (wf_node_slot _ _ _ _ _ _ _ _ Hw Hj Hq Hs) as [_ H]. rewrite Heq, Hnib in H.
  simplify_eq. by apply (Hu q s).
Qed.

(** The empty slot: the subscriber is put there. *)
Lemma find_result_empty k m h sidp path node i :
  wf_node k m path node -> node !! i = Some SEmpty -> nibbles sidp !! length path = Some i ->
  path = take (length path) (nibbles sidp) -> Forall is_byte sidp -> length sidp = 32%nat ->
  let p := fresh (dom m) in
  find_result k m h sidp path node (Some p) (<[i := SSub p]> node)
    (<[p := new_subscriber sidp (zlen path + 1)]> m).
Proof.
  intros Hw Hi Hnib Hpath Hby Hlen p.
  assert (m !! p = None) as Hp by (apply not_elem_of_dom, is_fresh).
  econstructor 2; try done.
  - eapply unknown_slot; [done..|]. intros q s Hq. by apply elem_of_nil in Hq.
  - by rewrite lookup_insert_eq.
  - by apply (node_subs_insert node i SEmpty (SSub p) [p]).
  - intros _. eapply wf_node_insert; [done..| |].
    + econstructor; [by rewrite lookup_insert_eq | done.. | by rewrite zlen_app |].
      simpl. rewrite Hpath, <- (take_S_r _ _ _ Hnib). apply prefix_take.
    + intros q s _ Hs. rewrite lookup_insert_ne by congruence. done.
  - by apply kept_insert.
  - intros q _ Hqp. by rewrite lookup_insert_ne.
Qed.

(** The node that replaces a subscriber which is in the way. *)
Lemma wf_split_node k m path q s n2 :
  m !! q = Some s -> length (sid s) = 32%nat -> Forall is_byte (sid s) ->
  path `prefix_of` nibbles (sid s) -> nibbles (sid s) !! length path = Some n2 ->
  wf_node k (<[q := set_abbreviate_len (zlen path + 1) s]> m) path (<[n2 := SSub q]> empty_node).
Proof.
  intros Hq Hl Hb [r Hpre] Hn2. split; [by rewrite length_insert|].
  intros j slj. rewrite list_lookup_insert. case_decide as Hj.
  - intros [= <-]. destruct Hj as [<- _].
    econstructor; [by rewrite lookup_insert_eq | done.. | by rewrite zlen_app |].
    simpl. rewrite Hpre in Hn2 |- *. rewrite lookup_app_r, Nat.sub_diag in Hn2 by done.
    destruct r as [|x r]; simplify_eq/=. exists r. by rewrite <- app_assoc.
  - unfold empty_node. intros [-> _]%lookup_replicate. constructor.
Qed.

Lemma node_subs_split n2 q : (n2 < 16)%nat -> node_subs (<[n2 := SSub q]> empty_node) = [q].
Proof. intros. do 16 (destruct n2 as [|n2]; [done|]). lia. Qed.

(** The subscriber in the way, moved one level down. *)
Lemma find_result_split k m h sidp path node i q s n2 r child' m' :
  wf_node k m path node -> node !! i = Some (SSub q) -> m !! q = Some s ->
  nibbles sidp !! length path = Some i -> sid s <> sidp ->
  nibbles (sid s) !! length (path ++ [i]) = Some n2 ->
  find_result k (<[q := set_abbreviate_len (zlen path + 1 + 1) s]> m) h sidp (path ++ [i])
    (<[n2 := SSub q]> empty_node) r child' m' ->
  find_result k m h sidp path node r (<[i := STree child']> node) m'.
Proof.
  intros Hw Hi Hs Hnib Hne Hn2 Hr. pose proof (nibbles_lt _ _ _ Hn2).
  eapply find_result_lift; [exact Hw | exact Hi | exact Hnib | | | | | | exact Hr].
  - intros q' s' Hq'. rewrite lookup_insert. case_decide; [simplify_eq; by eexists|].
    by apply kept_refl.
  - intros q' Hq'. rewrite lookup_insert_ne; [done|]. intros <-. apply Hq'. simpl. set_solver.
  - by rewrite node_subs_split.
  - by rewrite node_subs_split.
  - rewrite node_subs_split by done. intros q' s' ->%list_elem_of_singleton.
    rewrite lookup_insert_eq. by intros [= <-].
Qed.

Lemma find_result_unknown k m h sidp path node r node' m' :
  find_result k m h sidp path node r node' m' ->
  (exists p s, r = Some p /\ p ∈ node_subs node /\ m !! p = Some s /\ sid s = sidp /\
     node' = node /\ m' = m) \/ unknown m sidp (node_subs node).
Proof. intros []; [left; eauto 10 | by right..]. Qed.

Lemma find_loop_create fuel sidp k m h path node ret :
  (1 <= k)%nat -> wf_node k m path node -> Forall is_byte sidp -> length sidp = 32%nat ->
  path = take (length path) (nibbles sidp) -> (length path < 64)%nat ->
  (64 - length path <= fuel)%nat ->
  exists r node' m', floop fuel sidp 32 true node (zlen path) ret m h = Ret ((r, node', m'), h) /\
    find_result k m h sidp path node r node' m'.
Proof.
  intros Hk. revert m path node ret. induction fuel as [|fuel IH];
    intros m path node ret Hw Hby Hlen Hpath Hlt Hf; [lia|].
  assert (length path < length (nibbles sidp))%nat as Hin by (rewrite length_nibbles; lia).
  apply lookup_lt_is_Some in Hin as [i Hi]. cbn [find_loop].
  rewrite (find_nibble sidp path i) by done. rewrite zlookup_of_nat.
  pose proof Hw as [H16 Hn]. pose proof (nibbles_lt _ _ _ Hi) as Hi16. rewrite <- H16 in Hi16.
  apply lookup_lt_is_Some in Hi16 as [sl Hsl]. rewrite Hsl. cbv zeta.
  pose proof (Hn i sl Hsl) as Hwsl.
  assert (path ++ [i] = take (length (path ++ [i])) (nibbles sidp)) as Hpath'.
  { rewrite length_app, Nat.add_1_r. by rewrite (take_S_r _ _ i), <- Hpath. }
  assert (length (path ++ [i]) = S (length path)) as Hlp by (rewrite length_app; simpl; lia).
  assert (zlen path + 1 = zlen (path ++ [i])) as Hzp by (by rewrite zlen_app).
  destruct sl as [|q|child].
  - rewrite (HM_bind_Ret _ _ _ _ _ (hstruct_run _ _)).
    destruct (malloc_bytes h sizeof_subscriber) eqn:Em.
    + eexists _, _, _. split; [done|]. rewrite (take_ge sidp) by lia.
      rewrite set_slot_nat. by apply find_result_empty.
    + eexists _, _, _. split; [done|]. constructor; auto using kept_refl; [|by left].
      eapply unknown_slot; [done..|]. intros q s Hq. by apply elem_of_nil in Hq.
  - inversion_clear Hwsl as [|? ? s Hs Hls Hbs Habb Hpre|].
    rewrite (HM_bind_Ret _ _ h s h) by (by rewrite Hs).
    erewrite HM_bind_Ret by (rewrite memcmp_eq_ok by (unfold zlen; lia); done).
    change (Z.to_nat 32) with 32%nat. rewrite !take_ge by lia. case_bool_decide as Heq.
    { eexists _, _, _. split; [done|]. econstructor; [|done..].
      apply elem_of_flat_map_slots. exists i, (SSub q). simpl. set_solver. }
    cbn [negb].
    rewrite (HM_bind_Ret _ _ _ _ _ (hstruct_run _ _)).
    destruct (malloc_bytes h sizeof_tree_node) eqn:Em.
    2: { eexists _, _, _. split; [done|]. constructor; auto using kept_refl; [|by right].
         eapply unknown_slot; [done..|]. intros q' s' ->%list_elem_of_singleton Hs'.
         by simplify_eq. }
    assert (S (length path) < 64)%nat as Hlt'.
    { destruct (decide (S (length path) = 64%nat)) as [E|]; [|lia]. exfalso. apply Heq.
      apply sid_eq_nibbles; [done..|]. destruct Hpre as [r ->].
      rewrite <- E, <- Hlp, take_app_length. exact Hpath'. }
    assert (length (path ++ [i]) < length (nibbles (sid s)))%nat as Hin by (rewrite length_nibbles; lia).
    apply lookup_lt_is_Some in Hin as [n2 Hn2].
    rewrite Hzp. rewrite (find_nibble (sid s) (path ++ [i]) n2) by done.
    rewrite (proj2 (Z.ltb_lt _ _)) by (unfold zlen; lia).
    pose proof (wf_split_node k m (path ++ [i]) q s n2 Hs Hls Hbs Hpre Hn2) as Hw'.
    destruct (IH _ _ _ (Some q) Hw' Hby Hlen Hpath' ltac:(lia) ltac:(lia)) as (r & node' & m' & Hrun & Hr).
    rewrite (set_slot_nat n2), (HM_bind_Ret _ _ _ _ _ Hrun).
    eexists _, _, _. split; [done|]. rewrite set_slot_nat.
    eapply find_result_split; try done. by rewrite Hzp.
  - inversion_clear Hwsl as [| |? ? Hc16 Hc Hck].
    assert (exists q, q ∈ node_subs child) as [q Hq].
    { destruct (node_subs child) as [|q ?]; [simpl in Hck; lia|]. exists q. set_solver. }
    apply elem_of_flat_map_slots in Hq as (j & slj & Hj & Hq).
    destruct (wf_slot_sub _ _ _ _ _ (Hc j slj Hj) Hq) as (s & Hs & Hls & _ & Hpre & _).
    apply prefix_length in Hpre. rewrite !length_app, length_nibbles, Hls in Hpre. simpl in Hpre.
    rewrite (proj2 (Z.ltb_lt _ _)) by (unfold zlen; lia). rewrite Hzp.
    destruct (IH m (path ++ [i]) child ret) as (r & node' & m' & Hrun & Hr);
      [by split | done | done | done | lia | lia |].
    rewrite (HM_bind_Ret _ _ _ _ _ Hrun). eexists _, _, _. split; [done|].
    destruct (find_result_unknown _ _ _ _ _ _ _ _ _ Hr)
      as [(p & s' & -> & Hp & Hs' & Heq & -> & ->)|Hunk].
    + rewrite set_slot_id by done. econstructor; [|done..].
      apply elem_of_flat_map_slots. by exists i, (STree child).
    + rewrite set_slot_nat. eapply find_result_lift; try done; auto using kept_refl. lia.
Qed.
End find.
