(* ===== verification/OverlayAddressWalk.v ===== *)
(** * Walking the subscriber tree

    [walk_tree] as the iteration of the callback over the list of subscribers it
    visits. *)

From stdpp Require Import base tactics list fin_maps gmap infinite.
From Stdlib Require Import ZArith Lia.
From S2P Require Import Prelude Memory OverlayBuffer DataFormats OverlayAddress OverlayAddressFacts.

Local Open Scope Z_scope.

Lemma OM_bind_run {A B} (m : OM A) (f : A -> OM B) s h :
  (m ≫= f) s h =
  match m s h with
  | Ret (a, s', h') => f a s' h'
  | Abort => Abort
  | Undef => Undef
  end.
Proof.
  unfold mbind at 1, OM_bind. unfold mbind, HM_bind. by destruct (m s h) as [[[a s'] h']| |].
Qed.

Lemma OM_bind_Ret {A B} (m : OM A) (f : A -> OM B) s h a s' h' :
  m s h = Ret ((a, s'), h') -> (m ≫= f) s h = f a s' h'.
Proof. intros Hm. by rewrite OM_bind_run, Hm. Qed.

Section walk.
Context {C : Type}.
Implicit Types (cb : nat -> C -> OM (bool * C)) (sl : slot) (node : list slot) (ctx : C).

(** Call back on each of a list of subscribers until one asks to stop. *)
Fixpoint run_callback cb (l : list nat) ctx : OM (bool * C) :=
  match l with
  | [] => mret (false, ctx)
  | p :: l =>
      '(stop, ctx) ← cb p ctx;
      if stop : bool then mret (true, ctx) else run_callback cb l ctx
  end.

Lemma run_callback_app cb l1 l2 ctx s h :
  run_callback cb (l1 ++ l2) ctx s h =
  ('(stop, ctx) ← run_callback cb l1 ctx;
   if stop : bool then mret (true, ctx) else run_callback cb l2 ctx) s h.
Proof.
  revert ctx s h. induction l1 as [|p l1 IH]; intros ctx s h; simpl; [done|].
  rewrite !OM_bind_run.
  destruct (cb p ctx s h) as [[[[stop ctx'] s'] h']| |]; [|done..].
  destruct stop; [done|]. by rewrite IH, OM_bind_run.
Qed.

(** The loop over the slots of a node. *)
Definition walk_loop (pos start_len : Z) (end_ : option (list Z)) (end_len : Z) cb (i e : Z) :=
  fix loop node (k : Z) (start : option (list Z)) ctx : OM (bool * C) :=
    match node with
    | [] => mret (false, ctx)
    | c :: node =>
        if k <? i then loop node (k + 1) start ctx
        else if k <? e then
          '(stop, ctx) ← walk_slot c (pos + 1) start start_len end_ end_len cb ctx;
          if stop : bool then mret (true, ctx)
          else loop node (k + 1) None ctx
        else mret (false, ctx)
    end.

Lemma walk_slot_tree node pos start start_len end_ end_len cb ctx :
  walk_slot (STree node) pos start start_len end_ end_len cb ctx =
  (i ← oout (nibble_or start start_len pos 0 0);
   e ← oout (nibble_or end_ end_len pos 16 1);
   walk_loop pos start_len end_ end_len cb i e node 0 start ctx).
Proof. reflexivity. Qed.

(** A bound that no longer restricts the walk at depth [pos]. *)
Definition spent (x : option (list Z)) (len pos : Z) : Prop := x = None \/ len * 2 <= pos.

Lemma spent_nibble x len pos dflt inc s h :
  spent x len pos -> oout (nibble_or x len pos dflt inc) s h = Ret ((dflt, s), h).
Proof.
  intros [-> | Hp]; [done|]. unfold nibble_or. destruct x; [|done].
  by rewrite (proj2 (Z.ltb_ge _ _)).
Qed.

Lemma spent_mono x len pos : spent x len pos -> spent x len (pos + 1).
Proof. intros [-> | ?]; [by left | right; lia]. Qed.

Lemma walk_loop_all pos start start_len end_ end_len cb node k ctx s h :
  0 <= k -> k + zlen node <= 16 -> spent start start_len (pos + 1) ->
  (forall i sl st ctx s h, node !! i = Some sl -> spent st start_len (pos + 1) ->
     walk_slot sl (pos + 1) st start_len end_ end_len cb ctx s h =
     run_callback cb (slot_subs sl) ctx s h) ->
  walk_loop pos start_len end_ end_len cb 0 16 node k start ctx s h =
  run_callback cb (node_subs node) ctx s h.
Proof.
  revert start k ctx s h. induction node as [|c node IH];
    intros start k ctx s h Hk Hlen Hst Hc; [done|].
  rewrite zlen_cons in Hlen. pose proof (zlen_nonneg node). simpl walk_loop.
  rewrite (proj2 (Z.ltb_ge _ _)), (proj2 (Z.ltb_lt _ _)) by lia.
  change (node_subs (c :: node)) with (slot_subs c ++ node_subs node).
  rewrite run_callback_app, !OM_bind_run.
  rewrite (Hc 0%nat c) by done.
  destruct (run_callback cb (slot_subs c) ctx s h) as [[[[stop ctx'] s'] h']| |]; [|done..].
  destruct stop; [done|]. apply IH; [lia | lia | by left |].
  intros i sl st ? ? ? Hi. by apply (Hc (S i)).
Qed.

(** Once both bounds are spent, everything below the slot is visited. *)
Lemma walk_slot_all k m path sl pos start start_len end_ end_len cb ctx s h :
  wf_slot k m path sl -> spent start start_len pos -> spent end_ end_len pos ->
  walk_slot sl pos start start_len end_ end_len cb ctx s h = run_callback cb (slot_subs sl) ctx s h.
Proof.
  intros Hw. revert pos start ctx s h.
  induction Hw as [path|path q sub Hq Hl Hb Ha Hp|path node Hlen Hn IH Hk];
    intros pos start ctx s h Hst He.
  - done.
  - simpl. rewrite OM_bind_run.
    destruct (cb q ctx s h) as [[[[[] ctx'] s'] h']| |]; done.
  - rewrite walk_slot_tree.
    rewrite (OM_bind_Ret _ _ _ _ _ _ _ (spent_nibble start start_len pos 0 0 s h Hst)).
    rewrite (OM_bind_Ret _ _ _ _ _ _ _ (spent_nibble end_ end_len pos 16 1 s h He)).
    apply walk_loop_all; [lia | unfold zlen; lia | by apply spent_mono |].
    intros i sl st ctx' s' h' Hi Hst'. eapply IH; [done|done|by apply spent_mono].
Qed.

Lemma OM_bind_stop (m : OM (bool * C)) s h :
  ('(stop, ctx) ← m; if stop : bool then mret (true, ctx) else mret (false, ctx)) s h = m s h.
Proof.
  rewrite OM_bind_run. by destruct (m s h) as [[[[[] ctx'] s'] h']| |].
Qed.

(** When both bounds name the same slot, only that slot is walked. *)
Lemma walk_loop_one pos start start_len end_ end_len cb (n : nat) node (k : nat) c ctx s h :
  node !! n = Some c ->
  walk_loop pos start_len end_ end_len cb (Z.of_nat (k + n)) (Z.of_nat (k + n) + 1) node
    (Z.of_nat k) start ctx s h =
  walk_slot c (pos + 1) start start_len end_ end_len cb ctx s h.
Proof.
  revert k n. induction node as [|c' node IH]; intros k n Hn; [done|].
  destruct n as [|n]; simpl in Hn; simplify_eq; simpl walk_loop.
  - rewrite Nat.add_0_r, Z.ltb_irrefl, (proj2 (Z.ltb_lt _ _)) by lia.
    rewrite OM_bind_run.
    destruct (walk_slot c (pos + 1) start start_len end_ end_len cb ctx s h)
      as [[[[[] ctx'] s'] h']| |]; [done| |done..].
    destruct node; [done|]. simpl. rewrite (proj2 (Z.ltb_ge _ _)), (proj2 (Z.ltb_ge _ _)) by lia. done.
  - rewrite (proj2 (Z.ltb_lt _ _)) by lia.
    replace (k + S n)%nat with (S k + n)%nat by lia.
    replace (Z.of_nat k + 1) with (Z.of_nat (S k)) by lia. by apply IH.
Qed.

(** The identity agrees with the abbreviation as far as the subscriber's own
    abbreviation goes: the subscribers an explain request reaches. *)
Definition compatible (m : sub_heap) (id : list Z) (len : nat) (p : nat) : bool :=
  match m !! p with
  | Some s =>
      let n := Nat.min (2 * len) (Z.to_nat (abbreviate_len s)) in
      bool_decide (take n (nibbles (sid s)) = take n (nibbles id))
  | None => false
  end.

Lemma take_agree_lookup {A} (n d : nat) (a b : list A) :
  take n a = take n b -> (d < n)%nat -> a !! d = b !! d.
Proof. intros E Hd. rewrite <- (lookup_take_lt a n), <- (lookup_take_lt b n) by done. by rewrite E. Qed.

Lemma compatible_other_slot k m path node id len i j sl p :
  wf_node k m path node -> nibbles id !! length path = Some i -> (length path < 2 * len)%nat ->
  j <> i -> node !! j = Some sl -> p ∈ slot_subs sl -> compatible m id len p = false.
Proof.
  intros Hw Hi Hlt Hji Hj Hp. pose proof Hw as [_ Hn].
  destruct (wf_slot_sub _ _ _ _ _ (Hn j sl Hj) Hp) as (s & Hs & _ & _ & _ & Hz).
  destruct (wf_node_slot _ _ _ _ _ _ _ _ Hw Hj Hp Hs) as [_ Hnib].
  unfold compatible. rewrite Hs. apply bool_decide_eq_false. intros E.
  rewrite zlen_app in Hz. change (zlen [j]) with 1 in Hz.
  apply (take_agree_lookup _ (length path)) in E; [congruence|]. unfold zlen in Hz. lia.
Qed.

Lemma compatible_below k m path sl id len p :
  wf_slot k m path sl -> p ∈ slot_subs sl ->
  path = take (length path) (nibbles id) ->
  (length path = (2 * len)%nat \/ exists q, sl = SSub q /\ length path <= 2 * len)%nat ->
  compatible m id len p = true.
Proof.
  intros Hw Hp Hpath Hlen.
  destruct (wf_slot_sub _ _ _ _ _ Hw Hp) as (s & Hs & _ & _ & [r Hpre] & Hz).
  unfold compatible. rewrite Hs. apply bool_decide_eq_true.
  assert (Nat.min (2 * len) (Z.to_nat (abbreviate_len s)) = length path) as ->.
  { unfold zlen in *. destruct Hlen as [?|(q & -> & ?)]; [lia|].
    apply list_elem_of_singleton in Hp as ->. inversion_clear Hw. simplify_eq.
    unfold zlen in *. lia. }
  by rewrite Hpre, take_app_length.
Qed.

(** The walk of an explain request, from the slot at [path]. *)
Lemma walk_slot_compatible k m path sl id (len : nat) cb ctx s h :
  wf_slot k m path sl -> path = take (length path) (nibbles id) ->
  (length path <= 2 * len)%nat -> (len <= length id)%nat ->
  walk_slot sl (zlen path) (Some id) (Z.of_nat len) (Some id) (Z.of_nat len) cb ctx s h =
  run_callback cb (List.filter (compatible m id len) (slot_subs sl)) ctx s h.
Proof.
  intros Hw. revert ctx s h.
  induction Hw as [path|path q sub Hq Hl Hb Ha Hp|path node H16 Hn IH Hk];
    intros ctx s h Hpath Hlen Hid; [done|..].
  - assert (compatible m id len q = true) as Hc.
    { eapply (compatible_below k m path); [by econstructor | simpl; set_solver | done | right; by eexists]. }
    simpl. rewrite Hc. simpl. symmetry. apply OM_bind_stop.
  - assert (wf_slot k m path (STree node)) as Hwt by (by constructor).
    destruct (decide (length path = 2 * len)%nat) as [E|E].
    { rewrite filter_all by (intros p Hp; eapply compatible_below; eauto).
      eapply walk_slot_all; [done|right; unfold zlen; lia..]. }
    assert (length path < length (nibbles id))%nat as Hin by (rewrite length_nibbles; lia).
    apply lookup_lt_is_Some in Hin as [i Hi].
    pose proof (nibbles_lt _ _ _ Hi) as Hi16. rewrite <- H16 in Hi16.
    apply lookup_lt_is_Some in Hi16 as [sl Hsl].
    assert (forall dflt inc, oout (nibble_or (Some id) (Z.of_nat len) (zlen path) dflt inc) s h =
              Ret ((Z.of_nat i + inc, s), h)) as Hnib.
    { intros dflt inc. unfold nibble_or. rewrite (proj2 (Z.ltb_lt _ _)) by (unfold zlen; lia).
      unfold zlen. rewrite (get_nibble_lookup _ _ _ Hi). done. }
    rewrite walk_slot_tree.
    rewrite (OM_bind_Ret _ _ _ _ _ _ _ (Hnib 0 0)), (OM_bind_Ret _ _ _ _ _ _ _ (Hnib 16 1)).
    rewrite Z.add_0_r. rewrite (walk_loop_one _ _ _ _ _ _ i _ 0 sl) by done.
    change (slot_subs (STree node)) with (node_subs node).
    rewrite (filter_flat_map_one _ _ _ _ Hsl)
      by (intros; eapply (compatible_other_slot k m path node); [by split|done|lia|done..]).
    assert (length (path ++ [i]) = S (length path)) as Hlp by (rewrite length_app; simpl; lia).
    replace (zlen path + 1) with (zlen (path ++ [i])) by (by rewrite zlen_app).
    apply IH; [done | | lia | done].
    rewrite length_app, Nat.add_1_r. by rewrite (take_S_r _ _ i), <- Hpath.
Qed.
End walk.
