(* ===== verification/OverlayAddressSpec.v ===== *)
(** * Subscriber addresses: what the module promises

    Resolution of abbreviated identities, insertion of new ones, the round trip
    of addresses through a packet, and the explain protocol. *)

From stdpp Require Import base tactics list fin_maps gmap infinite.
From Stdlib Require Import ZArith Lia.
From S2P Require Import Prelude Memory OverlayBuffer OverlayBufferFacts OverlayBufferSpec.
From S2P Require Import DataFormats OverlayAddress OverlayAddressFacts OverlayAddressWalk.

Local Open Scope Z_scope.

(** ** Encodings of an address *)

(** The bytes that mean the subscriber [p] to a reader whose context has the
    given [sender] and [previous]. *)
Inductive addr_enc (m : sub_heap) (snd prev : option nat) (p : nat) : list Z -> Prop :=
  | enc_self : snd = Some p -> addr_enc m snd prev p [OA_CODE_SELF]
  | enc_previous : prev = Some p -> addr_enc m snd prev p [OA_CODE_PREVIOUS]
  | enc_sid s (len : nat) :
      m !! p = Some s -> (1 <= len <= 32)%nat -> abbreviate_len s <= 2 * Z.of_nat len ->
      addr_enc m snd prev p (Z.of_nat len :: take len (sid s)).

(** A sequence of addresses, each the [previous] of the next. *)
Inductive addr_encs (m : sub_heap) (snd : option nat) : option nat -> list nat -> list Z -> Prop :=
  | encs_nil prev : addr_encs m snd prev [] []
  | encs_cons prev p l e es :
      addr_enc m snd prev p e -> addr_encs m snd (Some p) l es ->
      addr_encs m snd prev (p :: l) (e ++ es).

(** Identities and abbreviations are the same. *)
Definition same_ids (m m' : sub_heap) : Prop :=
  forall p s, m !! p = Some s -> exists s',
    m' !! p = Some s' /\ sid s' = sid s /\ abbreviate_len s' = abbreviate_len s.

Lemma same_ids_refl m : same_ids m m.
Proof. intros p s Hp. by exists s. Qed.

Lemma same_ids_trans m1 m2 m3 : same_ids m1 m2 -> same_ids m2 m3 -> same_ids m1 m3.
Proof.
  intros H1 H2 p s Hp. destruct (H1 p s Hp) as (s2 & Hp2 & ? & ?).
  destruct (H2 p s2 Hp2) as (s3 & Hp3 & ? & ?). exists s3. repeat split; congruence.
Qed.

Lemma addr_enc_ids m m' snd prev p e :
  same_ids m m' -> addr_enc m snd prev p e -> addr_enc m' snd prev p e.
Proof.
  intros Hm [| |s len Hp Hl Ha]; [by constructor 1 | by constructor 2 |].
  destruct (Hm p s Hp) as (s' & Hp' & Hs & Ha'). rewrite <- Hs. econstructor; [done | done | lia].
Qed.

Lemma addr_encs_ids m m' snd prev l e :
  same_ids m m' -> addr_encs m snd prev l e -> addr_encs m' snd prev l e.
Proof. intros Hm. induction 1; constructor; eauto using addr_enc_ids. Qed.

Lemma wf_node_ids k m m' path node : same_ids m m' -> wf_node k m path node -> wf_node k m' path node.
Proof. intros Hm Hw. eapply wf_node_ext; [done|]. intros p s _. apply Hm. Qed.

Section address.
Context {AR : Arch} {AL : Allocator}.
Context (sizeof_subscriber sizeof_tree_node sizeof_overlay_frame : Z) (clock : nat -> Z).
Implicit Types (h : heap) (b : overlay_buffer) (st : oa_state).

Abbreviation find := (find_subscriber sizeof_subscriber sizeof_tree_node).
Abbreviation parse :=
  (overlay_address_parse sizeof_subscriber sizeof_tree_node sizeof_overlay_frame clock).

Definition known st : list nat := node_subs (root st).

Lemma set_tree_id st : set_tree (root st) (subs st) st = st.
Proof. by destruct st. Qed.

(** ** Lookup through the module state *)

Lemma find_known create (len : nat) sidp k st h p s :
  wf_node k (subs st) [] (root st) -> p ∈ known st -> subs st !! p = Some s ->
  take len sidp = take len (sid s) -> (len <= length sidp)%nat -> (1 <= len <= 32)%nat ->
  abbreviate_len s <= 2 * Z.of_nat len ->
  find sidp (Z.of_nat len) create st h = Ret ((Some p, st), h).
Proof.
  intros Hw Hp Hs Heq Hlen Hl Ha. unfold find_subscriber. cbv zeta.
  erewrite HM_bind_Ret.
  2: { change 0 with (zlen (@nil nat)). eapply find_loop_known; eauto; simpl; lia. }
  cbv beta iota. by rewrite set_tree_id.
Qed.

Lemma find_lookup sidp (len : nat) create st h :
  oa_wf st -> Forall is_byte sidp -> (1 <= len <= 32)%nat -> (len <= length sidp)%nat ->
  len <> 32%nat \/ create = false ->
  find sidp (Z.of_nat len) create st h =
  Ret ((resolve (subs st) sidp len (known st), st), h).
Proof.
  intros Hw Hby Hl Hlen Hc. unfold find_subscriber. cbv zeta.
  assert ((if negb (Z.of_nat len =? SID_SIZE) then false else create) = false) as ->.
  { unfold SID_SIZE. destruct (Z.eqb_spec (Z.of_nat len) 32); simpl; [|done]. destruct Hc; [lia|done]. }
  erewrite HM_bind_Ret.
  2: { change 0 with (zlen (@nil nat)). apply find_loop_lookup; try done; simpl; lia. }
  cbv beta iota. by rewrite set_tree_id.
Qed.

Lemma matches_compatible m id len p : matches m id len p = true -> compatible m id len p = true.
Proof.
  unfold matches, compatible. destruct (m !! p) as [s|]; [|done].
  rewrite !bool_decide_eq_true. intros E.
  assert (take (2 * len) (nibbles (sid s)) = take (2 * len) (nibbles id)) as E2
    by (by rewrite <- !nibbles_take, E).
  apply (f_equal (take (Nat.min (2 * len) (Z.to_nat (abbreviate_len s))))) in E2.
  by rewrite !take_take, !(Nat.min_l (Nat.min _ _)) in E2 by lia.
Qed.

Lemma resolve_none m id len l :
  List.filter (compatible m id len) l = [] -> resolve m id len l = None.
Proof.
  intros Hn. unfold resolve. rewrite filter_none; [done|]. intros p Hp.
  destruct (matches m id len p) eqn:E; [|done]. apply matches_compatible in E.
  assert (In p (List.filter (compatible m id len) l)) as Hin
    by (apply filter_In; split; [by apply list_elem_of_In|done]).
  by rewrite Hn in Hin.
Qed.

Lemma explain_walk {C} (cb : nat -> C -> OM (bool * C)) ctx id (len : nat) st st' h :
  oa_wf st -> (len <= length id)%nat ->
  walk_tree (root st) 0 (Some id) (Z.of_nat len) (Some id) (Z.of_nat len) cb ctx st' h =
  run_callback cb (List.filter (compatible (subs st) id len) (known st)) ctx st' h.
Proof.
  intros [H16 Hn] Hlen. unfold walk_tree. change 0 with (zlen (@nil nat)).
  change (known st) with (slot_subs (STree (root st))).
  apply (walk_slot_compatible 0); [|done|simpl; lia|done].
  constructor; [done| |lia]. intros i sl Hi. eapply wf_slot_le; [|by apply Hn]. lia.
Qed.

(** ** Decoding what was encoded *)

Lemma ob_get_bytes_ptr_ahead h b l1 l2 :
  ob_ahead h b (l1 ++ l2) ->
  exists p, ob_get_bytes_ptr b (zlen l1) h = Ret ((Some p, set_position (position b + zlen l1) b), h) /\
    load_bytes h p (zlen l1) = Ret l1 /\
    ob_ahead h (set_position (position b + zlen l1) b) l2.
Proof.
  intros Ha. pose proof (ob_ahead_skip _ _ _ _ Ha) as Hskip. unfold ob_get_bytes_ptr.
  pose proof (zlen_nonneg l1). pose proof (zlen_nonneg l2).
  rewrite (ob_ahead_readable h b (l1 ++ l2)) by (rewrite ?zlen_app; done || lia).
  destruct Ha as (p & blk & Hp & Hb & ? & ? & Hlim & Hal & ? & ? & Hs).
  rewrite zlen_app in *. pose proof SSIZE_SIZE.
  exists (ptr_add p (position b)). rewrite Hp. split; [|split; [|done]].
  - unfold mbind, HM_bind. simpl. by rewrite sz_small by lia.
  - erewrite load_bytes_ok; simpl; [| exact Hb | lia..].
    rewrite slice_app_split in Hs by lia. f_equal. apply app_inj_1 in Hs as [Hs _]; [done|].
    apply Nat2Z.inj. change (zlen (slice (p.2 + position b) (zlen l1) blk) = zlen l1).
    apply zlen_slice; lia.
Qed.

Lemma find_subscr_buffer_ok c b (len : nat) k st h p s rest :
  wf_node k (subs st) [] (root st) -> p ∈ known st -> subs st !! p = Some s ->
  (1 <= len <= 32)%nat -> abbreviate_len s <= 2 * Z.of_nat len ->
  ob_ahead h b (take len (sid s) ++ rest) ->
  find_subscr_buffer sizeof_subscriber sizeof_tree_node sizeof_overlay_frame clock
    c b (Z.of_nat len) true st h =
  Ret ((0, set_previous (Some p) c, set_position (position b + Z.of_nat len) b, Some (Some p), st), h).
Proof.
  intros Hw Hp Hs Hl Ha Hah. pose proof Hw as [_ Hn].
  pose proof Hp as (i & sl & Hi & Hpi)%elem_of_flat_map_slots.
  destruct (wf_slot_sub _ _ _ _ _ (Hn i sl Hi) Hpi) as (s' & Hs' & Hls & Hbs & _ & _).
  simplify_eq. unfold find_subscr_buffer.
  rewrite (proj2 (Z.leb_gt _ _)), (proj2 (Z.ltb_ge _ _)) by (unfold SID_SIZE; lia). cbn [orb].
  assert (zlen (take len (sid s)) = Z.of_nat len) as Hz by (unfold zlen; rewrite length_take; lia).
  destruct (ob_get_bytes_ptr_ahead _ _ _ _ Hah) as (q & Hg & Hld & _). rewrite Hz in *.
  erewrite OM_bind_Ret by (unfold olift; by erewrite HM_bind_Ret by exact Hg). cbv beta iota.
  cbn [negb].
  erewrite OM_bind_Ret by (unfold olift, hread; erewrite HM_bind_Ret by (rewrite Hld; done); done).
  erewrite OM_bind_Ret by (eapply find_known; try done;
    [by rewrite take_take, Nat.min_id | rewrite length_take; lia]).
  done.
Qed.

Lemma set_previous_id p c : previous c = Some p -> set_previous (Some p) c = c.
Proof. destruct c. simpl. by intros ->. Qed.

Lemma parse_encoding c b k st h p e rest :
  wf_node k (subs st) [] (root st) -> p ∈ known st ->
  addr_enc (subs st) (sender c) (previous c) p e -> ob_ahead h b (e ++ rest) ->
  parse c b true st h =
  Ret ((0, set_previous (Some p) c, set_position (position b + zlen e) b, Some (Some p), st), h).
Proof.
  intros Hw Hp He Hah. unfold overlay_address_parse.
  destruct He as [Hsnd|Hprev|s len Hs Hl Ha]; simpl app in Hah;
    destruct (ob_get_ahead _ _ _ _ Hah) as [Hg Hah'];
    erewrite OM_bind_Ret by (unfold olift; by erewrite HM_bind_Ret by exact Hg);
    cbv beta iota.
  - simpl. rewrite Hsnd. done.
  - simpl. rewrite Hprev. by rewrite set_previous_id.
  - rewrite (proj2 (Z.ltb_ge _ _)) by lia.
    unfold OA_CODE_P2P_YOU, OA_CODE_P2P_ME, OA_CODE_SELF, OA_CODE_PREVIOUS.
    rewrite !(proj2 (Z.eqb_neq _ _)) by lia.
    rewrite (find_subscr_buffer_ok c _ len k st h p s rest) by done. simpl.
    rewrite zlen_cons. unfold zlen. rewrite length_take.
    assert (length (sid s) = 32%nat) as ->.
    { pose proof Hw as [_ Hn]. pose proof Hp as (i & sl & Hi & Hpi)%elem_of_flat_map_slots.
      destruct (wf_slot_sub _ _ _ _ _ (Hn i sl Hi) Hpi) as (s' & Hs' & ? & _). by simplify_eq. }
    rewrite Nat.min_l by lia. unfold set_position. simpl. by rewrite Z.add_assoc.
Qed.

(** Parse [n] addresses in a row; what each call returns and stores. *)
Fixpoint parse_all (n : nat) (c : decode_context) b
    : OM (list (Z * option (option nat)) * decode_context * overlay_buffer) :=
  match n with
  | O => mret ([], c, b)
  | S n =>
      '(r, c, b, out) ← parse c b true;
      '(rs, c, b) ← parse_all n c b;
      mret ((r, out) :: rs, c, b)
  end.

Lemma parse_all_encodings l c b k st h es rest :
  wf_node k (subs st) [] (root st) -> Forall (fun p => p ∈ known st) l ->
  addr_encs (subs st) (sender c) (previous c) l es -> ob_ahead h b (es ++ rest) ->
  exists c' b', parse_all (length l) c b st h =
    Ret ((map (fun p => (0, Some (Some p))) l, c', b', st), h) /\
    position b' = position b + zlen es.
Proof.
  intros Hw Hl. revert c b es. induction l as [|p l IH]; intros c b es He Hah;
    inversion He as [|? ? ? e es' He1 Hes]; subst.
  - eexists _, _. split; [done|]. change (zlen (@nil Z)) with 0. lia.
  - apply Forall_cons_iff in Hl as [Hp Hl]. cbn [parse_all length]. rewrite <- app_assoc in Hah.
    erewrite OM_bind_Ret by (by eapply parse_encoding). cbv beta iota.
    destruct (IH Hl (set_previous (Some p) c) (set_position (position b + zlen e) b) es')
      as (c' & b' & Hr & Hpos); [done | by apply ob_ahead_skip |].
    erewrite OM_bind_Ret by exact Hr. eexists _, _. split; [done|].
    rewrite Hpos. simpl. rewrite zlen_app. lia.
Qed.

(** ** Encoding *)

(** An append that returns started in bounds, and either appended or left the
    buffer overrun. *)
Record append_end h b (vs : list Z) h' b' : Prop := {
  ae_start : in_bounds b;
  ae_heap : heap_ok h';
  ae_wf : ob_wf h' b';
  ae_pos : position b' = position b + zlen vs;
  ae_end : appended h b vs h' b' \/ (~ in_bounds b' /\ ob_overrun b' = true)
}.

Lemma appended_end h b vs h' b' : in_bounds b -> appended h b vs h' b' -> append_end h b vs h' b'.
Proof. intros Hb Hap. pose proof Hap as []. split; auto. Qed.

Lemma ob_put_cases h b vs b' h' :
  heap_ok h -> ob_wf h b -> Forall is_byte vs -> vs <> [] ->
  position b + zlen vs <= SSIZE_MAX -> ob_put b vs h = Ret (b', h') ->
  append_end h b vs h' b'.
Proof.
  intros Hh Hw Hvs Hne Hmax Hr. destruct (in_bounds_dec b) as [Hb|Hb].
  - destruct (has_room h b (zlen vs)) eqn:Hroom.
    + destruct (ob_put_room h b vs) as (b1 & h1 & Hr1 & Hap); auto. simplify_eq.
      rewrite Hr1 in Hr. simplify_eq. by apply appended_end.
    + destruct (ob_put_overrun h b vs) as (Hr1 & Hw1 & Hov); auto.
      rewrite Hr1 in Hr. simplify_eq. split; auto. right. split; [|done].
      by eapply overrun_out_of_bounds.
  - unfold ob_put, mbind, HM_bind in Hr. by rewrite ob_makespace_out_of_bounds in Hr.
Qed.

Lemma ob_put_out_of_bounds h b vs : ~ in_bounds b -> ob_put b vs h = Abort.
Proof. intros Hb. unfold ob_put, mbind, HM_bind. by rewrite ob_makespace_out_of_bounds. Qed.

Lemma ob_append_byte_cases h b x b' h' :
  heap_ok h -> ob_wf h b -> is_byte x -> position b + 1 <= SSIZE_MAX ->
  ob_append_byte b x h = Ret (b', h') -> append_end h b [x] h' b'.
Proof.
  intros Hh Hw Hx Hmax Hr. unfold ob_append_byte in Hr.
  rewrite uN_small in Hr by exact Hx.
  eapply ob_put_cases; eauto; repeat constructor; done.
Qed.

Lemma ob_append_bytes_put h b l :
  l <> [] -> ob_append_bytes b l h = ob_put b l h.
Proof.
  intros Hl. unfold ob_append_bytes. erewrite HM_bind_Ret; [done|].
  apply hassert_true, Z.ltb_lt. destruct l; [done|]. rewrite zlen_cons.
  pose proof (zlen_nonneg l). lia.
Qed.

Lemma olift_run {A} (m : HM A) st h :
  olift m st h = match m h with Ret (a, h') => Ret ((a, st), h') | Abort => Abort | Undef => Undef end.
Proof. unfold olift, mbind, HM_bind. by destruct (m h) as [[]| |]. Qed.

(** A length byte and that many bytes of the identity. *)
Lemma append_sid_cases h b (len : nat) sidp b1 h1 b2 h2 :
  heap_ok h -> ob_wf h b -> position b + 33 <= SSIZE_MAX -> Forall is_byte sidp ->
  (1 <= len <= 32)%nat -> length sidp = 32%nat ->
  ob_append_byte b (Z.of_nat len) h = Ret (b1, h1) ->
  ob_append_bytes b1 (take len sidp) h1 = Ret (b2, h2) ->
  append_end h b (Z.of_nat len :: take len sidp) h2 b2.
Proof.
  intros Hh Hw Hmax Hby Hl Hlen H1 H2.
  assert (take len sidp <> []) as Hne by (destruct len; [lia|]; by destruct sidp).
  assert (zlen (take len sidp) = Z.of_nat len) as Hz by (unfold zlen; rewrite length_take; lia).
  rewrite ob_append_bytes_put in H2 by done.
  apply ob_append_byte_cases in H1 as [Hb Hh1 Hw1 Hp1 Hend]; [|done|done|unfold is_byte; lia|lia].
  change (zlen [Z.of_nat len]) with 1 in Hp1.
  destruct Hend as [Hap|[Hnb _]]; [|by rewrite ob_put_out_of_bounds in H2].
  apply ob_put_cases in H2 as [_ Hh2 Hw2 Hp2 Hend2]; auto using Forall_take; [|lia].
  split; try done; [rewrite zlen_cons; lia|].
  destruct Hend2 as [Hap2|?]; [left|by right].
  by apply (appended_trans _ _ [Z.of_nat len] _ _ _ _ _ Hap Hap2).
Qed.

Lemma same_ids_send_full m p s n :
  m !! p = Some s -> same_ids m (<[p := set_send_full n s]> m).
Proof.
  intros Hs q s' Hq. rewrite lookup_insert. case_decide; [|by exists s'].
  simplify_eq. by eexists.
Qed.

Lemma wf_slot_abbrev k m path sl p s :
  wf_slot k m path sl -> p ∈ slot_subs sl -> m !! p = Some s -> abbreviate_len s <= 64.
Proof.
  intros Hw. induction Hw as [path|path q s' Hq Hl Hb Ha Hpre|path node Hlen Hn IH Hk]; simpl.
  - by intros ?%elem_of_nil.
  - intros ->%list_elem_of_singleton Hs. simplify_eq. apply prefix_length in Hpre.
    rewrite length_nibbles, Hl in Hpre. unfold zlen in *. lia.
  - intros (i & sl & Hi & Hp)%elem_of_flat_map_slots. by eapply IH.
Qed.

Lemma p2p_me_none me p s c : point_to_point_device c = None -> p2p_me me p s (Some c) = Ret false.
Proof. intros Hp. unfold p2p_me. rewrite Hp. by repeat case_match. Qed.

Lemma same_sub_None p : same_sub p None = false.
Proof. by apply bool_decide_eq_false. Qed.

(** The length [overlay_address_append] chooses without [send_full]. *)
Lemma address_len_ok s (hdr : bool) :
  1 <= abbreviate_len s <= 64 ->
  let l := if hdr then Z.quot (abbreviate_len s + 2) 2 + 1 else Z.quot (abbreviate_len s + 2) 2 in
  exists len : nat, (if SID_SIZE <? l then SID_SIZE else l) = Z.of_nat len /\
    (1 <= len <= 32)%nat /\ abbreviate_len s <= 2 * Z.of_nat len.
Proof.
  intros Ha. rewrite Z.quot_div_nonneg by lia. cbv zeta. unfold SID_SIZE.
  set (l := if hdr then _ else _).
  assert ((abbreviate_len s + 2) / 2 <= l <= (abbreviate_len s + 2) / 2 + 1) by (subst l; destruct hdr; lia).
  exists (Z.to_nat (if 32 <? l then 32 else l)).
  destruct (Z.ltb_spec 32 l); [repeat split; lia|]. rewrite Z2Nat.id by dmlia.
  repeat split; try lia; dmlia.
Qed.

(** The whole or abbreviated identity, when no code applies. *)
Lemma append_len_cases (hdr : bool) b k p s st h b' st' h' :
  wf_node k (subs st) [] (root st) -> p ∈ known st -> subs st !! p = Some s ->
  heap_ok h -> ob_wf h b -> position b + 33 <= SSIZE_MAX ->
  (len ← (if negb (send_full s =? 0) then sub_put p (set_send_full 0 s);; mret SID_SIZE
          else
            let len := Z.quot (abbreviate_len s + 2) 2 in
            let len := if hdr then len + 1 else len in
            mret (if SID_SIZE <? len then SID_SIZE else len));
   b ← olift (ob_append_byte b len);
   olift (ob_append_bytes b (take (Z.to_nat len) (sid s)))) st h = Ret ((b', st'), h') ->
  root st' = root st /\ same_ids (subs st) (subs st') /\
    exists len : nat, (1 <= len <= 32)%nat /\ abbreviate_len s <= 2 * Z.of_nat len /\
    append_end h b (Z.of_nat len :: take len (sid s)) h' b'.
Proof.
  intros Hw Hp Hs Hh Hwb Hmax Hr. pose proof Hw as [_ Hn].
  pose proof Hp as (i & sl & Hi & Hpi)%elem_of_flat_map_slots.
  pose proof (wf_slot_abbrev _ _ _ _ _ _ (Hn i sl Hi) Hpi Hs).
  destruct (wf_slot_sub _ _ _ _ _ (Hn i sl Hi) Hpi) as (s' & Hs' & Hls & Hbs & _ & Hz).
  simplify_eq. change (zlen ([] ++ [i])) with 1 in Hz.
  assert (forall (len : nat) st1,
    (b ← olift (ob_append_byte b (Z.of_nat len));
     olift (ob_append_bytes b (take (Z.to_nat (Z.of_nat len)) (sid s)))) st1 h = Ret ((b', st'), h') ->
    (1 <= len <= 32)%nat -> st' = st1 /\ append_end h b (Z.of_nat len :: take len (sid s)) h' b') as Hgo.
  { intros len st1 Hr1 Hl. rewrite Nat2Z.id, OM_bind_run, olift_run in Hr1.
    destruct (ob_append_byte b (Z.of_nat len) h) as [[b1 h1]| |] eqn:E1; try done.
    rewrite olift_run in Hr1.
    destruct (ob_append_bytes b1 (take len (sid s)) h1) as [[b2 h2]| |] eqn:E2; try done.
    simplify_eq. split; [done|]. by eapply append_sid_cases. }
  destruct (negb (send_full s =? 0)).
  - erewrite OM_bind_Ret in Hr by done. apply (Hgo 32%nat) in Hr as [-> Hend]; [|lia].
    split; [done|]. split; [by apply same_ids_send_full|]. exists 32%nat. split; [lia|]. split; [lia|done].
  - destruct (address_len_ok s hdr ltac:(lia)) as (len & Hlen & Hl & Ha). cbv zeta in Hr, Hlen.
    rewrite Hlen in Hr. erewrite OM_bind_Ret in Hr by done.
    apply Hgo in Hr as [-> Hend]; [|done].
    split; [done|]. split; [by apply same_ids_refl|]. by exists len.
Qed.

Lemma address_append_cases c b k p st h c' b' st' h' :
  wf_node k (subs st) [] (root st) -> p ∈ known st -> point_to_point_device c = None ->
  heap_ok h -> ob_wf h b -> position b + 33 <= SSIZE_MAX ->
  overlay_address_append (Some c) b (Some p) st h = Ret ((c', b', st'), h') ->
  exists e, c' = Some (set_previous (Some p) c) /\ root st' = root st /\
    same_ids (subs st) (subs st') /\ addr_enc (subs st) (sender c) (previous c) p e /\
    zlen e <= 33 /\ append_end h b e h' b'.
Proof.
  intros Hw Hp Hpp Hh Hwb Hmax Hr. pose proof Hw as [_ Hn].
  pose proof Hp as (i & sl & Hi & Hpi)%elem_of_flat_map_slots.
  destruct (wf_slot_sub _ _ _ _ _ (Hn i sl Hi) Hpi) as (s & Hs & Hls & _).
  unfold overlay_address_append in Hr. erewrite OM_bind_Ret in Hr by done.
  erewrite OM_bind_Ret in Hr by (unfold sub_get; rewrite Hs; done).
  erewrite OM_bind_Ret in Hr by done. cbn [is_ctx] in Hr. rewrite Hpp, same_sub_None in Hr.
  erewrite OM_bind_Ret in Hr by (rewrite p2p_me_none by done; done).
  cbv beta iota in Hr. rewrite OM_bind_run in Hr.
  match type of Hr with match ?m with _ => _ end = _ => destruct m as [[[b1 st1] h1]| |] eqn:E end;
    [|done..]. cbv [mret OM_ret HM_ret option_map] in Hr. simplify_eq.
  assert (forall x, is_byte x -> olift (ob_append_byte b x) st h = Ret ((b', st'), h') ->
    root st' = root st /\ same_ids (subs st) (subs st') /\ append_end h b [x] h' b') as Hcode.
  { intros x Hx Hr. rewrite olift_run in Hr.
    destruct (ob_append_byte b x h) as [[b1 h1]| |] eqn:E1; simplify_eq.
    split; [done|]. split; [apply same_ids_refl|]. apply ob_append_byte_cases; auto. lia. }
  unfold same_sub in E. case_bool_decide as Esnd; [|case_bool_decide as Eprev].
  - apply Hcode in E as (? & ? & ?); [|done]. exists [OA_CODE_SELF].
    split; [done|]. split; [done|]. split; [done|]. by split; [constructor 1|].
  - apply Hcode in E as (? & ? & ?); [|done]. exists [OA_CODE_PREVIOUS].
    split; [done|]. split; [done|]. split; [done|]. by split; [constructor 2|].
  - eapply append_len_cases in E as (? & ? & len & ? & ? & ?); [|done..].
    exists (Z.of_nat len :: take len (sid s)). split; [done|]. split; [done|]. split; [done|].
    split; [by econstructor|]. split; [|done]. rewrite zlen_cons. unfold zlen. rewrite length_take. lia.
Qed.

(** Append a sequence of addresses to a packet. *)
Fixpoint append_all (c : option decode_context) b (l : list nat)
    : OM (option decode_context * overlay_buffer) :=
  match l with
  | [] => mret (c, b)
  | p :: l => '(c, b) ← overlay_address_append c b (Some p); append_all c b l
  end.


Lemma append_all_cases l c b k st h c' b' st' h' :
  wf_node k (subs st) [] (root st) -> Forall (fun p => p ∈ known st) l ->
  point_to_point_device c = None -> heap_ok h -> ob_wf h b -> in_bounds b ->
  position b + 33 * zlen l <= SSIZE_MAX ->
  append_all (Some c) b l st h = Ret ((c', b', st'), h') -> ob_overrun b' = false ->
  root st' = root st /\ same_ids (subs st) (subs st') /\ exists es,
    addr_encs (subs st') (sender c) (previous c) l es /\ appended h b es h' b'.
Proof.
  revert c b st h. induction l as [|p l IH]; intros c b st h Hw Hl Hpp Hh Hwb Hb Hmax Hr Hov.
  { simpl in Hr. unfold mret, OM_ret, mret, HM_ret in Hr. simplify_eq.
    split; [done|]. split; [apply same_ids_refl|]. exists []. split; [constructor|].
    split; try done; [rewrite Z.add_0_r; done | by rewrite app_nil_r | apply framed_refl]. }
  apply Forall_cons_iff in Hl as [Hp Hl]. rewrite zlen_cons in Hmax. pose proof (zlen_nonneg l).
  cbn [append_all] in Hr. rewrite OM_bind_run in Hr.
  destruct (overlay_address_append (Some c) b (Some p) st h) as [[[[c1 b1] st1] h1]| |] eqn:E; [|done..].
  eapply address_append_cases in E
    as (e & -> & Hroot & Hids & He & Hz & [_ Hh1 Hw1 Hpos Hend]); [|done..|lia].
  assert (wf_node k (subs st1) [] (root st1)) as Hwn by (rewrite Hroot; by eapply wf_node_ids).
  assert (Forall (fun p => p ∈ known st1) l) as Hl1 by (unfold known; by rewrite Hroot).
  destruct Hend as [Hap|[Hnb1 Hov1]].
  - apply IH in Hr as (Hroot2 & Hids2 & es & Hes & Hap2); try done; [|by destruct Hap|lia].
    split; [congruence|]. split; [by eapply same_ids_trans|]. exists (e ++ es).
    split; [|by eapply appended_trans]. constructor; [|done].
    eapply addr_enc_ids; [|exact He]. by eapply same_ids_trans.
  - exfalso. destruct l as [|p2 l].
    + simpl in Hr. unfold mret, OM_ret, mret, HM_ret in Hr. simplify_eq. congruence.
    + apply Forall_cons_iff in Hl1 as [Hp2 _]. rewrite zlen_cons in Hmax. pose proof (zlen_nonneg l).
      cbn [append_all] in Hr. rewrite OM_bind_run in Hr.
      destruct (overlay_address_append (Some (set_previous (Some p) c)) b1 (Some p2) st1 h1)
        as [[[[c2 b2] st2] h2]| |] eqn:E; [|done..].
      eapply address_append_cases in E as (? & _ & _ & _ & _ & _ & [? _ _ _ _]); try done. lia.
Qed.
End address.

(** ** Properties *)
Section address_properties.
Context {AR : Arch} {AL : Allocator}.
Context (sizeof_subscriber sizeof_tree_node sizeof_overlay_frame : Z) (clock : nat -> Z).
Implicit Types (h : heap) (b : overlay_buffer) (st : oa_state).

Abbreviation find := (find_subscriber sizeof_subscriber sizeof_tree_node).

(** C3: looking up an abbreviated identity returns the one known subscriber
    whose identity starts with it; when none or several do it returns [NULL];
    and it changes nothing. *)
Theorem find_subscriber_resolves sidp (len : nat) create st h :
  oa_wf st -> Forall is_byte sidp -> (1 <= len <= 32)%nat -> (len <= length sidp)%nat ->
  len <> 32%nat \/ create = false ->
  find sidp (Z.of_nat len) create st h =
  Ret ((resolve (subs st) sidp len (known st), st), h).
Proof.
  intros. by apply find_lookup.
Qed.

(** C4: creating a subscriber for a whole identity always returns.  It
    returns the known subscriber of that identity, changing nothing; or a new
    one, which is then known beside all the others, whose data (abbreviations
    apart) it keeps; or [NULL], only when [malloc] fails, with the same
    subscribers known.  The tree stays well formed. *)
Theorem find_subscriber_creates sidp st h :
  oa_wf st -> Forall is_byte sidp -> length sidp = 32%nat ->
  exists r st', find sidp 32 true st h = Ret ((r, st'), h) /\
    match r with
    | Some p =>
        oa_wf st' /\ kept (subs st) (subs st') /\
        (exists s, subs st' !! p = Some s /\ sid s = sidp) /\
        (p ∈ known st /\ st' = st \/
         subs st !! p = None /\ Permutation (known st') (p :: known st))
    | None =>
        out_of_memory sizeof_subscriber sizeof_tree_node h /\
        wf_node 1 (subs st') [] (root st') /\ kept (subs st) (subs st') /\
        Permutation (known st') (known st)
    end.
Proof.
  intros Hw Hby Hlen.
  assert (wf_node 1 (subs st) [] (root st)) as Hw1 by (by eapply wf_node_le; [|exact Hw]; lia).
  destruct (find_loop_create sizeof_subscriber sizeof_tree_node (S (Z.to_nat (32 * 2))) sidp 2 (subs st)
              h [] (root st) None) as (r & t & m & Hrun & Hr);
    [lia | done | done | done | done | simpl; lia | simpl; lia |].
  destruct (find_loop_create sizeof_subscriber sizeof_tree_node (S (Z.to_nat (32 * 2))) sidp 1 (subs st)
              h [] (root st) None) as (r1 & t1 & m1 & Hrun1 & Hr1);
    [lia | done | done | done | done | simpl; lia | simpl; lia |].
  rewrite Hrun in Hrun1. simplify_eq.
  exists r1, (set_tree t1 m1 st). split.
  { unfold find_subscriber. cbv zeta. change 0 with (zlen (@nil nat)) at 1.
    erewrite HM_bind_Ret by exact Hrun. done. }
  destruct Hr as [p s Hp Hs Heq|p n t m Hu Hp Hp' Hperm Hwf Hk Ho|t m Hu Hoom Hperm Hwf Hk Ho].
  - rewrite set_tree_id. split; [done|]. split; [apply kept_refl|].
    split; [by eexists | by left].
  - split; [by apply Hwf|]. split; [done|]. split; [|by right]. simpl. by eexists.
  - split; [done|]. split; [|done]. inversion Hr1; subst; auto.
Qed.

(** C5: addresses round trip.  Any sequence of known subscribers appended to
    a packet (as whole or abbreviated identities, or by the codes for the
    sender and the previous address) is read back as the same sequence by a
    reader that starts with the same sender and previous address. *)
Theorem address_session_roundtrip l c c2 b st h c' b' st' h' :
  oa_wf st -> Forall (fun p => p ∈ known st) l ->
  point_to_point_device c = None -> heap_ok h -> ob_wf h b -> in_bounds b ->
  position b + 33 * zlen l <= SSIZE_MAX ->
  append_all (Some c) b l st h = Ret ((c', b', st'), h') -> ob_overrun b' = false ->
  sender c2 = sender c -> previous c2 = previous c ->
  exists c3 b3,
    parse_all sizeof_subscriber sizeof_tree_node sizeof_overlay_frame clock
      (length l) c2 (set_position (position b) b') st' h' =
    Ret ((map (fun p => (0, Some (Some p))) l, c3, b3, st'), h') /\ position b3 = position b'.
Proof.
  intros Hw Hl Hpp Hh Hwb Hb Hmax Hr Hov Hsnd Hprev.
  destruct (append_all_cases l c b 2 st h c' b' st' h') as (Hroot & Hids & es & Hes & Hap); auto.
  pose proof Hap as [_ _ _ Hpos _ _ _ _].
  destruct l as [|p l].
  { inversion Hes; subst. eexists _, _. split; [done|]. simpl. change (zlen (@nil Z)) with 0 in Hpos. lia. }
  assert (es <> []) as Hne by (inversion Hes as [|? ? ? e ? He _]; destruct He; done).
  rewrite Hpos.
  apply (parse_all_encodings sizeof_subscriber sizeof_tree_node sizeof_overlay_frame clock (p :: l) c2
           (set_position (position b) b') 2 st' h' es []).
  - rewrite Hroot. by eapply wf_node_ids.
  - unfold known. by rewrite Hroot.
  - by rewrite Hsnd, Hprev.
  - rewrite app_nil_r. by eapply appended_ahead.
Qed.

(** The walk that answers an explain request visits, in order, exactly
    the subscribers that agree with the abbreviation as far as their own
    abbreviation goes.  All those whose identity starts with the abbreviation
    are among them, but others can be too. *)
Theorem explain_walk_visits {C} (cb : nat -> C -> OM (bool * C)) ctx id (len : nat) st h :
  oa_wf st -> (len <= length id)%nat ->
  walk_tree (root st) 0 (Some id) (Z.of_nat len) (Some id) (Z.of_nat len) cb ctx st h =
    run_callback cb (List.filter (compatible (subs st) id len) (known st)) ctx st h /\
  forall p, p ∈ known st -> matches (subs st) id len p = true -> compatible (subs st) id len p = true.
Proof.
  intros Hw Hlen. split; [by apply explain_walk|].
  intros p _. apply matches_compatible.
Qed.

(** A packet with one unknown abbreviation too many stops the daemon.
    When the payload of the please-explain frame is exactly full, asking about
    another abbreviation overruns it with the length byte, and appending the
    abbreviation itself then fails an assertion. *)
Theorem please_explain_full_aborts c f pb b id rest (len : nat) st h :
  oa_wf st -> (1 <= len < 32)%nat -> length id = len -> Forall is_byte id ->
  List.filter (compatible (subs st) id len) (known st) = [] ->
  ob_ahead h b (id ++ rest) ->
  please_explain c = Some f -> f_payload f = Some pb -> heap_ok h -> ob_wf h pb ->
  in_bounds pb -> position pb = sizeLimit pb -> position pb < SSIZE_MAX ->
  find_subscr_buffer sizeof_subscriber sizeof_tree_node sizeof_overlay_frame clock
    c b (Z.of_nat len) true st h = Abort.
Proof.
  intros Hw Hl Hid Hby Hnone Hah Hf Hpb Hh Hwb Hb Hfull Hmax.
  unfold find_subscr_buffer.
  rewrite (proj2 (Z.leb_gt _ _)), (proj2 (Z.ltb_ge _ _)) by (unfold SID_SIZE; lia). cbn [orb].
  assert (zlen id = Z.of_nat len) as Hz by (unfold zlen; lia).
  destruct (ob_get_bytes_ptr_ahead _ _ _ _ Hah) as (q & Hg & Hld & _). rewrite Hz in *.
  erewrite OM_bind_Ret by (unfold olift; by erewrite HM_bind_Ret by exact Hg). cbv beta iota.
  cbn [negb].
  erewrite OM_bind_Ret by (unfold olift, hread; erewrite HM_bind_Ret by (rewrite Hld; done); done).
  erewrite OM_bind_Ret by (apply find_lookup; [done|done|lia|lia|left; lia]).
  rewrite resolve_none by done. cbv iota.
  erewrite OM_bind_Ret by (unfold ctx_explain_payload; simpl; rewrite Hf; done). cbv beta iota.
  erewrite OM_bind_Ret by done.
  rewrite OM_bind_run, explain_walk, Hnone by (done || lia). simpl run_callback.
  cbv [mret OM_ret HM_ret]. cbv beta iota.
  erewrite OM_bind_Ret by (unfold ctx_payload; simpl; rewrite Hf; simpl; rewrite Hpb; done).
  cbv beta iota. rewrite OM_bind_run, olift_run.
  destruct (ob_append_byte pb (Z.of_nat len) h) as [[pb1 h1]| |] eqn:E; [| done |].
  - apply ob_append_byte_cases in E as [_ _ Hw1 Hp1 Hend]; [|done|done|unfold is_byte; lia|lia].
    change (zlen [Z.of_nat len]) with 1 in Hp1.
    destruct Hend as [[_ _ [Hlim _] _ _ Hl1 _ _]|[Hnb _]]; [lia|].
    rewrite OM_bind_run, olift_run, ob_append_bytes_put by (destruct id; simpl in *; [lia|done]).
    by rewrite ob_put_out_of_bounds.
  - exfalso. pose proof (ob_put_safe h pb [Z.of_nat len] Hh Hwb) as Hs.
    unfold hsafe in Hs. unfold ob_append_byte in E. rewrite uN_small in E by lia.
    rewrite E in Hs. apply Hs; [|done|by change (zlen [Z.of_nat len]) with 1; lia].
    repeat constructor; lia.
Qed.
End address_properties.

(** ** Instances *)

Definition demo_sid (x : Z) : list Z := x :: replicate 31 0.
Definition demo_sub (x : Z) : subscriber :=
  Subscriber (demo_sid x) 2 0 false false 0 false 0 false.
Definition demo_subs : sub_heap := {[ 0%nat := demo_sub 0x12; 1%nat := demo_sub 0x13 ]}.
Definition demo_root : list slot :=
  <[1%nat := STree (<[2%nat := SSub 0]> (<[3%nat := SSub 1]> empty_node))]> empty_node.
Definition demo_oa : oa_state :=
  OAState demo_root demo_subs None (replicate 1024 (replicate 8 0)) true [] 0.

Lemma demo_sid_bytes x : is_byte x -> Forall is_byte (demo_sid x).
Proof.
  intros Hx. constructor; [done|]. apply Forall_replicate. unfold is_byte. lia.
Qed.

Lemma demo_oa_wf : oa_wf demo_oa.
Proof.
  assert (forall i x, (i = 0%nat /\ x = 0x12 \/ i = 1%nat /\ x = 0x13) ->
    wf_slot 2 demo_subs [1%nat; Z.to_nat (x - 0x10)] (SSub i)) as Hsub.
  { intros i x Hix. apply (wf_SSub _ _ _ _ (demo_sub x)); destruct Hix as [[-> ->]|[-> ->]];
      try done; try (by apply demo_sid_bytes; unfold is_byte); by eexists. }
  assert (wf_slot 2 demo_subs [1%nat]
            (STree (<[2%nat := SSub 0]> (<[3%nat := SSub 1]> empty_node)))) as Htree.
  { apply wf_STree; [done| |done]. intros i sl Hi.
    do 16 (destruct i as [|i];
      [vm_compute in Hi; injection Hi as <-;
       first [apply wf_SEmpty | apply (Hsub _ 0x12); by auto | apply (Hsub _ 0x13); by auto]|]).
    done. }
  split; [done|]. intros i sl Hi.
  do 16 (destruct i as [|i];
    [vm_compute in Hi; injection Hi as <-; first [apply wf_SEmpty | exact Htree]|]).
  done.
Qed.

Lemma find_subscriber_resolves_witness :
  @find_subscriber LP64 demo_alloc 168 136 (demo_sid 0x13) (Z.of_nat 1) true demo_oa ∅ =
  Ret ((Some 1%nat, demo_oa), ∅).
Proof.
  apply (@find_subscriber_resolves LP64 demo_alloc 168 136 (demo_sid 0x13) 1 true demo_oa ∅).
  - exact demo_oa_wf.
  - by apply demo_sid_bytes.
  - lia.
  - simpl. lia.
  - left. lia.
Defined.

Lemma find_subscriber_creates_witness :
  exists r st', @find_subscriber LP64 demo_alloc 168 136 (demo_sid 0x23) 32 true demo_oa ∅ =
    Ret ((r, st'), ∅) /\ r = Some 2%nat /\ oa_wf st'.
Proof.
  destruct (@find_subscriber_creates LP64 demo_alloc 168 136 (demo_sid 0x23) demo_oa ∅) as (r & st' & E & H).
  - exact demo_oa_wf.
  - by apply demo_sid_bytes.
  - done.
  - exists r, st'. split; [exact E|]. vm_compute in E. injection E as Er Es.
    rewrite <- Er in H. split; [done|]. apply H.
Defined.

Lemma address_session_roundtrip_witness :
  exists c' b' st' h' c3 b3,
    @append_all LP64 demo_alloc (Some context_zero) demo_buffer [0; 1; 1]%nat demo_oa demo_heap =
      Ret ((c', b', st'), h') /\
    @parse_all LP64 demo_alloc 168 136 400 (fun _ => 0) 3 context_zero (set_position 0 b') st' h' =
      Ret (([(0, Some (Some 0%nat)); (0, Some (Some 1%nat)); (0, Some (Some 1%nat))], c3, b3, st'), h').
Proof.
  eexists _, _, _, _.
  edestruct (@address_session_roundtrip LP64 demo_alloc 168 136 400 (fun _ => 0) [0; 1; 1]%nat
    context_zero context_zero demo_buffer demo_oa demo_heap) as (c3 & b3 & E & _).
  - exact demo_oa_wf.
  - repeat constructor; vm_compute; auto 10.
    all: first [apply list_elem_of_here | apply list_elem_of_further, list_elem_of_here].
  - done.
  - exact demo_heap_ok.
  - by apply demo_wf.
  - by split.
  - by vm_compute.
  - vm_compute. reflexivity.
  - by vm_compute.
  - done.
  - done.
  - exists c3, b3. split; [vm_compute; reflexivity | exact E].
Defined.

(** The walk for [12ff] reaches the subscriber [1200...], which does not match. *)
Lemma explain_walk_visits_witness :
  walk_tree (root demo_oa) 0 (Some [0x12; 0xff]) (Z.of_nat 2) (Some [0x12; 0xff]) (Z.of_nat 2)
    (fun p l => mret (false, l ++ [p])) [] demo_oa ∅ = Ret ((false, [0%nat], demo_oa), ∅) /\
  matches (subs demo_oa) [0x12; 0xff] 2 0 = false.
Proof.
  split; [|by vm_compute].
  rewrite (proj1 (@explain_walk_visits (list nat) (fun p l => mret (false, l ++ [p])) [] [0x12; 0xff] 2
    demo_oa ∅ demo_oa_wf ltac:(simpl; lia))).
  vm_compute. reflexivity.
Defined.

Definition demo_pe_heap : heap := {[ 0%nat := repeat 0 16; 1%nat := [0x55] ]}.
Definition demo_pe_full : overlay_buffer := OB (Some (0%nat, 0)) 0 16 16 16 None.
Definition demo_pe_packet : overlay_buffer := OB (Some (1%nat, 0)) 0 0 1 1 None.
Definition demo_pe_context : decode_context :=
  set_please_explain (Some (set_payload (Some demo_pe_full) frame_zero)) context_zero.

Lemma please_explain_full_aborts_witness :
  @find_subscr_buffer LP64 demo_alloc 168 136 400 (fun _ => 0) demo_pe_context demo_pe_packet
    (Z.of_nat 1) true demo_oa demo_pe_heap = Abort.
Proof.
  apply (@please_explain_full_aborts LP64 demo_alloc 168 136 400 (fun _ => 0) demo_pe_context
    (set_payload (Some demo_pe_full) frame_zero) demo_pe_full demo_pe_packet [0x55] [] 1 demo_oa demo_pe_heap).
  - exact demo_oa_wf.
  - lia.
  - done.
  - repeat constructor; done.
  - by vm_compute.
  - exists (1%nat, 0), [0x55]. by vm_compute.
  - done.
  - done.
  - intros i blk Hi. unfold demo_pe_heap in Hi.
    apply lookup_insert_Some in Hi as [[<- <-]|[_ Hi]].
    + split; [by vm_compute|]. repeat constructor; done.
    + apply lookup_singleton_Some in Hi as [<- <-]. split; [by vm_compute|]. repeat constructor; done.
  - split; try by vm_compute.
    simpl. split; [lia|]. split; [lia|]. exists (repeat 0 16). by vm_compute.
  - by vm_compute.
  - done.
  - by vm_compute.
Defined.
