(* ===== verification/OverlayPacket.v ===== *)
(** * Packets and frames (overlay_packetformats.c, overlay_payload.c)

    A packet is an envelope header followed by frames, each a header and a
    payload; addresses in both are those of [OverlayAddress].  The fields of
    [struct decode_context] that only this code uses are kept beside it in
    [packet_context], and those of [struct overlay_interface] in
    [packet_interface]; [max_packet_version] of the subscribers is a map.

    What the code asks of or tells to link state routing (route_link.c), the
    handlers of data, advertisements and acknowledgements, and the queue are
    parameters: computations over the module state.  The counter [recv_count],
    the address of the peer and messages to the log are left out. *)

From stdpp Require Import base tactics list fin_maps gmap.
From Stdlib Require Import ZArith Lia.
From S2P Require Import Prelude Memory OverlayBuffer DataFormats OverlayAddress.

Local Open Scope Z_scope.

Definition PAYLOAD_FLAG_SENDER_SAME : Z := Z.shiftl 1 0.
Definition PAYLOAD_FLAG_TO_BROADCAST : Z := Z.shiftl 1 1.
Definition PAYLOAD_FLAG_ONE_HOP : Z := Z.shiftl 1 2.
Definition PAYLOAD_FLAG_CIPHERED : Z := Z.shiftl 1 4.
Definition PAYLOAD_FLAG_SIGNED : Z := Z.shiftl 1 5.
Definition PAYLOAD_FLAG_ACK_SOON : Z := Z.shiftl 1 6.
Definition PAYLOAD_FLAG_LEGACY_TYPE : Z := Z.shiftl 1 7.
Definition PAYLOAD_TTL_MAX : Z := 31.
Definition OF_TYPE_SELFANNOUNCE_ACK : Z := 0x20.
Definition OF_TYPE_DATA : Z := 0x30.
Definition OF_TYPE_RHIZOME_ADVERT : Z := 0x50.
Definition HEADER_PROCESS : Z := 1.
Definition HEADER_FORWARD : Z := 2.
Definition ENCAP_OVERLAY : Z := 1.
Definition ENCAP_SINGLE : Z := 2.
Definition PACKET_UNICAST : Z := Z.shiftl 1 0.
Definition PACKET_INTERFACE : Z := Z.shiftl 1 1.
Definition PACKET_SEQ : Z := Z.shiftl 1 2.
Definition SUPPORTED_PACKET_VERSION : Z := 1.

Definition has (flags f : Z) : bool := negb (Z.land flags f =? 0).
Definition flag_if (c : bool) (f flags : Z) : Z := if c then Z.lor flags f else flags.

(** The fields of [struct overlay_frame] that headers carry; [broadcast_id] has
    eight bytes. *)
Record mdp_frame : Type := MFrame {
  mf_type : Z;
  mf_modifiers : Z;
  mf_ttl : Z;
  mf_queue : Z;
  mf_source : option nat;
  mf_destination : option nat;
  mf_broadcast_id : list Z;
  mf_packet_version : Z;
  mf_sequence : Z;
  mf_sender_interface : Z;
  mf_payload : option overlay_buffer
}.
Definition frame_init : mdp_frame := MFrame 0 0 0 0 None None (replicate 8 0) 0 0 0 None.

Definition mf_set_source (p : option nat) (f : mdp_frame) : mdp_frame :=
  MFrame (mf_type f) (mf_modifiers f) (mf_ttl f) (mf_queue f) p (mf_destination f)
         (mf_broadcast_id f) (mf_packet_version f) (mf_sequence f) (mf_sender_interface f) (mf_payload f).
Definition mf_set_destination (p : option nat) (f : mdp_frame) : mdp_frame :=
  MFrame (mf_type f) (mf_modifiers f) (mf_ttl f) (mf_queue f) (mf_source f) p
         (mf_broadcast_id f) (mf_packet_version f) (mf_sequence f) (mf_sender_interface f) (mf_payload f).
Definition mf_set_broadcast_id (id : list Z) (f : mdp_frame) : mdp_frame :=
  MFrame (mf_type f) (mf_modifiers f) (mf_ttl f) (mf_queue f) (mf_source f) (mf_destination f)
         id (mf_packet_version f) (mf_sequence f) (mf_sender_interface f) (mf_payload f).
Definition mf_set_ttl (ttl : Z) (f : mdp_frame) : mdp_frame :=
  MFrame (mf_type f) (mf_modifiers f) ttl (mf_queue f) (mf_source f) (mf_destination f)
         (mf_broadcast_id f) (mf_packet_version f) (mf_sequence f) (mf_sender_interface f) (mf_payload f).
Definition mf_set_queue (q : Z) (f : mdp_frame) : mdp_frame :=
  MFrame (mf_type f) (mf_modifiers f) (mf_ttl f) q (mf_source f) (mf_destination f)
         (mf_broadcast_id f) (mf_packet_version f) (mf_sequence f) (mf_sender_interface f) (mf_payload f).
Definition mf_set_type (t : Z) (f : mdp_frame) : mdp_frame :=
  MFrame t (mf_modifiers f) (mf_ttl f) (mf_queue f) (mf_source f) (mf_destination f)
         (mf_broadcast_id f) (mf_packet_version f) (mf_sequence f) (mf_sender_interface f) (mf_payload f).
Definition mf_set_end (modifiers version : Z) (f : mdp_frame) : mdp_frame :=
  MFrame (mf_type f) modifiers (mf_ttl f) (mf_queue f) (mf_source f) (mf_destination f)
         (mf_broadcast_id f) version (mf_sequence f) (mf_sender_interface f) (mf_payload f).
Definition mf_set_sender_interface (n : Z) (f : mdp_frame) : mdp_frame :=
  MFrame (mf_type f) (mf_modifiers f) (mf_ttl f) (mf_queue f) (mf_source f) (mf_destination f)
         (mf_broadcast_id f) (mf_packet_version f) (mf_sequence f) n (mf_payload f).
Definition mf_set_payload (b : option overlay_buffer) (f : mdp_frame) : mdp_frame :=
  MFrame (mf_type f) (mf_modifiers f) (mf_ttl f) (mf_queue f) (mf_source f) (mf_destination f)
         (mf_broadcast_id f) (mf_packet_version f) (mf_sequence f) (mf_sender_interface f) b.

(** [iface] is what the address code sees of the interface. *)
Record packet_interface : Type := PIface {
  iface : overlay_interface;
  point_to_point : bool;
  other_device : option nat
}.

Record packet_context : Type := PContext {
  ctx : decode_context;
  packet_version : Z;
  encapsulation : Z;
  sender_interface : Z
}.
Definition pc_set_ctx (c : decode_context) (p : packet_context) : packet_context :=
  PContext c (packet_version p) (encapsulation p) (sender_interface p).
Definition pcontext_zero : packet_context := PContext context_zero 0 0 0.

Definition set_sender (p : option nat) (c : decode_context) : decode_context :=
  Context_ (interface c) (invalid_addresses c) (please_explain c) p (previous c) (point_to_point_device c).
Definition set_p2p (p : option nat) (c : decode_context) : decode_context :=
  Context_ (interface c) (invalid_addresses c) (please_explain c) (sender c) (previous c) p.
Definition set_interface (i : option overlay_interface) (c : decode_context) : decode_context :=
  Context_ i (invalid_addresses c) (please_explain c) (sender c) (previous c) (point_to_point_device c).

Section overlay_packet.
Context {AR : Arch} {AL : Allocator}.

(** ** Building (overlay_payload.c) *)

(** A context is always passed. *)
Definition append_address (c : decode_context) (b : overlay_buffer) (p : option nat)
    : OM (decode_context * overlay_buffer) :=
  '(c, b) ← overlay_address_append (Some c) b p;
  c ← oout (or_undef c);
  mret (c, b).

Definition header_flags (sender : option nat) (type modifiers : Z) (will_retransmit : bool) (ttl : Z)
    (broadcast : option (list Z)) (next_hop destination source : option nat) : Z :=
  let flags := Z.land modifiers (Z.lor PAYLOAD_FLAG_CIPHERED PAYLOAD_FLAG_SIGNED) in
  let flags := flag_if will_retransmit PAYLOAD_FLAG_ACK_SOON flags in
  let flags := flag_if ((ttl =? 1) && match broadcast with None => true | Some _ => false end)
                       PAYLOAD_FLAG_ONE_HOP flags in
  let flags := flag_if (match destination with
                        | Some _ => bool_decide (destination = next_hop)
                        | None => false
                        end) PAYLOAD_FLAG_ONE_HOP flags in
  let flags := flag_if (bool_decide (source = sender)) PAYLOAD_FLAG_SENDER_SAME flags in
  let flags := flag_if (match destination with None => true | Some _ => false end)
                       PAYLOAD_FLAG_TO_BROADCAST flags in
  flag_if (negb (type =? OF_TYPE_DATA)) PAYLOAD_FLAG_LEGACY_TYPE flags.

(** [broadcast] is [None] for [NULL]. *)
Definition overlay_frame_build_header (packet_version : Z) (context : decode_context)
    (buff : overlay_buffer) (queue type modifiers : Z) (will_retransmit : bool) (ttl sequence : Z)
    (broadcast : option (list Z)) (next_hop destination source : option nat)
    : OM (Z * decode_context * overlay_buffer) :=
  if (ttl <? 0) || (PAYLOAD_TTL_MAX <? ttl) then mret (-1, context, buff)
  else
    let flags := header_flags (sender context) type modifiers will_retransmit ttl broadcast
                              next_hop destination source in
    buff ← olift (ob_append_byte buff flags);
    '(context, buff) ← (if negb (has flags PAYLOAD_FLAG_SENDER_SAME)
                        then append_address context buff source else mret (context, buff));
    '(context, buff) ←
      (if has flags PAYLOAD_FLAG_TO_BROADCAST then
         if negb (has flags PAYLOAD_FLAG_ONE_HOP) then
           id ← oout (or_undef broadcast);
           buff ← olift (overlay_broadcast_append buff id);
           mret (context, buff)
         else mret (context, buff)
       else
         '(context, buff) ← append_address context buff destination;
         if negb (has flags PAYLOAD_FLAG_ONE_HOP) then append_address context buff next_hop
         else mret (context, buff));
    buff ← (if negb (has flags PAYLOAD_FLAG_ONE_HOP)
            then olift (ob_append_byte buff (Z.lor ttl (Z.shiftl (Z.land queue 3) 5)))
            else mret buff);
    buff ← (if has flags PAYLOAD_FLAG_LEGACY_TYPE then olift (ob_append_byte buff type) else mret buff);
    buff ← (if 1 <=? packet_version then olift (ob_append_byte buff sequence) else mret buff);
    mret (0, context, buff).

(** The bytes before [position] of the payload. *)
Definition payload_bytes (p : overlay_buffer) : HM (list Z) :=
  q ← hlift (deref (ob_bytes p)); hread (fun h => load_bytes h q (position p)).

Definition overlay_frame_append_payload (context : decode_context) (encapsulation : Z)
    (p : mdp_frame) (next_hop : option nat) (b : overlay_buffer) (will_retransmit : bool)
    : OM (Z * decode_context * overlay_buffer) :=
  let b := ob_checkpoint b in
  let broadcast :=
    if match mf_destination p with None => true | Some _ => false end
       && negb (forallb (fun x => x =? 0) (mf_broadcast_id p))
    then Some (mf_broadcast_id p) else None in
  '(r, context, b) ←
    overlay_frame_build_header (mf_packet_version p) context b (mf_queue p) (mf_type p)
      (mf_modifiers p) will_retransmit (mf_ttl p) (Z.land (mf_sequence p) 0xFF) broadcast next_hop
      (mf_destination p) (mf_source p);
  if r =? -1 then mret (-1, context, ob_rewind b)
  else
    payload ← oout (or_undef (mf_payload p));
    b ← (if encapsulation =? ENCAP_OVERLAY
         then olift (ob_append_ui16 b (position payload)) else mret b);
    b ← (if negb (position payload =? 0)
         then bytes ← olift (payload_bytes payload); olift (ob_append_bytes b bytes) else mret b);
    if negb (ob_overrun b) then mret (0, context, b)
    else mret (-1, context, ob_rewind b).

(** Of the queue links of a frame only whether neighbours still point to it
    matters: [linked]. *)
Definition op_free (linked : bool) (p : option mdp_frame) : HM Z :=
  match p with
  | None => mret (-1)
  | Some p =>
      if linked then mret (-1)
      else match mf_payload p with
           | Some b => ob_free b;; mret 0
           | None => mret 0
           end
  end.

Definition op_dup (sizeof_overlay_frame : Z) (p : option mdp_frame) : HM (option mdp_frame) :=
  match p with
  | None => mret None
  | Some p =>
      ok ← hstruct sizeof_overlay_frame;
      if ok : bool then
        match mf_payload p with
        | Some b =>
            d ← ob_dup b;
            mret (match d with Some d => Some (mf_set_payload (Some d) p) | None => None end)
        | None => mret (Some p)
        end
      else mret None
  end.

(** ** The envelope (overlay_packetformats.c) *)

(** [interface] is the [char] argument that numbers the interface, [seq] the
    sequence number or a negative value.  [my_subscriber] may be [NULL]. *)
Definition overlay_packet_init_header (version encap : Z) (pi : packet_interface)
    (context : decode_context) (buff : overlay_buffer) (unicast : bool) (interface seq : Z)
    : OM (Z * decode_context * overlay_buffer) :=
  if (version <? 0) || (SUPPORTED_PACKET_VERSION <? version) then mret (-1, context, buff)
  else if negb (encap =? ENCAP_OVERLAY) && negb (encap =? ENCAP_SINGLE) then mret (-1, context, buff)
  else
    buff ← olift (ob_append_byte buff version);
    buff ← olift (ob_append_byte buff encap);
    let context := if point_to_point pi && match other_device pi with Some _ => true | None => false end
                      && (1 <=? version)
                   then set_p2p (other_device pi) context else context in
    me ← oget my_subscriber;
    '(context, buff) ← append_address (set_invalid 1 context) buff me;
    let context := set_sender me (set_invalid 0 context) in
    let flags := flag_if unicast PACKET_UNICAST 0 in
    let flags := flag_if (negb (interface =? 0)) PACKET_INTERFACE flags in
    let flags := flag_if (0 <=? seq) PACKET_SEQ flags in
    buff ← olift (ob_append_byte buff flags);
    buff ← (if has flags PACKET_INTERFACE then olift (ob_append_byte buff interface) else mret buff);
    buff ← (if has flags PACKET_SEQ then olift (ob_append_byte buff seq) else mret buff);
    mret (0, context, buff).

Context (sizeof_subscriber sizeof_tree_node sizeof_overlay_frame : Z) (clock : nat -> Z).
(** route_link.c *)
Context (link_state_should_forward_broadcast : option nat -> OM bool)
        (link_received_duplicate : option nat -> Z -> OM bool)
        (link_received_packet : packet_context -> Z -> bool -> OM unit)
        (link_state_ack_soon : option nat -> OM unit).

Abbreviation parse_address :=
  (overlay_address_parse sizeof_subscriber sizeof_tree_node sizeof_overlay_frame clock).

(** [!p || p->reachable ...] *)
Definition is_self (p : option nat) : OM bool :=
  match p with
  | Some p => s ← sub_get p; mret (reachable s =? REACHABLE_SELF)
  | None => mret false
  end.

(** What [*subscriber] holds after a call that may have left it alone. *)
Definition stored (old : option nat) (out : option (option nat)) : option nat :=
  match out with Some p => p | None => old end.

(** The result so far: the context, the frame, the buffer and the two decisions. *)
Record header_state : Type := HS {
  hs_ctx : decode_context;
  hs_frame : mdp_frame;
  hs_buffer : overlay_buffer;
  hs_process : bool;
  hs_forward : bool
}.

(** [inl] when the function returns -1, with the context as it is then. *)
Definition parse_source (flags : Z) (s : header_state) : OM (decode_context + header_state) :=
  if has flags PAYLOAD_FLAG_SENDER_SAME then
    let c := hs_ctx s in
    let c := match sender c with None => set_invalid 1 c | Some _ => c end in
    mret (inr (HS c (mf_set_source (sender c) (hs_frame s)) (hs_buffer s) (hs_process s) (hs_forward s)))
  else
    '(r, c, b, out) ← parse_address (hs_ctx s) (hs_buffer s) true;
    let f := mf_set_source (stored (mf_source (hs_frame s)) out) (hs_frame s) in
    if r <? 0 then mret (inl c)
    else
      self ← is_self (mf_source f);
      if match mf_source f with None => true | Some _ => false end || self
      then mret (inr (HS c f b false false))
      else mret (inr (HS c f b (hs_process s) (hs_forward s))).

Definition parse_broadcast (flags : Z) (s : header_state) : OM (decode_context + header_state) :=
  if negb (has flags PAYLOAD_FLAG_ONE_HOP) then
    '(id, b) ← olift (overlay_broadcast_parse (hs_buffer s));
    match id with
    | None => mret (inl (hs_ctx s))
    | Some id =>
        let f := mf_set_broadcast_id id (hs_frame s) in
        drop ← overlay_broadcast_drop_check id;
        fwd ← link_state_should_forward_broadcast (sender (hs_ctx s));
        let process := if negb (drop =? 0) then false else hs_process s in
        let forward := if negb (drop =? 0) then false else hs_forward s in
        let forward := if negb fwd then false else forward in
        mret (inr (HS (hs_ctx s) (mf_set_destination None f) b process forward))
    end
  else mret (inr (HS (hs_ctx s) (mf_set_destination None (hs_frame s)) (hs_buffer s)
                      (hs_process s) (hs_forward s))).

(** The next hop is returned too. *)
Definition parse_unicast (flags : Z) (nexthop : option nat) (s : header_state)
    : OM (decode_context + header_state * option nat) :=
  '(r, c, b, out) ← parse_address (hs_ctx s) (hs_buffer s) true;
  let f := mf_set_destination (stored (mf_destination (hs_frame s)) out) (hs_frame s) in
  if r <? 0 then mret (inl c)
  else
    self ← is_self (mf_destination f);
    let process := if self : bool then hs_process s else false in
    if negb (has flags PAYLOAD_FLAG_ONE_HOP) then
      '(r, c, b, out) ← parse_address c b true;
      let nexthop := stored nexthop out in
      if r <? 0 then mret (inl c)
      else
        self ← is_self nexthop;
        mret (inr (HS c f b process (if self : bool then hs_forward s else false), nexthop))
    else mret (inr (HS c f b process (hs_forward s), nexthop)).

Definition parse_ttl (flags : Z) (s : header_state) : OM (decode_context + header_state) :=
  r ← (if has flags PAYLOAD_FLAG_ONE_HOP then mret (Some (mf_set_ttl 1 (hs_frame s), hs_buffer s))
       else
         '(ttl_qos, b) ← olift (ob_get (hs_buffer s));
         if ttl_qos <? 0 then mret None
         else mret (Some (mf_set_queue (Z.land (Z.shiftr ttl_qos 5) 3)
                            (mf_set_ttl (Z.land ttl_qos 0x1F) (hs_frame s)), b)));
  match r with
  | None => mret (inl (hs_ctx s))
  | Some (f, b) =>
      let f := if negb (mf_ttl f =? 0) then mf_set_ttl (mf_ttl f - 1) f else f in
      mret (inr (HS (hs_ctx s) f b (hs_process s)
                     (if mf_ttl f =? 0 then false else hs_forward s)))
  end.

Definition parse_type (flags : Z) (s : header_state) : OM (decode_context + header_state) :=
  if has flags PAYLOAD_FLAG_LEGACY_TYPE then
    '(ftype, b) ← olift (ob_get (hs_buffer s));
    if ftype =? -1 then mret (inl (hs_ctx s))
    else mret (inr (HS (hs_ctx s) (mf_set_type ftype (hs_frame s)) b (hs_process s) (hs_forward s)))
  else mret (inr (HS (hs_ctx s) (mf_set_type OF_TYPE_DATA (hs_frame s)) (hs_buffer s)
                      (hs_process s) (hs_forward s))).

Definition parse_seq (version : Z) (s : header_state) : OM (decode_context + header_state) :=
  if 1 <=? version then
    '(seq, b) ← olift (ob_get (hs_buffer s));
    if seq =? -1 then mret (inl (hs_ctx s))
    else
      dup ← link_received_duplicate (sender (hs_ctx s)) seq;
      if dup : bool then mret (inr (HS (hs_ctx s) (hs_frame s) b false false))
      else mret (inr (HS (hs_ctx s) (hs_frame s) b (hs_process s) (hs_forward s)))
  else mret (inr s).

(** Early returns. *)
Definition obind {A B} (m : OM (decode_context + A)) (k : A -> OM (decode_context + B))
    : OM (decode_context + B) :=
  r ← m; match r with inr a => k a | inl c => mret (inl c) end.

(** [inl] for the return value -1, else the decisions, the frame, the next hop,
    the context and the buffer. *)
Definition parseMdpPacketHeader (context : packet_context) (frame : mdp_frame) (buffer : overlay_buffer)
    (nexthop : option nat)
    : OM (decode_context + Z * packet_context * mdp_frame * overlay_buffer * option nat) :=
  '(flags, b) ← olift (ob_get buffer);
  if flags <? 0 then mret (inl (ctx context))
  else
    obind (parse_source flags (HS (ctx context) frame b true true)) (fun s =>
    obind (if has flags PAYLOAD_FLAG_TO_BROADCAST
           then obind (parse_broadcast flags s) (fun s => mret (inr (s, nexthop)))
           else parse_unicast flags nexthop s) (fun '(s, nexthop) =>
    obind (parse_ttl flags s) (fun s =>
    obind (parse_type flags s) (fun s =>
    obind (parse_seq (packet_version context) s) (fun s =>
      let f := mf_set_end flags (packet_version context) (hs_frame s) in
      let ok := invalid_addresses (hs_ctx s) =? 0 in
      let decision := Z.lor (if hs_forward s && ok then HEADER_FORWARD else 0)
                            (if hs_process s && ok then HEADER_PROCESS else 0) in
      mret (inr (decision, pc_set_ctx (hs_ctx s) context, f, hs_buffer s, nexthop))))))).

(** The return value, the context, the interface, the subscribers' versions and
    the buffer. *)
Definition parseEnvelopeHeader (context : packet_context) (pi : packet_interface)
    (max_packet_version : gmap nat Z) (buffer : overlay_buffer)
    : OM (Z * packet_context * packet_interface * gmap nat Z * overlay_buffer) :=
  let c := set_interface (Some (iface pi)) (ctx context) in
  let c := match other_device pi with
           | Some _ => if point_to_point pi then set_p2p (other_device pi) c else c
           | None => c
           end in
  '(version, b) ← olift (ob_get buffer);
  let pc := PContext c version (encapsulation context) 0 in
  if (version <? 0) || (SUPPORTED_PACKET_VERSION <? version) then mret (-1, pc, pi, max_packet_version, b)
  else
    '(encap, b) ← olift (ob_get b);
    let pc := PContext c version encap 0 in
    if negb (encap =? ENCAP_OVERLAY) && negb (encap =? ENCAP_SINGLE) then mret (-1, pc, pi, max_packet_version, b)
    else
      '(r, c, b, out) ← parse_address c b true;
      let c := set_sender (stored (sender c) out) c in
      let pc := pc_set_ctx c pc in
      if negb (r =? 0) then mret (-1, pc, pi, max_packet_version, b)
      else
        '(packet_flags, b) ← olift (ob_get b);
        '(si, b) ← (if has packet_flags PACKET_INTERFACE then olift (ob_get b) else mret (0, b));
        '(seq, b) ← (if has packet_flags PACKET_SEQ
                     then '(seq, b) ← olift (ob_get b); mret (Z.land seq 0xFF, b) else mret (-1, b));
        let pc := PContext c version encap si in
        match sender c with
        | Some p =>
            self ← is_self (Some p);
            if self : bool then mret (1, pc, pi, max_packet_version, b)
            else
              let versions := if default 0 (max_packet_version !! p) <? version
                              then <[p := version]> max_packet_version else max_packet_version in
              let '(c, pi) := if point_to_point pi && negb (bool_decide (other_device pi = Some p))
                              then (set_p2p (Some p) c, PIface (iface pi) (point_to_point pi) (Some p))
                              else (c, pi) in
              let pc := pc_set_ctx c pc in
              link_received_packet pc seq (has packet_flags PACKET_UNICAST);;
              mret (0, pc, pi, versions, b)
        | None =>
            link_received_packet pc seq (has packet_flags PACKET_UNICAST);;
            mret (0, pc, pi, max_packet_version, b)
        end.

(** ** A whole packet *)

(** overlay_queue.c, rhizome_packetformats.c and overlay_mdp.c; the last two
    parameters are those of [send_please_explain]. *)
Context (overlay_payload_enqueue : mdp_frame -> OM Z)
        (link_state_legacy_ack : mdp_frame -> Z -> OM unit)
        (overlay_rhizome_saw_advertisements : packet_context -> mdp_frame -> OM packet_context)
        (overlay_saw_mdp_containing_frame : mdp_frame -> OM unit)
        (please_explain_enqueue : overlay_frame -> Z)
        (unicast_destination : overlay_interface -> option nat).

Definition process_incoming_frame (now : Z) (pi : packet_interface) (f : mdp_frame) (pc : packet_context)
    : OM packet_context :=
  if mf_type f =? OF_TYPE_SELFANNOUNCE_ACK then link_state_legacy_ack f now;; mret pc
  else if mf_type f =? OF_TYPE_RHIZOME_ADVERT then overlay_rhizome_saw_advertisements pc f
  else if mf_type f =? OF_TYPE_DATA then overlay_saw_mdp_containing_frame f;; mret pc
  else if mf_type f =? OF_TYPE_PLEASEEXPLAIN then
    b ← oout (or_undef (mf_payload f));
    process_explain sizeof_subscriber sizeof_tree_node sizeof_overlay_frame clock please_explain_enqueue
      unicast_destination (mf_source f) (mf_destination f) (Some (iface pi)) b;;
    mret pc
  else mret pc.

Definition overlay_forward_payload (f : mdp_frame) : OM Z :=
  if mf_ttl f =? 0 then mret 0
  else
    qf ← olift (op_dup sizeof_overlay_frame (Some f));
    match qf with
    | None => mret (-1)
    | Some q =>
        r ← overlay_payload_enqueue q;
        if negb (r =? 0) then olift (op_free false (Some q));; mret (-1) else mret 0
    end.

(** One payload: the rest of the loop body after the header was read.
    [f.next_hop] is never set. *)
Definition packet_payload (now : Z) (pi : packet_interface) (header_valid : Z) (pc : packet_context) (f : mdp_frame) (b : overlay_buffer)
    (payload_len : Z) : OM (option (packet_context * mdp_frame)) :=
  if negb (header_valid =? 0) then
    p ← olift (ob_slice b (position b) payload_len);
    match p with
    | None => mret None
    | Some p =>
        p ← oout (ob_limitsize p payload_len);
        let f := mf_set_payload (Some p) f in
        (if has header_valid HEADER_FORWARD then overlay_forward_payload f;; mret tt else mret tt);;
        pc ← (if has header_valid HEADER_PROCESS then process_incoming_frame now pi f pc else mret pc);
        me ← oget my_subscriber;
        (if has (mf_modifiers f) PAYLOAD_FLAG_ACK_SOON
            && (bool_decide (None = me) || bool_decide (mf_destination f = me)
                || bool_decide (mf_destination f = None))
         then link_state_ack_soon (sender (ctx pc)) else mret tt);;
        olift (ob_free p);;
        mret (Some (pc, mf_set_payload None f))
    end
  else mret (Some (pc, f)).

(** The loop over the payloads: the return value and the context.  Every round
    reads at least the flags; [exhausted] is what running out of fuel means. *)
Fixpoint packet_loop (exhausted : OM (Z * packet_context)) (now : Z) (pi : packet_interface) (fuel : nat)
    (pc : packet_context) (f : mdp_frame) (b : overlay_buffer) : OM (Z * packet_context) :=
  match fuel with
  | O => exhausted
  | S fuel =>
      n ← oout (ob_remaining b);
      if 0 <? n then
        let pc := pc_set_ctx (set_invalid 0 (ctx pc)) pc in
        r ← parseMdpPacketHeader pc (mf_set_broadcast_id (replicate 8 0) f) b None;
        match r with
        | inl c => mret (-1, pc_set_ctx c pc)
        | inr (header_valid, pc, f, b, nexthop) =>
            '(payload_len, b) ← (if encapsulation pc =? ENCAP_SINGLE
                                 then n ← oout (ob_remaining b); mret (n, b)
                                 else olift (ob_get_ui16 b));
            n ← oout (ob_remaining b);
            if negb (encapsulation pc =? ENCAP_SINGLE) && (n <? payload_len) then mret (-1, pc)
            else
              let next_payload := position b + payload_len in
              r ← packet_payload now pi header_valid pc f b payload_len;
              match r with
              | None => mret (0, pc)
              | Some (pc, f) => packet_loop exhausted now pi fuel pc f (set_position next_payload b)
              end
        end
      else mret (0, pc)
  end.

(** The return value, the interface, the subscribers' versions and the
    please-explain frame sent, if any.  [packet] points to [len] bytes. *)
Definition packetOkOverlay (pi : packet_interface) (max_packet_version : gmap nat Z) (packet : ptr) (len : Z)
    : OM (Z * packet_interface * gmap nat Z * option overlay_frame) :=
  now ← gettime_ms clock;
  b ← olift (ob_static (Some packet) len);
  b ← oout (or_undef b);
  b ← oout (ob_limitsize b len);
  '(ret, pc, pi, versions, b) ← parseEnvelopeHeader pcontext_zero pi max_packet_version b;
  if negb (ret =? 0) then olift (ob_free b);; mret (ret, pi, versions, None)
  else
    let f := mf_set_sender_interface (sender_interface pc) frame_init in
    '(ret, pc) ← packet_loop (oout Undef) now pi (S (Z.to_nat len)) pc f b;
    me ← oget my_subscriber;
    '(_, e) ← send_please_explain please_explain_enqueue unicast_destination (ctx pc) me
                                  (sender (ctx pc));
    olift (ob_free b);;
    mret (ret, pi, versions, e).
End overlay_packet.
