(* ===== verification/OverlayPacketSpec.v ===== *)
(** * Packets and frames: what the module promises

    A frame header that fitted into the packet is read back as it was written,
    with the decisions the flags, the addresses and the hop count call for; a
    packet without room for the header is not rewound but stops the daemon. *)

From stdpp Require Import base tactics list fin_maps gmap.
From Stdlib Require Import ZArith Lia.
From S2P Require Import Prelude Memory OverlayBuffer OverlayBufferFacts OverlayBufferSpec.
From S2P Require Import DataFormats OverlayAddress OverlayAddressFacts OverlayAddressWalk OverlayAddressSpec.
From S2P Require Import OverlayPacket.

Local Open Scope Z_scope.

(** ** Flags *)

Lemma has_testbit x k : 0 <= k -> has x (Z.shiftl 1 k) = Z.testbit x k.
Proof.
  intros Hk. unfold has. destruct (Z.testbit x k) eqn:E.
  - apply negb_true_iff, Z.eqb_neq. intros H. apply (f_equal (fun y => Z.testbit y k)) in H.
    rewrite Z.land_spec, Z.shiftl_spec, Z.sub_diag, E, Z.bits_0 in H by lia. done.
  - apply negb_false_iff, Z.eqb_eq, Z.bits_inj'. intros n Hn.
    rewrite Z.land_spec, Z.shiftl_spec, Z.bits_0 by lia.
    destruct (decide (n = k)) as [->|]; [by rewrite E|].
    destruct (Z.ltb_spec n k); [rewrite (Z.testbit_neg_r 1) by lia; apply andb_false_r|].
    replace (Z.testbit 1 (n - k)) with false; [apply andb_false_r|].
    symmetry. apply (Z.bits_above_log2 1); simpl; lia.
Qed.

Lemma testbit_flag_if c k x n :
  0 <= k -> 0 <= n ->
  Z.testbit (flag_if c (Z.shiftl 1 k) x) n = (c && (n =? k)) || Z.testbit x n.
Proof.
  intros Hk Hn. unfold flag_if. destruct c; [|done]. rewrite Z.lor_spec, orb_comm. f_equal.
  rewrite Z.shiftl_spec by lia. destruct (Z.eqb_spec n k) as [->|]; [by rewrite Z.sub_diag|].
  destruct (Z.ltb_spec n k); [by rewrite Z.testbit_neg_r by lia|].
  apply (Z.bits_above_log2 1); simpl; lia.
Qed.

Lemma flag_if_range c k x : 0 <= k <= 7 -> is_byte x -> is_byte (flag_if c (Z.shiftl 1 k) x).
Proof.
  intros Hk [Hx Hx2]. unfold flag_if. destruct c; [|done].
  rewrite Z.shiftl_mul_pow2, Z.mul_1_l by lia. split.
  - apply Z.lor_nonneg. split; [done|]. by apply Z.pow_nonneg.
  - change 256 with (2 ^ 8) in *. apply Z.log2_lt_cancel. rewrite Z.log2_pow2 by lia.
    destruct (decide (x = 0)) as [->|].
    + rewrite Z.lor_0_l, Z.log2_pow2; lia.
    + rewrite Z.log2_lor by (try apply Z.pow_nonneg; lia). rewrite Z.log2_pow2 by lia.
      apply Z.max_lub_lt; [|lia]. apply Z.log2_lt_pow2; lia.
Qed.

Definition is_none {A} (x : option A) : bool := match x with None => true | Some _ => false end.

Section flags.
Context (sender : option nat) (type modifiers : Z) (wr : bool) (ttl : Z)
        (bc : option (list Z)) (nh dst src : option nat).
Definition the_flags : Z := header_flags sender type modifiers wr ttl bc nh dst src.

(** The condition of each flag. *)
Definition one_hop : bool :=
  match dst with Some _ => bool_decide (dst = nh) | None => false end || ((ttl =? 1) && is_none bc).

Lemma the_flags_bit k :
  0 <= k -> Z.testbit the_flags k =
    (negb (type =? OF_TYPE_DATA) && (k =? 7)) || ((is_none dst && (k =? 1)) ||
    ((bool_decide (src = sender) && (k =? 0)) ||
    ((match dst with Some _ => bool_decide (dst = nh) | None => false end && (k =? 2)) ||
    (((ttl =? 1) && is_none bc && (k =? 2)) || ((wr && (k =? 6)) ||
    (Z.testbit modifiers k && ((k =? 5) || (k =? 4)))))))).
Proof.
  intros Hk. unfold the_flags, header_flags, PAYLOAD_FLAG_LEGACY_TYPE, PAYLOAD_FLAG_TO_BROADCAST,
    PAYLOAD_FLAG_SENDER_SAME, PAYLOAD_FLAG_ONE_HOP, PAYLOAD_FLAG_ACK_SOON.
  rewrite !testbit_flag_if by lia. rewrite Z.land_spec. do 7 f_equal.
  unfold PAYLOAD_FLAG_CIPHERED, PAYLOAD_FLAG_SIGNED.
  change (Z.lor (Z.shiftl 1 4) (Z.shiftl 1 5)) with (flag_if true (Z.shiftl 1 5) (flag_if true (Z.shiftl 1 4) 0)).
  rewrite !testbit_flag_if, Z.bits_0 by lia. by rewrite orb_false_r.
Qed.

Lemma the_flags_byte : is_byte the_flags.
Proof.
  unfold the_flags, header_flags. repeat apply flag_if_range; try lia.
  split; [apply Z.land_nonneg; right; by vm_compute|].
  change (Z.lor PAYLOAD_FLAG_CIPHERED PAYLOAD_FLAG_SIGNED) with 48.
  rewrite <- (Z.land_diag 48), Z.land_assoc. change 48 with (Z.land 48 (Z.ones 6)) at 2.
  rewrite Z.land_assoc, Z.land_ones by lia. pose proof (Z.mod_pos_bound (Z.land (Z.land modifiers 48) 48) (2 ^ 6)).
  change (2 ^ 6) with 64 in *. lia.
Qed.

Lemma flag_sender_same : has the_flags PAYLOAD_FLAG_SENDER_SAME = bool_decide (src = sender).
Proof.
  unfold PAYLOAD_FLAG_SENDER_SAME. rewrite has_testbit, the_flags_bit by lia. simpl.
  by rewrite !andb_false_r, andb_true_r, orb_false_r.
Qed.
Lemma flag_to_broadcast : has the_flags PAYLOAD_FLAG_TO_BROADCAST = is_none dst.
Proof.
  unfold PAYLOAD_FLAG_TO_BROADCAST. rewrite has_testbit, the_flags_bit by lia. simpl.
  by rewrite !andb_false_r, andb_true_r, orb_false_r.
Qed.
Lemma flag_one_hop : has the_flags PAYLOAD_FLAG_ONE_HOP = one_hop.
Proof.
  unfold PAYLOAD_FLAG_ONE_HOP, one_hop. rewrite has_testbit, the_flags_bit by lia. simpl.
  by rewrite !andb_false_r, !andb_true_r, !orb_false_r.
Qed.
Lemma flag_legacy_type : has the_flags PAYLOAD_FLAG_LEGACY_TYPE = negb (type =? OF_TYPE_DATA).
Proof.
  unfold PAYLOAD_FLAG_LEGACY_TYPE. rewrite has_testbit, the_flags_bit by lia. simpl.
  by rewrite !andb_false_r, andb_true_r, orb_false_r.
Qed.
End flags.

(** ** Writing a header *)
Section packet.
Context {AR : Arch} {AL : Allocator}.
Implicit Types (h : heap) (b : overlay_buffer) (st : oa_state).

(** Optional appends: nothing, or an append that returned. *)
Definition adds h b (vs : list Z) h' b' : Prop :=
  vs = [] /\ h' = h /\ b' = b \/ append_end h b vs h' b'.

Lemma adds_nil h b : adds h b [] h b.
Proof. by left. Qed.

Lemma adds_ok h b vs h' b' :
  heap_ok h -> ob_wf h b -> adds h b vs h' b' ->
  heap_ok h' /\ ob_wf h' b' /\ position b' = position b + zlen vs.
Proof.
  intros Hh Hw [(-> & -> & ->)|[]]; [|done]. split_and!; [done|done|]. change (zlen (@nil Z)) with 0. lia.
Qed.

Lemma adds_trans h b v1 h1 b1 v2 h2 b2 :
  adds h b v1 h1 b1 -> adds h1 b1 v2 h2 b2 -> adds h b (v1 ++ v2) h2 b2.
Proof.
  intros [(-> & -> & ->)|H1]; [done|]. intros [(-> & -> & ->)|H2]; [rewrite app_nil_r; by right|].
  right. destruct H1 as [Hb _ _ Hp [Hap|[Hn _]]], H2 as [Hb1 ? ? Hp' He]; [|done].
  split; try done; [rewrite zlen_app; lia|]. destruct He as [Hap'|]; [|by right].
  left. by eapply appended_trans.
Qed.

Lemma adds_appended h b vs h' b' :
  adds h b vs h' b' -> vs <> [] -> ob_overrun b' = false -> appended h b vs h' b'.
Proof. intros [(-> & _)|[_ _ _ _ [?|[_ E]]]] Hne Ho; [done|done|congruence]. Qed.

(** An address, as a step of the writer. *)
Lemma append_address_cases c b k p st h c' b' st' h' :
  wf_node k (subs st) [] (root st) -> p ∈ known st -> point_to_point_device c = None ->
  heap_ok h -> ob_wf h b -> position b + 33 <= SSIZE_MAX ->
  append_address c b (Some p) st h = Ret ((c', b', st'), h') ->
  exists e, c' = set_previous (Some p) c /\ root st' = root st /\
    same_ids (subs st) (subs st') /\ addr_enc (subs st) (sender c) (previous c) p e /\
    zlen e <= 33 /\ adds h b e h' b'.
Proof.
  intros Hw Hp Hpp Hh Hwb Hmax Hr. unfold append_address in Hr. rewrite OM_bind_run in Hr.
  destruct (overlay_address_append (Some c) b (Some p) st h) as [[[[c1 b1] st1] h1]| |] eqn:E; try done.
  eapply address_append_cases in E as (e & -> & ? & ? & ? & ? & ?); try done.
  erewrite OM_bind_Ret in Hr by done. cbv [mret OM_ret HM_ret] in Hr. simplify_eq.
  exists e. split_and!; try done. by right.
Qed.

Lemma append_byte_cases b x st h b' st' h' :
  heap_ok h -> ob_wf h b -> is_byte x -> position b + 1 <= SSIZE_MAX ->
  olift (ob_append_byte b x) st h = Ret ((b', st'), h') ->
  st' = st /\ adds h b [x] h' b'.
Proof.
  intros Hh Hw Hx Hmax Hr. rewrite olift_run in Hr.
  destruct (ob_append_byte b x h) as [[b1 h1]| |] eqn:E; simplify_eq. split; [done|].
  right. by apply ob_append_byte_cases.
Qed.

(** A byte that is there when [c] says so. *)
Lemma append_byte_if (c : bool) b x st h b' st' h' :
  heap_ok h -> ob_wf h b -> is_byte x -> position b + 1 <= SSIZE_MAX ->
  (if c then olift (ob_append_byte b x) else mret b) st h = Ret ((b', st'), h') ->
  st' = st /\ adds h b (if c then [x] else []) h' b'.
Proof.
  intros Hh Hw Hx Hmax Hr. destruct c; [by apply append_byte_cases|].
  cbv [mret OM_ret HM_ret] in Hr. simplify_eq. auto using adds_nil.
Qed.

Lemma append_address_if (c : bool) ctx b k p st h c' b' st' h' :
  wf_node k (subs st) [] (root st) -> p ∈ known st -> point_to_point_device ctx = None ->
  heap_ok h -> ob_wf h b -> position b + 33 <= SSIZE_MAX ->
  (if c then append_address ctx b (Some p) else mret (ctx, b)) st h = Ret ((c', b', st'), h') ->
  exists e, c' = (if c then set_previous (Some p) ctx else ctx) /\ root st' = root st /\
    same_ids (subs st) (subs st') /\
    (if c then addr_enc (subs st) (sender ctx) (previous ctx) p e else e = []) /\
    zlen e <= 33 /\ adds h b e h' b'.
Proof.
  intros Hw Hp Hpp Hh Hwb Hmax Hr. destruct c; [by eapply append_address_cases|].
  cbv [mret OM_ret HM_ret] in Hr. simplify_eq. exists [].
  split_and!; try done; [apply same_ids_refl | apply adds_nil].
Qed.

(** What the caller of the header writer passes. *)
Record header_args : Type := HArgs {
  ha_version : Z;
  ha_queue : Z;
  ha_type : Z;
  ha_modifiers : Z;
  ha_retransmit : bool;
  ha_ttl : Z;
  ha_sequence : Z;
  ha_broadcast : option (list Z);
  ha_next_hop : option nat;
  ha_destination : option nat;
  ha_source : nat
}.

Definition build_header (a : header_args) (c : decode_context) b :=
  overlay_frame_build_header (ha_version a) c b (ha_queue a) (ha_type a) (ha_modifiers a)
    (ha_retransmit a) (ha_ttl a) (ha_sequence a) (ha_broadcast a) (ha_next_hop a)
    (ha_destination a) (Some (ha_source a)).

Definition ha_flags (snd : option nat) (a : header_args) : Z :=
  the_flags snd (ha_type a) (ha_modifiers a) (ha_retransmit a) (ha_ttl a) (ha_broadcast a)
            (ha_next_hop a) (ha_destination a) (Some (ha_source a)).
Definition ha_one_hop (a : header_args) : bool :=
  one_hop (ha_ttl a) (ha_broadcast a) (ha_next_hop a) (ha_destination a).
Definition ha_same (snd : option nat) (a : header_args) : bool :=
  bool_decide (Some (ha_source a) = snd).

Lemma ha_flag_same snd a : has (ha_flags snd a) PAYLOAD_FLAG_SENDER_SAME = ha_same snd a.
Proof. apply flag_sender_same. Qed.
Lemma ha_flag_broadcast snd a :
  has (ha_flags snd a) PAYLOAD_FLAG_TO_BROADCAST = is_none (ha_destination a).
Proof. apply flag_to_broadcast. Qed.
Lemma ha_flag_one_hop snd a : has (ha_flags snd a) PAYLOAD_FLAG_ONE_HOP = ha_one_hop a.
Proof. apply flag_one_hop. Qed.
Lemma ha_flag_type snd a :
  has (ha_flags snd a) PAYLOAD_FLAG_LEGACY_TYPE = negb (ha_type a =? OF_TYPE_DATA).
Proof. apply flag_legacy_type. Qed.

(** The fields are in range; the addresses are of known subscribers; a frame for
    one destination has a next hop, and one for everybody travels one hop or
    has an id. *)
Record header_args_ok st (a : header_args) : Prop := {
  hok_ttl : 0 <= ha_ttl a <= PAYLOAD_TTL_MAX;
  hok_type : is_byte (ha_type a);
  hok_sequence : is_byte (ha_sequence a);
  hok_source : ha_source a ∈ known st;
  hok_known : forall p, ha_destination a = Some p \/ ha_next_hop a = Some p -> p ∈ known st;
  hok_route : match ha_destination a with
              | Some _ => ha_next_hop a <> None
              | None => ha_broadcast a <> None \/ ha_ttl a = 1
              end;
  hok_broadcast : forall id, ha_broadcast a = Some id -> length id = 8%nat /\ Forall is_byte id
}.

Lemma header_args_ok_root st st' a :
  root st' = root st -> header_args_ok st a -> header_args_ok st' a.
Proof. intros Hr []. split; try done; unfold known; by rewrite Hr. Qed.

Definition ttl_byte (a : header_args) : Z := Z.lor (ha_ttl a) (Z.shiftl (Z.land (ha_queue a) 3) 5).

(** The part of the header that says where the frame goes. *)
Definition route_enc (m : sub_heap) (snd prev : option nat) (a : header_args) (e : list Z) : Prop :=
  match ha_destination a with
  | None => e = if ha_one_hop a then [] else default [] (ha_broadcast a)
  | Some d => exists e1 e2, e = e1 ++ e2 /\ addr_enc m snd prev d e1 /\
      if ha_one_hop a then e2 = []
      else exists n, ha_next_hop a = Some n /\ addr_enc m snd (Some d) n e2
  end.

Definition tail_bytes (a : header_args) : list Z :=
  (if ha_one_hop a then [] else [ttl_byte a]) ++
  (if negb (ha_type a =? OF_TYPE_DATA) then [ha_type a] else []) ++
  (if 1 <=? ha_version a then [ha_sequence a] else []).

Definition header_enc (m : sub_heap) (snd prev : option nat) (a : header_args) (e : list Z) : Prop :=
  exists e1 e2, e = ha_flags snd a :: e1 ++ e2 ++ tail_bytes a /\
    (if ha_same snd a then e1 = [] else addr_enc m snd prev (ha_source a) e1) /\
    route_enc m snd (if ha_same snd a then prev else Some (ha_source a)) a e2.

Lemma zlen_tail_bytes a : zlen (tail_bytes a) <= 3.
Proof. unfold tail_bytes. rewrite !zlen_app. by repeat case_match. Qed.

Lemma ttl_byte_range a : 0 <= ha_ttl a <= PAYLOAD_TTL_MAX -> is_byte (ttl_byte a).
Proof.
  unfold PAYLOAD_TTL_MAX, ttl_byte, is_byte. intros Ht.
  change 3 with (Z.ones 2). rewrite Z.land_ones by lia. change (2 ^ 2) with 4.
  rewrite Z.lor_comm, Z.shiftl_mul_pow2, lor_mul_pow2_r by lia.
  pose proof (Z.mod_pos_bound (ha_queue a) 4). lia.
Qed.

(** The tail of the header. *)
Lemma tail_cases {A} (a : header_args) (x : A) b st h y b' st' h' :
  header_args_ok st a -> heap_ok h -> ob_wf h b -> position b + 3 <= SSIZE_MAX ->
  (b ← (if negb (ha_one_hop a) then olift (ob_append_byte b (ttl_byte a)) else mret b);
   b ← (if negb (ha_type a =? OF_TYPE_DATA) then olift (ob_append_byte b (ha_type a)) else mret b);
   b ← (if 1 <=? ha_version a then olift (ob_append_byte b (ha_sequence a)) else mret b);
   mret (x, b)) st h = Ret ((y, b', st'), h') ->
  y = x /\ st' = st /\ adds h b (tail_bytes a) h' b'.
Proof.
  intros Ha Hh Hw Hmax Hr. rewrite OM_bind_run in Hr.
  match type of Hr with match ?m with _ => _ end = _ => destruct m as [[[b1 st1] h1]| |] eqn:E1 end; try done.
  apply append_byte_if in E1 as [-> A1]; [|done|done|apply ttl_byte_range, Ha|lia].
  destruct (adds_ok _ _ _ _ _ Hh Hw A1) as (Hh1 & Hw1 & Hp1).
  assert (zlen (if negb (ha_one_hop a) then [ttl_byte a] else []) <= 1) by (by destruct (ha_one_hop a)).
  rewrite OM_bind_run in Hr.
  match type of Hr with match ?m with _ => _ end = _ => destruct m as [[[b2 st2] h2]| |] eqn:E2 end; try done.
  apply append_byte_if in E2 as [-> A2]; [|done|done|apply Ha|lia].
  destruct (adds_ok _ _ _ _ _ Hh1 Hw1 A2) as (Hh2 & Hw2 & Hp2).
  assert (zlen (if negb (ha_type a =? OF_TYPE_DATA) then [ha_type a] else []) <= 1)
    by (by destruct (ha_type a =? OF_TYPE_DATA)).
  rewrite OM_bind_run in Hr.
  match type of Hr with match ?m with _ => _ end = _ => destruct m as [[[b3 st3] h3]| |] eqn:E3 end; try done.
  apply append_byte_if in E3 as [-> A3]; [|done|done|apply Ha|lia].
  cbv [mret OM_ret HM_ret] in Hr. simplify_eq. split; [done|]. split; [done|].
  pose proof (adds_trans _ _ _ _ _ _ _ _ A1 (adds_trans _ _ _ _ _ _ _ _ A2 A3)) as A123.
  unfold tail_bytes. by destruct (ha_one_hop a).
Qed.

Lemma route_cases (a : header_args) c b k st h c' b' st' h' :
  header_args_ok st a -> wf_node k (subs st) [] (root st) -> point_to_point_device c = None ->
  heap_ok h -> ob_wf h b -> position b + 66 <= SSIZE_MAX ->
  (if is_none (ha_destination a) then
     if negb (ha_one_hop a) then
       id ← oout (or_undef (ha_broadcast a));
       b ← olift (overlay_broadcast_append b id);
       mret (c, b)
     else mret (c, b)
   else
     '(c, b) ← append_address c b (ha_destination a);
     if negb (ha_one_hop a) then append_address c b (ha_next_hop a) else mret (c, b)) st h
    = Ret ((c', b', st'), h') ->
  exists e, root st' = root st /\ same_ids (subs st) (subs st') /\
    route_enc (subs st') (sender c) (previous c) a e /\ zlen e <= 66 /\ adds h b e h' b'.
Proof.
  intros Ha Hwn Hpp Hh Hw Hmax Hr. pose proof Ha as [_ _ _ _ Hkn Hroute Hbc]. unfold route_enc.
  destruct (ha_destination a) as [d|] eqn:Ed; cbn [is_none] in Hr.
  - rewrite OM_bind_run in Hr.
    destruct (append_address c b (Some d) st h) as [[[[c1 b1] st1] h1]| |] eqn:E1; try done.
    eapply append_address_cases in E1 as (e1 & -> & Hroot & Hids & He1 & Hz1 & A1);
      [|done|by apply Hkn; left|done..|lia].
    destruct (adds_ok _ _ _ _ _ Hh Hw A1) as (Hh1 & Hw1 & Hp1).
    destruct (ha_next_hop a) as [n|] eqn:En; [|done].
    eapply append_address_if in Hr as (e2 & -> & Hroot2 & Hids2 & He2 & Hz2 & A2);
      [|rewrite Hroot; by eapply wf_node_ids|unfold known; rewrite Hroot; apply Hkn; by right|done..|lia].
    pose proof (same_ids_trans _ _ _ Hids Hids2) as Hids3.
    exists (e1 ++ e2). split_and!; [congruence|done| |rewrite zlen_app; lia|by eapply adds_trans].
    exists e1, e2. split_and!; [done|by eapply addr_enc_ids|]. destruct (ha_one_hop a); [done|].
    exists n. split; [done|]. eapply addr_enc_ids; [exact Hids2|exact He2].
  - destruct (ha_one_hop a); cbn [negb] in Hr.
    + cbv [mret OM_ret HM_ret] in Hr. simplify_eq. exists [].
      split_and!; [done|apply same_ids_refl|done|done|apply adds_nil].
    + destruct (ha_broadcast a) as [id|] eqn:Ebc; [|done].
      destruct (Hbc id eq_refl) as [Hl Hby]. erewrite OM_bind_Ret in Hr by done.
      rewrite OM_bind_run, olift_run in Hr. unfold overlay_broadcast_append in Hr.
      assert (id <> []) as Hne by (by destruct id). rewrite ob_append_bytes_put in Hr by done.
      destruct (ob_put b id h) as [[b1 h1]| |] eqn:E1; try done.
      cbv [mret OM_ret HM_ret] in Hr. simplify_eq.
      assert (zlen id = 8) as Hz by (unfold zlen; lia).
      apply ob_put_cases in E1; [|done..|lia]. exists id.
      split_and!; [done|apply same_ids_refl|done|lia|by right].
Qed.

(** A header writer that returned wrote an encoding of its arguments, or the
    buffer overran with its last byte. *)
Lemma build_cases (a : header_args) c b k st h r c' b' st' h' :
  header_args_ok st a -> wf_node k (subs st) [] (root st) -> point_to_point_device c = None ->
  heap_ok h -> ob_wf h b -> position b + 128 <= SSIZE_MAX ->
  build_header a c b st h = Ret ((r, c', b', st'), h') ->
  r = 0 /\ exists e, root st' = root st /\ same_ids (subs st) (subs st') /\
    header_enc (subs st') (sender c) (previous c) a e /\ zlen e <= 103 /\ adds h b e h' b'.
Proof.
  intros Ha Hwn Hpp Hh Hw Hmax Hr. pose proof Ha as [Ht _ _ Hsrc _ _ _].
  unfold build_header, overlay_frame_build_header in Hr.
  rewrite (proj2 (Z.ltb_ge _ _)), (proj2 (Z.ltb_ge _ _)) in Hr by lia. cbn [orb] in Hr. cbv zeta in Hr.
  change (header_flags _ _ _ _ _ _ _ _ _) with (ha_flags (sender c) a) in Hr.
  rewrite !ha_flag_same, !ha_flag_broadcast, !ha_flag_one_hop, !ha_flag_type in Hr.
  rewrite OM_bind_run in Hr.
  match type of Hr with match ?m with _ => _ end = _ => destruct m as [[[b1 st1] h1]| |] eqn:E1 end; try done.
  apply append_byte_cases in E1 as [-> A1]; [|done|done|apply the_flags_byte|lia].
  destruct (adds_ok _ _ _ _ _ Hh Hw A1) as (Hh1 & Hw1 & Hp1). change (zlen [_]) with 1 in Hp1.
  rewrite OM_bind_run in Hr.
  match type of Hr with match ?m with _ => _ end = _ => destruct m as [[[[c2 b2] st2] h2]| |] eqn:E2 end; try done.
  eapply append_address_if in E2 as (e1 & -> & Hroot2 & Hids2 & He1 & Hz1 & A2); [|done..|lia].
  destruct (adds_ok _ _ _ _ _ Hh1 Hw1 A2) as (Hh2 & Hw2 & Hp2).
  assert (wf_node k (subs st2) [] (root st2)) as Hwn2 by (rewrite Hroot2; by eapply wf_node_ids).
  pose proof (header_args_ok_root _ _ _ Hroot2 Ha) as Ha2.
  rewrite OM_bind_run in Hr.
  match type of Hr with match ?m with _ => _ end = _ => destruct m as [[[[c3 b3] st3] h3]| |] eqn:E3 end; try done.
  eapply route_cases in E3 as (e2 & Hroot3 & Hids3 & He2 & Hz2 & A3);
    [|done|done|by destruct (ha_same _ _)|done|done|lia].
  destruct (adds_ok _ _ _ _ _ Hh2 Hw2 A3) as (Hh3 & Hw3 & Hp3).
  cbv beta iota in Hr. fold (ttl_byte a) in Hr.
  apply (tail_cases a (0, c3)) in Hr as (Hy & -> & A4);
    [|by eapply header_args_ok_root, Ha2|done|done|lia].
  simplify_eq. split; [done|]. exists (ha_flags (sender c) a :: e1 ++ e2 ++ tail_bytes a).
  split_and!; [congruence|by eapply same_ids_trans| | |].
  - exists e1, e2. split_and!; [done| |].
    + destruct (ha_same (sender c) a); [done|]. eapply addr_enc_ids; [|exact He1].
      by eapply same_ids_trans.
    + by destruct (ha_same (sender c) a).
  - rewrite zlen_cons, !zlen_app. pose proof (zlen_tail_bytes a). lia.
  - eapply (adds_trans _ _ [_]); [exact A1|]. eapply adds_trans; [exact A2|]. by eapply adds_trans.
Qed.
End packet.

(** ** Reading a header *)
Section packet_reader.
Context {AR : Arch} {AL : Allocator}.
Context (sizeof_subscriber sizeof_tree_node sizeof_overlay_frame : Z) (clock : nat -> Z).
Context (link_state_should_forward_broadcast : option nat -> OM bool)
        (link_received_duplicate : option nat -> Z -> OM bool).
(** What route_link.c answers; it keeps its state elsewhere. *)
Context (fwd : option nat -> bool) (dup : option nat -> Z -> bool).
Hypothesis should_forward : forall p st h,
  link_state_should_forward_broadcast p st h = Ret ((fwd p, st), h).
Hypothesis received_duplicate : forall p n st h,
  link_received_duplicate p n st h = Ret ((dup p n, st), h).
Implicit Types (h : heap) (b : overlay_buffer) (st : oa_state).

Abbreviation rd_source :=
  (parse_source sizeof_subscriber sizeof_tree_node sizeof_overlay_frame clock).
Abbreviation rd_unicast :=
  (parse_unicast sizeof_subscriber sizeof_tree_node sizeof_overlay_frame clock).
Abbreviation rd_broadcast := (parse_broadcast link_state_should_forward_broadcast).

Definition self_at st (p : nat) : bool :=
  match subs st !! p with Some s => reachable s =? REACHABLE_SELF | None => false end.

Lemma is_self_known k st h p :
  wf_node k (subs st) [] (root st) -> p ∈ known st ->
  is_self (Some p) st h = Ret ((self_at st p, st), h).
Proof.
  intros [_ Hn] (i & sl & Hi & Hpi)%elem_of_flat_map_slots.
  destruct (wf_slot_sub _ _ _ _ _ (Hn i sl Hi) Hpi) as (s & Hs & _).
  unfold is_self, self_at. rewrite Hs. erewrite OM_bind_Ret by (unfold sub_get; rewrite Hs; done). done.
Qed.

Lemma set_position_nil b : set_position (position b + zlen (@nil Z)) b = b.
Proof. change (zlen (@nil Z)) with 0. rewrite Z.add_0_r. by destruct b. Qed.

Lemma set_position_twice b x y :
  set_position (position (set_position (position b + x) b) + y) (set_position (position b + x) b)
  = set_position (position b + (x + y)) b.
Proof. unfold set_position. simpl. by rewrite Z.add_assoc. Qed.

Lemma get_ahead b x l st h :
  ob_ahead h b (x :: l) ->
  olift (ob_get b) st h = Ret ((x, set_position (position b + 1) b, st), h) /\
  ob_ahead h (set_position (position b + 1) b) l.
Proof.
  intros Ha. destruct (ob_get_ahead _ _ _ _ Ha) as [Hg Ha']. split; [|done].
  rewrite olift_run, Hg. done.
Qed.

(** What the header leaves of a decision that was true so far. *)
Definition source_ok st (snd : option nat) (a : header_args) : bool :=
  ha_same snd a || negb (self_at st (ha_source a)).

Lemma read_source (a : header_args) c f b k st h e rest :
  header_args_ok st a -> wf_node k (subs st) [] (root st) ->
  (if ha_same (sender c) a then e = [] else addr_enc (subs st) (sender c) (previous c) (ha_source a) e) ->
  ob_ahead h b (e ++ rest) ->
  rd_source (ha_flags (sender c) a) (HS c f b true true) st h =
  Ret ((inr (HS (if ha_same (sender c) a then c else set_previous (Some (ha_source a)) c)
                (mf_set_source (Some (ha_source a)) f) (set_position (position b + zlen e) b)
                (source_ok st (sender c) a) (source_ok st (sender c) a)), st), h).
Proof.
  intros Ha Hw He Hah. pose proof Ha as [_ _ _ Hsrc _ _ _]. unfold parse_source, source_ok.
  rewrite ha_flag_same. destruct (ha_same (sender c) a) eqn:Es.
  - subst e. apply bool_decide_eq_true in Es. cbv zeta. cbn [hs_ctx hs_buffer hs_frame hs_process hs_forward].
    rewrite <- Es, set_position_nil. cbv iota. by rewrite <- Es.
  - cbn [hs_ctx hs_buffer hs_frame hs_process hs_forward].
    erewrite OM_bind_Ret by (by eapply parse_encoding). cbv beta iota. cbn [stored].
    change (0 <? 0) with false. cbv iota. cbn [mf_source mf_set_source].
    erewrite OM_bind_Ret by (by eapply is_self_known). cbv beta iota. cbn [orb].
    by destruct (self_at st (ha_source a)).
Qed.

Definition seen st (id : list Z) : bool := bool_decide (bpilist st !! Z.to_nat (bpi_hash id) = Some id).

Lemma bpi_hash_range id : 0 <= bpi_hash id < 1024.
Proof.
  unfold bpi_hash, BPI_MASK. change 0x3ff with (Z.ones 10). rewrite Z.land_ones by lia.
  change (2 ^ 10) with 1024. apply Z.mod_pos_bound. lia.
Qed.

Lemma drop_check_run id st h :
  length (bpilist st) = 1024%nat ->
  exists st', overlay_broadcast_drop_check id st h = Ret (((if seen st id then 1 else 0), st'), h) /\
    root st' = root st /\ subs st' = subs st.
Proof.
  intros Hl. pose proof (bpi_hash_range id). unfold overlay_broadcast_drop_check, seen.
  erewrite OM_bind_Ret by done.
  destruct (lookup_lt_is_Some_2 (bpilist st) (Z.to_nat (bpi_hash id))) as [old Hold]; [lia|].
  erewrite OM_bind_Ret.
  2: { unfold zlookup. rewrite (proj2 (Z.ltb_ge _ _)) by lia. rewrite Hold. done. }
  rewrite Hold. case_bool_decide as E1; case_bool_decide as E2; simplify_eq; cbn [negb]; eexists; done.
Qed.

Lemma ob_get_bytes_ahead h b l1 l2 :
  l1 <> [] -> ob_ahead h b (l1 ++ l2) ->
  ob_get_bytes b (zlen l1) h = Ret ((Some l1, set_position (position b + zlen l1) b), h).
Proof.
  intros Hne Ha. destruct (ob_get_bytes_ptr_ahead _ _ _ _ Ha) as (p & Hp & Hld & _).
  destruct Ha as (q & _ & Hq & _). unfold ob_get_bytes_ptr in Hp. unfold ob_get_bytes.
  destruct (readable b (zlen l1)); [|done]. rewrite (proj2 (Z.eqb_neq _ _)).
  2: { destruct l1; [done|]. rewrite zlen_cons. pose proof (zlen_nonneg l1). lia. }
  rewrite Hq in Hp |- *. cbv [mbind HM_bind hlift optr_add deref or_undef mret HM_ret] in Hp |- *.
  injection Hp as <- Hsz. unfold hread. rewrite Hld. by rewrite Hsz.
Qed.

Definition route_process st (a : header_args) : bool :=
  match ha_destination a with
  | Some d => self_at st d
  | None => ha_one_hop a || negb (seen st (default [] (ha_broadcast a)))
  end.
Definition route_forward st (snd : option nat) (a : header_args) : bool :=
  match ha_destination a with
  | Some _ => ha_one_hop a || match ha_next_hop a with Some n => self_at st n | None => false end
  | None => ha_one_hop a || (negb (seen st (default [] (ha_broadcast a))) && fwd snd)
  end.
Definition route_frame (a : header_args) (f : mdp_frame) : mdp_frame :=
  mf_set_destination (ha_destination a)
    match ha_destination a, ha_one_hop a with
    | None, false => mf_set_broadcast_id (default [] (ha_broadcast a)) f
    | _, _ => f
    end.
Definition route_next (a : header_args) (nh : option nat) : option nat :=
  match ha_destination a, ha_one_hop a with Some _, false => ha_next_hop a | _, _ => nh end.

Lemma read_broadcast (a : header_args) snd c f b p w k st h e rest :
  header_args_ok st a -> wf_node k (subs st) [] (root st) -> length (bpilist st) = 1024%nat ->
  ha_destination a = None ->
  route_enc (subs st) (sender c) (previous c) a e -> ob_ahead h b (e ++ rest) ->
  exists c' st', rd_broadcast (ha_flags snd a) (HS c f b p w) st h =
    Ret ((inr (HS c' (route_frame a f) (set_position (position b + zlen e) b)
                (p && route_process st a) (w && route_forward st (sender c) a)), st'), h) /\
    sender c' = sender c /\ invalid_addresses c' = invalid_addresses c /\ root st' = root st.
Proof.
  intros Ha Hw Hbl Ed He Hah. pose proof Ha as [_ _ _ _ _ Hroute Hbc].
  unfold parse_broadcast, route_enc, route_frame, route_process, route_forward in *.
  rewrite ha_flag_one_hop. rewrite Ed in *.
  destruct (ha_one_hop a) eqn:Eh; cbn [negb orb]; cbn [hs_ctx hs_buffer hs_frame hs_process hs_forward].
  { subst e. rewrite set_position_nil, !andb_true_r. eexists _, _. done. }
  destruct (ha_broadcast a) as [id|] eqn:Ebc.
  2: { unfold ha_one_hop, one_hop in Eh. rewrite Ed, Ebc in Eh. simpl in Eh. destruct Hroute; [done|].
       destruct (Z.eqb_spec (ha_ttl a) 1); done. }
  destruct (Hbc id eq_refl) as [Hlen _]. simpl in He. subst e.
  assert (zlen id = BROADCAST_LEN) as Hz by (unfold zlen, BROADCAST_LEN; lia).
  assert (id <> []) as Hne by (by destruct id).
  pose proof (ob_get_bytes_ahead _ _ _ _ Hne Hah) as Hg.
  erewrite OM_bind_Ret by (rewrite olift_run; unfold overlay_broadcast_parse; rewrite <- Hz, Hg; done).
  cbv beta iota. destruct (drop_check_run id st h Hbl) as (st' & Hd & Hroot & _).
  erewrite OM_bind_Ret by exact Hd. erewrite OM_bind_Ret by apply should_forward.
  exists c, st'. split; [|done]. simpl default. destruct (seen st id), (fwd (sender c)), p, w; done.
Qed.

Lemma read_unicast (a : header_args) snd c f b p w nh k st h e rest d :
  header_args_ok st a -> wf_node k (subs st) [] (root st) -> ha_destination a = Some d ->
  route_enc (subs st) (sender c) (previous c) a e -> ob_ahead h b (e ++ rest) ->
  exists c', rd_unicast (ha_flags snd a) nh (HS c f b p w) st h =
    Ret ((inr (HS c' (route_frame a f) (set_position (position b + zlen e) b)
                (p && route_process st a) (w && route_forward st (sender c) a), route_next a nh), st), h) /\
    sender c' = sender c /\ invalid_addresses c' = invalid_addresses c.
Proof.
  intros Ha Hw Ed He Hah. pose proof Ha as [_ _ _ _ Hkn Hroute _].
  unfold parse_unicast, route_enc, route_frame, route_process, route_forward, route_next in *.
  rewrite ha_flag_one_hop. rewrite Ed in *. destruct He as (e1 & e2 & -> & He1 & He2).
  rewrite <- app_assoc in Hah. cbn [hs_ctx hs_buffer hs_frame hs_process hs_forward].
  erewrite OM_bind_Ret by (eapply parse_encoding; [done|by apply Hkn; left|done..]).
  cbv beta iota. cbn [stored]. change (0 <? 0) with false. cbv iota. cbn [mf_destination mf_set_destination].
  erewrite OM_bind_Ret by (eapply is_self_known; [done|by apply Hkn; left]).
  cbv beta iota. destruct (ha_one_hop a); cbn [negb orb].
  - subst e2. rewrite app_nil_r, andb_true_r. exists (set_previous (Some d) c).
    split; [|done]. destruct (self_at st d), p; done.
  - destruct He2 as (n & En & He2). apply ob_ahead_skip in Hah.
    erewrite OM_bind_Ret by (eapply parse_encoding; [done|by apply Hkn; right|done..]).
    cbv beta iota. cbn [stored]. change (0 <? 0) with false. cbv iota.
    erewrite OM_bind_Ret by (eapply is_self_known; [done|by apply Hkn; right]).
    rewrite En, set_position_twice, <- zlen_app. exists (set_previous (Some n) (set_previous (Some d) c)). split; [|done].
    destruct (self_at st d), (self_at st n), p, w; done.
Qed.

(** *** The rest of the header *)

Lemma ttl_byte_ttl a : 0 <= ha_ttl a <= PAYLOAD_TTL_MAX -> Z.land (ttl_byte a) 0x1F = ha_ttl a.
Proof.
  unfold PAYLOAD_TTL_MAX, ttl_byte. intros Ht.
  rewrite Z.lor_comm, Z.shiftl_mul_pow2, lor_mul_pow2_r by lia. change 0x1F with (Z.ones 5).
  rewrite Z.land_ones, Z.add_comm, Z.mod_add by lia. apply Z.mod_small. lia.
Qed.

Lemma ttl_byte_queue a :
  0 <= ha_ttl a <= PAYLOAD_TTL_MAX -> Z.land (Z.shiftr (ttl_byte a) 5) 3 = Z.land (ha_queue a) 3.
Proof.
  unfold PAYLOAD_TTL_MAX, ttl_byte. intros Ht.
  rewrite Z.lor_comm, Z.shiftl_mul_pow2, lor_mul_pow2_r by lia.
  rewrite Z.shiftr_div_pow2, Z.add_comm, Z.div_add, Z.div_small, Z.add_0_l by lia.
  by rewrite <- Z.land_assoc.
Qed.

Definition read_ttl_of (a : header_args) : Z := if ha_one_hop a then 0 else Z.max 0 (ha_ttl a - 1).
Definition queue_of (a : header_args) (old : Z) : Z := if ha_one_hop a then old else Z.land (ha_queue a) 3.

Lemma read_ttl (a : header_args) snd c f b p w st h rest :
  header_args_ok st a -> ob_ahead h b ((if ha_one_hop a then [] else [ttl_byte a]) ++ rest) ->
  exists f', parse_ttl (ha_flags snd a) (HS c f b p w) st h =
    Ret ((inr (HS c f' (set_position (position b + zlen (if ha_one_hop a then [] else [ttl_byte a])) b)
                p (w && negb (read_ttl_of a =? 0))), st), h) /\
    f' = mf_set_ttl (read_ttl_of a) (mf_set_queue (queue_of a (mf_queue f)) f).
Proof.
  intros [Ht _ _ _ _ _ _] Hah. unfold parse_ttl, read_ttl_of, queue_of. rewrite ha_flag_one_hop.
  destruct (ha_one_hop a); cbn [hs_ctx hs_buffer hs_frame hs_process hs_forward].
  - erewrite OM_bind_Ret by done. rewrite set_position_nil, andb_false_r.
    eexists. split; [done|]. by destruct f.
  - destruct (get_ahead _ _ _ st _ Hah) as [Hg _].
    erewrite OM_bind_Ret; swap 1 2.
    { erewrite OM_bind_Ret by exact Hg. cbv beta iota.
      rewrite (proj2 (Z.ltb_ge _ _)) by (by apply ttl_byte_range). done. }
    cbv beta iota. rewrite ttl_byte_ttl, ttl_byte_queue by done. cbn [mf_ttl mf_set_queue mf_set_ttl].
    change (zlen [_]) with 1. cbv zeta.
    destruct (Z.eqb_spec (ha_ttl a) 0) as [E0|]; cbn [negb].
    + rewrite E0. eexists. split; [by rewrite andb_false_r|]. done.
    + rewrite Z.max_r by lia. cbn [mf_ttl mf_set_queue mf_set_ttl].
      destruct (Z.eqb_spec (ha_ttl a - 1) 0); eexists; (split; [|done]); cbn [negb];
        by rewrite ?andb_false_r, ?andb_true_r.
Qed.

Lemma read_type (a : header_args) snd c f b p w st h rest :
  header_args_ok st a ->
  ob_ahead h b ((if negb (ha_type a =? OF_TYPE_DATA) then [ha_type a] else []) ++ rest) ->
  parse_type (ha_flags snd a) (HS c f b p w) st h =
  Ret ((inr (HS c (mf_set_type (ha_type a) f)
          (set_position (position b + zlen (if negb (ha_type a =? OF_TYPE_DATA) then [ha_type a] else [])) b)
          p w), st), h).
Proof.
  intros [_ [Ht _] _ _ _ _ _] Hah. unfold parse_type. rewrite ha_flag_type.
  destruct (Z.eqb_spec (ha_type a) OF_TYPE_DATA) as [E|]; cbn [negb];
    cbn [hs_ctx hs_buffer hs_frame hs_process hs_forward].
  - by rewrite set_position_nil, E.
  - destruct (get_ahead _ _ _ st _ Hah) as [Hg _]. erewrite OM_bind_Ret by exact Hg. cbv beta iota.
    by rewrite (proj2 (Z.eqb_neq _ _)) by lia.
Qed.

Definition fresh (snd : option nat) (a : header_args) : bool :=
  negb ((1 <=? ha_version a) && dup snd (ha_sequence a)).

Lemma read_seq (a : header_args) c f b p w st h rest :
  header_args_ok st a ->
  ob_ahead h b ((if 1 <=? ha_version a then [ha_sequence a] else []) ++ rest) ->
  parse_seq link_received_duplicate (ha_version a) (HS c f b p w) st h =
  Ret ((inr (HS c f (set_position (position b + zlen (if 1 <=? ha_version a then [ha_sequence a] else [])) b)
          (p && fresh (sender c) a) (w && fresh (sender c) a)), st), h).
Proof.
  intros [_ _ [Hs _] _ _ _ _] Hah. unfold parse_seq, fresh.
  destruct (1 <=? ha_version a); cbn [hs_ctx hs_buffer hs_frame hs_process hs_forward].
  - destruct (get_ahead _ _ _ st _ Hah) as [Hg _]. erewrite OM_bind_Ret by exact Hg. cbv beta iota.
    rewrite (proj2 (Z.eqb_neq _ _)) by lia. erewrite OM_bind_Ret by apply received_duplicate.
    by destruct (dup _ _), p, w.
  - simpl negb. by rewrite set_position_nil, !andb_true_r.
Qed.

Lemma obind_inr {A B} (m : OM (decode_context + A)) (kk : A -> OM (decode_context + B)) x st h st' h' :
  m st h = Ret ((inr x, st'), h') -> obind m kk st h = kk x st' h'.
Proof. intros Hm. unfold obind. by erewrite OM_bind_Ret by exact Hm. Qed.

Definition process_ok st (snd : option nat) (a : header_args) : bool :=
  source_ok st snd a && route_process st a && fresh snd a.
Definition forward_ok st (snd : option nat) (a : header_args) : bool :=
  source_ok st snd a && route_forward st snd a && negb (read_ttl_of a =? 0) && fresh snd a.
Definition decision_of (forward process : bool) : Z :=
  Z.lor (if forward then HEADER_FORWARD else 0) (if process then HEADER_PROCESS else 0).

Abbreviation read_header :=
  (parseMdpPacketHeader sizeof_subscriber sizeof_tree_node sizeof_overlay_frame clock
     link_state_should_forward_broadcast link_received_duplicate).

(** The frame a reader makes of a header. *)
Definition frame_of (snd : option nat) (a : header_args) (f : mdp_frame) : mdp_frame :=
  let f := route_frame a (mf_set_source (Some (ha_source a)) f) in
  let f := mf_set_ttl (read_ttl_of a) (mf_set_queue (queue_of a (mf_queue f)) f) in
  mf_set_end (ha_flags snd a) (ha_version a) (mf_set_type (ha_type a) f).

Lemma read_route (a : header_args) snd c f b p w nh k st h e rest :
  header_args_ok st a -> wf_node k (subs st) [] (root st) -> length (bpilist st) = 1024%nat ->
  route_enc (subs st) (sender c) (previous c) a e -> ob_ahead h b (e ++ rest) ->
  exists c' st',
    (if has (ha_flags snd a) PAYLOAD_FLAG_TO_BROADCAST
     then obind (rd_broadcast (ha_flags snd a) (HS c f b p w)) (fun s => mret (inr (s, nh)))
     else rd_unicast (ha_flags snd a) nh (HS c f b p w)) st h =
    Ret ((inr (HS c' (route_frame a f) (set_position (position b + zlen e) b)
                (p && route_process st a) (w && route_forward st (sender c) a), route_next a nh), st'), h) /\
    sender c' = sender c /\ invalid_addresses c' = invalid_addresses c /\ root st' = root st.
Proof.
  intros Ha Hw Hbl He Hah. rewrite ha_flag_broadcast. destruct (ha_destination a) as [d|] eqn:Ed; cbn [is_none].
  - edestruct (read_unicast a snd c f b p w nh) as (c' & Hr & ? & ?); [done..|]. by eexists _, _.
  - edestruct (read_broadcast a snd c f b p w) as (c' & st' & Hr & ? & ? & ?); [done..|].
    exists c', st'. split; [|done]. erewrite obind_inr by exact Hr.
    unfold route_next. by rewrite Ed.
Qed.

(** An encoding of a header is read as such. *)
Lemma read_encoding (a : header_args) pc f b k st h e rest nh :
  header_args_ok st a -> wf_node k (subs st) [] (root st) -> length (bpilist st) = 1024%nat ->
  packet_version pc = ha_version a -> invalid_addresses (ctx pc) = 0 ->
  header_enc (subs st) (sender (ctx pc)) (previous (ctx pc)) a e -> ob_ahead h b (e ++ rest) ->
  exists c' st', read_header pc f b nh st h =
    Ret ((inr (decision_of (forward_ok st (sender (ctx pc)) a) (process_ok st (sender (ctx pc)) a),
               pc_set_ctx c' pc, frame_of (sender (ctx pc)) a f, set_position (position b + zlen e) b,
               route_next a nh), st'), h).
Proof.
  intros Ha Hw Hbl Hv Hinv (e1 & e2 & -> & He1 & He2) Hah. unfold parseMdpPacketHeader.
  simpl in Hah. rewrite <- !app_assoc in Hah. destruct (get_ahead _ _ _ st _ Hah) as [Hg Hah1].
  erewrite OM_bind_Ret by exact Hg. cbv beta iota.
  rewrite (proj2 (Z.ltb_ge _ _)) by (apply the_flags_byte).
  erewrite obind_inr by (by eapply read_source). apply ob_ahead_skip in Hah1.
  set (c1 := if ha_same _ _ then _ else _).
  assert (sender c1 = sender (ctx pc) /\ invalid_addresses c1 = invalid_addresses (ctx pc) /\
          previous c1 = if ha_same (sender (ctx pc)) a then previous (ctx pc) else Some (ha_source a))
    as (Hs1 & Hi1 & Hpr1) by (subst c1; by destruct (ha_same _ _)).
  edestruct (read_route a (sender (ctx pc)) c1) as (c2 & st2 & Hr2 & Hs2 & Hi2 & Hroot2);
    [done|done|done|by rewrite Hs1, Hpr1|exact Hah1|].
  erewrite obind_inr by exact Hr2. cbv beta iota. apply ob_ahead_skip in Hah1.
  apply (header_args_ok_root _ _ _ Hroot2) in Ha as Ha2. unfold tail_bytes in *. rewrite <- !app_assoc in Hah1.
  edestruct (read_ttl a (sender (ctx pc)) c2) as (f3 & Hr3 & Hf3); [done|exact Hah1|].
  erewrite obind_inr by exact Hr3. apply ob_ahead_skip in Hah1.
  erewrite obind_inr by (by eapply read_type). apply ob_ahead_skip in Hah1. rewrite Hv.
  erewrite obind_inr by (by eapply read_seq).
  eexists c2, st2. cbn [hs_ctx hs_buffer hs_frame hs_process hs_forward].
  rewrite Hi2, Hi1, Hinv, Hs2, Hs1, zlen_cons, !zlen_app. cbn [Z.eqb].
  rewrite !andb_true_r, !set_position_twice, Hf3. done.
Qed.
End packet_reader.

(** ** Whole frames *)
Section frames.
Context {AR : Arch} {AL : Allocator}.
Implicit Types (h : heap) (b : overlay_buffer) (st : oa_state).

Lemma ob_put_full h b vs b' h' :
  heap_ok h -> ob_wf h b -> Forall is_byte vs -> vs <> [] -> position b + zlen vs <= SSIZE_MAX ->
  ob_put b vs h = Ret (b', h') ->
  append_end h b vs h' b' /\ checkpointLength b' = checkpointLength b /\
  forall i blk, h !! i = Some blk -> (forall o, ob_bytes b <> Some (i, o)) -> h' !! i = Some blk.
Proof.
  intros Hh Hw Hvs Hne Hmax Hr. pose proof (ob_put_cases _ _ _ _ _ Hh Hw Hvs Hne Hmax Hr) as [Hb].
  split; [by apply ob_put_cases|]. destruct (has_room h b (zlen vs)) eqn:Hroom.
  - destruct (ob_put_room h b vs) as (b1 & h1 & Hr1 & Hap); auto. rewrite Hr1 in Hr. simplify_eq.
    destruct Hap as [_ _ _ _ Hc _ _ Hf]. split; [done|]. intros i blk Hi Ho.
    apply (fr_blocks _ _ _ _ Hf i blk Hi). intros [o E]. by apply (Ho o).
  - destruct (ob_put_overrun h b vs) as (Hr1 & _); auto. rewrite Hr1 in Hr. by simplify_eq.
Qed.

(** A full buffer overruns with the first byte. *)
Lemma full_overrun h b x st :
  heap_ok h -> ob_wf h b -> in_bounds b -> position b = sizeLimit b -> position b < SSIZE_MAX ->
  is_byte x -> exists b', olift (ob_append_byte b x) st h = Ret ((b', st), h) /\ ~ in_bounds b'.
Proof.
  intros Hh Hw Hb Hfull Hmax Hx.
  destruct (ob_put_overrun h b [x]) as (Hr & _); [done..|change (zlen [x]) with 1; lia| |].
  { unfold has_room. change (zlen [x]) with 1. rewrite Hfull.
    rewrite (proj2 (Z.leb_gt _ _)) by lia. done. }
  exists (set_position (position b + zlen [x]) b). split.
  - rewrite olift_run. unfold ob_append_byte. by rewrite uN_small, Hr by exact Hx.
  - intros [Hb1 _]. change (zlen [x]) with 1 in Hb1. simpl in Hb1. lia.
Qed.

Lemma append_byte_out b x st h : ~ in_bounds b -> olift (ob_append_byte b x) st h = Abort.
Proof. intros Hb. rewrite olift_run. unfold ob_append_byte. by rewrite ob_put_out_of_bounds. Qed.

Lemma append_address_out c b k p st h :
  wf_node k (subs st) [] (root st) -> p ∈ known st -> point_to_point_device c = None -> ~ in_bounds b ->
  append_address c b (Some p) st h = Abort.
Proof.
  intros [_ Hn] (i & sl & Hi & Hpi)%elem_of_flat_map_slots Hpp Hb.
  destruct (wf_slot_sub _ _ _ _ _ (Hn i sl Hi) Hpi) as (s & Hs & _).
  unfold append_address, overlay_address_append. rewrite OM_bind_run. erewrite OM_bind_Ret by done.
  erewrite OM_bind_Ret by (unfold sub_get; rewrite Hs; done).
  erewrite OM_bind_Ret by done. cbn [is_ctx]. rewrite Hpp, same_sub_None.
  erewrite OM_bind_Ret by (rewrite p2p_me_none by done; done). cbv beta iota. rewrite OM_bind_run.
  destruct (same_sub p (sender c)); [by rewrite append_byte_out|].
  destruct (same_sub p (previous c)); [by rewrite append_byte_out|].
  destruct (negb (send_full s =? 0)); erewrite OM_bind_Ret by done; by rewrite OM_bind_run, append_byte_out.
Qed.

(** The arguments [overlay_frame_append_payload] passes on. *)
Definition frame_args (p : mdp_frame) (src : nat) (next_hop : option nat) (wr : bool) : header_args :=
  HArgs (mf_packet_version p) (mf_queue p) (mf_type p) (mf_modifiers p) wr (mf_ttl p)
    (Z.land (mf_sequence p) 0xFF)
    (if is_none (mf_destination p) && negb (forallb (fun x => x =? 0) (mf_broadcast_id p))
     then Some (mf_broadcast_id p) else None)
    next_hop (mf_destination p) src.

Lemma ob_checkpoint_wf h b : ob_wf h b -> ob_wf h (ob_checkpoint b).
Proof. intros []. by split. Qed.

(** An append whose caller appends again or checks for overrun. *)
Lemma append_end_appended h b vs h' b' :
  append_end h b vs h' b' -> in_bounds b' \/ ob_overrun b' = false -> appended h b vs h' b'.
Proof. intros [_ _ _ _ [?|[? ?]]] [|]; [done..|congruence]. Qed.

(** The payload, which lies in memory of its own. *)
Lemma payload_cases pl q blk b st h b' st' h' :
  heap_ok h -> ob_wf h b -> position b + position pl <= SSIZE_MAX ->
  ob_bytes pl = Some q -> h !! q.1 = Some blk -> 0 <= q.2 -> 0 <= position pl ->
  q.2 + position pl <= zlen blk ->
  (if negb (position pl =? 0)
   then bytes ← olift (payload_bytes pl); olift (ob_append_bytes b bytes) else mret b) st h
    = Ret ((b', st'), h') ->
  st' = st /\ adds h b (slice q.2 (position pl) blk) h' b' /\ checkpointLength b' = checkpointLength b.
Proof.
  intros Hh Hw Hmax Hq Hblk ? ? ? Hr. pose proof (zlen_slice q.2 (position pl) blk) as Hz.
  destruct (Z.eqb_spec (position pl) 0) as [E|]; cbn [negb] in Hr.
  { cbv [mret OM_ret HM_ret] in Hr. simplify_eq. rewrite E. split_and!; [done| |done].
    apply adds_nil. }
  assert (payload_bytes pl h = Ret (slice q.2 (position pl) blk, h)) as Hb.
  { unfold payload_bytes. rewrite Hq. unfold hread, mbind, HM_bind. simpl.
    by erewrite load_bytes_ok by done. }
  erewrite OM_bind_Ret in Hr by (rewrite olift_run, Hb; done).
  assert (slice q.2 (position pl) blk <> []) as Hne.
  { intros E. rewrite E in Hz. change (zlen (@nil Z)) with 0 in Hz. lia. }
  rewrite olift_run, ob_append_bytes_put in Hr by done.
  destruct (ob_put b _ h) as [[b1 h1]| |] eqn:E1; try done. simplify_eq.
  apply ob_put_full in E1 as (Hae & Hc & _); [|done|done| |done|lia].
  - split_and!; [done|by right|done].
  - apply Forall_take, Forall_drop. by apply (Hh _ _ Hblk).
Qed.

Lemma append_payload_unfold c encap p src nh b wr st h :
  mf_source p = Some src ->
  overlay_frame_append_payload c encap p nh b wr st h =
  ('(r, c, b) ← build_header (frame_args p src nh wr) c (ob_checkpoint b);
   if r =? -1 then mret (-1, c, ob_rewind b)
   else
    payload ← oout (or_undef (mf_payload p));
    b ← (if encap =? ENCAP_OVERLAY then olift (ob_append_ui16 b (position payload)) else mret b);
    b ← (if negb (position payload =? 0)
         then bytes ← olift (payload_bytes payload); olift (ob_append_bytes b bytes) else mret b);
    if negb (ob_overrun b) then mret (0, c, b) else mret (-1, c, ob_rewind b)) st h.
Proof.
  intros Hsrc. unfold overlay_frame_append_payload, build_header, frame_args. cbv zeta.
  rewrite Hsrc. done.
Qed.

(** A header in a buffer that is already full: the write stops at the first
    append after the flags, or the buffer is left out of bounds. *)
Lemma build_full (a : header_args) c b st h :
  oa_wf st -> header_args_ok st a -> point_to_point_device c = None ->
  heap_ok h -> ob_wf h b -> in_bounds b -> position b = sizeLimit b -> position b < SSIZE_MAX ->
  build_header a c b st h = Abort \/
  exists c' b', build_header a c b st h = Ret ((0, c', b', st), h) /\ ~ in_bounds b'.
Proof.
  intros Hw Ha Hpp Hh Hwb Hb Hfull Hmax. pose proof Ha as [Ht _ _ Hsrc Hkn Hroute Hbc].
  unfold build_header, overlay_frame_build_header.
  rewrite (proj2 (Z.ltb_ge _ _)), (proj2 (Z.ltb_ge _ _)) by lia. cbn [orb]. cbv zeta.
  change (header_flags _ _ _ _ _ _ _ _ _) with (ha_flags (sender c) a).
  destruct (full_overrun h b (ha_flags (sender c) a) st) as (b1 & Hr & Hnb); auto; [apply the_flags_byte|].
  erewrite OM_bind_Ret by exact Hr.
  rewrite !ha_flag_same, !ha_flag_broadcast, !ha_flag_one_hop, !ha_flag_type.
  destruct (ha_same (sender c) a); cbn [negb].
  2: { left. rewrite OM_bind_run. by erewrite append_address_out. }
  erewrite OM_bind_Ret by done. cbv beta iota.
  destruct (ha_destination a) as [d|] eqn:Ed; cbn [is_none].
  { left. rewrite OM_bind_run, OM_bind_run. erewrite append_address_out; [done|exact Hw| |done..].
    apply Hkn; by left. }
  destruct (ha_one_hop a) eqn:Eh; cbn [negb].
  2: { left. destruct (ha_broadcast a) as [id|] eqn:Ebc.
       - rewrite OM_bind_run. erewrite OM_bind_Ret by done. rewrite OM_bind_run, olift_run.
         destruct (Hbc id eq_refl) as [Hl _]. unfold overlay_broadcast_append.
         rewrite ob_append_bytes_put by (by destruct id). by rewrite ob_put_out_of_bounds.
       - unfold ha_one_hop, one_hop in Eh. rewrite Ed, Ebc in Eh. destruct Hroute as [|E1]; [done|].
         by rewrite E1 in Eh. }
  erewrite OM_bind_Ret by done. cbv beta iota. erewrite OM_bind_Ret by done.
  destruct (negb (ha_type a =? OF_TYPE_DATA)).
  { left. by rewrite OM_bind_run, append_byte_out. }
  erewrite OM_bind_Ret by done. destruct (1 <=? ha_version a).
  { left. by rewrite OM_bind_run, append_byte_out. }
  right. by eexists _, _.
Qed.
End frames.

(** ** Decisions on any header *)
Section decisions.
Context {AR : Arch}.
Implicit Types (h : heap) (b : overlay_buffer) (st : oa_state).

Lemma obind_Ret {A B} (m : OM (decode_context + A)) (k : A -> OM (decode_context + B)) st h x st' h' :
  obind m k st h = Ret ((inr x, st'), h') ->
  exists a st1 h1, m st h = Ret ((inr a, st1), h1) /\ k a st1 h1 = Ret ((inr x, st'), h').
Proof.
  intros Hr. unfold obind in Hr. rewrite OM_bind_run in Hr.
  destruct (m st h) as [[[[c|a] st1] h1]| |]; try done. by eexists _, _, _.
Qed.

Lemma ttl_range x : 0 <= Z.land x 0x1F <= 31.
Proof.
  pose proof (Z.land_ones x 5 ltac:(lia)) as E. change (Z.ones 5) with 0x1F in E. rewrite E.
  pose proof (Z.mod_pos_bound x (2 ^ 5)). change (2 ^ 5) with 32 in *. lia.
Qed.

Lemma parse_ttl_fwd flags s st h s' st' h' :
  parse_ttl flags s st h = Ret ((inr s', st'), h') ->
  hs_forward s' = true -> 1 <= mf_ttl (hs_frame s') <= 30.
Proof.
  intros Hr Hf. unfold parse_ttl in Hr. destruct (has flags PAYLOAD_FLAG_ONE_HOP).
  { erewrite OM_bind_Ret in Hr by done. cbv [mret OM_ret HM_ret] in Hr. by simplify_eq. }
  rewrite OM_bind_run, OM_bind_run in Hr.
  destruct (olift (ob_get (hs_buffer s)) st h) as [[[[x b] st1] h1]| |]; try done.
  destruct (x <? 0); cbv [mret OM_ret HM_ret] in Hr; [done|]. simplify_eq. simpl in Hf |- *.
  pose proof (ttl_range x). destruct (Z.eqb_spec (Z.land x 31) 0) as [E|]; simpl in Hf |- *; [by rewrite E in Hf|].
  destruct (Z.eqb_spec (Z.land x 31 - 1) 0); [done|]. lia.
Qed.

Lemma parse_type_fwd flags s st h s' st' h' :
  parse_type flags s st h = Ret ((inr s', st'), h') ->
  mf_ttl (hs_frame s') = mf_ttl (hs_frame s) /\ (hs_forward s' = true -> hs_forward s = true).
Proof.
  intros Hr. unfold parse_type in Hr. destruct (has flags PAYLOAD_FLAG_LEGACY_TYPE).
  - rewrite OM_bind_run in Hr.
    destruct (olift (ob_get (hs_buffer s)) st h) as [[[[x b] st1] h1]| |]; try done.
    destruct (x =? -1); cbv [mret OM_ret HM_ret] in Hr; [done|]. by simplify_eq.
  - cbv [mret OM_ret HM_ret] in Hr. by simplify_eq.
Qed.

Lemma parse_seq_fwd dup v s st h s' st' h' :
  parse_seq dup v s st h = Ret ((inr s', st'), h') ->
  mf_ttl (hs_frame s') = mf_ttl (hs_frame s) /\ (hs_forward s' = true -> hs_forward s = true).
Proof.
  intros Hr. unfold parse_seq in Hr. destruct (1 <=? v).
  - rewrite OM_bind_run in Hr.
    destruct (olift (ob_get (hs_buffer s)) st h) as [[[[x b] st1] h1]| |]; try done.
    destruct (x =? -1); [done|]. rewrite OM_bind_run in Hr.
    destruct (dup _ _ _ _) as [[[[] st2] h2]| |]; try done; cbv [mret OM_ret HM_ret] in Hr; by simplify_eq.
  - cbv [mret OM_ret HM_ret] in Hr. by simplify_eq.
Qed.
End decisions.


(** ** Properties *)
Section packet_properties.
Context {AR : Arch} {AL : Allocator}.
Context (sizeof_subscriber sizeof_tree_node sizeof_overlay_frame : Z) (clock : nat -> Z).
Context (link_state_should_forward_broadcast : option nat -> OM bool)
        (link_received_duplicate : option nat -> Z -> OM bool).
Implicit Types (h : heap) (b : overlay_buffer) (st : oa_state).

(** C6: frame headers round trip, as far as they carry the frame.  A header
    built in a context without a point-to-point device that fitted into the
    packet is read back, by a reader with the same sender and previous address,
    up to its last byte and no further.  The source, the destination, the type,
    the flags and the version are those written, the hop count is one less, and
    the next hop is the one written.  Of the queue only the low two bits travel,
    and neither queue nor broadcast id travel in a frame for one hop, nor the id
    in one with a destination: there the reader's frame keeps what it held.  The
    sequence number travels but is not stored: it goes to the check for
    duplicates with the sender.  The frame is processed when it is for this node
    or a broadcast not seen before, forwarded when hops are left and this node is
    the next hop or forwards broadcasts of the sender, and neither when it comes
    from this node or was received before. *)
Theorem frame_header_roundtrip fwd dup a pc c b st h r c' b' st' h' f nh :
  (forall p st h, link_state_should_forward_broadcast p st h = Ret ((fwd p, st), h)) ->
  (forall p n st h, link_received_duplicate p n st h = Ret ((dup p n, st), h)) ->
  oa_wf st -> header_args_ok st a -> point_to_point_device c = None ->
  heap_ok h -> ob_wf h b -> in_bounds b -> position b + 128 <= SSIZE_MAX ->
  build_header a c b st h = Ret ((r, c', b', st'), h') -> ob_overrun b' = false ->
  length (bpilist st') = 1024%nat ->
  packet_version pc = ha_version a -> invalid_addresses (ctx pc) = 0 ->
  sender (ctx pc) = sender c -> previous (ctx pc) = previous c ->
  r = 0 /\ exists c3 st3 b3 f3,
    parseMdpPacketHeader sizeof_subscriber sizeof_tree_node sizeof_overlay_frame clock
      link_state_should_forward_broadcast link_received_duplicate
      pc f (set_position (position b) b') nh st' h' =
    Ret ((inr (decision_of (forward_ok fwd dup st' (sender c) a) (process_ok dup st' (sender c) a),
               pc_set_ctx c3 pc, f3, b3, route_next a nh), st3), h') /\
    position b3 = position b' /\
    mf_source f3 = Some (ha_source a) /\ mf_destination f3 = ha_destination a /\
    mf_type f3 = ha_type a /\ mf_modifiers f3 = ha_flags (sender c) a /\
    mf_packet_version f3 = ha_version a /\
    mf_ttl f3 = (if ha_one_hop a then 0 else Z.max 0 (ha_ttl a - 1)) /\
    mf_queue f3 = (if ha_one_hop a then mf_queue f else ha_queue a mod 4) /\
    Some (mf_broadcast_id f3) =
      (if ha_one_hop a then Some (mf_broadcast_id f)
       else match ha_destination a with
            | None => ha_broadcast a
            | Some _ => Some (mf_broadcast_id f)
            end) /\
    mf_sequence f3 = mf_sequence f /\ mf_payload f3 = mf_payload f.
Proof.
  intros Hfwd Hdup Hw Ha Hpp Hh Hwb Hb Hmax Hr Hov Hbl Hv Hinv Hs Hp.
  destruct (build_cases a c b 2 st h r c' b' st' h') as (-> & e & Hroot & Hids & He & _ & Had); auto.
  split; [done|].
  assert (e <> []) as Hne by (by destruct He as (? & ? & -> & _)).
  pose proof (adds_appended _ _ _ _ _ Had Hne Hov) as Hap. pose proof Hap as [_ _ _ Hpos _ _ _ _].
  assert (wf_node 2 (subs st') [] (root st')) as Hw' by (rewrite Hroot; by eapply wf_node_ids).
  apply (header_args_ok_root _ _ _ Hroot) in Ha as Ha'.
  destruct (read_encoding sizeof_subscriber sizeof_tree_node sizeof_overlay_frame clock
              _ _ fwd dup Hfwd Hdup a pc f (set_position (position b) b') 2 st' h' e [] nh)
    as (c3 & st3 & Hrd); auto.
  { by rewrite Hs, Hp. }
  { rewrite app_nil_r. by eapply appended_ahead. }
  rewrite Hs in Hrd. eexists c3, st3, _, _. split; [exact Hrd|].
  split_and!; try done; try (by unfold frame_of, route_frame; repeat case_match).
  - unfold frame_of, queue_of, route_frame.
    destruct (ha_one_hop a); [by repeat case_match|]. by rewrite <- (Z.land_ones _ 2).
  - unfold frame_of, route_frame. destruct Ha as [_ _ _ _ _ Hroute _]. unfold ha_one_hop, one_hop in *.
    destruct (ha_destination a); [by repeat case_match|].
    destruct (ha_broadcast a); [by repeat case_match|]. destruct Hroute as [|Ht]; [done|].
    by rewrite Ht.
Qed.

(** A frame whose header does not fit is not rewound.  When the packet is
    exactly full, adding another frame to it overruns it with the flags byte,
    and the next append fails an assertion: the daemon stops, instead of
    leaving the frame for the next packet. *)
Theorem frame_append_full_aborts p src nh c b wr st h payload :
  oa_wf st -> mf_source p = Some src -> header_args_ok st (frame_args p src nh wr) ->
  mf_payload p = Some payload -> point_to_point_device c = None ->
  heap_ok h -> ob_wf h b -> in_bounds b -> position b = sizeLimit b -> position b < SSIZE_MAX ->
  overlay_frame_append_payload c ENCAP_OVERLAY p nh b wr st h = Abort.
Proof.
  intros Hw Hsrc Ha Hpl Hpp Hh Hwb Hb Hfull Hmax.
  rewrite (append_payload_unfold _ _ _ src) by done. rewrite OM_bind_run.
  destruct (build_full (frame_args p src nh wr) c (ob_checkpoint b) st h) as [->|(c' & b' & -> & Hnb)];
    auto using ob_checkpoint_wf.
  change (0 =? -1) with false. cbv iota. erewrite OM_bind_Ret by (rewrite Hpl; done).
  change (ENCAP_OVERLAY =? ENCAP_OVERLAY) with true. cbv iota.
  rewrite OM_bind_run, olift_run. unfold ob_append_ui16. by rewrite ob_put_out_of_bounds.
Qed.

(** A frame is added whole or not at all.  When adding a frame to a packet
    returns 0, the bytes added are an encoding of its header, the length of its
    payload and the payload; when it returns -1 the packet is as long as
    before. *)
Theorem frame_append_whole p src nh c b wr st h payload q blk r c' b' st' h' :
  oa_wf st -> mf_source p = Some src -> header_args_ok st (frame_args p src nh wr) ->
  point_to_point_device c = None -> heap_ok h -> ob_wf h b -> in_bounds b ->
  mf_payload p = Some payload -> ob_bytes payload = Some q -> h !! q.1 = Some blk ->
  (forall o, ob_bytes b <> Some (q.1, o)) ->
  0 <= q.2 -> 0 <= position payload -> q.2 + position payload <= zlen blk ->
  position b + 130 + position payload <= SSIZE_MAX ->
  overlay_frame_append_payload c ENCAP_OVERLAY p nh b wr st h = Ret ((r, c', b', st'), h') ->
  r = 0 /\ (exists e, header_enc (subs st') (sender c) (previous c) (frame_args p src nh wr) e /\
    ob_contents h' b' = ob_contents h b ++ e ++ be_bytes 2 (position payload)
                          ++ slice q.2 (position payload) blk) \/
  r = -1 /\ position b' = position b.
Proof.
  intros Hw Hsrc Ha Hpp Hh Hwb Hb Hpl Hq Hblk Hsep Hq0 Hp0 Hpl2 Hmax Hr.
  rewrite (append_payload_unfold _ _ _ src) in Hr by done. rewrite OM_bind_run in Hr.
  destruct (build_header _ _ _ _ _) as [[[[[r1 c1] b1] st1] h1]| |] eqn:E1; try done.
  pose proof (ob_checkpoint_wf _ _ Hwb) as Hwc.
  eapply build_cases in E1 as (-> & e & Hroot & Hids & He & Hz & Had); [|done..|simpl; lia].
  assert (e <> []) as Hne by (by destruct He as (? & ? & -> & _)).
  change (0 =? -1) with false in Hr. cbv iota in Hr. erewrite OM_bind_Ret in Hr by (rewrite Hpl; done).
  change (ENCAP_OVERLAY =? ENCAP_OVERLAY) with true in Hr. cbv iota in Hr.
  rewrite OM_bind_run, olift_run in Hr.
  destruct (adds_ok _ _ _ _ _ Hh Hwc Had) as (Hh1 & Hw1 & Hp1). simpl in Hp1.
  destruct (ob_append_ui16 b1 (position payload) h1) as [[b2 h2]| |] eqn:E2; try done.
  change (ob_append_ui16 b1 (position payload) h1) with (append_run (AUi16 (position payload)) b1 h1) in E2.
  rewrite append_run_put in E2 by done.
  simpl append_enc in E2. assert (zlen (be_bytes 2 (position payload)) = 2) as Hz2 by done.
  apply ob_put_full in E2 as (Hae2 & Hc2 & Hf2);
    [|done|done|apply be_bytes_range|done|rewrite Hz2; lia].
  pose proof Hae2 as [Hb1 Hh2 Hw2 Hp2 _]. rewrite Hz2 in Hp2.
  assert (appended h (ob_checkpoint b) e h1 b1) as Hap1.
  { destruct Had as [(-> & _)|Had]; [done|]. by apply append_end_appended; [|left]. }
  pose proof Hap1 as [_ _ _ _ Hc1 _ Hcon1 Hf1].
  rewrite OM_bind_run in Hr.
  match type of Hr with match ?m with _ => _ end = _ => destruct m as [[[b3 st3] h3]| |] eqn:E3 end; try done.
  destruct (fr_blocks _ _ _ _ Hf1 q.1 blk Hblk) as [Hblk1 Hsep1]; [intros [o E]; by apply (Hsep o)|].
  assert (forall o, ob_bytes b1 <> Some (q.1, o)) as Hsep1' by (intros o E; apply Hsep1; by exists o).
  pose proof (Hf2 _ _ Hblk1 Hsep1') as Hblk2.
  eapply payload_cases in E3 as (-> & Had3 & Hc3); [|done|done|lia|done..].
  set (data := slice q.2 (position payload) blk) in *.
  destruct (ob_overrun b3) eqn:Eo; cbn [negb] in Hr; cbv [mret OM_ret HM_ret] in Hr; simplify_eq.
  { right. split; [done|]. simpl. by rewrite Hc3, Hc2, Hc1. }
  left. split; [done|]. exists e. split; [done|].
  assert (adds h1 b1 (be_bytes 2 (position payload) ++ data) h' b') as Had4
    by (eapply adds_trans; [by right|done]).
  apply adds_appended in Had4; [|done|done]. destruct Had4 as [_ _ _ _ _ _ Hcon _].
  rewrite Hcon, Hcon1, <- !app_assoc. done.
Qed.
End packet_properties.

(** ** Witnesses *)

Definition demo_args : header_args := HArgs 1 4 0x50 0x30 false 5 7 None (Some 0%nat) (Some 1%nat) 0.
Definition demo_pcontext : packet_context := PContext context_zero 1 ENCAP_OVERLAY 0.
Definition demo_forward (p : option nat) : OM bool := mret true.
Definition demo_duplicate (p : option nat) (n : Z) : OM bool := mret false.

Lemma demo_known p : p = 0%nat \/ p = 1%nat -> p ∈ known demo_oa.
Proof.
  change (known demo_oa) with [0%nat; 1%nat]. intros [-> | ->].
  - apply list_elem_of_here.
  - apply list_elem_of_further, list_elem_of_here.
Qed.

Lemma demo_args_ok : header_args_ok demo_oa demo_args.
Proof.
  split; simpl; try done.
  - by apply demo_known; left.
  - intros p [E|E]; simplify_eq; apply demo_known; auto.
Qed.

(** The queue 4 comes back as 0. *)
Lemma frame_header_roundtrip_witness :
  exists c' b' st' h' c3 st3 b3 f3,
    @build_header LP64 demo_alloc demo_args context_zero demo_buffer demo_oa demo_heap =
      Ret ((0, c', b', st'), h') /\
    @parseMdpPacketHeader LP64 demo_alloc 168 136 400 (fun _ => 0) demo_forward demo_duplicate demo_pcontext
      frame_init (set_position 0 b') None st' h' =
      Ret ((inr (0, pc_set_ctx c3 demo_pcontext, f3, b3, Some 0%nat), st3), h') /\
    mf_ttl f3 = 4 /\ mf_queue f3 = 0.
Proof.
  eexists _, _, _, _.
  edestruct (@frame_header_roundtrip LP64 demo_alloc 168 136 400 (fun _ => 0) demo_forward demo_duplicate
    (fun _ => true) (fun _ _ => false) demo_args demo_pcontext context_zero demo_buffer demo_oa demo_heap)
    with (f := frame_init) (nh := @None nat)
    as (_ & c3 & st3 & b3 & f3 & E & _ & _ & _ & _ & _ & _ & Ht & Hq & _).
  - done.
  - done.
  - exact demo_oa_wf.
  - exact demo_args_ok.
  - done.
  - exact demo_heap_ok.
  - by apply demo_wf.
  - by split.
  - by vm_compute.
  - vm_compute. reflexivity.
  - by vm_compute.
  - by vm_compute.
  - done.
  - done.
  - done.
  - done.
  - exists c3, st3, b3, f3. split; [vm_compute; reflexivity|]. split; [exact E|]. split; [exact Ht|].
    exact Hq.
Defined.

Definition demo_payload : overlay_buffer := OB (Some (1%nat, 0)) 0 1 1 1 None.
Definition demo_frame : mdp_frame :=
  MFrame OF_TYPE_DATA 0 5 3 (Some 0%nat) (Some 1%nat) (replicate 8 0) 1 7 0 (Some demo_payload).

Lemma demo_frame_ok : header_args_ok demo_oa (frame_args demo_frame 0 (Some 0%nat) false).
Proof.
  split; simpl; try done.
  - by apply demo_known; left.
  - intros p [E|E]; simplify_eq; apply demo_known; auto.
Qed.

Lemma demo_two_heap_ok : @heap_ok LP64 demo_pe_heap.
Proof.
  intros i blk Hi. unfold demo_pe_heap in Hi.
  apply lookup_insert_Some in Hi as [[<- <-]|[_ Hi]].
  - split; [by vm_compute|]. repeat constructor; done.
  - apply lookup_singleton_Some in Hi as [<- <-]. split; [by vm_compute|]. repeat constructor; done.
Qed.

Lemma demo_two_wf n : 0 <= n <= 16 -> @ob_wf LP64 demo_pe_heap (OB (Some (0%nat, 0)) 0 n 16 16 None).
Proof.
  intros. assert (@SIZE_MAX LP64 = 2 ^ 64 - 1) as E by done.
  split; simpl; rewrite ?E; try done; try lia.
  split; [lia|]. split; [lia|]. exists (repeat 0 16). by vm_compute.
Qed.

Lemma frame_append_full_aborts_witness :
  @overlay_frame_append_payload LP64 demo_alloc context_zero ENCAP_OVERLAY demo_frame (Some 0%nat)
    demo_pe_full false demo_oa demo_pe_heap = Abort.
Proof.
  apply (@frame_append_full_aborts LP64 demo_alloc demo_frame 0 (Some 0%nat) context_zero demo_pe_full false
    demo_oa demo_pe_heap demo_payload).
  - exact demo_oa_wf.
  - done.
  - exact demo_frame_ok.
  - done.
  - done.
  - exact demo_two_heap_ok.
  - by apply demo_two_wf.
  - by split.
  - done.
  - by vm_compute.
Defined.

Lemma frame_append_whole_witness :
  exists c' b' st' h' e,
    @overlay_frame_append_payload LP64 demo_alloc context_zero ENCAP_OVERLAY demo_frame (Some 0%nat)
      demo_buffer false demo_oa demo_pe_heap = Ret ((0, c', b', st'), h') /\
    ob_contents h' b' = e ++ [0; 1; 0x55].
Proof.
  eexists _, _, _, _.
  edestruct (@frame_append_whole LP64 demo_alloc demo_frame 0 (Some 0%nat) context_zero demo_buffer false
    demo_oa demo_pe_heap demo_payload (1%nat, 0) [0x55]) as [[_ (e & _ & He)]|[E _]].
  - exact demo_oa_wf.
  - done.
  - exact demo_frame_ok.
  - done.
  - exact demo_two_heap_ok.
  - by apply demo_two_wf.
  - by split.
  - done.
  - done.
  - done.
  - intros o E. by simplify_eq.
  - done.
  - done.
  - done.
  - by vm_compute.
  - vm_compute. reflexivity.
  - exists e. split; [vm_compute; reflexivity|]. exact He.
  - done.
Defined.
