(* ===== verification/OverlayPacketLoop.v ===== *)
(** * Packets: the loop over the frames ends, and headers are not trusted

    Every frame header takes at least its flags byte out of the packet and no
    read moves the position back, so the loop of [packetOkOverlay] makes no more
    rounds than the packet has bytes, whatever they are and whatever the
    handlers of the frames do.  An address of a header that cannot be resolved
    marks the decoding context until the header is done, so a frame is processed
    or forwarded only when all of its addresses were read from the packet. *)

From stdpp Require Import base tactics list fin_maps gmap.
From Stdlib Require Import ZArith Lia.
From S2P Require Import Prelude Memory OverlayBuffer OverlayBufferFacts OverlayBufferSpec.
From S2P Require Import DataFormats OverlayAddress OverlayAddressFacts OverlayAddressWalk OverlayAddressSpec.
From S2P Require Import OverlayPacket OverlayPacketSpec.

Local Open Scope Z_scope.

Section loop.
Context {AR : Arch} {AL : Allocator}.
Context (sizeof_subscriber sizeof_tree_node sizeof_overlay_frame : Z) (clock : nat -> Z).
Context (link_state_should_forward_broadcast : option nat -> OM bool)
        (link_received_duplicate : option nat -> Z -> OM bool)
        (link_state_ack_soon : option nat -> OM unit)
        (overlay_payload_enqueue : mdp_frame -> OM Z)
        (link_state_legacy_ack : mdp_frame -> Z -> OM unit)
        (overlay_rhizome_saw_advertisements : packet_context -> mdp_frame -> OM packet_context)
        (overlay_saw_mdp_containing_frame : mdp_frame -> OM unit)
        (please_explain_enqueue : overlay_frame -> Z)
        (unicast_destination : overlay_interface -> option nat).
Implicit Types (h : heap) (b : overlay_buffer) (st : oa_state).

Abbreviation parse_addr :=
  (overlay_address_parse sizeof_subscriber sizeof_tree_node sizeof_overlay_frame clock).
Abbreviation read_header :=
  (parseMdpPacketHeader sizeof_subscriber sizeof_tree_node sizeof_overlay_frame clock
     link_state_should_forward_broadcast link_received_duplicate).
Abbreviation loop :=
  (packet_loop sizeof_subscriber sizeof_tree_node sizeof_overlay_frame clock
     link_state_should_forward_broadcast link_received_duplicate link_state_ack_soon
     overlay_payload_enqueue link_state_legacy_ack overlay_rhizome_saw_advertisements
     overlay_saw_mdp_containing_frame please_explain_enqueue unicast_destination).

(** A position within a limit that leaves room for any address. *)
Definition limited b : Prop := 0 <= position b <= sizeLimit b /\ sizeLimit b + 32 <= SIZE_MAX.

(** [b'] is [b] read further, by at least [n] bytes. *)
Definition advanced (n : Z) b b' : Prop :=
  position b + n <= position b' <= sizeLimit b /\ sizeLimit b' = sizeLimit b.

Lemma advanced_refl b : limited b -> advanced 0 b b.
Proof. intros [? ?]. split; [lia|done]. Qed.

Lemma advanced_trans n m b b1 b2 : advanced n b b1 -> advanced m b1 b2 -> advanced (n + m) b b2.
Proof. intros [? E1] [? E2]. split; [rewrite E1 in *; lia|congruence]. Qed.

Lemma advanced_trans0 b b1 b2 : advanced 0 b b1 -> advanced 0 b1 b2 -> advanced 0 b b2.
Proof. apply (advanced_trans 0 0). Qed.

Lemma advanced_limited n b b' : limited b -> 0 <= n -> advanced n b b' -> limited b'.
Proof. intros [? ?] ? [? E]. split; rewrite E; lia. Qed.

Lemma OM_bind_inv {A B} (m : OM A) (f : A -> OM B) st h x :
  (m ≫= f) st h = Ret x -> exists a st1 h1, m st h = Ret ((a, st1), h1) /\ f a st1 h1 = Ret x.
Proof.
  rewrite OM_bind_run. destruct (m st h) as [[[a st1] h1]| |]; [|done..]. intros. by exists a, st1, h1.
Qed.

(** Take a computation that returned apart, one step at a time. *)
Ltac orun H :=
  let E := fresh "E" in let a := fresh "a" in let s := fresh "st" in let g := fresh "h" in
  apply OM_bind_inv in H as (a & s & g & E & H); cbv beta in H.
Ltac oend H := cbv [mret OM_ret HM_ret] in H; simplify_eq.

Lemma read_forward n b :
  limited b -> 0 <= n <= 32 -> readable b n = true -> advanced n b (set_position (sz (position b + n)) b).
Proof.
  intros [? ?] ? Hr. apply readable_spec in Hr as [? _]; [|lia..].
  rewrite sz_small by lia. split; simpl; [lia|done].
Qed.

Lemma ob_get_adv b st h x b' st' h' :
  limited b -> olift (ob_get b) st h = Ret ((x, b', st'), h') ->
  advanced 0 b b' /\ (0 <= x -> advanced 1 b b').
Proof.
  intros Hb Hr. rewrite olift_run in Hr. unfold ob_get in Hr.
  destruct (readable b 1) eqn:E.
  - pose proof (read_forward 1 b Hb ltac:(lia) E) as Ha. unfold mbind, HM_bind in Hr.
    destruct (ob_byte b 0 h) as [[y h1]| |]; try done. oend Hr.
    split; [|done]. destruct Ha. split; [simpl in *; lia|done].
  - oend Hr. split; [by apply advanced_refl|lia].
Qed.

Lemma ob_get_ui16_adv b st h x b' st' h' :
  limited b -> olift (ob_get_ui16 b) st h = Ret ((x, b', st'), h') -> 0 <= x /\ advanced 0 b b'.
Proof.
  intros Hb Hr. rewrite olift_run in Hr. unfold ob_get_ui16, ob_get_fixed in Hr.
  destruct (readable b 2) eqn:E.
  - pose proof (read_forward 2 b Hb ltac:(lia) E) as Ha. unfold mbind, HM_bind in Hr.
    destruct (ob_fetch b 0 (Z.to_nat 2) h) as [[y h1]| |]; try done. oend Hr.
    split; [|destruct Ha; split; [simpl in *; lia|done]].
    unfold be16. destruct y as [|? [|? []]]; try done. apply Z.mod_pos_bound. done.
  - oend Hr. split; [done|by apply advanced_refl].
Qed.

Lemma find_subscr_adv c b n r c' b' out st h st' h' :
  limited b ->
  find_subscr_buffer sizeof_subscriber sizeof_tree_node sizeof_overlay_frame clock c b n true st h
    = Ret ((r, c', b', out, st'), h') -> advanced 0 b b'.
Proof.
  intros Hb Hr. unfold find_subscr_buffer in Hr.
  destruct (Z.leb_spec n 0), (Z.ltb_spec SID_SIZE n); cbn [orb] in Hr;
    try (oend Hr; by apply advanced_refl). unfold SID_SIZE in *.
  orun Hr. destruct a as [id b1]. rewrite olift_run in E. unfold ob_get_bytes_ptr in E.
  assert (advanced 0 b b1) as Ha.
  { destruct (readable b n) eqn:Er.
    - pose proof (read_forward n b Hb ltac:(lia) Er) as [? ?]. unfold mbind, HM_bind in E.
      destruct (hlift (optr_add (ob_bytes b) (position b)) h) as [[p h2]| |]; try done.
      oend E. split; [lia|done].
    - oend E. by apply advanced_refl. }
  destruct id as [id|]; [|by oend Hr]. cbn [negb] in Hr. orun Hr. orun Hr.
  destruct a0 as [p|]; [by oend Hr|]. orun Hr. destruct a0 as [ok c1].
  destruct ok; [|by oend Hr]. orun Hr. orun Hr. destruct a1 as [? c2]. orun Hr. destruct a1 as [f pb].
  orun Hr. orun Hr. by oend Hr.
Qed.

Lemma address_parse_adv c b r c' b' out st h st' h' :
  limited b -> parse_addr c b true st h = Ret ((r, c', b', out, st'), h') -> advanced 0 b b'.
Proof.
  intros Hb Hr. unfold overlay_address_parse in Hr. orun Hr. destruct a as [n b1].
  apply ob_get_adv in E as [Ha _]; [|done].
  destruct (n <? 0); [by oend Hr|]. destruct (n =? OA_CODE_P2P_YOU).
  { destruct (point_to_point_device c); [|orun Hr; by oend Hr]. orun Hr. orun Hr. by oend Hr. }
  destruct (n =? OA_CODE_P2P_ME).
  { destruct (point_to_point_device c); [orun Hr; by oend Hr|]. orun Hr. destruct a as [ok c1].
    destruct ok; [|by oend Hr]. orun Hr. destruct a as [f pb]. orun Hr. by oend Hr. }
  destruct (n =? OA_CODE_SELF).
  { destruct (sender c); [orun Hr|]; by oend Hr. }
  destruct (n =? OA_CODE_PREVIOUS).
  { destruct (previous c); [orun Hr|]; by oend Hr. }
  apply find_subscr_adv in Hr; [|by eapply advanced_limited; [..|exact Ha]].
  by eapply advanced_trans0.
Qed.

(** *** The stages of a header *)

Abbreviation after b s := (limited b -> advanced 0 b (hs_buffer s)).

Lemma parse_source_adv flags s s' st h st' h' :
  parse_source sizeof_subscriber sizeof_tree_node sizeof_overlay_frame clock flags s st h
    = Ret ((inr s', st'), h') -> after (hs_buffer s) s'.
Proof.
  intros Hr Hb. unfold parse_source in Hr. destruct (has flags PAYLOAD_FLAG_SENDER_SAME).
  { oend Hr. by apply advanced_refl. }
  orun Hr. destruct a as [[[r c] b] out]. apply address_parse_adv in E; [|done].
  destruct (r <? 0); [by oend Hr|]. orun Hr.
  match type of Hr with (if ?x then _ else _) _ _ = _ => destruct x end; by oend Hr.
Qed.

Lemma parse_broadcast_adv flags s s' st h st' h' :
  parse_broadcast link_state_should_forward_broadcast flags s st h
    = Ret ((inr s', st'), h') -> after (hs_buffer s) s'.
Proof.
  intros Hr Hb. unfold parse_broadcast in Hr. destruct (negb (has flags PAYLOAD_FLAG_ONE_HOP)).
  2: { oend Hr. by apply advanced_refl. }
  orun Hr. destruct a as [id b]. destruct id as [id|]; [|by oend Hr].
  orun Hr. orun Hr. oend Hr. simpl. rewrite olift_run in E.
  unfold overlay_broadcast_parse, ob_get_bytes, BROADCAST_LEN in E.
  destruct (readable (hs_buffer s) 8) eqn:Er; [|by oend E].
  pose proof (read_forward 8 _ Hb ltac:(lia) Er) as [? ?]. unfold mbind, HM_bind in E.
  match type of E with match (match ?m with _ => _ end) with _ => _ end = _ =>
    destruct m as [[? ?]| |] end; try done. oend E. split; [lia|done].
Qed.

Lemma parse_unicast_adv flags nh s s' nh' st h st' h' :
  parse_unicast sizeof_subscriber sizeof_tree_node sizeof_overlay_frame clock flags nh s st h
    = Ret ((inr (s', nh'), st'), h') -> after (hs_buffer s) s'.
Proof.
  intros Hr Hb. unfold parse_unicast in Hr. orun Hr. destruct a as [[[r c] b] out].
  apply address_parse_adv in E; [|done]. destruct (r <? 0); [by oend Hr|]. orun Hr.
  destruct (negb (has flags PAYLOAD_FLAG_ONE_HOP)); [|by oend Hr].
  orun Hr. destruct a0 as [[[r2 c2] b2] out2].
  match goal with E' : parse_addr _ _ _ _ _ = _ |- _ => apply address_parse_adv in E' as Ha2 end;
    [|by eapply advanced_limited; [..|exact E]].
  destruct (r2 <? 0); [by oend Hr|]. orun Hr. oend Hr. by eapply advanced_trans0.
Qed.

Lemma parse_ttl_adv flags s s' st h st' h' :
  parse_ttl flags s st h = Ret ((inr s', st'), h') -> after (hs_buffer s) s'.
Proof.
  intros Hr Hb. unfold parse_ttl in Hr. destruct (has flags PAYLOAD_FLAG_ONE_HOP).
  { erewrite OM_bind_Ret in Hr by done. oend Hr. by apply advanced_refl. }
  orun Hr. orun E. destruct a0 as [x b]. apply ob_get_adv in E0 as [Ha _]; [|done].
  destruct (x <? 0); oend E; by oend Hr.
Qed.

Lemma parse_type_adv flags s s' st h st' h' :
  parse_type flags s st h = Ret ((inr s', st'), h') -> after (hs_buffer s) s'.
Proof.
  intros Hr Hb. unfold parse_type in Hr. destruct (has flags PAYLOAD_FLAG_LEGACY_TYPE).
  - orun Hr. destruct a as [x b]. apply ob_get_adv in E as [Ha _]; [|done].
    destruct (x =? -1); by oend Hr.
  - oend Hr. by apply advanced_refl.
Qed.

Lemma parse_seq_adv v s s' st h st' h' :
  parse_seq link_received_duplicate v s st h = Ret ((inr s', st'), h') -> after (hs_buffer s) s'.
Proof.
  intros Hr Hb. unfold parse_seq in Hr. destruct (1 <=? v).
  - orun Hr. destruct a as [x b]. apply ob_get_adv in E as [Ha _]; [|done].
    destruct (x =? -1); [by oend Hr|]. orun Hr. destruct a; by oend Hr.
  - oend Hr. by apply advanced_refl.
Qed.

(** A header that was read took at least one byte. *)
Lemma header_adv pc f b nh st h d pc' f' b' nh' st' h' :
  limited b -> read_header pc f b nh st h = Ret ((inr (d, pc', f', b', nh'), st'), h') ->
  advanced 1 b b' /\ encapsulation pc' = encapsulation pc.
Proof.
  intros Hb Hr. unfold parseMdpPacketHeader in Hr. orun Hr. destruct a as [flags b1].
  apply ob_get_adv in E as [_ Ha]; [|done]. destruct (Z.ltb_spec flags 0) as [|Hf]; [by oend Hr|].
  specialize (Ha Hf). pose proof (advanced_limited 1 _ _ Hb ltac:(lia) Ha) as Hb1.
  apply obind_Ret in Hr as (s1 & st2 & h2 & E1 & Hr).
  apply parse_source_adv in E1 as A1; [|done]. pose proof (advanced_limited 0 _ _ Hb1 ltac:(lia) A1) as Hb2.
  apply obind_Ret in Hr as ([s2 nh2] & st3 & h3 & E2 & Hr).
  assert (advanced 0 (hs_buffer s1) (hs_buffer s2)) as A2.
  { destruct (has flags PAYLOAD_FLAG_TO_BROADCAST).
    - apply obind_Ret in E2 as (s2' & ? & ? & E2 & E). oend E. by apply parse_broadcast_adv in E2.
    - by apply parse_unicast_adv in E2. }
  pose proof (advanced_limited 0 _ _ Hb2 ltac:(lia) A2) as Hb3.
  apply obind_Ret in Hr as (s3 & st4 & h4 & E3 & Hr).
  apply parse_ttl_adv in E3 as A3; [|done]. pose proof (advanced_limited 0 _ _ Hb3 ltac:(lia) A3) as Hb4.
  apply obind_Ret in Hr as (s4 & st5 & h5 & E4 & Hr).
  apply parse_type_adv in E4 as A4; [|done]. pose proof (advanced_limited 0 _ _ Hb4 ltac:(lia) A4) as Hb5.
  apply obind_Ret in Hr as (s5 & st6 & h6 & E5 & Hr).
  apply parse_seq_adv in E5 as A5; [|done].
  oend Hr. split; [|done]. apply (advanced_trans 1 0 b b1 _ Ha).
  do 4 (eapply advanced_trans0; [eassumption|]). done.
Qed.

(** ** Unresolved addresses

    An address that is not resolved marks the context, and nothing in the rest
    of the header takes the mark away. *)

(** What parsing leaves of the context and of the module: the mark is kept once
    it is there, and this node's identity does not change. *)
Definition marks c st c' st' : Prop :=
  (invalid_addresses c' = invalid_addresses c \/ invalid_addresses c' = 1) /\
  my_subscriber st' = my_subscriber st.

Lemma marks_refl c st : marks c st c st.
Proof. by split; [left|]. Qed.

Lemma marks_trans c st c1 st1 c2 st2 : marks c st c1 st1 -> marks c1 st1 c2 st2 -> marks c st c2 st2.
Proof. intros [[E1|E1] M1] [[E2|E2] M2]; (split; [|congruence]); [left|right..]; congruence. Qed.

Lemma olift_state {A} (m : HM A) st h a st' h' : olift m st h = Ret ((a, st'), h') -> st' = st.
Proof. rewrite olift_run. destruct (m h) as [[]| |]; [|done..]. by intros [= _ -> _]. Qed.

Lemma oget_state {A} (f : oa_state -> A) st h a st' h' :
  oget f st h = Ret ((a, st'), h') -> a = f st /\ st' = st.
Proof. by intros [= <- <- _]. Qed.

Lemma sub_get_state p st h a st' h' : sub_get p st h = Ret ((a, st'), h') -> st' = st.
Proof. unfold sub_get. destruct (subs st !! p); simpl; [|done]. by intros [= _ <- _]. Qed.

Lemma is_self_state p st h a st' h' : is_self p st h = Ret ((a, st'), h') -> st' = st.
Proof.
  unfold is_self. destruct p; [|by intros [= _ -> _]]. intros Hr. orun Hr. apply sub_get_state in E.
  by oend Hr.
Qed.

Lemma sub_put_me p v st h a st' h' :
  sub_put p v st h = Ret ((a, st'), h') -> my_subscriber st' = my_subscriber st.
Proof. by intros [= _ <- _]. Qed.

(** Replace the states of the steps that only read by the state before. *)
Ltac ostate :=
  repeat match goal with
  | H : olift _ _ _ = Ret _ |- _ => apply olift_state in H as ->
  | H : oout _ _ _ = Ret _ |- _ => apply olift_state in H as ->
  | H : oget _ _ _ = Ret _ |- _ => apply oget_state in H as [-> ->]
  | H : sub_get _ _ _ = Ret _ |- _ => apply sub_get_state in H as ->
  | H : is_self _ _ _ = Ret _ |- _ => apply is_self_state in H as ->
  | H : store_out _ _ _ = Ret _ |- _ => apply olift_state in H as ->
  | H : ctx_payload _ _ _ = Ret _ |- _ => apply olift_state in H as ->
  end.

(** The walk over the tree keeps what its callback keeps. *)
Lemma walk_slot_keeps {C} (I : C -> oa_state -> Prop) (cb : nat -> C -> OM (bool * C)) :
  (forall p x st h r x' st' h', I x st -> cb p x st h = Ret ((r, x', st'), h') -> I x' st') ->
  forall sl pos start start_len end_ end_len x st h r x' st' h', I x st ->
    walk_slot sl pos start start_len end_ end_len cb x st h = Ret ((r, x', st'), h') -> I x' st'.
Proof.
  intros Hcb. fix rec 1. intros sl pos start start_len end_ end_len x st h r x' st' h' HI Hr.
  destruct sl as [|p|node]; [simpl in Hr; by oend Hr|by eapply Hcb|]. rewrite walk_slot_tree in Hr.
  orun Hr. orun Hr. ostate. revert HI Hr. generalize x st h1 start 0.
  induction node as [|c node IH]; intros x1 st1 g start' k HI Hr; simpl in Hr; [by oend Hr|].
  destruct (k <? a); [by eapply IH|]. destruct (k <? a0); [|by oend Hr].
  orun Hr. destruct a1 as [stop x2]. apply (rec c) in E; [|done].
  destruct stop; [by oend Hr|by eapply IH].
Qed.

Lemma explain_payload_keeps c ok c' st h st' h' :
  ctx_explain_payload sizeof_overlay_frame c st h = Ret ((ok, c', st'), h') ->
  st' = st /\ invalid_addresses c' = invalid_addresses c.
Proof.
  unfold ctx_explain_payload. intros Hr. destruct (please_explain c); [by oend Hr|].
  orun Hr. ostate. destruct a; [|discriminate Hr]. orun Hr. ostate. destruct a; [|by oend Hr].
  orun Hr. ostate. by oend Hr.
Qed.

Lemma explain_response_keeps p c r c' st h st' h' :
  add_explain_response sizeof_overlay_frame clock p c st h = Ret ((r, c', st'), h') ->
  my_subscriber st' = my_subscriber st /\ invalid_addresses c' = invalid_addresses c.
Proof.
  unfold add_explain_response. intros Hr.
  apply OM_bind_inv in Hr as (sb & s1 & g1 & E1 & Hr). apply sub_get_state in E1 as ->.
  apply OM_bind_inv in Hr as (now & s2 & g2 & E2 & Hr).
  assert (my_subscriber s2 = my_subscriber st) as <- by (unfold gettime_ms in E2; by oend E2).
  clear E2. destruct (_ <? 500); [by oend Hr|].
  apply OM_bind_inv in Hr as (u & s3 & g3 & E3 & Hr). apply sub_put_me in E3 as <-.
  apply OM_bind_inv in Hr as (made & s4 & g4 & E4 & Hr).
  assert (s4 = s3 /\ (forall d, made = Some d -> invalid_addresses d = invalid_addresses c)) as [-> Hd].
  { destruct (please_explain c); [oend E4; split; [done|by intros d [= <-]]|].
    orun E4. ostate. destruct a; [|by oend E4]. orun E4. ostate. destruct a; [|by oend E4].
    orun E4. ostate. oend E4. split; [done|by intros d [= <-]]. }
  destruct made as [d|]; [|by oend Hr]. specialize (Hd d eq_refl).
  apply OM_bind_inv in Hr as (me & s5 & g5 & E5 & Hr). ostate.
  destruct (_ && _); [orun Hr; ostate; by oend Hr|].
  apply OM_bind_inv in Hr as (u6 & s6 & g6 & E6 & Hr).
  assert (my_subscriber s6 = my_subscriber s3) as <-
    by (destruct (_ =? _); [by apply sub_put_me in E6|by oend E6]).
  apply OM_bind_inv in Hr as ([f pb] & s7 & g7 & E7 & Hr). apply olift_state in E7 as ->.
  apply OM_bind_inv in Hr as (pb1 & s8 & g8 & E8 & Hr). apply olift_state in E8 as ->.
  apply OM_bind_inv in Hr as (pb2 & s9 & g9 & E9 & Hr). apply olift_state in E9 as ->.
  destruct (ob_overrun _); [by oend Hr|]. orun Hr. unfold link_explained, omodify in E. oend E. by oend Hr.
Qed.

(** An address was read: resolved, or it stands for an identity this node does
    not have, or the context is marked. *)
Lemma address_parse_marks c b r c' b' out st h st' h' :
  parse_addr c b true st h = Ret ((r, c', b', out, st'), h') ->
  marks c st c' st' /\
  (0 <= r -> invalid_addresses c' = 0 -> my_subscriber st <> None -> exists p, out = Some (Some p)).
Proof.
  intros Hr. unfold overlay_address_parse in Hr. orun Hr. destruct a as [n b1]. ostate.
  destruct (n <? 0); [oend Hr; split; [apply marks_refl|lia]|]. destruct (n =? OA_CODE_P2P_YOU).
  { destruct (point_to_point_device c).
    - orun Hr. ostate. orun Hr. ostate. oend Hr. split; [by split; [left|]|].
      intros _ _ Hme. destruct (my_subscriber st'); [by eexists|done].
    - orun Hr. ostate. oend Hr. split; [by split; [right|]|done]. }
  destruct (n =? OA_CODE_P2P_ME).
  { destruct (point_to_point_device c).
    - orun Hr. ostate. oend Hr. split; [by split; [left|]|by eexists].
    - orun Hr. destruct a as [ok c1]. apply explain_payload_keeps in E as [-> Ei].
      destruct ok; [|oend Hr; split; [split; [by left|done]|lia]].
      orun Hr. ostate. destruct a as [f pb]. orun Hr. ostate. oend Hr.
      split; [by split; [right|]|done]. }
  destruct (n =? OA_CODE_SELF).
  { destruct (sender c).
    - orun Hr. ostate. oend Hr. split; [by split; [left|]|by eexists].
    - oend Hr. split; [by split; [right|]|done]. }
  destruct (n =? OA_CODE_PREVIOUS).
  { destruct (previous c).
    - orun Hr. ostate. oend Hr. split; [apply marks_refl|by eexists].
    - oend Hr. split; [by split; [right|]|done]. }
  unfold find_subscr_buffer in Hr.
  destruct (_ || _); [oend Hr; split; [apply marks_refl|lia]|].
  orun Hr. destruct a as [id b2]. ostate. destruct id as [id|]; [|oend Hr; split; [apply marks_refl|lia]].
  cbn [negb] in Hr. apply OM_bind_inv in Hr as (sidp & s1 & g1 & E1 & Hr). ostate.
  apply OM_bind_inv in Hr as (found & s2 & g2 & E2 & Hr).
  assert (my_subscriber s2 = my_subscriber st) as Hme.
  { unfold find_subscriber, mbind, HM_bind in E2.
    destruct (find_loop _ _ _ _ _ _ _ _ _ _) as [[[[? ?] ?] ?]| |]; try done. by oend E2. }
  destruct found as [p|]; [oend Hr; split; [by split; [left|]|by eexists]|].
  apply OM_bind_inv in Hr as ([ok c1] & s3 & g3 & E3 & Hr). apply explain_payload_keeps in E3 as [-> Ei].
  simpl in Ei. destruct ok; [|oend Hr; split; [split; [by right|done]|lia]].
  apply OM_bind_inv in Hr as (t & s4 & g4 & E4 & Hr). ostate.
  apply OM_bind_inv in Hr as ([stop c2] & s5 & g5 & E5 & Hr).
  apply (walk_slot_keeps (fun x s => my_subscriber s = my_subscriber st /\ invalid_addresses x = 1)) in E5
    as [Hme2 Ei2]; [| |by split; [|rewrite Ei]].
  2: { intros q x s g ? x' s' g' [? ?] Hcb. apply explain_response_keeps in Hcb as [? ?].
       split; congruence. }
  apply OM_bind_inv in Hr as ([f pb] & s6 & g6 & E6 & Hr). apply olift_state in E6 as ->.
  apply OM_bind_inv in Hr as (pb1 & s7 & g7 & E7 & Hr). apply olift_state in E7 as ->.
  apply OM_bind_inv in Hr as (pb2 & s8 & g8 & E8 & Hr). apply olift_state in E8 as ->.
  oend Hr. simpl. rewrite Ei2. split; [by split; [right|]|done].
Qed.

(** The address at [b] was read as that of the subscriber [p]. *)
Definition reads c b st h (p : nat) : Prop :=
  exists r c' b' st' h', 0 <= r /\ invalid_addresses c' = 0 /\
    parse_addr c b true st h = Ret ((r, c', b', Some (Some p), st'), h').

Lemma address_parse_reads c b r c' b' out st h st' h' :
  parse_addr c b true st h = Ret ((r, c', b', out, st'), h') ->
  0 <= r -> invalid_addresses c' = 0 -> my_subscriber st <> None ->
  exists p, out = Some (Some p) /\ reads c b st h p.
Proof.
  intros Hr H0 Hi Hme. destruct (address_parse_marks _ _ _ _ _ _ _ _ _ _ Hr) as [_ Hp].
  destruct (Hp H0 Hi Hme) as [p ->]. exists p. split; [done|]. by eexists _, _, _, _, _.
Qed.

Lemma marks_invalid c st c' st' : marks c st c' st' -> invalid_addresses c' = 0 -> invalid_addresses c = 0.
Proof. intros [[E|E] _] ?; congruence. Qed.

Lemma parse_source_marks flags s s' st h st' h' :
  parse_source sizeof_subscriber sizeof_tree_node sizeof_overlay_frame clock flags s st h
    = Ret ((inr s', st'), h') ->
  marks (hs_ctx s) st (hs_ctx s') st' /\
  (invalid_addresses (hs_ctx s') = 0 -> my_subscriber st <> None -> exists p,
     mf_source (hs_frame s') = Some p /\
     if has flags PAYLOAD_FLAG_SENDER_SAME then sender (hs_ctx s) = Some p
     else reads (hs_ctx s) (hs_buffer s) st h p).
Proof.
  intros Hr. unfold parse_source in Hr. destruct (has flags PAYLOAD_FLAG_SENDER_SAME).
  { oend Hr. simpl. destruct (sender (hs_ctx s)) as [p|] eqn:Es.
    - split; [apply marks_refl|]. rewrite Es. by exists p.
    - split; [by split; [right|]|done]. }
  orun Hr. destruct a as [[[r c] b] out]. destruct (Z.ltb_spec r 0); [by oend Hr|].
  orun Hr. ostate. pose proof (address_parse_marks _ _ _ _ _ _ _ _ _ _ E) as [Hm _].
  assert (hs_ctx s' = c /\ mf_source (hs_frame s') = stored (mf_source (hs_frame s)) out /\ st' = st0) as (-> & -> & ->).
  { match type of Hr with (if ?x then _ else _) _ _ = _ => destruct x end; by oend Hr. }
  split; [done|]. intros Hi Hme. destruct (address_parse_reads _ _ _ _ _ _ _ _ _ _ E) as (p & -> & Hp); auto.
  by exists p.
Qed.

Lemma parse_unicast_marks flags nh s s' nh' st h st' h' :
  parse_unicast sizeof_subscriber sizeof_tree_node sizeof_overlay_frame clock flags nh s st h
    = Ret ((inr (s', nh'), st'), h') ->
  marks (hs_ctx s) st (hs_ctx s') st' /\ mf_source (hs_frame s') = mf_source (hs_frame s) /\
  (invalid_addresses (hs_ctx s') = 0 -> my_subscriber st <> None -> exists p,
     mf_destination (hs_frame s') = Some p /\ reads (hs_ctx s) (hs_buffer s) st h p /\
     (has flags PAYLOAD_FLAG_ONE_HOP = false ->
      exists q c b st2 h2, nh' = Some q /\ reads c b st2 h2 q)).
Proof.
  intros Hr. unfold parse_unicast in Hr.
  apply OM_bind_inv in Hr as ([[[r c] b] out] & s1 & g1 & E1 & Hr).
  destruct (Z.ltb_spec r 0); [by oend Hr|]. orun Hr. ostate.
  pose proof (address_parse_marks _ _ _ _ _ _ _ _ _ _ E1) as [Hm _].
  destruct (has flags PAYLOAD_FLAG_ONE_HOP) eqn:Eo; cbn [negb] in Hr.
  { oend Hr. simpl. split; [done|]. split; [done|]. intros Hi Hme.
    destruct (address_parse_reads _ _ _ _ _ _ _ _ _ _ E1) as (p & -> & Hp); auto.
    by exists p. }
  apply OM_bind_inv in Hr as ([[[r2 c2] b2] out2] & s2 & g2 & E2 & Hr).
  destruct (Z.ltb_spec r2 0); [by oend Hr|]. orun Hr. ostate.
  pose proof (address_parse_marks _ _ _ _ _ _ _ _ _ _ E2) as [Hm2 _]. oend Hr. simpl.
  split; [by eapply marks_trans|]. split; [done|]. intros Hi Hme.
  pose proof (marks_invalid _ _ _ _ Hm2 Hi) as Hi1.
  destruct (address_parse_reads _ _ _ _ _ _ _ _ _ _ E1) as (p & -> & Hp); auto.
  assert (my_subscriber s1 <> None) as Hme2 by (destruct Hm as [_ ->]; done).
  destruct (address_parse_reads _ _ _ _ _ _ _ _ _ _ E2) as (q & -> & Hq); auto.
  exists p. split; [done|]. split; [done|]. intros _. by eexists q, c, b, s1, _.
Qed.

(** The stages after the addresses leave them and the context alone. *)
Definition same_route s s' : Prop :=
  hs_ctx s' = hs_ctx s /\ mf_source (hs_frame s') = mf_source (hs_frame s) /\
  mf_destination (hs_frame s') = mf_destination (hs_frame s).

Lemma parse_broadcast_route flags s s' st h st' h' :
  parse_broadcast link_state_should_forward_broadcast flags s st h = Ret ((inr s', st'), h') ->
  hs_ctx s' = hs_ctx s /\ mf_source (hs_frame s') = mf_source (hs_frame s) /\
  mf_destination (hs_frame s') = None.
Proof.
  intros Hr. unfold parse_broadcast in Hr. destruct (negb _); [|by oend Hr].
  orun Hr. destruct a as [[id|] b]; [|by oend Hr]. orun Hr. orun Hr. by oend Hr.
Qed.

Lemma parse_ttl_route flags s s' st h st' h' :
  parse_ttl flags s st h = Ret ((inr s', st'), h') -> same_route s s'.
Proof.
  intros Hr. unfold parse_ttl in Hr. destruct (has flags PAYLOAD_FLAG_ONE_HOP).
  { erewrite OM_bind_Ret in Hr by done. by oend Hr. }
  orun Hr. orun E. destruct a0 as [x b].
  destruct (x <? 0); oend E; oend Hr. unfold same_route. simpl.
  by destruct (Z.land x 31 =? 0).
Qed.

Lemma parse_type_route flags s s' st h st' h' :
  parse_type flags s st h = Ret ((inr s', st'), h') -> same_route s s'.
Proof.
  intros Hr. unfold parse_type in Hr. destruct (has flags PAYLOAD_FLAG_LEGACY_TYPE); [|by oend Hr].
  orun Hr. destruct a as [x b]. destruct (x =? -1); by oend Hr.
Qed.

Lemma parse_seq_route v s s' st h st' h' :
  parse_seq link_received_duplicate v s st h = Ret ((inr s', st'), h') -> same_route s s'.
Proof.
  intros Hr. unfold parse_seq in Hr. destruct (1 <=? v); [|by oend Hr].
  orun Hr. destruct a as [x b]. destruct (x =? -1); [by oend Hr|]. orun Hr. destruct a; by oend Hr.
Qed.

Lemma same_route_trans s1 s2 s3 : same_route s1 s2 -> same_route s2 s3 -> same_route s1 s3.
Proof. intros (? & ? & ?) (? & ? & ?). split_and!; congruence. Qed.

(** ** The loop *)

Lemma ob_remaining_Ret b st h n st' h' :
  oout (ob_remaining b) st h = Ret ((n, st'), h') -> n = sizeLimit b - position b /\ 0 <= n.
Proof.
  unfold oout. rewrite olift_run. unfold hlift, ob_remaining.
  destruct (negb _); [|done]. destruct (Z.leb_spec (position b) (sizeLimit b)); [|done]. cbn.
  intros E. simplify_eq. lia.
Qed.

(** More fuel than the bytes that are left makes no difference, nor does what
    running out of it means. *)
Lemma loop_fuel x y now pi n fuel pc f b st h :
  limited b -> sizeLimit b - position b <= Z.of_nat n -> (S n <= fuel)%nat ->
  loop x now pi fuel pc f b st h = loop y now pi (S n) pc f b st h.
Proof.
  revert fuel pc f b st h. induction n as [n IH] using lt_wf_ind. intros fuel pc f b st h Hb Hn Hf.
  destruct fuel as [|fuel]; [lia|]. cbn [packet_loop]. rewrite !OM_bind_run.
  destruct (oout (ob_remaining b) st h) as [[[k st1] h1]| |] eqn:E1; [|done..].
  destruct (Z.ltb_spec 0 k) as [Hk|]; [|done]. apply ob_remaining_Ret in E1 as [-> _].
  cbv zeta. rewrite !OM_bind_run.
  match goal with |- match ?m with _ => _ end = _ =>
    destruct m as [[[[c|[[[[hv pc2] f2] b2] nh2]] st2] h2]| |] eqn:E2 end; [done| |done..].
  apply header_adv in E2 as [[Ha Hl] _]; [|done]. pose proof Hb as [? ?].
  assert (limited b2) as Hb2 by (split; rewrite Hl; lia).
  rewrite !OM_bind_run.
  match goal with |- match ?m with _ => _ end = _ =>
    destruct m as [[[[len b3] st3] h3]| |] eqn:E3 end; [|done..].
  assert (0 <= len /\ advanced 0 b2 b3 /\
          ((encapsulation pc2 =? ENCAP_SINGLE) = true -> len = sizeLimit b3 - position b3)) as (Hlen & [Ha3 Hl3] & Hs).
  { destruct (encapsulation pc2 =? ENCAP_SINGLE).
    - apply OM_bind_inv in E3 as (m & ? & ? & E & E3). apply ob_remaining_Ret in E as [-> ?].
      cbv [mret OM_ret HM_ret] in E3. simplify_eq. split_and!; [done|by apply advanced_refl|done].
    - apply ob_get_ui16_adv in E3 as [? ?]; [|done]. by split_and!. }
  rewrite !OM_bind_run.
  destruct (oout (ob_remaining b3) st3 h3) as [[[m st4] h4]| |] eqn:E4; [|done..].
  apply ob_remaining_Ret in E4 as [-> ?].
  destruct (negb _ && _) eqn:Efit; [done|]. rewrite !OM_bind_run.
  match goal with |- match ?m with _ => _ end = _ => destruct m as [[[[[pc5 f5]|] st5] h5]| |] end; [|done..].
  destruct n as [|n]; [lia|]. destruct fuel as [|fuel]; [lia|].
  assert (len <= sizeLimit b3 - position b3) as Hfit.
  { destruct (encapsulation pc2 =? ENCAP_SINGLE); [rewrite Hs by done; lia|].
    simpl in Efit. by apply Z.ltb_ge in Efit. }
  apply IH; [lia| |simpl; lia|lia]. split; simpl; lia.
Qed.

End loop.

(** ** Properties *)

(** C7: the loop over the frames of a packet ends.  It makes at most as many
    rounds as there are bytes left, and one to see that none is: with that many
    allowed, neither more of them nor what is done when they are used up makes
    a difference. *)
Theorem packet_loop_ends {AR : Arch} {AL : Allocator} sizeof_subscriber sizeof_tree_node sizeof_overlay_frame
    clock should_forward duplicate ack_soon enqueue ack advert data explain unicast x y now pi (fuel : nat) pc f b st h :
  limited b -> sizeLimit b - position b < Z.of_nat fuel ->
  packet_loop sizeof_subscriber sizeof_tree_node sizeof_overlay_frame clock should_forward duplicate
    ack_soon enqueue ack advert data explain unicast x now pi fuel pc f b st h =
  packet_loop sizeof_subscriber sizeof_tree_node sizeof_overlay_frame clock should_forward duplicate
    ack_soon enqueue ack advert data explain unicast y now pi (S (Z.to_nat (sizeLimit b - position b))) pc f b st h.
Proof. intros Hb Hf. pose proof Hb as [? ?]. apply loop_fuel; [done|lia..]. Qed.

(** A packet with two frames for everybody, of which the second is cut short. *)
Definition demo_frames : heap :=
  {[ 0%nat := [6; 1; 0x12; 9; 0; 1; 0x55; 7; 9; 0; 2; 0x55] ]}.

Definition demo_iface : packet_interface := PIface (Iface 0 0) false None.

Lemma packet_loop_ends_witness :
  @packet_loop LP64 demo_alloc 168 136 400 (fun _ => 0) demo_forward demo_duplicate
    (fun _ => mret tt) (fun _ => mret 0) (fun _ _ => mret tt) (fun pc _ => mret pc) (fun _ => mret tt)
    (fun _ => 0) (fun _ => None) (oout Undef) 0 demo_iface 13 demo_pcontext frame_init
    (OB (Some (0%nat, 0)) 0 0 12 12 None) demo_oa demo_frames =
  @packet_loop LP64 demo_alloc 168 136 400 (fun _ => 0) demo_forward demo_duplicate
    (fun _ => mret tt) (fun _ => mret 0) (fun _ _ => mret tt) (fun pc _ => mret pc) (fun _ => mret tt)
    (fun _ => 0) (fun _ => None) (oout Abort) 0 demo_iface 13 demo_pcontext frame_init
    (OB (Some (0%nat, 0)) 0 0 12 12 None) demo_oa demo_frames.
Proof.
  apply (@packet_loop_ends LP64 demo_alloc 168 136 400 (fun _ => 0) demo_forward demo_duplicate
    (fun _ => mret tt) (fun _ => mret 0) (fun _ _ => mret tt) (fun pc _ => mret pc) (fun _ => mret tt)
    (fun _ => 0) (fun _ => None) (oout Undef) (oout Abort) 0 demo_iface 13 demo_pcontext
    frame_init (OB (Some (0%nat, 0)) 0 0 12 12 None) demo_oa demo_frames).
  - split; [simpl; lia|by vm_compute].
  - simpl. lia.
Defined.

(** A packet from the subscriber [0x12...] to this node, [0x13...], which is the
    next hop too, with two hops left. *)
Definition demo_packet : heap := {[ 0%nat := [0; 1; 0x12; 1; 0x13; 1; 0x13; 3; 9] ]}.
Definition demo_self : oa_state :=
  OAState demo_root
    (<[1%nat := Subscriber (demo_sid 0x13) 2 0 false false REACHABLE_SELF false 0 true]> demo_subs)
    (Some 1%nat) (replicate 1024 (replicate 8 0)) true [] 0.

