(* ===== verification/MdpFilter.v ===== *)
(** * MDP packet filter rules (mdp_filter.c)

    The rules in force, the decision they make about a packet, and the parser of
    the rules file with its buffered cursor.  The cursor's buffer is the list of
    the bytes loaded ([end] is its length, at most 1024); pointers into it are
    offsets.  The stream is the rest of a regular file: [fread] delivers what
    there is and sets the end-of-file indicator when that is less than asked
    for. *)

From Stdlib Require Import ZArith Lia Ascii String.
From stdpp Require Import base tactics list fin_maps gmap infinite.
From S2P Require Import Prelude Memory Cstring Str Strbuf DataFormats OverlayBuffer OverlayAddress.

Local Open Scope Z_scope.

(** ** Rules *)

Record mdp_portrange : Type := Ports { port_first : Z; port_last : Z }.

(** The list is linked through [next] in C. *)
Record packet_rule : Type := Rule {
  local_subscriber : option nat;
  remote_subscriber : option nat;
  local_ports : mdp_portrange;
  remote_ports : mdp_portrange;
  flags : Z
}.

Definition RULE_DROP : Z := 1.
Definition RULE_INBOUND : Z := 2.
Definition RULE_OUTBOUND : Z := 4.
Definition RULE_LOCAL_PORT : Z := 8.
Definition RULE_REMOTE_PORT : Z := 16.

Definition rule_zero : packet_rule := Rule None None (Ports 0 0) (Ports 0 0) 0.
Definition set_flags (f : Z) (r : packet_rule) : packet_rule :=
  Rule (local_subscriber r) (remote_subscriber r) (local_ports r) (remote_ports r) f.

(** [rule->flags & m] as a condition. *)
Definition has_flag (r : packet_rule) (m : Z) : bool := negb (Z.land (flags r) m =? 0).

(** The fields of [struct internal_mdp_header] the filter looks at. *)
Record mdp_header : Type := Header {
  source : option nat;
  source_port : Z;
  destination : option nat;
  destination_port : Z
}.

Definition in_ports (p : Z) (r : mdp_portrange) : bool :=
  (port_first r <=? p) && (p <=? port_last r).
Definition sub_matches (want : option nat) (have : option nat) : bool :=
  match want with None => true | Some _ => bool_decide (have = want) end.

Fixpoint allow_inbound_packet (packet_rules : list packet_rule) (header : mdp_header) : Z :=
  match packet_rules with
  | [] => 1
  | rule :: rest =>
      if (has_flag rule RULE_INBOUND
          && sub_matches (remote_subscriber rule) (source header)
          && (negb (has_flag rule RULE_REMOTE_PORT) || in_ports (source_port header) (remote_ports rule))
          && sub_matches (local_subscriber rule) (destination header)
          && (negb (has_flag rule RULE_LOCAL_PORT) || in_ports (destination_port header) (local_ports rule)))
         || negb (has_flag rule (Z.lor RULE_INBOUND RULE_OUTBOUND))
      then if has_flag rule RULE_DROP then 0 else 1
      else allow_inbound_packet rest header
  end.

Fixpoint allow_outbound_packet (packet_rules : list packet_rule) (header : mdp_header) : Z :=
  match packet_rules with
  | [] => 1
  | rule :: rest =>
      if (has_flag rule RULE_OUTBOUND
          && sub_matches (remote_subscriber rule) (destination header)
          && (negb (has_flag rule RULE_REMOTE_PORT) || in_ports (destination_port header) (remote_ports rule))
          && sub_matches (local_subscriber rule) (source header)
          && (negb (has_flag rule RULE_LOCAL_PORT) || in_ports (source_port header) (local_ports rule)))
         || negb (has_flag rule (Z.lor RULE_INBOUND RULE_OUTBOUND))
      then if has_flag rule RULE_DROP then 0 else 1
      else allow_outbound_packet rest header
  end.

(** ** Printing *)

(** [printf("%#010x")]: ["0x"] and eight hexadecimal digits, but ten zeros for
    zero, which gets no prefix. *)
Definition hexdigit_lower (n : Z) : Z := if n <? 10 then 48 + n else 87 + n.
Fixpoint hex_digits (n : nat) (v : Z) : list Z :=
  match n with O => [] | S n => hex_digits n (v / 16) ++ [hexdigit_lower (v mod 16)] end.
Definition fmt_port (v : Z) : list Z :=
  if v =? 0 then repeat 48 10 else zs "0x" ++ hex_digits 8 v.

Section printing.
Context {AR : Arch}.

Definition strbuf_append_mdp_portrange (sb : strbuf) (m : list Z) (range : mdp_portrange)
    : outcome (strbuf * list Z) :=
  '(sb, m) ← strbuf_sprintf sb m (zs ":" ++ fmt_port (port_first range));
  if negb (port_last range =? port_first range)
  then strbuf_sprintf sb m (zs "-" ++ fmt_port (port_last range))
  else Ret (sb, m).

(** [alloca_tohex_sid_t(sub->sid)] or ['*']. *)
Definition append_sid (sids : sub_heap) (sb : strbuf) (m : list Z) (sub : option nat)
    : outcome (strbuf * list Z) :=
  match sub with
  | Some p =>
      s ← or_undef (sids !! p);
      t ← tohex SID_STRLEN (sid s);
      strbuf_puts sb m t
  | None => strbuf_putc sb m 42
  end.

Definition strbuf_append_packet_rule (sids : sub_heap) (sb : strbuf) (m : list Z) (rule : packet_rule)
    : outcome (strbuf * list Z) :=
  '(sb, m) ← strbuf_puts sb m (if has_flag rule RULE_DROP then cstr "drop " else cstr "allow ");
  if has_flag rule (Z.lor RULE_INBOUND RULE_OUTBOUND) then
    '(sb, m) ← append_sid sids sb m (local_subscriber rule);
    '(sb, m) ← (if has_flag rule RULE_LOCAL_PORT
                then strbuf_append_mdp_portrange sb m (local_ports rule) else Ret (sb, m));
    '(sb, m) ← strbuf_putc sb m 32;
    '(sb, m) ← (if has_flag rule RULE_INBOUND then strbuf_putc sb m 60 else Ret (sb, m));
    '(sb, m) ← (if has_flag rule RULE_OUTBOUND then strbuf_putc sb m 62 else Ret (sb, m));
    '(sb, m) ← append_sid sids sb m (remote_subscriber rule);
    if has_flag rule RULE_REMOTE_PORT
    then strbuf_append_mdp_portrange sb m (remote_ports rule) else Ret (sb, m)
  else strbuf_puts sb m (cstr "all").
End printing.

(** ** The cursor *)

Record cursor : Type := Cursor {
  stream : list Z;          (* what [fread] has not delivered yet *)
  feof : bool;
  buffer : list Z;          (* the bytes before [end] *)
  current : Z;
  pin_at : option Z;        (* [pin], as an offset *)
  pins : Z
}.

Definition BUFFER_SIZE : Z := 1024.
Definition end_ (c : cursor) : Z := zlen (buffer c).
Definition set_current (n : Z) (c : cursor) : cursor :=
  Cursor (stream c) (feof c) (buffer c) n (pin_at c) (pins c).
Definition set_pin (p : option Z) (n : Z) (c : cursor) : cursor :=
  Cursor (stream c) (feof c) (buffer c) (current c) p n.

(** Code on a cursor that touches nothing else. *)
Definition CO (A : Type) : Type := cursor -> outcome (A * cursor).
Global Instance CO_ret : MRet CO := fun A a c => Ret (a, c).
Global Instance CO_bind : MBind CO := fun A B f m c => '(a, c) ← m c; f a c.
Definition cread {A} (f : cursor -> outcome A) : CO A := fun c => a ← f c; Ret (a, c).
Definition cupdate (f : cursor -> cursor) : CO unit := fun c => Ret (tt, f c).
Definition casserts (f : cursor -> bool) : CO unit := cread (fun c => cassert (f c)).

Definition init_cursor (file : list Z) : cursor := Cursor file false [] 0 None 0.

Definition in_buffer (c : cursor) : bool := (0 <=? current c) && (current c <=? end_ c).
Definition before_end (c : cursor) : bool := (0 <=? current c) && (current c <? end_ c).

Definition available : CO Z :=
  casserts in_buffer;; cread (fun c => Ret (end_ c - current c)).

(** [c->end += fread(c->end, 1, ahead, c->stream)] *)
Definition fread (ahead : Z) (c : cursor) : cursor :=
  let got := take (Z.to_nat ahead) (stream c) in
  Cursor (drop (Z.to_nat ahead) (stream c)) (feof c || (zlen got <? ahead))
         (buffer c ++ got) (current c) (pin_at c) (pins c).

(** Drop the first [stale] bytes: the [memmove] and the pointer updates. *)
Definition compact (stale : Z) (c : cursor) : outcome cursor :=
  cassert (stale <=? end_ c);;
  let rest := drop (Z.to_nat stale) (buffer c) in
  match pin_at c with
  | Some p =>
      cassert (p =? stale);;
      Ret (Cursor (stream c) (feof c) rest (current c - stale) (Some 0) (pins c))
  | None =>
      cassert (current c =? stale);;
      Ret (Cursor (stream c) (feof c) rest 0 None (pins c))
  end.

(** The loop of [_preload]: at most one move and two reads before it ends. *)
Fixpoint preload_loop (fuel : nat) (n avail : Z) (c : cursor) : outcome (Z * cursor) :=
  match fuel with
  | O => Undef
  | S fuel =>
      if (avail <? n) && negb (feof c) then
        let space := BUFFER_SIZE - end_ c in
        stale ← (match pin_at c with
                 | Some p => cassert (0 <=? p);; cassert (p <=? current c);; Ret p
                 | None => Ret (current c)
                 end);
        let ahead := if n <=? avail + space then n - avail
                     else if stale =? 0 then space else 0 in
        if negb (ahead =? 0) then
          let c := fread ahead c in preload_loop fuel n (end_ c - current c) c
        else if negb (stale =? 0) then
          c ← compact stale c; preload_loop fuel n avail c
        else Ret (avail, c)
      else Ret (avail, c)
  end.

Definition preload_run (n : Z) : CO Z := fun c => preload_loop 5 n (end_ c - current c) c.
Definition preload (n : Z) : CO Z := casserts in_buffer;; preload_run n.

Definition eof : CO bool :=
  preload 1;; casserts in_buffer;;
  cread (fun c => Ret ((current c =? end_ c) && feof c)).

Definition peek : CO Z :=
  e ← eof;
  if e : bool then mret (-1)
  else casserts before_end;; cread (fun c => or_undef (buffer c @@ current c)).

(** The bytes from [current] on. *)
Definition preloaded : CO (list Z) :=
  casserts before_end;; cread (fun c => Ret (drop (Z.to_nat (current c)) (buffer c))).

(** [text] is NUL-terminated; the match leaves [current] after it. *)
Definition skip (text : list Z) : CO bool :=
  textlen ← cread (fun _ => strlen text);
  preload textlen;;
  n ← available;
  if textlen <=? n then
    r ← cread (fun c => str_startswith (drop (Z.to_nat (current c)) (buffer c)) text);
    match r with
    | Some rest => cupdate (fun c => set_current (end_ c - zlen rest) c);; mret true
    | None => mret false
    end
  else mret false.

Definition next : CO unit :=
  casserts before_end;; cupdate (fun c => set_current (current c + 1) c).

Definition advance_to (pos : Z) : CO unit :=
  casserts (fun c => current c <=? pos);; casserts (fun c => pos <=? end_ c);;
  cupdate (set_current pos).

Definition pin : CO Z :=
  casserts before_end;;
  cread (fun c => match pin_at c with Some p => cassert (p <=? current c) | None => Ret tt end);;
  cupdate (fun c => set_pin (Some (default (current c) (pin_at c))) (pins c + 1) c);;
  cread (fun c => Ret (current c - default 0 (pin_at c))).

(** The assertions [_retreat] and [_unpin] share; the pinned offset. *)
Definition pinned (p : Z) : CO Z :=
  casserts in_buffer;; casserts (fun c => 0 <? pins c);;
  a ← cread (fun c => match pin_at c with Some a => Ret a | None => Abort end);
  casserts (fun c => (0 <=? a) && (a <=? current c));;
  casserts (fun c => (0 <=? a + p) && (a + p <=? current c));;
  mret a.
Definition drop_pin : CO unit :=
  cupdate (fun c => set_pin (if pins c - 1 =? 0 then None else pin_at c) (pins c - 1) c).
Definition retreat (p : Z) : CO unit :=
  a ← pinned p; cupdate (set_current (a + p));; drop_pin.
Definition unpin (p : Z) : CO unit := pinned p;; drop_pin.

(** ** The parser, without subscribers *)

(** Bytes not consumed yet: a bound on the number of rounds of a loop that
    consumes one each. *)
Definition unread (c : cursor) : nat := length (buffer c) + length (stream c).

Fixpoint space_loop (fuel : nat) (ret : bool) : CO bool :=
  match fuel with
  | O => cread (fun _ => Undef)
  | S fuel =>
      ch ← peek;
      if ch =? 32 then next;; space_loop fuel true else mret ret
  end.
Definition _space : CO bool := fun c => space_loop (S (unread c)) false c.
Definition _optspace : CO bool := _space;; mret true.

Definition _sep : CO bool :=
  a ← peek;
  b ← (if a =? 10 then mret true else b ← peek; mret (b =? 59));
  if b : bool then next;; mret true else mret false.

(** [None] for 0. *)
Definition _port : CO (option Z) :=
  hex ← skip (cstr "0x");
  let base := if hex : bool then 16 else 10 in
  preload (if hex then 8 else 10);;
  s ← preloaded;
  n ← available;
  r ← cread (fun _ => strn_to_uint32 s n base true);
  if p_ok r then
    (e ← cread (fun c => Ret (end_ c - zlen (p_end r))); advance_to e);;
    mret (Some (p_value r))
  else mret None.

Definition _portrange : CO (option mdp_portrange) :=
  first ← _port;
  match first with
  | None => mret None
  | Some first =>
      _optspace;;
      ch ← peek;
      if ch =? 45 then
        next;; _optspace;;
        last ← _port;
        mret (option_map (Ports first) last)
      else mret (Some (Ports first first))
  end.

(** ** The parser of rules *)

(** Code on a cursor and the state of the subscribers. *)
Definition CM (A : Type) : Type := cursor -> OM (A * cursor).
Global Instance CM_ret : MRet CM := fun A a c => mret (a, c).
Global Instance CM_bind : MBind CM := fun A B f m c => '(a, c) ← m c; f a c.
Definition clift {A} (m : CO A) : CM A := fun c => oout (m c).
Definition csub {A} (m : OM A) : CM A := fun c => a ← m; mret (a, c).

Inductive side : Type := Local | Remote.
Definition port_flag (s : side) : Z :=
  match s with Local => RULE_LOCAL_PORT | Remote => RULE_REMOTE_PORT end.
Definition set_subscriber (s : side) (sub : option nat) (r : packet_rule) : packet_rule :=
  match s with
  | Local => Rule sub (remote_subscriber r) (local_ports r) (remote_ports r) (flags r)
  | Remote => Rule (local_subscriber r) sub (local_ports r) (remote_ports r) (flags r)
  end.
Definition set_ports (s : side) (p : mdp_portrange) (r : packet_rule) : packet_rule :=
  match s with
  | Local => Rule (local_subscriber r) (remote_subscriber r) p (remote_ports r) (flags r)
  | Remote => Rule (local_subscriber r) (remote_subscriber r) (local_ports r) p (flags r)
  end.

Section parser.
Context {AR : Arch} {AL : Allocator}.
Context (sizeof_subscriber sizeof_tree_node sizeof_packet_rule : Z).

(** The subscriber of an endpoint: the result and the rule. *)
Definition endpoint_sid (s : side) (rule : packet_rule) : CM (bool * packet_rule) :=
  star ← clift (skip (cstr "*"));
  if star : bool then mret (true, set_subscriber s None rule)
  else
    str ← clift preloaded;
    n ← clift available;
    r ← clift (cread (fun _ => strn_to_sid_t str n));
    match r with
    | Some (id, rest) =>
        sub ← csub (find_subscriber sizeof_subscriber sizeof_tree_node id SID_SIZE true);
        match sub with
        | None => mret (false, set_subscriber s None rule)
        | Some _ =>
            clift (e ← cread (fun c => Ret (end_ c - zlen rest)); advance_to e);;
            mret (true, set_subscriber s sub rule)
        end
    | None => mret (false, rule)
    end.

Definition _endpoint (s : side) (rule : packet_rule) : CM (bool * packet_rule) :=
  clift (preload SID_STRLEN);;
  '(ok, rule) ← endpoint_sid s rule;
  if negb ok then mret (false, rule)
  else
    clift _optspace;;
    ch ← clift peek;
    if ch =? 58 then
      clift next;; clift _optspace;;
      r ← clift _portrange;
      match r with
      | None => mret (false, rule)
      | Some range =>
          mret (true, set_flags (Z.lor (flags rule) (port_flag s)) (set_ports s range rule))
      end
    else mret (true, rule).

Definition _direction (rule : packet_rule) : CM (bool * packet_rule) :=
  let f := Z.ldiff (flags rule) (Z.lor RULE_INBOUND RULE_OUTBOUND) in
  i ← clift (skip (cstr "<"));
  let f := if i : bool then Z.lor f RULE_INBOUND else f in
  o ← clift (skip (cstr ">"));
  let f := if o : bool then Z.lor f RULE_OUTBOUND else f in
  mret (negb (Z.land f (Z.lor RULE_INBOUND RULE_OUTBOUND) =? 0), set_flags f rule).

Definition _pattern (rule : packet_rule) : CM (bool * packet_rule) :=
  p ← clift pin;
  '(ok, rule) ← _endpoint Local rule;
  (if ok : bool then clift (unpin p);; clift _optspace;; mret tt else clift (retreat p));;
  '(ok, rule) ← _direction rule;
  if negb ok then mret (false, rule)
  else clift _optspace;; _endpoint Remote rule.

Definition _which (rule : packet_rule) : CM (bool * packet_rule) :=
  all ← clift (skip (cstr "all"));
  if all : bool then mret (true, rule) else _pattern rule.

Definition _verb (rule : packet_rule) : CM (bool * packet_rule) :=
  a ← clift (skip (cstr "allow"));
  if a : bool then mret (true, rule)
  else
    d ← clift (skip (cstr "drop"));
    if d : bool then mret (true, set_flags (Z.lor (flags rule) RULE_DROP) rule)
    else mret (false, rule).

(** 1 with a rule, 0 when there is none, -1 when memory runs out. *)
Definition _rule : CM (Z * option packet_rule) :=
  ok ← csub (olift (hstruct sizeof_packet_rule));
  if ok : bool then
    '(v, rule) ← _verb rule_zero;
    if negb v then mret (0, None)
    else
      clift _optspace;;
      '(w, rule) ← _which rule;
      if w : bool then mret (1, Some rule) else mret (0, None)
  else mret (-1, None).

(** [while (!eof(c) && _sep(c) && !eof(c))]; the rules appended to the list. *)
Definition more : CO bool :=
  e ← eof;
  if e : bool then mret false
  else s ← _sep;
       if negb s then mret false else e ← eof; mret (negb e).

Fixpoint rules_loop (fuel : nat) : CM (Z * list packet_rule) :=
  match fuel with
  | O => clift (cread (fun _ => Undef))
  | S fuel =>
      m ← clift more;
      if m : bool then
        clift _optspace;;
        '(r, rule) ← _rule;
        if r =? -1 then mret (-1, [])
        else
          clift _optspace;;
          match rule with
          | None => e ← clift eof; mret (if e : bool then 1 else 0, [])
          | Some rule =>
              '(r, rules) ← rules_loop fuel;
              mret (r, rule :: rules)
          end
      else e ← clift eof; mret (if e : bool then 1 else 0, [])
  end.

Definition rules_rest : CM (Z * list packet_rule) := fun c => rules_loop (S (unread c)) c.

Definition _rules : CM (Z * list packet_rule) :=
  clift _optspace;;
  '(r, rule) ← _rule;
  if r =? -1 then mret (-1, [])
  else
    clift _optspace;;
    match rule with
    | None => e ← clift eof; mret (if e : bool then 1 else 0, [])
    | Some rule => '(r, rules) ← rules_rest; mret (r, rule :: rules)
    end.

(** The return value, and the list stored in [*rulep] ([None] if it is not
    stored).  The diagnostic for malformed text reads the cursor. *)
Definition parse_mdp_packet_rules (file : list Z) : OM (Z * option (list packet_rule)) :=
  '((r, rules), c) ← _rules (init_cursor file);
  if r =? 1 then mret (0, Some rules)
  else
    (if r =? -1 then mret tt
     else '(n, c) ← oout (available c);
          if negb (n =? 0) then '(_, _) ← oout (preloaded c); mret tt else mret tt);;
    mret (1, None).

(** ** The rules in force *)

Record file_meta : Type := FileMeta { tv_sec : Z; tv_nsec : Z; fm_size : Z }.
Definition FILE_META_UNKNOWN : file_meta := FileMeta (-1) (-1) (-1).
(** [cmp_file_meta(a, b) == 0] *)
Definition same_file_meta (a b : file_meta) : bool :=
  (tv_sec a =? tv_sec b) && (tv_nsec a =? tv_nsec b) && (fm_size a =? fm_size b).
Definition PACKET_RULES_FILE_MAX_SIZE : Z := 32 * 1024.

Record filter_state : Type := FilterState {
  packet_rules : list packet_rule;
  packet_rules_meta : file_meta
}.

Definition clear_mdp_packet_rules (s : filter_state) : filter_state :=
  FilterState [] (packet_rules_meta s).
Definition set_mdp_packet_rules (rules : list packet_rule) (s : filter_state) : filter_state :=
  FilterState rules (packet_rules_meta (clear_mdp_packet_rules s)).

(** [path_ok] is whether [FORMF_SERVAL_ETC_PATH] could form the path ([None]
    when no path is configured), [meta] what [get_file_meta] reports ([None]
    when it fails), [file] the contents [fopen] gives access to. *)
Definition reload_mdp_packet_rules (path_ok : option bool) (meta : option file_meta)
    (file : option (list Z)) (s : filter_state) : OM (Z * filter_state) :=
  match path_ok with
  | None => mret (0, FilterState [] FILE_META_UNKNOWN)
  | Some false => mret (-1, s)
  | Some true =>
      match meta with
      | None => mret (-1, s)
      | Some meta =>
          let load s := FilterState (packet_rules s) meta in
          if same_file_meta meta (packet_rules_meta s) then mret (0, s)
          else if tv_sec meta =? -1 then mret (1, load (clear_mdp_packet_rules s))
          else if PACKET_RULES_FILE_MAX_SIZE <? fm_size meta then mret (-1, s)
          else if fm_size meta <=? 0 then mret (1, load (clear_mdp_packet_rules s))
          else match file with
          | None => mret (-1, s)
          | Some text =>
              '(r, rules) ← parse_mdp_packet_rules text;
              match r, rules with
              | 0, Some rules => mret (1, load (set_mdp_packet_rules rules s))
              | _, _ => mret (-1, load s)
              end
          end
      end
  end.
End parser.
