(* ===== verification/MdpFilterCursor.v ===== *)
(** * The buffered cursor of the rules parser

    The cursor as a view of the file: the text pinned so far and the text not
    consumed yet.  [_preload] moves and fills the buffer without changing the
    view; the other primitives act on the view alone. *)

From Stdlib Require Import ZArith Lia Ascii String.
From stdpp Require Import base tactics list fin_maps gmap infinite.
From S2P Require Import Prelude Memory Cstring Str Strbuf DataFormats OverlayBuffer OverlayAddress MdpFilter.

Local Open Scope Z_scope.

(** ** The view *)

Record cur_ok (c : cursor) : Prop := {
  co_current : 0 <= current c <= end_ c;
  co_size : end_ c <= BUFFER_SIZE;
  co_pin : forall p, pin_at c = Some p -> 0 <= p <= current c;
  co_feof : feof c = true -> stream c = []
}.

(** What is left to parse. *)
Definition rest_of (c : cursor) : list Z := drop (Z.to_nat (current c)) (buffer c) ++ stream c.
(** The text between the pin and [current]. *)
Definition back_of (c : cursor) : option (list Z) :=
  option_map (fun p => slice p (current c - p) (buffer c)) (pin_at c).
(** The bytes the pin keeps in the buffer. *)
Definition held (c : cursor) : Z :=
  match pin_at c with Some p => current c - p | None => 0 end.
(** The bytes that can be read without loading more. *)
Definition avail (c : cursor) : Z := end_ c - current c.

Record same_view (c c' : cursor) : Prop := {
  sv_ok : cur_ok c';
  sv_rest : rest_of c' = rest_of c;
  sv_back : back_of c' = back_of c;
  sv_held : held c' = held c;
  sv_pins : pins c' = pins c
}.

Lemma same_view_refl c : cur_ok c -> same_view c c.
Proof. by split. Qed.

Lemma same_view_trans c1 c2 c3 : same_view c1 c2 -> same_view c2 c3 -> same_view c1 c3.
Proof. intros [? ? ? ? ?] [? ? ? ? ?]. split; congruence. Qed.

Lemma zlen_drop {A} n (l : list A) : 0 <= n <= zlen l -> zlen (drop (Z.to_nat n) l) = zlen l - n.
Proof. unfold zlen. rewrite length_drop. lia. Qed.

Lemma avail_rest c : cur_ok c -> 0 <= avail c <= zlen (rest_of c).
Proof.
  intros [Hc _ _ _]. unfold rest_of, avail, end_ in *. rewrite zlen_app, zlen_drop by done.
  pose proof (zlen_nonneg (stream c)). lia.
Qed.

(** ** [_preload] *)

Lemma fread_view c n :
  cur_ok c -> 0 <= n -> end_ c + n <= BUFFER_SIZE ->
  same_view c (fread n c) /\ avail (fread n c) = Z.min (avail c + n) (zlen (rest_of c)) /\
  (avail (fread n c) < avail c + n -> feof (fread n c) = true).
Proof.
  intros Hok Hn Hsz. pose proof Hok as [Hc Hs Hp Hf]. unfold fread.
  set (got := take (Z.to_nat n) (stream c)).
  assert (zlen got = Z.min n (zlen (stream c))) as Hgot by (unfold got, zlen; rewrite length_take; lia).
  assert (zlen (rest_of c) = avail c + zlen (stream c)) as Hr.
  { unfold rest_of, avail. rewrite zlen_app, zlen_drop; unfold end_ in *; lia. }
  pose proof (zlen_nonneg (stream c)). unfold avail, end_ in *; simpl; rewrite zlen_app. split; [|split].
  - split; unfold rest_of, back_of, held, end_; simpl; try done.
    + split; unfold end_; simpl; rewrite ?zlen_app; try lia; [done|].
      intros [Hf'|Hf']%orb_true_iff; [by rewrite Hf, drop_nil|].
      apply Z.ltb_lt in Hf'. apply skipn_all2. unfold zlen in *. lia.
    + rewrite drop_app_le by (unfold zlen in *; lia). rewrite <- app_assoc. f_equal.
      unfold got. by rewrite take_drop.
    + destruct (pin_at c) as [p|] eqn:Ep; [|done]. simpl. f_equal. specialize (Hp p eq_refl).
      unfold slice. rewrite drop_app_le, take_app_le; [done|..]; rewrite ?length_drop; unfold zlen in *; lia.
  - lia.
  - intros. apply orb_true_iff. right. apply Z.ltb_lt. lia.
Qed.

Lemma compact_view c p :
  cur_ok c -> p = default (current c) (pin_at c) ->
  exists c', compact p c = Ret c' /\ same_view c c' /\ avail c' = avail c /\ feof c' = feof c /\
    end_ c' = end_ c - p /\ current c' = current c - p /\ (pin_at c' = Some 0 \/ pin_at c' = None).
Proof.
  intros Hok Hdef. pose proof Hok as [Hc Hs Hp Hf].
  assert (0 <= p <= current c) as Hpc.
  { destruct (pin_at c) as [q|]; simpl in Hdef; subst p; [by apply Hp|lia]. }
  unfold compact. rewrite (proj2 (Z.leb_le _ _)) by lia. cbn [cassert mbind outcome_bind].
  assert (forall q, drop (Z.to_nat (current c - p)) (drop (Z.to_nat p) (buffer c)) ++ q =
                    drop (Z.to_nat (current c)) (buffer c) ++ q) as Hdrop.
  { intros q. rewrite drop_drop. do 2 f_equal. lia. }
  destruct (pin_at c) as [q|] eqn:Ep; simpl in Hdef; subst p; rewrite Z.eqb_refl; cbn [cassert mbind outcome_bind].
  - eexists. split; [done|]. unfold avail, end_ in *. simpl. rewrite zlen_drop by lia.
    split; [|repeat split; [lia|by left]].
    split; unfold rest_of, back_of, held, end_; simpl; try done.
    + split; unfold end_; simpl; rewrite ?zlen_drop; try done; try lia. intros ? [= <-]. lia.
    + rewrite Ep. simpl. rewrite Z.sub_0_r. unfold slice. by rewrite drop_0.
    + rewrite Ep. lia.
  - eexists. split; [done|]. unfold avail, end_ in *. simpl. rewrite zlen_drop by lia.
    split; [|repeat split; [lia..|by right]].
    split; unfold rest_of, back_of, held, end_; simpl; rewrite ?Ep; try done.
    split; unfold end_; simpl; rewrite ?zlen_drop; try done; try lia.
Qed.

(** The last round of the loop, when there is room behind the buffer. *)
Lemma preload_read fuel n c :
  cur_ok c -> 0 <= n -> avail c < n -> feof c = false -> n <= avail c + (BUFFER_SIZE - end_ c) ->
  exists c', preload_loop (S (S fuel)) n (avail c) c = Ret (avail c', c') /\ same_view c c' /\
    avail c' = Z.min n (zlen (rest_of c)) /\ (avail c' < n -> feof c' = true).
Proof.
  intros Hok Hn Hlt Hf Hroom. pose proof Hok as [Hc Hs Hp _].
  cbn [preload_loop]. rewrite (proj2 (Z.ltb_lt _ _)) by done. rewrite Hf. cbn [negb andb].
  assert (exists stale, (match pin_at c with
            | Some p => cassert (0 <=? p);; cassert (p <=? current c);; Ret p
            | None => Ret (current c)
            end) = Ret stale) as [stale ->].
  { destruct (pin_at c) as [p|] eqn:Ep; [|by eexists]. specialize (Hp p eq_refl).
    rewrite !(proj2 (Z.leb_le _ _)) by lia. by eexists. }
  cbn [mbind outcome_bind]. rewrite (proj2 (Z.leb_le _ _)) by done.
  rewrite (proj2 (Z.eqb_neq _ _)) by lia. cbn [negb].
  destruct (fread_view c (n - avail c) Hok ltac:(lia) ltac:(lia)) as (Hv & Ha & Hfe).
  replace (avail c + (n - avail c)) with n in * by lia.
  fold (avail (fread (n - avail c) c)). exists (fread (n - avail c) c). split; [|by split_and!].
  destruct (Z.ltb_spec (avail (fread (n - avail c) c)) n); [|done].
  rewrite Hfe by lia. done.
Qed.

Lemma preload_ok n c :
  cur_ok c -> 0 <= n -> n + held c <= BUFFER_SIZE ->
  exists c', preload n c = Ret (avail c', c') /\ same_view c c' /\
    Z.min n (zlen (rest_of c)) <= avail c' /\ (avail c' < n -> feof c' = true) /\ avail c <= avail c'.
Proof.
  intros Hok Hn Hroom. pose proof Hok as [Hc Hs Hp Hfe].
  unfold preload, casserts, cread, in_buffer, mbind, CO_bind.
  rewrite !(proj2 (Z.leb_le _ _)) by lia. cbn [andb cassert mbind outcome_bind].
  unfold preload_run. fold (avail c). pose proof (avail_rest c Hok) as Har.
  destruct (Z.ltb_spec (avail c) n) as [Hlt|Hge].
  2: { exists c. cbn [preload_loop]. rewrite (proj2 (Z.ltb_ge _ _)) by lia. cbn [andb].
       split; [done|]. split; [by apply same_view_refl|]. split_and!; lia. }
  destruct (feof c) eqn:Ef.
  { exists c. cbn [preload_loop]. rewrite Ef, andb_false_r. split; [done|].
    split; [by apply same_view_refl|]. split; [|split; [done|lia]]. unfold rest_of, avail in *. rewrite (Hfe eq_refl), app_nil_r in *.
    rewrite zlen_drop in * by (unfold end_ in *; lia). unfold end_ in *. lia. }
  destruct (Z.leb_spec n (avail c + (BUFFER_SIZE - end_ c))) as [Hle|Hgt].
  { destruct (preload_read 3 n c) as (c' & Hr & Hv & Ha & Hf'); try done.
    exists c'. split; [done|]. split; [done|]. split_and!; [lia|done|lia]. }
  set (stale := default (current c) (pin_at c)).
  destruct (compact_view c stale Hok eq_refl) as (c1 & Hcomp & Hv1 & Ha1 & Hf1 & He1 & Hc1 & Hp1).
  assert (stale = current c - held c) as Hst.
  { unfold stale, held. destruct (pin_at c); simpl; lia. }
  assert (stale <> 0) by (unfold avail in *; lia).
  destruct (preload_read 2 n c1) as (c' & Hr & Hv & Ha & Hf'); [by destruct Hv1 | done | lia | congruence | |].
  { unfold avail in *. lia. }
  exists c'. split; [|split; [by eapply same_view_trans|]].
  - change 5%nat with (S 4). remember 4%nat as k eqn:Hk. cbn [preload_loop].
    rewrite (proj2 (Z.ltb_lt _ _)) by done. rewrite Ef. cbn [negb andb].
    assert ((match pin_at c with
            | Some p => cassert (0 <=? p);; cassert (p <=? current c);; Ret p
            | None => Ret (current c)
            end) = Ret stale) as ->.
    { unfold stale. destruct (pin_at c) as [p|] eqn:Ep; [|done]. specialize (Hp p eq_refl).
      by rewrite !(proj2 (Z.leb_le _ _)) by lia. }
    cbn [mbind outcome_bind]. rewrite (proj2 (Z.leb_gt _ _)) by lia.
    rewrite (proj2 (Z.eqb_neq stale 0)) by done. cbn [Z.eqb negb]. rewrite Hcomp.
    cbn [mbind outcome_bind]. by rewrite <- Ha1.
  - destruct Hv1 as [_ Hrest _ _ _]. rewrite Hrest in Ha. split_and!; [lia|done|lia].
Qed.

(** ** Consuming text *)

(** [c'] is [c] after the text [t]. *)
Record consumed (c : cursor) (t : list Z) (c' : cursor) : Prop := {
  cs_ok : cur_ok c';
  cs_rest : rest_of c = t ++ rest_of c';
  cs_back : back_of c' = option_map (fun b => b ++ t) (back_of c);
  cs_held : held c' = match pin_at c with Some _ => held c + zlen t | None => 0 end;
  cs_pin : is_Some (pin_at c') <-> is_Some (pin_at c);
  cs_pins : pins c' = pins c
}.

Lemma held_None c : pin_at c = None -> held c = 0.
Proof. unfold held. by intros ->. Qed.

Lemma same_view_pin c c' : same_view c c' -> is_Some (pin_at c') <-> is_Some (pin_at c).
Proof.
  intros [_ _ Hb _ _]. unfold back_of in Hb.
  destruct (pin_at c'), (pin_at c); simplify_eq/=; split; intros [? ?]; eauto; done.
Qed.

Lemma consumed_view c c1 t c2 : same_view c c1 -> consumed c1 t c2 -> consumed c t c2.
Proof.
  intros Hv [? Hr Hb Hh Hp Hn]. pose proof (same_view_pin _ _ Hv) as Hpin.
  destruct Hv as [_ Hr1 Hb1 Hh1 Hn1]. split; [done|congruence|congruence| |by rewrite Hp|congruence].
  rewrite Hh, Hh1. destruct (pin_at c1), (pin_at c); try done;
    destruct Hpin as [H1 H2]; [destruct (H1 ltac:(by eexists))|destruct (H2 ltac:(by eexists))]; done.
Qed.

Lemma consumed_held c t c' : consumed c t c' -> 0 <= zlen t -> held c' <= held c + zlen t.
Proof. intros [? ? ? -> ? ?] ?. destruct (pin_at c) eqn:E; [lia|]. rewrite (held_None c E). lia. Qed.

Lemma consumed_trans c t1 c1 t2 c2 :
  consumed c t1 c1 -> consumed c1 t2 c2 -> consumed c (t1 ++ t2) c2.
Proof.
  intros [? Hr Hb Hh Hp Hn] [? Hr2 Hb2 Hh2 Hp2 Hn2]. split; [done| | | |by rewrite Hp2|congruence].
  - by rewrite Hr, Hr2, app_assoc.
  - rewrite Hb2, Hb. destruct (back_of c); simpl; [|done]. by rewrite app_assoc.
  - rewrite Hh2, Hh, zlen_app. destruct (pin_at c1), (pin_at c); try lia;
      destruct Hp as [H1 H2]; [destruct (H1 ltac:(by eexists))|destruct (H2 ltac:(by eexists))]; done.
Qed.

Lemma consumed_nil c c' : same_view c c' -> consumed c [] c'.
Proof.
  intros Hv. pose proof (same_view_pin _ _ Hv). destruct Hv as [? Hr Hb Hh Hn].
  split; try done.
  - rewrite Hb. destruct (back_of c); simpl; [by rewrite app_nil_r|done].
  - change (zlen (@nil Z)) with 0. rewrite Hh. destruct (pin_at c) eqn:E; [lia|by apply held_None].
Qed.

(** Moving [current] over bytes that are in the buffer. *)
Lemma set_current_consumed c t rest :
  cur_ok c -> rest_of c = t ++ rest -> zlen t <= avail c ->
  consumed c t (set_current (current c + zlen t) c) /\
  rest_of (set_current (current c + zlen t) c) = rest /\
  avail (set_current (current c + zlen t) c) = avail c - zlen t.
Proof.
  intros [Hc Hs Hp Hf] Hr Ha. unfold avail, end_ in *. pose proof (zlen_nonneg t).
  set (b := drop (Z.to_nat (current c)) (buffer c)).
  assert (zlen b = zlen (buffer c) - current c) as Hb by (apply zlen_drop; lia).
  assert (take (length t) b = t) as Ht.
  { unfold rest_of in Hr. fold b in Hr. apply (f_equal (take (length t))) in Hr.
    rewrite take_app_length in Hr. rewrite <- Hr at 2. rewrite take_app_le; [done|]. unfold zlen in *. lia. }
  assert (drop (Z.to_nat (current c + zlen t)) (buffer c) = drop (length t) b) as Hd.
  { unfold b. rewrite drop_drop. f_equal. unfold zlen in *. lia. }
  assert (drop (length t) b ++ stream c = rest) as Hrest.
  { unfold rest_of in Hr. fold b in Hr. apply (f_equal (drop (length t))) in Hr.
    rewrite drop_app_length in Hr. rewrite drop_app_le in Hr; [done|]. unfold zlen in *. lia. }
  split; [|split; [unfold rest_of; simpl; by rewrite Hd|simpl; lia]].
  split; unfold rest_of, back_of, held; simpl; try done.
  - split; unfold end_; simpl; try done; [lia|]. intros p Hpp. specialize (Hp p Hpp). lia.
  - fold b. rewrite Hd, app_assoc. f_equal. rewrite <- Ht at 1. by rewrite take_drop.
  - destruct (pin_at c) as [p|] eqn:Ep; simpl; [|done]. f_equal. specialize (Hp p eq_refl).
    replace (current c + zlen t - p) with ((current c - p) + zlen t) by lia.
    rewrite slice_app_split by lia. f_equal.
    replace (p + (current c - p)) with (current c) by lia. unfold slice. fold b.
    unfold zlen. by rewrite Nat2Z.id.
  - destruct (pin_at c); lia.
Qed.

(** ** The primitives *)

Lemma CO_bind_Ret {A B} (m : CO A) (f : A -> CO B) c a c' :
  m c = Ret (a, c') -> (m ≫= f) c = f a c'.
Proof. intros Hm. unfold mbind, CO_bind. by rewrite Hm. Qed.

Lemma casserts_true f c : f c = true -> casserts f c = Ret (tt, c).
Proof. intros Hf. unfold casserts, cread. by rewrite Hf. Qed.

Lemma in_buffer_ok c : cur_ok c -> in_buffer c = true.
Proof. intros [? _ _ _]. unfold in_buffer. rewrite !(proj2 (Z.leb_le _ _)); [done|lia..]. Qed.

Lemma before_end_ok c : cur_ok c -> 0 < avail c -> before_end c = true.
Proof.
  intros [? _ _ _] Ha. unfold before_end, avail in *.
  by rewrite (proj2 (Z.leb_le _ _)), (proj2 (Z.ltb_lt _ _)) by lia.
Qed.

Lemma available_ok c : cur_ok c -> available c = Ret (avail c, c).
Proof.
  intros Hok. unfold available.
  by rewrite (CO_bind_Ret _ _ _ _ _ (casserts_true _ _ (in_buffer_ok c Hok))).
Qed.

Lemma eof_ok c :
  cur_ok c -> held c < BUFFER_SIZE ->
  exists c', eof c = Ret (bool_decide (rest_of c = []), c') /\ same_view c c' /\
    (rest_of c <> [] -> 0 < avail c').
Proof.
  intros Hok Hh. destruct (preload_ok 1 c Hok ltac:(lia) ltac:(lia)) as (c' & Hp & Hv & Ha & Hf & _).
  pose proof Hv as [Hok' Hr _ _ _]. exists c'.
  assert (rest_of c <> [] -> 0 < avail c') as Hne.
  { intros Hne. destruct (rest_of c) as [|x l]; [done|]. rewrite zlen_cons in Ha.
    pose proof (zlen_nonneg l). lia. }
  split; [|by split].
  unfold eof. rewrite (CO_bind_Ret _ _ _ _ _ Hp).
  rewrite (CO_bind_Ret _ _ _ _ _ (casserts_true _ _ (in_buffer_ok c' Hok'))).
  unfold cread. cbn [mbind outcome_bind]. f_equal. f_equal.
  case_bool_decide as E.
  - rewrite Hf by (pose proof (avail_rest c' Hok') as H; rewrite Hr, E in H; change (zlen (@nil Z)) with 0 in H; lia).
    pose proof (avail_rest c' Hok') as H. rewrite Hr, E in H. change (zlen (@nil Z)) with 0 in H.
    unfold avail in H. rewrite (proj2 (Z.eqb_eq _ _)) by lia. done.
  - specialize (Hne E). unfold avail in Hne. rewrite (proj2 (Z.eqb_neq _ _)) by lia. done.
Qed.

Lemma buffer_at_current c x l :
  cur_ok c -> rest_of c = x :: l -> 0 < avail c -> buffer c @@ current c = Some x.
Proof.
  intros [Hc _ _ _] Hr Ha. unfold rest_of, avail, end_, zlookup in *.
  rewrite (proj2 (Z.ltb_ge _ _)) by lia.
  destruct (drop (Z.to_nat (current c)) (buffer c)) as [|y d] eqn:Ed.
  { apply (f_equal length) in Ed. rewrite length_drop in Ed. simpl in Ed. unfold zlen in *. lia. }
  simplify_eq/=. rewrite <- (Nat.add_0_r (Z.to_nat (current c))), <- lookup_drop, Ed. done.
Qed.

(** [_peek] returns the next byte, -1 at the end of the file. *)
Lemma peek_ok c :
  cur_ok c -> held c < BUFFER_SIZE ->
  exists c', peek c = Ret (match rest_of c with [] => -1 | x :: _ => x end, c') /\
    same_view c c' /\ (rest_of c <> [] -> 0 < avail c').
Proof.
  intros Hok Hh. destruct (eof_ok c Hok Hh) as (c' & He & Hv & Ha).
  pose proof Hv as [Hok' Hr _ _ _]. exists c'. split; [|by split].
  unfold peek. rewrite (CO_bind_Ret _ _ _ _ _ He).
  destruct (rest_of c) as [|x l] eqn:E; [by rewrite bool_decide_eq_true_2|].
  rewrite bool_decide_eq_false_2 by done. specialize (Ha ltac:(done)).
  rewrite (CO_bind_Ret _ _ _ _ _ (casserts_true _ _ (before_end_ok c' Hok' Ha))).
  unfold cread. by rewrite (buffer_at_current c' x l).
Qed.

Lemma next_ok c x l :
  cur_ok c -> rest_of c = x :: l -> 0 < avail c ->
  exists c', next c = Ret (tt, c') /\ consumed c [x] c' /\ rest_of c' = l.
Proof.
  intros Hok Hr Ha. unfold next.
  rewrite (CO_bind_Ret _ _ _ _ _ (casserts_true _ _ (before_end_ok c Hok Ha))).
  destruct (set_current_consumed c [x] l Hok) as (Hc & Hr' & _); [done|change (zlen [x]) with 1; lia|].
  eexists. split; [done|]. by split.
Qed.

(** [_skip] consumes the text if it is next, and nothing otherwise. *)
Lemma str_startswith_app t l :
  no_nul t -> str_startswith (t ++ l) (t ++ [0]) = Ret (Some l).
Proof.
  induction 1 as [|x t Hx Ht IH]; [by destruct l|]. simpl.
  rewrite (proj2 (Z.eqb_neq x 0)) by done. by rewrite Z.eqb_refl.
Qed.

Lemma str_startswith_not t s :
  no_nul t -> zlen t <= zlen s -> take (length t) s <> t -> str_startswith s (t ++ [0]) = Ret None.
Proof.
  intros Ht. revert s. induction Ht as [|x t Hx Ht IH]; intros s Hlen Hne; [by destruct Hne|].
  destruct s as [|y s]; [rewrite zlen_cons in Hlen; change (zlen (@nil Z)) with 0 in Hlen; pose proof (zlen_nonneg t); lia|].
  simpl. rewrite (proj2 (Z.eqb_neq x 0)) by done. destruct (Z.eqb_spec x y) as [->|]; [|done].
  rewrite !zlen_cons in Hlen. apply IH; [lia|]. intros E. apply Hne. simpl. by rewrite E.
Qed.

Lemma buffer_rest c :
  cur_ok c -> drop (Z.to_nat (current c)) (buffer c) = take (Z.to_nat (avail c)) (rest_of c).
Proof.
  intros [Hc _ _ _]. unfold rest_of, avail, end_ in *.
  rewrite take_app_length'; [done|]. rewrite length_drop. unfold zlen in *. lia.
Qed.

Lemma skip_yes c t l :
  cur_ok c -> no_nul t -> rest_of c = t ++ l -> zlen t + held c <= BUFFER_SIZE ->
  exists c', skip (t ++ [0]) c = Ret (true, c') /\ consumed c t c' /\ rest_of c' = l.
Proof.
  intros Hok Ht Hr Hh. pose proof (zlen_nonneg t). pose proof (zlen_nonneg l).
  destruct (preload_ok (zlen t) c Hok ltac:(lia) ltac:(lia)) as (c1 & Hp & Hv & Ha & _).
  pose proof Hv as [Hok1 Hr1 _ _ _]. rewrite Hr, zlen_app in Ha.
  unfold skip. erewrite CO_bind_Ret by (unfold cread; rewrite strlen_nul by done; done).
  rewrite (CO_bind_Ret _ _ _ _ _ Hp), (CO_bind_Ret _ _ _ _ _ (available_ok c1 Hok1)).
  rewrite (proj2 (Z.leb_le _ _)) by lia.
  assert (take (Z.to_nat (avail c1)) (rest_of c1) = t ++ take (Z.to_nat (avail c1) - length t) l) as Hb.
  { rewrite Hr1, Hr, take_app_ge by (unfold zlen in *; lia). done. }
  erewrite CO_bind_Ret by (unfold cread; rewrite buffer_rest, Hb, str_startswith_app by done; done).
  cbv iota. erewrite CO_bind_Ret by done.
  destruct (set_current_consumed c1 t l Hok1) as (Hc & Hr' & _); [congruence|lia|].
  exists (set_current (current c1 + zlen t) c1). split; [|split; [by eapply consumed_view|done]].
  cbv [mret CO_ret]. repeat f_equal. pose proof (avail_rest c1 Hok1) as Har. rewrite Hr1, Hr, zlen_app in Har.
  unfold zlen in *. rewrite length_take, Nat.min_l by lia. unfold avail, end_, zlen in *. lia.
Qed.

Lemma skip_no c t :
  cur_ok c -> no_nul t -> take (length t) (rest_of c) <> t -> zlen t + held c <= BUFFER_SIZE ->
  exists c', skip (t ++ [0]) c = Ret (false, c') /\ same_view c c' /\ avail c <= avail c' /\
    Z.min (zlen t) (zlen (rest_of c)) <= avail c'.
Proof.
  intros Hok Ht Hr Hh. pose proof (zlen_nonneg t).
  destruct (preload_ok (zlen t) c Hok ltac:(lia) ltac:(lia)) as (c1 & Hp & Hv & Ha & _ & Hm).
  pose proof Hv as [Hok1 Hr1 _ _ _]. exists c1. split; [|by split_and!].
  unfold skip. erewrite CO_bind_Ret by (unfold cread; rewrite strlen_nul by done; done).
  rewrite (CO_bind_Ret _ _ _ _ _ Hp), (CO_bind_Ret _ _ _ _ _ (available_ok c1 Hok1)).
  destruct (Z.leb_spec (zlen t) (avail c1)) as [Hle|]; [|done].
  pose proof (avail_rest c1 Hok1) as Har.
  rewrite (CO_bind_Ret _ _ c1 None c1); [done|]. unfold cread. rewrite buffer_rest by done. rewrite str_startswith_not; [done|done|..].
  - unfold zlen in *. rewrite length_take. lia.
  - rewrite take_take, Nat.min_l by (unfold zlen in *; lia). by rewrite Hr1.
Qed.

(** The buffer holds what is next, as far as it goes. *)
Lemma buffered c t l :
  cur_ok c -> rest_of c = t ++ l -> zlen t <= avail c ->
  exists n, drop (Z.to_nat (current c)) (buffer c) = t ++ take n l /\ zlen (take n l) = avail c - zlen t.
Proof.
  intros Hok Hr Ha. pose proof (avail_rest c Hok) as Har. rewrite Hr, zlen_app in Har.
  exists (Z.to_nat (avail c) - length t)%nat. split.
  - rewrite buffer_rest, Hr, take_app_ge by (try done; unfold zlen in *; lia). done.
  - unfold zlen in *. rewrite length_take. lia.
Qed.

Lemma preloaded_ok c t l :
  cur_ok c -> rest_of c = t ++ l -> 0 < avail c -> zlen t <= avail c ->
  exists n, preloaded c = Ret (t ++ take n l, c) /\ zlen (take n l) = avail c - zlen t.
Proof.
  intros Hok Hr H0 Ha. destruct (buffered c t l Hok Hr Ha) as (n & Hb & Hn). exists n. split; [|done].
  unfold preloaded. rewrite (CO_bind_Ret _ _ _ _ _ (casserts_true _ _ (before_end_ok c Hok H0))).
  unfold cread. by rewrite Hb.
Qed.

(** [_advance_to] a pointer with [tl] left behind it in the buffer. *)
Lemma advance_ok c t l (tl : list Z) :
  cur_ok c -> rest_of c = t ++ l -> zlen tl = avail c - zlen t ->
  exists c', (e ← cread (fun c => Ret (end_ c - zlen tl)); advance_to e) c = Ret (tt, c') /\
    consumed c t c' /\ rest_of c' = l.
Proof.
  intros Hok Hr Htl. pose proof (zlen_nonneg tl). pose proof (zlen_nonneg t).
  destruct (set_current_consumed c t l Hok Hr ltac:(lia)) as (Hc & Hr' & _).
  exists (set_current (current c + zlen t) c). split; [|done].
  assert (end_ c - zlen tl = current c + zlen t) as He by (unfold avail in *; lia).
  erewrite CO_bind_Ret by done. rewrite He. unfold advance_to.
  erewrite CO_bind_Ret by (apply casserts_true, Z.leb_le; lia).
  erewrite CO_bind_Ret by (apply casserts_true, Z.leb_le; unfold avail in *; lia).
  done.
Qed.

(** [_preload] of [n] bytes never fails an assertion and makes [n] bytes
    available, or all that is left of the file
    (with the end-of-file indicator set), as long as the pinned text leaves
    room for them in the buffer; what is left to parse and what is pinned stay
    the same wherever the buffer is moved. *)
Theorem preload_view n c :
  cur_ok c -> 0 <= n -> n + held c <= BUFFER_SIZE ->
  exists c', preload n c = Ret (avail c', c') /\ same_view c c' /\
    Z.min n (zlen (rest_of c)) <= avail c' /\ (avail c' < n -> feof c' = true) /\ avail c <= avail c'.
Proof. apply preload_ok. Qed.

(** A buffer that is full behind a pinned byte: the text before the pin is
    dropped to make room. *)
Definition demo_cursor : cursor := Cursor [7; 8; 9] false (repeat 5 1024) 1023 (Some 1022) 1.

Lemma preload_view_witness :
  exists c', preload 3 demo_cursor = Ret (avail c', c') /\ avail c' = 3 /\
    rest_of c' = [5; 7; 8; 9] /\ back_of c' = Some [5].
Proof.
  destruct (preload_view 3 demo_cursor) as (c' & Hp & [_ Hr Hb _ _] & Ha & _).
  - split; try done. by intros p [= <-].
  - done.
  - done.
  - exists c'. split; [exact Hp|]. vm_compute in Hp. injection Hp as Hav Hc.
    split; [by rewrite <- Hav at 1; by vm_compute|]. split; [rewrite Hr; by vm_compute|rewrite Hb; by vm_compute].
Defined.
