(* ===== verification/MdpFilterParse.v ===== *)
(** * The rules parser on printed text

    What each function of the parser does on the text of the construct it
    parses, through the buffered cursor. *)

From Stdlib Require Import ZArith Lia Ascii String.
From stdpp Require Import base tactics list fin_maps gmap infinite.
From S2P Require Import Prelude Memory Cstring Ctype Str StrHex Strbuf StrbufSpec StrNumbers DataFormats DataFormatsSpec.
From S2P Require Import OverlayBuffer OverlayAddress OverlayAddressFacts OverlayAddressWalk OverlayAddressSpec.
From S2P Require Import MdpFilter MdpFilterCursor.

Local Open Scope Z_scope.

(** ** White space and separators *)

Lemma space_loop_ok n : forall fuel ret c l,
  cur_ok c -> rest_of c = replicate n 32 ++ l -> head l <> Some 32 -> (n < fuel)%nat ->
  held c + Z.of_nat n < BUFFER_SIZE ->
  exists r c', space_loop fuel ret c = Ret (r, c') /\ consumed c (replicate n 32) c' /\ rest_of c' = l.
Proof.
  induction n as [|n IH]; intros fuel ret c l Hok Hr Hl Hf Hh; (destruct fuel as [|fuel]; [lia|]);
    cbn [space_loop]; simpl replicate in *; simpl app in Hr;
    destruct (peek_ok c Hok ltac:(lia)) as (c1 & Hp & Hv & Ha); rewrite (CO_bind_Ret _ _ _ _ _ Hp).
  - assert ((match rest_of c with [] => -1 | x :: _ => x end =? 32) = false) as ->.
    { rewrite Hr. destruct l as [|x l]; [done|]. apply Z.eqb_neq. simpl in Hl. congruence. }
    exists ret, c1. split; [done|]. split; [by apply consumed_nil|]. destruct Hv. congruence.
  - rewrite Hr. cbn [Z.eqb Pos.eqb]. pose proof Hv as [Hok1 Hr1 _ Hh1 _].
    destruct (next_ok c1 32 (replicate n 32 ++ l)) as (c2 & Hn & Hc & Hr2); [done|congruence|by apply Ha; rewrite Hr|].
    rewrite (CO_bind_Ret _ _ _ _ _ Hn).
    pose proof (consumed_held _ _ _ Hc ltac:(by vm_compute)) as Hh2. change (zlen [32]) with 1 in Hh2.
    destruct (IH fuel true c2 l) as (r & c' & Hs & Hc' & Hr'); [by destruct Hc|done|done|lia|lia|].
    exists r, c'. split; [done|]. split; [|done].
    apply (consumed_trans c [32] c2); [by eapply consumed_view|done].
Qed.

Lemma unread_rest c : cur_ok c -> (length (rest_of c) <= unread c)%nat.
Proof. intros _. unfold rest_of, unread. rewrite length_app, length_drop. lia. Qed.

Lemma optspace_ok n c l :
  cur_ok c -> rest_of c = replicate n 32 ++ l -> head l <> Some 32 ->
  held c + Z.of_nat n < BUFFER_SIZE ->
  exists c', _optspace c = Ret (true, c') /\ consumed c (replicate n 32) c' /\ rest_of c' = l.
Proof.
  intros Hok Hr Hl Hh. pose proof (unread_rest c Hok) as Hu.
  rewrite Hr, length_app, length_replicate in Hu.
  destruct (space_loop_ok n (S (unread c)) false c l) as (r & c' & Hs & Hc & Hr'); try done; [lia|].
  exists c'. split; [|done]. unfold _optspace, _space.
  rewrite (CO_bind_Ret (fun c => space_loop (S (unread c)) false c) _ _ _ _ Hs). done.
Qed.

Definition is_sep (x : Z) : bool := (x =? 10) || (x =? 59).

Lemma sep_yes c x l :
  cur_ok c -> rest_of c = x :: l -> is_sep x = true -> held c < BUFFER_SIZE ->
  exists c', _sep c = Ret (true, c') /\ consumed c [x] c' /\ rest_of c' = l.
Proof.
  intros Hok Hr Hx Hh. destruct (peek_ok c Hok Hh) as (c1 & Hp & Hv & Ha).
  pose proof Hv as [Hok1 Hr1 _ Hh1 _]. rewrite Hr in *. specialize (Ha ltac:(done)).
  unfold _sep. rewrite (CO_bind_Ret _ _ _ _ _ Hp). unfold is_sep in Hx.
  destruct (Z.eqb_spec x 10) as [->|].
  - erewrite CO_bind_Ret by done. cbv iota.
    destruct (next_ok c1 10 l) as (c2 & Hn & Hc & Hr2); [done..|].
    rewrite (CO_bind_Ret _ _ _ _ _ Hn). exists c2. split; [done|]. split; [by eapply consumed_view|done].
  - destruct (peek_ok c1 Hok1 ltac:(lia)) as (c2 & Hp2 & Hv2 & Ha2). rewrite Hr1 in Hp2, Ha2.
    erewrite CO_bind_Ret by (rewrite (CO_bind_Ret _ _ _ _ _ Hp2); done).
    simpl in Hx. rewrite Hx. pose proof Hv2 as [Hok2 Hr2 _ _ _].
    destruct (next_ok c2 x l) as (c3 & Hn & Hc & Hr3); [done|congruence|by apply Ha2|].
    rewrite (CO_bind_Ret _ _ _ _ _ Hn). exists c3. split; [done|]. split; [|done].
    eapply consumed_view; [|done]. by eapply same_view_trans.
Qed.

(** ** Ports *)

(** A place where a number ends: the end of the file, or no hexadecimal digit. *)
Definition no_digit (l : list Z) : Prop :=
  match l with [] => True | x :: _ => is_byte x /\ isxdigit x = false end.

Lemma no_digit_ends base l : no_digit l -> l <> [] -> ends_digits base l.
Proof.
  destruct l as [|x l]; [done|]. intros [Hb Hx] _. split; [done|].
  unfold is_digit_of. by rewrite Hx.
Qed.

Definition read_port (base need : Z) : CO (option Z) :=
  preload need;;
  s ← preloaded;
  n ← available;
  r ← cread (fun _ => strn_to_uint32 s n base true);
  if p_ok r then
    (e ← cread (fun c => Ret (end_ c - zlen (p_end r))); advance_to e);;
    mret (Some (p_value r))
  else mret None.

Lemma port_read c : _port c =
  (hex ← skip (cstr "0x"); read_port (if hex : bool then 16 else 10) (if hex then 8 else 10)) c.
Proof. reflexivity. Qed.

Lemma read_port_ok base need c ds l :
  cur_ok c -> rest_of c = ds ++ l -> Forall (fun x => is_digit_of base x = true) ds -> ds <> [] ->
  1 <= base <= 16 -> zlen ds <= need -> need + held c <= BUFFER_SIZE ->
  radix_value base 0 ds < 2 ^ 32 -> no_digit l ->
  exists c', read_port base need c = Ret (Some (radix_value base 0 ds), c') /\
    consumed c ds c' /\ rest_of c' = l.
Proof.
  intros Hok Hr Hds Hne Hbase Hneed Hh Hv Hl. pose proof (zlen_nonneg ds). pose proof (zlen_nonneg l).
  assert (0 < zlen ds) by (destruct ds; [done|rewrite zlen_cons; pose proof (zlen_nonneg ds); lia]).
  destruct (preload_ok need c Hok ltac:(lia) ltac:(lia)) as (c1 & Hp & Hvw & Ha & _).
  pose proof Hvw as [Hok1 Hr1 _ _ _]. rewrite Hr, zlen_app in Ha.
  unfold read_port. rewrite (CO_bind_Ret _ _ _ _ _ Hp).
  destruct (preloaded_ok c1 ds l) as (m & Hpl & Htl); [done|congruence|lia|lia|].
  rewrite (CO_bind_Ret _ _ _ _ _ Hpl), (CO_bind_Ret _ _ _ _ _ (available_ok c1 Hok1)).
  erewrite CO_bind_Ret.
  2: { unfold cread, strn_to_uint32. rewrite strn_to_uint_digits; try done; try lia.
       unfold digits_stop. rewrite (proj2 (Z.eqb_neq (avail c1) 0)) by lia.
       destruct (decide (avail c1 = zlen ds)) as [E|E]; [by left|]. right. split; [lia|].
       apply (no_digit_ends base).
       - destruct l as [|x l]; [by rewrite take_nil|]. destruct m; [done|exact Hl].
       - intros Hnil. rewrite Hnil in Htl. change (zlen (@nil Z)) with 0 in Htl. lia. }
  cbn [p_ok p_end p_value orb].
  destruct (advance_ok c1 ds l (take m l)) as (c2 & Hadv & Hc & Hr'); [done|congruence|done|].
  rewrite (CO_bind_Ret _ _ _ _ _ Hadv). exists c2. split; [done|]. split; [by eapply consumed_view|done].
Qed.

Definition hexdigit_ok (n : Z) : bool :=
  let c := hexdigit_lower n in is_digit_of 16 c && (hexval c =? n).

Lemma hexdigit_lower_ok n :
  0 <= n < 16 -> is_digit_of 16 (hexdigit_lower n) = true /\ hexval (hexdigit_lower n) = n.
Proof.
  intros Hn. assert (hexdigit_ok n = true) as H.
  { assert (forallb hexdigit_ok (seqZ 0 16) = true) as Hall by (vm_compute; reflexivity).
    rewrite forallb_forall in Hall. apply Hall, list_elem_of_In, elem_of_seqZ. lia. }
  unfold hexdigit_ok in H. bsplit. done.
Qed.

Lemma hex_digits_ok n v :
  0 <= v ->
  Forall (fun c => is_digit_of 16 c = true) (hex_digits n v) /\ length (hex_digits n v) = n /\
  radix_value 16 0 (hex_digits n v) = v mod 16 ^ Z.of_nat n.
Proof.
  revert v. induction n as [|n IH]; intros v Hv; cbn [hex_digits].
  { split; [constructor|]. split; [done|]. by rewrite Z.mod_1_r. }
  destruct (IH (v / 16)) as (Hd & Hl & Hr); [dmlia|].
  destruct (hexdigit_lower_ok (v mod 16)) as [Hx Hval]; [apply Z.mod_pos_bound; lia|].
  split; [apply Forall_app_2; [done|by repeat constructor]|].
  split; [rewrite length_app, Hl; simpl; lia|].
  rewrite radix_value_app, Hr. unfold radix_value. simpl foldl. rewrite Hval.
  replace (Z.of_nat (S n)) with (1 + Z.of_nat n) by lia. rewrite Z.pow_add_r by lia.
  change (16 ^ 1) with 16. rewrite Z.rem_mul_r by lia. lia.
Qed.

Lemma fmt_port_length v : zlen (fmt_port v) = 10.
Proof.
  unfold fmt_port. destruct (v =? 0); [done|]. rewrite zlen_app. change (zlen (zs "0x")) with 2.
  unfold zlen. cbn [hex_digits]. repeat rewrite length_app. done.
Qed.

Lemma fmt_port_head v : exists x l, fmt_port v = x :: l /\ x = 48.
Proof. unfold fmt_port. destruct (v =? 0); by eexists _, _. Qed.

Lemma port_ok c v l :
  cur_ok c -> 0 <= v < 2 ^ 32 -> rest_of c = fmt_port v ++ l -> no_digit l ->
  held c + 12 <= BUFFER_SIZE ->
  exists c', _port c = Ret (Some v, c') /\ consumed c (fmt_port v) c' /\ rest_of c' = l.
Proof.
  intros Hok Hv Hr Hl Hh. rewrite port_read. unfold fmt_port in *.
  destruct (Z.eqb_spec v 0) as [->|Hv0].
  - destruct (skip_no c (zs "0x")) as (c1 & Hs & Hvw & _); [done|by repeat constructor| | |].
    { rewrite Hr. by vm_compute. }
    { change (zlen (zs "0x")) with 2. lia. }
    rewrite (CO_bind_Ret _ _ _ _ _ Hs). pose proof Hvw as [Hok1 Hr1 _ Hh1 _].
    destruct (read_port_ok 10 10 c1 (repeat 48 10) l) as (c2 & Hp & Hc & Hr2);
      [done|congruence| |done|lia|by vm_compute|lia|by vm_compute|done|].
    { by repeat constructor. }
    exists c2. split; [exact Hp|]. split; [by eapply consumed_view|done].
  - rewrite <- app_assoc in Hr. destruct (hex_digits_ok 8 v) as (Hd & Hlen & Hval); [lia|].
    destruct (skip_yes c (zs "0x") (hex_digits 8 v ++ l)) as (c1 & Hs & Hc & Hr1);
      [done|by repeat constructor|done|change (zlen (zs "0x")) with 2; lia|].
    rewrite (CO_bind_Ret _ _ _ _ _ Hs).
    pose proof (consumed_held _ _ _ Hc ltac:(by vm_compute)) as Hh1. change (zlen (zs "0x")) with 2 in Hh1.
    change (16 ^ Z.of_nat 8) with (2 ^ 32) in Hval. rewrite Z.mod_small in Hval by lia.
    destruct (read_port_ok 16 8 c1 (hex_digits 8 v) l) as (c2 & Hp & Hc2 & Hr2);
      [by destruct Hc|done|done| |lia|unfold zlen; lia|lia|lia|done|].
    { intros E. by rewrite E in Hlen. }
    rewrite Hval in Hp. exists c2. split; [exact Hp|]. split; [by eapply consumed_trans|done].
Qed.

(** The text of a port range without its colon, as [strbuf_append_mdp_portrange]
    prints it. *)
Definition range_text (r : mdp_portrange) : list Z :=
  fmt_port (port_first r) ++
  (if negb (port_last r =? port_first r) then 45 :: fmt_port (port_last r) else []).

Definition range_ok (r : mdp_portrange) : Prop :=
  0 <= port_first r < 2 ^ 32 /\ 0 <= port_last r < 2 ^ 32.

(** What may follow an endpoint: the end of the file or a byte that does not
    continue it. *)
Definition ends_endpoint (l : list Z) : Prop :=
  no_digit l /\ head l <> Some 32 /\ head l <> Some 58 /\ head l <> Some 45.

Lemma no_digit_spaces n l : no_digit l -> no_digit (replicate n 32 ++ l).
Proof. destruct n; [done|]. intros _. split; [unfold is_byte; lia|done]. Qed.

Lemma peek_is_not c x :
  cur_ok c -> held c < BUFFER_SIZE -> 0 <= x -> head (rest_of c) <> Some x ->
  exists ch c', peek c = Ret (ch, c') /\ same_view c c' /\ (ch =? x) = false.
Proof.
  intros Hok Hh Hx Hne. destruct (peek_ok c Hok Hh) as (c' & Hp & Hv & _).
  eexists _, c'. split; [done|]. split; [done|]. apply Z.eqb_neq.
  destruct (rest_of c); simpl in *; [lia|congruence].
Qed.

Lemma portrange_ok c r n l :
  cur_ok c -> range_ok r -> rest_of c = range_text r ++ replicate n 32 ++ l -> ends_endpoint l ->
  held c + 40 + Z.of_nat n <= BUFFER_SIZE ->
  exists c' k, _portrange c = Ret (Some r, c') /\ (k <= n)%nat /\
    consumed c (range_text r ++ replicate (n - k) 32) c' /\ rest_of c' = replicate k 32 ++ l.
Proof.
  intros Hok [Hf Hl] Hr (Hnd & H32 & H58 & H45) Hh. unfold range_text in *. unfold _portrange.
  rewrite <- app_assoc in Hr.
  destruct (port_ok c (port_first r)
              ((if negb (port_last r =? port_first r) then 45 :: fmt_port (port_last r) else [])
               ++ replicate n 32 ++ l)) as (c1 & Hp & Hc1 & Hr1); [done|done|done| |lia|].
  { destruct (negb _); [split; [unfold is_byte; lia|done]|by apply no_digit_spaces]. }
  rewrite (CO_bind_Ret _ _ _ _ _ Hp). cbv iota.
  pose proof (consumed_held _ _ _ Hc1 ltac:(apply zlen_nonneg)) as Hh1. rewrite fmt_port_length in Hh1.
  destruct (Z.eqb_spec (port_last r) (port_first r)) as [Heq|Hne]; cbn [negb] in *.
  - destruct (optspace_ok n c1 l) as (c2 & Ho & Hc2 & Hr2); [by destruct Hc1|done|done|lia|].
    rewrite (CO_bind_Ret _ _ _ _ _ Ho).
    pose proof (consumed_held _ _ _ Hc2 ltac:(apply zlen_nonneg)) as Hh2.
    unfold zlen in Hh2. rewrite length_replicate in Hh2.
    destruct (peek_is_not c2 45) as (ch & c3 & Hpk & Hv & Hch); [by destruct Hc2|lia|lia|by rewrite Hr2|].
    rewrite (CO_bind_Ret _ _ _ _ _ Hpk), Hch. exists c3, 0%nat. split; [destruct r; simpl in *; by subst|]. split; [lia|].
    rewrite app_nil_r, Nat.sub_0_r. pose proof Hv as [_ Hr3 _ _ _]. split; [|simpl; congruence].
    rewrite <- (app_nil_r (replicate n 32)). eapply consumed_trans; [done|].
    eapply consumed_trans; [done|]. by apply consumed_nil.
  - destruct (optspace_ok 0 c1 (45 :: fmt_port (port_last r) ++ replicate n 32 ++ l))
      as (c2 & Ho & Hc2 & Hr2); [by destruct Hc1|done|done|lia|].
    rewrite (CO_bind_Ret _ _ _ _ _ Ho).
    pose proof (consumed_held _ _ _ Hc2 ltac:(apply zlen_nonneg)) as Hh2. change (zlen (replicate 0 32)) with 0 in Hh2.
    destruct (peek_ok c2) as (c3 & Hpk & Hv3 & Ha3); [by destruct Hc2|lia|].
    rewrite (CO_bind_Ret _ _ _ _ _ Hpk), Hr2. cbn [Z.eqb Pos.eqb]. pose proof Hv3 as [Hok3 Hr3 _ Hh3 _].
    destruct (next_ok c3 45 (fmt_port (port_last r) ++ replicate n 32 ++ l)) as (c4 & Hn & Hc4 & Hr4);
      [done|congruence|by apply Ha3; rewrite Hr2|].
    rewrite (CO_bind_Ret _ _ _ _ _ Hn).
    pose proof (consumed_held _ _ _ Hc4 ltac:(apply zlen_nonneg)) as Hh4. change (zlen [45]) with 1 in Hh4.
    destruct (fmt_port_head (port_last r)) as (x & lx & Ex & Hx48).
    destruct (optspace_ok 0 c4 (fmt_port (port_last r) ++ replicate n 32 ++ l))
      as (c5 & Ho5 & Hc5 & Hr5); [by destruct Hc4|done|by rewrite Ex; simpl; intros [= ?]; lia|lia|].
    rewrite (CO_bind_Ret _ _ _ _ _ Ho5).
    pose proof (consumed_held _ _ _ Hc5 ltac:(apply zlen_nonneg)) as Hh5. change (zlen (replicate 0 32)) with 0 in Hh5.
    destruct (port_ok c5 (port_last r) (replicate n 32 ++ l)) as (c6 & Hp6 & Hc6 & Hr6);
      [by destruct Hc5|done|done|by apply no_digit_spaces|lia|].
    rewrite (CO_bind_Ret _ _ _ _ _ Hp6). exists c6, n. split; [by destruct r|]. split; [done|]. split; [|done].
    rewrite Nat.sub_diag, app_nil_r.
    eapply consumed_trans; [done|]. apply (consumed_trans c1 [] c3); [eapply (consumed_trans c1 [] c2 []);
      [done|by apply consumed_nil]|]. apply (consumed_trans c3 [45] c4); [done|].
    by apply (consumed_trans c4 [] c5).
Qed.

(** ** Endpoints *)

Lemma strn_to_sid_t_hex `{Arch} id tl n :
  bytes id -> zlen id = SID_SIZE -> 64 <= n ->
  strn_to_sid_t (hex_of id ++ tl) n = Ret (Some (id, tl)).
Proof.
  intros Hb Hlen Hn. unfold strn_to_sid_t.
  rewrite hex_not_broadcast; [|done|by intros ->|lia]. cbn [mbind outcome_bind].
  change (SID_SIZE * 2) with 64. rewrite (proj2 (Z.ltb_ge n 64)) by lia.
  rewrite <- Hlen, fromhex_hex_of by done. cbn [mbind outcome_bind]. rewrite Hlen.
  change (negb (s32 SID_SIZE =? SID_SIZE)) with false. cbv iota.
  rewrite drop_app_length'; [done|].
  pose proof (zlen_hex_of id) as E. rewrite Hlen in E. unfold zlen in E. change (2 * SID_SIZE) with 64 in E. lia.
Qed.

Lemma CM_bind_Ret {A B} (m : CM A) (f : A -> CM B) c st h a c' st' h' :
  m c st h = Ret ((a, c'), st', h') -> (m ≫= f) c st h = f a c' st' h'.
Proof. intros Hm. unfold mbind at 1, CM_bind. by rewrite (OM_bind_Ret _ _ _ _ _ _ _ Hm). Qed.

Lemma CM_bind_ext {A B} (m1 m2 : CM A) (f : A -> CM B) c1 c2 st1 st2 h1 h2 :
  m1 c1 st1 h1 = m2 c2 st2 h2 -> (m1 ≫= f) c1 st1 h1 = (m2 ≫= f) c2 st2 h2.
Proof.
  intros Hm. unfold mbind at 1, CM_bind. rewrite OM_bind_run, Hm. symmetry.
  unfold mbind at 1, CM_bind. by rewrite OM_bind_run.
Qed.

Lemma clift_Ret {A} (m : CO A) c st h a c' :
  m c = Ret (a, c') -> clift m c st h = Ret ((a, c'), st, h).
Proof. intros Hm. unfold clift, oout. rewrite olift_run. unfold hlift. by rewrite Hm. Qed.

(** Run the next statement, whose effect is [H]; keep track of the pinned text. *)
Ltac crun H :=
  first [ rewrite (CM_bind_Ret _ _ _ _ _ _ _ _ _ H)
        | rewrite (CM_bind_Ret _ _ _ _ _ _ _ _ _ (clift_Ret _ _ _ _ _ _ H)) ].
Ltac cheld H name :=
  pose proof (consumed_held _ _ _ H ltac:(apply zlen_nonneg)) as name.

(** What [strbuf_append_packet_rule] prints for one side of a rule. *)
Definition sid_text (m : sub_heap) (sub : option nat) : list Z :=
  match sub with
  | Some p => match m !! p with Some s => hex_of (sid s) | None => [] end
  | None => [42]
  end.
Definition endpoint_text (m : sub_heap) (sub : option nat) (ports : option mdp_portrange) : list Z :=
  sid_text m sub ++ match ports with Some r => 58 :: range_text r | None => [] end.

Definition endpoint_rule (s : side) (sub : option nat) (ports : option mdp_portrange)
    (rule : packet_rule) : packet_rule :=
  let rule := set_subscriber s sub rule in
  match ports with
  | Some r => set_flags (Z.lor (flags rule) (port_flag s)) (set_ports s r rule)
  | None => rule
  end.

Definition sub_known (st : oa_state) (sub : option nat) : Prop :=
  match sub with Some p => p ∈ known st | None => True end.
Definition ports_ok (ports : option mdp_portrange) : Prop :=
  match ports with Some r => range_ok r | None => True end.

Lemma range_text_length r : zlen (range_text r) <= 21.
Proof.
  unfold range_text. rewrite zlen_app, fmt_port_length. destruct (negb _);
    rewrite ?zlen_cons, ?fmt_port_length; [lia|]. change (zlen (@nil Z)) with 0. lia.
Qed.

Section endpoint.
Context {AR : Arch} {AL : Allocator} (sizeof_subscriber sizeof_tree_node : Z).
Variables (st : oa_state) (k0 : nat).
Hypothesis Hwf : wf_node k0 (subs st) [] (root st).

Lemma known_sub p :
  p ∈ known st -> exists s, subs st !! p = Some s /\ length (sid s) = 32%nat /\
    Forall is_byte (sid s) /\ abbreviate_len s <= 64.
Proof.
  intros Hp. pose proof Hwf as [_ Hn]. pose proof Hp as (i & sl & Hi & Hpi)%elem_of_flat_map_slots.
  destruct (wf_slot_sub _ _ _ _ _ (Hn i sl Hi) Hpi) as (s & Hs & Hl & Hb & _).
  exists s. split_and!; try done. eapply wf_slot_abbrev; [by apply Hn|done..].
Qed.

Lemma sid_text_length sub : sub_known st sub -> zlen (sid_text (subs st) sub) <= 64.
Proof.
  destruct sub as [p|]; [|done]. intros (s & Hs & Hl & _)%known_sub. simpl. rewrite Hs, zlen_hex_of.
  unfold zlen. lia.
Qed.

Lemma endpoint_sid_ok s rule c sub l h :
  cur_ok c -> sub_known st sub -> rest_of c = sid_text (subs st) sub ++ l ->
  held c + 64 <= BUFFER_SIZE -> Z.min 64 (zlen (rest_of c)) <= avail c ->
  exists c', endpoint_sid sizeof_subscriber sizeof_tree_node s rule c st h =
    Ret (((true, set_subscriber s sub rule), c'), st, h) /\
    consumed c (sid_text (subs st) sub) c' /\ rest_of c' = l.
Proof.
  intros Hok Hk Hr Hh Hav. unfold endpoint_sid. destruct sub as [p|]; cycle 1.
  - destruct (skip_yes c [42] l) as (c1 & Hs & Hc & Hr1); [done|by repeat constructor|done|change (zlen [42]) with 1; lia|].
    crun Hs. by exists c1.
  - destruct (known_sub p Hk) as (sb & Hsb & Hlen & Hby & Habb). simpl in Hr |- *. rewrite Hsb in *.
    assert (zlen (sid sb) = SID_SIZE) as Hz by (unfold zlen, SID_SIZE; lia).
    pose proof (zlen_hex_of (sid sb)) as Hzh. rewrite Hz in Hzh. change (2 * SID_SIZE) with 64 in Hzh.
    destruct (sid sb) as [|b bs] eqn:Esid; [done|].
    destruct (skip_no c [42]) as (c1 & Hs & Hv & Hm & _); [done|by repeat constructor| |change (zlen [42]) with 1; lia|].
    { rewrite Hr, hex_of_cons. simpl. intros [= E]. apply Forall_cons_iff in Hby as [Hb _].
      pose proof (byte_nibbles b Hb) as [Hn _]. revert E. unfold hexdig. zcase; lia. }
    crun Hs. rewrite <- Esid in *. cbv iota.
    pose proof Hv as [Hok1 Hr1 _ _ _]. rewrite Hr, zlen_app in Hav. pose proof (zlen_nonneg l).
    destruct (preloaded_ok c1 (hex_of (sid sb)) l) as (m & Hpl & Htl); [done|congruence|lia|lia|].
    crun Hpl.
    rewrite (CM_bind_Ret _ _ _ _ _ _ _ _ _ (clift_Ret _ _ st h _ _ (available_ok c1 Hok1))).
    erewrite CM_bind_Ret by (apply clift_Ret; unfold cread; rewrite strn_to_sid_t_hex by (done || lia); done).
    cbv iota. erewrite CM_bind_Ret.
    2: { unfold csub. erewrite OM_bind_Ret; [done|]. change SID_SIZE with (Z.of_nat 32).
         eapply find_known; [exact Hwf|exact Hk|exact Hsb|done|lia|lia|lia]. }
    cbv iota. destruct (advance_ok c1 (hex_of (sid sb)) l (take m l)) as (c2 & Hadv & Hc & Hr');
      [done|congruence|done|].
    crun Hadv.
    exists c2. split; [done|]. split; [by eapply consumed_view|done].
Qed.

Abbreviation endpoint := (_endpoint sizeof_subscriber sizeof_tree_node).

Lemma endpoint_ok s rule c sub ports n l h :
  cur_ok c -> sub_known st sub -> ports_ok ports ->
  rest_of c = endpoint_text (subs st) sub ports ++ replicate n 32 ++ l -> ends_endpoint l ->
  held c + 200 + Z.of_nat n <= BUFFER_SIZE ->
  exists c' k, endpoint s rule c st h = Ret (((true, endpoint_rule s sub ports rule), c'), st, h) /\
    (k <= n)%nat /\ consumed c (endpoint_text (subs st) sub ports ++ replicate (n - k) 32) c' /\
    rest_of c' = replicate k 32 ++ l.
Proof.
  intros Hok Hk Hp Hr Hl Hh. pose proof Hl as (Hnd & H32 & H58 & H45).
  unfold _endpoint, endpoint_text in *. rewrite <- app_assoc in Hr. pose proof (sid_text_length sub Hk) as Hsl.
  destruct (preload_ok 64 c Hok ltac:(lia) ltac:(lia)) as (c1 & Hpre & Hv1 & Ha1 & _).
  change SID_STRLEN with 64. pose proof Hv1 as [Hok1 Hr1 _ Hh1 _].
  crun Hpre.
  destruct (endpoint_sid_ok s rule c1 sub _ h Hok1 Hk ltac:(rewrite Hr1; exact Hr) ltac:(lia)
              ltac:(rewrite Hr1; exact Ha1)) as (c2 & Hs & Hc2 & Hr2).
  crun Hs. cbn [negb].
  cheld Hc2 Hh2.
  assert (consumed c (sid_text (subs st) sub) c2) as Hcc2 by (by eapply consumed_view).
  destruct ports as [r|].
  - destruct (optspace_ok 0 c2 (58 :: range_text r ++ replicate n 32 ++ l)) as (c3 & Ho & Hc3 & Hr3);
      [by destruct Hc2|exact Hr2|done|lia|].
    crun Ho.
    cheld Hc3 Hh3. change (zlen (replicate 0 32)) with 0 in Hh3.
    destruct (peek_ok c3) as (c4 & Hpk & Hv4 & Ha4); [by destruct Hc3|lia|].
    crun Hpk. rewrite Hr3. cbn [Z.eqb Pos.eqb].
    pose proof Hv4 as [Hok4 Hr4 _ Hh4 _].
    destruct (next_ok c4 58 (range_text r ++ replicate n 32 ++ l)) as (c5 & Hn & Hc5 & Hr5);
      [done|congruence|by apply Ha4; rewrite Hr3|].
    crun Hn.
    cheld Hc5 Hh5. change (zlen [58]) with 1 in Hh5.
    destruct (optspace_ok 0 c5 (range_text r ++ replicate n 32 ++ l)) as (c6 & Ho6 & Hc6 & Hr6);
      [by destruct Hc5|done| |lia|].
    { unfold range_text. destruct (fmt_port_head (port_first r)) as (x & lx & -> & Hx).
      simpl. intros [= ?]. lia. }
    crun Ho6.
    cheld Hc6 Hh6. change (zlen (replicate 0 32)) with 0 in Hh6.
    destruct (portrange_ok c6 r n l) as (c7 & k & Hpr & Hkn & Hc7 & Hr7); [by destruct Hc6|done|done|done|lia|].
    crun Hpr.
    exists c7, k. split; [done|]. split; [done|]. split; [|done]. rewrite <- app_assoc.
    eapply consumed_trans; [exact Hcc2|]. apply (consumed_trans c2 [] c4).
    { apply (consumed_trans c2 [] c3 []); [done|by apply consumed_nil]. }
    apply (consumed_trans c4 [58] c5); [done|]. by apply (consumed_trans c5 [] c6).
  - simpl app in Hr2. destruct (optspace_ok n c2 l) as (c3 & Ho & Hc3 & Hr3);
      [by destruct Hc2|done|done|lia|].
    crun Ho.
    cheld Hc3 Hh3.
    unfold zlen in Hh3 at 1. rewrite length_replicate in Hh3.
    destruct (peek_is_not c3 58) as (ch & c4 & Hpk & Hv & Hch); [by destruct Hc3|lia|lia|by rewrite Hr3|].
    crun Hpk. rewrite Hch.
    exists c4, 0%nat. split; [done|]. split; [lia|]. rewrite app_nil_r, Nat.sub_0_r.
    pose proof Hv as [_ Hr4 _ _ _]. split; [|simpl; congruence].
    eapply consumed_trans; [exact Hcc2|]. rewrite <- (app_nil_r (replicate n 32)).
    eapply consumed_trans; [done|by apply consumed_nil].
Qed.
End endpoint.

(** ** Rules *)

(** Nothing is pinned. *)
Definition idle (c : cursor) : Prop := cur_ok c /\ pin_at c = None /\ pins c = 0.

Lemma idle_held c : idle c -> held c = 0.
Proof. intros (_ & Hp & _). by apply held_None. Qed.

Lemma consumed_idle c t c' : idle c -> consumed c t c' -> idle c'.
Proof.
  intros (_ & Hp & Hn) [? _ _ _ Hpin Hpins]. split_and!; [done| |congruence].
  destruct (pin_at c'); [|done]. destruct Hpin as [H1 _]. rewrite Hp in H1. by destruct (H1 ltac:(by eexists)).
Qed.

Lemma same_view_idle c c' : idle c -> same_view c c' -> idle c'.
Proof. intros Hi Hv%consumed_nil. by eapply consumed_idle. Qed.

Lemma pin_ok c :
  idle c -> 0 < avail c ->
  exists c', pin c = Ret (0, c') /\ cur_ok c' /\ rest_of c' = rest_of c /\ held c' = 0 /\
    is_Some (pin_at c') /\ pins c' = 1.
Proof.
  intros (Hok & Hp & Hn) Ha. exists (set_pin (Some (current c)) 1 c).
  split.
  - unfold pin. rewrite (CO_bind_Ret _ _ _ _ _ (casserts_true _ _ (before_end_ok c Hok Ha))).
    erewrite CO_bind_Ret by (unfold cread; rewrite Hp; done).
    erewrite CO_bind_Ret by done. rewrite Hp, Hn. unfold cread. simpl. by rewrite Z.sub_diag.
  - destruct Hok as [? ? ? ?]. split_and!; try done; [|unfold held; simpl; lia].
    split; simpl; try done. intros ? [= <-]. lia.
Qed.

Lemma unpin_ok c :
  cur_ok c -> is_Some (pin_at c) -> pins c = 1 ->
  exists c', unpin 0 c = Ret (tt, c') /\ idle c' /\ rest_of c' = rest_of c.
Proof.
  intros Hok [a Ha] Hn. exists (set_pin None 0 c). pose proof Hok as [? ? Hp ?]. specialize (Hp a Ha).
  split.
  - unfold unpin, pinned. erewrite CO_bind_Ret.
    2: { rewrite (CO_bind_Ret _ _ _ _ _ (casserts_true _ _ (in_buffer_ok c Hok))).
         erewrite CO_bind_Ret by (apply casserts_true; by rewrite Hn).
         erewrite CO_bind_Ret by (unfold cread; rewrite Ha; done).
         erewrite CO_bind_Ret by (apply casserts_true; rewrite !(proj2 (Z.leb_le _ _)) by lia; done).
         erewrite CO_bind_Ret by (apply casserts_true; rewrite !(proj2 (Z.leb_le _ _)) by lia; done).
         done. }
    unfold drop_pin, cupdate. by rewrite Hn.
  - split_and!; [|done..]. split_and!; [|done..]. split; simpl; done.
Qed.

Definition dir_text (i o : bool) : list Z := (if i then [60] else []) ++ (if o then [62] else []).
Definition dir_flags (f : Z) (i o : bool) : Z :=
  let f := Z.ldiff f 6 in
  let f := if i then Z.lor f 2 else f in
  if o then Z.lor f 4 else f.

(** Facts about the five flags, checked on every combination. *)
Lemma below32 (P : Z -> bool) :
  forallb P (map Z.of_nat (seq 0 32)) = true -> forall f, 0 <= f < 32 -> P f = true.
Proof.
  intros Hall f Hf. rewrite forallb_forall in Hall. apply Hall. apply in_map_iff.
  exists (Z.to_nat f). split; [lia|]. apply in_seq. lia.
Qed.

Lemma dir_flags_set f i o :
  0 <= f < 32 -> i || o = true -> negb (Z.land (dir_flags f i o) 6 =? 0) = true.
Proof.
  intros Hf Hio. revert f Hf. apply (below32 (fun f => negb (Z.land (dir_flags f i o) 6 =? 0))).
  by destruct i, o.
Qed.

(** [_skip] of one character. *)
Lemma skip_char_no c x :
  idle c -> x <> 0 -> head (rest_of c) <> Some x ->
  exists c', skip [x; 0] c = Ret (false, c') /\ same_view c c'.
Proof.
  intros Hi Hx Hne. pose proof (idle_held c Hi).
  destruct (skip_no c [x]) as (c' & Hs & Hv & _); [by destruct Hi|by repeat constructor| |change (zlen [x]) with 1; unfold BUFFER_SIZE; lia|by exists c'].
  destruct (rest_of c); simpl in *; congruence.
Qed.

Lemma skip_char_yes c x l :
  idle c -> x <> 0 -> rest_of c = x :: l ->
  exists c', skip [x; 0] c = Ret (true, c') /\ idle c' /\ rest_of c' = l.
Proof.
  intros Hi Hx Hr. pose proof (idle_held c Hi).
  destruct (skip_yes c [x] l) as (c' & Hs & Hc & Hr'); [by destruct Hi|by repeat constructor|done|change (zlen [x]) with 1; unfold BUFFER_SIZE; lia|].
  exists c'. split; [done|]. split; [by eapply consumed_idle|done].
Qed.

(** The optional characters of a direction. *)
Lemma skip_char c (b : bool) x l :
  idle c -> x <> 0 -> rest_of c = (if b then [x] else []) ++ l -> (b = false -> head l <> Some x) ->
  exists c', skip [x; 0] c = Ret (b, c') /\ idle c' /\ rest_of c' = l.
Proof.
  intros Hi Hx Hr Hl. destruct b; [by apply skip_char_yes|]. simpl in Hr.
  destruct (skip_char_no c x) as (c' & Hs & Hv); [done|done|rewrite Hr; by apply Hl|].
  exists c'. split; [done|]. split; [by eapply same_view_idle|]. destruct Hv. congruence.
Qed.

Lemma optspace_idle n c l :
  idle c -> rest_of c = replicate n 32 ++ l -> head l <> Some 32 -> Z.of_nat n < BUFFER_SIZE ->
  exists c', _optspace c = Ret (true, c') /\ idle c' /\ rest_of c' = l.
Proof.
  intros Hi Hr Hl Hn. pose proof (idle_held c Hi).
  destruct (optspace_ok n c l) as (c' & Ho & Hc & Hr'); [by destruct Hi|done|done|lia|].
  exists c'. split; [done|]. split; [by eapply consumed_idle|done].
Qed.

Lemma direction_ok rule c i o l st h :
  idle c -> 0 <= flags rule < 32 -> i || o = true -> rest_of c = dir_text i o ++ l ->
  head l <> Some 62 ->
  exists c', _direction rule c st h = Ret (((true, set_flags (dir_flags (flags rule) i o) rule), c'), st, h) /\
    idle c' /\ rest_of c' = l.
Proof.
  intros Hi Hf Hio Hr Hl. unfold dir_text in Hr. rewrite <- app_assoc in Hr.
  destruct (skip_char c i 60 _ Hi ltac:(done) Hr) as (c1 & Hs1 & Hi1 & Hr1).
  { intros ->. destruct o; [done|done]. }
  destruct (skip_char c1 o 62 _ Hi1 ltac:(done) Hr1) as (c2 & Hs2 & Hi2 & Hr2); [done|].
  unfold _direction. cbv zeta. crun Hs1. crun Hs2.
  exists c2. split; [|done]. change (Z.lor RULE_INBOUND RULE_OUTBOUND) with 6.
  change RULE_INBOUND with 2. change RULE_OUTBOUND with 4. fold (dir_flags (flags rule) i o).
  by rewrite dir_flags_set.
Qed.

Section rule.
Context {AR : Arch} {AL : Allocator} (sizeof_subscriber sizeof_tree_node sizeof_packet_rule : Z).
Variables (st : oa_state) (k0 : nat).
Hypothesis Hwf : wf_node k0 (subs st) [] (root st).

(** What a remote endpoint's text can start with. *)
Lemma endpoint_head sub ports l :
  sub_known st sub ->
  exists x t, endpoint_text (subs st) sub ports ++ l = x :: t /\ x <> 32 /\ x <> 62 /\ x <> 97.
Proof.
  intros Hk. unfold endpoint_text. destruct sub as [p|]; [|by eexists _, _].
  destruct (known_sub _ _ Hwf p Hk) as (s & Hs & Hl & Hb & _). simpl. rewrite Hs.
  destruct (sid s) as [|b bs]; [done|]. rewrite hex_of_cons. eexists _, _. split; [done|].
  apply Forall_cons_iff in Hb as [Hb _]. pose proof (byte_nibbles b Hb) as [Hn _].
  unfold hexdig. split_and!; zcase; lia.
Qed.

Lemma _pattern_ok rule c ls lp rs rp i o l h :
  idle c -> sub_known st ls -> sub_known st rs -> ports_ok lp -> ports_ok rp -> i || o = true ->
  0 <= flags (endpoint_rule Local ls lp rule) < 32 ->
  rest_of c = endpoint_text (subs st) ls lp ++ 32 :: dir_text i o ++ endpoint_text (subs st) rs rp ++ l ->
  ends_endpoint l -> 0 < avail c ->
  let r1 := endpoint_rule Local ls lp rule in
  let r2 := set_flags (dir_flags (flags r1) i o) r1 in
  exists c', _pattern sizeof_subscriber sizeof_tree_node rule c st h =
    Ret (((true, endpoint_rule Remote rs rp r2), c'), st, h) /\ idle c' /\ rest_of c' = l.
Proof.
  intros Hi Hls Hrs Hlp Hrp Hio Hf Hr Hl Ha r1 r2. unfold _pattern.
  destruct (pin_ok c Hi Ha) as (c1 & Hpin & Hok1 & Hr1 & Hh1 & Hp1 & Hn1). crun Hpin.
  destruct (endpoint_ok sizeof_subscriber sizeof_tree_node st k0 Hwf Local rule c1 ls lp 1
              (dir_text i o ++ endpoint_text (subs st) rs rp ++ l) h)
    as (c2 & k & He & Hk & Hc2 & Hr2); [done|done|done| | |unfold BUFFER_SIZE; lia|].
  { rewrite Hr1, Hr. by rewrite <- ?app_assoc. }
  { unfold ends_endpoint, dir_text. destruct i, o; try done; (split; [split; [unfold is_byte; simpl; lia|done]|done]). }
  crun He. pose proof Hc2 as [Hok2 _ _ _ Hp2 Hn2].
  destruct (unpin_ok c2) as (c3 & Hun & Hi3 & Hr3); [done|by apply Hp2|congruence|].
  destruct (optspace_idle k c3 (dir_text i o ++ endpoint_text (subs st) rs rp ++ l)) as (c4 & Ho & Hi4 & Hr4);
    [done|congruence|by destruct i, o|unfold BUFFER_SIZE; lia|].
  erewrite CM_bind_Ret by (crun Hun; crun Ho; done).
  destruct (endpoint_head rs rp l Hrs) as (x & t & Ex & Hx32 & Hx62 & _).
  destruct (direction_ok r1 c4 i o (endpoint_text (subs st) rs rp ++ l) st h) as (c5 & Hd & Hi5 & Hr5);
    [done|done|done|done|rewrite Ex; simpl; congruence|].
  crun Hd. cbn [negb].
  destruct (optspace_idle 0 c5 (endpoint_text (subs st) rs rp ++ l)) as (c6 & Ho6 & Hi6 & Hr6);
    [done|done|rewrite Ex; simpl; congruence|done|].
  crun Ho6. pose proof (idle_held c6 Hi6).
  destruct (endpoint_ok sizeof_subscriber sizeof_tree_node st k0 Hwf Remote r2 c6 rs rp 0 l h)
    as (c7 & k7 & He7 & Hk7 & Hc7 & Hr7); [by destruct Hi6|done|done|done|done|unfold BUFFER_SIZE; lia|].
  exists c7. replace k7 with 0%nat in * by lia.
  split; [exact He7|]. split; [by eapply consumed_idle|done].
Qed.
End rule.
