(* ===== verification/MdpFilterSpec.v ===== *)
(** * Packet filter rules: properties

    Rules survive being printed and parsed, the filter decides by the first rule
    that matches, and what the parser does with texts that end too early. *)

From Stdlib Require Import ZArith Lia Ascii String.
From stdpp Require Import base tactics list fin_maps gmap infinite.
From S2P Require Import Prelude Memory Cstring Ctype Str StrHex Strbuf StrbufSpec StrNumbers DataFormats DataFormatsSpec.
From S2P Require Import OverlayBuffer OverlayBufferSpec OverlayAddress OverlayAddressFacts OverlayAddressWalk OverlayAddressSpec.
From S2P Require Import MdpFilter MdpFilterCursor MdpFilterParse.

Local Open Scope Z_scope.

(** ** The text of a rule *)

Definition l_ports (r : packet_rule) : option mdp_portrange :=
  if has_flag r RULE_LOCAL_PORT then Some (local_ports r) else None.
Definition r_ports (r : packet_rule) : option mdp_portrange :=
  if has_flag r RULE_REMOTE_PORT then Some (remote_ports r) else None.
Definition directed (r : packet_rule) : bool := has_flag r (Z.lor RULE_INBOUND RULE_OUTBOUND).
Definition verb_text (drop : bool) : list Z := if drop then zs "drop " else zs "allow ".

Definition which_text (m : sub_heap) (r : packet_rule) : list Z :=
  if directed r then
    endpoint_text m (local_subscriber r) (l_ports r) ++
    32 :: dir_text (has_flag r RULE_INBOUND) (has_flag r RULE_OUTBOUND) ++
    endpoint_text m (remote_subscriber r) (r_ports r)
  else zs "all".
Definition rule_text (m : sub_heap) (r : packet_rule) : list Z :=
  verb_text (has_flag r RULE_DROP) ++ which_text m r.

(** Rules as the parser makes them: five flags, fields no flag asks for are
    zero, ports are 32-bit and the subscribers are known. *)
Record rule_ok (st : oa_state) (r : packet_rule) : Prop := {
  ro_flags : 0 <= flags r < 32;
  ro_all : directed r = false -> r = set_flags (flags r) rule_zero /\ flags r < 2;
  ro_local : sub_known st (local_subscriber r);
  ro_remote : sub_known st (remote_subscriber r);
  ro_lports : match l_ports r with Some p => range_ok p | None => local_ports r = Ports 0 0 end;
  ro_rports : match r_ports r with Some p => range_ok p | None => remote_ports r = Ports 0 0 end
}.

Lemma ports_ok_rule st r : rule_ok st r -> ports_ok (l_ports r) /\ ports_ok (r_ports r).
Proof.
  intros [_ _ _ _ Hl Hr]. unfold ports_ok. split; [by destruct (l_ports r)|by destruct (r_ports r)].
Qed.

(** The flags the parser puts together are the rule's. *)
Definition verb_flags (d : bool) : Z := if d then 1 else 0.
Definition flag (f m : Z) : bool := negb (Z.land f m =? 0).
Definition parsed_flags (f : Z) : Z :=
  let f1 := if flag f 8 then Z.lor (verb_flags (flag f 1)) 8 else verb_flags (flag f 1) in
  let f2 := dir_flags f1 (flag f 2) (flag f 4) in
  if flag f 16 then Z.lor f2 16 else f2.

Lemma parsed_flags_ok f : 0 <= f < 32 -> parsed_flags f = f.
Proof.
  intros Hf. apply Z.eqb_eq. revert f Hf. apply (below32 (fun f => parsed_flags f =? f)). by vm_compute.
Qed.

Lemma directed_dirs r :
  0 <= flags r < 32 -> directed r = has_flag r RULE_INBOUND || has_flag r RULE_OUTBOUND.
Proof.
  intros Hf. apply eqb_prop. unfold directed, has_flag. revert Hf. generalize (flags r).
  apply (below32 (fun f => Bool.eqb (negb (Z.land f 6 =? 0)) (negb (Z.land f 2 =? 0) || negb (Z.land f 4 =? 0)))).
  by vm_compute.
Qed.

Lemma parsed_rule st r :
  rule_ok st r -> directed r = true ->
  let r0 := set_flags (verb_flags (has_flag r RULE_DROP)) rule_zero in
  let r1 := endpoint_rule Local (local_subscriber r) (l_ports r) r0 in
  let r2 := set_flags (dir_flags (flags r1) (has_flag r RULE_INBOUND) (has_flag r RULE_OUTBOUND)) r1 in
  endpoint_rule Remote (remote_subscriber r) (r_ports r) r2 = r /\ 0 <= flags r1 < 32.
Proof.
  intros [Hf _ _ _ Hl Hr] _. cbv zeta.
  pose proof (parsed_flags_ok (flags r) Hf) as Hp. unfold parsed_flags, flag in Hp.
  unfold l_ports, r_ports, has_flag in *.
  change RULE_LOCAL_PORT with 8 in *. change RULE_REMOTE_PORT with 16 in *.
  change RULE_DROP with 1 in *. change RULE_INBOUND with 2 in *. change RULE_OUTBOUND with 4 in *.
  destruct r as [ls rs lp rp f]. simpl in *. cbv zeta in Hp.
  assert (0 <= (if negb (Z.land f 8 =? 0) then Z.lor (verb_flags (negb (Z.land f 1 =? 0))) 8
                else verb_flags (negb (Z.land f 1 =? 0))) < 32) as Hb.
  { destruct (negb (Z.land f 8 =? 0)), (negb (Z.land f 1 =? 0)); vm_compute; done. }
  destruct (negb (Z.land f 8 =? 0)), (negb (Z.land f 16 =? 0)); simpl in *; subst;
    (split; [unfold set_flags; simpl; f_equal; exact Hp|exact Hb]).
Qed.

(** ** Printing *)

Section print.
Context {AR : Arch} (st : oa_state) (k0 : nat).
Hypothesis Hwf : wf_node k0 (subs st) [] (root st).

Definition sid_op (sub : option nat) : sb_op :=
  match sub with Some _ => OPuts (sid_text (subs st) sub) | None => OPutc 42 end.
Definition port_ops (p : mdp_portrange) : list sb_op :=
  OSprintf (zs ":" ++ fmt_port (port_first p)) ::
  if negb (port_last p =? port_first p) then [OSprintf (zs "-" ++ fmt_port (port_last p))] else [].
Definition char_op (b : bool) (x : Z) : list sb_op := if b then [OPutc x] else [].
Definition which_ops (r : packet_rule) : list sb_op :=
  if directed r then
    [sid_op (local_subscriber r)] ++ default [] (option_map port_ops (l_ports r)) ++ [OPutc 32] ++
    char_op (has_flag r RULE_INBOUND) 60 ++ char_op (has_flag r RULE_OUTBOUND) 62 ++
    [sid_op (remote_subscriber r)] ++ default [] (option_map port_ops (r_ports r))
  else [OPuts (zs "all")].
Definition rule_ops (r : packet_rule) : list sb_op :=
  OPuts (verb_text (has_flag r RULE_DROP)) :: which_ops r.

Lemma sb_run_app a b sb m :
  sb_run (a ++ b) sb m = '(sb, m) ← sb_run a sb m; sb_run b sb m.
Proof.
  revert sb m. induction a as [|op a IH]; intros sb m; simpl; [done|].
  destruct (sb_exec op sb m) as [[sb1 m1]| |]; simpl; [apply IH|done..].
Qed.

Lemma sb_run_one op sb m : sb_run [op] sb m = sb_exec op sb m.
Proof. simpl. by destruct (sb_exec op sb m) as [[sb1 m1]| |]. Qed.

Lemma append_sid_run sub sb m :
  sub_known st sub -> append_sid (subs st) sb m sub = sb_run [sid_op sub] sb m.
Proof.
  intros Hk. rewrite sb_run_one. destruct sub as [p|]; [|reflexivity].
  destruct (known_sub _ _ Hwf p Hk) as (s & Hs & Hl & Hb & _).
  assert (SID_STRLEN = 2 * zlen (sid s)) as Hz by (unfold SID_STRLEN, SID_SIZE, zlen; lia).
  unfold append_sid, sid_op, sid_text, sb_exec. rewrite Hs. unfold or_undef.
  unfold mbind, outcome_bind. rewrite (tohex_hex_of _ _ Hb Hz). reflexivity.
Qed.

Lemma append_ports_run (b : bool) p sb m :
  (if b then strbuf_append_mdp_portrange sb m p else Ret (sb, m)) =
  sb_run (default [] (option_map port_ops (if b then Some p else None))) sb m.
Proof.
  destruct b; [|reflexivity]. unfold strbuf_append_mdp_portrange, port_ops. cbn [option_map default id sb_run].
  unfold sb_exec at 1.
  destruct (strbuf_sprintf sb m _) as [[sb1 m1]| |]; cbn [mbind outcome_bind]; [|done..].
  destruct (negb (port_last p =? port_first p)); [|done]. by rewrite sb_run_one.
Qed.

Lemma append_char_run (b : bool) x sb m :
  (if b then strbuf_putc sb m x else Ret (sb, m)) = sb_run (char_op b x) sb m.
Proof. unfold char_op. destruct b; [by rewrite sb_run_one|done]. Qed.

Lemma append_rule_run r sb m :
  rule_ok st r -> strbuf_append_packet_rule (subs st) sb m r = sb_run (rule_ops r) sb m.
Proof.
  intros [_ _ Hls Hrs _ _]. unfold strbuf_append_packet_rule, rule_ops, which_ops.
  change (has_flag r (Z.lor RULE_INBOUND RULE_OUTBOUND)) with (directed r). cbn [sb_run].
  assert (strbuf_puts sb m (if has_flag r RULE_DROP then cstr "drop " else cstr "allow ") =
          sb_exec (OPuts (verb_text (has_flag r RULE_DROP))) sb m) as -> by (by destruct (has_flag r RULE_DROP)).
  destruct (sb_exec _ sb m) as [[sb1 m1]| |]; cbn [mbind outcome_bind]; [|done..].
  destruct (directed r); [|by rewrite sb_run_one].
  rewrite append_sid_run by done. rewrite sb_run_app.
  destruct (sb_run [sid_op _] sb1 m1) as [[sb2 m2]| |]; cbn [mbind outcome_bind]; [|done..].
  rewrite append_ports_run, sb_run_app. fold (l_ports r).
  destruct (sb_run _ sb2 m2) as [[sb3 m3]| |]; cbn [mbind outcome_bind]; [|done..].
  change (strbuf_putc sb3 m3 32) with (sb_exec (OPutc 32) sb3 m3). rewrite <- sb_run_one, sb_run_app.
  destruct (sb_run _ sb3 m3) as [[sb4 m4]| |]; cbn [mbind outcome_bind]; [|done..].
  rewrite append_char_run, sb_run_app.
  destruct (sb_run _ sb4 m4) as [[sb5 m5]| |]; cbn [mbind outcome_bind]; [|done..].
  rewrite append_char_run, sb_run_app.
  destruct (sb_run _ sb5 m5) as [[sb6 m6]| |]; cbn [mbind outcome_bind]; [|done..].
  rewrite append_sid_run, sb_run_app by done.
  destruct (sb_run [sid_op _] sb6 m6) as [[sb7 m7]| |]; cbn [mbind outcome_bind]; [|done..].
  by rewrite append_ports_run.
Qed.

Lemma fmt_port_no_nul v : no_nul (fmt_port v).
Proof.
  unfold fmt_port. destruct (v =? 0); [by repeat constructor|]. apply no_nul_app. split; [by repeat constructor|].
  generalize 8%nat. intros n. revert v. induction n as [|n IH]; intros v; [constructor|].
  cbn [hex_digits]. apply no_nul_app. split; [apply IH|]. constructor; [|constructor].
  unfold hexdigit_lower. pose proof (Z.mod_pos_bound v 16 ltac:(lia)). zcase; lia.
Qed.

Lemma sid_op_abs size sub full : sub_known st sub ->
  sb_abs size (sid_op sub) full = full ++ sid_text (subs st) sub /\ sb_valid (sid_op sub).
Proof.
  intros Hk. destruct sub as [p|]; [|done]. split; [done|].
  destruct (known_sub _ _ Hwf p Hk) as (s & Hs & _ & Hb & _).
  unfold sid_op, sid_text. rewrite Hs. by apply hex_of_no_nul.
Qed.

Lemma port_ops_abs size p full :
  foldl (fun f op => sb_abs size op f) full (port_ops p) = full ++ 58 :: range_text p /\
  Forall sb_valid (port_ops p).
Proof.
  unfold port_ops, range_text. pose proof (fmt_port_no_nul (port_first p)). pose proof (fmt_port_no_nul (port_last p)).
  assert (no_nul (zs ":" ++ fmt_port (port_first p)) /\ no_nul (zs "-" ++ fmt_port (port_last p))) as [H1 H2].
  { split; apply no_nul_app; (split; [by repeat constructor|done]). }
  destruct (negb (port_last p =? port_first p)); cbn [foldl sb_abs]; split; try by repeat constructor.
  - rewrite <- app_assoc. f_equal.
  - by rewrite app_nil_r.
Qed.

Lemma rule_ops_abs size r :
  rule_ok st r ->
  foldl (fun f op => sb_abs size op f) [] (rule_ops r) = rule_text (subs st) r /\
  Forall sb_valid (rule_ops r).
Proof.
  intros [_ _ Hls Hrs _ _]. unfold rule_ops, rule_text, which_ops, which_text. cbn [foldl].
  assert (sb_abs size (OPuts (verb_text (has_flag r RULE_DROP))) [] = verb_text (has_flag r RULE_DROP)) as -> by done.
  assert (sb_valid (OPuts (verb_text (has_flag r RULE_DROP)))) as Hv
    by (destruct (has_flag r RULE_DROP); by repeat constructor).
  generalize (verb_text (has_flag r RULE_DROP)) at 1 2. intros t.
  destruct (directed r); [|split; [done|constructor; [done|by repeat constructor]]].
  assert (forall p full, foldl (fun f op => sb_abs size op f) full (default [] (option_map port_ops p)) =
            full ++ match p with Some q => 58 :: range_text q | None => [] end /\
            Forall sb_valid (default [] (option_map port_ops p))) as Hp.
  { intros [q|] full; [apply port_ops_abs|]. split; [by rewrite app_nil_r|constructor]. }
  assert (forall b x full, x <> 0 -> foldl (fun f op => sb_abs size op f) full (char_op b x) =
            full ++ (if b then [x] else []) /\ Forall sb_valid (char_op b x)) as Hch.
  { intros [] x full Hx; [split; [done|by repeat constructor]|]. split; [by rewrite app_nil_r|constructor]. }
  split.
  - rewrite !foldl_app. cbn [foldl]. rewrite (proj1 (sid_op_abs size _ t Hls)).
    rewrite (proj1 (Hp (l_ports r) _)). cbn [sb_abs].
    rewrite (proj1 (Hch (has_flag r RULE_INBOUND) 60 _ ltac:(done))).
    rewrite (proj1 (Hch (has_flag r RULE_OUTBOUND) 62 _ ltac:(done))).
    rewrite (proj1 (sid_op_abs size _ _ Hrs)), (proj1 (Hp (r_ports r) _)).
    unfold endpoint_text, dir_text. by rewrite <- !app_assoc.
  - constructor; [done|]. repeat apply Forall_app_2.
    + constructor; [by apply (sid_op_abs size _ [])|constructor].
    + apply (Hp _ []).
    + by repeat constructor.
    + by apply (Hch _ 60 []).
    + by apply (Hch _ 62 []).
    + constructor; [by apply (sid_op_abs size _ [])|constructor].
    + apply (Hp _ []).
Qed.

(** Printing a rule into a big enough strbuf gives its text. *)
Lemma print_rule_text r size m0 :
  rule_ok st r -> zlen (rule_text (subs st) r) < size <= zlen m0 ->
  exists sb m, ('(sb, m) ← strbuf_init false size m0; strbuf_append_packet_rule (subs st) sb m r) = Ret (sb, m) /\
    exists tl, m = rule_text (subs st) r ++ 0 :: tl.
Proof.
  intros Hr Hsize. destruct (rule_ops_abs size r Hr) as [Ht Hv]. pose proof (zlen_nonneg (rule_text (subs st) r)).
  destruct (strbuf_session_rep size m0 (rule_ops r)) as (sb & m & E & Hrep); [lia|done|].
  exists sb, m. split.
  - destruct (strbuf_init false size m0) as [[sb1 m1]| |]; cbn [mbind outcome_bind] in *; [|done..].
    by rewrite append_rule_run.
  - rewrite Ht in Hrep. destruct Hrep as [_ _ _ _ _ [tl Hm] _ _]. exists tl.
    rewrite Hm. f_equal. apply take_ge. unfold zlen in *. lia.
Qed.
End print.

(** ** Parsing the text of rules *)

(** [_skip] of a word by an idle cursor. *)
Lemma skip_word_yes c w l :
  idle c -> no_nul w -> zlen w <= BUFFER_SIZE -> rest_of c = w ++ l ->
  exists c', skip (w ++ [0]) c = Ret (true, c') /\ idle c' /\ rest_of c' = l.
Proof.
  intros Hi Hw Hz Hr. pose proof (idle_held c Hi).
  destruct (skip_yes c w l) as (c' & Hs & Hc & Hr'); [by destruct Hi|done|done|lia|].
  exists c'. split; [done|]. split; [by eapply consumed_idle|done].
Qed.

Lemma skip_word_no c w :
  idle c -> no_nul w -> zlen w <= BUFFER_SIZE -> take (length w) (rest_of c) <> w ->
  exists c', skip (w ++ [0]) c = Ret (false, c') /\ idle c' /\ rest_of c' = rest_of c /\
    Z.min (zlen w) (zlen (rest_of c)) <= avail c'.
Proof.
  intros Hi Hw Hz Hr. pose proof (idle_held c Hi).
  destruct (skip_no c w) as (c' & Hs & Hv & _ & Ha); [by destruct Hi|done|done|lia|].
  exists c'. split; [done|]. split; [by eapply same_view_idle|]. destruct Hv. by split.
Qed.

Definition verb_word (drop : bool) : list Z := if drop then zs "drop" else zs "allow".

Lemma verb_ok d c l st h :
  idle c -> rest_of c = verb_word d ++ l ->
  exists c', _verb rule_zero c st h = Ret (((true, set_flags (verb_flags d) rule_zero), c'), st, h) /\
    idle c' /\ rest_of c' = l.
Proof.
  intros Hi Hr. unfold _verb. destruct d.
  - destruct (skip_word_no c (zs "allow")) as (c1 & Hs & Hi1 & Hr1 & _);
      [done|by repeat constructor|by vm_compute|by rewrite Hr|].
    destruct (skip_word_yes c1 (zs "drop") l) as (c2 & Hs2 & Hi2 & Hr2);
      [done|by repeat constructor|by vm_compute|by rewrite Hr1, Hr|].
    crun Hs. crun Hs2. by exists c2.
  - destruct (skip_word_yes c (zs "allow") l) as (c1 & Hs & Hi1 & Hr1);
      [done|by repeat constructor|by vm_compute|by rewrite Hr|].
    crun Hs. by exists c1.
Qed.

(** What may follow a rule: the end of the file or a separator. *)
Definition ends_rule (l : list Z) : Prop :=
  match l with [] => True | x :: _ => is_sep x = true end.

Lemma ends_rule_endpoint l : ends_rule l -> ends_endpoint l.
Proof.
  destruct l as [|x l]; [done|]. unfold ends_rule, is_sep. intros Hx.
  assert (x = 10 \/ x = 59) as [-> | ->].
  { apply orb_true_iff in Hx as [?%Z.eqb_eq|?%Z.eqb_eq]; auto. }
  - split; [split; [unfold is_byte; lia|done]|done].
  - split; [split; [unfold is_byte; lia|done]|done].
Qed.

Section rules.
Context {AR : Arch} {AL : Allocator} (sizeof_subscriber sizeof_tree_node sizeof_packet_rule : Z).
Variables (st : oa_state) (k0 : nat) (h : heap).
Hypothesis Hwf : wf_node k0 (subs st) [] (root st).
Hypothesis Hmem : malloc_bytes h sizeof_packet_rule <> None.

Abbreviation text := (rule_text (subs st)).
Abbreviation rule_p := (_rule sizeof_subscriber sizeof_tree_node sizeof_packet_rule).

Lemma which_head r l :
  rule_ok st r -> exists x t, which_text (subs st) r ++ l = x :: t /\ x <> 32 /\
    (directed r = true -> x <> 97).
Proof.
  intros [_ _ Hls _ _ _]. unfold which_text. destruct (directed r); [|by eexists _, _].
  destruct (endpoint_head st k0 Hwf (local_subscriber r) (l_ports r)
    ((32 :: dir_text (has_flag r RULE_INBOUND) (has_flag r RULE_OUTBOUND) ++
      endpoint_text (subs st) (remote_subscriber r) (r_ports r)) ++ l) Hls) as (x & t & E & ? & ? & ?).
  exists x, t. rewrite <- app_assoc. by split_and!.
Qed.

Lemma which_ok r c l :
  idle c -> rule_ok st r -> rest_of c = which_text (subs st) r ++ l -> ends_endpoint l ->
  exists c', _which sizeof_subscriber sizeof_tree_node
      (set_flags (verb_flags (has_flag r RULE_DROP)) rule_zero) c st h = Ret (((true, r), c'), st, h) /\
    idle c' /\ rest_of c' = l.
Proof.
  intros Hi Hok Hr Hl. unfold _which. pose proof Hok as [Hf Hall Hls Hrs _ _].
  destruct (which_head r l Hok) as (x & t & Ex & _ & Hx). unfold which_text in Hr, Ex.
  destruct (directed r) eqn:Ed.
  - destruct (skip_word_no c (zs "all")) as (c1 & Hs & Hi1 & Hr1 & Ha);
      [done|by repeat constructor|by vm_compute| |].
    { rewrite Hr, Ex. simpl. intros [= ?]. by apply Hx. }
    crun Hs. destruct (ports_ok_rule st r Hok) as [Hlp Hrp].
    destruct (parsed_rule st r Hok Ed) as [Hp Hfl].
    destruct (_pattern_ok sizeof_subscriber sizeof_tree_node st k0 Hwf
                (set_flags (verb_flags (has_flag r RULE_DROP)) rule_zero) c1
                (local_subscriber r) (l_ports r) (remote_subscriber r) (r_ports r)
                (has_flag r RULE_INBOUND) (has_flag r RULE_OUTBOUND) l h)
      as (c2 & Hpat & Hi2 & Hr2); try done.
    + by rewrite <- directed_dirs.
    + rewrite Hr1, Hr, <- app_assoc. simpl. by rewrite <- app_assoc.
    + rewrite Hr, Ex, zlen_cons in Ha. change (zlen (zs "all")) with 3 in Ha. pose proof (zlen_nonneg t). lia.
    + rewrite Hp in Hpat. by exists c2.
  - destruct (skip_word_yes c (zs "all") l) as (c1 & Hs & Hi1 & Hr1);
      [done|by repeat constructor|by vm_compute|done|].
    crun Hs. exists c1. split; [|done]. destruct (Hall eq_refl) as [-> Hlt]. simpl in Hlt, Hf.
    unfold has_flag, set_flags. simpl.
    assert (flags r = 0 \/ flags r = 1) as [-> | ->] by lia; done.
Qed.

Lemma rule_parses r c l :
  idle c -> rule_ok st r -> rest_of c = text r ++ l -> ends_endpoint l ->
  exists c', rule_p c st h = Ret (((1, Some r), c'), st, h) /\ idle c' /\ rest_of c' = l.
Proof.
  intros Hi Hok Hr Hl. unfold _rule.
  erewrite CM_bind_Ret.
  2: { unfold csub. erewrite OM_bind_Ret by (rewrite olift_run; unfold hstruct; done). done. }
  destruct (malloc_bytes h sizeof_packet_rule) as [bs|]; [|done].
  assert (rest_of c = verb_word (has_flag r RULE_DROP) ++ 32 :: which_text (subs st) r ++ l) as Hr'.
  { rewrite Hr. unfold rule_text. rewrite <- app_assoc. by destruct (has_flag r RULE_DROP). }
  destruct (verb_ok _ c _ st h Hi Hr') as (c1 & Hv & Hi1 & Hr1). crun Hv. cbn [negb].
  destruct (which_head r l Hok) as (x & t & Ex & Hx & _).
  destruct (optspace_idle 1 c1 (which_text (subs st) r ++ l)) as (c2 & Ho & Hi2 & Hr2);
    [done|done|rewrite Ex; simpl; congruence|done|].
  crun Ho. destruct (which_ok r c2 l Hi2 Hok Hr2 Hl) as (c3 & Hw & Hi3 & Hr3).
  crun Hw. by exists c3.
Qed.

(** Rules after the first, each behind its separator. *)
Definition tail_text (l : list (Z * packet_rule)) : list Z :=
  flat_map (fun p => p.1 :: text p.2) l.
Definition tail_ok (p : Z * packet_rule) : Prop := is_sep p.1 = true /\ rule_ok st p.2.

Lemma tail_ends l : Forall tail_ok l -> ends_rule (tail_text l).
Proof. intros [|[x r] l' [Hx _] _]; [done|]. exact Hx. Qed.

Lemma text_head r l : exists x t, text r ++ l = x :: t /\ x <> 32.
Proof. unfold rule_text. destruct (has_flag r RULE_DROP); by eexists _, _. Qed.

Lemma eof_idle c :
  idle c -> exists c', eof c = Ret (bool_decide (rest_of c = []), c') /\ idle c' /\ rest_of c' = rest_of c.
Proof.
  intros Hi. pose proof (idle_held c Hi).
  destruct (eof_ok c) as (c' & He & Hv & _); [by destruct Hi|unfold BUFFER_SIZE; lia|].
  exists c'. split; [done|]. split; [by eapply same_view_idle|by destruct Hv].
Qed.

Lemma more_yes c x l :
  idle c -> rest_of c = x :: l -> is_sep x = true -> l <> [] ->
  exists c', more c = Ret (true, c') /\ idle c' /\ rest_of c' = l.
Proof.
  intros Hi Hr Hx Hl. unfold more.
  destruct (eof_idle c Hi) as (c1 & He & Hi1 & Hr1). rewrite Hr in *.
  rewrite (CO_bind_Ret _ _ _ _ _ He), bool_decide_eq_false_2 by done.
  pose proof (idle_held c1 Hi1).
  destruct (sep_yes c1 x l) as (c2 & Hs & Hc2 & Hr2); [by destruct Hi1|done|done|unfold BUFFER_SIZE; lia|].
  rewrite (CO_bind_Ret _ _ _ _ _ Hs). cbn [negb]. apply (consumed_idle _ _ _ Hi1) in Hc2 as Hi2.
  destruct (eof_idle c2 Hi2) as (c3 & He3 & Hi3 & Hr3). rewrite Hr2 in *.
  rewrite (CO_bind_Ret _ _ _ _ _ He3), bool_decide_eq_false_2 by done. by exists c3.
Qed.

Lemma more_eof c :
  idle c -> rest_of c = [] -> exists c', more c = Ret (false, c') /\ idle c' /\ rest_of c' = [].
Proof.
  intros Hi Hr. unfold more. destruct (eof_idle c Hi) as (c1 & He & Hi1 & Hr1). rewrite Hr in *.
  rewrite (CO_bind_Ret _ _ _ _ _ He), bool_decide_eq_true_2 by done. by exists c1.
Qed.

Abbreviation loop := (rules_loop sizeof_subscriber sizeof_tree_node sizeof_packet_rule).

Lemma rules_loop_ok l : forall fuel c,
  idle c -> Forall tail_ok l -> rest_of c = tail_text l -> (length l < fuel)%nat ->
  exists c', loop fuel c st h = Ret (((1, map snd l), c'), st, h).
Proof.
  induction l as [|[x r] l IH]; intros fuel c Hi Hl Hr Hf; (destruct fuel as [|fuel]; [lia|]);
    cbn [rules_loop].
  - destruct (more_eof c Hi Hr) as (c1 & Hm & Hi1 & Hr1). crun Hm.
    destruct (eof_idle c1 Hi1) as (c2 & He & _). rewrite Hr1, bool_decide_eq_true_2 in He by done.
    crun He. by exists c2.
  - apply Forall_cons_iff in Hl as [[Hx Hok] Hl]. simpl in Hr, Hx, Hok.
    destruct (text_head r (tail_text l)) as (y & t & Ey & Hy).
    destruct (more_yes c x (text r ++ tail_text l)) as (c1 & Hm & Hi1 & Hr1); [done|done|done|by rewrite Ey|].
    crun Hm. destruct (optspace_idle 0 c1 (text r ++ tail_text l)) as (c2 & Ho & Hi2 & Hr2);
      [done|done|rewrite Ey; simpl; congruence|done|].
    crun Ho. pose proof (ends_rule_endpoint _ (tail_ends l Hl)) as Hends.
    destruct (rule_parses r c2 (tail_text l) Hi2 Hok Hr2 Hends) as (c3 & Hp & Hi3 & Hr3).
    crun Hp. cbn [Z.eqb Z.opp Pos.eqb].
    destruct (optspace_idle 0 c3 (tail_text l)) as (c4 & Ho4 & Hi4 & Hr4); [done|done|apply Hends|done|].
    crun Ho4. destruct (IH fuel c4 Hi4 Hl Hr4 ltac:(simpl in Hf; lia)) as (c5 & Hloop).
    rewrite (CM_bind_Ret _ _ _ _ _ _ _ _ _ Hloop). by exists c5.
Qed.

Lemma tail_text_length l : (length l <= length (tail_text l))%nat.
Proof.
  induction l as [|[x r] l IH]; [done|]. simpl. rewrite length_app. lia.
Qed.

Lemma init_idle file : idle (init_cursor file) /\ rest_of (init_cursor file) = file.
Proof.
  split; [|done]. split_and!; [|done..]. split; unfold end_; simpl; done.
Qed.

Lemma parse_rules_text r l :
  rule_ok st r -> Forall tail_ok l ->
  parse_mdp_packet_rules sizeof_subscriber sizeof_tree_node sizeof_packet_rule
    (text r ++ tail_text l) st h = Ret ((0, Some (r :: map snd l)), st, h).
Proof.
  intros Hok Hl. set (file := text r ++ tail_text l).
  destruct (init_idle file) as [Hi Hr]. unfold parse_mdp_packet_rules.
  assert (exists c', _rules sizeof_subscriber sizeof_tree_node sizeof_packet_rule (init_cursor file) st h =
            Ret (((1, r :: map snd l), c'), st, h)) as [c' Hrules].
  { unfold _rules. destruct (text_head r (tail_text l)) as (y & t & Ey & Hy).
    destruct (optspace_idle 0 (init_cursor file) file) as (c1 & Ho & Hi1 & Hr1);
      [done|done|unfold file; rewrite Ey; simpl; congruence|done|].
    crun Ho. pose proof (ends_rule_endpoint _ (tail_ends l Hl)) as Hends.
    destruct (rule_parses r c1 (tail_text l) Hi1 Hok Hr1 Hends) as (c2 & Hp & Hi2 & Hr2).
    crun Hp. cbn [Z.eqb Z.opp Pos.eqb].
    destruct (optspace_idle 0 c2 (tail_text l)) as (c3 & Ho3 & Hi3 & Hr3); [done|done|apply Hends|done|].
    crun Ho3. destruct (rules_loop_ok l (S (unread c3)) c3 Hi3 Hl Hr3) as (c4 & Hloop).
    { pose proof (unread_rest c3 ltac:(by destruct Hi3)) as Hu. rewrite Hr3 in Hu.
      pose proof (tail_text_length l). lia. }
    erewrite CM_bind_Ret by exact Hloop. by exists c4. }
  rewrite (OM_bind_Ret _ _ _ _ _ _ _ Hrules). done.
Qed.

(** ** Texts that end too early *)

(** The verb of a rule, and the white space after it. *)
Lemma rule_verb d n c l :
  idle c -> rest_of c = verb_word d ++ replicate n 32 ++ l -> head l <> Some 32 -> Z.of_nat n < BUFFER_SIZE ->
  take 3 l <> zs "all" ->
  exists c', idle c' /\ rest_of c' = l /\ Z.min 3 (zlen l) <= avail c' /\
    rule_p c st h =
    ('(w, rule) ← _pattern sizeof_subscriber sizeof_tree_node (set_flags (verb_flags d) rule_zero);
     if w : bool then mret (1, Some rule) else mret (0, None)) c' st h.
Proof.
  intros Hi Hr Hl Hn Hall.
  destruct (verb_ok d c _ st h Hi Hr) as (c1 & Hv & Hi1 & Hr1).
  destruct (optspace_idle n c1 l) as (c2 & Ho & Hi2 & Hr2); [done..|].
  destruct (skip_word_no c2 (zs "all")) as (c3 & Hs & Hi3 & Hr3 & Ha);
    [done|by repeat constructor|by vm_compute|by rewrite Hr2|].
  exists c3. split; [done|]. split; [congruence|]. rewrite Hr2 in Ha. split; [exact Ha|].
  unfold _rule. erewrite CM_bind_Ret.
  2: { unfold csub. erewrite OM_bind_Ret by (rewrite olift_run; unfold hstruct; done). done. }
  destruct (malloc_bytes h sizeof_packet_rule) as [bs|]; [|done].
  crun Hv. cbn [negb]. crun Ho. apply CM_bind_ext. unfold _which. by crun Hs.
Qed.

Lemma rule_no_direction d n1 c ls lp n :
  idle c -> sub_known st ls -> ports_ok lp -> Z.of_nat n1 < BUFFER_SIZE -> Z.of_nat n <= 800 ->
  rest_of c = verb_word d ++ replicate n1 32 ++ endpoint_text (subs st) ls lp ++ replicate n 32 ->
  exists c', rule_p c st h = Ret (((0, None), c'), st, h) /\ idle c' /\ rest_of c' = [].
Proof.
  intros Hi Hls Hlp Hn1 Hn Hr.
  destruct (endpoint_head st k0 Hwf ls lp (replicate n 32) Hls) as (x & t & Ex & Hx32 & _ & Hx97).
  destruct (rule_verb d n1 c (endpoint_text (subs st) ls lp ++ replicate n 32)) as (c1 & Hi1 & Hr1 & Ha & Hrun);
    [done|done|rewrite Ex; simpl; congruence|done|rewrite Ex; simpl; intros [= ?]; by apply Hx97|].
  rewrite Hrun. rewrite Ex, zlen_cons in Ha. pose proof (zlen_nonneg t).
  destruct (pin_ok c1 Hi1 ltac:(lia)) as (c2 & Hpin & Hok2 & Hr2 & Hh2 & Hp2 & Hn2).
  destruct (endpoint_ok sizeof_subscriber sizeof_tree_node st k0 Hwf Local
              (set_flags (verb_flags d) rule_zero) c2 ls lp n [] h)
    as (c3 & k & He & Hk & Hc3 & Hr3); [done|done|done|by rewrite app_nil_r, Hr2|done|unfold BUFFER_SIZE; lia|].
  rewrite app_nil_r in Hr3. pose proof Hc3 as [Hok3 _ _ _ Hp3 Hn3].
  destruct (unpin_ok c3) as (c4 & Hun & Hi4 & Hr4); [done|by apply Hp3|congruence|].
  destruct (optspace_idle k c4 []) as (c5 & Ho & Hi5 & Hr5);
    [done|by rewrite app_nil_r, Hr4|done|unfold BUFFER_SIZE; lia|].
  destruct (skip_char_no c5 60 Hi5 ltac:(done) ltac:(by rewrite Hr5)) as (c6 & Hs6 & Hv6).
  pose proof (same_view_idle _ _ Hi5 Hv6) as Hi6. destruct Hv6 as [_ Hr6 _ _ _].
  destruct (skip_char_no c6 62 Hi6 ltac:(done) ltac:(by rewrite Hr6, Hr5)) as (c7 & Hs7 & Hv7).
  pose proof (same_view_idle _ _ Hi6 Hv7) as Hi7. destruct Hv7 as [_ Hr7 _ _ _].
  exists c7. split; [|split; [done|congruence]].
  assert (exists r', _pattern sizeof_subscriber sizeof_tree_node (set_flags (verb_flags d) rule_zero) c1 st h
            = Ret (((false, r'), c7), st, h)) as [r' Hpat].
  { unfold _pattern. crun Hpin. crun He. erewrite CM_bind_Ret by (crun Hun; crun Ho; done).
    set (r1 := endpoint_rule Local ls lp (set_flags (verb_flags d) rule_zero)).
    set (f := Z.ldiff (flags r1) (Z.lor RULE_INBOUND RULE_OUTBOUND)).
    assert (_direction r1 c5 st h = Ret (((false, set_flags f r1), c7), st, h)) as Hdir.
    { unfold _direction. cbv zeta. crun Hs6. crun Hs7. fold f.
      assert (Z.land f (Z.lor RULE_INBOUND RULE_OUTBOUND) = 0) as ->; [|done].
      apply Z.bits_inj'. intros i _. unfold f. rewrite Z.land_spec, Z.ldiff_spec, Z.bits_0.
      by destruct (Z.testbit (flags r1) i), (Z.testbit (Z.lor RULE_INBOUND RULE_OUTBOUND) i). }
    crun Hdir. by eexists. }
  by crun Hpat.
Qed.
End rules.

(** ** The decision *)

Definition sub_applies (want have : option nat) : Prop := want = None \/ have = want.
Definition port_applies (asked : bool) (p : Z) (r : mdp_portrange) : Prop :=
  asked = true -> port_first r <= p <= port_last r.

(** The rule speaks about inbound packets like this one: its remote side is the
    source, its local side the destination. *)
Definition applies_inbound (r : packet_rule) (hd : mdp_header) : Prop :=
  directed r = false \/
  (has_flag r RULE_INBOUND = true /\
   sub_applies (remote_subscriber r) (source hd) /\
   port_applies (has_flag r RULE_REMOTE_PORT) (source_port hd) (remote_ports r) /\
   sub_applies (local_subscriber r) (destination hd) /\
   port_applies (has_flag r RULE_LOCAL_PORT) (destination_port hd) (local_ports r)).

(** Exchange the two directions of a rule, and the ends of a packet. *)
Definition flip_flags (f : Z) : Z :=
  Z.lor (Z.ldiff f 6) (Z.lor (if flag f 2 then 4 else 0) (if flag f 4 then 2 else 0)).
Definition flip_rule (r : packet_rule) : packet_rule := set_flags (flip_flags (flags r)) r.
Definition swap_header (hd : mdp_header) : mdp_header :=
  Header (destination hd) (destination_port hd) (source hd) (source_port hd).

Lemma sub_matches_spec want have : sub_matches want have = true <-> sub_applies want have.
Proof.
  unfold sub_matches, sub_applies. destruct want; [|by split; [left|]].
  rewrite bool_decide_eq_true. split; [by right|by intros [?|?]].
Qed.

Lemma in_ports_spec b p r : (negb b || in_ports p r = true) <-> port_applies b p r.
Proof.
  unfold in_ports, port_applies. destruct b; simpl; [|done].
  rewrite andb_true_iff, !Z.leb_le. split; [done|]. intros H. apply H. done.
Qed.

Lemma inbound_test r hd :
  ((has_flag r RULE_INBOUND
    && sub_matches (remote_subscriber r) (source hd)
    && (negb (has_flag r RULE_REMOTE_PORT) || in_ports (source_port hd) (remote_ports r))
    && sub_matches (local_subscriber r) (destination hd)
    && (negb (has_flag r RULE_LOCAL_PORT) || in_ports (destination_port hd) (local_ports r)))
   || negb (has_flag r (Z.lor RULE_INBOUND RULE_OUTBOUND))) = true <-> applies_inbound r hd.
Proof.
  unfold applies_inbound. fold (directed r).
  rewrite orb_true_iff, negb_true_iff, !andb_true_iff, !sub_matches_spec, !in_ports_spec. tauto.
Qed.

Lemma allow_inbound_drop rules hd :
  allow_inbound_packet rules hd = 0 <->
  exists pre r post, rules = pre ++ r :: post /\ Forall (fun q => ~ applies_inbound q hd) pre /\
    applies_inbound r hd /\ has_flag r RULE_DROP = true.
Proof.
  induction rules as [|q rules IH]; cbn [allow_inbound_packet].
  { split; [done|]. intros ([] & ? & ? & ? & _); done. }
  match goal with |- context [if ?t then (if _ then _ else _) else _] => destruct t eqn:E end.
  - apply inbound_test in E. split.
    + intros Hd. exists [], q, rules. split_and!; [done|constructor|done|].
      by destruct (has_flag q RULE_DROP).
    + intros (pre & r & post & Heq & Hpre & Hr & Hd). destruct pre as [|q' pre]; simplify_eq/=.
      * by rewrite Hd.
      * apply Forall_cons_iff in Hpre as [Hq _]. done.
  - assert (~ applies_inbound q hd) as Hn.
    { intros Ha%inbound_test. congruence. }
    rewrite IH. split.
    + intros (pre & r & post & -> & Hpre & Hr). exists (q :: pre), r, post. split_and!; [done|by constructor|apply Hr..].
    + intros (pre & r & post & Heq & Hpre & Hr & Hd). destruct pre as [|q' pre]; simplify_eq/=; [done|].
      apply Forall_cons_iff in Hpre as [_ Hpre]. by exists pre, r, post.
Qed.

Lemma allow_inbound_01 rules hd : allow_inbound_packet rules hd = 0 \/ allow_inbound_packet rules hd = 1.
Proof.
  induction rules as [|q rules IH]; cbn [allow_inbound_packet]; [by right|].
  destruct (_ || _); [|done]. destruct (has_flag q RULE_DROP); auto.
Qed.

Lemma flip_has_flag f : 0 <= f < 32 ->
  flag (flip_flags f) 2 = flag f 4 /\ flag (flip_flags f) 6 = flag f 6 /\ flag (flip_flags f) 1 = flag f 1 /\
  flag (flip_flags f) 8 = flag f 8 /\ flag (flip_flags f) 16 = flag f 16.
Proof.
  intros Hf. cut (forallb (fun '(a, b) => Bool.eqb a b)
    [(flag (flip_flags f) 2, flag f 4); (flag (flip_flags f) 6, flag f 6); (flag (flip_flags f) 1, flag f 1);
     (flag (flip_flags f) 8, flag f 8); (flag (flip_flags f) 16, flag f 16)] = true).
  { simpl. rewrite !andb_true_iff, !eqb_true_iff. tauto. }
  revert f Hf. apply (below32 (fun f => forallb (fun '(a, b) => Bool.eqb a b)
    [(flag (flip_flags f) 2, flag f 4); (flag (flip_flags f) 6, flag f 6); (flag (flip_flags f) 1, flag f 1);
     (flag (flip_flags f) 8, flag f 8); (flag (flip_flags f) 16, flag f 16)])). by vm_compute.
Qed.

Lemma outbound_is_inbound rules hd :
  Forall (fun r => 0 <= flags r < 32) rules ->
  allow_outbound_packet rules hd = allow_inbound_packet (map flip_rule rules) (swap_header hd).
Proof.
  induction 1 as [|r rules Hf _ IH]; [done|]. simpl map. cbn [allow_inbound_packet allow_outbound_packet].
  rewrite IH. destruct (flip_has_flag (flags r) Hf) as (H1 & H2 & H3 & H4 & H5).
  unfold has_flag. simpl flags. unfold flag in *.
  change RULE_INBOUND with 2. change RULE_OUTBOUND with 4. change RULE_DROP with 1.
  change RULE_LOCAL_PORT with 8. change RULE_REMOTE_PORT with 16. change (Z.lor 2 4) with 6.
  by rewrite H1, H2, H3, H4, H5.
Qed.

(** ** Properties *)
Section filter_properties.
Context {AR : Arch} {AL : Allocator} (sizeof_subscriber sizeof_tree_node sizeof_packet_rule : Z).

Abbreviation parse := (parse_mdp_packet_rules sizeof_subscriber sizeof_tree_node sizeof_packet_rule).

(** C38: printed rules are read back.  A rule prints into a big enough strbuf
    as its text; the texts of rules, separated by newlines or semicolons, are
    parsed as the same list of rules, leaving the subscribers as they were. *)
Theorem filter_rules_roundtrip r l st h :
  oa_wf st -> rule_ok st r -> Forall (tail_ok st) l -> malloc_bytes h sizeof_packet_rule <> None ->
  (forall q size m0, q ∈ r :: map snd l -> zlen (rule_text (subs st) q) < size <= zlen m0 ->
     exists sb m tl,
       ('(sb, m) ← strbuf_init false size m0; strbuf_append_packet_rule (subs st) sb m q) = Ret (sb, m) /\
       m = rule_text (subs st) q ++ 0 :: tl) /\
  parse (rule_text (subs st) r ++ tail_text st l) st h = Ret ((0, Some (r :: map snd l)), st, h).
Proof.
  intros Hw Hr Hl Hm. split.
  - intros q size m0 Hq Hsize.
    assert (rule_ok st q) as Hqok.
    { apply elem_of_cons in Hq as [->|Hq]; [done|].
      apply list_elem_of_In, in_map_iff in Hq as ([x q'] & <- & Hin).
      rewrite List.Forall_forall in Hl. by destruct (Hl _ Hin). }
    destruct (print_rule_text st 2 Hw q size m0 Hqok Hsize) as (sb & m & E & tl & Hm').
    by exists sb, m, tl.
  - by apply (parse_rules_text _ _ _ st 2).
Qed.

(** C39: the filter decides by the first rule that applies to the packet, and
    allows by default: an inbound packet is dropped exactly when the first rule
    that applies to it drops; outbound packets are treated like inbound ones
    with the directions of the rules and the ends of the packet exchanged. *)
Theorem filter_first_match rules hd :
  Forall (fun r => 0 <= flags r < 32) rules ->
  (allow_inbound_packet rules hd = 0 \/ allow_inbound_packet rules hd = 1) /\
  (allow_inbound_packet rules hd = 0 <->
   exists pre r post, rules = pre ++ r :: post /\ Forall (fun q => ~ applies_inbound q hd) pre /\
     applies_inbound r hd /\ has_flag r RULE_DROP = true) /\
  allow_outbound_packet rules hd = allow_inbound_packet (map flip_rule rules) (swap_header hd).
Proof.
  intros Hf. split; [apply allow_inbound_01|]. split; [apply allow_inbound_drop|by apply outbound_is_inbound].
Qed.

(** A rule that ends without its direction is accepted as no rule at all.
    A file with just a verb and one endpoint is malformed, but it parses
    successfully as the empty list of rules, which allows every packet. *)
Theorem incomplete_rule_accepted d ls lp n1 n st h :
  oa_wf st -> sub_known st ls -> ports_ok lp -> malloc_bytes h sizeof_packet_rule <> None ->
  Z.of_nat n1 < BUFFER_SIZE -> Z.of_nat n <= 800 ->
  parse (verb_word d ++ replicate n1 32 ++ endpoint_text (subs st) ls lp ++ replicate n 32) st h =
  Ret ((0, Some []), st, h) /\
  forall hd, allow_inbound_packet [] hd = 1 /\ allow_outbound_packet [] hd = 1.
Proof.
  intros Hw Hls Hlp Hm Hn1 Hn. split; [|done]. set (file := verb_word d ++ _).
  destruct (init_idle file) as [Hi Hr]. unfold parse_mdp_packet_rules.
  destruct (optspace_idle 0 (init_cursor file) file) as (c1 & Ho & Hi1 & Hr1);
    [done|done|by destruct d|done|].
  destruct (rule_no_direction sizeof_subscriber sizeof_tree_node sizeof_packet_rule st 2 h Hw Hm d n1 c1 ls lp n)
    as (c2 & Hrule & Hi2 & Hr2); [done..|].
  destruct (optspace_idle 0 c2 []) as (c3 & Ho3 & Hi3 & Hr3); [done..|].
  destruct (eof_idle c3 Hi3) as (c4 & He & _). rewrite Hr3, bool_decide_eq_true_2 in He by done.
  assert (_rules sizeof_subscriber sizeof_tree_node sizeof_packet_rule (init_cursor file) st h =
          Ret (((1, []), c4), st, h)) as Hrules.
  { unfold _rules. crun Ho. crun Hrule. cbn [Z.eqb Z.opp Pos.eqb]. crun Ho3. by crun He. }
  rewrite (OM_bind_Ret _ _ _ _ _ _ _ Hrules). done.
Qed.

(** A file that ends after a verb stops the daemon: the parser pins the
    cursor at the end of the file, which fails an assertion. *)
Theorem verb_at_eof_aborts d n st h :
  malloc_bytes h sizeof_packet_rule <> None -> Z.of_nat n < BUFFER_SIZE ->
  parse (verb_word d ++ replicate n 32) st h = Abort.
Proof.
  intros Hm Hn. set (file := verb_word d ++ _).
  destruct (init_idle file) as [Hi Hr]. unfold parse_mdp_packet_rules.
  destruct (optspace_idle 0 (init_cursor file) file) as (c1 & Ho & Hi1 & Hr1);
    [done|done|by destruct d|done|].
  destruct (rule_verb sizeof_subscriber sizeof_tree_node sizeof_packet_rule st h Hm d n c1 [])
    as (c2 & Hi2 & Hr2 & _ & Hrun); [done|by rewrite app_nil_r|done|done|done|].
  assert (_rule sizeof_subscriber sizeof_tree_node sizeof_packet_rule c1 st h = Abort) as Hab.
  { rewrite Hrun. unfold _pattern, pin. unfold mbind at 1, CM_bind. rewrite OM_bind_run.
    unfold mbind at 1, CM_bind. rewrite OM_bind_run. unfold clift, oout. rewrite olift_run. unfold hlift.
    pose proof (avail_rest c2 ltac:(by destruct Hi2)) as Ha. rewrite Hr2 in Ha.
    change (zlen (@nil Z)) with 0 in Ha. unfold avail in Ha.
    unfold mbind at 1, CO_bind, casserts, cread, before_end. rewrite (proj2 (Z.ltb_ge _ _)) by lia.
    by rewrite andb_false_r. }
  rewrite OM_bind_run. unfold _rules. crun Ho.
  unfold mbind at 1, CM_bind. rewrite OM_bind_run. by rewrite Hab.
Qed.
End filter_properties.

(** ** Instances *)

(** [drop 1200...:0x00000050-0x0000005a <*] and [allow all]. *)
Definition demo_rule : packet_rule := Rule (Some 0%nat) None (Ports 80 90) (Ports 0 0) 11.
Definition demo_allow : packet_rule := Rule None None (Ports 0 0) (Ports 0 0) 0.

Lemma demo_rule_ok : rule_ok demo_oa demo_rule /\ rule_ok demo_oa demo_allow.
Proof.
  split; (split; [by vm_compute| | | |by vm_compute|by vm_compute]); try done.
  vm_compute. apply list_elem_of_here.
Qed.

Lemma filter_rules_roundtrip_witness :
  @parse_mdp_packet_rules LP64 demo_alloc 168 136 64
    (zs "drop 1200000000000000000000000000000000000000000000000000000000000000:0x00000050-0x0000005a <*;allow all")
    demo_oa ∅ = Ret ((0, Some [demo_rule; demo_allow]), demo_oa, ∅).
Proof.
  destruct demo_rule_ok as [H1 H2].
  apply (@filter_rules_roundtrip LP64 demo_alloc 168 136 64 demo_rule [(59, demo_allow)] demo_oa ∅).
  - exact demo_oa_wf.
  - exact H1.
  - constructor; [split; [done|exact H2]|constructor].
  - by vm_compute.
Defined.

Lemma filter_first_match_witness :
  let rules := [demo_rule; demo_allow] in
  let hd := Header (Some 1%nat) 7 (Some 0%nat) 85 in
  allow_inbound_packet rules hd = 0 /\
  allow_outbound_packet rules hd = allow_inbound_packet (map flip_rule rules) (swap_header hd).
Proof.
  intros rules hd. split; [by vm_compute|].
  apply (filter_first_match rules hd). repeat constructor; done.
Defined.

Lemma incomplete_rule_accepted_witness :
  @parse_mdp_packet_rules LP64 demo_alloc 168 136 64 (zs "drop *:0x00000050") demo_oa ∅ =
  Ret ((0, Some []), demo_oa, ∅).
Proof.
  apply (proj1 (@incomplete_rule_accepted LP64 demo_alloc 168 136 64 true None (Some (Ports 80 80)) 1 0 demo_oa ∅
    demo_oa_wf I ltac:(by split) ltac:(by vm_compute) ltac:(by vm_compute) ltac:(by vm_compute))).
Defined.

Lemma verb_at_eof_aborts_witness :
  @parse_mdp_packet_rules LP64 demo_alloc 168 136 64 (zs "allow") demo_oa ∅ = Abort.
Proof.
  apply (@verb_at_eof_aborts LP64 demo_alloc 168 136 64 false 0 demo_oa ∅); by vm_compute.
Defined.
