(* ===== verification/ConfOm.v ===== *)
(** * The configuration object model (conf_om.c, strn_edup of mem.c)

    A configuration is a tree of [struct cf_om_node]: every node holds its full
    name, a pointer [key] to the last component of it, an optional text and an
    array of children sorted by key.  A node is a value of [cf_om_node], [NULL]
    is [None]; [fullkey] and [text] are the blocks they point to, terminator
    included, and [key] is an offset into [fullkey].  A [struct cf_om_node **]
    argument is passed and returned by value, and the loops that move such a
    pointer down the tree become recursion that rebuilds the nodes on the way.

    [malloc] and [realloc] are parameters that say which requests succeed; the
    monad [AM] counts the requests.  Warnings are left out. *)

From Stdlib Require Import ZArith Lia Ascii String.
From stdpp Require Import base tactics list numbers.
From S2P Require Import Prelude Cstring.

Local Open Scope Z_scope.

Definition CFERROR : Z := -1.
Definition CFOK : Z := 0.
Definition CFEMPTY : Z := Z.shiftl 1 0.
Definition CFDUPLICATE : Z := Z.shiftl 1 1.
Definition CFINVALID : Z := Z.shiftl 1 6.

(** [nodv] has [nodc] elements. *)
Inductive cf_om_node : Type :=
  OmNode (source : option (list Z)) (line_number : Z) (fullkey : option (list Z)) (key : Z)
         (text : option (list Z)) (nodv : list (option cf_om_node)).

Definition node_source (n : cf_om_node) : option (list Z) :=
  match n with OmNode s _ _ _ _ _ => s end.
Definition node_line (n : cf_om_node) : Z := match n with OmNode _ l _ _ _ _ => l end.
Definition node_fullkey (n : cf_om_node) : option (list Z) :=
  match n with OmNode _ _ f _ _ _ => f end.
Definition node_key (n : cf_om_node) : Z := match n with OmNode _ _ _ k _ _ => k end.
Definition node_text (n : cf_om_node) : option (list Z) :=
  match n with OmNode _ _ _ _ t _ => t end.
Definition nodv (n : cf_om_node) : list (option cf_om_node) :=
  match n with OmNode _ _ _ _ _ v => v end.
Definition nodc (n : cf_om_node) : Z := zlen (nodv n).

Definition set_nodv (v : list (option cf_om_node)) (n : cf_om_node) : cf_om_node :=
  match n with OmNode s l f k t _ => OmNode s l f k t v end.
Definition set_text (t : option (list Z)) (n : cf_om_node) : cf_om_node :=
  match n with OmNode s l f k _ v => OmNode s l f k t v end.
Definition set_where (s : option (list Z)) (l : Z) (n : cf_om_node) : cf_om_node :=
  match n with OmNode _ _ f k t v => OmNode s l f k t v end.

(** What [emalloc_zero] gives. *)
Definition om_zero : cf_om_node := OmNode None 0 None 0 None [].

(** The string [node->key] points to. *)
Definition key_ptr (n : cf_om_node) : outcome (list Z) :=
  f ← or_undef (node_fullkey n); Ret (drop (Z.to_nat (node_key n)) f).

(** ** Keys *)

Definition is_keychar (c : Z) : bool := isalnum c || (c =? chr "_").

(** How many characters the loop [while (s < end && ...) ++s] passes. *)
Fixpoint keychars (s : list Z) (n : nat) : outcome Z :=
  match n with
  | O => Ret 0
  | S n =>
      c ← rd s;
      if is_keychar c then k ← keychars (tail s) n; Ret (1 + k) else Ret 0
  end.

(** [key] is what may be read from [key] on, [n] is [fullkeyend - key]; the end
    of the key is given as an offset. *)
Definition cf_find_keyend (key : list Z) (n : Z) : outcome (option Z) :=
  s0 ← (if 0 <? n then c ← rd key; Ret (if isalpha c || (c =? chr "_") then 1 else 0) else Ret 0);
  k ← keychars (drop (Z.to_nat s0) key) (Z.to_nat (n - s0));
  let s := s0 + k in
  if s =? 0 then Ret None
  else if s <? n then c ← rdn key s; Ret (if negb (c =? chr ".") then None else Some s)
  else Ret (Some s).

Definition cf_find_keypattern_end (key : list Z) (n : Z) : outcome (option Z) :=
  e ← cf_find_keyend key n;
  match e with
  | Some s => Ret (Some s)
  | None =>
      s ← (if 0 <? n then c ← rd key; Ret (if c =? chr "*" then 1 else 0) else Ret 0);
      s ← (if s + 1 =? n then c ← rdn key s; Ret (if c =? chr "*" then s + 1 else s) else Ret s);
      if s =? 0 then Ret None
      else if s <? n then c ← rdn key s; Ret (if negb (c =? chr ".") then None else Some s)
      else Ret (Some s)
  end.

(** The loop of the two predicates, from offset [key] with the last value of
    [keyend]: whether [keyend] ends up non-[NULL].  A round passes at least one
    character. *)
Fixpoint name_loop (find : list Z -> Z -> outcome (option Z)) (fuel : nat)
    (text : list Z) (textend key : Z) (found : bool) : outcome bool :=
  match fuel with
  | O => Undef
  | S fuel =>
      if key <=? textend then
        e ← find (drop (Z.to_nat key) text) (textend - key);
        match e with
        | None => Ret false
        | Some e => name_loop find fuel text textend (key + e + 1) true
        end
      else Ret found
  end.

Definition is_configvarname (text : list Z) : outcome bool :=
  n ← strlen text; name_loop cf_find_keyend (S (S (Z.to_nat n))) text n 0 false.

Definition is_configvarpattern (text : list Z) : outcome bool :=
  n ← strlen text; name_loop cf_find_keypattern_end (S (S (Z.to_nat n))) text n 0 false.

(** ** Allocation *)

Definition AM (A : Type) : Type := nat -> outcome (A * nat).
Global Instance AM_ret : MRet AM := fun A a k => Ret (a, k).
Global Instance AM_bind : MBind AM := fun A B f m k => '(a, k) ← m k; f a k.
Definition alift {A} (m : outcome A) : AM A := fun k => a ← m; Ret (a, k).

(** [strncpy] of [n] characters: what it stores. *)
Fixpoint strncpy (s : list Z) (n : nat) : outcome (list Z) :=
  match n with
  | O => Ret []
  | S n' =>
      c ← rd s;
      if c =? 0 then Ret (replicate n 0) else r ← strncpy (tail s) n'; Ret (c :: r)
  end.

(** The array loops of [cf_om_make_child] and [cf_om_remove_child]. *)
Definition child_at (v : list (option cf_om_node)) (i : Z) : outcome cf_om_node :=
  c ← or_undef (v @@ i); or_undef c.

Fixpoint shift_up (fuel : nat) (v : list (option cf_om_node)) (j i : Z)
    : outcome (list (option cf_om_node)) :=
  match fuel with
  | O => Undef
  | S fuel =>
      if i <? j then
        c ← or_undef (v @@ (j - 1)); shift_up fuel (<[Z.to_nat j := c]> v) (j - 1) i
      else Ret v
  end.

Fixpoint shift_down (fuel : nat) (v : list (option cf_om_node)) (n nodc : Z)
    : outcome (list (option cf_om_node)) :=
  match fuel with
  | O => Undef
  | S fuel =>
      if n <? nodc then
        c ← or_undef (v @@ (n + 1)); shift_down fuel (<[Z.to_nat n := c]> v) (n + 1) nodc
      else Ret v
  end.

(** A sum of [int]s. *)
Definition int_add (a b : Z) : outcome Z :=
  if (INT32_MIN <=? a + b) && (a + b <=? INT32_MAX) then Ret (a + b) else Undef.

(** The comparison of the binary search: the key against [child->key]. *)
Definition compare_child (key : list Z) (keylen : Z) (child : cf_om_node) : outcome Z :=
  ck ← key_ptr child;
  c ← strncmp key ck keylen;
  if c =? 0 then x ← rdn ck keylen; Ret (if negb (x =? 0) then -1 else c) else Ret c.

(** The binary search: the index and whether a child was found there.  A round
    at least halves [n - m + 1]. *)
Fixpoint child_search (fuel : nat) (v : list (option cf_om_node)) (key : list Z) (keylen m n : Z)
    : outcome (Z * bool) :=
  match fuel with
  | O => Undef
  | S fuel =>
      s ← int_add m n;
      let i := u32 (Z.quot s 2) in
      child ← child_at v i;
      c ← compare_child key keylen child;
      if c =? 0 then Ret (i, true)
      else
        let '(i, m, n) := if 0 <? c then (u32 (i + 1), s32 (u32 (i + 1)), n)
                          else (i, m, s32 (u32 (i - 1))) in
        if m <=? n then child_search fuel v key keylen m n else Ret (i, false)
  end.

Section conf_om.
Context {AR : Arch}.
(** Which requests the [k]th call of the allocator grants. *)
Context (malloc_ok realloc_ok : nat -> Z -> bool) (sizeof_cf_om_node : Z).

Definition am_malloc (n : Z) : AM bool := fun k => Ret (malloc_ok k n, S k).
Definition am_realloc (n : Z) : AM bool := fun k => Ret (realloc_ok k n, S k).

Definition strn_edup (str : list Z) (len : Z) : AM (option (list Z)) :=
  ok ← am_malloc (len + 1);
  if ok : bool then b ← alift (strncpy str (Z.to_nat len)); mret (Some (b ++ [0]))
  else mret None.

Definition str_edup (str : list Z) : AM (option (list Z)) :=
  n ← alift (strlen str); strn_edup str n.

(** Inserting a new child at [i]; a failed [realloc] leaves [*parentp] [NULL],
    which is dereferenced. *)
Definition add_child_at (parent : cf_om_node) (fullkey : list Z) (key keyend i : Z)
    : AM (option cf_om_node * Z) :=
  ok ← am_malloc sizeof_cf_om_node;
  if ok : bool then
    fk ← strn_edup fullkey keyend;
    match fk with
    | None => mret (Some parent, -1)
    | Some fk =>
        let child := OmNode None 0 (Some fk) key None [] in
        let nodc := nodc parent + 1 in
        ok ← (if 10 <? nodc
              then am_realloc (sizeof_cf_om_node + ptr_bytes * (nodc - 10))
              else mret true);
        if ok : bool then
          v ← alift (shift_up (Z.to_nat nodc) (nodv parent ++ [None]) (nodc - 1) i);
          mret (Some (set_nodv (<[Z.to_nat i := Some child]> v) parent), i)
        else alift Undef
    end
  else mret (Some parent, -1).

(** [fullkey] is what may be read from [fullkey] on, [key] and [keyend] are
    offsets from it.  The result is the parent and the index, -1 when memory is
    short. *)
Definition cf_om_make_child (parentp : option cf_om_node) (fullkey : list Z) (key keyend : Z)
    : AM (option cf_om_node * Z) :=
  parent ← (match parentp with
            | Some p => mret (Some p)
            | None => ok ← am_malloc sizeof_cf_om_node;
                      mret (if ok : bool then Some om_zero else None)
            end);
  match parent with
  | None => mret (None, -1)
  | Some parent =>
      let keylen := keyend - key in
      let keyp := drop (Z.to_nat key) fullkey in
      '(i, found) ← (if negb (nodc parent =? 0)
                     then alift (child_search (S (Z.to_nat (nodc parent))) (nodv parent) keyp keylen
                                              0 (s32 (nodc parent - 1)))
                     else mret (0, false));
      if found : bool then mret (Some parent, i)
      else
        alift (cassert (i <=? nodc parent));;
        add_child_at parent fullkey key keyend i
  end.

(** [parentp] itself is not [NULL]. *)
Definition cf_om_add_child (parentp : option cf_om_node) (key : list Z)
    : AM (option cf_om_node * Z) :=
  parent_fullkey_len ← alift (match parentp with
                              | Some p => match node_fullkey p with
                                          | Some f => strlen f
                                          | None => Ret 0
                                          end
                              | None => Ret 0
                              end);
  n ← alift (strlen key);
  let fullkey_len := parent_fullkey_len + 1 + n in
  let prefix := if negb (parent_fullkey_len =? 0)
                then match parentp with
                     | Some p => take (Z.to_nat parent_fullkey_len) (default [] (node_fullkey p)) ++
                                 [chr "."]
                     | None => []
                     end
                else [] in
  let written := prefix ++ take (Z.to_nat n) key ++ [0] in
  (* the rest of the array is uninitialised *)
  let fullkey := written ++ replicate (Z.to_nat (fullkey_len + 1) - length written) 0 in
  cf_om_make_child parentp fullkey (zlen prefix) fullkey_len.

(** [keyend] is [None] for [NULL], otherwise an offset from [key]. *)
Fixpoint get_child_loop (v : list (option cf_om_node)) (i : Z) (key : list Z) (keyend : option Z)
    : outcome Z :=
  match v with
  | [] => Ret (-1)
  | c :: v =>
      c ← or_undef c; ck ← key_ptr c;
      r ← (match keyend with
           | Some e => strncmp ck key e
           | None => n ← strlen key; strncmp ck key (n + 1)
           end);
      if r =? 0 then Ret i else get_child_loop v (i + 1) key keyend
  end.

Definition cf_om_get_child (parent : cf_om_node) (key : list Z) (keyend : option Z) : outcome Z :=
  get_child_loop (nodv parent) 0 key keyend.

(** Freeing a node leaves the pointer to it [NULL]. *)
Definition cf_om_free_node (nodep : option cf_om_node) : option cf_om_node := None.

Definition cf_om_remove_child (parent : cf_om_node) (n : Z) : outcome cf_om_node :=
  cassert (n <? nodc parent);;
  c ← or_undef (nodv parent @@ n);
  let v := <[Z.to_nat n := cf_om_free_node c]> (nodv parent) in
  let nodc := nodc parent - 1 in
  v ← shift_down (S (Z.to_nat nodc)) v n nodc;
  Ret (set_nodv (take (Z.to_nat nodc) v) parent).

Definition cf_om_remove_null_child (parent : cf_om_node) (n : Z) : outcome (Z * cf_om_node) :=
  cassert (n <? nodc parent);;
  c ← or_undef (nodv parent @@ n);
  match c with
  | None => parent ← cf_om_remove_child parent n; Ret (1, parent)
  | Some _ => Ret (0, parent)
  end.

Definition cf_om_remove_empty_child (parent : cf_om_node) (n : Z) : outcome (Z * cf_om_node) :=
  cassert (n <? nodc parent);;
  c ← or_undef (nodv parent @@ n);
  match c with
  | Some c =>
      if bool_decide (node_text c = None) && (nodc c =? 0)
      then parent ← cf_om_remove_child parent n; Ret (1, parent)
      else Ret (0, parent)
  | None => Ret (0, parent)
  end.

(** The loop shared by [cf_om_parse] and [cf_om_set], from the slot [nodep] and
    the offset [key]; [k] is the code after the loop, given [keyend], [nodi] and
    [*nodep], and returns its result and the new [*nodep].  A round passes at
    least one character. *)
Fixpoint make_path {R} (fuel : nat) (fullkey : list Z) (fullkeyend key : Z) (keyend : option Z)
    (nodi : Z) (nodep : option cf_om_node)
    (k : option Z -> Z -> option cf_om_node -> AM (R * option cf_om_node))
    : AM (R * option cf_om_node) :=
  match fuel with
  | O => alift Undef
  | S fuel =>
      if key <=? fullkeyend then
        e ← alift (cf_find_keyend (drop (Z.to_nat key) fullkey) (fullkeyend - key));
        match e with
        | None => k None nodi nodep
        | Some e =>
            let keyend := key + e in
            '(node, nodi) ← cf_om_make_child nodep fullkey key keyend;
            if nodi =? -1 then k (Some keyend) nodi node
            else
              node ← alift (or_undef node);
              child ← alift (or_undef (nodv node @@ nodi));
              '(r, child) ← make_path fuel fullkey fullkeyend (keyend + 1) (Some keyend) nodi child k;
              mret (r, Some (set_nodv (<[Z.to_nat nodi := child]> (nodv node)) node))
        end
      else k keyend nodi nodep
  end.

(** [text] may be [NULL]. *)
Definition set_end (text : option (list Z)) (keyend : option Z) (nodi : Z)
    (nodep : option cf_om_node) : AM (Z * option cf_om_node) :=
  match keyend with
  | None => mret (CFINVALID, nodep)
  | Some _ =>
      if nodi =? -1 then mret (CFERROR, nodep)
      else
        node ← alift (or_undef nodep);
        match text with
        | None => mret (CFOK, Some (set_text None node))
        | Some t =>
            t ← str_edup t;
            mret (match t with Some _ => CFOK | None => CFERROR end, Some (set_text t node))
        end
  end.

Definition cf_om_set (nodep : option cf_om_node) (fullkey : list Z) (text : option (list Z))
    : AM (Z * option cf_om_node) :=
  n ← alift (strlen fullkey);
  make_path (S (S (Z.to_nat n))) fullkey n 0 None (-1) nodep (set_end text).

Fixpoint get_loop (fuel : nat) (fullkey : list Z) (fullkeyend key : Z) (keyend : option Z)
    (nodi : Z) (node : cf_om_node) : outcome (option (list Z)) :=
  match fuel with
  | O => Undef
  | S fuel =>
      let finish := fun keyend nodi (node : cf_om_node) =>
        match keyend with
        | None => None
        | Some _ => if nodi =? -1 then None else node_text node
        end in
      if key <=? fullkeyend then
        let keyp := drop (Z.to_nat key) fullkey in
        e ← cf_find_keyend keyp (fullkeyend - key);
        match e with
        | None => Ret (finish None nodi node)
        | Some e =>
            nodi ← cf_om_get_child node keyp (Some e);
            if nodi =? -1 then Ret (finish (Some (key + e)) nodi node)
            else
              node ← child_at (nodv node) nodi;
              get_loop fuel fullkey fullkeyend (key + e + 1) (Some (key + e)) nodi node
        end
      else Ret (finish keyend nodi node)
  end.

Definition cf_om_get (node : option cf_om_node) (fullkey : list Z) : outcome (option (list Z)) :=
  match node with
  | None => Ret None
  | Some node =>
      n ← strlen fullkey; get_loop (S (S (Z.to_nat n))) fullkey n 0 None (-1) node
  end.

(** ** Parsing a configuration file *)

(** The offset of the first character from [p] on, before [lend], for which the
    loop stops. *)
Fixpoint scan (stop : Z -> bool) (fuel : nat) (buf : list Z) (p lend : Z) : outcome Z :=
  match fuel with
  | O => Undef
  | S fuel =>
      if p <? lend then
        c ← rdn buf p; if stop c then Ret p else scan stop fuel buf (p + 1) lend
      else Ret p
  end.

(** The end of a line: one round of the outer loop of [cf_om_parse].  The
    result is the new [result] and [*rootp], and whether to return at once. *)
Definition parse_end (source : option (list Z)) (lineno : Z) (result : Z) (valp : list Z)
    (vallen : Z) (keyend : option Z) (nodi : Z) (nodep : option cf_om_node)
    : AM (Z * bool * option cf_om_node) :=
  match keyend with
  | None => mret (Z.lor result CFINVALID, false, nodep)
  | Some _ =>
      if nodi =? -1 then mret (CFERROR, true, nodep)
      else
        node ← alift (or_undef nodep);
        match node_text node with
        | Some _ => mret (Z.lor result CFDUPLICATE, false, Some node)
        | None =>
            t ← strn_edup valp vallen;
            match t with
            | None => mret (CFERROR, true, Some node)
            | Some t =>
                mret (Z.land result (Z.lnot CFEMPTY), false,
                      Some (set_where source lineno (set_text (Some t) node)))
            end
        end
  end.

Definition parse_line (source : option (list Z)) (buf : list Z) (lineno line lend result : Z)
    (rootp : option cf_om_node) : AM (Z * bool * option cf_om_node) :=
  let fuel := S (Z.to_nat (lend - line)) in
  c ← alift (rdn buf line);
  if c =? chr "#" then mret (result, false, rootp)
  else
    p ← alift (scan (fun c => negb (isspace c)) fuel buf line lend);
    if p =? lend then mret (result, false, rootp)
    else
      p ← alift (scan (fun c => c =? chr "=") fuel buf line lend);
      if (p =? line) || (p =? lend) then mret (Z.lor result CFINVALID, false, rootp)
      else
        make_path (S (S (Z.to_nat (p - line)))) (drop (Z.to_nat line) buf) (p - line) 0 None (-1)
                  rootp
                  (parse_end source lineno result (drop (Z.to_nat (p + 1)) buf) (lend - (p + 1))).

(** The outer loop: every line has at least one character. *)
Fixpoint parse_loop (fuel : nat) (source : option (list Z)) (buf : list Z) (end_ : Z)
    (lineno line result : Z) (rootp : option cf_om_node) : AM (Z * option cf_om_node) :=
  match fuel with
  | O => alift Undef
  | S fuel =>
      if line <? end_ then
        nl ← alift (scan (fun c => c =? 10) (S (Z.to_nat (end_ - line))) buf line end_);
        lend ← (if line <? nl then c ← alift (rdn buf (nl - 1)); mret (if c =? 13 then nl - 1 else nl)
                else mret nl);
        '(result, stop, rootp) ← parse_line source buf lineno line lend result rootp;
        if stop : bool then mret (result, rootp)
        else parse_loop fuel source buf end_ (u32 (lineno + 1)) (nl + 1) result rootp
      else mret (result, rootp)
  end.

Definition cf_om_parse (source : option (list Z)) (buf : list Z) (len : Z)
    (rootp : option cf_om_node) : AM (Z * option cf_om_node) :=
  parse_loop (S (Z.to_nat len)) source buf len 1 0 CFEMPTY rootp.
End conf_om.

(** ** Matching a node's name against a pattern *)

(** The offsets reached by [while (pat < patend && key < fullkeyend && *pat == *key)]. *)
Fixpoint same_run (fuel : nat) (pattern : list Z) (pat patend : Z) (fullkey : list Z)
    (key fullkeyend : Z) : outcome (Z * Z) :=
  match fuel with
  | O => Undef
  | S fuel =>
      if (pat <? patend) && (key <? fullkeyend) then
        a ← rdn pattern pat; b ← rdn fullkey key;
        if a =? b then same_run fuel pattern (pat + 1) patend fullkey (key + 1) fullkeyend
        else Ret (pat, key)
      else Ret (pat, key)
  end.

(** [if ( *p ) ++p;] *)
Definition step_over (s : list Z) (p : Z) : outcome Z :=
  c ← rdn s p; Ret (if negb (c =? 0) then p + 1 else p).

(** The loop, with the last values of [keyend] and [patend]. *)
Fixpoint match_loop (fuel : nat) (pattern : list Z) (pattern_end : Z) (fullkey : list Z)
    (fullkeyend : Z) (pat key : Z) (keyend patend : option Z) : outcome Z :=
  match fuel with
  | O => Undef
  | S fuel =>
      let finish := fun (keyend patend : option Z) =>
        match patend with
        | None => -1
        | Some _ => match keyend with
                    | Some e => if (e =? fullkeyend) && (pat =? pattern_end) then 1 else 0
                    | None => 0
                    end
        end in
      if (pat <? pattern_end) && (key <=? fullkeyend) then
        e ← cf_find_keyend (drop (Z.to_nat key) fullkey) (fullkeyend - key);
        match e with
        | None => Ret (finish None patend)
        | Some e =>
            let ke := key + e in
            pe ← cf_find_keypattern_end (drop (Z.to_nat pat) pattern) (pattern_end - pat);
            match pe with
            | None => Ret (finish (Some ke) None)
            | Some pe =>
                let pe := pat + pe in
                c0 ← rdn pattern pat;
                if c0 =? chr "*" then
                  c1 ← rdn pattern (pat + 1);
                  if c1 =? chr "*" then Ret 1
                  else
                    pat ← step_over pattern pe; key ← step_over fullkey ke;
                    match_loop fuel pattern pattern_end fullkey fullkeyend pat key (Some ke) (Some pe)
                else
                  '(p, k) ← same_run (S (Z.to_nat (pe - pat))) pattern pat pe fullkey key fullkeyend;
                  if negb (p =? pe) || negb (k =? ke) then Ret 0
                  else
                    pat ← step_over pattern p; key ← step_over fullkey k;
                    match_loop fuel pattern pattern_end fullkey fullkeyend pat key (Some ke) (Some pe)
            end
        end
      else Ret (finish keyend patend)
  end.

Definition cf_om_match (pattern : list Z) (node : option cf_om_node) : outcome Z :=
  match node with
  | None => Ret 0
  | Some node =>
      match node_fullkey node with
      | None => Ret 0
      | Some fullkey =>
          c ← rd pattern;
          if c =? 0 then Ret (-1)
          else
            pn ← strlen pattern; kn ← strlen fullkey;
            match_loop (S (S (Z.to_nat pn))) pattern pn fullkey kn 0 0 None (Some 0)
      end
  end.

(** ** Iteration *)

(** [stack] has room for 20 entries of a node and an index; an entry that was
    never written is [None]. *)
Definition ITER_STACK : Z := 20.
Record cf_om_iterator : Type := Iter {
  it_node : option cf_om_node;
  sp : Z;
  stack : list (option cf_om_node * Z)
}.

Definition cf_om_iter_start (stack0 : list (option cf_om_node * Z)) (root : option cf_om_node)
    : cf_om_iterator :=
  Iter root 0 (<[0%nat := (root, 0)]> stack0).

(** Storing outside the array is undefined. *)
Definition stack_put (i : Z) (e : option cf_om_node * Z) (st : list (option cf_om_node * Z))
    : outcome (list (option cf_om_node * Z)) :=
  if (0 <=? i) && (i <? zlen st) then Ret (<[Z.to_nat i := e]> st) else Undef.

(** The [while (1)] loop of [cf_om_iter_next]: [sp] decreases in every round but
    the last. *)
Fixpoint iter_loop (fuel : nat) (it : cf_om_iterator) : outcome (Z * cf_om_iterator) :=
  match fuel with
  | O => Undef
  | S fuel =>
      '(p, i) ← or_undef (stack it @@ sp it);
      parent ← or_undef p;
      st ← stack_put (sp it) (p, u32 (i + 1)) (stack it);
      if i <? nodc parent then
        c ← or_undef (nodv parent @@ i);
        match c with
        | None => Ret (-1, Iter None (sp it) st)
        | Some child =>
            if zlen st <=? sp it then Ret (-1, Iter c (sp it) st)
            else
              let sp' := sp it + 1 in
              st ← stack_put sp' (c, 0) st;
              Ret (0, Iter c sp' st)
        end
      else if negb (sp it =? 0) then iter_loop fuel (Iter (it_node it) (sp it - 1) st)
      else Ret (0, Iter None (sp it) st)
  end.

Definition cf_om_iter_next (it : cf_om_iterator) : outcome (Z * cf_om_iterator) :=
  match it_node it with
  | None => Ret (0, it)
  | Some _ => iter_loop (S (Z.to_nat (sp it))) it
  end.
