(* ===== verification/ConfOmFacts.v ===== *)
(** * The configuration tree: keys, order, search and insertion

    What the pieces of [ConfOm] do on names made of components, and the
    invariant of the tree: [om_wf pre n] says that [n] is a well-formed node
    whose full name has the components [pre]. *)

From Stdlib Require Import ZArith Lia Ascii String Sorted.
From stdpp Require Import base tactics list numbers.
From S2P Require Import Prelude Cstring ConfOm.

Local Open Scope Z_scope.

(** ** Names as sequences of components *)

Fixpoint join_dot (ks : list (list Z)) : list Z :=
  match ks with
  | [] => []
  | [k] => k
  | k :: ks => k ++ chr "." :: join_dot ks
  end.

Definition no_dot (k : list Z) : Prop := Forall (fun c => c <> chr ".") k.
Definition valid_key (k : list Z) : bool := negb (bool_decide (k = [])) && forallb is_keychar k.
Definition pos_chars (k : list Z) : Prop := Forall (fun c => 0 < c) k.

Lemma join_dot_cons k k' ks :
  join_dot (k :: k' :: ks) = k ++ chr "." :: join_dot (k' :: ks).
Proof. done. Qed.

Lemma zlen_join_cons k ks :
  zlen (join_dot (k :: ks)) = zlen k + match ks with [] => 0 | _ => 1 + zlen (join_dot ks) end.
Proof.
  destruct ks; [simpl; lia|]. rewrite join_dot_cons, zlen_app, zlen_cons. done.
Qed.

Lemma is_keychar_pos c : is_keychar c = true -> 0 < c.
Proof.
  unfold is_keychar, isalnum, isalpha, isupper, islower, isdigit, between.
  rewrite !orb_true_iff, !andb_true_iff, !Z.leb_le, Z.eqb_eq. change (chr "_") with 95. lia.
Qed.

Lemma is_keychar_dot c : is_keychar c = true -> c <> chr ".".
Proof. intros H ->. by vm_compute in H. Qed.

Lemma forallb_Forall {A} (p : A -> bool) l : forallb p l = true <-> Forall (fun x => p x = true) l.
Proof.
  induction l as [|x l IH]; simpl; [by split|]. by rewrite andb_true_iff, Forall_cons_iff, IH.
Qed.

Lemma valid_key_chars k : valid_key k = true -> Forall (fun c => is_keychar c = true) k.
Proof. unfold valid_key. intros [_ H]%andb_true_iff. by apply forallb_Forall. Qed.

Lemma valid_key_pos k : valid_key k = true -> pos_chars k.
Proof. intros H%valid_key_chars. eapply Forall_impl; [|exact H]. apply is_keychar_pos. Qed.

Lemma valid_key_no_dot k : valid_key k = true -> no_dot k.
Proof. intros H%valid_key_chars. eapply Forall_impl; [|exact H]. apply is_keychar_dot. Qed.

Lemma valid_key_len k : valid_key k = true -> 0 < zlen k.
Proof. unfold valid_key. intros H. bsplit. destruct k; [done|]. rewrite zlen_cons. pose proof (zlen_nonneg k). lia. Qed.

(** ** The character scan *)

Fixpoint key_prefix (k : list Z) : Z :=
  match k with c :: k => if is_keychar c then 1 + key_prefix k else 0 | [] => 0 end.

Lemma key_prefix_range k : 0 <= key_prefix k <= zlen k.
Proof. induction k as [|c k IH]; simpl; [done|]. rewrite zlen_cons. destruct (is_keychar c); lia. Qed.

Lemma key_prefix_all k : forallb is_keychar k = true <-> key_prefix k = zlen k.
Proof.
  induction k as [|c k IH]; simpl; [done|]. rewrite zlen_cons.
  pose proof (key_prefix_range k). destruct (is_keychar c); simpl; [rewrite IH|]; split; try lia; done.
Qed.

Lemma key_prefix_stop k :
  key_prefix k < zlen k -> exists c, k @@ key_prefix k = Some c /\ is_keychar c = false.
Proof.
  induction k as [|c k IH]; cbn [key_prefix]; [done|]. rewrite zlen_cons. intros Hl.
  pose proof (key_prefix_range k). destruct (is_keychar c) eqn:E; [|by exists c].
  destruct IH as (d & Hd & Hd'); [lia|]. exists d. split; [|done].
  unfold zlookup in *. destruct (Z.ltb_spec (key_prefix k) 0); [lia|].
  destruct (Z.ltb_spec (1 + key_prefix k) 0); [lia|].
  by replace (Z.to_nat (1 + key_prefix k)) with (S (Z.to_nat (key_prefix k))) by lia.
Qed.

(** [keychars] stops at the first character that cannot be in a key, so at the
    end of the component when it is followed by a dot or nothing. *)
Lemma keychars_prefix k tl n :
  (length k <= n)%nat -> ((n = length k) \/ exists r, tl = chr "." :: r) ->
  keychars (k ++ tl) n = Ret (key_prefix k).
Proof.
  revert n. induction k as [|c k IH]; intros n Hn Htl; simpl in *.
  - destruct n; [done|]. destruct Htl as [?|[r ->]]; [lia|]. done.
  - destruct n; [lia|]. cbn [keychars app]. rewrite rd_cons. cbn [tail mbind outcome_bind].
    destruct (is_keychar c); [|done]. rewrite IH; [done|lia|]. destruct Htl; [left; lia|by right].
Qed.

(** What follows the first component. *)
Definition after_key (ks : list (list Z)) (rest : list Z) : list Z :=
  match ks with [] => rest | _ => chr "." :: join_dot ks ++ rest end.
Definition after_len (ks : list (list Z)) : Z :=
  match ks with [] => 0 | _ => 1 + zlen (join_dot ks) end.

Lemma join_after k ks rest : join_dot (k :: ks) ++ rest = k ++ after_key ks rest.
Proof. destruct ks; [done|]. rewrite join_dot_cons, <- app_assoc. done. Qed.

Lemma join_after_len k ks : zlen (join_dot (k :: ks)) = zlen k + after_len ks.
Proof. apply zlen_join_cons. Qed.

Lemma after_len_nonneg ks : 0 <= after_len ks.
Proof. destruct ks as [|k ks]; cbn [after_len]; [done|]. pose proof (zlen_nonneg (join_dot (k :: ks))). lia. Qed.

Lemma zlookup_app_l {A} (l l' : list A) i : i < zlen l -> (l ++ l') @@ i = l @@ i.
Proof.
  unfold zlookup, zlen. intros. destruct (Z.ltb_spec i 0); [done|]. apply lookup_app_l. lia.
Qed.

Lemma zlookup_app_r {A} (l l' : list A) i :
  0 <= i -> (l ++ l') @@ (zlen l + i) = l' @@ i.
Proof.
  unfold zlookup, zlen. intros. destruct (Z.ltb_spec (Z.of_nat (length l) + i) 0); [lia|].
  destruct (Z.ltb_spec i 0); [lia|]. rewrite lookup_app_r by lia. f_equal. lia.
Qed.

Lemma zlookup_app_len {A} (l l' : list A) : (l ++ l') @@ zlen l = l' @@ 0.
Proof. rewrite <- (Z.add_0_r (zlen l)). by apply zlookup_app_r. Qed.

Lemma zlookup_cons_0 {A} (x : A) l : (x :: l) @@ 0 = Some x.
Proof. done. Qed.

(** The count both loops of [cf_find_keyend] reach together. *)
Lemma keyend_run k ks rest :
  (s0 ← (if 0 <? zlen k + after_len ks
         then c ← rd (k ++ after_key ks rest); Ret (if isalpha c || (c =? chr "_") then 1 else 0)
         else Ret 0);
   n ← keychars (drop (Z.to_nat s0) (k ++ after_key ks rest)) (Z.to_nat (zlen k + after_len ks - s0));
   Ret (s0 + n)) = Ret (key_prefix k).
Proof.
  assert (Hrun : forall k, keychars (k ++ after_key ks rest) (Z.to_nat (zlen k + after_len ks)) =
                           Ret (key_prefix k)).
  { intros k'. pose proof (after_len_nonneg ks). apply keychars_prefix; [unfold zlen; lia|].
    destruct ks; [left; unfold zlen; simpl; lia | right; by eexists]. }
  pose proof (after_len_nonneg ks) as Ha. destruct k as [|c k].
  - specialize (Hrun []). change (zlen (@nil Z)) with 0 in *. cbn [app key_prefix] in *.
    assert (rd (after_key ks rest) = Ret (chr ".") \/ after_len ks = 0) as Hd
      by (destruct ks; [by right | by left]).
    assert (isalpha (chr ".") || (chr "." =? chr "_") = false) as Hdot by done.
    destruct (Z.ltb_spec 0 (0 + after_len ks)); [destruct Hd as [->|?]; [|lia]|];
      cbn [mbind outcome_bind]; rewrite ?Hdot, Z.sub_0_r, drop_0; by rewrite Hrun.
  - pose proof (zlen_nonneg k). rewrite (proj2 (Z.ltb_lt _ _)) by (rewrite zlen_cons; lia).
    cbn [app rd head or_undef mbind outcome_bind].
    destruct (isalpha c || (c =? chr "_")) eqn:E.
    + change (Z.to_nat 1) with 1%nat. cbn [skipn]. rewrite zlen_cons.
      replace (1 + zlen k + after_len ks - 1) with (zlen k + after_len ks) by lia.
      rewrite drop_0, Hrun. cbn [mbind outcome_bind key_prefix]. replace (is_keychar c) with true; [done|].
      symmetry. unfold is_keychar, isalnum. by destruct (isalpha c), (c =? chr "_"), (isdigit c).
    + rewrite Z.sub_0_r, drop_0. specialize (Hrun (c :: k)). cbn [app] in Hrun. by rewrite Hrun.
Qed.

(** [cf_find_keyend] finds the end of the first component when that component
    is a key. *)
Lemma cf_find_keyend_spec k ks rest :
  no_dot k ->
  cf_find_keyend (join_dot (k :: ks) ++ rest) (zlen (join_dot (k :: ks))) =
  Ret (if valid_key k then Some (zlen k) else None).
Proof.
  intros Hnd. rewrite join_after, join_after_len. unfold cf_find_keyend.
  pose proof (keyend_run k ks rest) as Hrun. revert Hrun.
  match goal with |- mbind ?f ?m = _ -> _ => set (s0m := m) end.
  destruct s0m as [s0| |]; try done. cbn [mbind outcome_bind].
  destruct (keychars _ _) as [n| |]; try done. cbn [mbind outcome_bind]. intros [= ->].
  pose proof (key_prefix_range k) as Hr. pose proof (after_len_nonneg ks).
  unfold valid_key. destruct (forallb is_keychar k) eqn:Hall.
  - apply key_prefix_all in Hall. rewrite Hall.
    destruct (Z.eqb_spec (zlen k) 0) as [Hz|Hz].
    { destruct k; [done|]. rewrite zlen_cons in Hz. pose proof (zlen_nonneg k). lia. }
    destruct k as [|c k]; [done|]. simpl negb. cbn [andb].
    destruct (Z.ltb_spec (zlen (c :: k)) (zlen (c :: k) + after_len ks)); [|done].
    unfold rdn. rewrite zlookup_app_len. destruct ks; [simpl in *; lia|]. done.
  - rewrite andb_false_r. destruct (Z.eqb_spec (key_prefix k) 0); [done|].
    assert (key_prefix k < zlen k).
    { destruct (decide (key_prefix k = zlen k)) as [E|]; [|lia]. apply key_prefix_all in E. congruence. }
    rewrite (proj2 (Z.ltb_lt _ _)) by lia.
    destruct (key_prefix_stop k) as (c & Hc & _); [done|].
    unfold rdn. rewrite zlookup_app_l, Hc by done. cbn [or_undef mbind outcome_bind].
    destruct (Z.eqb_spec c (chr ".")) as [->|]; [|done].
    exfalso. unfold zlookup in Hc. destruct (Z.ltb_spec (key_prefix k) 0); [done|].
    eapply (Forall_lookup_1 _ _ _ _ Hnd Hc). done.
Qed.

(** ** Splitting a name *)

Fixpoint split_dot (t : list Z) : list (list Z) :=
  match t with
  | [] => [[]]
  | c :: t =>
      if c =? chr "." then [] :: split_dot t
      else match split_dot t with
           | k :: ks => (c :: k) :: ks
           | [] => [[c]]
           end
  end.

Lemma split_dot_join t :
  exists k ks, split_dot t = k :: ks /\ join_dot (k :: ks) = t /\ Forall no_dot (k :: ks).
Proof.
  induction t as [|c t (k & ks & E & Hj & Hd)]; cbn [split_dot].
  { exists [], []. repeat split; repeat constructor. }
  rewrite E. destruct (Z.eqb_spec c (chr ".")) as [->|Hc].
  - exists [], (k :: ks). split; [done|]. split; [|by constructor; [constructor|]].
    rewrite join_dot_cons, Hj. done.
  - exists (c :: k), ks. split; [done|]. apply Forall_cons_iff in Hd as [Hk Hks].
    split; [|by repeat constructor].
    destruct ks; [by rewrite <- Hj|]. rewrite <- Hj, !join_dot_cons. done.
Qed.

Lemma split_join ks : ks <> [] -> Forall no_dot ks -> split_dot (join_dot ks) = ks.
Proof.
  assert (Happ : forall k t, no_dot k ->
    split_dot (k ++ chr "." :: t) = k :: split_dot t /\ split_dot k = [k]).
  { induction 1 as [|c k Hc _ [IH1 IH2]]; cbn [app split_dot]; [by rewrite Z.eqb_refl|].
    destruct (Z.eqb_spec c (chr ".")); [done|]. by rewrite IH1, IH2. }
  induction ks as [|k [|k' ks] IH]; [done| |]; intros _ [Hk Hks]%Forall_cons_iff.
  - by apply (Happ k []).
  - rewrite join_dot_cons. destruct (Happ k (join_dot (k' :: ks)) Hk) as [-> _]. by rewrite IH.
Qed.

(** ** Patterns *)

Definition star : list Z := zs "*".
Definition starstar : list Z := zs "**".

Definition valid_pattern (k : list Z) (ks : list (list Z)) : bool :=
  valid_key k || bool_decide (k = star) || (bool_decide (k = starstar) && bool_decide (ks = [])).

Definition pattern_len (k : list Z) (ks : list (list Z)) : option Z :=
  if valid_pattern k ks then Some (zlen k) else None.

Lemma after_len_1 ks : after_len ks = 1 -> ks = [[]].
Proof.
  destruct ks as [|k ks]; cbn [after_len]; [done|]. intros H.
  assert (zlen (join_dot (k :: ks)) = 0) as H0 by lia. rewrite join_after_len in H0.
  pose proof (after_len_nonneg ks). pose proof (zlen_nonneg k).
  destruct k; [|rewrite zlen_cons in *; pose proof (zlen_nonneg k); lia].
  destruct ks as [|k ks]; [done|]. cbn [after_len] in *. pose proof (zlen_nonneg (join_dot (k :: ks))). lia.
Qed.

(** The star tests of [cf_find_keypattern_end]: [s] after them. *)
Lemma star_run k ks rest :
  no_dot k ->
  (s ← (if 0 <? zlen k + after_len ks
        then c ← rd (k ++ after_key ks rest); Ret (if c =? chr "*" then 1 else 0) else Ret 0);
   (if s + 1 =? zlen k + after_len ks
    then c ← rdn (k ++ after_key ks rest) s; Ret (if c =? chr "*" then s + 1 else s) else Ret s)) =
  Ret (match k with
       | c :: k' => if c =? chr "*" then (if bool_decide (k = starstar /\ ks = []) then 2 else 1) else 0
       | [] => 0
       end).
Proof.
  intros Hnd. pose proof (after_len_nonneg ks) as Ha. destruct k as [|c k].
  - change (zlen (@nil Z)) with 0. cbn [app]. destruct ks as [|k' ks]; [done|].
    pose proof (zlen_nonneg (join_dot (k' :: ks))). cbn [after_len] in *.
    rewrite (proj2 (Z.ltb_lt _ _)) by lia. cbn [after_key rd head or_undef mbind outcome_bind].
    change (chr "." =? chr "*") with false. cbn [mbind outcome_bind].
    by destruct (0 + 1 =? 0 + (1 + zlen (join_dot (k' :: ks)))).
  - pose proof (zlen_nonneg k). rewrite zlen_cons. rewrite (proj2 (Z.ltb_lt _ _)) by lia.
    cbn [app rd head or_undef mbind outcome_bind].
    destruct (Z.eqb_spec c (chr "*")) as [->|Hc]; cbn [mbind outcome_bind].
    + destruct k as [|d k].
      * change (zlen (@nil Z)) with 0. rewrite bool_decide_eq_false_2 by (intros [? _]; done).
        destruct (Z.eqb_spec (1 + 1) (1 + 0 + after_len ks)); [|done].
        rewrite (after_len_1 ks) by lia. done.
      * rewrite zlen_cons in *. pose proof (zlen_nonneg k).
        destruct (Z.eqb_spec (1 + 1) (1 + (1 + zlen k) + after_len ks)) as [E|E]; cbn [app mbind outcome_bind].
        -- destruct k; [|rewrite zlen_cons in *; pose proof (zlen_nonneg k); lia].
           destruct ks; [|cbn [after_len] in *; pose proof (zlen_nonneg (join_dot (l :: ks))); lia].
           cbn [app]. change (rdn (chr "*" :: d :: after_key [] rest) 1) with (Ret d).
           cbn [mbind outcome_bind]. destruct (Z.eqb_spec d (chr "*")) as [->|Hd]; [done|].
           rewrite bool_decide_eq_false_2; [done|]. unfold starstar. intros [[= ?] _]. done.
        -- rewrite bool_decide_eq_false_2; [done|]. intros [[= -> ->] ->].
           apply E. done.
    + destruct (Z.eqb_spec (0 + 1) (1 + zlen k + after_len ks)); [|done].
      change (rdn (c :: k ++ after_key ks rest) 0) with (Ret c). cbn [mbind outcome_bind].
      by destruct (Z.eqb_spec c (chr "*")).
Qed.

Lemma cf_find_keypattern_end_spec k ks rest :
  no_dot k ->
  cf_find_keypattern_end (join_dot (k :: ks) ++ rest) (zlen (join_dot (k :: ks))) =
  Ret (pattern_len k ks).
Proof.
  intros Hnd. unfold cf_find_keypattern_end. rewrite cf_find_keyend_spec by done.
  unfold pattern_len, valid_pattern. destruct (valid_key k) eqn:Hv; [done|]. cbn [mbind outcome_bind orb].
  rewrite join_after, join_after_len. pose proof (star_run k ks rest Hnd) as Hrun. revert Hrun.
  match goal with |- mbind ?f ?m = _ -> _ => set (s0m := m) end.
  destruct s0m as [s0| |]; try done. cbn [mbind outcome_bind].
  match goal with |- ?m = _ -> _ => destruct m as [s| |]; try done end.
  cbn [mbind outcome_bind]. intros [= ->]. destruct k as [|c k]; [done|].
  destruct (Z.eqb_spec c (chr "*")) as [->|Hc].
  2: { rewrite (bool_decide_eq_false_2 (_ = star)), (bool_decide_eq_false_2 (_ = starstar));
         [done| |]; by intros [= ?]. }
  pose proof (after_len_nonneg ks). pose proof (zlen_nonneg k).
  case_bool_decide as Hss.
  - destruct Hss as [-> ->]. done.
  - cbn [Z.eqb]. destruct k as [|d k].
    { change (bool_decide ([chr "*"] = star)) with true. rewrite orb_true_l.
      destruct (Z.ltb_spec 1 (zlen [chr "*"] + after_len ks)) as [Hl|Hl]; [|done].
      destruct ks; [change (zlen [chr "*"]) with 1 in Hl; cbn [after_len] in Hl; lia|]. done. }
    rewrite (bool_decide_eq_false_2 (_ = star)) by (by intros [= ?]).
    replace (bool_decide (chr "*" :: d :: k = starstar) && bool_decide (ks = [])) with false
      by (symmetry; apply andb_false_iff; destruct (decide (ks = [])) as [->|];
          [left | right]; apply bool_decide_eq_false_2; naive_solver).
    rewrite !zlen_cons in *. rewrite (proj2 (Z.ltb_lt _ _)) by (pose proof (zlen_nonneg k); lia).
    change (rdn ((chr "*" :: d :: k) ++ after_key ks rest) 1) with (Ret d). cbn [mbind outcome_bind].
    apply Forall_cons_iff in Hnd as [_ [Hd _]%Forall_cons_iff].
    by destruct (Z.eqb_spec d (chr ".")).
Qed.

(** The loops walk the components one by one. *)
Lemma drop_zlen_app {A} (l l' : list A) : drop (Z.to_nat (zlen l)) (l ++ l') = l'.
Proof. unfold zlen. rewrite Nat2Z.id. apply drop_app_length. Qed.

(** Every component passes [ok], which sees the components after it. *)
Fixpoint all_ok (ok : list Z -> list (list Z) -> bool) (ks : list (list Z)) : bool :=
  match ks with [] => true | k :: ks => ok k ks && all_ok ok ks end.

Lemma name_loop_spec find (ok : list Z -> list (list Z) -> bool) :
  (forall k ks rest, no_dot k ->
     find (join_dot (k :: ks) ++ rest) (zlen (join_dot (k :: ks))) =
     Ret (if ok k ks then Some (zlen k) else None)) ->
  forall k ks pre rest fuel found,
  Forall no_dot (k :: ks) -> (length ks + 2 <= fuel)%nat ->
  name_loop find fuel (pre ++ join_dot (k :: ks) ++ rest) (zlen pre + zlen (join_dot (k :: ks)))
            (zlen pre) found =
  Ret (all_ok ok (k :: ks)).
Proof.
  intros Hfind k ks. revert k.
  induction ks as [|k' ks IH]; intros k pre rest fuel found [Hk Hks]%Forall_cons_iff Hf;
    (destruct fuel as [|fuel]; [lia|]); cbn [name_loop].
  all: rewrite (proj2 (Z.leb_le _ _))
         by (match goal with |- _ <= _ + zlen ?l => pose proof (zlen_nonneg l) end; lia); rewrite drop_zlen_app, Z.add_simpl_l, Hfind by done;
       cbn [mbind outcome_bind all_ok].
  - destruct (ok k []); [|done]. destruct fuel; [simpl in *; lia|]. cbn [name_loop join_dot].
    by rewrite (proj2 (Z.leb_gt _ _)) by lia.
  - destruct (ok k (k' :: ks)); [|done]. change (true && ?b) with b.
    rewrite join_dot_cons. simpl in Hf.
    replace (pre ++ (k ++ chr "." :: join_dot (k' :: ks)) ++ rest)
      with ((pre ++ k ++ [chr "."]) ++ join_dot (k' :: ks) ++ rest)
      by (by rewrite <- !app_assoc).
    replace (zlen pre + zlen k + 1) with (zlen (pre ++ k ++ [chr "."]))
      by (rewrite !zlen_app; change (zlen [chr "."]) with 1; lia).
    replace (zlen pre + zlen (k ++ chr "." :: join_dot (k' :: ks)))
      with (zlen (pre ++ k ++ [chr "."]) + zlen (join_dot (k' :: ks)))
      by (rewrite !zlen_app, !zlen_cons; change (zlen (@nil Z)) with 0; lia).
    apply IH; [done | lia].
Qed.

Lemma join_len_ge ks : Z.of_nat (length ks) <= 1 + zlen (join_dot ks).
Proof.
  induction ks as [|k [|k' ks] IH]; [done| |].
  - pose proof (zlen_nonneg (join_dot [k])). simpl length. lia.
  - rewrite join_dot_cons, zlen_app, zlen_cons. pose proof (zlen_nonneg k). simpl length in *. lia.
Qed.
