(* ===== verification/ConfOmTree.v ===== *)
(** * The configuration tree: order of keys, search and insertion

    The comparison of the binary search is the lexicographic order of keys;
    search and insertion in a node whose children are sorted are lookup and
    insertion in a sorted list ([insert_child]). *)

From Stdlib Require Import ZArith Lia Ascii String Sorted.
From stdpp Require Import base tactics list numbers.
From S2P Require Import Prelude Cstring ConfOm ConfOmFacts.

Local Open Scope Z_scope.

(** ** Lexicographic order *)

Fixpoint kcmp (a b : list Z) : comparison :=
  match a, b with
  | [], [] => Eq
  | [], _ => Lt
  | _, [] => Gt
  | x :: a, y :: b => match x ?= y with Eq => kcmp a b | c => c end
  end.
Definition klt (a b : list Z) : Prop := kcmp a b = Lt.

Lemma kcmp_refl a : kcmp a a = Eq.
Proof. induction a as [|x a IH]; simpl; [done|]. by rewrite Z.compare_refl. Qed.

Lemma kcmp_eq a b : kcmp a b = Eq <-> a = b.
Proof.
  split; [|intros ->; apply kcmp_refl]. revert b.
  induction a as [|x a IH]; intros [|y b]; simpl; try done.
  destruct (Z.compare_spec x y) as [->| |]; try done. intros H. f_equal. by apply IH.
Qed.

Lemma kcmp_antisym a b : kcmp b a = CompOpp (kcmp a b).
Proof.
  revert b. induction a as [|x a IH]; intros [|y b]; simpl; try done.
  rewrite (Z.compare_antisym x y). destruct (x ?= y); simpl; [apply IH|done|done].
Qed.

Lemma kcmp_gt a b : kcmp a b = Gt <-> klt b a.
Proof. unfold klt. rewrite (kcmp_antisym a b). by destruct (kcmp a b). Qed.

Global Instance klt_trans : Transitive klt.
Proof.
  unfold klt. intros a. induction a as [|x a IH]; intros [|y b] [|z c]; simpl; try done.
  destruct (Z.compare_spec x y) as [->|?|?]; try done.
  - destruct (Z.compare_spec y z) as [->|?|?]; try done. apply IH.
  - intros _. destruct (Z.compare_spec y z) as [->|?|?]; try done; intros _;
      rewrite (proj2 (Z.compare_lt_iff _ _)); (done || lia).
Qed.

Lemma klt_irrefl a : ~ klt a a.
Proof. unfold klt. by rewrite kcmp_refl. Qed.

Lemma klt_prefix a b : b <> [] -> klt a (a ++ b).
Proof.
  unfold klt. intros Hb. induction a as [|x a IH]; simpl; [by destruct b|]. by rewrite Z.compare_refl.
Qed.

(** Between a key and an extension of it lie only extensions of it. *)
Lemma klt_between a b c : klt a b -> klt b (a ++ c) -> exists d, b = a ++ d.
Proof.
  unfold klt. revert b. induction a as [|x a IH]; intros [|y b]; simpl; try done; [by eexists|].
  destruct (Z.compare_spec x y) as [->|?|?]; try done.
  - rewrite Z.compare_refl. intros H1 H2. destruct (IH b H1 H2) as [d ->]. by exists d.
  - intros _. destruct (Z.compare_spec y x) as [->|?|?]; try done; lia.
Qed.

(** ** Comparing with a child *)

(** The bytes of a string up to its terminator. *)
Fixpoint upto_nul (s : list Z) : list Z :=
  match s with [] => [] | c :: s => if c =? 0 then [] else c :: upto_nul s end.

Lemma upto_nul_app k rest : pos_chars k -> upto_nul (k ++ 0 :: rest) = k.
Proof.
  induction 1 as [|c k Hc _ IH]; [done|]. cbn [app upto_nul].
  destruct (Z.eqb_spec c 0); [lia|]. by rewrite IH.
Qed.

Definition key_bytes (n : cf_om_node) : list Z :=
  match node_fullkey n with
  | Some f => upto_nul (drop (Z.to_nat (node_key n)) f)
  | None => []
  end.

(** [child->key] is a terminated string of positive characters. *)
Definition has_key (n : cf_om_node) (k : list Z) : Prop :=
  pos_chars k /\ exists rest, key_ptr n = Ret (k ++ 0 :: rest).

Lemma has_key_bytes n k : has_key n k -> key_bytes n = k.
Proof.
  intros [Hp [rest E]]. unfold key_ptr, key_bytes in *. destruct (node_fullkey n); [|done].
  cbn in E. injection E as ->. by apply upto_nul_app.
Qed.

Definition cmp_sign (c : comparison) : Z := match c with Eq => 0 | Lt => -1 | Gt => 1 end.

Lemma strncmp_by_0 f s t : strncmp_by f s t 0 = Ret 0.
Proof. by destruct s. Qed.

Lemma strncmp_key k ck r1 r2 :
  pos_chars k -> pos_chars ck ->
  (c ← strncmp_by id (k ++ r1) (ck ++ 0 :: r2) (length k);
   if c =? 0 then x ← rdn (ck ++ 0 :: r2) (zlen k); Ret (if negb (x =? 0) then -1 else c) else Ret c) =
  Ret (cmp_sign (kcmp k ck)).
Proof.
  intros Hk. revert ck. induction Hk as [|x k Hx _ IH]; intros ck Hck.
  - cbn [length]. rewrite strncmp_by_0. cbn [mbind outcome_bind Z.eqb]. unfold rdn.
    destruct Hck as [|y ck Hy _]; [done|]. cbn [app]. change (zlen (@nil Z)) with 0.
    rewrite zlookup_cons_0. cbn [or_undef mbind outcome_bind]. by destruct (Z.eqb_spec y 0); [lia|].
  - cbn [length strncmp_by app]. rewrite rd_cons. destruct Hck as [|y ck Hy Hck]; cbn [app kcmp].
    + rewrite rd_cons. unfold id. cbn [mbind outcome_bind]. destruct (Z.eqb_spec x 0); [lia|].
      destruct (Z.ltb_spec x 0); [lia|]. done.
    + rewrite rd_cons. unfold id. cbn [mbind outcome_bind].
      destruct (Z.compare_spec x y) as [->|?|?].
      * rewrite Z.eqb_refl. destruct (Z.eqb_spec y 0); [lia|]. rewrite <- (IH ck Hck).
        unfold id. cbn [mbind outcome_bind]. rewrite zlen_cons.
        replace (rdn (y :: ck ++ 0 :: r2) (1 + zlen k)) with (rdn (ck ++ 0 :: r2) (zlen k)); [done|].
        unfold rdn. symmetry. f_equal.
        apply (zlookup_app_r [y] (ck ++ 0 :: r2) (zlen k)). apply zlen_nonneg.
      * destruct (Z.eqb_spec x y); [lia|]. destruct (Z.ltb_spec x y); [done|lia].
      * destruct (Z.eqb_spec x y); [lia|]. destruct (Z.ltb_spec x y); [lia|done].
Qed.

Lemma compare_child_spec k r child ck :
  pos_chars k -> has_key child ck ->
  compare_child (k ++ r) (zlen k) child = Ret (cmp_sign (kcmp k ck)).
Proof.
  intros Hk [Hck [r2 E]]. unfold compare_child. rewrite E. cbn [mbind outcome_bind].
  unfold strncmp. replace (Z.to_nat (zlen k)) with (length k) by (unfold zlen; lia).
  by apply strncmp_key.
Qed.

(** ** Sorted arrays of children *)

(** [v] holds the children with the keys [ks], in order. *)
Definition keyed (v : list (option cf_om_node)) (ks : list (list Z)) : Prop :=
  Forall2 (fun o k => exists c, o = Some c /\ has_key c k) v ks.

Lemma keyed_at v ks i k :
  keyed v ks -> ks @@ i = Some k -> exists c, child_at v i = Ret c /\ v @@ i = Some (Some c) /\ has_key c k.
Proof.
  unfold keyed, child_at, zlookup. intros H Hi. destruct (i <? 0); [done|].
  destruct (Forall2_lookup_r _ _ _ _ _ H Hi) as (o & Ho & c & -> & Hc). rewrite Ho. by exists c.
Qed.

Lemma keyed_zlen v ks : keyed v ks -> zlen v = zlen ks.
Proof. intros H%Forall2_length. unfold zlen. by rewrite H. Qed.

(** Where [k] belongs among sorted keys: the number of smaller ones. *)
Fixpoint rank (k : list Z) (ks : list (list Z)) : Z :=
  match ks with
  | [] => 0
  | k' :: ks => match kcmp k k' with Gt => 1 + rank k ks | _ => 0 end
  end.

Lemma rank_range k ks : 0 <= rank k ks <= zlen ks.
Proof.
  induction ks as [|k' ks IH]; simpl; [done|]. rewrite zlen_cons. destruct (kcmp k k'); lia.
Qed.

(** In a sorted list, [rank] is determined by what lies on either side. *)
Lemma rank_unique k ks i :
  0 <= i <= zlen ks ->
  (forall j x, 0 <= j < i -> ks @@ j = Some x -> kcmp k x = Gt) ->
  (forall x, ks @@ i = Some x -> kcmp k x <> Gt) ->
  rank k ks = i.
Proof.
  revert i. induction ks as [|x ks IH]; intros i Hi Hlo Hhi; cbn [rank].
  { change (zlen (@nil (list Z))) with 0 in Hi. lia. }
  rewrite zlen_cons in Hi. destruct (decide (i = 0)) as [->|].
  { specialize (Hhi x eq_refl). by destruct (kcmp k x). }
  rewrite (Hlo 0 x) by (lia || done). rewrite (IH (i - 1)); [lia|lia| |].
  - intros j y Hj Hy. apply (Hlo (1 + j)); [lia|].
    rewrite <- Hy. apply (zlookup_app_r [x] ks j). lia.
  - intros y Hy. apply Hhi. rewrite <- Hy. rewrite <- (zlookup_app_r [x] ks (i - 1)) by lia.
    simpl app. f_equal. change (zlen [x]) with 1. lia.
Qed.

Lemma sorted_at ks i j x y :
  StronglySorted klt ks -> 0 <= i < j -> ks @@ i = Some x -> ks @@ j = Some y -> klt x y.
Proof.
  unfold zlookup. intros Hs Hij. rewrite (proj2 (Z.ltb_ge i 0)), (proj2 (Z.ltb_ge j 0)) by lia.
  revert i j Hij. induction Hs as [|z ks Hs IH Hz]; intros i j Hij Hi Hj; [done|].
  destruct (Z.to_nat j) as [|j'] eqn:Ej; [lia|]. simpl in Hj.
  destruct (Z.to_nat i) as [|i'] eqn:Ei; simpl in Hi.
  - injection Hi as ->. by apply (Forall_lookup_1 _ _ _ _ Hz Hj).
  - apply (IH (Z.of_nat i') (Z.of_nat j')); [lia | by rewrite Nat2Z.id | by rewrite Nat2Z.id].
Qed.

(** What the search knows: keys before [m] are smaller, keys after [n] larger. *)
Definition search_inv (k : list Z) (ks : list (list Z)) (m n : Z) : Prop :=
  (forall j x, 0 <= j < m -> ks @@ j = Some x -> kcmp k x = Gt) /\
  (forall j x, n < j -> ks @@ j = Some x -> kcmp k x = Lt).

Lemma search_done k ks m n :
  0 <= m <= zlen ks -> n < m -> search_inv k ks m n -> rank k ks = m /\ k ∉ ks.
Proof.
  intros Hm Hn [Hlo Hhi]. split.
  - apply rank_unique; [done|done|]. intros x Hx. by rewrite (Hhi m x) by (lia || done).
  - intros [j Hj]%list_elem_of_lookup.
    assert (ks @@ Z.of_nat j = Some k) as Hj'.
    { unfold zlookup. destruct (Z.ltb_spec (Z.of_nat j) 0); [lia|]. by rewrite Nat2Z.id. }
    destruct (decide (Z.of_nat j < m)).
    + specialize (Hlo _ _ (conj (Zle_0_nat j) l) Hj'). by rewrite kcmp_refl in Hlo.
    + specialize (Hhi (Z.of_nat j) k ltac:(lia) Hj'). by rewrite kcmp_refl in Hhi.
Qed.

(** A comparison with the key at [i] moves one of the bounds past it. *)
Lemma search_move_up k ks m n i x :
  StronglySorted klt ks -> search_inv k ks m n -> 0 <= i -> ks @@ i = Some x -> kcmp k x = Gt ->
  search_inv k ks (i + 1) n.
Proof.
  intros Hs [Hlo Hhi] Hi Hx Hgt. split; [|done]. intros j y Hj Hy.
  destruct (decide (j = i)) as [->|]; [congruence|].
  apply kcmp_gt. apply kcmp_gt in Hgt. eapply klt_trans; [|exact Hgt].
  by eapply (sorted_at ks j i); [|lia| |].
Qed.

Lemma search_move_down k ks m n i x :
  StronglySorted klt ks -> search_inv k ks m n -> 0 <= i -> ks @@ i = Some x -> kcmp k x = Lt ->
  search_inv k ks m (i - 1).
Proof.
  intros Hs [Hlo Hhi] Hi Hx Hlt. split; [done|]. intros j y Hj Hy.
  destruct (decide (j = i)) as [->|]; [congruence|].
  eapply (klt_trans k x y); [done|]. by eapply (sorted_at ks i j); [|lia| |].
Qed.

Lemma search_found k ks i :
  StronglySorted klt ks -> 0 <= i -> ks @@ i = Some k -> rank k ks = i /\ k ∈ ks.
Proof.
  intros Hs Hi Hk. pose proof (zlookup_Some_lt _ _ _ Hk). split.
  - apply rank_unique; [lia| |].
    + intros j x Hj Hx. apply kcmp_gt. by apply (sorted_at ks j i).
    + intros x Hx. rewrite Hk in Hx. injection Hx as <-. by rewrite kcmp_refl.
  - unfold zlookup in Hk. destruct (i <? 0); [done|]. by eapply list_elem_of_lookup_2.
Qed.

Lemma s32_small x : - 2 ^ 31 <= x < 2 ^ 31 -> s32 x = x.
Proof. intros. by apply sN_small. Qed.

(** The binary search finds the key, or the place where it belongs. *)
Lemma child_search_spec v ks k r :
  keyed v ks -> StronglySorted klt ks -> pos_chars k -> zlen ks <= 2 ^ 30 ->
  forall fuel m n, 0 <= m <= n -> n < zlen ks -> n - m < Z.of_nat fuel -> search_inv k ks m n ->
  child_search fuel v (k ++ r) (zlen k) m n = Ret (rank k ks, bool_decide (k ∈ ks)).
Proof.
  intros Hv Hs Hk Hmax. induction fuel as [|fuel IH]; intros m n Hmn Hn Hf Hinv; [lia|].
  cbn [child_search]. unfold int_add, INT32_MIN, INT32_MAX.
  rewrite !(proj2 (Z.leb_le _ _)) by lia. cbn [andb mbind outcome_bind].
  rewrite Z.quot_div_nonneg by lia. set (i := (m + n) / 2).
  assert (m <= i <= n) as Hi by (unfold i; dmlia).
  rewrite (uN_small 32 i) by lia.
  destruct (zlookup_lt i ks) as [x Hx]; [lia|].
  destruct (keyed_at _ _ _ _ Hv Hx) as (c & -> & _ & Hc). cbn [mbind outcome_bind].
  rewrite (compare_child_spec k r c x Hk Hc). cbn [mbind outcome_bind].
  destruct (kcmp k x) eqn:E; cbn [cmp_sign Z.eqb Z.ltb Z.compare].
  - apply kcmp_eq in E as <-. destruct (search_found k ks i) as [-> ?]; [done|lia|done|].
    by rewrite bool_decide_eq_true_2.
  - pose proof (search_move_down k ks m n i x Hs Hinv ltac:(lia) Hx E) as Hinv'.
    replace (s32 (u32 (i - 1))) with (i - 1).
    2: { destruct (decide (i = 0)) as [->|]; [done|].
         rewrite uN_small by lia. rewrite s32_small; lia. }
    destruct (Z.leb_spec m (i - 1)); [apply IH; (done || lia)|].
    destruct (search_done k ks m (i - 1)) as [-> ?]; [lia|lia|done|].
    rewrite bool_decide_eq_false_2 by done. do 2 f_equal. lia.
  - pose proof (search_move_up k ks m n i x Hs Hinv ltac:(lia) Hx E) as Hinv'.
    rewrite (uN_small 32 (i + 1)) by lia. rewrite (s32_small (i + 1)) by lia.
    destruct (Z.leb_spec (i + 1) n); [apply IH; (done || lia)|].
    destruct (search_done k ks (i + 1) n) as [-> ?]; [lia|lia|done|].
    by rewrite bool_decide_eq_false_2.
Qed.

(** ** The array loops *)

Lemma zlookup_insert_ne {A} (l : list A) i j x :
  0 <= j -> 0 <= i -> i <> j -> <[Z.to_nat j := x]> l @@ i = l @@ i.
Proof.
  intros. unfold zlookup. destruct (i <? 0); [done|]. apply list_lookup_insert_ne. lia.
Qed.

(** [shift_up] makes room at [i] in an array with a free slot. *)
Lemma shift_up_spec pre post free tl fuel :
  (length post < fuel)%nat ->
  exists y, shift_up fuel (pre ++ post ++ free :: tl) (zlen pre + zlen post) (zlen pre) =
            Ret (pre ++ y :: post ++ tl).
Proof.
  revert free tl fuel. induction post as [|x post IH] using rev_ind; intros free tl fuel Hf;
    (destruct fuel as [|fuel]; [lia|]); cbn [shift_up].
  - change (zlen (@nil (option cf_om_node))) with 0. rewrite Z.add_0_r, Z.ltb_irrefl. by exists free.
  - rewrite length_app in Hf. simpl in Hf. rewrite zlen_app. change (zlen [x]) with 1.
    pose proof (zlen_nonneg post). rewrite (proj2 (Z.ltb_lt _ _)) by lia.
    replace (zlen pre + (zlen post + 1) - 1) with (zlen pre + zlen post) by lia.
    replace (pre ++ (post ++ [x]) ++ free :: tl) with ((pre ++ post) ++ x :: free :: tl)
      by (by rewrite <- !app_assoc).
    rewrite <- zlen_app, zlookup_app_len, zlookup_cons_0. cbn [or_undef mbind outcome_bind].
    replace (Z.to_nat (zlen pre + (zlen post + 1))) with (length (pre ++ post) + 1)%nat
      by (rewrite length_app; unfold zlen; lia).
    rewrite insert_app_r. cbn [insert list_insert]. rewrite zlen_app, <- !app_assoc.
    apply IH. lia.
Qed.

(** [shift_down] drops the element at [n]. *)
Lemma shift_down_spec pre x post fuel :
  (length post < fuel)%nat ->
  exists y, shift_down fuel (pre ++ x :: post) (zlen pre) (zlen pre + zlen post) =
            Ret (pre ++ post ++ [y]).
Proof.
  revert pre x fuel. induction post as [|z post IH]; intros pre x fuel Hf;
    (destruct fuel as [|fuel]; [simpl in Hf; lia|]); cbn [shift_down].
  - change (zlen (@nil (option cf_om_node))) with 0. rewrite Z.add_0_r, Z.ltb_irrefl. by exists x.
  - simpl in Hf. rewrite zlen_cons. pose proof (zlen_nonneg post). rewrite (proj2 (Z.ltb_lt _ _)) by lia.
    rewrite zlookup_app_r by lia. change ((x :: z :: post) @@ 1) with (Some z).
    cbn [or_undef mbind outcome_bind].
    replace (Z.to_nat (zlen pre)) with (length pre + 0)%nat by (unfold zlen; lia).
    rewrite insert_app_r. cbn [insert list_insert].
    destruct (IH (pre ++ [z]) z fuel) as [y Hy]; [lia|]. exists y. rewrite zlen_app in Hy.
    change (zlen [z]) with 1 in Hy. rewrite <- !app_assoc in Hy. cbn [app] in Hy.
    replace (zlen pre + (1 + zlen post)) with (zlen pre + 1 + zlen post) by lia. done.
Qed.
