(* ===== verification/ConfOmWf.v ===== *)
(** * The configuration tree: its invariant and the texts it holds

    [om_wf pre n]: the node [n] and everything below it is well formed and [n]
    has the name [pre].  [config n p] is the text at the path [p] below [n], the
    abstract view of a tree as a map from paths to texts. *)

From Stdlib Require Import ZArith Lia Ascii String Sorted.
From stdpp Require Import base tactics list numbers.
From S2P Require Import Prelude Cstring ConfOm ConfOmFacts ConfOmTree.

Local Open Scope Z_scope.

(** ** The invariant *)

Definition child_key (o : option cf_om_node) : list Z :=
  match o with Some c => key_bytes c | None => [] end.
Definition child_keys (v : list (option cf_om_node)) : list (list Z) := map child_key v.

Definition name_ok (pre : list (list Z)) (f : option (list Z)) (k : Z) : Prop :=
  match list.last pre with
  | None => f = None
  | Some x => exists rest, f = Some (join_dot pre ++ 0 :: rest) /\ k = zlen (join_dot pre) - zlen x
  end.

Inductive om_wf : list (list Z) -> cf_om_node -> Prop :=
| OmWf pre n :
    name_ok pre (node_fullkey n) (node_key n) ->
    StronglySorted klt (child_keys (nodv n)) ->
    Forall (fun o => exists c, o = Some c) (nodv n) ->
    (forall c, Some c ∈ nodv n -> valid_key (key_bytes c) = true) ->
    (forall c, Some c ∈ nodv n -> om_wf (pre ++ [key_bytes c]) c) ->
    om_wf pre n.

(** A tree that may not be there yet. *)
Definition owf (pre : list (list Z)) (o : option cf_om_node) : Prop :=
  match o with Some n => om_wf pre n | None => pre = [] end.

Definition valid_path (ks : list (list Z)) : Prop := Forall (fun k => valid_key k = true) ks.

Lemma join_snoc pre x :
  join_dot (pre ++ [x]) = match pre with [] => x | _ => join_dot pre ++ chr "." :: x end.
Proof.
  induction pre as [|y [|z pre] IH]; [done|done|].
  change ((y :: z :: pre) ++ [x]) with (y :: (z :: pre ++ [x])).
  rewrite join_dot_cons. change (z :: pre ++ [x]) with ((z :: pre) ++ [x]). rewrite IH.
  rewrite join_dot_cons, <- app_assoc. done.
Qed.

Lemma zlen_join_snoc pre x :
  zlen (join_dot (pre ++ [x])) = match pre with [] => 0 | _ => zlen (join_dot pre) + 1 end + zlen x.
Proof. rewrite join_snoc. destruct pre; [done|]. rewrite zlen_app, zlen_cons. lia. Qed.

Lemma drop_join_snoc pre x rest :
  drop (Z.to_nat (zlen (join_dot (pre ++ [x])) - zlen x)) (join_dot (pre ++ [x]) ++ rest) = x ++ rest.
Proof.
  rewrite zlen_join_snoc, join_snoc, Z.add_simpl_r. destruct pre as [|y pre]; [done|].
  replace (zlen (join_dot (y :: pre)) + 1) with (zlen (join_dot (y :: pre) ++ [chr "."]))
    by (rewrite zlen_app; done).
  replace ((join_dot (y :: pre) ++ chr "." :: x) ++ rest)
    with ((join_dot (y :: pre) ++ [chr "."]) ++ x ++ rest) by (by rewrite <- !app_assoc).
  apply drop_zlen_app.
Qed.

Lemma om_wf_has_key pre x c :
  om_wf (pre ++ [x]) c -> valid_key x = true -> has_key c x.
Proof.
  inversion 1 as [? ? Hn]; subst. intros Hx. split; [by apply valid_key_pos|].
  unfold name_ok in Hn. rewrite last_snoc in Hn. destruct Hn as (rest & Hf & Hk).
  unfold key_ptr. rewrite Hf, Hk. exists rest. cbn [or_undef mbind outcome_bind]. f_equal.
  apply drop_join_snoc.
Qed.

Lemma om_wf_keyed pre n : om_wf pre n -> keyed (nodv n) (child_keys (nodv n)).
Proof.
  inversion 1 as [? ? _ _ Hsome Hv Hc]; subst. unfold keyed, child_keys.
  apply Forall2_fmap_r, Forall_Forall2_diag, list.Forall_forall. intros o Ho.
  rewrite list.Forall_forall in Hsome. destruct (Hsome o Ho) as [c ->]. exists c. split; [done|].
  eapply om_wf_has_key; [by apply Hc | by apply Hv].
Qed.

(** Characters of a valid name are positive. *)
Lemma join_pos ks : valid_path ks -> pos_chars (join_dot ks).
Proof.
  induction 1 as [|k ks Hk Hks IH]; [constructor|]. destruct ks.
  - by apply valid_key_pos.
  - rewrite join_dot_cons. apply Forall_app. split; [by apply valid_key_pos|].
    constructor; [done|exact IH].
Qed.

Lemma strncpy_pos s rest : pos_chars s -> strncpy (s ++ rest) (length s) = Ret s.
Proof.
  induction 1 as [|c s Hc _ IH]; [by destruct rest|]. cbn [app length strncpy]. rewrite rd_cons.
  cbn [mbind outcome_bind tail]. destruct (Z.eqb_spec c 0); [lia|]. by rewrite IH.
Qed.

(** ** Computations that allocate *)

(** [m] returns and its result satisfies [P], wherever the allocator stands. *)
Definition areturns {A} (m : AM A) (P : A -> Prop) : Prop :=
  forall c, exists a c', m c = Ret (a, c') /\ P a.

Lemma areturns_ret {A} (a : A) (P : A -> Prop) : P a -> areturns (mret a) P.
Proof. intros H c. by exists a, c. Qed.

Lemma areturns_bind {A B} (m : AM A) (f : A -> AM B) P Q :
  areturns m P -> (forall a, P a -> areturns (f a) Q) -> areturns (m ≫= f) Q.
Proof.
  intros Hm Hf c. destruct (Hm c) as (a & c' & E & Ha). destruct (Hf a Ha c') as (b & c'' & E' & Hb).
  exists b, c''. split; [|done]. unfold mbind, AM_bind. rewrite E. cbn. done.
Qed.

Lemma areturns_mono {A} (m : AM A) (P Q : A -> Prop) :
  areturns m P -> (forall a, P a -> Q a) -> areturns m Q.
Proof. intros Hm H c. destruct (Hm c) as (a & c' & ? & ?). exists a, c'. auto. Qed.

Lemma areturns_lift {A} (o : outcome A) a (P : A -> Prop) : o = Ret a -> P a -> areturns (alift o) P.
Proof. intros -> H c. by exists a, c. Qed.

(** ** Insertion *)

Definition insert_child (i : Z) (c : cf_om_node) (v : list (option cf_om_node))
    : list (option cf_om_node) :=
  take (Z.to_nat i) v ++ Some c :: drop (Z.to_nat i) v.

Definition new_child (pre : list (list Z)) (k : list Z) : cf_om_node :=
  OmNode None 0 (Some (join_dot (pre ++ [k]) ++ [0])) (zlen (join_dot (pre ++ [k])) - zlen k) None [].

(** What [cf_om_make_child] means: the child with the key [k] of the node [pre],
    added in order when it is not there. *)
Definition ref_make_child (pre : list (list Z)) (k : list Z) (n : cf_om_node) : cf_om_node :=
  if bool_decide (k ∈ child_keys (nodv n)) then n
  else set_nodv (insert_child (rank k (child_keys (nodv n))) (new_child pre k) (nodv n)) n.

(** ** The texts of a tree *)

Fixpoint find_child (k : list Z) (v : list (option cf_om_node)) : option cf_om_node :=
  match v with
  | [] => None
  | o :: v => match o with
              | Some c => if bool_decide (key_bytes c = k) then Some c else find_child k v
              | None => find_child k v
              end
  end.

Fixpoint config (n : cf_om_node) (p : list (list Z)) : option (list Z) :=
  match p with
  | [] => node_text n
  | k :: p => match find_child k (nodv n) with Some c => config c p | None => None end
  end.
Definition oconfig (o : option cf_om_node) (p : list (list Z)) : option (list Z) :=
  match o with Some n => config n p | None => None end.

(** The number of nodes. *)
Fixpoint om_size (n : cf_om_node) : nat :=
  match n with
  | OmNode _ _ _ _ _ v =>
      S (sum_list_with (fun o => match o with Some c => om_size c | None => 1%nat end) v)
  end.
Definition vsize (v : list (option cf_om_node)) : nat :=
  sum_list_with (fun o => match o with Some c => om_size c | None => 1%nat end) v.
Definition osize (o : option cf_om_node) : nat := om_size (default om_zero o).

Lemma om_size_nodv n : om_size n = S (vsize (nodv n)).
Proof. by destruct n. Qed.

Lemma vsize_app v v' : vsize (v ++ v') = (vsize v + vsize v')%nat.
Proof. apply sum_list_with_app. Qed.

Lemma vsize_length v : (length v <= vsize v)%nat.
Proof.
  induction v as [|[c|] v IH]; [done| |]; unfold vsize in *; simpl; [|lia].
  rewrite (om_size_nodv c). lia.
Qed.

Lemma find_child_app k v v' :
  find_child k (v ++ v') = match find_child k v with Some c => Some c | None => find_child k v' end.
Proof. induction v as [|[c|] v IH]; simpl; [done| |done]. by case_bool_decide. Qed.

Lemma find_child_none k v : k ∉ child_keys v -> find_child k v = None.
Proof.
  induction v as [|[c|] v IH]; simpl; [done| |]; rewrite not_elem_of_cons; intros [? ?]; [|auto].
  rewrite bool_decide_eq_false_2 by done. auto.
Qed.

(** A child put between [l1] and [l2] answers for its own key only. *)
Lemma find_child_mid k l1 c l2 :
  key_bytes c ∉ child_keys l1 ->
  find_child k (l1 ++ Some c :: l2) =
  if bool_decide (key_bytes c = k) then Some c else find_child k (l1 ++ l2).
Proof.
  intros Hc. rewrite !find_child_app. simpl. case_bool_decide as E; [|done].
  by rewrite find_child_none by (by rewrite <- E).
Qed.

Lemma set_nodv_fields v n :
  node_fullkey (set_nodv v n) = node_fullkey n /\ node_key (set_nodv v n) = node_key n /\
  node_text (set_nodv v n) = node_text n /\ nodv (set_nodv v n) = v.
Proof. by destruct n. Qed.

Lemma set_nodv_set v v' n : set_nodv v (set_nodv v' n) = set_nodv v n.
Proof. by destruct n. Qed.

Lemma set_nodv_id n : set_nodv (nodv n) n = n.
Proof. by destruct n. Qed.

Lemma config_mid l1 c l2 n p :
  key_bytes c ∉ child_keys l1 ->
  config (set_nodv (l1 ++ Some c :: l2) n) p =
  match p with
  | [] => node_text n
  | k :: p' => if bool_decide (key_bytes c = k) then config c p'
               else config (set_nodv (l1 ++ l2) n) p
  end.
Proof.
  intros Hc. destruct p as [|k p]; cbn [config].
  - apply set_nodv_fields.
  - destruct (set_nodv_fields (l1 ++ Some c :: l2) n) as (_ & _ & _ & ->).
    destruct (set_nodv_fields (l1 ++ l2) n) as (_ & _ & _ & ->).
    rewrite find_child_mid by done. by case_bool_decide.
Qed.

(** ** Well-formedness of changed nodes *)

Lemma child_keys_app v v' : child_keys (v ++ v') = child_keys v ++ child_keys v'.
Proof. apply map_app. Qed.

Lemma om_wf_replace pre n l1 c c' l2 :
  om_wf pre (set_nodv (l1 ++ Some c :: l2) n) ->
  key_bytes c' = key_bytes c -> om_wf (pre ++ [key_bytes c]) c' ->
  om_wf pre (set_nodv (l1 ++ Some c' :: l2) n).
Proof.
  destruct (set_nodv_fields (l1 ++ Some c :: l2) n) as (E1 & E2 & _ & E3).
  destruct (set_nodv_fields (l1 ++ Some c' :: l2) n) as (F1 & F2 & _ & F3).
  inversion 1 as [? ? Hn Hs Hsome Hv Hc]; subst. rewrite E1, E2, E3 in *. intros Hk Hc'.
  assert (Hin : forall d, Some d ∈ l1 ++ Some c' :: l2 -> d = c' \/ Some d ∈ l1 ++ Some c :: l2).
  { intros d. rewrite !elem_of_app, !elem_of_cons. naive_solver. }
  assert (Some c ∈ l1 ++ Some c :: l2) as Hcin by (rewrite elem_of_app, elem_of_cons; auto).
  constructor; rewrite ?F1, ?F2, ?F3; [done| | | |].
  - rewrite child_keys_app in *. simpl in *. by rewrite Hk.
  - apply Forall_app in Hsome as [? [_ ?]%Forall_cons_iff]. apply Forall_app. split; [done|].
    constructor; [by eexists|done].
  - intros d [->|Hd]%Hin; [rewrite Hk|]; auto.
  - intros d [->|Hd]%Hin; [rewrite Hk|]; auto.
Qed.

Lemma new_child_wf pre k : valid_path (pre ++ [k]) -> om_wf (pre ++ [k]) (new_child pre k).
Proof.
  intros Hp. constructor; [|apply SSorted_nil|constructor| |].
  2,3: intros c Hc; by apply not_elem_of_nil in Hc.
  unfold name_ok. rewrite last_snoc. by exists [].
Qed.

Lemma new_child_key pre k : valid_path (pre ++ [k]) -> key_bytes (new_child pre k) = k.
Proof.
  intros Hp. apply has_key_bytes. eapply om_wf_has_key; [by apply new_child_wf|].
  by apply Forall_app in Hp as [_ [? _]%Forall_cons_iff].
Qed.

Lemma elem_of_rank k ks : StronglySorted klt ks -> k ∉ take (Z.to_nat (rank k ks)) ks.
Proof.
  induction 1 as [|x ks Hs IH Hx]; cbn [rank]; [by rewrite take_nil; apply not_elem_of_nil|].
  destruct (kcmp k x) eqn:E; [apply not_elem_of_nil|apply not_elem_of_nil|].
  pose proof (rank_range k ks). rewrite Z2Nat.inj_add by lia. cbn [Z.to_nat Pos.to_nat].
  change (Pos.to_nat 1 + Z.to_nat (rank k ks))%nat with (S (Z.to_nat (rank k ks))).
  cbn [firstn]. apply not_elem_of_cons. split; [|done]. intros ->. by rewrite kcmp_refl in E.
Qed.

Lemma sorted_insert k ks :
  StronglySorted klt ks -> k ∉ ks ->
  StronglySorted klt (take (Z.to_nat (rank k ks)) ks ++ k :: drop (Z.to_nat (rank k ks)) ks).
Proof.
  induction 1 as [|x ks Hs IH Hx]; cbn [rank]; intros Hin; [by repeat constructor|].
  apply not_elem_of_cons in Hin as [Hne Hin].
  destruct (kcmp k x) eqn:E; [by apply kcmp_eq in E| |].
  - cbn. repeat constructor; [done|done|done|].
    eapply List.Forall_impl; [|exact Hx]. intros y Hy. by eapply klt_trans.
  - pose proof (rank_range k ks). rewrite Z2Nat.inj_add by lia.
    change (Z.to_nat 1 + Z.to_nat (rank k ks))%nat with (S (Z.to_nat (rank k ks))).
    cbn [firstn skipn app]. constructor; [by apply IH|].
    apply Forall_app. rewrite <- (take_drop (Z.to_nat (rank k ks)) ks) in Hx.
    apply Forall_app in Hx as [? ?]. split; [done|]. constructor; [by apply kcmp_gt|done].
Qed.

Lemma om_wf_insert pre n l1 c l2 :
  om_wf pre n -> nodv n = l1 ++ l2 -> valid_key (key_bytes c) = true ->
  om_wf (pre ++ [key_bytes c]) c -> StronglySorted klt (child_keys (l1 ++ Some c :: l2)) ->
  om_wf pre (set_nodv (l1 ++ Some c :: l2) n).
Proof.
  inversion 1 as [? ? Hn _ Hsome Hv Hc]; subst. intros El Hcv Hcw Hs. rewrite El in *.
  destruct (set_nodv_fields (l1 ++ Some c :: l2) n) as (E1 & E2 & _ & E3).
  assert (Hsub : forall d, Some d ∈ l1 ++ Some c :: l2 -> d = c \/ Some d ∈ l1 ++ l2).
  { intros d. rewrite !elem_of_app, elem_of_cons. intros [?|[[= ->]|?]]; auto. }
  constructor; rewrite ?E1, ?E2, ?E3; [done|done| | |].
  - apply Forall_app in Hsome as [? ?]. apply Forall_app. split; [done|]. constructor; [by eexists|done].
  - intros d [->|?]%Hsub; auto.
  - intros d [->|?]%Hsub; auto.
Qed.

(** [ref_make_child] seen as a split of the children at the place of [k]. *)
Lemma ref_make_child_split pre k n :
  om_wf pre n -> valid_path (pre ++ [k]) ->
  exists l1 c l2,
    ref_make_child pre k n = set_nodv (l1 ++ Some c :: l2) n /\
    om_wf pre (set_nodv (l1 ++ Some c :: l2) n) /\
    zlen l1 = rank k (child_keys (nodv n)) /\ key_bytes c = k /\ (k ∉ child_keys l1) /\
    (nodv n = l1 ++ Some c :: l2 \/
     (nodv n = l1 ++ l2 /\ c = new_child pre k /\ find_child k (nodv n) = None)).
Proof.
  intros Hn Hp. assert (StronglySorted klt (child_keys (nodv n))) as Hs by (by inversion Hn).
  unfold ref_make_child. set (ks := child_keys (nodv n)) in *. pose proof (rank_range k ks) as Hr.
  pose proof (elem_of_rank k ks Hs) as Hnr.
  set (i := Z.to_nat (rank k ks)) in *.
  assert (zlen (take i (nodv n)) = rank k ks) as Hl1.
  { unfold zlen, i in *. rewrite length_take. unfold ks, child_keys in *. rewrite length_map in Hr. lia. }
  assert (k ∉ child_keys (take i (nodv n))) as Hnl by (unfold child_keys; by rewrite <- firstn_map).
  case_bool_decide as Hin.
  - apply list_elem_of_lookup in Hin as [j Hj].
    assert (ks @@ Z.of_nat j = Some k) as Hj'.
    { unfold zlookup. destruct (Z.ltb_spec (Z.of_nat j) 0); [lia|]. by rewrite Nat2Z.id. }
    destruct (search_found k ks (Z.of_nat j) Hs ltac:(lia) Hj') as [Hrank _].
    destruct (keyed_at _ _ _ _ (om_wf_keyed _ _ Hn) Hj') as (c & _ & Hcj & Hck).
    unfold zlookup in Hcj. destruct (Z.of_nat j <? 0); [done|].
    exists (take i (nodv n)), c, (drop (S i) (nodv n)).
    assert (take i (nodv n) ++ Some c :: drop (S i) (nodv n) = nodv n) as E.
    { apply take_drop_middle. unfold i. by rewrite Hrank. }
    rewrite E, set_nodv_id. split_and!; [done|done|done| |done|by left].
    by apply has_key_bytes.
  - exists (take i (nodv n)), (new_child pre k), (drop i (nodv n)).
    pose proof (new_child_key pre k Hp) as Hnk. split_and!; [done| |done|done|done|].
    + apply om_wf_insert; rewrite ?Hnk; [done|by rewrite take_drop| |by apply new_child_wf|].
      * by apply Forall_app in Hp as [_ [? _]%Forall_cons_iff].
      * rewrite child_keys_app. simpl. rewrite Hnk. unfold child_keys.
        rewrite <- firstn_map, <- skipn_map. by apply sorted_insert.
    + right. rewrite take_drop. split_and!; [done|done|]. by apply find_child_none.
Qed.

Section make.
Context {AR : Arch} (malloc_ok realloc_ok : nat -> Z -> bool) (sizeof_cf_om_node : Z).

Definition granted : Prop := forall i n, malloc_ok i n = true.
Hypothesis realloc_granted : forall i n, realloc_ok i n = true.

Lemma areturns_malloc n : areturns (am_malloc malloc_ok n) (fun ok => ok = true \/ ok = false /\ ~ granted).
Proof.
  intros c. exists (malloc_ok c n), (S c). split; [done|].
  destruct (malloc_ok c n) eqn:E; [by left|right]. split; [done|]. intros H. by rewrite H in E.
Qed.

Lemma areturns_realloc n : areturns (am_realloc realloc_ok n) (fun ok => ok = true).
Proof. intros c. eexists _, _. split; [done|]. apply realloc_granted. Qed.

Lemma strn_edup_spec s rest :
  pos_chars s ->
  areturns (strn_edup malloc_ok (s ++ rest) (zlen s))
           (fun r => r = Some (s ++ [0]) \/ r = None /\ ~ granted).
Proof.
  intros Hs. unfold strn_edup. eapply areturns_bind; [apply areturns_malloc|].
  intros ok [->|[-> ?]]; [|by apply areturns_ret; right].
  eapply areturns_bind.
  - eapply (areturns_lift _ s (fun x => x = s)); [|done]. unfold zlen. rewrite Nat2Z.id.
    by apply strncpy_pos.
  - intros ? ->. apply areturns_ret. by left.
Qed.

Lemma shift_insert v i c :
  0 <= i <= zlen v ->
  exists v', shift_up (Z.to_nat (zlen v + 1)) (v ++ [None]) (zlen v) i = Ret v' /\
             <[Z.to_nat i := Some c]> v' = insert_child i c v.
Proof.
  intros Hi. unfold insert_child.
  set (pre := take (Z.to_nat i) v). set (post := drop (Z.to_nat i) v).
  assert (v = pre ++ post) as Hv by (symmetry; apply take_drop).
  assert (zlen pre = i) as Hp by (unfold pre, zlen in *; rewrite length_take; lia).
  clearbody pre post. subst v i.
  destruct (shift_up_spec pre post None [] (Z.to_nat (zlen (pre ++ post) + 1))) as [y Hy].
  { rewrite zlen_app. unfold zlen. lia. }
  exists (pre ++ y :: post). rewrite app_nil_r in Hy. split.
  - rewrite <- Hy, <- app_assoc. by rewrite zlen_app at 2.
  - replace (Z.to_nat (zlen pre)) with (length pre + 0)%nat by (unfold zlen; lia).
    by rewrite insert_app_r.
Qed.

Lemma add_child_at_spec pre n k rest i :
  valid_path (pre ++ [k]) -> 0 <= i <= zlen (nodv n) ->
  areturns (add_child_at malloc_ok realloc_ok sizeof_cf_om_node n (join_dot (pre ++ [k]) ++ rest)
              (zlen (join_dot (pre ++ [k])) - zlen k) (zlen (join_dot (pre ++ [k]))) i)
    (fun r => (r = (Some n, -1) /\ ~ granted) \/
              r = (Some (set_nodv (insert_child i (new_child pre k) (nodv n)) n), i)).
Proof.
  intros Hp Hi. unfold add_child_at. eapply areturns_bind; [apply areturns_malloc|].
  intros ok [->|[-> ?]]; [|apply areturns_ret; by left].
  eapply areturns_bind; [by apply strn_edup_spec, join_pos|].
  intros fk [->|[-> ?]]; [|apply areturns_ret; by left]. unfold nodc. rewrite Z.add_simpl_r.
  eapply (areturns_bind _ _ (fun ok => ok = true)).
  { destruct (10 <? zlen (nodv n) + 1); [apply areturns_realloc | by apply areturns_ret]. }
  intros ? ->. destruct (shift_insert (nodv n) i (new_child pre k) Hi) as (v & Hv & Hv').
  eapply areturns_bind; [by eapply (areturns_lift _ v (fun x => x = v))|].
  intros ? ->. apply areturns_ret. right. by rewrite <- Hv'.
Qed.

Lemma om_wf_zero : om_wf [] om_zero.
Proof.
  constructor; [done | apply SSorted_nil | constructor | |]; intros c Hc; by apply not_elem_of_nil in Hc.
Qed.

(** [cf_om_make_child] finds the child or inserts it where it belongs. *)
Lemma make_child_ref pre o k rest :
  owf pre o -> valid_path (pre ++ [k]) -> zlen (nodv (default om_zero o)) <= 2 ^ 30 ->
  areturns (cf_om_make_child malloc_ok realloc_ok sizeof_cf_om_node o (join_dot (pre ++ [k]) ++ rest)
              (zlen (join_dot (pre ++ [k])) - zlen k) (zlen (join_dot (pre ++ [k]))))
    (fun r => (r.2 = -1 /\ ~ granted /\ (r.1 = o \/ r.1 = Some (default om_zero o))) \/
              r = (Some (ref_make_child pre k (default om_zero o)),
                   rank k (child_keys (nodv (default om_zero o))))).
Proof.
  intros Hwf Hp Hmax. unfold cf_om_make_child.
  eapply (areturns_bind _ _ (fun p => p = Some (default om_zero o) \/ p = None /\ o = None /\ ~ granted)).
  { destruct o; [apply areturns_ret; by left|].
    eapply areturns_bind; [apply areturns_malloc|].
    intros ok [->|[-> ?]]; apply areturns_ret; [by left | by right]. }
  intros ? [->|(-> & -> & ?)]; [|apply areturns_ret; left; by auto].
  assert (om_wf pre (default om_zero o)) as Hn
    by (destruct o; [done | simpl in Hwf; subst; apply om_wf_zero]).
  clear Hwf. set (n := default om_zero o) in *. clearbody n.
  set (ks := child_keys (nodv n)).
  assert (zlen (nodv n) = zlen ks) as Hlen by (unfold zlen, ks, child_keys; by rewrite length_map).
  assert (pos_chars k) as Hk by (apply Forall_app in Hp as [_ [? _]%Forall_cons_iff]; by apply valid_key_pos).
  assert (StronglySorted klt ks) as Hs by (by inversion Hn).
  pose proof (rank_range k ks) as Hr. pose proof (zlen_nonneg (nodv n)).
  eapply (areturns_bind _ _ (fun r => r = (rank k ks, bool_decide (k ∈ ks)))).
  { unfold nodc. destruct (Z.eqb_spec (zlen (nodv n)) 0) as [E|E]; cbn [negb].
    - apply areturns_ret. destruct ks; [done|]. rewrite zlen_cons in Hlen. pose proof (zlen_nonneg ks). lia.
    - eapply areturns_lift; [|done]. rewrite drop_join_snoc.
      replace (zlen (join_dot (pre ++ [k])) - (zlen (join_dot (pre ++ [k])) - zlen k)) with (zlen k) by lia.
      rewrite s32_small by lia.
      apply child_search_spec; [by eapply om_wf_keyed | done | done | lia | lia | lia | lia |].
      split; intros j x Hj Hx; [lia|]. apply zlookup_Some_lt in Hx. fold ks in Hx. lia. }
  intros ? ->. unfold ref_make_child. fold ks. case_bool_decide as Hin.
  { apply areturns_ret. by right. }
  eapply areturns_bind.
  { eapply (areturns_lift _ tt (fun _ => True)); [|done]. unfold nodc.
    by rewrite (proj2 (Z.leb_le _ _)) by lia. }
  intros _ _. eapply areturns_mono; [apply add_child_at_spec; [done|lia]|].
  intros r [[-> ?]| -> ]; [left; simpl; auto | by right].
Qed.
End make.

(** ** A small tree for the examples: [abc=x] *)

Definition demo_leaf : cf_om_node :=
  OmNode None 1 (Some (zs "abc" ++ [0])) 0 (Some (zs "x" ++ [0])) [].
Definition demo_root : cf_om_node := OmNode None 0 None 0 None [Some demo_leaf].
Definition always (k : nat) (n : Z) : bool := true.

Lemma demo_leaf_wf : om_wf [zs "abc"] demo_leaf.
Proof.
  constructor; [by exists [] | apply SSorted_nil | constructor | |]; intros c Hc; by apply not_elem_of_nil in Hc.
Qed.

Lemma demo_root_wf : om_wf [] demo_root.
Proof.
  constructor; [done | by repeat constructor | repeat constructor; by eexists | |];
    intros c [[= ->]|Hc%not_elem_of_nil]%elem_of_cons; [done|done|apply demo_leaf_wf|done].
Qed.
