(* ===== verification/ConfOmPath.v ===== *)
(** * The configuration tree: walking a name

    [make_path] walks the components of a name, making the nodes that are
    missing, and hands the last one to the code after the loop: what that does
    to the texts of the tree ([make_path_spec]), and what [cf_om_get] finds. *)

From Stdlib Require Import ZArith Lia Ascii String Sorted.
From stdpp Require Import base tactics list numbers.
From S2P Require Import Prelude Cstring ConfOm ConfOmFacts ConfOmTree ConfOmWf.

Local Open Scope Z_scope.

(** ** Offsets in a name *)

(** Where the component after [pre] starts. *)
Definition name_off (pre : list (list Z)) : Z :=
  match pre with [] => 0 | _ => zlen (join_dot pre) + 1 end.

Lemma name_off_snoc pre k : zlen (join_dot (pre ++ [k])) = name_off pre + zlen k.
Proof. rewrite zlen_join_snoc. by destruct pre. Qed.

Lemma name_off_step pre k : name_off (pre ++ [k]) = name_off pre + zlen k + 1.
Proof. rewrite <- name_off_snoc. unfold name_off. by destruct (pre ++ [k]) eqn:E; [destruct pre|]. Qed.

Lemma name_off_nonneg pre : 0 <= name_off pre.
Proof. destruct pre as [|x pre]; cbn [name_off]; [done|]. pose proof (zlen_nonneg (join_dot (x :: pre))). lia. Qed.

(** What stands before the component after [pre]. *)
Definition name_pre (pre : list (list Z)) : list Z :=
  match pre with [] => [] | _ => join_dot pre ++ [chr "."] end.

Lemma zlen_name_pre pre : zlen (name_pre pre) = name_off pre.
Proof. destruct pre as [|x pre]; [done|]. unfold name_pre. by rewrite zlen_app. Qed.

Lemma join_app pre k ks : join_dot (pre ++ k :: ks) = name_pre pre ++ join_dot (k :: ks).
Proof.
  induction pre as [|x [|y pre] IH]; [done| |].
  - change ([x] ++ k :: ks) with (x :: k :: ks). rewrite join_dot_cons. unfold name_pre.
    by rewrite <- app_assoc.
  - change ((x :: y :: pre) ++ k :: ks) with (x :: y :: (pre ++ k :: ks)).
    rewrite join_dot_cons. change (y :: pre ++ k :: ks) with ((y :: pre) ++ k :: ks).
    rewrite IH. unfold name_pre. rewrite (join_dot_cons x y pre), <- !app_assoc. done.
Qed.

Lemma drop_join_app pre k ks rest :
  drop (Z.to_nat (name_off pre)) (join_dot (pre ++ k :: ks) ++ rest) = join_dot (k :: ks) ++ rest.
Proof. rewrite join_app, <- zlen_name_pre, <- app_assoc. apply drop_zlen_app. Qed.

Lemma zlen_join_app pre k ks :
  zlen (join_dot (pre ++ k :: ks)) = name_off pre + zlen (join_dot (k :: ks)).
Proof. by rewrite join_app, zlen_app, zlen_name_pre. Qed.

(** The memory a component is made from starts with the name up to it. *)
Lemma join_app_prefix pre k ks rest :
  join_dot (pre ++ k :: ks) ++ rest = join_dot (pre ++ [k]) ++ after_key ks rest.
Proof. by rewrite !join_app, <- !app_assoc, join_after. Qed.

(** ** Making a path *)

Lemma oconfig_zero o p : oconfig (Some (default om_zero o)) p = oconfig o p.
Proof. destruct o; [done|]. by destruct p. Qed.

Section path.
Context {AR : Arch} (malloc_ok realloc_ok : nat -> Z -> bool) (sizeof_cf_om_node : Z).
Hypothesis realloc_granted : forall i n, realloc_ok i n = true.
Abbreviation granted := (granted malloc_ok).

Context {R : Type} (K : option Z -> Z -> option cf_om_node -> AM (R * option cf_om_node)).
(** What the code after the loop does: [Q r t t'] when it changes the text of
    the node from [t] to [t'], [E r] when memory ran out, [I r] when the name is
    malformed. *)
Context (Q : R -> option (list Z) -> option (list Z) -> Prop) (I E : R -> Prop).
Hypothesis K_node : forall e i c, i <> -1 ->
  areturns (K (Some e) i (Some c))
           (fun ro => exists s l t, ro.2 = Some (set_where s l (set_text t c)) /\ Q ro.1 (node_text c) t).
Hypothesis K_short : forall e o, areturns (K (Some e) (-1) o) (fun ro => ro.2 = o /\ E ro.1).
Hypothesis K_bad : forall i o, areturns (K None i o) (fun ro => ro.2 = o /\ I ro.1).

(** The tree [o'] that results from [o]. *)
Definition path_post (pre ks : list (list Z)) (o : option cf_om_node) (ro : R * option cf_om_node) : Prop :=
  owf pre ro.2 /\ (osize ro.2 <= osize o + length ks)%nat /\
  ((valid_path ks /\ Q ro.1 (oconfig o ks) (oconfig ro.2 ks) /\
    forall p, p <> ks -> oconfig ro.2 p = oconfig o p) \/
   ((~ valid_path ks /\ I ro.1 \/ ~ granted /\ E ro.1) /\ forall p, oconfig ro.2 p = oconfig o p)).

Lemma set_fields s l t c :
  let c' := set_where s l (set_text t c) in
  node_fullkey c' = node_fullkey c /\ node_key c' = node_key c /\ nodv c' = nodv c /\
  node_text c' = t /\ om_size c' = om_size c.
Proof. by destruct c. Qed.

Lemma om_wf_set pre s l t c : om_wf pre c -> om_wf pre (set_where s l (set_text t c)).
Proof.
  destruct (set_fields s l t c) as (E1 & E2 & E3 & _).
  inversion 1; subst. by constructor; rewrite ?E1, ?E2, ?E3.
Qed.

(** The last component has been made: the code after the loop runs. *)
Lemma path_end pre c e i :
  om_wf pre c -> i <> -1 -> areturns (K (Some e) i (Some c)) (path_post pre [] (Some c)).
Proof.
  intros Hc Hi. eapply areturns_mono; [by apply K_node|].
  intros [r o] (s & l & t & Eo & HQ). simpl in Eo, HQ. subst o.
  destruct (set_fields s l t c) as (E1 & E2 & E3 & E4 & E5).
  split; [by apply om_wf_set|]. split; [unfold osize; simpl; rewrite E5; lia|].
  left. split; [constructor|]. simpl. rewrite E4. split; [done|].
  intros [|k p] Hp; [done|]. cbn [config]. by rewrite E3.
Qed.

Lemma config_new pre k p : config (new_child pre k) p = None.
Proof. by destruct p. Qed.

(** What the children of the new tree say about its texts. *)
Lemma config_step pre n l1 c l2 c' p :
  key_bytes c ∉ child_keys l1 -> key_bytes c' = key_bytes c ->
  (nodv n = l1 ++ Some c :: l2 \/
   (nodv n = l1 ++ l2 /\ c = new_child pre (key_bytes c) /\ find_child (key_bytes c) (nodv n) = None)) ->
  config (set_nodv (l1 ++ Some c' :: l2) n) p =
  match p with
  | [] => config n []
  | k :: p' => if bool_decide (k = key_bytes c) then config c' p' else config n p
  end /\
  forall p', config n (key_bytes c :: p') = config c p'.
Proof.
  intros Hnin Hk Hn. split.
  - rewrite config_mid by (by rewrite Hk). destruct p as [|k p]; [done|]. rewrite Hk.
    case_bool_decide as Ek; [by rewrite bool_decide_eq_true_2|].
    rewrite bool_decide_eq_false_2 by done. cbn [config].
    destruct (set_nodv_fields (l1 ++ l2) n) as (_ & _ & _ & ->).
    destruct Hn as [Hn|(Hn & _ & _)]; rewrite Hn; [|done].
    by rewrite find_child_mid, bool_decide_eq_false_2 by done.
  - intros p'. cbn [config]. destruct Hn as [Hn|(Hn & Hc & Hf)].
    + by rewrite Hn, find_child_mid, bool_decide_eq_true_2 by done.
    + rewrite Hf, Hc. by rewrite config_new.
Qed.

(** The rest of the path was made below the child [c]. *)
Lemma path_step pre k ks o n l1 c l2 r o' :
  n = default om_zero o -> om_wf pre (set_nodv (l1 ++ Some c :: l2) n) ->
  key_bytes c = k -> valid_key k = true -> (k ∉ child_keys l1) ->
  (nodv n = l1 ++ Some c :: l2 \/
   (nodv n = l1 ++ l2 /\ c = new_child pre k /\ find_child k (nodv n) = None)) ->
  path_post (pre ++ [k]) ks (Some c) (r, o') ->
  path_post pre (k :: ks) o (r, Some (set_nodv (l1 ++ o' :: l2) n)).
Proof.
  intros En Hwf <- Hk Hnin Hn (Hwf' & Hsz & Hpost). cbn [fst snd oconfig owf] in *.
  destruct o' as [c'|]; [|by destruct pre].
  assert (key_bytes c' = key_bytes c) as Hkc by (by eapply has_key_bytes, om_wf_has_key).
  pose proof (fun p => config_step pre n l1 c l2 c' p Hnin Hkc Hn) as Hcfg.
  assert (Ho : forall p, oconfig o p = config n p) by (intros p; rewrite <- oconfig_zero; by subst n).
  split; [by eapply om_wf_replace|]. split.
  { unfold osize in *. simpl in *. rewrite <- En.
    rewrite (om_size_nodv n), (om_size_nodv (set_nodv _ n)).
    destruct (set_nodv_fields (l1 ++ Some c' :: l2) n) as (_ & _ & _ & ->).
    destruct Hn as [Hn|(Hn & Hc & _)]; rewrite Hn, !vsize_app; unfold vsize in *; simpl; [lia|].
    rewrite Hc in Hsz. simpl in Hsz. lia. }
  cbn [fst snd oconfig]. destruct Hpost as [(Hv & HQ & Hp)|(Hr & Hp)].
  - left. split; [by constructor|]. rewrite Ho. split.
    + rewrite (proj2 (Hcfg [])). rewrite (proj1 (Hcfg (key_bytes c :: ks))), bool_decide_eq_true_2 by done. done.
    + intros [|k p] Hne; rewrite Ho, (proj1 (Hcfg _)); [done|].
      case_bool_decide as Ek; [|done]. rewrite Ek, (proj2 (Hcfg [])). apply Hp. congruence.
  - right. split.
    + destruct Hr as [[Hv HI]|?]; [left|by right]. split; [|done]. by intros [_ ?]%Forall_cons_iff.
    + intros [|k p]; rewrite Ho, (proj1 (Hcfg _)); [done|].
      case_bool_decide as Ek; [|done]. rewrite Ek, (proj2 (Hcfg [])). exact (Hp p).
Qed.

(** The child made for [k] between the children [l1] and [l2]. *)
Definition made (pre : list (list Z)) (k : list Z) (n : cf_om_node) (node : option cf_om_node) (i : Z)
    : Prop :=
  exists l1 c l2, node = Some (set_nodv (l1 ++ Some c :: l2) n) /\ i = zlen l1 /\
    om_wf pre (set_nodv (l1 ++ Some c :: l2) n) /\ om_wf (pre ++ [k]) c /\ key_bytes c = k /\
    (k ∉ child_keys l1) /\ (om_size c <= om_size n)%nat /\
    (nodv n = l1 ++ Some c :: l2 \/
     (nodv n = l1 ++ l2 /\ c = new_child pre k /\ find_child k (nodv n) = None)).

Lemma make_child_made pre o k ks rest :
  owf pre o -> valid_path (pre ++ [k]) -> Z.of_nat (osize o) <= 2 ^ 30 ->
  areturns (cf_om_make_child malloc_ok realloc_ok sizeof_cf_om_node o
              (join_dot (pre ++ k :: ks) ++ rest) (name_off pre) (name_off pre + zlen k))
    (fun r => (r.2 = -1 /\ ~ granted /\ (r.1 = o \/ r.1 = Some (default om_zero o))) \/
              made pre k (default om_zero o) r.1 r.2).
Proof.
  intros Hwf Hpk Hsz. rewrite join_app_prefix, <- name_off_snoc.
  replace (name_off pre) with (zlen (join_dot (pre ++ [k])) - zlen k) by (rewrite name_off_snoc; lia).
  eapply areturns_mono.
  { apply make_child_ref; [done|done|done|]. unfold osize in Hsz. rewrite om_size_nodv in Hsz.
    pose proof (vsize_length (nodv (default om_zero o))). unfold zlen. lia. }
  set (n := default om_zero o).
  assert (om_wf pre n) as Hn by (destruct o; [done | simpl in Hwf; subst; apply om_wf_zero]).
  intros r [?| ->]; [by left|]. right. simpl.
  destruct (ref_make_child_split pre k n Hn Hpk) as (l1 & c & l2 & -> & Hwf' & Hl1 & Hkc & Hnin & Hcase).
  exists l1, c, l2. split_and!; [done|done|exact Hwf'| |done|done| |done].
  - inversion Hwf' as [? ? _ _ _ _ Hc]; subst. apply Hc.
    destruct (set_nodv_fields (l1 ++ Some c :: l2) n) as (_ & _ & _ & ->).
    rewrite elem_of_app, elem_of_cons. auto.
  - rewrite (om_size_nodv n). destruct Hcase as [->|(_ & -> & _)]; [|simpl; lia].
    rewrite vsize_app. unfold vsize. simpl. lia.
Qed.

Lemma path_short pre ks o node e :
  owf pre o -> ~ granted -> (node = o \/ node = Some (default om_zero o)) ->
  areturns (K (Some e) (-1) node) (path_post pre ks o).
Proof.
  intros Hwf Hg Hnode. eapply areturns_mono; [apply K_short|].
  intros [r o'] [Eo HE]. simpl in Eo, HE. subst o'.
  split; [|split; [|right; split; [by right|]]]; simpl; destruct Hnode as [->| ->].
  - done.
  - destruct o; [done|]. simpl in *. subst. apply om_wf_zero.
  - lia.
  - unfold osize. simpl. lia.
  - done.
  - apply oconfig_zero.
Qed.

Lemma path_bad pre k ks o i :
  owf pre o -> valid_key k = false -> areturns (K None i o) (path_post pre (k :: ks) o).
Proof.
  intros Hwf Hk. eapply areturns_mono; [apply K_bad|]. intros [r o'] [Eo HI]. simpl in Eo, HI. subst o'.
  split; [done|]. split; [simpl; lia|]. right. split; [|done]. left. split; [|done].
  intros [? _]%Forall_cons_iff. congruence.
Qed.

Lemma make_path_spec ks : forall pre o keyend nodi fuel rest,
  owf pre o -> valid_path pre -> Forall no_dot ks ->
  Z.of_nat (osize o + length ks) <= 2 ^ 30 -> (length ks < fuel)%nat ->
  (ks = [] -> pre <> [] /\ nodi <> -1 /\ exists e c, keyend = Some e /\ o = Some c) ->
  areturns (make_path malloc_ok realloc_ok sizeof_cf_om_node fuel (join_dot (pre ++ ks) ++ rest)
              (zlen (join_dot (pre ++ ks))) (name_off pre) keyend nodi o K)
           (path_post pre ks o).
Proof.
  induction ks as [|k ks IH]; intros pre o keyend nodi fuel rest Hwf Hpre Hnd Hsz Hf Hnil;
    (destruct fuel as [|fuel]; [lia|]); cbn [make_path].
  { destruct (Hnil eq_refl) as (Hne & Hi & e & c & -> & ->). rewrite app_nil_r.
    rewrite (proj2 (Z.leb_gt _ _)) by (destruct pre; [done|]; cbn [name_off]; lia).
    by apply path_end. }
  apply Forall_cons_iff in Hnd as [Hk Hks]. simpl in Hsz, Hf.
  pose proof (zlen_nonneg (join_dot (k :: ks))).
  rewrite (proj2 (Z.leb_le _ _)) by (rewrite zlen_join_app; lia).
  rewrite drop_join_app, zlen_join_app, Z.add_simpl_l.
  eapply areturns_bind; [by eapply (areturns_lift _ _ (fun x => x = _)); [apply cf_find_keyend_spec|]|].
  intros ? ->. destruct (valid_key k) eqn:Hv; [|by apply path_bad].
  assert (valid_path (pre ++ [k])) as Hpk by (apply Forall_app; split; [done|by repeat constructor]).
  eapply areturns_bind; [apply make_child_made; [done|done|lia]|].
  intros [node i] [(Ei & Hg & Eo)|Hmade].
  { simpl in Ei, Eo. subst i. by apply path_short. }
  destruct Hmade as (l1 & c & l2 & En & Ei & Hwf' & Hcw & Hkc & Hnin & Hcs & Hcase).
  simpl in En, Ei. subst node i. pose proof (zlen_nonneg l1).
  destruct (Z.eqb_spec (zlen l1) (-1)); [lia|].
  eapply areturns_bind; [by eapply (areturns_lift _ _ (fun x => x = _))|]. intros ? ->.
  destruct (set_nodv_fields (l1 ++ Some c :: l2) (default om_zero o)) as (_ & _ & _ & E3).
  rewrite E3, zlookup_app_len, zlookup_cons_0.
  eapply areturns_bind; [by eapply (areturns_lift _ (Some c) (fun x => x = Some c))|]. intros ? ->.
  eapply areturns_bind.
  { replace (pre ++ k :: ks) with ((pre ++ [k]) ++ ks) by (by rewrite <- app_assoc).
    rewrite <- name_off_step.
    replace (name_off pre + zlen (join_dot (k :: ks))) with (zlen (join_dot ((pre ++ [k]) ++ ks)))
      by (rewrite <- app_assoc; apply zlen_join_app).
    apply IH; [done|done|done| |lia|].
    - unfold osize in *. simpl. lia.
    - intros ->. split; [by destruct pre|]. split; [lia|]. eauto. }
  intros [r o'] Hpost. apply areturns_ret. rewrite set_nodv_set.
  replace (Z.to_nat (zlen l1)) with (length l1 + 0)%nat by (unfold zlen; lia).
  rewrite insert_app_r. cbn [insert list_insert].
  by apply (path_step pre k ks o (default om_zero o) l1 c l2 r o').
Qed.
End path.
