(* ===== verification/ConfOmSpec.v ===== *)
(** * The configuration object model: its theorems *)

From Stdlib Require Import ZArith Lia Ascii String Sorted.
From stdpp Require Import base tactics list numbers gmap.
From S2P Require Import Prelude Cstring ConfOm ConfOmFacts ConfOmTree ConfOmWf ConfOmPath.

Local Open Scope Z_scope.

(** ** Names *)

Lemma is_name_loop (find : list Z -> Z -> outcome (option Z)) (ok : list Z -> list (list Z) -> bool)
    (t rest : list Z) :
  no_nul t ->
  (forall k ks rest, no_dot k ->
     find (join_dot (k :: ks) ++ rest) (zlen (join_dot (k :: ks))) =
     Ret (if ok k ks then Some (zlen k) else None)) ->
  (n ← strlen (t ++ 0 :: rest); name_loop find (S (S (Z.to_nat n))) (t ++ 0 :: rest) n 0 false) =
  Ret (all_ok ok (split_dot t)).
Proof.
  intros Ht Hfind. rewrite strlen_nul by done. cbn [mbind outcome_bind].
  destruct (split_dot_join t) as (k & ks & E & Hj & Hd). rewrite E, <- Hj.
  pose proof (join_len_ge (k :: ks)) as Hl. simpl length in Hl.
  apply (name_loop_spec find ok Hfind k ks [] (0 :: rest)); [done|]. lia.
Qed.

Lemma all_ok_forallb p ks : all_ok (fun k _ => p k) ks = forallb p ks.
Proof. induction ks as [|k ks IH]; [done|]. simpl. by rewrite IH. Qed.

(** [is_configvarname] accepts exactly the texts whose parts between dots
    are non-empty and made of letters, digits and underscores;
    [is_configvarpattern] also takes a star for a part and two stars for the
    last.  (A part may start with a digit, which the grammar in the comment
    above the function excludes.) *)
Theorem is_configvarname_spec (t rest : list Z) :
  no_nul t ->
  is_configvarname (t ++ 0 :: rest) = Ret (forallb valid_key (split_dot t)) /\
  is_configvarpattern (t ++ 0 :: rest) = Ret (all_ok valid_pattern (split_dot t)).
Proof.
  intros Ht. split.
  - rewrite <- all_ok_forallb. apply is_name_loop; [done|]. intros. by apply cf_find_keyend_spec.
  - apply is_name_loop; [done|]. intros. by apply cf_find_keypattern_end_spec.
Qed.

(** ** Looking up *)

Fixpoint first_prefix (k : list Z) (v : list (option cf_om_node)) : option cf_om_node :=
  match v with
  | [] => None
  | o :: v => match o with
              | Some c => if bool_decide (k `prefix_of` key_bytes c) then Some c else first_prefix k v
              | None => first_prefix k v
              end
  end.

(** The text found when every component may be abbreviated. *)
Fixpoint config_abbrev (n : cf_om_node) (p : list (list Z)) : option (list Z) :=
  match p with
  | [] => node_text n
  | k :: p => match first_prefix k (nodv n) with Some c => config_abbrev c p | None => None end
  end.

Lemma strncmp_key_prefix k ck r1 r2 :
  pos_chars k -> pos_chars ck ->
  exists s, strncmp_by id (ck ++ 0 :: r2) (k ++ r1) (length k) = Ret s /\ (s = 0 <-> k `prefix_of` ck).
Proof.
  intros Hk. revert ck. induction Hk as [|x k Hx _ IH]; intros ck Hck.
  { exists 0. split; [by apply strncmp_by_0|]. split; [intros _; apply prefix_nil | done]. }
  destruct Hck as [|y ck Hy Hck]; cbn [length strncmp_by app]; rewrite !rd_cons; cbn [mbind outcome_bind];
    unfold id at 1 2.
  - destruct (Z.eqb_spec 0 x); [lia|]. unfold id. destruct (Z.ltb_spec 0 x); [|lia].
    exists (-1). split; [done|]. split; [done|]. by intros ?%prefix_nil_inv.
  - destruct (Z.eqb_spec y x) as [->|Hne].
    + destruct (Z.eqb_spec x 0); [lia|]. destruct (IH ck Hck) as (s & E & Hs). exists s. split; [done|].
      rewrite Hs. split; [apply prefix_cons | apply prefix_cons_inv_2].
    + eexists. split; [done|]. split.
      * by destruct (id y <? id x).
      * intros ?%prefix_cons_inv_1. by subst.
Qed.

Lemma get_child_loop_spec v ks k r i :
  keyed v ks -> pos_chars k ->
  get_child_loop v i (k ++ r) (Some (zlen k)) = Ret (-1) /\ first_prefix k v = None \/
  exists j c, get_child_loop v i (k ++ r) (Some (zlen k)) = Ret (i + j) /\ 0 <= j /\
              v @@ j = Some (Some c) /\ first_prefix k v = Some c.
Proof.
  intros Hv Hk. revert i. induction Hv as [|o ck v ks (c & -> & Hc) _ IH]; intros i; [by left|].
  cbn [get_child_loop first_prefix or_undef mbind outcome_bind].
  rewrite (has_key_bytes _ _ Hc). destruct Hc as [Hck [r2 ->]]. cbn [mbind outcome_bind].
  unfold strncmp. replace (Z.to_nat (zlen k)) with (length k) by (unfold zlen; lia).
  destruct (strncmp_key_prefix k ck r r2 Hk Hck) as (s & -> & Hs). cbn [mbind outcome_bind].
  destruct (Z.eqb_spec s 0) as [E|E].
  - right. exists 0, c. rewrite bool_decide_eq_true_2 by (by apply Hs).
    split; [f_equal; lia|]. split; [lia|]. by split.
  - rewrite bool_decide_eq_false_2 by (by rewrite <- Hs).
    destruct (IH (i + 1)) as [?|(j & d & H1 & H2 & H3 & H4)]; [by left|].
    right. exists (1 + j), d. split; [rewrite H1; f_equal; lia|]. split; [lia|].
    split; [|done]. rewrite <- H3. apply (zlookup_app_r [Some c] v j H2).
Qed.

(** The loop of [cf_om_get]. *)
Lemma get_loop_spec ks : forall wpre pre n keyend nodi fuel rest,
  om_wf wpre n -> valid_path ks -> (length ks < fuel)%nat ->
  (ks = [] -> pre <> [] /\ nodi <> -1 /\ keyend <> None) ->
  get_loop fuel (join_dot (pre ++ ks) ++ rest) (zlen (join_dot (pre ++ ks))) (name_off pre) keyend nodi n =
  Ret (config_abbrev n ks).
Proof.
  induction ks as [|k ks IH]; intros wpre pre n keyend nodi fuel rest Hn Hv Hf Hnil;
    (destruct fuel as [|fuel]; [lia|]); cbn [get_loop].
  { destruct (Hnil eq_refl) as (Hne & Hi & Hke). rewrite app_nil_r.
    rewrite (proj2 (Z.leb_gt _ _)) by (destruct pre; [done|]; cbn [name_off]; lia).
    destruct keyend; [|done]. by destruct (Z.eqb_spec nodi (-1)). }
  apply Forall_cons_iff in Hv as [Hk Hks]. simpl in Hf. pose proof (zlen_nonneg (join_dot (k :: ks))).
  rewrite (proj2 (Z.leb_le _ _)) by (rewrite zlen_join_app; lia).
  rewrite drop_join_app, zlen_join_app, Z.add_simpl_l.
  rewrite cf_find_keyend_spec by (by apply valid_key_no_dot). rewrite Hk. cbn [mbind outcome_bind].
  unfold cf_om_get_child. rewrite join_after. cbn [config_abbrev].
  destruct (get_child_loop_spec (nodv n) _ k (after_key ks rest) 0 (om_wf_keyed _ _ Hn) (valid_key_pos _ Hk))
    as [[-> ->]|(j & c & -> & Hj & Hc & ->)]; [done|]. cbn [mbind outcome_bind].
  rewrite Z.add_0_l. destruct (Z.eqb_spec j (-1)); [lia|].
  unfold child_at. rewrite Hc. cbn [or_undef mbind outcome_bind].
  rewrite <- name_off_step, <- zlen_join_app.
  replace (pre ++ k :: ks) with ((pre ++ [k]) ++ ks) by (by rewrite <- app_assoc).
  eapply (IH (wpre ++ [key_bytes c])); [|done|lia|].
  - inversion Hn as [? ? _ _ _ _ Hcw]; subst. apply Hcw. unfold zlookup in Hc.
    destruct (j <? 0); [done|]. by eapply list_elem_of_lookup_2.
  - intros _. split; [by destruct pre|]. by split.
Qed.

Lemma find_child_elem k v c : find_child k v = Some c -> Some c ∈ v.
Proof.
  induction v as [|[d|] v IH]; simpl; [done| |]; rewrite elem_of_cons; [|auto].
  case_bool_decide; [intros [= ->]; by left | auto].
Qed.

Lemma find_child_key k v c : find_child k v = Some c -> key_bytes c = k.
Proof.
  induction v as [|[d|] v IH]; simpl; [done| |done]. case_bool_decide; [by intros [= ->] | auto].
Qed.

(** A key that is there comes before every longer key that starts with it. *)
Lemma first_prefix_exact k v c :
  StronglySorted klt (child_keys v) -> find_child k v = Some c -> first_prefix k v = Some c.
Proof.
  unfold child_keys. induction v as [|[d|] v IH]; simpl; [done| |].
  - intros Hs. apply StronglySorted_inv in Hs as [Hs Hd]. case_bool_decide as E.
    { intros [= ->]. rewrite E. by rewrite bool_decide_eq_true_2. }
    intros Hf. rewrite bool_decide_eq_false_2; [by apply IH|].
    intros [x Hx]. assert (klt (key_bytes d) k) as Hlt.
    { rewrite <- (find_child_key k v c Hf). rewrite List.Forall_forall in Hd. apply Hd.
      apply (in_map child_key v (Some c)). by apply list_elem_of_In, (find_child_elem k). }
    rewrite Hx in Hlt. destruct x as [|y x]; [by rewrite app_nil_r in Hx|].
    apply (klt_irrefl k). eapply klt_trans; [|exact Hlt]. by apply klt_prefix.
  - intros Hs. apply StronglySorted_inv in Hs as [Hs _]. by apply IH.
Qed.

Lemma config_abbrev_exact pre n p t :
  om_wf pre n -> config n p = Some t -> config_abbrev n p = Some t.
Proof.
  revert pre n. induction p as [|k p IH]; intros pre n Hn; cbn [config config_abbrev]; [done|].
  destruct (find_child k (nodv n)) as [c|] eqn:E; [|done].
  inversion Hn as [? ? _ Hs _ _ Hc]; subst. rewrite (first_prefix_exact k _ c Hs E).
  apply (IH (pre ++ [key_bytes c])). apply Hc. by eapply find_child_elem.
Qed.

(** [cf_om_get] of a well-formed tree takes every component of the name for
    an abbreviation: it returns the text below the first children, in order,
    whose keys start with the components.  A name that is in the tree is always
    found, because its keys come first. *)
Theorem cf_om_get_abbrev (n : cf_om_node) (ks : list (list Z)) (rest : list Z) :
  om_wf [] n -> valid_path ks -> ks <> [] ->
  cf_om_get (Some n) (join_dot ks ++ 0 :: rest) = Ret (config_abbrev n ks) /\
  (forall t, config n ks = Some t -> cf_om_get (Some n) (join_dot ks ++ 0 :: rest) = Ret (Some t)).
Proof.
  intros Hn Hks Hne.
  assert (cf_om_get (Some n) (join_dot ks ++ 0 :: rest) = Ret (config_abbrev n ks)) as E.
  { unfold cf_om_get. rewrite strlen_nul.
    2: { eapply List.Forall_impl; [|by apply join_pos]. intros a Ha E. simpl in Ha. lia. }
    cbn [mbind outcome_bind]. pose proof (join_len_ge ks).
    apply (get_loop_spec ks [] [] n None (-1)); [done|done|lia|done]. }
  split; [done|]. intros t Ht. by rewrite E, (config_abbrev_exact [] n ks t).
Qed.

(** ** Setting *)

Section set.
Context {AR : Arch} (malloc_ok realloc_ok : nat -> Z -> bool) (sizeof_cf_om_node : Z).
Hypothesis realloc_granted : forall i n, realloc_ok i n = true.
Abbreviation granted := (granted malloc_ok).

(** What the code after the loop of [cf_om_set] does to the text of the node. *)
Definition set_result (text : option (list Z)) (r : Z) (before after : option (list Z)) : Prop :=
  (r = CFOK /\ after = option_map (fun t => t ++ [0]) text) \/ (~ granted /\ r = CFERROR /\ after = None).

Lemma set_where_id c t : set_text t c = set_where (node_source c) (node_line c) (set_text t c).
Proof. by destruct c. Qed.

Lemma str_edup_spec t r :
  pos_chars t ->
  areturns (str_edup malloc_ok (t ++ 0 :: r)) (fun x => x = Some (t ++ [0]) \/ (x = None /\ ~ granted)).
Proof.
  intros Ht. unfold str_edup. eapply areturns_bind.
  - eapply (areturns_lift _ (zlen t) (fun x => x = zlen t)); [|done]. apply strlen_nul.
    eapply List.Forall_impl; [|exact Ht]. intros a Ha E. simpl in Ha. lia.
  - intros ? ->. by apply strn_edup_spec.
Qed.

Lemma set_end_node text e i c :
  match text with Some t => pos_chars t | None => True end -> i <> -1 ->
  areturns (set_end malloc_ok (option_map (fun t => t ++ [0]) text) (Some e) i (Some c))
    (fun ro => exists s l t, ro.2 = Some (set_where s l (set_text t c)) /\
                             set_result text ro.1 (node_text c) t).
Proof.
  intros Ht Hi. unfold set_end. destruct (Z.eqb_spec i (-1)); [done|].
  eapply areturns_bind; [by eapply (areturns_lift _ c (fun x => x = c))|]. intros ? ->.
  destruct text as [t|]; simpl.
  - eapply areturns_bind; [by apply str_edup_spec|].
    intros x Hx. apply areturns_ret. eexists _, _, _. rewrite (set_where_id c x). split; [done|].
    destruct Hx as [->|[-> ?]]; [by left | by right].
  - apply areturns_ret. eexists _, _, _. rewrite (set_where_id c None). split; [done|]. by left.
Qed.

(** C14: [cf_om_set] on any tree and any text as its name: the tree stays well
    formed; when the name is valid and memory suffices the text at that name is
    the one given and every other text is as before, and [cf_om_get] returns it;
    a malformed name leaves every text as it was and gives [CFINVALID]. *)
Theorem cf_om_set_spec (o : option cf_om_node) (name rest : list Z) (text : option (list Z)) :
  owf [] o -> no_nul name -> match text with Some t => pos_chars t | None => True end ->
  Z.of_nat (osize o) + zlen name + 1 <= 2 ^ 30 ->
  areturns (cf_om_set malloc_ok realloc_ok sizeof_cf_om_node o (name ++ 0 :: rest)
              (option_map (fun t => t ++ [0]) text))
    (fun ro =>
       let ks := split_dot name in
       owf [] ro.2 /\
       (granted -> ro.1 = if forallb valid_key ks then CFOK else CFINVALID) /\
       (forall p, p <> ks -> oconfig ro.2 p = oconfig o p) /\
       (ro.1 = CFOK -> oconfig ro.2 ks = option_map (fun t => t ++ [0]) text /\
          forall t, text = Some t -> cf_om_get ro.2 (name ++ 0 :: rest) = Ret (Some (t ++ [0]))) /\
       (ro.1 = CFINVALID -> oconfig ro.2 ks = oconfig o ks)).
Proof.
  intros Ho Hname Ht Hsz. unfold cf_om_set.
  destruct (split_dot_join name) as (k & ks & E & Hj & Hd). rewrite E.
  eapply areturns_bind; [by eapply (areturns_lift _ (zlen name) (fun x => x = _)); [apply strlen_nul|]|].
  intros ? ->. pose proof (join_len_ge (k :: ks)) as Hl. rewrite Hj in Hl.
  rewrite <- Hj at 2 3. eapply areturns_mono.
  { apply (make_path_spec malloc_ok realloc_ok sizeof_cf_om_node realloc_granted
             (set_end malloc_ok (option_map (fun t => t ++ [0]) text)) (set_result text)
             (fun r => r = CFINVALID) (fun r => r = CFERROR)) with (ks := k :: ks) (pre := []);
      [intros; by apply set_end_node | | | done | constructor | done | lia | lia | done].
    - intros e o'. by apply areturns_ret.
    - intros i o'. by apply areturns_ret. }
  intros [r o'] (Hwf & _ & Hpost). simpl fst in *. simpl snd in *.
  assert (valid_path (k :: ks) <-> forallb valid_key (k :: ks) = true) as Hiff
    by (symmetry; apply forallb_Forall).
  destruct Hpost as [(Hv & HQ & Hp)|(Hr & Hp)].
  - rewrite (proj1 Hiff Hv). split; [done|].
    destruct HQ as [[-> Hc]|(Hg & -> & Hc)]; split_and!; try done.
    intros _. split; [done|]. intros t ->. simpl in Hc. destruct o' as [n|]; [|done].
    rewrite <- Hj. by apply cf_om_get_abbrev.
  - split; [done|]. destruct Hr as [[Hv ->]|[Hg ->]]; split_and!; try done.
    intros _. destruct (forallb valid_key (k :: ks)) eqn:Ev; [|done]. by destruct Hv; apply Hiff.
Qed.
End set.

(** ** Making and removing children *)

Lemma sorted_remove (l1 l2 : list (list Z)) k :
  StronglySorted klt (l1 ++ k :: l2) -> StronglySorted klt (l1 ++ l2) /\ (k ∉ l1) /\ (k ∉ l2).
Proof.
  induction l1 as [|x l1 IH]; simpl; intros [Hs Hx]%StronglySorted_inv.
  - split_and!; [done|apply not_elem_of_nil|]. intros Hin. apply (klt_irrefl k).
    rewrite List.Forall_forall in Hx. by apply Hx, list_elem_of_In.
  - destruct (IH Hs) as (Hs' & H1 & H2). apply Forall_app in Hx as [Hx1 [Hxk Hx2]%Forall_cons_iff].
    split_and!; [constructor; [done|by apply Forall_app]| |done].
    apply not_elem_of_cons. split; [|done]. intros ->. by apply (klt_irrefl x).
Qed.

Lemma strncmp_nul k r r' :
  pos_chars k -> strncmp_by id (k ++ 0 :: r) (k ++ 0 :: r') (length k + 1) = Ret 0.
Proof.
  induction 1 as [|x k Hx _ IH]; [done|]. cbn [app length Nat.add strncmp_by]. rewrite !rd_cons.
  cbn [mbind outcome_bind]. rewrite Z.eqb_refl. by destruct (Z.eqb_spec x 0); [lia|].
Qed.

Section children.
Context {AR : Arch} (malloc_ok realloc_ok : nat -> Z -> bool) (sizeof_cf_om_node : Z).
Hypothesis realloc_granted : forall i n, realloc_ok i n = true.

(** The binary search and the array shuffle of [cf_om_make_child] are lookup
    and insertion in a sorted list: with memory available the result is
    [ref_make_child], the index is the number of smaller keys, the child at that
    index has the key, and the node stays well formed; without memory nothing is
    added. *)
Theorem cf_om_make_child_sorted (pre : list (list Z)) (n : cf_om_node) (k rest : list Z) :
  om_wf pre n -> valid_path (pre ++ [k]) -> nodc n <= 2 ^ 30 ->
  areturns (cf_om_make_child malloc_ok realloc_ok sizeof_cf_om_node (Some n)
              (join_dot (pre ++ [k]) ++ rest) (zlen (join_dot (pre ++ [k])) - zlen k)
              (zlen (join_dot (pre ++ [k]))))
    (fun r => (r = (Some n, -1) /\ ~ granted malloc_ok) \/
              (r = (Some (ref_make_child pre k n), rank k (child_keys (nodv n))) /\
               om_wf pre (ref_make_child pre k n) /\
               exists c, nodv (ref_make_child pre k n) @@ rank k (child_keys (nodv n)) = Some (Some c) /\
                         key_bytes c = k)).
Proof.
  intros Hn Hp Hmax. eapply areturns_mono; [by apply make_child_ref|].
  intros [o i] [(Ei & Hg & Eo)| E].
  - left. split; [|done]. simpl in *. subst i. by destruct Eo as [-> | ->].
  - right. split; [done|].
    destruct (ref_make_child_split pre k n Hn Hp) as (l1 & c & l2 & -> & Hwf & Hl1 & Hk & _).
    split; [exact Hwf|]. exists c. split; [|done].
    destruct (set_nodv_fields (l1 ++ Some c :: l2) n) as (_ & _ & _ & ->).
    by rewrite <- Hl1, zlookup_app_len.
Qed.

(** Removing the child at an index keeps the node well formed and removes
    exactly the texts below that child. *)
Theorem cf_om_remove_child_spec (pre : list (list Z)) (n c : cf_om_node) (i : Z) :
  om_wf pre n -> nodv n @@ i = Some (Some c) ->
  exists n', cf_om_remove_child n i = Ret n' /\ om_wf pre n' /\ config n' [] = config n [] /\
    forall k p, config n' (k :: p) = if bool_decide (k = key_bytes c) then None else config n (k :: p).
Proof.
  intros Hn Hc. pose proof (zlookup_Some_lt _ _ _ Hc) as Hi.
  assert (exists l1 l2, nodv n = l1 ++ Some c :: l2 /\ zlen l1 = i) as (l1 & l2 & E & <-).
  { unfold zlookup in Hc. destruct (Z.ltb_spec i 0); [done|].
    exists (take (Z.to_nat i) (nodv n)), (drop (S (Z.to_nat i)) (nodv n)).
    rewrite (take_drop_middle _ _ _ Hc). split; [done|]. unfold zlen in *. rewrite length_take. lia. }
  exists (set_nodv (l1 ++ l2) n). destruct (set_nodv_fields (l1 ++ l2) n) as (F1 & F2 & F3 & F4).
  assert (cf_om_remove_child n (zlen l1) = Ret (set_nodv (l1 ++ l2) n)) as ->.
  { unfold cf_om_remove_child, nodc. rewrite Hc. rewrite (proj2 (Z.ltb_lt _ _)) by lia.
    cbn [cassert or_undef mbind outcome_bind]. rewrite E. unfold cf_om_free_node.
    replace (Z.to_nat (zlen l1)) with (length l1 + 0)%nat by (unfold zlen; lia).
    rewrite insert_app_r. cbn [insert list_insert]. rewrite zlen_app, zlen_cons.
    replace (zlen l1 + (1 + zlen l2) - 1) with (zlen l1 + zlen l2) by lia.
    destruct (shift_down_spec l1 None l2 (S (Z.to_nat (zlen l1 + zlen l2)))) as [y ->]; [unfold zlen; lia|].
    cbn [mbind outcome_bind]. rewrite app_assoc.
    replace (Z.to_nat (zlen l1 + zlen l2)) with (length (l1 ++ l2)) by (rewrite length_app; unfold zlen; lia).
    by rewrite take_app_length. }
  split; [done|]. inversion Hn as [? ? Hname Hs Hsome Hv Hcw]; subst. rewrite E in *.
  rewrite child_keys_app in Hs. simpl in Hs.
  assert (Hsub : forall d, Some d ∈ l1 ++ l2 -> Some d ∈ l1 ++ Some c :: l2)
    by (intros d; rewrite !elem_of_app, elem_of_cons; tauto).
  assert (StronglySorted klt (child_keys l1 ++ child_keys l2) /\
          (key_bytes c ∉ child_keys l1) /\ (key_bytes c ∉ child_keys l2)) as (Hs' & Hn1 & Hn2) by (by apply sorted_remove).
  split; [|split; [exact F3|]].
  - constructor; rewrite ?F1, ?F2, ?F4; [done|by rewrite child_keys_app| |auto|auto].
    apply Forall_app in Hsome as [? [_ ?]%Forall_cons_iff]. by apply Forall_app.
  - intros k p. cbn [config]. rewrite F4, E, find_child_mid by done. case_bool_decide as Ek.
    + subst k. by rewrite find_child_none by (rewrite child_keys_app, elem_of_app; tauto).
    + by rewrite (bool_decide_eq_false_2 (key_bytes c = k)) by congruence.
Qed.

(** [cf_om_add_child] on the root takes the terminator for a character of
    the key: when the child is already there, as [cf_om_parse] makes it, the
    search reads past the end of the child's name. *)
Theorem cf_om_add_child_root_overread (root c : cf_om_node) (k : list Z) (s : nat) :
  node_fullkey root = None -> nodv root = [Some c] -> node_fullkey c = Some (k ++ [0]) ->
  node_key c = 0 -> pos_chars k ->
  cf_om_add_child malloc_ok realloc_ok sizeof_cf_om_node (Some root) (k ++ [0]) s = Undef.
Proof.
  intros Hr Hv Hf Hk0 Hk. unfold cf_om_add_child. rewrite Hr.
  assert (strlen (k ++ [0]) = Ret (zlen k)) as Hlen.
  { apply strlen_nul. eapply List.Forall_impl; [|exact Hk]. intros a Ha E. simpl in Ha. lia. }
  rewrite Hlen. cbn [alift mbind outcome_bind AM_bind negb Z.eqb].
  unfold cf_om_make_child. unfold mbind, AM_bind, mret, AM_ret, alift, mbind, outcome_bind.
  unfold nodc. rewrite Hv. change (negb (0 =? 0)) with false. cbn [app].
  change (negb (zlen [Some c] =? 0)) with true. change (zlen (@nil Z)) with 0. cbn [Z.to_nat]. rewrite drop_0.
  match goal with |- context [child_search ?f ?v ?key ?len ?m ?n] =>
    assert (child_search f v key len m n = Undef) as -> end; [|done].
  change (s32 (zlen [Some c] - 1)) with 0. change (Z.to_nat (zlen [Some c])) with 1%nat.
  cbn [child_search int_add]. change (int_add 0 0) with (Ret 0). cbn [mbind outcome_bind].
  change (child_at [Some c] (u32 (0 `quot` 2))) with (Ret c). cbn [mbind outcome_bind].
  unfold compare_child, key_ptr. rewrite Hf, Hk0. cbn [or_undef mbind outcome_bind Z.to_nat]. rewrite drop_0.
  replace (Z.to_nat (zlen k)) with (length k) by (unfold zlen; lia). rewrite take_app_length, <- app_assoc.
  cbn [app]. unfold strncmp. replace (Z.to_nat (0 + 1 + zlen k - 0)) with (length k + 1)%nat by (unfold zlen; lia).
  rewrite strncmp_nul by done. cbn [mbind outcome_bind Z.eqb]. unfold rdn, zlookup.
  pose proof (zlen_nonneg k). rewrite (proj2 (Z.ltb_ge _ _)) by lia.
  rewrite lookup_ge_None_2; [done|]. rewrite length_app. unfold zlen. simpl. lia.
Qed.
End children.

(** ** The theorems at work *)

Lemma is_configvarname_spec_witness :
  no_nul (zs "a.1b") /\ is_configvarname (zs "a.1b" ++ [0]) = Ret (forallb valid_key (split_dot (zs "a.1b"))) /\
  forallb valid_key (split_dot (zs "a.1b")) = true.
Proof.
  assert (no_nul (zs "a.1b")) as H by (by repeat constructor).
  split; [exact H|]. split; [apply (is_configvarname_spec (zs "a.1b") [] H) | reflexivity].
Defined.

Lemma cf_om_get_abbrev_witness :
  valid_path [zs "a"] /\ cf_om_get (Some demo_root) (zs "a" ++ [0]) = Ret (config_abbrev demo_root [zs "a"]) /\
  config_abbrev demo_root [zs "a"] = Some (zs "x" ++ [0]) /\ config demo_root [zs "a"] = None.
Proof.
  assert (valid_path [zs "a"]) as H by (by repeat constructor).
  split; [exact H|]. split; [|split; reflexivity].
  refine (proj1 (cf_om_get_abbrev demo_root [zs "a"] [] demo_root_wf H _)). discriminate.
Defined.

Lemma cf_om_set_spec_witness :
  exists ro s, @cf_om_set LP64 always always 136 (Some demo_root) (zs "ab.c" ++ [0]) (Some (zs "y" ++ [0])) 0%nat =
                 Ret (ro, s) /\
    ro.1 = CFOK /\ cf_om_get ro.2 (zs "ab.c" ++ [0]) = Ret (Some (zs "y" ++ [0])).
Proof.
  destruct (@cf_om_set_spec LP64 always always 136 (fun _ _ => eq_refl) (Some demo_root) (zs "ab.c") []
              (Some (zs "y")) demo_root_wf ltac:(by repeat constructor) ltac:(by repeat constructor)
              ltac:(by vm_compute) 0%nat) as (ro & s & E & _ & Hg & _ & Hok & _).
  exists ro, s. split; [exact E|].
  assert (ro.1 = CFOK) as H by (apply Hg; intros i n; reflexivity).
  split; [exact H|]. by apply (proj2 (Hok H)).
Defined.

Lemma cf_om_make_child_sorted_witness :
  nodc demo_root <= 2 ^ 30 /\
  areturns (@cf_om_make_child LP64 always always 136 (Some demo_root) (zs "abd" ++ [0]) 0 3)
    (fun r => (r = (Some demo_root, -1) /\ ~ granted always) \/ r.2 = 1).
Proof.
  split; [by vm_compute|].
  eapply areturns_mono.
  - apply (@cf_om_make_child_sorted LP64 always always 136 (fun _ _ => eq_refl) [] demo_root (zs "abd") [0]
             demo_root_wf); [by repeat constructor | by vm_compute].
  - intros r [?|[-> _]]; [by left | by right].
Defined.

Lemma cf_om_remove_child_spec_witness :
  nodv demo_root @@ 0 = Some (Some demo_leaf) /\
  exists n', cf_om_remove_child demo_root 0 = Ret n' /\ config n' [zs "abc"] = None.
Proof.
  split; [reflexivity|].
  destruct (cf_om_remove_child_spec [] demo_root demo_leaf 0 demo_root_wf eq_refl) as (n' & E & _ & _ & H).
  exists n'. split; [exact E|]. rewrite (H (zs "abc") []). reflexivity.
Defined.

Lemma cf_om_add_child_root_overread_witness :
  pos_chars (zs "abc") /\
  @cf_om_add_child LP64 always always 136 (Some demo_root) (zs "abc" ++ [0]) 0%nat = Undef.
Proof.
  assert (pos_chars (zs "abc")) as H by (by repeat constructor). split; [exact H|].
  by apply (@cf_om_add_child_root_overread LP64 always always 136 demo_root demo_leaf (zs "abc") 0%nat).
Defined.
