(* ===== verification/ConfOmParse.v ===== *)
(** * Parsing a configuration file

    [cf_om_parse] against a reference that works on lines and a finite map: the
    first definition of a name counts, later ones and malformed lines set flags
    in the result. *)

From Stdlib Require Import ZArith Lia Ascii String Sorted.
From stdpp Require Import base tactics list numbers gmap.
From S2P Require Import Prelude Cstring ConfOm ConfOmFacts ConfOmTree ConfOmWf ConfOmPath.

Local Open Scope Z_scope.

(** ** The reference *)

(** The longest prefix on which [stop] does not hold. *)
Fixpoint upto (stop : Z -> bool) (l : list Z) : list Z :=
  match l with [] => [] | c :: l => if stop c then [] else c :: upto stop l end.

Definition is_nl (c : Z) : bool := c =? 10.
Definition is_eq (c : Z) : bool := c =? chr "=".

(** The lines of a file; a newline ends a line. *)
Fixpoint file_lines (buf : list Z) : list (list Z) :=
  match buf with
  | [] => []
  | c :: buf =>
      if is_nl c then [] :: file_lines buf
      else match file_lines buf with l :: ls => (c :: l) :: ls | [] => [[c]] end
  end.

Definition strip_cr (raw : list Z) : list Z :=
  match list.last raw with
  | Some c => if c =? 13 then take (length raw - 1) raw else raw
  | None => raw
  end.

Inductive line_act : Type := LSkip | LBad | LDef (name value : list Z).

Definition hash_line (raw : list Z) : bool :=
  match raw with c :: _ => c =? chr "#" | [] => false end.

Definition line_of (raw : list Z) : line_act :=
  if hash_line raw then LSkip
  else
    let l := strip_cr raw in
    if forallb isspace l then LSkip
    else
      let name := upto is_eq l in
      if bool_decide (name = []) || bool_decide (name = l) then LBad
      else LDef name (drop (S (length name)) l).

Abbreviation texts := (gmap (list (list Z)) (list Z)).

Definition ref_line (st : texts * Z) (raw : list Z) : texts * Z :=
  match line_of raw with
  | LSkip => st
  | LBad => (st.1, Z.lor st.2 CFINVALID)
  | LDef name value =>
      let ks := split_dot name in
      if forallb valid_key ks then
        match st.1 !! ks with
        | Some _ => (st.1, Z.lor st.2 CFDUPLICATE)
        | None => (<[ks := value ++ [0]]> st.1, Z.land st.2 (Z.lnot CFEMPTY))
        end
      else (st.1, Z.lor st.2 CFINVALID)
  end.

Definition ref_parse (st : texts * Z) (buf : list Z) : texts * Z := foldl ref_line st (file_lines buf).

(** The tree holds the texts of the map. *)
Definition holds (o : option cf_om_node) (m : texts) : Prop := forall p, oconfig o p = m !! p.

(** ** Scanning *)

Lemma upto_split stop l :
  upto stop l = l \/ exists c r, l = upto stop l ++ c :: r /\ stop c = true.
Proof.
  induction l as [|c l IH]; [by left|]. simpl. destruct (stop c) eqn:E; [right; by exists c, l|].
  destruct IH as [->|(d & r & Hl & Hd)]; [by left|]. right. exists d, r. split; [|done].
  by rewrite Hl at 1.
Qed.

Lemma upto_all stop l : upto stop l = l <-> forallb (fun c => negb (stop c)) l = true.
Proof.
  induction l as [|c l IH]; [done|]. simpl. destruct (stop c); simpl; [done|].
  rewrite <- IH. split; [by intros [=] | by intros ->].
Qed.

Lemma upto_length stop l : (length (upto stop l) <= length l)%nat.
Proof. induction l as [|c l IH]; [done|]. simpl. destruct (stop c); simpl; lia. Qed.

Lemma upto_len_eq stop l : zlen (upto stop l) = zlen l -> upto stop l = l.
Proof.
  intros H. destruct (upto_split stop l) as [?|(c & r & Hl & _)]; [done|].
  exfalso. apply (f_equal zlen) in Hl. rewrite zlen_app, zlen_cons in Hl. pose proof (zlen_nonneg r). lia.
Qed.

Lemma scan_spec stop b c : forall a fuel,
  (length b < fuel)%nat ->
  scan stop fuel (a ++ b ++ c) (zlen a) (zlen a + zlen b) = Ret (zlen a + zlen (upto stop b)).
Proof.
  induction b as [|x b IH]; intros a fuel Hf; (destruct fuel as [|fuel]; [lia|]); cbn [scan upto].
  - change (zlen (@nil Z)) with 0. rewrite (proj2 (Z.ltb_ge _ _)) by lia. by rewrite Z.add_0_r.
  - rewrite zlen_cons. pose proof (zlen_nonneg b). rewrite (proj2 (Z.ltb_lt _ _)) by lia.
    unfold rdn. rewrite zlookup_app_len. cbn [app]. rewrite zlookup_cons_0. cbn [or_undef mbind outcome_bind].
    destruct (stop x); [change (zlen (@nil Z)) with 0; by rewrite Z.add_0_r|].
    specialize (IH (a ++ [x]) fuel). simpl in Hf.
    rewrite <- app_assoc, zlen_app in IH. change (zlen [x]) with 1 in IH.
    replace (zlen a + (1 + zlen b)) with (zlen a + 1 + zlen b) by lia.
    cbn [app] in IH. rewrite IH by lia. rewrite zlen_cons. f_equal. lia.
Qed.

Lemma file_lines_step l :
  l <> [] ->
  (upto is_nl l = l /\ file_lines l = [l]) \/
  exists r, l = upto is_nl l ++ 10 :: r /\ file_lines l = upto is_nl l :: file_lines r.
Proof.
  induction l as [|c l IH]; [done|]. intros _. cbn [upto file_lines].
  destruct (is_nl c) eqn:E.
  - right. exists l. apply Z.eqb_eq in E as ->. done.
  - destruct l as [|d l]; [by left|]. destruct IH as [[-> ->]|(r & Hl & ->)]; [done|by left|].
    right. exists r. split; [|done]. by rewrite Hl at 1.
Qed.

Lemma strip_cr_prefix raw : exists tl, raw = strip_cr raw ++ tl.
Proof.
  unfold strip_cr. destruct (list.last raw) as [c|]; [|exists []; by rewrite app_nil_r].
  destruct (c =? 13); [|exists []; by rewrite app_nil_r].
  exists (drop (length raw - 1) raw). by rewrite take_drop.
Qed.

(** Where a line ends after the test for a carriage return. *)
Lemma strip_cr_len a raw tl :
  (if zlen a <? zlen a + zlen raw
   then c ← rdn (a ++ raw ++ tl) (zlen a + zlen raw - 1);
        Ret (if c =? 13 then zlen a + zlen raw - 1 else zlen a + zlen raw)
   else Ret (zlen a + zlen raw)) = Ret (zlen a + zlen (strip_cr raw)).
Proof.
  destruct raw as [|x raw _] using rev_ind.
  - change (strip_cr []) with (@nil Z). change (zlen (@nil Z)) with 0. by rewrite Z.add_0_r, Z.ltb_irrefl.
  - unfold strip_cr. rewrite last_snoc, zlen_app. change (zlen [x]) with 1. pose proof (zlen_nonneg raw).
    rewrite (proj2 (Z.ltb_lt _ _)) by lia.
    replace (zlen a + (zlen raw + 1) - 1) with (zlen a + zlen raw) by lia.
    unfold rdn. rewrite zlookup_app_r, <- app_assoc, zlookup_app_len by lia. cbn [app].
    rewrite zlookup_cons_0. cbn [or_undef mbind outcome_bind]. destruct (x =? 13); [|by rewrite zlen_app].
    rewrite length_app. simpl. rewrite Nat.add_sub, take_app_length. done.
Qed.

(** ** One line *)

Lemma blank_test (a l : list Z) :
  (zlen a + zlen (upto (fun c => negb (isspace c)) l) =? zlen a + zlen l) = forallb isspace l.
Proof.
  assert (upto (fun c => negb (isspace c)) l = l <-> forallb isspace l = true) as H.
  { induction l as [|c l IH]; [done|]. simpl. destruct (isspace c); simpl; [|done].
    rewrite <- IH. split; [by intros [=] | by intros ->]. }
  destruct (Z.eqb_spec (zlen a + zlen (upto (fun c => negb (isspace c)) l)) (zlen a + zlen l)) as [E|E].
  - symmetry. apply H, upto_len_eq. lia.
  - destruct (forallb isspace l); [|done]. rewrite (proj2 H) in E by done. lia.
Qed.

Lemma bad_test (a l : list Z) :
  (zlen a + zlen (upto is_eq l) =? zlen a) || (zlen a + zlen (upto is_eq l) =? zlen a + zlen l) =
  bool_decide (upto is_eq l = []) || bool_decide (upto is_eq l = l).
Proof.
  f_equal; symmetry.
  - destruct (Z.eqb_spec (zlen a + zlen (upto is_eq l)) (zlen a)) as [E|E].
    + apply bool_decide_eq_true_2. destruct (upto is_eq l) as [|x n]; [done|].
      rewrite zlen_cons in E. pose proof (zlen_nonneg n). lia.
    + apply bool_decide_eq_false_2. intros En. rewrite En in E. apply E. change (zlen (@nil Z)) with 0. lia.
  - destruct (Z.eqb_spec (zlen a + zlen (upto is_eq l)) (zlen a + zlen l)) as [E|E].
    + apply bool_decide_eq_true_2, upto_len_eq. lia.
    + apply bool_decide_eq_false_2. intros En. rewrite En in E. done.
Qed.

(** The name and the value of a line that defines something. *)
Lemma line_of_def raw :
  hash_line raw = false -> forallb isspace (strip_cr raw) = false ->
  bool_decide (upto is_eq (strip_cr raw) = []) ||
    bool_decide (upto is_eq (strip_cr raw) = strip_cr raw) = false ->
  exists name v, upto is_eq (strip_cr raw) = name /\ strip_cr raw = name ++ chr "=" :: v /\
                 line_of raw = LDef name v.
Proof.
  intros Eh Hns Hbad. unfold line_of. rewrite Eh, Hns, Hbad.
  destruct (upto_split is_eq (strip_cr raw)) as [E|(x & v & Hl & Hx)].
  { rewrite (bool_decide_eq_true_2 _ E), orb_true_r in Hbad. done. }
  apply Z.eqb_eq in Hx as ->. eexists _, v. split; [done|]. split; [done|]. f_equal.
  set (n := upto is_eq (strip_cr raw)) in *. rewrite Hl.
  replace (S (length n)) with (length n + 1)%nat by lia. rewrite <- drop_drop, drop_app_length. done.
Qed.

(** The first character of a line is that of the newline when it is empty. *)
Lemma line_head a raw tl :
  (raw = [] -> exists tl', tl = 10 :: tl') ->
  exists c, rdn (a ++ raw ++ tl) (zlen a) = Ret c /\ (c =? chr "#") = hash_line raw.
Proof.
  intros Htl. unfold rdn. rewrite zlookup_app_len. destruct raw as [|c raw]; [|by exists c].
  destruct Htl as [tl' ->]; [done|]. by exists 10.
Qed.

Section parse.
Context {AR : Arch} (malloc_ok realloc_ok : nat -> Z -> bool) (sizeof_cf_om_node : Z).
Hypothesis realloc_granted : forall i n, realloc_ok i n = true.
Abbreviation granted := (granted malloc_ok).
Context (source : option (list Z)).

Definition parse_result (result : Z) (value : list Z) (r : Z * bool) (before after : option (list Z))
    : Prop :=
  match before with
  | Some _ => r = (Z.lor result CFDUPLICATE, false) /\ after = before
  | None => (r = (Z.land result (Z.lnot CFEMPTY), false) /\ after = Some (value ++ [0])) \/
            (~ granted /\ r = (CFERROR, true) /\ after = None)
  end.

Lemma set_where_text c : c = set_where (node_source c) (node_line c) (set_text (node_text c) c).
Proof. by destruct c. Qed.

Lemma parse_end_node lineno result value tl e i c :
  pos_chars value -> i <> -1 ->
  areturns (parse_end malloc_ok source lineno result (value ++ tl) (zlen value) (Some e) i (Some c))
    (fun ro => exists s l t, ro.2 = Some (set_where s l (set_text t c)) /\
                             parse_result result value ro.1 (node_text c) t).
Proof.
  intros Hv Hi. unfold parse_end. destruct (Z.eqb_spec i (-1)); [done|].
  eapply areturns_bind; [by eapply (areturns_lift _ c (fun x => x = c))|]. intros ? ->.
  destruct (node_text c) as [t|] eqn:Et.
  - apply areturns_ret. eexists _, _, _. split; [simpl; f_equal; apply set_where_text|]. by rewrite Et.
  - eapply areturns_bind; [by apply strn_edup_spec|]. intros x [->|[-> ?]]; apply areturns_ret.
    + eexists _, _, _. split; [done|]. by left.
    + eexists _, _, _. split; [simpl; f_equal; apply set_where_text|]. rewrite Et. by right.
Qed.

(** What a line does to the tree. *)
Definition line_post (o : option cf_om_node) (raw : list Z) (result : Z)
    (ro : Z * bool * option cf_om_node) : Prop :=
  owf [] ro.2 /\ (osize ro.2 <= osize o + length raw)%nat /\
  (granted -> ro.1.2 = false /\
     forall m, holds o m -> let st := ref_line (m, result) raw in holds ro.2 st.1 /\ ro.1.1 = st.2).

Lemma line_post_keep o raw result r :
  owf [] o -> (forall m, ref_line (m, result) raw = (m, r)) -> line_post o raw result (r, false, o).
Proof.
  intros Ho Hr. split; [done|]. split; [simpl; lia|]. intros _. split; [done|]. intros m Hm. by rewrite Hr.
Qed.

(** The path and the text of a definition. *)
Lemma parse_def o name value tl lineno result raw :
  owf [] o -> no_nul name -> pos_chars value ->
  (S (length name) <= length raw)%nat -> Z.of_nat (osize o + length raw) <= 2 ^ 30 ->
  line_of raw = LDef name value ->
  areturns (make_path malloc_ok realloc_ok sizeof_cf_om_node (S (S (Z.to_nat (zlen name))))
              (name ++ chr "=" :: value ++ tl) (zlen name) 0 None (-1) o
              (parse_end malloc_ok source lineno result (value ++ tl) (zlen value)))
           (line_post o raw result).
Proof.
  intros Ho Hn Hv Hlen Hsz Hl. destruct (split_dot_join name) as (k & ks & E & Hj & Hd).
  pose proof (join_len_ge (k :: ks)) as Hjl. rewrite Hj in Hjl. unfold zlen in Hjl.
  rewrite <- Hj. eapply areturns_mono.
  { apply (make_path_spec malloc_ok realloc_ok sizeof_cf_om_node realloc_granted
             (parse_end malloc_ok source lineno result (value ++ tl) (zlen value))
             (parse_result result value)
             (fun r => r = (Z.lor result CFINVALID, false)) (fun r => r = (CFERROR, true)))
      with (ks := k :: ks) (pre := []);
      [intros; by apply parse_end_node | | | done | constructor | done | lia | rewrite Hj; unfold zlen; lia | done].
    - intros e o'. by apply areturns_ret.
    - intros i o'. by apply areturns_ret. }
  intros [r o'] (Hwf & Hs & Hpost). simpl fst in *. simpl snd in *.
  split; [done|]. split; [cbn [snd]; lia|]. cbn [fst snd]. intros Hg.
  unfold ref_line. rewrite Hl, E. cbn [fst snd].
  assert (valid_path (k :: ks) <-> forallb valid_key (k :: ks) = true) as Hiff
    by (symmetry; apply forallb_Forall).
  destruct Hpost as [(Hvp & HQ & Hp)|([[Hvp ->]|[? _]] & Hp)]; [| |done].
  - rewrite (proj1 Hiff Hvp). unfold parse_result in HQ.
    assert (Hins : forall m v, holds o m -> oconfig o' (k :: ks) = v -> holds o' (partial_alter (fun _ => v) (k :: ks) m)).
    { intros m v Hm Hv' p. destruct (decide (p = k :: ks)) as [->|Hne].
      - by rewrite lookup_partial_alter_eq.
      - by rewrite lookup_partial_alter_ne, Hp, Hm. }
    destruct (oconfig o (k :: ks)) as [t|] eqn:Et.
    + destruct HQ as [-> Ho']. split; [done|]. intros m Hm. rewrite <- Hm, Et. split; [|done].
      intros p. rewrite <- Hm. destruct (decide (p = k :: ks)) as [->|]; [by rewrite Ho', Et | by apply Hp].
    + destruct HQ as [[-> Ho']|[? _]]; [|done]. split; [done|]. intros m Hm. rewrite <- Hm, Et.
      split; [by apply (Hins m) | done].
  - split; [done|]. intros m Hm. destruct (forallb valid_key (k :: ks)) eqn:Ev.
    + exfalso. apply Hvp. by apply Hiff.
    + split; [|done]. intros p. by rewrite Hp.
Qed.

Lemma parse_line_spec o a raw tl lineno result :
  owf [] o -> pos_chars raw -> (raw = [] -> exists tl', tl = 10 :: tl') ->
  Z.of_nat (osize o + length raw) <= 2 ^ 30 ->
  areturns (parse_line malloc_ok realloc_ok sizeof_cf_om_node source (a ++ raw ++ tl) lineno (zlen a)
              (zlen a + zlen (strip_cr raw)) result o)
           (line_post o raw result).
Proof.
  intros Ho Hpos Htl Hsz. unfold parse_line. rewrite Z.add_simpl_l.
  destruct (strip_cr_prefix raw) as [cr Hcr].
  destruct (line_head a raw tl Htl) as (c & Hc & Hhash).
  eapply areturns_bind; [by eapply (areturns_lift _ c (fun x => x = c))|]. intros ? ->. rewrite Hhash.
  assert (a ++ raw ++ tl = a ++ strip_cr raw ++ cr ++ tl) as Hbuf by (rewrite Hcr at 1; by rewrite <- !app_assoc).
  assert (Hkeep : forall r, (forall m, ref_line (m, result) raw = (m, r)) ->
    areturns (mret (r, false, o)) (line_post o raw result))
    by (intros r Hr; by apply areturns_ret, line_post_keep).
  unfold ref_line, line_of in Hkeep. destruct (hash_line raw) eqn:Eh; [by apply Hkeep|].
  rewrite Hbuf. assert (length (strip_cr raw) < S (Z.to_nat (zlen (strip_cr raw))))%nat as Hfuel by (unfold zlen; lia).
  eapply areturns_bind; [by eapply (areturns_lift _ _ (fun x => x = _)); [apply scan_spec|]|]. intros ? ->.
  rewrite blank_test. destruct (forallb isspace (strip_cr raw)) eqn:Hns; [by apply Hkeep|].
  eapply areturns_bind; [by eapply (areturns_lift _ _ (fun x => x = _)); [apply scan_spec|]|]. intros ? ->.
  change (fun c0 : Z => c0 =? chr "=") with is_eq. rewrite bad_test.
  destruct (bool_decide (upto is_eq (strip_cr raw) = []) ||
            bool_decide (upto is_eq (strip_cr raw) = strip_cr raw)) eqn:Hbad; [by apply Hkeep|]. clear Hkeep.
  destruct (line_of_def raw Eh Hns Hbad) as (name & v & Hn & Hl & Hline).
  rewrite Hn, Z.add_simpl_l, Hl, <- !app_assoc, drop_zlen_app.
  replace (a ++ name ++ (chr "=" :: v) ++ cr ++ tl) with ((a ++ name ++ [chr "="]) ++ v ++ cr ++ tl)
    by (by rewrite <- !app_assoc).
  replace (zlen a + zlen name + 1) with (zlen (a ++ name ++ [chr "="]))
    by (rewrite !zlen_app; change (zlen [chr "="]) with 1; lia).
  rewrite drop_zlen_app.
  replace (zlen a + zlen (name ++ chr "=" :: v) - zlen (a ++ name ++ [chr "="])) with (zlen v)
    by (rewrite !zlen_app, zlen_cons; change (zlen [chr "="]) with 1; lia).
  rewrite Hcr, Hl in Hpos. apply Forall_app in Hpos as [Hpos _].
  apply Forall_app in Hpos as [Hpn [_ Hpv]%Forall_cons_iff].
  apply (parse_def o name v (cr ++ tl)); [done| |done| |done|done].
  - eapply List.Forall_impl; [|exact Hpn]. intros x Hx E. simpl in Hx. lia.
  - rewrite Hcr, Hl, !length_app. simpl. lia.
Qed.

Definition file_post (o : option cf_om_node) (rest : list Z) (result : Z) (ro : Z * option cf_om_node) : Prop :=
  owf [] ro.2 /\
  (granted -> forall m, holds o m ->
     holds ro.2 (ref_parse (m, result) rest).1 /\ ro.1 = (ref_parse (m, result) rest).2).

(** A line and then the rest of the file. *)
Lemma file_post_cons o raw rest rest' result r o1 ro :
  file_lines rest = raw :: file_lines rest' ->
  line_post o raw result (r, false, o1) -> file_post o1 rest' r ro -> file_post o rest result ro.
Proof.
  intros Hl (_ & _ & H1) (Hwf & H2). split; [done|]. intros Hg m Hm.
  destruct (H1 Hg) as [_ H1']. destruct (H1' m Hm) as [Hm1 Er]. cbn [fst snd] in *.
  unfold ref_parse in *. rewrite Hl. cbn [foldl].
  destruct (ref_line (m, result) raw) as [m1 r1]. cbn [fst snd] in *. subst r1. by apply H2.
Qed.

Lemma file_post_stop o raw rest result r o1 :
  line_post o raw result (r, true, o1) -> file_post o rest result (r, o1).
Proof. intros (Hwf & _ & H). split; [done|]. intros Hg. by destruct (H Hg). Qed.

Lemma parse_loop_spec fuel : forall a rest o result lineno,
  (length rest < fuel)%nat -> pos_chars rest -> owf [] o -> Z.of_nat (osize o + length rest) <= 2 ^ 30 ->
  areturns (parse_loop malloc_ok realloc_ok sizeof_cf_om_node fuel source (a ++ rest) (zlen (a ++ rest))
              lineno (zlen a) result o)
           (file_post o rest result).
Proof.
  induction fuel as [|fuel IH]; intros a rest o result lineno Hf Hpos Ho Hsz; [lia|]. cbn [parse_loop].
  rewrite zlen_app. destruct (decide (rest = [])) as [->|Hne].
  { change (zlen (@nil Z)) with 0. rewrite Z.add_0_r, Z.ltb_irrefl. apply areturns_ret.
    split; [done|]. intros _ m Hm. done. }
  assert (0 < zlen rest) by (destruct rest as [|x r]; [done|]; rewrite zlen_cons; pose proof (zlen_nonneg r); lia).
  rewrite (proj2 (Z.ltb_lt _ _)) by lia. rewrite Z.add_simpl_l.
  eapply areturns_bind.
  { eapply (areturns_lift _ _ (fun x => x = _)); [|done]. rewrite <- (app_nil_r rest) at 2.
    apply (scan_spec is_nl rest []). unfold zlen. lia. }
  intros ? ->. set (raw := upto is_nl rest).
  assert (exists tl, rest = raw ++ tl /\ (raw = [] -> exists tl', tl = 10 :: tl') /\
            ((tl = [] /\ file_lines rest = raw :: file_lines []) \/
             exists rest', tl = 10 :: rest' /\ file_lines rest = raw :: file_lines rest'))
    as (tl & Hrest & Htl & Hlines).
  { destruct (file_lines_step rest Hne) as [[E El]|(r & E & El)]; fold raw in E, El.
    - exists []. rewrite app_nil_r. rewrite E. split; [done|]. split; [done|]. by left.
    - exists (10 :: r). split; [done|]. split; [by eexists|]. right. by exists r. }
  eapply (areturns_bind _ _ (fun x => x = zlen a + zlen (strip_cr raw))).
  { rewrite Hrest. pose proof (strip_cr_len a raw tl) as Hs. destruct (zlen a <? zlen a + zlen raw).
    - destruct (rdn (a ++ raw ++ tl) (zlen a + zlen raw - 1)) as [c| |]; [|done|done].
      cbn [mbind outcome_bind] in Hs. injection Hs as Hs.
      eapply areturns_bind; [by eapply (areturns_lift _ c (fun x => x = c))|]. intros ? ->. by apply areturns_ret.
    - injection Hs as Hs. by apply areturns_ret. }
  intros ? ->. rewrite Hrest in Hpos, Hsz, Hf. rewrite length_app in Hsz, Hf.
  apply Forall_app in Hpos as [Hpr Hpt].
  eapply areturns_bind; [rewrite Hrest at 1; apply parse_line_spec; [done|done|done|lia]|].
  intros [[r stop] o1] Hline. destruct stop; [by eapply areturns_ret, file_post_stop|].
  pose proof Hline as (Ho1 & Hs1 & _). cbn [fst snd] in *.
  destruct Hlines as [[-> Hl]|(rest' & -> & Hl)].
  - destruct fuel as [|fuel]; [simpl in Hf; destruct raw; [by destruct Htl|simpl in Hf; lia]|].
    cbn [parse_loop]. rewrite Hrest, app_nil_r. rewrite (proj2 (Z.ltb_ge _ _)) by lia.
    apply areturns_ret. rewrite Hrest, app_nil_r in Hl. eapply (file_post_cons _ raw raw []); [done|done|].
    split; [done|]. by intros _ m Hm.
  - rewrite Hrest at 1 2. simpl in Hf, Hsz. apply Forall_cons_iff in Hpt as [_ Hpt].
    replace (a ++ raw ++ 10 :: rest') with ((a ++ raw ++ [10]) ++ rest') by (by rewrite <- !app_assoc).
    replace (zlen a + zlen (raw ++ 10 :: rest')) with (zlen ((a ++ raw ++ [10]) ++ rest'))
      by (rewrite !zlen_app, !zlen_cons; change (zlen (@nil Z)) with 0; lia).
    replace (zlen a + zlen raw + 1) with (zlen (a ++ raw ++ [10]))
      by (rewrite !zlen_app; change (zlen [10]) with 1; lia).
    eapply areturns_mono; [apply IH; [lia|done|done|lia]|]. intros ro. by apply (file_post_cons o raw).
Qed.

(** C13: parsing a configuration file without NUL bytes, not larger with the nodes
    of the tree than 2^30, into any well-formed tree returns and keeps the tree
    well formed, also when an allocation fails.  When every allocation succeeds
    ([granted]) it gives the texts and the result flags of the reference: the first
    definition of a name counts, a later one sets [CFDUPLICATE], a malformed line or
    name sets [CFINVALID], and [CFEMPTY] stays only when nothing was defined.  White
    space in front of a name or of [#] makes the line malformed, though
    doc/Servald-Configuration.md allows it. *)
Theorem cf_om_parse_refines (o : option cf_om_node) (buf : list Z) (m : texts) :
  owf [] o -> pos_chars buf -> holds o m -> Z.of_nat (osize o) + zlen buf <= 2 ^ 30 ->
  areturns (cf_om_parse malloc_ok realloc_ok sizeof_cf_om_node source buf (zlen buf) o)
    (fun ro => owf [] ro.2 /\
       (granted -> holds ro.2 (ref_parse (m, CFEMPTY) buf).1 /\ ro.1 = (ref_parse (m, CFEMPTY) buf).2)).
Proof.
  intros Ho Hpos Hm Hsz. unfold cf_om_parse. eapply areturns_mono.
  { apply (parse_loop_spec _ [] buf o CFEMPTY 1); [unfold zlen; lia|done|done|unfold zlen in Hsz; lia]. }
  intros ro [Hwf H]. split; [done|]. intros Hg. by apply H.
Qed.
End parse.

(** White space at the start of a line. *)
Example indented_lines_invalid :
  snd (ref_parse (∅, CFEMPTY) (zs " a=1")) = Z.lor CFEMPTY CFINVALID /\
  snd (ref_parse (∅, CFEMPTY) (zs " # note")) = Z.lor CFEMPTY CFINVALID.
Proof. vm_compute. by split. Qed.

Definition demo_file : list Z := zs "abc=x" ++ [10] ++ zs "# note" ++ [10] ++ zs "abc=y" ++ [13; 10] ++ zs "d.e=1".

Lemma cf_om_parse_refines_witness :
  exists ro s, @cf_om_parse LP64 always always 136 None demo_file (zlen demo_file) None 0%nat = Ret (ro, s) /\
    ro.1 = CFDUPLICATE /\ oconfig ro.2 [zs "abc"] = Some (zs "x" ++ [0]) /\
    oconfig ro.2 [zs "d"; zs "e"] = Some (zs "1" ++ [0]).
Proof.
  destruct (@cf_om_parse_refines LP64 always always 136 (fun _ _ => eq_refl) None None demo_file ∅ eq_refl
              ltac:(by repeat constructor) (fun p => eq_sym (lookup_empty p)) ltac:(by vm_compute) 0%nat)
    as (ro & s & E & _ & H).
  destruct (H (fun _ _ => eq_refl)) as [Hh Hr]. exists ro, s. split; [exact E|].
  split; [rewrite Hr; by vm_compute|]. split; rewrite Hh; by vm_compute.
Defined.
