(* ===== verification/ConfOmMatch.v ===== *)
(** * Matching names against patterns

    [cf_om_match] against matching of components one by one. *)

From Stdlib Require Import ZArith Lia Ascii String Sorted.
From stdpp Require Import base tactics list numbers.
From S2P Require Import Prelude Cstring ConfOm ConfOmFacts ConfOmTree ConfOmWf ConfOmPath.

Local Open Scope Z_scope.

(** A star stands for one component, two stars for one or more. *)
Fixpoint glob (ps ks : list (list Z)) : bool :=
  match ps, ks with
  | [], [] => true
  | p :: ps, k :: ks =>
      bool_decide (p = starstar) || ((bool_decide (p = star) || bool_decide (p = k)) && glob ps ks)
  | _, _ => false
  end.

(** Where the loop stands after the components [pre] when [ks] are left. *)
Definition name_pos (pre ks : list (list Z)) : Z :=
  match ks with [] => zlen (join_dot pre) | _ => name_off pre end.

Lemma rdn_name pre k ks rest i :
  0 <= i ->
  rdn (join_dot (pre ++ k :: ks) ++ rest) (name_off pre + i) = rdn (k ++ after_key ks rest) i.
Proof.
  intros Hi. rewrite join_app, <- zlen_name_pre, <- app_assoc, join_after. unfold rdn.
  by rewrite zlookup_app_r.
Qed.

Lemma step_over_spec pre k ks rest :
  step_over (join_dot (pre ++ k :: ks) ++ 0 :: rest) (name_off pre + zlen k) =
  Ret (name_pos (pre ++ [k]) ks).
Proof.
  unfold step_over. rewrite rdn_name by apply zlen_nonneg. unfold rdn. rewrite zlookup_app_len.
  destruct ks as [|k' ks]; cbn [after_key name_pos]; rewrite zlookup_cons_0; cbn [or_undef mbind outcome_bind].
  - by rewrite <- name_off_snoc.
  - by rewrite name_off_step.
Qed.

(** ** Comparing components *)

Fixpoint lcp (p t : list Z) : Z :=
  match p, t with
  | x :: p, y :: t => if x =? y then 1 + lcp p t else 0
  | _, _ => 0
  end.

Lemma same_run_spec p : forall t A B C D fuel,
  (length p < fuel)%nat ->
  same_run fuel (A ++ p ++ B) (zlen A) (zlen A + zlen p) (C ++ t ++ D) (zlen C) (zlen C + zlen t) =
  Ret (zlen A + lcp p t, zlen C + lcp p t).
Proof.
  induction p as [|x p IH]; intros t A B C D fuel Hf; (destruct fuel as [|fuel]; [lia|]); cbn [same_run lcp].
  { change (zlen (@nil Z)) with 0. rewrite Z.ltb_irrefl || rewrite (proj2 (Z.ltb_ge _ _)) by lia.
    cbn [andb]. by rewrite !Z.add_0_r. }
  rewrite zlen_cons. pose proof (zlen_nonneg p). rewrite (proj2 (Z.ltb_lt (zlen A) _)) by lia.
  destruct t as [|y t].
  { change (zlen (@nil Z)) with 0. rewrite (proj2 (Z.ltb_ge _ _)) by lia. cbn [andb]. by rewrite !Z.add_0_r. }
  rewrite zlen_cons. pose proof (zlen_nonneg t). rewrite (proj2 (Z.ltb_lt _ _)) by lia. cbn [andb].
  unfold rdn. rewrite !zlookup_app_len. cbn [app]. rewrite !zlookup_cons_0. cbn [or_undef mbind outcome_bind].
  destruct (Z.eqb_spec x y) as [->|]; [|by rewrite !Z.add_0_r].
  specialize (IH t (A ++ [y]) B (C ++ [y]) D fuel). rewrite <- !app_assoc, !zlen_app in IH.
  change (zlen [y]) with 1 in IH. cbn [app] in IH. simpl in Hf.
  replace (zlen A + (1 + zlen p)) with (zlen A + 1 + zlen p) by lia.
  replace (zlen C + (1 + zlen t)) with (zlen C + 1 + zlen t) by lia.
  rewrite IH by lia. do 2 f_equal; lia.
Qed.

Lemma lcp_app p t : lcp p (p ++ t) = zlen p.
Proof. induction p as [|x p IH]; [by destruct t|]. cbn [app lcp]. by rewrite Z.eqb_refl, IH, zlen_cons. Qed.

Lemma lcp_full p t : lcp p t = zlen p -> exists r, t = p ++ r.
Proof.
  revert t. induction p as [|x p IH]; intros t; [by exists t|]. rewrite zlen_cons. pose proof (zlen_nonneg p).
  destruct t as [|y t]; cbn [lcp]; [lia|]. destruct (Z.eqb_spec x y) as [->|]; [|lia].
  intros E. destruct (IH t) as [r ->]; [lia|]. by exists r.
Qed.

(** The literal comparison succeeds when the components are equal. *)
Lemma lcp_component p k t :
  negb (lcp p (k ++ t) =? zlen p) || negb (lcp p (k ++ t) =? zlen k) = negb (bool_decide (p = k)).
Proof.
  case_bool_decide as E.
  - subst k. by rewrite lcp_app, Z.eqb_refl.
  - destruct (Z.eqb_spec (lcp p (k ++ t)) (zlen p)) as [E1|]; [|done].
    destruct (Z.eqb_spec (lcp p (k ++ t)) (zlen k)) as [E2|]; [|done].
    exfalso. apply E. destruct (lcp_full _ _ E1) as [r Hr].
    apply (f_equal (take (length p))) in Hr. rewrite take_app_length in Hr.
    replace (length p) with (length k) in Hr by (unfold zlen in *; lia).
    by rewrite take_app_length in Hr.
Qed.

(** ** The loop *)

Lemma same_run_component ppre p ps kpre k ks r r' :
  same_run (S (Z.to_nat (name_off ppre + zlen p - name_off ppre)))
    (join_dot (ppre ++ p :: ps) ++ r) (name_off ppre) (name_off ppre + zlen p)
    (join_dot (kpre ++ k :: ks) ++ r') (name_off kpre) (name_off kpre + zlen (join_dot (k :: ks))) =
  Ret (name_off ppre + lcp p (k ++ after_key ks []), name_off kpre + lcp p (k ++ after_key ks [])).
Proof.
  rewrite (join_app ppre), (join_app kpre), <- !app_assoc, (join_after p).
  rewrite <- (join_after k ks []), app_nil_r, <- !zlen_name_pre.
  apply same_run_spec. unfold zlen. lia.
Qed.

(** Which of the three kinds of components a pattern has. *)
Lemma valid_pattern_cases p ps :
  valid_pattern p ps = true ->
  (valid_key p = true /\ exists c q, p = c :: q /\ c <> chr "*") \/ p = star \/ (p = starstar /\ ps = []).
Proof.
  unfold valid_pattern. intros [[Hv|Hs]%orb_true_iff|Hss]%orb_true_iff.
  - left. split; [done|]. pose proof (valid_key_chars p Hv) as Hc. pose proof (valid_key_len p Hv).
    destruct p as [|c q]; [done|]. exists c, q. split; [done|]. apply Forall_cons_iff in Hc as [Hc _].
    intros ->. by vm_compute in Hc.
  - bsplit. auto.
  - bsplit. auto.
Qed.

Lemma valid_pattern_len p ps : valid_pattern p ps = true -> 0 < zlen p.
Proof.
  intros [[Hv _]|[->|[-> _]]]%valid_pattern_cases; [by apply valid_key_len|done|done].
Qed.

Lemma patterns_pos ps : all_ok valid_pattern ps = true -> pos_chars (join_dot ps).
Proof.
  induction ps as [|p ps IH]; [constructor|]. cbn [all_ok]. intros [Hp Hps]%andb_true_iff.
  assert (pos_chars p) as Hpp.
  { destruct (valid_pattern_cases p ps Hp) as [[Hv _]|[->|[-> _]]];
      [by apply valid_key_pos | by repeat constructor | by repeat constructor]. }
  destruct ps; [exact Hpp|]. rewrite join_dot_cons. apply Forall_app. split; [done|].
  constructor; [done|]. by apply IH.
Qed.

Lemma glob_literal p ps k ks :
  valid_key p = true -> glob (p :: ps) (k :: ks) = bool_decide (p = k) && glob ps ks.
Proof.
  intros Hp. cbn [glob]. rewrite (bool_decide_eq_false_2 (p = starstar)) by (by intros ->).
  by rewrite (bool_decide_eq_false_2 (p = star)) by (by intros ->).
Qed.

Lemma match_loop_spec ps : forall ppre kpre ks keyend patend fuel r r',
  all_ok valid_pattern ps = true -> Forall no_dot ps -> valid_path ks -> (length ps < fuel)%nat ->
  (ps = [] -> kpre <> [] /\ keyend = Some (zlen (join_dot kpre))) ->
  match_loop fuel (join_dot (ppre ++ ps) ++ 0 :: r) (zlen (join_dot (ppre ++ ps)))
    (join_dot (kpre ++ ks) ++ 0 :: r') (zlen (join_dot (kpre ++ ks)))
    (name_pos ppre ps) (name_pos kpre ks) keyend (Some patend) =
  Ret (if glob ps ks then 1 else 0).
Proof.
  induction ps as [|p ps IH]; intros ppre kpre ks keyend patend fuel r r' Hps Hnd Hks Hf Hnil;
    (destruct fuel as [|fuel]; [lia|]); cbn [match_loop].
  { destruct (Hnil eq_refl) as [Hne ->]. rewrite app_nil_r. cbn [name_pos]. rewrite Z.ltb_irrefl, Z.eqb_refl.
    cbn [andb]. rewrite andb_true_r. destruct ks as [|k ks]; [by rewrite app_nil_r, Z.eqb_refl|].
    rewrite zlen_join_app. destruct (Z.eqb_spec (zlen (join_dot kpre)) (name_off kpre + zlen (join_dot (k :: ks)))) as [E|];
      [|done].
    pose proof (zlen_nonneg (join_dot (k :: ks))). destruct kpre; [done|]. cbn [name_off] in E. lia. }
  cbn [all_ok] in Hps. apply andb_true_iff in Hps as [Hp Hps]. apply Forall_cons_iff in Hnd as [Hpd Hnd].
  simpl in Hf. pose proof (valid_pattern_len p ps Hp) as Hpl.
  pose proof (after_len_nonneg ps) as Hal. cbn [name_pos].
  assert (name_off ppre < zlen (join_dot (ppre ++ p :: ps))) as Hlt by (rewrite zlen_join_app, join_after_len; lia).
  rewrite (proj2 (Z.ltb_lt _ _) Hlt).
  destruct ks as [|k ks].
  { rewrite app_nil_r. cbn [name_pos]. rewrite Z.leb_refl. cbn [andb]. rewrite drop_zlen_app, Z.sub_diag. done. }
  apply Forall_cons_iff in Hks as [Hk Hks]. cbn [name_pos].
  pose proof (zlen_nonneg (join_dot (k :: ks))).
  rewrite (proj2 (Z.leb_le _ _)) by (rewrite zlen_join_app; lia). cbn [andb].
  rewrite !drop_join_app, !zlen_join_app, !Z.add_simpl_l.
  rewrite cf_find_keyend_spec by (by apply valid_key_no_dot). rewrite Hk. cbn [mbind outcome_bind].
  rewrite cf_find_keypattern_end_spec by done. unfold pattern_len. rewrite Hp. cbn [mbind outcome_bind].
  assert (Hnext : forall keyend patend, keyend = Some (name_off kpre + zlen k) ->
    (pat ← step_over (join_dot (ppre ++ p :: ps) ++ 0 :: r) (name_off ppre + zlen p);
     key ← step_over (join_dot (kpre ++ k :: ks) ++ 0 :: r') (name_off kpre + zlen k);
     match_loop fuel (join_dot (ppre ++ p :: ps) ++ 0 :: r) (name_off ppre + zlen (join_dot (p :: ps)))
       (join_dot (kpre ++ k :: ks) ++ 0 :: r') (name_off kpre + zlen (join_dot (k :: ks))) pat key keyend
       (Some patend)) = Ret (if glob ps ks then 1 else 0)).
  { intros ke pe ->. rewrite !step_over_spec, <- !zlen_join_app. cbn [mbind outcome_bind].
    replace (ppre ++ p :: ps) with ((ppre ++ [p]) ++ ps) by (by rewrite <- app_assoc).
    replace (kpre ++ k :: ks) with ((kpre ++ [k]) ++ ks) by (by rewrite <- app_assoc).
    apply IH; [done|done|done|lia|]. intros _. split; [by destruct kpre|]. by rewrite name_off_snoc. }
  assert (rdn (join_dot (ppre ++ p :: ps) ++ 0 :: r) (name_off ppre) = rdn (p ++ after_key ps (0 :: r)) 0) as Hc0
    by (rewrite <- (rdn_name ppre) by done; by rewrite Z.add_0_r).
  rewrite Hc0. clear Hc0.
  destruct (valid_pattern_cases p ps Hp) as [(Hv & c & q & Ep & Hc)|[->|[-> ->]]].
  - replace (rdn (p ++ after_key ps (0 :: r)) 0) with (Ret c) by (by rewrite Ep). cbn [mbind outcome_bind].
    destruct (Z.eqb_spec c (chr "*")); [done|].
    rewrite same_run_component. cbn [mbind outcome_bind]. rewrite glob_literal by done.
    pose proof (lcp_component p k (after_key ks [])) as Hl.
    destruct (Z.eqb_spec (name_off ppre + lcp p (k ++ after_key ks [])) (name_off ppre + zlen p)) as [E1|E1];
      destruct (Z.eqb_spec (name_off kpre + lcp p (k ++ after_key ks [])) (name_off kpre + zlen k)) as [E2|E2];
      cbn [negb orb].
    + rewrite !(proj2 (Z.eqb_eq _ _)) in Hl by lia. cbn [negb orb] in Hl.
      destruct (bool_decide (p = k)); [|done]. cbn [andb]. rewrite E1, E2. by apply Hnext.
    + destruct (Z.eqb_spec (lcp p (k ++ after_key ks [])) (zlen k)); [lia|]. rewrite orb_true_r in Hl.
      by destruct (bool_decide (p = k)).
    + destruct (Z.eqb_spec (lcp p (k ++ after_key ks [])) (zlen p)); [lia|]. by destruct (bool_decide (p = k)).
    + destruct (Z.eqb_spec (lcp p (k ++ after_key ks [])) (zlen p)); [lia|]. by destruct (bool_decide (p = k)).
  - change (rdn (star ++ after_key ps (0 :: r)) 0) with (Ret (chr "*")). cbn [mbind outcome_bind].
    rewrite Z.eqb_refl, rdn_name by done.
    replace (rdn (star ++ after_key ps (0 :: r)) 1) with (Ret (match ps with [] => 0 | _ => chr "." end))
      by (by destruct ps).
    cbn [mbind outcome_bind]. replace (match ps with [] => 0 | _ => chr "." end =? chr "*") with false by (by destruct ps).
    cbn [glob]. change (bool_decide (star = starstar)) with false. rewrite bool_decide_eq_true_2 by done.
    cbn [orb andb]. by apply Hnext.
  - change (rdn (starstar ++ after_key [] (0 :: r)) 0) with (Ret (chr "*")). cbn [mbind outcome_bind].
    rewrite Z.eqb_refl, rdn_name by done. done.
Qed.

(** C15: for a well-formed pattern and the name of a node, [cf_om_match] is
    matching component by component: a star matches any one component, two
    stars at the end match the one or more components that are left. *)
Theorem cf_om_match_glob (n : cf_om_node) (ps ks : list (list Z)) (r : list Z) :
  om_wf ks n -> valid_path ks -> ks <> [] -> ps <> [] -> Forall no_dot ps ->
  all_ok valid_pattern ps = true ->
  cf_om_match (join_dot ps ++ 0 :: r) (Some n) = Ret (if glob ps ks then 1 else 0).
Proof.
  intros Hn Hks Hkne Hne Hnd Hps. inversion Hn as [? ? Hname]; subst.
  unfold name_ok in Hname. destruct (list.last ks) as [x|] eqn:El; [|by apply last_None in El].
  destruct Hname as (rest & Hf & _). unfold cf_om_match. rewrite Hf.
  assert (pos_chars (join_dot ps)) as Hpp by (by apply patterns_pos).
  assert (forall l, pos_chars l -> no_nul l) as Hnn.
  { intros l Hl. eapply List.Forall_impl; [|exact Hl]. intros a Ha E. simpl in Ha. lia. }
  assert (exists c q, join_dot ps ++ 0 :: r = c :: q /\ 0 < c) as (c & q & E & Hc).
  { destruct ps as [|p ps]; [done|]. cbn [all_ok] in Hps. apply andb_true_iff in Hps as [Hp _].
    apply valid_pattern_len in Hp. rewrite join_after. destruct p as [|c p]; [done|]. exists c, (p ++ after_key ps (0 :: r)).
    split; [done|]. destruct ps; [|rewrite join_dot_cons in Hpp; cbn [app] in Hpp]; by apply Forall_cons_iff in Hpp as [? _]. }
  assert (rd (join_dot ps ++ 0 :: r) = Ret c) as -> by (by rewrite E). cbn [mbind outcome_bind].
  destruct (Z.eqb_spec c 0); [lia|]. rewrite (strlen_nul (join_dot ps)) by auto.
  cbn [mbind outcome_bind]. rewrite (strlen_nul (join_dot ks)) by (by apply Hnn, join_pos).
  cbn [mbind outcome_bind]. pose proof (join_len_ge ps).
  pose proof (match_loop_spec ps [] [] ks None 0 (S (S (Z.to_nat (zlen (join_dot ps))))) r rest) as Hl.
  replace (name_pos [] ps) with 0 in Hl by (by destruct ps).
  replace (name_pos [] ks) with 0 in Hl by (by destruct ks).
  apply Hl; [done|done|done|lia|done].
Qed.

Lemma cf_om_match_glob_witness :
  valid_path [zs "abc"] /\ cf_om_match (zs "*" ++ [0]) (Some demo_leaf) = Ret 1 /\
  cf_om_match (zs "abd.*" ++ [0]) (Some demo_leaf) = Ret 0.
Proof.
  assert (valid_path [zs "abc"]) as H by (by repeat constructor). split; [exact H|].
  split; [apply (cf_om_match_glob demo_leaf [zs "*"] [zs "abc"] [] demo_leaf_wf H)
         |apply (cf_om_match_glob demo_leaf [zs "abd"; zs "*"] [zs "abc"] [] demo_leaf_wf H)];
    (discriminate || by repeat constructor).
Defined.
