(* ===== verification/ConfOmIter.v ===== *)
(** * Iterating over a configuration tree

    The loop [for (cf_om_iter_start(&it, root); it.node; cf_om_iter_next(&it))]
    visits the nodes in preorder, as long as the tree fits the iterator's stack. *)

From Stdlib Require Import ZArith Lia Ascii String Sorted.
From stdpp Require Import base tactics list numbers.
From S2P Require Import Prelude Cstring ConfOm ConfOmFacts ConfOmTree ConfOmWf.

Local Open Scope Z_scope.

(** The nodes the loop body sees; [fuel] is at least their number. *)
Fixpoint iterate (fuel : nat) (it : cf_om_iterator) : outcome (list cf_om_node) :=
  match it_node it with
  | None => Ret []
  | Some n =>
      match fuel with
      | O => Undef
      | S fuel => '(_, it) ← cf_om_iter_next it; r ← iterate fuel it; Ret (n :: r)
      end
  end.

Fixpoint preorder (n : cf_om_node) : list cf_om_node :=
  match n with
  | OmNode _ _ _ _ _ v =>
      n :: flat_map (fun o => match o with Some c => preorder c | None => [] end) v
  end.
Definition vpreorder (v : list (option cf_om_node)) : list cf_om_node :=
  flat_map (fun o => match o with Some c => preorder c | None => [] end) v.

Fixpoint om_height (n : cf_om_node) : nat :=
  match n with
  | OmNode _ _ _ _ _ v =>
      foldr Nat.max 0%nat (map (fun o => match o with Some c => S (om_height c) | None => 0%nat end) v)
  end.

Lemma preorder_nodv n : preorder n = n :: vpreorder (nodv n).
Proof. by destruct n. Qed.

Lemma om_height_child n c : Some c ∈ nodv n -> (S (om_height c) <= om_height n)%nat.
Proof.
  destruct n as [s l f k t v]. cbn [nodv om_height]. induction v as [|o v IH]; [by intros ?%not_elem_of_nil|].
  intros [<-|Hc]%elem_of_cons; simpl; [lia|]. apply IH in Hc. simpl in Hc. lia.
Qed.

Lemma om_size_child n c : Some c ∈ nodv n -> (om_size c < om_size n)%nat.
Proof.
  rewrite (om_size_nodv n). unfold vsize. induction (nodv n) as [|o v IH]; [by intros ?%not_elem_of_nil|].
  intros [<-|Hc]%elem_of_cons; simpl; [lia|]. apply IH in Hc. lia.
Qed.

Lemma preorder_size n : (length (preorder n) <= om_size n)%nat.
Proof.
  revert n. fix IH 1. intros [s l f k t v]. cbn [preorder om_size length]. apply le_n_S.
  induction v as [|[c|] v IHv]; simpl; [lia| |].
  - rewrite length_app. pose proof (IH c). lia.
  - lia.
Qed.

(** ** The stack *)

Abbreviation entry := (option cf_om_node * Z)%type.

Definition entry_rem (e : entry) : list cf_om_node :=
  match e.1 with Some p => vpreorder (drop (Z.to_nat e.2) (nodv p)) | None => [] end.

(** What is still to come, from the top entry down. *)
Definition remaining (es : list entry) : list cf_om_node := flat_map entry_rem (reverse es).

Lemma remaining_snoc es e : remaining (es ++ [e]) = entry_rem e ++ remaining es.
Proof. unfold remaining. by rewrite reverse_snoc. Qed.

Definition entry_ok (d : nat) (e : entry) : Prop :=
  exists n pre, e.1 = Some n /\ om_wf pre n /\ Z.of_nat (om_height n + d) < ITER_STACK /\
    Z.of_nat (om_size n) <= 2 ^ 30 /\ 0 <= e.2 <= nodc n.

Definition entries_ok (es : list entry) : Prop := forall d e, es !! d = Some e -> entry_ok d e.

Lemma entries_ok_snoc es e : entries_ok (es ++ [e]) <-> entries_ok es /\ entry_ok (length es) e.
Proof.
  split.
  - intros H. split.
    + intros d x Hd. apply H. rewrite lookup_app_l; [done|]. by eapply lookup_lt_Some.
    + apply H. by rewrite list_lookup_middle.
  - intros [H1 H2] d x [Hd|[? Hd]]%lookup_app_Some; [by apply H1|].
    apply list_lookup_singleton_Some in Hd as [Hd <-]. by replace d with (length es) by lia.
Qed.

(** The iterator stands at the node [n], whose children are all to come. *)
Definition stands (it : cf_om_iterator) (es : list entry) (n : cf_om_node) : Prop :=
  it_node it = Some n /\ sp it = zlen es /\
  exists junk, stack it = (es ++ [(Some n, 0)]) ++ junk /\ zlen (stack it) = ITER_STACK /\
               entries_ok (es ++ [(Some n, 0)]).

(** What [cf_om_iter_next] does: the next node, or none. *)
Definition next_post (it : cf_om_iterator) (rem : list cf_om_node) : Prop :=
  match it_node it with
  | None => rem = []
  | Some c => exists es, stands it es c /\ rem = c :: remaining (es ++ [(Some c, 0)])
  end.

Lemma stack_top (es : list entry) e junk : ((es ++ [e]) ++ junk) @@ zlen es = Some e.
Proof. by rewrite <- app_assoc, zlookup_app_len. Qed.

Lemma stack_put_mid es e e' junk :
  stack_put (zlen es) e' ((es ++ [e]) ++ junk) = Ret ((es ++ [e']) ++ junk).
Proof.
  unfold stack_put. pose proof (zlen_nonneg es). pose proof (zlen_nonneg junk).
  rewrite (proj2 (Z.leb_le _ _)), (proj2 (Z.ltb_lt _ _))
    by (rewrite ?zlen_app; change (zlen [e]) with 1; lia).
  cbn [andb]. f_equal. rewrite <- !app_assoc.
  replace (Z.to_nat (zlen es)) with (length es + 0)%nat by (unfold zlen; lia). by rewrite insert_app_r.
Qed.

Lemma vpreorder_drop v i c :
  v @@ i = Some (Some c) ->
  vpreorder (drop (Z.to_nat i) v) = preorder c ++ vpreorder (drop (Z.to_nat (i + 1)) v).
Proof.
  intros Hi. pose proof (zlookup_Some_lt _ _ _ Hi). unfold zlookup in Hi. destruct (i <? 0); [done|].
  rewrite (drop_S _ _ _ Hi). by replace (Z.to_nat (i + 1)) with (S (Z.to_nat i)) by lia.
Qed.

(** One child further down. *)
Lemma iter_push fuel es p i node c junk :
  entries_ok (es ++ [(Some p, i)]) -> nodv p @@ i = Some (Some c) ->
  zlen ((es ++ [(Some p, i)]) ++ junk) = ITER_STACK ->
  exists it, iter_loop (S fuel) (Iter node (zlen es) ((es ++ [(Some p, i)]) ++ junk)) = Ret (0, it) /\
             next_post it (remaining (es ++ [(Some p, i)])).
Proof.
  intros Hok Hc Hlen. pose proof (zlookup_Some_lt _ _ _ Hc) as Hi.
  apply entries_ok_snoc in Hok as [Hes (n & pre & [= <-] & Hn & Hh & Hsz & _)].
  assert (Some c ∈ nodv p) as Hin.
  { unfold zlookup in Hc. destruct (i <? 0); [done|]. by eapply list_elem_of_lookup_2. }
  pose proof (om_height_child p c Hin). pose proof (om_size_child p c Hin).
  inversion Hn as [? ? _ _ _ _ Hcw]; subst.
  assert (i + 1 <= 2 ^ 30) as Hmax.
  { pose proof (vsize_length (nodv p)). rewrite om_size_nodv in Hsz. unfold zlen in Hi. lia. }
  cbn [iter_loop stack sp]. rewrite stack_top. cbn [or_undef mbind outcome_bind]. rewrite stack_put_mid. cbn [mbind outcome_bind].
  unfold nodc. rewrite (proj2 (Z.ltb_lt _ _)) by lia. rewrite Hc. cbn [or_undef mbind outcome_bind].
  rewrite (uN_small 32 (i + 1)) by lia.
  assert (1 + zlen es < ITER_STACK) as Hroom by (unfold zlen, ITER_STACK in *; lia).
  rewrite !zlen_app in Hlen. change (zlen [(Some p, i)]) with 1 in Hlen.
  rewrite (proj2 (Z.leb_gt _ _)) by (rewrite !zlen_app; change (zlen [(Some p, i + 1)]) with 1; lia).
  destruct junk as [|e junk]; [change (zlen (@nil entry)) with 0 in Hlen; lia|].
  replace ((es ++ [(Some p, i + 1)]) ++ e :: junk) with (((es ++ [(Some p, i + 1)]) ++ [e]) ++ junk)
    by (by rewrite <- !app_assoc).
  replace (zlen es + 1) with (zlen (es ++ [(Some p, i + 1)])) by (rewrite zlen_app; done).
  rewrite stack_put_mid. cbn [mbind outcome_bind]. eexists. split; [done|]. cbn [next_post it_node].
  exists (es ++ [(Some p, i + 1)]). split.
  - split; [done|]. split; [done|]. exists junk. split; [done|]. split.
    { cbn [stack]. rewrite !zlen_app. rewrite zlen_cons in Hlen.
      change (zlen [(Some p, i + 1)]) with 1. change (zlen [(Some c, 0)]) with 1. lia. }
    apply entries_ok_snoc. split; [apply entries_ok_snoc; split; [done|]|].
    + exists p, pre. unfold nodc. cbn [fst snd]. split_and!; [done|exact Hn|done|done|lia|lia].
    + exists c, (pre ++ [key_bytes c]). rewrite length_app. cbn [fst snd length].
      split_and!; [done|by apply Hcw|lia|lia|lia|apply zlen_nonneg].
  - rewrite !remaining_snoc. unfold entry_rem. cbn [fst snd]. rewrite (vpreorder_drop _ _ _ Hc).
    rewrite preorder_nodv. cbn [app Z.to_nat]. rewrite drop_0, app_assoc. done.
Qed.

Lemma iter_loop_spec es : forall p i node junk fuel,
  entries_ok (es ++ [(Some p, i)]) -> zlen ((es ++ [(Some p, i)]) ++ junk) = ITER_STACK ->
  (length es < fuel)%nat ->
  exists it, iter_loop fuel (Iter node (zlen es) ((es ++ [(Some p, i)]) ++ junk)) = Ret (0, it) /\
             next_post it (remaining (es ++ [(Some p, i)])).
Proof.
  induction es as [|[p' i'] es IH] using rev_ind; intros p i node junk fuel Hok Hlen Hf;
    (destruct fuel as [|fuel]; [lia|]); pose proof Hok as [Hes (n & pre & [= <-] & Hn & _ & _ & Hi)]%entries_ok_snoc;
    cbn [snd] in Hi.
  all: destruct (Z.ltb_spec i (nodc p)) as [Hlt|Hge].
  1, 3: destruct (zlookup_lt i (nodv p)) as [o Ho]; [unfold nodc in *; lia|];
    inversion Hn as [? ? _ _ Hsome _ _]; subst; rewrite list.Forall_forall in Hsome;
    destruct (Hsome o) as [c ->]; [unfold zlookup in Ho; destruct (i <? 0); [done|]; by eapply list_elem_of_lookup_2|];
    by eapply iter_push.
  all: assert (entry_rem (Some p, i) = []) as Hrem
    by (unfold entry_rem; cbn [fst snd]; rewrite drop_ge; [done | unfold nodc, zlen in *; lia]).
  all: cbn [iter_loop stack sp]; rewrite stack_top; cbn [or_undef mbind outcome_bind]; rewrite stack_put_mid; cbn [mbind outcome_bind];
    rewrite (proj2 (Z.ltb_ge i _)) by lia; rewrite remaining_snoc, Hrem.
  - change (zlen (@nil entry)) with 0. cbn [Z.eqb negb]. eexists. by split.
  - rewrite zlen_app. change (zlen [(p', i')]) with 1. pose proof (zlen_nonneg es).
    destruct (Z.eqb_spec (zlen es + 1) 0); [lia|]. cbn [negb it_node app]. rewrite Z.add_simpl_r.
    rewrite length_app in Hf. simpl in Hf.
    pose proof Hes as [_ (n' & pre' & E & _)]%entries_ok_snoc. cbn [fst] in E. subst p'.
    rewrite <- (app_assoc (es ++ _)). apply IH; [done| |lia].
    rewrite !zlen_app in *. change (zlen [(Some p, u32 (i + 1))]) with (zlen [(Some p, i)]). lia.
Qed.

Lemma iter_next_spec it es n :
  stands it es n ->
  exists it', cf_om_iter_next it = Ret (0, it') /\ next_post it' (remaining (es ++ [(Some n, 0)])).
Proof.
  intros (Hnode & Hsp & junk & Hst & Hlen & Hok). unfold cf_om_iter_next. rewrite Hnode.
  destruct it as [node s st]. cbn [sp stack it_node] in *. subst s st.
  apply iter_loop_spec; [done|done|unfold zlen; lia].
Qed.

Lemma iterate_spec fuel : forall it es n,
  stands it es n -> (length (remaining (es ++ [(Some n, 0%Z)])) < fuel)%nat ->
  iterate fuel it = Ret (n :: remaining (es ++ [(Some n, 0)])).
Proof.
  induction fuel as [|fuel IH]; intros it es n Hst Hf; [lia|]. cbn [iterate].
  destruct (iter_next_spec it es n Hst) as (it' & -> & Hpost). destruct Hst as (-> & _).
  cbn [mbind outcome_bind]. unfold next_post in Hpost. destruct (it_node it') as [c|] eqn:Ec.
  - destruct Hpost as (es' & Hst' & Hrem). rewrite Hrem in *. simpl in Hf.
    rewrite (IH it' es' c) by (done || lia). done.
  - rewrite Hpost. destruct fuel; cbn [iterate]; by rewrite Ec.
Qed.

(** C16: the loop over [cf_om_iter_next] ends and visits exactly the nodes of a
    well-formed tree, each once, in preorder, when no node lies more than 19
    levels below the root. *)
Theorem cf_om_iter_preorder (n : cf_om_node) (stack0 : list entry) :
  om_wf [] n -> Z.of_nat (om_height n) < ITER_STACK -> Z.of_nat (om_size n) <= 2 ^ 30 ->
  zlen stack0 = ITER_STACK ->
  iterate (om_size n) (cf_om_iter_start stack0 (Some n)) = Ret (preorder n).
Proof.
  intros Hn Hh Hsz Hlen. destruct stack0 as [|e junk]; [done|].
  rewrite (iterate_spec _ _ [] n).
  - rewrite remaining_snoc, preorder_nodv. unfold entry_rem, remaining. cbn. by rewrite app_nil_r.
  - split; [done|]. split; [done|]. exists junk. split; [done|]. split; [done|].
    apply (entries_ok_snoc []). split; [by intros d x Hx|].
    exists n, []. cbn [length fst snd]. rewrite Nat.add_0_r. split_and!; [done|exact Hn|done|done|lia|apply zlen_nonneg].
  - rewrite remaining_snoc. unfold entry_rem, remaining. cbn. rewrite app_nil_r.
    pose proof (preorder_size n) as Hp. rewrite preorder_nodv in Hp. simpl in Hp. exact Hp.
Qed.

(** The guard against a full stack comes one entry too late: at a node 19
    levels down that has children, [cf_om_iter_next] stores outside the stack. *)
Theorem cf_om_iter_overflow (it : cf_om_iterator) (n c : cf_om_node) (v : list (option cf_om_node)) :
  it_node it = Some n -> sp it = 19 -> zlen (stack it) = ITER_STACK -> stack it @@ 19 = Some (Some n, 0) ->
  nodv n = Some c :: v ->
  cf_om_iter_next it = Undef.
Proof.
  intros Hn Hsp Hlen Htop Hv. unfold cf_om_iter_next. rewrite Hn.
  generalize (Z.to_nat (sp it)) as fuel. intros fuel. cbn [iter_loop].
  rewrite Hsp, Htop. cbn [or_undef mbind outcome_bind]. unfold stack_put. rewrite Hlen.
  change ((0 <=? 19) && (19 <? ITER_STACK)) with true. cbn [mbind outcome_bind].
  unfold nodc. rewrite Hv, zlen_cons. pose proof (zlen_nonneg v). rewrite (proj2 (Z.ltb_lt _ _)) by lia.
  rewrite zlookup_cons_0. cbn [or_undef mbind outcome_bind].
  assert (zlen (<[Z.to_nat 19 := (Some n, u32 (0 + 1))]> (stack it)) = ITER_STACK) as Hl
    by (unfold zlen in *; by rewrite length_insert).
  rewrite Hl. change (ITER_STACK <=? 19) with false. done.
Qed.

Lemma cf_om_iter_preorder_witness :
  Z.of_nat (om_height demo_root) < ITER_STACK /\
  iterate 2 (cf_om_iter_start (replicate 20 (None, 0)) (Some demo_root)) = Ret [demo_root; demo_leaf].
Proof.
  split; [by vm_compute|].
  exact (cf_om_iter_preorder demo_root (replicate 20 (None, 0)) demo_root_wf
           ltac:(by vm_compute) ltac:(by vm_compute) eq_refl).
Defined.

Lemma cf_om_iter_overflow_witness :
  let it := Iter (Some demo_root) 19 (replicate 19 (None, 0) ++ [(Some demo_root, 0)]) in
  zlen (stack it) = ITER_STACK /\ cf_om_iter_next it = Undef.
Proof.
  intros it. split; [reflexivity|].
  exact (cf_om_iter_overflow it demo_root demo_leaf [] eq_refl eq_refl eq_refl eq_refl eq_refl).
Defined.
