(* ===== verification/Linked.v ===== *)
(** * Linked lists in a map of objects

    Objects of a type [T] are named by their address, a [nat].  A segment of a
    list follows one of the links of the objects from a pointer; [backs] says
    where the links in the other direction point. *)

From stdpp Require Import base tactics list fin_maps gmap.
From Stdlib Require Import ZArith Lia.
From S2P Require Import Prelude.

(** ** Segments *)

(** Following [nx] from [h] passes the objects [l] and arrives at [t]. *)
Fixpoint seg {T} (nx : T -> option nat) (m : gmap nat T) (h : option nat) (l : list nat) (t : option nat) : Prop :=
  match l with
  | [] => h = t
  | p :: l => h = Some p /\ exists e, m !! p = Some e /\ seg nx m (nx e) l t
  end.

Section seg.
Context {T : Type} (nx : T -> option nat).
Implicit Types m : gmap nat T.

Lemma seg_app m h l1 l2 t : seg nx m h (l1 ++ l2) t <-> exists u, seg nx m h l1 u /\ seg nx m u l2 t.
Proof.
  revert h. induction l1 as [|p l1 IH]; intros h; simpl.
  - split; [by exists h|]. by intros (u & -> & ?).
  - split.
    + intros (-> & e & He & (u & ? & ?)%IH). exists u. eauto 10.
    + intros (u & (-> & e & He & ?) & ?). split; [done|]. exists e. split; [done|]. apply IH. eauto.
Qed.

Lemma seg_snoc m h l q t :
  seg nx m h (l ++ [q]) t <-> seg nx m h l (Some q) /\ exists e, m !! q = Some e /\ nx e = t.
Proof.
  rewrite seg_app. split.
  - intros (u & ? & -> & e & ? & E). simpl in E. eauto.
  - intros (? & e & ? & ?). exists (Some q). simpl. eauto.
Qed.

Lemma seg_insert_ne m h l t p e : p ∉ l -> seg nx (<[p := e]> m) h l t <-> seg nx m h l t.
Proof.
  revert h. induction l as [|q l IH]; intros h Hp; [done|]. apply not_elem_of_cons in Hp as [Hne Hp]. simpl.
  rewrite lookup_insert_ne by done. by setoid_rewrite (IH _ Hp).
Qed.

Lemma seg_dom m h l t : seg nx m h l t -> Forall (fun p => is_Some (m !! p)) l.
Proof.
  revert h. induction l as [|p l IH]; intros h; simpl; [constructor|].
  intros (_ & e & He & Hs). constructor; [by exists e|by eapply IH].
Qed.

(** Maps with the same links. *)
Lemma seg_ext m m' h l t :
  (forall p e, m !! p = Some e -> p ∈ l -> exists e', m' !! p = Some e' /\ nx e' = nx e) ->
  seg nx m h l t -> seg nx m' h l t.
Proof.
  revert h. induction l as [|p l IH]; intros h Hm; simpl; [done|].
  intros (-> & e & He & Hs). split; [done|].
  destruct (Hm p e He) as (e' & He' & Hn); [apply list_elem_of_here|]. exists e'. split; [done|].
  rewrite Hn. apply IH; [|done]. intros q x Hq Hin. apply Hm; [done|]. by apply list_elem_of_further.
Qed.

(** A list without repetition is no longer than the number of objects. *)
Lemma seg_length m h l t : NoDup l -> seg nx m h l t -> (length l <= size m)%nat.
Proof.
  intros Hnd Hs%seg_dom. rewrite <- size_dom, <- (size_list_to_set (C := gset nat)) by done.
  apply subseteq_size. intros p Hp%elem_of_list_to_set. apply elem_of_dom.
  by eapply (proj1 (list.Forall_forall _ _) Hs).
Qed.
End seg.

(** The slot that points to what comes after [l], from the slot [i]. *)
Definition after (i : option nat) (l : list nat) : option nat :=
  match list.last l with Some p => Some p | None => i end.

Lemma after_cons i p l : after i (p :: l) = after (Some p) l.
Proof. unfold after. rewrite list.last_cons. by destruct (list.last l). Qed.

(** The back links [pv] of the objects [l], the first of which points to [i]. *)
Fixpoint backs {T} (pv : T -> option nat) (m : gmap nat T) (i : option nat) (l : list nat) : Prop :=
  match l with
  | [] => True
  | p :: l => (exists e, m !! p = Some e /\ pv e = i) /\ backs pv m (Some p) l
  end.

Section backs.
Context {T : Type} (pv : T -> option nat).
Implicit Types m : gmap nat T.

Lemma backs_app m i l1 l2 : backs pv m i (l1 ++ l2) <-> backs pv m i l1 /\ backs pv m (after i l1) l2.
Proof.
  revert i. induction l1 as [|p l1 IH]; intros i; simpl; [done || tauto|].
  rewrite after_cons. rewrite IH. tauto.
Qed.

Lemma backs_ext m m' i l :
  (forall p e, m !! p = Some e -> p ∈ l -> exists e', m' !! p = Some e' /\ pv e' = pv e) ->
  backs pv m i l -> backs pv m' i l.
Proof.
  revert i. induction l as [|p l IH]; intros i Hm; simpl; [done|].
  intros ((e & He & Hi) & Hl). split.
  - destruct (Hm p e He) as (e' & He' & Hn); [apply list_elem_of_here|]. exists e'. split; [done|congruence].
  - apply IH; [|done]. intros q x Hq Hin. apply Hm; [done|]. by apply list_elem_of_further.
Qed.
End backs.
