(* ===== verification/FdQueue.v ===== *)
(** * The event loop (fdqueue.c)

    Alarms are objects of [struct sched_ent] that the rest of the daemon owns;
    they are named by their address (a [nat]) and stored in [ents].  An alarm
    waits in the list [run_soon], ordered by the time it may run after, and in
    the doubly linked [wake_list], ordered by the time the process has to wake
    up for it, until it is moved to [run_now], ordered by deadline.  Files are
    watched through the table [fds] that is handed to [poll] and the parallel
    table [fd_callbacks].

    The clock, [poll], [set_nonblock] and [set_block] are parameters, and so is
    what the functions of the alarms do: a computation over the whole state,
    which may schedule, unschedule, watch and unwatch.  A fatal error is
    [Abort].  Profiling and messages to the log are left out. *)

From stdpp Require Import base tactics list fin_maps gmap.
From Stdlib Require Import ZArith Lia.
From S2P Require Import Prelude.

Local Open Scope Z_scope.

Definition TIME_MS_NEVER_WILL : Z := 2 ^ 63 - 1.
Definition MAX_WATCHED_FDS : Z := 128.
Definition POLLERR : Z := 8.

Record pollfd : Type := PollFd { fd : Z; events : Z; revents : Z }.
Definition set_revents (n : Z) (p : pollfd) : pollfd := PollFd (fd p) (events p) n.
Definition set_fd (n : Z) (p : pollfd) : pollfd := PollFd n (events p) (revents p).

(** [function] is whether the pointer is set. *)
Record sched_ent : Type := SchedEnt {
  _next_wake : option nat;
  _prev_wake : option nat;
  _next_run : option nat;
  _scheduled : bool;
  function : bool;
  poll : pollfd;
  run_after : Z;
  wake_at : Z;
  run_before : Z;
  alarm : Z;
  deadline : Z;
  _poll_index : Z
}.
Definition set_next_wake (p : option nat) (e : sched_ent) : sched_ent :=
  SchedEnt p (_prev_wake e) (_next_run e) (_scheduled e) (function e) (poll e) (run_after e)
           (wake_at e) (run_before e) (alarm e) (deadline e) (_poll_index e).
Definition set_prev_wake (p : option nat) (e : sched_ent) : sched_ent :=
  SchedEnt (_next_wake e) p (_next_run e) (_scheduled e) (function e) (poll e) (run_after e)
           (wake_at e) (run_before e) (alarm e) (deadline e) (_poll_index e).
Definition set_next_run (p : option nat) (e : sched_ent) : sched_ent :=
  SchedEnt (_next_wake e) (_prev_wake e) p (_scheduled e) (function e) (poll e) (run_after e)
           (wake_at e) (run_before e) (alarm e) (deadline e) (_poll_index e).
Definition set_scheduled (b : bool) (e : sched_ent) : sched_ent :=
  SchedEnt (_next_wake e) (_prev_wake e) (_next_run e) b (function e) (poll e) (run_after e)
           (wake_at e) (run_before e) (alarm e) (deadline e) (_poll_index e).
Definition set_poll (p : pollfd) (e : sched_ent) : sched_ent :=
  SchedEnt (_next_wake e) (_prev_wake e) (_next_run e) (_scheduled e) (function e) p (run_after e)
           (wake_at e) (run_before e) (alarm e) (deadline e) (_poll_index e).
Definition set_run_after (t : Z) (e : sched_ent) : sched_ent :=
  SchedEnt (_next_wake e) (_prev_wake e) (_next_run e) (_scheduled e) (function e) (poll e) t
           (wake_at e) (run_before e) (alarm e) (deadline e) (_poll_index e).
Definition set_wake_run (wake before : Z) (e : sched_ent) : sched_ent :=
  SchedEnt (_next_wake e) (_prev_wake e) (_next_run e) (_scheduled e) (function e) (poll e)
           (run_after e) wake before (alarm e) (deadline e) (_poll_index e).
Definition set_poll_index (i : Z) (e : sched_ent) : sched_ent :=
  SchedEnt (_next_wake e) (_prev_wake e) (_next_run e) (_scheduled e) (function e) (poll e)
           (run_after e) (wake_at e) (run_before e) (alarm e) (deadline e) i.

(** The variables of the module, the alarms, the trace of the alarms called with
    their events, and the number of calls to the system so far. *)
Record fq_state : Type := FQState {
  ents : gmap nat sched_ent;
  run_now : option nat;
  run_soon : option nat;
  wake_list : option nat;
  fds : list pollfd;
  fd_callbacks : list (option nat);
  fdcount : Z;
  called : list (nat * Z);
  syscalls : nat
}.
Definition set_ents (m : gmap nat sched_ent) (s : fq_state) : fq_state :=
  FQState m (run_now s) (run_soon s) (wake_list s) (fds s) (fd_callbacks s) (fdcount s) (called s) (syscalls s).
Definition set_run_now (p : option nat) (s : fq_state) : fq_state :=
  FQState (ents s) p (run_soon s) (wake_list s) (fds s) (fd_callbacks s) (fdcount s) (called s) (syscalls s).
Definition set_run_soon (p : option nat) (s : fq_state) : fq_state :=
  FQState (ents s) (run_now s) p (wake_list s) (fds s) (fd_callbacks s) (fdcount s) (called s) (syscalls s).
Definition set_wake_list (p : option nat) (s : fq_state) : fq_state :=
  FQState (ents s) (run_now s) (run_soon s) p (fds s) (fd_callbacks s) (fdcount s) (called s) (syscalls s).
Definition set_fds (l : list pollfd) (s : fq_state) : fq_state :=
  FQState (ents s) (run_now s) (run_soon s) (wake_list s) l (fd_callbacks s) (fdcount s) (called s) (syscalls s).
Definition set_callbacks (l : list (option nat)) (s : fq_state) : fq_state :=
  FQState (ents s) (run_now s) (run_soon s) (wake_list s) (fds s) l (fdcount s) (called s) (syscalls s).
Definition set_fdcount (n : Z) (s : fq_state) : fq_state :=
  FQState (ents s) (run_now s) (run_soon s) (wake_list s) (fds s) (fd_callbacks s) n (called s) (syscalls s).
Definition add_called (c : nat * Z) (s : fq_state) : fq_state :=
  FQState (ents s) (run_now s) (run_soon s) (wake_list s) (fds s) (fd_callbacks s) (fdcount s)
          (called s ++ [c]) (syscalls s).
Definition tick (s : fq_state) : fq_state :=
  FQState (ents s) (run_now s) (run_soon s) (wake_list s) (fds s) (fd_callbacks s) (fdcount s) (called s)
          (S (syscalls s)).

(** ** The monad *)

Definition FQ (A : Type) : Type := fq_state -> outcome (A * fq_state).
Global Instance FQ_ret : MRet FQ := fun A a s => Ret (a, s).
Global Instance FQ_bind : MBind FQ := fun A B f m s => '(a, s) ← m s; f a s.
Definition flift {A} (m : outcome A) : FQ A := fun s => a ← m; Ret (a, s).
Definition fget {A} (f : fq_state -> A) : FQ A := fun s => Ret (f s, s).
Definition fmodify (f : fq_state -> fq_state) : FQ unit := fun s => Ret (tt, f s).

(** [*p], and an assignment to a field of it. *)
Definition ent (p : nat) : FQ sched_ent := fun s => e ← or_undef (ents s !! p); Ret (e, s).
Definition ent_set (p : nat) (f : sched_ent -> sched_ent) : FQ unit :=
  e ← ent p; fmodify (fun s => set_ents (<[p := f e]> (ents s)) s).

(** [fds[i]] and [fd_callbacks[i]]. *)
Definition fds_get (i : Z) : FQ pollfd := l ← fget fds; flift (or_undef (l @@ i)).
Definition fds_put (i : Z) (p : pollfd) : FQ unit :=
  fds_get i;; fmodify (fun s => set_fds (<[Z.to_nat i := p]> (fds s)) s).
Definition callback_get (i : Z) : FQ (option nat) := l ← fget fd_callbacks; flift (or_undef (l @@ i)).
Definition callback_put (i : Z) (p : option nat) : FQ unit :=
  callback_get i;; fmodify (fun s => set_callbacks (<[Z.to_nat i := p]> (fd_callbacks s)) s).

(** ** The lists *)

Inductive run_list : Type := RunNow | RunSoon.

(** [struct sched_ent **list]: the variable ([None]) or [&p->_next_run]. *)
Definition run_slot_get (w : run_list) (slot : option nat) : FQ (option nat) :=
  match slot with
  | None => fget (match w with RunNow => run_now | RunSoon => run_soon end)
  | Some p => e ← ent p; mret (_next_run e)
  end.
Definition run_slot_put (w : run_list) (slot q : option nat) : FQ unit :=
  match slot with
  | None => fmodify (match w with RunNow => set_run_now q | RunSoon => set_run_soon q end)
  | Some p => ent_set p (set_next_run q)
  end.

(** The loops follow a list, which holds no alarm twice. *)
Fixpoint run_seek (fuel : nat) (w : run_list) (stop : sched_ent -> bool) (slot : option nat)
    : FQ (option nat) :=
  match fuel with
  | O => flift Undef
  | S fuel =>
      q ← run_slot_get w slot;
      match q with
      | None => mret slot
      | Some p => e ← ent p; if stop e then mret slot else run_seek fuel w stop (Some p)
      end
  end.

Definition insert_run (w : run_list) (time : sched_ent -> Z) (p : nat) : FQ unit :=
  e ← ent p;
  n ← fget (fun s => size (ents s));
  slot ← run_seek (S n) w (fun x => time e <? time x) None;
  q ← run_slot_get w slot;
  ent_set p (set_next_run q);;
  run_slot_put w slot (Some p).
Definition insert_run_now : nat -> FQ unit := insert_run RunNow run_before.
Definition insert_run_soon : nat -> FQ unit := insert_run RunSoon run_after.

Fixpoint remove_loop (fuel : nat) (w : run_list) (p : nat) (slot : option nat) : FQ unit :=
  match fuel with
  | O => flift Undef
  | S fuel =>
      q ← run_slot_get w slot;
      match q with
      | None => mret tt
      | Some x =>
          if Nat.eqb x p then
            e ← ent p;
            run_slot_put w slot (_next_run e);;
            ent_set p (set_next_run None)
          else remove_loop fuel w p (Some x)
      end
  end.
Definition remove_run_list (p : nat) (w : run_list) : FQ unit :=
  n ← fget (fun s => size (ents s)); remove_loop (S n) w p None.

(** [last] and [list] of [insert_wake_list] as one: the variable or
    [&last->_next_wake]. *)
Definition wake_slot_get (slot : option nat) : FQ (option nat) :=
  match slot with
  | None => fget wake_list
  | Some p => e ← ent p; mret (_next_wake e)
  end.
Definition wake_slot_put (slot q : option nat) : FQ unit :=
  match slot with
  | None => fmodify (set_wake_list q)
  | Some p => ent_set p (set_next_wake q)
  end.
Fixpoint wake_seek (fuel : nat) (t : Z) (last : option nat) : FQ (option nat) :=
  match fuel with
  | O => flift Undef
  | S fuel =>
      q ← wake_slot_get last;
      match q with
      | None => mret last
      | Some p => e ← ent p; if t <? wake_at e then mret last else wake_seek fuel t (Some p)
      end
  end.

Definition insert_wake_list (p : nat) : FQ unit :=
  e ← ent p;
  if wake_at e =? TIME_MS_NEVER_WILL then mret tt
  else
    n ← fget (fun s => size (ents s));
    last ← wake_seek (S n) (wake_at e) None;
    q ← wake_slot_get last;
    ent_set p (set_next_wake q);;
    (match q with Some x => ent_set x (set_prev_wake (Some p)) | None => mret tt end);;
    ent_set p (set_prev_wake last);;
    wake_slot_put last (Some p).

Definition remove_wake_list (p : nat) : FQ unit :=
  e ← ent p;
  (match _prev_wake e with
   | Some x => ent_set x (set_next_wake (_next_wake e))
   | None => w ← fget wake_list;
             if bool_decide (w = Some p) then fmodify (set_wake_list (_next_wake e)) else mret tt
   end);;
  (match _next_wake e with
   | Some x => ent_set x (set_prev_wake (_prev_wake e))
   | None => mret tt
   end);;
  ent_set p (set_prev_wake None);;
  ent_set p (set_next_wake None).

(** ** Scheduling *)

Definition is_scheduled (p : nat) : FQ bool := e ← ent p; mret (_scheduled e).

Definition _schedule (p : nat) : FQ unit :=
  ent_set p (fun e => set_wake_run (alarm e) (deadline e) e);;
  ent_set p (fun e => if (run_after e =? TIME_MS_NEVER_WILL) || (run_after e =? 0)
                      then set_run_after (wake_at e) e else e);;
  e ← ent p;
  flift (cassert (run_after e <=? wake_at e));;
  flift (cassert (run_after e <=? run_before e));;
  flift (cassert (negb (_scheduled e)));;
  flift (cassert (function e));;
  if negb (run_after e =? TIME_MS_NEVER_WILL) then
    insert_wake_list p;;
    insert_run_soon p;;
    ent_set p (set_scheduled true)
  else mret tt.

Definition _unschedule (p : nat) : FQ unit :=
  b ← is_scheduled p;
  if negb b then mret tt
  else
    remove_run_list p RunNow;;
    remove_run_list p RunSoon;;
    remove_wake_list p;;
    ent_set p (set_scheduled false);;
    ent_set p (set_run_after TIME_MS_NEVER_WILL).

(** [RESCHEDULE] *)
Definition reschedule (p : nat) (after wait before : Z) : FQ unit :=
  _unschedule p;;
  ent_set p (fun e => SchedEnt (_next_wake e) (_prev_wake e) (_next_run e) (_scheduled e) (function e)
                        (poll e) after (wake_at e) (run_before e) wait before (_poll_index e));;
  _schedule p.

(** ** Watching *)

Definition _watch (p : nat) : FQ Z :=
  e ← ent p;
  flift (cassert (function e));;
  flift (cassert (negb (events (poll e) =? 0)));;
  same ← (if 0 <=? _poll_index e
          then c ← callback_get (_poll_index e); mret (bool_decide (c = Some p)) else mret false);
  full ← (if same : bool then mret false
          else
            n ← fget fdcount;
            if MAX_WATCHED_FDS <=? n then mret true
            else
              callback_put n (Some p);;
              ent_set p (fun e => set_poll (set_revents 0 (poll e)) e);;
              ent_set p (set_poll_index n);;
              fmodify (set_fdcount (n + 1));;
              mret false);
  if full : bool then mret (-1)
  else
    e ← ent p;
    fds_put (_poll_index e) (poll e);;
    mret 0.

Definition is_watching (p : nat) : FQ bool :=
  e ← ent p;
  if _poll_index e <? 0 then mret false
  else f ← fds_get (_poll_index e); mret (fd f =? fd (poll e)).

Definition _unwatch (p : nat) : FQ Z :=
  e ← ent p;
  let index := _poll_index e in
  same ← (if index <? 0 then mret false else f ← fds_get index; mret (fd f =? fd (poll e)));
  if negb same then mret (-1)
  else
    n ← fget fdcount;
    let n := n - 1 in
    fmodify (set_fdcount n);;
    (if negb (index =? n) then
       f ← fds_get n; fds_put index f;;
       c ← callback_get n; callback_put index c;;
       c ← flift (or_undef c); ent_set c (set_poll_index index)
     else mret tt);;
    f ← fds_get n; fds_put n (set_fd (-1) f);;
    callback_put n None;;
    ent_set p (set_poll_index (-1));;
    mret 0.

(** ** The loop *)
Section fd_poll.
(** What the function of an alarm does, and what the [k]th call to the system
    gives: the time, the result of [poll] and the events of the [i]th
    descriptor, whether [set_nonblock] leaves [errno] at [ENXIO], and the result
    of [set_block]. *)
Context (call : nat -> FQ unit) (clock : nat -> Z)
        (sys_poll : nat -> list pollfd -> Z -> Z * (nat -> Z))
        (nonblock_enxio : nat -> Z -> bool) (set_block : nat -> Z -> Z).

Definition gettime_ms : FQ Z := fun s => Ret (clock (syscalls s), tick s).

(** Moves the alarms that may run; one fewer is left in [run_soon] each round. *)
Fixpoint move_loop (fuel : nat) (now : Z) : FQ unit :=
  match fuel with
  | O => flift Undef
  | S fuel =>
      q ← fget run_soon;
      match q with
      | None => mret tt
      | Some p =>
          e ← ent p;
          if run_after e <=? now then
            fmodify (set_run_soon (_next_run e));;
            remove_wake_list p;;
            insert_run_now p;;
            move_loop fuel now
          else mret tt
      end
  end.
Definition move_run_list : FQ unit :=
  now ← gettime_ms; n ← fget (fun s => size (ents s)); move_loop (S n) now.

Definition call_alarm (p : option nat) (revents : Z) : FQ unit :=
  p ← flift (match p with Some p => Ret p | None => Abort end);
  ent_set p (fun e => set_poll (set_revents revents (poll e)) e);;
  fmodify (add_called (p, revents));;
  call p.

(** The first alarm of [run_now]. *)
Definition run_first (p : nat) : FQ unit :=
  e ← ent p;
  fmodify (set_run_now (_next_run e));;
  ent_set p (set_scheduled false);;
  ent_set p (set_run_after TIME_MS_NEVER_WILL);;
  call_alarm (Some p) 0.

(** [run_now && run_now->run_before <= gettime_ms()] *)
Definition overdue : FQ bool :=
  q ← fget run_now;
  match q with
  | None => mret false
  | Some p => e ← ent p; now ← gettime_ms; mret (run_before e <=? now)
  end.

(** [poll] stores the events of the first [fdcount] descriptors; its timeout is
    an [int]. *)
Definition poll_fds (ms : Z) : FQ Z := fun s =>
  let '(r, ev) := sys_poll (syscalls s) (take (Z.to_nat (fdcount s)) (fds s)) (s32 ms) in
  let l := imap (fun i p => if Z.of_nat i <? fdcount s then set_revents (ev i) p else p) (fds s) in
  Ret (r, set_fds l (tick s)).

(** The descriptors from [n - 1] down to 0. *)
Fixpoint io_loop (n : nat) : FQ unit :=
  match n with
  | O => mret tt
  | S n =>
      let i := Z.of_nat n in
      c ← callback_get i;
      match c with
      | None => io_loop n
      | Some p =>
          e ← ent p;
          f ← fds_get i;
          if (fd (poll e) =? fd f) && negb (revents f =? 0) then
            k ← fget syscalls; fmodify tick;;
            (if nonblock_enxio k (fd f) then fds_put i (set_revents (Z.lor (revents f) POLLERR) f)
             else mret tt);;
            g ← fds_get i;
            call_alarm (Some p) (revents g);;
            count ← fget fdcount;
            again ← (if i <? count then g ← fds_get i; mret (fd g =? fd f) else mret false);
            (if again : bool then
               k ← fget syscalls; fmodify tick;;
               flift (cassert (set_block k (fd f) =? 0))
             else mret tt);;
            io_loop n
          else io_loop n
      end
  end.

Definition fd_poll : FQ Z :=
  due ← overdue;
  first ← fget run_now;
  match due, first with
  | true, Some p => run_first p;; mret 1
  | _, _ =>
      wake ← fget wake_list;
      count ← fget fdcount;
      (* [None] to return 0 *)
      ms ← (match first, wake with
            | Some _, _ => mret (Some 0)
            | None, Some p =>
                e ← ent p; now ← gettime_ms; mret (Some (Z.max 0 (wake_at e - now)))
            | None, None => mret (if count =? 0 then None else Some (-1))
            end);
      match ms with
      | None => mret 0
      | Some ms =>
          r ← (if negb (count =? 0) || (0 <? ms) then
                 if count =? 0 then fmodify tick;; mret 0 else poll_fds ms
               else mret 0);
          move_run_list;;
          late ← (if negb (ms =? 0) then overdue else mret false);
          if late : bool then mret 1
          else
            (if 0 <? r then
               count ← fget fdcount;
               io_loop (Z.to_nat count);;
               move_run_list
             else
               first ← fget run_now;
               match first with Some p => run_first p | None => mret tt end);;
            mret 1
      end
  end.
End fd_poll.
