(* ===== verification/FdQueueLists.v ===== *)
(** * The event loop: linked lists of alarms

    The lists of fdqueue.c as sequences of alarms: a segment of a list follows
    one of the links from a pointer, and the operations that search, insert and
    remove are the corresponding operations on the sequence. *)

From stdpp Require Import base tactics list fin_maps gmap sorting.
From Stdlib Require Import ZArith Lia.
From S2P Require Import Prelude Linked FdQueue.

Local Open Scope Z_scope.

Abbreviation ent_map := (gmap nat sched_ent).
(** The back links of the wake list. *)
Abbreviation backs := (Linked.backs _prev_wake).
Abbreviation backs_app := (Linked.backs_app _prev_wake).
Abbreviation backs_ext := (Linked.backs_ext _prev_wake).
Implicit Types (m : ent_map) (s : fq_state).

(** ** The monad *)

Lemma FQ_bind_run {A B} (x : FQ A) (f : A -> FQ B) s :
  (x ≫= f) s = match x s with Ret (a, s') => f a s' | Abort => Abort | Undef => Undef end.
Proof. unfold mbind, FQ_bind, mbind, outcome_bind. by destruct (x s) as [[]| |]. Qed.

Lemma FQ_bind_Ret {A B} (x : FQ A) (f : A -> FQ B) s a s' : x s = Ret (a, s') -> (x ≫= f) s = f a s'.
Proof. intros E. by rewrite FQ_bind_run, E. Qed.

Lemma ent_run p e s : ents s !! p = Some e -> ent p s = Ret (e, s).
Proof. intros E. unfold ent. by rewrite E. Qed.

Lemma ent_set_run p f e s :
  ents s !! p = Some e -> ent_set p f s = Ret (tt, set_ents (<[p := f e]> (ents s)) s).
Proof. intros E. unfold ent_set. by erewrite FQ_bind_Ret by (by apply ent_run). Qed.

Definition key (time : sched_ent -> Z) m (p : nat) : Z := match m !! p with Some e => time e | None => 0 end.

(** Before the first alarm with a later time. *)
Fixpoint insert_by (k : nat -> Z) (p : nat) (l : list nat) : list nat :=
  match l with
  | [] => [p]
  | q :: l => if k p <? k q then p :: q :: l else q :: insert_by k p l
  end.

Lemma insert_by_split k p l1 l2 :
  Forall (fun q => k q <= k p) l1 -> match l2 with [] => True | q :: _ => k p < k q end ->
  insert_by k p (l1 ++ l2) = l1 ++ p :: l2.
Proof.
  intros H1 H2. induction l1 as [|q l1 IH]; simpl.
  - destruct l2 as [|q l2]; [done|]. simpl. by rewrite (proj2 (Z.ltb_lt _ _)) by done.
  - apply Forall_cons_iff in H1 as [Hq H1]. by rewrite (proj2 (Z.ltb_ge _ _)), IH by done.
Qed.

Lemma insert_by_perm k p l : insert_by k p l ≡ₚ p :: l.
Proof.
  induction l as [|q l IH]; simpl; [done|]. destruct (k p <? k q); [done|]. rewrite IH. by constructor.
Qed.

Abbreviation ordered k := (StronglySorted (fun p q : nat => k p <= k q)).

Lemma insert_by_ordered k p l : ordered k l -> ordered k (insert_by k p l).
Proof.
  induction 1 as [|q l Hl IH Hq]; simpl.
  - repeat constructor.
  - destruct (Z.ltb_spec (k p) (k q)).
    + constructor; [by constructor|]. constructor; [lia|].
      eapply list.Forall_impl; [exact Hq|]. simpl. lia.
    + constructor; [done|]. apply list.Forall_forall. intros x Hx.
      rewrite insert_by_perm in Hx. apply elem_of_cons in Hx as [->|Hx]; [done|].
      by apply (proj1 (list.Forall_forall _ _) Hq).
Qed.

(** ** The run lists *)

Definition head (w : run_list) s : option nat := match w with RunNow => run_now s | RunSoon => run_soon s end.
Definition set_head (w : run_list) (p : option nat) : fq_state -> fq_state :=
  match w with RunNow => set_run_now p | RunSoon => set_run_soon p end.

Lemma set_head_id w s : set_head w (head w s) s = s.
Proof. by destruct w, s. Qed.
Lemma set_ents_id s : set_ents (ents s) s = s.
Proof. by destruct s. Qed.
Lemma ents_set_ents m s : ents (set_ents m s) = m.
Proof. done. Qed.
Lemma set_ents_twice m m' s : set_ents m (set_ents m' s) = set_ents m s.
Proof. done. Qed.

(** Two maps differ in the run links at most. *)
Definition no_run (e : sched_ent) : sched_ent := set_next_run None e.
Definition run_links m m' : Prop := no_run <$> m' = no_run <$> m.

Lemma run_links_refl m : run_links m m.
Proof. done. Qed.
Lemma run_links_trans m1 m2 m3 : run_links m1 m2 -> run_links m2 m3 -> run_links m1 m3.
Proof. unfold run_links. congruence. Qed.
Lemma run_links_insert m p q e : m !! p = Some e -> run_links m (<[p := set_next_run q e]> m).
Proof. intros He. unfold run_links. rewrite fmap_insert, insert_id; [done|]. by rewrite lookup_fmap, He. Qed.
Lemma run_links_lookup m m' p e :
  run_links m m' -> m !! p = Some e -> exists q, m' !! p = Some (set_next_run q e).
Proof.
  intros Hm He. assert ((no_run <$> m') !! p = Some (no_run e)) as E by (by rewrite Hm, lookup_fmap, He).
  rewrite lookup_fmap in E. destruct (m' !! p) as [e'|]; [|done]. simpl in E. injection E as E.
  exists (_next_run e'). f_equal. destruct e, e'. unfold no_run, set_next_run in *. simpl in *. congruence.
Qed.

Lemma run_slot_get_after m w h l t s :
  m = ents s -> seg _next_run m (head w s) (h ++ l) t ->
  run_slot_get w (after None h) s = Ret (match l with [] => t | p :: _ => Some p end, s).
Proof.
  intros -> Hs. apply seg_app in Hs as (u & Hh & Hl).
  assert (match l with [] => t | p :: _ => Some p end = u) as ->.
  { destruct l as [|p l]; simpl in Hl; [done|]. by destruct Hl. }
  destruct h as [|x h _] using rev_ind; [simpl in Hh; by subst u; destruct w|].
  apply seg_snoc in Hh as (_ & e & He & <-). unfold after. rewrite list.last_snoc. simpl.
  by erewrite FQ_bind_Ret by (by apply ent_run).
Qed.

Lemma run_seek_spec w stop fuel h l s :
  seg _next_run (ents s) (head w s) (h ++ l) None -> (length l < fuel)%nat ->
  exists l1 l2, l = l1 ++ l2 /\
    run_seek fuel w stop (after None h) s = Ret (after None (h ++ l1), s) /\
    Forall (fun q => forall e, ents s !! q = Some e -> stop e = false) l1 /\
    match l2 with [] => True | q :: _ => exists e, ents s !! q = Some e /\ stop e = true end.
Proof.
  revert h l. induction fuel as [|fuel IH]; intros h l Hs Hf; [lia|]. cbn [run_seek].
  erewrite FQ_bind_Ret by (by apply (run_slot_get_after (ents s) w h l None)).
  destruct l as [|p l].
  { exists [], []. by rewrite !app_nil_r. }
  pose proof Hs as (u & _ & _ & e & He & _)%seg_app.
  erewrite FQ_bind_Ret by (by apply ent_run). destruct (stop e) eqn:Est.
  - exists [], (p :: l). rewrite app_nil_r. split_and!; [done|done|constructor|by exists e].
  - rewrite (cons_middle p h l), app_assoc in Hs. simpl in Hf.
    destruct (IH (h ++ [p]) l) as (l1 & l2 & -> & Hr & H1 & H2); [done|lia|].
    exists (p :: l1), l2. split; [done|]. split; [|split; [|done]].
    + rewrite <- app_assoc in Hr. unfold after in Hr at 1. by rewrite list.last_snoc in Hr.
    + constructor; [|done]. intros e' He'. congruence.
Qed.

(** Writing the slot after [l1] makes [q] the next alarm. *)
Lemma run_slot_put_after w l1 t q s :
  NoDup l1 -> seg _next_run (ents s) (head w s) l1 t ->
  exists m' h', run_slot_put w (after None l1) q s = Ret (tt, set_head w h' (set_ents m' s)) /\
    seg _next_run m' h' l1 q /\ run_links (ents s) m' /\ (forall x, x ∉ l1 -> m' !! x = ents s !! x).
Proof.
  intros Hnd Hs. destruct l1 as [|x l1 _] using rev_ind.
  - exists (ents s), q. rewrite set_ents_id. split_and!; [by destruct w|done|done|done].
  - apply seg_snoc in Hs as (Hs & e & He & _). apply NoDup_app in Hnd as (_ & Hx & _).
    assert (x ∉ l1) as Hxl by (intros Hin; apply (Hx x Hin), list_elem_of_here).
    exists (<[x := set_next_run q e]> (ents s)), (head w s).
    unfold after. rewrite list.last_snoc. simpl. erewrite ent_set_run by done. split_and!.
    + f_equal. f_equal. by destruct w, s.
    + apply seg_snoc. split; [by apply seg_insert_ne|]. eexists. by rewrite lookup_insert_eq.
    + by apply run_links_insert.
    + intros y Hy. apply not_elem_of_app in Hy as [_ Hy]. rewrite lookup_insert_ne; [done|].
      intros ->. apply Hy, list_elem_of_here.
Qed.

(** [insert_run_now] and [insert_run_soon] insert into the sequence. *)
Lemma insert_run_spec w time p e l s :
  seg _next_run (ents s) (head w s) l None -> NoDup (p :: l) -> ents s !! p = Some e ->
  exists m' h', insert_run w time p s = Ret (tt, set_head w h' (set_ents m' s)) /\
    seg _next_run m' h' (insert_by (key time (ents s)) p l) None /\
    run_links (ents s) m' /\ (forall x, x ∉ p :: l -> m' !! x = ents s !! x).
Proof.
  intros Hs Hnd He. apply NoDup_cons in Hnd as [Hp Hnd]. unfold insert_run.
  erewrite FQ_bind_Ret by (by apply ent_run). erewrite FQ_bind_Ret by done.
  destruct (run_seek_spec w (fun x => time e <? time x) (S (size (ents s))) [] l s)
    as (l1 & l2 & -> & Hr & H1 & H2); [done| |].
  { apply seg_length in Hs; [lia|done]. }
  erewrite FQ_bind_Ret by exact Hr. simpl app.
  erewrite FQ_bind_Ret by (by apply (run_slot_get_after (ents s) w l1 l2 None)).
  set (q := match l2 with [] => None | x :: _ => Some x end).
  erewrite FQ_bind_Ret by (by apply ent_set_run). set (s1 := set_ents _ _).
  apply not_elem_of_app in Hp as [Hp1 Hp2]. apply NoDup_app in Hnd as (Hn1 & Hd & Hn2).
  apply seg_app in Hs as (u & Hs1 & Hs2).
  assert (u = q) as -> by (subst q; destruct l2; simpl in Hs2; [done|by destruct Hs2]).
  destruct (run_slot_put_after w l1 q (Some p) s1) as (m' & h' & Hput & Hl1 & Hrl & Hm').
  { done. }
  { simpl. destruct w; by apply seg_insert_ne. }
  exists m', h'. rewrite Hput. simpl ents in *. split_and!.
  - by destruct w.
  - rewrite insert_by_split.
    + apply seg_app. exists (Some p). split; [done|]. simpl. split; [done|].
      exists (set_next_run q e). rewrite Hm', lookup_insert_eq by done. split; [done|]. simpl.
      apply (seg_ext _ (ents s)); [|done]. intros x ex Hx Hin. exists ex. split; [|done].
      rewrite Hm', lookup_insert_ne; [done|intros ->; done|]. intros Hin1. by apply (Hd x).
    + unfold key. rewrite He. apply list.Forall_forall. intros x Hx.
      pose proof (seg_dom _ _ _ _ _ Hs1) as Hdom. rewrite list.Forall_forall in Hdom.
      destruct (Hdom x Hx) as [ex Hex]. rewrite Hex. apply Z.ltb_ge.
      by apply (proj1 (list.Forall_forall _ _) H1 x Hx).
    + destruct l2 as [|x l2]; [done|]. destruct H2 as (ex & Hex & Hlt). unfold key. rewrite He, Hex.
      by apply Z.ltb_lt.
  - eapply run_links_trans; [by apply run_links_insert|done].
  - intros x Hx. apply not_elem_of_cons in Hx as [Hxp Hx]. apply not_elem_of_app in Hx as [Hx1 _].
    by rewrite Hm', lookup_insert_ne.
Qed.

Lemma remove_loop_absent w p fuel h l s :
  seg _next_run (ents s) (head w s) (h ++ l) None -> (length l < fuel)%nat -> p ∉ l ->
  remove_loop fuel w p (after None h) s = Ret (tt, s).
Proof.
  revert h l. induction fuel as [|fuel IH]; intros h l Hs Hf Hp; [lia|]. cbn [remove_loop].
  erewrite FQ_bind_Ret by (by apply (run_slot_get_after (ents s) w h l None)).
  destruct l as [|x l]; [done|]. apply not_elem_of_cons in Hp as [Hx Hp].
  rewrite (proj2 (Nat.eqb_neq _ _)) by done. rewrite (cons_middle x h l), app_assoc in Hs. simpl in Hf.
  specialize (IH (h ++ [x]) l Hs ltac:(lia) Hp). unfold after in IH. by rewrite list.last_snoc in IH.
Qed.

Lemma remove_loop_present w p fuel h l1 l2 s :
  seg _next_run (ents s) (head w s) (h ++ l1 ++ p :: l2) None -> (length l1 < fuel)%nat -> p ∉ l1 ->
  remove_loop fuel w p (after None h) s =
  (e ← ent p; run_slot_put w (after None (h ++ l1)) (_next_run e);; ent_set p (set_next_run None)) s.
Proof.
  revert h l1. induction fuel as [|fuel IH]; intros h l1 Hs Hf Hp; [lia|]. cbn [remove_loop].
  erewrite FQ_bind_Ret by (by apply (run_slot_get_after (ents s) w h (l1 ++ p :: l2) None)).
  destruct l1 as [|x l1]; cbn [app] in Hs |- *; cbv beta iota.
  - by rewrite app_nil_r, Nat.eqb_refl.
  - apply not_elem_of_cons in Hp as [Hx Hp]. rewrite (proj2 (Nat.eqb_neq _ _)) by done.
    rewrite (cons_middle x h (l1 ++ _)), app_assoc in Hs. simpl in Hf.
    specialize (IH (h ++ [x]) l1 Hs ltac:(lia) Hp).
    unfold after in IH at 1. rewrite list.last_snoc, <- app_assoc in IH. done.
Qed.

(** [remove_run_list] removes the alarm, wherever it is. *)
Lemma remove_run_absent w p l s :
  seg _next_run (ents s) (head w s) l None -> NoDup l -> p ∉ l -> remove_run_list p w s = Ret (tt, s).
Proof.
  intros Hs Hnd Hp. unfold remove_run_list. erewrite FQ_bind_Ret by done.
  apply (remove_loop_absent w p _ [] l); [done| |done]. apply seg_length in Hs; [lia|done].
Qed.

Lemma remove_run_present w p l1 l2 s :
  seg _next_run (ents s) (head w s) (l1 ++ p :: l2) None -> NoDup (l1 ++ p :: l2) ->
  exists m' h', remove_run_list p w s = Ret (tt, set_head w h' (set_ents m' s)) /\
    seg _next_run m' h' (l1 ++ l2) None /\ run_links (ents s) m' /\
    (forall x, x ∉ l1 ++ p :: l2 -> m' !! x = ents s !! x).
Proof.
  intros Hs Hnd. unfold remove_run_list. erewrite FQ_bind_Ret by done.
  pose proof (seg_length _ _ _ _ _ Hnd Hs) as Hlen. rewrite length_app in Hlen. simpl in Hlen.
  apply NoDup_app in Hnd as (Hn1 & Hd & Hn2). apply NoDup_cons in Hn2 as [Hp2 Hn2].
  assert (p ∉ l1) as Hp1 by (intros Hin; apply (Hd p Hin), list_elem_of_here).
  rewrite (remove_loop_present w p _ [] l1 l2) by (done || lia). simpl app.
  apply seg_app in Hs as (u & Hs1 & -> & e & He & Hs2).
  erewrite FQ_bind_Ret by (by apply ent_run).
  destruct (run_slot_put_after w l1 (Some p) (_next_run e) s) as (m1 & h' & Hput & Hl1 & Hrl & Hm1); [done..|].
  erewrite FQ_bind_Ret by exact Hput. pose proof He as He'. rewrite <- (Hm1 p) in He' by done.
  erewrite ent_set_run by (destruct w; exact He').
  exists (<[p := set_next_run None e]> m1), h'. split_and!.
  - by destruct w.
  - apply seg_app. exists (_next_run e). split; [by apply seg_insert_ne|].
    apply seg_insert_ne; [done|]. apply (seg_ext _ (ents s)); [|done].
    intros x ex Hx Hin. exists ex. split; [|done]. rewrite Hm1; [done|].
    intros Hin1. apply (Hd x Hin1). by apply list_elem_of_further.
  - eapply run_links_trans; [exact Hrl|by apply run_links_insert].
  - intros x Hx. apply not_elem_of_app in Hx as [Hx1 Hx]. apply not_elem_of_cons in Hx as [Hxp _].
    by rewrite lookup_insert_ne, Hm1.
Qed.

(** ** The wake list *)

(** The doubly linked list [l] from [h]. *)
Definition wlist m (h : option nat) (l : list nat) : Prop := seg _next_wake m h l None /\ backs m None l.

(** Two maps differ in the wake links at most. *)
Definition no_wake (e : sched_ent) : sched_ent := set_next_wake None (set_prev_wake None e).
Definition wake_links m m' : Prop := no_wake <$> m' = no_wake <$> m.

Lemma wake_links_refl m : wake_links m m.
Proof. done. Qed.
Lemma wake_links_trans m1 m2 m3 : wake_links m1 m2 -> wake_links m2 m3 -> wake_links m1 m3.
Proof. unfold wake_links. congruence. Qed.
Lemma wake_links_next m p q e : m !! p = Some e -> wake_links m (<[p := set_next_wake q e]> m).
Proof. intros He. unfold wake_links. rewrite fmap_insert, insert_id; [done|]. by rewrite lookup_fmap, He. Qed.
Lemma wake_links_prev m p q e : m !! p = Some e -> wake_links m (<[p := set_prev_wake q e]> m).
Proof. intros He. unfold wake_links. rewrite fmap_insert, insert_id; [done|]. by rewrite lookup_fmap, He. Qed.
Lemma wake_links_lookup m m' p e :
  wake_links m m' -> m !! p = Some e -> exists n b, m' !! p = Some (set_next_wake n (set_prev_wake b e)).
Proof.
  intros Hm He. assert ((no_wake <$> m') !! p = Some (no_wake e)) as E by (by rewrite Hm, lookup_fmap, He).
  rewrite lookup_fmap in E. destruct (m' !! p) as [e'|]; [|done]. simpl in E. injection E as E.
  exists (_next_wake e'), (_prev_wake e'). f_equal. destruct e, e'.
  unfold no_wake, set_next_wake, set_prev_wake in *. simpl in *. congruence.
Qed.

Lemma wake_slot_get_after h l t s :
  seg _next_wake (ents s) (wake_list s) (h ++ l) t ->
  wake_slot_get (after None h) s = Ret (match l with [] => t | p :: _ => Some p end, s).
Proof.
  intros Hs. apply seg_app in Hs as (u & Hh & Hl).
  assert (match l with [] => t | p :: _ => Some p end = u) as ->.
  { destruct l as [|p l]; simpl in Hl; [done|]. by destruct Hl. }
  destruct h as [|x h _] using rev_ind; [simpl in Hh; by subst u|].
  apply seg_snoc in Hh as (_ & e & He & <-). unfold after. rewrite list.last_snoc. simpl.
  by erewrite FQ_bind_Ret by (by apply ent_run).
Qed.

Lemma wake_seek_spec t fuel h l s :
  seg _next_wake (ents s) (wake_list s) (h ++ l) None -> (length l < fuel)%nat ->
  exists l1 l2, l = l1 ++ l2 /\
    wake_seek fuel t (after None h) s = Ret (after None (h ++ l1), s) /\
    Forall (fun q => key wake_at (ents s) q <= t) l1 /\
    match l2 with [] => True | q :: _ => t < key wake_at (ents s) q end.
Proof.
  revert h l. induction fuel as [|fuel IH]; intros h l Hs Hf; [lia|]. cbn [wake_seek].
  erewrite FQ_bind_Ret by (by apply (wake_slot_get_after h l None)).
  destruct l as [|p l].
  { exists [], []. by rewrite !app_nil_r. }
  pose proof Hs as (u & _ & _ & e & He & _)%seg_app.
  erewrite FQ_bind_Ret by (by apply ent_run). destruct (Z.ltb_spec t (wake_at e)).
  - exists [], (p :: l). rewrite app_nil_r. split_and!; [done|done|constructor|]. unfold key. by rewrite He.
  - rewrite (cons_middle p h l), app_assoc in Hs. simpl in Hf.
    destruct (IH (h ++ [p]) l) as (l1 & l2 & -> & Hr & H1 & H2); [done|lia|].
    exists (p :: l1), l2. split; [done|]. split; [|split; [|done]].
    + rewrite <- app_assoc in Hr. unfold after in Hr at 1. by rewrite list.last_snoc in Hr.
    + constructor; [|done]. unfold key. by rewrite He.
Qed.

(** Writing the slot after [l1] keeps the back links. *)
Lemma wake_slot_put_after l1 t q s :
  NoDup l1 -> seg _next_wake (ents s) (wake_list s) l1 t ->
  exists m' h', wake_slot_put (after None l1) q s = Ret (tt, set_wake_list h' (set_ents m' s)) /\
    seg _next_wake m' h' l1 q /\ wake_links (ents s) m' /\ (forall x, x ∉ l1 -> m' !! x = ents s !! x) /\
    (forall i, backs (ents s) i l1 -> backs m' i l1).
Proof.
  intros Hnd Hs. destruct l1 as [|x l1 _] using rev_ind.
  - exists (ents s), q. by rewrite set_ents_id.
  - apply seg_snoc in Hs as (Hs & e & He & _). apply NoDup_app in Hnd as (_ & Hx & _).
    assert (x ∉ l1) as Hxl by (intros Hin; apply (Hx x Hin), list_elem_of_here).
    exists (<[x := set_next_wake q e]> (ents s)), (wake_list s).
    unfold after. rewrite list.last_snoc. simpl. erewrite ent_set_run by done. split_and!.
    + by destruct s.
    + apply seg_snoc. split; [by apply seg_insert_ne|]. eexists. by rewrite lookup_insert_eq.
    + by apply wake_links_next.
    + intros y Hy. apply not_elem_of_app in Hy as [_ Hy]. rewrite lookup_insert_ne; [done|].
      intros ->. apply Hy, list_elem_of_here.
    + intros i. apply backs_ext. intros y ey Hy _. rewrite lookup_insert. case_decide; [|by exists ey].
      simplify_eq. by eexists.
Qed.

(** The first alarm of a list points back to [v]. *)
Lemma backs_relink m m' (v : option nat) x l :
  backs m v (x :: l) -> NoDup (x :: l) -> (forall y, y ∈ l -> m' !! y = m !! y) ->
  forall w, (exists e, m' !! x = Some e /\ _prev_wake e = w) -> backs m' w (x :: l).
Proof.
  intros [_ Hl] Hnd Hm w Hx. split; [done|]. apply (backs_ext m); [|done].
  intros y ey Hy Hin. exists ey. by rewrite Hm.
Qed.

(** Storing a back link does not change the forward ones. *)
Lemma seg_prev m x e v h l t :
  m !! x = Some e -> seg _next_wake m h l t -> seg _next_wake (<[x := set_prev_wake v e]> m) h l t.
Proof.
  intros Hx. apply seg_ext. intros y ey Hy _. rewrite lookup_insert.
  case_decide; [|by exists ey]. simplify_eq. by eexists.
Qed.

(** The alarm after the one inserted points back to it. *)
Lemma wake_back_link p e l s :
  p ∉ l -> NoDup l -> ents s !! p = Some e -> forall q i,
  seg _next_wake (ents s) q l None -> backs (ents s) i l ->
  exists m', (match q with Some x => ent_set x (set_prev_wake (Some p)) | None => mret tt end)
               (set_ents (<[p := set_next_wake q e]> (ents s)) s) = Ret (tt, set_ents m' s) /\
    wake_links (ents s) m' /\ m' !! p = Some (set_next_wake q e) /\
    (forall x, x ∉ p :: l -> m' !! x = ents s !! x) /\
    seg _next_wake m' q l None /\ backs m' (Some p) l.
Proof.
  intros Hp Hnd He q i Hs Hb. set (m1 := <[p := set_next_wake q e]> (ents s)).
  assert (wake_links (ents s) m1) as Hwl1 by (by apply wake_links_next).
  assert (seg _next_wake m1 q l None) as Hs1 by (by apply seg_insert_ne).
  destruct l as [|x l].
  - simpl in Hs. subst q. exists m1. split_and!; [done|done|by apply lookup_insert_eq| |done|done].
    intros x Hx. apply not_elem_of_cons in Hx as [Hx _]. by apply lookup_insert_ne.
  - apply not_elem_of_cons in Hp as [Hpx Hp]. pose proof Hs as (-> & ex & Hx & _).
    assert (m1 !! x = Some ex) as Hx1 by (unfold m1; by rewrite lookup_insert_ne).
    exists (<[x := set_prev_wake (Some p) ex]> m1). erewrite ent_set_run by done. split_and!.
    + done.
    + eapply wake_links_trans; [exact Hwl1|by apply wake_links_prev].
    + rewrite lookup_insert_ne by done. apply lookup_insert_eq.
    + intros y Hy. apply not_elem_of_cons in Hy as [Hyp Hy]. apply not_elem_of_cons in Hy as [Hyx _].
      rewrite lookup_insert_ne by done. by apply lookup_insert_ne.
    + by apply seg_prev.
    + eapply (backs_relink (ents s)); [exact Hb|done| |eexists; by rewrite lookup_insert_eq].
      intros y Hy. apply NoDup_cons in Hnd as [Hxn _].
      unfold m1. rewrite !lookup_insert_ne; [done|intros ->; done|intros ->; done].
Qed.

(** [insert_wake_list] inserts into the sequence, or does nothing for an alarm
    that never wakes the process. *)
Lemma insert_wake_spec p e l s :
  wlist (ents s) (wake_list s) l -> NoDup (p :: l) -> ents s !! p = Some e ->
  wake_at e <> TIME_MS_NEVER_WILL ->
  exists m' h', insert_wake_list p s = Ret (tt, set_wake_list h' (set_ents m' s)) /\
    wlist m' h' (insert_by (key wake_at (ents s)) p l) /\
    wake_links (ents s) m' /\ (forall x, x ∉ p :: l -> m' !! x = ents s !! x).
Proof.
  intros [Hs Hb] Hnd He Hne. apply NoDup_cons in Hnd as [Hp Hnd]. unfold insert_wake_list.
  erewrite FQ_bind_Ret by (by apply ent_run). rewrite (proj2 (Z.eqb_neq _ _)) by done.
  erewrite FQ_bind_Ret by done.
  destruct (wake_seek_spec (wake_at e) (S (size (ents s))) [] l s) as (l1 & l2 & -> & Hr & H1 & H2); [done| |].
  { apply seg_length in Hs; [lia|done]. }
  erewrite FQ_bind_Ret by exact Hr. simpl app.
  erewrite FQ_bind_Ret by (by apply (wake_slot_get_after l1 l2 None)).
  erewrite FQ_bind_Ret by (by apply ent_set_run).
  apply not_elem_of_app in Hp as [Hp1 Hp2]. apply NoDup_app in Hnd as (Hn1 & Hd & Hn2).
  apply seg_app in Hs as (q & Hs1 & Hs2). apply backs_app in Hb as [Hb1 Hb2].
  assert (match l2 with [] => None | x :: _ => Some x end = q) as ->
    by (destruct l2; simpl in Hs2; [done|by destruct Hs2]).
  destruct (wake_back_link p e l2 s Hp2 Hn2 He q _ Hs2 Hb2) as (m2 & Hr2 & Hwl2 & Hp2' & Hm2 & Hs2' & Hb2').
  erewrite FQ_bind_Ret by exact Hr2. erewrite FQ_bind_Ret by (by apply ent_set_run).
  rewrite set_ents_twice, ents_set_ents. set (m3 := <[p := _]> m2).
  assert (forall x, x ∈ l1 -> m3 !! x = ents s !! x) as Hm3.
  { intros x Hx. unfold m3. rewrite lookup_insert_ne by (intros ->; done). apply Hm2.
    intros [->|Hx2]%elem_of_cons; [done|]. by apply (Hd x). }
  destruct (wake_slot_put_after l1 q (Some p) (set_ents m3 s)) as (m4 & h4 & Hr4 & Hs4 & Hwl4 & Hm4 & Hb4).
  { done. }
  { apply (seg_ext _ (ents s)); [|done]. intros x ex Hx Hin. exists ex. split; [|done]. simpl. by rewrite Hm3. }
  assert (forall x, x ∈ l2 -> m4 !! x = m2 !! x) as Hm42.
  { intros x Hin. rewrite Hm4 by (intros Hin1; by apply (Hd x)). simpl. unfold m3.
    by rewrite lookup_insert_ne by (intros ->; done). }
  assert (m4 !! p = Some (set_prev_wake (after None l1) (set_next_wake q e))) as Hp4
    by (rewrite Hm4 by done; apply lookup_insert_eq).
  assert (key wake_at (ents s) p = wake_at e) as Hk by (unfold key; by rewrite He).
  exists m4, h4. rewrite Hr4. simpl ents in *. split_and!.
  - by destruct s.
  - rewrite insert_by_split; [|by rewrite Hk|by rewrite Hk]. split.
    + apply seg_app. exists (Some p). split; [done|]. split; [done|]. eexists. split; [exact Hp4|].
      apply (seg_ext _ m2); [|done]. intros x ex Hx Hin. exists ex. by rewrite Hm42.
    + apply backs_app. split; [|split].
      * apply Hb4. apply (backs_ext (ents s)); [|done]. intros x ex Hx Hin. exists ex. by rewrite Hm3.
      * by eexists.
      * apply (backs_ext m2); [|done]. intros x ex Hx Hin. exists ex. by rewrite Hm42.
  - eapply wake_links_trans; [exact Hwl2|]. eapply wake_links_trans; [|exact Hwl4]. by apply wake_links_prev.
  - intros x Hx. apply not_elem_of_cons in Hx as [Hxp Hx]. apply not_elem_of_app in Hx as [Hx1 Hx2].
    rewrite Hm4 by done. unfold m3. rewrite lookup_insert_ne by done. apply Hm2. by apply not_elem_of_cons.
Qed.

(** The alarm after the one removed points back to the one before. *)
Lemma wake_skip_link v l s i :
  NoDup l -> forall q, seg _next_wake (ents s) q l None -> backs (ents s) i l ->
  exists m', (match q with Some x => ent_set x (set_prev_wake v) | None => mret tt end) s
               = Ret (tt, set_ents m' s) /\
    wake_links (ents s) m' /\ (forall x, x ∉ l -> m' !! x = ents s !! x) /\
    seg _next_wake m' q l None /\ backs m' v l.
Proof.
  intros Hnd q Hs Hb. destruct l as [|x l].
  - simpl in Hs. subst q. exists (ents s). rewrite set_ents_id. by split_and!.
  - pose proof Hs as (-> & ex & Hx & _). exists (<[x := set_prev_wake v ex]> (ents s)).
    erewrite ent_set_run by done. split_and!.
    + done.
    + by apply wake_links_prev.
    + intros y Hy. apply not_elem_of_cons in Hy as [Hyx _]. by apply lookup_insert_ne.
    + by apply seg_prev.
    + eapply (backs_relink (ents s)); [exact Hb|done| |eexists; by rewrite lookup_insert_eq].
      intros y Hy. apply NoDup_cons in Hnd as [Hxn _]. by rewrite lookup_insert_ne by (intros ->; done).
Qed.

(** [remove_wake_list] of an alarm in the list. *)
Lemma remove_wake_present p l1 l2 s :
  wlist (ents s) (wake_list s) (l1 ++ p :: l2) -> NoDup (l1 ++ p :: l2) ->
  exists m' h' e, ents s !! p = Some e /\
    remove_wake_list p s = Ret (tt, set_wake_list h' (set_ents m' s)) /\
    wlist m' h' (l1 ++ l2) /\ wake_links (ents s) m' /\ m' !! p = Some (no_wake e) /\
    (forall x, x ∉ l1 ++ p :: l2 -> m' !! x = ents s !! x).
Proof.
  intros [Hs Hb] Hnd. apply NoDup_app in Hnd as (Hn1 & Hd & Hn2). apply NoDup_cons in Hn2 as [Hp2 Hn2].
  assert (p ∉ l1) as Hp1 by (intros Hin; apply (Hd p Hin), list_elem_of_here).
  assert (forall x, x ∈ l2 -> x ∉ l1) as Hd' by (intros x Hx Hx1; apply (Hd x Hx1); by apply list_elem_of_further).
  apply backs_app in Hb as [Hb1 [(e & He & Hprev) Hb2]].
  pose proof Hs as (u & Hs1 & -> & e' & He' & Hs2)%seg_app. simplify_eq.
  unfold remove_wake_list. erewrite FQ_bind_Ret by (by apply ent_run).
  destruct (wake_slot_put_after l1 (Some p) (_next_wake e) s) as (m1 & h1 & Hr1 & Hl1 & Hw1 & Hm1 & Hk1); [done..|].
  erewrite FQ_bind_Ret; swap 1 2.
  { rewrite Hprev. rewrite <- Hr1. destruct l1 as [|y l1 _] using rev_ind.
    - simpl in Hs1. simpl. erewrite FQ_bind_Ret by done. by rewrite bool_decide_true.
    - unfold after. by rewrite list.last_snoc. }
  set (s1 := set_wake_list h1 (set_ents m1 s)).
  destruct (wake_skip_link (_prev_wake e) l2 s1 (Some p) Hn2 (_next_wake e)) as (m2 & Hr2 & Hw2 & Hm2 & Hs2' & Hb2').
  { apply (seg_ext _ (ents s)); [|done]. intros x ex Hx Hin. exists ex. split; [|done]. simpl. by rewrite Hm1 by auto. }
  { apply (backs_ext (ents s)); [|done]. intros x ex Hx Hin. exists ex. split; [|done]. simpl. by rewrite Hm1 by auto. }
  erewrite FQ_bind_Ret by exact Hr2. simpl ents in Hw2, Hm2.
  assert (m2 !! p = Some e) as Hpm2 by (by rewrite Hm2, Hm1).
  erewrite FQ_bind_Ret by (by apply ent_set_run). erewrite ent_set_run by (simpl; apply lookup_insert_eq).
  exists (<[p := no_wake e]> m2), h1, e. split; [done|]. split_and!.
  - unfold s1. simpl. by rewrite insert_insert_eq.
  - split.
    + apply seg_app. exists (_next_wake e). split; apply seg_insert_ne; try done.
      apply (seg_ext _ m1); [|done]. intros x ex Hx Hin. exists ex. rewrite Hm2; [done|]. intros ?. by apply (Hd' x).
    + apply backs_app. split.
      * apply (backs_ext m1); [|by apply Hk1]. intros x ex Hx Hin. exists ex.
        rewrite lookup_insert_ne, Hm2; [done| |intros ->; done]. intros ?. by apply (Hd' x).
      * rewrite <- Hprev. apply (backs_ext m2); [|done]. intros x ex Hx Hin. exists ex.
        by rewrite lookup_insert_ne by (intros ->; done).
  - eapply wake_links_trans; [exact Hw1|]. eapply wake_links_trans; [exact Hw2|].
    eapply wake_links_trans; [by apply (wake_links_prev m2 p None e)|].
    rewrite <- (insert_insert_eq m2 p (no_wake e) (set_prev_wake None e)).
    apply wake_links_next. apply lookup_insert_eq.
  - apply lookup_insert_eq.
  - intros x Hx. apply not_elem_of_app in Hx as [Hx1 Hx]. apply not_elem_of_cons in Hx as [Hxp Hx2].
    by rewrite lookup_insert_ne, Hm2, Hm1.
Qed.

(** And of one whose links are clear. *)
Lemma remove_wake_absent p e l s :
  wlist (ents s) (wake_list s) l -> p ∉ l -> ents s !! p = Some e -> no_wake e = e ->
  remove_wake_list p s = Ret (tt, s).
Proof.
  intros [Hs _] Hp He Hn. unfold remove_wake_list. erewrite FQ_bind_Ret by (by apply ent_run).
  assert (_prev_wake e = None /\ _next_wake e = None) as [-> ->] by (by rewrite <- Hn).
  erewrite FQ_bind_Ret; swap 1 2.
  { erewrite FQ_bind_Ret by done. rewrite bool_decide_false; [done|]. intros E. rewrite E in Hs.
    destruct l; simpl in Hs; [done|]. destruct Hs as [? _]. simplify_eq. apply Hp, list_elem_of_here. }
  erewrite FQ_bind_Ret by done. erewrite FQ_bind_Ret by (by apply ent_set_run).
  erewrite ent_set_run by (simpl; apply lookup_insert_eq). simpl. rewrite insert_insert_eq.
  change (set_next_wake None (set_prev_wake None e)) with (no_wake e).
  rewrite Hn, insert_id by done. rewrite set_ents_twice. by rewrite set_ents_id.
Qed.
