(* ===== verification/FdQueueSpec.v ===== *)
(** * The event loop: what scheduling promises

    The invariant of the three lists of alarms, the operations as operations on
    sorted sequences, and that every alarm that is due is called. *)

From stdpp Require Import base tactics list fin_maps gmap sorting.
From Stdlib Require Import ZArith Lia.
From S2P Require Import Prelude Linked FdQueue FdQueueLists.

Local Open Scope Z_scope.
Implicit Types (m : ent_map) (s : fq_state).

(** ** The invariant *)

(** [fq_wf s ln ls lw]: the alarms in [run_now], in [run_soon] and in the wake list.  An alarm is
    scheduled when it is in one of the first two; it is in the wake list when
    it has to wake the process from [run_soon]. *)
Definition unlinked (e : sched_ent) : Prop := _next_wake e = None /\ _prev_wake e = None.
Record fq_wf s (ln ls lw : list nat) : Prop := {
  wf_now : seg _next_run (ents s) (run_now s) ln None;
  wf_soon : seg _next_run (ents s) (run_soon s) ls None;
  wf_wake : wlist (ents s) (wake_list s) lw;
  wf_nodup : NoDup (ln ++ ls);
  wf_nodup_wake : NoDup lw;
  wf_now_order : ordered (key run_before (ents s)) ln;
  wf_soon_order : ordered (key run_after (ents s)) ls;
  wf_wake_order : ordered (key wake_at (ents s)) lw;
  wf_waking : forall p, p ∈ lw <-> p ∈ ls /\ key wake_at (ents s) p <> TIME_MS_NEVER_WILL;
  wf_scheduled : forall p e, ents s !! p = Some e -> (_scheduled e = true <-> p ∈ ln ++ ls);
  wf_unlinked : forall p e, ents s !! p = Some e -> p ∉ lw -> unlinked e
}.

(** ** What the list operations leave alone *)

(** Everything but the links and the flag. *)
Definition core (e : sched_ent) : sched_ent := set_scheduled false (no_run (no_wake e)).
Definition same_core m m' : Prop := core <$> m' = core <$> m.

Lemma same_core_refl m : same_core m m.
Proof. done. Qed.
Lemma same_core_trans m1 m2 m3 : same_core m1 m2 -> same_core m2 m3 -> same_core m1 m3.
Proof. unfold same_core. congruence. Qed.

Lemma fmap_core_run m : core <$> m = core <$> (no_run <$> m).
Proof. rewrite <- map_fmap_compose. apply map_fmap_ext. by intros i e _. Qed.
Lemma fmap_core_wake m : core <$> m = core <$> (no_wake <$> m).
Proof. rewrite <- map_fmap_compose. apply map_fmap_ext. by intros i e _. Qed.

Lemma run_links_core m m' : run_links m m' -> same_core m m'.
Proof. intros E. unfold same_core. rewrite (fmap_core_run m'), (fmap_core_run m). by rewrite E. Qed.
Lemma wake_links_core m m' : wake_links m m' -> same_core m m'.
Proof. intros E. unfold same_core. rewrite (fmap_core_wake m'), (fmap_core_wake m). by rewrite E. Qed.
Lemma scheduled_core m p b e : m !! p = Some e -> same_core m (<[p := set_scheduled b e]> m).
Proof. intros He. unfold same_core. rewrite fmap_insert, insert_id; [done|]. by rewrite lookup_fmap, He. Qed.

Lemma same_core_key f m m' p : (forall e, f (core e) = f e) -> same_core m m' -> key f m' p = key f m p.
Proof.
  intros Hf E. unfold key. apply (f_equal (fun x => x !! p)) in E. rewrite !lookup_fmap in E.
  destruct (m !! p) as [e|], (m' !! p) as [e'|]; try done. apply (inj Some) in E.
  by rewrite <- (Hf e), <- (Hf e'), E.
Qed.

Lemma ordered_ext (k k' : nat -> Z) l : (forall p, k' p = k p) -> ordered k l -> ordered k' l.
Proof.
  intros E. induction 1 as [|p l Hl IH Hp]; constructor; [done|].
  eapply list.Forall_impl; [exact Hp|]. intros q. simpl. by rewrite !E.
Qed.

Lemma ordered_ext_in (k k' : nat -> Z) l : (forall p, p ∈ l -> k' p = k p) -> ordered k l -> ordered k' l.
Proof.
  intros E Ho. induction Ho as [|p l Hl IH Hp]; constructor.
  - apply IH. intros q Hq. apply E. by apply list_elem_of_further.
  - apply list.Forall_forall. intros q Hq. rewrite !E; [|by apply list_elem_of_further|apply list_elem_of_here].
    by apply (proj1 (list.Forall_forall _ _) Hp).
Qed.

Lemma insert_by_ext (k k' : nat -> Z) p l : (forall q, k' q = k q) -> insert_by k' p l = insert_by k p l.
Proof. intros E. induction l as [|q l IH]; simpl; [done|]. by rewrite !E, IH. Qed.

(** The run links are not touched by changes to the wake links, nor the other
    way round. *)
Lemma seg_run_wake m m' h l t : wake_links m m' -> seg _next_run m h l t -> seg _next_run m' h l t.
Proof.
  intros Hw. apply seg_ext. intros p e He _.
  destruct (wake_links_lookup m m' p e Hw He) as (n & b & E). by eexists.
Qed.
Lemma wlist_run m m' h l : run_links m m' -> wlist m h l -> wlist m' h l.
Proof.
  intros Hr [Hs Hb]. split.
  - eapply seg_ext; [|exact Hs]. intros p e He _. destruct (run_links_lookup m m' p e Hr He) as (n & E). by eexists.
  - eapply backs_ext; [|exact Hb]. intros p e He _. destruct (run_links_lookup m m' p e Hr He) as (n & E). by eexists.
Qed.
Lemma seg_outside nx m m' h l t : (forall x, x ∈ l -> m' !! x = m !! x) -> seg nx m h l t -> seg nx m' h l t.
Proof. intros Hm. apply seg_ext. intros p e He Hin. exists e. by rewrite Hm. Qed.
Lemma wlist_outside m m' h l : (forall x, x ∈ l -> m' !! x = m !! x) -> wlist m h l -> wlist m' h l.
Proof.
  intros Hm [Hs Hb]. split; [by eapply seg_outside|]. eapply backs_ext; [|exact Hb].
  intros p e He Hin. exists e. by rewrite Hm.
Qed.

(** An alarm that is not scheduled may be changed, its links and flag apart. *)
Lemma fq_wf_update s ln ls lw p e e' :
  fq_wf s ln ls lw -> ents s !! p = Some e -> p ∉ ln ++ ls -> _scheduled e' = _scheduled e ->
  _next_wake e' = _next_wake e -> _prev_wake e' = _prev_wake e ->
  fq_wf (set_ents (<[p := e']> (ents s)) s) ln ls lw.
Proof.
  intros [] He Hp Hsch Hn Hb. pose proof Hp as [Hpn Hps]%not_elem_of_app.
  assert (p ∉ lw) as Hpw by (intros [? _]%wf_waking0; done).
  assert (forall f q, q ≠ p -> key f (<[p := e']> (ents s)) q = key f (ents s) q) as Hk.
  { intros f q Hq. unfold key. by rewrite lookup_insert_ne. }
  split; simpl; try done.
  - by apply seg_insert_ne.
  - by apply seg_insert_ne.
  - apply (wlist_outside (ents s)); [|done]. intros x Hx. apply lookup_insert_ne. by intros ->.
  - eapply ordered_ext_in; [|done]. intros q Hq. apply Hk. by intros ->.
  - eapply ordered_ext_in; [|done]. intros q Hq. apply Hk. by intros ->.
  - eapply ordered_ext_in; [|done]. intros q Hq. apply Hk. by intros ->.
  - intros q. destruct (decide (q = p)) as [->|Hq]; [|rewrite Hk by done; apply wf_waking0].
    split; [done|]. intros [? _]. done.
  - intros q eq. rewrite lookup_insert. case_decide; [|apply wf_scheduled0]. intros [= <-]. subst q.
    rewrite Hsch. by apply wf_scheduled0.
  - intros q eq. rewrite lookup_insert. case_decide; [|apply wf_unlinked0]. intros [= <-]. subst q.
    intros _. destruct (wf_unlinked0 p e He Hpw). split; congruence.
Qed.

(** The variables that scheduling does not touch. *)
Definition same_rest s s' : Prop :=
  fds s' = fds s /\ fd_callbacks s' = fd_callbacks s /\ fdcount s' = fdcount s /\ called s' = called s.

Lemma same_rest_trans s1 s2 s3 : same_rest s1 s2 -> same_rest s2 s3 -> same_rest s1 s3.
Proof. unfold same_rest. intuition congruence. Qed.

Lemma set_head_rest w h m s : same_rest s (set_head w h (set_ents m s)).
Proof. by destruct w. Qed.
Lemma ents_set_head w h s : ents (set_head w h s) = ents s.
Proof. by destruct w. Qed.

Lemma set_scheduled_links m p b e : m !! p = Some e -> forall nx h l t,
  (forall e', nx (set_scheduled b e') = nx e') -> seg nx m h l t -> seg nx (<[p := set_scheduled b e]> m) h l t.
Proof.
  intros He nx h l t Hn. apply seg_ext. intros q eq Hq _. rewrite lookup_insert.
  case_decide; [|by exists eq]. simplify_eq. by eexists.
Qed.
Lemma wlist_scheduled m p b e h l : m !! p = Some e -> wlist m h l -> wlist (<[p := set_scheduled b e]> m) h l.
Proof.
  intros He [Hs Hb]. split; [by apply set_scheduled_links|]. eapply backs_ext; [|exact Hb].
  intros q eq Hq _. rewrite lookup_insert. case_decide; [|by exists eq]. simplify_eq. by eexists.
Qed.

(** The flags and links of the map an operation ends with, when it differs from
    [m] in the links of [l] and the flag of [p] only. *)
Lemma wake_part s ln ls lw p e :
  fq_wf s ln ls lw -> ents s !! p = Some e -> p ∉ ln ++ ls ->
  exists m1 h1, insert_wake_list p s = Ret (tt, set_wake_list h1 (set_ents m1 s)) /\
    wake_links (ents s) m1 /\
    wlist m1 h1 (if wake_at e =? TIME_MS_NEVER_WILL then lw else insert_by (key wake_at (ents s)) p lw) /\
    (forall q eq, m1 !! q = Some eq -> q ∉ p :: lw -> unlinked eq) /\
    (wake_at e = TIME_MS_NEVER_WILL -> m1 = ents s /\ h1 = wake_list s).
Proof.
  intros Hwf He Hp. pose proof Hwf as []. apply not_elem_of_app in Hp as [_ Hps].
  assert (p ∉ lw) as Hpw by (intros [? _]%wf_waking0; done).
  destruct (Z.eqb_spec (wake_at e) TIME_MS_NEVER_WILL) as [En|En].
  - exists (ents s), (wake_list s). split_and!; [| done | done | | done].
    + unfold insert_wake_list. erewrite FQ_bind_Ret by (by apply ent_run).
      rewrite En, Z.eqb_refl. by destruct s.
    + intros q eq Hq Hout. apply wf_unlinked0 with q; [done|]. intros ?. apply Hout. by apply list_elem_of_further.
  - destruct (insert_wake_spec p e lw s) as (m1 & h1 & Hr & Hl & Hwl & Hout); [done|by constructor|done|done|].
    exists m1, h1. split_and!; [done..| |done]. intros q eq Hq Hqo. rewrite Hout in Hq by done.
    apply wf_unlinked0 with q; [done|]. intros ?. apply Hqo. by apply list_elem_of_further.
Qed.

(** Neither kind of links is the flag, and the run links are not the others. *)
Lemma links_scheduled m m1 m2 q e :
  wake_links m m1 -> run_links m1 m2 -> m2 !! q = Some e ->
  exists e0 e1, m !! q = Some e0 /\ m1 !! q = Some e1 /\ _scheduled e0 = _scheduled e /\
    (unlinked e1 <-> unlinked e).
Proof.
  intros Hw Hr He. destruct (run_links_lookup m2 m1 q e) as (n & H1); [done|done|].
  destruct (wake_links_lookup m1 m q _ (eq_sym Hw) H1) as (n' & b' & H0). by eexists _, _.
Qed.

Lemma elem_of_insert_by k p q l1 l2 : q ∈ l1 ++ insert_by k p l2 <-> q = p \/ q ∈ l1 ++ l2.
Proof. rewrite !elem_of_app, insert_by_perm, elem_of_cons. tauto. Qed.

Lemma enter_spec s ln ls lw p e :
  fq_wf s ln ls lw -> ents s !! p = Some e -> _scheduled e = false ->
  exists s', (insert_wake_list p;; insert_run_soon p;; ent_set p (set_scheduled true)) s = Ret (tt, s') /\
    fq_wf s' ln (insert_by (key run_after (ents s)) p ls)
      (if wake_at e =? TIME_MS_NEVER_WILL then lw else insert_by (key wake_at (ents s)) p lw) /\
    same_core (ents s) (ents s') /\ same_rest s s'.
Proof.
  intros Hwf He Hsch. pose proof Hwf as [Hnow Hsoon Hwake Hnd Hndw Hon Hos How Hw Hs Hu].
  assert (p ∉ ln ++ ls) as Hp by (intros ?%(Hs p e He); congruence).
  pose proof Hp as [Hpn Hps]%not_elem_of_app. assert (p ∉ lw) as Hpw by (intros [? _]%Hw; done).
  destruct (wake_part s ln ls lw p e Hwf He Hp) as (m1 & h1 & Hr1 & Hwl & Hl1 & Hu1 & Hnever).
  erewrite FQ_bind_Ret by exact Hr1. destruct (wake_links_lookup _ _ p e Hwl He) as (n1 & b1 & Hp1).
  assert (NoDup (p :: ls)) as Hnd1 by (constructor; [done|by apply NoDup_app in Hnd as (_ & _ & ?)]).
  set (s1 := set_wake_list h1 (set_ents m1 s)) in *.
  assert (seg _next_run (ents s1) (head RunSoon s1) ls None) as Hsoon1 by (by eapply seg_run_wake).
  destruct (insert_run_spec RunSoon run_after p _ ls s1 Hsoon1 Hnd1 Hp1) as (m2 & h2 & Hr2 & Hl2 & Hrl & Hout2).
  unfold insert_run_soon. erewrite FQ_bind_Ret by exact Hr2.
  destruct (run_links_lookup _ _ p _ Hrl Hp1) as (n2 & Hp2).
  simpl ents in *. erewrite ent_set_run by exact Hp2. eexists. split; [done|].
  assert (same_core (ents s) m2) as Hc2
    by (eapply same_core_trans; [by apply wake_links_core|by apply run_links_core]).
  set (e2 := set_next_run n2 _) in *. set (m3 := <[p := set_scheduled true e2]> m2). assert (same_core (ents s) m3) as Hc3
    by (eapply same_core_trans; [exact Hc2|by apply scheduled_core]).
  assert (forall f q, (forall e, f (core e) = f e) -> key f m3 q = key f (ents s) q) as Hk
    by (intros f q Hf; by apply same_core_key).
  assert (insert_by (key run_after m1) p ls = insert_by (key run_after (ents s)) p ls) as Hins.
  { apply insert_by_ext. intros q. apply same_core_key; [done|]. by apply wake_links_core. }
  rewrite Hins in Hl2.
  split; [|by split]. split; simpl.
  - apply set_scheduled_links; [done|done|]. apply (seg_outside _ m1).
    { intros x Hx. apply Hout2. intros [->|Hin]%elem_of_cons; [done|]. apply NoDup_app in Hnd as (_ & Hd & _). by apply (Hd x). }
    by eapply seg_run_wake.
  - by apply set_scheduled_links.
  - apply wlist_scheduled; [done|]. by apply (wlist_run m1).
  - rewrite insert_by_perm, <- Permutation_middle. by constructor.
  - destruct (_ =? _); [done|]. rewrite insert_by_perm. by constructor.
  - eapply ordered_ext; [|exact Hon]. intros q. by apply Hk.
  - eapply ordered_ext; [intros q; by apply Hk|]. by apply insert_by_ordered.
  - eapply ordered_ext; [intros q; by apply Hk|]. destruct (_ =? _); [done|]. by apply insert_by_ordered.
  - intros q. rewrite Hk by done.
    assert (key wake_at (ents s) p = wake_at e) as Hkp by (unfold key; by rewrite He).
    destruct (Z.eqb_spec (wake_at e) TIME_MS_NEVER_WILL) as [En|En];
      rewrite !insert_by_perm, !elem_of_cons, ?Hw.
    + split; [by intros [? ?]; auto|]. intros [[->|?] ?]; [congruence|done].
    + split; [|intros [[->|?] ?]; auto]. intros [->|[? ?]]; [|by auto]. split; [by left|congruence].
  - intros q eq. rewrite elem_of_insert_by. unfold m3. rewrite lookup_insert.
    case_decide as E; intros Hq; simplify_eq; [simpl; tauto|].
    destruct (links_scheduled _ _ _ q eq Hwl Hrl Hq) as (e0 & e1 & He0 & _ & <- & _). rewrite (Hs q e0 He0).
    split; [by right|]. by intros [?|?].
  - intros q eq Hq Hout.
    assert (forall e1, m1 !! q = Some e1 -> unlinked e1) as Hq1.
    { intros e1 He1. destruct (Z.eqb_spec (wake_at e) TIME_MS_NEVER_WILL) as [En|En].
      - destruct (Hnever En) as [-> _]. by apply (Hu q).
      - rewrite insert_by_perm in Hout. by apply (Hu1 q). }
    unfold m3 in Hq. rewrite lookup_insert in Hq. case_decide as E; simplify_eq.
    + apply (Hq1 _ Hp1).
    + destruct (links_scheduled _ _ _ q eq Hwl Hrl Hq) as (e0 & e1 & _ & He1 & _ & <-). by apply Hq1.
Qed.

(** ** Scheduling *)

(** The times [_schedule] gives an alarm. *)
Definition prepared (e : sched_ent) : sched_ent :=
  let e := set_wake_run (alarm e) (deadline e) e in
  if (run_after e =? TIME_MS_NEVER_WILL) || (run_after e =? 0) then set_run_after (wake_at e) e else e.

Lemma cassert_bind {A} c (k : FQ A) s :
  (flift (cassert c);; k) s = if c then k s else Abort.
Proof. by destruct c. Qed.

Lemma schedule_run p e s :
  ents s !! p = Some e ->
  _schedule p s =
  let e' := prepared e in
  let s1 := set_ents (<[p := e']> (ents s)) s in
  if (run_after e' <=? wake_at e') && (run_after e' <=? run_before e') && negb (_scheduled e') && function e'
  then if negb (run_after e' =? TIME_MS_NEVER_WILL)
       then (insert_wake_list p;; insert_run_soon p;; ent_set p (set_scheduled true)) s1
       else Ret (tt, s1)
  else Abort.
Proof.
  intros He. unfold _schedule. erewrite FQ_bind_Ret by (by apply ent_set_run).
  erewrite FQ_bind_Ret by (apply ent_set_run; simpl; apply lookup_insert_eq).
  rewrite set_ents_twice, ents_set_ents, insert_insert_eq. fold (prepared e). cbv zeta.
  erewrite FQ_bind_Ret by (apply ent_run; simpl; apply lookup_insert_eq).
  rewrite !cassert_bind. destruct (run_after _ <=? wake_at _); [|done].
  destruct (run_after _ <=? run_before _); [|done]. destruct (negb (_scheduled _)); [|done].
  destruct (function _); [|done]. by destruct (negb (run_after _ =? _)).
Qed.

Lemma prepared_fields e :
  _scheduled (prepared e) = _scheduled e /\ _next_wake (prepared e) = _next_wake e /\
  _prev_wake (prepared e) = _prev_wake e /\ function (prepared e) = function e.
Proof. unfold prepared. cbv zeta. by destruct (_ || _). Qed.

(** ** Unscheduling *)

Definition without (p : nat) (l : list nat) : list nat := filter (fun x => x <> p) l.

Lemma without_absent p (l : list nat) : p ∉ l -> without p l = l.
Proof.
  unfold without. induction l as [|q l IH]; [done|]. intros [Hq Hl]%not_elem_of_cons.
  rewrite filter_cons_True by done. by rewrite IH.
Qed.

Lemma without_split p (l1 l2 : list nat) : NoDup (l1 ++ p :: l2) -> without p (l1 ++ p :: l2) = l1 ++ l2.
Proof.
  intros (Hn1 & Hd & Hn2)%NoDup_app. apply NoDup_cons in Hn2 as [Hp2 Hn2].
  unfold without. rewrite filter_app, filter_cons_False by tauto. f_equal; apply without_absent; [|done].
  intros Hin. apply (Hd p Hin), list_elem_of_here.
Qed.

Lemma elem_of_without p q l : q ∈ without p l <-> q <> p /\ q ∈ l.
Proof. unfold without. by rewrite list_elem_of_filter. Qed.

Lemma ordered_without k p l : ordered k l -> ordered k (without p l).
Proof.
  unfold without. induction 1 as [|q l Hl IH Hq]; [constructor|]. destruct (decide (q <> p)).
  - rewrite filter_cons_True by done. constructor; [done|]. apply list.Forall_forall.
    intros x [_ Hx]%list_elem_of_filter. by apply (proj1 (list.Forall_forall _ _) Hq).
  - by rewrite filter_cons_False by done.
Qed.

Lemma remove_run_spec w p l s :
  seg _next_run (ents s) (head w s) l None -> NoDup l ->
  exists m' h', remove_run_list p w s = Ret (tt, set_head w h' (set_ents m' s)) /\
    seg _next_run m' h' (without p l) None /\ run_links (ents s) m' /\
    (forall x, x ∉ l -> m' !! x = ents s !! x).
Proof.
  intros Hs Hnd. destruct (decide (p ∈ l)) as [(l1 & l2 & ->)%list_elem_of_split|Hp].
  - rewrite without_split by done. by apply remove_run_present.
  - exists (ents s), (head w s). rewrite set_ents_id, set_head_id, without_absent by done.
    split_and!; [by eapply remove_run_absent|done|done|done].
Qed.

Lemma unlinked_no_wake e : unlinked e -> no_wake e = e.
Proof. intros [? ?]. destruct e. unfold no_wake, set_next_wake, set_prev_wake. simpl in *. congruence. Qed.

Lemma remove_wake_spec p e l s :
  wlist (ents s) (wake_list s) l -> NoDup l -> ents s !! p = Some e -> (p ∉ l -> unlinked e) ->
  exists m' h', remove_wake_list p s = Ret (tt, set_wake_list h' (set_ents m' s)) /\
    wlist m' h' (without p l) /\ wake_links (ents s) m' /\ m' !! p = Some (no_wake e) /\
    (forall x, x ∉ l -> m' !! x = ents s !! x).
Proof.
  intros Hs Hnd He Hu. destruct (decide (p ∈ l)) as [(l1 & l2 & ->)%list_elem_of_split|Hp].
  - rewrite without_split by done.
    destruct (remove_wake_present p l1 l2 s) as (m' & h' & e' & He' & Hr & ? & ? & ? & ?); [done..|].
    simplify_eq. by exists m', h'.
  - exists (ents s), (wake_list s). rewrite set_ents_id, without_absent by done.
    pose proof (unlinked_no_wake e (Hu Hp)) as Hn. rewrite Hn.
    split_and!; [|done..]. replace (set_wake_list (wake_list s) s) with s by (by destruct s).
    by eapply remove_wake_absent.
Qed.

(** The lists after an alarm was taken out of all of them and changed. *)
Lemma fq_wf_without s ln ls lw p e e' m h1 h2 h3 :
  fq_wf s ln ls lw -> ents s !! p = Some e ->
  same_core (ents s) m ->
  seg _next_run m h1 (without p ln) None -> seg _next_run m h2 (without p ls) None ->
  wlist m h3 (without p lw) ->
  (forall q e1, q <> p -> m !! q = Some e1 -> exists e0, ents s !! q = Some e0 /\
     _scheduled e0 = _scheduled e1 /\ (q ∉ lw -> unlinked e0 -> unlinked e1)) ->
  _scheduled e' = false -> unlinked e' ->
  fq_wf (set_ents (<[p := e']> m) (set_run_now h1 (set_run_soon h2 (set_wake_list h3 s))))
    (without p ln) (without p ls) (without p lw).
Proof.
  intros [] He Hc Hn Hs Hw Hq Hsch Hu.
  assert (forall l, p ∉ without p l) as Hp by (intros l [? _]%elem_of_without; done).
  assert (forall f q, (forall e, f (core e) = f e) -> q <> p -> key f (<[p := e']> m) q = key f (ents s) q) as Hk.
  { intros f q Hf Hne. rewrite <- (same_core_key f _ m q Hf Hc). unfold key. by rewrite lookup_insert_ne. }
  assert (forall f l, (forall e, f (core e) = f e) -> ordered (key f (ents s)) l ->
            ordered (key f (<[p := e']> m)) (without p l)) as Ho.
  { intros f l Hf Hl. eapply ordered_ext_in; [|by apply ordered_without, Hl].
    intros q [Hne _]%elem_of_without. by apply Hk. }
  split; simpl.
  - by apply seg_insert_ne.
  - by apply seg_insert_ne.
  - apply (wlist_outside m); [|done]. intros x [Hx _]%elem_of_without. by apply lookup_insert_ne.
  - unfold without. rewrite <- filter_app. by apply NoDup_filter.
  - by apply NoDup_filter.
  - by apply Ho.
  - by apply Ho.
  - by apply Ho.
  - intros q. rewrite !elem_of_without, wf_waking0. destruct (decide (q = p)) as [->|Hne]; [tauto|].
    rewrite Hk by done. tauto.
  - intros q eq. rewrite elem_of_app, !elem_of_without, lookup_insert. case_decide as E.
    + intros [= <-]. subst q. rewrite Hsch. split; [done|]. tauto.
    + intros Hm. destruct (Hq q eq) as (e0 & He0 & <- & _); [done|done|].
      assert (q <> p) by congruence. rewrite (wf_scheduled0 q e0 He0), elem_of_app. tauto.
  - intros q eq. rewrite lookup_insert. case_decide as E.
    + by intros [= <-].
    + intros Hm Hout. assert (q ∉ lw) as Hql by (intros ?; apply Hout, elem_of_without; done).
      destruct (Hq q eq) as (e0 & He0 & _ & Hun); [done|done|]. apply Hun; [done|]. by apply (wf_unlinked0 q).
Qed.

Lemma links_back m m1 q e1 :
  run_links m m1 -> m1 !! q = Some e1 ->
  exists e0, m !! q = Some e0 /\ _scheduled e0 = _scheduled e1 /\ (unlinked e0 <-> unlinked e1).
Proof.
  intros Hr H1. destruct (run_links_lookup m1 m q e1) as (n & H0); [done|done|]. by eexists.
Qed.

Lemma leave_spec s ln ls lw p e :
  fq_wf s ln ls lw -> ents s !! p = Some e ->
  exists s', (remove_run_list p RunNow;; remove_run_list p RunSoon;; remove_wake_list p;;
              ent_set p (set_scheduled false);; ent_set p (set_run_after TIME_MS_NEVER_WILL)) s = Ret (tt, s') /\
    fq_wf s' (without p ln) (without p ls) (without p lw) /\ same_rest s s' /\
    same_core (<[p := set_run_after TIME_MS_NEVER_WILL e]> (ents s)) (ents s').
Proof.
  intros Hwf He. pose proof Hwf as [Hnow Hsoon Hwake Hnd Hndw Hon Hos How Hw Hs Hu].
  pose proof Hnd as (Hnn & Hd & Hns)%NoDup_app.
  destruct (remove_run_spec RunNow p ln s) as (m1 & h1 & Hr1 & Hl1 & Hrl1 & Hout1); [done..|].
  erewrite FQ_bind_Ret by exact Hr1. set (s1 := set_head RunNow h1 (set_ents m1 s)).
  destruct (remove_run_spec RunSoon p ls s1) as (m2 & h2 & Hr2 & Hl2 & Hrl2 & Hout2).
  { apply (seg_outside _ (ents s)); [|done]. intros x Hx. apply Hout1. intros ?. by apply (Hd x). }
  { done. }
  erewrite FQ_bind_Ret by exact Hr2. set (s2 := set_head RunSoon h2 (set_ents m2 s1)).
  assert (run_links (ents s) m2) as Hrl by (by eapply run_links_trans).
  destruct (run_links_lookup _ _ p e Hrl He) as (n2 & Hp2).
  destruct (remove_wake_spec p (set_next_run n2 e) lw s2) as (m3 & h3 & Hr3 & Hl3 & Hwl & Hp3 & Hout3).
  { by apply (wlist_run (ents s)). }
  { done. }
  { done. }
  { intros Hp. by apply (Hu p e He). }
  erewrite FQ_bind_Ret by exact Hr3. erewrite FQ_bind_Ret by (by apply ent_set_run).
  erewrite ent_set_run by (simpl; apply lookup_insert_eq). simpl. rewrite insert_insert_eq.
  assert (same_core (ents s) m3) as Hc
    by (eapply same_core_trans; [by apply run_links_core|by apply wake_links_core]).
  eexists. split; [done|]. split; [|split].
  - refine (fq_wf_without s ln ls lw p e _ m3 h1 h2 h3 Hwf He Hc _ _ Hl3 _ _ _).
    + apply (seg_run_wake m2); [done|]. apply (seg_outside _ m1); [|done].
      intros x [_ Hx]%elem_of_without. apply Hout2. by apply Hd.
    + by apply (seg_run_wake m2).
    + intros q e1 Hne Hq.
      destruct (wake_links_lookup m3 m2 q e1 (eq_sym Hwl) Hq) as (n & b & Hq2).
      destruct (links_back _ _ q _ Hrl Hq2) as (e0 & He0 & Hsch & Hun). exists e0. split; [done|].
      split; [done|]. intros Hql Hu0. rewrite Hout3 in Hq by done. simpl in Hq. rewrite Hq in Hq2.
      apply (inj Some) in Hq2. rewrite <- Hq2 in Hun. by apply Hun.
    + done.
    + done.
  - done.
  - unfold same_core in *. simpl. rewrite !fmap_insert, Hc. done.
Qed.

(** ** Moving alarms to [run_now] *)

Lemma move_one s ln ls lw p e :
  fq_wf s ln (p :: ls) lw -> ents s !! p = Some e ->
  exists s', (fmodify (set_run_soon (_next_run e));; remove_wake_list p;; insert_run_now p) s = Ret (tt, s') /\
    fq_wf s' (insert_by (key run_before (ents s)) p ln) ls (without p lw) /\
    same_core (ents s) (ents s') /\ same_rest s s' /\ syscalls s' = syscalls s.
Proof.
  intros Hwf He. pose proof Hwf as [Hnow (Hhd & e0 & He0 & Hsoon) Hwake Hnd Hndw Hon Hos How Hw Hs Hu].
  simplify_eq. pose proof Hnd as (Hnn & Hd & [Hps Hns]%NoDup_cons)%NoDup_app.
  assert (p ∉ ln) as Hpn by (intros Hin; apply (Hd p Hin), list_elem_of_here).
  erewrite FQ_bind_Ret by done. set (s1 := set_run_soon (_next_run e) s).
  destruct (remove_wake_spec p e lw s1 Hwake Hndw He (Hu p e He)) as (m2 & h2 & Hr2 & Hl2 & Hwl & Hp2 & Hout2).
  erewrite FQ_bind_Ret by exact Hr2. set (s2 := set_wake_list h2 (set_ents m2 s1)).
  destruct (insert_run_spec RunNow run_before p (no_wake e) ln s2) as (m3 & h3 & Hr3 & Hl3 & Hrl & Hout3).
  { by apply (seg_run_wake (ents s)). }
  { by constructor. }
  { done. }
  unfold insert_run_now. rewrite Hr3. eexists. split; [done|].
  assert (same_core (ents s) m3) as Hc
    by (eapply same_core_trans; [by apply wake_links_core|by apply run_links_core]).
  assert (forall f q, (forall e, f (core e) = f e) -> key f m3 q = key f (ents s) q) as Hk
    by (intros f q Hf; by apply same_core_key).
  rewrite (insert_by_ext (key run_before (ents s))) in Hl3.
  2: { intros q. apply same_core_key; [done|]. by apply wake_links_core. }
  split_and!; [split; simpl| done | done |].
  - done.
  - apply (seg_outside _ m2).
    { intros x Hx. apply Hout3. intros [->|Hin]%elem_of_cons; [done|]. apply (Hd x Hin). by apply list_elem_of_further. }
    by apply (seg_run_wake (ents s)).
  - by apply (wlist_run m2).
  - rewrite insert_by_perm. simpl. by rewrite Permutation_middle.
  - by apply NoDup_filter.
  - eapply ordered_ext; [intros q; by apply Hk|]. by apply insert_by_ordered.
  - eapply ordered_ext; [intros q; by apply Hk|]. by inversion Hos.
  - eapply ordered_ext; [intros q; by apply Hk|]. by apply ordered_without.
  - intros q. rewrite Hk by done. rewrite elem_of_without, Hw, elem_of_cons.
    destruct (decide (q = p)) as [->|]; tauto.
  - intros q eq Hq. destruct (links_scheduled _ _ _ q eq Hwl Hrl Hq) as (e0 & e1 & He0' & _ & <- & _).
    rewrite (Hs q e0 He0'), !elem_of_app, insert_by_perm, !elem_of_cons. tauto.
  - intros q eq Hq Hout. destruct (links_scheduled _ _ _ q eq Hwl Hrl Hq) as (e0 & e1 & _ & He1 & _ & <-).
    destruct (decide (q = p)) as [->|Hne]; [rewrite Hp2 in He1; by simplify_eq|].
    assert (q ∉ lw) as Hql by (intros ?; apply Hout, elem_of_without; done).
    rewrite Hout2 in He1 by done. by apply (Hu q).
  - done.
Qed.

Lemma bind3 {A} (a b c : FQ unit) (k : FQ A) s s' :
  (a;; b;; c) s = Ret (tt, s') -> (a;; b;; c;; k) s = k s'.
Proof.
  rewrite !FQ_bind_run. destruct (a s) as [[[] s1]| |]; [|done..]. rewrite !FQ_bind_run.
  destruct (b s1) as [[[] s2]| |]; [|done..]. intros E. by rewrite FQ_bind_run, E.
Qed.

Lemma foldl_insert_ext (k k' : nat -> Z) l due :
  (forall q, k' q = k q) ->
  foldl (fun l p => insert_by k' p l) l due = foldl (fun l p => insert_by k p l) l due.
Proof. intros E. revert l. induction due as [|p due IH]; intros l; simpl; [done|]. by rewrite (insert_by_ext k), IH. Qed.

(** [move_run_list] moves the alarms that may run and no others. *)
Lemma move_loop_spec now fuel s ln ls lw :
  fq_wf s ln ls lw -> (length ls < fuel)%nat ->
  exists s' due ls', move_loop fuel now s = Ret (tt, s') /\ ls = due ++ ls' /\
    Forall (fun p => key run_after (ents s) p <= now) due /\
    Forall (fun p => now < key run_after (ents s) p) ls' /\
    fq_wf s' (foldl (fun l p => insert_by (key run_before (ents s)) p l) ln due) ls'
      (foldl (fun l p => without p l) lw due) /\
    same_core (ents s) (ents s') /\ same_rest s s' /\ syscalls s' = syscalls s.
Proof.
  revert s ln ls lw. induction fuel as [|fuel IH]; intros s ln ls lw Hwf Hf; [lia|]. cbn [move_loop].
  erewrite FQ_bind_Ret by done. pose proof Hwf as [_ Hsoon _ _ _ _ Hos _ _ _ _].
  destruct ls as [|p ls].
  { rewrite Hsoon. exists s, [], []. split_and!; try done; constructor. }
  destruct Hsoon as (-> & e & He & _). erewrite FQ_bind_Ret by (by apply ent_run).
  assert (key run_after (ents s) p = run_after e) as Hkp by (unfold key; by rewrite He).
  destruct (Z.leb_spec (run_after e) now).
  2: { exists s, [], (p :: ls). split_and!; try done. constructor; [lia|].
       apply StronglySorted_inv in Hos as [_ Hp]. eapply list.Forall_impl; [exact Hp|].
       intros q Hq. simpl in Hq |- *. lia. }
  destruct (move_one s ln ls lw p e Hwf He) as (s1 & Hr1 & Hwf1 & Hc1 & Hrest1 & Hsys1).
  erewrite bind3 by exact Hr1. simpl in Hf.
  destruct (IH _ _ _ _ Hwf1) as (s2 & due & ls' & Hr2 & -> & Hdue & Hls & Hwf2 & Hc2 & Hrest2 & Hsys2); [lia|].
  assert (forall f q, (forall e, f (core e) = f e) -> key f (ents s1) q = key f (ents s) q) as Hk
    by (intros f q Hf'; by apply same_core_key).
  exists s2, (p :: due), ls'. split_and!.
  - done.
  - done.
  - constructor; [lia|]. eapply list.Forall_impl; [exact Hdue|]. intros q. simpl. by rewrite Hk.
  - eapply list.Forall_impl; [exact Hls|]. intros q. simpl. by rewrite Hk.
  - simpl. by rewrite (foldl_insert_ext (key run_before (ents s))) in Hwf2 by (intros q; by apply Hk).
  - by eapply same_core_trans.
  - by eapply same_rest_trans.
  - congruence.
Qed.
