(* ===== verification/FdQueueLive.v ===== *)
(** * The event loop: every alarm that is due is called

    With no file to watch, and alarms whose functions schedule and unschedule
    alarms as they like as long as they leave one, [p], alone and give the others
    later deadlines, each call of [fd_poll] brings the call of [p] nearer. *)

From stdpp Require Import base tactics list fin_maps gmap sorting.
From Stdlib Require Import ZArith Lia.
From S2P Require Import Prelude Linked FdQueue FdQueueLists FdQueueSpec.

Local Open Scope Z_scope.
Implicit Types (m : ent_map) (s : fq_state).

(** ** What the functions of alarms may do *)

(** [RESCHEDULE(x, after, wait, before)] and [unschedule(x)]. *)
Inductive alarm_act : Type :=
| Resched (x : nat) (after wait before : Z)
| Unsched (x : nat).
Definition act_alarm (a : alarm_act) : nat := match a with Resched x _ _ _ | Unsched x => x end.
Definition run_act (a : alarm_act) : FQ unit :=
  match a with
  | Resched x after wait before => reschedule x after wait before
  | Unsched x => _unschedule x
  end.
Fixpoint run_acts (l : list alarm_act) : FQ unit :=
  match l with [] => mret tt | a :: l => run_act a;; run_acts l end.

(** Functions that do what the alarm and the state call for. *)
Definition does (acts : nat -> fq_state -> list alarm_act) (q : nat) : FQ unit :=
  fun s => run_acts (acts q s) s.

(** The alarm exists, and scheduling it stops on no assertion. *)
Definition act_ok m (a : alarm_act) : Prop :=
  exists e, m !! act_alarm a = Some e /\
  match a with
  | Resched _ after wait before =>
      function e = true /\
      (let after := if (after =? TIME_MS_NEVER_WILL) || (after =? 0) then wait else after in
       after <= wait /\ after <= before)
  | Unsched _ => True
  end.

(** It concerns another alarm than [p], and gives it a later deadline than [d]. *)
Definition act_later (p : nat) (d : Z) (a : alarm_act) : Prop :=
  act_alarm a <> p /\ match a with Resched _ _ _ before => d < before | Unsched _ => True end.

(** The alarms of [m] are there with their functions. *)
Definition alive m m' : Prop :=
  forall x e, m !! x = Some e -> exists e', m' !! x = Some e' /\ function e' = function e.

Lemma alive_refl m : alive m m.
Proof. intros x e He. by exists e. Qed.
Lemma alive_trans m1 m2 m3 : alive m1 m2 -> alive m2 m3 -> alive m1 m3.
Proof. intros H1 H2 x e (e1 & He1 & E1)%H1. destruct (H2 x e1 He1) as (e2 & ? & ?). exists e2. split; congruence. Qed.
Lemma alive_core m m' : same_core m m' -> alive m m'.
Proof.
  intros Hc x e He. pose proof (f_equal (fun k => k !! x) Hc) as Hx. rewrite !lookup_fmap, He in Hx.
  destruct (m' !! x) as [e'|]; [|done]. exists e'. split; [done|]. apply (inj Some) in Hx.
  by apply (f_equal function) in Hx.
Qed.
Lemma alive_insert m x e e' : m !! x = Some e -> function e' = function e -> alive m (<[x := e']> m).
Proof.
  intros He Hf y ey Hy. rewrite lookup_insert. case_decide; [|by exists ey].
  exists e'. split; [done|]. congruence.
Qed.

Lemma act_ok_alive m m' a : alive m m' -> act_ok m a -> act_ok m' a.
Proof.
  intros Hm (e & He & Ha). destruct (Hm _ _ He) as (e' & He' & E). exists e'. split; [done|].
  destruct a; [|done]. by rewrite E.
Qed.

(** How many alarms of [l] have a deadline of at most [d]. *)
Definition early (d : Z) m (l : list nat) : nat :=
  length (filter (fun x => key run_before m x <= d) l).

Lemma early_perm d m l l' : l ≡ₚ l' -> early d m l = early d m l'.
Proof. intros Hl. unfold early. by rewrite Hl. Qed.
Lemma early_cons d m x l :
  early d m (x :: l) = ((if decide (key run_before m x <= d)%Z then 1 else 0) + early d m l)%nat.
Proof. unfold early. rewrite filter_cons. by case_decide. Qed.
Lemma early_app d m l l' : early d m (l ++ l') = (early d m l + early d m l')%nat.
Proof. unfold early. by rewrite filter_app, length_app. Qed.
Lemma early_ext d m m' l :
  (forall x, x ∈ l -> key run_before m' x = key run_before m x) -> early d m' l = early d m l.
Proof.
  induction l as [|x l IH]; intros Hk; [done|]. rewrite !early_cons, IH.
  - by rewrite (Hk x (list_elem_of_here _ _)).
  - intros y Hy. by apply Hk, list_elem_of_further.
Qed.
Lemma early_without d m x l : (early d m (without x l) <= early d m l)%nat.
Proof.
  unfold without. induction l as [|y l IH]; [done|]. rewrite filter_cons.
  case_decide; rewrite ?early_cons; lia.
Qed.

(** What a function of another alarm leaves of the wait of [p], whose deadline
    is [d]: no alarm comes before it, and it stays where it is. *)
Record harmless (p : nat) (d : Z) s (ln ls lw : list nat) s' (ln' ls' lw' : list nat) : Prop := {
  hm_wf : fq_wf s' ln' ls' lw';
  hm_rest : same_rest s s';
  hm_alive : alive (ents s) (ents s');
  hm_now : (length ln' <= length ln)%nat;
  hm_stays : (p ∈ ln -> p ∈ ln') /\ (p ∈ lw -> p ∈ lw');
  hm_keys : key run_before (ents s') p = key run_before (ents s) p /\
            key run_after (ents s') p = key run_after (ents s) p;
  hm_early : (early d (ents s') (ln' ++ ls') <= early d (ents s) (ln ++ ls))%nat
}.

Lemma harmless_refl p d s ln ls lw : fq_wf s ln ls lw -> harmless p d s ln ls lw s ln ls lw.
Proof. intros. split; try done. apply alive_refl. Qed.

Lemma harmless_trans p d s ln ls lw s1 ln1 ls1 lw1 s2 ln2 ls2 lw2 :
  harmless p d s ln ls lw s1 ln1 ls1 lw1 -> harmless p d s1 ln1 ls1 lw1 s2 ln2 ls2 lw2 ->
  harmless p d s ln ls lw s2 ln2 ls2 lw2.
Proof.
  intros [? ? ? ? [? ?] [? ?] ?] [? ? ? ? [? ?] [? ?] ?].
  split; first [done | lia | by eapply same_rest_trans | by eapply alive_trans | tauto | split; congruence].
Qed.

Lemma unschedule_harmless p d s ln ls lw x e :
  fq_wf s ln ls lw -> ents s !! x = Some e ->
  exists s', _unschedule x s = Ret (tt, s') /\
    fq_wf s' (without x ln) (without x ls) (without x lw) /\ same_rest s s' /\ alive (ents s) (ents s') /\
    (x <> p -> harmless p d s ln ls lw s' (without x ln) (without x ls) (without x lw)).
Proof.
  intros Hwf He. unfold _unschedule, is_scheduled.
  erewrite FQ_bind_Ret by (by erewrite FQ_bind_Ret by (by apply ent_run)).
  destruct (_scheduled e) eqn:Es; cbn [negb].
  - destruct (leave_spec s ln ls lw x e Hwf He) as (s' & Hr & Hwf' & Hrest & Hc).
    assert (alive (ents s) (ents s')) as Hal.
    { eapply alive_trans; [|by apply alive_core]. by eapply alive_insert. }
    exists s'. split_and!; try done. intros Hxp.
    assert (forall f y, (forall e, f (core e) = f e) -> y <> x ->
              key f (ents s') y = key f (ents s) y) as Hk.
    { intros f y Hf Hy. rewrite (same_core_key f _ _ y Hf Hc). unfold key. by rewrite lookup_insert_ne. }
    split; try done.
    + unfold without. apply length_filter.
    + rewrite !elem_of_without. split; intros; by split; [congruence|].
    + split; apply Hk; done || congruence.
    + rewrite !early_app. rewrite (early_ext d (ents s)), (early_ext d (ents s) _ (without x ls)).
      * pose proof (early_without d (ents s) x ln). pose proof (early_without d (ents s) x ls). lia.
      * intros y [Hy _]%elem_of_without. by apply Hk.
      * intros y [Hy _]%elem_of_without. by apply Hk.
  - assert (x ∉ ln ++ ls) as Hx.
    { pose proof Hwf as [_ _ _ _ _ _ _ _ _ Hs _]. intros ?%(Hs x e He). congruence. }
    apply not_elem_of_app in Hx as [Hxn Hxs].
    assert (x ∉ lw) by (pose proof Hwf as [_ _ _ _ _ _ _ _ Hw _ _]; by intros [? _]%Hw).
    rewrite !without_absent by done. exists s. split_and!; try done; [apply alive_refl|].
    intros _. by apply harmless_refl.
Qed.

(** An alarm that is not scheduled is given its times and scheduled. *)
Lemma schedule_harmless p d s ln ls lw x e after wait before :
  fq_wf s ln ls lw -> ents s !! x = Some e -> x ∉ ln ++ ls ->
  act_ok (ents s) (Resched x after wait before) ->
  let set_times e := SchedEnt (_next_wake e) (_prev_wake e) (_next_run e) (_scheduled e) (function e)
                       (poll e) after (wake_at e) (run_before e) wait before (_poll_index e) in
  exists s' ls' lw', (ent_set x set_times;; _schedule x) s = Ret (tt, s') /\
    fq_wf s' ln ls' lw' /\ same_rest s s' /\ alive (ents s) (ents s') /\
    (x <> p -> d < before -> harmless p d s ln ls lw s' ln ls' lw').
Proof.
  intros Hwf He Hx (e0 & He0 & Hf & Hle) set_times. simpl in He0. rewrite He in He0. injection He0 as <-.
  assert (_scheduled e = false) as Hfree.
  { pose proof Hwf as [_ _ _ _ _ _ _ _ _ Hs _]. destruct (_scheduled e) eqn:Es; [|done].
    destruct Hx. by apply (Hs x e He). }
  erewrite FQ_bind_Ret by (by apply ent_set_run).
  rewrite (schedule_run x (set_times e)) by (simpl; apply lookup_insert_eq). cbv zeta.
  set (e' := prepared (set_times e)).
  assert (run_after e' <= wake_at e' /\ run_after e' <= run_before e' /\ run_before e' = before /\
          _scheduled e' = false /\ function e' = true /\ _next_wake e' = _next_wake e /\
          _prev_wake e' = _prev_wake e) as (Ha & Hb & Eb & Es & Ef & En & Ep).
  { unfold e', prepared, set_times, set_wake_run, set_run_after in *. cbv zeta in *. simpl in *.
    destruct ((after =? TIME_MS_NEVER_WILL) || (after =? 0)); simpl; tauto. }
  rewrite (proj2 (Z.leb_le _ _) Ha), (proj2 (Z.leb_le _ _) Hb), Es, Ef. cbn [andb negb].
  simpl. rewrite insert_insert_eq.
  assert (fq_wf (set_ents (<[x := e']> (ents s)) s) ln ls lw) as Hwf1.
  { apply (fq_wf_update s ln ls lw x e e'); try done. congruence. }
  assert (alive (ents s) (<[x := e']> (ents s))) as Hal by (eapply alive_insert; [done|congruence]).
  assert (forall m f y, same_core (<[x := e']> (ents s)) m -> (forall e, f (core e) = f e) -> y <> x ->
            key f m y = key f (ents s) y) as Hk.
  { intros m f y Hc Hkf Hy. rewrite (same_core_key f _ _ y Hkf Hc). unfold key. by rewrite lookup_insert_ne. }
  destruct (negb (run_after e' =? TIME_MS_NEVER_WILL)) eqn:Enever.
  - destruct (enter_spec (set_ents (<[x := e']> (ents s)) s) ln ls lw x e' Hwf1) as (s' & Hr & Hwf' & Hc & Hrest).
    { simpl. apply lookup_insert_eq. }
    { done. }
    eexists s', _, _. split; [exact Hr|]. split; [exact Hwf'|]. simpl in Hc, Hrest.
    assert (alive (ents s) (ents s')) as Hal' by (eapply alive_trans; [exact Hal|by apply alive_core]).
    split; [done|]. split; [done|]. intros Hxp Hd. split; try done.
    + split; [done|]. intros Hp. case_match; [done|]. by apply (proj2 (elem_of_insert_by _ x p [] lw)); right.
    + split; apply Hk; done || congruence.
    + assert (ln ++ insert_by (key run_after (<[x := e']> (ents s))) x ls ≡ₚ x :: ln ++ ls) as Hperm.
      { rewrite insert_by_perm. by rewrite Permutation_middle. }
      rewrite (early_perm _ _ _ _ Hperm), early_cons, decide_False.
      * simpl. rewrite (early_ext d (ents s)); [done|]. intros y Hy. apply Hk; [done|done|]. by intros ->.
      * rewrite (same_core_key run_before _ _ x (fun _ => eq_refl) Hc). unfold key.
        rewrite lookup_insert_eq. lia.
  - eexists _, ls, lw. split; [done|]. split; [exact Hwf1|]. split; [done|]. split; [done|].
    intros Hxp Hd. split; try done.
    + split; apply (Hk (<[x := e']> (ents s))); done || congruence.
    + simpl. rewrite (early_ext d (ents s)); [done|]. intros y Hy.
      apply (Hk (<[x := e']> (ents s))); [done|done|]. by intros ->.
Qed.

Lemma act_run p d s ln ls lw a :
  fq_wf s ln ls lw -> act_ok (ents s) a ->
  exists s' ln' ls' lw', run_act a s = Ret (tt, s') /\ fq_wf s' ln' ls' lw' /\ same_rest s s' /\
    alive (ents s) (ents s') /\ (act_later p d a -> harmless p d s ln ls lw s' ln' ls' lw').
Proof.
  intros Hwf Hok. pose proof Hok as (e & He & Ha).
  destruct (unschedule_harmless p d s ln ls lw _ e Hwf He) as (s1 & Hr1 & Hwf1 & Hrest1 & Hal1 & Hh1).
  destruct a as [x after wait before|x]; simpl in *.
  - destruct (Hal1 _ _ He) as (e1 & He1 & _).
    destruct (schedule_harmless p d s1 _ _ _ x e1 after wait before Hwf1 He1) as
      (s2 & ls2 & lw2 & Hr2 & Hwf2 & Hrest2 & Hal2 & Hh2).
    { rewrite elem_of_app, !elem_of_without. tauto. }
    { by eapply act_ok_alive. }
    eexists s2, _, ls2, lw2. unfold reschedule. erewrite FQ_bind_Ret by exact Hr1. split; [exact Hr2|].
    split; [done|]. split; [by eapply same_rest_trans|]. split; [by eapply alive_trans|].
    intros [Hxp Hd]. eapply harmless_trans; [by apply Hh1|by apply Hh2].
  - eexists s1, _, _, _. split; [done|]. split; [exact Hwf1|]. split; [done|]. split; [done|].
    intros [Hxp _]. by apply Hh1.
Qed.

(** The acts of one function. *)
Lemma acts_run p d l s ln ls lw :
  fq_wf s ln ls lw -> Forall (act_ok (ents s)) l ->
  exists s' ln' ls' lw', run_acts l s = Ret (tt, s') /\ fq_wf s' ln' ls' lw' /\ same_rest s s' /\
    (Forall (act_later p d) l -> harmless p d s ln ls lw s' ln' ls' lw').
Proof.
  revert s ln ls lw. induction l as [|a l IH]; intros s ln ls lw Hwf Hok.
  { exists s, ln, ls, lw. split_and!; try done. intros _. by apply harmless_refl. }
  apply Forall_cons in Hok as [Ha Hok].
  destruct (act_run p d s ln ls lw a Hwf Ha) as (s1 & ln1 & ls1 & lw1 & Hr1 & Hwf1 & Hrest1 & Hal1 & Hh1).
  destruct (IH s1 ln1 ls1 lw1 Hwf1) as (s2 & ln2 & ls2 & lw2 & Hr2 & Hwf2 & Hrest2 & Hh2).
  { eapply Forall_impl; [exact Hok|]. intros b. by apply act_ok_alive. }
  exists s2, ln2, ls2, lw2. cbn [run_acts]. erewrite FQ_bind_Ret by exact Hr1. split; [exact Hr2|].
  split; [done|]. split; [by eapply same_rest_trans|].
  intros [Hl1 Hl2]%Forall_cons. eapply harmless_trans; [by apply Hh1|by apply Hh2].
Qed.

Section live.
Context (call : nat -> FQ unit) (clock : nat -> Z)
        (sys_poll : nat -> list pollfd -> Z -> Z * (nat -> Z))
        (nonblock_enxio : nat -> Z -> bool) (set_block : nat -> Z -> Z).

Abbreviation fdpoll := (fd_poll call clock sys_poll nonblock_enxio set_block).

(** An alarm as [run_first] hands it to its function. *)
Definition released (e : sched_ent) : sched_ent :=
  set_poll (set_revents 0 (poll e)) (set_run_after TIME_MS_NEVER_WILL (set_scheduled false e)).

Lemma run_first_spec s p ln ls lw :
  fq_wf s (p :: ln) ls lw ->
  exists s' e, ents s !! p = Some e /\ run_first call p s = call p s' /\
    fq_wf s' ln ls lw /\ ents s' = <[p := released e]> (ents s) /\
    called s' = called s ++ [(p, 0)] /\ fdcount s' = fdcount s.
Proof.
  intros Hwf. pose proof Hwf as [Hnow Hsoon Hwake Hnd Hndw _ _ _ Hw _ Hu].
  simpl in Hnow. destruct Hnow as (Hhd & e & He & Hnow).
  assert ((p ∉ ln) /\ (p ∉ ls)) as [Hpn Hps].
  { simpl in Hnd. apply NoDup_cons in Hnd as [Hp _]. by apply not_elem_of_app in Hp. }
  assert (p ∉ lw) as Hpw by (intros [? _]%Hw; done).
  unfold run_first. erewrite FQ_bind_Ret by (by apply ent_run). erewrite FQ_bind_Ret by done.
  erewrite FQ_bind_Ret by (by apply ent_set_run).
  erewrite FQ_bind_Ret by (apply ent_set_run; simpl; apply lookup_insert_eq).
  unfold call_alarm. erewrite FQ_bind_Ret by done. simpl. rewrite insert_insert_eq.
  erewrite FQ_bind_Ret by (apply ent_set_run; simpl; apply lookup_insert_eq).
  simpl. rewrite insert_insert_eq. erewrite FQ_bind_Ret by done.
  eexists _, e. split; [done|]. split; [done|]. split; [|done].
  assert (fq_wf (set_ents (<[p := released e]> (ents s))
            (set_run_now (_next_run e) (set_run_soon (run_soon s) (set_wake_list (wake_list s) s)))) ln ls lw) as Hwf'.
  { assert (without p (p :: ln) = ln) as Hw1
      by (unfold without; rewrite filter_cons_False by tauto; by apply without_absent).
    rewrite <- Hw1, <- (without_absent p ls Hps), <- (without_absent p lw Hpw).
    apply (fq_wf_without s (p :: ln) ls lw p e); try done.
    - by rewrite Hw1.
    - by rewrite without_absent.
    - by rewrite without_absent.
    - intros q e1 _ Hq. by exists e1.
    - by apply (Hu p e He). }
  destruct Hwf'. by split.
Qed.

(** [move_run_list] reads the clock once. *)
Lemma move_run_list_spec s ln ls lw :
  fq_wf s ln ls lw ->
  exists s' due ls', move_run_list clock s = Ret (tt, s') /\ ls = due ++ ls' /\
    Forall (fun p => key run_after (ents s) p <= clock (syscalls s)) due /\
    Forall (fun p => clock (syscalls s) < key run_after (ents s) p) ls' /\
    fq_wf s' (foldl (fun l p => insert_by (key run_before (ents s)) p l) ln due) ls'
      (foldl (fun l p => without p l) lw due) /\
    same_core (ents s) (ents s') /\ same_rest s s'.
Proof.
  intros Hwf. unfold move_run_list. erewrite FQ_bind_Ret by done. erewrite FQ_bind_Ret by done.
  destruct (move_loop_spec (clock (syscalls s)) (S (size (ents (tick s)))) (tick s) ln ls lw)
    as (s' & due & ls' & Hr & Hls & Hdue & Hlate & Hwf' & Hc & Hrest & _).
  - destruct Hwf. by split.
  - destruct Hwf as [_ Hsoon _ Hnd _ _ _ _ _ _ _]. apply NoDup_app in Hnd as (_ & _ & Hnd).
    apply (seg_length _ _ _ _ _ Hnd) in Hsoon. simpl. lia.
  - by exists s', due, ls'.
Qed.

(** What holds all along: the invariant, no file to watch, and of the alarm [p]
    with the deadline [d] that neither has changed.  [m0] are the alarms there
    were at the start. *)
Context (m0 : ent_map) (p : nat) (d : Z).
Record good s (ln ls lw : list nat) : Prop := {
  gd_wf : fq_wf s ln ls lw;
  gd_count : fdcount s = 0;
  gd_deadline : key run_before (ents s) p = d;
  gd_alive : alive m0 (ents s)
}.

(** [p] is waiting to be called, or will be once the process wakes. *)
Definition pending s (ln lw : list nat) : Prop :=
  p ∈ ln \/ p ∈ lw /\ forall k, key run_after (ents s) p <= clock k.

Lemma elem_of_moved k x ln due :
  x ∈ foldl (fun l q => insert_by k q l) ln due <-> x ∈ ln \/ x ∈ due.
Proof.
  revert ln. induction due as [|q due IH]; intros ln; simpl.
  - split; [by left|]. intros [?|?%elem_of_nil]; done.
  - rewrite IH, insert_by_perm, !elem_of_cons. tauto.
Qed.

Lemma moved_perm k ln due : foldl (fun l q => insert_by k q l) ln due ≡ₚ ln ++ due.
Proof.
  revert ln. induction due as [|q due IH]; intros ln; simpl; [by rewrite app_nil_r|].
  rewrite IH, insert_by_perm. simpl. by rewrite Permutation_middle.
Qed.

(** Moving the alarms that may run brings [p] into [run_now]. *)
Lemma move_pending s s' ln due ls' lw :
  fq_wf s ln (due ++ ls') lw -> same_core (ents s) (ents s') ->
  Forall (fun p => clock (syscalls s) < key run_after (ents s) p) ls' ->
  pending s ln lw -> p ∈ foldl (fun l q => insert_by (key run_before (ents s)) q l) ln due.
Proof.
  intros Hwf Hc Hlate Hp. apply elem_of_moved. destruct Hp as [?|[Hp Hk]]; [by left|].
  destruct Hwf as [_ _ _ _ _ _ _ _ Hw _ _]. apply Hw in Hp as [[?|Hp]%elem_of_app _]; [by right|].
  apply (proj1 (list.Forall_forall _ _) Hlate) in Hp. specialize (Hk (syscalls s)). lia.
Qed.

(** The function of an alarm returns, and that of another alarm than [p] is
    harmless to it. *)
Hypothesis fair : forall q s ln ls lw,
  fq_wf s ln ls lw -> alive m0 (ents s) ->
  exists s' ln' ls' lw', call q s = Ret (tt, s') /\ called s' = called s /\
    (q <> p -> harmless p d s ln ls lw s' ln' ls' lw').

(** After a call of [fd_poll] at most [r] more are needed: [p] was called, or
    waits in [run_now] behind fewer than [r] alarms, or in the wake list with
    [run_now] to be emptied before. *)
Definition rank s (ln ls : list nat) : nat :=
  if decide (p ∈ ln) then early d (ents s) (ln ++ ls) else S (length ln + early d (ents s) (ln ++ ls)).
Definition within (r : nat) s : Prop :=
  p ∈ (called s).*1 \/
  exists ln ls lw, good s ln ls lw /\ pending s ln lw /\ (rank s ln ls <= r)%nat.

(** The first alarm of [run_now] is called. *)
Lemma run_first_good s q ln ls lw :
  good s (q :: ln) ls lw -> pending s (q :: ln) lw ->
  exists s', run_first call q s = Ret (tt, s') /\
    within (if decide (p ∈ q :: ln) then early d (ents s) ((q :: ln) ++ ls) - 1
            else length (q :: ln) + early d (ents s) ((q :: ln) ++ ls)) s'.
Proof.
  intros [Hwf Hfd Hd Hal] Hp.
  destruct (run_first_spec s q ln ls lw Hwf) as (s1 & e & He & Hr & Hwf1 & Hents & Hcalled & Hfd1).
  assert (alive (ents s) (ents s1)) as Hal1.
  { rewrite Hents. by eapply alive_insert. }
  destruct (fair q s1 ln ls lw Hwf1) as (s2 & ln2 & ls2 & lw2 & Hr2 & Hc2 & Hh); [by eapply alive_trans|].
  exists s2. rewrite Hr. split; [exact Hr2|]. destruct (decide (q = p)) as [->|Hqp].
  { left. rewrite Hc2, Hcalled, fmap_app. apply elem_of_app. right. apply list_elem_of_here. }
  right. destruct (Hh Hqp) as [Hwf2 (_ & _ & Hfd2 & _) Hal2 Hlen [Hsn Hsw] [Hkb Hka] Hearly].
  assert (forall f x, x ∈ ln ++ ls \/ x = p -> key f (ents s1) x = key f (ents s) x) as Hk.
  { intros f x Hx. unfold key. rewrite Hents, lookup_insert_ne; [done|]. intros ->.
    destruct Hx as [Hx|]; [|done]. pose proof Hwf as [_ _ _ Hnd _ _ _ _ _ _ _].
    simpl in Hnd. apply NoDup_cons in Hnd as [? _]. done. }
  rewrite (early_ext d (ents s) (ents s1)) in Hearly by (intros x Hx; apply Hk; by left).
  exists ln2, ls2, lw2. split; [|split].
  - split; [done|congruence|rewrite Hkb, Hk; [done|by right]|].
    eapply alive_trans; [exact Hal|]. by eapply alive_trans.
  - destruct Hp as [[->|Hp]%elem_of_cons|[Hp Hka0]]; [done|left; by apply Hsn|].
    right. split; [by apply Hsw|]. intros k. rewrite Hka, Hk; [done|by right].
  - unfold rank. change ((q :: ln) ++ ls) with (q :: (ln ++ ls)). rewrite !early_cons.
    destruct (decide (p ∈ q :: ln)) as [Hin|Hin].
    + rewrite decide_True.
      * rewrite decide_True; [lia|]. rewrite <- Hd.
        pose proof Hwf as [_ _ _ _ _ Ho _ _ _ _ _]. apply StronglySorted_inv in Ho as [_ Ho].
        apply elem_of_cons in Hin as [->|Hin]; [lia|].
        by apply (proj1 (list.Forall_forall _ _) Ho).
      * apply elem_of_cons in Hin as [->|Hin]; [done|by apply Hsn].
    + simpl. case_decide; lia.
Qed.

(** States that reading the clock, sleeping and moving alarms lead to. *)
Definition leads s (ln ls lw : list nat) s1 (ln1 ls1 lw1 : list nat) : Prop :=
  good s1 ln1 ls1 lw1 /\ pending s1 ln1 lw1 /\ called s1 = called s /\
  early d (ents s1) (ln1 ++ ls1) = early d (ents s) (ln ++ ls) /\ (p ∈ ln -> p ∈ ln1).

Lemma leads_refl s ln ls lw : good s ln ls lw -> pending s ln lw -> leads s ln ls lw s ln ls lw.
Proof. intros ? ?. by split_and!. Qed.

Lemma leads_tick s ln ls lw s1 ln1 ls1 lw1 :
  leads s ln ls lw s1 ln1 ls1 lw1 -> leads s ln ls lw (tick s1) ln1 ls1 lw1.
Proof. intros ([[] ? ? ?] & ? & ? & ? & ?). split_and!; done. Qed.

Lemma leads_move s ln ls lw s1 ln1 ls1 lw1 :
  leads s ln ls lw s1 ln1 ls1 lw1 ->
  exists s2 q ln2 ls2 lw2, move_run_list clock s1 = Ret (tt, s2) /\
    leads s ln ls lw s2 (q :: ln2) ls2 lw2 /\ p ∈ q :: ln2.
Proof.
  intros ([Hwf Hfd Hd Hal] & Hp & Hcal & He & Hin). destruct (move_run_list_spec s1 ln1 ls1 lw1 Hwf)
    as (s2 & due & ls' & Hr & -> & Hdue & Hlate & Hwf1 & Hc & (? & ? & Hfd1 & Hcalled)).
  set (ln2 := foldl _ ln1 due) in *.
  assert (p ∈ ln2) as Hpin by (by apply (move_pending s1 s2 ln1 due ls' lw1)).
  assert (ln1 ++ due ++ ls' ≡ₚ ln2 ++ ls') as Hperm2 by (unfold ln2; by rewrite moved_perm, app_assoc).
  destruct ln2 as [|q ln2]; [by apply elem_of_nil in Hpin|]. eexists s2, q, ln2, ls', _. split; [done|].
  split; [|done]. split_and!; [|by left|congruence| |done].
  - split; [exact Hwf1|congruence| |].
    + by rewrite (same_core_key run_before _ _ p (fun _ => eq_refl) Hc).
    + eapply alive_trans; [exact Hal|by apply alive_core].
  - rewrite <- He. rewrite <- (early_perm _ _ _ _ Hperm2). apply early_ext. intros x _.
    by apply same_core_key.
Qed.

Lemma leads_first s ln ls lw s1 q ln1 ls1 lw1 :
  leads s ln ls lw s1 (q :: ln1) ls1 lw1 ->
  run_now s1 = Some q /\ is_Some (ents s1 !! q) /\
  exists s2, run_first call q s1 = Ret (tt, s2) /\
    within (if decide (p ∈ q :: ln1) then early d (ents s) (ln ++ ls) - 1
            else length (q :: ln1) + early d (ents s) (ln ++ ls)) s2.
Proof.
  intros (Hg & Hp & _ & He & _). pose proof Hg as [[(Hq & e & He1 & _) _ _ _ _ _ _ _ _ _ _] _ _ _].
  split; [done|]. split; [by exists e|]. rewrite <- He. by eapply run_first_good.
Qed.

Lemma overdue_run s q : run_now s = Some q -> is_Some (ents s !! q) -> exists b, overdue clock s = Ret (b, tick s).
Proof.
  intros Hq (e & He). unfold overdue. erewrite FQ_bind_Ret by done. rewrite Hq.
  erewrite FQ_bind_Ret by (by apply ent_run). by eexists.
Qed.

Lemma within_le r r' s : within r s -> (r <= r')%nat -> within r' s.
Proof. intros [?|(ln & ls & lw & ? & ? & ?)] ?; [by left|]. right. exists ln, ls, lw. split_and!; try done. lia. Qed.

(** Alarms wait in [run_now]: one of them is called. *)
Lemma poll_call s q ln ls lw :
  good s (q :: ln) ls lw -> pending s (q :: ln) lw ->
  exists s', fdpoll s = Ret (1, s') /\ within (rank s (q :: ln) ls - 1) s'.
Proof.
  intros Hg Hp. pose proof Hg as [Hwf Hfd _ _].
  pose proof (leads_tick _ _ _ _ _ _ _ _ (leads_refl _ _ _ _ Hg Hp)) as Hl.
  destruct (leads_first _ _ _ _ _ _ _ _ _ (leads_refl _ _ _ _ Hg Hp)) as (Hq & He & _).
  destruct (overdue_run s q Hq He) as (b & Hb). unfold fd_poll. erewrite FQ_bind_Ret by exact Hb.
  erewrite FQ_bind_Ret by done. change (run_now (tick s)) with (run_now s). rewrite Hq. destruct b.
  - destruct (leads_first _ _ _ _ _ _ _ _ _ Hl) as (_ & _ & s' & Hr & Hw).
    exists s'. erewrite FQ_bind_Ret by exact Hr. split; [done|]. eapply within_le; [exact Hw|].
    unfold rank. case_decide; lia.
  - do 3 (erewrite FQ_bind_Ret by done). change (fdcount (tick s)) with (fdcount s). rewrite Hfd.
    erewrite FQ_bind_Ret by done.
    destruct (leads_move _ _ _ _ _ _ _ _ Hl) as (s1 & q1 & ln1 & ls1 & lw1 & Hm & Hl1 & Hin).
    erewrite FQ_bind_Ret by exact Hm. erewrite FQ_bind_Ret by done.
    destruct (leads_first _ _ _ _ _ _ _ _ _ Hl1) as (Hq1 & _ & s2 & Hr & Hw). exists s2. split.
    + rewrite (FQ_bind_Ret _ _ s1 tt s2); [done|]. change (0 <? 0) with false. cbv iota.
      erewrite FQ_bind_Ret by done. by rewrite Hq1.
    + rewrite decide_True in Hw by done. eapply within_le; [exact Hw|]. unfold rank. case_decide; lia.
Qed.

(** Nothing is in [run_now] and [p] has to wake the process: an alarm is called,
    or [run_now] is filled for the next call. *)
Lemma poll_wake s ls lw :
  good s [] ls lw -> pending s [] lw -> exists s', fdpoll s = Ret (1, s') /\ within (rank s [] ls - 1) s'.
Proof.
  intros Hg Hpd. pose proof Hg as [Hwf Hfd _ _]. pose proof Hwf as [Hnow _ [Hwake _] _ _ _ _ _ _ _ _]. simpl in Hnow.
  pose proof Hpd as [[]%elem_of_nil|[Hp _]].
  assert (rank s [] ls = S (early d (ents s) ls)) as Hrank.
  { unfold rank. by rewrite decide_False by (by intros []%elem_of_nil). }
  unfold fd_poll. erewrite FQ_bind_Ret by (unfold overdue; erewrite FQ_bind_Ret by done; by rewrite Hnow).
  do 3 (erewrite FQ_bind_Ret by done). rewrite Hnow, Hfd.
  destruct lw as [|w lw]; [by apply elem_of_nil in Hp|]. simpl in Hwake. destruct Hwake as (-> & e & He & _).
  erewrite FQ_bind_Ret by (erewrite FQ_bind_Ret by (by apply ent_run); by erewrite FQ_bind_Ret by done).
  set (ms := Z.max 0 _).
  pose proof (leads_tick _ _ _ _ _ _ _ _ (leads_refl _ _ _ _ Hg Hpd)) as Hl.
  assert (exists s0, (if negb (0 =? 0) || (0 <? ms) then if 0 =? 0 then fmodify tick;; mret 0 else poll_fds sys_poll ms
            else mret 0) (tick s) = Ret (0, s0) /\ leads s [] ls (w :: lw) s0 [] ls (w :: lw)) as (s0 & Hr0 & Hl0).
  { simpl. destruct (0 <? ms); eexists; (split; [done|]); [by apply leads_tick|done]. }
  erewrite FQ_bind_Ret by exact Hr0.
  destruct (leads_move _ _ _ _ _ _ _ _ Hl0) as (s1 & q1 & ln1 & ls1 & lw1 & Hm & Hl1 & Hin).
  erewrite FQ_bind_Ret by exact Hm. destruct (leads_first _ _ _ _ _ _ _ _ _ Hl1) as (Hq1 & He1 & _).
  assert (exists b s3, (if negb (ms =? 0) then overdue clock else mret false) s1 = Ret (b, s3) /\
            leads s [] ls (w :: lw) s3 (q1 :: ln1) ls1 lw1) as (b & s3 & Hb & Hl3).
  { destruct (overdue_run s1 q1 Hq1 He1) as (b & Hb).
    destruct (negb (ms =? 0)); eexists _, _; (split; [done|]); [by apply leads_tick|done]. }
  erewrite FQ_bind_Ret by exact Hb. destruct b.
  - exists s3. split; [done|]. right. destruct Hl3 as (Hg3 & Hp3 & _ & He3 & _).
    eexists _, _, _. split; [exact Hg3|]. split; [done|]. unfold rank in *.
    rewrite (decide_True _ _ Hin), He3. simpl in *. lia.
  - destruct (leads_first _ _ _ _ _ _ _ _ _ Hl3) as (Hq3 & _ & s2 & Hr & Hw). exists s2. split.
    + rewrite (FQ_bind_Ret _ _ s3 tt s2); [done|]. change (0 <? 0) with false. cbv iota.
      erewrite FQ_bind_Ret by done. by rewrite Hq3.
    + rewrite decide_True in Hw by done. eapply within_le; [exact Hw|]. simpl. lia.
Qed.

(** [n] calls of [fd_poll]. *)
Fixpoint polls (n : nat) : FQ unit :=
  match n with
  | O => mret tt
  | S n => fdpoll;; polls n
  end.

Lemma polls_S n s x s' : fdpoll s = Ret (x, s') -> polls (S n) s = polls n s'.
Proof. intros E. cbn [polls]. by erewrite FQ_bind_Ret by exact E. Qed.

(** While [p] waits its rank is not 0. *)
Lemma rank_pos s ln ls lw : good s ln ls lw -> (0 < rank s ln ls)%nat.
Proof.
  intros [_ _ Hd _]. unfold rank. case_decide as Hin; [|lia].
  destruct (list_elem_of_split _ _ (proj2 (elem_of_app ln ls p) (or_introl Hin))) as (l1 & l2 & ->).
  rewrite early_app, early_cons, decide_True; lia.
Qed.

Lemma polls_within r s : within r s -> exists k s', (k <= r)%nat /\ polls k s = Ret (tt, s') /\ p ∈ (called s').*1.
Proof.
  revert s. induction r as [|r IH]; intros s [Hc|(ln & ls & lw & Hg & Hp & Hr)].
  - exists 0%nat, s. by split_and!.
  - pose proof (rank_pos s ln ls lw Hg). lia.
  - exists 0%nat, s. split_and!; try done. lia.
  - assert (exists s', fdpoll s = Ret (1, s') /\ within (rank s ln ls - 1) s') as (s1 & Hr1 & Hw).
    { destruct ln; [by eapply poll_wake|by eapply poll_call]. }
    destruct (IH s1) as (k & s2 & Hk & Hr2 & Hin); [eapply within_le; [exact Hw|lia]|].
    exists (S k), s2. erewrite polls_S by exact Hr1. split_and!; try done. lia.
Qed.
End live.
