(* ===== verification/FdQueueTheorems.v ===== *)
(** * The event loop: theorems

    What [_schedule], [_unschedule] and [move_run_list] do to the sorted
    sequences of alarms, and that the loop calls every alarm that is due. *)

From stdpp Require Import base tactics list fin_maps gmap sorting.
From Stdlib Require Import ZArith Lia.
From S2P Require Import Prelude Linked FdQueue FdQueueLists FdQueueSpec FdQueueLive.

Local Open Scope Z_scope.
Implicit Types (m : ent_map) (s : fq_state).

(** ** A small schedule *)

Definition idle_ent (after wake before : Z) : sched_ent :=
  SchedEnt None None None false true (PollFd (-1) 0 0) after 0 0 wake before (-1).
Definition idle_state : fq_state :=
  FQState (<[0%nat := idle_ent 30 40 90]> (<[1%nat := idle_ent 0 20 50]> (<[2%nat := idle_ent 10 20 40]> ∅)))
          None None None [] [] 0 [] 0.
Definition linked_ent (nw pw nr : option nat) (after wake before : Z) : sched_ent :=
  SchedEnt nw pw nr true true (PollFd (-1) 0 0) after wake before wake before (-1).
(** The three alarms scheduled, at time 15: 2 is in [run_now]. *)
Definition busy_state : fq_state :=
  FQState (<[0%nat := linked_ent None (Some 1%nat) None 30 40 90]>
          (<[1%nat := linked_ent (Some 0%nat) None (Some 0%nat) 20 20 50]>
          (<[2%nat := linked_ent None None None 10 20 40]> ∅)))
          (Some 2%nat) (Some 1%nat) (Some 1%nat) [] [] 0 [] 1.
Example busy_reached :
  (_schedule 0;; _schedule 1;; _schedule 2;; move_run_list (fun _ => 15)) idle_state = Ret (tt, busy_state).
Proof. vm_compute. reflexivity. Qed.

Lemma idle_ents p e : ents idle_state !! p = Some e -> _scheduled e = false /\ unlinked e.
Proof.
  unfold idle_state. simpl. rewrite !lookup_insert.
  repeat case_decide; intros ?; simplify_eq; by split.
Qed.

Lemma idle_wf : fq_wf idle_state [] [] [].
Proof.
  split; [done|done|by split|constructor..| | |].
  - intros p. split; [by intros []%elem_of_nil|by intros [[]%elem_of_nil _]].
  - intros p e [-> _]%idle_ents. split; [done|by intros []%elem_of_nil].
  - by intros p e [_ ?]%idle_ents _.
Qed.

Lemma busy_ents p e : ents busy_state !! p = Some e ->
  p ∈ [2; 1; 0]%nat /\ _scheduled e = true /\ (p ∉ [1; 0]%nat -> unlinked e).
Proof.
  unfold busy_state. simpl. rewrite !lookup_insert.
  repeat case_decide; intros ?; simplify_eq; (split; [set_solver|split; [done|]]); intros Hp; try done; destruct Hp; set_solver.
Qed.

Lemma busy_wf : fq_wf busy_state [2%nat] [1; 0]%nat [1; 0]%nat.
Proof.
  split.
  - split; [done|]. by eexists.
  - split; [done|]. eexists. split; [done|]. split; [done|]. by eexists.
  - split; [|repeat split; by eexists]. split; [done|]. eexists. split; [done|]. split; [done|]. by eexists.
  - by apply (bool_decide_unpack _).
  - by apply (bool_decide_unpack _).
  - repeat constructor.
  - repeat constructor; by vm_compute.
  - repeat constructor; by vm_compute.
  - intros p. split; [|by intros [? _]]. intros Hp. split; [done|].
    repeat (apply elem_of_cons in Hp as [-> | Hp]; [by vm_compute|]). by apply elem_of_nil in Hp.
  - intros p e (Hp & -> & _)%busy_ents. done.
  - by intros p e (_ & _ & Hu)%busy_ents Hp%Hu.
Qed.

(** C18: [_schedule] puts an alarm that may run at some time, behind those that
    may run as early, into the list ordered by [run_after] and, when it has to
    wake the process, into the one ordered by [wake_at], and marks it
    scheduled; the invariant of the three linked lists holds of the result and
    nothing but the times, the links and the flag of alarms changes.  An alarm
    that never runs only gets its times.  An alarm that may wake or has its
    deadline before it may run, is scheduled already or has no function, stops
    the program. *)
Theorem schedule_spec s ln ls lw p e :
  fq_wf s ln ls lw -> ents s !! p = Some e ->
  let e' := prepared e in
  let m := <[p := e']> (ents s) in
  if (run_after e' <=? wake_at e') && (run_after e' <=? run_before e') && negb (_scheduled e) && function e
  then exists s', _schedule p s = Ret (tt, s') /\ same_core m (ents s') /\ same_rest s s' /\
       (if run_after e' =? TIME_MS_NEVER_WILL then fq_wf s' ln ls lw /\ s' = set_ents m s
        else fq_wf s' ln (insert_by (key run_after m) p ls)
               (if wake_at e' =? TIME_MS_NEVER_WILL then lw else insert_by (key wake_at m) p lw))
  else _schedule p s = Abort.
Proof.
  intros Hwf He e' m. rewrite (schedule_run p e s He). cbv zeta. fold e'. fold m.
  destruct (prepared_fields e) as (Hsch & Hn & Hb & Hf). fold e' in Hsch, Hn, Hb, Hf. rewrite Hsch, Hf.
  destruct (_ && _) eqn:Ec; [|done].
  assert (_scheduled e = false) as Hfree by (destruct (_scheduled e); [|done]; by rewrite ?andb_false_r in Ec).
  assert (fq_wf (set_ents m s) ln ls lw) as Hwf1.
  { apply (fq_wf_update s ln ls lw p e e'); try done. pose proof Hwf as [_ _ _ _ _ _ _ _ _ Hs _].
    intros ?%(Hs p e He). congruence. }
  destruct (run_after e' =? TIME_MS_NEVER_WILL) eqn:En; simpl negb; cbv iota.
  - by eexists.
  - destruct (enter_spec (set_ents m s) ln ls lw p e' Hwf1) as (s' & Hr & Hwf' & Hc & Hrest).
    { simpl. apply lookup_insert_eq. }
    { congruence. }
    by exists s'.
Qed.

Lemma schedule_spec_witness :
  exists s', _schedule 0 idle_state = Ret (tt, s') /\ fq_wf s' [] [0%nat] [0%nat].
Proof.
  destruct (schedule_spec idle_state [] [] [] 0%nat (idle_ent 30 40 90) idle_wf eq_refl)
    as (s' & Hr & _ & _ & Hwf).
  exists s'. split; [exact Hr|exact Hwf].
Defined.

(** C19: [_unschedule] takes a scheduled alarm out of every list and leaves the
    order of the others and everything else as it was; it does nothing to an
    alarm that is not scheduled, so that unscheduling twice is unscheduling
    once. *)
Theorem unschedule_spec s ln ls lw p e :
  fq_wf s ln ls lw -> ents s !! p = Some e ->
  exists s', _unschedule p s = Ret (tt, s') /\ same_rest s s' /\ _unschedule p s' = Ret (tt, s') /\
    fq_wf s' (without p ln) (without p ls) (without p lw) /\
    (if _scheduled e then same_core (<[p := set_run_after TIME_MS_NEVER_WILL e]> (ents s)) (ents s') else s' = s).
Proof.
  intros Hwf He. unfold _unschedule, is_scheduled.
  assert (forall s0 e0, ents s0 !! p = Some e0 ->
     (ent p ≫= λ e1, mret (_scheduled e1)) s0 = Ret (_scheduled e0, s0)) as His
    by (intros s0 e0 He0; by erewrite FQ_bind_Ret by (by apply ent_run)).
  rewrite (FQ_bind_Ret _ _ _ _ _ (His s e He)). destruct (_scheduled e) eqn:Es; simpl negb; cbv iota.
  - destruct (leave_spec s ln ls lw p e Hwf He) as (s' & Hr & Hwf' & Hrest & Hc).
    exists s'. split_and!; try done. pose proof Hc as Hp. apply (f_equal (fun x => x !! p)) in Hp.
    rewrite !lookup_fmap, lookup_insert_eq in Hp. destruct (ents s' !! p) as [e1|] eqn:He1; [|done].
    rewrite (FQ_bind_Ret _ _ _ _ _ (His s' e1 He1)).
    destruct (_scheduled e1) eqn:Es1; [|done]. exfalso. destruct Hwf' as [_ _ _ _ _ _ _ _ _ Hs _].
    apply (Hs p e1 He1) in Es1. by apply elem_of_app in Es1 as [[? _]%elem_of_without|[? _]%elem_of_without].
  - exists s. split_and!; try done; [by rewrite (FQ_bind_Ret _ _ _ _ _ (His s e He)), Es|].
    assert (p ∉ ln ++ ls) as Hp.
    { pose proof Hwf as [_ _ _ _ _ _ _ _ _ Hs _]. intros ?%(Hs p e He). congruence. }
    apply not_elem_of_app in Hp as [Hpn Hps]. rewrite !without_absent; try done.
    pose proof Hwf as [_ _ _ _ _ _ _ _ Hw _ _]. by intros [? _]%Hw.
Qed.

Lemma unschedule_spec_witness :
  exists s', _unschedule 0 busy_state = Ret (tt, s') /\ fq_wf s' [2%nat] [1%nat] [1%nat].
Proof.
  destruct (unschedule_spec busy_state [2%nat] [1; 0]%nat [1; 0]%nat 0%nat _ busy_wf eq_refl)
    as (s' & Hr & _ & _ & Hwf & _).
  exists s'. split; [exact Hr|exact Hwf].
Defined.

(** [move_run_list] moves exactly the alarms that may run at the time it
    reads, each behind those of [run_now] with as early a deadline, out of the
    wake list as well; the others keep their order. *)
Theorem move_run_list_due clock s ln ls lw :
  fq_wf s ln ls lw ->
  exists s' due ls', move_run_list clock s = Ret (tt, s') /\ ls = due ++ ls' /\
    (forall p, p ∈ due <-> p ∈ ls /\ key run_after (ents s) p <= clock (syscalls s)) /\
    fq_wf s' (foldl (fun l p => insert_by (key run_before (ents s)) p l) ln due) ls'
      (foldl (fun l p => without p l) lw due) /\
    same_core (ents s) (ents s') /\ same_rest s s'.
Proof.
  intros Hwf. destruct (move_run_list_spec clock s ln ls lw Hwf)
    as (s' & due & ls' & Hr & -> & Hdue & Hlate & Hwf' & Hc & Hrest).
  exists s', due, ls'. split_and!; try done. intros p. rewrite elem_of_app. split.
  - intros Hp. split; [by left|]. by apply (proj1 (list.Forall_forall _ _) Hdue).
  - intros [[?|Hp] ?]; [done|]. apply (proj1 (list.Forall_forall _ _) Hlate) in Hp. lia.
Qed.

Lemma move_run_list_due_witness :
  exists s' due ls', move_run_list (fun _ => 25) busy_state = Ret (tt, s') /\ [1; 0]%nat = due ++ ls' /\
    (forall p, p ∈ due <-> p ∈ [1; 0]%nat /\ key run_after (ents busy_state) p <= 25).
Proof.
  destruct (move_run_list_due (fun _ => 25) busy_state [2%nat] [1; 0]%nat [1; 0]%nat busy_wf)
    as (s' & due & ls' & Hr & Hls & Hdue & _).
  exists s', due, ls'. split; [exact Hr|]. split; [exact Hls|exact Hdue].
Defined.

(** C17: With no file to watch, no alarm starves the others.  Take an alarm [p]
    that is in [run_now], or that has to wake the process and may run by now, and
    let the functions of the alarms do, each time they are called and depending
    on the state, any sequence of calls of [RESCHEDULE] and [unschedule] that
    stops on no assertion (themselves and others, so that periodic alarms are
    included), as long as the functions of the others leave [p] alone and give
    no alarm a deadline as early as its own.  Then [p] is called within as many
    calls of [fd_poll] as there are alarms in [run_now] and scheduled alarms with
    a deadline no later than its own, and one: alarms with later deadlines that
    keep being scheduled do not delay it further. *)
Theorem fd_poll_calls_due acts clock sys_poll nonblock_enxio set_block s ln ls lw p e :
  fq_wf s ln ls lw -> fdcount s = 0 -> ents s !! p = Some e ->
  (forall q s' a, a ∈ acts q s' -> act_ok (ents s) a /\ (q <> p -> act_later p (run_before e) a)) ->
  p ∈ ln \/ (p ∈ lw /\ forall k, run_after e <= clock k) ->
  exists k s', (k <= S (length ln + early (run_before e) (ents s) (ln ++ ls)))%nat /\
    polls (does acts) clock sys_poll nonblock_enxio set_block k s = Ret (tt, s') /\ p ∈ (called s').*1.
Proof.
  intros Hwf Hfd He Hacts Hp.
  assert (forall f, key f (ents s) p = f e) as Hk by (intros f; unfold key; by rewrite He).
  apply (polls_within (does acts) clock sys_poll nonblock_enxio set_block (ents s) p (run_before e)).
  - intros q s1 ln1 ls1 lw1 Hwf1 Hal.
    destruct (acts_run p (run_before e) (acts q s1) s1 ln1 ls1 lw1 Hwf1)
      as (s2 & ln2 & ls2 & lw2 & Hr & _ & (_ & _ & _ & Hc) & Hh).
    { apply list.Forall_forall. intros a Ha. eapply act_ok_alive; [exact Hal|]. by apply (Hacts q s1). }
    exists s2, ln2, ls2, lw2. split_and!; [exact Hr|done|]. intros Hq. apply Hh.
    apply list.Forall_forall. intros a Ha. by apply (Hacts q s1).
  - right. exists ln, ls, lw. split_and!.
    + split; [done|done|by rewrite Hk|apply alive_refl].
    + destruct Hp as [?|[? Hka]]; [by left|]. right. split; [done|]. intros k. by rewrite Hk.
    + unfold rank. case_decide; lia.
Qed.

(** The alarms 1 and 2 are periodic. *)
Definition periodic (q : nat) (s : fq_state) : list alarm_act :=
  if Nat.eqb q 1 || Nat.eqb q 2 then [Resched q 20 20 200] else [].

Lemma periodic_ok q s a :
  a ∈ periodic q s -> act_ok (ents busy_state) a /\ (q <> 0%nat -> act_later 0 90 a).
Proof.
  unfold periodic. destruct (Nat.eqb_spec q 1) as [->|]; [|destruct (Nat.eqb_spec q 2) as [->|]]; simpl;
    [intros ->%list_elem_of_singleton..|by intros []%elem_of_nil];
    (split; [eexists; split; [reflexivity|]; split; [reflexivity|vm_compute; split; discriminate]|]);
    intros _; split; [done|lia|done|lia].
Qed.


Lemma fd_poll_calls_due_witness :
  exists k s', (k <= 5)%nat /\
    polls (does periodic) (fun _ => 35) (fun _ _ _ => (0, fun _ => 0)) (fun _ _ => false) (fun _ _ => 0)
      k busy_state = Ret (tt, s') /\ 0%nat ∈ (called s').*1.
Proof.
  apply (fd_poll_calls_due periodic (fun _ => 35) (fun _ _ _ => (0, fun _ => 0))
           (fun _ _ => false) (fun _ _ => 0) busy_state [2%nat] [1; 0]%nat [1; 0]%nat 0%nat
           (linked_ent None (Some 1%nat) None 30 40 90)).
  - exact busy_wf.
  - reflexivity.
  - reflexivity.
  - exact periodic_ok.
  - right. split; [repeat constructor|]. intros k. vm_compute. discriminate.
Defined.
