(* ===== verification/FdQueueWatch.v ===== *)
(** * The event loop: the table of descriptors

    [fds] and [fd_callbacks] hold the watched alarms without a gap, and the
    index of each alarm is where it is. *)

From stdpp Require Import base tactics list fin_maps gmap.
From Stdlib Require Import ZArith Lia.
From S2P Require Import Prelude Linked FdQueue FdQueueLists.

Local Open Scope Z_scope.
Implicit Types (s : fq_state) (l : list nat).

(** [poll_wf s l]: the alarms of [l] are watched, in this order. *)
Record poll_wf s l : Prop := {
  pw_fds : length (fds s) = Z.to_nat MAX_WATCHED_FDS;
  pw_callbacks : length (fd_callbacks s) = Z.to_nat MAX_WATCHED_FDS;
  pw_count : fdcount s = Z.of_nat (length l);
  pw_bound : (length l <= Z.to_nat MAX_WATCHED_FDS)%nat;
  pw_at : forall i p, l !! i = Some p -> fd_callbacks s !! i = Some (Some p) /\
    exists e f, ents s !! p = Some e /\ _poll_index e = Z.of_nat i /\ fds s !! i = Some f /\ fd f = fd (poll e);
  pw_free : forall i c, (length l <= i)%nat -> fd_callbacks s !! i = Some c -> c = None;
  pw_index : forall p e, ents s !! p = Some e -> 0 <= _poll_index e -> l !! Z.to_nat (_poll_index e) = Some p
}.

Lemma zlookup_nat {A} (l : list A) i : zlookup (Z.of_nat i) l = l !! i.
Proof. unfold zlookup. destruct (Z.ltb_spec (Z.of_nat i) 0); [lia|]. by rewrite Nat2Z.id. Qed.

Lemma fds_get_run i f s : fds s !! i = Some f -> fds_get (Z.of_nat i) s = Ret (f, s).
Proof. intros Hi. unfold fds_get. erewrite FQ_bind_Ret by done. by rewrite zlookup_nat, Hi. Qed.
Lemma fds_put_run i f x s :
  fds s !! i = Some f -> fds_put (Z.of_nat i) x s = Ret (tt, set_fds (<[i := x]> (fds s)) s).
Proof.
  intros Hi. unfold fds_put. erewrite FQ_bind_Ret by (by apply fds_get_run). unfold fmodify. by rewrite Nat2Z.id.
Qed.
Lemma callback_get_run i c s : fd_callbacks s !! i = Some c -> callback_get (Z.of_nat i) s = Ret (c, s).
Proof. intros Hi. unfold callback_get. erewrite FQ_bind_Ret by done. by rewrite zlookup_nat, Hi. Qed.
Lemma callback_put_run i c x s :
  fd_callbacks s !! i = Some c ->
  callback_put (Z.of_nat i) x s = Ret (tt, set_callbacks (<[i := x]> (fd_callbacks s)) s).
Proof.
  intros Hi. unfold callback_put. erewrite FQ_bind_Ret by (by apply callback_get_run). unfold fmodify. by rewrite Nat2Z.id.
Qed.

Lemma poll_wf_unwatched s l p e : poll_wf s l -> ents s !! p = Some e -> p ∉ l <-> _poll_index e < 0.
Proof.
  intros [] He. split.
  - intros Hp. destruct (Z.lt_ge_cases (_poll_index e) 0); [done|]. destruct Hp.
    eapply list_elem_of_lookup_2. by apply (pw_index0 p e).
  - intros Hi (i & Hl)%list_elem_of_lookup. destruct (pw_at0 i p Hl) as (_ & e' & f & He' & ? & _).
    simplify_eq. lia.
Qed.

Lemma poll_wf_lookup s l i p : poll_wf s l -> l !! i = Some p ->
  exists e f, ents s !! p = Some e /\ _poll_index e = Z.of_nat i /\ fds s !! i = Some f /\ fd f = fd (poll e) /\
    fd_callbacks s !! i = Some (Some p) /\ (forall j, l !! j = Some p -> j = i).
Proof.
  intros [] Hi. destruct (pw_at0 i p Hi) as (Hc & e & f & He & Hx & Hf & Hfd). exists e, f. split_and!; try done.
  intros j Hj. destruct (pw_at0 j p Hj) as (_ & e' & ? & He' & Hx' & _). simplify_eq. lia.
Qed.

(** The events to wait for may change. *)
Lemma watch_again s l i p e f :
  poll_wf s l -> l !! i = Some p -> ents s !! p = Some e -> fds s !! i = Some f ->
  poll_wf (set_fds (<[i := poll e]> (fds s)) s) l.
Proof.
  intros Hwf Hi He Hf. destruct (poll_wf_lookup s l i p Hwf Hi) as (e' & f' & He' & Hx & Hf' & Hfd & Hc & Hu).
  destruct Hwf. split; simpl; try done; [by rewrite length_insert|]. intros j q Hj.
  destruct (pw_at0 j q Hj) as (Hcj & ej & fj & Hej & Hxj & Hfj & Hfdj). split; [done|].
  exists ej. destruct (decide (i = j)) as [<-|Hne].
  - exists (poll e). simplify_eq. split_and!; try done. apply list_lookup_insert_eq. by apply lookup_lt_Some in Hf.
  - exists fj. split_and!; try done. by rewrite list_lookup_insert_ne.
Qed.

Lemma watch_new s l p e :
  poll_wf s l -> ents s !! p = Some e -> p ∉ l -> (length l < Z.to_nat MAX_WATCHED_FDS)%nat ->
  let e' := set_poll_index (fdcount s) (set_poll (set_revents 0 (poll e)) e) in
  poll_wf (set_fds (<[length l := poll e']> (fds s))
            (set_fdcount (fdcount s + 1) (set_ents (<[p := e']> (ents s))
              (set_callbacks (<[length l := Some p]> (fd_callbacks s)) s)))) (l ++ [p]).
Proof.
  intros Hwf He Hp Hlt e'. destruct Hwf. split; simpl; try (rewrite ?length_insert, ?length_app; simpl; lia || done).
  - intros i q [Hi|[Hi Hq]]%lookup_app_Some.
    + destruct (pw_at0 i q Hi) as (Hc & eq & f & Heq & Hx & Hf & Hfd).
      assert (length l <> i) by (apply lookup_lt_Some in Hi; lia).
      assert (p <> q) by (intros ->; by apply Hp, list_elem_of_lookup_2 with i).
      rewrite list_lookup_insert_ne by done. split; [done|]. exists eq, f.
      by rewrite lookup_insert_ne, list_lookup_insert_ne by done.
    + apply list_lookup_singleton_Some in Hq as [Hi0 <-]. assert (i = length l) as -> by lia.
      split; [apply list_lookup_insert_eq; lia|]. exists e', (poll e').
      split_and!; [apply lookup_insert_eq|done|apply list_lookup_insert_eq; lia|done].
  - intros i c Hi. rewrite length_app in Hi. simpl in Hi. rewrite list_lookup_insert_ne by lia. apply pw_free0. lia.
  - intros q eq. rewrite lookup_insert. case_decide as E.
    + intros [= <-] _. subst q. simpl. rewrite pw_count0, Nat2Z.id. by rewrite lookup_app_r, Nat.sub_diag by lia.
    + intros Hq Hx. apply lookup_app_l_Some. by apply (pw_index0 q eq).
Qed.

(** The last alarm takes the place of the one that leaves. *)
Definition squash (i n q : nat) l : list nat := <[i := q]> (take n l).

Lemma squash_perm i n p q l :
  l !! i = Some p -> l !! n = Some q -> length l = S n -> l ≡ₚ p :: squash i n q l.
Proof.
  intros Hi Hn Hl. unfold squash. assert (l = take n l ++ [q]) as El.
  { rewrite <- (take_S_r l n q Hn), <- Hl. by rewrite firstn_all. }
  pose proof (lookup_lt_Some _ _ _ Hi) as Hlt. destruct (decide (i = n)) as [->|Hne].
  - simplify_eq. rewrite list_insert_ge by (rewrite length_take; lia). rewrite El at 1.
    by rewrite Permutation_app_comm.
  - assert (take n l !! i = Some p) as Hk by (rewrite lookup_take_lt; [done|lia]).
    assert (i < length (take n l))%nat as Hlt' by (by eapply lookup_lt_Some).
    rewrite insert_take_drop by done. rewrite El at 1. rewrite <- (take_drop_middle _ _ _ Hk) at 1.
    rewrite <- (Permutation_middle (take i _) (drop (S i) _) q), <- app_assoc. simpl.
    rewrite <- Permutation_middle. constructor. rewrite app_assoc, Permutation_app_comm. done.
Qed.

(** The state when the alarm [p] has left place [i] and the last one, [q], has
    moved there from place [n]. *)
Definition unwatched s (i n p : nat) (e : sched_ent) (q : nat) (eq : sched_ent) (f : pollfd) : fq_state :=
  FQState (<[p := set_poll_index (-1) e]> (<[q := set_poll_index (Z.of_nat i) eq]> (ents s)))
    (run_now s) (run_soon s) (wake_list s)
    (<[n := set_fd (-1) f]> (<[i := f]> (fds s)))
    (<[n := None]> (<[i := Some q]> (fd_callbacks s)))
    (Z.of_nat n) (called s) (syscalls s).

Lemma unwatch_wf s l i n p q e eq f :
  poll_wf s l -> l !! i = Some p -> l !! n = Some q -> length l = S n ->
  ents s !! p = Some e -> ents s !! q = Some eq -> fds s !! n = Some f ->
  poll_wf (unwatched s i n p e q eq f) (squash i n q l).
Proof.
  intros Hwf Hi Hn Hl He Heq Hf. unfold squash. pose proof (lookup_lt_Some _ _ _ Hi) as Hlt.
  destruct (poll_wf_lookup s l i p Hwf Hi) as (? & fi & Hep & Hxp & Hfi & Hfdp & _ & Hup).
  destruct (poll_wf_lookup s l n q Hwf Hn) as (? & fn & Heqq & Hxq & Hfn & Hfdq & _ & Huq).
  simplify_eq. destruct Hwf.
  assert (length (<[i := q]> (take n l)) = n) as Hlen by (rewrite length_insert, length_take; lia).
  split; simpl; rewrite ?Hlen, ?length_insert; try done; try lia.
  - intros j x Hj. pose proof (lookup_lt_Some _ _ _ Hj) as Hjn. rewrite Hlen in Hjn.
    rewrite !(list_lookup_insert_ne _ n j) by lia. destruct (decide (i = j)) as [<-|Hij].
    + rewrite list_lookup_insert_eq in Hj by (rewrite length_take; lia). simplify_eq.
      rewrite !list_lookup_insert_eq by lia. split; [done|].
      assert (p <> x) as Hpx by (intros ->; specialize (Hup n Hn); lia).
      eexists _, _. split_and!; [rewrite lookup_insert_ne by done; apply lookup_insert_eq|done|done|done].
    + rewrite list_lookup_insert_ne in Hj by done. rewrite lookup_take_lt in Hj by lia.
      destruct (pw_at0 j x Hj) as (Hc & ex & fx & Hex & Hxx & Hfx & Hfdx).
      assert (p <> x) by (intros ->; specialize (Hup j Hj); lia).
      assert (q <> x) by (intros ->; specialize (Huq j Hj); lia).
      rewrite !list_lookup_insert_ne, !lookup_insert_ne by done. split; [done|]. by exists ex, fx.
  - intros j c Hj. destruct (decide (n = j)) as [<-|Hne].
    + rewrite list_lookup_insert_eq by (rewrite length_insert; lia). by intros [= <-].
    + rewrite !list_lookup_insert_ne by lia. apply pw_free0. lia.
  - intros x ex Hx Hpos. rewrite lookup_insert in Hx. case_decide as Ep; [simplify_eq; simpl in Hpos; lia|].
    rewrite lookup_insert in Hx. case_decide as Eq.
    + simplify_eq. simpl. rewrite Nat2Z.id. apply list_lookup_insert_eq. rewrite length_take.
      assert (i <> n) by (intros ->; simplify_eq). lia.
    + pose proof (pw_index0 x ex Hx Hpos) as Hxl.
      rewrite list_lookup_insert_ne by (intros Eix; rewrite <- Eix in Hxl; simplify_eq).
      rewrite lookup_take_lt; [done|]. pose proof (lookup_lt_Some _ _ _ Hxl).
      assert (Z.to_nat (_poll_index ex) <> n) by (intros Eix; rewrite Eix in Hxl; simplify_eq). lia.
Qed.

Lemma insert_place {A} (k : list A) i n x : k !! n = Some x -> <[i := x]> k !! n = Some x.
Proof.
  intros Hn. destruct (decide (i = n)) as [->|]; [|by rewrite list_lookup_insert_ne].
  apply list_lookup_insert_eq. by apply lookup_lt_Some in Hn.
Qed.

(** ** A table with one descriptor *)

Definition table_ent (n i : Z) : sched_ent :=
  SchedEnt None None None false true (PollFd n 1 0) TIME_MS_NEVER_WILL 0 0 TIME_MS_NEVER_WILL TIME_MS_NEVER_WILL i.
Definition table_state : fq_state :=
  FQState (<[0%nat := table_ent 7 0]> (<[1%nat := table_ent 9 (-1)]> ∅)) None None None
          (PollFd 7 1 0 :: replicate 127 (PollFd 0 0 0)) (Some 0%nat :: replicate 127 None) 1 [] 0.

Lemma table_wf : poll_wf table_state [0%nat].
Proof.
  split; try done.
  - vm_compute. lia.
  - intros i p. destruct i; [|done]. intros [= <-]. split; [done|]. by eexists _, _.
  - intros [|i] c Hi; [simpl in Hi; lia|]. unfold table_state, fd_callbacks. rewrite <- lookup_tail. by intros [-> _]%lookup_replicate.
  - intros p e. unfold table_state. simpl. rewrite !lookup_insert.
    repeat case_decide; intros ?; simplify_eq; [done|]. simpl. lia.
Qed.

(** ** The theorems *)

(** [_watch] gives an alarm the next free place of the table, or keeps the
    one it has, and copies what it waits for there; it refuses the 129th, and
    stops the program on an alarm without a function or events.  The table
    stays without gaps, with the index of each alarm where it is. *)
Theorem watch_spec s l p e :
  poll_wf s l -> ents s !! p = Some e ->
  if negb (function e && negb (events (poll e) =? 0)) then _watch p s = Abort
  else if negb (bool_decide (p ∈ l)) && (MAX_WATCHED_FDS <=? zlen l) then _watch p s = Ret (-1, s)
  else exists s' i, _watch p s = Ret (0, s') /\
    poll_wf s' (if bool_decide (p ∈ l) then l else l ++ [p]) /\ fd_callbacks s' !! i = Some (Some p) /\
    exists e', ents s' !! p = Some e' /\ fds s' !! i = Some (poll e') /\ _poll_index e' = Z.of_nat i /\
      fd (poll e') = fd (poll e) /\ events (poll e') = events (poll e).
Proof.
  intros Hwf He. unfold _watch. erewrite FQ_bind_Ret by (by apply ent_run).
  destruct (function e); [|done]. destruct (events (poll e) =? 0); [done|]. do 2 (erewrite FQ_bind_Ret by done).
  case_bool_decide as Hp; simpl.
  - apply list_elem_of_lookup in Hp as (i & Hi).
    destruct (poll_wf_lookup s l i p Hwf Hi) as (e' & f & He' & Hx & Hf & Hfd & Hc & Hu). simplify_eq.
    rewrite Hx. destruct (Z.leb_spec 0 (Z.of_nat i)); [|lia].
    erewrite FQ_bind_Ret by (by erewrite FQ_bind_Ret by (by apply callback_get_run)).
    rewrite bool_decide_true by done. erewrite FQ_bind_Ret by done. cbv iota.
    erewrite FQ_bind_Ret by (by apply ent_run). rewrite Hx. erewrite FQ_bind_Ret by (by apply (fds_put_run i f)).
    exists (set_fds (<[i := poll e]> (fds s)) s), i. split_and!; [done|by eapply watch_again|done|].
    exists e. split_and!; try done. simpl. apply list_lookup_insert_eq. by apply lookup_lt_Some in Hf.
  - pose proof Hp as Hx%(poll_wf_unwatched s l p e Hwf He). destruct (Z.leb_spec 0 (_poll_index e)); [lia|].
    pose proof Hwf as [Hlf Hlc Hcnt Hb _ _ _]. erewrite FQ_bind_Ret by done. cbv iota.
    unfold zlen. destruct (Z.leb_spec MAX_WATCHED_FDS (Z.of_nat (length l))) as [Hfull|Hroom].
    { rewrite (FQ_bind_Ret _ _ s true s); [done|]. erewrite FQ_bind_Ret by done. rewrite Hcnt.
      by destruct (Z.leb_spec MAX_WATCHED_FDS (Z.of_nat (length l))); [|lia]. }
    destruct (lookup_lt_is_Some_2 (fd_callbacks s) (length l)) as (c & Hc); [lia|].
    destruct (lookup_lt_is_Some_2 (fds s) (length l)) as (f & Hf); [lia|].
    pose proof (watch_new s l p e Hwf He Hp ltac:(lia)) as Hnew. cbv zeta in Hnew.
    set (e' := set_poll_index (fdcount s) (set_poll (set_revents 0 (poll e)) e)) in *.
    set (s1 := set_fdcount (fdcount s + 1) _) in *.
    exists (set_fds (<[length l := poll e']> (fds s)) s1), (length l).
    split_and!; [|exact Hnew|simpl; apply list_lookup_insert_eq; lia|].
    + rewrite (FQ_bind_Ret _ _ s false s1).
      2: { erewrite FQ_bind_Ret by done. rewrite Hcnt.
           destruct (Z.leb_spec MAX_WATCHED_FDS (Z.of_nat (length l))); [lia|].
           erewrite FQ_bind_Ret by (by apply (callback_put_run _ c)).
           erewrite FQ_bind_Ret by (by apply ent_set_run).
           erewrite FQ_bind_Ret by (apply ent_set_run; simpl; apply lookup_insert_eq).
           simpl. rewrite insert_insert_eq, <- Hcnt. done. }
      cbv iota. erewrite FQ_bind_Ret by (apply ent_run; apply lookup_insert_eq).
      replace (_poll_index e') with (Z.of_nat (length l)) by (by rewrite <- Hcnt).
      by erewrite FQ_bind_Ret by (by apply (fds_put_run _ f)).
    + exists e'. split_and!; [apply lookup_insert_eq|apply list_lookup_insert_eq; simpl; lia|done..].
Qed.

Lemma watch_spec_witness :
  exists s' i, _watch 1 table_state = Ret (0, s') /\ poll_wf s' [0%nat; 1%nat] /\ fd_callbacks s' !! i = Some (Some 1%nat).
Proof.
  destruct (watch_spec table_state [0%nat] 1%nat (table_ent 9 (-1)) table_wf eq_refl) as (s' & i & Hr & Hwf & Hc & _).
  exists s', i. split; [exact Hr|]. split; [exact Hwf|exact Hc].
Defined.

(** C20: [_unwatch] of the watched alarm at place [i] of the table moves the last
    alarm there: its whole entry, the descriptor with the events to wait for and
    those that occurred, its pointer and its index.  The last place is freed,
    with the descriptor -1 and no alarm, the alarm that leaves has no index, the
    count is one less, and nothing else of the state changes; the table stays
    without gaps and holds the other alarms.  An alarm that is not watched is an
    error and leaves everything as it was. *)
Theorem unwatch_spec s l p e :
  poll_wf s l -> ents s !! p = Some e ->
  if bool_decide (p ∈ l)
  then exists i n q eq f,
    l !! i = Some p /\ length l = S n /\ l !! n = Some q /\
    ents s !! q = Some eq /\ fds s !! n = Some f /\
    _unwatch p s = Ret (0, unwatched s i n p e q eq f) /\
    poll_wf (unwatched s i n p e q eq f) (squash i n q l) /\ l ≡ₚ p :: squash i n q l
  else _unwatch p s = Ret (-1, s).
Proof.
  intros Hwf He. unfold _unwatch. erewrite FQ_bind_Ret by (by apply ent_run). cbv zeta.
  case_bool_decide as Hp.
  2: { pose proof Hp as Hx%(poll_wf_unwatched s l p e Hwf He). destruct (Z.ltb_spec (_poll_index e) 0); [|lia].
       by erewrite FQ_bind_Ret by done. }
  apply list_elem_of_lookup in Hp as (i & Hi). pose proof (lookup_lt_Some _ _ _ Hi) as Hlt.
  destruct (poll_wf_lookup s l i p Hwf Hi) as (e' & f & He' & Hx & Hf & Hfd & Hc & _). simplify_eq. rewrite Hx.
  destruct (length l) as [|n] eqn:Hl; [lia|].
  destruct (lookup_lt_is_Some_2 l n) as (q & Hn); [lia|].
  destruct (poll_wf_lookup s l n q Hwf Hn) as (eq & fn & Heq & Hxn & Hfn & Hfdn & Hcn & _).
  destruct (Z.ltb_spec (Z.of_nat i) 0); [lia|].
  rewrite (FQ_bind_Ret _ _ s true s).
  2: { erewrite FQ_bind_Ret by (by apply fds_get_run). by rewrite Hfd, Z.eqb_refl. }
  pose proof Hwf as [Hlf Hlc Hcnt _ _ _ _]. cbn [negb]. erewrite FQ_bind_Ret by done. erewrite FQ_bind_Ret by done.
  rewrite Hcnt, Hl. replace (Z.of_nat (S n) - 1) with (Z.of_nat n) by lia.
  pose proof (unwatch_wf s l i n p q e eq fn Hwf Hi Hn Hl He Heq Hfn) as Hwf'.
  exists i, n, q, eq, fn. split_and!; try done; [|by apply squash_perm].
  set (s1 := set_ents (<[q := set_poll_index (Z.of_nat i) eq]> (ents s))
    (set_callbacks (<[i := Some q]> (fd_callbacks s)) (set_fds (<[i := fn]> (fds s)) (set_fdcount (Z.of_nat n) s)))).
  rewrite (FQ_bind_Ret _ _ _ tt s1).
  - rewrite (FQ_bind_Ret _ _ s1 (fn) s1).
    2: { apply fds_get_run. by apply insert_place. }
    erewrite FQ_bind_Ret by (apply (fds_put_run n fn); by apply insert_place).
    destruct (lookup_lt_is_Some_2 (<[i := Some q]> (fd_callbacks s)) n) as (c & Hcc).
    { apply lookup_lt_Some in Hfn. rewrite length_insert. lia. }
    erewrite FQ_bind_Ret by (by apply (callback_put_run n c)).
    assert (exists e1, ents s1 !! p = Some e1 /\ set_poll_index (-1) e1 = set_poll_index (-1) e) as (e1 & He1 & E1).
    { simpl. rewrite lookup_insert. case_decide; [|by exists e]. simplify_eq. by eexists. }
    erewrite FQ_bind_Ret by (by apply ent_set_run). by rewrite E1.
  - destruct (Z.eqb_spec (Z.of_nat i) (Z.of_nat n)) as [E|E]; cbn [negb].
    + assert (i = n) as -> by lia. simplify_eq. unfold s1. rewrite !list_insert_id by done.
      rewrite insert_id; [done|]. rewrite He. f_equal. destruct e; simpl in *. by rewrite <- Hx.
    + erewrite FQ_bind_Ret by (by apply fds_get_run). erewrite FQ_bind_Ret by (by apply (fds_put_run i f)).
      erewrite FQ_bind_Ret by (by apply callback_get_run). erewrite FQ_bind_Ret by (by apply (callback_put_run i (Some p))).
      erewrite FQ_bind_Ret by done. by erewrite ent_set_run.
Qed.

(** Two descriptors, of which the first leaves. *)
Definition table_two : fq_state :=
  FQState (<[0%nat := table_ent 7 0]> (<[1%nat := table_ent 9 1]> ∅)) None None None
          (PollFd 7 1 0 :: PollFd 9 1 4 :: replicate 126 (PollFd 0 0 0))
          (Some 0%nat :: Some 1%nat :: replicate 126 None) 2 [] 0.

Lemma table_two_wf : poll_wf table_two [0%nat; 1%nat].
Proof.
  split; try done.
  - vm_compute. lia.
  - intros [|[|i]] p; [intros [= <-]..|done]; (split; [done|]; by eexists _, _).
  - intros [|[|i]] c Hi; [simpl in Hi; lia..|]. unfold table_two, fd_callbacks. rewrite <- !lookup_tail.
    by intros [-> _]%lookup_replicate.
  - intros p e. unfold table_two. simpl. rewrite !lookup_insert.
    repeat case_decide; intros ?; simplify_eq; done.
Qed.

Lemma unwatch_spec_witness :
  (exists s', _unwatch 0 table_two = Ret (0, s') /\ take 2 (fds s') = [PollFd 9 1 4; PollFd (-1) 1 4] /\
     poll_wf s' [1%nat]) /\
  _unwatch 1 table_state = Ret (-1, table_state).
Proof.
  split.
  - destruct (unwatch_spec table_two [0%nat; 1%nat] 0%nat (table_ent 7 0) table_two_wf eq_refl)
      as (i & n & q & eq & f & Hi & Hn & Hq & Heq & Hf & Hr & Hwf & _).
    assert (i = 0%nat) by (destruct i as [|[|i]]; [reflexivity|discriminate Hi|discriminate Hi]).
    injection Hn as <-. injection Hq as <-. injection Heq as <-. injection Hf as <-. subst i.
    eexists. split; [exact Hr|]. split; [reflexivity|exact Hwf].
  - exact (unwatch_spec table_state [0%nat] 1%nat (table_ent 9 (-1)) table_wf eq_refl).
Defined.
