(* ===== verification/Fec.v ===== *)
(** * The Reed-Solomon coder (fec-3.0.1)

    The (255,223) code over the field of 256 elements that the serial radio link
    uses, shortened by leaving out [pad] bytes at the front.  Field elements are
    added with the exclusive or, and multiplied by adding their logarithms; 255
    stands for the logarithm of zero.

    encode_rs.h and decode_rs.h are function bodies, included by encode_rs_8.c
    and decode_rs_8.c with the constants of fixed.h.  radio_link.c gives the
    decoder no positions of erasures, so the parts of decode_rs.h for them are
    left out.  The arrays of the C functions are lists; their indices are inside
    the arrays as long as the bytes are bytes, and a read outside one would be 0
    here.

    What is proved of the coder: the parity has 32 bytes, decoding keeps the
    length of the word and counts at most 32 errors, it refuses a padding that
    is not between 0 and 222, and what was encoded is decoded without a
    correction.  That it corrects errors is not proved; the examples at the end
    run it on a damaged word. *)

From stdpp Require Import base tactics list numbers.
From Stdlib Require Import ZArith Lia.
From S2P Require Import Prelude.

Local Open Scope Z_scope.

(** ** Tables and constants *)

Definition NN : Z := 255.
Definition NROOTS : Z := 32.
Definition FCR : Z := 112.
Definition PRIM : Z := 11.
Definition IPRIM : Z := 116.
(** The logarithm of zero. *)
Definition A0 : Z := NN.

Definition CCSDS_alpha_to : list Z := [
  1; 2; 4; 8; 16; 32; 64; 128; 135; 137; 149; 173; 221; 61; 122; 244; 111; 222; 59; 118; 236; 95; 190;
  251; 113; 226; 67; 134; 139; 145; 165; 205; 29; 58; 116; 232; 87; 174; 219; 49; 98; 196; 15; 30; 60;
  120; 240; 103; 206; 27; 54; 108; 216; 55; 110; 220; 63; 126; 252; 127; 254; 123; 246; 107; 214; 43;
  86; 172; 223; 57; 114; 228; 79; 158; 187; 241; 101; 202; 19; 38; 76; 152; 183; 233; 85; 170; 211; 33;
  66; 132; 143; 153; 181; 237; 93; 186; 243; 97; 194; 3; 6; 12; 24; 48; 96; 192; 7; 14; 28; 56; 112;
  224; 71; 142; 155; 177; 229; 77; 154; 179; 225; 69; 138; 147; 161; 197; 13; 26; 52; 104; 208; 39; 78;
  156; 191; 249; 117; 234; 83; 166; 203; 17; 34; 68; 136; 151; 169; 213; 45; 90; 180; 239; 89; 178; 227;
  65; 130; 131; 129; 133; 141; 157; 189; 253; 125; 250; 115; 230; 75; 150; 171; 209; 37; 74; 148; 175;
  217; 53; 106; 212; 47; 94; 188; 255; 121; 242; 99; 198; 11; 22; 44; 88; 176; 231; 73; 146; 163; 193;
  5; 10; 20; 40; 80; 160; 199; 9; 18; 36; 72; 144; 167; 201; 21; 42; 84; 168; 215; 41; 82; 164; 207; 25;
  50; 100; 200; 23; 46; 92; 184; 247; 105; 210; 35; 70; 140; 159; 185; 245; 109; 218; 51; 102; 204; 31;
  62; 124; 248; 119; 238; 91; 182; 235; 81; 162; 195; 0].

Definition CCSDS_index_of : list Z := [
  255; 0; 1; 99; 2; 198; 100; 106; 3; 205; 199; 188; 101; 126; 107; 42; 4; 141; 206; 78; 200; 212; 189;
  225; 102; 221; 127; 49; 108; 32; 43; 243; 5; 87; 142; 232; 207; 172; 79; 131; 201; 217; 213; 65; 190;
  148; 226; 180; 103; 39; 222; 240; 128; 177; 50; 53; 109; 69; 33; 18; 44; 13; 244; 56; 6; 155; 88; 26;
  143; 121; 233; 112; 208; 194; 173; 168; 80; 117; 132; 72; 202; 252; 218; 138; 214; 84; 66; 36; 191;
  152; 149; 249; 227; 94; 181; 21; 104; 97; 40; 186; 223; 76; 241; 47; 129; 230; 178; 63; 51; 238; 54;
  16; 110; 24; 70; 166; 34; 136; 19; 247; 45; 184; 14; 61; 245; 164; 57; 59; 7; 158; 156; 157; 89; 159;
  27; 8; 144; 9; 122; 28; 234; 160; 113; 90; 209; 29; 195; 123; 174; 10; 169; 145; 81; 91; 118; 114;
  133; 161; 73; 235; 203; 124; 253; 196; 219; 30; 139; 210; 215; 146; 85; 170; 67; 11; 37; 175; 192;
  115; 153; 119; 150; 92; 250; 82; 228; 236; 95; 74; 182; 162; 22; 134; 105; 197; 98; 254; 41; 125; 187;
  204; 224; 211; 77; 140; 242; 31; 48; 220; 130; 171; 231; 86; 179; 147; 64; 216; 52; 176; 239; 38; 55;
  12; 17; 68; 111; 120; 25; 154; 71; 116; 167; 193; 35; 83; 137; 251; 20; 93; 248; 151; 46; 75; 185; 96;
  15; 237; 62; 229; 246; 135; 165; 23; 58; 163; 60; 183].

Definition CCSDS_poly : list Z := [
  0; 249; 59; 66; 4; 43; 126; 251; 97; 30; 3; 213; 50; 66; 170; 5; 24; 5; 170; 66; 50; 213; 3; 30; 97;
  251; 126; 43; 4; 66; 59; 249; 0].

(** Reading an array. *)
Definition at_ (l : list Z) (i : Z) : Z := default 0 (l @@ i).
Definition ALPHA_TO (x : Z) : Z := at_ CCSDS_alpha_to x.
Definition INDEX_OF (x : Z) : Z := at_ CCSDS_index_of x.
Definition GENPOLY (x : Z) : Z := at_ CCSDS_poly x.

(** The loop of [mod255] takes 255 away each time, so it ends after [x / 255]
    rounds. *)
Fixpoint mod255_loop (fuel : nat) (x : Z) : Z :=
  match fuel with
  | O => x
  | S fuel =>
      if 255 <=? x then
        let x := x - 255 in mod255_loop fuel (Z.shiftr x 8 + Z.land x 255)
      else x
  end.
Definition mod255 (x : Z) : Z := mod255_loop (S (Z.to_nat (x / 255))) x.

(** ** Encoding *)

(** One byte [d] of the data: [feedback] is added, then the register shifts. *)
Definition encode_byte (parity : list Z) (d : Z) : list Z :=
  let feedback := INDEX_OF (Z.lxor d (at_ parity 0)) in
  let added := if negb (feedback =? A0)
               then imap (fun j x => if (1 <=? j)%nat
                                     then Z.lxor x (ALPHA_TO (mod255 (feedback + GENPOLY (NROOTS - Z.of_nat j))))
                                     else x) parity
               else parity in
  tail added ++ [if negb (feedback =? A0) then ALPHA_TO (mod255 (feedback + GENPOLY 0)) else 0].

(** The parity of the first [NN - NROOTS - pad] bytes of [data]. *)
Definition encode_rs_8 (pad : Z) (data : list Z) : list Z :=
  fold_left encode_byte (slice 0 (NN - NROOTS - pad) data) (replicate (Z.to_nat NROOTS) 0).

(** ** Decoding *)

(** The next byte [d] of the word in each of the syndromes. *)
Definition syndrome_step (s : list Z) (d : Z) : list Z :=
  imap (fun i x => if x =? 0 then d
                   else Z.lxor d (ALPHA_TO (mod255 (INDEX_OF x + (FCR + Z.of_nat i) * PRIM)))) s.
Definition syndromes (pad : Z) (data : list Z) : list Z :=
  fold_left syndrome_step (slice 1 (NN - pad - 1) data) (replicate (Z.to_nat NROOTS) (at_ data 0)).

(** The Berlekamp-Massey algorithm.  [lambda] is in polynomial form, [b] in
    index form, [el] is the number of errors so far. *)
Record massey : Type := Massey { lambda : list Z; bpoly : list Z; el : Z }.
Definition massey_init : massey :=
  let lambda := 1 :: replicate (Z.to_nat NROOTS) 0 in Massey lambda (map INDEX_OF lambda) 0.

Definition discrepancy (s lambda : list Z) (r : Z) : Z :=
  fold_left (fun discr i =>
      if negb (at_ lambda i =? 0) && negb (at_ s (r - i - 1) =? A0)
      then Z.lxor discr (ALPHA_TO (mod255 (INDEX_OF (at_ lambda i) + at_ s (r - i - 1)))) else discr)
    (seqZ 0 r) 0.

(** [B(x) <-- x*B(x)] *)
Definition times_x (b : list Z) : list Z := A0 :: take (Z.to_nat NROOTS) b.

Definition massey_step (s : list Z) (m : massey) (r : Z) : massey :=
  let discr_r := INDEX_OF (discrepancy s (lambda m) r) in
  if discr_r =? A0 then Massey (lambda m) (times_x (bpoly m)) (el m)
  else
    let t := at_ (lambda m) 0 ::
      map (fun i => if negb (at_ (bpoly m) i =? A0)
                    then Z.lxor (at_ (lambda m) (i + 1)) (ALPHA_TO (mod255 (discr_r + at_ (bpoly m) i)))
                    else at_ (lambda m) (i + 1)) (seqZ 0 NROOTS) in
    if 2 * el m <=? r - 1
    then Massey t (map (fun x => if x =? 0 then A0 else mod255 (INDEX_OF x - discr_r + NN)) (lambda m)) (r - el m)
    else Massey t (times_x (bpoly m)) (el m).

(** In index form, with its degree. *)
Definition error_locator (s : list Z) : list Z :=
  map INDEX_OF (lambda (fold_left (massey_step s) (seqZ 1 NROOTS) massey_init)).
Definition degree (l : list Z) : Z :=
  fold_left (fun deg i => if negb (at_ l i =? A0) then i else deg) (seqZ 0 (NROOTS + 1)) 0.

(** The next point in the search for roots: the registers and the value. *)
Definition chien_step (deg_lambda : Z) (reg : list Z) : list Z * Z :=
  fold_left (fun '(reg, q) j =>
      if negb (at_ reg j =? A0)
      then let x := mod255 (at_ reg j + j) in (<[Z.to_nat j := x]> reg, Z.lxor q (ALPHA_TO x))
      else (reg, q))
    (rev (seqZ 1 deg_lambda)) (reg, 1).

(** [n] points are left; the result are the roots with their locations. *)
Fixpoint chien (n : nat) (deg_lambda i k : Z) (reg : list Z) (found : list (Z * Z)) : list (Z * Z) :=
  match n with
  | O => found
  | S n =>
      let '(reg, q) := chien_step deg_lambda reg in
      if negb (q =? 0) then chien n deg_lambda (i + 1) (mod255 (k + IPRIM)) reg found
      else
        let found := found ++ [(i, k)] in
        if zlen found =? deg_lambda then found
        else chien n deg_lambda (i + 1) (mod255 (k + IPRIM)) reg found
  end.

(** [s] and [lambda] are in index form. *)
Definition evaluator (s lambda : list Z) (deg_omega : Z) : list Z :=
  map (fun i => INDEX_OF (fold_left (fun tmp j =>
          if negb (at_ s (i - j) =? A0) && negb (at_ lambda j =? A0)
          then Z.lxor tmp (ALPHA_TO (mod255 (at_ s (i - j) + at_ lambda j))) else tmp)
        (rev (seqZ 0 (i + 1))) 0)) (seqZ 0 (deg_omega + 1)).

(** The correction of the error at one root. *)
Definition correct_at (pad deg_lambda deg_omega : Z) (lambda omega : list Z) (data : list Z) (r : Z * Z) : list Z :=
  let '(root, loc) := r in
  let num1 := fold_left (fun num i => if negb (at_ omega i =? A0)
                                      then Z.lxor num (ALPHA_TO (mod255 (at_ omega i + i * root))) else num)
                        (rev (seqZ 0 (deg_omega + 1))) 0 in
  let num2 := ALPHA_TO (mod255 (root * (FCR - 1) + NN)) in
  let last := Z.land (Z.min deg_lambda (NROOTS - 1)) (Z.lnot 1) in
  let den := fold_left (fun den i => if negb (at_ lambda (i + 1) =? A0)
                                     then Z.lxor den (ALPHA_TO (mod255 (at_ lambda (i + 1) + i * root))) else den)
                       (map (fun k => last - 2 * k) (seqZ 0 (last / 2 + 1))) 0 in
  if negb (num1 =? 0) && (pad <=? loc) && (loc <? NN - NROOTS)
  then splice (loc - pad)
         [Z.lxor (at_ data (loc - pad))
            (ALPHA_TO (mod255 (INDEX_OF num1 + INDEX_OF num2 + NN - INDEX_OF den)))] data
  else data.

(** The number of errors, -1 for too many or a bad padding, and the corrected
    word; [data] are the [NN - pad] bytes of the word. *)
Definition decode_rs_8 (pad : Z) (data : list Z) : Z * list Z :=
  if (pad <? 0) || (222 <? pad) then (-1, data)
  else
    let s := syndromes pad data in
    if fold_left Z.lor s 0 =? 0 then (0, data)
    else
      let s := map INDEX_OF s in
      let lambda := error_locator s in
      let deg_lambda := degree lambda in
      let found := chien (Z.to_nat NN) deg_lambda 1 (IPRIM - 1) lambda [] in
      if negb (deg_lambda =? zlen found) then (-1, data)
      else
        let omega := evaluator s lambda (deg_lambda - 1) in
        (zlen found, fold_left (correct_at pad deg_lambda (deg_lambda - 1) lambda omega) (rev found) data).

(** ** The field *)

(** A statement about the numbers from 0 below [n]. *)
Lemma forallb_upto (n : nat) (P : Z -> bool) :
  forallb (fun i => P (Z.of_nat i)) (seq 0 n) = true -> forall x, 0 <= x < Z.of_nat n -> P x = true.
Proof.
  intros H x Hx. rewrite forallb_forall in H. specialize (H (Z.to_nat x)).
  rewrite Z2Nat.id in H by lia. apply H, in_seq. lia.
Qed.

Lemma mod255_spec x : 0 <= x -> mod255 x = x mod 255.
Proof.
  unfold mod255. remember (S (Z.to_nat (x / 255))) as fuel eqn:Ef.
  assert (x / 255 < Z.of_nat fuel) as Hf by lia. clear Ef. revert x Hf.
  induction fuel as [|fuel IH]; intros x Hf Hx; [pose proof (Z.div_pos x 255); lia|]. cbn [mod255_loop].
  destruct (Z.leb_spec 255 x); [|by rewrite Z.mod_small].
  rewrite Z.shiftr_div_pow2 by lia. replace (Z.land (x - 255) 255) with (Z.land (x - 255) (Z.ones 8)) by done. rewrite Z.land_ones by lia.
  change (2 ^ 8) with 256. pose proof (Z.div_mod (x - 255) 256 ltac:(lia)). pose proof (Z.mod_pos_bound (x - 255) 256).
  pose proof (Z.div_pos (x - 255) 256). set (q := (x - 255) / 256) in *. set (r := (x - 255) mod 256) in *.
  rewrite IH.
  - replace x with (q + r + (q + 1) * 255) by lia. by rewrite Z_mod_plus_full.
  - pose proof (Z.div_le_mono (q + r) (x - 255) 255). replace (x - 255) with (x + (-1) * 255) in * by lia.
    rewrite Z_div_plus_full in * by lia. lia.
  - lia.
Qed.

(** [x] times the [k]th power of the generator of the field. *)
Definition times (k x : Z) : Z := if x =? 0 then 0 else ALPHA_TO ((INDEX_OF x + k) mod 255).

Definition index_ok (x : Z) : bool :=
  (ALPHA_TO (INDEX_OF x) =? x) && (0 <=? INDEX_OF x) && ((x =? 0) || (INDEX_OF x <? 255)) &&
  is_byteb (ALPHA_TO x) && ((x =? 255) || (INDEX_OF (ALPHA_TO x) =? x) && negb (ALPHA_TO x =? 0)).

Lemma index_spec x : is_byte x -> x <> 0 -> ALPHA_TO (INDEX_OF x) = x /\ 0 <= INDEX_OF x < 255.
Proof.
  intros Hx H0. assert (index_ok x = true) as H.
  { revert x Hx H0. intros x Hx _. revert x Hx. apply (forallb_upto 256). vm_compute. reflexivity. }
  unfold index_ok in H. rewrite !andb_true_iff, orb_true_iff, !Z.eqb_eq, Z.leb_le, Z.ltb_lt in H. lia.
Qed.
Lemma alpha_spec a : 0 <= a < 255 -> is_byte (ALPHA_TO a) /\ INDEX_OF (ALPHA_TO a) = a /\ ALPHA_TO a <> 0.
Proof.
  intros Ha. assert (index_ok a = true) as H.
  { assert (0 <= a < Z.of_nat 256) as Hx by lia. clear Ha. revert a Hx. apply (forallb_upto 256). vm_compute. reflexivity. }
  unfold index_ok, is_byteb in H. unfold is_byte.
  rewrite !andb_true_iff, !orb_true_iff, !andb_true_iff, negb_true_iff, !Z.eqb_eq, Z.eqb_neq, !Z.leb_le, !Z.ltb_lt in H. lia.
Qed.

Lemma lxor_byte x y : is_byte x -> is_byte y -> is_byte (Z.lxor x y).
Proof.
  unfold is_byte. intros Hx Hy. destruct (Z.eq_dec (Z.lxor x y) 0) as [->|]; [lia|].
  assert (0 <= Z.lxor x y) by (apply Z.lxor_nonneg; lia). split; [done|].
  change 256 with (2 ^ 8). apply Z.log2_lt_pow2; [lia|]. eapply Z.le_lt_trans; [apply Z.log2_lxor; lia|].
  apply Z.max_lub_lt; (destruct (Z.eq_dec x 0), (Z.eq_dec y 0); subst; try done; apply Z.log2_lt_pow2; lia).
Qed.

Lemma times_byte k x : is_byte x -> is_byte (times k x).
Proof.
  intros Hx. unfold times. destruct (Z.eqb_spec x 0); [done|].
  destruct (alpha_spec ((INDEX_OF x + k) mod 255)); [|done]. apply Z.mod_pos_bound. lia.
Qed.
Lemma times_0 x : is_byte x -> times 0 x = x.
Proof.
  intros Hx. unfold times. destruct (Z.eqb_spec x 0); [done|]. destruct (index_spec x Hx) as [E ?]; [done|].
  by rewrite Z.add_0_r, Z.mod_small.
Qed.
Lemma times_times j k x : is_byte x -> times j (times k x) = times (j + k) x.
Proof.
  intros Hx. unfold times at 2 3. destruct (Z.eqb_spec x 0); [done|].
  pose proof (Z.mod_pos_bound (INDEX_OF x + k) 255). destruct (alpha_spec ((INDEX_OF x + k) mod 255)) as (_ & E & Hne); [lia|].
  unfold times. rewrite (proj2 (Z.eqb_neq _ _) Hne), E, Zplus_mod_idemp_l. do 2 f_equal. lia.
Qed.

(** Once, that is a shift with the field polynomial. *)
Local Ltac bitwise := apply Z.bits_inj'; intros n _; rewrite ?Z.land_spec, ?Z.lxor_spec, ?Z.land_spec, ?Z.bits_0.
Definition xtime (x : Z) : Z := Z.lxor (Z.shiftl (Z.land x 127) 1) (if Z.testbit x 7 then 0x87 else 0).
Lemma times_1 x : is_byte x -> times 1 x = xtime x.
Proof.
  intros Hx. apply Z.eqb_eq. revert x Hx. apply (forallb_upto 256 (fun x => times 1 x =? xtime x)).
  vm_compute. reflexivity.
Qed.
Lemma times_1_lxor x y : is_byte x -> is_byte y -> times 1 (Z.lxor x y) = Z.lxor (times 1 x) (times 1 y).
Proof.
  intros Hx Hy. rewrite !times_1 by auto using lxor_byte. unfold xtime.
  assert (Z.land (Z.lxor x y) 127 = Z.lxor (Z.land x 127) (Z.land y 127)) as ->
    by (bitwise; by destruct (Z.testbit x n), (Z.testbit y n), (Z.testbit 127 n)).
  rewrite Z.shiftl_lxor, Z.lxor_spec. generalize (Z.shiftl (Z.land x 127) 1) (Z.shiftl (Z.land y 127) 1). intros a b.
  destruct (Z.testbit x 7), (Z.testbit y 7); cbn [xorb]; bitwise;
    destruct (Z.testbit a n), (Z.testbit b n); try done; by destruct (Z.testbit _ n).
Qed.
Lemma times_lxor k x y : 0 <= k -> is_byte x -> is_byte y -> times k (Z.lxor x y) = Z.lxor (times k x) (times k y).
Proof.
  intros Hk Hx Hy. revert k Hk. apply natlike_ind.
  - by rewrite !times_0 by auto using lxor_byte.
  - intros k Hk IH. replace (Z.succ k) with (1 + k) by lia. rewrite <- !times_times by auto using lxor_byte.
    rewrite IH. apply times_1_lxor; by apply times_byte.
Qed.

(** ** Values of polynomials *)

(** The value at the [e]th power, highest coefficient first. *)
Definition horner (e : Z) (l : list Z) : Z := fold_left (fun x d => Z.lxor d (times e x)) l 0.



Lemma horner_from e l x : 0 <= e -> Forall is_byte l -> is_byte x ->
  is_byte (horner e l) /\
  fold_left (fun x d => Z.lxor d (times e x)) l x = Z.lxor (times (e * zlen l) x) (horner e l).
Proof.
  intros He Hl. revert x. induction Hl as [|d l Hd Hl IH]; intros x Hx.
  - split; [done|]. change (zlen []) with 0. by rewrite Z.mul_0_r, times_0, Z.lxor_0_r.
  - assert (is_byte 0) as H0 by done. assert (is_byte (Z.lxor d (times e 0))) as Hd0 by (by rewrite Z.lxor_0_r).
    unfold horner. cbn [fold_left]. destruct (IH (Z.lxor d (times e 0)) Hd0) as [Hh ->].
    destruct (IH (Z.lxor d (times e x))) as [_ ->]; [by auto using lxor_byte, times_byte|].
    pose proof (zlen_nonneg l). rewrite zlen_cons. replace (times e 0) with 0 by done. rewrite Z.lxor_0_r.
    split; [by auto using lxor_byte, times_byte|].
    rewrite times_lxor, times_times by (auto using times_byte; lia). rewrite <- Z.lxor_assoc. f_equal.
    rewrite Z.lxor_comm. do 2 f_equal. lia.
Qed.
Lemma horner_byte e l : 0 <= e -> Forall is_byte l -> is_byte (horner e l).
Proof. intros He Hl. by destruct (horner_from e l 0). Qed.
Lemma horner_cons e d l : 0 <= e -> is_byte d -> Forall is_byte l -> horner e (d :: l) = Z.lxor (times (e * zlen l) d) (horner e l).
Proof.
  intros He Hd Hl. unfold horner at 1. cbn [fold_left]. replace (times e 0) with 0 by done. rewrite Z.lxor_0_r.
  by destruct (horner_from e l d).
Qed.
Lemma horner_snoc e l d : horner e (l ++ [d]) = Z.lxor d (times e (horner e l)).
Proof. unfold horner. by rewrite fold_left_app. Qed.
Lemma horner_app e l1 l2 : 0 <= e -> Forall is_byte l1 -> Forall is_byte l2 ->
  horner e (l1 ++ l2) = Z.lxor (times (e * zlen l2) (horner e l1)) (horner e l2).
Proof.
  intros He H1 H2. unfold horner at 1. rewrite fold_left_app. by apply horner_from, horner_byte.
Qed.

(** ** What is encoded is a code word *)

(** The coefficients of the generator polynomial below the leading one. *)
Definition generator : list Z := map GENPOLY (rev (seqZ 0 NROOTS)).
Definition register (p : list Z) : Prop := length p = Z.to_nat NROOTS /\ Forall is_byte p.

(** The register shifts, and the generator polynomial times the feedback is
    added. *)
Lemma encode_byte_spec p d :
  register p -> is_byte d ->
  encode_byte p d = zip_with Z.lxor (tail p ++ [0]) (map (fun k => times k (Z.lxor d (at_ p 0))) generator).
Proof.
  intros [Hl Hp] Hd. assert (exists x p', p = x :: p' /\ length p' = 31%nat) as (x & p' & -> & Hl').
  { change (Z.to_nat NROOTS) with 32%nat in Hl. destruct p as [|x p']; [done|]. exists x, p'. split; [done|]. simpl in Hl. lia. }
  apply Forall_cons_1 in Hp as [Hx Hp]. unfold encode_byte. change (at_ (x :: p') 0) with x.
  pose proof (lxor_byte d x Hd Hx) as Hf. set (f := Z.lxor d x) in *. cbv zeta.
  assert (forall j, (j < 32)%nat -> generator !! j = Some (GENPOLY (31 - Z.of_nat j))) as Hg.
  { intros j Hj. do 32 (destruct j as [|j]; [reflexivity|]). lia. }
  assert (negb (INDEX_OF f =? A0) = negb (f =? 0)) as ->.
  { f_equal. destruct (Z.eqb_spec f 0) as [E0|Hne]; [by rewrite E0|]. destruct (index_spec f Hf Hne). apply Z.eqb_neq. unfold A0, NN. lia. }
  assert (forall k, 0 <= k -> f <> 0 -> ALPHA_TO (mod255 (INDEX_OF f + k)) = times k f) as Ht.
  { intros k Hk Hne. unfold times. rewrite (proj2 (Z.eqb_neq _ _) Hne), mod255_spec; [done|].
    destruct (index_spec f Hf Hne). lia. }
  assert (forall j, (j < 32)%nat -> 0 <= GENPOLY (Z.of_nat j)) as Hpos.
  { intros j Hj. do 32 (destruct j as [|j]; [vm_compute; congruence|]). lia. }
  destruct (Z.eqb_spec f 0) as [E0|Hne]; simpl negb; cbv iota.
  - rewrite E0. apply list_eq_same_length with 32%nat.
    + rewrite length_zip_with, length_map, length_app. change (length generator) with 32%nat. simpl. lia.
    + rewrite length_app. simpl. lia.
    + intros i a b Hi Ha Hb. rewrite lookup_zip_with, list_lookup_fmap, Hg in Hb by done.
      simpl tail in Ha, Hb. rewrite Ha in Hb. simpl in Hb. rewrite Z.lxor_0_r in Hb. congruence.
  - cbn [imap tail]. apply list_eq_same_length with 32%nat.
    + rewrite length_zip_with, length_map, length_app. change (length generator) with 32%nat. simpl. lia.
    + rewrite length_app, length_imap. simpl. lia.
    + intros i a b Hi Ha Hb. rewrite lookup_zip_with, list_lookup_fmap, Hg in Hb by done. simpl tail in Hb.
      destruct (decide (i < 31)%nat) as [H31|H31].
      * rewrite lookup_app_l in Ha by (rewrite length_imap; lia). rewrite lookup_app_l in Hb by lia.
        rewrite list_lookup_imap in Ha. destruct (p' !! i) as [y|] eqn:Ey; [|done]. simpl in Ha, Hb.
        injection Ha as <-. injection Hb as <-. unfold NROOTS.
        replace (32 - Z.of_nat (S i)) with (31 - Z.of_nat i) by lia. rewrite Ht; [done| |done].
        replace (31 - Z.of_nat i) with (Z.of_nat (31 - i)) by lia. apply Hpos. lia.
      * assert (i = 31%nat) as -> by lia. rewrite lookup_app_r in Ha by (rewrite length_imap; lia).
        rewrite lookup_app_r in Hb by lia. rewrite length_imap, Hl' in Ha. rewrite Hl' in Hb. simpl in Ha, Hb.
        injection Ha as <-. injection Hb as <-. rewrite Ht; [done|apply (Hpos 0%nat); lia|done].
Qed.

Lemma horner_lxor e l1 l2 :
  0 <= e -> length l1 = length l2 -> Forall is_byte l1 -> Forall is_byte l2 ->
  horner e (zip_with Z.lxor l1 l2) = Z.lxor (horner e l1) (horner e l2) /\ Forall is_byte (zip_with Z.lxor l1 l2).
Proof.
  intros He Hl H1. revert l2 Hl. induction H1 as [|x l1 Hx H1 IH]; intros [|y l2] Hl H2; try done.
  apply Forall_cons_1 in H2 as [Hy H2]. simpl in Hl. cbn [zip_with].
  destruct (IH l2 ltac:(lia) H2) as [E Hb]. pose proof (lxor_byte x y Hx Hy). split; [|by constructor].
  rewrite !horner_cons by done. rewrite E, times_lxor by (done || (pose proof (zlen_nonneg (zip_with Z.lxor l1 l2)); lia)).
  assert (zlen (zip_with Z.lxor l1 l2) = zlen l1) as -> by (unfold zlen; rewrite length_zip_with; lia).
  assert (zlen l2 = zlen l1) as -> by (unfold zlen; lia).
  rewrite !Z.lxor_assoc. f_equal. rewrite <- !Z.lxor_assoc. f_equal. apply Z.lxor_comm.
Qed.

Lemma horner_times e a l :
  0 <= e -> 0 <= a -> Forall is_byte l ->
  horner e (map (times a) l) = times a (horner e l) /\ Forall is_byte (map (times a) l).
Proof.
  intros He Ha. induction 1 as [|x l Hx Hl [E Hb]]; [done|]. cbn [map].
  pose proof (times_byte a x Hx). split; [|by constructor]. rewrite !horner_cons by done.
  assert (zlen (map (times a) l) = zlen l) as -> by (unfold zlen; by rewrite length_map). pose proof (zlen_nonneg l).
  rewrite E, times_lxor by auto using times_byte, horner_byte. rewrite !times_times by done. do 2 f_equal. lia.
Qed.

(** The roots of the generator polynomial. *)
Definition rs_root (i : nat) : Z := (FCR + Z.of_nat i) * PRIM.
Lemma generator_roots i : (i < 32)%nat ->
  horner (rs_root i) (map (fun k => times k 1) generator) = times (32 * rs_root i) 1.
Proof. intros Hi. do 32 (destruct i as [|i]; [vm_compute; reflexivity|]). lia. Qed.

Lemma horner_generator i f : (i < 32)%nat -> is_byte f ->
  horner (rs_root i) (map (fun k => times k f) generator) = times (32 * rs_root i) f /\
  Forall is_byte (map (fun k => times k f) generator).
Proof.
  intros Hi Hf. assert (0 <= rs_root i) as He by (unfold rs_root, FCR, PRIM; lia).
  assert (Forall is_byte (map (fun k => times k f) generator)) as Hb
    by (apply Forall_map, Forall_forall; intros k _; by apply times_byte).
  split; [|done]. destruct (Z.eq_dec f 0) as [->|Hne]; [reflexivity|].
  destruct (index_spec f Hf Hne) as [Ea Ha]. set (a := INDEX_OF f) in *.
  assert (times a 1 = f) as E1.
  { unfold times. change (1 =? 0) with false. change (INDEX_OF 1) with 0. by rewrite Z.add_0_l, Z.mod_small. }
  rewrite (map_ext _ (fun k => times a (times k 1))).
  2: { intros k. rewrite <- E1, !times_times by done. f_equal. lia. }
  rewrite <- (map_map (fun k => times k 1) (times a)).
  assert (Forall is_byte (map (fun k => times k 1) generator)) as Hg
    by (apply Forall_map, Forall_forall; intros k _; by apply times_byte).
  destruct (horner_times (rs_root i) a _ He ltac:(lia) Hg) as [-> _].
  rewrite generator_roots by done. rewrite <- E1, !times_times by done. f_equal. lia.
Qed.

(** The register holds the remainder: multiplied by the 32nd power, the data
    have the same values at the roots. *)
Lemma encode_byte_value i p d h :
  (i < 32)%nat -> register p -> is_byte d -> is_byte h -> horner (rs_root i) p = times (32 * rs_root i) h ->
  register (encode_byte p d) /\
  horner (rs_root i) (encode_byte p d) = times (32 * rs_root i) (Z.lxor d (times (rs_root i) h)).
Proof.
  intros Hi Hp Hd Hh Hv. rewrite (encode_byte_spec p d Hp Hd). destruct Hp as [Hl Hp].
  change (Z.to_nat NROOTS) with 32%nat in Hl. destruct p as [|x p]; [done|]. simpl in Hl.
  apply Forall_cons_1 in Hp as [Hx Hp]. simpl tail. change (at_ (x :: p) 0) with x.
  assert (0 <= rs_root i) as He by (unfold rs_root, FCR, PRIM; lia). set (e := rs_root i) in *.
  destruct (horner_generator i (Z.lxor d x) Hi) as [Eg Hg]; [by apply lxor_byte|]. fold e in Eg.
  assert (Forall is_byte (p ++ [0])) as Hp0 by (apply Forall_app; split; [done|by constructor]).
  destruct (horner_lxor e (p ++ [0]) (map (fun k => times k (Z.lxor d x)) generator)) as [E Hb]; try done.
  { rewrite length_app, length_map. simpl. change (length generator) with 32%nat. lia. }
  split.
  { split; [|done]. rewrite length_zip_with, length_app, length_map. change (Z.to_nat NROOTS) with 32%nat.
    change (length generator) with 32%nat. simpl. lia. }
  rewrite E, Eg, horner_snoc, Z.lxor_0_l. rewrite horner_cons in Hv by done.
  assert (zlen p = 31) as Hz by (unfold zlen; lia). rewrite Hz in Hv.
  assert (Z.lxor (times (32 * e) x) (times e (horner e p)) = times e (times (32 * e) h)) as Ev.
  { rewrite <- Hv, times_lxor by auto using times_byte, horner_byte. rewrite times_times by done. do 2 f_equal. lia. }
  rewrite !times_lxor by (auto using times_byte; lia). rewrite !times_times by done.
  rewrite times_times in Ev by done. replace (32 * e + e) with (e + 32 * e) by lia. rewrite <- Ev.
  rewrite <- !Z.lxor_assoc. rewrite (Z.lxor_comm (times e (horner e p))), !Z.lxor_assoc. f_equal. apply Z.lxor_comm.
Qed.

Lemma encode_fold l p h i :
  (i < 32)%nat -> Forall is_byte l -> register p -> is_byte h -> horner (rs_root i) p = times (32 * rs_root i) h ->
  register (fold_left encode_byte l p) /\
  horner (rs_root i) (fold_left encode_byte l p) =
  times (32 * rs_root i) (fold_left (fun x d => Z.lxor d (times (rs_root i) x)) l h).
Proof.
  intros Hi Hl. revert p h. induction Hl as [|d l Hd Hl IH]; intros p h Hp Hh Hv; [done|]. cbn [fold_left].
  destruct (encode_byte_value i p d h Hi Hp Hd Hh Hv) as [Hp' Hv']. apply IH; [done| |done].
  apply lxor_byte, times_byte; done.
Qed.

Lemma encode_rs_8_spec pad d :
  Forall is_byte d -> zlen d = NN - NROOTS - pad ->
  register (encode_rs_8 pad d) /\ forall i, (i < 32)%nat -> horner (rs_root i) (d ++ encode_rs_8 pad d) = 0.
Proof.
  intros Hd Hl. unfold encode_rs_8. rewrite <- Hl. assert (slice 0 (zlen d) d = d) as ->
    by (unfold slice, zlen; rewrite Nat2Z.id; apply firstn_all).
  set (p0 := replicate (Z.to_nat NROOTS) 0).
  assert (register p0) as Hp0 by (split; [done|apply Forall_replicate; done]).
  assert (forall i, (i < 32)%nat -> register (fold_left encode_byte d p0) /\
    horner (rs_root i) (fold_left encode_byte d p0) = times (32 * rs_root i) (horner (rs_root i) d)) as H.
  { intros i Hi. apply encode_fold; done. }
  destruct (H 0%nat ltac:(lia)) as [Hr _]. split; [done|]. intros i Hi. destruct (H i Hi) as [_ Hv].
  destruct Hr as [Hlen Hb]. assert (0 <= rs_root i) as He by (unfold rs_root, FCR, PRIM; lia).
  rewrite horner_app, Hv by done. assert (zlen (fold_left encode_byte d p0) = 32) as -> by (unfold zlen; by rewrite Hlen).
  replace (rs_root i * 32) with (32 * rs_root i) by lia. apply Z.lxor_nilpotent.
Qed.

(** The syndromes are the values at the roots. *)
Lemma syndromes_spec pad w :
  Forall is_byte w -> zlen w = NN - pad -> 0 < zlen w ->
  syndromes pad w = map (fun i => horner (rs_root i) w) (seq 0 32).
Proof.
  intros Hw Hl Hpos. destruct w as [|d0 w]; [done|]. unfold syndromes. rewrite <- Hl.
  assert (slice 1 (zlen (d0 :: w) - 1) (d0 :: w) = w) as ->.
  { unfold slice. rewrite zlen_cons. replace (Z.to_nat (1 + zlen w - 1)) with (length w) by (unfold zlen; lia).
    change (drop (Z.to_nat 1) (d0 :: w)) with w. apply firstn_all. }
  change (at_ (d0 :: w) 0) with d0. apply Forall_cons_1 in Hw as [Hd0 Hw].
  assert (replicate (Z.to_nat NROOTS) d0 = map (fun i => horner (rs_root i) [d0]) (seq 0 32)) as ->.
  { unfold horner. cbn [fold_left]. rewrite (map_ext _ (fun _ => d0)); [done|].
    intros i. replace (times (rs_root i) 0) with 0 by done. apply Z.lxor_0_r. }
  assert (forall l acc, Forall is_byte acc -> Forall is_byte l ->
    fold_left syndrome_step l (map (fun i => horner (rs_root i) acc) (seq 0 32)) =
    map (fun i => horner (rs_root i) (acc ++ l)) (seq 0 32)) as H.
  { intros l. induction l as [|d l IH]; intros acc Ha Hd; [by rewrite app_nil_r|]. cbn [fold_left].
    apply Forall_cons_1 in Hd as [Hd Hl']. replace (acc ++ d :: l) with ((acc ++ [d]) ++ l) by (by rewrite <- app_assoc).
    rewrite <- IH by (done || (apply Forall_app; split; [done|by constructor])). f_equal.
    unfold syndrome_step. apply list_eq. intros i. rewrite list_lookup_imap, !list_lookup_fmap.
    destruct (decide (i < 32)%nat) as [Hi|Hi].
    - rewrite lookup_seq_lt by done. simpl. f_equal. rewrite horner_snoc. unfold times.
      pose proof (horner_byte (rs_root i) acc ltac:(unfold rs_root, FCR, PRIM; lia) Ha) as Hh.
      destruct (Z.eqb_spec (horner (rs_root i) acc) 0) as [|Hne]; [by rewrite Z.lxor_0_r|].
      destruct (index_spec _ Hh Hne). rewrite mod255_spec; [done|]. unfold FCR, PRIM. lia.
    - rewrite lookup_seq_ge by lia. done. }
  apply (H w [d0]); [by constructor|done].
Qed.

(** ** What the radio link relies on *)

Lemma encode_byte_length p d : p <> [] -> length (encode_byte p d) = length p.
Proof.
  intros Hp. unfold encode_byte. rewrite length_app. destruct p as [|x p]; [done|].
  destruct (negb _); simpl; rewrite ?length_imap; lia.
Qed.
Lemma encode_rs_8_length pad d : zlen (encode_rs_8 pad d) = NROOTS.
Proof.
  unfold encode_rs_8. generalize (slice 0 (NN - NROOTS - pad) d). intros l.
  assert (forall p, length p = 32%nat -> length (fold_left encode_byte l p) = 32%nat) as H.
  { induction l as [|c l IH]; intros p Hp; [done|]. cbn [fold_left]. apply IH. rewrite encode_byte_length; [done|]. by intros ->. }
  unfold zlen. by rewrite H.
Qed.

Lemma decode_rs_8_pad pad w : ~ 0 <= pad <= 222 -> decode_rs_8 pad w = (-1, w).
Proof.
  intros Hp. unfold decode_rs_8. assert ((pad <? 0) || (222 <? pad) = true) as ->; [|done].
  apply orb_true_iff. rewrite !Z.ltb_lt. lia.
Qed.

(** What was encoded is decoded without a correction. *)
Lemma decode_rs_8_clean pad d :
  0 <= pad <= 222 -> Forall is_byte d -> zlen d = NN - NROOTS - pad ->
  decode_rs_8 pad (d ++ encode_rs_8 pad d) = (0, d ++ encode_rs_8 pad d).
Proof.
  intros Hp Hd Hl. destruct (encode_rs_8_spec pad d Hd Hl) as [[Hlen Hb] Hv]. unfold decode_rs_8.
  rewrite (proj2 (Z.ltb_ge pad _)), (proj2 (Z.ltb_ge _ pad)) by lia. simpl orb. cbv iota zeta.
  assert (zlen (d ++ encode_rs_8 pad d) = NN - pad) as Hw.
  { rewrite zlen_app, Hl. unfold zlen. rewrite Hlen. unfold NN, NROOTS. lia. }
  rewrite syndromes_spec; [|by apply Forall_app|done|unfold NN in *; lia].
  assert (map (fun i => horner (rs_root i) (d ++ encode_rs_8 pad d)) (seq 0 32) = replicate 32 0) as ->; [|done].
  apply list_eq_same_length with 32%nat; [done|by rewrite length_map|]. 
  intros i x y Hi Hx Hy. rewrite list_lookup_fmap, lookup_seq_lt in Hx by done. simpl in Hx. rewrite Hv in Hx by done.
  apply lookup_replicate in Hy as [-> _]. congruence.
Qed.

Lemma correct_at_length pad dl dg lam om w r : 0 <= pad -> zlen w = NN - pad -> zlen (correct_at pad dl dg lam om w r) = zlen w.
Proof.
  intros Hp Hl. unfold correct_at. destruct r as [root loc]. cbv zeta. destruct (_ && _ && _) eqn:E; [|done].
  rewrite !andb_true_iff, Z.leb_le, Z.ltb_lt in E. unfold NN, NROOTS in *.
  apply zlen_splice; [lia|]. rewrite zlen_cons. change (zlen []) with 0. lia.
Qed.

Lemma degree_bounds l : 0 <= degree l <= NROOTS.
Proof.
  unfold degree. assert (forall js deg, 0 <= deg <= NROOTS -> Forall (fun i => 0 <= i <= NROOTS) js ->
    0 <= fold_left (fun deg i => if negb (at_ l i =? A0) then i else deg) js deg <= NROOTS) as H.
  { intros js. induction js as [|i js IH]; intros deg Hd Hf; [done|]. apply Forall_cons_1 in Hf as [Hi Hf].
    cbn [fold_left]. apply IH; [|done]. by destruct (negb _). }
  apply H; [done|]. apply Forall_seqZ. unfold NROOTS. lia.
Qed.

Lemma correct_fold_length pad dl dg lam om rs w :
  0 <= pad -> zlen w = NN - pad -> zlen (fold_left (correct_at pad dl dg lam om) rs w) = zlen w.
Proof.
  intros Hp. revert w. induction rs as [|r rs IH]; intros w Hl; [done|]. cbn [fold_left].
  rewrite IH; rewrite correct_at_length by done; done.
Qed.

(** Decoding keeps the length, and counts at most 32 errors. *)
Lemma decode_rs_8_bounds pad w :
  zlen w = NN - pad ->
  zlen (snd (decode_rs_8 pad w)) = zlen w /\ -1 <= fst (decode_rs_8 pad w) <= NROOTS.
Proof.
  intros Hl. unfold decode_rs_8. destruct (_ || _) eqn:E; [done|].
  apply orb_false_iff in E as [Hp%Z.ltb_ge _]. cbv zeta. destruct (_ =? 0); [done|].
  generalize (map INDEX_OF (syndromes pad w)) as s. intros s. generalize (error_locator s) as lam. intros lam.
  generalize (chien (Z.to_nat NN) (degree lam) 1 (IPRIM - 1) lam []) as found. intros found.
  pose proof (degree_bounds lam) as Hd. destruct (Z.eqb_spec (degree lam) (zlen found)) as [Ed|_]; cbn [negb fst snd].
  - rewrite correct_fold_length by done. split; [done|]. rewrite <- Ed. lia.
  - split; [done|]. unfold NROOTS. lia.
Qed.

(** ** Examples *)

Definition rs_data : list Z := map (fun i => (i * 37 + 11) mod 256) (seqZ 0 100).
Definition rs_word : list Z := rs_data ++ encode_rs_8 123 rs_data.
(** [n] bytes damaged, every fifth from the third. *)
Definition damage_word (n : nat) (l : list Z) : list Z :=
  fold_left (fun l i => splice (5 * i + 3) [Z.lxor (at_ l (5 * i + 3)) (i + 1)] l) (seqZ 0 (Z.of_nat n)) l.

Example sample_sixteen : decode_rs_8 123 (damage_word 16 rs_word) = (16, rs_word).
Proof. vm_compute. reflexivity. Qed.
Example sample_seventeen : fst (decode_rs_8 123 (damage_word 17 rs_word)) = -1.
Proof. vm_compute. reflexivity. Qed.
