(* ===== verification/RadioLink.v ===== *)
(** * The serial radio link (radio_link.c)

    Packets travel over a serial radio in link packets of at most 255 bytes: a
    six byte header whose length is protected by a Golay code, a fragment of the
    packet, and a Reed-Solomon code over all but the first four bytes of it.  The
    receiver is given one byte at a time, finds headers in its buffer, and puts
    the fragments together again.

    [struct radio_link_state] is the record [radio_link_state], in two parts for
    the directions of the link.  The Reed-Solomon coder is that of the file [Fec];
    it is given the padding and the bytes of a code word.  Packets handed to [packetOkOverlay] are kept in [delivered]; it does not touch what
    is received here.  Messages to the log are left out. *)

From stdpp Require Import base tactics list fin_maps gmap.
From Stdlib Require Import ZArith Lia.
From S2P Require Import Prelude Memory OverlayBuffer OverlayAddress Golay Fec FdQueue.

Local Open Scope Z_scope.

Definition MAVLINK_MSG_ID_RADIO : Z := 166.
Definition MAVLINK_MSG_ID_DATASTREAM : Z := 67.
Definition RADIO_SOURCE_SYSTEM : Z := 51. (* '3' *)
Definition RADIO_SOURCE_COMPONENT : Z := 68. (* 'D' *)
Definition FEC_LENGTH : Z := 32.
Definition FEC_MAX_BYTES : Z := 223.
Definition RADIO_HEADER_LENGTH : Z := 6.
Definition RADIO_USED_HEADER_LENGTH : Z := 4.
Definition RADIO_CRC_LENGTH : Z := 2.
Definition HEARTBEAT_SIZE : Z := 8 + 9.
Definition LINK_MTU : Z := 255.
Definition LINK_PAYLOAD_MTU : Z := LINK_MTU - FEC_LENGTH - RADIO_HEADER_LENGTH - RADIO_CRC_LENGTH.

(** The fields that receiving uses. *)
Record radio_rx : Type := RX {
  rx_payload : list Z;
  payload_length : Z;
  rx_seq : Z;
  payload_start : Z;
  payload_offset : Z;
  rx_dst : list Z;
  packet_length : Z;
  radio_rssi : Z;
  remote_rssi : Z
}.
(** The fields that sending uses; those the heartbeats from the radio set are
    among them. *)
Record radio_tx : Type := TX {
  tx_seq : Z;
  next_heartbeat : Z;
  last_packet : Z;
  remaining_space : Z;
  next_tx_allowed : Z;
  tx_packet : option overlay_buffer;
  txbuffer : list Z;
  tx_bytes : Z;
  tx_pos : Z
}.
Record radio_link_state : Type := RadioLink {
  rl_rx : radio_rx;
  rl_tx : radio_tx;
  delivered : list (list Z);
  rl_ticks : nat
}.

Definition rx_set_payload (l : list Z) (r : radio_rx) : radio_rx :=
  RX l (payload_length r) (rx_seq r) (payload_start r) (payload_offset r) (rx_dst r) (packet_length r)
     (radio_rssi r) (remote_rssi r).
Definition rx_set_length (n : Z) (r : radio_rx) : radio_rx :=
  RX (rx_payload r) n (rx_seq r) (payload_start r) (payload_offset r) (rx_dst r) (packet_length r)
     (radio_rssi r) (remote_rssi r).
Definition rx_set_seq (n : Z) (r : radio_rx) : radio_rx :=
  RX (rx_payload r) (payload_length r) n (payload_start r) (payload_offset r) (rx_dst r) (packet_length r)
     (radio_rssi r) (remote_rssi r).
Definition rx_set_window (start offset : Z) (r : radio_rx) : radio_rx :=
  RX (rx_payload r) (payload_length r) (rx_seq r) start offset (rx_dst r) (packet_length r)
     (radio_rssi r) (remote_rssi r).
Definition rx_set_packet (dst : list Z) (n : Z) (r : radio_rx) : radio_rx :=
  RX (rx_payload r) (payload_length r) (rx_seq r) (payload_start r) (payload_offset r) dst n
     (radio_rssi r) (remote_rssi r).
Definition rx_set_rssi (a b : Z) (r : radio_rx) : radio_rx :=
  RX (rx_payload r) (payload_length r) (rx_seq r) (payload_start r) (payload_offset r) (rx_dst r)
     (packet_length r) a b.

Definition tx_set_buffer (l : list Z) (bytes : Z) (t : radio_tx) : radio_tx :=
  TX (tx_seq t) (next_heartbeat t) (last_packet t) (remaining_space t) (next_tx_allowed t) (tx_packet t)
     l bytes (tx_pos t).
Definition tx_set_seq (n : Z) (t : radio_tx) : radio_tx :=
  TX n (next_heartbeat t) (last_packet t) (remaining_space t) (next_tx_allowed t) (tx_packet t)
     (txbuffer t) (tx_bytes t) (tx_pos t).
Definition tx_set_packet (b : option overlay_buffer) (t : radio_tx) : radio_tx :=
  TX (tx_seq t) (next_heartbeat t) (last_packet t) (remaining_space t) (next_tx_allowed t) b
     (txbuffer t) (tx_bytes t) (tx_pos t).
Definition tx_set_heartbeat (n : Z) (t : radio_tx) : radio_tx :=
  TX (tx_seq t) n (last_packet t) (remaining_space t) (next_tx_allowed t) (tx_packet t)
     (txbuffer t) (tx_bytes t) (tx_pos t).
Definition tx_set_last (n : Z) (t : radio_tx) : radio_tx :=
  TX (tx_seq t) (next_heartbeat t) n (remaining_space t) (next_tx_allowed t) (tx_packet t)
     (txbuffer t) (tx_bytes t) (tx_pos t).
Definition tx_set_space (n : Z) (t : radio_tx) : radio_tx :=
  TX (tx_seq t) (next_heartbeat t) (last_packet t) n (next_tx_allowed t) (tx_packet t)
     (txbuffer t) (tx_bytes t) (tx_pos t).
Definition tx_set_allowed (n : Z) (t : radio_tx) : radio_tx :=
  TX (tx_seq t) (next_heartbeat t) (last_packet t) (remaining_space t) n (tx_packet t)
     (txbuffer t) (tx_bytes t) (tx_pos t).
Definition tx_set_progress (bytes pos : Z) (t : radio_tx) : radio_tx :=
  TX (tx_seq t) (next_heartbeat t) (last_packet t) (remaining_space t) (next_tx_allowed t) (tx_packet t)
     (txbuffer t) bytes pos.

(** [emalloc_zero] *)
Definition rx_zero : radio_rx := RX (replicate (Z.to_nat (LINK_MTU * 3)) 0) 0 0 0 0 (replicate (Z.to_nat MDP_MTU) 0) 0 0 0.
Definition tx_zero : radio_tx := TX 0 0 0 0 0 None (replicate (Z.to_nat LINK_MTU) 0) 0 0.
Definition radio_link_init : radio_link_state := RadioLink rx_zero tx_zero [] 0.

(** ** The monad *)

Definition RM (A : Type) : Type := radio_link_state -> outcome (A * radio_link_state).
Global Instance RM_ret : MRet RM := fun A a s => Ret (a, s).
Global Instance RM_bind : MBind RM := fun A B f m s => '(a, s) ← m s; f a s.
Definition rlift {A} (m : outcome A) : RM A := fun s => a ← m; Ret (a, s).
Definition rget {A} (f : radio_rx -> A) : RM A := fun s => Ret (f (rl_rx s), s).
Definition rmodify (f : radio_rx -> radio_rx) : RM unit :=
  fun s => Ret (tt, RadioLink (f (rl_rx s)) (rl_tx s) (delivered s) (rl_ticks s)).
Definition tmodify (f : radio_tx -> radio_tx) : RM unit :=
  fun s => Ret (tt, RadioLink (rl_rx s) (f (rl_tx s)) (delivered s) (rl_ticks s)).
Definition deliver (p : list Z) : RM unit :=
  fun s => Ret (tt, RadioLink (rl_rx s) (rl_tx s) (delivered s ++ [p]) (rl_ticks s)).

(** [payload[i]], and [bcopy] of [n] bytes within a buffer or from one to
    another: the ranges have to be inside. *)
Definition payload_at (i : Z) : RM Z := l ← rget rx_payload; rlift (or_undef (l @@ i)).
Definition bcopy (src : list Z) (i : Z) (dst : list Z) (j n : Z) : outcome (list Z) :=
  if (n =? 0) || ((0 <=? i) && (i + n <=? zlen src) && (0 <=? j) && (j + n <=? zlen dst))
  then Ret (splice j (slice i n src) dst) else Undef.

Section radio_link.
Context {AR : Arch}.

Context (clock : nat -> Z).

Definition radio_now : RM Z :=
  fun s => Ret (clock (rl_ticks s), RadioLink (rl_rx s) (rl_tx s) (delivered s) (S (rl_ticks s))).

(** ** Receiving *)

(** The parameter is the index of [payload] the C function is given a pointer
    to.  Dividing the difference of two bytes by the double 1.9 and truncating is
    a division of integers: a difference that is a multiple of 19 gives a whole
    number that is exact, and every other quotient is 1/19 or more away from
    one. *)
Definition is_heartbeat (p : Z) : RM bool :=
  p0 ← payload_at p;
  if negb (p0 =? 0xFE) then mret false
  else p1 ← payload_at (p + 1);
  if negb (p1 =? 9) then mret false
  else p3 ← payload_at (p + 3);
  if negb (p3 =? RADIO_SOURCE_SYSTEM) then mret false
  else p4 ← payload_at (p + 4);
  if negb (p4 =? RADIO_SOURCE_COMPONENT) then mret false
  else p5 ← payload_at (p + 5);
  mret (p5 =? MAVLINK_MSG_ID_RADIO).

Definition parse_heartbeat (p : Z) : RM bool :=
  b ← is_heartbeat p;
  if negb b then mret false
  else
    p10 ← payload_at (p + 10); p13 ← payload_at (p + 13);
    p11 ← payload_at (p + 11); p14 ← payload_at (p + 14);
    rmodify (rx_set_rssi (Z.quot (10 * (p10 - p13)) 19) (Z.quot (10 * (p11 - p14)) 19));;
    free_space ← payload_at (p + 12);
    let free_bytes := Z.quot (free_space * 1280) 100 - 30 in
    tmodify (tx_set_space free_bytes);;
    (if 0 <? free_bytes then now ← radio_now; tmodify (tx_set_allowed now) else mret tt);;
    (if 720 <? free_bytes then now ← radio_now; tmodify (tx_set_heartbeat (now + 1000)) else mret tt);;
    mret true.

(** The fragment in a corrected link packet; [data_bytes] is without the two
    bytes of header the code covers. *)
Definition take_fragment (p data_bytes : Z) : RM unit :=
  p4 ← payload_at (p + 4);
  seq ← rget rx_seq;
  (if negb (Z.land p4 0x3f =? Z.land (seq + 1) 0x3f)
   then rmodify (fun r => rx_set_packet (rx_dst r) (MDP_MTU + 1) r) else mret tt);;
  (if negb (Z.land p4 0x40 =? 0) then rmodify (fun r => rx_set_packet (rx_dst r) 0 r) else mret tt);;
  rmodify (rx_set_seq (Z.land p4 0x3f));;
  n ← rget packet_length;
  if MDP_MTU <? sz (n + data_bytes) then
    rmodify (fun r => rx_set_packet (rx_dst r) (MDP_MTU + 1) r)
  else
    l ← rget rx_payload; dst ← rget rx_dst;
    dst ← rlift (bcopy l (p + RADIO_HEADER_LENGTH) dst n data_bytes);
    rmodify (rx_set_packet dst (sz (n + data_bytes)));;
    if negb (Z.land p4 0x80 =? 0) then
      deliver (take (Z.to_nat (sz (n + data_bytes))) dst);;
      rmodify (fun r => rx_set_packet (rx_dst r) (MDP_MTU + 1) r)
    else mret tt.

(** The result and [*backtrack]. *)
Definition radio_link_parse (length p : Z) : RM (bool * Z) :=
  if length =? 17 then
    p14 ← payload_at (p + 14); p15 ← payload_at (p + 15); p16 ← payload_at (p + 16);
    mret (fst (golay_decode p14 p15 p16) =? 0x555, 0)
  else
    let data_bytes := sz (length - (RADIO_USED_HEADER_LENGTH + FEC_LENGTH)) in
    let pad := s32 (sz (FEC_MAX_BYTES - data_bytes)) in
    (* a code word has 255 - pad bytes *)
    l ← rget rx_payload;
    _ ← rlift (if (0 <=? p + 4) && (p + 4 + (255 - pad) <=? zlen l) then Ret tt else Undef);
    let '(errors, w) := decode_rs_8 pad (slice (p + 4) (255 - pad) l) in
    rmodify (rx_set_payload (splice (p + 4) w l));;
    if errors =? -1 then mret (false, 0)
    else take_fragment p (sz (data_bytes - 2));; mret (true, errors).

(** 0 or -1 *)
Definition decode_length (p : Z) : RM Z :=
  b0 ← payload_at p; b1 ← payload_at (p + 1); b2 ← payload_at (p + 2);
  let gd := fst (golay_decode b0 b1 b2) in
  if (gd <? 0) || negb (Z.land (Z.shiftr gd 8) 0xF =? Z.land gd 0xF) then mret (-1)
  else
    let length := Z.land gd 0xFF + (RADIO_HEADER_LENGTH + RADIO_CRC_LENGTH) in
    if negb (length =? 17) && ((length <=? FEC_LENGTH) || (LINK_MTU <? length)) then mret (-1)
    else rmodify (rx_set_length length);; mret 0.

(** Looks for a header; [payload_offset] shrinks each round. *)
Fixpoint find_header (fuel : nat) : RM unit :=
  match fuel with
  | O => rlift Undef
  | S fuel =>
      n ← rget payload_length; start ← rget payload_start; offset ← rget payload_offset;
      if (n =? 0) && (6 <=? offset) then
        b ← is_heartbeat start;
        if b : bool then rmodify (rx_set_length 17)
        else
          r ← decode_length (start + 1);
          if r =? 0 then mret tt
          else rmodify (rx_set_window (u32 (start + 1)) (u32 (offset - 1)));; find_header fuel
      else mret tt
  end.

(** Once through the loop of [radio_link_decode]; false when it returns. *)
Definition decode_round : RM bool :=
  offset ← rget payload_offset;
  find_header (S (Z.to_nat offset));;
  n ← rget payload_length; start ← rget payload_start; offset ← rget payload_offset;
  if (n =? 0) || (offset <? n) then mret false
  else
    b ← parse_heartbeat start;
    if b : bool then
      let offset := u32 (offset - n) in
      l ← rget rx_payload;
      l ← rlift (if negb (offset =? 0) then bcopy l (start + n) l start offset else Ret l);
      rmodify (rx_set_payload l);;
      rmodify (fun r => rx_set_length 0 (rx_set_window 0 (u32 (offset + start)) r));;
      mret true
    else
      '(ok, backtrack) ← radio_link_parse n start;
      (if ok : bool then
         let offset := u32 (offset - (n - backtrack)) in
         l ← rget rx_payload;
         l ← rlift (if negb (offset =? 0) then bcopy l (start + n - backtrack) l 0 offset else Ret l);
         rmodify (rx_set_payload l);;
         rmodify (rx_set_window 0 offset)
       else rmodify (rx_set_window (u32 (start + 1)) (u32 (offset - 1))));;
      rmodify (rx_set_length 0);;
      mret true.

Fixpoint decode_loop (fuel : nat) : RM unit :=
  match fuel with
  | O => rlift Undef
  | S fuel => again ← decode_round; if again : bool then decode_loop fuel else mret tt
  end.

(** The fuel is enough: a heartbeat takes 17 bytes out of the buffer, a packet
    one or more, everything else moves [payload_start] past a byte. *)
Definition decode_fuel (r : radio_rx) : nat := S (Z.to_nat (46 * (payload_start r + payload_offset r))).

(** The new byte, at the end of what is buffered. *)
Definition store_byte (c : Z) : RM unit :=
  start ← rget payload_start; offset ← rget payload_offset; l ← rget rx_payload;
  (if zlen l <=? u32 (start + offset) then
     l ← rlift (bcopy l 1 l 0 (zlen l - 1));
     rmodify (rx_set_payload l);;
     rmodify (rx_set_window (u32 (start - 1)) offset)
   else mret tt);;
  start ← rget payload_start; l ← rget rx_payload;
  _ ← rlift (or_undef (l @@ (start + offset)));
  rmodify (rx_set_payload (splice (start + offset) [c] l));;
  rmodify (rx_set_window start (u32 (offset + 1))).

Definition radio_link_decode (c : Z) : RM unit :=
  store_byte c;;
  fuel ← rget decode_fuel;
  decode_loop fuel.

(** ** Sending *)

(** What sending works on besides the link: the memory of the packet being
    sent, the event loop, and the bytes given to the radio so far. *)
Record radio_world : Type := World {
  w_link : radio_link_state;
  w_heap : heap;
  w_loop : fq_state;
  written : list Z
}.
Definition TM (A : Type) : Type := radio_world -> outcome (A * radio_world).
Global Instance TM_ret : MRet TM := fun A a w => Ret (a, w).
Global Instance TM_bind : MBind TM := fun A B f m w => '(a, w) ← m w; f a w.
Definition t_out {A} (m : outcome A) : TM A := fun w => a ← m; Ret (a, w).
Definition t_get {A} (f : radio_tx -> A) : TM A := fun w => Ret (f (rl_tx (w_link w)), w).
Definition t_link {A} (m : RM A) : TM A :=
  fun w => '(a, l) ← m (w_link w); Ret (a, World l (w_heap w) (w_loop w) (written w)).
Definition t_heap {A} (m : HM A) : TM A :=
  fun w => '(a, h) ← m (w_heap w); Ret (a, World (w_link w) h (w_loop w) (written w)).
Definition t_loop {A} (m : FQ A) : TM A :=
  fun w => '(a, s) ← m (w_loop w); Ret (a, World (w_link w) (w_heap w) s (written w)).
Definition t_modify (f : radio_tx -> radio_tx) : TM unit := t_link (tmodify f).

Definition set_function (b : bool) (e : sched_ent) : sched_ent :=
  SchedEnt (_next_wake e) (_prev_wake e) (_next_run e) (_scheduled e) b (poll e) (run_after e)
           (wake_at e) (run_before e) (alarm e) (deadline e) (_poll_index e).
Definition set_alarm (t d : Z) (e : sched_ent) : sched_ent :=
  SchedEnt (_next_wake e) (_prev_wake e) (_next_run e) (_scheduled e) (function e) (poll e) (run_after e)
           (wake_at e) (run_before e) t d (_poll_index e).
Definition set_events (n : Z) (e : sched_ent) : sched_ent :=
  set_poll (PollFd (fd (poll e)) n (revents (poll e))) e.

(** overlay_queue.c; [next_packet] is an alarm. *)
Definition overlay_queue_schedule_next (next_packet : nat) (next_allowed_packet : Z) : FQ unit :=
  e ← ent next_packet;
  if (alarm e =? 0) || (next_allowed_packet <? alarm e) then
    (if negb (function e) then ent_set next_packet (set_function true) else mret tt);;
    _unschedule next_packet;;
    ent_set next_packet (set_alarm next_allowed_packet (next_allowed_packet + 15));;
    _schedule next_packet
  else mret tt.

(** The first six bytes of a link packet. *)
Definition link_header (len b4 b5 : Z) : list Z :=
  let '(g0, g1, g2) := golay_encode (u8 len) (Z.land len 0xF) 0 in [0xfe; g0; g1; g2; b4; b5].

Context (next_packet : nat).

Definition radio_link_encode_packet : TM unit :=
  pkt ← t_get tx_packet;
  match pkt with
  | None => mret tt
  | Some b =>
      count ← t_out (ob_remaining b);
      let startP := position b =? 0 in
      let endP := negb (LINK_PAYLOAD_MTU <? count) in
      let count := if endP then count else LINK_PAYLOAD_MTU in
      let len := count + FEC_LENGTH - RADIO_CRC_LENGTH in
      seq ← t_get tx_seq;
      t_modify (tx_set_seq (seq + 1));;
      let b4 := Z.land seq 0x3f in
      let b4 := if startP then Z.lor b4 0x40 else b4 in
      let b4 := if endP then Z.lor b4 0x80 else b4 in
      buf ← t_get txbuffer;
      let buf := splice 0 (link_header len b4 MAVLINK_MSG_ID_DATASTREAM) buf in
      '(src, b) ← t_heap (ob_get_bytes b count);
      let buf := match src with Some s => splice 6 s buf | None => buf end in
      let parity := encode_rs_8 (FEC_MAX_BYTES - (count + 2)) (slice 4 (count + 2) buf) in
      _ ← t_out (if 6 + count + FEC_LENGTH <=? zlen buf then Ret tt else Undef);
      t_modify (tx_set_buffer (splice (6 + count) parity buf) (len + RADIO_CRC_LENGTH + RADIO_HEADER_LENGTH));;
      t_modify (tx_set_packet (Some b));;
      if endP then
        t_heap (ob_free b);;
        t_modify (tx_set_packet None);;
        now ← t_link radio_now;
        t_loop (overlay_queue_schedule_next next_packet now)
      else mret tt
  end.

Definition radio_link_is_busy (s : radio_link_state) : bool :=
  match tx_packet (rl_tx s) with Some _ => true | None => false end.

Definition build_heartbeat : TM unit :=
  let count := 9 in
  buf ← t_get txbuffer;
  let buf := splice 0 (replicate (Z.to_nat (count + RADIO_CRC_LENGTH + RADIO_HEADER_LENGTH)) 0) buf in
  let buf := splice 0 (link_header count 0xf1 0) buf in
  let '(g0, g1, g2) := golay_encode 0x55 0x05 0 in
  t_modify (tx_set_buffer (splice 14 [g0; g1; g2] buf) (count + RADIO_CRC_LENGTH + RADIO_HEADER_LENGTH)).

(** [write] of the [k]th call: how many of the bytes it took.  [a] is the alarm
    of the interface, the last two are the fields of its destination. *)
Context (sys_write : nat -> list Z -> Z) (a : nat) (last_tx tick_ms : Z).
Definition POLLOUT : Z := 4.

Definition t_write (l : list Z) : TM Z := fun w =>
  let s := w_link w in
  let n := sys_write (rl_ticks s) l in
  Ret (n, World (RadioLink (rl_rx s) (rl_tx s) (delivered s) (S (rl_ticks s))) (w_heap w) (w_loop w)
                (written w ++ take (Z.to_nat n) l)).

Fixpoint tx_loop (fuel : nat) (now next_tick : Z) : TM unit :=
  match fuel with
  | O => t_out Undef
  | S fuel =>
      n ← t_get tx_bytes;
      if negb (n =? 0) then
        allowed ← t_get next_tx_allowed;
        if now <? allowed then t_loop (ent_set a (fun e => set_alarm allowed (deadline e) e))
        else
          buf ← t_get txbuffer; pos ← t_get tx_pos;
          sent ← t_write (slice pos n buf);
          if sent <=? 0 then t_loop (ent_set a (fun e => set_events (Z.lor (events (poll e)) POLLOUT) e))
          else
            space ← t_get remaining_space;
            t_modify (tx_set_space (space - sent));;
            t_modify (tx_set_progress (n - sent) (if negb (n - sent =? 0) then pos + sent else 0));;
            tx_loop fuel now next_tick
      else
        t_loop (ent_set a (fun e => set_events (Z.land (events (poll e)) (Z.lnot POLLOUT)) e));;
        hb ← t_get next_heartbeat;
        if hb <=? now then
          build_heartbeat;; t_modify (tx_set_heartbeat (now + 1000));; tx_loop fuel now next_tick
        else
          space ← t_get remaining_space;
          if space <? LINK_MTU + HEARTBEAT_SIZE
          then t_loop (ent_set a (fun e => set_alarm hb (deadline e) e))
          else
            (if space <? LINK_MTU + HEARTBEAT_SIZE then t_modify (tx_set_heartbeat now) else mret tt);;
            pkt ← t_get tx_packet;
            match pkt with
            | None => t_loop (ent_set a (fun e => set_alarm next_tick (deadline e) e))
            | Some _ =>
                radio_link_encode_packet;;
                t_modify (tx_set_last now);;
                tx_loop fuel now next_tick
            end
  end.

(** A round writes a byte, makes a heartbeat or makes a fragment. *)
Definition tx_fuel (t : radio_tx) : nat :=
  Z.to_nat (tx_bytes t + 300 * (5 + match tx_packet t with Some b => sizeLimit b - position b | None => 0 end)).

Definition radio_link_tx : TM unit :=
  t_loop (_unschedule a);;
  t_loop (ent_set a (fun e => set_alarm 0 (deadline e) e));;
  let next_tick := last_tx + tick_ms in
  now ← t_link radio_now;
  fuel ← t_get tx_fuel;
  tx_loop fuel now next_tick;;
  t_loop (_watch a);;
  e ← t_loop (ent a);
  let t := if alarm e <? now then now else alarm e in
  t_loop (ent_set a (fun e => set_alarm t (deadline e) e));;
  if negb (t =? 0) then
    t_loop (ent_set a (fun e => set_alarm t (t + 100) e));;
    t_loop (_schedule a)
  else mret tt.

Definition radio_link_queue_packet (b : overlay_buffer) : TM Z :=
  pkt ← t_get tx_packet;
  match pkt with
  | Some _ => t_heap (ob_free b);; mret (-1)
  | None =>
      b ← t_out (ob_flip b);
      t_modify (tx_set_packet (Some b));;
      radio_link_tx;;
      mret 0
  end.
End radio_link.
