(* ===== verification/RadioLinkSpec.v ===== *)
(** * The serial radio link: receiving

    What the receiver does with any bytes at all: it returns, stays inside its
    buffers and puts fragments together as an abstract reassembler does.  Then,
    how it recognises a link packet that arrives byte by byte. *)

From stdpp Require Import base tactics list fin_maps gmap.
From Stdlib Require Import ZArith Lia.
From S2P Require Import Prelude Memory OverlayBuffer OverlayAddress Golay Fec FdQueue RadioLink.

Local Open Scope Z_scope.
Implicit Types (s : radio_link_state) (r : radio_rx).
Local Opaque golay_decode golay_encode decode_rs_8 encode_rs_8.

(** ** The monad *)

Lemma RM_bind_run {A B} (x : RM A) (f : A -> RM B) s :
  (x ≫= f) s = match x s with Ret (a, s') => f a s' | Abort => Abort | Undef => Undef end.
Proof. unfold mbind, RM_bind, mbind, outcome_bind. by destruct (x s) as [[]| |]. Qed.
Lemma RM_bind_Ret {A B} (x : RM A) (f : A -> RM B) s a s' : x s = Ret (a, s') -> (x ≫= f) s = f a s'.
Proof. intros E. by rewrite RM_bind_run, E. Qed.

Definition with_rx r s : radio_link_state := RadioLink r (rl_tx s) (delivered s) (rl_ticks s).

Lemma payload_at_run i x s : rx_payload (rl_rx s) @@ i = Some x -> payload_at i s = Ret (x, s).
Proof. intros E. unfold payload_at. erewrite RM_bind_Ret by done. by rewrite E. Qed.

(** ** The invariant *)

(** The lengths a header can announce. *)
Definition link_size (n : Z) : Prop := n = 17 \/ 32 < n <= LINK_MTU.

Record rx_ok r : Prop := {
  ok_payload : zlen (rx_payload r) = LINK_MTU * 3;
  ok_dst : zlen (rx_dst r) = MDP_MTU;
  ok_packet : 0 <= packet_length r <= MDP_MTU + 1;
  ok_start : 0 <= payload_start r;
  ok_offset : 0 <= payload_offset r;
  ok_window : payload_start r + payload_offset r <= LINK_MTU * 3
}.

(** Between two bytes: no header was found yet, or the rest of a link packet is
    missing. *)
Definition waiting r : Prop :=
  payload_length r = 0 /\ payload_offset r < 6 \/
  link_size (payload_length r) /\ payload_offset r < payload_length r.

(** What a step leaves alone. *)
Definition same_window r r' : Prop :=
  payload_start r' = payload_start r /\ payload_offset r' = payload_offset r /\ payload_length r' = payload_length r.

Lemma payload_in r i : rx_ok r -> 0 <= i < LINK_MTU * 3 -> exists x, rx_payload r @@ i = Some x.
Proof. intros [Hp _ _ _ _ _] Hi. destruct (zlookup_lt i (rx_payload r)) as [x Hx]; [lia|]. by exists x. Qed.

(** ** Reassembly *)

(** The packet so far, unless a fragment of it was missed. *)
Definition partial r : option (list Z) :=
  if packet_length r <=? MDP_MTU then Some (take (Z.to_nat (packet_length r)) (rx_dst r)) else None.

(** Adding the fragment [d] with the control byte [b4], after the one with the
    number [last]: what there is then, and the packet that is complete. *)
Definition reassemble (last b4 : Z) (acc : option (list Z)) (d : list Z) : option (list Z) * list (list Z) :=
  let acc := if negb (Z.land b4 0x40 =? 0) then Some []
             else if Z.land b4 0x3f =? Z.land (last + 1) 0x3f then acc else None in
  match acc with
  | None => (None, [])
  | Some l =>
      if MDP_MTU <? zlen l + zlen d then (None, [])
      else if negb (Z.land b4 0x80 =? 0) then (None, [l ++ d]) else (Some (l ++ d), [])
  end.

Lemma take_splice (l new : list Z) n :
  0 <= n -> n + zlen new <= zlen l -> take (Z.to_nat (n + zlen new)) (splice n new l) = take (Z.to_nat n) l ++ new.
Proof.
  intros Hn Hl. unfold splice, zlen in *. rewrite app_assoc, take_app_length'; [done|].
  rewrite length_app, length_take. lia.
Qed.

Section radio.
Context {AR : Arch}.

Lemma sz_id x : 0 <= x < 2 ^ 32 -> sz x = x.
Proof. intros Hx. apply sz_small. pose proof SIZE_MAX_ge. lia. Qed.

(** Where the fragment goes, from the sequence number and the start flag. *)
Definition fragment_at b4 r : Z :=
  if negb (Z.land b4 0x40 =? 0) then 0
  else if Z.land b4 0x3f =? Z.land (rx_seq r + 1) 0x3f then packet_length r else MDP_MTU + 1.

Lemma take_fragment_place s p b4 n :
  rx_payload (rl_rx s) @@ (p + 4) = Some b4 ->
  let r := rl_rx s in
  let k := fragment_at b4 r in
  let r1 := rx_set_seq (Z.land b4 0x3f) (rx_set_packet (rx_dst r) k r) in
  take_fragment p n s =
  if MDP_MTU <? sz (k + n) then Ret (tt, with_rx (rx_set_packet (rx_dst r) (MDP_MTU + 1) r1) s)
  else
    match bcopy (rx_payload r) (p + 6) (rx_dst r) k n with
    | Ret dst =>
        let r2 := rx_set_packet dst (sz (k + n)) r1 in
        Ret (tt, if negb (Z.land b4 0x80 =? 0)
                 then RadioLink (rx_set_packet dst (MDP_MTU + 1) r2) (rl_tx s)
                        (delivered s ++ [take (Z.to_nat (sz (k + n))) dst]) (rl_ticks s)
                 else with_rx r2 s)
    | Abort => Abort
    | Undef => Undef
    end.
Proof.
  intros Hb4. cbv zeta. unfold take_fragment. erewrite RM_bind_Ret by (by apply payload_at_run).
  erewrite RM_bind_Ret by done.
  assert (exists r1, r1 = rx_set_seq (Z.land b4 0x3f) (rx_set_packet (rx_dst (rl_rx s)) (fragment_at b4 (rl_rx s)) (rl_rx s)))
    as (r1 & E1) by eauto. rewrite <- E1.
  set (s0 := if negb (Z.land b4 0x3f =? Z.land (rx_seq (rl_rx s) + 1) 0x3f)
    then with_rx (rx_set_packet (rx_dst (rl_rx s)) (MDP_MTU + 1) (rl_rx s)) s else s).
  set (s1 := if negb (Z.land b4 0x40 =? 0) then with_rx (rx_set_packet (rx_dst (rl_rx s0)) 0 (rl_rx s0)) s0 else s0).
  rewrite (RM_bind_Ret _ _ s tt s0) by (unfold s0; by destruct (Z.land b4 0x3f =? _)).
  rewrite (RM_bind_Ret _ _ s0 tt s1) by (unfold s1; by destruct (Z.land b4 0x40 =? 0)).
  rewrite (RM_bind_Ret _ _ s1 tt (with_rx r1 s)).
  2: { unfold rmodify. rewrite E1. unfold s1, s0, fragment_at, with_rx.
       destruct (Z.land b4 0x3f =? _), (Z.land b4 0x40 =? 0); simpl; by destruct (rl_rx s). }
  erewrite RM_bind_Ret by done. change (rl_rx (with_rx r1 s)) with r1.
  assert (packet_length r1 = fragment_at b4 (rl_rx s)) as -> by (by rewrite E1).
  destruct (MDP_MTU <? sz _); [by rewrite E1|]. do 2 (erewrite RM_bind_Ret by done).
  change (rx_payload (rl_rx (with_rx r1 s))) with (rx_payload r1). change (rx_dst (rl_rx (with_rx r1 s))) with (rx_dst r1).
  replace (rx_payload r1) with (rx_payload (rl_rx s)) by (by rewrite E1). replace (rx_dst r1) with (rx_dst (rl_rx s)) by (by rewrite E1).
  rewrite RM_bind_run. unfold rlift. simpl. destruct (bcopy _ _ _ _ _) as [dst| |]; [|done..].
  simpl. erewrite RM_bind_Ret by done. by destruct (Z.land b4 0x80 =? 0).
Qed.

Lemma bcopy_run src i dst j n :
  0 <= i -> 0 <= n -> i + n <= zlen src -> 0 <= j -> j + n <= zlen dst ->
  bcopy src i dst j n = Ret (splice j (slice i n src) dst).
Proof.
  intros. unfold bcopy. rewrite !(proj2 (Z.leb_le _ _)) by lia. by rewrite orb_true_r.
Qed.

(** A fragment that is inside the buffer is added as [reassemble] says. *)
Lemma take_fragment_refines s p b4 n :
  rx_ok (rl_rx s) -> 0 <= p -> 0 <= n <= LINK_MTU -> p + 6 + n <= LINK_MTU * 3 ->
  rx_payload (rl_rx s) @@ (p + 4) = Some b4 ->
  let '(acc, out) := reassemble (rx_seq (rl_rx s)) b4 (partial (rl_rx s)) (slice (p + 6) n (rx_payload (rl_rx s))) in
  exists r', take_fragment p n s = Ret (tt, RadioLink r' (rl_tx s) (delivered s ++ out) (rl_ticks s)) /\
    rx_ok r' /\ partial r' = acc /\ rx_seq r' = Z.land b4 0x3f /\ same_window (rl_rx s) r' /\
    rx_payload r' = rx_payload (rl_rx s).
Proof.
  intros Hok Hp Hn Hfit Hb4. pose proof Hok as [Hlp Hld Hpl Hst Hof Hwin].
  rewrite (take_fragment_place s p b4 n Hb4). cbv zeta. set (r := rl_rx s) in *.
  set (d := slice (p + 6) n (rx_payload r)). set (k := fragment_at b4 r).
  assert (zlen d = n) as Hd by (apply zlen_slice; lia).
  assert (0 <= k <= MDP_MTU + 1 /\ (if negb (Z.land b4 0x40 =? 0) then Some []
             else if Z.land b4 0x3f =? Z.land (rx_seq r + 1) 0x3f then partial r else None) =
          if k <=? MDP_MTU then Some (take (Z.to_nat k) (rx_dst r)) else None) as [Hk Hacc].
  { unfold k, fragment_at, partial. destruct (Z.land b4 0x40 =? 0), (Z.land b4 0x3f =? _); simpl; split; lia || done. }
  unfold reassemble. rewrite Hacc. unfold LINK_MTU, MDP_MTU in *. rewrite sz_id by lia.
  destruct (Z.ltb_spec 1200 (k + n)) as [Hbig|Hsmall].
  - assert ((if k <=? 1200 then Some (take (Z.to_nat k) (rx_dst r)) else None) = None \/
            exists l, (if k <=? 1200 then Some (take (Z.to_nat k) (rx_dst r)) else None) = Some l /\ zlen l = k) as Hc.
    { destruct (Z.leb_spec k 1200); [right|by left]. eexists. split; [done|]. unfold zlen in *. rewrite length_take. lia. }
    assert (forall x : option (list Z) * list (list Z), x = (None, []) ->
      let '(acc, out) := x in exists r', Ret (tt, with_rx (rx_set_packet (rx_dst r) 1201 (rx_set_seq (Z.land b4 63) (rx_set_packet (rx_dst r) k r))) s)
        = Ret (tt, RadioLink r' (rl_tx s) (delivered s ++ out) (rl_ticks s)) /\
        rx_ok r' /\ partial r' = acc /\ rx_seq r' = Z.land b4 63 /\ same_window r r' /\ rx_payload r' = rx_payload r) as Hfin.
    { intros x ->. eexists. rewrite app_nil_r. split_and!; try done. }
    apply Hfin. destruct Hc as [-> |(l & -> & Hl)]; [done|]. rewrite Hl, Hd. by rewrite (proj2 (Z.ltb_lt _ _)) by lia.
  - rewrite (proj2 (Z.leb_le k 1200)) by lia.
    assert (zlen (take (Z.to_nat k) (rx_dst r)) = k) as -> by (unfold zlen in *; rewrite length_take; lia).
    rewrite Hd, (proj2 (Z.ltb_ge _ _)) by lia. rewrite bcopy_run by lia. fold d.
    assert (take (Z.to_nat (k + n)) (splice k d (rx_dst r)) = take (Z.to_nat k) (rx_dst r) ++ d) as Htk
      by (rewrite <- Hd; apply take_splice; lia).
    assert (zlen (splice k d (rx_dst r)) = 1200) as Hlen by (rewrite zlen_splice by lia; lia).
    destruct (Z.land b4 0x80 =? 0); simpl; eexists; rewrite ?app_nil_r, ?Htk; split_and!; try done.
    + split; simpl; unfold LINK_MTU, MDP_MTU; lia.
    + unfold partial. simpl. unfold MDP_MTU. rewrite (proj2 (Z.leb_le _ _)) by lia. by rewrite Htk.
Qed.

(** ** Safety *)

(** A link packet of 37 bytes has no room for the two bytes of header that its
    code word covers.  One that the Reed-Solomon decoder accepts, and that does
    not start a packet or follow one of no bytes, is there to be parsed. *)
Definition overruns s : Prop :=
  payload_length (rl_rx s) = 37 /\ 37 <= payload_offset (rl_rx s) /\
  exists errors w b4,
    decode_rs_8 222 (slice (payload_start (rl_rx s) + 4) 33 (rx_payload (rl_rx s))) = (errors, w) /\
    errors <> -1 /\ w @@ 0 = Some b4 /\ fragment_at b4 (rl_rx s) <> 0.

Section safety.
Context (clock : nat -> Z).

(** Every return is to a state that satisfies [Q], and behaviour is only
    undefined when [U]. *)
Definition rwp (U : Prop) {A} (m : RM A) (Q : A -> radio_link_state -> Prop) s : Prop :=
  match m s with Ret (a, s') => Q a s' | Abort => False | Undef => U end.

Lemma rwp_bind U {A B} (m : RM A) (f : A -> RM B) Q s :
  rwp U m (fun a s' => rwp U (f a) Q s') s -> rwp U (m ≫= f) Q s.
Proof. unfold rwp. rewrite RM_bind_run. by destruct (m s) as [[]| |]. Qed.
Lemma rwp_run U {A} (m : RM A) (P Q : A -> radio_link_state -> Prop) s :
  rwp U m P s -> (forall a s', m s = Ret (a, s') -> P a s' -> Q a s') -> rwp U m Q s.
Proof. unfold rwp. destruct (m s) as [[]| |]; auto. Qed.
Lemma rwp_mono U {A} (m : RM A) (P Q : A -> radio_link_state -> Prop) s :
  rwp U m P s -> (forall a s', P a s' -> Q a s') -> rwp U m Q s.
Proof. intros H HQ. by apply (rwp_run _ _ _ _ _ H); auto. Qed.
Lemma rwp_payload_at U i Q s :
  rx_ok (rl_rx s) -> 0 <= i < LINK_MTU * 3 -> (forall x, rx_payload (rl_rx s) @@ i = Some x -> Q x s) ->
  rwp U (payload_at i) Q s.
Proof.
  intros Hok Hi HQ. destruct (payload_in _ i Hok Hi) as (x & Hx). unfold rwp.
  rewrite (payload_at_run i x s Hx). by apply HQ.
Qed.

(** Changes to the other direction, and the clock. *)
Definition with_tx (t : radio_tx) (k : nat) s : radio_link_state := RadioLink (rl_rx s) t (delivered s) k.
Lemma rwp_tmodify U f Q s : (forall t k, Q tt (with_tx t k s)) -> rwp U (tmodify f) Q s.
Proof. intros HQ. apply HQ. Qed.
Lemma rwp_now U Q s : (forall x t k, Q x (with_tx t k s)) -> rwp U (radio_now clock) Q s.
Proof. intros HQ. apply HQ. Qed.

Lemma rwp_get U {A} (f : radio_rx -> A) Q s : Q (f (rl_rx s)) s -> rwp U (rget f) Q s.
Proof. done. Qed.
Lemma rwp_modify U f Q s : Q tt (with_rx (f (rl_rx s)) s) -> rwp U (rmodify f) Q s.
Proof. done. Qed.

(** One statement of the program. *)
Ltac rstep := apply rwp_bind; first
  [ apply rwp_payload_at; [assumption | unfold LINK_MTU in *; lia | intros ? ?]
  | apply rwp_get; cbv beta | apply rwp_modify; cbv beta ].

Lemma is_heartbeat_safe U p Q s :
  rx_ok (rl_rx s) -> 0 <= p -> p + 6 <= LINK_MTU * 3 -> (forall b, Q b s) -> rwp U (is_heartbeat p) Q s.
Proof.
  intros Hok Hp Hl HQ. unfold is_heartbeat. rstep. destruct (negb _); [apply HQ|].
  rstep. destruct (negb _); [apply HQ|]. rstep. destruct (negb _); [apply HQ|].
  rstep. destruct (negb _); [apply HQ|]. rstep. apply HQ.
Qed.

(** Of what is received only the signal strengths change. *)
Lemma parse_heartbeat_safe U p Q s :
  rx_ok (rl_rx s) -> 0 <= p -> p + 17 <= LINK_MTU * 3 -> Q false s ->
  (forall a b s', rl_rx s' = rx_set_rssi a b (rl_rx s) -> delivered s' = delivered s -> Q true s') ->
  rwp U (parse_heartbeat clock p) Q s.
Proof.
  intros Hok Hp Hl HF HT. unfold parse_heartbeat. apply rwp_bind. apply is_heartbeat_safe; [done|done|lia|].
  intros b. destruct b; simpl; [|done]. do 4 rstep. rstep.
  apply rwp_bind. apply rwp_payload_at; [by destruct Hok|unfold LINK_MTU in *; lia|]. intros x5 _.
  apply rwp_bind, rwp_tmodify. intros t k. generalize (Z.quot (x5 * 1280) 100 - 30). intros n.
  set (sa := Z.quot (10 * (x - x0)) 19) in *. set (sb := Z.quot (10 * (x1 - x2)) 19) in *.
  apply rwp_bind, (rwp_mono _ _ (fun _ s' => rl_rx s' = rx_set_rssi sa sb (rl_rx s) /\ delivered s' = delivered s)).
  { destruct (0 <? n); [|done]. apply rwp_bind, rwp_now. intros y t1 k1. apply rwp_tmodify. by intros t2 k2. }
  intros [] s1 [E1 E2]. apply rwp_bind.
  apply (rwp_mono _ _ (fun _ s' => rl_rx s' = rx_set_rssi sa sb (rl_rx s) /\ delivered s' = delivered s)).
  { destruct (720 <? n); [|done]. apply rwp_bind, rwp_now. intros y t1 k1. apply rwp_tmodify. by intros t2 k2. }
  intros [] s2 [E3 E4]. by apply (HT sa sb).
Qed.

Lemma decode_length_safe U p Q s :
  rx_ok (rl_rx s) -> 0 <= p -> p + 3 <= LINK_MTU * 3 -> Q (-1) s ->
  (forall n, link_size n -> Q 0 (with_rx (rx_set_length n (rl_rx s)) s)) ->
  rwp U (decode_length p) Q s.
Proof.
  intros Hok Hp Hl HF HT. unfold decode_length. do 3 rstep. destruct (_ || _); [done|].
  set (n := Z.land _ 0xFF + _). destruct (negb _ && _) eqn:E; [done|]. apply HT. unfold link_size.
  destruct (Z.eqb_spec n 17); [by left|]. right. simpl in E. unfold FEC_LENGTH in E.
  apply orb_false_iff in E as [?%Z.leb_gt ?%Z.ltb_ge]. lia.
Qed.

Lemma find_header_safe U fuel Q s :
  rx_ok (rl_rx s) -> (payload_length (rl_rx s) = 0 \/ link_size (payload_length (rl_rx s))) ->
  (Z.to_nat (payload_offset (rl_rx s)) < fuel)%nat ->
  (forall r, rx_ok r -> payload_start r + payload_offset r = payload_start (rl_rx s) + payload_offset (rl_rx s) ->
     payload_offset r <= payload_offset (rl_rx s) ->
     (payload_length r = 0 /\ payload_offset r < 6 \/ link_size (payload_length r)) -> Q tt (with_rx r s)) ->
  rwp U (find_header fuel) Q s.
Proof.
  revert s. induction fuel as [|fuel IH]; intros s Hok Hn Hf HQ; [lia|]. cbn [find_header].
  pose proof Hok as [Hlp Hld Hpl Hst Hof Hwin]. do 3 rstep.
  destruct (_ && _) eqn:E.
  - apply andb_true_iff in E as [?%Z.eqb_eq ?%Z.leb_le]. apply rwp_bind.
    apply is_heartbeat_safe; [done|lia|lia|]. intros b. destruct b.
    { apply HQ; try done; try lia. right. by left. }
    apply rwp_bind. apply decode_length_safe; [done|lia|lia| |].
    2: { intros n Hsize. apply HQ; try done; try lia. by right. }
    simpl. rstep. unfold LINK_MTU in *. rewrite !uN_small by lia. apply IH; simpl.
    + split; simpl; unfold LINK_MTU; lia.
    + done.
    + lia.
    + intros r Hr Ht Ho. apply (HQ r); [done|lia|lia].
  - destruct s as [r tx de ti]. apply (HQ r); try done. simpl in *. apply andb_false_iff in E.
    destruct E as [?%Z.eqb_neq|?%Z.leb_gt]; [right; by destruct Hn|]. destruct Hn; [by left|by right].
Qed.

(** The number of bytes of a link packet gives that of its code word. *)
Lemma link_pad n : 32 < n <= LINK_MTU ->
  s32 (sz (FEC_MAX_BYTES - sz (n - (RADIO_USED_HEADER_LENGTH + FEC_LENGTH)))) = 259 - n /\
  sz (sz (n - (RADIO_USED_HEADER_LENGTH + FEC_LENGTH)) - 2) = sz (n - 38).
Proof.
  intros Hn. unfold FEC_MAX_BYTES, RADIO_USED_HEADER_LENGTH, FEC_LENGTH, LINK_MTU in *. unfold sz.
  rewrite Zminus_mod_idemp_r, Zminus_mod_idemp_l.
  replace (223 - (n - (4 + 32))) with (259 - n) by lia. replace (n - (4 + 32) - 2) with (n - 38) by lia.
  split; [|done]. fold (sz (259 - n)). rewrite sz_id by lia. apply sN_small; simpl; lia.
Qed.

(** A fragment of -1 bytes is copied out of all bounds, unless it would be the
    first of its packet. *)
Lemma fragment_at_bounds b4 r : rx_ok r -> 0 <= fragment_at b4 r <= MDP_MTU + 1.
Proof.
  intros []. unfold fragment_at, MDP_MTU in *. destruct (negb _); [lia|]. destruct (Z.land b4 63 =? _); lia.
Qed.
Lemma sz_minus_one : sz (-1) = SIZE_MAX.
Proof. pose proof SIZE_MAX_ge. unfold sz. symmetry. apply Z.mod_unique_pos with (-1); lia. Qed.

Lemma take_fragment_overrun s p b4 :
  rx_ok (rl_rx s) -> 0 <= p -> rx_payload (rl_rx s) @@ (p + 4) = Some b4 -> fragment_at b4 (rl_rx s) <> 0 ->
  take_fragment p (sz (-1)) s = Undef.
Proof.
  intros Hok Hp Hb4 Hk. pose proof SIZE_MAX_ge. pose proof (fragment_at_bounds b4 _ Hok).
  rewrite (take_fragment_place s p b4 _ Hb4), sz_minus_one. cbv zeta.
  assert (sz (fragment_at b4 (rl_rx s) + SIZE_MAX) = fragment_at b4 (rl_rx s) - 1) as ->
    by (unfold sz, MDP_MTU in *; symmetry; apply Z.mod_unique_pos with 1; lia).
  unfold MDP_MTU in *. rewrite (proj2 (Z.ltb_ge 1200 _)) by lia. destruct Hok as [Hlp _ _ _ _ _]. unfold bcopy.
  rewrite Hlp. unfold LINK_MTU in *. rewrite (proj2 (Z.eqb_neq _ _)), (proj2 (Z.leb_gt (_ + _) (255 * 3))) by lia.
  by rewrite !andb_false_r.
Qed.

Lemma take_fragment_short U s p (Q : unit -> radio_link_state -> Prop) b4 :
  rx_ok (rl_rx s) -> 0 <= p -> rx_payload (rl_rx s) @@ (p + 4) = Some b4 ->
  (fragment_at b4 (rl_rx s) <> 0 -> U) ->
  (forall r, rx_ok r -> same_window (rl_rx s) r -> Q tt (with_rx r s)) -> rwp U (take_fragment p (sz (-1))) Q s.
Proof.
  intros Hok Hp Hb4 HU HQ. unfold rwp. destruct (Z.eq_dec (fragment_at b4 (rl_rx s)) 0) as [E|E].
  - pose proof SIZE_MAX_ge. rewrite (take_fragment_place s p b4 _ Hb4), sz_minus_one. cbv zeta. rewrite E.
    assert (sz (0 + SIZE_MAX) = SIZE_MAX) as -> by (apply sz_small; lia).
    unfold MDP_MTU in *. rewrite (proj2 (Z.ltb_lt 1200 SIZE_MAX)) by lia. apply HQ; [|done].
    destruct Hok. by split; simpl; unfold MDP_MTU.
  - rewrite (take_fragment_overrun s p b4) by done. by apply HU.
Qed.

Lemma radio_link_parse_safe U n p (Q : bool * Z -> radio_link_state -> Prop) s :
  rx_ok (rl_rx s) -> link_size n -> 0 <= p -> p + n <= LINK_MTU * 3 ->
  (forall errors w b4, n = 37 -> decode_rs_8 222 (slice (p + 4) 33 (rx_payload (rl_rx s))) = (errors, w) ->
     errors <> -1 -> w @@ 0 = Some b4 -> fragment_at b4 (rl_rx s) <> 0 -> U) ->
  (forall b k s', rx_ok (rl_rx s') -> same_window (rl_rx s) (rl_rx s') -> 0 <= k < n -> (n = 17 -> k = 0) -> Q (b, k) s') ->
  rwp U (radio_link_parse n p) Q s.
Proof.
  intros Hok Hn Hp Hl HU HQ. unfold radio_link_parse. destruct (Z.eqb_spec n 17) as [->|H17].
  { do 3 rstep. by apply HQ. }
  destruct Hn as [?|Hn]; [done|]. destruct (link_pad n Hn) as [-> ->]. cbv zeta. rstep.
  pose proof Hok as [Hlp Hld Hpl Hst Hof Hwin]. rewrite Hlp. unfold LINK_MTU in *.
  rewrite (proj2 (Z.leb_le _ _)), (proj2 (Z.leb_le _ _)) by lia. apply rwp_bind. unfold rwp at 1. simpl.
  replace (255 - (259 - n)) with (n - 4) by lia.
  set (w := slice (p + 4) (n - 4) (rx_payload (rl_rx s))).
  assert (zlen w = n - 4) as Hw by (unfold w; rewrite zlen_slice; lia).
  destruct (decode_rs_8_bounds (259 - n) w) as [Hlen Herr]; [unfold NN; lia|].
  destruct (decode_rs_8 (259 - n) w) as [errors w'] eqn:E. cbn [fst snd] in Hlen, Herr. unfold NROOTS in Herr.
  rstep. set (r1 := rx_set_payload _ _). set (s1 := with_rx r1 s).
  assert (zlen (rx_payload r1) = 765) as Hlp1 by (simpl; rewrite zlen_splice; lia).
  assert (rx_ok (rl_rx s1)) as Hok1 by (split; simpl in *; unfold LINK_MTU; lia).
  destruct (Z.eqb_spec errors (-1)) as [He|He]; [apply HQ; [done|done|lia|done]|]. apply rwp_bind.
  assert (37 <= n) as H37.
  { destruct (Z.lt_ge_cases n 37); [|done]. rewrite decode_rs_8_pad in E by lia. congruence. }
  assert (slice (p + 4) (n - 4) (rx_payload r1) = w') as Hsame.
  { simpl. rewrite <- Hw, <- Hlen. apply slice_splice_same; lia. }
  destruct (payload_in _ (p + 4) Hok1) as (b4 & Hb4); [unfold LINK_MTU; lia|].
  destruct (Z.eq_dec n 37) as [->|Hs].
  - apply (take_fragment_short _ _ _ _ b4); [done|done|done| |].
    + intros Hk. apply (HU errors w' b4); [done|exact E|done| |exact Hk].
      rewrite <- Hsame, zlookup_slice by lia. by rewrite Z.add_0_r.
    + intros r Hr Hw2. apply HQ; [done|done|lia|done].
  - rewrite sz_id by lia.
    pose proof (take_fragment_refines s1 p b4 (n - 38) Hok1 Hp) as Href. unfold LINK_MTU in Href.
    specialize (Href ltac:(lia) ltac:(lia) Hb4). destruct (reassemble _ _ _ _) as [acc out].
    destruct Href as (r' & Hr & Hok' & _ & _ & Hw2 & _). unfold rwp at 1. rewrite Hr. apply HQ; [done|done|lia|done].
Qed.

(** Moving [n] bytes of the buffer down. *)
Lemma shuffle_safe U {A} i j n (k : RM A) Q s :
  zlen (rx_payload (rl_rx s)) = LINK_MTU * 3 -> 0 <= i -> 0 <= j -> 0 <= n ->
  i + n <= LINK_MTU * 3 -> j + n <= LINK_MTU * 3 ->
  (forall l, zlen l = LINK_MTU * 3 -> rwp U k Q (with_rx (rx_set_payload l (rl_rx s)) s)) ->
  rwp U (l ← rget rx_payload; l ← rlift (if negb (n =? 0) then bcopy l i l j n else Ret l);
       rmodify (rx_set_payload l);; k) Q s.
Proof.
  intros Hl Hi Hj Hn Hin Hjn HQ. rstep. apply rwp_bind. unfold rwp at 1, rlift.
  destruct (negb (n =? 0)); simpl.
  - rewrite bcopy_run by lia. simpl. rstep. apply HQ. rewrite zlen_splice; [done|lia|].
    rewrite zlen_slice by lia. lia.
  - rstep. by apply HQ.
Qed.

(** Each round shrinks this. *)
Definition decode_measure r : Z := 45 * (payload_start r + payload_offset r) + payload_offset r.

(** Between two rounds: a header is found or not. *)
Definition between s : Prop :=
  rx_ok (rl_rx s) /\ (payload_length (rl_rx s) = 0 \/ link_size (payload_length (rl_rx s))).

(** In the round that starts in [s], the header of such a packet is found. *)
Definition meets_overrun s : Prop :=
  exists s1, find_header (S (Z.to_nat (payload_offset (rl_rx s)))) s = Ret (tt, s1) /\ overruns s1.

Lemma decode_round_safe U s :
  between s -> (meets_overrun s -> U) ->
  rwp U (decode_round clock)
    (fun again s' => between s' /\
       (if again : bool then decode_measure (rl_rx s') < decode_measure (rl_rx s) else waiting (rl_rx s'))) s.
Proof.
  intros [Hok Hn] HU. unfold decode_round. rstep. apply rwp_bind.
  eapply rwp_run. { apply (find_header_safe U _ (fun _ s1 => exists r, s1 = with_rx r s /\ rx_ok r /\
     payload_start r + payload_offset r = payload_start (rl_rx s) + payload_offset (rl_rx s) /\
     payload_offset r <= payload_offset (rl_rx s) /\
     (payload_length r = 0 /\ payload_offset r < 6 \/ link_size (payload_length r)))); [done|done|lia|].
    intros r H1 H2 H3 H4. by exists r. }
  intros [] s1 Hfind (r & -> & Hokr & Ht & Ho & Hr). do 3 rstep. change (rl_rx (with_rx r s)) with r.
  unfold decode_measure, between.
  destruct (_ || _) eqn:Ew.
  { split; [split; [done|]|].
    - change (rl_rx (with_rx r s)) with r. tauto.
    - change (rl_rx (with_rx r s)) with r. destruct Hr as [?|Hr]; [by left|]. right. split; [done|].
      apply orb_true_iff in Ew as [?%Z.eqb_eq|?%Z.ltb_lt]; [|done]. unfold link_size, LINK_MTU in Hr. lia. }
  apply orb_false_iff in Ew as [Hne%Z.eqb_neq Hge%Z.ltb_ge]. destruct Hr as [[? _]|Hsize]; [done|].
  pose proof Hokr as [Hlp Hld Hpl Hst Hof Hwin]. unfold LINK_MTU in *.
  assert (17 <= payload_length r <= 255) as Hrange by (unfold link_size, LINK_MTU in Hsize; lia).
  apply rwp_bind, parse_heartbeat_safe; [done|done|unfold LINK_MTU; simpl; lia| |].
  - apply rwp_bind, radio_link_parse_safe; [done|done|done|unfold LINK_MTU; simpl; lia| |].
    { intros errors w b4 E37 Hd He Hb Hk. apply HU. eexists. split; [exact Hfind|]. split; [exact E37|].
      split; [simpl; lia|]. by exists errors, w, b4. }
    intros ok k s1 Hok1 (Hs1 & Ho1 & Hl1) Hk Hk17. simpl in Hs1, Ho1, Hl1. destruct Hok1. unfold LINK_MTU in *.
    apply rwp_bind. destruct ok.
    + rewrite uN_small by lia. apply shuffle_safe; unfold LINK_MTU; try lia. intros l Hl.
      apply rwp_modify. rstep. split; [split; [|by left]; split; simpl; unfold LINK_MTU; lia|]. simpl. lia.
    + rewrite !uN_small by lia. apply rwp_modify. rstep.
      split; [split; [|by left]; split; simpl; unfold LINK_MTU; lia|]. simpl. lia.
  - intros a b s1 Hs1 Hd1. rewrite (uN_small 32 (payload_offset r - payload_length r)) by lia.
    assert (rl_rx s1 = rx_set_rssi a b r) as E1 by done. clear Hs1.
    apply shuffle_safe; rewrite ?E1; unfold LINK_MTU; simpl; try lia. intros l Hl. rstep. rewrite uN_small by lia.
    split; [split; [|by left]|].
    + split; simpl; unfold LINK_MTU; lia.
    + simpl. lia.
Qed.

(** The rounds of one call. *)
Definition goes_on (s s' : radio_link_state) : Prop := decode_round clock s = Ret (true, s').

Lemma decode_loop_safe U fuel (Q : unit -> radio_link_state -> Prop) s :
  between s -> decode_measure (rl_rx s) < Z.of_nat fuel ->
  (forall s1, rtc goes_on s s1 -> meets_overrun s1 -> U) ->
  (forall s', rx_ok (rl_rx s') -> waiting (rl_rx s') -> Q tt s') ->
  rwp U (decode_loop clock fuel) Q s.
Proof.
  revert s. induction fuel as [|fuel IH]; intros s Hb Hf HU HQ.
  { destruct Hb as [[] _]. unfold decode_measure in Hf. lia. }
  cbn [decode_loop]. apply rwp_bind. eapply rwp_run.
  { apply decode_round_safe; [done|]. apply HU. constructor. }
  intros [] s' Hrun [Hb' Hm]; [|by apply HQ; [destruct Hb'|]].
  apply IH; [done|lia| |done]. intros s1 Hr. apply HU. by eapply rtc_l.
Qed.

Lemma store_byte_safe U c s :
  rx_ok (rl_rx s) -> waiting (rl_rx s) ->
  rwp U (store_byte c) (fun _ s' => between s' /\ decode_measure (rl_rx s') < Z.of_nat (decode_fuel (rl_rx s'))) s.
Proof.
  intros Hok Hwait. pose proof Hok as [Hlp Hld Hpl Hst Hof Hwin]. unfold store_byte. do 3 rstep.
  assert (payload_offset (rl_rx s) < 255) as Ho by (destruct Hwait; unfold link_size, LINK_MTU in *; lia).
  assert (payload_length (rl_rx s) = 0 \/ link_size (payload_length (rl_rx s))) as Hn
    by (destruct Hwait as [[? _]|[? _]]; auto).
  rewrite Hlp. unfold LINK_MTU in *.
  rewrite (uN_small 32 (payload_start (rl_rx s) + payload_offset (rl_rx s))) by lia. apply rwp_bind.
  apply (rwp_mono _ _ (fun _ s1 => rx_ok (rl_rx s1) /\ payload_offset (rl_rx s1) = payload_offset (rl_rx s) /\
    payload_length (rl_rx s1) = payload_length (rl_rx s) /\ payload_start (rl_rx s1) + payload_offset (rl_rx s1) < 765)).
  { destruct (Z.leb_spec (255 * 3) (payload_start (rl_rx s) + payload_offset (rl_rx s))).
    - apply rwp_bind. unfold rwp at 1, rlift. rewrite bcopy_run by lia. simpl. rstep. apply rwp_modify.
      rewrite uN_small by lia. simpl. split_and!; try done; [|lia].
      split; simpl; unfold LINK_MTU; try lia. rewrite zlen_splice; [done|lia|]. rewrite zlen_slice by lia. lia.
    - unfold rwp. simpl. by split_and!. }
  intros [] s1 (Hok1 & Ho1 & Hl1 & Ht1). pose proof Hok1 as [Hlp1 Hld1 Hpl1 Hst1 Hof1 Hwin1]. unfold LINK_MTU in *.
  do 2 rstep. apply rwp_bind.
  destruct (payload_in _ (payload_start (rl_rx s1) + payload_offset (rl_rx s)) Hok1) as (x & Hx); [unfold LINK_MTU; lia|].
  unfold rwp at 1, rlift. rewrite Hx. simpl. rstep. apply rwp_modify. rewrite uN_small by lia. split; [split|].
  - split; simpl; unfold LINK_MTU; try lia. rewrite zlen_splice; [done|lia|]. rewrite zlen_cons. change (zlen []) with 0. lia.
  - simpl. by rewrite Hl1.
  - unfold decode_measure, decode_fuel. simpl. lia.
Qed.

(** Where a byte [c] that arrives in [s] runs into the overrun. *)
Definition runs_over (c : Z) (s s2 : radio_link_state) : Prop :=
  exists s0 s1, store_byte c s = Ret (tt, s0) /\ rtc goes_on s0 s1 /\
    find_header (S (Z.to_nat (payload_offset (rl_rx s1)))) s1 = Ret (tt, s2) /\ overruns s2.

Lemma radio_link_decode_safe c s :
  rx_ok (rl_rx s) -> waiting (rl_rx s) ->
  rwp (exists s2, runs_over c s s2) (radio_link_decode clock c) (fun _ s' => rx_ok (rl_rx s') /\ waiting (rl_rx s')) s.
Proof.
  intros Hok Hwait. unfold radio_link_decode. apply rwp_bind. eapply rwp_run; [by apply store_byte_safe|].
  intros [] s0 Hst [Hb Hf]. rstep. apply decode_loop_safe; [done|done| |done].
  intros s1 Hr (s2 & Hfind & Ho). by exists s2, s0, s1.
Qed.
End safety.
End radio.

(** ** A receiver that has nothing in its buffer is given a whole link packet,
    byte by byte. *)

Implicit Types (f : list Z).

(** Nothing is buffered. *)
Definition synced r : Prop := rx_ok r /\ payload_start r = 0 /\ payload_offset r = 0 /\ payload_length r = 0.

Section frames.
Context {AR : Arch} (clock : nat -> Z).

(** overlay_interface.c, [interface_read_stream]: the bytes read from the
    device, one after the other. *)
Fixpoint radio_receive (l : list Z) : RM unit :=
  match l with
  | [] => mret tt
  | c :: l => radio_link_decode clock c;; radio_receive l
  end.

(** ** While a link packet arrives *)

(** A link packet whose header announces its length, and that does not look
    like a status report of the radio. *)
Record framed f : Prop := {
  fr_size : 32 < zlen f <= LINK_MTU;
  fr_header : exists b0 g0 g1 g2 b4 b5 rest, f = b0 :: g0 :: g1 :: g2 :: b4 :: b5 :: rest /\
    b5 <> MAVLINK_MSG_ID_RADIO /\
    let gd := fst (golay_decode g0 g1 g2) in
    0 <= gd /\ Z.land (Z.shiftr gd 8) 0xF = Z.land gd 0xF /\ Z.land gd 0xFF + 8 = zlen f
}.

(** After [i] bytes of [f]. *)
Definition got f (i : nat) r : radio_rx :=
  RX (take i f ++ drop i (rx_payload r)) (if (i <? 6)%nat then 0 else zlen f) (rx_seq r) 0 (Z.of_nat i)
     (rx_dst r) (packet_length r) (radio_rssi r) (remote_rssi r).

Lemma got_ok f i r : synced r -> framed f -> (i <= length f)%nat -> rx_ok (got f i r).
Proof.
  intros ([Hlp Hld Hpl Hst Hof Hwin] & _) [Hs _] Hi. unfold LINK_MTU, zlen in *.
  split; simpl; unfold LINK_MTU, zlen; try lia. rewrite length_app, length_take, length_drop. lia.
Qed.

Lemma got_lookup f i r j : (i <= length f)%nat -> 0 <= j < Z.of_nat i -> rx_payload (got f i r) @@ j = f @@ j.
Proof.
  intros Hi Hj. unfold zlookup. simpl. destruct (Z.ltb_spec j 0); [lia|].
  rewrite lookup_app_l by (rewrite length_take; lia). apply lookup_take_lt. lia.
Qed.

(** The byte that tells the radio's own reports apart. *)
Lemma is_heartbeat_no s p b5 :
  rx_ok (rl_rx s) -> 0 <= p -> p + 6 <= LINK_MTU * 3 -> rx_payload (rl_rx s) @@ (p + 5) = Some b5 ->
  b5 <> MAVLINK_MSG_ID_RADIO -> is_heartbeat p s = Ret (false, s).
Proof.
  intros Hok Hp Hl Hb Hne. unfold is_heartbeat. unfold LINK_MTU in *.
  destruct (payload_in _ p Hok) as (p0 & H0); [unfold LINK_MTU; lia|].
  destruct (payload_in _ (p + 1) Hok) as (p1 & H1); [unfold LINK_MTU; lia|].
  destruct (payload_in _ (p + 3) Hok) as (p3 & H3); [unfold LINK_MTU; lia|].
  destruct (payload_in _ (p + 4) Hok) as (p4 & H4); [unfold LINK_MTU; lia|].
  erewrite RM_bind_Ret by (by apply payload_at_run). destruct (negb (p0 =? _)); [done|].
  erewrite RM_bind_Ret by (by apply payload_at_run). destruct (negb (p1 =? _)); [done|].
  erewrite RM_bind_Ret by (by apply payload_at_run). destruct (negb (p3 =? _)); [done|].
  erewrite RM_bind_Ret by (by apply payload_at_run). destruct (negb (p4 =? _)); [done|].
  erewrite RM_bind_Ret by (by apply payload_at_run). by rewrite (proj2 (Z.eqb_neq _ _)).
Qed.

Lemma got_not_heartbeat f i n s :
  synced (rl_rx s) -> framed f -> (6 <= i <= length f)%nat ->
  let s' := with_rx (rx_set_length n (got f i (rl_rx s))) s in is_heartbeat 0 s' = Ret (false, s').
Proof.
  intros Hs Hf Hi s'. pose proof Hf as [_ (b0 & g0 & g1 & g2 & b4 & b5 & rest & Ef & Hne & _)].
  apply is_heartbeat_no with b5; [|done|by unfold LINK_MTU| |done].
  - destruct (got_ok f i _ Hs Hf); [lia|]. by split.
  - change (rx_payload (rl_rx s')) with (rx_payload (got f i (rl_rx s))). rewrite got_lookup by lia. by rewrite Ef.
Qed.

(** With six bytes the length is known. *)
Lemma got_length f s :
  synced (rl_rx s) -> framed f ->
  let r := got f 6 (rl_rx s) in
  decode_length 1 (with_rx (rx_set_length 0 r) s) = Ret (0, with_rx r s).
Proof.
  intros Hs Hf. pose proof Hf as [Hsz (b0 & g0 & g1 & g2 & b4 & b5 & rest & Ef & _ & Hgd0 & Hnib & Hlen)].
  cbv zeta. unfold decode_length, LINK_MTU, zlen in *.
  assert (forall j x, 1 <= j < 6 -> f @@ j = Some x ->
    rx_payload (rl_rx (with_rx (rx_set_length 0 (got f 6 (rl_rx s))) s)) @@ j = Some x) as Hat.
  { intros j x Hj <-. apply (got_lookup f 6 (rl_rx s) j); lia. }
  erewrite RM_bind_Ret by (apply payload_at_run, Hat; [lia|by rewrite Ef]).
  erewrite RM_bind_Ret by (apply payload_at_run, Hat; [lia|by rewrite Ef]).
  erewrite RM_bind_Ret by (apply payload_at_run, Hat; [lia|by rewrite Ef]). cbv zeta.
  rewrite (proj2 (Z.ltb_ge _ _)), Hnib, Z.eqb_refl by done. simpl orb. cbv iota.
  unfold RADIO_HEADER_LENGTH, RADIO_CRC_LENGTH. change (6 + 2) with 8. rewrite Hlen.
  rewrite (proj2 (Z.eqb_neq _ 17)), (proj2 (Z.leb_gt _ FEC_LENGTH)), (proj2 (Z.ltb_ge LINK_MTU _))
    by (unfold FEC_LENGTH, LINK_MTU; lia). done.
Qed.

(** Looking for the header after the [i]th byte. *)
Lemma got_find f i s fuel :
  synced (rl_rx s) -> framed f -> (i <= length f)%nat ->
  find_header (S fuel) (with_rx (rx_set_length (if (i <? 7)%nat then 0 else zlen f) (got f i (rl_rx s))) s) =
  Ret (tt, with_rx (got f i (rl_rx s)) s).
Proof.
  intros Hs Hf Hi. pose proof Hf as [Hsz _]. unfold LINK_MTU, zlen in Hsz.
  cbn [find_header]. do 3 (erewrite RM_bind_Ret by done). simpl.
  destruct (Nat.ltb_spec i 7) as [H7|H7]; [destruct (Nat.ltb_spec i 6) as [H6|H6]|].
  - rewrite (proj2 (Z.leb_gt _ _)) by lia. simpl. unfold got, with_rx. by rewrite (proj2 (Nat.ltb_lt i 6)).
  - assert (i = 6%nat) as -> by lia. rewrite (proj2 (Z.leb_le _ _)) by lia. simpl.
    erewrite RM_bind_Ret by (apply (got_not_heartbeat f 6 0 s); [done|done|lia]). cbv iota.
    by erewrite RM_bind_Ret by (by apply (got_length f s)).
  - rewrite (proj2 (Z.eqb_neq _ _)) by (unfold zlen; lia). simpl. unfold got, with_rx. by rewrite (proj2 (Nat.ltb_ge i 6)) by lia.
Qed.

(** Storing the next byte. *)
Lemma got_store_byte f i c s :
  synced (rl_rx s) -> framed f -> f !! i = Some c ->
  store_byte c (with_rx (got f i (rl_rx s)) s) =
  Ret (tt, with_rx (rx_set_length (if (i <? 6)%nat then 0 else zlen f) (got f (S i) (rl_rx s))) s).
Proof.
  intros Hs Hf Hc. pose proof (lookup_lt_Some _ _ _ Hc) as Hi. pose proof Hf as [Hsz _]. unfold LINK_MTU, zlen in Hsz.
  pose proof (got_ok f i _ Hs Hf ltac:(lia)) as Hok. pose proof Hok as [Hlp _ _ _ _ _].
  unfold store_byte. do 3 (erewrite RM_bind_Ret by done).
  change (rl_rx (with_rx (got f i (rl_rx s)) s)) with (got f i (rl_rx s)). rewrite Hlp.
  change (payload_start (got f i (rl_rx s))) with 0. change (payload_offset (got f i (rl_rx s))) with (Z.of_nat i).
  unfold LINK_MTU in *. rewrite (uN_small 32 (0 + _)) by lia. rewrite (proj2 (Z.leb_gt _ _)) by lia.
  do 3 (erewrite RM_bind_Ret by done). change (rl_rx (with_rx (got f i (rl_rx s)) s)) with (got f i (rl_rx s)).
  change (payload_start (got f i (rl_rx s))) with 0.
  destruct (payload_in _ (0 + Z.of_nat i) Hok) as (x & Hx); [unfold LINK_MTU; lia|].
  erewrite RM_bind_Ret by (unfold rlift; by rewrite Hx). erewrite RM_bind_Ret by done.
  rewrite (uN_small 32 (_ + 1)) by lia. unfold rmodify. do 2 f_equal.
  unfold with_rx, got, rx_set_length, rx_set_window, rx_set_payload. simpl. f_equal.
  replace (Z.of_nat i + 1) with (Z.of_nat (S i)) by lia. f_equal.
  unfold splice. change (length [c]) with 1%nat. rewrite Z.add_0_l, Nat2Z.id.
  rewrite take_app_length' by (rewrite length_take; lia).
  rewrite (take_S_r f i c Hc), <- app_assoc. do 2 f_equal.
  rewrite drop_app_ge by (rewrite length_take; lia). rewrite drop_drop, length_take. f_equal. lia.
Qed.

Lemma got_store f i c s :
  synced (rl_rx s) -> framed f -> f !! i = Some c ->
  exists fuel, radio_link_decode clock c (with_rx (got f i (rl_rx s)) s) =
    decode_loop clock (S (S fuel))
      (with_rx (rx_set_length (if (S i <? 7)%nat then 0 else zlen f) (got f (S i) (rl_rx s))) s).
Proof.
  intros Hs Hf Hc. unfold radio_link_decode. erewrite RM_bind_Ret by (by apply got_store_byte).
  erewrite RM_bind_Ret by done. change (S i <? 7)%nat with (i <? 6)%nat.
  exists (Z.to_nat (46 * (Z.of_nat i + 1)) - 1)%nat.
  match goal with |- decode_loop _ ?a ?b = decode_loop _ ?a' ?b => replace a with a'; [done|] end.
  unfold decode_fuel. simpl. lia.
Qed.

Lemma got_next f i c s :
  synced (rl_rx s) -> framed f -> f !! i = Some c -> (S i < length f)%nat ->
  radio_link_decode clock c (with_rx (got f i (rl_rx s)) s) = Ret (tt, with_rx (got f (S i) (rl_rx s)) s).
Proof.
  intros Hs Hf Hc Hi. destruct (got_store f i c s Hs Hf Hc) as (fuel & ->). cbn [decode_loop].
  rewrite (RM_bind_Ret _ _ _ false (with_rx (got f (S i) (rl_rx s)) s)); [done|]. unfold decode_round.
  erewrite RM_bind_Ret by done. erewrite RM_bind_Ret by (apply got_find; [done|done|lia]).
  do 3 (erewrite RM_bind_Ret by done). change (rl_rx (with_rx (got f (S i) (rl_rx s)) s)) with (got f (S i) (rl_rx s)).
  unfold got. cbn [payload_length payload_start payload_offset]. destruct (S i <? 6)%nat; [done|].
  rewrite (proj2 (Z.ltb_lt _ _)) by (unfold zlen; lia). by rewrite orb_true_r.
Qed.

(** With nothing buffered and no header, there is nothing to do. *)
Lemma decode_loop_idle fuel s :
  payload_offset (rl_rx s) = 0 -> payload_length (rl_rx s) = 0 -> decode_loop clock (S fuel) s = Ret (tt, s).
Proof.
  intros Ho Hl. cbn [decode_loop]. rewrite (RM_bind_Ret _ _ s false s); [done|]. unfold decode_round.
  erewrite RM_bind_Ret by done. cbn [find_header].
  rewrite (RM_bind_Ret _ _ s tt s); [do 3 (erewrite RM_bind_Ret by done); by rewrite Hl|].
  do 3 (erewrite RM_bind_Ret by done). by rewrite Hl, Ho.
Qed.

(** The last byte: the packet is decoded, and when that worked without a
    correction, nothing is left in the buffer. *)
Lemma got_round f s :
  synced (rl_rx s) -> framed f ->
  exists K : bool * Z -> RM bool,
    decode_round clock
      (with_rx (rx_set_length (if (length f <? 7)%nat then 0 else zlen f) (got f (length f) (rl_rx s))) s) =
      (radio_link_parse (zlen f) 0 ≫= K) (with_rx (got f (length f) (rl_rx s)) s) /\
    forall s1, same_window (got f (length f) (rl_rx s)) (rl_rx s1) ->
      K (true, 0) s1 = Ret (true, with_rx (rx_set_length 0 (rx_set_window 0 0 (rl_rx s1))) s1).
Proof.
  intros Hs Hf. pose proof Hf as [Hsz _]. unfold LINK_MTU, zlen in Hsz. unfold decode_round.
  erewrite RM_bind_Ret by done. erewrite RM_bind_Ret by (apply got_find; [done|done|lia]).
  do 3 (erewrite RM_bind_Ret by done).
  set (s2 := with_rx (got f (length f) (rl_rx s)) s). change (rl_rx s2) with (got f (length f) (rl_rx s)).
  assert (payload_length (got f (length f) (rl_rx s)) = zlen f) as Hl
    by (simpl; by rewrite (proj2 (Nat.ltb_ge _ 6)) by lia).
  rewrite Hl. change (payload_start (got f (length f) (rl_rx s))) with 0.
  change (payload_offset (got f (length f) (rl_rx s))) with (zlen f).
  rewrite (proj2 (Z.eqb_neq _ _)), (proj2 (Z.ltb_ge _ _)) by (unfold zlen; lia). cbn [orb].
  rewrite (RM_bind_Ret _ _ s2 false s2).
  2: { unfold parse_heartbeat. rewrite (RM_bind_Ret _ _ s2 false s2); [done|].
       pose proof (got_not_heartbeat f (length f) (zlen f) s Hs Hf ltac:(lia)) as Hb. cbv zeta in Hb.
       assert (rx_set_length (zlen f) (got f (length f) (rl_rx s)) = got f (length f) (rl_rx s)) as Hid
         by (unfold rx_set_length; by rewrite <- Hl).
       by rewrite Hid in Hb. }
  eexists. split; [reflexivity|]. intros s1 (Hs1 & Ho1 & Hl1). cbv iota beta zeta.
  replace (zlen f - (zlen f - 0)) with 0 by lia. change (u32 0) with 0. change (negb (0 =? 0)) with false. cbv iota.
  rewrite (RM_bind_Ret _ _ s1 tt (with_rx (rx_set_window 0 0 (rl_rx s1)) s1)).
  - by erewrite RM_bind_Ret by done.
  - do 3 (erewrite RM_bind_Ret by done). by destruct s1 as [[] tx de ti].
Qed.

Lemma got_last f i c s :
  synced (rl_rx s) -> framed f -> f !! i = Some c -> S i = length f ->
  exists K : bool * Z -> RM unit,
    radio_link_decode clock c (with_rx (got f i (rl_rx s)) s) =
      (radio_link_parse (zlen f) 0 ≫= K) (with_rx (got f (length f) (rl_rx s)) s) /\
    forall s1, same_window (got f (length f) (rl_rx s)) (rl_rx s1) ->
      K (true, 0) s1 = Ret (tt, with_rx (rx_set_length 0 (rx_set_window 0 0 (rl_rx s1))) s1).
Proof.
  intros Hs Hf Hc Hi. destruct (got_store f i c s Hs Hf Hc) as (fuel & ->). rewrite Hi.
  destruct (got_round f s Hs Hf) as (K & HK & Hend). remember (S fuel) as k eqn:Ek. cbn [decode_loop].
  exists (fun a => K a ≫= fun again : bool => if again then decode_loop clock k else mret tt). split.
  - rewrite RM_bind_run, HK, !RM_bind_run. destruct (radio_link_parse _ _ _) as [[a s1]| |]; [|done..].
    by rewrite RM_bind_run.
  - intros s1 Hw. erewrite RM_bind_Ret by (by apply Hend). by rewrite Ek, decode_loop_idle.
Qed.

(** All bytes but the last. *)
Lemma radio_receive_app l1 l2 s : radio_receive (l1 ++ l2) s = (radio_receive l1;; radio_receive l2) s.
Proof.
  revert s. induction l1 as [|c l1 IH]; intros s; [done|]. cbn [app radio_receive]. rewrite !RM_bind_run.
  destruct (radio_link_decode _ c s) as [[[] s1]| |]; [|done..]. by rewrite IH, RM_bind_run.
Qed.

Lemma got_0 f s : synced (rl_rx s) -> with_rx (got f 0 (rl_rx s)) s = s.
Proof.
  intros (_ & Hst & Ho & Hl). destruct s as [[] tx de ti]. simpl in *. unfold got, with_rx. simpl. by subst.
Qed.

Lemma receive_prefix f i s :
  synced (rl_rx s) -> framed f -> (i < length f)%nat ->
  radio_receive (take i f) s = Ret (tt, with_rx (got f i (rl_rx s)) s).
Proof.
  intros Hs Hf. induction i as [|i IH]; intros Hi; [by rewrite got_0|].
  destruct (lookup_lt_is_Some_2 f i) as (c & Hc); [lia|]. rewrite (take_S_r f i c Hc), radio_receive_app.
  erewrite RM_bind_Ret by (apply IH; lia). cbn [radio_receive].
  by erewrite RM_bind_Ret by (apply got_next; [done|done|done|lia]).
Qed.

(** Receiving a link packet is decoding it. *)
Lemma receive_frame f s :
  synced (rl_rx s) -> framed f ->
  match radio_link_parse (zlen f) 0 (with_rx (got f (length f) (rl_rx s)) s) with
  | Ret ((true, 0), s1) => same_window (got f (length f) (rl_rx s)) (rl_rx s1) ->
      radio_receive f s = Ret (tt, with_rx (rx_set_length 0 (rx_set_window 0 0 (rl_rx s1))) s1)
  | Undef => radio_receive f s = Undef
  | _ => True
  end.
Proof.
  intros Hs Hf. pose proof Hf as [Hsz _]. unfold LINK_MTU, zlen in Hsz.
  destruct (lookup_lt_is_Some_2 f (length f - 1)) as (c & Hc); [lia|].
  assert (f = take (length f - 1) f ++ [c]) as Ef.
  { rewrite <- (take_S_r f _ c Hc). replace (S (length f - 1)) with (length f) by lia. by rewrite firstn_all. }
  destruct (got_last f (length f - 1) c s Hs Hf Hc) as (K & Hr & HK); [lia|].
  assert (radio_receive f s = (radio_link_parse (zlen f) 0 ≫= K;; mret tt) (with_rx (got f (length f) (rl_rx s)) s)) as ->.
  { rewrite Ef at 1. rewrite radio_receive_app. erewrite RM_bind_Ret by (apply receive_prefix; [done|done|lia]).
    cbn [radio_receive]. rewrite RM_bind_run, Hr. by rewrite (RM_bind_run (_ ≫= K)). }
  rewrite !RM_bind_run.
  destruct (radio_link_parse _ _ _) as [[[[] [|k|k]] s1]| |]; try done. intros Hw. by rewrite HK.
Qed.

(** ** Decoding a link packet *)

Lemma slice_app_l (l1 l2 : list Z) i n : 0 <= i -> 0 <= n -> i + n <= zlen l1 -> slice i n (l1 ++ l2) = slice i n l1.
Proof.
  unfold slice, zlen. intros. rewrite drop_app_le by lia. rewrite take_app_le; [done|]. rewrite length_drop. lia.
Qed.

Lemma slice_to_end (l : list Z) i n : 0 <= i -> n = zlen l - i -> slice i n l = drop (Z.to_nat i) l.
Proof. unfold slice, zlen. intros Hi ->. apply take_ge. rewrite length_drop. lia. Qed.

Lemma splice_slice_id (l : list Z) i n : 0 <= i -> 0 <= n -> i + n <= zlen l -> splice i (slice i n l) l = l.
Proof.
  unfold splice, slice, zlen. intros Hi Hn Hl. rewrite length_take, length_drop.
  replace (Z.to_nat i + _)%nat with (Z.to_nat n + Z.to_nat i)%nat by lia.
  rewrite <- (take_drop (Z.to_nat i) l) at 4. f_equal. rewrite <- (take_drop (Z.to_nat n) (drop (Z.to_nat i) l)) at 2.
  f_equal. rewrite drop_drop. f_equal. lia.
Qed.

(** When the decoder returns [errors] and corrects nothing, the fragment is
    taken as it is. *)
Lemma parse_clean f s errors :
  synced (rl_rx s) -> framed f ->
  let s2 := with_rx (got f (length f) (rl_rx s)) s in
  decode_rs_8 (259 - zlen f) (drop 4 f) = (errors, drop 4 f) -> errors <> -1 ->
  radio_link_parse (zlen f) 0 s2 = (take_fragment 0 (sz (zlen f - 38));; mret (true, errors)) s2.
Proof.
  intros Hs Hf s2 Hd He. pose proof (fr_size f Hf) as Hsz. pose proof (got_ok f (length f) _ Hs Hf ltac:(lia)) as Hok.
  pose proof Hok as [Hlp _ _ _ _ _]. unfold radio_link_parse. unfold LINK_MTU in *.
  rewrite (proj2 (Z.eqb_neq _ 17)) by lia. destruct (link_pad (zlen f)) as [-> ->]; [done|]. cbv zeta.
  erewrite RM_bind_Ret by done. change (rl_rx s2) with (got f (length f) (rl_rx s)). rewrite Hlp.
  rewrite (proj2 (Z.leb_le (0 + 4 + _) _)) by lia.
  erewrite RM_bind_Ret by done.
  assert (slice (0 + 4) (255 - (259 - zlen f)) (rx_payload (got f (length f) (rl_rx s))) = drop 4 f) as Hw.
  { simpl. rewrite firstn_all, slice_app_l by lia. apply slice_to_end; lia. }
  assert (rx_set_payload (splice (0 + 4) (drop 4 f) (rx_payload (got f (length f) (rl_rx s)))) (got f (length f) (rl_rx s))
          = got f (length f) (rl_rx s)) as Hid.
  { rewrite <- Hw, splice_slice_id by lia. done. }
  rewrite Hw, Hd. rewrite (RM_bind_Ret _ _ s2 tt s2).
  - by rewrite (proj2 (Z.eqb_neq _ _)).
  - unfold rmodify. change (rl_rx s2) with (got f (length f) (rl_rx s)). by rewrite Hid.
Qed.

Lemma receive_fragment f b4 s :
  synced (rl_rx s) -> framed f -> 38 <= zlen f -> f @@ 4 = Some b4 ->
  decode_rs_8 (259 - zlen f) (drop 4 f) = (0, drop 4 f) ->
  let '(acc, out) := reassemble (rx_seq (rl_rx s)) b4 (partial (rl_rx s)) (slice 6 (zlen f - 38) f) in
  exists r', radio_receive f s = Ret (tt, RadioLink r' (rl_tx s) (delivered s ++ out) (rl_ticks s)) /\
    synced r' /\ partial r' = acc /\ rx_seq r' = Z.land b4 0x3f.
Proof.
  intros Hs Hf H38 Hb4 Hd. pose proof (fr_size f Hf) as Hsz. pose proof (got_ok f (length f) _ Hs Hf ltac:(lia)) as Hok.
  pose proof (receive_frame f s Hs Hf) as Hrec. rewrite (parse_clean f s 0 Hs Hf Hd) in Hrec by done.
  rewrite RM_bind_run, sz_id in Hrec by (unfold LINK_MTU in *; lia).
  set (s2 := with_rx (got f (length f) (rl_rx s)) s) in *.
  pose proof (take_fragment_refines s2 0 b4 (zlen f - 38) Hok) as Href. unfold LINK_MTU in *.
  specialize (Href ltac:(lia) ltac:(lia) ltac:(lia)).
  assert (rx_payload (rl_rx s2) @@ (0 + 4) = Some b4) as Hb.
  { change (rl_rx s2) with (got f (length f) (rl_rx s)). rewrite got_lookup; [done|lia|unfold zlen in *; lia]. }
  specialize (Href Hb).
  assert (slice (0 + 6) (zlen f - 38) (rx_payload (rl_rx s2)) = slice 6 (zlen f - 38) f) as Hsl.
  { simpl. rewrite firstn_all. apply slice_app_l; lia. }
  rewrite Hsl in Href. change (partial (rl_rx s2)) with (partial (rl_rx s)) in Href.
  change (rx_seq (rl_rx s2)) with (rx_seq (rl_rx s)) in Href.
  destruct (reassemble _ _ _ _) as [acc out]. destruct Href as (r' & Hr & Hok' & Hpart & Hseq & Hwin & _).
  rewrite Hr in Hrec. specialize (Hrec Hwin). simpl in Hrec.
  exists (rx_set_length 0 (rx_set_window 0 0 r')). split; [exact Hrec|].
  split; [|by destruct r']. destruct Hok'. split; [|done]. split; simpl; unfold LINK_MTU in *; try done; lia.
Qed.
End frames.
