(* ===== verification/RadioLinkSend.v ===== *)
(** * The serial radio link: sending

    The link packets a packet is cut into, that [radio_link_encode_packet] makes
    them, and that a receiver puts the packet together again from them. *)

From stdpp Require Import base tactics list fin_maps gmap.
From Stdlib Require Import ZArith Lia.
From S2P Require Import Prelude Memory Golay GolaySpec Fec OverlayBuffer OverlayBufferFacts OverlayBufferSpec.
From S2P Require Import OverlayAddress OverlayAddressSpec OverlayPacketSpec FdQueue RadioLink RadioLinkSpec.

Local Open Scope Z_scope.
Implicit Types (s : radio_link_state) (r : radio_rx) (f : list Z) (w : radio_world).
Local Opaque golay_decode golay_encode decode_rs_8 encode_rs_8.

(** ** Link packets *)

Definition control (seq : Z) (first last : bool) : Z :=
  let b4 := Z.land seq 0x3f in
  let b4 := if first then Z.lor b4 0x40 else b4 in
  if last then Z.lor b4 0x80 else b4.

(** Tested on the 64 sequence numbers. *)
Definition control_ok (first last : bool) (x : Z) : bool :=
  is_byteb (control x first last) && (Z.land (control x first last) 0x3f =? x) && Bool.eqb (Z.land (control x first last) 0x40 =? 0) (negb first) &&
  Bool.eqb (Z.land (control x first last) 0x80 =? 0) (negb last).

Lemma control_bits seq first last :
  is_byte (control seq first last) /\ Z.land (control seq first last) 0x3f = Z.land seq 0x3f /\
  (Z.land (control seq first last) 0x40 =? 0) = negb first /\ (Z.land (control seq first last) 0x80 =? 0) = negb last.
Proof.
  assert (control seq first last = control (Z.land seq 0x3f) first last) as ->
    by (unfold control; by rewrite <- Z.land_assoc).
  assert (0 <= Z.land seq 0x3f < Z.of_nat 64) as Hx.
  { change 0x3f with (Z.ones 6). rewrite Z.land_ones by lia. apply Z.mod_pos_bound. lia. }
  assert (control_ok first last (Z.land seq 0x3f) = true) as H.
  { revert Hx. generalize (Z.land seq 0x3f). apply forallb_upto. destruct first, last; vm_compute; reflexivity. }
  unfold control_ok, is_byteb in H. rewrite !andb_true_iff, !eqb_true_iff, Z.eqb_eq, Z.leb_le, Z.ltb_lt in H. unfold is_byte. tauto.
Qed.

Lemma next_seq seq : Z.land (Z.land seq 0x3f + 1) 0x3f = Z.land (seq + 1) 0x3f.
Proof. change 0x3f with (Z.ones 6). rewrite !Z.land_ones by lia. apply Zplus_mod_idemp_l. Qed.

(** The length survives the code in which the header carries it. *)
Definition length_ok (n : Z) : bool :=
  let gd := Z.land (word_of (u8 n) (Z.land n 0xF) 0) 0xfff in
  (0 <=? gd) && (Z.land (Z.shiftr gd 8) 0xF =? Z.land gd 0xF) && (Z.land gd 0xFF =? n).

Lemma length_bits n : 0 <= n < 256 ->
  let gd := Z.land (word_of (u8 n) (Z.land n 0xF) 0) 0xfff in
  0 <= gd /\ Z.land (Z.shiftr gd 8) 0xF = Z.land gd 0xF /\ Z.land gd 0xFF = n.
Proof.
  intros Hn. assert (length_ok n = true) as H.
  { revert n Hn. apply (forallb_upto 256). vm_compute. reflexivity. }
  unfold length_ok in H. cbv zeta in *. rewrite !andb_true_iff, Z.leb_le, !Z.eqb_eq in H. by destruct H as [[? ?] ?].
Qed.

Section send.
Context {AR : Arch} (clock : nat -> Z) (next_packet : nat).

(** What the header of the code words is made of, then the fragment, then the
    parity. *)
Definition link_frame (seq : Z) (first last : bool) (d : list Z) : list Z :=
  link_header (zlen d + 30) (control seq first last) MAVLINK_MSG_ID_DATASTREAM ++ d ++
  encode_rs_8 (221 - zlen d) (control seq first last :: MAVLINK_MSG_ID_DATASTREAM :: d).

(** The link packets of a packet; [n] bounds their number. *)
Fixpoint fragments (n : nat) (seq : Z) (first : bool) (data : list Z) : list (list Z) :=
  match n with
  | O => []
  | S n =>
      if LINK_PAYLOAD_MTU <? zlen data
      then link_frame seq first false (take (Z.to_nat LINK_PAYLOAD_MTU) data)
           :: fragments n (seq + 1) false (drop (Z.to_nat LINK_PAYLOAD_MTU) data)
      else [link_frame seq first true data]
  end.

(** The line: the first byte may arrive as anything, three of the 23 bits of the
    Golay word and its parity bit may be flipped. *)
Definition noisy (f f' : list Z) : Prop :=
  exists b0 g0 g1 g2 rest c l pb, f = b0 :: g0 :: g1 :: g2 :: rest /\
    (length l <= 3)%nat /\ NoDup l /\ Forall GolaySpec.position l /\
    let '(r0, r1, r2) := damage (g0, g1, g2) (with_parity (flips l) pb) in f' = c :: r0 :: r1 :: r2 :: rest.

(** ** Receiving them *)

Lemma noisy_frame seq first last d f' :
  zlen d <= LINK_PAYLOAD_MTU -> Forall is_byte d -> noisy (link_frame seq first last d) f' ->
  framed f' /\ zlen f' = zlen d + 38 /\ f' @@ 4 = Some (control seq first last) /\ slice 6 (zlen d) f' = d /\
  decode_rs_8 (259 - zlen f') (drop 4 f') = (0, drop 4 f').
Proof.
  intros Hd Hby (b0 & g0 & g1 & g2 & rest & c & l & pb & Ef & Hl & Hnd & Hpos & Hdam). change LINK_PAYLOAD_MTU with 215 in Hd.
  pose proof (golay_decode_damaged (u8 (zlen d + 30)) (Z.land (zlen d + 30) 0xF) 0 l pb Hl Hnd Hpos) as Hg.
  unfold link_frame, link_header in Ef. destruct (golay_encode _ _ _) as [[e0 e1] e2]. simpl in Ef.
  injection Ef as <- <- <- <- <-. destruct (damage _ _) as [[r0 r1] r2]. subst f'.
  set (b4 := control seq first last) in *. set (par := encode_rs_8 _ _). pose proof (zlen_nonneg d).
  assert (zlen par = 32) as Hpar by apply encode_rs_8_length.
  assert (zlen (c :: r0 :: r1 :: r2 :: b4 :: MAVLINK_MSG_ID_DATASTREAM :: d ++ par) = zlen d + 38) as Hlen
    by (rewrite !zlen_cons, zlen_app; lia).
  destruct (length_bits (zlen d + 30)) as (Hgd & Hnib & Hval); [lia|].
  rewrite Hlen. split_and!.
  - split; [unfold LINK_MTU; lia|]. exists c, r0, r1, r2, b4, MAVLINK_MSG_ID_DATASTREAM, (d ++ par).
    split; [done|]. split; [done|]. cbv zeta. rewrite Hg. cbn [fst]. rewrite Hval, Hlen. split_and!; [done|done|lia].
  - done.
  - done.
  - unfold slice, zlen. rewrite Nat2Z.id. change (take (length d) (d ++ par) = d). apply take_app_length.
  - simpl drop. replace (259 - (zlen d + 38)) with (221 - zlen d) by lia.
    change (b4 :: MAVLINK_MSG_ID_DATASTREAM :: d ++ par) with ((b4 :: MAVLINK_MSG_ID_DATASTREAM :: d) ++ par).
    apply decode_rs_8_clean; [lia| |rewrite !zlen_cons; unfold NN, NROOTS; lia].
    destruct (control_bits seq first last) as [Hc _].
    apply Forall_cons; split; [done|]. apply Forall_cons; by split.
Qed.

(** The receiver is where the sender goes on. *)
Definition expects (seq : Z) (first : bool) (acc : list Z) r : Prop :=
  if first then acc = [] else partial r = Some acc /\ Z.land (rx_seq r + 1) 0x3f = Z.land seq 0x3f.

Lemma reassemble_expected seq first last acc d r :
  expects seq first acc r -> zlen acc + zlen d <= MDP_MTU ->
  reassemble (rx_seq r) (control seq first last) (partial r) d =
  if last then (None, [acc ++ d]) else (Some (acc ++ d), []).
Proof.
  intros He Hl. unfold reassemble. destruct (control_bits seq first last) as (_ & H1 & -> & ->). rewrite H1.
  assert ((if negb (negb first) then Some [] else if Z.land seq 0x3f =? Z.land (rx_seq r + 1) 0x3f then partial r else None)
          = Some acc) as ->.
  { destruct first; simpl in *; [by subst|]. destruct He as [-> ->]. by rewrite Z.eqb_refl. }
  rewrite (proj2 (Z.ltb_ge _ _)) by lia. by destruct last.
Qed.

Lemma receive_fragments n seq first acc data fs s :
  Forall is_byte data -> (length data < n)%nat -> zlen acc + zlen data <= MDP_MTU -> synced (rl_rx s) -> expects seq first acc (rl_rx s) ->
  Forall2 noisy (fragments n seq first data) fs ->
  exists r', radio_receive clock (concat fs) s =
      Ret (tt, RadioLink r' (rl_tx s) (delivered s ++ [acc ++ data]) (rl_ticks s)) /\ synced r'.
Proof.
  revert seq first acc data fs s. induction n as [|n IH]; intros seq first acc data fs s Hby Hn Hl Hs He Hfs; [lia|].
  cbn [fragments] in Hfs. destruct (Z.ltb_spec LINK_PAYLOAD_MTU (zlen data)) as [Hbig|Hsmall].
  - inversion Hfs as [|f f' ? fs' Hf Hrest]; subst. cbn [concat].
    set (d := take (Z.to_nat LINK_PAYLOAD_MTU) data) in *. set (rest := drop (Z.to_nat LINK_PAYLOAD_MTU) data) in *.
    assert (zlen d = LINK_PAYLOAD_MTU) as Hd by (unfold d, zlen in *; rewrite length_take; change LINK_PAYLOAD_MTU with 215 in *; lia).
    assert (data = d ++ rest) as Edata by (symmetry; apply take_drop).
    assert (Forall is_byte d /\ Forall is_byte rest) as [Hbd Hbr] by (apply Forall_app; by rewrite <- Edata).
    destruct (noisy_frame seq first false d f') as (Hfr & Hlen & Hb4 & Hsl & Hrs); [lia|done|done|].
    assert (zlen data = zlen d + zlen rest) as Hz by (by rewrite Edata at 1; rewrite zlen_app). pose proof (zlen_nonneg rest).
    pose proof (receive_fragment clock f' _ s Hs Hfr ltac:(pose proof (zlen_nonneg d); lia) Hb4 Hrs) as Hrec.
    replace (zlen f' - 38) with (zlen d) in Hrec by lia. rewrite Hsl in Hrec.
    rewrite (reassemble_expected seq first false acc d) in Hrec by (done || lia).
    destruct Hrec as (r1 & Hr1 & Hs1 & Hp1 & Hq1). rewrite app_nil_r in Hr1.
    rewrite radio_receive_app. erewrite RM_bind_Ret by exact Hr1.
    destruct (IH (seq + 1) false (acc ++ d) rest fs' (RadioLink r1 (rl_tx s) (delivered s) (rl_ticks s)))
      as (r' & Hr & Hs'); try done.
    + unfold zlen in *. change LINK_PAYLOAD_MTU with 215 in *. lia.
    + rewrite zlen_app. lia.
    + simpl. split; [done|]. rewrite Hq1. destruct (control_bits seq first false) as (_ & -> & _). apply next_seq.
    + exists r'. split; [|done]. rewrite Hr. simpl. rewrite Edata. by rewrite app_assoc.
  - inversion Hfs as [|f f' ? fs' Hf Hrest]; subst. inversion Hrest; subst. cbn [concat]. rewrite app_nil_r.
    destruct (noisy_frame seq first true data f') as (Hfr & Hlen & Hb4 & Hsl & Hrs); [lia|done|done|].
    pose proof (receive_fragment clock f' _ s Hs Hfr ltac:(pose proof (zlen_nonneg data); lia) Hb4 Hrs) as Hrec.
    replace (zlen f' - 38) with (zlen data) in Hrec by lia. rewrite Hsl in Hrec.
    rewrite (reassemble_expected seq first true acc data) in Hrec by (done || lia).
    destruct Hrec as (r1 & Hr1 & Hs1 & _). by exists r1.
Qed.

(** ** Making them *)

Lemma TM_bind_run {A B} (x : TM A) (k : A -> TM B) w :
  (x ≫= k) w = match x w with Ret (a, w') => k a w' | Abort => Abort | Undef => Undef end.
Proof. unfold mbind, TM_bind, mbind, outcome_bind. by destruct (x w) as [[]| |]. Qed.
Lemma TM_bind_Ret {A B} (x : TM A) (k : A -> TM B) w a w' : x w = Ret (a, w') -> (x ≫= k) w = k a w'.
Proof. intros E. by rewrite TM_bind_run, E. Qed.

Definition w_tx w : radio_tx := rl_tx (w_link w).
Definition w_set_tx (t : radio_tx) w : radio_world :=
  World (RadioLink (rl_rx (w_link w)) t (delivered (w_link w)) (rl_ticks (w_link w))) (w_heap w) (w_loop w) (written w).

(** The unsent bytes of the packet. *)
Record sending w b (data : list Z) : Prop := {
  sd_packet : tx_packet (w_tx w) = Some b;
  sd_wf : ob_wf (w_heap w) b;
  sd_data : ob_ahead (w_heap w) b data;
  sd_limit : sizeLimit b = position b + zlen data;
  sd_some : data <> [];
  sd_buffer : zlen (txbuffer (w_tx w)) = LINK_MTU
}.

(** The sender with the next fragment [d] in its buffer. *)
Definition encoded w b (d : list Z) (buf : list Z) : radio_world :=
  let t := w_tx w in
  w_set_tx (TX (tx_seq t + 1) (next_heartbeat t) (last_packet t) (remaining_space t) (next_tx_allowed t)
              (Some (set_position (position b + zlen d) b)) buf (zlen d + 38) (tx_pos t)) w.

Lemma frame_buffer seq first last d buf :
  zlen d <= LINK_PAYLOAD_MTU -> zlen buf = LINK_MTU ->
  let h := link_header (zlen d + 30) (control seq first last) MAVLINK_MSG_ID_DATASTREAM in
  let buf1 := splice 6 d (splice 0 h buf) in
  let par := encode_rs_8 (221 - zlen d) (slice 4 (zlen d + 2) buf1) in
  zlen buf1 = LINK_MTU /\ zlen (splice (6 + zlen d) par buf1) = LINK_MTU /\
  take (Z.to_nat (zlen d + 38)) (splice (6 + zlen d) par buf1) = link_frame seq first last d.
Proof.
  intros Hd Hbuf. change LINK_PAYLOAD_MTU with 215 in Hd. unfold LINK_MTU in *. unfold link_frame, link_header.
  destruct (golay_encode _ _ _) as [[g0 g1] g2]. set (b4 := control seq first last). cbv zeta.
  set (buf0 := splice 0 _ buf). pose proof (zlen_nonneg d).
  assert (zlen buf0 = 255) as H0 by (unfold buf0; rewrite zlen_splice; [done|lia|]; rewrite !zlen_cons, Hbuf; change (zlen []) with 0; lia).
  assert (zlen (splice 6 d buf0) = 255) as H1 by (rewrite zlen_splice by lia; done).
  assert (take (Z.to_nat (6 + zlen d)) (splice 6 d buf0) = [0xfe; g0; g1; g2; b4; MAVLINK_MSG_ID_DATASTREAM] ++ d) as H2.
  { rewrite take_splice by lia. done. }
  assert (slice 4 (zlen d + 2) (splice 6 d buf0) = b4 :: MAVLINK_MSG_ID_DATASTREAM :: d) as ->.
  { unfold slice.
    replace (Z.to_nat (zlen d + 2)) with (Z.to_nat (6 + zlen d) - 4)%nat by lia.
    change (Z.to_nat 4) with 4%nat. rewrite <- skipn_firstn_comm, H2. done. }
  set (par := encode_rs_8 _ _). assert (zlen par = 32) as Hpar by apply encode_rs_8_length.
  split; [done|]. split; [rewrite zlen_splice by lia; done|].
  replace (zlen d + 38) with ((6 + zlen d) + zlen par) by lia. rewrite take_splice by lia. rewrite H2.
  by rewrite <- app_assoc.
Qed.

(** The fragment that is due. *)
Definition due (data : list Z) : list Z :=
  if LINK_PAYLOAD_MTU <? zlen data then take (Z.to_nat LINK_PAYLOAD_MTU) data else data.

Lemma due_length data : zlen (due data) = if LINK_PAYLOAD_MTU <? zlen data then LINK_PAYLOAD_MTU else zlen data.
Proof.
  unfold due. destruct (Z.ltb_spec LINK_PAYLOAD_MTU (zlen data)); [|done].
  unfold zlen in *. rewrite length_take. change LINK_PAYLOAD_MTU with 215 in *. lia.
Qed.
Lemma due_split data : exists rest, data = due data ++ rest /\
  (if LINK_PAYLOAD_MTU <? zlen data then rest = drop (Z.to_nat LINK_PAYLOAD_MTU) data else rest = []).
Proof.
  unfold due. destruct (LINK_PAYLOAD_MTU <? zlen data); [|exists []; by rewrite app_nil_r].
  exists (drop (Z.to_nat LINK_PAYLOAD_MTU) data). by rewrite take_drop.
Qed.

(** One call: the link packet is in the buffer, and after the last one the
    packet is freed and the queue told. *)
Lemma encode_step w b data :
  sending w b data ->
  let t := w_tx w in
  let last := negb (LINK_PAYLOAD_MTU <? zlen data) in
  exists buf, zlen buf = LINK_MTU /\
    take (Z.to_nat (zlen (due data) + 38)) buf = link_frame (tx_seq t) (position b =? 0) last (due data) /\
    radio_link_encode_packet clock next_packet w =
    (if last then
       t_heap (ob_free (set_position (position b + zlen (due data)) b));;
       t_modify (tx_set_packet None);;
       now ← t_link (radio_now clock);
       t_loop (overlay_queue_schedule_next next_packet now)
     else mret tt) (encoded w b (due data) buf).
Proof.
  intros [Hpk Hwf Hah Hlim Hne Hbuf]. cbv zeta. destruct (due_split data) as (rest & Edata & _).
  pose proof (due_length data) as Hdue. pose proof (zlen_nonneg data).
  assert (zlen (due data) <= LINK_PAYLOAD_MTU) as Hmax.
  { rewrite Hdue. destruct (Z.ltb_spec LINK_PAYLOAD_MTU (zlen data)); lia. }
  assert (due data <> []) as Hdn.
  { intros E. rewrite E in Hdue. change (zlen []) with 0 in Hdue. destruct data; [done|].
    rewrite zlen_cons in *. pose proof (zlen_nonneg data). destruct (_ <? _); [by compute in Hdue|lia]. }
  set (first := position b =? 0). set (last := negb (LINK_PAYLOAD_MTU <? zlen data)).
  destruct (frame_buffer (tx_seq (w_tx w)) first last (due data) (txbuffer (w_tx w)) Hmax Hbuf) as (Hl1 & Hl2 & Hfr).
  cbv zeta in Hl1, Hl2, Hfr. set (buf1 := splice 6 _ _) in *. set (par := encode_rs_8 _ _) in *.
  exists (splice (6 + zlen (due data)) par buf1). split; [done|]. split; [done|].
  unfold radio_link_encode_packet. erewrite TM_bind_Ret by done. change (rl_tx (w_link w)) with (w_tx w). rewrite Hpk.
  assert (ob_remaining b = Ret (zlen data)) as Hrem.
  { pose proof Hah as (p & blk & _ & _ & _ & ? & ? & ? & _ & ? & _). pose proof SSIZE_SIZE. unfold ob_remaining.
    rewrite (proj2 (Z.eqb_neq _ _)), (proj2 (Z.leb_le _ _)) by lia. cbn. f_equal. lia. }
  erewrite TM_bind_Ret by (unfold t_out; by rewrite Hrem). cbv zeta. fold last.
  assert ((if last then zlen data else LINK_PAYLOAD_MTU) = zlen (due data)) as ->
    by (rewrite Hdue; unfold last; by destruct (LINK_PAYLOAD_MTU <? zlen data)).
  do 3 (erewrite TM_bind_Ret by done). fold first.
  rewrite Edata in Hah.
  erewrite TM_bind_Ret by (unfold t_heap; simpl w_heap; rewrite (ob_get_bytes_ahead _ b (due data) rest Hdn Hah); reflexivity).
  cbv beta iota zeta.
  replace (zlen (due data) + FEC_LENGTH - RADIO_CRC_LENGTH) with (zlen (due data) + 30)
    by (unfold FEC_LENGTH, RADIO_CRC_LENGTH; lia).
  replace (FEC_MAX_BYTES - (zlen (due data) + 2)) with (221 - zlen (due data)) by (unfold FEC_MAX_BYTES; lia).
  match goal with |- context [splice 6 (due data) ?x] => change (splice 6 (due data) x) with buf1 end. fold par.
  rewrite Hl1, (proj2 (Z.leb_le _ _)) by (unfold FEC_LENGTH, LINK_MTU; change LINK_PAYLOAD_MTU with 215 in Hmax; lia).
  do 3 (erewrite TM_bind_Ret by done).
  replace (zlen (due data) + 30 + RADIO_CRC_LENGTH + RADIO_HEADER_LENGTH) with (zlen (due data) + 38)
    by (unfold RADIO_CRC_LENGTH, RADIO_HEADER_LENGTH; lia).
  done.
Qed.

(** Encoding until the packet is sent, at most [n] times: the link packets, as
    [radio_link_tx] gives them to the radio. *)
Fixpoint radio_send (n : nat) : TM (list (list Z)) :=
  match n with
  | O => mret []
  | S n =>
      pkt ← t_get tx_packet;
      match pkt with
      | None => mret []
      | Some _ =>
          radio_link_encode_packet clock next_packet;;
          buf ← t_get txbuffer; k ← t_get tx_bytes;
          fs ← radio_send n;
          mret (take (Z.to_nat k) buf :: fs)
      end
  end.

Lemma sending_next w b data buf :
  sending w b data -> LINK_PAYLOAD_MTU < zlen data -> zlen buf = LINK_MTU ->
  sending (encoded w b (due data) buf) (set_position (position b + LINK_PAYLOAD_MTU) b)
    (drop (Z.to_nat LINK_PAYLOAD_MTU) data).
Proof.
  intros [Hpk Hwf Hah Hlim Hne Hbuf] Hbig Hlen. pose proof (due_length data) as Hdue.
  destruct (due_split data) as (rest & Edata & Erest). rewrite (proj2 (Z.ltb_lt _ _)) in Hdue, Erest by done.
  assert (zlen data = zlen (due data) + zlen rest) as Hz by (rewrite Edata at 1; apply zlen_app).
  subst rest. set (rest := drop _ data) in *.
  split; simpl; try done.
  - by rewrite Hdue.
  - destruct Hwf as [Hpos Hchk Hl Hmem Hown]. split; simpl; try done. change LINK_PAYLOAD_MTU with 215 in *. lia.
  - rewrite Edata in Hah. apply ob_ahead_skip in Hah. by rewrite Hdue in Hah.
  - lia.
  - intros E. rewrite E in Hz. change (zlen []) with 0 in Hz. lia.
Qed.

(** The calls make the link packets of the packet. *)
Lemma send_fragments n w b data :
  sending w b data -> (length data < n)%nat ->
  (forall k, exists q, overlay_queue_schedule_next next_packet (clock k) (w_loop w) = Ret (tt, q)) ->
  exists w', radio_send n w = Ret (fragments n (tx_seq (w_tx w)) (position b =? 0) data, w') /\
    tx_packet (w_tx w') = None.
Proof.
  revert w b data. induction n as [|n IH]; intros w b data Hs Hn Hq; [lia|].
  pose proof Hs as [Hpk Hwf Hah Hlim Hne Hbuf].
  destruct (encode_step w b data Hs) as (buf & Hlen & Hframe & Hstep). cbv zeta in *.
  cbn [radio_send fragments]. erewrite TM_bind_Ret by done. change (rl_tx (w_link w)) with (w_tx w). rewrite Hpk.
  assert ((if LINK_PAYLOAD_MTU <? zlen data then take (Z.to_nat LINK_PAYLOAD_MTU) data else data) = due data) as Ed by done.
  destruct (Z.ltb_spec LINK_PAYLOAD_MTU (zlen data)) as [Hbig|Hsmall]; cbn [negb] in Hstep, Hframe.
  - rewrite (TM_bind_Ret _ _ w tt _ Hstep). do 2 (erewrite TM_bind_Ret by done).
    destruct (IH _ _ _ (sending_next w b data buf Hs Hbig Hlen)) as (w' & Hr & Hnone).
    { rewrite length_drop. unfold zlen in Hbig. change LINK_PAYLOAD_MTU with 215 in *. lia. }
    { done. }
    exists w'. split; [|done]. erewrite TM_bind_Ret by exact Hr.
    assert ((position (set_position (position b + LINK_PAYLOAD_MTU) b) =? 0) = false) as ->.
    { apply Z.eqb_neq. destruct Hwf. simpl. change LINK_PAYLOAD_MTU with 215. lia. }
    by rewrite Ed, <- Hframe.
  - assert (ob_wf (w_heap w) (set_position (position b + zlen (due data)) b)) as Hwf'.
    { destruct Hah as (p & blk & _ & _ & _ & ? & ? & ? & _ & ? & _). pose proof SSIZE_SIZE. rewrite <- Ed.
      destruct Hwf. split; simpl; try done. pose proof (zlen_nonneg data). lia. }
    pose proof (ob_free_run _ _ Hwf') as Hfree.
    match type of Hfree with _ = Ret (tt, ?x) => set (h' := x) in * end.
    destruct (Hq (rl_ticks (w_link w))) as (q & Hnext).
    set (w1 := encoded w b (due data) buf) in *.
    set (l1 := w_link (w_set_tx (tx_set_packet None (w_tx w1)) w1)).
    assert (radio_link_encode_packet clock next_packet w =
      Ret (tt, World (RadioLink (rl_rx l1) (rl_tx l1) (delivered l1) (S (rl_ticks l1))) h' q (written w))) as Hrun.
    { rewrite Hstep. rewrite (TM_bind_Ret _ _ w1 tt (World (w_link w1) h' (w_loop w) (written w))).
      - do 2 (erewrite TM_bind_Ret by done). unfold t_loop. simpl. by rewrite Hnext.
      - unfold t_heap. simpl w_heap. by rewrite Hfree. }
    rewrite (TM_bind_Ret _ _ w tt _ Hrun). do 2 (erewrite TM_bind_Ret by done).
    eexists. split.
    + rewrite (TM_bind_Ret _ _ _ [] (World (RadioLink (rl_rx l1) (rl_tx l1) (delivered l1) (S (rl_ticks l1))) h' q (written w))).
      * rewrite Ed, <- Hframe. done.
      * destruct n; [done|]. done.
    + done.
Qed.
End send.
