(* ===== verification/RadioLinkTheorems.v ===== *)
(** * The serial radio link: theorems *)

From stdpp Require Import base tactics list fin_maps gmap.
From Stdlib Require Import ZArith Lia.
From S2P Require Import Prelude Memory Golay GolaySpec Fec OverlayBuffer OverlayBufferFacts OverlayBufferSpec.
From S2P Require Import OverlayAddress FdQueue RadioLink RadioLinkSpec RadioLinkSend.

Local Open Scope Z_scope.
Implicit Types (s : radio_link_state) (r : radio_rx) (w : radio_world).
Local Opaque golay_decode golay_encode decode_rs_8 encode_rs_8.

Lemma init_ok : rx_ok rx_zero.
Proof. by split. Qed.

Section theorems.
Context {AR : Arch}.

(** C22: Whatever bytes arrive from the radio, each of them is dealt with in a
    bounded number of steps and all accesses are inside the buffers, with one
    exception: behaviour is undefined only at a byte [c] after which the loop of
    [radio_link_decode] comes to a link packet of 37 bytes that lies in the
    buffer, whose 33 byte code word, too short for a fragment, the Reed-Solomon
    decoder accepts, and whose fragment would not be at the start of a packet. *)
Theorem radio_receive_safe clock bytes s :
  rx_ok (rl_rx s) -> waiting (rl_rx s) ->
  (exists s', radio_receive clock bytes s = Ret (tt, s') /\ rx_ok (rl_rx s') /\ waiting (rl_rx s')) \/
  (radio_receive clock bytes s = Undef /\
   exists l1 c l2 s1 s2, bytes = l1 ++ c :: l2 /\ radio_receive clock l1 s = Ret (tt, s1) /\
     radio_link_decode clock c s1 = Undef /\ runs_over clock c s1 s2).
Proof.
  revert s. induction bytes as [|c bytes IH]; intros s Hok Hw; [left; by exists s|].
  cbn [radio_receive]. rewrite RM_bind_run.
  pose proof (radio_link_decode_safe clock c s Hok Hw) as Hs. unfold rwp in Hs.
  destruct (radio_link_decode _ c s) as [[[] s']| |] eqn:E; [|done|].
  - destruct Hs as [Hok' Hw']. destruct (IH s' Hok' Hw') as [?|(Hu & l1 & c1 & l2 & s1 & s2 & -> & Hr & Hd & Ho)]; [by left|].
    right. split; [done|]. exists (c :: l1), c1, l2, s1, s2. split; [done|]. split; [|done].
    cbn [radio_receive]. by erewrite RM_bind_Ret.
  - right. split; [done|]. destruct Hs as (s2 & Ho). by exists [], c, bytes, s, s2.
Qed.

(** A link packet of 38 bytes or more that the Reed-Solomon decoder
    accepts is added to the packet being received as the abstract reassembler
    does: a fragment that starts a packet, or carries the next sequence number,
    is appended, anything else discards what there was, the last fragment
    delivers the packet, and no packet is longer than the buffer. *)
Theorem radio_parse_refines s p n errors l b4 :
  rx_ok (rl_rx s) -> 0 <= p -> 38 <= n <= LINK_MTU -> p + n <= LINK_MTU * 3 ->
  decode_rs_8 (259 - n) (slice (p + 4) (n - 4) (rx_payload (rl_rx s))) = (errors, l) ->
  zlen l = n - 4 -> l @@ 0 = Some b4 ->
  if errors =? -1 then
    exists r', radio_link_parse n p s = Ret ((false, 0), with_rx r' s) /\
      partial r' = partial (rl_rx s) /\ rx_seq r' = rx_seq (rl_rx s)
  else
    let '(acc, out) := reassemble (rx_seq (rl_rx s)) b4 (partial (rl_rx s)) (slice 2 (n - 38) l) in
    exists r', radio_link_parse n p s =
        Ret ((true, errors), RadioLink r' (rl_tx s) (delivered s ++ out) (rl_ticks s)) /\
      partial r' = acc /\ rx_seq r' = Z.land b4 0x3f.
Proof.
  intros Hok Hp Hn Hfit Hd Hl Hb4. pose proof Hok as [Hlp Hld Hpl Hst Hof Hwin]. unfold radio_link_parse.
  unfold LINK_MTU in *. rewrite (proj2 (Z.eqb_neq n 17)) by lia.
  destruct (link_pad n) as [-> ->]; [unfold LINK_MTU; lia|]. cbv zeta. erewrite RM_bind_Ret by done. rewrite Hlp.
  rewrite (proj2 (Z.leb_le 0 _)), (proj2 (Z.leb_le (p + 4 + _) _)) by lia. erewrite RM_bind_Ret by done.
  replace (255 - (259 - n)) with (n - 4) by lia. rewrite Hd. erewrite RM_bind_Ret by done.
  set (r1 := rx_set_payload _ _). set (s1 := RadioLink r1 _ _ _).
  assert (zlen (rx_payload r1) = 765) as Hl1 by (simpl; rewrite zlen_splice; lia).
  assert (rx_ok (rl_rx s1)) as Hok1 by (split; simpl in *; unfold LINK_MTU; lia).
  destruct (errors =? -1); [by exists r1|]. rewrite sz_id by lia.
  assert (slice (p + 4) (n - 4) (rx_payload r1) = l) as Hsame.
  { unfold r1. simpl. rewrite <- Hl. apply slice_splice_same; lia. }
  assert (rx_payload (rl_rx s1) @@ (p + 4) = Some b4) as Hb.
  { change (rl_rx s1) with r1. rewrite <- Hsame, zlookup_slice in Hb4 by lia. by rewrite Z.add_0_r in Hb4. }
  assert (slice (p + 6) (n - 38) (rx_payload (rl_rx s1)) = slice 2 (n - 38) l) as Hsl.
  { change (rl_rx s1) with r1. rewrite <- Hsame. unfold slice. rewrite skipn_firstn_comm, take_take, drop_drop.
    f_equal; [lia|]. f_equal. lia. }
  pose proof (take_fragment_refines s1 p b4 (n - 38) Hok1 Hp) as Href. unfold LINK_MTU in Href.
  specialize (Href ltac:(lia) ltac:(lia) Hb). rewrite Hsl in Href.
  change (partial (rl_rx s1)) with (partial (rl_rx s)) in Href. change (rx_seq (rl_rx s1)) with (rx_seq (rl_rx s)) in Href.
  destruct (reassemble _ _ _ _) as [acc out]. destruct Href as (r' & Hr & _ & Hpart & Hseq & _).
  exists r'. split; [|done]. by erewrite RM_bind_Ret by exact Hr.
Qed.

(** C21: A packet of bytes that is sent through [radio_link_encode_packet] until
    nothing of it is left arrives complete at a receiver that has nothing
    buffered.  The line may change the first byte of each link packet, and flip
    up to three of the 23 bits of the Golay word that holds its length, and the
    parity bit next to them; the rest of the link packet, with the two bytes of
    header after the length, has to arrive as it was sent. *)
Theorem radio_packet_roundtrip clock next_packet w b data s :
  (forall k, exists q, overlay_queue_schedule_next next_packet (clock k) (w_loop w) = Ret (tt, q)) ->
  sending w b data -> position b = 0 -> zlen data <= MDP_MTU -> Forall is_byte data -> synced (rl_rx s) ->
  exists fs w', radio_send clock next_packet (S (length data)) w = Ret (fs, w') /\
    tx_packet (w_tx w') = None /\
    forall fs', Forall2 noisy fs fs' ->
      exists s', radio_receive clock (concat fs') s = Ret (tt, s') /\
        synced (rl_rx s') /\ delivered s' = delivered s ++ [data].
Proof.
  intros Hq Hs Hpos Hl Hby Hsync.
  destruct (send_fragments clock next_packet (S (length data)) w b data Hs) as (w' & Hr & Hnone);
    [lia|done|].
  eexists _, w'. split; [exact Hr|]. split; [done|]. rewrite Hpos. intros fs' Hnoise.
  destruct (receive_fragments clock (S (length data)) _ true [] data fs' s Hby ltac:(lia) ltac:(done) Hsync eq_refl Hnoise)
    as (r' & Hrec & Hs'). eexists. by split.
Qed.

(** A link packet of 37 bytes, one too few for the header that its code word
    covers: that word is all zero. *)
Definition short_frame : list Z := link_header 29 0 0 ++ replicate 31 0.

Lemma short_framed : framed short_frame.
Proof.
  split; [done|]. exists 0xfe. eexists _, _, _, 0, 0, (replicate 31 0).
  split; [vm_compute; reflexivity|]. split; [done|]. vm_compute. by split.
Qed.
Lemma short_word_accepted : decode_rs_8 222 (replicate 33 0) = (0, replicate 33 0).
Proof. vm_compute. reflexivity. Qed.

(** C34: A link packet of 37 bytes in which everything after the header's length
    is zero, which is a code word of the Reed-Solomon code, makes the receiver
    copy 2^32 - 1 or 2^64 - 1 bytes into its packet buffer, unless the link
    packet before it had the number 63 and left the packet empty; a receiver that
    was just started does that. *)
Theorem radio_short_word_overruns clock s :
  synced (rl_rx s) -> rx_seq (rl_rx s) <> 63 \/ packet_length (rl_rx s) <> 0 -> 0 <= rx_seq (rl_rx s) < 64 ->
  radio_receive clock short_frame s = Undef.
Proof.
  intros Hs Hpl Hseq. pose proof (receive_frame clock short_frame s Hs short_framed) as Hrec.
  rewrite (parse_clean short_frame s 0 Hs short_framed) in Hrec; [|exact short_word_accepted|done].
  set (s2 := with_rx _ s) in Hrec. pose proof (got_ok short_frame (length short_frame) _ Hs short_framed ltac:(lia)) as Hok.
  assert (take_fragment 0 (sz (zlen short_frame - 38)) s2 = Undef) as Hundef; [|by rewrite RM_bind_run, Hundef in Hrec].
  apply (take_fragment_overrun s2 0 0); [done|done|done|]. unfold fragment_at. simpl negb. cbv iota.
  change (rx_seq (rl_rx s2)) with (rx_seq (rl_rx s)). change (packet_length (rl_rx s2)) with (packet_length (rl_rx s)).
  destruct (Z.eqb_spec (Z.land 0 63) (Z.land (rx_seq (rl_rx s) + 1) 63)) as [E|]; [|done].
  destruct Hpl as [Hne|?]; [|done]. exfalso. apply Hne. change 63 with (Z.ones 6) in E. rewrite !Z.land_ones in E by lia.
  change (2 ^ 6) with 64 in E. change (0 mod 64) with 0 in E. symmetry in E. apply Z.mod_divide in E as [k E]; lia.
Qed.
End theorems.

(** ** Witnesses *)

(** Three bytes, then the link packet of C34: the second disjunct. *)
Lemma radio_receive_safe_witness :
  (exists s', @radio_receive LP64 (fun _ => 0) ([1; 2; 3] ++ short_frame) radio_link_init = Ret (tt, s') /\
     rx_ok (rl_rx s') /\ waiting (rl_rx s')) \/
  (@radio_receive LP64 (fun _ => 0) ([1; 2; 3] ++ short_frame) radio_link_init = Undef /\
   exists l1 c l2 s1 s2, [1; 2; 3] ++ short_frame = l1 ++ c :: l2 /\
     @radio_receive LP64 (fun _ => 0) l1 radio_link_init = Ret (tt, s1) /\
     @radio_link_decode LP64 (fun _ => 0) c s1 = Undef /\ @runs_over LP64 (fun _ => 0) c s1 s2).
Proof.
  apply (@radio_receive_safe LP64 (fun _ => 0) ([1; 2; 3] ++ short_frame) radio_link_init).
  - exact init_ok.
  - left. split; [reflexivity|]. simpl. lia.
Defined.

(** A code word with a fragment of two bytes. *)
Definition full_word : list Z := [7; 7; 7; 7] ++ encode_rs_8 219 [7; 7; 7; 7].
Definition full_payload : list Z := replicate 4 7 ++ full_word ++ replicate 725 7.
Definition full_state : radio_link_state :=
  RadioLink (RX full_payload 0 6 0 0 (replicate 1200 0) 0 0 0) tx_zero [] 0.
Lemma full_ok : rx_ok (rl_rx full_state).
Proof. split; vm_compute; split || idtac; congruence. Qed.

Lemma radio_parse_refines_witness :
  let '(acc, out) := reassemble 6 7 (partial (rl_rx full_state)) [7; 7] in
  exists r', @radio_link_parse LP64 40 0 full_state =
      Ret ((true, 0), RadioLink r' tx_zero ([] ++ out) 0) /\ partial r' = acc /\ rx_seq r' = 7.
Proof.
  apply (@radio_parse_refines LP64 full_state 0 40 0 full_word 7).
  - exact full_ok.
  - lia.
  - unfold LINK_MTU. lia.
  - unfold LINK_MTU. lia.
  - vm_compute. reflexivity.
  - reflexivity.
  - reflexivity.
Defined.

(** A sender with a packet of three bytes. *)
Definition tiny_packet : overlay_buffer := OB (Some (1%nat, 0)) 0 0 3 64 (Some (1%nat, 0)).
Definition tiny_ent : sched_ent :=
  SchedEnt None None None false true (PollFd (-1) 0 0) TIME_MS_NEVER_WILL 0 0 0 0 (-1).
Definition tiny_world : radio_world :=
  World (RadioLink rx_zero (TX 0 0 0 0 0 (Some tiny_packet) (replicate 255 0) 0 0) [] 0)
        (<[1%nat := [5; 6; 7] ++ replicate 61 0]> ∅)
        (FQState (<[0%nat := tiny_ent]> ∅) None None None [] [] 0 [] 0) [].

Lemma tiny_sending : @sending LP64 tiny_world tiny_packet [5; 6; 7].
Proof.
  split; try done.
  - split; [vm_compute; split; congruence..| |]; simpl.
    + split; [lia|]. split; [lia|]. eexists. split; [reflexivity|]. vm_compute. congruence.
    + intros a [= <-]. done.
  - eexists _, _. split; [reflexivity|]. split; [reflexivity|]. vm_compute. repeat split; congruence.
Qed.

Lemma radio_packet_roundtrip_witness :
  exists fs w', @radio_send LP64 (fun _ => 5) 0 4 tiny_world = Ret (fs, w') /\
    tx_packet (w_tx w') = None /\
    forall fs', Forall2 noisy fs fs' ->
      exists s', @radio_receive LP64 (fun _ => 5) (concat fs') radio_link_init = Ret (tt, s') /\
        synced (rl_rx s') /\ delivered s' = [] ++ [[5; 6; 7]].
Proof.
  apply (@radio_packet_roundtrip LP64 (fun _ => 5) 0 tiny_world tiny_packet [5; 6; 7]).
  - intros k. eexists. vm_compute. reflexivity.
  - exact tiny_sending.
  - reflexivity.
  - vm_compute. congruence.
  - repeat constructor; vm_compute; congruence.
  - split; [exact init_ok|]. repeat split.
Defined.

(** A receiver that was just started. *)
Lemma radio_short_word_overruns_witness :
  @radio_receive LP64 (fun _ => 0) short_frame radio_link_init = Undef.
Proof.
  apply (@radio_short_word_overruns LP64 (fun _ => 0)).
  - split; [exact init_ok|]. repeat split.
  - left. vm_compute. congruence.
  - vm_compute. split; congruence.
Defined.
