(* ===== verification/OverlayQueue.v ===== *)
(** * The transmit queues (overlay_queue.c)

    Frames wait in five queues, doubly linked lists, until they are packed into
    packets for the destinations they go to; frames that have to be acknowledged
    stay until they are.  Frames and network destinations are objects in memory,
    named by their addresses.  The destinations of a frame are the used part of
    its array.

    What link state routing has found out (the neighbours, their links and the next
    hop to each subscriber), which interfaces are up and whether their radios are
    busy do not change while the queue is at work and are parameters, as are the
    hook of a frame and the message from the wifi service.  The packets handed to
    [overlay_broadcast_ensemble] are kept in [sent_packets].  Messages to the log,
    [olsr_send] and [rhizome_saw_voice_traffic] are left out. *)

From stdpp Require Import base tactics list fin_maps gmap.
From Stdlib Require Import ZArith Lia.
From S2P Require Import Prelude Memory OverlayBuffer Limit OverlayAddress OverlayPacket FdQueue RadioLink.

Local Open Scope Z_scope.

Definition OQ_ISOCHRONOUS_VOICE : Z := 0.
Definition OQ_ISOCHRONOUS_VIDEO : Z := 2.
Definition OQ_OPPORTUNISTIC : Z := 4.
Definition OQ_MAX : Z := 5.
Definition SMALL_PACKET_SIZE : Z := 400.
Definition INTERFACE_STATE_UP : Z := 1.
Definition REACHABLE_NONE : Z := 0.
Definition REACHABLE_INDIRECT : Z := Z.shiftl 1 3.
Definition REACHABLE_DIRECT : Z := Z.lor (Z.shiftl 1 1) (Z.shiftl 1 2).
Definition REACHABLE : Z := Z.lor REACHABLE_DIRECT REACHABLE_INDIRECT.
Definition MAX_PACKET_DESTINATIONS : nat := 16.

Record packet_destination : Type := PDest {
  sent_sequence : Z;
  transmit_time : Z;
  pd_destination : option nat;
  pd_next_hop : option nat
}.
(** The fields of [struct overlay_frame] that only the queue uses, and the rest
    of it. *)
Record overlay_frame : Type := QFrame {
  prev : option nat;
  next : option nat;
  enqueued_at : Z;
  resend : Z;
  send_hook : bool;
  delay_until : Z;
  destinations : list packet_destination;
  transmit_count : Z;
  source_full : bool;
  mdp : mdp_frame
}.
Record overlay_txqueue : Type := TxQueue {
  q_first : option nat;
  q_last : option nat;
  q_length : Z;
  maxLength : Z;
  small_packet_grace_interval : Z;
  latencyTarget : Z
}.
Record network_destination : Type := NetDest {
  _ref_count : Z;
  nd_interface : option nat;
  unicast : bool;
  nd_encapsulation : Z;
  min_rtt : Z;
  max_rtt : Z;
  resend_delay : Z;
  sequence_number : Z;
  transfer_limit : limit_state
}.
(** What the queue reads of [struct overlay_interface]. *)
Record queue_interface : Type := QIface {
  qi_state : Z;
  qi_mtu : Z;
  qi_packet : packet_interface;
  qi_busy : bool;
  qi_send_broadcasts : bool
}.
(** The fields of [struct subscriber] that link state routing sets, its
    neighbours and the links to them. *)
Record route : Type := Route {
  rt_next_hop : option nat;
  rt_destination : option nat;
  rt_max_packet_version : Z
}.
Record link_out : Type := LinkOut { lo_timeout : Z; lo_destination : option nat }.
Record neighbour : Type := Neighbour { nb_subscriber : nat; out_links : list link_out }.
Record outgoing_packet : Type := Outgoing {
  op_destination : option nat;
  op_seq : Z;
  op_version : Z;
  header_length : Z;
  op_buffer : option overlay_buffer;
  op_context : decode_context
}.

Definition set_prev (p : option nat) (f : overlay_frame) : overlay_frame :=
  QFrame p (next f) (enqueued_at f) (resend f) (send_hook f) (delay_until f) (destinations f)
         (transmit_count f) (source_full f) (mdp f).
Definition set_next (p : option nat) (f : overlay_frame) : overlay_frame :=
  QFrame (prev f) p (enqueued_at f) (resend f) (send_hook f) (delay_until f) (destinations f)
         (transmit_count f) (source_full f) (mdp f).
Definition set_enqueued_at (t : Z) (f : overlay_frame) : overlay_frame :=
  QFrame (prev f) (next f) t (resend f) (send_hook f) (delay_until f) (destinations f)
         (transmit_count f) (source_full f) (mdp f).
Definition set_resend (n : Z) (f : overlay_frame) : overlay_frame :=
  QFrame (prev f) (next f) (enqueued_at f) n (send_hook f) (delay_until f) (destinations f)
         (transmit_count f) (source_full f) (mdp f).
Definition set_delay_until (t : Z) (f : overlay_frame) : overlay_frame :=
  QFrame (prev f) (next f) (enqueued_at f) (resend f) (send_hook f) t (destinations f)
         (transmit_count f) (source_full f) (mdp f).
Definition set_destinations (l : list packet_destination) (f : overlay_frame) : overlay_frame :=
  QFrame (prev f) (next f) (enqueued_at f) (resend f) (send_hook f) (delay_until f) l
         (transmit_count f) (source_full f) (mdp f).
Definition set_transmit_count (n : Z) (f : overlay_frame) : overlay_frame :=
  QFrame (prev f) (next f) (enqueued_at f) (resend f) (send_hook f) (delay_until f) (destinations f)
         n (source_full f) (mdp f).
Definition set_mdp (g : mdp_frame -> mdp_frame) (f : overlay_frame) : overlay_frame :=
  QFrame (prev f) (next f) (enqueued_at f) (resend f) (send_hook f) (delay_until f) (destinations f)
         (transmit_count f) (source_full f) (g (mdp f)).
Definition mf_set_version (v : Z) (f : mdp_frame) : mdp_frame := mf_set_end (mf_modifiers f) v f.
Definition mf_set_sequence (n : Z) (f : mdp_frame) : mdp_frame :=
  MFrame (mf_type f) (mf_modifiers f) (mf_ttl f) (mf_queue f) (mf_source f) (mf_destination f)
         (mf_broadcast_id f) (mf_packet_version f) n (mf_sender_interface f) (mf_payload f).
Definition set_sent_sequence (n : Z) (d : packet_destination) : packet_destination :=
  PDest n (transmit_time d) (pd_destination d) (pd_next_hop d).
Definition set_transmit_time (t : Z) (d : packet_destination) : packet_destination :=
  PDest (sent_sequence d) t (pd_destination d) (pd_next_hop d).

Definition q_set_ends (a b : option nat) (n : Z) (q : overlay_txqueue) : overlay_txqueue :=
  TxQueue a b n (maxLength q) (small_packet_grace_interval q) (latencyTarget q).
Definition nd_set_ref (n : Z) (d : network_destination) : network_destination :=
  NetDest n (nd_interface d) (unicast d) (nd_encapsulation d) (min_rtt d) (max_rtt d) (resend_delay d)
          (sequence_number d) (transfer_limit d).
Definition nd_set_sequence (n : Z) (d : network_destination) : network_destination :=
  NetDest (_ref_count d) (nd_interface d) (unicast d) (nd_encapsulation d) (min_rtt d) (max_rtt d) (resend_delay d)
          n (transfer_limit d).
Definition nd_set_limit (l : limit_state) (d : network_destination) : network_destination :=
  NetDest (_ref_count d) (nd_interface d) (unicast d) (nd_encapsulation d) (min_rtt d) (max_rtt d) (resend_delay d)
          (sequence_number d) l.
Definition nd_set_rtt (lo hi delay : Z) (d : network_destination) : network_destination :=
  NetDest (_ref_count d) (nd_interface d) (unicast d) (nd_encapsulation d) lo hi delay
          (sequence_number d) (transfer_limit d).

(** The variables of the file, the objects, the event loop, the subscribers, the
    memory of the buffers, what was sent, [times] and [dr] of server.c and the
    number of clock readings. *)
Record oq_state : Type := OQState {
  frames : gmap nat overlay_frame;
  overlay_tx : list overlay_txqueue;
  mdp_sequence : Z;
  net_dests : gmap nat network_destination;
  q_loop : fq_state;
  q_mesh : oa_state;
  q_heap : heap;
  sent_packets : list (nat * overlay_buffer);
  wifi_poll : Z * Z;
  q_ticks : nat
}.
Definition q_set_frames (m : gmap nat overlay_frame) (s : oq_state) : oq_state :=
  OQState m (overlay_tx s) (mdp_sequence s) (net_dests s) (q_loop s) (q_mesh s) (q_heap s) (sent_packets s)
          (wifi_poll s) (q_ticks s).
Definition q_set_tx (l : list overlay_txqueue) (s : oq_state) : oq_state :=
  OQState (frames s) l (mdp_sequence s) (net_dests s) (q_loop s) (q_mesh s) (q_heap s) (sent_packets s)
          (wifi_poll s) (q_ticks s).
Definition q_set_sequence (n : Z) (s : oq_state) : oq_state :=
  OQState (frames s) (overlay_tx s) n (net_dests s) (q_loop s) (q_mesh s) (q_heap s) (sent_packets s)
          (wifi_poll s) (q_ticks s).
Definition q_set_dests (m : gmap nat network_destination) (s : oq_state) : oq_state :=
  OQState (frames s) (overlay_tx s) (mdp_sequence s) m (q_loop s) (q_mesh s) (q_heap s) (sent_packets s)
          (wifi_poll s) (q_ticks s).
Definition q_set_loop (l : fq_state) (s : oq_state) : oq_state :=
  OQState (frames s) (overlay_tx s) (mdp_sequence s) (net_dests s) l (q_mesh s) (q_heap s) (sent_packets s)
          (wifi_poll s) (q_ticks s).
Definition q_set_mesh (o : oa_state) (h : heap) (s : oq_state) : oq_state :=
  OQState (frames s) (overlay_tx s) (mdp_sequence s) (net_dests s) (q_loop s) o h (sent_packets s)
          (wifi_poll s) (q_ticks s).
Definition q_add_sent (p : nat * overlay_buffer) (s : oq_state) : oq_state :=
  OQState (frames s) (overlay_tx s) (mdp_sequence s) (net_dests s) (q_loop s) (q_mesh s) (q_heap s)
          (sent_packets s ++ [p]) (wifi_poll s) (q_ticks s).
Definition q_tick (s : oq_state) : oq_state :=
  OQState (frames s) (overlay_tx s) (mdp_sequence s) (net_dests s) (q_loop s) (q_mesh s) (q_heap s)
          (sent_packets s) (wifi_poll s) (S (q_ticks s)).
Definition q_set_wifi (w : Z * Z) (s : oq_state) : oq_state :=
  OQState (frames s) (overlay_tx s) (mdp_sequence s) (net_dests s) (q_loop s) (q_mesh s) (q_heap s)
          (sent_packets s) w (q_ticks s).

(** ** The monad *)

Definition QM (A : Type) : Type := oq_state -> outcome (A * oq_state).
Global Instance QM_ret : MRet QM := fun A a s => Ret (a, s).
Global Instance QM_bind : MBind QM := fun A B f m s => '(a, s) ← m s; f a s.
Definition q_out {A} (m : outcome A) : QM A := fun s => a ← m; Ret (a, s).
Definition q_get {A} (f : oq_state -> A) : QM A := fun s => Ret (f s, s).
Definition q_modify (f : oq_state -> oq_state) : QM unit := fun s => Ret (tt, f s).
Definition q_fq {A} (m : FQ A) : QM A := fun s => '(a, l) ← m (q_loop s); Ret (a, q_set_loop l s).
Definition q_om {A} (m : OM A) : QM A :=
  fun s => '((a, o), h) ← m (q_mesh s) (q_heap s); Ret (a, q_set_mesh o h s).
Definition q_hm {A} (m : HM A) : QM A := q_om (olift m).

Definition frame (p : nat) : QM overlay_frame := fun s => f ← or_undef (frames s !! p); Ret (f, s).
Definition frame_set (p : nat) (g : overlay_frame -> overlay_frame) : QM unit :=
  f ← frame p; q_modify (fun s => q_set_frames (<[p := g f]> (frames s)) s).
Definition net_dest (d : nat) : QM network_destination := fun s => x ← or_undef (net_dests s !! d); Ret (x, s).
Definition net_dest_set (d : nat) (g : network_destination -> network_destination) : QM unit :=
  x ← net_dest d; q_modify (fun s => q_set_dests (<[d := g x]> (net_dests s)) s).
Definition queue_at (i : Z) : QM overlay_txqueue := l ← q_get overlay_tx; q_out (or_undef (l @@ i)).
Definition queue_set (i : Z) (g : overlay_txqueue -> overlay_txqueue) : QM unit :=
  q ← queue_at i; q_modify (fun s => q_set_tx (<[Z.to_nat i := g q]> (overlay_tx s)) s).

Definition overlay_queue_init (l : list overlay_txqueue) : list overlay_txqueue :=
  imap (fun i q =>
    TxQueue (q_first q) (q_last q) (q_length q)
            (if Z.of_nat i =? OQ_ISOCHRONOUS_VOICE then 20 else 100)
            (if Z.of_nat i =? OQ_OPPORTUNISTIC then 20 else 5)
            (if (Z.of_nat i =? OQ_ISOCHRONOUS_VOICE) || (Z.of_nat i =? OQ_ISOCHRONOUS_VIDEO) then 200 else 1000)) l.

Definition overlay_queue_remaining (l : list overlay_txqueue) (queue : Z) : Z :=
  if (queue <? 0) || (OQ_MAX <=? queue) then -1
  else match l @@ queue with Some q => maxLength q - q_length q | None => -1 end.

(** ** References to destinations (route_link.c) *)

Definition add_destination_ref (d : nat) : QM unit := net_dest_set d (fun x => nd_set_ref (_ref_count x + 1) x).
Definition release_destination_ref (d : nat) : QM unit :=
  x ← net_dest d;
  if _ref_count x <=? 1 then q_modify (fun s => q_set_dests (delete d (net_dests s)) s)
  else net_dest_set d (nd_set_ref (_ref_count x - 1)).

(** From the last one to the first. *)
Fixpoint release_all (l : list packet_destination) : QM unit :=
  match l with
  | [] => mret tt
  | d :: l => release_all l;; d ← q_out (or_undef (pd_destination d)); release_destination_ref d
  end.

(** [p->prev && p->prev->next == p], and the other way round *)
Definition still_linked (p : nat) : QM bool :=
  f ← frame p;
  a ← (match prev f with Some x => g ← frame x; mret (bool_decide (next g = Some p)) | None => mret false end);
  if a : bool then mret true
  else match next f with Some x => g ← frame x; mret (bool_decide (prev g = Some p)) | None => mret false end.

(** [op_free]; the frame itself goes with its payload. *)
Definition frame_free (p : nat) : QM Z :=
  b ← still_linked p;
  f ← frame p;
  r ← q_hm (op_free b (Some (mdp f)));
  (if b : bool then mret tt else q_modify (fun s => q_set_frames (delete p (frames s)) s));;
  mret r.

(** The neighbours of the frame and the ends of its queue. *)
Definition unlink (i : Z) (p : nat) (f : overlay_frame) : QM unit :=
  (match prev f with
   | Some x => frame_set x (set_next (next f))
   | None => q ← queue_at i;
             if bool_decide (q_first q = Some p)
             then queue_set i (fun q => q_set_ends (next f) (q_last q) (q_length q) q) else mret tt
   end);;
  (match next f with
   | Some x => frame_set x (set_prev (prev f))
   | None => q ← queue_at i;
             if bool_decide (q_last q = Some p)
             then queue_set i (fun q => q_set_ends (q_first q) (prev f) (q_length q) q) else mret tt
   end).

Definition overlay_queue_remove (i : Z) (p : nat) : QM (option nat) :=
  f ← frame p;
  unlink i p f;;
  queue_set i (fun q => q_set_ends (q_first q) (q_last q) (q_length q - 1) q);;
  g ← frame p;
  release_all (destinations g);;
  frame_set p (set_destinations []);;
  frame_free p;;
  mret (next f).

Definition remove_destination (p i : nat) : QM unit :=
  f ← frame p;
  x ← q_out (or_undef (destinations f !! i));
  d ← q_out (or_undef (pd_destination x));
  release_destination_ref d;;
  let n := (length (destinations f) - 1)%nat in
  y ← q_out (or_undef (destinations f !! n));
  frame_set p (set_destinations (take n (if (i <? n)%nat then <[i := y]> (destinations f) else destinations f))).

Section overlay_queue.
Context {AR : Arch} {AL : Allocator}.
(** [next_packet] is the alarm of the queue. *)
Context (clock : nat -> Z) (next_packet : nat) (overlay_interfaces : list queue_interface)
        (routes : gmap nat route) (neighbours : list neighbour) (directory_service : option nat)
        (hook : nat -> Z -> QM bool) (recv_remote_request : Z).

Definition q_now : QM Z := fun s => Ret (clock (q_ticks s), q_tick s).

Definition interface_of (d : network_destination) : outcome queue_interface :=
  i ← or_undef (nd_interface d); or_undef (overlay_interfaces !! i).

(** ** Where to send (route_link.c) *)

Definition reachable_of (p : nat) : QM Z := x ← q_om (sub_get p); mret (reachable x).
Definition route_of (p : nat) : QM route := q_out (or_undef (routes !! p)).

(** The next free element of the array, unless it is full. *)
Definition add_destination (p : nat) (d next_hop : option nat) : QM unit :=
  f ← frame p;
  if (length (destinations f) <? MAX_PACKET_DESTINATIONS)%nat then
    d ← q_out (or_undef d);
    add_destination_ref d;;
    frame_set p (set_destinations (destinations f ++ [PDest 0 0 (Some d) next_hop]))
  else mret tt.

Fixpoint add_links (p : nat) (now : Z) (next_hop : nat) (l : list link_out) : QM unit :=
  match l with
  | [] => mret tt
  | out :: l =>
      (if now <=? lo_timeout out then add_destination p (lo_destination out) (Some next_hop) else mret tt);;
      add_links p now next_hop l
  end.

(** [added] are the interfaces that have the frame already. *)
Fixpoint add_neighbours (p : nat) (added : list nat) (l : list neighbour) : QM unit :=
  match l with
  | [] => mret tt
  | n :: l =>
      r ← reachable_of (nb_subscriber n);
      if negb (has r REACHABLE_DIRECT) then add_neighbours p added l
      else
        rt ← route_of (nb_subscriber n);
        frame_set p (fun f => if rt_max_packet_version rt <? mf_packet_version (mdp f)
                              then set_mdp (mf_set_version (rt_max_packet_version rt)) f else f);;
        d ← q_out (or_undef (rt_destination rt));
        nd ← net_dest d;
        if unicast nd then
          add_destination p (Some d) None;;
          add_neighbours p added l
        else
          i ← q_out (or_undef (nd_interface nd));
          qi ← q_out (interface_of nd);
          if negb (qi_send_broadcasts qi) || bool_decide (i ∈ added) then add_neighbours p added l
          else
            add_destination p (Some d) None;;
            add_neighbours p (i :: added) l
  end.

Definition link_add_destinations (p : nat) : QM unit :=
  f ← frame p;
  match mf_destination (mdp f) with
  | None => add_neighbours p [] neighbours
  | Some dst =>
      r ← reachable_of dst;
      next_hop ← (match directory_service with
                  | Some ds =>
                      if (r =? REACHABLE_NONE) && negb (dst =? ds)%nat then
                        rd ← reachable_of ds;
                        mret (if has rd REACHABLE then ds else dst)
                      else mret dst
                  | None => mret dst
                  end);
      r ← reachable_of next_hop;
      (if r =? REACHABLE_NONE then
         match list_find (fun n => nb_subscriber n = dst) neighbours with
         | Some (_, n) => now ← q_now; add_links p now next_hop (out_links n)
         | None => mret tt
         end
       else mret tt);;
      next_hop ← (if Z.land r REACHABLE =? REACHABLE_INDIRECT
                  then rt ← route_of next_hop; q_out (or_undef (rt_next_hop rt)) else mret next_hop);
      r ← reachable_of next_hop;
      if has r REACHABLE_DIRECT then
        rt ← route_of next_hop;
        add_destination p (rt_destination rt) (Some next_hop)
      else mret tt
  end.

(** ** When to send *)

(** The loop over the destinations; [acc] is [next_allowed_packet], 0 for none. *)
Fixpoint next_allowed (l : list packet_destination) (acc : Z) : QM Z :=
  match l with
  | [] => mret acc
  | x :: l =>
      d ← q_out (or_undef (pd_destination x));
      nd ← net_dest d;
      iface ← q_out (interface_of nd);
      if qi_busy iface then next_allowed l acc
      else
        now ← q_now;
        let '(t, lim) := limit_next_allowed (transfer_limit nd) now in
        net_dest_set d (nd_set_limit lim);;
        let until := transmit_time x + resend_delay nd in
        let t := if negb (transmit_time x =? 0) && (t <? until) then until else t in
        next_allowed l (if (acc =? 0) || (t <? acc) then t else acc)
  end.

Definition overlay_calc_queue_time (p : nat) : QM unit :=
  f ← frame p;
  (* [None] to return *)
  t ← (if (0 <? length (destinations f))%nat then
         t ← next_allowed (destinations f) 0; mret (if t =? 0 then None else Some t)
       else mret (match mf_destination (mdp f) with None => None | Some _ => Some 0 end));
  match t with
  | None => mret tt
  | Some t =>
      let t := Z.max t (delay_until f) in
      let t := Z.max t (enqueued_at f) in
      q ← queue_at (mf_queue (mdp f));
      payload ← q_out (or_undef (mf_payload (mdp f)));
      let grace := enqueued_at f + small_packet_grace_interval q in
      let t := if (position payload <? SMALL_PACKET_SIZE) && (t <? grace) then grace else t in
      q_fq (overlay_queue_schedule_next next_packet t)
  end.

(** ** Adding a frame *)

Definition unsent (f : overlay_frame) : overlay_frame :=
  set_destinations (set_sent_sequence (-1) <$> destinations f) f.

(** Behind the last frame of its queue. *)
Definition queue_append (p : nat) : QM unit :=
  f ← frame p;
  let i := mf_queue (mdp f) in
  q ← queue_at i;
  (match q_last q with Some l => frame_set l (set_next (Some p)) | None => mret tt end);;
  frame_set p (set_prev (q_last q));;
  frame_set p (set_next None);;
  now ← q_now;
  frame_set p (set_enqueued_at now);;
  frame_set p (set_mdp (mf_set_sequence (-1)));;
  queue_set i (fun q => q_set_ends (q_first q) (Some p) (q_length q) q);;
  queue_set i (fun q => match q_first q with
                        | None => q_set_ends (Some p) (q_last q) (q_length q) q
                        | Some _ => q
                        end);;
  queue_set i (fun q => q_set_ends (q_first q) (q_last q) (q_length q + 1) q).

Definition _overlay_payload_enqueue (p : nat) : QM Z :=
  f ← frame p;
  q_out (cassert (mf_queue (mdp f) <? OQ_MAX));;
  payload ← q_out (match mf_payload (mdp f) with Some b => Ret b | None => Abort end);
  q ← queue_at (mf_queue (mdp f));
  if ob_overrun payload then mret (-1)
  else
    q_out (cassert (position payload <? MDP_MTU));;
    if maxLength q <=? q_length q then mret (-1)
    else
      (if mf_packet_version (mdp f) <=? 0 then frame_set p (set_mdp (mf_set_version 1)) else mret tt);;
      nowhere ← (if (length (destinations f) =? 0)%nat then
          none ← (match mf_destination (mdp f) with
                  | None =>
                      link_add_destinations p;;
                      g ← frame p;
                      mret (length (destinations g) =? 0)%nat
                  | Some _ => mret false
                  end);
          if none : bool then mret true
          else frame_set p (fun f => if resend f =? 0 then set_resend 1 f else f);; mret false
        else mret false);
      if nowhere : bool then frame_free p;; mret 0
      else
        frame_set p unsent;;
        queue_append p;;
        overlay_calc_queue_time p;;
        mret 0.

(** ** Packing *)

Definition set_packet_buffer (b : option overlay_buffer) (p : outgoing_packet) : outgoing_packet :=
  Outgoing (op_destination p) (op_seq p) (op_version p) (header_length p) b (op_context p).

Definition overlay_init_packet (packet : outgoing_packet) (version : Z) (d : nat) : QM (Z * outgoing_packet) :=
  nd ← net_dest d;
  i ← q_out (or_undef (nd_interface nd));
  qi ← q_out (interface_of nd);
  let context := set_interface (Some (iface (qi_packet qi))) (op_context packet) in
  b ← q_hm (ob_new);
  match b with
  | None => mret (-1, Outgoing (op_destination packet) (op_seq packet) (op_version packet)
                        (header_length packet) None context)
  | Some b =>
      add_destination_ref d;;
      let seq := if sequence_number nd <? 0 then -1 else Z.land (sequence_number nd + 1) 0xFFFF in
      (if sequence_number nd <? 0 then mret tt else net_dest_set d (nd_set_sequence seq));;
      b ← q_out (ob_limitsize b (qi_mtu qi));
      '(r, context, b) ← q_om (overlay_packet_init_header version (nd_encapsulation nd) (qi_packet qi)
                                 context b (unicast nd) (Z.of_nat i) seq);
      if r =? -1 then
        q_hm (ob_free b);;
        mret (-1, Outgoing (Some d) seq version (header_length packet) None context)
      else mret (0, Outgoing (Some d) seq version (ob_position b) (Some b) context)
  end.

(** [NULL] for a destination or its interface is fatal. *)
Definition checked_destination (x : packet_destination) : QM (nat * network_destination * queue_interface) :=
  d ← q_out (match pd_destination x with Some d => Ret d | None => Abort end);
  nd ← net_dest d;
  i ← q_out (match nd_interface nd with Some i => Ret i | None => Abort end);
  qi ← q_out (or_undef (overlay_interfaces !! i));
  mret (d, nd, qi).

Definition force_source_full (f : overlay_frame) : QM unit :=
  if source_full f then
    me ← q_get (fun s => my_subscriber (q_mesh s));
    me ← q_out (or_undef me);
    q_om (s ← sub_get me; sub_put me (set_send_full 1 s))
  else mret tt.

Definition set_destination (i : nat) (g : packet_destination -> packet_destination) (f : overlay_frame)
    : overlay_frame := set_destinations (alter g i (destinations f)) f.

(** The loop that looks for a destination of the frame, from the last one down;
    [n] of them are left. *)
Fixpoint pick_destination (packet : outgoing_packet) (p : nat) (now : Z) (n : nat)
    : QM (option nat * outgoing_packet) :=
  match n with
  | O => mret (None, packet)
  | S i =>
      f ← frame p;
      x ← q_out (or_undef (destinations f !! i));
      '(d, nd, qi) ← checked_destination x;
      if negb (qi_state qi =? INTERFACE_STATE_UP) then
        remove_destination p i;;
        pick_destination packet p now i
      else
        (match pd_next_hop x with
         | Some h => rt ← route_of h;
                     if rt_max_packet_version rt <? mf_packet_version (mdp f)
                     then frame_set p (set_mdp (mf_set_version (rt_max_packet_version rt))) else mret tt
         | None => mret tt
         end);;
        f ← frame p;
        if negb (transmit_time x =? 0) && (now <? transmit_time x + resend_delay nd)
        then pick_destination packet p now i
        else match op_buffer packet with
        | Some _ =>
            if negb (mf_packet_version (mdp f) =? op_version packet) then pick_destination packet p now i
            else if bool_decide (op_destination packet = Some d) then mret (Some i, packet)
            else pick_destination packet p now i
        | None =>
            if qi_busy qi then pick_destination packet p now i
            else
              t ← q_now;
              let '(r, lim) := limit_is_allowed (transfer_limit nd) t in
              net_dest_set d (nd_set_limit lim);;
              if negb (r =? 0) then pick_destination packet p now i
              else
                force_source_full f;;
                '(r, packet) ← overlay_init_packet packet (mf_packet_version (mdp f)) d;
                if negb (r =? -1) then
                  nd ← net_dest d;
                  frame_set p (set_destination i (set_sent_sequence (sequence_number nd)));;
                  mret (Some i, packet)
                else pick_destination packet p now i
        end
  end.

(** Of the buffer of a packet that was started. *)
Definition payload_cannot_fit (packet : outgoing_packet) (f : overlay_frame) : QM bool :=
  match op_buffer packet with
  | None => mret false
  | Some b =>
      payload ← q_out (or_undef (mf_payload (mdp f)));
      r ← q_out (ob_remaining b);
      mret (r <? ob_limit payload)
  end.
Definition packet_closed (packet : outgoing_packet) : QM bool :=
  match op_buffer packet with
  | None => mret false
  | Some _ =>
      d ← q_out (or_undef (op_destination packet));
      nd ← net_dest d;
      mret (nd_encapsulation nd =? ENCAP_SINGLE)
  end.

(** [skip]: when to try the frame next, and the frame behind it. *)
Definition skip_frame (packet : outgoing_packet) (p : nat) : QM (option nat * outgoing_packet) :=
  overlay_calc_queue_time p;;
  f ← frame p;
  mret (next f, packet).
Definition drop_frame (packet : outgoing_packet) (i : Z) (p : nat) : QM (option nat * outgoing_packet) :=
  nx ← overlay_queue_remove i p;
  mret (nx, packet).

(** The frame goes into the packet, to its destination number [k]. *)
Definition append_frame (packet : outgoing_packet) (i : Z) (now : Z) (p k : nat)
    : QM (option nat * outgoing_packet) :=
  f ← frame p;
  x ← q_out (or_undef (destinations f !! k));
  b ← q_out (or_undef (op_buffer packet));
  pd ← q_out (or_undef (op_destination packet));
  pnd ← net_dest pd;
  let will_retransmit := negb ((mf_packet_version (mdp f) <? 1) || (resend f <=? 0) || (op_seq packet =? -1)) in
  '(r, context, b) ← q_om (overlay_frame_append_payload (op_context packet) (nd_encapsulation pnd) (mdp f)
                             (pd_next_hop x) b will_retransmit);
  let packet := Outgoing (op_destination packet) (op_seq packet) (op_version packet) (header_length packet)
                         (Some b) context in
  if negb (r =? 0) then
    frame_set p (set_delay_until (now + 5));;
    skip_frame packet p
  else
    frame_set p (fun f => set_transmit_count (transmit_count f + 1) f);;
    d ← q_out (or_undef (pd_destination x));
    nd ← net_dest d;
    frame_set p (set_destination k (fun x => set_transmit_time now (set_sent_sequence (sequence_number nd) x)));;
    if will_retransmit then skip_frame packet p
    else
      remove_destination p k;;
      g ← frame p;
      if (length (destinations g) =? 0)%nat then drop_frame packet i p else skip_frame packet p.

(** One turn of the loop of [overlay_stuff_packet] over the queue [i]. *)
Definition stuff_frame (packet : outgoing_packet) (i : Z) (now : Z) (p : nat)
    : QM (option nat * outgoing_packet) :=
  f ← frame p;
  q ← queue_at i;
  if enqueued_at f + latencyTarget q <? now then drop_frame packet i p
  else if now <? delay_until f then skip_frame packet p
  else
    closed ← packet_closed packet;
    if closed : bool then skip_frame packet p
    else
    full ← payload_cannot_fit packet f;
    if full : bool then skip_frame packet p
    else
      (if (length (destinations f) =? 0)%nat && match mf_destination (mdp f) with Some _ => true | None => false end
       then link_add_destinations p;; frame_set p unsent else mret tt);;
      f ← frame p;
      seq ← q_get mdp_sequence;
      late ← (if mf_sequence (mdp f) =? -1 then
                let seq := Z.land (seq + 1) 0xFFFF in
                q_modify (q_set_sequence seq);; frame_set p (set_mdp (mf_set_sequence seq));; mret false
              else mret (64 <=? Z.land (seq - mf_sequence (mdp f)) 0xFFFF));
      if late : bool then drop_frame packet i p
      else
        '(k, packet) ← pick_destination packet p now (length (destinations f));
        f ← frame p;
        if (length (destinations f) =? 0)%nat then drop_frame packet i p
        else match k with
        | None => skip_frame packet p
        | Some k =>
            drop ← (if send_hook f then hook p (op_seq packet) else mret false);
            if drop : bool then drop_frame packet i p else append_frame packet i now p k
        end.

(** A queue that no parameter changes has at most as many frames as there are,
    and each turn moves on by one. *)
Fixpoint stuff_loop (fuel : nat) (packet : outgoing_packet) (i : Z) (now : Z) (p : option nat) : QM outgoing_packet :=
  match p, fuel with
  | None, _ => mret packet
  | Some _, O => q_out Undef
  | Some p, S fuel =>
      '(nx, packet) ← stuff_frame packet i now p;
      stuff_loop fuel packet i now nx
  end.
Definition overlay_stuff_packet (packet : outgoing_packet) (i : Z) (now : Z) : QM outgoing_packet :=
  q ← queue_at i;
  n ← q_get (fun s => size (frames s));
  stuff_loop n packet i now (q_first q).

Fixpoint stuff_queues (l : list Z) (packet : outgoing_packet) (now : Z) : QM outgoing_packet :=
  match l with
  | [] => mret packet
  | i :: l => packet ← overlay_stuff_packet packet i now; stuff_queues l packet now
  end.
Definition all_queues : list Z := Z.of_nat <$> seq 0 (Z.to_nat OQ_MAX).

(** [GD_IP] and [GD_Port] are arrays, so that the statement guarded by
    [!GD_IP] and [!GD_Port] never runs: of the role of the device only [times] and
    [dr] are kept. *)
Definition poll_wifi : QM unit :=
  '(times, dr) ← q_get wifi_poll;
  let times := times + 1 in
  q_modify (q_set_wifi (if 9 <=? times then (0, dr)
                        else if times =? 3 then (times, recv_remote_request) else (times, dr))).

Definition overlay_fill_send_packet (packet : outgoing_packet) (now : Z) : QM Z :=
  q_fq (_unschedule next_packet;; ent_set next_packet (set_alarm 0 0));;
  packet ← stuff_queues all_queues packet now;
  ret ← (match op_buffer packet with
         | Some b =>
             poll_wifi;;
             d ← q_out (or_undef (op_destination packet));
             q_modify (q_add_sent (d, b));;
             mret 1
         | None => mret 0
         end);
  (match op_destination packet with Some d => release_destination_ref d | None => mret tt end);;
  mret ret.

Definition no_packet (seq : Z) : outgoing_packet := Outgoing None seq 0 0 None context_zero.

Definition overlay_send_packet : QM unit :=
  now ← q_now;
  overlay_fill_send_packet (no_packet (-1)) now;;
  mret tt.

Definition overlay_send_tick_packet (d : nat) : QM Z :=
  '(r, packet) ← overlay_init_packet (no_packet 0) 0 d;
  (if negb (r =? -1) then now ← q_now; overlay_fill_send_packet packet now;; mret tt else mret tt);;
  mret 0.

(** ** Acknowledgements *)

(** The last destination of the frame that is [d]. *)
Fixpoint find_destination (d : nat) (l : list packet_destination) (n : nat) : option nat :=
  match n with
  | O => None
  | S j => if bool_decide ((l !! j) ≫= pd_destination = Some d) then Some j else find_destination d l j
  end.

Definition is_acked (ack_mask seq_delta : Z) : bool :=
  (seq_delta =? 0) || ((seq_delta <=? 32) && Z.testbit ack_mask (seq_delta - 1)).

(** One frame; the shortest round trip so far is [rtt], 0 for none. *)
Definition ack_frame (neighbour : option nat) (d : nat) (ack_mask ack_seq now : Z) (i : Z) (rtt : Z) (p : nat)
    : QM (option nat * Z) :=
  f ← frame p;
  let to_one := match mf_destination (mdp f) with Some _ => true | None => false end in
  rtt_next ← (match find_destination d (destinations f) (length (destinations f)) with
    | Some j =>
        x ← q_out (or_undef (destinations f !! j));
        if (0 <=? sent_sequence x) && (bool_decide (pd_next_hop x = neighbour) || negb to_one) then
          let seq_delta := Z.land (ack_seq - sent_sequence x) 0xFF in
          if is_acked ack_mask seq_delta then
            let this_rtt := Z.max 10 (s32 (now - transmit_time x)) in
            let rtt := if (rtt =? 0) || (this_rtt <? rtt) then this_rtt else rtt in
            if to_one || (length (destinations f) <=? 1)%nat then
              nx ← overlay_queue_remove i p;
              mret (rtt, Some nx)
            else
              remove_destination p j;;
              mret (rtt, None)
          else if (seq_delta <? 128) && to_one && (now <? delay_until f) then
            frame_set p (set_delay_until now);;
            overlay_calc_queue_time p;;
            mret (rtt, None)
          else mret (rtt, None)
        else mret (rtt, None)
    | None => mret (rtt, None)
    end);
  match rtt_next with
  | (rtt, Some nx) => mret (nx, rtt)
  | (rtt, None) => g ← frame p; mret (next g, rtt)
  end.

Fixpoint ack_loop (fuel : nat) (neighbour : option nat) (d : nat) (ack_mask ack_seq now : Z) (i : Z)
    (rtt : Z) (p : option nat) : QM Z :=
  match p, fuel with
  | None, _ => mret rtt
  | Some _, O => q_out Undef
  | Some p, S fuel =>
      '(nx, rtt) ← ack_frame neighbour d ack_mask ack_seq now i rtt p;
      ack_loop fuel neighbour d ack_mask ack_seq now i rtt nx
  end.

Fixpoint ack_queues (l : list Z) (neighbour : option nat) (d : nat) (ack_mask ack_seq now rtt : Z) : QM Z :=
  match l with
  | [] => mret rtt
  | i :: l =>
      q ← queue_at i;
      n ← q_get (fun s => size (frames s));
      rtt ← ack_loop n neighbour d ack_mask ack_seq now i rtt (q_first q);
      ack_queues l neighbour d ack_mask ack_seq now rtt
  end.

Definition update_rtt (rtt : Z) (nd : network_destination) : network_destination :=
  let nd := if (min_rtt nd =? 0) || (rtt <? min_rtt nd)
            then nd_set_rtt rtt (max_rtt nd) (Z.min (rtt * 2 + 40) (resend_delay nd)) nd else nd in
  if (max_rtt nd =? 0) || (max_rtt nd <? rtt) then nd_set_rtt (min_rtt nd) rtt (resend_delay nd) nd else nd.

Definition overlay_queue_ack (neighbour : option nat) (d : nat) (ack_mask ack_seq : Z) : QM Z :=
  now ← q_now;
  rtt ← ack_queues all_queues neighbour d ack_mask ack_seq now 0;
  (if negb (rtt =? 0) then net_dest_set d (update_rtt rtt) else mret tt);;
  mret 0.
End overlay_queue.
