(* ===== verification/OverlayQueueAlarm.v ===== *)
(** * The alarm of the transmit queues

    What [overlay_queue_schedule_next] does to the event loop: the alarm of the
    queue is set to the earliest of the times it was called with. *)

From stdpp Require Import base tactics list fin_maps gmap.
From Stdlib Require Import ZArith Lia.
From S2P Require Import Prelude Linked FdQueue FdQueueLists FdQueueSpec RadioLink.

Local Open Scope Z_scope.

(** An alarm that is scheduled runs and wakes the process at its time; one that
    is not has no time, and [_schedule] may choose when it runs. *)
Definition armed (e : sched_ent) : Prop :=
  if _scheduled e then function e = true /\ run_after e = alarm e /\ wake_at e = alarm e
  else (run_after e = 0 \/ run_after e = TIME_MS_NEVER_WILL) /\ (alarm e = 0 \/ alarm e = TIME_MS_NEVER_WILL).

(** The alarm [p] of an event loop that is well formed. *)
Definition alarm_ok (p : nat) (l : fq_state) (e : sched_ent) : Prop :=
  (exists ln ls lw, fq_wf l ln ls lw) /\ ents l !! p = Some e.

Lemma core_eq e e' : core e' = core e ->
  function e' = function e /\ run_after e' = run_after e /\ wake_at e' = wake_at e /\
  run_before e' = run_before e /\ alarm e' = alarm e /\ deadline e' = deadline e.
Proof. destruct e, e'. intros E. injection E. simpl. intuition congruence. Qed.

Lemma same_core_at m l p e : same_core (<[p := e]> m) l -> exists e', l !! p = Some e' /\ core e' = core e.
Proof.
  intros Hc. apply (f_equal (fun x => x !! p)) in Hc. rewrite !lookup_fmap, lookup_insert_eq in Hc.
  destruct (l !! p) as [e'|]; [|done]. exists e'. split; [done|]. simpl in Hc. congruence.
Qed.

Lemma alarm_update p l e e' :
  alarm_ok p l e -> _scheduled e = false -> _scheduled e' = false ->
  _next_wake e' = _next_wake e -> _prev_wake e' = _prev_wake e ->
  alarm_ok p (set_ents (<[p := e']> (ents l)) l) e'.
Proof.
  intros ((ln & ls & lw & Hwf) & He) Hs Hs' Hn Hp. split; [|apply lookup_insert_eq].
  exists ln, ls, lw. apply (fq_wf_update l ln ls lw p e e'); try done; [|congruence].
  intros Hin. apply (wf_scheduled _ _ _ _ Hwf p e He) in Hin. congruence.
Qed.

Lemma unschedule_alarm p l e :
  alarm_ok p l e ->
  exists l' e', _unschedule p l = Ret (tt, l') /\ alarm_ok p l' e' /\ _scheduled e' = false /\
    same_rest l l' /\ alarm e' = alarm e /\ function e' = function e /\
    run_after e' = (if _scheduled e then TIME_MS_NEVER_WILL else run_after e).
Proof.
  intros ((ln & ls & lw & Hwf) & He). unfold _unschedule, is_scheduled.
  erewrite FQ_bind_Ret by (by erewrite FQ_bind_Ret by (by apply ent_run)).
  destruct (_scheduled e) eqn:Es; simpl negb; cbv iota; [|exists l, e; split_and!; try done; by split; eauto].
  destruct (leave_spec l ln ls lw p e Hwf He) as (l' & Hr & Hwf' & Hrest & Hc).
  destruct (same_core_at _ _ _ _ Hc) as (e' & He' & (Hf & Ha & _ & _ & Hal & _)%core_eq).
  exists l', e'. split_and!; try done; [by split; eauto|].
  destruct (_scheduled e') eqn:Es'; [|done]. apply (wf_scheduled _ _ _ _ Hwf' p e' He') in Es'.
  by apply elem_of_app in Es' as [[? _]%elem_of_without|[? _]%elem_of_without].
Qed.

Lemma schedule_alarm p l e t :
  alarm_ok p l e -> _scheduled e = false -> function e = true ->
  run_after e = 0 \/ run_after e = TIME_MS_NEVER_WILL -> alarm e = t -> deadline e = t + 15 ->
  exists l' e', _schedule p l = Ret (tt, l') /\ alarm_ok p l' e' /\ armed e' /\ alarm e' = t /\
    same_rest l l' /\ (t <> TIME_MS_NEVER_WILL -> _scheduled e' = true).
Proof.
  intros ((ln & ls & lw & Hwf) & He) Hs Hf Hra Ha Hd. rewrite (schedule_run p e l He). cbv zeta.
  assert (prepared e = set_run_after t (set_wake_run t (t + 15) e)) as ->.
  { unfold prepared. rewrite Ha, Hd. by destruct Hra as [E|E]; cbn; rewrite E. }
  cbn -[insert_wake_list insert_run_soon ent_set set_ents TIME_MS_NEVER_WILL].
  rewrite Hs, Hf, (proj2 (Z.leb_le t t)), (proj2 (Z.leb_le t (t + 15))) by lia. cbn -[insert_wake_list insert_run_soon ent_set set_ents TIME_MS_NEVER_WILL].
  set (e1 := set_run_after t _).
  assert (alarm_ok p (set_ents (<[p := e1]> (ents l)) l) e1) as ((ln1 & ls1 & lw1 & Hwf1) & He1)
    by (eapply alarm_update; eauto; by split; eauto).
  destruct (Z.eqb_spec t TIME_MS_NEVER_WILL) as [->|Hne]; simpl negb; cbv iota.
  - eexists _, e1. split; [done|]. split_and!; [by split; eauto| |done|done|done].
    unfold armed. change (_scheduled e1) with (_scheduled e). change (alarm e1) with (alarm e). rewrite Hs, Ha. auto.
  - destruct (enter_spec _ ln1 ls1 lw1 p e1 Hwf1 He1 Hs) as (l' & Hr & Hwf' & Hc & Hrest).
    destruct (same_core_at (ents l) (ents l') p e1 Hc) as (e' & He' & (Ef & Er & Ew & _ & El & _)%core_eq).
    assert (_scheduled e' = true) as Hs'.
    { apply (wf_scheduled _ _ _ _ Hwf' p e' He'), elem_of_insert_by. by left. }
    exists l', e'. split; [done|]. split_and!; try done; [by split; eauto| |by rewrite El; exact Ha].
    unfold armed. rewrite Hs', Ef, Er, Ew, El. split_and!; [exact Hf|exact (eq_sym Ha)..].
Qed.

Lemma schedule_next_spec p l e t :
  alarm_ok p l e -> armed e ->
  exists l' e', overlay_queue_schedule_next p t l = Ret (tt, l') /\ alarm_ok p l' e' /\ armed e' /\
    alarm e' = (if alarm e =? 0 then t else Z.min t (alarm e)) /\ same_rest l l' /\
    (t < TIME_MS_NEVER_WILL -> _scheduled e' = true).
Proof.
  intros Hok Ha. unfold overlay_queue_schedule_next. pose proof Hok as [_ He].
  erewrite FQ_bind_Ret by (by apply ent_run). destruct ((alarm e =? 0) || (t <? alarm e)) eqn:Ec.
  - assert (exists e1, (if negb (function e) then ent_set p (set_function true) else mret tt) l
              = Ret (tt, set_ents (<[p := e1]> (ents l)) l) /\ function e1 = true /\
              alarm_ok p (set_ents (<[p := e1]> (ents l)) l) e1 /\ alarm e1 = alarm e /\ armed e1) as
      (e1 & Hr1 & Hf1 & Hok1 & Hal1 & Ha1).
    { destruct (function e) eqn:Ef; simpl negb; cbv iota.
      - exists e. rewrite insert_id by done. by destruct l.
      - exists (set_function true e). unfold armed in *. destruct (_scheduled e) eqn:Es; [destruct Ha; congruence|].
        split_and!; [by apply ent_set_run|done| |done|].
        + by eapply alarm_update.
        + unfold set_function; simpl. by rewrite Es. }
    erewrite FQ_bind_Ret by exact Hr1.
    destruct (unschedule_alarm _ _ _ Hok1) as (l2 & e2 & Hr2 & Hok2 & Hs2 & Hrest2 & Hal2 & Hf2 & Hra2).
    erewrite FQ_bind_Ret by exact Hr2.
    erewrite FQ_bind_Ret by (apply ent_set_run, Hok2).
    destruct (schedule_alarm p _ (set_alarm t (t + 15) e2) t
                (alarm_update _ _ _ (set_alarm t (t + 15) e2) Hok2 Hs2 Hs2 eq_refl eq_refl))
      as (l' & e' & Hr & Hok' & Ha' & Hal' & Hrest' & Hsch); try done.
    { simpl. congruence. }
    { simpl. rewrite Hra2. unfold armed in Ha1. destruct (_scheduled e1); [by right|apply Ha1]. }
    exists l', e'. split_and!; try done.
    + rewrite Hal'. destruct (Z.eqb_spec (alarm e) 0); [done|]. simpl in Ec. apply Z.ltb_lt in Ec. lia.
    + eapply same_rest_trans; [|exact Hrest']. exact Hrest2.
    + intros ?. apply Hsch. lia.
  - apply orb_false_iff in Ec as [En Et]. rewrite En. apply Z.eqb_neq in En. apply Z.ltb_ge in Et.
    exists l, e. split_and!; try done; [lia|]. intros Ht. unfold armed in Ha. destruct (_scheduled e); [done|lia].
Qed.
