(* ===== verification/OverlayQueueSpec.v ===== *)
(** * The transmit queues: what they own

    Each queue is a list of frames.  A frame in a queue, or one in the hands of
    the code, owns its payload's memory and a reference to each of its
    destinations; whoever else holds references to destinations is listed
    beside them.  The lemmas say what releasing references and freeing frames
    does, and what the calculation of the next time to send does. *)

From stdpp Require Import base tactics list fin_maps gmap.
From Stdlib Require Import ZArith Lia.
From S2P Require Import Prelude Memory OverlayBuffer Limit OverlayAddress OverlayPacket FdQueue FdQueueLists.
From S2P Require Import FdQueueSpec RadioLink Linked OverlayQueue OverlayQueueAlarm.

Local Open Scope Z_scope.
Implicit Types (s : oq_state) (m : gmap nat overlay_frame) (ds : gmap nat network_destination).

(** ** Running the monad *)

Lemma QM_bind_Ret {A B} (x : QM A) (f : A -> QM B) s a s' : x s = Ret (a, s') -> (x ≫= f) s = f a s'.
Proof. unfold mbind, QM_bind. by intros ->. Qed.

Lemma QM_bind_assoc {A B C} (x : QM A) (f : A -> QM B) (g : B -> QM C) s :
  ((x ≫= f) ≫= g) s = (x ≫= fun a => f a ≫= g) s.
Proof. unfold mbind, QM_bind. destruct (x s) as [[a s']| |]; done. Qed.

Lemma frame_run p f s : frames s !! p = Some f -> frame p s = Ret (f, s).
Proof. unfold frame. by intros ->. Qed.
Lemma frame_set_run p f g s :
  frames s !! p = Some f -> frame_set p g s = Ret (tt, q_set_frames (<[p := g f]> (frames s)) s).
Proof. intros E. unfold frame_set. by erewrite QM_bind_Ret by (by apply frame_run). Qed.
Lemma net_dest_run d x s : net_dests s !! d = Some x -> net_dest d s = Ret (x, s).
Proof. unfold net_dest. by intros ->. Qed.
Lemma net_dest_set_run d x g s :
  net_dests s !! d = Some x -> net_dest_set d g s = Ret (tt, q_set_dests (<[d := g x]> (net_dests s)) s).
Proof. intros E. unfold net_dest_set. by erewrite QM_bind_Ret by (by apply net_dest_run). Qed.
Lemma queue_at_run (i : nat) q s : overlay_tx s !! i = Some q -> queue_at (Z.of_nat i) s = Ret (q, s).
Proof.
  intros E. unfold queue_at. erewrite QM_bind_Ret by done. unfold q_out, zlookup.
  rewrite (proj2 (Z.ltb_ge _ _)), Nat2Z.id, E by lia. done.
Qed.
Lemma queue_set_run (i : nat) q g s :
  overlay_tx s !! i = Some q ->
  queue_set (Z.of_nat i) g s = Ret (tt, q_set_tx (<[i := g q]> (overlay_tx s)) s).
Proof. intros E. unfold queue_set. erewrite QM_bind_Ret by (by apply queue_at_run). by rewrite Nat2Z.id. Qed.
Lemma q_out_run {A} (a : A) s : q_out (Ret a) s = Ret (a, s).
Proof. done. Qed.

(** ** References *)

Definition interface_ok (n : nat) (nd : network_destination) : Prop :=
  exists i, nd_interface nd = Some i /\ (i < n)%nat.

Definition uses (d : nat) (l : list nat) : Z := Z.of_nat (length (filter (fun x => x = d) l)).

(** The references [l] are counted, and to destinations with an interface. *)
Definition counted (n : nat) (l : list nat) ds : Prop :=
  forall d, d ∈ l -> exists nd, ds !! d = Some nd /\ interface_ok n nd /\ uses d l <= _ref_count nd.

Definition release1 (d : nat) ds : gmap nat network_destination :=
  match ds !! d with
  | Some nd => if _ref_count nd <=? 1 then delete d ds else <[d := nd_set_ref (_ref_count nd - 1) nd]> ds
  | None => ds
  end.

Lemma uses_cons d x l : uses d (x :: l) = (if decide (x = d) then 1 else 0) + uses d l.
Proof. unfold uses. rewrite filter_cons. case_decide; simpl length; lia. Qed.
Lemma uses_perm d l l' : l ≡ₚ l' -> uses d l = uses d l'.
Proof. intros E. unfold uses. by rewrite E. Qed.
Lemma uses_nonneg d l : 0 <= uses d l.
Proof. unfold uses. lia. Qed.
Lemma uses_pos d l : d ∈ l -> 1 <= uses d l.
Proof.
  induction l as [|x l IH]; [by intros ?%elem_of_nil|]. rewrite elem_of_cons, uses_cons.
  pose proof (uses_nonneg d l). intros [->|Hl]; [rewrite decide_True by done; lia|].
  apply IH in Hl. case_decide; lia.
Qed.

Global Instance counted_perm n : Proper ((≡ₚ) ==> eq ==> iff) (counted n).
Proof.
  intros l l' E ds ? <-. unfold counted. split; intros H d Hd.
  - destruct (H d) as (nd & ? & ? & ?); [by rewrite E|]. exists nd. by rewrite <- (uses_perm d _ _ E).
  - destruct (H d) as (nd & ? & ? & ?); [by rewrite <- E|]. exists nd. by rewrite (uses_perm d _ _ E).
Qed.

Lemma counted_lookup n l ds d : counted n l ds -> d ∈ l -> is_Some (ds !! d).
Proof. intros H Hd. destruct (H d Hd) as (nd & -> & _). by eexists. Qed.

Lemma counted_release n d l ds : counted n (d :: l) ds -> counted n l (release1 d ds).
Proof.
  intros H x Hx. destruct (H x) as (nd & Hnd & Hi & Hu); [by apply list_elem_of_further|].
  rewrite uses_cons in Hu. unfold release1.
  destruct (H d) as (nd' & Hnd' & _ & _); [apply list_elem_of_here|]. rewrite Hnd'.
  destruct (decide (d = x)) as [->|Hne].
  - simplify_eq. pose proof (uses_pos x l Hx). rewrite (proj2 (Z.leb_gt _ _)) by lia.
    eexists. split; [apply lookup_insert_eq|]. split; [done|]. simpl. lia.
  - destruct (_ <=? _); [rewrite lookup_delete_ne by done|rewrite lookup_insert_ne by done]; exists nd; split_and!; done || lia.
Qed.

Lemma release_destination_run d l n s :
  counted n (d :: l) (net_dests s) ->
  release_destination_ref d s = Ret (tt, q_set_dests (release1 d (net_dests s)) s).
Proof.
  intros H. destruct (H d) as (nd & Hnd & _); [apply list_elem_of_here|].
  unfold release_destination_ref, release1. rewrite Hnd.
  erewrite QM_bind_Ret by (by apply net_dest_run). destruct (_ <=? _); [done|]. by erewrite net_dest_set_run.
Qed.

(** The destinations of a frame. *)
Definition refs (l : list packet_destination) : list nat := omap pd_destination l.
Definition refs_released (l : list nat) ds : gmap nat network_destination := foldr release1 ds l.

Lemma q_set_dests_twice a b s : q_set_dests a (q_set_dests b s) = q_set_dests a s.
Proof. done. Qed.

Lemma release_all_run l k n s :
  Forall (fun x => is_Some (pd_destination x)) l -> counted n (refs l ++ k) (net_dests s) ->
  release_all l s = Ret (tt, q_set_dests (refs_released (refs l) (net_dests s)) s) /\
  counted n k (refs_released (refs l) (net_dests s)).
Proof.
  revert k. induction l as [|x l IH]; intros k Hl Hc; simpl.
  - split; [by destruct s|done].
  - apply Forall_cons in Hl as [[d Hd] Hl]. unfold refs in *. simpl in *. rewrite Hd in *. simpl in Hc |- *.
    rewrite Permutation_middle in Hc. destruct (IH (d :: k) Hl Hc) as [Hr Hc'].
    erewrite QM_bind_Ret by exact Hr. erewrite QM_bind_Ret by apply q_out_run.
    erewrite release_destination_run by exact Hc'. split; [done|]. by apply counted_release in Hc'.
Qed.

(** ** Lists of frames *)

Definition set_of {T} (g : T -> T) (p : option nat) (m : gmap nat T) : gmap nat T :=
  match p with Some x => alter g x m | None => m end.
(** [a] and [b] become neighbours. *)
Definition joined (a b : option nat) m : gmap nat overlay_frame :=
  set_of (set_prev a) b (set_of (set_next b) a m).

Lemma set_of_lookup {T} (g : T -> T) p (m : gmap nat T) q :
  set_of g p m !! q = if decide (p = Some q) then g <$> m !! q else m !! q.
Proof.
  unfold set_of. destruct p as [x|]; [|done]. destruct (decide (x = q)) as [->|Hne].
  - by rewrite lookup_alter_eq, decide_True.
  - rewrite lookup_alter_ne by done. rewrite decide_False; congruence.
Qed.

Lemma joined_lookup a b m q f :
  m !! q = Some f ->
  joined a b m !! q = Some (QFrame (if decide (b = Some q) then a else prev f)
    (if decide (a = Some q) then b else next f) (enqueued_at f) (resend f) (send_hook f) (delay_until f)
    (destinations f) (transmit_count f) (source_full f) (mdp f)).
Proof.
  intros Hq. unfold joined. rewrite !set_of_lookup, Hq. destruct f. by repeat case_decide.
Qed.

(** Everything of a frame but its links. *)
Definition body (f : overlay_frame) : overlay_frame := set_prev None (set_next None f).
Definition bodies m : gmap nat overlay_frame := body <$> m.

Lemma joined_bodies a b m : bodies (joined a b m) = bodies m.
Proof.
  apply map_eq. intros q. unfold bodies. rewrite !lookup_fmap. unfold joined. rewrite !set_of_lookup.
  repeat case_decide; by destruct (m !! q) as [[]|].
Qed.

Lemma joined_other a b m q : a <> Some q -> b <> Some q -> joined a b m !! q = m !! q.
Proof. intros. unfold joined. rewrite !set_of_lookup. by rewrite !decide_False. Qed.

Lemma last_not_in (l1 l2 : list nat) x : NoDup (l1 ++ x :: l2) -> (list.last l1 <> Some x) /\ (x ∉ l1) /\ (x ∉ l2).
Proof.
  intros (H1 & Hd & H2)%NoDup_app. apply NoDup_cons in H2 as [H2 _].
  assert (x ∉ l1) by (intros Hx; apply (Hd x Hx), list_elem_of_here).
  split_and!; [intros ?%list.last_Some_elem_of|..]; done.
Qed.

Lemma joined_list m h u v l1 l2 :
  seg next m h l1 u -> seg next m (list.head l2) l2 None ->
  backs prev m None l1 -> backs prev m v l2 -> NoDup (l1 ++ l2) ->
  let m' := joined (list.last l1) (list.head l2) m in
  seg next m' (list.head (l1 ++ l2)) (l1 ++ l2) None /\ backs prev m' None (l1 ++ l2).
Proof.
  intros Hs1 Hs2 Hb1 Hb2 Hnd m'.
  assert (seg next m' (list.head l2) l2 None /\ backs prev m' (list.last l1) l2) as [Hs2' Hb2'].
  { split.
    - eapply seg_ext; [|exact Hs2]. intros q f Hq Hin. eexists. split; [by apply joined_lookup|]. simpl.
      rewrite decide_False; [done|]. intros ?%list.last_Some_elem_of. apply NoDup_app in Hnd as (_ & Hd & _). by eapply Hd.
    - destruct l2 as [|y l2]; [done|]. destruct Hb2 as [(f & Hf & _) Hb2]. split.
      + eexists. split; [by apply joined_lookup|]. simpl. by rewrite decide_True.
      + eapply backs_ext; [|exact Hb2]. intros q g Hq Hin. eexists. split; [by apply joined_lookup|]. simpl.
        rewrite decide_False; [done|]. intros [= ->]. by apply last_not_in in Hnd as (_ & _ & ?). }
  assert (forall q, q ∈ l1 -> list.head l2 <> Some q) as Hh.
  { intros q Hq Hl. apply list.head_Some_elem_of in Hl. apply NoDup_app in Hnd as (_ & Hd & _). by eapply Hd. }
  rewrite seg_app, backs_app. apply and_comm. split.
  - split.
    + eapply backs_ext; [|exact Hb1]. intros q f Hq Hin. eexists. split; [by apply joined_lookup|]. simpl.
      by rewrite decide_False by auto.
    + unfold after. by destruct (list.last l1).
  - exists (list.head l2). split; [|done]. destruct (list.last l1) as [x|] eqn:El.
    + apply list.last_Some in El as [l1' ->]. rewrite <- app_assoc in Hnd. simpl in Hnd.
      apply seg_snoc in Hs1 as (Hs1 & f & Hf & _). apply seg_snoc. split.
      * assert (list.head ((l1' ++ [x]) ++ l2) = h) as -> by (destruct l1'; simpl in *; [congruence|destruct Hs1; congruence]).
        eapply seg_ext; [|exact Hs1]. intros q g Hq Hin. eexists. split; [by apply joined_lookup|]. simpl.
        rewrite decide_False; [done|]. intros [= ->]. by apply last_not_in in Hnd as (_ & ? & _).
      * eexists. split; [by apply joined_lookup|]. simpl. by rewrite decide_True.
    + apply list.last_None in El as ->. done.
Qed.

(** ** Freeing a frame *)

Definition q_set_heap (h : heap) (s : oq_state) : oq_state := q_set_mesh (q_mesh s) h s.

(** The block of the payload, when it has one of its own. *)
Definition frame_block (f : overlay_frame) : list nat :=
  match mf_payload (mdp f) with
  | Some b => match allocated b with Some p => [p.1] | None => [] end
  | None => []
  end.
Definition frame_refs (f : overlay_frame) : list nat := refs (destinations f).
Definition frame_ok (f : overlay_frame) : Prop :=
  (exists b, mf_payload (mdp f) = Some b /\ from_option (fun p => p.2 = 0) True (allocated b)) /\
  Forall (fun x => is_Some (pd_destination x)) (destinations f).
Definition freed (f : overlay_frame) (h : heap) : heap := foldr delete h (frame_block f).

Lemma still_linked_run p f s :
  frames s !! p = Some f ->
  (forall x, prev f = Some x -> exists g, frames s !! x = Some g /\ next g <> Some p) ->
  (forall x, next f = Some x -> exists g, frames s !! x = Some g /\ prev g <> Some p) ->
  still_linked p s = Ret (false, s).
Proof.
  intros Hf Hp Hn. unfold still_linked. erewrite QM_bind_Ret by (by apply frame_run).
  erewrite (QM_bind_Ret _ _ _ false s).
  - cbv iota. destruct (next f) as [x|]; [|done]. destruct (Hn x eq_refl) as (g & Hg & Hne).
    erewrite QM_bind_Ret by (by apply frame_run). by rewrite bool_decide_false.
  - destruct (prev f) as [x|]; [|done]. destruct (Hp x eq_refl) as (g & Hg & Hne).
    erewrite QM_bind_Ret by (by apply frame_run). by rewrite bool_decide_false.
Qed.

Lemma frame_free_run p f s :
  frames s !! p = Some f -> still_linked p s = Ret (false, s) ->
  frame_ok f -> Forall (fun b => is_Some (q_heap s !! b)) (frame_block f) ->
  frame_free p s = Ret (0, q_set_frames (delete p (frames s)) (q_set_heap (freed f (q_heap s)) s)).
Proof.
  intros Hf Hl [(b & Hb & Ho) _] Hh. unfold frame_free. erewrite QM_bind_Ret by exact Hl.
  erewrite QM_bind_Ret by (by apply frame_run). unfold freed, frame_block in *. rewrite Hb in *.
  erewrite (QM_bind_Ret _ _ _ 0 (q_set_heap (foldr delete (q_heap s)
              (match allocated b with Some p => [p.1] | None => [] end)) s)); [done|].
  unfold q_hm, q_om, olift, op_free. rewrite Hb. unfold ob_free.
  destruct (allocated b) as [[x o]|]; [|done]. simpl in *. subst o.
  apply Forall_cons in Hh as [[blk Hblk] _]. unfold hwrite, mbind, HM_bind, mfree. simpl. unfold block in *. by rewrite Hblk.
Qed.

(** ** The invariant *)

Record queue_wf m (q : overlay_txqueue) (l : list nat) : Prop := {
  qw_next : seg next m (q_first q) l None;
  qw_prev : backs prev m None l;
  qw_last : q_last q = list.last l;
  qw_length : q_length q = Z.of_nat (length l)
}.

Definition gather {T} (g : overlay_frame -> list T) m (l : list nat) : list T :=
  l ≫= fun p => match m !! p with Some f => g f | None => [] end.

Lemma gather_perm {T} (g : overlay_frame -> list T) m l l' : l ≡ₚ l' -> gather g m l ≡ₚ gather g m l'.
Proof. intros E. unfold gather. by rewrite E. Qed.
Lemma gather_cons {T} (g : overlay_frame -> list T) m p f l :
  m !! p = Some f -> gather g m (p :: l) = g f ++ gather g m l.
Proof. intros E. unfold gather. simpl. by rewrite E. Qed.
Lemma gather_ext {T} (g : overlay_frame -> list T) m m' l :
  (forall p, p ∈ l -> g <$> m' !! p = g <$> m !! p) -> gather g m' l = gather g m l.
Proof.
  intros H. unfold gather. induction l as [|p l IH]; [done|]. simpl. f_equal.
  - specialize (H p ltac:(apply list_elem_of_here)). destruct (m !! p), (m' !! p); simpl in *; congruence.
  - apply IH. intros q Hq. apply H. by apply list_elem_of_further.
Qed.

(** The frames [l] own their memory and references, and [ext] are the references
    held elsewhere; there are [n] interfaces. *)
Record owns (n : nat) m (h : heap) ds (l ext : list nat) : Prop := {
  o_nodup : NoDup l;
  o_frames : forall p, p ∈ l -> exists f, m !! p = Some f /\ frame_ok f;
  o_refs : counted n (gather frame_refs m l ++ ext) ds;
  o_blocks : NoDup (gather frame_block m l);
  o_heap : Forall (fun b => is_Some (h !! b)) (gather frame_block m l)
}.

Global Instance owns_perm n m h ds : Proper ((≡ₚ) ==> (≡ₚ) ==> iff) (owns n m h ds).
Proof.
  assert (forall l l' e e', l ≡ₚ l' -> e ≡ₚ e' -> owns n m h ds l e -> owns n m h ds l' e') as H.
  { intros l l' e e' E E' []. split.
    - by rewrite <- E.
    - intros p Hp. apply o_frames0. by rewrite E.
    - by rewrite <- (gather_perm _ _ _ _ E), <- E'.
    - by rewrite <- (gather_perm _ _ _ _ E).
    - by rewrite <- (gather_perm _ _ _ _ E). }
  intros l l' E e e' E'. split; apply H; done.
Qed.

Lemma owns_ext n m m' h ds l ext : bodies m' = bodies m -> owns n m h ds l ext -> owns n m' h ds l ext.
Proof.
  intros E []. assert (forall p, body <$> m' !! p = body <$> m !! p) as Hp.
  { intros p. rewrite <- !lookup_fmap. exact (f_equal (fun x => x !! p) E). }
  assert (forall T (g : overlay_frame -> list T), (forall f, g (body f) = g f) -> gather g m' l = gather g m l) as Hg.
  { intros T g Hg. apply gather_ext. intros p _. specialize (Hp p). destruct (m !! p), (m' !! p); simpl in *; try done.
    f_equal. rewrite <- (Hg o), <- (Hg o0). congruence. }
  split; rewrite ?Hg by done; try done.
  intros p Hin. destruct (o_frames0 p Hin) as (f & Hf & Hok). specialize (Hp p). rewrite Hf in Hp.
  destruct (m' !! p) as [f'|]; [|done]. exists f'. split; [done|]. apply (inj Some) in Hp.
  unfold frame_ok in *. change (mdp f') with (mdp (body f')). change (destinations f') with (destinations (body f')).
  by rewrite Hp.
Qed.

(** A frame that is freed, and its references released. *)
Lemma owns_free n m h ds p f l ext :
  owns n m h ds (p :: l) ext -> m !! p = Some f ->
  owns n (delete p m) (freed f h) (refs_released (frame_refs f) ds) l ext.
Proof.
  intros [Hnd Hf Hr Hb Hh] Hp. apply NoDup_cons in Hnd as [Hpl Hnd].
  rewrite (gather_cons _ _ _ _ _ Hp) in Hr. rewrite (gather_cons _ _ _ _ _ Hp) in Hb, Hh.
  assert (forall T (g : overlay_frame -> list T), gather g (delete p m) l = gather g m l) as Hg.
  { intros T g. apply gather_ext. intros q Hq. rewrite lookup_delete_ne; [done|]. by intros ->. }
  split; rewrite ?Hg; try done.
  - intros q Hq. destruct (Hf q) as (g & ? & ?); [by apply list_elem_of_further|]. exists g.
    rewrite lookup_delete_ne; [done|]. by intros ->.
  - rewrite <- app_assoc in Hr. revert Hr. generalize (gather frame_refs m l ++ ext) as k. clear.
    unfold refs_released. induction (frame_refs f) as [|d r IH]; intros k Hr; [done|]. simpl in *.
    apply counted_release, IH. by rewrite Permutation_middle in Hr.
  - by apply NoDup_app in Hb as (_ & _ & ?).
  - apply Forall_app in Hh as [_ Hh]. apply NoDup_app in Hb as (_ & Hd & _).
    apply list.Forall_forall. intros b Hin. unfold freed.
    assert (b ∉ frame_block f) as Hni by (intros Hx; by apply (Hd b)).
    clear -Hh Hin Hni. induction (frame_block f) as [|x r IH]; simpl; [by eapply (proj1 (list.Forall_forall _ _) Hh)|].
    apply not_elem_of_cons in Hni as [? ?]. rewrite lookup_delete_ne by done. by apply IH.
Qed.

(** [ls] are the frames of the queues, [pend] those in the hands of the code,
    [ext] the references held elsewhere; there are [n] interfaces and [np] is the
    alarm. *)
Record oq_wf (n np : nat) s (ls : list (list nat)) (pend ext : list nat) : Prop := {
  w_queues : Forall2 (queue_wf (frames s)) (overlay_tx s) ls;
  w_five : length ls = Z.to_nat OQ_MAX;
  w_owns : owns n (frames s) (q_heap s) (net_dests s) (concat ls ++ pend) ext;
  w_pend : forall p f, p ∈ pend -> frames s !! p = Some f -> prev f = None /\ next f = None;
  w_number : forall i l p f, ls !! i = Some l -> p ∈ l -> frames s !! p = Some f -> mf_queue (mdp f) = Z.of_nat i;
  w_alarm : exists e, alarm_ok np (q_loop s) e /\ armed e
}.
