(* ===== verification/OverlayQueueRemove.v ===== *)
(** * The transmit queues: removing frames and destinations *)

From stdpp Require Import base tactics list fin_maps gmap.
From Stdlib Require Import ZArith Lia.
From S2P Require Import Prelude Memory OverlayBuffer Limit OverlayAddress OverlayPacket FdQueue FdQueueLists.
From S2P Require Import FdQueueSpec RadioLink Linked OverlayQueue OverlayQueueAlarm OverlayQueueSpec.

Local Open Scope Z_scope.
Implicit Types (s : oq_state) (m : gmap nat overlay_frame) (ds : gmap nat network_destination).

Lemma frame_set_alter p f g s :
  frames s !! p = Some f -> frame_set p g s = Ret (tt, q_set_frames (alter g p (frames s)) s).
Proof.
  intros Hf. rewrite (frame_set_run p f g s Hf). do 3 f_equal. apply map_eq. intros q.
  destruct (decide (p = q)) as [<-|].
  - by rewrite lookup_insert_eq, lookup_alter_eq, Hf.
  - by rewrite lookup_insert_ne, lookup_alter_ne.
Qed.

(** Queues with other frames and the same settings. *)
Definition settings (q : overlay_txqueue) : overlay_txqueue := q_set_ends None None 0 q.

(** What the operations on queued frames leave alone. *)
Record undisturbed s s' : Prop := {
  u_sequence : mdp_sequence s' = mdp_sequence s;
  u_mesh : q_mesh s' = q_mesh s;
  u_sent : sent_packets s' = sent_packets s;
  u_wifi : wifi_poll s' = wifi_poll s;
  u_settings : settings <$> overlay_tx s' = settings <$> overlay_tx s
}.
Global Instance undisturbed_po : PreOrder undisturbed.
Proof. split; [by split|]. intros s1 s2 s3 [] []. split; congruence. Qed.

Lemma settings_insert (i : nat) q q' (l : list overlay_txqueue) :
  l !! i = Some q -> settings q' = settings q -> settings <$> <[i := q']> l = settings <$> l.
Proof. intros Hq E. rewrite list_fmap_insert, E. apply list_insert_id. by rewrite list_lookup_fmap, Hq. Qed.

Lemma concat_insert {T} (ls : list (list T)) (i : nat) l :
  ls !! i = Some l -> exists k, concat ls ≡ₚ l ++ k /\ forall l', concat (<[i := l']> ls) ≡ₚ l' ++ k.
Proof.
  revert i. induction ls as [|x ls IH]; intros [|i] Hi; simplify_eq/=; [by exists (concat ls)|].
  destruct (IH i Hi) as (k & E & E'). exists (x ++ k). split; [rewrite E|intros l'; rewrite E']; apply Permutation_app_swap_app.
Qed.

Lemma elem_of_concat_lookup {T} (ls : list (list T)) (i : nat) l x : ls !! i = Some l -> x ∈ l -> x ∈ concat ls.
Proof.
  intros Hi Hx. destruct (concat_insert ls i l Hi) as (k & E & _). rewrite E. apply elem_of_app. by left.
Qed.

(** ** A frame leaves its list *)

Section at_queue.
Context {n np : nat} {s : oq_state} {ls : list (list nat)} {pend ext : list nat}.
Hypothesis Hwf : oq_wf n np s ls pend ext.
Context {i : nat} {l : list nat}.
Hypothesis Hi : ls !! i = Some l.

Lemma wf_queue : exists q, overlay_tx s !! i = Some q /\ queue_wf (frames s) q l.
Proof. destruct (Forall2_lookup_r _ _ _ _ _ (w_queues _ _ _ _ _ _ Hwf) Hi) as (q & ? & ?). by exists q. Qed.

Lemma queue_perm : exists k, concat ls ++ pend ≡ₚ l ++ k /\
  forall l', concat (<[i := l']> ls) ++ pend ≡ₚ l' ++ k.
Proof.
  destruct (concat_insert ls i l Hi) as (k & E & E'). exists (k ++ pend).
  split; [rewrite E|intros l'; rewrite E']; by rewrite <- app_assoc.
Qed.

Lemma queue_nodup : NoDup l.
Proof.
  destruct queue_perm as (k & E & _). pose proof (o_nodup _ _ _ _ _ _ (w_owns _ _ _ _ _ _ Hwf)) as H.
  rewrite E in H. by apply NoDup_app in H as (? & _).
Qed.
End at_queue.

Lemma queue_wf_ext m m' q l :
  (forall p f, m !! p = Some f -> p ∈ l -> exists f', m' !! p = Some f' /\ next f' = next f /\ prev f' = prev f) ->
  queue_wf m q l -> queue_wf m' q l.
Proof.
  intros H []. split; try done.
  - eapply seg_ext; [|done]. intros p f Hp Hin. destruct (H p f Hp Hin) as (f' & ? & ? & ?). by exists f'.
  - eapply backs_ext; [|done]. intros p f Hp Hin. destruct (H p f Hp Hin) as (f' & ? & ? & ?). by exists f'.
Qed.

(** One queue changes, and of the frames of the others no link. *)
Lemma queues_insert m m' tx ls (i : nat) q' l' :
  Forall2 (queue_wf m) tx ls -> queue_wf m' q' l' ->
  (forall j l p f, j <> i -> ls !! j = Some l -> p ∈ l -> m !! p = Some f ->
     exists f', m' !! p = Some f' /\ next f' = next f /\ prev f' = prev f) ->
  Forall2 (queue_wf m') (<[i := q']> tx) (<[i := l']> ls).
Proof.
  intros HF Hq Hs. apply Forall2_same_length_lookup_2; [by rewrite !length_insert; eapply Forall2_length|].
  intros j q l Hj Hl. destruct (decide (i = j)) as [<-|Hne].
  - apply list_lookup_insert_Some in Hj as [(_ & -> & _)|[? _]]; [|done].
    by apply list_lookup_insert_Some in Hl as [(_ & -> & _)|[? _]].
  - rewrite list_lookup_insert_ne in Hj by done. rewrite list_lookup_insert_ne in Hl by done.
    eapply queue_wf_ext; [|by eapply Forall2_lookup_lr]. intros p f Hp Hin. by eapply Hs.
Qed.

Lemma disjoint_queues {n np s ls pend ext} (i j : nat) l l' p :
  oq_wf n np s ls pend ext -> ls !! i = Some l -> ls !! j = Some l' -> p ∈ l -> p ∈ l' -> i = j.
Proof.
  intros Hwf Hi Hj Hp Hp'. destruct (decide (i = j)) as [|Hne]; [done|]. exfalso.
  destruct (concat_insert ls i l Hi) as (k & E & E').
  assert (p ∈ k) as Hk.
  { assert (p ∈ concat (<[i := []]> ls)) as Hx; [|by rewrite (E' []) in Hx].
    apply (elem_of_concat_lookup _ j l'); [|done]. by rewrite list_lookup_insert_ne. }
  pose proof (o_nodup _ _ _ _ _ _ (w_owns _ _ _ _ _ _ Hwf)) as Hnd. rewrite E in Hnd.
  apply NoDup_app in Hnd as [(_ & Hd & _)%NoDup_app _]. by eapply Hd.
Qed.

Lemma pend_not_queued {n np s ls pend ext} {i : nat} {l p} :
  oq_wf n np s ls pend ext -> ls !! i = Some l -> p ∈ pend -> p ∈ l -> False.
Proof.
  intros Hwf Hi Hp Hl. pose proof (o_nodup _ _ _ _ _ _ (w_owns _ _ _ _ _ _ Hwf)) as (_ & Hd & _)%NoDup_app.
  by eapply (Hd p); [eapply elem_of_concat_lookup|].
Qed.

Lemma mid_links m q l1 p l2 f :
  queue_wf m q (l1 ++ p :: l2) -> m !! p = Some f ->
  prev f = list.last l1 /\ next f = list.head l2 /\ seg next m (q_first q) l1 (Some p) /\
  seg next m (list.head l2) l2 None /\ backs prev m None l1 /\ backs prev m (Some p) l2.
Proof.
  intros [(u & Hs1 & -> & f1 & Hf1 & Hs2)%seg_app (Hb1 & (f2 & Hf2 & Hp) & Hb2)%backs_app _ _] Hf. simplify_eq.
  assert (next f1 = list.head l2) as Hn by (destruct l2; [done|by destruct Hs2]).
  rewrite <- Hn. split_and!; try done. rewrite Hp. unfold after. by destruct (list.last l1).
Qed.

Lemma last_app_head (l1 l2 : list nat) : list.last (l1 ++ l2) = match l2 with [] => list.last l1 | _ => list.last l2 end.
Proof. destruct l2; [by rewrite app_nil_r|]. rewrite list.last_app. by destruct (list.last (n :: l2)) eqn:E; [|apply list.last_None in E]. Qed.

Lemma unlink_run s (i : nat) q l1 p l2 f :
  overlay_tx s !! i = Some q -> queue_wf (frames s) q (l1 ++ p :: l2) -> frames s !! p = Some f ->
  unlink (Z.of_nat i) p f s =
  Ret (tt, q_set_tx (<[i := q_set_ends (list.head (l1 ++ l2)) (list.last (l1 ++ l2)) (q_length q) q]> (overlay_tx s))
             (q_set_frames (joined (list.last l1) (list.head l2) (frames s)) s)).
Proof.
  intros Hq Hw Hf. destruct (mid_links _ _ _ _ _ _ Hw Hf) as (Hp & Hn & Hs1 & Hs2 & Hb1 & Hb2).
  pose proof (qw_last _ _ _ Hw) as Hl. rewrite last_app_head in Hl. unfold unlink. rewrite Hp, Hn.
  assert (forall x, list.last l1 = Some x -> exists g, frames s !! x = Some g) as Hx.
  { intros x Hx%list.last_Some_elem_of. by apply (proj1 (list.Forall_forall _ _) (seg_dom _ _ _ _ _ Hs1)). }
  assert (forall x k, list.head l2 = Some x -> exists g, set_of k (list.last l1) (frames s) !! x = Some g) as Hy.
  { intros x k Hy%list.head_Some_elem_of. apply (proj1 (list.Forall_forall _ _) (seg_dom _ _ _ _ _ Hs2)) in Hy as [g Hg].
    rewrite set_of_lookup, Hg. case_decide; by eexists. }
  assert ((if decide (l1 = []) then q_first q = Some p else list.head (l1 ++ l2) = q_first q)) as Hfirst.
  { destruct l1 as [|x l1]; [by destruct Hs1|]. by destruct Hs1. }
  erewrite (QM_bind_Ret _ _ _ tt (q_set_tx (<[i := q_set_ends (list.head (l1 ++ l2)) (q_last q) (q_length q) q]> (overlay_tx s))
             (q_set_frames (set_of (set_next (list.head l2)) (list.last l1) (frames s)) s))).
  - set (q1 := q_set_ends (list.head (l1 ++ l2)) (q_last q) (q_length q) q).
    assert ((<[i := q1]> (overlay_tx s)) !! i = Some q1) as Hq1.
    { apply list_lookup_insert_eq. by eapply lookup_lt_Some. }
    rewrite last_app_head. destruct l2 as [|y l2]; cbn [list.head] in *; cbv iota.
    + erewrite QM_bind_Ret by (by apply queue_at_run). rewrite bool_decide_true by (simpl; by rewrite Hl).
      erewrite queue_set_run by exact Hq1. cbn [overlay_tx q_set_tx]. by rewrite list_insert_insert_eq.
    + destruct (Hy y (set_next (Some y)) eq_refl) as (g & Hg). erewrite frame_set_alter by exact Hg.
      do 3 f_equal. simpl. unfold q1. f_equal. rewrite Hl. simpl. done.
  - destruct (list.last l1) as [x|] eqn:El.
    + destruct (Hx x eq_refl) as (g & Hg). erewrite frame_set_alter by exact Hg. rewrite decide_False in Hfirst by (by intros ->).
      rewrite Hfirst. do 2 f_equal. rewrite list_insert_id; [by destruct s|]. rewrite Hq. by destruct q.
    + apply list.last_None in El as ->. simpl in Hfirst. erewrite QM_bind_Ret by (by apply queue_at_run).
      rewrite bool_decide_true by done. erewrite queue_set_run by exact Hq. by destruct s.
Qed.

Lemma unlinked_wf {n np s ls pend ext} (i : nat) q l1 p l2 f k :
  oq_wf n np s ls pend ext -> overlay_tx s !! i = Some q -> ls !! i = Some (l1 ++ p :: l2) -> frames s !! p = Some f ->
  let m := delete p (joined (list.last l1) (list.head l2) (frames s)) in
  let q' := q_set_ends (list.head (l1 ++ l2)) (list.last (l1 ++ l2)) (q_length q - 1) q in
  Forall2 (queue_wf m) (<[i := q']> (overlay_tx s)) (<[i := l1 ++ l2]> ls) /\
  (concat ls ++ pend ≡ₚ p :: k ->
   owns n m (freed f (q_heap s)) (refs_released (frame_refs f) (net_dests s)) k ext).
Proof.
  intros Hwf Hq Hi Hf m q'. destruct (wf_queue Hwf Hi) as (q0 & Hq0 & Hw). simplify_eq.
  destruct (mid_links _ _ _ _ _ _ Hw Hf) as (Hp & Hn & Hs1 & Hs2 & Hb1 & Hb2).
  pose proof (queue_nodup Hwf Hi) as Hnd. destruct (last_not_in _ _ _ Hnd) as (Hl & Hp1 & Hp2).
  assert (NoDup (l1 ++ l2)) as Hnd'.
  { rewrite <- Permutation_middle in Hnd. by apply NoDup_cons in Hnd as [_ ?]. }
  assert (list.head l2 <> Some p) as Hh by (intros ?%list.head_Some_elem_of; done).
  split.
  - apply (queues_insert (frames s)); [by eapply w_queues| |].
    + destruct (joined_list _ _ _ _ _ _ Hs1 Hs2 Hb1 Hb2 Hnd') as [Hs' Hb'].
      assert (forall x g, joined (list.last l1) (list.head l2) (frames s) !! x = Some g -> x ∈ l1 ++ l2 -> m !! x = Some g) as Hm.
      { intros x g Hg Hx. unfold m. rewrite lookup_delete_ne; [done|]. intros <-. by apply elem_of_app in Hx as [|]. }
      split; simpl; [| |done|].
      * eapply seg_ext; [|exact Hs']. intros x g Hg Hx. exists g. split; [by apply Hm|done].
      * eapply backs_ext; [|exact Hb']. intros x g Hg Hx. exists g. split; [by apply Hm|done].
      * rewrite (qw_length _ _ _ Hw), !length_app. simpl. lia.
    + intros j l x g Hj Hl' Hx Hg. exists g. split; [|done].
      assert (x ∉ l1 ++ p :: l2) as Hni by (intros Hx'; apply Hj; symmetry; by eapply (disjoint_queues i j)).
      apply not_elem_of_app in Hni as [Hx1 Hx2]. apply not_elem_of_cons in Hx2 as [Hxp Hx2].
      unfold m. rewrite lookup_delete_ne by done. rewrite joined_other; [done|..].
      * by intros ?%list.last_Some_elem_of.
      * by intros ?%list.head_Some_elem_of.
  - intros E. apply owns_free.
    + rewrite <- E. eapply owns_ext; [apply joined_bodies|]. by eapply w_owns.
    + rewrite joined_other by done. done.
Qed.

(** The neighbours of a frame no longer point to it. *)
Lemma neighbours_of {n np s ls pend ext} {i : nat} {l1 p l2 f} :
  oq_wf n np s ls pend ext -> ls !! i = Some (l1 ++ p :: l2) -> frames s !! p = Some f ->
  let m := joined (list.last l1) (list.head l2) (frames s) in
  (forall x, prev f = Some x -> exists g, m !! x = Some g /\ p <> x /\ next g <> Some p) /\
  (forall x, next f = Some x -> exists g, m !! x = Some g /\ p <> x /\ prev g <> Some p).
Proof.
  intros Hwf Hi Hf m. destruct (wf_queue Hwf Hi) as (q & Hq & Hw).
  destruct (mid_links _ _ _ _ _ _ Hw Hf) as (Hp & Hn & Hs1 & Hs2 & _).
  pose proof (queue_nodup Hwf Hi) as Hnd. destruct (last_not_in _ _ _ Hnd) as (Hl & Hp1 & Hp2).
  assert (list.head l2 <> Some p) as Hh by (intros ?%list.head_Some_elem_of; done).
  rewrite Hp, Hn. split; intros x Hx.
  - pose proof Hx as Hin%list.last_Some_elem_of. apply (proj1 (list.Forall_forall _ _) (seg_dom _ _ _ _ _ Hs1)) in Hin as [g Hg].
    eexists. split; [by apply joined_lookup|]. split; [congruence|]. simpl. by rewrite decide_True.
  - pose proof Hx as Hin%list.head_Some_elem_of. apply (proj1 (list.Forall_forall _ _) (seg_dom _ _ _ _ _ Hs2)) in Hin as [g Hg].
    eexists. split; [by apply joined_lookup|]. split; [congruence|]. simpl. by rewrite decide_True.
Qed.

Lemma remove_spec {n np s ls pend ext} (i : nat) l1 p l2 f :
  oq_wf n np s ls pend ext -> ls !! i = Some (l1 ++ p :: l2) -> frames s !! p = Some f ->
  exists s', overlay_queue_remove (Z.of_nat i) p s = Ret (list.head l2, s') /\
    oq_wf n np s' (<[i := l1 ++ l2]> ls) pend ext /\ undisturbed s s' /\
    bodies (frames s') = delete p (bodies (frames s)) /\
    net_dests s' = refs_released (frame_refs f) (net_dests s) /\ q_loop s' = q_loop s /\ q_ticks s' = q_ticks s.
Proof.
  intros Hwf Hi Hf. destruct (wf_queue Hwf Hi) as (q & Hq & Hw).
  destruct (mid_links _ _ _ _ _ _ Hw Hf) as (Hp & Hn & _).
  pose proof (queue_nodup Hwf Hi) as Hnd. destruct (last_not_in _ _ _ Hnd) as (Hl & Hp1 & Hp2).
  assert (list.head l2 <> Some p) as Hh by (intros ?%list.head_Some_elem_of; done).
  destruct (queue_perm (pend := pend) Hi) as (k & Ek & Ek').
  assert (concat ls ++ pend ≡ₚ p :: l1 ++ l2 ++ k) as E.
  { rewrite Ek, <- app_assoc. simpl. symmetry. apply Permutation_middle. }
  destruct (unlinked_wf i q l1 p l2 f (l1 ++ l2 ++ k) Hwf Hq Hi Hf) as [HF Ho]. specialize (Ho E).
  pose proof (w_owns _ _ _ _ _ _ Hwf) as [_ Hfr Hrefs _ Hheap].
  destruct (Hfr p) as (f0 & Hf0 & Hok); [rewrite E; apply list_elem_of_here|]. simplify_eq.
  rewrite (gather_perm _ _ _ _ E), (gather_cons _ _ _ _ _ Hf), <- app_assoc in Hrefs.
  rewrite (gather_perm _ _ _ _ E), (gather_cons _ _ _ _ _ Hf) in Hheap. apply Forall_app in Hheap as [Hheap _].
  unfold overlay_queue_remove. erewrite QM_bind_Ret by (by apply frame_run).
  erewrite QM_bind_Ret by (by apply unlink_run). set (m1 := joined (list.last l1) (list.head l2) (frames s)) in *.
  erewrite QM_bind_Ret by (apply queue_set_run; apply list_lookup_insert_eq; by eapply lookup_lt_Some).
  cbn [overlay_tx q_set_tx]. rewrite list_insert_insert_eq. simpl q_first. simpl q_last. simpl q_length.
  assert (m1 !! p = Some f) as Hm1 by (unfold m1; by rewrite joined_other).
  erewrite QM_bind_Ret by (by apply frame_run).
  destruct (release_all_run (destinations f) (gather frame_refs (frames s) (l1 ++ l2 ++ k) ++ ext) n
              (q_set_tx (<[i := q_set_ends (list.head (l1 ++ l2)) (list.last (l1 ++ l2)) (q_length q - 1) q]> (overlay_tx s))
                 (q_set_frames m1 s))) as [Hrel _]; [apply Hok|exact Hrefs|].
  erewrite QM_bind_Ret by exact Hrel. erewrite QM_bind_Ret by (by apply frame_set_run).
  set (s1 := q_set_frames _ _).
  assert (frames s1 = <[p := set_destinations [] f]> m1) as Es1 by done.
  assert (still_linked p s1 = Ret (false, s1)) as Hsl.
  { destruct (neighbours_of Hwf Hi Hf) as [Hpx Hnx]. apply (still_linked_run p (set_destinations [] f)).
    - rewrite Es1. apply lookup_insert_eq.
    - intros x Hx. destruct (Hpx x Hx) as (g & Hg & Hne & Hg'). exists g. by rewrite Es1, lookup_insert_ne.
    - intros x Hx. destruct (Hnx x Hx) as (g & Hg & Hne & Hg'). exists g. by rewrite Es1, lookup_insert_ne. }
  erewrite QM_bind_Ret; [|apply (frame_free_run p (set_destinations [] f)); [|exact Hsl| |exact Hheap]].
  2: { rewrite Es1. apply lookup_insert_eq. }
  2: { split; [apply Hok|constructor]. }
  rewrite Hn, Es1, delete_insert_eq. eexists. split; [done|].
  assert (bodies (delete p m1) = delete p (bodies (frames s))) as Hbod.
  { unfold bodies. rewrite fmap_delete. f_equal. apply joined_bodies. }
  split; [|split; [|done]].
  - assert (forall x g, delete p m1 !! x = Some g -> exists g0, frames s !! x = Some g0 /\ body g = body g0) as Hb.
    { intros x g Hg. apply (f_equal (fun y => y !! x)) in Hbod. unfold bodies in Hbod.
      rewrite lookup_fmap, Hg in Hbod. symmetry in Hbod. apply lookup_delete_Some in Hbod as [_ Hbod].
      rewrite lookup_fmap in Hbod. destruct (frames s !! x) as [g0|]; [|done]. exists g0. split; [done|]. simpl in Hbod. congruence. }
    split.
    + exact HF.
    + rewrite length_insert. by eapply w_five.
    + rewrite Ek'. rewrite <- app_assoc. exact Ho.
    + intros x g Hx Hg. cbn [frames q_set_frames] in Hg. apply lookup_delete_Some in Hg as [Hne Hg].
      assert (x ∉ l1 ++ p :: l2) as Hni by (intros ?; by eapply pend_not_queued).
      apply not_elem_of_app in Hni as [? [? ?]%not_elem_of_cons].
      unfold m1 in Hg. rewrite joined_other in Hg; [by eapply w_pend|..].
      * by intros ?%list.last_Some_elem_of.
      * by intros ?%list.head_Some_elem_of.
    + intros j l x g Hj Hx (g0 & Hg0 & Eb)%Hb. change (mdp g) with (mdp (body g)). rewrite Eb. change (mdp (body g0)) with (mdp g0).
      apply list_lookup_insert_Some in Hj as [(-> & <- & _)|[_ Hj]]; [|by eapply w_number].
      eapply (w_number _ _ _ _ _ _ Hwf j _ x); [exact Hi| |exact Hg0]. apply elem_of_app.
      apply elem_of_app in Hx as [|]; [by left|right]. by apply list_elem_of_further.
    + exact (w_alarm _ _ _ _ _ _ Hwf).
  - split; try done. simpl. by eapply settings_insert.
Qed.
