(* ===== verification/OverlayQueueTime.v ===== *)
(** * The transmit queues: changing frames, and the time to send *)

From stdpp Require Import base tactics list fin_maps gmap.
From Stdlib Require Import ZArith Lia.
From S2P Require Import Prelude Memory OverlayBuffer Limit OverlayAddress OverlayPacket FdQueue FdQueueLists.
From S2P Require Import FdQueueSpec RadioLink Linked OverlayQueue OverlayQueueAlarm OverlayQueueSpec.
From S2P Require Import OverlayQueueRemove.

Local Open Scope Z_scope.
Implicit Types (s : oq_state) (m : gmap nat overlay_frame) (ds : gmap nat network_destination).

(** ** Changing a frame *)

Lemma owns_update n m h ds ds' p f f' k ext :
  owns n m h ds (p :: k) ext -> m !! p = Some f -> frame_block f' = frame_block f -> frame_ok f' ->
  counted n (frame_refs f' ++ gather frame_refs m k ++ ext) ds' ->
  owns n (<[p := f']> m) h ds' (p :: k) ext.
Proof.
  intros [Hnd Hf _ Hb Hh] Hp Eb Hok Hr. pose proof Hnd as [Hpk _]%NoDup_cons.
  rewrite (gather_cons _ _ _ _ _ Hp) in Hb, Hh.
  assert (forall T (g : overlay_frame -> list T), gather g (<[p := f']> m) (p :: k) = g f' ++ gather g m k) as Hg.
  { intros T g. rewrite (gather_cons g _ p f') by apply lookup_insert_eq. f_equal. apply gather_ext.
    intros q Hq. rewrite lookup_insert_ne; [done|]. by intros ->. }
  split; rewrite ?Hg, ?Eb, <- ?app_assoc; try done.
  intros q Hq. rewrite lookup_insert. case_decide; [by eexists|]. by apply Hf.
Qed.

Lemma owned_perm (l : list nat) p : p ∈ l -> exists k, l ≡ₚ p :: k.
Proof. intros (l1 & l2 & ->)%list_elem_of_split. exists (l1 ++ l2). symmetry. apply Permutation_middle. Qed.

(** A frame changes in nothing the lists depend on. *)
Lemma wf_update {n np s} s' {ls pend ext} p f f' :
  oq_wf n np s ls pend ext -> p ∈ concat ls ++ pend -> frames s !! p = Some f ->
  frames s' = <[p := f']> (frames s) -> overlay_tx s' = overlay_tx s -> q_heap s' = q_heap s ->
  next f' = next f -> prev f' = prev f -> mf_queue (mdp f') = mf_queue (mdp f) ->
  frame_block f' = frame_block f -> frame_ok f' ->
  (forall k, concat ls ++ pend ≡ₚ p :: k ->
     counted n (frame_refs f' ++ gather frame_refs (frames s) k ++ ext) (net_dests s')) ->
  (exists e, alarm_ok np (q_loop s') e /\ armed e) ->
  oq_wf n np s' ls pend ext.
Proof.
  intros [Hq H5 Ho Hp Hn _] Hin Hf Ef Et Eh En Ep Eq Eb Hok Hr Ha. split; rewrite ?Ef, ?Et; try done.
  - eapply Forall2_impl; [exact Hq|]. intros q l. apply queue_wf_ext. intros x g Hx _. rewrite lookup_insert.
    case_decide; [|by exists g]. simplify_eq. by eexists.
  - rewrite Eh. destruct (owned_perm _ _ Hin) as [k Ek]. rewrite Ek in Ho |- *. eapply owns_update; try done. by apply Hr.
  - intros x g Hx. rewrite lookup_insert. case_decide; [|by apply Hp]. intros [= <-]. simplify_eq. rewrite Ep, En. by apply (Hp x f).
  - intros i l x g Hi Hx. rewrite lookup_insert. case_decide; [|by eapply Hn]. intros [= <-]. simplify_eq. rewrite Eq. by eapply Hn.
Qed.

(** ** Destinations that change in other things than their references *)

Definition shape (nd : network_destination) : Z * option nat * Z :=
  (_ref_count nd, nd_interface nd, nd_encapsulation nd).
Definition same_shape ds ds' : Prop := shape <$> ds' = shape <$> ds.

Lemma same_shape_trans ds1 ds2 ds3 : same_shape ds1 ds2 -> same_shape ds2 ds3 -> same_shape ds1 ds3.
Proof. unfold same_shape. congruence. Qed.
Lemma same_shape_insert ds d nd nd' : ds !! d = Some nd -> shape nd' = shape nd -> same_shape ds (<[d := nd']> ds).
Proof. intros Hd E. unfold same_shape. rewrite fmap_insert, E, insert_id; [done|]. by rewrite lookup_fmap, Hd. Qed.
Lemma same_shape_lookup ds ds' d nd :
  same_shape ds ds' -> ds !! d = Some nd -> exists nd', ds' !! d = Some nd' /\ shape nd' = shape nd.
Proof.
  intros E Hd. apply (f_equal (fun x => x !! d)) in E. rewrite !lookup_fmap, Hd in E.
  destruct (ds' !! d) as [nd'|]; [|done]. exists nd'. split; [done|]. simpl in E. congruence.
Qed.
Lemma counted_shape n l ds ds' : same_shape ds ds' -> counted n l ds -> counted n l ds'.
Proof.
  intros E H d Hd. destruct (H d Hd) as (nd & Hnd & Hi & Hu).
  destruct (same_shape_lookup _ _ _ _ E Hnd) as (nd' & Hnd' & Es). injection Es as Er Ei _. exists nd'.
  split; [done|]. unfold interface_ok. by rewrite Er, Ei.
Qed.

Lemma wf_shape {n np s} s' {ls pend ext} :
  oq_wf n np s ls pend ext -> frames s' = frames s -> overlay_tx s' = overlay_tx s -> q_heap s' = q_heap s ->
  same_shape (net_dests s) (net_dests s') -> (exists e, alarm_ok np (q_loop s') e /\ armed e) ->
  oq_wf n np s' ls pend ext.
Proof.
  intros [Hq H5 [Hnd Hf Hr Hb Hh] Hp Hn _] Ef Et Eh Es Ha. split; rewrite ?Ef, ?Et, ?Eh; try done.
  split; try done. by eapply counted_shape.
Qed.

(** ** The time to send *)

(** What the clock and the limits of the destinations change. *)
Definition timed s ds (t : nat) (l : fq_state) : oq_state :=
  OQState (frames s) (overlay_tx s) (mdp_sequence s) ds l (q_mesh s) (q_heap s) (sent_packets s) (wifi_poll s) t.

Lemma timed_undisturbed s ds t l : undisturbed s (timed s ds t l).
Proof. by split. Qed.

Lemma limit_next_later st now : 0 <= burst_size st -> now <= (limit_next_allowed st now).1.
Proof.
  intros Hb. unfold limit_next_allowed, update_limit_state.
  destruct (Z.eqb_spec (burst_size st) 0); [simpl; lia|]. destruct (Z.ltb_spec now (next_interval st)); simpl orb; cbv iota.
  - destruct (_ <? _); simpl; lia.
  - simpl. rewrite (proj2 (Z.ltb_lt 0 _)) by lia. simpl. lia.
Qed.

Definition limits_ok ds : Prop := map_Forall (fun _ nd => 0 <= burst_size (transfer_limit nd)) ds.

Section time.
Context (clock : nat -> Z) (next_packet : nat) (overlay_interfaces : list queue_interface).
Abbreviation n := (length overlay_interfaces).

(** The radio of the interface of a destination has nothing to send. *)
Definition idle_radio ds (x : packet_destination) : Prop :=
  exists d nd i qi, pd_destination x = Some d /\ ds !! d = Some nd /\ nd_interface nd = Some i /\
    overlay_interfaces !! i = Some qi /\ qi_busy qi = false.
(** Times are positive, and limits are not negative. *)
Definition timely ds : Prop := (forall k, 0 < clock k) /\ limits_ok ds.

Lemma alive_interface l ds d :
  counted n l ds -> d ∈ l -> exists nd i qi, ds !! d = Some nd /\ nd_interface nd = Some i /\
    overlay_interfaces !! i = Some qi /\ interface_of overlay_interfaces nd = Ret qi.
Proof.
  intros H Hd. destruct (H d Hd) as (nd & Hnd & (i & Hi & Hlt) & _).
  destruct (lookup_lt_is_Some_2 overlay_interfaces i Hlt) as [qi Hqi].
  exists nd, i, qi. unfold interface_of. rewrite Hi. simpl. by rewrite Hqi.
Qed.

Lemma limit_shape nd lim : shape (nd_set_limit lim nd) = shape nd.
Proof. done. Qed.

Lemma idle_radio_shape ds ds' x : same_shape ds ds' -> idle_radio ds x -> idle_radio ds' x.
Proof.
  intros E (d & nd & i & qi & Hd & Hnd & Hi & Hqi & Hb).
  destruct (same_shape_lookup _ _ _ _ E Hnd) as (nd' & Hnd' & Es). injection Es as _ Ei _.
  exists d, nd', i, qi. by rewrite Ei.
Qed.

Lemma limit_burst st now : burst_size (limit_next_allowed st now).2 = burst_size st.
Proof.
  unfold limit_next_allowed, update_limit_state. destruct (_ =? _); [done|].
  destruct (_ || _); destruct (_ <? _); done.
Qed.

Lemma next_allowed_spec k l acc s :
  Forall (fun x => is_Some (pd_destination x)) l -> counted n (refs l ++ k) (net_dests s) ->
  exists t ds tick, next_allowed clock overlay_interfaces l acc s = Ret (t, timed s ds tick (q_loop s)) /\
    same_shape (net_dests s) ds /\
    (timely (net_dests s) -> timely ds /\ (0 <= acc -> 0 <= t /\ (acc <> 0 \/ Exists (idle_radio (net_dests s)) l -> t <> 0))).
Proof.
  revert k acc s. induction l as [|x l IH]; intros k acc s Hl Hc.
  - exists acc, (net_dests s), (q_ticks s). split; [by destruct s|]. split; [done|]. intros Ht. split; [done|].
    intros Ha. split; [done|]. intros [?|H]; [done|]. by apply Exists_nil in H.
  - apply Forall_cons in Hl as [[d Hd] Hl].
    assert (refs (x :: l) = d :: refs l) as Er by (unfold refs; simpl; by rewrite Hd). rewrite Er in Hc.
    destruct (alive_interface _ _ d Hc) as (nd & i & qi & Hnd & Hi & Hqi & Hif); [apply list_elem_of_here|].
    assert (counted n (refs l ++ d :: k) (net_dests s)) as Hc' by (by rewrite <- Permutation_middle).
    simpl. rewrite Hd. erewrite QM_bind_Ret by apply q_out_run. erewrite QM_bind_Ret by (by apply net_dest_run).
    rewrite Hif. erewrite QM_bind_Ret by apply q_out_run. destruct (qi_busy qi) eqn:Eb.
    + destruct (IH (d :: k) acc s Hl Hc') as (t & ds & tick & Hr & Hsh & Ht). exists t, ds, tick.
      split_and!; try done. intros Hy. destruct (Ht Hy) as [? Ht']. split; [done|]. intros Ha.
      destruct (Ht' Ha) as [? Hne]. split; [done|]. intros [?|Hx]; apply Hne; [by left|].
      apply Exists_cons in Hx as [Hx|]; [|by right]. destruct Hx as (d' & nd' & i' & qi' & ? & ? & ? & ? & ?). congruence.
    + erewrite QM_bind_Ret by done. destruct (limit_next_allowed (transfer_limit nd) (clock (q_ticks s))) as [t0 lim] eqn:El.
      erewrite QM_bind_Ret by (by apply net_dest_set_run).
      set (s1 := q_set_dests _ _).
      assert (same_shape (net_dests s) (net_dests s1)) as Hsh1 by (by eapply same_shape_insert).
      match goal with |- context [next_allowed _ _ l ?a s1] => set (acc' := a) end.
      destruct (IH (d :: k) acc' s1 Hl) as (t & ds & tick & Hr & Hsh & Ht); [by eapply counted_shape|].
      exists t, ds, tick. split; [done|]. split; [by eapply same_shape_trans|]. intros [Hck Hbs].
      assert (timely (net_dests s1)) as Hy1.
      { split; [done|]. apply map_Forall_insert_2; [|done]. simpl. replace lim with (limit_next_allowed (transfer_limit nd) (clock (q_ticks s))).2 by (by rewrite El).
        rewrite limit_burst. by apply (Hbs d). }
      destruct (Ht Hy1) as [? Ht']. split; [done|]. intros Ha.
      assert (0 < acc') as Hacc.
      { pose proof (limit_next_later (transfer_limit nd) (clock (q_ticks s)) (Hbs d nd Hnd)) as Hle. rewrite El in Hle. simpl in Hle.
        specialize (Hck (q_ticks s)). unfold acc'. repeat zcase; simpl; lia. }
      destruct (Ht' ltac:(lia)) as [? Hne]. split; [done|]. intros _. apply Hne. left. lia.
Qed.

(** The frame has a destination by now that the radio can be used for. *)
Lemma calc_queue_time_spec {np s ls pend ext} p f :
  oq_wf n np s ls pend ext -> np = next_packet -> p ∈ concat ls ++ pend -> frames s !! p = Some f ->
  0 <= mf_queue (mdp f) < OQ_MAX ->
  exists ds t l, overlay_calc_queue_time clock next_packet overlay_interfaces p s = Ret (tt, timed s ds t l) /\
    oq_wf n np (timed s ds t l) ls pend ext /\ same_shape (net_dests s) ds /\
    (timely (net_dests s) -> timely ds /\
      (Exists (idle_radio (net_dests s)) (destinations f) -> exists e, ents l !! np = Some e /\ alarm e <> 0 /\ armed e)).
Proof.
  intros Hwf -> Hin Hf Hm. destruct (owned_perm _ _ Hin) as [k Ek].
  pose proof (w_owns _ _ _ _ _ _ Hwf) as [_ Hfr Hr _ _].
  destruct (Hfr p Hin) as (f0 & Hf0 & (b & Hb & _) & Hdst). simplify_eq.
  rewrite (gather_perm _ _ _ _ Ek), (gather_cons _ _ _ _ _ Hf), <- app_assoc in Hr.
  destruct (w_alarm _ _ _ _ _ _ Hwf) as (e & Hal & Harm).
  unfold overlay_calc_queue_time. erewrite QM_bind_Ret by (by apply frame_run).
  assert (exists t ds tick, (if (0 <? length (destinations f))%nat
      then t ← next_allowed clock overlay_interfaces (destinations f) 0; mret (if t =? 0 then None else Some t)
      else mret (match mf_destination (mdp f) with None => None | Some _ => Some 0 end)) s
      = Ret (t, timed s ds tick (q_loop s)) /\ same_shape (net_dests s) ds /\
      (timely (net_dests s) -> timely ds /\ (Exists (idle_radio (net_dests s)) (destinations f) -> exists x, t = Some x /\ 0 < x)))
    as (t & ds & tick & Hrun & Hsh & Ht).
  { destruct (Nat.ltb_spec 0 (length (destinations f))) as [Hlen|Hlen].
    - destruct (next_allowed_spec _ (destinations f) 0 s Hdst Hr) as (t & ds & tick & Hrun & Hsh & Ht).
      eexists _, ds, tick. split; [by erewrite QM_bind_Ret by exact Hrun|]. split; [done|].
      intros Hy. destruct (Ht Hy) as [? Ht']. split; [done|]. intros Hx. destruct (Ht' ltac:(lia)) as [? Hne].
      exists t. rewrite (proj2 (Z.eqb_neq t 0)) by auto. split; [done|]. specialize (Hne (or_intror Hx)). lia.
    - exists (match mf_destination (mdp f) with None => None | Some _ => Some 0 end), (net_dests s), (q_ticks s).
      split; [by destruct s|]. split; [done|]. intros Hy. split; [done|]. intros Hx.
      apply Exists_exists in Hx as (x & Hx & _). apply list_elem_of_lookup_1 in Hx as [j Hj%lookup_lt_Some]. lia. }
  erewrite QM_bind_Ret by exact Hrun. clear Hrun. set (s1 := timed _ _ _ _).
  assert (oq_wf n next_packet s1 ls pend ext) as Hwf1 by (apply (wf_shape s1 Hwf); eauto).
  destruct t as [t|].
  - destruct (lookup_lt_is_Some_2 (overlay_tx s) (Z.to_nat (mf_queue (mdp f)))) as [q Hq].
    { rewrite (Forall2_length _ _ _ (w_queues _ _ _ _ _ _ Hwf)), (w_five _ _ _ _ _ _ Hwf). lia. }
    erewrite QM_bind_Ret; [|rewrite <- (Z2Nat.id (mf_queue (mdp f))) by lia; by apply queue_at_run].
    rewrite Hb. erewrite QM_bind_Ret by apply q_out_run.
    match goal with |- context [overlay_queue_schedule_next _ ?x] => set (t' := x) end.
    destruct (schedule_next_spec next_packet (q_loop s1) e t' Hal Harm) as (l' & e' & Hrun & Hal' & Harm' & Ha' & _).
    exists ds, tick, l'. unfold q_fq. rewrite Hrun. split; [done|]. split; [|split; [done|]].
    + apply (wf_shape _ Hwf); eauto.
    + intros Hy. destruct (Ht Hy) as [? Ht']. split; [done|]. intros (x & [= <-] & Hpos)%Ht'.
      exists e'. split; [apply Hal'|]. split; [|done]. rewrite Ha'. assert (0 < t') by (unfold t'; repeat zcase; simpl; lia).
      destruct (Z.eqb_spec (alarm e) 0); lia.
  - exists ds, tick, (q_loop s). split; [done|]. split; [done|]. split; [done|]. intros Hy. destruct (Ht Hy) as [? Ht']. split; [done|].
    by intros (x & ? & _)%Ht'.
Qed.
End time.
