(* ===== verification/OverlayQueueAck.v ===== *)
(** * The transmit queues: acknowledgements

    [overlay_queue_ack] does to each queued frame what [ack_result] says, and
    keeps the frames that are left in their order. *)

From stdpp Require Import base tactics list fin_maps gmap.
From Stdlib Require Import ZArith Lia.
From S2P Require Import Prelude Memory OverlayBuffer Limit OverlayAddress OverlayPacket FdQueue FdQueueLists.
From S2P Require Import FdQueueSpec RadioLink Linked OverlayQueue OverlayQueueAlarm OverlayQueueSpec.
From S2P Require Import OverlayQueueRemove OverlayQueueTime.

Local Open Scope Z_scope.
Implicit Types (s : oq_state) (m : gmap nat overlay_frame) (ds : gmap nat network_destination).

(** ** A destination of a frame *)

(** The last element takes the place of number [j]. *)
Definition swap_remove {T} (j : nat) (l : list T) : list T :=
  match list.last l with
  | Some y => let k := (length l - 1)%nat in take k (if (j <? k)%nat then <[j := y]> l else l)
  | None => []
  end.

Lemma list_at_perm {T} (l : list T) (j : nat) x :
  l !! j = Some x -> exists k, l ≡ₚ x :: k /\ forall y, <[j := y]> l ≡ₚ y :: k.
Proof.
  revert j. induction l as [|z l IH]; intros [|j] Hj; simplify_eq/=; [by exists l|].
  destruct (IH j Hj) as (k & E & E'). exists (z :: k). split; [rewrite E|intros y; rewrite E']; apply Permutation_swap.
Qed.

Lemma swap_remove_perm {T} (j : nat) (l : list T) x : l !! j = Some x -> l ≡ₚ x :: swap_remove j l.
Proof.
  intros Hj. unfold swap_remove. destruct (list.last l) as [y|] eqn:El; [|by apply list.last_None in El as ->].
  apply list.last_Some in El as [l0 ->]. rewrite length_app. simpl length.
  replace (length l0 + 1 - 1)%nat with (length l0) by lia. destruct (Nat.ltb_spec j (length l0)) as [Hlt|Hge].
  - rewrite insert_app_l by done. rewrite take_app_length'; [|by rewrite length_insert].
    rewrite lookup_app_l in Hj by done. destruct (list_at_perm _ _ _ Hj) as (k & E & E').
    rewrite (E' y). rewrite E. rewrite Permutation_app_comm. simpl. apply Permutation_swap.
  - rewrite take_app_length. pose proof (lookup_lt_Some _ _ _ Hj) as Hlt. rewrite length_app in Hlt. simpl in Hlt.
    replace j with (length l0) in Hj by lia. rewrite list_lookup_middle in Hj by done. simplify_eq.
    by rewrite Permutation_app_comm.
Qed.

Lemma swap_remove_lookup {T} (l : list T) (j : nat) x :
  l !! j = Some x -> exists y, l !! (length l - 1)%nat = Some y /\ list.last l = Some y.
Proof.
  intros Hj%lookup_lt_Some. destruct (list.last l) as [y|] eqn:El; [|apply list.last_None in El as ->; simpl in Hj; lia].
  exists y. split; [|done]. rewrite <- El, list.last_lookup. f_equal. lia.
Qed.

Lemma refs_perm l l' : l ≡ₚ l' -> refs l ≡ₚ refs l'.
Proof. intros E. unfold refs. by rewrite E. Qed.

Lemma remove_destination_spec {n np s ls pend ext} p f (j : nat) x :
  oq_wf n np s ls pend ext -> p ∈ concat ls ++ pend -> frames s !! p = Some f -> destinations f !! j = Some x ->
  exists s', remove_destination p j s = Ret (tt, s') /\ oq_wf n np s' ls pend ext /\ undisturbed s s' /\
    frames s' = <[p := set_destinations (swap_remove j (destinations f)) f]> (frames s).
Proof.
  intros Hwf Hin Hf Hj. destruct (owned_perm _ _ Hin) as [k0 Ek0].
  pose proof (w_owns _ _ _ _ _ _ Hwf) as [_ Hfr Hr _ _]. destruct (Hfr p Hin) as (f0 & Hf0 & Hok). simplify_eq.
  pose proof Hok as [Hpay Hdst]. pose proof (swap_remove_perm _ _ _ Hj) as Hperm.
  pose proof Hdst as [d Hd]%(Forall_lookup_1 _ _ j x); [|done].
  assert (frame_refs f ≡ₚ d :: refs (swap_remove j (destinations f))) as Er.
  { unfold frame_refs. rewrite (refs_perm _ _ Hperm). unfold refs. simpl. by rewrite Hd. }
  assert (forall k, concat ls ++ pend ≡ₚ p :: k ->
      counted n (d :: refs (swap_remove j (destinations f)) ++ gather frame_refs (frames s) k ++ ext) (net_dests s)) as Hc.
  { intros k Ek. rewrite (gather_perm _ _ _ _ Ek), (gather_cons _ _ _ _ _ Hf), <- app_assoc in Hr. by rewrite Er in Hr. }
  unfold remove_destination. erewrite QM_bind_Ret by (by apply frame_run).
  rewrite Hj. erewrite QM_bind_Ret by apply q_out_run. rewrite Hd. erewrite QM_bind_Ret by apply q_out_run.
  erewrite QM_bind_Ret by (eapply release_destination_run, (Hc _ Ek0)).
  destruct (swap_remove_lookup _ _ _ Hj) as (y & Hy & Hlast). rewrite Hy. erewrite QM_bind_Ret by apply q_out_run.
  erewrite frame_set_run by exact Hf. eexists. split; [done|].
  assert (take (length (destinations f) - 1)
            (if (j <? length (destinations f) - 1)%nat then <[j := y]> (destinations f) else destinations f)
          = swap_remove j (destinations f)) as -> by (unfold swap_remove; by rewrite Hlast).
  split; [|split; [done|done]].
  eapply (wf_update _ p f); try done.
  - split; [done|]. rewrite Hperm in Hdst. by apply Forall_cons in Hdst as [_ ?].
  - intros k Ek. apply counted_release. by apply Hc.
  - exact (w_alarm _ _ _ _ _ _ Hwf).
Qed.

(** ** What an acknowledgement says *)

(** Packet [seq] has arrived, and packet [seq - 1 - k] for every bit [k] of the
    mask; packets are numbered modulo 256. *)
Definition acknowledges (mask seq sent : Z) : bool :=
  (sent mod 256 =? seq mod 256) ||
  existsb (fun k => Z.testbit mask k && (sent mod 256 =? (seq - 1 - k) mod 256)) (Z.of_nat <$> List.seq 0 32).

Lemma is_acked_acknowledges mask seq sent :
  is_acked mask (Z.land (seq - sent) 0xFF) = acknowledges mask seq sent.
Proof.
  change 0xFF with (Z.ones 8). rewrite Z.land_ones by lia. change (2 ^ 8) with 256. unfold is_acked, acknowledges.
  assert (((seq - sent) mod 256 =? 0) = (sent mod 256 =? seq mod 256)) as -> by (repeat zcase; dmlia || done).
  destruct (Z.eqb_spec (sent mod 256) (seq mod 256)) as [|Hne]; [done|]. cbn [orb].
  apply eq_true_iff_eq. rewrite andb_true_iff, Z.leb_le, existsb_exists. split.
  - intros [Hle Hbit]. exists ((seq - sent) mod 256 - 1). split.
    + apply list_elem_of_In, list_elem_of_fmap. exists (Z.to_nat ((seq - sent) mod 256 - 1)).
      rewrite elem_of_seq. split; dmlia.
    + rewrite Hbit. cbn [andb]. apply Z.eqb_eq. dmlia.
  - intros (k & Hk & [Hbit Hs%Z.eqb_eq]%andb_true_iff).
    apply list_elem_of_In, list_elem_of_fmap in Hk as (j & -> & Hj%elem_of_seq).
    assert ((seq - sent) mod 256 = Z.of_nat j + 1) as -> by dmlia.
    split; [lia|]. by replace (Z.of_nat j + 1 - 1) with (Z.of_nat j) by lia.
Qed.

(** ** One frame *)

Section ack.
Context (clock : nat -> Z) (next_packet : nat) (overlay_interfaces : list queue_interface).
Context (neighbour : option nat) (d : nat) (ack_mask ack_seq : Z).
Abbreviation n := (length overlay_interfaces).
Implicit Types f : overlay_frame.

(** Sent to one subscriber. *)
Definition addressed f : bool := match mf_destination (mdp f) with Some _ => true | None => false end.

(** The destination of the frame that an acknowledgement from the neighbour is
    about: where it is, and what was sent to it. *)
Definition sent_there f : option (nat * packet_destination) :=
  j ← find_destination d (destinations f) (length (destinations f));
  x ← destinations f !! j;
  if (0 <=? sent_sequence x) && (bool_decide (pd_next_hop x = neighbour) || negb (addressed f))
  then Some (j, x) else None.

Definition seq_delta (x : packet_destination) : Z := Z.land (ack_seq - sent_sequence x) 0xFF.

(** [None] for a frame that needs no longer be unacked. *)
Definition ack_result (now : Z) f : option overlay_frame :=
  match sent_there f with
  | Some (j, x) =>
      if acknowledges ack_mask ack_seq (sent_sequence x) then
        if addressed f || (length (destinations f) <=? 1)%nat then None
        else Some (set_destinations (swap_remove j (destinations f)) f)
      else if (seq_delta x <? 128) && addressed f && (now <? delay_until f) then Some (set_delay_until now f)
      else Some f
  | None => Some f
  end.

Lemma find_destination_lookup l k j : find_destination d l k = Some j -> exists x, l !! j = Some x.
Proof.
  induction k as [|k IH]; simpl; [done|]. case_bool_decide as E; [|done]. intros [= <-].
  destruct (l !! k) as [x|]; [by exists x|done].
Qed.

Lemma ack_result_links now f f' : ack_result now f = Some f' -> next f' = next f /\ prev f' = prev f.
Proof. unfold ack_result. intros H. repeat case_match; by simplify_eq/=. Qed.

(** Turns of the loop that keep the frame. *)
Definition keep_turn (now : Z) p f : QM unit :=
  match sent_there f with
  | Some (j, x) =>
      if acknowledges ack_mask ack_seq (sent_sequence x) then remove_destination p j
      else if (seq_delta x <? 128) && addressed f && (now <? delay_until f) then
        frame_set p (set_delay_until now);; overlay_calc_queue_time clock next_packet overlay_interfaces p
      else mret tt
  | None => mret tt
  end.

Definition frame_rtt (now rtt : Z) f : Z :=
  match sent_there f with
  | Some (j, x) =>
      if acknowledges ack_mask ack_seq (sent_sequence x) then
        let this_rtt := Z.max 10 (s32 (now - transmit_time x)) in
        if (rtt =? 0) || (this_rtt <? rtt) then this_rtt else rtt
      else rtt
  | None => rtt
  end.

Lemma ack_frame_run now (i : Z) rtt p f s :
  frames s !! p = Some f ->
  ack_frame clock next_packet overlay_interfaces neighbour d ack_mask ack_seq now i rtt p s =
  match ack_result now f with
  | None => (nx ← overlay_queue_remove i p; mret (nx, frame_rtt now rtt f)) s
  | Some _ => (keep_turn now p f;; g ← frame p; mret (next g, frame_rtt now rtt f)) s
  end.
Proof.
  intros Hf. unfold ack_frame, ack_result, keep_turn, frame_rtt, sent_there.
  erewrite QM_bind_Ret by (by apply frame_run). fold (addressed f).
  destruct (find_destination d (destinations f) (length (destinations f))) as [j|] eqn:Ej; [|done].
  destruct (find_destination_lookup _ _ _ Ej) as [x Hx]. simpl. rewrite Hx. simpl.
  rewrite QM_bind_assoc. erewrite QM_bind_Ret by apply q_out_run. rewrite is_acked_acknowledges. fold (seq_delta x).
  destruct (_ && _); [|done]. destruct (acknowledges _ _ _).
  - destruct (_ || _); by rewrite QM_bind_assoc.
  - destruct (_ && _); [|done]. rewrite !QM_bind_assoc, !(QM_bind_Ret _ _ _ _ _ (frame_set_run p f _ s Hf)). by rewrite QM_bind_assoc.
Qed.

Lemma keep_turn_spec {s ls pend ext} now (i : nat) l p f f' :
  oq_wf n next_packet s ls pend ext -> ls !! i = Some l -> p ∈ l -> frames s !! p = Some f ->
  ack_result now f = Some f' ->
  exists s', keep_turn now p f s = Ret (tt, s') /\ oq_wf n next_packet s' ls pend ext /\ undisturbed s s' /\
    frames s' = <[p := f']> (frames s).
Proof.
  intros Hwf Hi Hp Hf. unfold ack_result, keep_turn.
  assert (p ∈ concat ls ++ pend) as Hin by (apply elem_of_app; left; by eapply elem_of_concat_lookup).
  assert (exists s', (mret tt : QM unit) s = Ret (tt, s') /\ oq_wf n next_packet s' ls pend ext /\ undisturbed s s' /\
            frames s' = <[p := f]> (frames s)) as Hsame by (exists s; split_and!; [done|done|done|by rewrite insert_id]).
  destruct (sent_there f) as [[j x]|] eqn:Est; [|by intros [= <-]].
  destruct (acknowledges _ _ _).
  - destruct (_ || _); [done|]. intros [= <-]. unfold sent_there in Est.
    destruct (find_destination _ _ _) as [j'|]; [|done]. simpl in Est.
    destruct (destinations f !! j') as [x'|] eqn:Hj; [|done]. simpl in Est. destruct (_ && _); [|done]. simplify_eq.
    destruct (remove_destination_spec p f j x Hwf Hin Hf Hj) as (s' & Hr & Hwf' & Hu & Ef). by exists s'.
  - destruct (_ && _); [|by intros [= <-]]. intros [= <-]. erewrite QM_bind_Ret by (by apply frame_set_run).
    set (s1 := q_set_frames _ s).
    assert (oq_wf n next_packet s1 ls pend ext) as Hwf1.
    { pose proof (w_owns _ _ _ _ _ _ Hwf) as [_ Hfr Hr _ _]. destruct (Hfr p Hin) as (f0 & Hf0 & Hok). simplify_eq.
      eapply (wf_update s1 p f (set_delay_until now f)); try done; [|exact (w_alarm _ _ _ _ _ _ Hwf)].
      intros k Ek. by rewrite (gather_perm _ _ _ _ Ek), (gather_cons _ _ _ _ _ Hf), <- app_assoc in Hr. }
    destruct (calc_queue_time_spec clock next_packet overlay_interfaces p (set_delay_until now f) Hwf1 eq_refl Hin)
      as (ds & t & l' & Hr & Hwf' & _).
    { apply lookup_insert_eq. }
    { simpl. rewrite (w_number _ _ _ _ _ _ Hwf i l p f Hi Hp Hf).
      apply lookup_lt_Some in Hi. rewrite (w_five _ _ _ _ _ _ Hwf) in Hi. unfold OQ_MAX in *. lia. }
    exists (timed s1 ds t l'). split_and!; try done.
Qed.

Lemma ack_frame_spec {s ls pend ext} now (i : nat) l1 p l2 f rtt :
  oq_wf n next_packet s ls pend ext -> ls !! i = Some (l1 ++ p :: l2) -> frames s !! p = Some f ->
  exists s',
    ack_frame clock next_packet overlay_interfaces neighbour d ack_mask ack_seq now (Z.of_nat i) rtt p s
      = Ret ((list.head l2, frame_rtt now rtt f), s') /\ undisturbed s s' /\
    oq_wf n next_packet s' (<[i := l1 ++ match ack_result now f with Some _ => p :: l2 | None => l2 end]> ls) pend ext /\
    (forall x, body <$> frames s' !! x = if decide (x = p) then body <$> ack_result now f else body <$> frames s !! x).
Proof.
  intros Hwf Hi Hf. rewrite (ack_frame_run _ _ _ _ f) by done.
  destruct (ack_result now f) as [f'|] eqn:Ea.
  - destruct (keep_turn_spec now i (l1 ++ p :: l2) p f f' Hwf Hi) as (s' & Hr & Hwf' & Hu & Ef); [|done..|].
    { apply elem_of_app. right. apply list_elem_of_here. }
    assert (frames s' !! p = Some f') as Hf' by (rewrite Ef; apply lookup_insert_eq).
    destruct (wf_queue Hwf Hi) as (q & _ & Hw). destruct (mid_links _ _ _ _ _ _ Hw Hf) as (_ & Hn & _).
    exists s'. erewrite QM_bind_Ret by exact Hr. erewrite QM_bind_Ret by (by apply frame_run).
    destruct (ack_result_links _ _ _ Ea) as [-> _]. rewrite Hn. split_and!; try done.
    + by rewrite list_insert_id.
    + intros x. rewrite Ef, lookup_insert. repeat case_decide; congruence.
  - destruct (remove_spec i l1 p l2 f Hwf Hi Hf) as (s' & Hr & Hwf' & Hu & Hb & _).
    exists s'. erewrite QM_bind_Ret by exact Hr. split_and!; try done.
    intros x. apply (f_equal (fun y => y !! x)) in Hb. unfold bodies in Hb. rewrite lookup_fmap in Hb. rewrite Hb.
    destruct (decide (x = p)) as [->|]; [by rewrite lookup_delete_eq|].
    rewrite lookup_delete_ne by done. by rewrite lookup_fmap.
Qed.

(** ** The loop *)

(** The frames of [l] that are left. *)
Definition unacked now m (l : list nat) : list nat :=
  filter (fun p => is_Some (m !! p ≫= ack_result now)) l.

Lemma ack_result_body now (o o' : option overlay_frame) :
  body <$> o = body <$> o' -> body <$> (o ≫= ack_result now) = body <$> (o' ≫= ack_result now).
Proof.
  destruct o as [f|], o' as [f'|]; cbn; try done. intros E. apply (inj Some) in E.
  assert (f' = set_prev (prev f') (set_next (next f') f)) as ->.
  { destruct f, f'. unfold body, set_prev, set_next in *. cbn in *. by injection E as -> -> -> -> -> -> -> ->. }
  unfold ack_result, sent_there, addressed. cbn.
  destruct (find_destination _ _ _) as [j|]; cbn; [|done]. destruct (destinations f !! j) as [x|]; cbn; [|done].
  destruct (_ && _); cbn; [|done]. destruct (acknowledges _ _ _); [by destruct (_ || _)|by destruct (_ && _)].
Qed.

Lemma unacked_ext now m m' l :
  (forall x, x ∈ l -> body <$> m' !! x = body <$> m !! x) -> unacked now m' l = unacked now m l.
Proof.
  unfold unacked. induction l as [|p l IH]; intros H; [done|].
  assert (is_Some (m' !! p ≫= ack_result now) <-> is_Some (m !! p ≫= ack_result now)) as E.
  { rewrite <- (fmap_is_Some body (m' !! p ≫= ack_result now)), <- (fmap_is_Some body (m !! p ≫= ack_result now)).
    by rewrite (ack_result_body now (m' !! p) (m !! p)) by (apply H, list_elem_of_here). }
  rewrite !filter_cons, IH by (intros x Hx; apply H; by apply list_elem_of_further).
  destruct (decide (is_Some (m !! p ≫= ack_result now))) as [Hy|Hn].
  - rewrite decide_True; [done|]. by apply E.
  - rewrite decide_False; [done|]. by rewrite E.
Qed.

(** What happens to the frames of a list, and that nothing happens to others. *)
Definition acked now (l : list nat) m m' : Prop :=
  forall x, body <$> m' !! x = if decide (x ∈ l) then body <$> (m !! x ≫= ack_result now) else body <$> m !! x.

Lemma ack_loop_spec now (i : nat) l2 : forall fuel l1 s ls pend ext rtt,
  oq_wf n next_packet s ls pend ext -> ls !! i = Some (l1 ++ l2) -> (length l2 <= fuel)%nat ->
  exists s' rtt',
    ack_loop clock next_packet overlay_interfaces fuel neighbour d ack_mask ack_seq now (Z.of_nat i) rtt (list.head l2) s
      = Ret (rtt', s') /\ undisturbed s s' /\
    oq_wf n next_packet s' (<[i := l1 ++ unacked now (frames s) l2]> ls) pend ext /\
    acked now l2 (frames s) (frames s').
Proof.
  induction l2 as [|p l2 IH]; intros fuel l1 s ls pend ext rtt Hwf Hi Hfuel.
  - exists s, rtt. split; [by destruct fuel|]. split; [done|]. split; [by rewrite list_insert_id|].
    intros x. rewrite decide_False; [done|]. apply not_elem_of_nil.
  - destruct fuel as [|fuel]; simpl in Hfuel; [lia|].
    assert (exists f, frames s !! p = Some f) as [f Hf].
    { destruct (o_frames _ _ _ _ _ _ (w_owns _ _ _ _ _ _ Hwf) p) as (f & Hf & _); [|by exists f].
      apply elem_of_app. left. eapply elem_of_concat_lookup; [exact Hi|]. apply elem_of_app. right. apply list_elem_of_here. }
    destruct (ack_frame_spec now i l1 p l2 f rtt Hwf Hi Hf) as (s1 & Hr & Hu & Hwf1 & Hb).
    pose proof (queue_nodup Hwf Hi) as Hnd. destruct (last_not_in _ _ _ Hnd) as (_ & _ & Hpl).
    assert (forall x, x ∈ l2 -> body <$> frames s1 !! x = body <$> frames s !! x) as Hb2.
    { intros x Hx. rewrite Hb, decide_False; [done|]. by intros ->. }
    set (l1' := l1 ++ match ack_result now f with Some _ => [p] | None => [] end).
    destruct (IH fuel l1' s1 (<[i := l1' ++ l2]> ls) pend ext (frame_rtt now rtt f)) as (s' & rtt' & Hr' & Hu' & Hwf' & Hb').
    { replace (l1' ++ l2) with (l1 ++ match ack_result now f with Some _ => p :: l2 | None => l2 end); [done|].
      unfold l1'. rewrite <- app_assoc. by destruct (ack_result now f). }
    { apply list_lookup_insert_eq. by eapply lookup_lt_Some. }
    { lia. }
    exists s', rtt'. simpl. rewrite (QM_bind_Ret _ _ _ _ _ Hr). split; [exact Hr'|]. split; [by etrans|]. split.
    + rewrite list_insert_insert_eq, (unacked_ext now (frames s)) in Hwf' by done. unfold unacked at 1. rewrite filter_cons, Hf. simpl.
      unfold l1' in Hwf'. rewrite <- app_assoc in Hwf'. destruct (ack_result now f) as [f'|] eqn:Ea.
      * by rewrite decide_True by eauto.
      * rewrite decide_False by (intros [? ?]; done). done.
    + intros x. rewrite Hb'. destruct (decide (x ∈ l2)) as [Hx|Hx].
      * rewrite decide_True by (by apply list_elem_of_further). by apply ack_result_body, Hb2.
      * rewrite Hb. destruct (decide (x = p)) as [->|Hne].
        -- rewrite decide_True by apply list_elem_of_here. by rewrite Hf.
        -- rewrite decide_False; [done|]. by intros [|]%elem_of_cons.
Qed.

(** ** All queues *)

Lemma ack_queues_spec now qs : forall s ls pend ext rtt,
  oq_wf n next_packet s ls pend ext -> NoDup qs -> Forall (fun i => (i < Z.to_nat OQ_MAX)%nat) qs ->
  exists s' rtt' ls',
    ack_queues clock next_packet overlay_interfaces (Z.of_nat <$> qs) neighbour d ack_mask ack_seq now rtt s
      = Ret (rtt', s') /\ undisturbed s s' /\ oq_wf n next_packet s' ls' pend ext /\
    (forall j, ls' !! j = (if decide (j ∈ qs) then unacked now (frames s) else id) <$> ls !! j) /\
    (forall x, body <$> frames s' !! x =
       if decide (Exists (fun j => x ∈ default [] (ls !! j)) qs) then body <$> (frames s !! x ≫= ack_result now)
       else body <$> frames s !! x).
Proof.
  induction qs as [|i qs IH]; intros s ls pend ext rtt Hwf Hnd His.
  - exists s, rtt, ls. split; [done|]. split; [done|]. split; [done|]. split.
    + intros j. rewrite decide_False by apply not_elem_of_nil. by destruct (ls !! j).
    + intros x. rewrite decide_False; [done|]. by intros ?%Exists_nil.
  - apply NoDup_cons in Hnd as [Hni Hnd]. apply Forall_cons in His as [Hi His].
    destruct (lookup_lt_is_Some_2 ls i) as [l Hl]; [by rewrite (w_five _ _ _ _ _ _ Hwf)|].
    destruct (wf_queue Hwf Hl) as (q & Hq & Hw). pose proof (queue_nodup Hwf Hl) as Hndl.
    destruct (ack_loop_spec now i l (size (frames s)) [] s ls pend ext rtt Hwf Hl) as (s1 & rtt1 & Hr & Hu & Hwf1 & Hb).
    { eapply seg_length; [done|]. by eapply qw_next. }
    destruct (IH s1 _ pend ext rtt1 Hwf1 Hnd His) as (s' & rtt' & ls' & Hr' & Hu' & Hwf' & Hls & Hb').
    exists s', rtt', ls'. simpl. erewrite QM_bind_Ret by (by apply queue_at_run). erewrite QM_bind_Ret by done.
    assert (q_first q = list.head l) as ->.
    { pose proof (qw_next _ _ _ Hw) as Hs. destruct l; [done|]. by destruct Hs. }
    erewrite QM_bind_Ret by exact Hr. split; [exact Hr'|]. split; [by etrans|]. split; [done|].
    assert (forall j lj x, j ∈ qs -> ls !! j = Some lj -> x ∈ lj -> x ∉ l) as Hdis.
    { intros j lj x Hj Hlj Hx Hxl. assert (i = j) as -> by exact (disjoint_queues i j l lj x Hwf Hl Hlj Hxl Hx). done. }
    assert (forall j, j ∈ qs -> (<[i := unacked now (frames s) l]> ls) !! j = ls !! j) as Hj1.
    { intros j Hj. rewrite list_lookup_insert_ne; [done|]. by intros ->. }
    simpl in Hls, Hb'. split.
    + intros j. rewrite Hls. destruct (decide (j ∈ qs)) as [Hj|Hj].
      * rewrite (decide_True _ _ (proj2 (elem_of_cons _ _ _) (or_intror Hj))), Hj1 by done.
        destruct (ls !! j) as [lj|] eqn:Elj; [|done]. simpl. f_equal. apply unacked_ext.
        intros x Hx. rewrite Hb, decide_False; [done|]. by eapply Hdis.
      * destruct (decide (i = j)) as [<-|Hne].
        -- rewrite list_lookup_insert_eq by (by eapply lookup_lt_Some). rewrite Hl.
           by rewrite decide_True by apply list_elem_of_here.
        -- rewrite list_lookup_insert_ne by done. rewrite decide_False; [done|]. by intros [->|]%elem_of_cons.
    + intros x. rewrite Hb'.
      assert (Exists (fun j => x ∈ default [] ((<[i := unacked now (frames s) l]> ls) !! j)) qs
              <-> Exists (fun j => x ∈ default [] (ls !! j)) qs) as Hex.
      { rewrite !Exists_exists. split; intros (j & Hj & Hx); exists j; (split; [done|]); rewrite Hj1 in *; done. }
      rewrite (decide_ext _ _ _ _ Hex). destruct (decide (Exists _ qs)) as [Hx|Hx].
      * rewrite decide_True by (by apply Exists_cons_tl). apply ack_result_body. rewrite Hb, decide_False; [done|].
        apply Exists_exists in Hx as (j & Hj & Hx). destruct (ls !! j) as [lj|] eqn:Elj; [|by apply elem_of_nil in Hx].
        by eapply Hdis.
      * rewrite Hb. destruct (decide (x ∈ l)) as [Hxl|Hxl].
        -- rewrite decide_True; [done|]. apply Exists_cons_hd. by rewrite Hl.
        -- rewrite decide_False; [done|]. intros [Hy|]%Exists_cons; [|done]. by rewrite Hl in Hy.
Qed.
End ack.
