(* ===== verification/OverlayQueueEnqueue.v ===== *)
(** * The transmit queues: adding a frame *)

From stdpp Require Import base tactics list fin_maps gmap.
From Stdlib Require Import ZArith Lia.
From S2P Require Import Prelude Memory OverlayBuffer Limit OverlayAddress OverlayPacket FdQueue FdQueueLists.
From S2P Require Import FdQueueSpec RadioLink Linked OverlayQueue OverlayQueueAlarm OverlayQueueSpec.
From S2P Require Import OverlayQueueRemove OverlayQueueTime.

Local Open Scope Z_scope.
Implicit Types (s : oq_state) (m : gmap nat overlay_frame) (ds : gmap nat network_destination).

(** ** Finding destinations *)

Lemma counted_add n d l ds nd :
  counted n l ds -> d ∈ l -> ds !! d = Some nd -> counted n (d :: l) (<[d := nd_set_ref (_ref_count nd + 1) nd]> ds).
Proof.
  intros H Hd Hnd x Hx. assert (x ∈ l) as Hxl by (by apply elem_of_cons in Hx as [->|]).
  destruct (H x Hxl) as (nd' & Hnd' & Hi & Hu). rewrite uses_cons, lookup_insert.
  repeat case_decide; simplify_eq; [|by exists nd'].
  eexists. split; [done|]. split; [done|]. simpl. lia.
Qed.

(** [f'] is [f] with other destinations and another version. *)
Definition routed_frame (f f' : overlay_frame) : Prop :=
  exists v l, f' = set_destinations l (set_mdp (mf_set_version v) f).
Lemma routed_frame_refl f : routed_frame f f.
Proof. exists (mf_packet_version (mdp f)), (destinations f). by destruct f as [????????? []]. Qed.
Lemma routed_frame_trans f1 f2 f3 : routed_frame f1 f2 -> routed_frame f2 f3 -> routed_frame f1 f3.
Proof. intros (v & l & ->) (v' & l' & ->). by exists v', l'. Qed.

(** Only the destinations and the version of a frame change, and the references. *)
Record routed (n np : nat) ls pend ext p s s' : Prop := {
  r_wf : oq_wf n np s' ls pend ext;
  r_tx : overlay_tx s' = overlay_tx s;
  r_mesh : q_mesh s' = q_mesh s;
  r_undisturbed : undisturbed s s';
  r_limits : limits_ok (net_dests s) -> limits_ok (net_dests s');
  r_frame : exists f f', frames s !! p = Some f /\ routed_frame f f' /\ frames s' = <[p := f']> (frames s)
}.

Lemma routed_trans n np ls pend ext p s1 s2 s3 :
  routed n np ls pend ext p s1 s2 -> routed n np ls pend ext p s2 s3 -> routed n np ls pend ext p s1 s3.
Proof.
  intros [_ Et1 Em1 Hu1 Hl1 (f1 & f2 & H1 & Hr1 & E1)] [Hwf Et2 Em2 Hu2 Hl2 (f2' & f3 & H2 & Hr2 & E2)].
  rewrite E1, lookup_insert_eq in H2. simplify_eq. split; [done|congruence|congruence|by etrans|auto|].
  exists f1, f3. split_and!; [done|by eapply routed_frame_trans|]. by rewrite E2, E1, insert_insert_eq.
Qed.

Lemma routed_refl {n np ls pend ext p f s} :
  oq_wf n np s ls pend ext -> frames s !! p = Some f -> routed n np ls pend ext p s s.
Proof.
  intros Hwf Hf. split; try done. exists f, f. split_and!; [done|apply routed_frame_refl|]. by rewrite insert_id.
Qed.

Section enqueue.
Context {AR : Arch} {AL : Allocator}.
Context (clock : nat -> Z) (next_packet : nat) (overlay_interfaces : list queue_interface)
        (routes : gmap nat route) (neighbours : list neighbour) (directory_service : option nat).
Abbreviation n := (length overlay_interfaces).

(** The routing table names subscribers that exist and destinations that
    routing holds a reference to. *)
Record routes_ok (subs : gmap nat subscriber) (ext : list nat) : Prop := {
  rk_direct : forall p x, subs !! p = Some x -> has (reachable x) REACHABLE_DIRECT = true ->
    exists rt d, routes !! p = Some rt /\ rt_destination rt = Some d /\ d ∈ ext;
  rk_indirect : forall p x, subs !! p = Some x -> Z.land (reachable x) REACHABLE = REACHABLE_INDIRECT ->
    exists rt h, routes !! p = Some rt /\ rt_next_hop rt = Some h /\ is_Some (subs !! h);
  rk_neighbours : Forall (fun nb => is_Some (subs !! nb_subscriber nb) /\
    Forall (fun out => exists d, lo_destination out = Some d /\ d ∈ ext) (out_links nb)) neighbours;
  rk_directory : forall x, directory_service = Some x -> is_Some (subs !! x)
}.

Section at_frame.
Context {ls : list (list nat)} {pend ext : list nat} {p : nat}.
Hypothesis Hin : p ∈ concat ls ++ pend.
Abbreviation ok s := (oq_wf n next_packet s ls pend ext).
Abbreviation routed_to := (routed n next_packet ls pend ext p).

(** A frame with other destinations. *)
Lemma routed_update s s' f f' :
  ok s -> frames s !! p = Some f -> routed_frame f f' -> frames s' = <[p := f']> (frames s) ->
  overlay_tx s' = overlay_tx s -> q_mesh s' = q_mesh s -> q_heap s' = q_heap s -> q_loop s' = q_loop s ->
  undisturbed s s' -> (limits_ok (net_dests s) -> limits_ok (net_dests s')) ->
  Forall (fun x => is_Some (pd_destination x)) (destinations f') ->
  (forall k, concat ls ++ pend ≡ₚ p :: k ->
     counted n (frame_refs f' ++ gather frame_refs (frames s) k ++ ext) (net_dests s')) ->
  routed_to s s'.
Proof.
  intros Hwf Hf Hr Ef Et Em Eh El Hu Hlim Hd Hc. split; try done; [|by exists f, f'].
  destruct Hr as (v & l & ->). pose proof (o_frames _ _ _ _ _ _ (w_owns _ _ _ _ _ _ Hwf) p Hin) as (f0 & Hf0 & Hok). simplify_eq.
  eapply (wf_update s' p f); try done.
  - split; [apply Hok|exact Hd].
  - rewrite El. exact (w_alarm _ _ _ _ _ _ Hwf).
Qed.

Lemma frame_counted s f k :
  ok s -> frames s !! p = Some f -> concat ls ++ pend ≡ₚ p :: k ->
  Forall (fun x => is_Some (pd_destination x)) (destinations f) /\
  counted n (frame_refs f ++ gather frame_refs (frames s) k ++ ext) (net_dests s).
Proof.
  intros Hwf Hf Ek. pose proof (w_owns _ _ _ _ _ _ Hwf) as [_ Hfr Hr _ _].
  destruct (Hfr p Hin) as (f0 & Hf0 & [_ Hd]). simplify_eq. split; [done|].
  by rewrite (gather_perm _ _ _ _ Ek), (gather_cons _ _ _ _ _ Hf), <- app_assoc in Hr.
Qed.

Lemma add_destination_spec d next_hop s :
  ok s -> d ∈ ext -> exists s', add_destination p (Some d) next_hop s = Ret (tt, s') /\ routed_to s s'.
Proof.
  intros Hwf Hd. destruct (o_frames _ _ _ _ _ _ (w_owns _ _ _ _ _ _ Hwf) p Hin) as (f & Hf & _).
  unfold add_destination. erewrite QM_bind_Ret by (by apply frame_run).
  destruct (_ <? _)%nat; [|exists s; split; [done|by eapply routed_refl]].
  destruct (owned_perm _ _ Hin) as [k0 Ek0]. destruct (frame_counted s f k0 Hwf Hf Ek0) as [Hdst Hc0].
  destruct (counted_lookup _ _ _ d Hc0) as [nd Hnd]; [rewrite !elem_of_app; auto|].
  erewrite QM_bind_Ret by apply q_out_run. unfold add_destination_ref.
  erewrite QM_bind_Ret by (by apply net_dest_set_run). erewrite frame_set_run by exact Hf.
  eexists. split; [done|]. eapply (routed_update s _ f); try done.
  - eexists (mf_packet_version (mdp f)), _. by destruct f as [????????? []].
  - intros Hlim. apply map_Forall_insert_2; [|done]. exact (Hlim d nd Hnd).
  - simpl. apply Forall_app. split; [done|]. constructor; [by eexists|constructor].
  - intros k Ek. destruct (frame_counted s f k Hwf Hf Ek) as [_ Hc]. unfold frame_refs, refs. simpl.
    rewrite omap_app. simpl. rewrite <- app_assoc. simpl. rewrite <- Permutation_middle. apply counted_add; [exact Hc| |done].
    rewrite !elem_of_app. auto.
Qed.

Lemma routed_now s : ok s -> routed_to s (q_tick s).
Proof.
  intros Hwf. destruct (o_frames _ _ _ _ _ _ (w_owns _ _ _ _ _ _ Hwf) p Hin) as (f & Hf & _).
  split; try done; [by apply (wf_shape _ Hwf); try done; exact (w_alarm _ _ _ _ _ _ Hwf)|].
  exists f, f. split_and!; [done|apply routed_frame_refl|]. by rewrite insert_id.
Qed.

Lemma reachable_of_run x y s : subs (q_mesh s) !! x = Some y -> reachable_of x s = Ret (reachable y, s).
Proof. intros Hx. unfold reachable_of, q_om, sub_get, mbind, QM_bind, hlift. simpl. rewrite Hx. by destruct s. Qed.
Lemma route_of_run x rt s : routes !! x = Some rt -> route_of routes x s = Ret (rt, s).
Proof. intros Hx. unfold route_of. by rewrite Hx. Qed.

Lemma add_links_spec now next_hop l : forall s,
  ok s -> Forall (fun out => exists d, lo_destination out = Some d /\ d ∈ ext) l ->
  exists s', add_links p now next_hop l s = Ret (tt, s') /\ routed_to s s'.
Proof.
  induction l as [|out l IH]; intros s Hwf Hl; simpl.
  - destruct (o_frames _ _ _ _ _ _ (w_owns _ _ _ _ _ _ Hwf) p Hin) as (f & Hf & _).
    exists s. split; [done|by eapply routed_refl].
  - apply Forall_cons in Hl as [(d & Ed & Hd) Hl]. rewrite Ed.
    assert (exists s1, (if now <=? lo_timeout out then add_destination p (Some d) (Some next_hop) else mret tt) s
                       = Ret (tt, s1) /\ routed_to s s1) as (s1 & Hr1 & Ht1).
    { destruct (_ <=? _); [by apply add_destination_spec|].
      destruct (o_frames _ _ _ _ _ _ (w_owns _ _ _ _ _ _ Hwf) p Hin) as (f & Hf & _).
      exists s. split; [done|by eapply routed_refl]. }
    destruct (IH s1 (r_wf _ _ _ _ _ _ _ _ Ht1) Hl) as (s2 & Hr2 & Ht2).
    exists s2. erewrite QM_bind_Ret by exact Hr1. split; [done|by eapply routed_trans].
Qed.

(** The version of the frame may be lowered. *)
Lemma degrade_spec v s :
  ok s -> exists s', frame_set p (fun f => if v <? mf_packet_version (mdp f) then set_mdp (mf_set_version v) f else f) s
                     = Ret (tt, s') /\ routed_to s s' /\ net_dests s' = net_dests s.
Proof.
  intros Hwf. destruct (o_frames _ _ _ _ _ _ (w_owns _ _ _ _ _ _ Hwf) p Hin) as (f & Hf & Hok).
  erewrite frame_set_run by exact Hf. eexists. split; [done|]. split; [|done].
  eapply (routed_update s _ f); try done.
  - destruct (_ <? _); [|apply routed_frame_refl]. by exists v, (destinations f); destruct f.
  - destruct (_ <? _); apply Hok.
  - intros k Ek. destruct (frame_counted s f k Hwf Hf Ek) as [_ Hc]. by destruct (_ <? _).
Qed.

Lemma add_neighbours_spec l : forall added s,
  ok s -> routes_ok (subs (q_mesh s)) ext ->
  Forall (fun nb => is_Some (subs (q_mesh s) !! nb_subscriber nb)) l ->
  exists s', add_neighbours overlay_interfaces routes p added l s = Ret (tt, s') /\ routed_to s s'.
Proof.
  induction l as [|nb l IH]; intros added s Hwf Hro Hl; simpl;
    destruct (o_frames _ _ _ _ _ _ (w_owns _ _ _ _ _ _ Hwf) p Hin) as (f & Hf & _).
  - exists s. split; [done|by eapply routed_refl].
  - apply Forall_cons in Hl as [[x Hx] Hl]. erewrite QM_bind_Ret by (by apply reachable_of_run).
    destruct (has (reachable x) REACHABLE_DIRECT) eqn:Er; cbn [negb]; cbv iota; [|by apply IH].
    destruct (rk_direct _ _ Hro _ _ Hx Er) as (rt & d & Hrt & Hd & Hext).
    erewrite QM_bind_Ret by (by apply route_of_run).
    destruct (degrade_spec (rt_max_packet_version rt) s Hwf) as (s1 & Hr1 & Ht1 & En).
    erewrite QM_bind_Ret by exact Hr1. rewrite Hd. erewrite QM_bind_Ret by apply q_out_run.
    pose proof (r_wf _ _ _ _ _ _ _ _ Ht1) as Hwf1.
    destruct (alive_interface overlay_interfaces _ (net_dests s1) d (o_refs _ _ _ _ _ _ (w_owns _ _ _ _ _ _ Hwf1)))
      as (nd & i & qi & Hnd & Hi & Hqi & Hif); [rewrite elem_of_app; auto|].
    erewrite QM_bind_Ret by (by apply net_dest_run).
    destruct (add_destination_spec d None s1 Hwf1 Hext) as (s2 & Hr2 & Ht2).
    assert (forall added s3, routed_to s s3 -> exists s', add_neighbours overlay_interfaces routes p added l s3 = Ret (tt, s') /\ routed_to s s') as Hnext.
    { intros added' s3 Ht3. destruct (IH added' s3 (r_wf _ _ _ _ _ _ _ _ Ht3)) as (s' & Hr & Ht).
      - by rewrite (r_mesh _ _ _ _ _ _ _ _ Ht3).
      - by rewrite (r_mesh _ _ _ _ _ _ _ _ Ht3).
      - exists s'. split; [done|by eapply routed_trans]. }
    pose proof (routed_trans _ _ _ _ _ _ _ _ _ Ht1 Ht2) as Ht12.
    destruct (unicast nd).
    + erewrite QM_bind_Ret by exact Hr2. by apply Hnext.
    + rewrite Hi. erewrite QM_bind_Ret by apply q_out_run. rewrite Hif. erewrite QM_bind_Ret by apply q_out_run.
      destruct (_ || _); [by apply Hnext|]. erewrite QM_bind_Ret by exact Hr2. by apply Hnext.
Qed.

(** The subscriber a frame is sent to exists. *)
Definition known_destination s (f : overlay_frame) : Prop :=
  forall x, mf_destination (mdp f) = Some x -> is_Some (subs (q_mesh s) !! x).

Lemma direct_spec next_hop s :
  ok s -> routes_ok (subs (q_mesh s)) ext -> is_Some (subs (q_mesh s) !! next_hop) ->
  exists s', (r ← reachable_of next_hop;
              if has r REACHABLE_DIRECT then
                rt ← route_of routes next_hop; add_destination p (rt_destination rt) (Some next_hop)
              else mret tt) s = Ret (tt, s') /\ routed_to s s'.
Proof.
  intros Hwf Hro [x Hx]. erewrite QM_bind_Ret by (by apply reachable_of_run).
  destruct (has (reachable x) REACHABLE_DIRECT) eqn:Er.
  - destruct (rk_direct _ _ Hro _ _ Hx Er) as (rt & d & Hrt & Hd & Hext).
    erewrite QM_bind_Ret by (by apply route_of_run). rewrite Hd. by apply add_destination_spec.
  - destruct (o_frames _ _ _ _ _ _ (w_owns _ _ _ _ _ _ Hwf) p Hin) as (f & Hf & _).
    exists s. split; [done|by eapply routed_refl].
Qed.

Lemma link_add_destinations_spec s f :
  ok s -> routes_ok (subs (q_mesh s)) ext -> frames s !! p = Some f -> known_destination s f ->
  exists s', link_add_destinations clock overlay_interfaces routes neighbours directory_service p s = Ret (tt, s') /\
    routed_to s s'.
Proof.
  intros Hwf Hro Hf Hk. unfold link_add_destinations. erewrite QM_bind_Ret by (by apply frame_run).
  destruct (mf_destination (mdp f)) as [dst|] eqn:Ed.
  2: { apply add_neighbours_spec; [done|done|]. eapply list.Forall_impl; [apply (rk_neighbours _ _ Hro)|]. by intros nb [? _]. }
  destruct (Hk dst Ed) as [x Hx]. erewrite QM_bind_Ret by (by apply reachable_of_run).
  assert (exists h, (match directory_service with
                     | Some ds => if (reachable x =? REACHABLE_NONE) && negb (dst =? ds)%nat
                                  then rd ← reachable_of ds; mret (if has rd REACHABLE then ds else dst) else mret dst
                     | None => mret dst
                     end) s = Ret (h, s) /\ is_Some (subs (q_mesh s) !! h)) as (h & Hrh & [y Hy]).
  { destruct directory_service as [z|] eqn:Ez; [|by exists dst; eauto].
    destruct (_ && _); [|by exists dst; eauto]. destruct (rk_directory _ _ Hro z Ez) as [w Hw].
    erewrite QM_bind_Ret by (by apply reachable_of_run). eexists. split; [done|]. destruct (has _ _); eauto. }
  erewrite QM_bind_Ret by exact Hrh. erewrite QM_bind_Ret by (by apply reachable_of_run).
  assert (exists s1, (if reachable y =? REACHABLE_NONE then
         match list_find (fun n => nb_subscriber n = dst) neighbours with
         | Some (_, n) => now ← q_now clock; add_links p now h (out_links n)
         | None => mret tt
         end else mret tt) s = Ret (tt, s1) /\ routed_to s s1) as (s1 & Hr1 & Ht1).
  { assert (exists s1, (mret tt : QM unit) s = Ret (tt, s1) /\ routed_to s s1) as Hsame
      by (exists s; split; [done|by eapply routed_refl]).
    destruct (reachable y =? _); [|exact Hsame]. destruct (list_find _ neighbours) as [[j nb]|] eqn:Enb; [|exact Hsame].
    apply list_find_Some in Enb as (Hnb & _ & _). pose proof (rk_neighbours _ _ Hro) as Hns.
    apply (Forall_lookup_1 _ _ _ _ Hns) in Hnb as [_ Hlinks]. erewrite QM_bind_Ret by done.
    pose proof (routed_now s Hwf) as Ht0. destruct (add_links_spec (clock (q_ticks s)) h (out_links nb) (q_tick s)) as (s1 & ? & ?); [apply Ht0|done|].
    exists s1. split; [done|by eapply routed_trans]. }
  erewrite QM_bind_Ret by exact Hr1.
  assert (exists h', (if Z.land (reachable y) REACHABLE =? REACHABLE_INDIRECT
                      then rt ← route_of routes h; q_out (or_undef (rt_next_hop rt)) else mret h) s1 = Ret (h', s1) /\
                     is_Some (subs (q_mesh s1) !! h')) as (h' & Hrh' & Hh').
  { rewrite (r_mesh _ _ _ _ _ _ _ _ Ht1). destruct (Z.eqb_spec (Z.land (reachable y) REACHABLE) REACHABLE_INDIRECT) as [E|]; [|by exists h; eauto].
    destruct (rk_indirect _ _ Hro _ _ Hy E) as (rt & h' & Hrt & Hnh & Hs). exists h'.
    erewrite QM_bind_Ret by (by apply route_of_run). rewrite Hnh. eauto. }
  erewrite QM_bind_Ret by exact Hrh'.
  destruct (direct_spec h' s1 (r_wf _ _ _ _ _ _ _ _ Ht1)) as (s' & Hr & Ht); [by rewrite (r_mesh _ _ _ _ _ _ _ _ Ht1)|done|].
  exists s'. split; [exact Hr|by eapply routed_trans].
Qed.
End at_frame.

(** ** Where a broadcast goes *)

(** The directly reachable neighbours that routing knows a destination for: the
    destination, whether it is unicast, its interface with whether that sends
    broadcasts, and the highest version of packets the neighbour takes. *)
Definition direct_neighbour (subs : gmap nat subscriber) ds (nb : neighbour)
    : option (nat * bool * nat * bool * Z) :=
  x ← subs !! nb_subscriber nb;
  if negb (has (reachable x) REACHABLE_DIRECT) then None
  else
    rt ← routes !! nb_subscriber nb;
    d ← rt_destination rt;
    nd ← ds !! d;
    i ← nd_interface nd;
    qi ← overlay_interfaces !! i;
    Some (d, unicast nd, i, qi_send_broadcasts qi, rt_max_packet_version rt).

(** Each unicast destination, and the first destination on every other interface
    that sends broadcasts. *)
Fixpoint spread (added : list nat) (l : list (nat * bool * nat * bool * Z)) : list nat :=
  match l with
  | [] => []
  | (d, uni, i, sends, _) :: l =>
      if uni : bool then d :: spread added l
      else if negb sends || bool_decide (i ∈ added) then spread added l
      else d :: spread (i :: added) l
  end.

(** No neighbour gets a packet of a version it does not know. *)
Definition lowest_version (v : Z) (l : list (nat * bool * nat * bool * Z)) : Z :=
  foldl (fun v c => Z.min v c.2) v l.

Definition broadcast_to (d : nat) : packet_destination := PDest 0 0 (Some d) None.
Definition broadcast_plan s (l : list neighbour) : list (nat * bool * nat * bool * Z) :=
  omap (direct_neighbour (subs (q_mesh s)) (net_dests s)) l.

Lemma broadcast_plan_cons s nb l :
  broadcast_plan s (nb :: l) =
  match direct_neighbour (subs (q_mesh s)) (net_dests s) nb with
  | Some c => c :: broadcast_plan s l
  | None => broadcast_plan s l
  end.
Proof. reflexivity. Qed.

Lemma QM_bind_inv {A B} (m : QM A) (k : A -> QM B) s x :
  (m ≫= k) s = Ret x -> exists a s1, m s = Ret (a, s1) /\ k a s1 = Ret x.
Proof. unfold mbind, QM_bind. destruct (m s) as [[a s1]| |]; try done. intros E. by exists a, s1. Qed.

Lemma q_out_inv {A} (m : outcome A) s a s' : q_out m s = Ret (a, s') -> m = Ret a /\ s' = s.
Proof. unfold q_out. destruct m; [|done..]. by intros [= -> ->]. Qed.
Lemma or_undef_inv {A} (o : option A) a : or_undef o = Ret a -> o = Some a.
Proof. destruct o; [|done]. by intros [= ->]. Qed.
Lemma net_dest_inv d s nd s' : net_dest d s = Ret (nd, s') -> net_dests s !! d = Some nd /\ s' = s.
Proof. unfold net_dest. destruct (net_dests s !! d); [|done]. by intros [= -> ->]. Qed.

(** What routing reads does not depend on the references. *)
Definition same_routing s s' : Prop :=
  q_mesh s' = q_mesh s /\
  forall d, (fun nd => (unicast nd, nd_interface nd)) <$> net_dests s' !! d =
            (fun nd => (unicast nd, nd_interface nd)) <$> net_dests s !! d.

Lemma same_routing_refl s : same_routing s s.
Proof. done. Qed.
Lemma same_routing_trans s1 s2 s3 : same_routing s1 s2 -> same_routing s2 s3 -> same_routing s1 s3.
Proof. intros [? E1] [? E2]. split; [congruence|]. intros d. by rewrite E2, E1. Qed.

Lemma same_routing_plan s s' l : same_routing s s' -> broadcast_plan s' l = broadcast_plan s l.
Proof.
  intros [Em Ed]. unfold broadcast_plan. rewrite Em.
  induction l as [|nb l IH]; [done|]. cbn [omap list_omap].
  assert (direct_neighbour (subs (q_mesh s)) (net_dests s') nb = direct_neighbour (subs (q_mesh s)) (net_dests s) nb) as ->;
    [|by rewrite IH].
  unfold direct_neighbour. destruct (subs (q_mesh s) !! _); [|done]. simpl.
  destruct (negb _); [done|]. destruct (routes !! _) as [rt|]; [|done]. simpl.
  destruct (rt_destination rt) as [d|]; [|done]. simpl. specialize (Ed d).
  destruct (net_dests s' !! d) as [nd'|], (net_dests s !! d) as [nd|]; try done.
  simpl in Ed |- *. injection Ed as -> ->. done.
Qed.

(** A destination is added while there is room. *)
Definition added_to (f f' : overlay_frame) (l : list nat) : Prop :=
  destinations f' = take MAX_PACKET_DESTINATIONS (destinations f ++ (broadcast_to <$> l)).

Lemma added_nil f : (length (destinations f) <= MAX_PACKET_DESTINATIONS)%nat -> added_to f f [].
Proof. intros Hf. unfold added_to. simpl. rewrite app_nil_r. by rewrite firstn_all2. Qed.

Lemma added_trans f f1 f2 l1 l2 : added_to f f1 l1 -> added_to f1 f2 l2 -> added_to f f2 (l1 ++ l2).
Proof.
  unfold added_to. intros E1 ->. rewrite E1, fmap_app, app_assoc.
  set (a := destinations f ++ _). set (b := broadcast_to <$> l2).
  destruct (decide (length a <= MAX_PACKET_DESTINATIONS)%nat).
  - by rewrite (firstn_all2 a).
  - rewrite !take_app_le by (rewrite ?length_take; lia). rewrite take_take. by rewrite Nat.min_id.
Qed.

Lemma add_destination_inv p d s u s' f :
  add_destination p (Some d) None s = Ret (u, s') -> frames s !! p = Some f ->
  (length (destinations f) <= MAX_PACKET_DESTINATIONS)%nat ->
  same_routing s s' /\ exists f', frames s' !! p = Some f' /\ added_to f f' [d] /\ mdp f' = mdp f.
Proof.
  intros Hr Hf Hlen. unfold add_destination in Hr. rewrite (QM_bind_Ret _ _ _ _ _ (frame_run p f s Hf)) in Hr.
  destruct (Nat.ltb_spec (length (destinations f)) MAX_PACKET_DESTINATIONS) as [Hlt|Hge].
  - rewrite (QM_bind_Ret _ _ _ _ _ (q_out_run d s)) in Hr. apply QM_bind_inv in Hr as (v & s1 & E1 & Hr).
    unfold add_destination_ref, net_dest_set in E1. apply QM_bind_inv in E1 as (nd & s0 & E0 & E1).
    apply net_dest_inv in E0 as [Hnd ->]. injection E1 as <- <-.
    erewrite frame_set_run in Hr by exact Hf. injection Hr as <- <-. split.
    + split; [done|]. intros x. simpl. rewrite lookup_insert. case_decide; [|done]. subst x. by rewrite Hnd.
    + eexists. split; [apply lookup_insert_eq|]. split; [|done]. unfold added_to. simpl.
      rewrite firstn_all2; [done|]. rewrite length_app. simpl. lia.
  - injection Hr as <- <-. split; [done|]. exists f. split; [done|]. split; [|done]. unfold added_to.
    by rewrite take_app_length' by lia.
Qed.

(** The destination of a directly reachable neighbour is on an interface. *)
Definition on_interface s (nb : neighbour) : Prop :=
  forall x d nd, subs (q_mesh s) !! nb_subscriber nb = Some x -> has (reachable x) REACHABLE_DIRECT = true ->
    (rt ← routes !! nb_subscriber nb; rt_destination rt) = Some d -> net_dests s !! d = Some nd ->
    exists i qi, nd_interface nd = Some i /\ overlay_interfaces !! i = Some qi.

Lemma add_neighbours_inv p l : forall added s u s' f,
  add_neighbours overlay_interfaces routes p added l s = Ret (u, s') -> frames s !! p = Some f ->
  (length (destinations f) <= MAX_PACKET_DESTINATIONS)%nat ->
  Forall (on_interface s) l ->
  exists f', frames s' !! p = Some f' /\ added_to f f' (spread added (broadcast_plan s l)) /\
    mf_packet_version (mdp f') = lowest_version (mf_packet_version (mdp f)) (broadcast_plan s l).
Proof.
  induction l as [|nb l IH]; intros added s u s' f Hr Hf Hlen Hi; cbn [add_neighbours] in Hr.
  { injection Hr as <- <-. exists f. split; [done|]. split; [by apply added_nil|done]. }
  apply Forall_cons in Hi as [Hnb Hi].
  assert (forall s1, same_routing s s1 ->
    Forall (on_interface s1) l) as Hi1.
  { intros s1 [Em Ed]. eapply Forall_impl; [exact Hi|]. intros y Hy z d nd Hz Hdir Hd Hnd. specialize (Ed d).
    rewrite Em in Hz. rewrite Hnd in Ed. destruct (net_dests s !! d) as [nd0|] eqn:E0; [|done]. injection Ed as _ ->.
    by apply (Hy z d). }
  apply QM_bind_inv in Hr as (r & s1 & E1 & Hr).
  assert (exists x, subs (q_mesh s) !! nb_subscriber nb = Some x /\ r = reachable x /\ s1 = s) as (x & Hx & -> & ->).
  { clear -E1. destruct (subs (q_mesh s) !! nb_subscriber nb) as [x|] eqn:Hx.
    - rewrite (reachable_of_run _ x) in E1 by done. injection E1 as <- <-. by exists x.
    - unfold reachable_of in E1. apply QM_bind_inv in E1 as (? & ? & E & _).
      unfold q_om, sub_get in E. rewrite Hx in E. discriminate E. }
  clear E1. rewrite broadcast_plan_cons. unfold direct_neighbour. rewrite Hx. cbn [mbind option_bind].
  destruct (has (reachable x) REACHABLE_DIRECT) eqn:Edir; cbn [negb] in Hr |- *; [|by apply (IH added s u)].
  specialize (Hnb x). apply QM_bind_inv in Hr as (rt & s1 & E1 & Hr). apply q_out_inv in E1 as [E1%or_undef_inv ->].
  unfold on_interface in Hnb. rewrite E1 in Hnb |- *. cbn [mbind option_bind] in Hnb |- *.
  apply QM_bind_inv in Hr as (v & s1 & E2 & Hr). erewrite frame_set_run in E2 by exact Hf.
  injection E2 as <- <-. apply QM_bind_inv in Hr as (d & s1 & E2 & Hr).
  apply q_out_inv in E2 as [E2%or_undef_inv ->]. rewrite E2 in Hnb |- *. cbn [mbind option_bind].
  apply QM_bind_inv in Hr as (nd & s1 & E3 & Hr). apply net_dest_inv in E3 as [E3 ->].
  cbn [net_dests q_set_frames] in E3. rewrite E3. cbn [mbind option_bind].
  destruct (Hnb d nd Hx Edir eq_refl E3) as (i & qi & Ei & Eqi). rewrite Ei. cbn [mbind option_bind].
  rewrite Eqi. cbn [mbind option_bind spread].
  change (lowest_version ?v ((_, _, _, _, ?w) :: ?k)) with (lowest_version (Z.min v w) k).
  set (f1 := if rt_max_packet_version rt <? mf_packet_version (mdp f) then _ else f) in *.
  set (s1 := q_set_frames (<[p:=f1]> (frames s)) s) in *.
  assert (destinations f1 = destinations f) as Ed1 by (unfold f1; by destruct (_ <? _)).
  assert (mf_packet_version (mdp f1) = Z.min (mf_packet_version (mdp f)) (rt_max_packet_version rt)) as Ev1.
  { unfold f1. destruct (Z.ltb_spec (rt_max_packet_version rt) (mf_packet_version (mdp f))); simpl; lia. }
  assert (frames s1 !! p = Some f1) as Hf1 by apply lookup_insert_eq.
  assert (same_routing s s1) as Hs1 by done.
  assert (forall added' u', add_neighbours overlay_interfaces routes p added' l s1 = Ret (u', s') ->
    exists f', frames s' !! p = Some f' /\ added_to f f' (spread added' (broadcast_plan s l)) /\
      mf_packet_version (mdp f') = lowest_version (Z.min (mf_packet_version (mdp f)) (rt_max_packet_version rt)) (broadcast_plan s l)) as Hskip.
  { intros added' u' Hr'. destruct (IH _ _ _ _ _ Hr' Hf1) as (f' & Hf' & Ha & Hv).
    - by rewrite Ed1.
    - by apply Hi1.
    - exists f'. rewrite (same_routing_plan s s1) in Ha, Hv by done. split; [done|].
      unfold added_to in *. rewrite <- Ed1. split; [exact Ha|]. by rewrite Hv, Ev1. }
  assert (forall added' u' v' s2, add_destination p (Some d) None s1 = Ret (v', s2) ->
    add_neighbours overlay_interfaces routes p added' l s2 = Ret (u', s') ->
    exists f', frames s' !! p = Some f' /\ added_to f f' (d :: spread added' (broadcast_plan s l)) /\
      mf_packet_version (mdp f') = lowest_version (Z.min (mf_packet_version (mdp f)) (rt_max_packet_version rt)) (broadcast_plan s l)) as Hadd.
  { intros added' u' v' s2 Hd Hr'. destruct (add_destination_inv p d s1 v' s2 f1 Hd Hf1) as (Hs2 & f2 & Hf2 & Ha2 & Em2).
    { by rewrite Ed1. }
    pose proof (same_routing_trans _ _ _ Hs1 Hs2) as Hs12.
    destruct (IH _ _ _ _ _ Hr' Hf2) as (f' & Hf' & Ha & Hv).
    - unfold added_to in Ha2. rewrite Ha2, length_take. lia.
    - by apply Hi1.
    - exists f'. rewrite (same_routing_plan s s2) in Ha, Hv by done. split; [done|].
      pose proof (added_trans _ _ _ _ _ Ha2 Ha) as Ha'. unfold added_to in Ha' |- *. rewrite Ed1 in Ha'.
      split; [exact Ha'|]. by rewrite Hv, Em2, Ev1. }
  destruct (unicast nd).
  - apply QM_bind_inv in Hr as (v' & s2 & Hd & Hr). by eapply Hadd.
  - apply QM_bind_inv in Hr as (i' & s2 & E4 & Hr). apply q_out_inv in E4 as [E4%or_undef_inv ->].
    rewrite Ei in E4. injection E4 as <-.
    apply QM_bind_inv in Hr as (qi' & s2 & E4 & Hr). apply q_out_inv in E4 as [E4 ->].
    unfold interface_of in E4. rewrite Ei in E4. simpl in E4. rewrite Eqi in E4. injection E4 as <-.
    destruct (negb (qi_send_broadcasts qi) || bool_decide (i ∈ added)); [by eapply Hskip|].
    apply QM_bind_inv in Hr as (v' & s2 & Hd & Hr). by eapply Hadd.
Qed.

(** The destinations a frame is queued with: its own, or for a broadcast without
    any those of the neighbours. *)
Definition planned s (f : overlay_frame) : list packet_destination :=
  match destinations f, mf_destination (mdp f) with
  | [], None => take MAX_PACKET_DESTINATIONS (broadcast_to <$> spread [] (broadcast_plan s neighbours))
  | l, _ => l
  end.
Definition planned_version s (f : overlay_frame) (v : Z) : Z :=
  match destinations f, mf_destination (mdp f) with
  | [], None => lowest_version v (broadcast_plan s neighbours)
  | _, _ => v
  end.
Definition unroutable s (f : overlay_frame) : bool :=
  match planned s f, mf_destination (mdp f) with [], None => true | _, _ => false end.

(** ** Behind the last frame *)

Lemma oq_state_eq s s' :
  frames s = frames s' -> overlay_tx s = overlay_tx s' -> mdp_sequence s = mdp_sequence s' ->
  net_dests s = net_dests s' -> q_loop s = q_loop s' -> q_mesh s = q_mesh s' -> q_heap s = q_heap s' ->
  sent_packets s = sent_packets s' -> wifi_poll s = wifi_poll s' -> q_ticks s = q_ticks s' -> s = s'.
Proof. destruct s, s'. simpl. congruence. Qed.

Definition queued (now : Z) (f : overlay_frame) : overlay_frame :=
  set_mdp (mf_set_sequence (-1)) (set_enqueued_at now f).

Lemma queue_append_run s p f (i : nat) q l :
  frames s !! p = Some f -> mf_queue (mdp f) = Z.of_nat i -> overlay_tx s !! i = Some q ->
  queue_wf (frames s) q l -> p ∉ l -> next f = None -> prev f = None ->
  queue_append clock p s =
  Ret (tt, q_tick (q_set_tx (<[i := q_set_ends (list.head (l ++ [p])) (Some p) (q_length q + 1) q]> (overlay_tx s))
             (q_set_frames (joined (list.last l) (Some p) (<[p := queued (clock (q_ticks s)) f]> (frames s))) s))).
Proof.
  intros Hf Hi Hq [Hs Hb Hl Hlen] Hp En Ep. unfold queue_append. erewrite QM_bind_Ret by (by apply frame_run).
  cbv zeta. rewrite Hi. erewrite QM_bind_Ret by (by apply queue_at_run). rewrite Hl.
  set (m1 := set_of (set_next (Some p)) (list.last l) (frames s)).
  assert (list.last l <> Some p) as Hlp by (by intros ?%list.last_Some_elem_of).
  erewrite (QM_bind_Ret _ _ _ tt (q_set_frames m1 s)).
  2: { unfold m1. destruct (list.last l) as [x|] eqn:El; [|by destruct s].
       apply list.last_Some_elem_of in El. apply (proj1 (list.Forall_forall _ _) (seg_dom _ _ _ _ _ Hs)) in El as [g Hg].
       by erewrite frame_set_alter. }
  assert (m1 !! p = Some f) as Hm1 by (unfold m1; by rewrite set_of_lookup, decide_False).
  do 2 (erewrite QM_bind_Ret by (apply frame_set_run; first [exact Hm1 | apply lookup_insert_eq])).
  erewrite QM_bind_Ret by done.
  do 2 (erewrite QM_bind_Ret by (apply frame_set_run; apply lookup_insert_eq)).
  assert (i < length (overlay_tx s))%nat as Hlt by (by eapply lookup_lt_Some).
  erewrite QM_bind_Ret by (by apply queue_set_run).
  erewrite QM_bind_Ret by (apply queue_set_run; by apply list_lookup_insert_eq).
  erewrite queue_set_run by (apply list_lookup_insert_eq; cbn; rewrite ?length_insert; exact Hlt).
  do 2 f_equal. apply oq_state_eq; try reflexivity; cbn [q_set_frames q_set_tx q_tick frames overlay_tx].
  - rewrite !insert_insert_eq. apply map_eq. intros x. unfold joined. rewrite !set_of_lookup, !lookup_insert. unfold m1.
    rewrite set_of_lookup. destruct (decide (p = x)) as [->|Hne].
    + rewrite (decide_True (P := Some x = Some x)) by done. rewrite decide_False by done. simpl. f_equal.
      destruct f. simpl in *. by subst.
    + rewrite (decide_False (P := Some p = Some x)) by congruence. done.
  - rewrite !list_insert_insert_eq. f_equal. simpl.
    assert (q_first q = list.head l) as -> by (destruct l; [done|by destruct Hs]).
    by destruct l.
Qed.

(** The frame is owned with its new fields. *)
Lemma queued_owns {s ls pend ext} p f now :
  oq_wf n next_packet s ls (p :: pend) ext -> frames s !! p = Some f ->
  owns n (<[p := queued now f]> (frames s)) (q_heap s) (net_dests s) (concat ls ++ p :: pend) ext.
Proof.
  intros Hwf Hf. pose proof (w_owns _ _ _ _ _ _ Hwf) as Ho.
  apply (owns_perm _ _ _ _ _ (p :: concat ls ++ pend) (symmetry (Permutation_middle _ _ _)) ext ext (reflexivity _)) in Ho.
  apply (owns_perm _ _ _ _ _ (p :: concat ls ++ pend) (symmetry (Permutation_middle _ _ _)) ext ext (reflexivity _)).
  pose proof (o_frames _ _ _ _ _ _ Ho p (list_elem_of_here _ _)) as (f0 & Hf0 & Hok). simplify_eq.
  eapply owns_update; [exact Ho|done|done|done|]. pose proof (o_refs _ _ _ _ _ _ Ho) as Hr.
  by rewrite (gather_cons _ _ _ _ _ Hf), <- app_assoc in Hr.
Qed.

(** Its queue, and the others. *)
Lemma appended_queues {s ls pend ext} p f (i : nat) q l now :
  oq_wf n next_packet s ls (p :: pend) ext -> frames s !! p = Some f -> overlay_tx s !! i = Some q -> ls !! i = Some l ->
  Forall2 (queue_wf (joined (list.last l) (Some p) (<[p := queued now f]> (frames s))))
    (<[i := q_set_ends (list.head (l ++ [p])) (Some p) (q_length q + 1) q]> (overlay_tx s)) (<[i := l ++ [p]]> ls).
Proof.
  intros Hwf Hf Hq Hi. destruct (wf_queue Hwf Hi) as (q0 & Hq0 & [Hs Hbk _ Hlen]). simplify_eq.
  destruct (w_pend _ _ _ _ _ _ Hwf p f) as [Ep En]; [apply list_elem_of_here|done|].
  assert (p ∉ l) as Hpl by (intros ?; eapply (pend_not_queued Hwf Hi); [apply list_elem_of_here|done]).
  set (m0 := <[p := _]> (frames s)). assert (m0 !! p = Some (queued now f)) as Hm0 by apply lookup_insert_eq.
  apply (queues_insert (frames s)); [by eapply w_queues| |].
  - assert (seg next m0 (q_first q) l None) as Hs0 by (by apply seg_insert_ne).
    assert (backs prev m0 None l) as Hb0.
    { eapply backs_ext; [|exact Hbk]. intros x g Hx Hin. exists g. unfold m0. rewrite lookup_insert_ne; [done|]. by intros ->. }
    destruct (joined_list m0 (q_first q) None None l [p]) as [Hs' Hb']; [done| |done| | |].
    { simpl. split; [done|]. by exists (queued now f). }
    { simpl. split; [|done]. by exists (queued now f). }
    { apply NoDup_app. split_and!; [by eapply queue_nodup|by intros x Hx ->%list_elem_of_singleton|apply NoDup_singleton]. }
    split; simpl; [exact Hs'|exact Hb'|by rewrite list.last_snoc|]. rewrite Hlen, length_app. simpl. lia.
  - intros j lj x g Hj Hlj Hx Hg. exists g. split; [|done].
    assert (x ∉ l) by (intros ?; apply Hj; exact (disjoint_queues j i lj l x Hwf Hlj Hi Hx ltac:(done))).
    assert (p <> x) by (intros ->; eapply (pend_not_queued Hwf Hlj); [apply list_elem_of_here|done]).
    rewrite joined_other; [|by intros ?%list.last_Some_elem_of|congruence]. unfold m0. by rewrite lookup_insert_ne.
Qed.

(** Every queued frame knows its queue. *)
Lemma appended_number {s ls pend ext} p f (i : nat) l m :
  oq_wf n next_packet s ls (p :: pend) ext -> mf_queue (mdp f) = Z.of_nat i ->
  ls !! i = Some l -> bodies m = bodies (<[p := f]> (frames s)) ->
  forall j lj x g, (<[i := l ++ [p]]> ls) !! j = Some lj -> x ∈ lj -> m !! x = Some g -> mf_queue (mdp g) = Z.of_nat j.
Proof.
  intros Hwf Hm Hi Hb j lj x g Hj Hx Hg.
  apply (f_equal (fun y => y !! x)) in Hb. unfold bodies in Hb. rewrite !lookup_fmap, Hg in Hb.
  destruct ((<[p := f]> (frames s)) !! x) as [g0|] eqn:Hg0; [|done]. apply (inj Some) in Hb.
  change (mdp g) with (mdp (body g)). rewrite Hb. change (mdp (body g0)) with (mdp g0).
  rewrite lookup_insert in Hg0. apply list_lookup_insert_Some in Hj as [(<- & <- & _)|[Hne Hj]].
  - case_decide; [congruence|]. apply elem_of_app in Hx as [Hx| ->%list_elem_of_singleton]; [|done].
    by eapply (w_number _ _ _ _ _ _ Hwf).
  - case_decide as E; [|by eapply (w_number _ _ _ _ _ _ Hwf)]. subst x. exfalso.
    eapply (pend_not_queued Hwf Hj); [apply list_elem_of_here|done].
Qed.

Lemma queue_append_spec {s ls pend ext} p f (i : nat) l :
  oq_wf n next_packet s ls (p :: pend) ext -> frames s !! p = Some f -> mf_queue (mdp f) = Z.of_nat i ->
  ls !! i = Some l ->
  exists s', queue_append clock p s = Ret (tt, s') /\ oq_wf n next_packet s' (<[i := l ++ [p]]> ls) pend ext /\
    undisturbed s s' /\ net_dests s' = net_dests s /\
    bodies (frames s') = bodies (<[p := queued (clock (q_ticks s)) f]> (frames s)).
Proof.
  intros Hwf Hf Hm Hi. destruct (wf_queue Hwf Hi) as (q & Hq & Hw).
  destruct (w_pend _ _ _ _ _ _ Hwf p f) as [Ep En]; [apply list_elem_of_here|done|].
  assert (p ∉ l) as Hpl by (intros ?; eapply (pend_not_queued Hwf Hi); [apply list_elem_of_here|done]).
  rewrite (queue_append_run s p f i q l) by done. eexists. split; [done|].
  set (m0 := <[p := queued _ f]> (frames s)).
  assert (concat (<[i := l ++ [p]]> ls) ++ pend ≡ₚ concat ls ++ p :: pend) as Eperm.
  { destruct (concat_insert ls i l Hi) as (r & E & E'). rewrite E, E', <- !app_assoc. simpl.
    by rewrite <- !Permutation_middle. }
  split; [|split; [|split; [done|apply joined_bodies]]].
  - split.
    + by eapply appended_queues.
    + rewrite length_insert. by eapply w_five.
    + eapply owns_perm; [exact Eperm|done|]. eapply owns_ext; [apply joined_bodies|].
      exact (queued_owns p f _ Hwf Hf).
    + intros x g Hx. cbn [q_tick q_set_tx q_set_frames frames].
      assert (x ∉ l) by (intros ?; eapply (pend_not_queued Hwf Hi); [by apply list_elem_of_further|done]).
      assert (p <> x).
      { intros ->. pose proof (o_nodup _ _ _ _ _ _ (w_owns _ _ _ _ _ _ Hwf)) as (_ & _ & Hn)%NoDup_app.
        by apply NoDup_cons in Hn as [? _]. }
      rewrite joined_other; [|by intros ?%list.last_Some_elem_of|congruence].
      unfold m0. rewrite lookup_insert_ne by done. apply (w_pend _ _ _ _ _ _ Hwf). by apply list_elem_of_further.
    + eapply appended_number; [exact Hwf| |exact Hi|apply joined_bodies]. exact Hm.
    + exact (w_alarm _ _ _ _ _ _ Hwf).
  - split; try done. simpl. by eapply settings_insert.
Qed.

(** ** [_overlay_payload_enqueue] *)

Abbreviation ok s ls pend ext := (oq_wf n next_packet s ls pend ext).

(** A frame changes in nothing that is counted. *)
Lemma frame_set_spec {s ls pend ext p f} g :
  ok s ls pend ext -> p ∈ concat ls ++ pend -> frames s !! p = Some f ->
  next (g f) = next f -> prev (g f) = prev f -> mf_queue (mdp (g f)) = mf_queue (mdp f) ->
  mf_payload (mdp (g f)) = mf_payload (mdp f) -> pd_destination <$> destinations (g f) = pd_destination <$> destinations f ->
  exists s', frame_set p g s = Ret (tt, s') /\ ok s' ls pend ext /\ undisturbed s s' /\
    frames s' = <[p := g f]> (frames s) /\ net_dests s' = net_dests s /\ overlay_tx s' = overlay_tx s.
Proof.
  intros Hwf Hin Hf En Ep Eq Epl Ed. erewrite frame_set_run by exact Hf. eexists. split; [done|]. split; [|done].
  assert (frame_refs (g f) = frame_refs f) as Er.
  { unfold frame_refs, refs. revert Ed. generalize (destinations (g f)) (destinations f). clear.
    induction l as [|x l IH]; intros [|y k] E; simplify_eq/=; [done|]. rewrite H. by destruct (pd_destination y); rewrite (IH k). }
  pose proof (w_owns _ _ _ _ _ _ Hwf) as [_ Hfr Hr _ _]. destruct (Hfr p Hin) as (f0 & Hf0 & [Hpay Hd]). simplify_eq.
  eapply (wf_update _ p f (g f)); try done.
  - unfold frame_block. by rewrite Epl.
  - split; [by rewrite Epl|]. apply (proj1 (Forall_fmap pd_destination is_Some _)). rewrite Ed.
    by apply (proj2 (Forall_fmap pd_destination is_Some _)).
  - intros k Ek. rewrite Er. by rewrite (gather_perm _ _ _ _ Ek), (gather_cons _ _ _ _ _ Hf), <- app_assoc in Hr.
  - exact (w_alarm _ _ _ _ _ _ Hwf).
Qed.

(** A frame that is not queued is freed. *)
Lemma free_pending {s ls pend ext} p f :
  ok s ls (p :: pend) ext -> frames s !! p = Some f -> destinations f = [] ->
  exists s', frame_free p s = Ret (0, s') /\ ok s' ls pend ext /\ undisturbed s s' /\
    frames s' = delete p (frames s) /\ net_dests s' = net_dests s.
Proof.
  intros Hwf Hf Hd. destruct (w_pend _ _ _ _ _ _ Hwf p f) as [Ep En]; [apply list_elem_of_here|done|].
  pose proof (w_owns _ _ _ _ _ _ Hwf) as Ho.
  apply (owns_perm _ _ _ _ _ (p :: concat ls ++ pend) (symmetry (Permutation_middle _ _ _)) ext ext (reflexivity _)) in Ho.
  destruct (o_frames _ _ _ _ _ _ Ho p (list_elem_of_here _ _)) as (f0 & Hf0 & Hok). simplify_eq.
  assert (still_linked p s = Ret (false, s)) as Hsl by (apply (still_linked_run p f); try done; congruence).
  pose proof (o_heap _ _ _ _ _ _ Ho) as Hh. rewrite (gather_cons _ _ _ _ _ Hf) in Hh. apply Forall_app in Hh as [Hh _].
  pose proof (o_nodup _ _ _ _ _ _ Ho) as [Hni _]%NoDup_cons. apply not_elem_of_app in Hni as [Hnc Hnp].
  rewrite (frame_free_run p f s) by done. eexists. split; [done|]. split; [|done]. split.
  - pose proof (w_queues _ _ _ _ _ _ Hwf) as HF. apply Forall2_same_length_lookup_2; [by eapply Forall2_length|].
    intros j q l Hj Hl. eapply queue_wf_ext; [|by eapply Forall2_lookup_lr].
    intros x g Hx Hin. exists g. split; [|done]. cbn [q_set_frames frames]. rewrite lookup_delete_ne; [done|].
    intros ->. apply Hnc. by eapply elem_of_concat_lookup.
  - by eapply w_five.
  - pose proof (owns_free _ _ _ _ _ _ _ _ Ho Hf) as Hfree. unfold frame_refs in Hfree. by rewrite Hd in Hfree.
  - intros x g Hx Hg. cbn [q_set_frames frames] in Hg. apply lookup_delete_Some in Hg as [_ Hg]. eapply (w_pend _ _ _ _ _ _ Hwf); [|exact Hg]. by apply list_elem_of_further.
  - intros j l x g Hj Hx Hg. cbn [q_set_frames frames] in Hg. apply lookup_delete_Some in Hg as [_ Hg]. by eapply (w_number _ _ _ _ _ _ Hwf).
  - exact (w_alarm _ _ _ _ _ _ Hwf).
Qed.

(** The end of [_overlay_payload_enqueue]: the frame [p] goes to the queue. *)
Lemma enter_queue {s ls pend ext} p f (i : nat) l :
  ok s ls (p :: pend) ext -> frames s !! p = Some f -> mf_queue (mdp f) = Z.of_nat i -> ls !! i = Some l ->
  exists s' f',
    (frame_set p unsent;; queue_append clock p;; overlay_calc_queue_time clock next_packet overlay_interfaces p;; mret 0) s
      = Ret (0, s') /\ ok s' (<[i := l ++ [p]]> ls) pend ext /\ undisturbed s s' /\
    frames s' !! p = Some f' /\ body f' = body (queued (clock (q_ticks s)) (unsent f)) /\
    (forall x, x <> p -> body <$> frames s' !! x = body <$> frames s !! x) /\
    (timely clock (net_dests s) -> Exists (idle_radio overlay_interfaces (net_dests s')) (destinations f') ->
     exists e, ents (q_loop s') !! next_packet = Some e /\ alarm e <> 0 /\ armed e).
Proof.
  intros Hwf Hf Hm Hi.
  destruct (frame_set_spec unsent Hwf ltac:(apply elem_of_app; right; apply list_elem_of_here) Hf)
    as (s1 & Hr1 & Hwf1 & Hu1 & Ef1 & En1 & Et1); try done.
  { simpl. rewrite <- list_fmap_compose. done. }
  assert (q_ticks s1 = q_ticks s) as Eticks by (erewrite frame_set_run in Hr1 by exact Hf; by simplify_eq/=).
  assert (frames s1 !! p = Some (unsent f)) as Hf1 by (rewrite Ef1; apply lookup_insert_eq).
  destruct (queue_append_spec p (unsent f) i l Hwf1 Hf1 Hm Hi) as (s2 & Hr2 & Hwf2 & Hu2 & En2 & Eb2).
  assert (forall x, body <$> frames s2 !! x = body <$> (<[p := queued (clock (q_ticks s)) (unsent f)]> (frames s)) !! x) as Hb.
  { intros x. rewrite <- !lookup_fmap. rewrite Ef1, insert_insert_eq, Eticks in Eb2. exact (f_equal (fun y => y !! x) Eb2). }
  pose proof (Hb p) as Hbp. rewrite lookup_insert_eq in Hbp. destruct (frames s2 !! p) as [f'|] eqn:Hf'; [|done].
  apply (inj Some) in Hbp.
  assert (p ∈ concat (<[i := l ++ [p]]> ls) ++ pend) as Hin2.
  { apply elem_of_app. left. eapply elem_of_concat_lookup; [apply list_lookup_insert_eq; by eapply lookup_lt_Some|].
    apply elem_of_app. right. apply list_elem_of_here. }
  destruct (calc_queue_time_spec clock next_packet overlay_interfaces p f' Hwf2 eq_refl Hin2 Hf') as (ds & t & lp & Hr3 & Hwf3 & Hsh & Ht).
  { change (mdp f') with (mdp (body f')). rewrite Hbp. cbn. rewrite Hm. apply lookup_lt_Some in Hi.
    rewrite (w_five _ _ _ _ _ _ Hwf) in Hi. unfold OQ_MAX in *. lia. }
  exists (timed s2 ds t lp), f'. erewrite QM_bind_Ret by exact Hr1. erewrite QM_bind_Ret by exact Hr2.
  erewrite QM_bind_Ret by exact Hr3. split_and!; try done.
  - etrans; [exact Hu1|]. etrans; [exact Hu2|]. apply timed_undisturbed.
  - intros x Hx. cbn [timed frames]. rewrite Hb, lookup_insert_ne by done. done.
  - intros Hy Hx. rewrite En2, En1 in Ht, Hsh. apply Ht; [done|].
    eapply list.Exists_impl; [exact Hx|]. intros x. by apply idle_radio_shape.
Qed.

(** The same payload for the same subscriber. *)
Definition same_content (f f' : overlay_frame) : Prop :=
  mf_type (mdp f') = mf_type (mdp f) /\ mf_queue (mdp f') = mf_queue (mdp f) /\
  mf_source (mdp f') = mf_source (mdp f) /\ mf_destination (mdp f') = mf_destination (mdp f) /\
  mf_payload (mdp f') = mf_payload (mdp f).
Lemma same_content_trans f1 f2 f3 : same_content f1 f2 -> same_content f2 f3 -> same_content f1 f3.
Proof. unfold same_content. intuition congruence. Qed.
Lemma routed_content f f' : routed_frame f f' -> same_content f f'.
Proof. by intros (v & l & ->). Qed.

(** Steps of [_overlay_payload_enqueue] before the frame is queued: [f] becomes
    [f'] and nothing else in the queues changes. *)
Record preparing s s' ls pend ext p f f' : Prop := {
  pr_ok : ok s' ls pend ext;
  pr_undisturbed : undisturbed s s';
  pr_frames : frames s' = <[p := f']> (frames s);
  pr_content : same_content f f';
  pr_limits : limits_ok (net_dests s) -> limits_ok (net_dests s')
}.

Lemma preparing_trans s1 s2 s3 ls pend ext p f1 f2 f3 :
  preparing s1 s2 ls pend ext p f1 f2 -> preparing s2 s3 ls pend ext p f2 f3 -> preparing s1 s3 ls pend ext p f1 f3.
Proof.
  intros [_ Hu1 E1 Hc1 Hl1] [Ho Hu2 E2 Hc2 Hl2]. split; [done|by etrans| |by eapply same_content_trans|auto].
  by rewrite E2, E1, insert_insert_eq.
Qed.

Lemma allow_resend_spec {s ls pend ext p f} :
  ok s ls pend ext -> p ∈ concat ls ++ pend -> frames s !! p = Some f ->
  exists s' f', frame_set p (fun f => if resend f =? 0 then set_resend 1 f else f) s = Ret (tt, s') /\
    preparing s s' ls pend ext p f f' /\ destinations f' = destinations f /\ mdp f' = mdp f.
Proof.
  intros Hwf Hin Hf. destruct (frame_set_spec (fun f => if resend f =? 0 then set_resend 1 f else f) Hwf Hin Hf)
    as (s' & Hr & Hwf' & Hu & Ef & En & _); try by destruct (_ =? _).
  exists s', (if resend f =? 0 then set_resend 1 f else f). split; [exact Hr|]. split; [|by destruct (_ =? _)].
  split; [done|done|exact Ef|by destruct (_ =? _)|by rewrite En].
Qed.

Lemma find_route_spec {s ls pend ext} p f g :
  ok s ls (p :: pend) ext -> routes_ok (subs (q_mesh s)) ext -> frames s !! p = Some g -> known_destination s g ->
  destinations g = destinations f -> mf_destination (mdp g) = mf_destination (mdp f) ->
  exists nowhere s' f',
    (if (length (destinations f) =? 0)%nat then
          none ← (match mf_destination (mdp f) with
                  | None =>
                      link_add_destinations clock overlay_interfaces routes neighbours directory_service p;;
                      g ← frame p;
                      mret (length (destinations g) =? 0)%nat
                  | Some _ => mret false
                  end);
          if none : bool then mret true
          else frame_set p (fun f => if resend f =? 0 then set_resend 1 f else f);; mret false
        else mret false) s = Ret (nowhere, s') /\ preparing s s' ls (p :: pend) ext p g f' /\
    nowhere = unroutable s g /\ destinations f' = planned s g /\
    mf_packet_version (mdp f') = planned_version s g (mf_packet_version (mdp g)).
Proof.
  intros Hwf Hro Hg Hk Ed Em. assert (p ∈ concat ls ++ p :: pend) as Hin by (apply elem_of_app; right; apply list_elem_of_here).
  assert (preparing s s ls (p :: pend) ext p g g) as Hsame by (split; try done; by rewrite insert_id).
  assert (forall s1 f1, preparing s s1 ls (p :: pend) ext p g f1 -> exists s' f',
            (frame_set p (fun f => if resend f =? 0 then set_resend 1 f else f);; mret false) s1 = Ret (false, s') /\
            preparing s s' ls (p :: pend) ext p g f' /\ destinations f' = destinations f1 /\ mdp f' = mdp f1) as Hresend.
  { intros s1 f1 Hp1. destruct (allow_resend_spec (f := f1) (pr_ok _ _ _ _ _ _ _ _ Hp1) Hin) as (s' & f' & Hr & Hp' & Ed' & Em').
    { rewrite (pr_frames _ _ _ _ _ _ _ _ Hp1). apply lookup_insert_eq. }
    exists s', f'. erewrite QM_bind_Ret by exact Hr. split; [done|]. split; [by eapply preparing_trans|done]. }
  unfold unroutable, planned_version, planned. rewrite Ed, Em.
  destruct (Nat.eqb_spec (length (destinations f)) 0) as [H0|H0].
  2: { exists false, s, g. split; [done|]. split; [done|]. rewrite Ed. by destruct (destinations f). }
  apply length_zero_iff_nil in H0. rewrite H0 in Ed |- *. destruct (mf_destination (mdp f)) as [dst|] eqn:Edst.
  - destruct (Hresend s g Hsame) as (s' & f' & Hr & Hp & Ed' & Em'). exists false, s', f'. split; [exact Hr|].
    split; [done|]. rewrite Ed', Em'. by rewrite Ed.
  - destruct (link_add_destinations_spec Hin s g Hwf Hro Hg Hk) as (s1 & Hr1 & Ht1).
    destruct (r_frame _ _ _ _ _ _ _ _ Ht1) as (g0 & f1 & Hg0 & Hrf & Ef1). simplify_eq.
    assert (preparing s s1 ls (p :: pend) ext p g f1) as Hp1.
    { split; [apply Ht1|apply Ht1|done|by apply routed_content|apply Ht1]. }
    assert (frames s1 !! p = Some f1) as Hf1 by (rewrite Ef1; apply lookup_insert_eq).
    assert (destinations f1 = take MAX_PACKET_DESTINATIONS (broadcast_to <$> spread [] (broadcast_plan s neighbours)) /\
            mf_packet_version (mdp f1) = lowest_version (mf_packet_version (mdp g)) (broadcast_plan s neighbours)) as [Hd1 Hv1].
    { pose proof Hr1 as Hrn. unfold link_add_destinations in Hrn.
      rewrite (QM_bind_Ret _ _ _ _ _ (frame_run p g s Hg)) in Hrn. rewrite Em in Hrn.
      destruct (add_neighbours_inv _ _ _ _ _ _ _ Hrn Hg) as (f1' & Hf1' & Ha & Hv); [rewrite Ed; simpl; lia| |].
      - apply Forall_forall. intros nb _ x d nd Hx Hdir Hd Hnd.
        destruct (rk_direct _ _ Hro _ _ Hx Hdir) as (rt & d' & Hrt & Hd' & Hext). rewrite Hrt in Hd.
        simpl in Hd. simplify_eq.
        destruct (alive_interface overlay_interfaces _ (net_dests s) d (o_refs _ _ _ _ _ _ (w_owns _ _ _ _ _ _ Hwf)))
          as (nd' & i & qi & Hnd' & Hi & Hqi & _); [rewrite elem_of_app; auto|]. simplify_eq. by exists i, qi.
      - simplify_eq. split; [|done]. unfold added_to in Ha. by rewrite Ed in Ha. }
    rewrite QM_bind_assoc. erewrite QM_bind_Ret by exact Hr1. rewrite QM_bind_assoc.
    erewrite QM_bind_Ret by (by apply frame_run). erewrite QM_bind_Ret by done. rewrite <- Hd1, <- Hv1.
    destruct (Nat.eqb_spec (length (destinations f1)) 0) as [H1|H1].
    + apply length_zero_iff_nil in H1. exists true, s1, f1. by rewrite H1.
    + destruct (Hresend s1 f1 Hp1) as (s' & f' & Hr & Hp & Ed' & Em'). exists false, s', f'. split; [exact Hr|].
      split; [done|]. rewrite Ed', Em'. by destruct (destinations f1).
Qed.
End enqueue.
