(* ===== verification/OverlayQueueStuff.v ===== *)
(** * The transmit queues: frames that have to wait

    While a packet is being filled, frames whose time is over are dropped and
    frames that may not go into the packet stay where they are. *)

From stdpp Require Import base tactics list fin_maps gmap.
From Stdlib Require Import ZArith Lia.
From S2P Require Import Prelude Memory OverlayBuffer Limit OverlayAddress OverlayPacket FdQueue FdQueueLists.
From S2P Require Import FdQueueSpec RadioLink Linked OverlayQueue OverlayQueueAlarm OverlayQueueSpec.
From S2P Require Import OverlayQueueRemove OverlayQueueTime.

Local Open Scope Z_scope.
Implicit Types (s : oq_state) (m : gmap nat overlay_frame) (ds : gmap nat network_destination).

Definition expired (latency now : Z) (f : overlay_frame) : bool := enqueued_at f + latency <? now.

Section stuff.
Context {AR : Arch} {AL : Allocator}.
Context (clock : nat -> Z) (next_packet : nat) (overlay_interfaces : list queue_interface)
        (routes : gmap nat route) (neighbours : list neighbour) (directory_service : option nat)
        (hook : nat -> Z -> QM bool).
Abbreviation n := (length overlay_interfaces).
Abbreviation stuff :=
  (stuff_frame clock next_packet overlay_interfaces routes neighbours directory_service hook).

(** How a packet that was started is addressed. *)
Definition encapsulated ds (packet : outgoing_packet) (c : Z) : Prop :=
  exists d nd, op_destination packet = Some d /\ ds !! d = Some nd /\ nd_encapsulation nd = c.

(** Nothing of the frame goes into the packet now: it is not due, or the packet
    takes no more frames ([c] is its encapsulation), or its payload may grow beyond
    what is left of the packet. *)
Definition waits (packet : outgoing_packet) (c now : Z) (f : overlay_frame) : bool :=
  (now <? delay_until f) ||
  match op_buffer packet, mf_payload (mdp f) with
  | Some b, Some payload => (c =? ENCAP_SINGLE) || (sizeLimit b - position b <? sizeLimit payload)
  | _, _ => false
  end.

(** A packet that is being filled. *)
Definition packet_ok ds (ext : list nat) (packet : outgoing_packet) (c : Z) : Prop :=
  forall b, op_buffer packet = Some b ->
    sizeLimit b <> SIZE_MAX /\ position b <= sizeLimit b /\ encapsulated ds packet c /\
    exists d, op_destination packet = Some d /\ d ∈ ext.

(** ** What keeps the packet as it is *)

Lemma release1_lookup x ds d nd' :
  release1 x ds !! d = Some nd' -> exists nd, ds !! d = Some nd /\ nd_encapsulation nd' = nd_encapsulation nd.
Proof.
  unfold release1. destruct (ds !! x) as [y|] eqn:Ey; [|by exists nd']. destruct (_ <=? _).
  - intros [_ H]%lookup_delete_Some. by exists nd'.
  - intros [[<- <-]|[_ H]]%lookup_insert_Some; [by exists y|by exists nd'].
Qed.
Lemma refs_released_lookup l ds d nd nd' :
  refs_released l ds !! d = Some nd' -> ds !! d = Some nd -> nd_encapsulation nd' = nd_encapsulation nd.
Proof.
  revert nd'. unfold refs_released. induction l as [|x l IH]; intros nd' H Hd; simpl in H; [congruence|].
  apply release1_lookup in H as (nd1 & H & ->). exact (IH _ H Hd).
Qed.

Lemma packet_ok_step {np s s' ls pend ext} packet c :
  packet_ok (net_dests s) ext packet c -> oq_wf n np s' ls pend ext ->
  (forall d nd nd', net_dests s !! d = Some nd -> net_dests s' !! d = Some nd' -> nd_encapsulation nd' = nd_encapsulation nd) ->
  packet_ok (net_dests s') ext packet c.
Proof.
  intros Hp Hwf He b Hb. destruct (Hp b Hb) as (? & ? & (d & nd & Hd & Hnd & Ec) & d' & Hd' & Hin). simplify_eq.
  split_and!; try done; [|by exists d].
  destruct (counted_lookup _ _ _ d (o_refs _ _ _ _ _ _ (w_owns _ _ _ _ _ _ Hwf))) as [nd1 Hnd1]; [rewrite elem_of_app; auto|].
  exists d, nd1. split_and!; try done. by eapply He.
Qed.

(** ** One frame *)

Lemma skip_frame_spec {s ls pend ext} packet c (i : nat) l1 p l2 f :
  oq_wf n next_packet s ls pend ext -> packet_ok (net_dests s) ext packet c ->
  ls !! i = Some (l1 ++ p :: l2) -> frames s !! p = Some f ->
  exists s', skip_frame clock next_packet overlay_interfaces packet p s = Ret ((list.head l2, packet), s') /\
    undisturbed s s' /\ packet_ok (net_dests s') ext packet c /\
    oq_wf n next_packet s' (<[i := l1 ++ p :: l2]> ls) pend ext /\ bodies (frames s') = bodies (frames s).
Proof.
  intros Hwf Hpk Hi Hf. assert (p ∈ l1 ++ p :: l2) as Hpl by (apply elem_of_app; right; apply list_elem_of_here).
  assert (p ∈ concat ls ++ pend) as Hin by (apply elem_of_app; left; by eapply elem_of_concat_lookup).
  destruct (wf_queue Hwf Hi) as (q0 & _ & Hwq). destruct (mid_links _ _ _ _ _ _ Hwq Hf) as (_ & Hn & _).
  destruct (calc_queue_time_spec clock next_packet overlay_interfaces p f Hwf eq_refl Hin Hf) as (ds & t & l' & Hr & Hwf' & Hsh & _).
  { rewrite (w_number _ _ _ _ _ _ Hwf i _ p f Hi Hpl Hf). apply lookup_lt_Some in Hi.
    rewrite (w_five _ _ _ _ _ _ Hwf) in Hi. unfold OQ_MAX in *. lia. }
  exists (timed s ds t l'). unfold skip_frame. rewrite (QM_bind_Ret _ _ _ _ _ Hr).
  assert (frames (timed s ds t l') !! p = Some f) as Hft by done. rewrite (QM_bind_Ret _ _ _ _ _ (frame_run _ _ _ Hft)), Hn.
  split_and!; try done; [|by rewrite list_insert_id].
  eapply packet_ok_step; [done|done|]. intros d nd nd' Hd Hd'.
  destruct (same_shape_lookup _ _ _ _ Hsh Hd) as (nd2 & Hnd2 & Es). cbn in Hd'. injection Es. congruence.
Qed.

Lemma stuff_frame_spec {s ls pend ext} packet c now (i : nat) q l1 p l2 f :
  oq_wf n next_packet s ls pend ext -> packet_ok (net_dests s) ext packet c ->
  overlay_tx s !! i = Some q -> ls !! i = Some (l1 ++ p :: l2) -> frames s !! p = Some f ->
  expired (latencyTarget q) now f = true \/ waits packet c now f = true ->
  exists s', stuff packet (Z.of_nat i) now p s = Ret ((list.head l2, packet), s') /\ undisturbed s s' /\
    packet_ok (net_dests s') ext packet c /\
    oq_wf n next_packet s' (<[i := l1 ++ if expired (latencyTarget q) now f then l2 else p :: l2]> ls) pend ext /\
    bodies (frames s') = if expired (latencyTarget q) now f then delete p (bodies (frames s)) else bodies (frames s).
Proof.
  intros Hwf Hpk Hq Hi Hf Hcase. unfold stuff_frame. rewrite !(QM_bind_Ret _ _ _ _ _ (frame_run p f s Hf)).
  rewrite !(QM_bind_Ret _ _ _ _ _ (queue_at_run i q s Hq)). unfold expired in *.
  destruct (_ <? now) eqn:Ee.
  - destruct (remove_spec i l1 p l2 f Hwf Hi Hf) as (s' & Hr & Hwf' & Hu & Hb & En & _).
    exists s'. unfold drop_frame. rewrite (QM_bind_Ret _ _ _ _ _ Hr). split_and!; try done.
    eapply packet_ok_step; [done|done|]. intros d nd nd' Hd Hd'. rewrite En in Hd'. by eapply refs_released_lookup.
  - destruct Hcase as [|Hw]; [done|].
    pose proof (skip_frame_spec packet c i l1 p l2 f Hwf Hpk Hi Hf) as Hskip.
    unfold waits in Hw. destruct (now <? delay_until f); [exact Hskip|]. cbn [orb] in Hw.
    destruct (op_buffer packet) as [b|] eqn:Eb; [|done]. destruct (mf_payload (mdp f)) as [payload|] eqn:Ep; [|done].
    destruct (Hpk b Eb) as (Hlim & Hpos & (d & nd & Hd & Hnd & Ec) & _).
    assert (packet_closed packet s = Ret (c =? ENCAP_SINGLE, s)) as Hc.
    { unfold packet_closed. rewrite Eb, Hd. by rewrite (QM_bind_Ret _ _ _ _ _ (q_out_run d s)), (QM_bind_Ret _ _ _ _ _ (net_dest_run _ _ _ Hnd)), Ec. }
    rewrite (QM_bind_Ret _ _ _ _ _ Hc). destruct (c =? ENCAP_SINGLE); [exact Hskip|]. cbn [orb] in Hw.
    assert (payload_cannot_fit packet f s = Ret (true, s)) as Hfit.
    { unfold payload_cannot_fit. rewrite Eb, Ep. rewrite (QM_bind_Ret _ _ _ _ _ (q_out_run payload s)). unfold ob_remaining.
      rewrite (proj2 (Z.eqb_neq _ _) Hlim), (proj2 (Z.leb_le _ _) Hpos). cbn [negb cassert]. unfold ob_limit.
      unfold q_out, mbind, QM_bind. simpl. by rewrite Hw. }
    rewrite (QM_bind_Ret _ _ _ _ _ Hfit). exact Hskip.
Qed.

(** ** A queue *)

Definition unexpired (latency now : Z) m (l : list nat) : list nat :=
  filter (fun p => from_option (expired latency now) false (m !! p) = false) l.

Lemma expired_body latency now (o o' : option overlay_frame) :
  body <$> o' = body <$> o -> from_option (expired latency now) false o' = from_option (expired latency now) false o.
Proof. destruct o' as [f'|], o as [f|]; try done. intros E. apply (inj Some) in E. exact (f_equal (expired latency now) E). Qed.

Lemma unexpired_ext latency now m m' l :
  (forall x, x ∈ l -> body <$> m' !! x = body <$> m !! x) -> unexpired latency now m' l = unexpired latency now m l.
Proof.
  unfold unexpired. induction l as [|p l IH]; intros H; [done|].
  rewrite !filter_cons, IH by (intros x Hx; apply H; by apply list_elem_of_further).
  assert (from_option (expired latency now) false (m' !! p) = from_option (expired latency now) false (m !! p)) as ->; [|done].
  apply expired_body, H, list_elem_of_here.
Qed.

(** All frames of [l] are over time or have to wait. *)
Definition all_wait (latency : Z) packet c now m (l : list nat) : Prop :=
  forall p f, p ∈ l -> m !! p = Some f -> expired latency now f = true \/ waits packet c now f = true.

Lemma all_wait_ext latency packet c now m m' l :
  (forall x, x ∈ l -> body <$> m' !! x = body <$> m !! x) -> all_wait latency packet c now m l ->
  all_wait latency packet c now m' l.
Proof.
  intros Hb H p f Hp Hf. pose proof (Hb p Hp) as E. rewrite Hf in E. destruct (m !! p) as [g|] eqn:Hg; [|done].
  apply (inj Some) in E. destruct (H p g Hp Hg) as [He|Hw]; [left|right].
  - rewrite <- He. exact (f_equal (expired latency now) E).
  - rewrite <- Hw. exact (f_equal (waits packet c now) E).
Qed.

Lemma settings_latency (tx tx' : list overlay_txqueue) (i : nat) q :
  settings <$> tx' = settings <$> tx -> tx !! i = Some q ->
  exists q', tx' !! i = Some q' /\ latencyTarget q' = latencyTarget q.
Proof.
  intros E Hq. apply (f_equal (fun l => l !! i)) in E. rewrite !list_lookup_fmap, Hq in E.
  destruct (tx' !! i) as [q'|]; [|done]. exists q'. split; [done|]. apply (inj Some) in E. exact (f_equal latencyTarget E).
Qed.

Lemma stuff_loop_spec packet c now (i : nat) l2 : forall fuel l1 s ls pend ext q,
  oq_wf n next_packet s ls pend ext -> packet_ok (net_dests s) ext packet c ->
  overlay_tx s !! i = Some q -> ls !! i = Some (l1 ++ l2) -> (length l2 <= fuel)%nat ->
  all_wait (latencyTarget q) packet c now (frames s) l2 ->
  exists s', stuff_loop clock next_packet overlay_interfaces routes neighbours directory_service hook fuel packet (Z.of_nat i) now (list.head l2) s
      = Ret (packet, s') /\ undisturbed s s' /\
    oq_wf n next_packet s' (<[i := l1 ++ unexpired (latencyTarget q) now (frames s) l2]> ls) pend ext /\
    (forall x, body <$> frames s' !! x =
       if decide (x ∈ l2 /\ from_option (expired (latencyTarget q) now) false (frames s !! x) = true) then None
       else body <$> frames s !! x).
Proof.
  induction l2 as [|p l2 IH]; intros fuel l1 s ls pend ext q Hwf Hpk Hq Hi Hfuel Hall.
  - exists s. split; [by destruct fuel|]. split; [done|]. split; [by rewrite list_insert_id|].
    intros x. rewrite decide_False; [done|]. by intros [[]%elem_of_nil _].
  - destruct fuel as [|fuel]; simpl in Hfuel; [lia|].
    destruct (o_frames _ _ _ _ _ _ (w_owns _ _ _ _ _ _ Hwf) p) as (f & Hf & _).
    { apply elem_of_app. left. eapply elem_of_concat_lookup; [exact Hi|]. apply elem_of_app. right. apply list_elem_of_here. }
    destruct (stuff_frame_spec packet c now i q l1 p l2 f Hwf Hpk Hq Hi Hf (Hall p f ltac:(apply list_elem_of_here) Hf))
      as (s1 & Hr & Hu & Hpk1 & Hwf1 & Hb).
    set (dead := expired (latencyTarget q) now f) in *.
    assert (forall x, body <$> frames s1 !! x = if decide (x = p /\ dead = true) then None else body <$> frames s !! x) as Hb1.
    { intros x. rewrite <- !lookup_fmap. change (body <$> frames s1) with (bodies (frames s1)). rewrite Hb.
      destruct dead; [|rewrite decide_False by (by intros [_ ?]); done]. destruct (decide (x = p)) as [->|Hne].
      - rewrite decide_True by done. apply lookup_delete_eq.
      - rewrite decide_False by (by intros [? _]). by rewrite lookup_delete_ne. }
    pose proof (queue_nodup Hwf Hi) as Hnd. destruct (last_not_in _ _ _ Hnd) as (_ & _ & Hpl).
    assert (forall x, x ∈ l2 -> body <$> frames s1 !! x = body <$> frames s !! x) as Hb2.
    { intros x Hx. rewrite Hb1, decide_False; [done|]. by intros [-> _]. }
    destruct (settings_latency _ _ i q (u_settings _ _ Hu) Hq) as (q1 & Hq1 & Eq1).
    set (l1' := l1 ++ if dead then [] else [p]).
    destruct (IH fuel l1' s1 (<[i := l1' ++ l2]> ls) pend ext q1) as (s' & Hr' & Hu' & Hwf' & Hb'); try done.
    { replace (l1' ++ l2) with (l1 ++ if dead then l2 else p :: l2); [done|]. unfold l1'. rewrite <- app_assoc. by destruct dead. }
    { apply list_lookup_insert_eq. by eapply lookup_lt_Some. }
    { lia. }
    { rewrite Eq1. eapply all_wait_ext; [exact Hb2|]. intros x g Hx. apply Hall. by apply list_elem_of_further. }
    rewrite Eq1 in Hwf', Hb'. exists s'. simpl. rewrite (QM_bind_Ret _ _ _ _ _ Hr). split; [exact Hr'|]. split; [by transitivity s1|]. split.
    + rewrite list_insert_insert_eq, (unexpired_ext _ _ (frames s)) in Hwf' by done. unfold unexpired at 1. rewrite filter_cons, Hf.
      unfold l1' in Hwf'. rewrite <- app_assoc in Hwf'. cbn [from_option]. fold dead. by destruct dead.
    + intros x. rewrite Hb'. destruct (decide (x ∈ l2)) as [Hx|Hx].
      * rewrite (expired_body _ _ _ _ (Hb2 x Hx)), (Hb2 x Hx). apply decide_ext. rewrite elem_of_cons. tauto.
      * rewrite decide_False by (by intros [? _]). rewrite Hb1. apply decide_ext. rewrite elem_of_cons.
        split; [|by intros [[->|?] E]; [rewrite Hf in E|]]. intros [-> Hd]. rewrite Hf. auto.
Qed.

Lemma stuff_packet_spec {s ls pend ext} packet c now (i : nat) q l :
  oq_wf n next_packet s ls pend ext -> packet_ok (net_dests s) ext packet c ->
  overlay_tx s !! i = Some q -> ls !! i = Some l -> all_wait (latencyTarget q) packet c now (frames s) l ->
  exists s', overlay_stuff_packet clock next_packet overlay_interfaces routes neighbours directory_service hook packet (Z.of_nat i) now s
      = Ret (packet, s') /\ undisturbed s s' /\
    oq_wf n next_packet s' (<[i := unexpired (latencyTarget q) now (frames s) l]> ls) pend ext /\
    (forall x, body <$> frames s' !! x =
       if decide (x ∈ l /\ from_option (expired (latencyTarget q) now) false (frames s !! x) = true) then None
       else body <$> frames s !! x).
Proof.
  intros Hwf Hpk Hq Hi Hall. destruct (wf_queue Hwf Hi) as (q0 & Hq0 & Hw). simplify_eq.
  unfold overlay_stuff_packet. rewrite (QM_bind_Ret _ _ _ _ _ (queue_at_run i q s Hq)).
  assert (q_first q = list.head l) as -> by (pose proof (qw_next _ _ _ Hw) as Hs; destruct l; [done|by destruct Hs]).
  apply (stuff_loop_spec packet c now i l (size (frames s)) [] s ls pend ext q); try done.
  eapply seg_length; [by eapply queue_nodup|by eapply qw_next].
Qed.
End stuff.
