(* ===== verification/OverlayQueueTheorems.v ===== *)
(** * The transmit queues: theorems

    A frame that is accepted goes behind the others of its queue and the alarm of
    the queues is set; an acknowledgement removes what it acknowledges and keeps
    the rest in order. *)

From stdpp Require Import base tactics list fin_maps gmap.
From Stdlib Require Import ZArith Lia.
From S2P Require Import Prelude Memory OverlayBuffer Limit OverlayAddress OverlayPacket FdQueue FdQueueLists.
From S2P Require Import FdQueueSpec RadioLink Linked OverlayQueue OverlayQueueAlarm OverlayQueueSpec.
From S2P Require Import OverlayQueueRemove OverlayQueueTime OverlayQueueAck OverlayQueueEnqueue.
From S2P Require Import OverlayQueueStuff.

Local Open Scope Z_scope.
Implicit Types (s : oq_state) (m : gmap nat overlay_frame) (ds : gmap nat network_destination).

(** ** Two frames in a queue *)

Definition sample_payload (blk limit : Z) : overlay_buffer :=
  OB (Some (Z.to_nat blk, 0)) 0 2 limit 8 (Some (Z.to_nat blk, 0)).
Definition sample_mdp (blk limit : Z) : mdp_frame :=
  MFrame OF_TYPE_DATA 0 1 1 (Some 6%nat) (Some 5%nat) (replicate 8 0) 1 (-1) 0 (Some (sample_payload blk limit)).
Definition sample_queued (pv nx : option nat) (t sent : Z) (blk limit : Z) : overlay_frame :=
  QFrame pv nx t 1 false 0 [PDest sent t (Some 7%nat) (Some 5%nat)] 1 false (sample_mdp blk limit).
(** Frame 2 is not queued yet. *)
Definition sample_frames (limit : Z) : gmap nat overlay_frame :=
  <[0%nat := sample_queued None (Some 1%nat) 1000 3 0 limit]>
  (<[1%nat := sample_queued (Some 0%nat) None 2500 4 1 limit]>
  (<[2%nat := QFrame None None 0 0 false 0 [] 0 false (sample_mdp 2 limit)]> ∅)).
Definition sample_dest : network_destination :=
  NetDest 3 (Some 0%nat) true ENCAP_OVERLAY 0 0 1000 4 (LimitState 0 0 0 0 0).
Definition sample_alarm : sched_ent := SchedEnt None None None false false (PollFd (-1) 0 0) 0 0 0 0 0 (-1).
Definition sample_tx : list overlay_txqueue :=
  overlay_queue_init
    [TxQueue None None 0 0 0 0; TxQueue (Some 0%nat) (Some 1%nat) 2 0 0 0; TxQueue None None 0 0 0 0;
     TxQueue None None 0 0 0 0; TxQueue None None 0 0 0 0].
Definition sample_subscriber : subscriber := Subscriber (replicate 32 1) 0 0 false false 4 true 0 false.
Definition sample_self : subscriber := Subscriber (replicate 32 2) 0 0 false false REACHABLE_SELF false 0 true.
Definition sample_mesh : oa_state :=
  OAState [] (<[6%nat := sample_self]> {[5%nat := sample_subscriber]}) (Some 6%nat) [] false [] 0.
Definition sample_state (limit : Z) : oq_state :=
  OQState (sample_frames limit) sample_tx 0 {[7%nat := sample_dest]}
    (FQState {[9%nat := sample_alarm]} None None None [] [] 0 [] 0) sample_mesh
    (<[0%nat := replicate 8 0]> (<[1%nat := replicate 8 0]> (<[2%nat := replicate 8 0]> ∅))) [] (0, 0) 0.
Definition sample_interfaces : list queue_interface :=
  [QIface INTERFACE_STATE_UP 1400 (PIface (Iface 0 0) false None) false true].
Definition sample_routes : gmap nat route := {[5%nat := Route None (Some 7%nat) 1]}.
Definition sample_lists : list (list nat) := [[]; [0; 1]%nat; []; []; []].

Lemma sample_frames_ok limit p f : sample_frames limit !! p = Some f ->
  (p = 0%nat /\ f = sample_queued None (Some 1%nat) 1000 3 0 limit) \/
  (p = 1%nat /\ f = sample_queued (Some 0%nat) None 2500 4 1 limit) \/
  (p = 2%nat /\ f = QFrame None None 0 0 false 0 [] 0 false (sample_mdp 2 limit)).
Proof. unfold sample_frames. rewrite !lookup_insert. repeat case_decide; intros ?; simplify_eq; auto. Qed.

Lemma empty_queue_wf m q : q_first q = None -> q_last q = None -> q_length q = 0 -> queue_wf m q [].
Proof. by split. Qed.

Lemma sample_loop_wf : exists ln ls lw, fq_wf (FQState {[9%nat := sample_alarm]} None None None [] [] 0 [] 0) ln ls lw.
Proof.
  exists [], [], []. split; [done|done|by split|constructor..| | |].
  - intros p. split; [by intros []%elem_of_nil|by intros [[]%elem_of_nil _]].
  - intros p e H. cbn [ents] in H. apply lookup_singleton_Some in H as [_ <-]. split; [done|by intros []%elem_of_nil].
  - intros p e H _. cbn [ents] in H. by apply lookup_singleton_Some in H as [_ <-].
Qed.

Lemma sample_wf limit : oq_wf 1 9 (sample_state limit) sample_lists [2%nat] [7%nat].
Proof.
  split.
  - repeat (apply Forall2_cons; split); try apply Forall2_nil; try done; try by apply empty_queue_wf.
    split; [|by repeat (split || eexists)|done|done].
    split; [done|]. eexists. split; [done|]. split; [done|]. eexists. split; done.
  - done.
  - split.
    + by apply (bool_decide_unpack _).
    + intros p Hp. change (p ∈ [0; 1; 2]%nat) in Hp. rewrite !elem_of_cons in Hp.
      destruct Hp as [-> |[-> |[-> |[]%elem_of_nil]]]; eexists; (split; [done|]); (split; [by eexists|]); repeat constructor; by eexists.
    + intros d Hd. change (d ∈ [7; 7; 7]%nat) in Hd. assert (d = 7)%nat as ->.
      { rewrite !elem_of_cons in Hd. destruct Hd as [|[|[|[]%elem_of_nil]]]; done. }
      exists sample_dest. split; [done|]. split; [by exists 0%nat; split; [|simpl; lia]|]. by vm_compute.
    + by apply (bool_decide_unpack _).
    + repeat constructor; by eexists.
  - intros p f ->%list_elem_of_singleton [[? _]|[[? _]|[_ ->]]]%sample_frames_ok; done.
  - intros i l p f Hi Hp Hf%sample_frames_ok. destruct i as [|[|[|[|[|i]]]]]; simplify_eq/=;
      try by apply elem_of_nil in Hp. destruct Hf as [[-> ->]|[[-> ->]|[-> ->]]]; [done|done|].
    rewrite !elem_of_cons in Hp. by destruct Hp as [|[|[]%elem_of_nil]].
  - exists sample_alarm. split; [|split; by left]. split; [exact sample_loop_wf|done].
Qed.

Section theorems.
Context {AR : Arch} (clock : nat -> Z) (next_packet : nat) (overlay_interfaces : list queue_interface)
        (routes : gmap nat route) (neighbours : list neighbour) (directory_service : option nat).
Abbreviation n := (length overlay_interfaces).
Abbreviation enqueue :=
  (_overlay_payload_enqueue clock next_packet overlay_interfaces routes neighbours directory_service).

(** C24: Adding a frame to a well formed set of queues.  A payload that has
    overrun its buffer, or a queue that is full, is refused and nothing
    changes; a payload of [MDP_MTU] bytes or more stops the program.  Otherwise
    the destinations of the frame are its own or, for a broadcast that has none,
    those of the directly reachable neighbours in the order of the table, each
    unicast one and one for each interface that sends broadcasts, up to the
    number a frame can hold.  A broadcast with no destination is then freed, with
    its references released; any other frame becomes the last of its queue, with
    these destinations, none of them sent to, a version no neighbour it is
    broadcast to is too old for, and a new sequence number to come.  The queues
    stay well formed, no other frame changes, and if the radio of one of its
    destinations is idle the alarm of the queues is set. *)
Theorem enqueue_spec s ls pend ext p f b (i : nat) q l :
  oq_wf n next_packet s ls (p :: pend) ext -> routes_ok routes neighbours directory_service (subs (q_mesh s)) ext ->
  frames s !! p = Some f -> known_destination s f -> mf_payload (mdp f) = Some b ->
  mf_queue (mdp f) = Z.of_nat i -> overlay_tx s !! i = Some q -> ls !! i = Some l ->
  if ob_overrun b then enqueue p s = Ret (-1, s)
  else if MDP_MTU <=? position b then enqueue p s = Abort
  else if maxLength q <=? Z.of_nat (length l) then enqueue p s = Ret (-1, s)
  else exists s', enqueue p s = Ret (0, s') /\ undisturbed s s' /\
    (forall x, x <> p -> body <$> frames s' !! x = body <$> frames s !! x) /\
    if unroutable overlay_interfaces routes neighbours s f
    then oq_wf n next_packet s' ls pend ext /\ frames s' !! p = None
    else oq_wf n next_packet s' (<[i := l ++ [p]]> ls) pend ext /\
      exists f', frames s' !! p = Some f' /\ same_content f f' /\ mf_sequence (mdp f') = -1 /\
        destinations f' = set_sent_sequence (-1) <$> planned overlay_interfaces routes neighbours s f /\
        mf_packet_version (mdp f') =
          planned_version overlay_interfaces routes neighbours s f
            (if mf_packet_version (mdp f) <=? 0 then 1 else mf_packet_version (mdp f)) /\
        (timely clock (net_dests s) -> Exists (idle_radio overlay_interfaces (net_dests s')) (destinations f') ->
         exists e, ents (q_loop s') !! next_packet = Some e /\ alarm e <> 0 /\ armed e).
Proof.
  intros Hwf Hro Hf Hk Hb Hm Hq Hi. destruct (wf_queue Hwf Hi) as (q0 & Hq0 & Hw). simplify_eq.
  assert ((mf_queue (mdp f) <? OQ_MAX) = true) as Hmax.
  { rewrite Hm. apply Z.ltb_lt. apply lookup_lt_Some in Hi. rewrite (w_five _ _ _ _ _ _ Hwf) in Hi. unfold OQ_MAX in *. lia. }
  unfold _overlay_payload_enqueue. rewrite !(QM_bind_Ret _ _ _ _ _ (frame_run p f s Hf)).
  rewrite Hmax, Hb, Hm. rewrite !(QM_bind_Ret _ _ _ _ _ (q_out_run tt s)), !(QM_bind_Ret _ _ _ _ _ (q_out_run b s)).
  rewrite !(QM_bind_Ret _ _ _ _ _ (queue_at_run i q s Hq)).
  destruct (ob_overrun b); [done|]. destruct (Z.leb_spec MDP_MTU (position b)) as [Hbig|Hsmall].
  { rewrite (proj2 (Z.ltb_ge _ _)) by lia. done. }
  rewrite (proj2 (Z.ltb_lt _ _)) by lia. rewrite !(QM_bind_Ret _ _ _ _ _ (q_out_run tt s)).
  rewrite (qw_length _ _ _ Hw). destruct (_ <=? _); [done|].
  assert (p ∈ concat ls ++ p :: pend) as Hin by (apply elem_of_app; right; apply list_elem_of_here).
  assert (exists s1 f1, (if mf_packet_version (mdp f) <=? 0 then frame_set p (set_mdp (mf_set_version 1)) else mret tt) s
            = Ret (tt, s1) /\ preparing next_packet overlay_interfaces s s1 ls (p :: pend) ext p f f1 /\
            destinations f1 = destinations f /\ q_mesh s1 = q_mesh s /\ net_dests s1 = net_dests s /\
            mf_packet_version (mdp f1) = (if mf_packet_version (mdp f) <=? 0 then 1 else mf_packet_version (mdp f)))
    as (s1 & f1 & Hr1 & Hp1 & Ed1 & Em1 & En1 & Ev1).
  { destruct (_ <=? _).
    - destruct (frame_set_spec next_packet overlay_interfaces (set_mdp (mf_set_version 1)) Hwf Hin Hf) as (s1 & ? & ? & Hu & Ef & En & _); try done.
      exists s1, (set_mdp (mf_set_version 1) f). split_and!; try done; [|apply Hu]. split; try done. by rewrite En.
    - exists s, f. split_and!; try done. split; try done. by rewrite insert_id. }
  assert (frames s1 !! p = Some f1) as Hf1 by (rewrite (pr_frames _ _ _ _ _ _ _ _ _ _ Hp1); apply lookup_insert_eq).
  destruct (pr_content _ _ _ _ _ _ _ _ _ _ Hp1) as (_ & Hq1 & _ & Hd1 & _).
  destruct (find_route_spec clock next_packet overlay_interfaces routes neighbours directory_service p f f1 (pr_ok _ _ _ _ _ _ _ _ _ _ Hp1))
    as (nowhere & s2 & f2 & Hr2 & Hp2 & Hno & Hd2 & Hv2); [by rewrite Em1|done| |done|done|].
  { unfold known_destination. by rewrite Em1, Hd1. }
  assert (preparing next_packet overlay_interfaces s s2 ls (p :: pend) ext p f f2) as Hp by (by eapply preparing_trans).
  rewrite (QM_bind_Ret _ _ _ _ _ Hr1), (QM_bind_Ret _ _ _ _ _ Hr2).
  rewrite Ev1 in Hv2. unfold unroutable, planned_version, planned, broadcast_plan in *.
  rewrite Em1, En1, Ed1, Hd1 in Hno, Hd2, Hv2. rewrite <- Hno.
  assert (frames s2 !! p = Some f2) as Hf2 by (rewrite (pr_frames _ _ _ _ _ _ _ _ _ _ Hp); apply lookup_insert_eq).
  destruct Hp as [Hok Hu Ef Hc Hlim].
  assert (forall x, x <> p -> frames s2 !! x = frames s !! x) as Hoth by (intros x Hx; by rewrite Ef, lookup_insert_ne).
  destruct nowhere.
  - assert (destinations f2 = []) as E2.
    { rewrite Hd2. by destruct (match destinations f with [] => _ | _ :: _ => _ end). }
    destruct (free_pending next_packet overlay_interfaces p f2 Hok Hf2 E2) as (s' & Hr & Hwf' & Hu' & Ef' & _).
    exists s'. rewrite (QM_bind_Ret _ _ _ _ _ Hr). split; [done|]. split; [by etrans|]. split.
    + intros x Hx. rewrite Ef', lookup_delete_ne by done. by rewrite Hoth.
    + split; [done|]. by rewrite Ef', lookup_delete_eq.
  - destruct (enter_queue clock next_packet overlay_interfaces p f2 i l Hok Hf2) as (s' & f' & Hr & Hwf' & Hu' & Hf' & Hb' & Ho & Ht); [|done|].
    { by rewrite (proj1 (proj2 Hc)). }
    exists s'. rewrite Hr. split; [done|]. split; [by etrans|]. split.
    + intros x Hx. rewrite Ho by done. by rewrite Hoth.
    + split; [done|]. exists f'.
      assert (mdp f' = mf_set_sequence (-1) (mdp f2)) as Emdp by exact (f_equal mdp Hb').
      assert (destinations f' = set_sent_sequence (-1) <$> destinations f2) as Edst by exact (f_equal destinations Hb').
      split_and!; [done| | | | |].
      * unfold same_content in *. by rewrite Emdp.
      * by rewrite Emdp.
      * by rewrite Edst, Hd2.
      * rewrite Emdp. exact Hv2.
      * intros [Hck Hli]. apply Ht. split; [done|]. by apply Hlim.
Qed.

Lemma queued_exists (ls : list (list nat)) x k :
  length ls = k -> x ∈ concat ls <-> Exists (fun j => x ∈ default [] (ls !! j)) (seq 0 k).
Proof.
  intros <-. rewrite Exists_exists. split.
  - intros Hx. apply list_elem_of_In, in_concat in Hx as (l & Hl & Hx). apply list_elem_of_In, list_elem_of_lookup_1 in Hl as [j Hj].
    exists j. split; [apply elem_of_seq; apply lookup_lt_Some in Hj; lia|]. rewrite Hj. by apply list_elem_of_In.
  - intros (j & _ & Hx). destruct (ls !! j) as [l|] eqn:Hj; [|by apply elem_of_nil in Hx]. by eapply elem_of_concat_lookup.
Qed.

(** C23: An acknowledgement, at the time [now], does to every queued frame what
    [ack_result] says of it alone: it removes the frames it acknowledges (the
    last destination of a broadcast frame, or the frame for one subscriber), takes
    the destination away from broadcast frames that have others, and makes
    frames it reports lost due at once.  What is left keeps its order in every
    queue, the queues stay well formed, with the memory and the references of
    the removed frames released, and nothing else changes. *)
Theorem ack_refines s ls pend ext neighbour d ack_mask ack_seq :
  oq_wf n next_packet s ls pend ext -> d ∈ ext ->
  let now := clock (q_ticks s) in
  exists s',
    overlay_queue_ack clock next_packet overlay_interfaces neighbour d ack_mask ack_seq s = Ret (0, s') /\
    oq_wf n next_packet s' (unacked neighbour d ack_mask ack_seq now (frames s) <$> ls) pend ext /\ undisturbed s s' /\
    (forall x, body <$> frames s' !! x =
       if decide (x ∈ concat ls) then body <$> (frames s !! x ≫= ack_result neighbour d ack_mask ack_seq now)
       else body <$> frames s !! x).
Proof.
  intros Hwf Hd now. unfold overlay_queue_ack.
  assert (q_now clock s = Ret (now, q_tick s)) as Hnow by done. rewrite !(QM_bind_Ret _ _ _ _ _ Hnow).
  assert (oq_wf n next_packet (q_tick s) ls pend ext) as Hwf0
    by (apply (wf_shape (q_tick s) Hwf); try done; exact (w_alarm _ _ _ _ _ _ Hwf)).
  destruct (ack_queues_spec clock next_packet overlay_interfaces neighbour d ack_mask ack_seq now
              (seq 0 (Z.to_nat OQ_MAX)) (q_tick s) ls pend ext 0 Hwf0) as (s1 & rtt & ls' & Hr & Hu & Hwf1 & Hls & Hb).
  { apply NoDup_seq. }
  { apply Forall_seq. lia. }
  assert (ls' = unacked neighbour d ack_mask ack_seq now (frames s) <$> ls) as ->.
  { apply list_eq. intros j. rewrite Hls, list_lookup_fmap. destruct (ls !! j) as [l|] eqn:Hj; [|done].
    rewrite decide_True; [done|]. apply elem_of_seq. apply lookup_lt_Some in Hj. rewrite (w_five _ _ _ _ _ _ Hwf) in Hj. lia. }
  assert (exists s', (if negb (rtt =? 0) then net_dest_set d (update_rtt rtt) else mret tt) s1 = Ret (tt, s') /\
            frames s' = frames s1 /\ undisturbed s1 s' /\
            oq_wf n next_packet s' (unacked neighbour d ack_mask ack_seq now (frames s) <$> ls) pend ext)
    as (s' & Hr' & Ef & Hu' & Hwf').
  { destruct (negb _); [|by exists s1].
    destruct (counted_lookup _ _ _ d (o_refs _ _ _ _ _ _ (w_owns _ _ _ _ _ _ Hwf1))) as [nd Hnd]; [rewrite elem_of_app; auto|].
    erewrite net_dest_set_run by exact Hnd. eexists. split; [done|]. split; [done|]. split; [done|].
    apply (wf_shape _ Hwf1); try done; [|exact (w_alarm _ _ _ _ _ _ Hwf1)].
    eapply same_shape_insert; [done|]. unfold update_rtt. by repeat case_match. }
  exists s'. rewrite (QM_bind_Ret _ _ _ _ _ Hr), (QM_bind_Ret _ _ _ _ _ Hr').
  split; [done|]. split; [done|]. split; [transitivity (q_tick s); [by split|]; by transitivity s1|].
  intros x. rewrite Ef, Hb. by rewrite (decide_ext _ _ _ _ (queued_exists ls x _ (w_five _ _ _ _ _ _ Hwf))).
Qed.

(** C25: Filling a packet from a queue in which every frame is past the latency
    target of the queue or has to wait (it is not due yet, the packet takes a
    single frame, or the limit of its payload exceeds what is left of the
    packet): exactly the frames past the target are removed, the others stay, in
    order, and neither they nor the packet change.  A payload whose limit was left
    open ([MDP_MTU], say) therefore waits for a packet of its own, even when
    what it holds would fit. *)
Theorem stuff_only_expires {AL : Allocator} hook s ls pend ext packet c now (i : nat) q l :
  oq_wf n next_packet s ls pend ext -> packet_ok (net_dests s) ext packet c ->
  overlay_tx s !! i = Some q -> ls !! i = Some l -> all_wait (latencyTarget q) packet c now (frames s) l ->
  exists s',
    overlay_stuff_packet clock next_packet overlay_interfaces routes neighbours directory_service hook
      packet (Z.of_nat i) now s = Ret (packet, s') /\ undisturbed s s' /\
    oq_wf n next_packet s' (<[i := unexpired (latencyTarget q) now (frames s) l]> ls) pend ext /\
    (forall x, body <$> frames s' !! x =
       if decide (x ∈ l /\ from_option (expired (latencyTarget q) now) false (frames s !! x) = true) then None
       else body <$> frames s !! x).
Proof. apply stuff_packet_spec. Qed.
End theorems.

(** ** Witnesses *)

Lemma sample_routes_ok : routes_ok sample_routes [] None (subs sample_mesh) [7%nat].
Proof.
  split.
  - intros p x Hx Hr. cbn [subs sample_mesh] in Hx. apply lookup_insert_Some in Hx as [[_ <-]|[_ Hx]]; [done|].
    apply lookup_singleton_Some in Hx as [<- <-]. eexists _, 7%nat. split_and!; [done|done|apply list_elem_of_here].
  - intros p x Hx H. cbn [subs sample_mesh] in Hx. apply lookup_insert_Some in Hx as [[_ <-]|[_ Hx]]; [done|].
    by apply lookup_singleton_Some in Hx as [<- <-].
  - constructor.
  - done.
Qed.

Lemma enqueue_spec_witness :
  exists s', @_overlay_payload_enqueue LP64 (fun _ => 3000) 9 sample_interfaces sample_routes [] None 2 (sample_state 400)
    = Ret (0, s') /\ oq_wf 1 9 s' [[]; [0; 1; 2]%nat; []; []; []] [] [7%nat].
Proof.
  destruct (@enqueue_spec LP64 (fun _ => 3000) 9 sample_interfaces sample_routes [] None (sample_state 400) sample_lists [] [7%nat] 2%nat
              (QFrame None None 0 0 false 0 [] 0 false (sample_mdp 2 400)) (sample_payload 2 400) 1%nat
              (TxQueue (Some 0%nat) (Some 1%nat) 2 100 5 1000) [0; 1]%nat
              (sample_wf 400) sample_routes_ok eq_refl ltac:(intros x [= <-]; by eexists) eq_refl eq_refl eq_refl eq_refl)
    as (s' & Hr & _ & _ & Hwf & _).
  exists s'. split; [exact Hr|exact Hwf].
Defined.

Lemma ack_refines_witness :
  exists s', overlay_queue_ack (fun _ => 3000) 9 sample_interfaces (Some 5%nat) 7 0 3 (sample_state 400) = Ret (0, s') /\
    oq_wf 1 9 s' [[]; [1%nat]; []; []; []] [2%nat] [7%nat].
Proof.
  destruct (ack_refines (fun _ => 3000) 9 sample_interfaces (sample_state 400) sample_lists [2%nat] [7%nat] (Some 5%nat) 7 0 3
              (sample_wf 400) ltac:(apply list_elem_of_here)) as (s' & Hr & Hwf & _).
  exists s'. split; [exact Hr|exact Hwf].
Defined.

(** A started packet with 1000 bytes left, and frames whose payloads of 2 bytes
    have a limit of 1200. *)
Definition sample_packet : outgoing_packet :=
  Outgoing (Some 7%nat) 4 1 10 (Some (OB None 0 400 1400 0 None)) context_zero.

(** At time 2000 frame 0 is due again: it is sent to destination 7 in a packet
    with sequence number 5 and stays in the queue, and the next packet is due when
    it would have to be sent once more. *)
Example sample_sends :
  match @overlay_send_packet LP64 (zero_allocator LP64 4096) (fun _ => 2000) 9 sample_interfaces sample_routes [] None
          (fun _ _ => mret false) 1 (sample_state 2) with
  | Ret (_, s) =>
      (prod_map id position <$> sent_packets s, q_first <$> overlay_tx s, take 15 <$> q_heap s !! 3%nat,
       alarm <$> ents (q_loop s) !! 9%nat)
      = ([(7%nat, 15)], [None; Some 0%nat; None; None; None], Some [1; 1; 2; 2; 2; 5; 5; 69; 1; 1; 1; 0; 2; 0; 0], Some 3000)
  | _ => False
  end.
Proof. vm_compute. reflexivity. Qed.

Lemma stuff_only_expires_witness :
  exists s', @overlay_stuff_packet LP64 (zero_allocator LP64 4096) (fun _ => 3000) 9 sample_interfaces sample_routes [] None
      (fun _ _ => mret false) sample_packet 1 3000 (sample_state 1200) = Ret (sample_packet, s') /\
    oq_wf 1 9 s' [[]; [1%nat]; []; []; []] [2%nat] [7%nat].
Proof.
  destruct (@stuff_only_expires LP64 (fun _ => 3000) 9 sample_interfaces sample_routes [] None (zero_allocator LP64 4096)
              (fun _ _ => mret false) (sample_state 1200) sample_lists [2%nat] [7%nat] sample_packet ENCAP_OVERLAY 3000 1%nat
              (TxQueue (Some 0%nat) (Some 1%nat) 2 100 5 1000) [0; 1]%nat (sample_wf 1200))
    as (s' & Hr & _ & Hwf & _).
  - intros b [= <-]. split; [by vm_compute|]. split; [by vm_compute|]. split; [by eexists _, sample_dest|].
    exists 7%nat. split; [done|apply list_elem_of_here].
  - reflexivity.
  - reflexivity.
  - intros p f _ [[-> ->]|[[-> ->]|[-> ->]]]%sample_frames_ok; right; reflexivity.
  - exists s'. split; [exact Hr|exact Hwf].
Defined.
