(* ===== verification/Msp.v ===== *)
(** * The stream protocol (msp_client.c)

    Streams of packets between two ports: every socket has a window of packets
    it has sent and that are not acknowledged, and a window of packets that have
    arrived and that its handler has not consumed.

    Sockets are objects in memory, named by their addresses; an address is not used
    again, and touching a freed socket is undefined.  The clock, the allocator and
    the socket to the daemon are parameters, each answering the n-th question with
    the n-th value of a sequence.  A handler is a program of the library's client,
    [client]: it works on sockets with the functions of msp_client.h and at last
    says how much of the data it has consumed.  [msp_processing], [msp_recv] and
    [msp_close_all], which call handlers, are not called by handlers.  The bytes
    and packets consumed and the datagrams sent are kept in [events].  Times do not wrap around,
    except where the first call of a handler has not been. *)

From stdpp Require Import base tactics list fin_maps gmap.
From Stdlib Require Import ZArith Lia.
From S2P Require Import Prelude DataFormats OverlayPacket.

Local Open Scope Z_scope.

Definition FLAG_SHUTDOWN : Z := Z.shiftl 1 0.
Definition FLAG_ACK : Z := Z.shiftl 1 1.
Definition FLAG_FIRST : Z := Z.shiftl 1 2.
Definition FLAG_STOP : Z := Z.shiftl 1 3.
Definition RETRANSMIT_TIME : Z := 1500.
Definition HANDLER_KEEPALIVE : Z := 1000.
Definition MAX_WINDOW_SIZE : Z := 4.
Definition MSP_PAYLOAD_PREAMBLE_SIZE : Z := 5.
Definition SALT_INVALID : Z := 0xdeadbeef.
Definition TIME_MS_NEVER_WILL : Z := 2 ^ 63 - 1.
Definition TIME_MS_NEVER_HAS : Z := - 2 ^ 63.
Definition MSP_STATE_UNINITIALISED : Z := 0.
Definition MSP_STATE_LISTENING : Z := Z.shiftl 1 0.
Definition MSP_STATE_RECEIVED_DATA : Z := Z.shiftl 1 1.
Definition MSP_STATE_RECEIVED_PACKET : Z := Z.shiftl 1 2.
Definition MSP_STATE_SHUTDOWN_LOCAL : Z := Z.shiftl 1 3.
Definition MSP_STATE_SHUTDOWN_REMOTE : Z := Z.shiftl 1 4.
Definition MSP_STATE_CLOSED : Z := Z.shiftl 1 5.
Definition MSP_STATE_ERROR : Z := Z.shiftl 1 6.
Definition MSP_STATE_DATAOUT : Z := Z.shiftl 1 7.
Definition MSP_STATE_STOPPED : Z := Z.shiftl 1 8.
Definition MDP_FLAG_BIND : Z := Z.shiftl 1 2.
Definition MDP_FLAG_CLOSE : Z := Z.shiftl 1 3.
Definition MDP_FLAG_ERROR : Z := Z.shiftl 1 4.
Definition MDP_LISTEN : Z := 0.

(** [struct msp_packet]; a NULL payload is [None]. *)
Record msp_packet : Type := MspPacket {
  pk_seq : Z;
  pk_flags : Z;
  added : Z;
  sent : Z;
  pk_payload : option (list Z);
  len : Z;
  offset : Z
}.
Definition set_flags (x : Z) (r : msp_packet) : msp_packet :=
  MspPacket (pk_seq r) x (added r) (sent r) (pk_payload r) (len r) (offset r).
Definition set_sent (x : Z) (r : msp_packet) : msp_packet :=
  MspPacket (pk_seq r) (pk_flags r) (added r) x (pk_payload r) (len r) (offset r).
Definition set_offset (x : Z) (r : msp_packet) : msp_packet :=
  MspPacket (pk_seq r) (pk_flags r) (added r) (sent r) (pk_payload r) (len r) x.

(** A packet of a window, or memory that was freed and is still linked. *)
Inductive cell : Type := Live (p : msp_packet) | Freed.

(** The [_tail] of a window: NULL, the last packet of the list, or a packet that
    was freed. *)
Inductive tail_ptr : Type := TailNull | TailLast | TailFreed.

(** [struct msp_window]; [chain] are the packets from [_head] on. *)
Record msp_window : Type := MspWindow {
  packet_count : Z;
  base_rtt : Z;
  rtt : Z;
  next_seq : Z;
  last_activity : Z;
  chain : list cell;
  _tail : tail_ptr
}.
Definition set_next_seq (x : Z) (r : msp_window) : msp_window :=
  MspWindow (packet_count r) (base_rtt r) (rtt r) x (last_activity r) (chain r) (_tail r).
Definition set_last_activity (x : Z) (r : msp_window) : msp_window :=
  MspWindow (packet_count r) (base_rtt r) (rtt r) (next_seq r) x (chain r) (_tail r).
Definition set_packet_count (x : Z) (r : msp_window) : msp_window :=
  MspWindow x (base_rtt r) (rtt r) (next_seq r) (last_activity r) (chain r) (_tail r).
Definition set_chain (x : list cell) (r : msp_window) : msp_window :=
  MspWindow (packet_count r) (base_rtt r) (rtt r) (next_seq r) (last_activity r) x (_tail r).
Definition set_tail (x : tail_ptr) (r : msp_window) : msp_window :=
  MspWindow (packet_count r) (base_rtt r) (rtt r) (next_seq r) (last_activity r) (chain r) x.
Definition set_rtt (b t : Z) (r : msp_window) : msp_window :=
  MspWindow (packet_count r) b t (next_seq r) (last_activity r) (chain r) (_tail r).

Record mdp_sockaddr : Type := SockAddr { sa_sid : list Z; port : Z }.
Global Instance mdp_sockaddr_eq : EqDecision mdp_sockaddr.
Proof. solve_decision. Defined.
Record mdp_header : Type := MdpHeader { local : mdp_sockaddr; remote : mdp_sockaddr; hd_flags : Z; qos : Z; hd_ttl : Z }.
Definition set_local (a : mdp_sockaddr) (h : mdp_header) : mdp_header :=
  MdpHeader a (remote h) (hd_flags h) (qos h) (hd_ttl h).
Definition set_remote (a : mdp_sockaddr) (h : mdp_header) : mdp_header :=
  MdpHeader (local h) a (hd_flags h) (qos h) (hd_ttl h).
Definition set_hd_flags (x : Z) (h : mdp_header) : mdp_header :=
  MdpHeader (local h) (remote h) x (qos h) (hd_ttl h).
Definition SID_ANY : list Z := repeat 0 (Z.to_nat SID_SIZE).
Definition header_zero : mdp_header := MdpHeader (SockAddr SID_ANY 0) (SockAddr SID_ANY 0) 0 0 0.

(** [struct msp_handle]. *)
Record msp_handle : Type := Handle { h_ptr : option nat; h_salt : Z }.
Definition MSP_SOCKET_NULL : msp_handle := Handle None 0.

(** [struct msp_sock]; sockets are named by their addresses, handlers by a
    number. *)
Record msp_sock : Type := MspSock {
  _next : option nat;
  _prev : option nat;
  salt : Z;
  mdp_sock : Z;
  state : Z;
  last_state : Z;
  last_handler : Z;
  tx : msp_window;
  rx : msp_window;
  previous_ack : Z;
  next_ack : Z;
  handler : option Z;
  context : Z;
  header : mdp_header;
  timeout : Z;
  next_action : Z
}.
Definition set_next (x : option nat) (r : msp_sock) : msp_sock :=
  MspSock x (_prev r) (salt r) (mdp_sock r) (state r) (last_state r) (last_handler r) (tx r) (rx r)
    (previous_ack r) (next_ack r) (handler r) (context r) (header r) (timeout r) (next_action r).
Definition set_prev (x : option nat) (r : msp_sock) : msp_sock :=
  MspSock (_next r) x (salt r) (mdp_sock r) (state r) (last_state r) (last_handler r) (tx r) (rx r)
    (previous_ack r) (next_ack r) (handler r) (context r) (header r) (timeout r) (next_action r).
Definition set_salt (x : Z) (r : msp_sock) : msp_sock :=
  MspSock (_next r) (_prev r) x (mdp_sock r) (state r) (last_state r) (last_handler r) (tx r) (rx r)
    (previous_ack r) (next_ack r) (handler r) (context r) (header r) (timeout r) (next_action r).
Definition set_state (x : Z) (r : msp_sock) : msp_sock :=
  MspSock (_next r) (_prev r) (salt r) (mdp_sock r) x (last_state r) (last_handler r) (tx r) (rx r)
    (previous_ack r) (next_ack r) (handler r) (context r) (header r) (timeout r) (next_action r).
Definition set_tx (x : msp_window) (r : msp_sock) : msp_sock :=
  MspSock (_next r) (_prev r) (salt r) (mdp_sock r) (state r) (last_state r) (last_handler r) x (rx r)
    (previous_ack r) (next_ack r) (handler r) (context r) (header r) (timeout r) (next_action r).
Definition set_rx (x : msp_window) (r : msp_sock) : msp_sock :=
  MspSock (_next r) (_prev r) (salt r) (mdp_sock r) (state r) (last_state r) (last_handler r) (tx r) x
    (previous_ack r) (next_ack r) (handler r) (context r) (header r) (timeout r) (next_action r).
Definition set_previous_ack (x : Z) (r : msp_sock) : msp_sock :=
  MspSock (_next r) (_prev r) (salt r) (mdp_sock r) (state r) (last_state r) (last_handler r) (tx r) (rx r) x
    (next_ack r) (handler r) (context r) (header r) (timeout r) (next_action r).
Definition set_next_ack (x : Z) (r : msp_sock) : msp_sock :=
  MspSock (_next r) (_prev r) (salt r) (mdp_sock r) (state r) (last_state r) (last_handler r) (tx r) (rx r)
    (previous_ack r) x (handler r) (context r) (header r) (timeout r) (next_action r).
Definition set_header (x : mdp_header) (r : msp_sock) : msp_sock :=
  MspSock (_next r) (_prev r) (salt r) (mdp_sock r) (state r) (last_state r) (last_handler r) (tx r) (rx r)
    (previous_ack r) (next_ack r) (handler r) (context r) x (timeout r) (next_action r).
Definition set_timeout (x : Z) (r : msp_sock) : msp_sock :=
  MspSock (_next r) (_prev r) (salt r) (mdp_sock r) (state r) (last_state r) (last_handler r) (tx r) (rx r)
    (previous_ack r) (next_ack r) (handler r) (context r) (header r) x (next_action r).
Definition set_next_action (x : Z) (r : msp_sock) : msp_sock :=
  MspSock (_next r) (_prev r) (salt r) (mdp_sock r) (state r) (last_state r) (last_handler r) (tx r) (rx r)
    (previous_ack r) (next_ack r) (handler r) (context r) (header r) (timeout r) x.
Definition set_last_call (st t : Z) (r : msp_sock) : msp_sock :=
  MspSock (_next r) (_prev r) (salt r) (mdp_sock r) (state r) st t (tx r) (rx r) (previous_ack r) (next_ack r)
    (handler r) (context r) (header r) (timeout r) (next_action r).
Definition set_handler (h : option Z) (c : Z) (r : msp_sock) : msp_sock :=
  MspSock (_next r) (_prev r) (salt r) (mdp_sock r) (state r) (last_state r) (last_handler r) (tx r) (rx r)
    (previous_ack r) (next_ack r) h c (header r) (timeout r) (next_action r).

(** ** Clients and the state of the library *)

(** The tests of a handle. *)
Inductive msp_test : Type :=
| IsValid | IsInitialising | IsOpen | IsClosed | IsListening | IsData | IsConnected | IsShutdownLocal | IsShutdownRemote.

(** What a handler does: calls of the library, and at the end the number of bytes
    consumed and the new value of the client's own data. *)
Inductive client (C : Type) : Type :=
| CReturn (n : Z) (c : C)
| CSocket (fd flags : Z) (k : msp_handle -> client C)
| CTest (t : msp_test) (h : msp_handle) (k : bool -> client C)
| CGetState (h : msp_handle) (k : Z -> client C)
| CGetLocal (h : msp_handle) (k : mdp_sockaddr -> client C)
| CGetRemote (h : msp_handle) (k : mdp_sockaddr -> client C)
| CCount (k : Z -> client C)
| CSetHandler (h : msp_handle) (f : option Z) (ctx : Z) (k : client C)
| CSetLocal (h : msp_handle) (a : mdp_sockaddr) (k : client C)
| CConnect (h : msp_handle) (a : mdp_sockaddr) (k : client C)
| CListen (h : msp_handle) (k : Z -> client C)
| CSend (h : msp_handle) (payload : option (list Z)) (len : Z) (k : Z -> client C)
| CShutdown (h : msp_handle) (k : Z -> client C)
| CStop (h : msp_handle) (k : client C).
Arguments CReturn {C} n c.
Arguments CSocket {C} fd flags k.
Arguments CTest {C} t h k.
Arguments CGetState {C} h k.
Arguments CGetLocal {C} h k.
Arguments CGetRemote {C} h k.
Arguments CCount {C} k.
Arguments CSetHandler {C} h f ctx k.
Arguments CSetLocal {C} h a k.
Arguments CConnect {C} h a k.
Arguments CListen {C} h k.
Arguments CSend {C} h payload len k.
Arguments CShutdown {C} h k.
Arguments CStop {C} h k.

(** [send_message]: all was sent, not all, the socket would block ([errno] is 11),
    or any other error. *)
Inductive send_result : Type := SendOk | SendShort | SendAgain | SendError.

(** The surroundings of the library. *)
Class MspEnv (C : Type) : Type := {
  clock : nat -> Z;
  alloc : nat -> bool;
  net : nat -> send_result;
  local_sockaddr : bool;
  handlers : Z -> msp_handle -> Z -> list Z -> Z -> C -> client C
}.

(** Bytes consumed from a socket; the end of a packet that was consumed; a
    datagram sent. *)
Inductive msp_event : Type :=
| Consumed (p : nat) (bs : list Z)
| Finished (p : nat)
| Datagram (fd : Z) (h : mdp_header) (bs : list Z).

Record msp_state (C : Type) : Type := MspState {
  socks : gmap nat msp_sock;
  root : option nat;
  salt_counter : Z;
  next_block : nat;
  daemon_addr : bool;
  client_data : C;
  events : list msp_event;
  ticks : nat;
  allocs : nat;
  sends : nat
}.
Arguments MspState {C} _ _ _ _ _ _ _ _ _ _.
Arguments socks {C} _.
Arguments root {C} _.
Arguments salt_counter {C} _.
Arguments next_block {C} _.
Arguments daemon_addr {C} _.
Arguments client_data {C} _.
Arguments events {C} _.
Arguments ticks {C} _.
Arguments allocs {C} _.
Arguments sends {C} _.

Section state.
Context {C : Type}.
Implicit Types w : msp_state C.
Definition w_set_socks (m : gmap nat msp_sock) w :=
  MspState m (root w) (salt_counter w) (next_block w) (daemon_addr w) (client_data w) (events w) (ticks w) (allocs w) (sends w).
Definition w_set_root (r : option nat) w :=
  MspState (socks w) r (salt_counter w) (next_block w) (daemon_addr w) (client_data w) (events w) (ticks w) (allocs w) (sends w).
Definition w_set_salt (n : Z) w :=
  MspState (socks w) (root w) n (next_block w) (daemon_addr w) (client_data w) (events w) (ticks w) (allocs w) (sends w).
Definition w_new_block (s : msp_sock) w :=
  MspState (<[next_block w := s]> (socks w)) (root w) (salt_counter w) (S (next_block w)) (daemon_addr w) (client_data w)
           (events w) (ticks w) (allocs w) (sends w).
Definition w_set_daemon (b : bool) w :=
  MspState (socks w) (root w) (salt_counter w) (next_block w) b (client_data w) (events w) (ticks w) (allocs w) (sends w).
Definition w_set_client (c : C) w :=
  MspState (socks w) (root w) (salt_counter w) (next_block w) (daemon_addr w) c (events w) (ticks w) (allocs w) (sends w).
Definition w_event (e : msp_event) w :=
  MspState (socks w) (root w) (salt_counter w) (next_block w) (daemon_addr w) (client_data w) (events w ++ [e]) (ticks w)
           (allocs w) (sends w).
Definition w_tick w :=
  MspState (socks w) (root w) (salt_counter w) (next_block w) (daemon_addr w) (client_data w) (events w) (S (ticks w))
           (allocs w) (sends w).
Definition w_alloc w :=
  MspState (socks w) (root w) (salt_counter w) (next_block w) (daemon_addr w) (client_data w) (events w) (ticks w)
           (S (allocs w)) (sends w).
Definition w_send w :=
  MspState (socks w) (root w) (salt_counter w) (next_block w) (daemon_addr w) (client_data w) (events w) (ticks w)
           (allocs w) (S (sends w)).
End state.

(** ** The monad *)

Definition PM (C A : Type) : Type := msp_state C -> outcome (A * msp_state C).
Global Instance PM_ret {C} : MRet (PM C) := fun A a w => Ret (a, w).
Global Instance PM_bind {C} : MBind (PM C) := fun A B f m w => '(a, w) ← m w; f a w.

Section msp.
Context {C : Type} {E : MspEnv C}.
Abbreviation M := (PM C).

Definition lift {A} (m : outcome A) : M A := fun w => a ← m; Ret (a, w).
Definition get {A} (f : msp_state C -> A) : M A := fun w => Ret (f w, w).
Definition modify (f : msp_state C -> msp_state C) : M unit := fun w => Ret (tt, f w).
Definition assert (b : bool) : M unit := lift (cassert b).
Definition gettime_ms : M Z := fun w => Ret (clock (ticks w), w_tick w).
Definition emalloc : M bool := fun w => Ret (alloc (allocs w), w_alloc w).
Definition sock_at (p : nat) : M msp_sock := fun w => s ← or_undef (socks w !! p); Ret (s, w).
Definition sock_set (p : nat) (g : msp_sock -> msp_sock) : M unit :=
  s ← sock_at p; modify (fun w => w_set_socks (<[p := g s]> (socks w)) w).
Definition set_bits (p : nat) (b : Z) : M unit := sock_set p (fun s => set_state (Z.lor (state s) b) s).
Definition clear_bits (p : nat) (b : Z) : M unit := sock_set p (fun s => set_state (Z.land (state s) (Z.lnot b)) s).

(** A message for the daemon; one that is cut short does not count as a datagram. *)
Definition send_message (fd : Z) (h : mdp_header) (bs : list Z) : M send_result :=
  n ← get sends;
  modify w_send;;
  match net n with
  | SendOk => modify (w_event (Datagram fd h bs));; mret SendOk
  | r => mret r
  end.
(** [mdp_send], which finds the daemon itself. *)
Definition mdp_send (fd : Z) (h : mdp_header) (bs : list Z) : M Z :=
  if local_sockaddr then
    r ← send_message fd h bs;
    mret (match r with SendOk => 0 | _ => -1 end)
  else mret (-1).

(** ** Handles *)

Definition msp_socket_is_valid (h : msp_handle) : M bool :=
  match h_ptr h with
  | None => mret false
  | Some p => s ← sock_at p; mret (h_salt h =? salt s)
  end.
Definition handle_to_sock (h : msp_handle) : M nat :=
  match h_ptr h with
  | None => lift Abort
  | Some p => s ← sock_at p; assert (h_salt h =? salt s);; mret p
  end.
Definition sock_to_handle (p : nat) : M msp_handle := s ← sock_at p; mret (Handle (Some p) (salt s)).

Definition next_salt (n : Z) : Z :=
  let n := u32 (n + 1) in if n =? SALT_INVALID then u32 (n + 1) else n.
Definition window_zero : msp_window := MspWindow 0 0 0 0 0 [] TailNull.

Definition msp_socket (fd flags : Z) : M msp_handle :=
  if negb (flags =? 0) then mret MSP_SOCKET_NULL
  else
    ok ← emalloc;
    if negb ok then mret MSP_SOCKET_NULL
    else
      n ← get salt_counter;
      modify (w_set_salt (next_salt n));;
      now ← gettime_ms;
      r ← get root;
      p ← get next_block;
      modify (w_new_block
        (MspSock r None (next_salt n) fd MSP_STATE_UNINITIALISED 0xFFFF TIME_MS_NEVER_HAS
          (MspWindow 0 0xFFFFFFFF 0xFFFFFFFF 0 TIME_MS_NEVER_HAS [] TailNull)
          (set_last_activity TIME_MS_NEVER_HAS window_zero)
          0x7FFF 0 None 0 header_zero (now + 10000) TIME_MS_NEVER_WILL));;
      (match r with Some q => sock_set q (set_prev (Some p)) | None => mret tt end);;
      modify (w_set_root (Some p));;
      sock_to_handle p.

Definition msp_get_state (h : msp_handle) : M Z := p ← handle_to_sock h; s ← sock_at p; mret (state s).
(** [msp_socket_is_valid(handle) && ...] *)
Definition if_valid (h : msp_handle) (f : msp_sock -> bool) : M bool :=
  v ← msp_socket_is_valid h;
  if v : bool then p ← handle_to_sock h; s ← sock_at p; mret (f s) else mret false.
Definition msp_socket_is_initialising (h : msp_handle) : M bool :=
  if_valid h (fun s => state s =? MSP_STATE_UNINITIALISED).
Definition msp_socket_is_open (h : msp_handle) : M bool :=
  if_valid h (fun s => (negb (state s =? MSP_STATE_UNINITIALISED) || negb (packet_count (tx s) =? 0))
                       && negb (has (state s) MSP_STATE_CLOSED)).
Definition msp_socket_is_closed (h : msp_handle) : M bool :=
  v ← msp_socket_is_valid h;
  if negb v then mret true else st ← msp_get_state h; mret (has st MSP_STATE_CLOSED).
Definition msp_socket_is_listening (h : msp_handle) : M bool :=
  if_valid h (fun s => Z.land (state s) (Z.lor MSP_STATE_CLOSED MSP_STATE_LISTENING) =? MSP_STATE_LISTENING).
Definition msp_socket_is_data (h : msp_handle) : M bool :=
  if_valid h (fun s => has (state s) MSP_STATE_DATAOUT || negb (packet_count (tx s) =? 0)).
Definition msp_socket_is_connected (h : msp_handle) : M bool :=
  if_valid h (fun s => has (state s) MSP_STATE_RECEIVED_PACKET).
Definition msp_socket_is_shutdown_local (h : msp_handle) : M bool :=
  if_valid h (fun s => has (state s) MSP_STATE_SHUTDOWN_LOCAL).
Definition msp_socket_is_shutdown_remote (h : msp_handle) : M bool :=
  if_valid h (fun s => has (state s) MSP_STATE_SHUTDOWN_REMOTE).

Fixpoint count_loop (fuel : nat) (p : option nat) (i : Z) : M Z :=
  match p with
  | None => mret i
  | Some q => match fuel with
              | O => lift Undef
              | S fuel => s ← sock_at q; count_loop fuel (_next s) (u32 (i + 1))
              end
  end.
(** Enough rounds for a walk along the sockets. *)
Definition fuel : M nat := get (fun w => size (socks w)).
Definition msp_socket_count : M Z := n ← fuel; r ← get root; count_loop n r 0.

(** ** Windows *)

(** All packets are freed; one that is freed already has no [_next]. *)
Definition free_all_packets (win : msp_window) : outcome msp_window :=
  if forallb (fun c => match c with Live _ => true | Freed => false end) (chain win) then
    Ret (set_packet_count 0 (set_chain [] (set_tail (match _tail win with TailNull => TailNull | _ => TailFreed end) win)))
  else Undef.

(** The list from the first packet kept, the number of packets and the smallest
    time between sending and acknowledging. *)
Fixpoint acked_loop (now seq : Z) (l : list cell) (count min_rtt : Z) : outcome (list cell * Z * Z) :=
  match l with
  | [] => Ret ([], count, min_rtt)
  | Freed :: _ => Undef
  | Live p :: l' =>
      if compare_wrapped_uint16 (pk_seq p) seq <=? 0 then
        let this_rtt := u32 (now - sent p) in
        acked_loop now seq l' (u32 (count - 1))
          (if negb (sent p =? TIME_MS_NEVER_HAS) && (this_rtt <? min_rtt) then this_rtt else min_rtt)
      else Ret (l, count, min_rtt)
  end.
Definition free_acked (now seq : Z) (win : msp_window) : outcome msp_window :=
  '(l, count, r) ← acked_loop now seq (chain win) (packet_count win) 0xFFFFFFFF;
  let r' := if r <? 10 then 10 else r in
  let win := set_packet_count count (set_chain l win) in
  let win := if r =? 0xFFFFFFFF then win
             else set_rtt (if r' <? base_rtt win then r' else base_rtt win) r' win in
  Ret (match l with [] => set_tail TailNull win | _ => win end).
Definition free_acked_packets (seq : Z) (win : msp_window) : M msp_window :=
  match chain win with
  | [] => mret win
  | _ => now ← gettime_ms; lift (free_acked now seq win)
  end.

(** Where [add_packet] puts a packet: nowhere, as it is there already or its place
    is ambiguous, or behind [i] packets. *)
Inductive position : Type := Duplicate | Ambiguous | At (i : nat).

Definition live (c : cell) : outcome msp_packet := match c with Live p => Ret p | Freed => Undef end.
Definition tail_packet (win : msp_window) : outcome msp_packet :=
  match _tail win with
  | TailLast => c ← or_undef (list.last (chain win)); live c
  | _ => Undef
  end.

(** From [_head] to the first packet that is not before [seq]. *)
Fixpoint insert_loop (seq : Z) (l : list cell) (i : nat) : outcome position :=
  match l with
  | [] => Undef
  | c :: l =>
      p ← live c;
      if compare_wrapped_uint16 (pk_seq p) seq <? 0 then insert_loop seq l (S i)
      else if pk_seq p =? seq then Ret Duplicate else Ret (At i)
  end.
Definition insert_pos (win : msp_window) (seq : Z) : outcome position :=
  match chain win with
  | [] => Ret (At 0)
  | c :: _ =>
      t ← tail_packet win;
      if pk_seq t =? seq then Ret Duplicate
      else if compare_wrapped_uint16 (pk_seq t) seq <? 0 then
        h ← live c;
        if 0 <? compare_wrapped_uint16 (pk_seq h) seq then Ret Ambiguous else Ret (At (length (chain win)))
      else insert_loop seq (chain win) 0
  end.
Definition link_packet (i : nat) (c : cell) (win : msp_window) : msp_window :=
  set_chain (take i (chain win) ++ c :: drop i (chain win))
    (if (i =? length (chain win))%nat then set_tail TailLast win else win).

Definition add_packet (win : msp_window) (seq flags : Z) (payload : option (list Z)) (len : Z) : M (Z * msp_window) :=
  pos ← lift (insert_pos win seq);
  match pos with
  | Duplicate => mret (0, win)
  | Ambiguous => mret (-1, win)
  | At i =>
      ok ← emalloc;
      if negb ok then mret (-1, win)
      else
        now ← gettime_ms;
        match payload with
        | Some bs =>
            if len =? 0 then
              mret (1, set_packet_count (u32 (packet_count win + 1))
                         (link_packet i (Live (MspPacket seq flags now TIME_MS_NEVER_HAS None len 0)) win))
            else
              ok ← emalloc;
              if negb ok then mret (-1, link_packet i Freed win)
              else if len <=? zlen bs then
                mret (1, set_packet_count (u32 (packet_count win + 1))
                           (link_packet i (Live (MspPacket seq flags now TIME_MS_NEVER_HAS (Some (take (Z.to_nat len) bs)) len 0)) win))
              else lift Undef
        | None => mret (1, set_packet_count (u32 (packet_count win + 1))
                             (link_packet i (Live (MspPacket seq flags now TIME_MS_NEVER_HAS None len 0)) win))
        end
  end.

(** ** The functions a handler may call *)

Definition msp_stop (h : msp_handle) : M unit :=
  p ← handle_to_sock h;
  s ← sock_at p;
  if has (state s) MSP_STATE_STOPPED then mret tt
  else
    set_bits p (Z.lor MSP_STATE_STOPPED MSP_STATE_CLOSED);;
    clear_bits p MSP_STATE_DATAOUT;;
    s ← sock_at p;
    if negb (port (remote (header s)) =? 0) && negb (has (state s) MSP_STATE_LISTENING) then
      mdp_send (mdp_sock s) (header s) [FLAG_STOP];; mret tt
    else mret tt.

Definition msp_set_handler (h : msp_handle) (f : option Z) (ctx : Z) : M unit :=
  p ← handle_to_sock h; sock_set p (set_handler f ctx).

Definition msp_set_local (h : msp_handle) (a : mdp_sockaddr) : M unit :=
  p ← handle_to_sock h;
  s ← sock_at p;
  assert (state s =? MSP_STATE_UNINITIALISED);;
  sock_set p (fun s => set_header (set_local a (header s)) s).

Definition msp_connect (h : msp_handle) (a : mdp_sockaddr) : M unit :=
  p ← handle_to_sock h;
  s ← sock_at p;
  assert (state s =? MSP_STATE_UNINITIALISED);;
  sock_set p (fun s => set_header (set_remote a (header s)) s);;
  set_bits p MSP_STATE_DATAOUT;;
  now ← gettime_ms;
  sock_set p (fun s => set_next_action (now + 10) (set_next_ack (now + 10) s)).

Definition msp_listen (h : msp_handle) : M Z :=
  p ← handle_to_sock h;
  s ← sock_at p;
  assert (state s =? MSP_STATE_UNINITIALISED);;
  assert (negb (port (local (header s)) =? 0));;
  set_bits p MSP_STATE_LISTENING;;
  sock_set p (fun s => set_header (set_hd_flags (Z.lor (hd_flags (header s)) MDP_FLAG_BIND) (header s)) s);;
  s ← sock_at p;
  r ← mdp_send (mdp_sock s) (header s) [];
  if r =? -1 then set_bits p (Z.lor MSP_STATE_ERROR MSP_STATE_CLOSED);; mret (-1)
  else
    now ← gettime_ms;
    sock_set p (fun s => set_next_action (now + 1000) (set_timeout (now + 1000) s));;
    mret 0.

Definition msp_get_local (h : msp_handle) : M mdp_sockaddr :=
  p ← handle_to_sock h; s ← sock_at p; mret (local (header s)).
Definition msp_get_remote (h : msp_handle) : M mdp_sockaddr :=
  p ← handle_to_sock h; s ← sock_at p; mret (remote (header s)).

(** [add_packet(&sock->tx, ...)] and [add_packet(&sock->rx, ...)]. *)
Definition add_tx (p : nat) (seq flags : Z) (payload : option (list Z)) (len : Z) : M Z :=
  s ← sock_at p;
  '(r, win) ← add_packet (tx s) seq flags payload len;
  sock_set p (set_tx win);;
  mret r.
Definition add_rx (p : nat) (seq flags : Z) (payload : option (list Z)) (len : Z) : M Z :=
  s ← sock_at p;
  '(r, win) ← add_packet (rx s) seq flags payload len;
  sock_set p (set_rx win);;
  mret r.
Definition tx_advance (p : nat) : M unit :=
  sock_set p (fun s => set_tx (set_next_seq (u16 (next_seq (tx s) + 1)) (tx s)) s).

Definition msp_send (h : msp_handle) (payload : option (list Z)) (len : Z) : M Z :=
  p ← handle_to_sock h;
  s ← sock_at p;
  assert (negb (has (state s) MSP_STATE_LISTENING));;
  assert (negb (port (remote (header s)) =? 0));;
  assert (negb (has (state s) MSP_STATE_SHUTDOWN_LOCAL));;
  if has (state s) MSP_STATE_CLOSED || (MAX_WINDOW_SIZE <? packet_count (tx s)) then mret (-1)
  else
    r ← add_tx p (next_seq (tx s)) 0 payload len;
    if r =? -1 then mret (-1)
    else
      tx_advance p;;
      s ← sock_at p;
      (if MAX_WINDOW_SIZE <=? packet_count (tx s) then clear_bits p MSP_STATE_DATAOUT else mret tt);;
      now ← gettime_ms;
      sock_set p (set_next_action now);;
      mret len.

(** [_tail->flags |= FLAG_SHUTDOWN] *)
Definition flag_tail (win : msp_window) : outcome msp_window :=
  t ← tail_packet win;
  Ret (set_chain (take (length (chain win) - 1) (chain win)
                  ++ [Live (set_flags (Z.lor (pk_flags t) FLAG_SHUTDOWN) t)]) win).
Definition tail_unsent (win : msp_window) : outcome bool :=
  match _tail win with
  | TailNull => Ret false
  | _ => t ← tail_packet win; Ret (sent t =? TIME_MS_NEVER_HAS)
  end.
Definition msp_shutdown (h : msp_handle) : M Z :=
  p ← handle_to_sock h;
  s ← sock_at p;
  assert (negb (has (state s) MSP_STATE_LISTENING));;
  assert (negb (has (state s) MSP_STATE_SHUTDOWN_LOCAL));;
  u ← lift (tail_unsent (tx s));
  r ← (if u : bool then win ← lift (flag_tail (tx s)); sock_set p (set_tx win);; mret 0
       else r ← add_tx p (next_seq (tx s)) FLAG_SHUTDOWN None 0;
            if r =? -1 then mret (-1) else tx_advance p;; mret 0);
  if r =? -1 then mret (-1)
  else
    set_bits p MSP_STATE_SHUTDOWN_LOCAL;;
    clear_bits p MSP_STATE_DATAOUT;;
    now ← gettime_ms;
    sock_set p (set_next_action now);;
    mret 0.

Definition run_test (t : msp_test) (h : msp_handle) : M bool :=
  match t with
  | IsValid => msp_socket_is_valid h
  | IsInitialising => msp_socket_is_initialising h
  | IsOpen => msp_socket_is_open h
  | IsClosed => msp_socket_is_closed h
  | IsListening => msp_socket_is_listening h
  | IsData => msp_socket_is_data h
  | IsConnected => msp_socket_is_connected h
  | IsShutdownLocal => msp_socket_is_shutdown_local h
  | IsShutdownRemote => msp_socket_is_shutdown_remote h
  end.

Fixpoint run_client (c : client C) : M Z :=
  match c with
  | CReturn n d => modify (w_set_client d);; mret n
  | CSocket fd flags k => h ← msp_socket fd flags; run_client (k h)
  | CTest t h k => b ← run_test t h; run_client (k b)
  | CGetState h k => x ← msp_get_state h; run_client (k x)
  | CGetLocal h k => a ← msp_get_local h; run_client (k a)
  | CGetRemote h k => a ← msp_get_remote h; run_client (k a)
  | CCount k => n ← msp_socket_count; run_client (k n)
  | CSetHandler h f ctx k => msp_set_handler h f ctx;; run_client k
  | CSetLocal h a k => msp_set_local h a;; run_client k
  | CConnect h a k => msp_connect h a;; run_client k
  | CListen h k => r ← msp_listen h; run_client (k r)
  | CSend h payload len k => r ← msp_send h payload len; run_client (k r)
  | CShutdown h k => r ← msp_shutdown h; run_client (k r)
  | CStop h k => msp_stop h;; run_client k
  end.

(** ** Handlers *)

(** [now - sock->last_handler > HANDLER_KEEPALIVE], which overflows when the handler
    has not been called. *)
Definition keepalive_due (now last : Z) : outcome bool :=
  if now - last <=? TIME_MS_NEVER_WILL then Ret (HANDLER_KEEPALIVE <? now - last) else Undef.
Definition handler_due (s : msp_sock) (n now : Z) : outcome bool :=
  match handler s with
  | None => Ret false
  | Some _ => if negb (n =? 0) || negb (last_state s =? state s) then Ret true else keepalive_due now (last_handler s)
  end.
Definition consume (p : nat) (payload : list Z) (n : Z) : M Z :=
  modify (w_event (Consumed p (take (Z.to_nat n) payload)));; mret n.

Definition call_handler (p : nat) (payload : list Z) : M Z :=
  now ← gettime_ms;
  s ← sock_at p;
  due ← lift (handler_due s (zlen payload) now);
  match handler s, due with
  | Some f, true =>
      sock_set p (set_last_call (state s) now);;
      h ← sock_to_handle p;
      d ← get client_data;
      n ← run_client (handlers f h (state s) payload (context s) d);
      assert ((0 <=? n) && (n <=? zlen payload));;
      consume p payload n
  | _, _ => consume p payload (zlen payload)
  end.

(** ** Freeing sockets *)

Definition msp_free (p : nat) : M unit :=
  set_bits p MSP_STATE_CLOSED;;
  s ← sock_at p;
  (match _prev s with
   | Some q => sock_set q (set_next (_next s))
   | None => modify (w_set_root (_next s))
   end);;
  (match _next s with Some q => sock_set q (set_prev (_prev s)) | None => mret tt end);;
  s ← sock_at p;
  win ← lift (free_all_packets (tx s));
  sock_set p (set_tx win);;
  win ← lift (free_all_packets (rx s));
  sock_set p (set_rx win);;
  call_handler p [];;
  sock_set p (set_salt SALT_INVALID);;
  modify (fun w => w_set_socks (delete p (socks w)) w).

Fixpoint close_loop (n : nat) (fd : Z) (p : option nat) : M unit :=
  match p with
  | None => mret tt
  | Some q => match n with
              | O => lift Undef
              | S n => s ← sock_at q;
                       (if mdp_sock s =? fd then msp_free q else mret tt);;
                       close_loop n fd (_next s)
              end
  end.
Definition msp_close_all (fd : Z) : M unit := n ← fuel; r ← get root; close_loop n fd r.

(** ** Sending *)

(** [daemon_addr] is filled in when it is first needed. *)
Definition find_daemon : M bool :=
  known ← get daemon_addr;
  if known : bool then mret true
  else if local_sockaddr then modify (w_set_daemon true);; mret true else mret false.
(** The flags of a packet, from those it was queued with. *)
Definition msp_flags (s : msp_sock) (f : Z) : Z :=
  let f := if has (state s) MSP_STATE_RECEIVED_DATA then Z.lor f FLAG_ACK else f in
  if has (state s) MSP_STATE_RECEIVED_PACKET then f else Z.lor f FLAG_FIRST.
Definition ack_seq (s : msp_sock) : Z := u16 (next_seq (rx s) - 1).
(** [payload && len], without which the packet has no body. *)
Definition packet_body (k : msp_packet) : outcome (list Z) :=
  match pk_payload k with
  | Some bs => if len k =? 0 then Ret [] else if len k <=? zlen bs then Ret (take (Z.to_nat (len k)) bs) else Undef
  | None => Ret []
  end.
Definition packet_bytes (s : msp_sock) (k : msp_packet) (body : list Z) : list Z :=
  msp_flags s (pk_flags k) :: write_uint16 (ack_seq s) ++ write_uint16 (pk_seq k) ++ body.
Definition set_packet (i : nat) (k : msp_packet) (win : msp_window) : msp_window :=
  set_chain (<[i := Live k]> (chain win)) win.

(** The packet is the [i]-th of the window. *)
Definition packet_at (win : msp_window) (i : nat) : outcome msp_packet :=
  c ← or_undef (chain win !! i); live c.

Definition msp_send_packet (p i : nat) : M Z :=
  s ← sock_at p;
  assert (negb (port (remote (header s)) =? 0));;
  ok ← find_daemon;
  if negb ok then mret (-1)
  else
    k ← lift (packet_at (tx s) i);
    sock_set p (set_previous_ack (ack_seq s));;
    body ← lift (packet_body k);
    r ← send_message (mdp_sock s) (header s) (packet_bytes s k body);
    match r with
    | SendAgain => mret 1
    | SendError => msp_close_all (mdp_sock s);; mret (-1)
    | SendOk | SendShort =>
        now ← gettime_ms;
        sock_set p (fun s => set_next_ack (now + RETRANSMIT_TIME)
                     (set_tx (set_last_activity now (set_packet i (set_sent now k) (tx s))) s));;
        mret 0
    end.

Definition ack_bytes (s : msp_sock) : list Z := msp_flags s 0 :: write_uint16 (ack_seq s).
Definition send_ack (p : nat) : M Z :=
  s ← sock_at p;
  assert (negb (port (remote (header s)) =? 0));;
  ok ← find_daemon;
  if negb ok then mret (-1)
  else
    r ← send_message (mdp_sock s) (header s) (ack_bytes s);
    match r with
    | SendAgain => mret (-1)
    | SendError => msp_close_all (mdp_sock s);; mret (-1)
    | SendOk | SendShort =>
        now ← gettime_ms;
        sock_set p (fun s => set_next_ack (now + RETRANSMIT_TIME)
                     (set_tx (set_last_activity now (tx s)) (set_previous_ack (ack_seq s) s)));;
        mret 0
    end.

(** ** Processing a socket *)

Fixpoint pending_loop (n : nat) (fd : Z) (p : option nat) : M bool :=
  match p with
  | None => mret false
  | Some q => match n with
              | O => lift Undef
              | S n => s ← sock_at q;
                       if (mdp_sock s =? fd) && has (hd_flags (header s)) MDP_FLAG_BIND then mret true
                       else pending_loop n fd (_next s)
              end
  end.
Definition pending_bind (fd : Z) : M bool := n ← fuel; r ← get root; pending_loop n fd r.

(** [payload + offset], [len - offset] *)
Definition rest_of (k : msp_packet) : outcome (list Z) :=
  match pk_payload k with
  | Some bs => if len k <=? zlen bs then Ret (slice (offset k) (len k - offset k) bs) else Undef
  | None => if len k =? offset k then Ret [] else Undef
  end.
(** Deliver packets from the [i]-th of the window on. *)
Fixpoint deliver_loop (n : nat) (p i : nat) : M unit :=
  s ← sock_at p;
  match chain (rx s) !! i with
  | None => mret tt
  | Some c =>
      k ← lift (live c);
      if negb (pk_seq k =? next_seq (rx s)) then mret tt
      else match n with
      | O => lift Undef
      | S n =>
          (if has (pk_flags k) FLAG_SHUTDOWN then set_bits p MSP_STATE_SHUTDOWN_REMOTE else mret tt);;
          assert (offset k <=? len k);;
          bs ← lift (rest_of k);
          nconsumed ← call_handler p bs;
          if (nconsumed =? 0) && (offset k <? len k) then mret tt
          else
            sock_set p (fun s => set_rx (set_packet i (set_offset (offset k + nconsumed) k) (rx s)) s);;
            if offset k + nconsumed <? len k then deliver_loop n p i
            else
              assert (offset k + nconsumed =? len k);;
              sock_set p (fun s => set_rx (set_next_seq (u16 (next_seq (rx s) + 1)) (rx s)) s);;
              modify (w_event (Finished p));;
              deliver_loop n p (S i)
      end
  end.
(** Every round consumes a byte or a packet. *)
Definition cell_rounds (c : cell) : nat := match c with Live k => S (Z.to_nat (len k - offset k)) | Freed => O end.
Definition deliver_fuel (s : msp_sock) : nat := list_sum (map cell_rounds (chain (rx s))).

Definition keep_port (p : nat) : M bool :=
  s ← sock_at p;
  if port (local (header s)) =? 0 then
    b ← pending_bind (mdp_sock s);
    if b : bool then mret false
    else sock_set p (fun s => set_header (set_hd_flags (Z.lor (hd_flags (header s)) MDP_FLAG_BIND) (header s)) s);;
         mret true
  else mret true.
Definition lower_action (p : nat) (t : Z) : M unit :=
  s ← sock_at p; if t <? next_action s then sock_set p (set_next_action t) else mret tt.

(** Send packets of the window from the [i]-th on; the result is -1 when sending
    one has failed. *)
Fixpoint transmit_loop (n : nat) (p : nat) (now : Z) (i : nat) : M Z :=
  match n with
  | O => mret 0
  | S n =>
      s ← sock_at p;
      k ← lift (packet_at (tx s) i);
      r ← (if sent k + RETRANSMIT_TIME <? now then
             ok ← keep_port p;
             if negb ok then mret 1 else msp_send_packet p i
           else mret 0);
      if r =? -1 then mret (-1)
      else if negb (r =? 0) then mret 0
      else
        s ← sock_at p;
        k ← lift (packet_at (tx s) i);
        lower_action p (sent k + RETRANSMIT_TIME);;
        transmit_loop n p now (S i)
  end.

(** The number of packets of a window; [p->_next] of a freed one is undefined. *)
Definition count_packets (win : msp_window) : outcome nat :=
  if forallb (fun c => match c with Live _ => true | Freed => false end) (chain win) then Ret (length (chain win)) else Undef.

Definition deliver (p : nat) : M unit :=
  s ← sock_at p;
  deliver_loop (deliver_fuel s) p 0;;
  s ← sock_at p;
  win ← free_acked_packets (ack_seq s) (rx s);
  sock_set p (set_rx win);;
  call_handler p [];;
  s ← sock_at p;
  match handler s with
  | Some _ => lower_action p (last_handler s + HANDLER_KEEPALIVE)
  | None => mret tt
  end.

Definition check_window (p : nat) : M nat :=
  s ← sock_at p;
  count ← lift (count_packets (tx s));
  assert (Z.of_nat count =? packet_count (tx s));;
  (if (MAX_WINDOW_SIZE <=? Z.of_nat count) || has (state s) (Z.lor MSP_STATE_CLOSED MSP_STATE_SHUTDOWN_LOCAL)
   then assert (negb (has (state s) MSP_STATE_DATAOUT))
   else assert (has (state s) MSP_STATE_DATAOUT));;
  mret count.

(** [None] if the socket has to wait for its port. *)
Definition acknowledge (p : nat) (now : Z) : M (option Z) :=
  s ← sock_at p;
  if next_ack s <? now then
    if (port (local (header s)) =? 0) && has (hd_flags (header s)) MDP_FLAG_BIND then mret None
    else
      (if port (local (header s)) =? 0 then
         sock_set p (fun s => set_header (set_hd_flags (Z.lor (hd_flags (header s)) MDP_FLAG_BIND) (header s)) s)
       else mret tt);;
      r ← send_ack p;
      mret (Some r)
  else mret (Some 0).

Definition process_sock (p : nat) : M Z :=
  now ← gettime_ms;
  s ← sock_at p;
  if timeout s <? now then set_bits p (Z.lor MSP_STATE_CLOSED MSP_STATE_ERROR);; mret (-1)
  else
    sock_set p (set_next_action (timeout s));;
    if has (state s) MSP_STATE_LISTENING then mret 0
    else
      deliver p;;
      count ← check_window p;
      r ← transmit_loop count p now 0;
      if r =? -1 then mret (-1)
      else
        a ← acknowledge p now;
        match a with
        | None => mret 0
        | Some r =>
            if r =? -1 then mret (-1)
            else
              s ← sock_at p;
              lower_action p (next_ack s);;
              if has (state s) MSP_STATE_SHUTDOWN_LOCAL && has (state s) MSP_STATE_SHUTDOWN_REMOTE
                 && (packet_count (tx s) =? 0) && (packet_count (rx s) =? 0)
                 && (previous_ack s =? next_seq (rx s) - 1) then
                set_bits p MSP_STATE_CLOSED;; mret (-1)
              else mret 0
        end.

(** Another socket with the same port. *)
Fixpoint shared_loop (n : nat) (p : nat) (s : msp_sock) (o : option nat) : M bool :=
  match o with
  | None => mret false
  | Some q => match n with
              | O => lift Undef
              | S n => x ← sock_at q;
                       if negb (bool_decide (q = p)) && (mdp_sock x =? mdp_sock s)
                          && (port (local (header x)) =? port (local (header s))) then mret true
                       else shared_loop n p s (_next x)
              end
  end.
Definition msp_release (p : nat) : M unit :=
  s ← sock_at p;
  if port (local (header s)) =? 0 then mret tt
  else
    n ← fuel;
    r ← get root;
    b ← shared_loop n p s r;
    if b : bool then mret tt
    else
      mdp_send (mdp_sock s) (MdpHeader (local (header s)) (SockAddr SID_ANY MDP_LISTEN) MDP_FLAG_CLOSE 0 0) [];;
      sock_set p (fun s => set_header (set_local (SockAddr SID_ANY 0) (header s)) s).

Fixpoint process_loop (n : nat) (p : option nat) : M unit :=
  match p with
  | None => mret tt
  | Some q => match n with
              | O => lift Undef
              | S n => process_sock q;; s ← sock_at q; process_loop n (_next s)
              end
  end.
Fixpoint sweep_loop (n : nat) (p : option nat) (next : Z) : M Z :=
  match p with
  | None => mret next
  | Some q => match n with
              | O => lift Undef
              | S n =>
                  s ← sock_at q;
                  if has (state s) MSP_STATE_CLOSED then
                    msp_release q;; msp_free q;; sweep_loop n (_next s) next
                  else sweep_loop n (_next s) (if next_action s <? next then next_action s else next)
              end
  end.
(** The result is [*next_action]. *)
Definition msp_processing : M Z :=
  n ← fuel;
  r ← get root;
  process_loop n r;;
  n ← fuel;
  r ← get root;
  sweep_loop n r TIME_MS_NEVER_WILL.

(** ** Packets that arrive *)

Inductive search : Type := Bound | Found (sock listen : option nat).

Fixpoint search_loop (n : nat) (fd : Z) (hd : mdp_header) (p listen : option nat) : M search :=
  match p with
  | None => mret (Found None listen)
  | Some q => match n with
      | O => lift Undef
      | S n =>
          s ← sock_at q;
          if negb (mdp_sock s =? fd) then search_loop n fd hd (_next s) listen
          else if has (hd_flags (header s)) MDP_FLAG_BIND && has (hd_flags hd) MDP_FLAG_BIND then
            sock_set q (fun s => set_header (set_hd_flags (Z.land (hd_flags (header s)) (Z.lnot MDP_FLAG_BIND))
                                               (set_local (local hd) (header s))) s);;
            (if has (state s) MSP_STATE_LISTENING then
               sock_set q (fun s => set_next_action TIME_MS_NEVER_WILL (set_timeout TIME_MS_NEVER_WILL s))
             else now ← gettime_ms; sock_set q (set_next_action now));;
            mret Bound
          else if has (state s) MSP_STATE_LISTENING then
            search_loop n fd hd (_next s)
              (if (port (local (header s)) =? port (local hd))
                  && (bool_decide (sa_sid (local (header s)) = SID_ANY)
                      || bool_decide (sa_sid (local (header s)) = sa_sid (local hd)))
               then Some q else listen)
          else if bool_decide (remote (header s) = remote hd) && bool_decide (local (header s) = local hd)
          then mret (Found (Some q) listen)
          else search_loop n fd hd (_next s) listen
      end
  end.

(** A socket for a connection to the listening socket. *)
Definition accept (l : nat) (hd : mdp_header) : M (option nat) :=
  ls ← sock_at l;
  h ← msp_socket (mdp_sock ls) 0;
  match h_ptr h with
  | None => mret None
  | Some p => ls ← sock_at l;
              sock_set p (fun s => set_handler (handler ls) (context ls) (set_header hd s));;
              mret (Some p)
  end.

(** The data of a packet, from its sequence number on. *)
Definition receive_data (p : nat) (flags : Z) (payload : list Z) : M Z :=
  set_bits p MSP_STATE_RECEIVED_DATA;;
  seq ← lift (read_uint16 (drop 3 payload));
  r ← add_rx p seq flags (Some (drop 5 payload)) (zlen payload - MSP_PAYLOAD_PREAMBLE_SIZE);
  (if r =? 1 then now ← gettime_ms; sock_set p (set_next_ack now) else mret tt);;
  mret 0.

(** What a packet does to its socket. *)
Definition receive (p : nat) (flags : Z) (payload : list Z) : M Z :=
  now ← gettime_ms;
  sock_set p (fun s => set_timeout (now + 10000) (set_rx (set_last_activity now (rx s)) s));;
  set_bits p MSP_STATE_RECEIVED_PACKET;;
  if has flags FLAG_STOP then h ← sock_to_handle p; msp_stop h;; mret 0
  else if zlen payload <? 3 then mret 0
  else
    (if has flags FLAG_ACK then
       ack ← lift (read_uint16 (drop 1 payload));
       s ← sock_at p;
       win ← free_acked_packets ack (tx s);
       sock_set p (set_tx win)
     else mret tt);;
    s ← sock_at p;
    (if (packet_count (tx s) <? MAX_WINDOW_SIZE) && negb (has (state s) MSP_STATE_SHUTDOWN_LOCAL)
        && negb (has (state s) MSP_STATE_CLOSED)
     then set_bits p MSP_STATE_DATAOUT else mret tt);;
    now ← gettime_ms;
    sock_set p (set_next_action now);;
    if zlen payload <? MSP_PAYLOAD_PREAMBLE_SIZE then mret 0
    else receive_data p flags payload.

Definition process_packet (fd : Z) (hd : mdp_header) (payload : list Z) : M Z :=
  if has (hd_flags hd) MDP_FLAG_ERROR then mret (-1)
  else
    n ← fuel;
    r ← get root;
    x ← search_loop n fd hd r None;
    match x with
    | Bound => mret 0
    | Found sock listen =>
        match payload with
        | [] => mret (-1)
        | flags :: _ =>
            if negb (bool_decide (is_Some sock)) && has flags FLAG_STOP then mret 0
            else
              sock ← (match sock, listen with
                      | None, Some l => if has flags FLAG_FIRST then accept l hd else mret None
                      | _, _ => mret sock
                      end);
              match sock with
              | None => mdp_send fd hd [FLAG_STOP];; mret 0
              | Some p => receive p flags payload
              end
        end
    end.

(** The argument is the result of [mdp_recv], with room for 1200 bytes. *)
Definition msp_recv (fd : Z) (m : option (mdp_header * list Z)) : M Z :=
  match m with
  | None => mret (-1)
  | Some (hd, payload) => process_packet fd hd payload
  end.
End msp.
