(* ===== verification/MspWindows.v ===== *)
(** * Windows of the stream protocol

    A window holds packets in the order of their sequence numbers.  The numbers
    are 16 bits of a count that does not wrap around; as long as the counts in a
    window are less than half the range apart, the window is a list sorted by
    them.  [holds m win] says that the window [win] holds the packets [m], each
    with its count. *)

From stdpp Require Import base tactics list fin_maps gmap sorting.
From Stdlib Require Import ZArith Lia.
From S2P Require Import Prelude DataFormats DataFormatsSpec OverlayPacket Msp.

Local Open Scope Z_scope.

Abbreviation numbered := (list (Z * msp_packet)).

(** ** Sequence numbers *)

Lemma cmp_near i j : - 2 ^ 15 <= i - j < 2 ^ 15 -> compare_wrapped_uint16 (u16 i) (u16 j) = i - j.
Proof.
  intros H. pose proof (uN_range 16 j ltac:(lia)).
  rewrite <- (proj2 (compare_wrapped_distance (u16 j) (i - j))) by lia.
  f_equal. unfold uN. rewrite Zplus_mod_idemp_l. f_equal. lia.
Qed.

Lemma u16_near i j : - 2 ^ 16 < i - j < 2 ^ 16 -> u16 i = u16 j -> i = j.
Proof. unfold uN. intros H Heq. dmlia. Qed.

Lemma u16_eqb i j : - 2 ^ 16 < i - j < 2 ^ 16 -> (u16 i =? u16 j) = (i =? j).
Proof.
  intros H. destruct (Z.eqb_spec i j) as [->|Hne]; [apply Z.eqb_refl|].
  apply Z.eqb_neq. intros E. apply Hne. by apply u16_near.
Qed.

Lemma u16_add a b : u16 (u16 a + b) = u16 (a + b).
Proof. unfold uN. by rewrite Zplus_mod_idemp_l. Qed.

(** ** What a window holds *)

Abbreviation sorted := (StronglySorted (fun x y : Z * msp_packet => x.1 < y.1)).

Record holds (m : numbered) (win : msp_window) : Prop := {
  h_chain : chain win = (fun x => Live x.2) <$> m;
  h_seq : Forall (fun x => pk_seq x.2 = u16 x.1) m;
  h_sorted : sorted m;
  h_tail : _tail win = match m with [] => TailNull | _ => TailLast end;
  h_count : packet_count win = zlen m
}.

(** All counts are less than half the range from [j]. *)
Definition near (j : Z) (m : numbered) : Prop := Forall (fun x => - 2 ^ 15 < x.1 - j < 2 ^ 15) m.

(** Inserting into a sorted list; nothing changes if the count is there. *)
Fixpoint add_numbered (j : Z) (k : msp_packet) (m : numbered) : numbered :=
  match m with
  | [] => [(j, k)]
  | x :: m => if j <? x.1 then (j, k) :: x :: m else if x.1 =? j then x :: m else x :: add_numbered j k m
  end.
(** What stays when everything up to [a] is acknowledged. *)
Definition unacked (a : Z) (m : numbered) : numbered := filter (fun x => a < x.1) m.

(** A sorted list is cut in two, or three, by a number. *)
Lemma sorted_split j (m : numbered) : sorted m ->
  exists l1 l2, m = l1 ++ l2 /\ Forall (fun x => x.1 < j) l1 /\
    (Forall (fun x => j < x.1) l2 \/ exists k l3, l2 = (j, k) :: l3 /\ Forall (fun x => j < x.1) l3).
Proof.
  induction m as [|[i k] m IH]; intros Hs.
  { exists [], []. split; [done|]. split; [constructor|]. left. constructor. }
  apply StronglySorted_inv in Hs as [Hs Hh]. destruct (Z.lt_trichotomy i j) as [Hlt | [-> | Hgt]].
  - destruct (IH Hs) as (l1 & l2 & -> & H1 & H2). exists ((i, k) :: l1), l2.
    split; [done|]. split; [by constructor|done].
  - exists [], ((j, k) :: m). split; [done|]. split; [constructor|]. right. eauto.
  - exists [], ((i, k) :: m). split; [done|]. split; [constructor|]. left. constructor; [done|].
    eapply Forall_impl; [exact Hh|]. simpl. intros. lia.
Qed.

Lemma add_numbered_split j k l1 l2 :
  Forall (fun x => x.1 < j) l1 -> Forall (fun x => j < x.1) l2 -> add_numbered j k (l1 ++ l2) = l1 ++ (j, k) :: l2.
Proof.
  intros H1 H2. induction H1 as [|x l1 Hx H1 IH]; simpl.
  - destruct H2 as [|y l2 Hy H2]; [done|]. simpl. by zcase; [|lia].
  - zcase; [lia|]. zcase; [lia|]. by rewrite IH.
Qed.
Lemma add_numbered_dup j k m : sorted m -> j ∈ m.*1 -> add_numbered j k m = m.
Proof.
  intros Hs (x & -> & Hx)%list_elem_of_fmap. induction Hs as [|y m Hs IH Hh]; [by apply not_elem_of_nil in Hx|].
  simpl. apply elem_of_cons in Hx as [-> | Hx].
  - zcase; [lia|]. by rewrite Z.eqb_refl.
  - rewrite list.Forall_forall in Hh. specialize (Hh x Hx). zcase; [lia|]. zcase; [lia|]. by rewrite IH.
Qed.

Lemma above_not_in j (l1 l2 : numbered) :
  Forall (fun x => x.1 < j) l1 -> Forall (fun x => j < x.1) l2 -> j ∉ (l1 ++ l2).*1.
Proof.
  rewrite !list.Forall_forall. intros H1 H2 (x & -> & [Hx|Hx]%elem_of_app)%list_elem_of_fmap.
  - specialize (H1 x Hx). lia.
  - specialize (H2 x Hx). lia.
Qed.

Lemma sorted_add j k m : sorted m -> sorted (add_numbered j k m).
Proof.
  intros Hs. destruct (sorted_split j m Hs) as (l1 & l2 & E & H1 & [H2 | (k' & l3 & E' & H2)]).
  - rewrite E, add_numbered_split by done. rewrite E in Hs. apply StronglySorted_app in Hs as (Hc & Hs1 & Hs2).
    apply StronglySorted_app_2; [|done|by constructor].
    intros x y Hx [-> | Hy]%elem_of_cons; [|by apply Hc]. rewrite list.Forall_forall in H1. by apply H1.
  - rewrite add_numbered_dup; [done|done|]. rewrite E, E', fmap_app, fmap_cons. apply elem_of_app. right. apply elem_of_cons. by left.
Qed.

Lemma sorted_unacked a m : sorted m ->
  exists l1, m = l1 ++ unacked a m /\ Forall (fun x => x.1 <= a) l1.
Proof.
  intros Hs. unfold unacked. induction Hs as [|x m Hs IH Hh]; [by exists []|].
  destruct (decide (a < x.1)).
  - exists []. split; [|constructor]. rewrite filter_cons_True by done. simpl. f_equal.
    assert (H : Forall (fun y => a < y.1) m) by (eapply Forall_impl; [exact Hh|]; simpl; intros; lia).
    clear -H. induction H as [|y m Hy H IH]; [done|]. rewrite filter_cons_True by done. by f_equal.
  - destruct IH as (l1 & E & H1). exists (x :: l1). rewrite filter_cons_False by done. simpl.
    split; [by f_equal|]. constructor; [lia|done].
Qed.

Lemma sorted_app_r (l1 l2 : numbered) : sorted (l1 ++ l2) -> sorted l2.
Proof. apply StronglySorted_app_1_r. Qed.

(** ** Acknowledged packets *)

Lemma acked_loop_run now a l1 l2 count r :
  Forall (fun x => pk_seq x.2 = u16 x.1) (l1 ++ l2) -> near a (l1 ++ l2) ->
  Forall (fun x => x.1 <= a) l1 -> Forall (fun x => a < x.1) l2 ->
  zlen l1 <= count < 2 ^ 32 ->
  exists r', acked_loop now (u16 a) ((fun x => Live x.2) <$> (l1 ++ l2)) count r
             = Ret ((fun x => Live x.2) <$> l2, count - zlen l1, r').
Proof.
  intros Hseq Hn H1 H2. revert count r. induction H1 as [|x l1 Hx H1 IH]; intros count r Hc.
  - simpl. destruct H2 as [|y l2 Hy H2]; simpl in *.
    { eexists. unfold zlen. simpl. by rewrite Z.sub_0_r. }
    apply Forall_cons in Hseq as [-> _]. apply Forall_cons in Hn as [Hn _]. simpl.
    rewrite cmp_near by lia. zcase; [lia|]. eexists. unfold zlen. simpl. by rewrite Z.sub_0_r.
  - simpl in *. apply Forall_cons in Hseq as [-> Hseq]. apply Forall_cons in Hn as [Hn Hn']. simpl in Hn.
    rewrite zlen_cons in Hc. pose proof (zlen_nonneg l1).
    rewrite cmp_near by lia. destruct (Z.leb_spec (x.1 - a) 0); [|lia].
    rewrite (uN_small 32 (count - 1)) by lia.
    edestruct (IH Hseq Hn' (count - 1)) as (r' & Hr); [lia|]. exists r'. etransitivity; [exact Hr|].
    rewrite zlen_cons. do 3 f_equal. lia.
Qed.

Lemma unacked_above a m : Forall (fun x => a < x.1) (unacked a m).
Proof. unfold unacked. apply list.Forall_forall. intros x Hx. by apply list_elem_of_filter in Hx as [? _]. Qed.

(** What acknowledging does to a window. *)
Lemma free_acked_run now a m win :
  holds m win -> near a m -> zlen m < 2 ^ 32 ->
  exists win', free_acked now (u16 a) win = Ret win' /\ holds (unacked a m) win' /\ next_seq win' = next_seq win.
Proof.
  intros [Hc Hseq Hs Ht Hn] Hnear Hlen. destruct (sorted_unacked a m Hs) as (l1 & E & H1).
  pose proof (unacked_above a m) as H2. set (l2 := unacked a m) in *. rewrite E in *.
  unfold free_acked. rewrite Hc, Hn. rewrite zlen_app in *. pose proof (zlen_nonneg l1). pose proof (zlen_nonneg l2).
  destruct (acked_loop_run now a l1 l2 (zlen l1 + zlen l2) 0xFFFFFFFF) as (r' & ->); [done..|lia|].
  simpl. eexists. split; [done|].
  apply Forall_app in Hseq as [_ Hseq]. apply sorted_app_r in Hs.
  assert (Hw : forall v, chain v = (fun x => Live x.2) <$> l2 -> packet_count v = zlen l1 + zlen l2 - zlen l1 ->
     _tail v = match l1 ++ l2 with [] => TailNull | _ => TailLast end -> next_seq v = next_seq win ->
     holds l2 (match (fun x => Live x.2) <$> l2 with [] => set_tail TailNull v | _ => v end)
     /\ next_seq (match (fun x => Live x.2) <$> l2 with [] => set_tail TailNull v | _ => v end) = next_seq win).
  { intros v Hv1 Hv2 Hv3 Hv4. destruct l2 as [|y l2]; simpl.
    - split; [|done]. split; [done..|]. simpl. rewrite Hv2. unfold zlen. simpl. lia.
    - split; [|done]. split; [done..| |lia]. rewrite Hv3. by destruct l1. }
  apply Hw; destruct (r' =? 0xFFFFFFFF); done.
Qed.

(** ** Adding a packet *)

Lemma insert_loop_run j l1 l2 n :
  Forall (fun x => pk_seq x.2 = u16 x.1) (l1 ++ l2) -> near j (l1 ++ l2) -> l2 <> [] ->
  Forall (fun x => x.1 < j) l1 -> Forall (fun x => j <= x.1) (take 1 l2) ->
  insert_loop (u16 j) ((fun x => Live x.2) <$> (l1 ++ l2)) n
  = Ret (match l2 with (i, _) :: _ => if i =? j then Duplicate else At (n + length l1) | [] => Ambiguous end).
Proof.
  intros Hseq Hn Hne H1 H2. revert n. induction H1 as [|x l1 Hx H1 IH]; intros n.
  - destruct l2 as [|[i k] l2]; [done|]. simpl in *. apply Forall_cons in Hseq as [E _]. simpl in E.
    apply Forall_cons in Hn as [Hn _]. simpl in Hn. apply Forall_cons in H2 as [H2 _]. simpl in H2.
    rewrite E, cmp_near, u16_eqb by lia. zcase; [lia|]. by rewrite Nat.add_0_r; destruct (i =? j).
  - simpl in *. apply Forall_cons in Hseq as [E Hseq]. apply Forall_cons in Hn as [Hx' Hn].
    rewrite E, cmp_near by lia. zcase; [|lia]. rewrite IH by done.
    destruct l2 as [|[i k] l2]; [done|]. destruct (i =? j); [done|]. do 2 f_equal. lia.
Qed.

Lemma tail_run m x win : holds (m ++ [x]) win -> tail_packet win = Ret x.2.
Proof.
  intros [Hc _ _ Ht _]. unfold tail_packet. rewrite Ht, Hc, fmap_app. simpl. rewrite last_snoc. by destruct m.
Qed.

(** A packet that is not behind the last one. *)
Lemma insert_pos_inside win seq t :
  tail_packet win = Ret t -> pk_seq t <> seq -> 0 <= compare_wrapped_uint16 (pk_seq t) seq ->
  insert_pos win seq = insert_loop seq (chain win) 0.
Proof.
  intros Ht Hne Hge. unfold insert_pos. rewrite Ht. unfold tail_packet in Ht.
  destruct (chain win) as [|c l]; [by destruct (_tail win)|]. simpl.
  destruct (Z.eqb_spec (pk_seq t) seq); [done|]. by destruct (Z.ltb_spec (compare_wrapped_uint16 (pk_seq t) seq) 0); [lia|].
Qed.

Lemma insert_pos_at j l1 l2 win :
  holds (l1 ++ l2) win -> near j (l1 ++ l2) ->
  Forall (fun x => x.1 < j) l1 -> Forall (fun x => j < x.1) l2 ->
  insert_pos win (u16 j) = Ret (At (length l1)).
Proof.
  intros Hw Hn H1 H2. pose proof Hw as [Hc Hseq Hs _ _].
  destruct l2 as [|y l2 _] using rev_ind.
  - rewrite app_nil_r in *. destruct l1 as [|x l1 _] using rev_ind; [unfold insert_pos; by rewrite Hc|].
    unfold insert_pos. rewrite (tail_run _ _ _ Hw). apply Forall_app in Hseq as [Hseq E]. apply Forall_app in Hn as [Hn Hx].
    apply Forall_app in H1 as [H1 Hlt]. apply Forall_inv in E, Hx, Hlt. cbv beta in *.
    assert (Hhead : exists x0 m', l1 ++ [x] = x0 :: m' /\ x0.1 < j /\ - 2 ^ 15 < x0.1 - j /\ pk_seq x0.2 = u16 x0.1).
    { destruct l1 as [|x0 l1]; [exists x, []; split_and!; done || lia|]. apply Forall_cons in Hseq as [? _], Hn as [? _], H1 as [? _].
      exists x0, (l1 ++ [x]). split_and!; [done..|lia|done]. }
    destruct Hhead as (x0 & m' & Em & ? & ? & E0). rewrite Em in Hc |- *. rewrite Hc. simpl.
    rewrite E, u16_eqb, cmp_near by lia. destruct (Z.eqb_spec x.1 j); [lia|]. destruct (Z.ltb_spec (x.1 - j) 0); [|lia].
    rewrite E0, cmp_near by lia. zcase; [lia|]. by rewrite length_fmap.
  - rewrite (app_assoc l1) in Hw. pose proof (tail_run _ _ _ Hw) as Ht. rewrite <- app_assoc in Hw.
    apply Forall_app in Hseq as Hz. destruct Hz as [_ [_ E%Forall_inv]%Forall_app].
    apply Forall_app in Hn as Hz. destruct Hz as [_ [_ Hx%Forall_inv]%Forall_app].
    apply Forall_app in H2 as Hz. destruct Hz as [_ Hgt%Forall_inv]. cbv beta in *.
    rewrite (insert_pos_inside win _ _ Ht), Hc; [|rewrite E; intros ?%u16_near; lia|rewrite E, cmp_near; lia].
    rewrite insert_loop_run; [|done..|by destruct l2|done|].
    + destruct (l2 ++ [y]) as [|[i k] l] eqn:El; [by destruct l2|]. apply Forall_inv in H2.
      simpl in H2. by destruct (Z.eqb_spec i j); [lia|].
    + apply Forall_take. eapply Forall_impl; [exact H2|]. simpl. intros. lia.
Qed.

Lemma insert_pos_dup j m win : holds m win -> near j m -> j ∈ m.*1 -> insert_pos win (u16 j) = Ret Duplicate.
Proof.
  intros Hw Hn Hj. pose proof Hw as [Hc Hseq Hs _ _].
  destruct (sorted_split j m Hs) as (l1 & l2 & E & H1 & [H2 | (k & l3 & -> & H2)]).
  { exfalso. rewrite E in Hj. by eapply above_not_in. }
  destruct m as [|z m' _] using rev_ind; [by apply not_elem_of_nil in Hj|].
  pose proof (tail_run _ _ _ Hw) as Ht.
  apply Forall_app in Hseq as Hz. destruct Hz as [_ Ez%Forall_inv].
  apply Forall_app in Hn as Hz. destruct Hz as [_ Hz%Forall_inv]. cbv beta in *.
  destruct (decide (z.1 = j)) as [Hzj|Hzj].
  { unfold insert_pos. rewrite Ht, Hc, fmap_app. destruct m'; simpl; by rewrite Ez, Hzj, Z.eqb_refl. }
  assert (j < z.1).
  { destruct l3 as [|y l3 _] using rev_ind.
    - apply (f_equal list.last) in E. rewrite !last_snoc in E. by injection E as ->.
    - apply Forall_app in H2 as [_ H2%Forall_inv]. rewrite app_comm_cons, app_assoc in E.
      apply (f_equal list.last) in E. rewrite !last_snoc in E. by injection E as ->. }
  rewrite (insert_pos_inside win _ _ Ht), Hc; [|rewrite Ez; intros ?%u16_near; lia|rewrite Ez, cmp_near; lia].
  rewrite E in Hseq, Hn |- *. rewrite insert_loop_run; [by rewrite Z.eqb_refl|done..|].
  simpl. constructor; [simpl; lia|constructor].
Qed.

Lemma holds_link j k l1 l2 win : holds (l1 ++ l2) win -> Forall (fun x => x.1 < j) l1 -> Forall (fun x => j < x.1) l2 ->
  pk_seq k = u16 j -> zlen (l1 ++ l2) + 1 < 2 ^ 32 ->
  holds (l1 ++ (j, k) :: l2) (set_packet_count (u32 (packet_count win + 1)) (link_packet (length l1) (Live k) win)).
Proof.
  intros [Hc Hseq Hs Ht Hn] H1 H2 Hk Hlen. pose proof (sorted_add j k _ Hs) as Hs'.
  rewrite add_numbered_split in Hs' by done. apply Forall_app in Hseq as [Hq1 Hq2].
  unfold link_packet. split; simpl.
  - rewrite Hc, !fmap_app. simpl. rewrite take_app_length', drop_app_length' by by rewrite length_fmap. done.
  - apply Forall_app. split; [done|]. by constructor.
  - done.
  - rewrite Hc, length_fmap, length_app. destruct (Nat.eqb_spec (length l1) (length l1 + length l2)); simpl.
    + by destruct l1.
    + rewrite Ht. destruct l2; [simpl in *; lia|]. by destruct l1.
  - rewrite Hn, uN_small by (pose proof (zlen_nonneg (l1 ++ l2)); lia).
    rewrite !zlen_app, zlen_cons. lia.
Qed.

(** ** The whole of [add_packet] *)

(** A payload as a packet keeps it. *)
Definition body (bs : list Z) : option (list Z) := match bs with [] => None | _ => Some bs end.

(** Only the clock and the allocator are asked. *)
Definition idle {C} (w w' : msp_state C) : Prop := exists t a,
  w' = MspState (socks w) (root w) (salt_counter w) (next_block w) (daemon_addr w) (client_data w) (events w) t a (sends w).
Lemma idle_refl {C} (w : msp_state C) : idle w w.
Proof. exists (ticks w), (allocs w). by destruct w. Qed.

Section add.
Context {C : Type} {E : MspEnv C}.

Lemma add_packet_run j fl bs payload m win w :
  (forall n, alloc n = true) -> holds m win -> near j m -> zlen m + 1 < 2 ^ 32 ->
  payload = Some bs \/ (payload = None /\ bs = []) ->
  exists r win' w' t, add_packet win (u16 j) fl payload (zlen bs) w = Ret ((r, win'), w') /\ idle w w' /\
    next_seq win' = next_seq win /\
    let k := MspPacket (u16 j) fl t TIME_MS_NEVER_HAS (body bs) (zlen bs) 0 in
    holds (add_numbered j k m) win' /\ r = (if bool_decide (j ∈ m.*1) then 0 else 1).
Proof.
  intros Hall Hw Hn Hlen Hp. pose proof Hw as [_ _ Hs _ _]. unfold add_packet.
  destruct (decide (j ∈ m.*1)) as [Hj | Hj].
  { exists 0, win, w, 0. unfold lift, mbind, PM_bind. rewrite (insert_pos_dup j m) by done. simpl.
    split_and!; [done|apply idle_refl|done|by rewrite add_numbered_dup|]. by rewrite bool_decide_true. }
  destruct (sorted_split j m Hs) as (l1 & l2 & -> & H1 & [H2 | (k & l3 & -> & H2)]); last first.
  { exfalso. apply Hj. rewrite fmap_app, fmap_cons. apply elem_of_app. right. apply elem_of_cons. by left. }
  set (t := clock (ticks w)). rewrite (bool_decide_false _ Hj).
  set (k := MspPacket (u16 j) fl t TIME_MS_NEVER_HAS (body bs) (zlen bs) 0).
  exists 1, (set_packet_count (u32 (packet_count win + 1)) (link_packet (length l1) (Live k) win)).
  assert (Hk : holds (l1 ++ (j, k) :: l2) (set_packet_count (u32 (packet_count win + 1)) (link_packet (length l1) (Live k) win)))
    by by apply holds_link.
  assert (Hns : next_seq (set_packet_count (u32 (packet_count win + 1)) (link_packet (length l1) (Live k) win)) = next_seq win)
    by (unfold link_packet; by destruct (_ =? _)%nat).
  unfold lift, mbind, PM_bind. rewrite (insert_pos_at j l1 l2) by done. simpl. rewrite Hall. simpl.
  destruct Hp as [-> | [-> ->]].
  - destruct bs as [|b bs].
    + do 2 eexists. split; [done|]. split; [by eexists _, _|]. rewrite add_numbered_split by done. done.
    + unfold zlen at 1. simpl. rewrite Hall. simpl. rewrite Z.leb_refl.
      rewrite take_ge by (unfold zlen; lia).
      do 2 eexists. split; [done|]. split; [by eexists _, _|]. rewrite add_numbered_split by done. done.
  - do 2 eexists. split; [done|]. split; [by eexists _, _|]. rewrite add_numbered_split by done. done.
Qed.
End add.
