(* ===== verification/MspFrame.v ===== *)
(** * What the functions of the stream protocol leave alone

    [rel b p w w'] relates the states before and after code that consumes
    nothing from the socket [p] and, if [b] holds, leaves its window of received
    packets as it is, or frees the socket.  Everything but reading packets and adding
    received ones is such code for every socket, the programs of handlers
    included. *)

From stdpp Require Import base tactics list fin_maps gmap.
From Stdlib Require Import ZArith Lia.
From S2P Require Import Prelude DataFormats OverlayPacket Msp.

Local Open Scope Z_scope.

Create HintDb msp.

(** ** Code and relations on states *)

Definition keeps {C A} (R : relation (msp_state C)) (m : PM C A) : Prop :=
  forall w a w', m w = Ret (a, w') -> R w w'.

Lemma PM_bind_inv {C A B} (m : PM C A) (f : A -> PM C B) w r :
  (m ≫= f) w = Ret r -> exists a w1, m w = Ret (a, w1) /\ f a w1 = Ret r.
Proof. unfold mbind, PM_bind. destruct (m w) as [[a w1]| |]; simpl; [eauto|done..]. Qed.

Section keeps.
Context {C : Type} (R : relation (msp_state C)) `{!PreOrder R}.

Lemma keeps_ret {A} (a : A) : keeps R (mret a).
Proof. intros w x w' [= <- <-]. reflexivity. Qed.
Lemma keeps_bind {A B} (m : PM C A) (f : A -> PM C B) : keeps R m -> (forall a, keeps R (f a)) -> keeps R (m ≫= f).
Proof. intros Hm Hf w b w' (a & w1 & H1 & H2)%PM_bind_inv. transitivity w1; [by eapply Hm|by eapply Hf]. Qed.
Lemma keeps_lift {A} (o : outcome A) : keeps R (lift o).
Proof. intros w a w'. unfold lift. destruct o; simpl; [intros [= <- <-]; reflexivity|done..]. Qed.
Lemma keeps_get {A} (f : msp_state C -> A) : keeps R (get f).
Proof. intros w a w' [= <- <-]. reflexivity. Qed.
Lemma keeps_sock_at p : keeps R (sock_at p).
Proof. intros w a w'. unfold sock_at. destruct (socks w !! p); simpl; [intros [= <- <-]; reflexivity|done]. Qed.
Lemma keeps_modify f : (forall w, R w (f w)) -> keeps R (modify f).
Proof. intros H w a w' [= <- <-]. done. Qed.
End keeps.

Ltac keeps_step :=
  lazymatch goal with
  | |- keeps _ (@mret _ _ _ _) => refine (keeps_ret _ _)
  | |- keeps _ (lift _) => refine (keeps_lift _ _)
  | |- keeps _ (assert _) => refine (keeps_lift _ _)
  | |- keeps _ (get _) => refine (keeps_get _ _)
  | |- keeps _ fuel => refine (keeps_get _ _)
  | |- keeps _ (sock_at _) => refine (keeps_sock_at _ _)
  | |- keeps _ (@mbind _ _ _ _ _ _) => refine (keeps_bind _ _ _ _ _); [|intros ?]
  | |- keeps _ (match ?x with _ => _ end) => destruct x
  | |- keeps _ _ => solve [eauto with msp]
  end.
Ltac keeps_tac := intros; repeat keeps_step.

(** ** What is left alone *)

Definition bytes_of_event (p : nat) (e : msp_event) : list Z :=
  match e with Consumed q bs => if decide (q = p) then bs else [] | _ => [] end.
Global Instance mdp_header_eq : EqDecision mdp_header.
Proof. solve_decision. Defined.
Global Instance msp_event_eq : EqDecision msp_event.
Proof. solve_decision. Defined.
(** The bytes the handler of [p] has consumed. *)
Definition consumed {C} (p : nat) (w : msp_state C) : list Z := concat (bytes_of_event p <$> events w).

(** The number of packets of [p] that were consumed entirely. *)
Definition finished {C} (p : nat) (w : msp_state C) : Z :=
  zlen (filter (fun e => e = Finished p) (events w)).

(** The received packets of a socket. *)
Definition core (s : msp_sock) : list cell * Z * Z * tail_ptr :=
  (chain (rx s), next_seq (rx s), packet_count (rx s), _tail (rx s)).

Definition rel {C} (b : bool) (p : nat) (w w' : msp_state C) : Prop :=
  (next_block w <= next_block w')%nat /\
  ((p < next_block w)%nat ->
    consumed p w' = consumed p w /\ finished p w' = finished p w /\
    (b = true -> forall s', socks w' !! p = Some s' -> exists s, socks w !! p = Some s /\ core s' = core s)).

Global Instance rel_preorder {C} b p : PreOrder (@rel C b p).
Proof.
  split.
  - intros w. split; [done|]. intros _. split; [done|]. split; [done|]. intros _ s Hs. eauto.
  - intros w1 w2 w3 [Hn1 H1] [Hn2 H2]. split; [lia|]. intros Hp.
    destruct (H1 Hp) as (E1 & F1 & S1). destruct (H2 ltac:(lia)) as (E2 & F2 & S2).
    split; [congruence|]. split; [congruence|].
    intros Hb s3 Hs3. destruct (S2 Hb _ Hs3) as (s2 & Hs2 & ?). destruct (S1 Hb _ Hs2) as (s1 & ? & ?).
    exists s1. split; [done|congruence].
Qed.

Lemma rel_weaken {C} b p (w w' : msp_state C) : rel true p w w' -> rel b p w w'.
Proof. intros [Hn H]. split; [done|]. intros Hp. destruct (H Hp) as (? & ? & Hs). split_and!; [done..|]. intros _. by apply Hs. Qed.

Lemma consumed_event {C} p e (w : msp_state C) : consumed p (w_event e w) = consumed p w ++ bytes_of_event p e.
Proof. unfold consumed. simpl. rewrite fmap_app, concat_app. simpl. by rewrite app_nil_r. Qed.

Lemma finished_event {C} p e (w : msp_state C) :
  finished p (w_event e w) = finished p w + (if decide (e = Finished p) then 1 else 0).
Proof.
  unfold finished. simpl. rewrite filter_app, zlen_app. f_equal. rewrite list.filter_cons. by destruct (decide _).
Qed.

Lemma consumed_consume {C} p bs (w : msp_state C) : consumed p (w_event (Consumed p bs) w) = consumed p w ++ bs.
Proof. rewrite consumed_event. simpl. by rewrite decide_True. Qed.
Lemma consumed_finish {C} p (w : msp_state C) : consumed p (w_event (Finished p) w) = consumed p w.
Proof. rewrite consumed_event. simpl. by rewrite app_nil_r. Qed.
Lemma finished_consume {C} p q bs (w : msp_state C) : finished p (w_event (Consumed q bs) w) = finished p w.
Proof. rewrite finished_event, decide_False by done. apply Z.add_0_r. Qed.
Lemma finished_finish {C} p (w : msp_state C) : finished p (w_event (Finished p) w) = finished p w + 1.
Proof. by rewrite finished_event, decide_True. Qed.

(** States with the same sockets and events. *)
Lemma rel_same {C} b p (w w' : msp_state C) :
  socks w' = socks w -> next_block w' = next_block w -> events w' = events w -> rel b p w w'.
Proof.
  intros Hs Hn He. split; [lia|]. intros _. split; [unfold consumed; by rewrite He|].
  split; [unfold finished; by rewrite He|]. intros _ s. rewrite Hs. eauto.
Qed.

Section frame.
Context {C : Type} {E : MspEnv C}.
Variables (b : bool) (p : nat).
Implicit Types w : msp_state C.
Abbreviation K := (keeps (C := C) (rel b p)).

Lemma keeps_same f :
  (forall w, socks (f w) = socks w) -> (forall w, next_block (f w) = next_block w) ->
  (forall w, events (f w) = events w) -> K (modify f).
Proof. intros. apply keeps_modify. intros w. by apply rel_same. Qed.

Lemma keeps_event e : bytes_of_event p e = [] -> e <> Finished p -> K (modify (w_event e)).
Proof.
  intros He Hf. apply keeps_modify. intros w. split; [done|]. intros _.
  split; [by rewrite consumed_event, He, app_nil_r|]. split; [rewrite finished_event, decide_False by done; lia|].
  intros _ s Hs. eauto.
Qed.

Lemma keeps_gettime : K gettime_ms.
Proof. intros w a w' [= <- <-]. by apply rel_same. Qed.
Lemma keeps_emalloc : K emalloc.
Proof. intros w a w' [= <- <-]. by apply rel_same. Qed.

Lemma sock_set_inv q g w a w' :
  sock_set q g w = Ret (a, w') -> exists s, socks w !! q = Some s /\ w' = w_set_socks (<[q := g s]> (socks w)) w.
Proof.
  unfold sock_set, sock_at, mbind, PM_bind. destruct (socks w !! q) as [s|]; simpl; [|done].
  intros [= <- <-]. eauto.
Qed.

Lemma keeps_sock_set q g :
  b = false \/ q <> p \/ (forall s, core (g s) = core s) -> K (sock_set q g).
Proof.
  intros Hg w a w' (s & Hs & ->)%sock_set_inv. split; [done|]. intros _. split_and!; [done..|].
  intros Hb s' Hs'. simpl in Hs'. destruct (decide (q = p)) as [->|Hne].
  - rewrite lookup_insert_eq in Hs'. injection Hs' as <-. exists s. split; [done|].
    by destruct Hg as [Hg | [Hg | Hg]]; [rewrite Hb in Hg|done|].
  - rewrite lookup_insert_ne in Hs' by done. eauto.
Qed.
Lemma keeps_sock_core q g : (forall s, core (g s) = core s) -> K (sock_set q g).
Proof. intros. apply keeps_sock_set. auto. Qed.
Lemma keeps_set_bits q x : K (set_bits q x).
Proof. by apply keeps_sock_core. Qed.
Lemma keeps_clear_bits q x : K (clear_bits q x).
Proof. by apply keeps_sock_core. Qed.

Lemma keeps_new_block s : K (modify (w_new_block s)).
Proof.
  apply keeps_modify. intros w. split; [simpl; lia|]. intros Hp. split_and!; [done..|]. intros _ s' Hs'. simpl in Hs'.
  rewrite lookup_insert_ne in Hs' by lia. eauto.
Qed.
Lemma keeps_delete q : K (modify (fun w => w_set_socks (delete q (socks w)) w)).
Proof.
  apply keeps_modify. intros w. split; [done|]. intros Hp. split_and!; [done..|]. intros _ s' Hs'. simpl in Hs'.
  apply lookup_delete_Some in Hs' as [_ Hs']. eauto.
Qed.
End frame.

#[export] Hint Resolve keeps_gettime keeps_emalloc keeps_set_bits keeps_clear_bits keeps_new_block keeps_delete : msp.
#[export] Hint Extern 2 (keeps _ (modify (w_event _))) => apply keeps_event; [reflexivity|intros [=]; auto] : msp.
#[export] Hint Extern 3 (keeps _ (modify _)) => apply keeps_same; reflexivity : msp.
#[export] Hint Extern 2 (keeps _ (sock_set _ _)) => apply keeps_sock_core; reflexivity : msp.

(** ** The functions *)

Section functions.
Context {C : Type} {E : MspEnv C}.
Variables (b : bool) (p : nat).
Abbreviation K := (keeps (C := C) (rel b p)).

Lemma keeps_send_message fd h bs : K (send_message fd h bs).
Proof. unfold send_message. keeps_tac. Qed.
Hint Resolve keeps_send_message : msp.
Lemma keeps_mdp_send fd h bs : K (mdp_send fd h bs).
Proof. unfold mdp_send. keeps_tac. Qed.
Hint Resolve keeps_mdp_send : msp.
Lemma keeps_is_valid h : K (msp_socket_is_valid h).
Proof. unfold msp_socket_is_valid. keeps_tac. Qed.
Lemma keeps_handle_to_sock h : K (handle_to_sock h).
Proof. unfold handle_to_sock. keeps_tac. Qed.
Hint Resolve keeps_is_valid keeps_handle_to_sock : msp.
Lemma keeps_sock_to_handle q : K (sock_to_handle q).
Proof. unfold sock_to_handle. keeps_tac. Qed.
Lemma keeps_get_state h : K (msp_get_state h).
Proof. unfold msp_get_state. keeps_tac. Qed.
Lemma keeps_if_valid h f : K (if_valid h f).
Proof. unfold if_valid. keeps_tac. Qed.
Hint Resolve keeps_sock_to_handle keeps_get_state keeps_if_valid : msp.
Lemma keeps_msp_socket fd flags : K (msp_socket fd flags).
Proof. unfold msp_socket. keeps_tac. Qed.
Lemma keeps_run_test t h : K (run_test t h).
Proof. destruct t; simpl; [..|unfold msp_socket_is_closed| | | | |]; keeps_tac; apply keeps_if_valid. Qed.
Lemma keeps_count_loop n q i : K (count_loop n q i).
Proof. revert q i. induction n as [|n IH]; intros [q|] i; simpl; keeps_tac. Qed.
Lemma keeps_add_packet win seq flags payload len : K (add_packet win seq flags payload len).
Proof. unfold add_packet. keeps_tac. Qed.
Hint Resolve keeps_msp_socket keeps_run_test keeps_count_loop keeps_add_packet : msp.
Lemma keeps_add_tx q seq flags payload len : K (add_tx q seq flags payload len).
Proof. unfold add_tx. keeps_tac. Qed.
Lemma keeps_tx_advance q : K (tx_advance q).
Proof. unfold tx_advance. keeps_tac. Qed.
Hint Resolve keeps_add_tx keeps_tx_advance : msp.
Lemma keeps_stop h : K (msp_stop h).
Proof. unfold msp_stop. keeps_tac. Qed.
Lemma keeps_send h payload len : K (msp_send h payload len).
Proof. unfold msp_send. keeps_tac. Qed.
Lemma keeps_shutdown h : K (msp_shutdown h).
Proof. unfold msp_shutdown. keeps_tac. Qed.
Lemma keeps_connect h a : K (msp_connect h a).
Proof. unfold msp_connect. keeps_tac. Qed.
Lemma keeps_listen h : K (msp_listen h).
Proof. unfold msp_listen. keeps_tac. Qed.
Hint Resolve keeps_stop keeps_send keeps_shutdown keeps_connect keeps_listen : msp.

(** Every program of a client. *)
Lemma keeps_client c : K (run_client c).
Proof.
  induction c; simpl; unfold msp_get_local, msp_get_remote, msp_socket_count, msp_set_handler, msp_set_local;
    keeps_tac; auto.
Qed.
End functions.
#[export] Hint Resolve keeps_send_message keeps_mdp_send keeps_is_valid keeps_handle_to_sock keeps_sock_to_handle
  keeps_get_state keeps_if_valid keeps_msp_socket keeps_run_test keeps_count_loop keeps_add_packet keeps_add_tx
  keeps_tx_advance keeps_stop keeps_send keeps_shutdown keeps_connect keeps_listen keeps_client : msp.

(** ** Handlers, freeing and processing *)

(** What holds after code, whatever holds before. *)
Definition leaves {C A} (Q : msp_state C -> Prop) (m : PM C A) : Prop := forall w a w', m w = Ret (a, w') -> Q w'.
Lemma leaves_bind {C A B} Q (m : PM C A) (f : A -> PM C B) : (forall a, leaves Q (f a)) -> leaves Q (m ≫= f).
Proof. intros H w r w' (a & w1 & _ & Hf)%PM_bind_inv. by eapply H. Qed.

Section processing.
Context {C : Type} {E : MspEnv C}.
Implicit Types w : msp_state C.

(** A handler changes nothing of what it reads from; then the bytes count as
    consumed. *)
Lemma call_handler_inv q payload w n w' :
  call_handler q payload w = Ret (n, w') ->
  exists w1, (forall b p, rel b p w w1) /\ 0 <= n <= zlen payload /\
             w' = w_event (Consumed q (take (Z.to_nat n) payload)) w1.
Proof.
  intros (now & w1 & H1 & (s & w2 & H2 & (due & w3 & H3 & H)%PM_bind_inv)%PM_bind_inv)%PM_bind_inv.
  assert (Hr : forall b p, rel b p w w3).
  { intros b p. transitivity w1; [by eapply keeps_gettime|]. transitivity w2; [by eapply (keeps_sock_at (rel b p))|].
    by eapply (keeps_lift (rel b p)). }
  pose proof (zlen_nonneg payload) as Hz. clear H1 H2 H3.
  destruct (handler s) as [f|]; [destruct due|]; [|injection H as <- <-; exists w3; split_and!; done || lia..].
  apply PM_bind_inv in H as ([] & w4 & H4 & H). apply PM_bind_inv in H as (h & w5 & H5 & H).
  apply PM_bind_inv in H as (d & w6 & H6 & H). apply PM_bind_inv in H as (r & w7 & H7 & H).
  apply PM_bind_inv in H as ([] & w8 & H8 & H). unfold consume in H. injection H as <- <-.
  unfold assert, lift, cassert in H8. destruct (_ && _) eqn:Hb in H8; [|done]. simpl in H8. injection H8 as <-.
  bsplit. exists w7. split_and!; [|lia..|done]. intros b p. etransitivity; [apply Hr|].
  transitivity w4; [by eapply keeps_sock_core, H4|].
  transitivity w5; [by eapply keeps_sock_to_handle|]. transitivity w6; [by eapply (keeps_get (rel b p))|].
  by eapply keeps_client.
Qed.

Variables (b : bool) (p : nat).
Abbreviation K := (keeps (C := C) (rel b p)).

Lemma keeps_call_handler q payload : q <> p \/ payload = [] -> K (call_handler q payload).
Proof.
  intros Hq w n w' (w1 & Hr & Hn & ->)%call_handler_inv. etransitivity; [apply Hr|].
  refine (keeps_event b p (Consumed q _) _ _ w1 tt _ eq_refl); [|done]. simpl. destruct (decide (q = p)); [|done].
  destruct Hq as [? | ->]; [done|]. apply take_nil.
Qed.

Lemma keeps_find_daemon : K find_daemon.
Proof. unfold find_daemon. keeps_tac. Qed.
Lemma keeps_pending_loop n fd q : K (pending_loop n fd q).
Proof. revert q. induction n as [|n IH]; intros [q|]; simpl; keeps_tac. Qed.
Lemma keeps_shared_loop n q s o : K (shared_loop n q s o).
Proof. revert o. induction n as [|n IH]; intros [o|]; simpl; keeps_tac. Qed.
Hint Resolve keeps_find_daemon keeps_pending_loop keeps_shared_loop : msp.
Lemma keeps_lower_action q t : K (lower_action q t).
Proof. unfold lower_action. keeps_tac. Qed.
Lemma keeps_keep_port q : K (keep_port q).
Proof. unfold keep_port, pending_bind. keeps_tac. Qed.
Lemma keeps_msp_release q : K (msp_release q).
Proof. unfold msp_release. keeps_tac. Qed.
Lemma keeps_check_window q : K (check_window q).
Proof. unfold check_window. keeps_tac. Qed.
Lemma keeps_free_acked seq win : K (free_acked_packets seq win).
Proof. unfold free_acked_packets. keeps_tac. Qed.
Lemma keeps_search_loop n fd hd q l : K (search_loop n fd hd q l).
Proof. revert q l. induction n as [|n IH]; intros [q|] l; simpl; keeps_tac. Qed.
End processing.
#[export] Hint Resolve keeps_find_daemon keeps_pending_loop keeps_shared_loop keeps_lower_action keeps_keep_port
  keeps_msp_release keeps_check_window keeps_free_acked keeps_search_loop : msp.
#[export] Hint Extern 2 (keeps _ (call_handler _ _)) => apply keeps_call_handler; by auto : msp.

(** Sockets are not part of what is left alone, or another socket is. *)
#[export] Hint Extern 3 (keeps _ (sock_set _ _)) => apply keeps_sock_set; by auto : msp.

Section freeing.
Context {C : Type} {E : MspEnv C}.
Variables (p : nat).
Abbreviation K := (keeps (C := C) (rel true p)).

Lemma msp_free_quiet q : keeps (C := C) (rel false p) (msp_free q).
Proof. unfold msp_free. keeps_tac. Qed.
Lemma msp_free_gone q : leaves (C := C) (fun w => socks w !! q = None) (msp_free q).
Proof.
  unfold msp_free. repeat (apply leaves_bind; intros ?). intros w u w' [= _ <-]. simpl. by rewrite lookup_delete_eq.
Qed.
Lemma keeps_msp_free q : K (msp_free q).
Proof.
  destruct (decide (q = p)) as [->|Hne].
  - intros w u w' H. destruct (msp_free_quiet p w u w' H) as [Hn Hc]. split; [done|]. intros Hp.
    split_and!; [by apply Hc..|]. intros _ s' Hs'. by rewrite (msp_free_gone p w u w' H) in Hs'.
  - unfold msp_free. keeps_tac.
Qed.
Hint Resolve keeps_msp_free : msp.
Lemma keeps_close_loop n fd q : K (close_loop n fd q).
Proof. revert q. induction n as [|n IH]; intros [q|]; simpl; keeps_tac. Qed.
Hint Resolve keeps_close_loop : msp.
Lemma keeps_close_all fd : K (msp_close_all fd).
Proof. unfold msp_close_all. keeps_tac. Qed.
Hint Resolve keeps_close_all : msp.
Lemma keeps_send_packet q i : K (msp_send_packet q i).
Proof. unfold msp_send_packet. keeps_tac. Qed.
Lemma keeps_send_ack q : K (send_ack q).
Proof. unfold send_ack. keeps_tac. Qed.
Hint Resolve keeps_send_packet keeps_send_ack : msp.
Lemma keeps_transmit_loop n q now i : K (transmit_loop n q now i).
Proof. revert i. induction n as [|n IH]; intros i; simpl; keeps_tac. Qed.
Lemma keeps_acknowledge q now : K (acknowledge q now).
Proof. unfold acknowledge. keeps_tac. Qed.
Lemma keeps_sweep_loop n q next : K (sweep_loop n q next).
Proof. revert q next. induction n as [|n IH]; intros [q|] next; simpl; keeps_tac. Qed.
Hint Resolve keeps_transmit_loop keeps_acknowledge : msp.

(** Processing another socket. *)
Lemma keeps_deliver_loop n q i : q <> p -> K (deliver_loop n q i).
Proof. intros Hne. revert i. induction n as [|n IH]; intros i; simpl; keeps_tac. Qed.
Hint Resolve keeps_deliver_loop : msp.
Lemma keeps_deliver q : q <> p -> K (deliver q).
Proof. intros Hne. unfold deliver. keeps_tac. Qed.
Hint Resolve keeps_deliver : msp.
Lemma keeps_process_sock q : q <> p -> K (process_sock q).
Proof. intros Hne. unfold process_sock. keeps_tac. Qed.

(** A packet for another socket. *)
Lemma keeps_accept l hd : K (accept l hd).
Proof. unfold accept. keeps_tac. Qed.
Lemma keeps_receive q flags payload : q <> p -> K (receive q flags payload).
Proof. intros Hne. unfold receive, receive_data, add_rx. keeps_tac. Qed.
End freeing.
#[export] Hint Resolve keeps_msp_free keeps_close_all keeps_transmit_loop keeps_acknowledge keeps_sweep_loop
  keeps_process_sock keeps_accept keeps_receive : msp.
