(* ===== verification/MspDeliver.v ===== *)
(** * Reading the packets of a stream

    [stream i] are the bytes of the [i]-th packet of a stream.  A window of
    received packets is in order with the stream when it holds packets of it near
    the next one to read, and the bytes consumed are those of the packets before
    it with the part of it that was read: [rx_inv].  This file shows that reading,
    acknowledging and receiving keep it so. *)

From stdpp Require Import base tactics list list_numbers fin_maps gmap sorting.
From Stdlib Require Import ZArith Lia.
From S2P Require Import Prelude DataFormats DataFormatsSpec OverlayPacket Msp MspWindows MspFrame.

Local Open Scope Z_scope.

(** ** Lists of numbered packets *)

Lemma sorted_keys m m' : sorted m -> m'.*1 = m.*1 -> sorted m'.
Proof.
  intros Hs. revert m'. induction Hs as [|x m Hs IH Hh]; intros [|y m'] Hk; try discriminate Hk; [constructor|].
  rewrite !fmap_cons in Hk. injection Hk as Hk Hm. constructor; [by apply IH|].
  apply list.Forall_forall. intros z Hz. rewrite list.Forall_forall in Hh.
  assert (Hin : z.1 ∈ m.*1) by (rewrite <- Hm; by apply list_elem_of_fmap_2).
  apply list_elem_of_fmap in Hin as (z' & -> & Hz'). specialize (Hh z' Hz'). congruence || lia.
Qed.

Lemma sorted_unique (m : numbered) i k k' : sorted m -> (i, k) ∈ m -> (i, k') ∈ m -> k = k'.
Proof.
  intros Hs. induction Hs as [|x m Hs IH Hh]; [by intros ?%not_elem_of_nil|].
  rewrite list.Forall_forall in Hh.
  intros [E | H1]%elem_of_cons [E' | H2]%elem_of_cons; [congruence| | |by apply IH].
  - apply Hh in H2. rewrite <- E in H2. simpl in H2. lia.
  - apply Hh in H1. rewrite <- E' in H1. simpl in H1. lia.
Qed.

(** A sorted list of numbers in an interval. *)
Lemma sorted_length (m : numbered) a b : sorted m -> Forall (fun x => a <= x.1 < b) m -> a <= b -> zlen m <= b - a.
Proof.
  intros Hs. revert a. induction Hs as [|x m Hs IH Hh]; intros a Hr Hab; [unfold zlen; simpl; lia|].
  apply Forall_cons in Hr as [Hx Hr]. rewrite zlen_cons.
  assert (zlen m <= b - (x.1 + 1)); [|lia]. apply IH; [|lia].
  rewrite list.Forall_forall in *. intros y Hy. specialize (Hh y Hy). specialize (Hr y Hy). lia.
Qed.

(** How much of the packet [n] was read. *)
Fixpoint offset_of (n : Z) (m : numbered) : Z :=
  match m with [] => 0 | x :: m => if x.1 =? n then offset x.2 else offset_of n m end.

Lemma offset_of_elem n k m : sorted m -> (n, k) ∈ m -> offset_of n m = offset k.
Proof.
  intros Hs. induction Hs as [|x m Hs IH Hh]; [by intros ?%not_elem_of_nil|].
  intros [<- | Hx]%elem_of_cons; simpl; [by rewrite Z.eqb_refl|].
  rewrite list.Forall_forall in Hh. specialize (Hh _ Hx). simpl in Hh. zcase; [lia|]. by apply IH.
Qed.
Lemma offset_of_none n m : n ∉ m.*1 -> offset_of n m = 0.
Proof.
  induction m as [|x m IH]; [done|]. rewrite fmap_cons. intros [Hx Hm]%not_elem_of_cons. simpl.
  zcase; [congruence|]. by apply IH.
Qed.
Lemma offset_of_fresh n m : Forall (fun x => x.1 = n -> offset x.2 = 0) m -> offset_of n m = 0.
Proof. induction 1 as [|x m Hx _ IH]; [done|]. simpl. zcase; [by apply Hx|done]. Qed.

(** ** The invariant *)

Section stream.
Variable stream : Z -> list Z.

(** The first [n] packets and some bytes of the next one. *)
Definition sprefix (n off : Z) : list Z := concat (stream <$> seqZ 0 n) ++ take (Z.to_nat off) (stream n).

Lemma sprefix_next n : 0 <= n -> sprefix n (zlen (stream n)) = sprefix (n + 1) 0.
Proof.
  intros. unfold sprefix. rewrite seqZ_app by lia. rewrite fmap_app, concat_app. simpl.
  unfold zlen. rewrite Nat2Z.id, firstn_all, take_0, !app_nil_r. done.
Qed.
Lemma sprefix_more n off c : 0 <= off -> 0 <= c ->
  sprefix n off ++ take (Z.to_nat c) (drop (Z.to_nat off) (stream n)) = sprefix n (off + c).
Proof. intros. unfold sprefix. rewrite <- app_assoc, take_take_drop. do 2 f_equal. lia. Qed.

(** A packet of the window is the packet of the stream with its number. *)
Record genuine (i : Z) (k : msp_packet) : Prop := {
  g_payload : pk_payload k = body (stream i);
  g_len : len k = zlen (stream i);
  g_offset : 0 <= offset k <= len k
}.

(** [n] is the next packet to read, [n0] was it when reading began. *)
Record rx_inv (n0 n : Z) (win : msp_window) (bs : list Z) (m : numbered) : Prop := {
  ri_holds : holds m win;
  ri_next : next_seq win = u16 n;
  ri_range : 0 <= n0 <= n /\ n <= n0 + 2 ^ 14;
  ri_near : Forall (fun x => n0 - 2 ^ 14 < x.1 < n0 + 2 ^ 14) m;
  ri_genuine : Forall (fun x => genuine x.1 x.2) m;
  ri_fresh : Forall (fun x => n < x.1 -> offset x.2 = 0) m;
  ri_bytes : bs = sprefix n (offset_of n m)
}.

Lemma genuine_rest i k : genuine i k -> rest_of k = Ret (drop (Z.to_nat (offset k)) (stream i)).
Proof.
  intros [Hp Hl Ho]. unfold rest_of. rewrite Hp, Hl. destruct (stream i) as [|b bs] eqn:E.
  - rewrite Hl in Ho. unfold zlen in *. simpl in *. by replace (offset k) with 0 by lia.
  - simpl. rewrite Z.leb_refl. unfold slice. rewrite take_ge; [done|]. rewrite length_drop. unfold zlen. lia.
Qed.

(** Reading [c] more bytes of the packet. *)
Lemma rx_read n0 n win bs m i k c :
  rx_inv n0 n win bs m -> m !! i = Some (n, k) -> 0 <= c -> offset k + c <= len k ->
  rx_inv n0 n (set_packet i (set_offset (offset k + c) k) win)
    (bs ++ take (Z.to_nat c) (drop (Z.to_nat (offset k)) (stream n))) (<[i := (n, set_offset (offset k + c) k)]> m).
Proof.
  intros [[Hc Hseq Hs Ht Hn] Hnx Hr Hnear Hg Hf Hb] Hi Hc0 Hle.
  pose proof (list_elem_of_lookup_2 _ _ _ Hi) as Hin. pose proof Hi as Hlt%lookup_lt_Some.
  pose proof (proj1 (Forall_lookup _ _) Hseq i _ Hi) as Hq. simpl in Hq.
  pose proof (proj1 (Forall_lookup _ _) Hg i _ Hi) as [Hgp Hgl Hgo]. simpl in *.
  assert (Hs' : sorted (<[i := (n, set_offset (offset k + c) k)]> m)).
  { eapply sorted_keys; [exact Hs|]. rewrite list_fmap_insert, list_insert_id; [done|]. by rewrite list_lookup_fmap, Hi. }
  split.
  - split; simpl.
    + by rewrite Hc, list_fmap_insert.
    + by apply Forall_insert.
    + done.
    + rewrite Ht. destruct m as [|x m]; [done|]. by destruct i.
    + unfold zlen. rewrite length_insert. done.
  - done.
  - done.
  - apply Forall_insert; [done|]. by apply (proj1 (Forall_lookup _ _) Hnear i _ Hi).
  - apply Forall_insert; [done|]. split; [done..|]. simpl. lia.
  - apply Forall_insert; [done|]. simpl. lia.
  - rewrite (offset_of_elem n (set_offset (offset k + c) k)); [|done|].
    + simpl. rewrite Hb, (offset_of_elem n k) by done. apply sprefix_more; lia.
    + apply list_elem_of_lookup. exists i. by apply list_lookup_insert_eq.
Qed.

(** The next packet, when all of this one was read. *)
Lemma rx_next n0 n win bs m k :
  rx_inv n0 n win bs m -> (n, k) ∈ m -> offset k = len k ->
  rx_inv n0 (n + 1) (set_next_seq (u16 (next_seq win + 1)) win) bs m.
Proof.
  intros [[Hc Hseq Hs Ht Hn] Hnx Hr Hnear Hg Hf Hb] Hin Ho.
  pose proof (proj1 (list.Forall_forall _ _) Hnear _ Hin) as Hk. simpl in Hk.
  pose proof (proj1 (list.Forall_forall _ _) Hg _ Hin) as [Hgp Hgl Hgo]. simpl in *.
  split; [done|..].
  - simpl. by rewrite Hnx, u16_add.
  - lia.
  - done.
  - done.
  - eapply Forall_impl; [exact Hf|]. simpl. intros x Hx ?. apply Hx. lia.
  - rewrite Hb, (offset_of_elem n k), Ho, Hgl, sprefix_next by done || lia. f_equal. symmetry. apply offset_of_fresh.
    eapply Forall_impl; [exact Hf|]. simpl. intros x Hx ?. apply Hx. lia.
Qed.

(** Dropping the packets that were read. *)
Lemma rx_ack n0 n win bs m now :
  rx_inv n0 n win bs m ->
  exists win', free_acked now (u16 (n - 1)) win = Ret win' /\ rx_inv n n win' bs (unacked (n - 1) m).
Proof.
  intros [Hh Hnx Hr Hnear Hg Hf Hb]. pose proof Hh as [_ _ Hs _ _].
  destruct (free_acked_run now (n - 1) m win) as (win' & Hrun & Hh' & Hnx'); [done| | |].
  - eapply Forall_impl; [exact Hnear|]. simpl. intros. lia.
  - pose proof (sorted_length m (n0 - 2 ^ 14) (n0 + 2 ^ 14) Hs) as Hl.
    assert (zlen m <= n0 + 2 ^ 14 - (n0 - 2 ^ 14)); [|lia]. apply Hl; [|lia].
    eapply Forall_impl; [exact Hnear|]. simpl. intros. lia.
  - exists win'. split; [done|]. destruct (sorted_unacked (n - 1) m Hs) as (l1 & Em & H1).
    pose proof (unacked_above (n - 1) m) as H2. set (l2 := unacked (n - 1) m) in *.
    rewrite Em in Hnear, Hg, Hf. apply Forall_app in Hnear as [_ Hnear], Hg as [_ Hg], Hf as [_ Hf].
    split; [done|congruence|lia| |done|done|].
    + rewrite list.Forall_forall in *. intros x Hx. specialize (Hnear x Hx). specialize (H2 x Hx). simpl in *. lia.
    + rewrite Hb, Em. f_equal. clear -H1. induction H1 as [|x l1 Hx H1 IH]; [done|]. simpl. by zcase; [lia|].
Qed.

(** A packet of the stream arrives. *)
Lemma rx_arrive n win win' bs m i fl t :
  rx_inv n n win bs m -> n - 2 ^ 14 < i < n + 2 ^ 14 ->
  let k := MspPacket (u16 i) fl t TIME_MS_NEVER_HAS (body (stream i)) (zlen (stream i)) 0 in
  holds (add_numbered i k m) win' -> next_seq win' = next_seq win ->
  rx_inv n n win' bs (add_numbered i k m).
Proof.
  intros [Hh Hnx Hr Hnear Hg Hf Hb] Hin k Hh' Hnx'. pose proof Hh as [_ _ Hs _ _].
  destruct (decide (i ∈ m.*1)) as [Hd|Hd].
  { rewrite add_numbered_dup in Hh' |- * by done. split; done || congruence. }
  destruct (sorted_split i m Hs) as (l1 & l2 & -> & H1 & [H2 | (k' & l3 & -> & H2)]); last first.
  { exfalso. apply Hd. rewrite fmap_app, fmap_cons. apply elem_of_app. right. apply elem_of_cons. by left. }
  rewrite add_numbered_split in Hh' |- * by done.
  apply Forall_app in Hnear as [??], Hg as [??], Hf as [??].
  split; [done|congruence|done|..].
  - apply Forall_app. split; [done|]. by constructor.
  - apply Forall_app. split; [done|]. constructor; [|done]. split; [done..|]. simpl. pose proof (zlen_nonneg (stream i)). lia.
  - apply Forall_app. split; [done|]. by constructor.
  - rewrite Hb. f_equal. clear -Hd. induction l1 as [|x l1 IH]; simpl in *.
    + destruct (Z.eqb_spec i n) as [->|]; [|done]. by apply offset_of_none.
    + destruct (x.1 =? n); [done|]. apply IH. intros ?. apply Hd. by apply elem_of_cons; right.
Qed.
End stream.

(** ** Sockets *)

Section sockets.
Context {C : Type} {E : MspEnv C}.
Variables (stream : Z -> list Z) (p : nat).
Implicit Types w : msp_state C.

(** The socket, as long as it is there, is in order with the stream. *)
Definition reading (n0 : Z) w : Prop :=
  forall s, socks w !! p = Some s -> exists m, rx_inv stream n0 (finished p w) (rx s) (consumed p w) m.

Lemma rx_inv_core n0 n s s' bs m : core s' = core s -> rx_inv stream n0 n (rx s) bs m -> rx_inv stream n0 n (rx s') bs m.
Proof.
  intros [= Hc Hn Hk Ht] [[Hc' Hseq Hs Ht' Hn'] Hnx Hr Hnear Hg Hf Hb].
  split; [split|..]; done || congruence.
Qed.

Lemma reading_rel n0 w w' : rel true p w w' -> (p < next_block w)%nat -> reading n0 w -> reading n0 w'.
Proof.
  intros [Hn Hr] Hp HQ s' Hs'. destruct (Hr Hp) as (Ec & Ef & Hs). destruct (Hs eq_refl s' Hs') as (s & Hs1 & Hcore).
  destruct (HQ s Hs1) as (m & Hm). exists m. rewrite Ec, Ef. by eapply rx_inv_core.
Qed.

Lemma sock_at_inv q w s w' : sock_at q w = Ret (s, w') -> w' = w /\ socks w !! q = Some s.
Proof. unfold sock_at. destruct (socks w !! q); simpl; [intros [= -> ->]; done|done]. Qed.
Lemma lift_inv {A} (o : outcome A) w a w' : lift o w = Ret (a, w') -> w' = w /\ o = Ret a.
Proof. unfold lift. destruct o; simpl; [intros [= -> ->]; done|done..]. Qed.
Lemma assert_inv b w a w' : assert b w = Ret (a, w') -> w' = w /\ b = true.
Proof. intros [-> H]%lift_inv. by destruct b. Qed.

(** The packet at an index of the window is the next one. *)
Lemma next_packet_inv n0 n win bs m i k :
  rx_inv stream n0 n win bs m -> chain win !! i = Some (Live k) -> pk_seq k = next_seq win -> m !! i = Some (n, k).
Proof.
  intros [[Hc Hseq Hs Ht Hn] Hnx Hr Hnear Hg Hf Hb] Hi Hk.
  rewrite Hc, list_lookup_fmap in Hi. apply fmap_Some in Hi as ([j k'] & Hi & [= <-]).
  pose proof (proj1 (Forall_lookup _ _) Hseq i _ Hi) as Hj. pose proof (proj1 (Forall_lookup _ _) Hnear i _ Hi) as Hj'.
  simpl in *. rewrite Hi. do 2 f_equal. apply u16_near; [lia|congruence].
Qed.

(** The bytes that a handler has taken. *)
Lemma reading_consume n0 w s m i k c :
  socks w !! p = Some s -> rx_inv stream n0 (finished p w) (rx s) (consumed p w) m ->
  m !! i = Some (finished p w, k) -> 0 <= c <= zlen (drop (Z.to_nat (offset k)) (stream (finished p w))) ->
  let w1 := w_event (Consumed p (take (Z.to_nat c) (drop (Z.to_nat (offset k)) (stream (finished p w))))) w in
  let s1 := set_rx (set_packet i (set_offset (offset k + c) k) (rx s)) s in
  rx_inv stream n0 (finished p w1) (rx s1) (consumed p w1) (<[i := (finished p w, set_offset (offset k + c) k)]> m).
Proof.
  intros Hs Hm Hi Hc w1 s1. unfold w1, s1. rewrite consumed_consume, finished_consume.
  apply rx_read; [done|done|lia|].
  pose proof (proj1 (Forall_lookup _ _) (ri_genuine _ _ _ _ _ _ Hm) i _ Hi) as [_ Hl Ho]. simpl in *.
  unfold zlen in *. rewrite length_drop in Hc. lia.
Qed.

(** The flag of the last packet. *)
Lemma keeps_flag (b : bool) : keeps (C := C) (rel true p) (if b then set_bits p MSP_STATE_SHUTDOWN_REMOTE else mret tt).
Proof. destruct b; keeps_tac. Qed.

(** The packet that is read, in the state its handler has left. *)
Lemma packet_after n0 i w w2 s s2 k bs :
  rel true p w w2 -> (p < next_block w)%nat -> reading n0 w -> socks w !! p = Some s ->
  chain (rx s) !! i = Some (Live k) -> pk_seq k = next_seq (rx s) -> rest_of k = Ret bs -> socks w2 !! p = Some s2 ->
  exists m, rx_inv stream n0 (finished p w2) (rx s2) (consumed p w2) m /\ m !! i = Some (finished p w2, k) /\
            bs = drop (Z.to_nat (offset k)) (stream (finished p w2)).
Proof.
  intros Hr Hp HQ Hs Hi Eq Hbs Hs2. destruct (reading_rel _ _ _ Hr Hp HQ s2 Hs2) as (m & Hm).
  destruct Hr as [_ Hr]. destruct (Hr Hp) as (_ & _ & Hcore). destruct (Hcore eq_refl s2 Hs2) as (s' & Hs' & Hc').
  rewrite Hs in Hs'. injection Hs' as <-. unfold core in Hc'. injection Hc' as Hc1 Hc2 _ _.
  assert (Hmi : m !! i = Some (finished p w2, k)) by (eapply next_packet_inv; [done|by rewrite Hc1|by rewrite Hc2]).
  exists m. split; [done|]. split; [done|].
  pose proof (proj1 (Forall_lookup _ _) (ri_genuine _ _ _ _ _ _ Hm) i _ Hmi) as Hg. simpl in Hg.
  rewrite (genuine_rest _ _ _ Hg) in Hbs. by injection Hbs.
Qed.

Lemma deliver_loop_reading n0 n i w u w' :
  deliver_loop n p i w = Ret (u, w') -> (p < next_block w)%nat -> reading n0 w ->
  (next_block w <= next_block w')%nat /\ reading n0 w'.
Proof.
  revert i w. induction n as [|n IH]; intros i w H Hp HQ; simpl in H.
  all: apply PM_bind_inv in H as (s & w1 & [-> Hs]%sock_at_inv & H).
  all: destruct (chain (rx s) !! i) as [c|] eqn:Hi; [|by injection H as <- <-].
  all: apply PM_bind_inv in H as (k & w1 & [-> Hk]%lift_inv & H).
  all: destruct (Z.eqb_spec (pk_seq k) (next_seq (rx s))) as [Eq|Ne]; simpl in H; [|by injection H as <- <-].
  { by destruct u. }
  destruct c as [k0|]; [|done]. injection Hk as ->.
  apply PM_bind_inv in H as (u1 & w1 & H1 & H).
  apply keeps_flag in H1 as Hr1.
  apply PM_bind_inv in H as (u2 & w2 & [-> Hle]%assert_inv & H).
  apply PM_bind_inv in H as (bs & w2 & [-> Hbs]%lift_inv & H).
  apply PM_bind_inv in H as (nc & w3 & (w2 & Hr2 & Hnc & ->)%call_handler_inv & H).
  assert (Hr : rel true p w w2) by (etransitivity; [exact Hr1|apply Hr2]).
  assert (Hp2 : (p < next_block w2)%nat) by (destruct Hr; lia).
  pose proof (fun s2 => packet_after n0 i w w2 s s2 k bs Hr Hp HQ Hs Hi Eq Hbs) as Hpk. destruct Hr as [Hnb _].
  clear Hbs HQ Hr1 Hr2. destruct ((nc =? 0) && (offset k <? len k)) eqn:Hstop.
  { injection H as <- <-. bsplit. subst nc. split; [done|]. intros s2 Hs2. simpl in Hs2.
    destruct (Hpk s2 Hs2) as (m & Hm & _). exists m. rewrite consumed_consume, finished_consume.
    by rewrite take_0, app_nil_r. }
  apply PM_bind_inv in H as (u3 & w3 & (s2 & Hs2 & ->)%sock_set_inv & H). simpl in Hs2.
  destruct (Hpk s2 Hs2) as (m & Hm & Hmi & ->). pose proof (reading_consume n0 w2 s2 m i k nc Hs2 Hm Hmi Hnc) as Hm'.
  set (w3 := w_event _ w2) in *. set (s3 := set_rx _ s2) in *.
  destruct (Z.ltb_spec (offset k + nc) (len k)) as [Hpart|Hall].
  { apply IH in H as [Hn' HQ']; [|done|].
    - split; [|done]. simpl in Hn'. lia.
    - intros s' Hs'. simpl in Hs'. rewrite lookup_insert_eq in Hs'. injection Hs' as <-. eauto. }
  apply PM_bind_inv in H as (u4 & w4 & [-> Hend]%assert_inv & H). bsplit.
  apply PM_bind_inv in H as (u5 & w4 & (s4 & Hs4 & ->)%sock_set_inv & H). simpl in Hs4.
  rewrite lookup_insert_eq in Hs4. injection Hs4 as <-.
  apply PM_bind_inv in H as (u6 & w4 & [= <- <-] & H).
  apply IH in H as [Hn' HQ']; [|done|].
  - split; [|done]. simpl in Hn'. lia.
  - intros s' Hs'. simpl in Hs'. rewrite lookup_insert_eq in Hs'. injection Hs' as <-.
    exists (<[i := (finished p w2, set_offset (offset k + nc) k)]> m).
    rewrite finished_finish, consumed_finish.
    refine (rx_next stream n0 (finished p w3) _ _ _ _ Hm' _ _); simpl.
    + unfold w3. rewrite finished_consume.
      apply list_elem_of_lookup. exists i. apply list_lookup_insert_eq. by eapply lookup_lt_Some.
    + done.
Qed.

(** [free_acked_packets] on a window of received packets. *)
Lemma free_rx_run n0 n win bs m w :
  rx_inv stream n0 n win bs m ->
  exists win' w' m', free_acked_packets (u16 (next_seq win - 1)) win w = Ret (win', w') /\ idle w w' /\
    rx_inv stream n n win' bs m'.
Proof.
  intros Hm. pose proof Hm as [[Hc _ _ _ _] Hnx Hr _ _ _ _].
  assert (Eq : u16 (next_seq win - 1) = u16 (n - 1)) by (rewrite Hnx; apply u16_add).
  unfold free_acked_packets. rewrite Hc, Eq. destruct m as [|x m].
  - exists win, w, []. split; [done|]. split; [apply idle_refl|].
    destruct Hm. split; [done..|lia|constructor|done|done|done].
  - destruct (rx_ack stream n0 n win bs (x :: m) (clock (ticks w)) Hm) as (win' & Hrun & Hm').
    exists win', (w_tick w), (unacked (n - 1) (x :: m)). split; [|split; [by eexists _, _|done]].
    unfold mbind, PM_bind, lift. simpl. rewrite Hrun. done.
Qed.

(** [add_packet] on a window of received packets. *)
Lemma add_rx_run n win bs m i fl w :
  (forall n, alloc n = true) -> rx_inv stream n n win bs m -> n - 2 ^ 14 < i < n + 2 ^ 14 ->
  exists r win' w' m', add_packet win (u16 i) fl (Some (stream i)) (zlen (stream i)) w = Ret ((r, win'), w') /\
    idle w w' /\ rx_inv stream n n win' bs m'.
Proof.
  intros Hall Hm Hi. pose proof Hm as [Hh _ Hr Hnear _ _ _]. pose proof Hh as [_ _ Hs _ _].
  destruct (add_packet_run i fl (stream i) (Some (stream i)) m win w) as (r & win' & w' & t & Hrun & Hidle & Hnx & Hh' & _).
  - done.
  - done.
  - eapply Forall_impl; [exact Hnear|]. simpl. intros. lia.
  - assert (zlen m <= n + 2 ^ 14 - (n - 2 ^ 14)); [|lia]. apply sorted_length; [done| |lia].
    eapply Forall_impl; [exact Hnear|]. simpl. intros. lia.
  - by left.
  - do 4 eexists. split; [done|]. split; [done|]. by eapply rx_arrive.
Qed.
End sockets.
