(* ===== verification/MspProgress.v ===== *)
(** * Reading ends, and reads everything there is

    The fuel of [deliver_loop] is enough whatever the handlers do; handlers that
    consume what they are given are given every packet up to the first that is
    missing. *)

From stdpp Require Import base tactics list list_numbers fin_maps gmap sorting.
From Stdlib Require Import ZArith Lia.
From S2P Require Import Prelude DataFormats DataFormatsSpec OverlayPacket Msp MspWindows MspFrame MspDeliver.

Local Open Scope Z_scope.

(** The rounds that the packets from the [i]-th on can take. *)
Definition rounds_from (i : nat) (l : list cell) : nat := list_sum (map cell_rounds (drop i l)).

Lemma rounds_cons i l c : l !! i = Some c -> rounds_from i l = (cell_rounds c + rounds_from (S i) l)%nat.
Proof. intros H. unfold rounds_from. by rewrite (drop_S _ _ _ H). Qed.
Lemma rounds_insert i l c : (i < length l)%nat -> rounds_from i (<[i := c]> l) = (cell_rounds c + rounds_from (S i) l)%nat.
Proof.
  intros H. rewrite (rounds_cons i _ c) by by apply list_lookup_insert_eq. f_equal.
  unfold rounds_from. by rewrite drop_insert_lt by lia.
Qed.
Lemma rounds_after i l c : rounds_from (S i) (<[i := c]> l) = rounds_from (S i) l.
Proof. unfold rounds_from. by rewrite drop_insert_lt by lia. Qed.

Lemma rounds_live (l : numbered) : (length l <= list_sum (map cell_rounds ((fun x => Live x.2) <$> l)))%nat.
Proof. unfold fmap. induction l as [|x l IH]; simpl; lia. Qed.

Section fuel.
Context {C : Type} {E : MspEnv C}.
Implicit Types w : msp_state C.

Lemma bind_ext {A B} (m : PM C A) (f g : A -> PM C B) w :
  (forall a w1, m w = Ret (a, w1) -> f a w1 = g a w1) -> (m ≫= f) w = (m ≫= g) w.
Proof. intros H. unfold mbind, PM_bind. destruct (m w) as [[a w1]| |]; simpl; auto. Qed.

Lemma deliver_loop_fuel e n p i w :
  (p < next_block w)%nat ->
  (forall s, socks w !! p = Some s -> (rounds_from i (chain (rx s)) <= n)%nat) ->
  deliver_loop (n + e) p i w = deliver_loop n p i w.
Proof.
  revert i w. induction n as [|n IH]; intros i w Hp Hn.
  - destruct e as [|e]; [done|]. simpl. apply bind_ext. intros s w1 [-> Hs]%sock_at_inv. specialize (Hn s Hs).
    destruct (chain (rx s) !! i) as [c|] eqn:Hi; [|done]. rewrite (rounds_cons _ _ _ Hi) in Hn.
    destruct c; [simpl in Hn; lia|done].
  - simpl. apply bind_ext. intros s w1 [-> Hs]%sock_at_inv. specialize (Hn s Hs).
    destruct (chain (rx s) !! i) as [c|] eqn:Hi; [|done]. rewrite (rounds_cons _ _ _ Hi) in Hn.
    apply bind_ext. intros k w1 [-> Hk]%lift_inv. destruct c as [k0|]; [|done]. injection Hk as ->.
    destruct (negb _); [done|].
    apply bind_ext. intros u1 w1 H1.
    apply (keeps_flag p) in H1 as Hr1.
    apply bind_ext. intros u2 w2 [-> Hle]%assert_inv. apply bind_ext. intros bs w2 [-> _]%lift_inv.
    apply bind_ext. intros nc w3 (w2 & Hr2 & Hnc & ->)%call_handler_inv.
    assert (Hr : rel true p w w2) by (etransitivity; [exact Hr1|apply Hr2]). clear Hr1 Hr2 H1.
    destruct Hr as [Hnb Hr]. destruct (Hr Hp) as (_ & _ & Hcore). specialize (Hcore eq_refl).
    destruct ((nc =? 0) && _) eqn:Hstop; [done|].
    apply bind_ext. intros u3 w3 (s3 & Hs3 & ->)%sock_set_inv. simpl in Hs3.
    destruct (Hcore s3 Hs3) as (s' & Hs' & Hc'). rewrite Hs in Hs'. injection Hs' as <-.
    unfold core in Hc'. injection Hc' as Hc' _ _ _. pose proof (lookup_lt_Some _ _ _ Hi) as Hlt.
    bsplit. destruct (Z.ltb_spec (offset k + nc) (len k)) as [Hpart|Hall].
    + apply IH; [simpl; lia|]. intros s4 Hs4. simpl in Hs4. rewrite lookup_insert_eq in Hs4. injection Hs4 as <-. simpl.
      rewrite Hc', rounds_insert by done. simpl in Hn |- *.
      assert (nc <> 0). { intros ->. rewrite Z.eqb_refl in Hstop. simpl in Hstop. bsplit. lia. }
      lia.
    + apply bind_ext. intros u4 w4 [-> _]%assert_inv.
      apply bind_ext. intros u5 w4 (s4 & Hs4 & ->)%sock_set_inv. simpl in Hs4.
      rewrite lookup_insert_eq in Hs4. injection Hs4 as <-.
      apply bind_ext. intros u6 w4 [= <- <-]. apply IH; [simpl; lia|].
      intros s5 Hs5. simpl in Hs5. rewrite lookup_insert_eq in Hs5. injection Hs5 as <-. simpl.
      rewrite Hc', rounds_after. simpl in Hn. lia.
Qed.

(** C29: Reading the packets of a socket ends: with any amount of fuel above the one
    computed from the window, [deliver_loop] does the same, whatever the handlers
    consume and whichever functions of the library they call. *)
Theorem deliver_loop_ends p s e w :
  socks w !! p = Some s -> (p < next_block w)%nat ->
  deliver_loop (deliver_fuel s + e) p 0 w = deliver_loop (deliver_fuel s) p 0 w.
Proof.
  intros Hs Hp. apply deliver_loop_fuel; [done|]. intros s' Hs'. rewrite Hs in Hs'. injection Hs' as <-.
  unfold rounds_from, deliver_fuel. by rewrite drop_0.
Qed.
End fuel.

(** ** Handlers that consume everything *)

(** A handler that was called before, or will be since the state is not the one it
    was last called in. *)
Definition timed (s : msp_sock) : Prop :=
  handler s = None \/ 0 <= last_handler s \/ (last_state s = 0xFFFF /\ 0 <= state s < 2 ^ 9).

Lemma lor_bound n x y : 0 < n -> 0 <= x < 2 ^ n -> 0 <= y < 2 ^ n -> 0 <= Z.lor x y < 2 ^ n.
Proof.
  intros Hn Hx Hy. split; [apply Z.lor_nonneg; lia|].
  destruct (Z.eq_dec (Z.lor x y) 0) as [->|Hne]; [lia|].
  assert (0 < Z.lor x y) by (pose proof (proj2 (Z.lor_nonneg x y) (conj (proj1 Hx) (proj1 Hy))); lia).
  apply Z.log2_lt_pow2; [done|]. rewrite Z.log2_lor by lia. apply Z.max_lub_lt.
  - destruct (Z.eq_dec x 0) as [->|]; [done|apply Z.log2_lt_pow2; lia].
  - destruct (Z.eq_dec y 0) as [->|]; [done|apply Z.log2_lt_pow2; lia].
Qed.

Section eager.
Context {C : Type} {E : MspEnv C}.
Variables (stream : Z -> list Z) (p : nat).
Implicit Types w : msp_state C.
Hypothesis Heager : forall f h st bs ctx d, exists d', handlers f h st bs ctx d = CReturn (zlen bs) d'.
Hypothesis Hclock : forall n, 0 <= clock n < 2 ^ 62.

Lemma PM_bind_Ret {A B} (m : PM C A) (f : A -> PM C B) w a w' : m w = Ret (a, w') -> (m ≫= f) w = f a w'.
Proof. unfold mbind, PM_bind. by intros ->. Qed.
Lemma sock_at_run q s w : socks w !! q = Some s -> sock_at q w = Ret (s, w).
Proof. unfold sock_at. by intros ->. Qed.
Lemma sock_set_run q s g w : socks w !! q = Some s -> sock_set q g w = Ret (tt, w_set_socks (<[q := g s]> (socks w)) w).
Proof. intros H. unfold sock_set. by rewrite (PM_bind_Ret _ _ _ _ _ (sock_at_run _ _ _ H)). Qed.

Lemma due_run s n now : timed s -> 0 <= now < 2 ^ 62 -> exists b, handler_due s n now = Ret b.
Proof.
  intros Ht Hnow. unfold handler_due. destruct (handler s) eqn:Hh; [|eauto].
  destruct (negb (n =? 0) || negb (last_state s =? state s)) eqn:Hb; [eauto|]. unfold keepalive_due.
  destruct Ht as [?|[Hl|[Hl Hs]]]; [congruence| |].
  - zcase; [eauto|]. unfold TIME_MS_NEVER_WILL in *. lia.
  - bsplit. lia.
Qed.

Lemma call_eager bs w s :
  socks w !! p = Some s -> timed s ->
  exists w' s', call_handler p bs w = Ret (zlen bs, w') /\ socks w' !! p = Some s' /\ rx s' = rx s /\ timed s' /\
    consumed p w' = consumed p w ++ bs /\ finished p w' = finished p w.
Proof.
  intros Hs Ht. unfold call_handler, gettime_ms. unfold mbind at 1, PM_bind at 1. simpl.
  rewrite (PM_bind_Ret (sock_at p) _ _ s (w_tick w)) by by apply sock_at_run.
  destruct (due_run s (zlen bs) (clock (ticks w)) Ht (Hclock _)) as (due & Hdue). rewrite Hdue.
  unfold lift at 1. unfold mbind at 1, PM_bind at 1. simpl.
  assert (Hquiet : exists w' s', consume p bs (zlen bs) (w_tick w) = Ret (zlen bs, w') /\ socks w' !! p = Some s' /\
    rx s' = rx s /\ timed s' /\ consumed p w' = consumed p w ++ bs /\ finished p w' = finished p w).
  { eexists _, s. split; [done|]. split_and!; [done..| |].
    - rewrite consumed_consume. unfold zlen. by rewrite Nat2Z.id, firstn_all.
    - by rewrite finished_consume. }
  destruct (handler s) as [f|] eqn:Hh; [|done]. destruct due; [|done]. clear Hquiet.
  set (s1 := set_last_call (state s) (clock (ticks w)) s).
  rewrite (PM_bind_Ret _ _ _ _ _ (sock_set_run p s _ (w_tick w) Hs)). fold s1.
  set (w1 := w_set_socks _ _). assert (Hs1 : socks w1 !! p = Some s1) by apply lookup_insert_eq.
  unfold sock_to_handle. rewrite (PM_bind_Ret _ _ w1 (Handle (Some p) (salt s1)) w1)
    by (by rewrite (PM_bind_Ret _ _ _ _ _ (sock_at_run _ _ _ Hs1))).
  unfold get at 1. unfold mbind at 1, PM_bind at 1. simpl.
  destruct (Heager f (Handle (Some p) (salt s)) (state s) bs (context s) (client_data w)) as (d' & ->).
  simpl. unfold mbind, PM_bind, assert, lift. simpl.
  pose proof (zlen_nonneg bs). destruct (Z.leb_spec 0 (zlen bs)); [|lia]. rewrite Z.leb_refl. simpl.
  eexists _, s1. split; [done|]. split_and!; [done|done| | |].
  - right. left. simpl. apply Hclock.
  - rewrite consumed_consume. unfold zlen. rewrite Nat2Z.id, firstn_all. done.
  - by rewrite finished_consume.
Qed.

Lemma flag_eager (b : bool) w s : socks w !! p = Some s -> timed s ->
  exists w1 s1, (if b then set_bits p MSP_STATE_SHUTDOWN_REMOTE else mret tt) w = Ret (tt, w1) /\
    socks w1 !! p = Some s1 /\ rx s1 = rx s /\ timed s1 /\ consumed p w1 = consumed p w /\ finished p w1 = finished p w.
Proof.
  intros Hs Ht. destruct b; [|exists w, s; done].
  eexists _, _. split; [by apply sock_set_run|]. split_and!; [apply lookup_insert_eq|done| |done|done].
  destruct Ht as [?|[?|[? ?]]]; [by left|by right; left|]. right. right. split; [done|]. by apply (lor_bound 9).
Qed.

(** One packet is read. *)
Lemma read_eager n0 i w s m k n :
  socks w !! p = Some s -> timed s -> rx_inv stream n0 (finished p w) (rx s) (consumed p w) m ->
  m !! i = Some (finished p w, k) ->
  exists w' s', deliver_loop (S n) p i w = deliver_loop n p (S i) w' /\ socks w' !! p = Some s' /\ timed s' /\
    finished p w' = finished p w + 1 /\
    rx_inv stream n0 (finished p w') (rx s') (consumed p w') (<[i := (finished p w, set_offset (len k) k)]> m).
Proof.
  intros Hs Ht Hm Hi.
  pose proof (proj1 (Forall_lookup _ _) (ri_genuine _ _ _ _ _ _ Hm) i _ Hi) as Hg. simpl in Hg.
  pose proof (proj1 (Forall_lookup _ _) (h_seq _ _ (ri_holds _ _ _ _ _ _ Hm)) i _ Hi) as Hseq. simpl in Hseq.
  pose proof (genuine_rest _ _ _ Hg) as Hrest. destruct Hg as [_ Hl Ho].
  set (bs := drop (Z.to_nat (offset k)) (stream (finished p w))) in *.
  assert (Hbs : zlen bs = len k - offset k) by (unfold bs, zlen in *; rewrite length_drop; lia).
  destruct (flag_eager (has (pk_flags k) FLAG_SHUTDOWN) w s Hs Ht) as (w1 & s1 & Hf1 & Hs1 & Hrx1 & Ht1 & Hc1 & Hn1).
  destruct (call_eager bs w1 s1 Hs1 Ht1) as (w2 & s2 & Hcall & Hs2 & Hrx2 & Ht2 & Hc2 & Hn2).
  set (s3 := set_rx (set_packet i (set_offset (len k) k) (rx s2)) s2).
  set (s4 := set_rx (set_next_seq (u16 (next_seq (rx s3) + 1)) (rx s3)) s3).
  set (w4 := w_event (Finished p) (w_set_socks (<[p := s4]> (<[p := s3]> (socks w2))) (w_set_socks (<[p := s3]> (socks w2)) w2))).
  exists w4, s4. split_and!.
  - cbn [deliver_loop]. rewrite (PM_bind_Ret _ _ _ _ _ (sock_at_run _ _ _ Hs)).
    rewrite (h_chain _ _ (ri_holds _ _ _ _ _ _ Hm)), list_lookup_fmap, Hi. cbn [fmap option_fmap option_map snd].
    rewrite (PM_bind_Ret (lift (live (Live k))) _ w k w) by done.
    rewrite (ri_next _ _ _ _ _ _ Hm), Hseq, Z.eqb_refl. cbn [negb].
    rewrite (PM_bind_Ret _ _ _ _ _ Hf1).
    rewrite (PM_bind_Ret (assert _) _ w1 tt w1) by (unfold assert, lift; destruct (Z.leb_spec (offset k) (len k)); [done|lia]).
    rewrite (PM_bind_Ret (lift _) _ w1 bs w1) by (unfold lift; by rewrite Hrest).
    rewrite (PM_bind_Ret _ _ _ _ _ Hcall). rewrite Hbs.
    destruct (_ && _) eqn:Hstop; [bsplit; lia|].
    replace (offset k + (len k - offset k)) with (len k) by lia.
    rewrite (PM_bind_Ret _ _ _ _ _ (sock_set_run p s2 _ w2 Hs2)). rewrite Z.ltb_irrefl.
    rewrite (PM_bind_Ret (assert _) _ _ tt (w_set_socks (<[p := s3]> (socks w2)) w2))
      by (unfold assert, lift; rewrite Z.eqb_refl; done).
    rewrite (PM_bind_Ret _ _ _ _ _ (sock_set_run p s3 _ (w_set_socks (<[p := s3]> (socks w2)) w2) (lookup_insert_eq _ _ _))).
    done.
  - apply lookup_insert_eq.
  - done.
  - unfold w4. rewrite finished_finish. change (finished p (w_set_socks _ _)) with (finished p w2). congruence.
  - unfold w4. rewrite finished_finish, consumed_finish.
    change (finished p (w_set_socks _ _)) with (finished p w2). change (consumed p (w_set_socks _ _)) with (consumed p w2).
    rewrite Hn2, Hn1. eapply rx_next.
    + pose proof (rx_read stream n0 _ _ _ m i k (len k - offset k) Hm Hi) as Hx. fold bs in Hx.
      replace (offset k + (len k - offset k)) with (len k) in Hx by lia.
      rewrite take_ge in Hx by (unfold zlen in Hbs; lia).
      rewrite Hc2, Hc1. simpl. rewrite Hrx2, Hrx1. apply Hx; lia.
    + apply list_elem_of_lookup. exists i. apply list_lookup_insert_eq. by eapply lookup_lt_Some.
    + done.
Qed.

(** The packets [l1] are the next ones, and the one after them is missing. *)
Lemma deliver_loop_eager n0 l1 l2 n i w s m :
  socks w !! p = Some s -> timed s -> rx_inv stream n0 (finished p w) (rx s) (consumed p w) m ->
  drop i m = l1 ++ l2 -> l1.*1 = seqZ (finished p w) (zlen l1) ->
  Forall (fun x => x.1 <> finished p w + zlen l1) l2 -> Forall (fun x => x.1 < finished p w) (take i m) ->
  (length l1 <= n)%nat ->
  exists w' s' m', deliver_loop n p i w = Ret (tt, w') /\ socks w' !! p = Some s' /\ timed s' /\
    finished p w' = finished p w + zlen l1 /\
    rx_inv stream n0 (finished p w') (rx s') (consumed p w') m' /\ finished p w' ∉ m'.*1.
Proof.
  revert n i w s m. induction l1 as [|[j k] l1 IH]; intros n i w s m Hs Ht Hm Hd Hk H2 H1 Hn.
  - unfold zlen in *. simpl in *. rewrite Z.add_0_r in *. exists w, s, m.
    split_and!; [|done..|].
    + assert (Hstop : forall n', deliver_loop n' p i w = Ret (tt, w)); [|apply Hstop].
      intros n'. assert (Hbody : match chain (rx s) !! i with
        | Some (Live k) => pk_seq k <> next_seq (rx s) | Some Freed => False | None => True end).
      { rewrite (h_chain _ _ (ri_holds _ _ _ _ _ _ Hm)), list_lookup_fmap.
        destruct (m !! i) as [[j k]|] eqn:Hi; [|done]. simpl. intros Hq.
        assert (Hmi : m !! i = Some (finished p w, k)).
        { eapply next_packet_inv; [exact Hm| |exact Hq].
          by rewrite (h_chain _ _ (ri_holds _ _ _ _ _ _ Hm)), list_lookup_fmap, Hi. }
        rewrite Hi in Hmi. injection Hmi as ->. rewrite (drop_S _ _ _ Hi) in Hd. rewrite <- Hd in H2.
        apply Forall_inv in H2. done. }
      destruct n'; simpl; rewrite (PM_bind_Ret _ _ _ _ _ (sock_at_run _ _ _ Hs));
        destruct (chain (rx s) !! i) as [[k|]|]; try done; unfold lift, mbind, PM_bind; simpl;
        by destruct (Z.eqb_spec (pk_seq k) (next_seq (rx s))).
    + rewrite <- (take_drop i m), Hd, fmap_app. intros [Hin|Hin]%elem_of_app;
        apply list_elem_of_fmap in Hin as (x & Hx & Hin).
      * rewrite list.Forall_forall in H1. specialize (H1 x Hin). lia.
      * rewrite list.Forall_forall in H2. by eapply H2.
  - rewrite fmap_cons, zlen_cons, seqZ_cons in Hk by (pose proof (zlen_nonneg l1); lia). simpl in Hk.
    injection Hk as -> Hk. destruct n as [|n]; [simpl in Hn; lia|].
    assert (Hi : m !! i = Some (finished p w, k)).
    { rewrite <- (Nat.add_0_r i), <- lookup_drop, Hd. done. }
    destruct (read_eager n0 i w s m k n Hs Ht Hm Hi) as (w' & s' & Hrun & Hs' & Ht' & Hf' & Hm').
    rewrite zlen_cons in H2 |- *.
    destruct (IH n (S i) w' s' _ Hs' Ht' Hm') as (w2 & s2 & m2 & Hrun2 & Hs2 & Ht2 & Hf2 & Hm2 & Hn2).
    + rewrite drop_insert_lt by lia. rewrite (drop_S _ _ _ Hi) in Hd. by injection Hd.
    + rewrite Hf', Hk. f_equal; lia.
    + eapply Forall_impl; [exact H2|]. simpl. intros. lia.
    + rewrite (take_S_r _ i (finished p w, set_offset (len k) k)) by by apply list_lookup_insert_eq, (lookup_lt_Some _ _ _ Hi).
      rewrite take_insert_ge by lia. apply Forall_app. split.
      * eapply Forall_impl; [exact H1|]. simpl. intros. lia.
      * constructor; [simpl; lia|constructor].
    + simpl in Hn. lia.
    + exists w2, s2, m2. split_and!; [congruence|done|done|lia|done|done].
Qed.

(** The window holds the packets [l1], the next ones, but not the one after them. *)
Definition next_packets (m l1 l2 : numbered) (n : Z) : Prop :=
  m = l1 ++ l2 /\ l1.*1 = seqZ n (zlen l1) /\ Forall (fun x => x.1 <> n + zlen l1) l2.

(** C28: When the window of a socket holds the next packets of the stream, up to one
    that is missing, and handlers consume what they are given, delivering returns, and
    all of those packets have been consumed: the handler has had the stream up to
    the missing packet. *)
Theorem deliver_complete w s m l1 l2 :
  socks w !! p = Some s -> timed s ->
  rx_inv stream (finished p w) (finished p w) (rx s) (consumed p w) m ->
  next_packets m l1 l2 (finished p w) ->
  exists w', deliver p w = Ret (tt, w') /\ finished p w' = finished p w + zlen l1 /\
             consumed p w' = sprefix stream (finished p w + zlen l1) 0.
Proof.
  intros Hs Ht Hm (Em & Hk & H2).
  destruct (deliver_loop_eager _ l1 l2 (deliver_fuel s) 0 w s m Hs Ht Hm) as (w1 & s1 & m1 & H1 & Hs1 & Ht1 & Hf1 & Hm1 & Hn1).
  { by rewrite drop_0. }
  { done. }
  { done. }
  { constructor. }
  { unfold deliver_fuel. rewrite (h_chain _ _ (ri_holds _ _ _ _ _ _ Hm)), Em, fmap_app, map_app, list_sum_app.
    pose proof (rounds_live l1). lia. }
  destruct (free_rx_run stream _ _ _ _ _ w1 Hm1) as (win & w2 & m2 & H3 & (t & a & ->) & Hm2).
  set (w2 := MspState _ _ _ _ _ _ _ _ _ _) in *.
  assert (Hs2 : socks w2 !! p = Some s1) by done.
  set (w3 := w_set_socks (<[p := set_rx win s1]> (socks w2)) w2).
  assert (Hs3 : socks w3 !! p = Some (set_rx win s1)) by apply lookup_insert_eq.
  destruct (call_eager [] w3 (set_rx win s1) Hs3 Ht1) as (w4 & s4 & H4 & Hs4 & _ & _ & Hc4 & Hf4).
  assert (Hlast : exists w5, (match handler s4 with Some _ => lower_action p (last_handler s4 + HANDLER_KEEPALIVE) | None => mret tt end) w4
      = Ret (tt, w5) /\ finished p w5 = finished p w4 /\ consumed p w5 = consumed p w4).
  { destruct (handler s4); [|by exists w4]. unfold lower_action.
    rewrite (PM_bind_Ret _ _ _ _ _ (sock_at_run _ _ _ Hs4)). destruct (_ <? _); [|by exists w4].
    eexists. split; [by apply sock_set_run|]. done. }
  destruct Hlast as (w5 & H5 & Hf5 & Hc5). exists w5. split_and!.
  - unfold deliver. rewrite (PM_bind_Ret _ _ _ _ _ (sock_at_run _ _ _ Hs)), (PM_bind_Ret _ _ _ _ _ H1).
    rewrite (PM_bind_Ret _ _ _ _ _ (sock_at_run _ _ _ Hs1)). unfold ack_seq. rewrite (PM_bind_Ret _ _ _ _ _ H3).
    rewrite (PM_bind_Ret _ _ _ _ _ (sock_set_run p s1 _ w2 Hs2)). fold w3. rewrite (PM_bind_Ret _ _ _ _ _ H4).
    by rewrite (PM_bind_Ret _ _ _ _ _ (sock_at_run _ _ _ Hs4)).
  - rewrite Hf5, Hf4. exact Hf1.
  - rewrite Hc5, Hc4, app_nil_r. change (consumed p w3) with (consumed p w1).
    rewrite (ri_bytes _ _ _ _ _ _ Hm1), (offset_of_none _ _ Hn1). by rewrite Hf1.
Qed.
End eager.
