(* ===== verification/MspSend.v ===== *)
(** * Sending packets of a stream

    What [msp_send] adds to the window of packets to send, what [add_packet] and
    acknowledgements do to a window, and that a packet that was sent is read by
    the peer as the packet of the stream it is. *)

From stdpp Require Import base tactics list list_numbers fin_maps gmap sorting.
From Stdlib Require Import ZArith Lia.
From S2P Require Import Prelude DataFormats DataFormatsSpec OverlayPacket Msp MspWindows MspFrame MspDeliver MspProgress.

Local Open Scope Z_scope.

Section send.
Context {C : Type} {E : MspEnv C}.
Implicit Types w v : msp_state C.

(** C27: A window whose counts are less than half the range of sequence numbers apart
    is a sorted list of packets: [add_packet] inserts a packet that is not there and
    ignores one that is, its result telling which, and acknowledging a sequence
    number removes exactly the packets up to it, also where the numbers wrap
    around. *)
Theorem window_refines (m : numbered) win j fl bs w :
  (forall n, alloc n = true) -> holds m win -> near j m -> zlen m + 1 < 2 ^ 32 ->
  (exists r win' w' t, add_packet win (u16 j) fl (Some bs) (zlen bs) w = Ret ((r, win'), w') /\
     holds (add_numbered j (MspPacket (u16 j) fl t TIME_MS_NEVER_HAS (body bs) (zlen bs) 0) m) win' /\
     r = if bool_decide (j ∈ m.*1) then 0 else 1) /\
  (exists win' w', free_acked_packets (u16 j) win w = Ret (win', w') /\ holds (unacked j m) win').
Proof.
  intros Hall Hh Hn Hlen. split.
  - destruct (add_packet_run j fl bs (Some bs) m win w) as (r & win' & w' & t & H & _ & _ & Hh' & Hr); auto.
    exists r, win', w', t. done.
  - unfold free_acked_packets. pose proof Hh as [Hc _ _ _ _]. rewrite Hc. destruct m as [|x m].
    + by exists win, w.
    + destruct (free_acked_run (clock (ticks w)) j (x :: m) win) as (win' & H & Hh' & _); [done|done|lia|].
      exists win', (w_tick w). split; [|done]. unfold mbind, PM_bind, lift. simpl. by rewrite H.
Qed.

(** ** A packet on its way *)

(** [m] returns, and what it returns and leaves satisfies [P]. *)
Definition runs {A} (m : PM C A) w (P : A -> msp_state C -> Prop) : Prop := exists a w', m w = Ret (a, w') /\ P a w'.

Lemma runs_ret {A} (a : A) w (P : A -> msp_state C -> Prop) : P a w -> runs (mret a) w P.
Proof. by exists a, w. Qed.
Lemma runs_bind {A B} (m : PM C A) (f : A -> PM C B) w P :
  runs m w (fun a w' => runs (f a) w' P) -> runs (m ≫= f) w P.
Proof. intros (a & w1 & H & b & w2 & H2 & HP). exists b, w2. split; [|done]. by rewrite (PM_bind_Ret _ _ _ _ _ H). Qed.
Lemma runs_mono {A} (m : PM C A) w (P Q : A -> msp_state C -> Prop) :
  runs m w P -> (forall a w', P a w' -> Q a w') -> runs m w Q.
Proof. intros (a & w' & H & HP) HQ. exists a, w'. auto. Qed.

(** The state [v] with the socket [q] changed to [t], and later. *)
Definition touched q t (v v' : msp_state C) : Prop := socks v' = <[q := t]> (socks v) /\ events v' = events v.

Lemma touched_at q t v v' : touched q t v v' -> sock_at q v' = Ret (t, v').
Proof. intros [H _]. apply sock_at_run. rewrite H. apply lookup_insert_eq. Qed.
Lemma runs_sock_at q t v v' P : touched q t v v' -> P t v' -> runs (sock_at q) v' P.
Proof. intros H HP. exists t, v'. split; [by eapply touched_at|done]. Qed.
Lemma runs_sock_set q t v v' g P :
  touched q t v v' -> (forall v'', touched q (g t) v v'' -> P tt v'') -> runs (sock_set q g) v' P.
Proof.
  intros H HP. eexists tt, _. split.
  - apply sock_set_run. destruct H as [-> _]. apply lookup_insert_eq.
  - apply HP. destruct H as [H He]. split; [|done]. simpl. by rewrite H, insert_insert_eq.
Qed.
Lemma runs_gettime q t v v' P : touched q t v v' -> (forall n v'', touched q t v v'' -> P n v'') -> runs gettime_ms v' P.
Proof. intros H HP. eexists _, (w_tick v'). split; [done|]. by apply HP. Qed.
Lemma touched_idle q t v v' v'' : touched q t v v' -> idle v' v'' -> touched q t v v''.
Proof. intros [H1 H2] (n & a & ->). by split. Qed.

Lemma has_lor x f : f <> 0 -> has (Z.lor x f) f = true.
Proof.
  intros Hf. unfold has. rewrite negb_true_iff, Z.eqb_neq, Z.land_lor_distr_l, Z.land_diag, Z.lor_eq_0_iff. tauto.
Qed.
Lemma has_more x y f : has x f = true -> has (Z.lor x y) f = true.
Proof.
  unfold has. rewrite !negb_true_iff, !Z.eqb_neq, Z.land_lor_distr_l, Z.lor_eq_0_iff. tauto.
Qed.

Lemma genuine_body (stream : Z -> list Z) i k : genuine stream i k -> packet_body k = Ret (stream i).
Proof.
  intros [Hp Hl Ho]. unfold packet_body. rewrite Hp, Hl. destruct (stream i) as [|b l]; [done|]. unfold body.
  pose proof (zlen_nonneg l). rewrite zlen_cons. destruct (Z.eqb_spec (1 + zlen l) 0); [lia|].
  rewrite <- (zlen_cons b l), Z.leb_refl. unfold zlen. by rewrite Nat2Z.id, firstn_all.
Qed.
Lemma read_u16 x l : read_uint16 (write_uint16 (u16 x) ++ l) = Ret (u16 x).
Proof.
  pose proof (uN_range 16 x ltac:(lia)) as Hx. destruct (proj1 (read_write_uint (u16 x)) Hx) as (_ & _ & Hr). exact Hr.
Qed.

(** What the flags of a packet with [fl] in front say. *)
Record announces (s : msp_sock) (k : msp_packet) (fl : Z) : Prop := {
  an_ack : has fl FLAG_ACK = has (state s) MSP_STATE_RECEIVED_DATA;
  an_first : has fl FLAG_FIRST = negb (has (state s) MSP_STATE_RECEIVED_PACKET);
  an_shutdown : has fl FLAG_SHUTDOWN = has (pk_flags k) FLAG_SHUTDOWN;
  an_stop : has fl FLAG_STOP = false
}.
Lemma flags_announce s k : pk_flags k = 0 \/ pk_flags k = FLAG_SHUTDOWN -> announces s k (msp_flags s (pk_flags k)).
Proof.
  intros Hf. unfold msp_flags.
  by split; destruct Hf as [-> | ->], (has (state s) MSP_STATE_RECEIVED_DATA), (has (state s) MSP_STATE_RECEIVED_PACKET).
Qed.

Lemma send_packet_run stream p i j s k w :
  socks w !! p = Some s -> port (remote (header s)) <> 0 -> daemon_addr w || local_sockaddr = true ->
  net (sends w) = SendOk -> chain (tx s) !! i = Some (Live k) -> genuine stream j k ->
  runs (msp_send_packet p i) w (fun r w' => r = 0 /\
    events w' = events w ++ [Datagram (mdp_sock s) (header s) (packet_bytes s k (stream j))]).
Proof.
  intros Hs Hport Hd Hnet Hk Hg. unfold msp_send_packet. apply runs_bind. eexists s, w. split; [by apply sock_at_run|].
  apply runs_bind. exists tt, w. split; [unfold assert, lift; by rewrite (proj2 (Z.eqb_neq _ _) Hport)|].
  apply runs_bind, (runs_mono _ _ (fun b w1 => b = true /\ socks w1 = socks w /\ events w1 = events w /\ sends w1 = sends w)).
  { unfold find_daemon. apply runs_bind. exists (daemon_addr w), w. split; [done|].
    destruct (daemon_addr w); [by apply runs_ret|]. simpl in Hd. rewrite Hd. eexists _, _. split; [reflexivity|]. done. }
  intros ok w1 (-> & Hs1 & He1 & Hn1). cbn [negb]. apply runs_bind.
  exists k, w1. split; [unfold lift, packet_at; by rewrite Hk|].
  apply runs_bind. eexists _, _. split; [apply sock_set_run; by rewrite Hs1|].
  apply runs_bind. eexists (stream j), _. split; [unfold lift; by rewrite (genuine_body stream j k Hg)|].
  apply runs_bind. eexists SendOk, _. split.
  { unfold send_message, get, modify, mbind, PM_bind. simpl. rewrite Hn1, Hnet. reflexivity. }
  apply runs_bind. eexists _, _. split; [reflexivity|]. apply runs_bind. eexists _, _. split.
  { apply sock_set_run. simpl. rewrite Hs1. apply lookup_insert_eq. }
  apply runs_ret. split; [done|]. simpl. by rewrite He1.
Qed.

(** The end of [receive]: the data are added to the window. *)
Lemma receive_data_run stream q j fl s k m t v v' :
  (forall n, alloc n = true) -> holds m (rx t) -> near j m -> zlen m + 1 < 2 ^ 32 -> pk_seq k = u16 j ->
  touched q t v v' ->
  runs (receive_data q fl (packet_bytes s k (stream j))) v' (fun r v'' => r = 0 /\ exists t' tm, touched q t' v v'' /\
    state t' = Z.lor (state t) MSP_STATE_RECEIVED_DATA /\ tx t' = tx t /\ next_seq (rx t') = next_seq (rx t) /\
    holds (add_numbered j (MspPacket (u16 j) fl tm TIME_MS_NEVER_HAS (body (stream j)) (zlen (stream j)) 0) m) (rx t')).
Proof.
  intros Hall Hh Hn Hlen Hseq Ht. unfold receive_data. apply runs_bind. eapply runs_sock_set; [done|]. intros v1 Ht1.
  apply runs_bind. exists (u16 j), v1. split.
  { change (drop 3 (packet_bytes s k (stream j))) with (write_uint16 (pk_seq k) ++ stream j).
    unfold lift. by rewrite Hseq, read_u16. }
  assert (drop 5 (packet_bytes s k (stream j)) = stream j) as -> by done.
  assert (zlen (packet_bytes s k (stream j)) - MSP_PAYLOAD_PREAMBLE_SIZE = zlen (stream j)) as ->
    by (unfold packet_bytes, zlen, MSP_PAYLOAD_PREAMBLE_SIZE; simpl; lia).
  apply runs_bind. unfold add_rx. apply runs_bind. eapply runs_sock_at; [done|].
  destruct (add_packet_run j fl (stream j) (Some (stream j)) m (rx t) v1) as (r & win' & v2 & tm & Hr & Hi & Hnx & Hw & _);
    [done..|by left|].
  apply runs_bind. exists (r, win'), v2. split; [exact Hr|]. apply runs_bind.
  eapply runs_sock_set; [by eapply touched_idle|]. intros v3 Ht3. apply runs_ret.
  apply runs_bind. destruct (r =? 1).
  - apply runs_bind. eapply runs_gettime; [done|]. intros n v4 Ht4. eapply runs_sock_set; [done|]. intros v5 Ht5.
    apply runs_ret. split; [done|]. eexists _, tm. by split_and!; [exact Ht5|..].
  - apply runs_ret, runs_ret. split; [done|]. eexists _, tm. by split_and!; [exact Ht3|..].
Qed.

Lemma receive_run stream q j a s k mt mr t v :
  (forall n, alloc n = true) -> socks v !! q = Some t -> pk_seq k = u16 j ->
  next_seq (rx s) = u16 (a + 1) -> pk_flags k = 0 \/ pk_flags k = FLAG_SHUTDOWN ->
  holds mt (tx t) -> near a mt -> zlen mt < 2 ^ 32 -> holds mr (rx t) -> near j mr -> zlen mr + 1 < 2 ^ 32 ->
  let fl := msp_flags s (pk_flags k) in
  runs (receive q fl (packet_bytes s k (stream j))) v (fun r v' => r = 0 /\ exists t' tm, touched q t' v v' /\
    has (state t') MSP_STATE_RECEIVED_PACKET = true /\ has (state t') MSP_STATE_RECEIVED_DATA = true /\
    holds (if has (state s) MSP_STATE_RECEIVED_DATA then unacked a mt else mt) (tx t') /\
    next_seq (rx t') = next_seq (rx t) /\
    holds (add_numbered j (MspPacket (u16 j) fl tm TIME_MS_NEVER_HAS (body (stream j)) (zlen (stream j)) 0) mr) (rx t')).
Proof.
  intros Hall Ht Hseq Hack Hfl Hmt Hna Hlt Hmr Hnj Hlr fl. destruct (flags_announce s k Hfl) as [Ha _ _ Hstop].
  fold fl in Ha, Hstop. unfold receive.
  assert (touched q t v v) as Ht0 by (split; [by rewrite insert_id|done]).
  apply runs_bind. eapply runs_gettime; [done|]. intros now v1 Ht1. apply runs_bind.
  eapply runs_sock_set; [done|]. intros v2 Ht2. apply runs_bind. eapply runs_sock_set; [done|]. intros v3 Ht3.
  rewrite Hstop. set (bs := packet_bytes s k (stream j)).
  assert (zlen bs = 5 + zlen (stream j)) as Hbs by (unfold bs, packet_bytes, zlen; simpl; lia).
  pose proof (zlen_nonneg (stream j)). rewrite (proj2 (Z.ltb_ge (zlen bs) 3)) by lia.
  match type of Ht3 with touched _ ?x _ _ => set (t3 := x) in * end.
  assert (holds mr (rx t3) /\ tx t3 = tx t /\ next_seq (rx t3) = next_seq (rx t)) as (Hr3 & Htx3 & Hn3)
    by (split; [|done]; by destruct Hmr).
  assert (has (state t3) MSP_STATE_RECEIVED_PACKET = true) as Hp3 by (by apply has_lor).
  apply runs_bind, (runs_mono _ _ (fun _ v' => exists win, touched q (set_tx win t3) v v' /\
    holds (if has (state s) MSP_STATE_RECEIVED_DATA then unacked a mt else mt) win)).
  { rewrite Ha. destruct (has (state s) MSP_STATE_RECEIVED_DATA).
    - apply runs_bind. exists (u16 a), v3. split.
      { change (drop 1 bs) with (write_uint16 (ack_seq s) ++ write_uint16 (pk_seq k) ++ stream j).
        assert (ack_seq s = u16 a) as ->; [|unfold lift; by rewrite read_u16].
        unfold ack_seq. rewrite Hack. replace (u16 (a + 1) - 1) with (u16 (a + 1) + -1) by lia. rewrite u16_add. f_equal. lia. }
      apply runs_bind. eapply runs_sock_at; [done|]. apply runs_bind.
      apply (runs_mono _ _ (fun win v' => touched q t3 v v' /\ holds (unacked a mt) win)).
      { rewrite Htx3. unfold free_acked_packets. pose proof Hmt as [Hc _ _ _ _]. rewrite Hc. destruct mt as [|x mt].
        - apply runs_ret. by split.
        - destruct (free_acked_run (clock (ticks v3)) a (x :: mt) (tx t)) as (win' & Hrun & Hh' & _); [done|done|lia|].
          exists win', (w_tick v3). split; [|done]. unfold mbind, PM_bind, lift. simpl. by rewrite Hrun. }
      intros win v4 [Ht4 Hw]. eapply runs_sock_set; [done|]. intros v5 Ht5. by exists win.
    - apply runs_ret. exists (tx t). split; [|done]. replace (set_tx (tx t) t3) with t3; [done|]. rewrite <- Htx3. by destruct t3. }
  intros [] v4 (win & Ht4 & Hw). apply runs_bind. eapply runs_sock_at; [done|]. apply runs_bind.
  apply (runs_mono _ _ (fun _ v' => exists t5, touched q t5 v v' /\ has (state t5) MSP_STATE_RECEIVED_PACKET = true /\
    tx t5 = win /\ rx t5 = rx t3)).
  { destruct (_ && _ && _).
    - eapply runs_sock_set; [done|]. intros v5 Ht5. eexists. split; [exact Ht5|]. split; [|done]. by apply has_more.
    - apply runs_ret. by exists (set_tx win t3). }
  intros [] v5 (t5 & Ht5 & Hp5 & Htx5 & Hrx5). apply runs_bind. eapply runs_gettime; [done|]. intros n v6 Ht6.
  apply runs_bind. eapply runs_sock_set; [done|]. intros v7 Ht7.
  rewrite (proj2 (Z.ltb_ge (zlen bs) _)) by (unfold MSP_PAYLOAD_PREAMBLE_SIZE; lia).
  eapply runs_mono.
  { apply (receive_data_run stream q j fl s k mr (set_next_action n t5) v v7 Hall); [|done|done|done|exact Ht7]. simpl. by rewrite Hrx5. }
  intros r v8 (-> & t' & tm & Ht' & Hst & Htx' & Hnx' & Hh'). split; [done|]. exists t', tm. split; [done|].
  rewrite Hst, Htx', Hnx'. simpl. rewrite Hrx5, Htx5. split_and!; [by apply has_more|by apply has_lor|done|done|done].
Qed.

(** C31: A packet [j] of a stream that [msp_send_packet] gives to the daemon, in one
    datagram, is put by [process_packet] into the window of the socket the peer finds
    for it: with its number, its bytes and flags that say whether it ends the stream,
    and the acknowledgement in it, present once data have arrived here, frees the
    peer's packets up to the last one that was consumed here. *)
Theorem packet_wire_roundtrip stream p i j a s k w fd hd q l t mt mr v :
  socks w !! p = Some s -> port (remote (header s)) <> 0 -> daemon_addr w || local_sockaddr = true ->
  net (sends w) = SendOk -> chain (tx s) !! i = Some (Live k) -> pk_seq k = u16 j -> genuine stream j k ->
  pk_flags k = 0 \/ pk_flags k = FLAG_SHUTDOWN -> next_seq (rx s) = u16 (a + 1) ->
  (forall n, alloc n = true) -> has (hd_flags hd) MDP_FLAG_ERROR = false ->
  search_loop (size (socks v)) fd hd (root v) None v = Ret (Found (Some q) l, v) -> socks v !! q = Some t ->
  holds mt (tx t) -> near a mt -> zlen mt < 2 ^ 32 -> holds mr (rx t) -> near j mr -> zlen mr + 1 < 2 ^ 32 ->
  exists w' bs v' t' fl tm,
    msp_send_packet p i w = Ret (0, w') /\ events w' = events w ++ [Datagram (mdp_sock s) (header s) bs] /\
    process_packet fd hd bs v = Ret (0, v') /\ socks v' = <[q := t']> (socks v) /\ events v' = events v /\
    has (state t') MSP_STATE_RECEIVED_PACKET = true /\ has (state t') MSP_STATE_RECEIVED_DATA = true /\
    holds (if has (state s) MSP_STATE_RECEIVED_DATA then unacked a mt else mt) (tx t') /\
    next_seq (rx t') = next_seq (rx t) /\ announces s k fl /\
    holds (add_numbered j (MspPacket (u16 j) fl tm TIME_MS_NEVER_HAS (body (stream j)) (zlen (stream j)) 0) mr) (rx t').
Proof.
  intros Hs Hport Hd Hnet Hk Hseq Hg Hfl Hack Hall Herr Hfind Ht Hmt Hna Hlt Hmr Hnj Hlr.
  destruct (send_packet_run stream p i j s k w Hs Hport Hd Hnet Hk Hg) as (r & w' & Hrun & -> & Hev).
  destruct (receive_run stream q j a s k mt mr t v Hall Ht Hseq Hack Hfl Hmt Hna Hlt Hmr Hnj Hlr)
    as (r & v' & Hrec & -> & t' & tm & [Hso Hee] & H1 & H2 & H3 & H4 & H5).
  exists w', (packet_bytes s k (stream j)), v', t', (msp_flags s (pk_flags k)), tm.
  split; [done|]. split; [done|]. split; [|split_and!; try done; by apply flags_announce].
  unfold process_packet. rewrite Herr. erewrite PM_bind_Ret by done. erewrite PM_bind_Ret by done.
  rewrite (PM_bind_Ret _ _ _ _ _ Hfind). unfold packet_bytes at 1. cbv iota.
  rewrite bool_decide_true by done. cbn [negb andb]. rewrite (PM_bind_Ret _ _ v (Some q) v) by (by destruct l).
  exact Hrec.
Qed.

Lemma add_numbered_end j k m : Forall (fun x => x.1 < j) m -> add_numbered j k m = m ++ [(j, k)].
Proof. intros H. rewrite <- (app_nil_r m) at 1. by rewrite add_numbered_split. Qed.

(** [msp_send] on a socket that may send. *)
Definition may_send (s : msp_sock) : Prop :=
  has (state s) MSP_STATE_LISTENING = false /\ port (remote (header s)) <> 0 /\
  has (state s) MSP_STATE_SHUTDOWN_LOCAL = false.

(** The window holds the packets before [n], and nothing else. *)
Definition sending (n : Z) (m : numbered) (win : msp_window) : Prop :=
  holds m win /\ next_seq win = u16 n /\ m.*1 = seqZ (n - zlen m) (zlen m) /\ zlen m < 2 ^ 15.

Lemma seq_below n (m : numbered) : m.*1 = seqZ (n - zlen m) (zlen m) -> Forall (fun x => n - zlen m <= x.1 < n) m.
Proof.
  intros Hk. apply list.Forall_forall. intros x Hx.
  assert (Hin : x.1 ∈ seqZ (n - zlen m) (zlen m)) by (rewrite <- Hk; by apply list_elem_of_fmap_2).
  apply elem_of_seqZ in Hin. lia.
Qed.

Lemma handle_run p s w : socks w !! p = Some s -> handle_to_sock (Handle (Some p) (salt s)) w = Ret (p, w).
Proof.
  intros Hs. unfold handle_to_sock. simpl. rewrite (PM_bind_Ret _ _ _ _ _ (sock_at_run _ _ _ Hs)).
  unfold assert, lift. rewrite Z.eqb_refl. done.
Qed.

(** The next packet of the window. *)
Lemma add_tx_run p s n m fl bs w :
  (forall n, alloc n = true) -> socks w !! p = Some s -> sending n m (tx s) -> zlen m + 1 < 2 ^ 15 ->
  exists k win w1, add_tx p (next_seq (tx s)) fl (Some bs) (zlen bs) w
                   = Ret (1, w_set_socks (<[p := set_tx win s]> (socks w)) w1) /\
    socks w1 = socks w /\ events w1 = events w /\
    pk_payload k = body bs /\ len k = zlen bs /\ sent k = TIME_MS_NEVER_HAS /\
    sending (n + 1) (m ++ [(n, k)]) (set_next_seq (u16 (next_seq win + 1)) win).
Proof.
  intros Hall Hs (Hh & Hnx & Hk & Hlen) Hroom. pose proof (seq_below _ _ Hk) as Hbelow.
  destruct (add_packet_run n fl bs (Some bs) m (tx s) w) as (r & win & w1 & t & H1 & (t1 & a1 & ->) & Hnx1 & Hh1 & Hr).
  { done. }
  { done. }
  { eapply Forall_impl; [exact Hbelow|]. simpl. intros. lia. }
  { lia. }
  { by left. }
  set (k := MspPacket _ _ _ _ _ _ _) in Hh1. set (w1 := MspState _ _ _ _ _ _ _ _ _ _) in *.
  rewrite add_numbered_end in Hh1 by (eapply Forall_impl; [exact Hbelow|]; simpl; intros; lia).
  rewrite bool_decide_false in Hr
    by (intros (x & -> & Hx)%list_elem_of_fmap; rewrite list.Forall_forall in Hbelow; specialize (Hbelow x Hx); lia).
  subst r. exists k, win, w1. split.
  { unfold add_tx. rewrite (PM_bind_Ret _ _ _ _ _ (sock_at_run _ _ _ Hs)), Hnx, (PM_bind_Ret _ _ _ _ _ H1).
    rewrite (PM_bind_Ret _ _ _ _ _ (sock_set_run p s _ w1 Hs)). done. }
  do 5 (split; [done|]).
  assert (Hz : zlen (m ++ [(n, k)]) = zlen m + 1) by (rewrite zlen_app; done). split_and!.
  - destruct Hh1. by split.
  - simpl. by rewrite Hnx1, Hnx, u16_add.
  - rewrite Hz, fmap_app, Hk. replace (n + 1 - (zlen m + 1)) with (n - zlen m) by lia.
    rewrite (seqZ_app _ (zlen m) 1) by (pose proof (zlen_nonneg m); lia). f_equal.
    by replace (n - zlen m + zlen m) with n by lia.
  - lia.
Qed.

(** C30: [msp_send] refuses when the connection is closed or more than four packets
    are waiting, and changes nothing then; otherwise the payload is the next packet
    of the window, the sequence number is counted up, and the client is told to stop
    sending (the state loses DATAOUT) when four packets are waiting.  Allocations
    succeed.  This holds of a payload of any length: one of no bytes is queued, and
    one longer than MSP_MESSAGE_SIZE is not refused, though
    doc/Mesh-Stream-Protocol.md says otherwise of both. *)
Theorem msp_send_spec p s n m bs w :
  (forall n, alloc n = true) -> socks w !! p = Some s -> may_send s -> sending n m (tx s) ->
  (has (state s) MSP_STATE_CLOSED = true \/ MAX_WINDOW_SIZE < zlen m ->
     msp_send (Handle (Some p) (salt s)) (Some bs) (zlen bs) w = Ret (-1, w)) /\
  (has (state s) MSP_STATE_CLOSED = false -> zlen m <= MAX_WINDOW_SIZE ->
     exists w' s' k, msp_send (Handle (Some p) (salt s)) (Some bs) (zlen bs) w = Ret (zlen bs, w') /\
       socks w' = <[p := s']> (socks w) /\ events w' = events w /\ rx s' = rx s /\
       pk_payload k = body bs /\ len k = zlen bs /\ sent k = TIME_MS_NEVER_HAS /\
       sending (n + 1) (m ++ [(n, k)]) (tx s') /\
       state s' = if MAX_WINDOW_SIZE <=? zlen m + 1 then Z.land (state s) (Z.lnot MSP_STATE_DATAOUT) else state s).
Proof.
  intros Hall Hs (Hl & Hport & Hsd) (Hh & Hnx & Hk & Hlen).
  assert (Hc : packet_count (tx s) = zlen m) by apply Hh.
  assert (Hassert : forall b, b = true -> assert b w = Ret (tt, w)) by by intros ? ->.
  unfold msp_send. rewrite (PM_bind_Ret _ _ _ _ _ (handle_run p s w Hs)).
  rewrite (PM_bind_Ret _ _ _ _ _ (sock_at_run _ _ _ Hs)).
  rewrite (PM_bind_Ret _ _ _ _ _ (Hassert _ (proj2 (negb_true_iff _) Hl))).
  rewrite (PM_bind_Ret _ _ _ _ _ (Hassert _ (proj2 (negb_true_iff _) (proj2 (Z.eqb_neq _ _) Hport)))).
  rewrite (PM_bind_Ret _ _ _ _ _ (Hassert _ (proj2 (negb_true_iff _) Hsd))). rewrite Hc. split.
  { intros [-> | Hfull]; [done|]. rewrite (proj2 (Z.ltb_lt _ _) Hfull), orb_true_r. done. }
  intros -> Hroom. destruct (Z.ltb_spec MAX_WINDOW_SIZE (zlen m)); [lia|]. cbn [orb].
  destruct (add_tx_run p s n m 0 bs w Hall Hs) as (k & win & w1 & Hadd & Hw1 & He1 & Hkp & Hkl & Hks & Hsend);
    [done|unfold MAX_WINDOW_SIZE in *; lia|].
  set (s1 := set_tx win s) in *. set (w2 := w_set_socks (<[p := s1]> (socks w)) w1) in *.
  rewrite (PM_bind_Ret _ _ _ _ _ Hadd). change (1 =? -1) with false. cbv iota.
  set (s2 := set_tx (set_next_seq (u16 (next_seq (tx s1) + 1)) (tx s1)) s1).
  set (w3 := w_set_socks (<[p := s2]> (socks w2)) w2).
  rewrite (PM_bind_Ret (tx_advance p) _ w2 tt w3) by (apply (sock_set_run p s1); apply lookup_insert_eq).
  assert (Hs3 : socks w3 !! p = Some s2) by apply lookup_insert_eq.
  rewrite (PM_bind_Ret _ _ _ _ _ (sock_at_run _ _ _ Hs3)).
  assert (Hcount : packet_count (tx s2) = zlen m + 1).
  { destruct Hsend as [[_ _ _ _ Hz] _]. rewrite zlen_app in Hz. exact Hz. }
  rewrite Hcount. destruct (MAX_WINDOW_SIZE <=? zlen m + 1).
  - unfold clear_bits. rewrite (PM_bind_Ret _ _ _ _ _ (sock_set_run p s2 _ w3 Hs3)).
    eexists _, _, k. split.
    { unfold gettime_ms. unfold mbind at 1, PM_bind at 1. simpl.
      by rewrite (PM_bind_Ret _ _ _ _ _ (sock_set_run p _ _ _ (lookup_insert_eq _ _ _))). }
    split; [simpl; by rewrite !insert_insert_eq|]. do 5 (split; [done|]). by split.
  - rewrite (PM_bind_Ret (mret tt) _ w3 tt w3) by done.
    eexists _, _, k. split.
    { unfold gettime_ms. unfold mbind at 1, PM_bind at 1. simpl.
      by rewrite (PM_bind_Ret _ _ _ _ _ (sock_set_run p s2 _ (w_tick w3) Hs3)). }
    split; [simpl; by rewrite !insert_insert_eq|]. do 5 (split; [done|]). by split.
Qed.
End send.
