(* ===== verification/MspTheorems.v ===== *)
(** * Theorems about the stream protocol

    Streams are read in order and without gaps or repetitions, whatever the order
    in which packets arrive and however often; what [add_packet] and
    acknowledgements do to a window; that reading ends and what it delivers. *)

From stdpp Require Import base tactics list list_numbers fin_maps gmap sorting relations.
From Stdlib Require Import ZArith Lia.
From S2P Require Import Prelude DataFormats DataFormatsSpec OverlayPacket Msp MspWindows MspFrame MspDeliver MspProgress MspSend.

Local Open Scope Z_scope.

(** ** Calls of the library *)

Inductive msp_call (C : Type) : Type :=
| CallPacket (fd : Z) (hd : mdp_header) (payload : list Z)
| CallProcessing
| CallClient (c : client C)
| CallCloseAll (fd : Z).
Arguments CallPacket {C} fd hd payload.
Arguments CallProcessing {C}.
Arguments CallClient {C} c.
Arguments CallCloseAll {C} fd.

Definition run_call {C} {E : MspEnv C} (c : msp_call C) : PM C unit :=
  match c with
  | CallPacket fd hd payload => process_packet fd hd payload;; mret tt
  | CallProcessing => msp_processing;; mret tt
  | CallClient c => run_client c;; mret tt
  | CallCloseAll fd => msp_close_all fd
  end.

Section order.
Context {C : Type} {E : MspEnv C}.
Variables (stream : Z -> list Z) (p : nat).
Implicit Types w : msp_state C.

(** A packet with data that reaches the socket is one of the stream, and not
    2^14 or more away from the next one to read. *)
Definition from_peer w (fd : Z) (hd : mdp_header) (payload : list Z) : Prop :=
  forall s, socks w !! p = Some s -> mdp_sock s = fd -> remote (header s) = remote hd -> local (header s) = local hd ->
  MSP_PAYLOAD_PREAMBLE_SIZE <= zlen payload ->
  exists i, finished p w - 2 ^ 14 < i < finished p w + 2 ^ 14 /\
            read_uint16 (drop 3 payload) = Ret (u16 i) /\ drop 5 payload = stream i.
Definition allowed w (c : msp_call C) : Prop :=
  match c with CallPacket fd hd payload => from_peer w fd hd payload | _ => True end.
Definition msp_step w w' : Prop := exists c, allowed w c /\ run_call c w = Ret (tt, w').

(** A socket that has received nothing. *)
Definition fresh_sock w : Prop :=
  (p < next_block w)%nat /\ consumed p w = [] /\ finished p w = 0 /\
  forall s, socks w !! p = Some s -> core s = ([], 0, 0, TailNull).

(** ** In order with the stream *)

Definition good w : Prop :=
  reading stream p (finished p w) w /\
  exists off, 0 <= off <= zlen (stream (finished p w)) /\ consumed p w = sprefix stream (finished p w) off.

Definition stays w w' : Prop := (p < next_block w)%nat -> good w -> (p < next_block w')%nat /\ good w'.
(** The same, with the number of packets read. *)
Definition stays_at (n : Z) w w' : Prop :=
  (p < next_block w)%nat -> finished p w = n -> good w -> (p < next_block w')%nat /\ finished p w' = n /\ good w'.

Global Instance stays_preorder : PreOrder stays.
Proof. split; [done|]. intros w1 w2 w3 H1 H2 Hp Hg. destruct (H1 Hp Hg). by apply H2. Qed.
Global Instance stays_at_preorder n : PreOrder (stays_at n).
Proof. split; [done|]. intros w1 w2 w3 H1 H2 Hp Hf Hg. destruct (H1 Hp Hf Hg) as (? & ? & ?). by apply H2. Qed.

Lemma rel_stays_at n w w' : rel true p w w' -> stays_at n w w'.
Proof.
  intros Hr Hp Hf [HQ (off & Hoff & Hc)]. pose proof Hr as [Hn H]. destruct (H Hp) as (Ec & Ef & _).
  split; [lia|]. split; [congruence|]. split.
  - rewrite Ef. by eapply reading_rel.
  - exists off. by rewrite Ec, Ef.
Qed.
Lemma rel_stays w w' : rel true p w w' -> stays w w'.
Proof. intros Hr Hp Hg. by destruct (rel_stays_at (finished p w) w w' Hr Hp) as (? & _ & ?). Qed.
Lemma keeps_stays {A} (m : PM C A) : keeps (rel true p) m -> keeps stays m.
Proof. intros H w a w' Hm. by eapply rel_stays, H. Qed.
Lemma keeps_stays_at {A} n (m : PM C A) : keeps (rel true p) m -> keeps (stays_at n) m.
Proof. intros H w a w' Hm. by eapply rel_stays_at, H. Qed.
Hint Extern 5 (keeps stays _) => apply keeps_stays : msp.
Hint Extern 5 (keeps (stays_at _) _) => apply keeps_stays_at : msp.

Lemma offset_of_range n0 n win bs m : rx_inv stream n0 n win bs m -> 0 <= offset_of n m <= zlen (stream n).
Proof.
  intros [_ _ _ _ Hg _ _]. pose proof (zlen_nonneg (stream n)). induction Hg as [|x m [_ Hl Ho] _ IH]; simpl; [lia|].
  destruct (Z.eqb_spec x.1 n) as [<-|]; [lia|done].
Qed.

(** The socket is there and its window fits. *)
Lemma good_intro w s m :
  socks w !! p = Some s -> rx_inv stream (finished p w) (finished p w) (rx s) (consumed p w) m -> good w.
Proof.
  intros Hs Hm. split.
  - intros s' Hs'. rewrite Hs in Hs'. injection Hs' as <-. eauto.
  - exists (offset_of (finished p w) m). split; [by eapply offset_of_range|by apply Hm].
Qed.

(** ** Reading *)

Lemma deliver_stays : keeps stays (deliver p).
Proof.
  intros w u w' H. apply PM_bind_inv in H as (s & w1 & [-> Hs]%sock_at_inv & H).
  apply PM_bind_inv in H as (u1 & w1 & H1 & H).
  apply PM_bind_inv in H as (s1 & w2 & [-> Hs1]%sock_at_inv & H).
  apply PM_bind_inv in H as (win & w2 & H2 & H).
  apply PM_bind_inv in H as (u3 & w3 & H3 & H).
  assert (Hrest : stays w3 w').
  { apply rel_stays. revert H. apply keeps_bind; [apply _|by apply keeps_call_handler; right|].
    intros n. keeps_tac. }
  intros Hp [HQ _]. apply deliver_loop_reading with (stream := stream) (n0 := finished p w) in H1 as [Hnb HQ1]; [|done..].
  apply Hrest; clear Hrest H.
  - apply keeps_free_acked with (b := true) (p := p) in H2 as [? _].
    apply sock_set_inv in H3 as (s2 & _ & ->). simpl. lia.
  - destruct (HQ1 s1 Hs1) as (m & Hm).
    destruct (free_rx_run stream _ _ _ _ _ w1 Hm) as (win' & w2' & m' & Hrun & (t & a & ->) & Hm').
    unfold ack_seq in H2. rewrite H2 in Hrun. injection Hrun as -> ->.
    apply sock_set_inv in H3 as (s2 & _ & ->). eapply good_intro; [apply lookup_insert_eq|]. exact Hm'.
Qed.
Hint Resolve deliver_stays : msp.
Lemma process_sock_stays q : keeps stays (process_sock q).
Proof.
  destruct (decide (q = p)) as [->|Hne]; [|by apply keeps_stays, keeps_process_sock].
  unfold process_sock. keeps_tac.
Qed.
Hint Resolve process_sock_stays : msp.
Lemma process_loop_stays n q : keeps stays (process_loop n q).
Proof. revert q. induction n as [|n IH]; intros [q|]; simpl; keeps_tac. Qed.
Hint Resolve process_loop_stays : msp.
Lemma processing_stays : keeps stays msp_processing.
Proof. unfold msp_processing. keeps_tac. Qed.

(** ** Receiving *)

Lemma search_loop_inv n fd hd q l w a b w' :
  search_loop n fd hd q l w = Ret (Found a b, w') ->
  w' = w /\ forall q, a = Some q -> exists s, socks w !! q = Some s /\ mdp_sock s = fd /\
                                     remote (header s) = remote hd /\ local (header s) = local hd.
Proof.
  revert q l. induction n as [|n IH]; intros [q|] l H; simpl in H; try (by injection H as <- <- <-); [done|].
  apply PM_bind_inv in H as (s & w1 & [-> Hs]%sock_at_inv & H).
  destruct (Z.eqb_spec (mdp_sock s) fd) as [Hfd|]; simpl in H; [|by eapply IH].
  destruct (_ && _).
  { apply PM_bind_inv in H as (? & ? & _ & H). by apply PM_bind_inv in H as (? & ? & _ & H). }
  destruct (has (state s) MSP_STATE_LISTENING); [by eapply IH|].
  destruct (_ && _) eqn:Hm; [|by eapply IH]. injection H as <- <- <-. bsplit. split; [done|].
  intros ? [= <-]. eauto.
Qed.

Lemma accept_inv l hd w q w' : accept l hd w = Ret (Some q, w') -> q = next_block w.
Proof.
  intros (ls & w1 & [-> _]%sock_at_inv & H)%PM_bind_inv. apply PM_bind_inv in H as (h & w1 & H1 & H).
  assert (Hh : forall q, h_ptr h = Some q -> q = next_block w).
  { unfold msp_socket in H1. simpl in H1. unfold mbind, PM_bind in H1. simpl in H1.
    destruct (alloc (allocs w)); simpl in H1; [|by injection H1 as <- <-].
    destruct (root w) as [r|].
    - unfold sock_set, sock_at, mbind, PM_bind in H1. simpl in H1. destruct (_ !! r); simpl in H1; [|done].
      unfold sock_to_handle, sock_at, mbind, PM_bind in H1. simpl in H1. destruct (_ !! next_block w); simpl in H1; [|done].
      injection H1 as <- <-. by intros ? [= <-].
    - unfold sock_to_handle, sock_at, mbind, PM_bind in H1. simpl in H1. rewrite lookup_insert_eq in H1. simpl in H1.
      injection H1 as <- <-. by intros ? [= <-]. }
  destruct (h_ptr h) as [q'|] eqn:Hq; [|done]. apply PM_bind_inv in H as (? & ? & _ & H).
  apply PM_bind_inv in H as (? & ? & _ & H). injection H as <- <-. by apply Hh.
Qed.

Hypothesis Halloc : forall n, alloc n = true.

Lemma add_rx_stays n i fl :
  n - 2 ^ 14 < i < n + 2 ^ 14 -> keeps (stays_at n) (add_rx p (u16 i) fl (Some (stream i)) (zlen (stream i))).
Proof.
  intros Hi w r w' H Hp Hf [HQ _]. apply PM_bind_inv in H as (s & w1 & [-> Hs]%sock_at_inv & H).
  destruct (HQ s Hs) as (m & Hm). rewrite Hf in Hm.
  destruct (add_rx_run stream n _ _ _ i fl w Halloc Hm Hi) as (r1 & win' & w2 & m' & Hrun & (t & a & ->) & Hm').
  apply PM_bind_inv in H as ([r2 win2] & w3 & H3 & H). rewrite Hrun in H3. injection H3 as <- <- <-.
  apply PM_bind_inv in H as (u & w4 & (s2 & _ & ->)%sock_set_inv & H). injection H as <- <-.
  split; [done|]. split; [done|]. eapply good_intro; [apply lookup_insert_eq|].
  change (finished p _) with (finished p w). rewrite Hf. exact Hm'.
Qed.

(** A packet with data. *)
Definition of_stream (n : Z) (payload : list Z) : Prop :=
  exists i, n - 2 ^ 14 < i < n + 2 ^ 14 /\ read_uint16 (drop 3 payload) = Ret (u16 i) /\ drop 5 payload = stream i.

Lemma keeps_lift_ret {A B} R (a : A) (f : A -> PM C B) : keeps R (f a) -> keeps R (lift (Ret a) ≫= f).
Proof. intros H w b w' Hw. by eapply H. Qed.

Lemma receive_data_stays n fl payload :
  MSP_PAYLOAD_PREAMBLE_SIZE <= zlen payload -> of_stream n payload -> keeps (stays_at n) (receive_data p fl payload).
Proof.
  intros Hlen (i & Hi & Hr & Hd). unfold receive_data.
  assert (Hz : zlen payload - MSP_PAYLOAD_PREAMBLE_SIZE = zlen (stream i)).
  { unfold MSP_PAYLOAD_PREAMBLE_SIZE, zlen in *. rewrite <- Hd, length_drop. lia. }
  apply keeps_bind; [apply _|by apply keeps_stays_at, keeps_set_bits|]. intros _.
  rewrite Hr, Hd, Hz. apply keeps_lift_ret.
  apply keeps_bind; [apply _|by apply add_rx_stays|]. keeps_tac.
Qed.

Lemma receive_stays n fl payload :
  (MSP_PAYLOAD_PREAMBLE_SIZE <= zlen payload -> of_stream n payload) -> keeps (stays_at n) (receive p fl payload).
Proof.
  intros Hp. assert (Hd : (zlen payload <? MSP_PAYLOAD_PREAMBLE_SIZE) = false -> keeps (stays_at n) (receive_data p fl payload)).
  { intros ?. bsplit. apply receive_data_stays; auto. }
  unfold receive. destruct (zlen payload <? MSP_PAYLOAD_PREAMBLE_SIZE); keeps_tac.
Qed.

Lemma packet_stays fd hd payload w r w' :
  from_peer w fd hd payload -> process_packet fd hd payload w = Ret (r, w') -> stays w w'.
Proof.
  intros Hfrom H. unfold process_packet in H. destruct (has (hd_flags hd) MDP_FLAG_ERROR); [by injection H as <- <-|].
  apply PM_bind_inv in H as (n & w1 & [= _ <-] & H). apply PM_bind_inv in H as (rt & w1 & [= _ <-] & H).
  apply PM_bind_inv in H as (x & w1 & H1 & H). destruct x as [|sock listen].
  { injection H as <- <-. apply rel_stays. by eapply keeps_search_loop. }
  apply search_loop_inv in H1 as [-> Hfound]. destruct payload as [|flags rest] eqn:Epl; [by injection H as <- <-|].
  rewrite <- Epl in *. clear Epl rest.
  destruct (_ && _); [by injection H as <- <-|]. apply PM_bind_inv in H as (sock' & w1 & H1 & H).
  assert (Hcase : w1 = w /\ sock' = sock \/ (p < next_block w -> sock' <> Some p)%nat /\ rel true p w w1).
  { destruct sock as [q|]; [injection H1 as <- <-; auto|]. destruct listen as [l|]; [|injection H1 as <- <-; auto].
    destruct (has flags FLAG_FIRST); [|injection H1 as <- <-; auto]. right. split; [|by eapply keeps_accept].
    intros Hp ->. apply accept_inv in H1. lia. }
  destruct sock' as [q|]; last first.
  { assert (Hr : rel true p w w1) by (destruct Hcase as [[-> _]|[_ ?]]; [reflexivity|done]).
    apply rel_stays. etransitivity; [exact Hr|]. revert H. apply keeps_bind; [apply _|apply keeps_mdp_send|].
    intros ?. keeps_tac. }
  destruct (decide (q = p)) as [->|Hne]; last first.
  { assert (Hr : rel true p w w1) by (destruct Hcase as [[-> _]|[_ ?]]; [reflexivity|done]).
    apply rel_stays. etransitivity; [exact Hr|]. by eapply keeps_receive. }
  intros Hp Hg. destruct Hcase as [[-> <-] | [Hx _]]; [|by destruct (Hx Hp)].
  destruct (Hfound p eq_refl) as (s & Hs & Hm & Hrm & Hlc).
  destruct (receive_stays (finished p w) flags payload (Hfrom s Hs Hm Hrm Hlc) w r w' H Hp eq_refl Hg) as (? & _ & ?).
  done.
Qed.

Lemma step_stays w w' : msp_step w w' -> stays w w'.
Proof.
  intros (c & Hc & H). destruct c as [fd hd payload| |c|fd]; simpl in H.
  - apply PM_bind_inv in H as (r & w1 & H & [= <-]). by eapply packet_stays.
  - apply PM_bind_inv in H as (r & w1 & H & [= <-]). by eapply processing_stays.
  - apply PM_bind_inv in H as (r & w1 & H & [= <-]). apply rel_stays. by eapply keeps_client.
  - apply rel_stays. by eapply keeps_close_all.
Qed.

Lemma fresh_good w : fresh_sock w -> (p < next_block w)%nat /\ good w.
Proof.
  intros (Hp & Hc & Hf & Hs). split; [done|]. split.
  - intros s Hsock. specialize (Hs s Hsock). injection Hs as H1 H2 H3 H4. exists [].
    rewrite Hf, Hc. split; [split; simpl|..]; try done; constructor.
  - exists 0. rewrite Hf, Hc. split; [pose proof (zlen_nonneg (stream 0)); lia|done].
Qed.

(** C26: Whatever calls are made of the library (packets that arrive in any order
    and any number of times, processing, the calls of clients and of handlers,
    closing), what the handler of a socket has consumed is the beginning of the
    stream: all of the packets it has finished, in order, each once, and some bytes
    of the next.  Packets with data for the socket are taken to be packets of the
    stream not too far from the next one, and memory not to run out. *)
Theorem msp_reads_in_order (w0 w : msp_state C) :
  fresh_sock w0 -> rtc msp_step w0 w ->
  exists off, 0 <= off <= zlen (stream (finished p w)) /\ consumed p w = sprefix stream (finished p w) off.
Proof.
  intros [Hp Hg]%fresh_good Hsteps. assert (H : stays w0 w); [|by destruct (H Hp Hg) as [_ [_ ?]]].
  clear Hp Hg. induction Hsteps as [w|w1 w2 w3 H12 _ IH]; [done|]. etransitivity; [by apply step_stays|done].
Qed.
End order.

(** ** A sample connection *)

(** A clock that counts milliseconds for a second, memory and a daemon that do not fail, and
    handlers that keep what they are given. *)
Definition sample_env : MspEnv (list Z) := {|
  clock := fun n => 1000000 + Z.min (Z.of_nat n) 1000;
  alloc := fun _ => true;
  net := fun _ => SendOk;
  local_sockaddr := true;
  handlers := fun f h st bs ctx d => CReturn (zlen bs) (d ++ bs)
|}.
(** The same, but the fourth allocation fails. *)
Definition scarce_env : MspEnv (list Z) := {|
  clock := fun n => 1000000 + Z.min (Z.of_nat n) 1000;
  alloc := fun n => negb (n =? 3)%nat;
  net := fun _ => SendOk;
  local_sockaddr := true;
  handlers := fun f h st bs ctx d => CReturn (zlen bs) (d ++ bs)
|}.
(** The same, but the daemon is gone after the first message. *)
Definition broken_env : MspEnv (list Z) := {|
  clock := fun n => 1000000 + Z.min (Z.of_nat n) 1000;
  alloc := fun _ => true;
  net := fun n => match n with O => SendOk | _ => SendError end;
  local_sockaddr := true;
  handlers := fun f h st bs ctx d => CReturn (zlen bs) (d ++ bs)
|}.
Definition sample_start : msp_state (list Z) := MspState ∅ None 0 0 false [] [] 0 0 0.
Definition sample_here : mdp_sockaddr := SockAddr (repeat 2 32) 20.
Definition sample_peer : mdp_sockaddr := SockAddr (repeat 1 32) 10.
Definition sample_header : mdp_header := MdpHeader sample_here sample_peer 0 0 0.
(** A socket that listens. *)
Definition sample_listen {E : MspEnv (list Z)} : PM (list Z) Z :=
  h ← msp_socket 5 0;
  msp_set_handler h (Some 1) 0;;
  msp_set_local h sample_here;;
  msp_listen h;;
  process_packet 5 (MdpHeader sample_here sample_peer MDP_FLAG_BIND 0 0) [].

(** A packet of one or two bytes that asks for a connection to a listening socket whose
    handler only consumes, whoever it comes from, makes the next processing stop the program: the new socket
    has room to send but is not marked so, which [process_sock] asserts. *)
Theorem msp_short_first_aborts (from : mdp_sockaddr) (b : Z) :
  (@sample_listen sample_env;;
   @process_packet _ sample_env 5 (MdpHeader sample_here from 0 0 0) [FLAG_FIRST];;
   @msp_processing _ sample_env) sample_start = Abort /\
  (@sample_listen sample_env;;
   @process_packet _ sample_env 5 (MdpHeader sample_here from 0 0 0) [FLAG_FIRST; b];;
   @msp_processing _ sample_env) sample_start = Abort.
Proof. split; vm_compute; reflexivity. Qed.

(** When the copy of a payload cannot be allocated, the packet is freed but stays in
    the window, and processing reads it; when sending fails, all sockets of the
    descriptor are freed, the one that is being processed too, and
    [msp_processing] then reads the next one from it. *)
Theorem msp_failures_dangle :
  (@sample_listen scarce_env;;
   @process_packet _ scarce_env 5 sample_header [FLAG_FIRST; 255; 255; 0; 0; 7];;
   @msp_processing _ scarce_env) sample_start = Undef /\
  (@sample_listen broken_env;;
   @process_packet _ broken_env 5 sample_header [FLAG_FIRST; 255; 255; 0; 0; 7];;
   @msp_processing _ broken_env) sample_start = Undef.
Proof. split; vm_compute; reflexivity. Qed.

(** ** Witnesses *)

Definition state_after {A} (m : PM (list Z) A) (w : msp_state (list Z)) : msp_state (list Z) :=
  match m w with Ret (_, w') => w' | _ => w end.
(** The [i]-th packet has three bytes, packets from the third on are empty. *)
Definition sample_stream (i : Z) : list Z := if i <? 2 then [i + 10; i + 20; i + 30] else [].
Definition sample_data (i : Z) : msp_call (list Z) :=
  CallPacket 5 sample_header (FLAG_FIRST :: 255 :: 255 :: write_uint16 (u16 i) ++ sample_stream i).
Definition run_sample (c : msp_call (list Z)) : PM (list Z) unit := @run_call _ sample_env c.
(** A socket was accepted, then the second packet comes, the first, and the second
    again. *)
Definition sample_w0 := state_after (@sample_listen sample_env;; run_sample (CallPacket 5 sample_header [FLAG_FIRST; 255; 255])) sample_start.
Definition sample_w1 := state_after (run_sample (sample_data 1)) sample_w0.
Definition sample_w2 := state_after (run_sample (sample_data 0)) sample_w1.
Definition sample_w3 := state_after (run_sample (sample_data 1)) sample_w2.
Definition sample_w4 := state_after (run_sample CallProcessing) sample_w3.

(** The step from one of these states to the next. *)
Ltac sample_packet i :=
  eexists (sample_data i); split;
  [intros s _ _ _ _ _; exists i; split; [vm_compute; by split|]; split; vm_compute; reflexivity
  |vm_compute; reflexivity].

Lemma msp_reads_in_order_witness :
  exists off, 0 <= off <= zlen (sample_stream (finished 1 sample_w4)) /\
    consumed 1 sample_w4 = sprefix sample_stream (finished 1 sample_w4) off.
Proof.
  apply (@msp_reads_in_order _ sample_env sample_stream 1 (fun _ => eq_refl) sample_w0).
  - split; [vm_compute; lia|]. split; [vm_compute; reflexivity|]. split; [vm_compute; reflexivity|].
    intros s Hs. vm_compute in Hs. injection Hs as <-. reflexivity.
  - eapply rtc_l with sample_w1; [sample_packet 1|].
    eapply rtc_l with sample_w2; [sample_packet 0|].
    eapply rtc_l with sample_w3; [sample_packet 1|].
    eapply rtc_l with sample_w4; [|constructor].
    exists CallProcessing. split; [done|]. vm_compute. reflexivity.
Defined.
Example sample_bytes : consumed 1 sample_w4 = [10; 20; 30; 11; 21; 31] /\ finished 1 sample_w4 = 2.
Proof. vm_compute. done. Qed.

(** The packets of the socket, before they are read. *)
Definition received_packets (w : msp_state (list Z)) : numbered :=
  match socks w !! 1%nat with
  | Some s => omap (fun c => match c with Live k => Some (pk_seq k, k) | Freed => None end) (chain (rx s))
  | None => []
  end.

Lemma deliver_complete_witness :
  exists w', @deliver _ sample_env 1 sample_w3 = Ret (tt, w') /\
    finished 1 w' = finished 1 sample_w3 + zlen (received_packets sample_w3) /\
    consumed 1 w' = sprefix sample_stream (finished 1 sample_w3 + zlen (received_packets sample_w3)) 0.
Proof.
  eapply (@deliver_complete _ sample_env sample_stream 1) with (m := received_packets sample_w3) (l2 := []).
  - intros. eexists. reflexivity.
  - intros n. simpl. lia.
  - vm_compute. reflexivity.
  - right. right. split; [vm_compute; reflexivity|]. vm_compute. split; congruence.
  - split; [split|..]; try (vm_compute; by repeat constructor).
  - split; [by rewrite app_nil_r|]. split; [vm_compute; reflexivity|constructor].
Defined.

Lemma deliver_loop_ends_witness :
  exists s, @deliver_loop _ sample_env (deliver_fuel s + 5) 1 0 sample_w3 = @deliver_loop _ sample_env (deliver_fuel s) 1 0 sample_w3.
Proof.
  eexists. eapply (@deliver_loop_ends _ sample_env 1 _ 5 sample_w3); [vm_compute; reflexivity|vm_compute; lia].
Defined.

(** The last packet before the numbers wrap around. *)
Definition sample_last : msp_packet := MspPacket 65535 0 0 TIME_MS_NEVER_HAS (Some [1]) 1 0.
Definition sample_window : msp_window := MspWindow 1 0 0 0 0 [Live sample_last] TailLast.

Lemma window_refines_witness :
  (exists r win' w' t, @add_packet _ sample_env sample_window (u16 65536) 0 (Some [2]) (zlen [2]) sample_start = Ret ((r, win'), w') /\
     holds (add_numbered 65536 (MspPacket (u16 65536) 0 t TIME_MS_NEVER_HAS (body [2]) (zlen [2]) 0) [(65535, sample_last)]) win' /\
     r = if bool_decide (65536 ∈ [(65535, sample_last)].*1) then 0 else 1) /\
  (exists win' w', @free_acked_packets _ sample_env (u16 65536) sample_window sample_start = Ret (win', w') /\
     holds (unacked 65536 [(65535, sample_last)]) win').
Proof.
  apply (@window_refines _ sample_env [(65535, sample_last)] sample_window 65536 0 [2] sample_start).
  - done.
  - split; try reflexivity; by repeat constructor.
  - constructor; [simpl; lia|constructor].
  - reflexivity.
Defined.

(** A socket with that packet to send. *)
Definition sample_sender : msp_sock :=
  MspSock None None 7 5 MSP_STATE_DATAOUT 0 0 (set_next_seq 0 sample_window) window_zero 0 0 None 0 sample_header 0 0.

(** A socket that has consumed the packets up to 2 and sends that one, and its peer,
    which has sent 2 and 3. *)
Definition sample_rx : msp_window := MspWindow 0 0 0 3 0 [] TailNull.
Definition acking_sender : msp_sock :=
  MspSock None None 7 5 (Z.lor MSP_STATE_RECEIVED_DATA MSP_STATE_RECEIVED_PACKET) 0 0 (set_next_seq 0 sample_window)
    sample_rx 0 0 None 0 sample_header 0 0.
Definition sample_packet (i : Z) : msp_packet := MspPacket i 0 0 TIME_MS_NEVER_HAS (Some [9]) 1 0.
Definition peer_header : mdp_header := MdpHeader sample_peer sample_here 0 0 0.
Definition peer_sock : msp_sock :=
  MspSock None None 8 6 MSP_STATE_DATAOUT 0 0
    (MspWindow 2 0 0 4 0 [Live (sample_packet 2); Live (sample_packet 3)] TailLast) window_zero 0 0 None 0 peer_header 0 0.
Definition peer_state : msp_state (list Z) := MspState {[1%nat := peer_sock]} (Some 1%nat) 0 2 false [] [] 0 0 0.

Lemma packet_wire_roundtrip_witness :
  let w := w_set_socks {[3%nat := acking_sender]} sample_start in
  exists w' bs v' t' fl tm,
    @msp_send_packet _ sample_env 3 0 w = Ret (0, w') /\ events w' = [] ++ [Datagram 5 sample_header bs] /\
    @process_packet _ sample_env 6 peer_header bs peer_state = Ret (0, v') /\
    socks v' = <[1%nat := t']> {[1%nat := peer_sock]} /\ events v' = [] /\
    has (state t') MSP_STATE_RECEIVED_PACKET = true /\ has (state t') MSP_STATE_RECEIVED_DATA = true /\
    holds (unacked 2 [(2, sample_packet 2); (3, sample_packet 3)]) (tx t') /\
    next_seq (rx t') = 0 /\ announces acking_sender sample_last fl /\
    holds (add_numbered 65535 (MspPacket (u16 65535) fl tm TIME_MS_NEVER_HAS (body [1]) (zlen [1]) 0) []) (rx t').
Proof.
  refine (@packet_wire_roundtrip _ sample_env (fun _ => [1]) 3 0 65535 2 acking_sender sample_last
    (w_set_socks {[3%nat := acking_sender]} sample_start) 6 peer_header 1 None peer_sock
    [(2, sample_packet 2); (3, sample_packet 3)] [] peer_state _ _ _ _ _ _ _ _ _ _ _ _ _ _ _ _ _ _ _); try reflexivity.
  - simpl. lia.
  - split; [reflexivity..|]. simpl. lia.
  - by left.
  - split; try reflexivity; repeat constructor; simpl; lia.
  - constructor; [simpl; lia|]. constructor; [simpl; lia|constructor].
  - split; try reflexivity; by constructor.
  - constructor.
Defined.

Lemma msp_send_spec_witness :
  exists w' s' k, @msp_send _ sample_env (Handle (Some 3%nat) 7) (Some [8; 9]) (zlen [8; 9]) (w_set_socks {[3%nat := sample_sender]} sample_start)
      = Ret (zlen [8; 9], w') /\
    socks w' = <[3%nat := s']> {[3%nat := sample_sender]} /\ events w' = [] /\ rx s' = rx sample_sender /\
    pk_payload k = body [8; 9] /\ len k = zlen [8; 9] /\ sent k = TIME_MS_NEVER_HAS /\
    sending (65536 + 1) ([(65535, sample_last)] ++ [(65536, k)]) (tx s') /\
    state s' = if MAX_WINDOW_SIZE <=? zlen [(65535, sample_last)] + 1
               then Z.land (state sample_sender) (Z.lnot MSP_STATE_DATAOUT) else state sample_sender.
Proof.
  refine (proj2 (@msp_send_spec _ sample_env 3 sample_sender 65536 [(65535, sample_last)] [8; 9]
    (w_set_socks {[3%nat := sample_sender]} sample_start) (fun _ => eq_refl) _ _ _) _ _).
  - apply lookup_singleton_eq.
  - split; [reflexivity|]. by split.
  - split; [split; try reflexivity; by repeat constructor|]. split_and!; reflexivity.
  - reflexivity.
  - discriminate.
Defined.
