(* ===== verification/Http.v ===== *)
(** * The HTTP request parser: state and lexical functions (http_server.c)

    A request is received into the 8 KiB buffer inside [struct http_request],
    which the parsers share with the strings they reserve at its start.  Pointers
    into the buffer are offsets from its start.  The order of the regions is
    strings (up to [reserved]), unused space, parsed text (from [received]), text
    not parsed yet (from [parsed]), unused space (from [end_]).

    [HP] is the monad of the functions on a request: [Abort] and [Undef] are
    those of [outcome], and [None] is a run that has gone wrong: a loop has run
    out of fuel, or a store would be outside the buffer.  Loops over the
    characters between [cursor] and [end_] are recursive functions on the list of
    these characters ([ahead]), which return what is left of it. *)

From Stdlib Require Import ZArith Lia Ascii String.
From stdpp Require Import base tactics list numbers.
From S2P Require Import Prelude Cstring Ctype Str.

Local Open Scope Z_scope.

Definition CONTENT_LENGTH_UNKNOWN : Z := UINT64_MAX.
(** [sizeof r->buffer] *)
Definition buffer_size : Z := 8 * 1024.
Definition NOAUTH : Z := 0.
Definition BASIC : Z := 1.

(** ** The request *)

(** [struct mime_content_type]; the arrays of [char] are kept whole. *)
Record mime_content_type : Type := ContentType {
  ct_type : list Z;
  ct_subtype : list Z;
  multipart_boundary : list Z;
  charset : list Z;
  ct_format : list Z
}.
Definition set_type (x : list Z) (r : mime_content_type) : mime_content_type :=
  ContentType x (ct_subtype r) (multipart_boundary r) (charset r) (ct_format r).
Definition set_subtype (x : list Z) (r : mime_content_type) : mime_content_type :=
  ContentType (ct_type r) x (multipart_boundary r) (charset r) (ct_format r).
Definition set_boundary (x : list Z) (r : mime_content_type) : mime_content_type :=
  ContentType (ct_type r) (ct_subtype r) x (charset r) (ct_format r).
Definition set_charset (x : list Z) (r : mime_content_type) : mime_content_type :=
  ContentType (ct_type r) (ct_subtype r) (multipart_boundary r) x (ct_format r).
Definition set_format (x : list Z) (r : mime_content_type) : mime_content_type :=
  ContentType (ct_type r) (ct_subtype r) (multipart_boundary r) (charset r) x.

Record mime_content_disposition : Type := Disposition {
  cd_type : list Z;
  cd_name : list Z;
  filename : list Z;
  cd_size : Z;
  creation_date : Z;
  modification_date : Z;
  read_date : Z
}.
Definition set_cd_type (x : list Z) (r : mime_content_disposition) : mime_content_disposition :=
  Disposition x (cd_name r) (filename r) (cd_size r) (creation_date r) (modification_date r) (read_date r).
Definition set_cd_name (x : list Z) (r : mime_content_disposition) : mime_content_disposition :=
  Disposition (cd_type r) x (filename r) (cd_size r) (creation_date r) (modification_date r) (read_date r).
Definition set_filename (x : list Z) (r : mime_content_disposition) : mime_content_disposition :=
  Disposition (cd_type r) (cd_name r) x (cd_size r) (creation_date r) (modification_date r) (read_date r).
Definition set_cd_size (x : Z) (r : mime_content_disposition) : mime_content_disposition :=
  Disposition (cd_type r) (cd_name r) (filename r) x (creation_date r) (modification_date r) (read_date r).
Definition set_creation_date (x : Z) (r : mime_content_disposition) : mime_content_disposition :=
  Disposition (cd_type r) (cd_name r) (filename r) (cd_size r) x (modification_date r) (read_date r).
Definition set_modification_date (x : Z) (r : mime_content_disposition) : mime_content_disposition :=
  Disposition (cd_type r) (cd_name r) (filename r) (cd_size r) (creation_date r) x (read_date r).
Definition set_read_date (x : Z) (r : mime_content_disposition) : mime_content_disposition :=
  Disposition (cd_type r) (cd_name r) (filename r) (cd_size r) (creation_date r) (modification_date r) x.

Record mime_part_headers : Type := PartHeaders {
  ph_length : Z;
  ph_type : mime_content_type;
  ph_disposition : mime_content_disposition
}.
Definition set_ph_length (x : Z) (r : mime_part_headers) : mime_part_headers :=
  PartHeaders x (ph_type r) (ph_disposition r).
Definition set_ph_type (x : mime_content_type) (r : mime_part_headers) : mime_part_headers :=
  PartHeaders (ph_length r) x (ph_disposition r).
Definition set_ph_disposition (x : mime_content_disposition) (r : mime_part_headers) : mime_part_headers :=
  PartHeaders (ph_length r) (ph_type r) x.

(** The static strings [r->verb] points to. *)
Inductive http_verb : Type := GET | POST | PUT | HEAD | DELETE | TRACE | OPTIONS | CONNECT | PATCH.
Global Instance http_verb_eq : EqDecision http_verb.
Proof. solve_decision. Defined.

Inductive http_range_type : Type := NIL | CLOSED | OPEN | SUFFIX.
Record http_range : Type := Range { rg_type : http_range_type; rg_first : Z; rg_last : Z }.

Inductive http_phase : Type := RECEIVE | TRANSMIT | PAUSE | DONE.
Inductive mime_state : Type := START | PREAMBLE | HEADER | BODY | EPILOGUE.
Global Instance http_phase_eq : EqDecision http_phase.
Proof. solve_decision. Defined.

(** The functions [r->parser] points to. *)
Inductive http_parser : Type :=
| ParseVerb | ParsePath | ParseVersion | StartHeaders | ParseHeader | StartBody | RejectContent | ParseFormData.
Global Instance http_parser_eq : EqDecision http_parser.
Proof. solve_decision. Defined.

(** The fields of the request that point to reserved strings. *)
Inductive field : Type := FPath | FOrigin | FUser | FPassword.
Global Instance field_eq : EqDecision field.
Proof. solve_decision. Defined.
(** Where they point: into the buffer, or to a string on the stack. *)
Inductive loc : Type := InBuffer (off : Z) | OnStack (s : list Z).

(** The calls of the handlers of form data; data is passed as a place in the
    buffer and the bytes there. *)
Inductive mime_event : Type :=
| MimePreamble (start : Z) (bs : list Z)
| MimePartStart
| MimePartHeader (h : mime_part_headers)
| MimeBody (start : Z) (bs : list Z)
| MimePartEnd
| MimeEpilogue (start : Z) (bs : list Z).

(** [struct http_request]; pointers into [buffer] are offsets from its start, and
    [events] are the calls of form data handlers so far.  [input] is what the peer
    sends, in the pieces that arrive; [None] is an error of [read]. *)
Record http_request : Type := Request {
  phase : http_phase;
  verb : option http_verb;
  strings : field -> option loc;
  version_major : Z;
  version_minor : Z;
  content_length : Z;
  content_type : mime_content_type;
  content_range_count : Z;
  content_ranges : list http_range;
  auth_scheme : Z;
  parser : option http_parser;
  reserved : Z;
  received : Z;
  end_ : Z;
  parsed : Z;
  cursor : Z;
  request_content_remaining : Z;
  form_data_state : mime_state;
  part_header : mime_part_headers;
  part_body_length : Z;
  result_code : Z;
  buffer : list Z;
  events : list mime_event;
  input : list (option (list Z))
}.
Definition set_phase (x : http_phase) (r : http_request) : http_request :=
  Request x (verb r) (strings r) (version_major r) (version_minor r) (content_length r) (content_type r)
    (content_range_count r) (content_ranges r) (auth_scheme r) (parser r) (reserved r) (received r) (end_ r)
    (parsed r) (cursor r) (request_content_remaining r) (form_data_state r) (part_header r) (part_body_length r)
    (result_code r) (buffer r) (events r) (input r).
Definition set_verb (x : option http_verb) (r : http_request) : http_request :=
  Request (phase r) x (strings r) (version_major r) (version_minor r) (content_length r) (content_type r)
    (content_range_count r) (content_ranges r) (auth_scheme r) (parser r) (reserved r) (received r) (end_ r)
    (parsed r) (cursor r) (request_content_remaining r) (form_data_state r) (part_header r) (part_body_length r)
    (result_code r) (buffer r) (events r) (input r).
Definition set_strings (x : field -> option loc) (r : http_request) : http_request :=
  Request (phase r) (verb r) x (version_major r) (version_minor r) (content_length r) (content_type r)
    (content_range_count r) (content_ranges r) (auth_scheme r) (parser r) (reserved r) (received r) (end_ r)
    (parsed r) (cursor r) (request_content_remaining r) (form_data_state r) (part_header r) (part_body_length r)
    (result_code r) (buffer r) (events r) (input r).
Definition set_major (x : Z) (r : http_request) : http_request :=
  Request (phase r) (verb r) (strings r) x (version_minor r) (content_length r) (content_type r)
    (content_range_count r) (content_ranges r) (auth_scheme r) (parser r) (reserved r) (received r) (end_ r)
    (parsed r) (cursor r) (request_content_remaining r) (form_data_state r) (part_header r) (part_body_length r)
    (result_code r) (buffer r) (events r) (input r).
Definition set_minor (x : Z) (r : http_request) : http_request :=
  Request (phase r) (verb r) (strings r) (version_major r) x (content_length r) (content_type r)
    (content_range_count r) (content_ranges r) (auth_scheme r) (parser r) (reserved r) (received r) (end_ r)
    (parsed r) (cursor r) (request_content_remaining r) (form_data_state r) (part_header r) (part_body_length r)
    (result_code r) (buffer r) (events r) (input r).
Definition set_content_length (x : Z) (r : http_request) : http_request :=
  Request (phase r) (verb r) (strings r) (version_major r) (version_minor r) x (content_type r)
    (content_range_count r) (content_ranges r) (auth_scheme r) (parser r) (reserved r) (received r) (end_ r)
    (parsed r) (cursor r) (request_content_remaining r) (form_data_state r) (part_header r) (part_body_length r)
    (result_code r) (buffer r) (events r) (input r).
Definition set_content_type (x : mime_content_type) (r : http_request) : http_request :=
  Request (phase r) (verb r) (strings r) (version_major r) (version_minor r) (content_length r) x
    (content_range_count r) (content_ranges r) (auth_scheme r) (parser r) (reserved r) (received r) (end_ r)
    (parsed r) (cursor r) (request_content_remaining r) (form_data_state r) (part_header r) (part_body_length r)
    (result_code r) (buffer r) (events r) (input r).
Definition set_range_count (x : Z) (r : http_request) : http_request :=
  Request (phase r) (verb r) (strings r) (version_major r) (version_minor r) (content_length r) (content_type r)
    x (content_ranges r) (auth_scheme r) (parser r) (reserved r) (received r) (end_ r) (parsed r) (cursor r)
    (request_content_remaining r) (form_data_state r) (part_header r) (part_body_length r) (result_code r)
    (buffer r) (events r) (input r).
Definition set_ranges (x : list http_range) (r : http_request) : http_request :=
  Request (phase r) (verb r) (strings r) (version_major r) (version_minor r) (content_length r) (content_type r)
    (content_range_count r) x (auth_scheme r) (parser r) (reserved r) (received r) (end_ r) (parsed r)
    (cursor r) (request_content_remaining r) (form_data_state r) (part_header r) (part_body_length r)
    (result_code r) (buffer r) (events r) (input r).
Definition set_auth_scheme (x : Z) (r : http_request) : http_request :=
  Request (phase r) (verb r) (strings r) (version_major r) (version_minor r) (content_length r) (content_type r)
    (content_range_count r) (content_ranges r) x (parser r) (reserved r) (received r) (end_ r) (parsed r)
    (cursor r) (request_content_remaining r) (form_data_state r) (part_header r) (part_body_length r)
    (result_code r) (buffer r) (events r) (input r).
Definition set_parser (x : option http_parser) (r : http_request) : http_request :=
  Request (phase r) (verb r) (strings r) (version_major r) (version_minor r) (content_length r) (content_type r)
    (content_range_count r) (content_ranges r) (auth_scheme r) x (reserved r) (received r) (end_ r) (parsed r)
    (cursor r) (request_content_remaining r) (form_data_state r) (part_header r) (part_body_length r)
    (result_code r) (buffer r) (events r) (input r).
Definition set_reserved (x : Z) (r : http_request) : http_request :=
  Request (phase r) (verb r) (strings r) (version_major r) (version_minor r) (content_length r) (content_type r)
    (content_range_count r) (content_ranges r) (auth_scheme r) (parser r) x (received r) (end_ r) (parsed r)
    (cursor r) (request_content_remaining r) (form_data_state r) (part_header r) (part_body_length r)
    (result_code r) (buffer r) (events r) (input r).
Definition set_received (x : Z) (r : http_request) : http_request :=
  Request (phase r) (verb r) (strings r) (version_major r) (version_minor r) (content_length r) (content_type r)
    (content_range_count r) (content_ranges r) (auth_scheme r) (parser r) (reserved r) x (end_ r) (parsed r)
    (cursor r) (request_content_remaining r) (form_data_state r) (part_header r) (part_body_length r)
    (result_code r) (buffer r) (events r) (input r).
Definition set_end (x : Z) (r : http_request) : http_request :=
  Request (phase r) (verb r) (strings r) (version_major r) (version_minor r) (content_length r) (content_type r)
    (content_range_count r) (content_ranges r) (auth_scheme r) (parser r) (reserved r) (received r) x (parsed r)
    (cursor r) (request_content_remaining r) (form_data_state r) (part_header r) (part_body_length r)
    (result_code r) (buffer r) (events r) (input r).
Definition set_parsed (x : Z) (r : http_request) : http_request :=
  Request (phase r) (verb r) (strings r) (version_major r) (version_minor r) (content_length r) (content_type r)
    (content_range_count r) (content_ranges r) (auth_scheme r) (parser r) (reserved r) (received r) (end_ r) x
    (cursor r) (request_content_remaining r) (form_data_state r) (part_header r) (part_body_length r)
    (result_code r) (buffer r) (events r) (input r).
Definition set_cursor (x : Z) (r : http_request) : http_request :=
  Request (phase r) (verb r) (strings r) (version_major r) (version_minor r) (content_length r) (content_type r)
    (content_range_count r) (content_ranges r) (auth_scheme r) (parser r) (reserved r) (received r) (end_ r)
    (parsed r) x (request_content_remaining r) (form_data_state r) (part_header r) (part_body_length r)
    (result_code r) (buffer r) (events r) (input r).
Definition set_remaining (x : Z) (r : http_request) : http_request :=
  Request (phase r) (verb r) (strings r) (version_major r) (version_minor r) (content_length r) (content_type r)
    (content_range_count r) (content_ranges r) (auth_scheme r) (parser r) (reserved r) (received r) (end_ r)
    (parsed r) (cursor r) x (form_data_state r) (part_header r) (part_body_length r) (result_code r) (buffer r)
    (events r) (input r).
Definition set_form_state (x : mime_state) (r : http_request) : http_request :=
  Request (phase r) (verb r) (strings r) (version_major r) (version_minor r) (content_length r) (content_type r)
    (content_range_count r) (content_ranges r) (auth_scheme r) (parser r) (reserved r) (received r) (end_ r)
    (parsed r) (cursor r) (request_content_remaining r) x (part_header r) (part_body_length r) (result_code r)
    (buffer r) (events r) (input r).
Definition set_part_header (x : mime_part_headers) (r : http_request) : http_request :=
  Request (phase r) (verb r) (strings r) (version_major r) (version_minor r) (content_length r) (content_type r)
    (content_range_count r) (content_ranges r) (auth_scheme r) (parser r) (reserved r) (received r) (end_ r)
    (parsed r) (cursor r) (request_content_remaining r) (form_data_state r) x (part_body_length r)
    (result_code r) (buffer r) (events r) (input r).
Definition set_part_length (x : Z) (r : http_request) : http_request :=
  Request (phase r) (verb r) (strings r) (version_major r) (version_minor r) (content_length r) (content_type r)
    (content_range_count r) (content_ranges r) (auth_scheme r) (parser r) (reserved r) (received r) (end_ r)
    (parsed r) (cursor r) (request_content_remaining r) (form_data_state r) (part_header r) x (result_code r)
    (buffer r) (events r) (input r).
Definition set_result (x : Z) (r : http_request) : http_request :=
  Request (phase r) (verb r) (strings r) (version_major r) (version_minor r) (content_length r) (content_type r)
    (content_range_count r) (content_ranges r) (auth_scheme r) (parser r) (reserved r) (received r) (end_ r)
    (parsed r) (cursor r) (request_content_remaining r) (form_data_state r) (part_header r) (part_body_length r)
    x (buffer r) (events r) (input r).
Definition set_buffer (x : list Z) (r : http_request) : http_request :=
  Request (phase r) (verb r) (strings r) (version_major r) (version_minor r) (content_length r) (content_type r)
    (content_range_count r) (content_ranges r) (auth_scheme r) (parser r) (reserved r) (received r) (end_ r)
    (parsed r) (cursor r) (request_content_remaining r) (form_data_state r) (part_header r) (part_body_length r)
    (result_code r) x (events r) (input r).
Definition set_events (x : list mime_event) (r : http_request) : http_request :=
  Request (phase r) (verb r) (strings r) (version_major r) (version_minor r) (content_length r) (content_type r)
    (content_range_count r) (content_ranges r) (auth_scheme r) (parser r) (reserved r) (received r) (end_ r)
    (parsed r) (cursor r) (request_content_remaining r) (form_data_state r) (part_header r) (part_body_length r)
    (result_code r) (buffer r) x (input r).
Definition set_input (x : list (option (list Z))) (r : http_request) : http_request :=
  Request (phase r) (verb r) (strings r) (version_major r) (version_minor r) (content_length r) (content_type r)
    (content_range_count r) (content_ranges r) (auth_scheme r) (parser r) (reserved r) (received r) (end_ r)
    (parsed r) (cursor r) (request_content_remaining r) (form_data_state r) (part_header r) (part_body_length r)
    (result_code r) (buffer r) (events r) x.

(** ** The monad *)

Definition HP (A : Type) : Type := http_request -> outcome (option (A * http_request)).
Global Instance HP_ret : MRet HP := fun A a r => Ret (Some (a, r)).
Global Instance HP_bind : MBind HP := fun A B f m r =>
  x ← m r; match x with Some (a, r) => f a r | None => Ret None end.

Definition lift {A} (m : outcome A) : HP A := fun r => a ← m; Ret (Some (a, r)).
Definition get {A} (f : http_request -> A) : HP A := fun r => Ret (Some (f r, r)).
Definition modify (f : http_request -> http_request) : HP unit := fun r => Ret (Some (tt, f r)).
Definition assert (b : bool) : HP unit := lift (cassert b).
(** A loop has run out of fuel, or a store would be outside the buffer. *)
Definition goes_wrong {A} : HP A := fun r => Ret None.
Definition out_of_fuel {A} : HP A := goes_wrong.
(** [a && b] *)
Definition and_then (a b : HP bool) : HP bool := x ← a; if x : bool then b else mret false.
Infix "<&&>" := and_then (at level 45, right associativity).
(** The truth of a [size_t]. *)
Definition nonzero (a : HP Z) : HP bool := x ← a; mret (negb (x =? 0)).

(** ** What the parser is given

    The handlers, flags and the authentication scheme of the response ([www_authenticate])
    that the caller sets in the request, the addresses of
    the request's string pointers as they are written into reserved memory,
    [strptime] (what is left of its text, and the broken-down time as the number
    [mktime] gives for it in UTC) and the rendering of the response, which says whether
    it produced a buffer. *)
Record http_mime_handler : Type := MimeHandler {
  handle_mime_preamble : option (Z -> list Z -> HP Z);
  handle_mime_part_start : option (HP Z);
  handle_mime_part_header : option (mime_part_headers -> HP Z);
  handle_mime_body : option (Z -> list Z -> HP Z);
  handle_mime_part_end : option (HP Z);
  handle_mime_epilogue : option (Z -> list Z -> HP Z)
}.

Class HttpEnv `{Arch} : Type := {
  handle_first_line : option (HP Z);
  handle_headers : option (HP Z);
  handle_content_end : option (HP Z);
  form_data : http_mime_handler;
  disable_tx : bool;
  idle_timeout : Z;
  www_authenticate : Z;
  pointer_to : field -> list Z;
  strptime : list Z -> option (Z * list Z);
  render_response : HP bool
}.

(** ** The cursor *)

(** The offset as a character pointer: what may be read through it. *)
Definition at_offset (off : Z) (r : http_request) : list Z := drop (Z.to_nat off) (buffer r).

Definition _end_of_content : HP bool :=
  get (fun r => (cursor r =? end_ r) && (request_content_remaining r =? 0)).

Definition _run_out : HP bool := fun r => _ ← cassert (cursor r <=? end_ r); Ret (Some (cursor r =? end_ r, r)).

Definition _buffer_full : HP bool :=
  get (fun r => (parsed r =? received r) && ((end_ r =? buffer_size) || (request_content_remaining r =? 0))).

Definition _rewind : HP unit :=
  _ ← (r ← get id; assert (received r <=? parsed r)); modify (fun r => set_cursor (parsed r) r).

Definition _commit : HP unit :=
  _ ← (r ← get id; assert (cursor r <=? end_ r)); modify (fun r => set_parsed (cursor r) r).

Definition _skip_any : HP bool :=
  o ← _run_out; if o : bool then mret false else _ ← modify (fun r => set_cursor (cursor r + 1) r); mret true.

Definition _skip_all : HP unit := modify (fun r => set_cursor (end_ r) r).

(** The characters from [cursor] to [end_], which the loops
    [for (; !_run_out(r); ++r->cursor)] visit. *)
Definition ahead : HP (list Z) := fun r =>
  _ ← cassert (cursor r <=? end_ r);
  if (0 <=? cursor r) && (end_ r <=? zlen (buffer r))
  then Ret (Some (slice (cursor r) (end_ r - cursor r) (buffer r), r)) else Undef.

(** A function of these characters that leaves the cursor where [snd] of its result starts. *)
Definition jump (s : list Z) : HP unit := modify (fun r => set_cursor (end_ r - zlen s) r).
Definition scan {A} (f : list Z -> A * list Z) : HP A :=
  s ← ahead; let '(a, s') := f s in _ ← jump s'; mret a.
Definition scan_outcome {A} (f : list Z -> outcome (A * list Z)) : HP A :=
  s ← ahead; x ← lift (f s); let '(a, s') := x in _ ← jump s'; mret a.

Definition skip_crlf (s : list Z) : bool * list Z :=
  match s with
  | c :: s' =>
    if c =? 13 then match s' with d :: s'' => if d =? 10 then (true, s'') else (false, s') | [] => (false, []) end
    else (false, s)
  | [] => (false, [])
  end.
Definition _skip_crlf : HP bool := scan skip_crlf.

Fixpoint skip_to_crlf (s : list Z) : bool * list Z :=
  match s with
  | [] => (false, [])
  | c :: s' =>
    if (c =? 13) && (match s' with d :: _ => d =? 10 | [] => false end) then (true, s)
    else skip_to_crlf s'
  end.
Definition _skip_to_crlf : HP bool := scan skip_to_crlf.

Definition _rewind_optional_cr : HP unit := fun r =>
  if parsed r <? cursor r
  then c ← or_undef (buffer r @@ (cursor r - 1));
       Ret (Some (tt, if c =? 13 then set_cursor (cursor r - 1) r else r))
  else Ret (Some (tt, r)).

Definition _rewind_crlf : HP unit := fun r =>
  _ ← cassert (parsed r + 2 <=? cursor r);
  c ← or_undef (buffer r @@ (cursor r - 2));
  d ← or_undef (buffer r @@ (cursor r - 1));
  _ ← cassert (c =? 13);
  _ ← cassert (d =? 10);
  Ret (Some (tt, set_cursor (cursor r - 2) r)).

Fixpoint skip_eol (crcount : Z) (s : list Z) : bool * list Z :=
  match s with
  | [] => (false, [])
  | c :: s' =>
    if c =? 0 then skip_eol crcount s'
    else if c =? 13 then (if 1 <? crcount + 1 then (false, s) else skip_eol (crcount + 1) s')
    else if c =? 10 then (true, s')
    else (false, s)
  end.
Definition _skip_eol : HP bool := scan (skip_eol 0).

(** [_skip_to_eol]: the characters up to a newline or the end, and from there on. *)
Fixpoint find_newline (s : list Z) : list Z * list Z :=
  match s with
  | [] => ([], [])
  | c :: s' => if c =? 10 then ([], s) else let '(a, b) := find_newline s' in (c :: a, b)
  end.
(** The loops back over NULs, and over one CR, on the reversed line. *)
Fixpoint drop_nuls (rev_line : list Z) : list Z :=
  match rev_line with c :: l => if c =? 0 then drop_nuls l else rev_line | [] => [] end.
Definition drop_cr (rev_line : list Z) : list Z :=
  match rev_line with c :: l => if c =? 13 then l else rev_line | [] => [] end.
Definition skip_to_eol (s : list Z) : bool * list Z :=
  let '(line, rest) := find_newline s in
  match rest with
  | [] => (false, [])
  | _ => (true, drop (length (drop_nuls (drop_cr (drop_nuls (reverse line))))) s)
  end.
Definition _skip_to_eol : HP bool := scan skip_to_eol.

Fixpoint skip_literal (f : Z -> Z) (literal s : list Z) : bool * list Z :=
  match literal, s with
  | l :: literal', c :: s' => if f c =? f l then skip_literal f literal' s' else (false, s)
  | [], _ => (true, s)
  | _, [] => (false, [])
  end.
Definition _skip_literal (literal : list Z) : HP bool := scan (skip_literal id literal).
Definition _skip_literal_nocase (literal : list Z) : HP bool := scan (skip_literal toupper literal).

Definition is_http_space (c : Z) : bool := (c =? chr " ") || (c =? 9).

Fixpoint skip_while (p : Z -> bool) (s : list Z) : list Z :=
  match s with c :: s' => if p c then skip_while p s' else s | [] => [] end.
Definition _skip_optional_space : HP bool := scan (fun s => (true, skip_while is_http_space s)).
Definition _skip_space : HP bool :=
  start ← get cursor; _ ← _skip_optional_space; r ← get id; mret (start <? cursor r).

(** ** Words, tokens and quoted strings *)

(** [struct substring]: a place and a length. *)
Inductive substring : Type := Sub (start : loc) (len : Z).

Definition word_char (c : Z) : bool := negb (isspace c) && isprint c.
Definition skip_word_printable (s : list Z) : outcome (Z * list Z) :=
  match s with
  | [] => Ret (0, [])
  | c :: s1 =>
    if negb (word_char c) then Ret (0, s)
    else
      let s' := skip_while word_char s1 in
      match s' with
      | [] => Ret (0, [])
      | d :: _ => _ ← cassert (isspace d); Ret (zlen s - zlen s', s')
      end
  end.
(** [_skip_word_printable] and [_skip_token] with the [substring] they store. *)
Definition _skip_word_printable : HP (Z * substring) :=
  start ← get cursor;
  n ← scan_outcome skip_word_printable; mret (n, Sub (InBuffer start) n).

Fixpoint skip_token_chars (s : list Z) : outcome (list Z) :=
  match s with
  | [] => Ret []
  | c :: s' => t ← is_http_token c; if t : bool then skip_token_chars s' else Ret s
  end.
Definition skip_token (s : list Z) : outcome (Z * list Z) :=
  match s with
  | [] => Ret (0, [])
  | c :: s1 =>
    t ← is_http_token c;
    if negb t then Ret (0, s)
    else s' ← skip_token_chars s1;
         match s' with [] => Ret (0, []) | _ => Ret (zlen s - zlen s', s') end
  end.
Definition _skip_token : HP (Z * substring) :=
  start ← get cursor;
  n ← scan_outcome skip_token; mret (n, Sub (InBuffer start) n).

(** The characters of a substring. *)
Definition sub_chars (str : substring) (r : http_request) : list Z :=
  match str with
  | Sub (InBuffer off) n => slice off n (buffer r)
  | Sub (OnStack s) n => slice 0 n s
  end.

(** [_parse_token], with the characters it writes at [dst] ([None] is [NULL]). *)
Definition _parse_token (dstsiz : option Z) : HP (Z * list Z) :=
  '(len, str) ← _skip_token;
  cs ← get (sub_chars str);
  mret (len, match dstsiz with
             | Some siz =>
               if len =? 0 then [] else
               let cpy := if len <? siz - 1 then len else siz - 1 in
               slice 0 cpy cs ++ [0]
             | None => []
             end).

(** The loop of [_parse_quoted_string]: [None] where it returns, otherwise the
    length; what has been written at [dst]; what is left. *)
Fixpoint quoted_loop (dstsiz : option Z) (slosh : bool) (len : Z) (dst s : list Z) : option Z * list Z * list Z :=
  let put c := match dstsiz with Some siz => if len <? siz - 1 then dst ++ [c] else dst | None => dst end in
  match s with
  | [] => (Some len, dst, [])
  | c :: s' =>
    if negb (isprint c) then (None, dst, s)
    else if slosh : bool then quoted_loop dstsiz false (len + 1) (put c) s'
    else if c =? 34 then (Some len, dst, s)
    else if c =? 92 then quoted_loop dstsiz true len dst s'
    else quoted_loop dstsiz false (len + 1) (put c) s'
  end.
Definition quoted_string (dstsiz : option Z) (s : list Z) : (Z * list Z) * list Z :=
  match s with
  | c :: s1 =>
    if negb (c =? 34) then ((0, []), s) else
    let '(len, dst, s') := quoted_loop dstsiz false 0 [] s1 in
    match len with
    | None => ((0, dst), s')
    | Some len =>
      let dst := match dstsiz with Some _ => dst ++ [0] | None => [] end in
      match s' with [] => ((0, dst), []) | _ :: s'' => ((len, dst), s'') end
    end
  | [] => ((0, []), [])
  end.
Definition _parse_quoted_string (dstsiz : option Z) : HP (Z * list Z) := scan (quoted_string dstsiz).

(** [dst] is [NULL] when [dstsiz] is zero. *)
Definition _parse_token_or_quoted_string (dstsiz : Z) : HP (Z * list Z) :=
  _ ← assert (0 <? dstsiz);
  s ← ahead;
  match s with
  | c :: _ => if c =? 34 then _parse_quoted_string (Some dstsiz) else _parse_token (Some dstsiz)
  | [] => _parse_token (Some dstsiz)
  end.

(** [_parse_http_size_t] and [_parse_uint32] read numbers as strings that end
    with NUL, whatever [end_] is. *)
Definition parse_number (parse : list Z -> outcome Str.parsed) : HP (option Z) :=
  s ← ahead;
  match s with
  | c :: _ =>
    if isdigit c then
      str ← get (fun r => at_offset (cursor r) r);
      p ← lift (parse str);
      _ ← modify (fun r => set_cursor (zlen (buffer r) - zlen (p_end p)) r);
      mret (if p_ok p then Some (p_value p) else None)
    else mret None
  | [] => mret None
  end.
Definition _parse_http_size_t : HP (option Z) := parse_number (fun s => str_to_uint64 s 10 true).
Definition _parse_uint32 : HP (option Z) := parse_number (fun s => str_to_uint32 s 10 true).
