(* ===== verification/HttpValues.v ===== *)
(** * The HTTP request parser: reserved strings and header values (http_server.c)

    [_reserve] and [_release_reserved] keep strings at the start of the buffer,
    each behind the address of the field that points to it.  The parsers of
    header values work at the cursor; the ones that fill in a structure take the
    structure and return it as they leave it, also when they fail. *)

From Stdlib Require Import ZArith Lia Ascii String.
From stdpp Require Import base tactics list numbers.
From S2P Require Import Prelude Cstring Ctype Str Http.

Local Open Scope Z_scope.

Section values.
Context `{HttpEnv}.

(** ** Reserved strings *)

Definition set_string (f : field) (l : option loc) (r : http_request) : http_request :=
  set_strings (fun g => if decide (g = f) then l else strings r g) r.

(** [memmove] and the other stores into the buffer. *)
Definition store (off : Z) (bs : list Z) : HP unit := fun r =>
  if (0 <=? off) && (off + zlen bs <=? zlen (buffer r))
  then Ret (Some (tt, set_buffer (splice off bs (buffer r)) r)) else goes_wrong r.

(** The [len] characters of a substring; reading outside its object is undefined. *)
Definition sub_read (str : substring) : HP (list Z) := fun r =>
  let '(Sub start len) := str in
  let '(object, off) := match start with InBuffer off => (buffer r, off) | OnStack s => (s, 0) end in
  if (0 <=? off) && (0 <=? len) && (off + len <=? zlen object)
  then Ret (Some (slice off len object, r)) else Undef.

Definition _reserve (resp : field) (str : substring) : HP bool :=
  let '(Sub start len) := str in
  cs ← sub_read str;
  nul ← lift (strnchr cs (length cs) 0);
  _ ← assert (match nul with None => true | Some _ => false end);
  let reslim := buffer_size - 1024 in
  r ← get id;
  _ ← assert (reserved r <=? reslim);
  let siz := ptr_bytes + len + 1 in
  if reslim <? reserved r + siz then _ ← modify (set_result 414); mret false
  else if parsed r <? reserved r + siz then _ ← modify (set_result 500); mret false
  else
    let restr := reserved r + ptr_bytes in
    _ ← store restr cs;
    _ ← store (restr + len) [0];
    _ ← modify (set_reserved (reserved r + siz));
    _ ← modify (fun r => if received r <? reserved r then set_received (reserved r) r else r);
    _ ← (r ← get id; assert (received r <=? parsed r));
    _ ← store (reserved r) (pointer_to resp);
    _ ← modify (set_string resp (Some (InBuffer restr)));
    mret true.

Definition _reserve_str (resp : field) (str : list Z) : HP bool :=
  len ← lift (strlen str);
  _reserve resp (Sub (OnStack str) len).

(** The field whose address has been written at [res]. *)
Definition read_pointer (bs : list Z) : outcome field :=
  or_undef (list_find (fun f => pointer_to f = bs) [FPath; FOrigin; FUser; FPassword] ≫= fun x => Some x.2).

(** The end of the string at [res]: where its NUL is. *)
Fixpoint nul_before (res lim : Z) (s : list Z) : outcome Z :=
  if res <? lim then
    match s with
    | [] => Undef
    | c :: s' => if c =? 0 then Ret res else nul_before (res + 1) lim s'
    end
  else Ret res.

Fixpoint release_loop (fuel : nat) (res : Z) : HP Z :=
  r ← get id;
  if res <? reserved r then
    match fuel with
    | O => out_of_fuel
    | S fuel =>
      _ ← assert (res + ptr_bytes + 1 <=? reserved r);
      let restr := res + ptr_bytes in
      bs ← sub_read (Sub (InBuffer res) ptr_bytes);
      resp ← lift (read_pointer bs);
      _ ← assert (match strings r resp with Some (InBuffer off) => off =? restr | _ => false end);
      _ ← modify (set_string resp None);
      res ← lift (nul_before restr (reserved r) (at_offset restr r));
      _ ← assert (res <? reserved r);
      release_loop fuel (res + 1)
    end
  else mret res.
(** Every pass moves past a pointer and a NUL. *)
Definition _release_reserved : HP unit :=
  fuel ← get (fun r => Z.to_nat (reserved r));
  res ← release_loop fuel 0;
  _ ← (r ← get id; assert (res =? reserved r));
  modify (set_reserved 0).

(** ** Ranges *)

(** One pass of the loop of [_parse_ranges]: [None] where it returns 0. *)
Definition _parse_range : HP (option http_range) :=
  b ← _skip_literal (zs "-");
  if b : bool then
    last ← _parse_http_size_t;
    mret (match last with Some last => Some (Range SUFFIX 0 last) | None => None end)
  else
    first ← _parse_http_size_t;
    match first with
    | None => mret None
    | Some first =>
      b ← _skip_literal (zs "-");
      if b : bool then
        last ← _parse_http_size_t;
        mret (match last with
              | Some last => if last <? first then None else Some (Range CLOSED first last)
              | None => Some (Range OPEN first 0)
              end)
      else mret None
    end.
Fixpoint ranges_loop (fuel : nat) (i : Z) (range : list http_range) (nrange : Z) : HP (Z * list http_range) :=
  match fuel with
  | O => out_of_fuel
  | S fuel =>
    x ← _parse_range;
    match x with
    | None => mret (0, range)
    | Some x =>
      let range := if i <? nrange then <[Z.to_nat i := x]> range else range in
      b ← _skip_literal (zs ",");
      if b : bool then _ ← _skip_optional_space; ranges_loop fuel (i + 1) range nrange
      else mret (i + 1, range)
    end
  end.
(** Every pass but the last moves past a comma. *)
Definition _parse_ranges (range : list http_range) (nrange : Z) : HP (Z * list http_range) :=
  s ← ahead; ranges_loop (S (length s)) 0 range nrange.

(** ** Content-Type *)

Definition sizeof_type : Z := 64.
Definition sizeof_boundary : Z := 71.
Definition sizeof_charset : Z := 31.
Definition MIME_FILENAME_MAXLEN : Z := 127.

(** What is left in an array after [new] has been written at its start. *)
Definition overlay (new old : list Z) : list Z := splice 0 new old.

(** [if (_skip_literal(r, name)) ...] *)
Definition on_literal {A} (name : list Z) (yes no : HP A) : HP A :=
  start ← get cursor;
  b ← _skip_literal name;
  if b : bool then yes else _ ← modify (set_cursor start); no.

(** A parameter's value, which is to fit into an array of [siz] bytes: whether it does, and what is
    written into the array. *)
Definition parameter_value (siz : Z) : HP (bool * list Z) :=
  '(n, dst) ← _parse_token_or_quoted_string siz;
  mret (negb (n =? 0) && (n <? siz), dst).

(** [_skip_token(r, &param) && _skip_literal(r, "=") && _parse_token_or_quoted_string(r, NULL, 0)] *)
Definition skip_parameter : HP bool :=
  '(n, _) ← _skip_token;
  if n =? 0 then mret false
  else _skip_literal (zs "=") <&&> ('(n, _) ← _parse_token_or_quoted_string 0; mret (negb (n =? 0))).

(** [_skip_optional_space(r) && _skip_literal(r, ";") && _skip_optional_space(r)] *)
Definition next_parameter : HP bool :=
  _skip_optional_space <&&> _skip_literal (zs ";") <&&> _skip_optional_space.

Fixpoint content_type_loop (fuel : nat) (ct : mime_content_type) : HP (bool * mime_content_type) :=
  match fuel with
  | O => out_of_fuel
  | S fuel =>
    b ← next_parameter;
    if negb b then mret (true, ct) else
    let store (siz : Z) (put : list Z -> mime_content_type) :=
      '(ok, dst) ← parameter_value siz;
      if ok : bool then content_type_loop fuel (put dst) else mret (false, put dst) in
    on_literal (zs "charset=") (store sizeof_charset (fun dst => set_charset (overlay dst (charset ct)) ct)) (
    on_literal (zs "boundary=")
      (store sizeof_boundary (fun dst => set_boundary (overlay dst (multipart_boundary ct)) ct)) (
    on_literal (zs "format=") (store sizeof_charset (fun dst => set_format (overlay dst (ct_format ct)) ct)) (
    b ← skip_parameter;
    if b : bool then content_type_loop fuel ct else mret (false, ct))))
  end.

Definition _parse_content_type (ct : mime_content_type) : HP (bool * mime_content_type) :=
  '(n, dst) ← _parse_token (Some sizeof_type);
  let ct := set_type (overlay dst (ct_type ct)) ct in
  if (n =? 0) || (sizeof_type <=? n) then mret (false, ct) else
  b ← _skip_literal (zs "/");
  if negb b then mret (false, ct) else
  '(n, dst) ← _parse_token (Some sizeof_type);
  let ct := set_subtype (overlay dst (ct_subtype ct)) ct in
  if (n =? 0) || (sizeof_type <=? n) then mret (false, ct) else
  s ← ahead; content_type_loop (S (length s)) ct.

(** ** Authorization *)

Definition _parse_base64 (binsize : Z) : HP (Z * list Z) :=
  src ← get (fun r => at_offset (cursor r) r);
  srclen ← get (fun r => sz (end_ r - cursor r));
  '(n, bin, after) ← lift (base64_decode true binsize src srclen true B64_CONSUME_ALL (Some is_http_space));
  _ ← modify (fun r => set_cursor (zlen (buffer r) - zlen after) r);
  mret (n, bin).

(** The user and the password, as strings on the stack. *)
Definition _parse_authorization_credentials_basic (bufsz : Z) : HP (option (list Z * list Z)) :=
  '(n, buf) ← _parse_base64 (bufsz - 1);
  _ ← assert (n <? bufsz);
  pw ← lift (strnchr buf (Z.to_nat n) (chr ":"));
  mret (match pw with
        | Some (_ :: pw) => Some (take (length buf - S (length pw)) buf ++ [0], pw ++ [0])
        | _ => None
        end).

Definition _parse_authorization (header_bytes : Z) : HP bool :=
  start ← get cursor;
  basic ← (_skip_literal (zs "Basic") <&&> _skip_space);
  if basic : bool then
    let bufsz := 5 + sz (header_bytes * 3) / 4 in
    cred ← _parse_authorization_credentials_basic bufsz;
    match cred with
    | Some (user, password) =>
      _ ← modify (fun r => set_string FUser (Some (OnStack user)) (set_string FPassword (Some (OnStack password)) r));
      _ ← modify (set_auth_scheme BASIC);
      _ ← _commit;
      _reserve_str FUser user <&&> _reserve_str FPassword password
    | None => mret false
    end
  else
  digest ← (_skip_literal (zs "Digest") <&&> _skip_space);
  if digest : bool then _ ← modify (fun r => set_cursor (cursor r + header_bytes) r); mret true
  else
    '(n, _) ← _skip_token;
    _ ← (if n =? 0 then mret false else _skip_space);
    mret false.

(** ** Content-Disposition *)

(** [c[0]] to [c[5]] as the condition reads them: the sign and the digits. *)
Definition time_zone (c : list Z) : outcome (option (Z * Z * Z * Z * Z)) :=
  c0 ← rdn c 0;
  if negb ((c0 =? chr "-") || (c0 =? chr "+")) then Ret None else
  c1 ← rdn c 1; if negb (isdigit c1) then Ret None else
  c2 ← rdn c 2; if negb (isdigit c2) then Ret None else
  c3 ← rdn c 3; if negb (isdigit c3) then Ret None else
  c4 ← rdn c 4; if negb (isdigit c4) then Ret None else
  c5 ← rdn c 5; if negb (c5 =? 0) then Ret None else
  Ret (Some (if c0 =? chr "-" then -1 else 1, c1 - 48, c2 - 48, c3 - 48, c4 - 48)).

Definition _parse_quoted_rfc822_time : HP (option Z) :=
  '(n, datestr) ← _parse_quoted_string (Some 40);
  if (n =? 0) || (40 <=? n) then mret None else
  '(time, c) ← lift (or_undef (strptime datestr));
  tz ← lift (time_zone c);
  mret (match tz with
        | Some (sign, d1, d2, d3, d4) => Some (time - sign * (d1 * 600 + d2 * 60 + d3 * 10 + d4))
        | None => None
        end).

Fixpoint disposition_loop (fuel : nat) (cd : mime_content_disposition) : HP (bool * mime_content_disposition) :=
  match fuel with
  | O => out_of_fuel
  | S fuel =>
    b ← next_parameter;
    if negb b then mret (true, cd) else
    let store (siz : Z) (put : list Z -> mime_content_disposition) :=
      '(ok, dst) ← parameter_value siz;
      if ok : bool then disposition_loop fuel (put dst) else mret (false, put dst) in
    let number (parse : HP (option Z)) (put : Z -> mime_content_disposition) :=
      v ← parse;
      match v with Some v => disposition_loop fuel (put v) | None => mret (false, cd) end in
    on_literal (zs "filename=")
      (store (MIME_FILENAME_MAXLEN + 1) (fun dst => set_filename (overlay dst (filename cd)) cd)) (
    on_literal (zs "name=") (store sizeof_type (fun dst => set_cd_name (overlay dst (cd_name cd)) cd)) (
    on_literal (zs "size=") (number _parse_http_size_t (fun v => set_cd_size v cd)) (
    on_literal (zs "creation-date=") (number _parse_quoted_rfc822_time (fun v => set_creation_date v cd)) (
    on_literal (zs "modification-date=")
      (number _parse_quoted_rfc822_time (fun v => set_modification_date v cd)) (
    on_literal (zs "read-date=") (number _parse_quoted_rfc822_time (fun v => set_read_date v cd)) (
    b ← skip_parameter;
    if b : bool then disposition_loop fuel cd else mret (false, cd)))))))
  end.

Definition _parse_content_disposition (cd : mime_content_disposition) : HP (bool * mime_content_disposition) :=
  '(n, dst) ← _parse_token (Some sizeof_type);
  let cd := set_cd_type (overlay dst (cd_type cd)) cd in
  if (n =? 0) || (sizeof_type <=? n) then mret (false, cd) else
  s ← ahead; disposition_loop (S (length s)) cd.
End values.
