(* ===== verification/HttpParse.v ===== *)
(** * The HTTP request parser: the parsing functions and receiving (http_server.c)

    The functions [r->parser] points to, from the request line to form data.
    They return 0 to be called again or to pass on to the next parser, 100 for
    more text, and the status of a response otherwise.  Then [http_request_receive],
    which calls them, and the functions of ranges. *)

From Stdlib Require Import ZArith Lia Ascii String.
From stdpp Require Import base tactics list numbers.
From S2P Require Import Prelude Cstring Ctype Str Http HttpValues.

Local Open Scope Z_scope.

Section parse.
Context `{HttpEnv}.

(** ** The request line *)

Definition word (v : http_verb) : list Z :=
  zs match v with
     | GET => "GET" | POST => "POST" | PUT => "PUT" | HEAD => "HEAD" | DELETE => "DELETE"
     | TRACE => "TRACE" | OPTIONS => "OPTIONS" | CONNECT => "CONNECT" | PATCH => "PATCH"
     end%string.
Definition http_verbs : list http_verb := [GET; POST; PUT; HEAD; DELETE; TRACE; OPTIONS; CONNECT; PATCH].

(** The loop over the verbs: whether the text ran out. *)
Fixpoint verb_loop (verbs : list http_verb) : HP bool :=
  match verbs with
  | [] => mret false
  | v :: verbs =>
    _ ← _rewind;
    b ← (_skip_literal (word v) <&&> _skip_literal (zs " "));
    if b : bool then _ ← modify (set_verb (Some v)); mret false
    else
      o ← _run_out;
      if o : bool then mret true else verb_loop verbs
  end.

Definition http_request_parse_verb : HP Z :=
  _ ← _rewind;
  _ ← (r ← get id; assert (received r <=? cursor r));
  o ← _run_out;
  _ ← assert (negb o);
  _ ← (r ← get id; assert (match verb r with None => true | _ => false end));
  more ← verb_loop http_verbs;
  if more : bool then mret 100 else
  r ← get id;
  match verb r with
  | None => mret 400
  | Some _ => _ ← _commit; _ ← modify (set_parser (Some ParsePath)); mret 0
  end.

Definition http_request_parse_path : HP Z :=
  _ ← (r ← get id; assert (match strings r FPath with None => true | _ => false end));
  '(n, path) ← _skip_word_printable;
  b ← (if n =? 0 then mret false else _skip_literal (zs " "));
  if negb b then o ← _run_out; mret (if o : bool then 100 else 400) else
  _ ← _commit;
  b ← _reserve FPath path;
  if negb b then mret 0 else
  _ ← modify (set_parser (Some ParseVersion)); mret 0.

(** The numbers of the version, when the line is well formed. *)
Definition version_line : HP (option (Z * Z)) :=
  b ← _skip_literal (zs "HTTP/");
  if negb b then mret None else
  major ← _parse_uint32;
  match major with
  | None => mret None
  | Some major =>
    if negb ((0 <? major) && (major <? UINT8_MAX)) then mret None else
    b ← _skip_literal (zs ".");
    if negb b then mret None else
    minor ← _parse_uint32;
    match minor with
    | None => mret None
    | Some minor =>
      if negb (minor <? UINT8_MAX) then mret None else
      b ← _skip_eol;
      mret (if b : bool then Some (major, minor) else None)
    end
  end.

Definition http_request_parse_http_version : HP Z :=
  _ ← (r ← get id; assert (version_major r =? 0));
  _ ← (r ← get id; assert (version_minor r =? 0));
  v ← version_line;
  match v with
  | None => o ← _run_out; mret (if o : bool then 100 else 400)
  | Some (major, minor) =>
    _ ← _commit;
    _ ← modify (set_major major);
    _ ← modify (set_minor minor);
    _ ← modify (set_parser (Some StartHeaders));
    match handle_first_line with Some handler => handler | None => mret 0 end
  end.

(** [assert(r->verb != NULL); assert(r->path != NULL); assert(r->version_major != 0);] *)
Definition assert_first_line : HP unit :=
  r ← get id;
  assert (match verb r, strings r FPath with Some _, Some _ => negb (version_major r =? 0) | _, _ => false end).

Definition http_request_start_parsing_headers : HP Z :=
  _ ← assert_first_line;
  r ← get id;
  if negb (version_major r =? 1) then mret 400 else
  _ ← modify (set_parser (Some ParseHeader)); mret 0.

(** ** Headers *)

(** [_skip_optional_space(r) && r->cursor == eol] *)
Definition value_ends (eol : Z) : HP bool := _skip_optional_space <&&> get (fun r => cursor r =? eol).
(** [r->cursor = nextline; _commit(r); return 0;] *)
Definition next_line (nextline : Z) : HP Z := _ ← modify (set_cursor nextline); _ ← _commit; mret 0.

Definition blank_line : HP Z :=
  _ ← _commit;
  r ← get id;
  _ ← (if content_length r =? CONTENT_LENGTH_UNKNOWN then mret tt else
       let unparsed := end_ r - parsed r in
       modify (set_remaining (if content_length r <? unparsed then 0 else content_length r - unparsed)));
  _ ← modify (set_parser (Some StartBody));
  match handle_headers with Some handler => handler | None => mret 0 end.

Definition content_length_header (eol nextline : Z) : HP Z :=
  known ← get (fun r => negb (content_length r =? CONTENT_LENGTH_UNKNOWN));
  if known : bool then next_line nextline else
  _ ← _skip_optional_space;
  length ← _parse_http_size_t;
  match length with
  | None => mret 400
  | Some length =>
    b ← value_ends eol;
    if negb b then mret 400 else
    _ ← next_line nextline; _ ← modify (set_content_length length); mret 0
  end.

(** [ct.type[0]] *)
Definition has_type (ct : list Z) : outcome bool := c ← rd ct; Ret (negb (c =? 0)).

Definition content_type_header (eol nextline : Z) : HP Z :=
  ct ← get content_type;
  known ← lift (has_type (ct_type ct));
  if known : bool then next_line nextline else
  _ ← _skip_optional_space;
  '(ok, ct) ← _parse_content_type ct;
  _ ← modify (set_content_type ct);
  b ← (mret ok <&&> value_ends eol);
  if b : bool then next_line nextline else mret 400.

Definition range_header (eol nextline : Z) : HP Z :=
  known ← get (fun r => negb (content_range_count r =? 0));
  if known : bool then next_line nextline else
  _ ← _skip_optional_space;
  b ← _skip_literal (zs "bytes=");
  if negb b then mret 400 else
  ranges ← get content_ranges;
  '(n, ranges) ← _parse_ranges ranges 5;
  _ ← modify (set_ranges ranges);
  b ← (if n =? 0 then mret false else value_ends eol);
  if negb b then mret 400 else
  _ ← next_line nextline;
  _ ← modify (set_range_count (if 5 <? n then 0 else n)); mret 0.

Definition authorization_header (eol nextline : Z) : HP Z :=
  known ← get (fun r => negb (auth_scheme r =? NOAUTH));
  if known : bool then next_line nextline else
  _ ← _skip_optional_space;
  header_bytes ← get (fun r => sz (eol - cursor r));
  b ← (_parse_authorization header_bytes <&&> value_ends eol);
  if b : bool then
    _ ← (r ← get id; assert (negb (auth_scheme r =? NOAUTH)));
    next_line nextline
  else
    code ← get result_code;
    mret (if code =? 0 then 400 else code).

Definition origin_header (eol nextline : Z) : HP Z :=
  known ← get (fun r => match strings r FOrigin with Some _ => true | None => false end);
  if known : bool then next_line nextline else
  _ ← _skip_optional_space;
  '(n, origin) ← _skip_word_printable;
  b ← (if n =? 0 then mret false else value_ends eol);
  if negb b then mret 400 else
  _ ← next_line nextline;
  _ ← _reserve FOrigin origin;
  mret 0.

(** [_rewind(r); if (_skip_literal_nocase(r, name)) ...] *)
Definition on_header (name : list Z) (yes no : HP Z) : HP Z :=
  _ ← _rewind;
  b ← _skip_literal_nocase name;
  if b : bool then yes else no.

Definition http_request_parse_header : HP Z :=
  _ ← _skip_to_eol;
  eol ← get cursor;
  _ ← _skip_eol;
  r ← get id;
  if eol =? parsed r then blank_line else
  nextline ← get cursor;
  on_header (zs "Content-Length:") (content_length_header eol nextline) (
  on_header (zs "Content-Type:") (content_type_header eol nextline) (
  on_header (zs "Range:") (range_header eol nextline) (
  on_header (zs "Authorization:") (authorization_header eol nextline) (
  on_header (zs "Origin:") (origin_header eol nextline) (
  _ ← _rewind;
  next_line nextline))))).

(** ** The body *)

(** [strcmp(array, literal) == 0] *)
Definition string_is (array literal : list Z) : outcome bool :=
  r ← strncmp array (literal ++ [0]) (zlen literal + 1); Ret (r =? 0).

Definition http_request_start_body : HP Z :=
  _ ← assert_first_line;
  r ← get id;
  _ ← assert (parsed r <=? end_ r);
  let ct := content_type r in
  let more := (o ← _run_out; mret (if o : bool then 100 else 0)) in
  match verb r with
  | Some GET =>
    if negb (content_length r =? 0) && negb (content_length r =? CONTENT_LENGTH_UNKNOWN) then mret 400 else
    t ← lift (has_type (ct_type ct));
    if t : bool then mret 400 else
    _ ← modify (set_parser None); more
  | Some POST =>
    if content_length r =? CONTENT_LENGTH_UNKNOWN then mret 411 else
    if content_length r =? 0 then _ ← modify (set_parser (Some RejectContent)); more else
    t ← lift (has_type (ct_type ct));
    if negb t then mret 400 else
    m ← lift (string_is (ct_type ct) (zs "multipart"));
    f ← (if m : bool then lift (string_is (ct_subtype ct) (zs "form-data")) else mret false);
    if f : bool then
      b ← lift (has_type (multipart_boundary ct));
      if negb b then mret 400 else
      _ ← modify (set_parser (Some ParseFormData)); _ ← modify (set_form_state START); more
    else mret 415
  | _ => _ ← modify (set_parser None); mret 501
  end.

Definition http_request_reject_content : HP Z := mret 400.

(** The string in a [char] array. *)
Fixpoint c_string (array : list Z) : outcome (list Z) :=
  match array with
  | [] => Undef
  | c :: a => if c =? 0 then Ret [] else s ← c_string a; Ret (c :: s)
  end.

Definition _skip_mime_boundary : HP Z :=
  boundary ← (ct ← get content_type; lift (c_string (multipart_boundary ct)));
  b ← (_skip_literal (zs "--") <&&> _skip_literal boundary);
  if negb b then mret 0 else
  b ← (_skip_literal (zs "--") <&&> _skip_crlf);
  if b : bool then mret 2 else
  b ← _skip_crlf;
  mret (if b : bool then 1 else 0).

(** [_HANDLER_RESULT] before the code [k], and the calls of handlers; [handler]
    is [None] where the handler is [NULL] or the data is empty. *)
Definition _HANDLER_RESULT (result : Z) (k : HP Z) : HP Z :=
  r ← get id;
  if negb (bool_decide (phase r = RECEIVE)) then mret 1
  else if result =? 0 then k
  else _ ← assert (400 <=? result); _ ← assert (result <? 600); mret result.
Definition _INVOKE_HANDLER (handler : option (HP Z)) (e : mime_event) (k : HP Z) : HP Z :=
  match handler with
  | None => k
  | Some handler =>
    _ ← modify (fun r => set_events (events r ++ [e]) r);
    result ← handler; _HANDLER_RESULT result k
  end.
Definition _INVOKE_HANDLER_BUF_LEN (handler : option (Z -> list Z -> HP Z)) (event : Z -> list Z -> mime_event)
    (start stop : Z) (k : HP Z) : HP Z :=
  if start =? stop then k else
  match handler with
  | None => k
  | Some handler =>
    bs ← sub_read (Sub (InBuffer start) (stop - start));
    _INVOKE_HANDLER (Some (handler start bs)) (event start bs) k
  end.

(** [bzero(&r->part_header, sizeof r->part_header)] *)
Definition zero_content_type : mime_content_type :=
  ContentType (replicate 64 0) (replicate 64 0) (replicate 71 0) (replicate 31 0) (replicate 31 0).
Definition zero_disposition : mime_content_disposition :=
  Disposition (replicate 64 0) (replicate 64 0) (replicate 128 0) 0 0 0 0.

Definition http_request_form_data_start_part (b : Z) : HP Z :=
  let next :=
    if b =? 1 then
      _ ← modify (set_form_state HEADER);
      _ ← modify (set_part_header (PartHeaders 0 zero_content_type zero_disposition));
      _ ← modify (set_part_length 0);
      _ ← modify (fun r => set_part_header (set_ph_length CONTENT_LENGTH_UNKNOWN (part_header r)) r);
      _INVOKE_HANDLER (handle_mime_part_start form_data) MimePartStart (mret 0)
    else _ ← modify (set_form_state EPILOGUE); mret 0 in
  r ← get id;
  match form_data_state r with
  | BODY | HEADER => _INVOKE_HANDLER (handle_mime_part_end form_data) MimePartEnd next
  | _ => next
  end.

(** ** Form data *)

(** The loop of the state PREAMBLE: the place of the boundary and which it is. *)
Fixpoint preamble_loop (fuel : nat) (at_start : bool) : HP (option (Z * Z)) :=
  match fuel with
  | O => out_of_fuel
  | S fuel =>
    go ← (if at_start then mret true else _skip_to_crlf);
    if negb go then mret None else
    end_preamble ← get cursor;
    c ← (if at_start then mret true else _skip_crlf);
    b ← (if c : bool then _skip_mime_boundary else mret 0);
    if negb (b =? 0) then mret (Some (end_preamble, b)) else
    _ ← (if at_start then mret tt else _ ← modify (set_cursor end_preamble); _ ← _skip_any; mret tt);
    preamble_loop fuel false
  end.

(** Every pass but the first moves past a CR. *)
Definition form_preamble (at_start : bool) : HP Z :=
  start ← get parsed;
  s ← ahead;
  found ← preamble_loop (S (S (length s))) at_start;
  match found with
  | Some (end_preamble, b) =>
    _ ← (r ← get id; assert (parsed r <=? end_preamble));
    _INVOKE_HANDLER_BUF_LEN (handle_mime_preamble form_data) MimePreamble start end_preamble (
    _ ← _rewind_crlf;
    _ ← _commit;
    http_request_form_data_start_part b)
  | None =>
    e ← _end_of_content;
    if e : bool then mret 400 else
    _ ← _rewind_optional_cr;
    _ ← _commit;
    r ← get id;
    _ ← assert (start <=? parsed r);
    _INVOKE_HANDLER_BUF_LEN (handle_mime_preamble form_data) MimePreamble start (parsed r) (mret 100)
  end.

(** [_skip_crlf(r)] and then [_rewind_crlf(r); _commit(r); ...; return 0;] *)
Definition header_done (put : http_request -> http_request) (no : HP Z) : HP Z :=
  b ← (_skip_optional_space <&&> _skip_crlf);
  if b : bool then _ ← _rewind_crlf; _ ← _commit; _ ← modify put; mret 0 else no.

Definition set_part_content_length (length : Z) (r : http_request) : http_request :=
  set_part_header (set_ph_length length (part_header r)) r.

(** The headers of a part: [no] is what follows a header that is not understood. *)
Definition part_header_line (labelstr : list Z) (no : HP Z) : HP Z :=
  ph ← get part_header;
  if decide (labelstr = zs "content-length") then
    if negb (ph_length ph =? CONTENT_LENGTH_UNKNOWN) then mret 400 else
    length ← _parse_http_size_t;
    match length with
    | None => no
    | Some length => header_done (set_part_content_length length) no
    end
  else if decide (labelstr = zs "content-type") then
    known ← lift (has_type (ct_type (ph_type ph)));
    if known : bool then mret 400 else
    '(ok, ct) ← _parse_content_type (ph_type ph);
    _ ← modify (fun r => set_part_header (set_ph_type ct (part_header r)) r);
    if ok : bool then header_done id no else no
  else if decide (labelstr = zs "content-disposition") then
    known ← lift (has_type (cd_type (ph_disposition ph)));
    if known : bool then mret 400 else
    '(ok, cd) ← _parse_content_disposition (ph_disposition ph);
    _ ← modify (fun r => set_part_header (set_ph_disposition cd (part_header r)) r);
    if ok : bool then header_done id no else no
  else
    b ← _skip_to_crlf;
    if b : bool then _ ← _commit; mret 0 else no.

Definition form_header : HP Z :=
  b ← _skip_crlf;
  if negb b then
    _ ← _skip_to_crlf;
    _ ← _rewind_optional_cr;
    _ ← (r ← get id; assert (parsed r <? cursor r));
    _ ← _commit; mret 0
  else
  sol ← get cursor;
  b ← _skip_crlf;
  if b : bool then
    _ ← _commit;
    ph ← get part_header;
    _INVOKE_HANDLER (handler ← handle_mime_part_header form_data; Some (handler ph)) (MimePartHeader ph) (
    _ ← modify (set_form_state BODY); mret 0)
  else
  o ← _run_out;
  if o : bool then mret 100 else
  _ ← modify (set_cursor sol);
  b ← _skip_mime_boundary;
  if negb (b =? 0) then _ ← _rewind_crlf; _ ← _commit; http_request_form_data_start_part b else
  o ← _run_out;
  if o : bool then mret 100 else
  _ ← modify (set_cursor sol);
  let unknown :=
    _ ← modify (set_cursor sol);
    full ← _buffer_full;
    if full : bool then
      _ ← _skip_all; _ ← _rewind_optional_cr; _ ← _commit; mret 0
    else
    o ← _run_out;
    mret (if o : bool then 100 else 400) in
  '(n, label) ← _skip_token;
  b ← (if n =? 0 then mret false else _skip_literal (zs ":") <&&> _skip_optional_space);
  if b : bool then
    cs ← sub_read label;
    part_header_line (tolower <$> cs) unknown
  else unknown.

Fixpoint body_loop (fuel : nat) : HP (option (Z * Z)) :=
  match fuel with
  | O => out_of_fuel
  | S fuel =>
    go ← _skip_to_crlf;
    if negb go then mret None else
    end_body ← get cursor;
    _ ← _skip_crlf;
    b ← _skip_mime_boundary;
    if negb (b =? 0) then mret (Some (end_body, b)) else body_loop fuel
  end.

Definition add_part_length (n : Z) (r : http_request) : http_request :=
  set_part_length (u64 (part_body_length r + n)) r.

(** Every pass moves past a CRLF. *)
Definition form_body : HP Z :=
  start ← get parsed;
  s ← ahead;
  found ← body_loop (S (length s));
  match found with
  | Some (end_body, b) =>
    _ ← _rewind_crlf;
    _ ← _commit;
    _ ← assert (start <=? end_body);
    _ ← modify (add_part_length (end_body - start));
    _INVOKE_HANDLER_BUF_LEN (handle_mime_body form_data) MimeBody start end_body (
    http_request_form_data_start_part b)
  | None =>
    e ← _end_of_content;
    if e : bool then mret 400 else
    _ ← _rewind_optional_cr;
    _ ← _commit;
    r ← get id;
    _ ← assert (start <=? parsed r);
    _ ← modify (add_part_length (parsed r - start));
    _INVOKE_HANDLER_BUF_LEN (handle_mime_body form_data) MimeBody start (parsed r) (mret 100)
  end.

Definition form_epilogue : HP Z :=
  _ ← _skip_all;
  r ← get id;
  _ ← assert (parsed r <=? cursor r);
  _INVOKE_HANDLER_BUF_LEN (handle_mime_epilogue form_data) MimeEpilogue (parsed r) (cursor r) (
  _ ← _commit;
  o ← _run_out;
  _ ← assert o;
  e ← _end_of_content;
  mret (if e : bool then 0 else 100)).

Definition http_request_parse_body_form_data : HP Z :=
  state ← get form_data_state;
  match state with
  | START => _ ← modify (set_form_state PREAMBLE); form_preamble true
  | PREAMBLE => form_preamble false
  | HEADER => form_header
  | BODY => form_body
  | EPILOGUE => form_epilogue
  end.

(** Calling [r->parser]. *)
Definition run_parser (p : http_parser) : HP Z :=
  match p with
  | ParseVerb => http_request_parse_verb
  | ParsePath => http_request_parse_path
  | ParseVersion => http_request_parse_http_version
  | StartHeaders => http_request_start_parsing_headers
  | ParseHeader => http_request_parse_header
  | StartBody => http_request_start_body
  | RejectContent => http_request_reject_content
  | ParseFormData => http_request_parse_body_form_data
  end.
End parse.

(** * The HTTP request parser: receiving a request, and ranges (http_server.c)

    [http_request_receive] reads what has arrived into the buffer and runs the
    parsers on it until they need more, the phase changes or there is a result.
    Rendering the response is a parameter; the alarms of the request are left
    out.  [http_range_close] and [http_range_bytes] work on the parsed ranges. *)

Section server.
Context `{HttpEnv}.

(** The caller has cleared the request, but for [idle_timeout] and its handlers. *)
Definition http_request_init (sockfd : Z) : HP unit :=
  _ ← assert (negb (sockfd =? -1));
  _ ← modify (set_content_length CONTENT_LENGTH_UNKNOWN);
  _ ← modify (set_remaining CONTENT_LENGTH_UNKNOWN);
  _ ← assert (0 <=? idle_timeout);
  _ ← modify (set_phase RECEIVE);
  _ ← modify (set_reserved 0);
  _ ← modify (fun r => set_cursor 32 (set_parsed 32 (set_end 32 (set_received 32 r))));
  modify (set_parser (Some ParseVerb)).

(** The descriptor, the alarms and the caller's [finalise] are left out. *)
Definition http_request_finalise : HP unit := modify (set_phase DONE).

(** [http_request_read]: at most [len] of the bytes that have arrived; [None] is -1. *)
Definition http_request_read (len : Z) : HP (option (list Z)) :=
  i ← get input;
  match i with
  | [] => mret (Some [])
  | None :: i => _ ← modify (set_input i); _ ← http_request_finalise; mret None
  | Some bs :: i =>
    let rest := drop (Z.to_nat len) bs in
    _ ← modify (set_input (match rest with [] => i | _ => Some rest :: i end));
    mret (Some (take (Z.to_nat len) bs))
  end.

Fixpoint drain_loop (fuel : nat) : HP unit :=
  match fuel with
  | O => out_of_fuel
  | S fuel =>
    bytes ← http_request_read 8192;
    match bytes with None | Some [] => mret tt | Some _ => drain_loop fuel end
  end.
(** Every read but the last takes a byte. *)
Definition pending (i : list (option (list Z))) : nat := length (concat (default [] <$> i)).
Definition http_request_drain : HP unit :=
  _ ← (r ← get id; assert (bool_decide (phase r = RECEIVE)));
  i ← get input; drain_loop (S (pending i)).

(** Of the response only its code is here. *)
Definition http_request_start_response : HP unit :=
  _ ← (r ← get id; assert (bool_decide (phase r = RECEIVE)));
  _ ← _release_reserved;
  if disable_tx then http_request_finalise else
  _ ← http_request_drain;
  p ← get phase;
  if negb (bool_decide (p = RECEIVE)) then mret tt else
  code ← get result_code;
  _ ← (if (code =? 401) && (www_authenticate =? NOAUTH) then modify (set_result 500) else mret tt);
  ok ← render_response;
  ok ← (if ok : bool then mret true else _ ← modify (set_result 500); render_response);
  if ok : bool then modify (set_phase TRANSMIT) else http_request_finalise.

Definition http_request_simple_response (result : Z) : HP unit :=
  _ ← (r ← get id; assert (bool_decide (phase r = RECEIVE)));
  _ ← modify (set_result (u16 result));
  http_request_start_response.

(** ** Receiving *)

(** [room] limited to the content that is still to come. *)
Definition limit_room (room : Z) (r : http_request) : Z :=
  if negb (request_content_remaining r =? CONTENT_LENGTH_UNKNOWN) && (request_content_remaining r <? room)
  then request_content_remaining r else room.

(** Moving the unparsed text down when there is little room behind it. *)
Definition make_room : HP Z :=
  r ← get id;
  let room := buffer_size - end_ r in
  if negb (request_content_remaining r =? CONTENT_LENGTH_UNKNOWN) && (request_content_remaining r <? room)
  then mret (request_content_remaining r) else
  let spare := parsed r - received r in
  if negb (spare =? 0) && ((room <? 128) || ((room <? 1024) && (32 <=? spare))) then
    let unparsed := end_ r - parsed r in
    bs ← sub_read (Sub (InBuffer (parsed r)) unparsed);
    _ ← store (received r) bs;
    _ ← modify (set_parsed (received r));
    _ ← modify (set_end (received r + unparsed));
    get (fun r => limit_room (buffer_size - end_ r) r)
  else mret room.

(** What follows the result of a parser in a pass of the loop: [true] to go on.
    The branch for -1 is not here: a result of -1 has set the code 500 just before. *)
Definition take_result (result : Z) : HP bool :=
  _ ← (if (200 <=? result) && (result <? 600) then
         _ ← (r ← get id; assert ((result_code r =? 0) || (result_code r =? result)));
         modify (set_result result)
       else if negb (result =? 0) then modify (set_result 500)
       else mret tt);
  code ← get result_code;
  mret (code =? 0).

(** One pass through the loop: [Some true] to go on, [Some false] to leave the
    loop, [None] to return. *)
Definition receive_pass : HP (option bool) :=
  _ ← _rewind;
  e ← _end_of_content;
  if e : bool then
    result ← (match handle_content_end with Some handler => handler | None => mret 500 end);
    b ← take_result result; mret (Some b)
  else
    oldparser ← get parser;
    oldparsed ← get parsed;
    result ← (match oldparser with
              | None => _ ← _skip_all; _ ← _commit; mret 0
              | Some p =>
                result ← run_parser p;
                _ ← (r ← get id; assert (oldparsed <=? parsed r));
                mret result
              end);
    r ← get id;
    if negb (bool_decide (phase r = RECEIVE)) then mret (Some false)
    else if result =? 100 then mret None
    else
      let stuck := (result =? 0) && (parsed r =? oldparsed) && bool_decide (parser r = oldparser) in
      b ← take_result (if stuck then 500 else result); mret (Some b).

(** The loop: whether it was left (not by a return). *)
Fixpoint receive_loop (fuel : nat) : HP bool :=
  p ← get phase;
  if negb (bool_decide (p = RECEIVE)) then mret true else
  match fuel with
  | O => out_of_fuel
  | S fuel =>
    x ← receive_pass;
    match x with
    | Some true => receive_loop fuel
    | Some false => mret true
    | None => mret false
    end
  end.

(** What follows the loop. *)
Definition finish_receive (left : bool) : HP unit :=
  if negb left then mret tt else
  r ← get id;
  if negb (bool_decide (phase r = RECEIVE)) then assert (negb (result_code r =? 0)) else
  _ ← (if result_code r =? 0 then modify (set_result 500) else mret tt);
  http_request_start_response.

Definition http_request_receive (fuel : nat) : HP unit :=
  _ ← (r ← get id; assert (bool_decide (phase r = RECEIVE)));
  _ ← (r ← get id; assert (end_ r <=? buffer_size));
  _ ← (r ← get id; assert (received r <=? parsed r));
  _ ← (r ← get id; assert (parsed r <=? end_ r));
  room ← make_room;
  if room =? 0 then http_request_simple_response 431 else
  _ ← assert (0 <? room);
  _ ← (r ← get id; assert ((request_content_remaining r =? CONTENT_LENGTH_UNKNOWN)
                           || (room <=? request_content_remaining r)));
  bytes ← http_request_read room;
  match bytes with
  | None | Some [] => mret tt
  | Some bs =>
    r ← get id;
    _ ← store (end_ r) bs;
    _ ← assert (zlen bs <=? room);
    _ ← modify (set_end (end_ r + zlen bs));
    _ ← (if request_content_remaining r =? CONTENT_LENGTH_UNKNOWN then mret tt
         else modify (set_remaining (request_content_remaining r - zlen bs)));
    receive_loop fuel ≫= finish_receive
  end.
End server.

(** ** Ranges *)

(** One range of a resource: [None] where the source does not write to [dst]. *)
Definition close_range (resource_length : Z) (range : http_range) : outcome (option http_range) :=
  let last_byte := u64 (resource_length - 1) in
  let open := if rg_first range <? resource_length then rg_first range else resource_length in
  '(first, last) ←
    match rg_type range with
    | CLOSED => Ret (open, if rg_last range <? resource_length then rg_last range else last_byte)
    | OPEN => Ret (open, last_byte)
    | SUFFIX => Ret (if rg_last range <? resource_length then resource_length - rg_last range else 0, last_byte)
    | NIL => Abort
    end;
  Ret (if first <=? last then Some (Range CLOSED first last) else None).

(** [http_range_close]: the ranges it writes at [dst], whose number it returns. *)
Fixpoint http_range_close (src : list http_range) (resource_length : Z) : outcome (list http_range) :=
  match src with
  | [] => Ret []
  | range :: src =>
    x ← close_range resource_length range;
    dst ← http_range_close src resource_length;
    Ret (match x with Some range => range :: dst | None => dst end)
  end.

Fixpoint range_bytes_loop (range : list http_range) (bytes : Z) : outcome Z :=
  match range with
  | [] => Ret bytes
  | x :: range =>
    _ ← cassert (match rg_type x with CLOSED => true | _ => false end);
    _ ← cassert (rg_first x <=? rg_last x);
    range_bytes_loop range (u64 (bytes + (rg_last x - rg_first x + 1)))
  end.
Definition http_range_bytes (range : list http_range) : outcome Z := range_bytes_loop range 0.
