(* ===== verification/HttpWp.v ===== *)
(** * The HTTP request parser: reasoning about its functions

    [wp m Q r]: if [m] returns on the request [r], its result and the request after
    satisfy [Q]; and [m] neither runs out of fuel nor stores outside the buffer.  [keep] and [fwd] are what the lexical
    functions and the parsers of header values leave alone; the second half shows that
    they do. *)

From Stdlib Require Import ZArith Lia Ascii String.
From stdpp Require Import base tactics list.
From S2P Require Import Prelude Cstring Ctype Str Http HttpValues.

Local Open Scope Z_scope.

Create HintDb http.

Definition wp {A} (m : HP A) (Q : A -> http_request -> Prop) (r : http_request) : Prop :=
  match m r with Ret (Some (a, r')) => Q a r' | Ret None => False | _ => True end.

Section wp.
Context {A B : Type}.
Implicit Types (m : HP A) (Q : A -> http_request -> Prop).

Lemma wp_ret (a : A) Q r : Q a r -> wp (mret a) Q r.
Proof. done. Qed.
Lemma wp_bind m (f : A -> HP B) (Q : B -> http_request -> Prop) r : wp m (fun a r' => wp (f a) Q r') r -> wp (m ≫= f) Q r.
Proof. unfold wp, mbind, HP_bind. destruct (m r) as [[[a r']|]| |]; done. Qed.
Lemma wp_mono m Q Q' r : wp m Q r -> (forall a r', Q a r' -> Q' a r') -> wp m Q' r.
Proof. unfold wp. destruct (m r) as [[[a r']|]| |]; auto. Qed.
Lemma wp_get (f : http_request -> A) Q r : Q (f r) r -> wp (get f) Q r.
Proof. done. Qed.
Lemma wp_lift (o : outcome A) Q r : (forall a, o = Ret a -> Q a r) -> wp (lift o) Q r.
Proof. unfold wp, lift. destruct o; simpl; auto. Qed.
Lemma wp_ret_inv m Q r a r' : wp m Q r -> m r = Ret (Some (a, r')) -> Q a r'.
Proof. unfold wp. intros H E. by rewrite E in H. Qed.
Lemma wp_fuel m Q r : wp m Q r -> m r <> Ret None.
Proof. unfold wp. intros H E. by rewrite E in H. Qed.
End wp.

Lemma wp_modify f (Q : unit -> http_request -> Prop) r : Q tt (f r) -> wp (modify f) Q r.
Proof. done. Qed.
Lemma wp_assert b (Q : unit -> http_request -> Prop) r : (b = true -> Q tt r) -> wp (assert b) Q r.
Proof. intros H. apply wp_lift. intros a E. destruct b; [|done]. destruct a. auto. Qed.
Lemma wp_and_then a b (Q : bool -> http_request -> Prop) r :
  wp a (fun x r' => if x : bool then wp b Q r' else Q false r') r -> wp (a <&&> b) Q r.
Proof. intros H. apply wp_bind. eapply wp_mono; [exact H|]. by intros [] r'. Qed.
(** ** What is left alone *)

Record keep (r r' : http_request) : Prop := Keep {
  keep_phase : phase r' = phase r;
  keep_strings : strings r' = strings r;
  keep_parser : parser r' = parser r;
  keep_reserved : reserved r' = reserved r;
  keep_received : received r' = received r;
  keep_end : end_ r' = end_ r;
  keep_parsed : parsed r' = parsed r;
  keep_scheme : auth_scheme r' = auth_scheme r;
  keep_prefix : slice 0 (reserved r) (buffer r') = slice 0 (reserved r) (buffer r);
  keep_size : zlen (buffer r') = zlen (buffer r)
}.
(** Nor does the cursor go back. *)
Record fwd (r r' : http_request) : Prop := Fwd { fwd_keep : keep r r'; fwd_cursor : cursor r <= cursor r' }.

Global Instance keep_preorder : PreOrder keep.
Proof.
  split; [by intros r|]. intros r1 r2 r3 H1 H2. destruct H1, H2.
  assert (reserved r2 = reserved r1) as E by done. rewrite E in *. split; congruence.
Qed.
Global Instance fwd_preorder : PreOrder fwd.
Proof.
  split; [by intros r|]. intros r1 r2 r3 [K1 C1] [K2 C2]. split; [by transitivity r2|lia].
Qed.
#[export] Hint Resolve fwd_keep : http.
#[export] Hint Extern 0 (fwd ?r ?r) => reflexivity : http.
#[export] Hint Extern 0 (keep ?r ?r) => reflexivity : http.

(** Functions that move forwards. *)
Definition moves {A} (m : HP A) : Prop := forall r, wp m (fun _ r' => fwd r r') r.

Lemma wp_moves {A} (m : HP A) Q r : moves m -> (forall a r', fwd r r' -> Q a r') -> wp m Q r.
Proof. intros H HQ. eapply wp_mono; [apply H|]. auto. Qed.

Lemma moves_ret {A} (a : A) : moves (mret a).
Proof. by intros r. Qed.
Lemma moves_bind {A B} (m : HP A) (f : A -> HP B) : moves m -> (forall a, moves (f a)) -> moves (m ≫= f).
Proof.
  intros Hm Hf r. apply wp_bind. eapply wp_moves; [done|]. intros a r1 H1.
  eapply wp_moves; [apply Hf|]. intros b r2 H2. by transitivity r1.
Qed.
Lemma moves_get {A} (f : http_request -> A) : moves (get f).
Proof. by intros r. Qed.
Lemma moves_lift {A} (o : outcome A) : moves (lift o).
Proof. intros r. apply wp_lift. done. Qed.
Lemma moves_modify f : (forall r, fwd r (f r)) -> moves (modify f).
Proof. intros H r. apply H. Qed.
Lemma moves_assert b : moves (assert b).
Proof. apply moves_lift. Qed.
Lemma moves_and_then a b : moves a -> moves b -> moves (a <&&> b).
Proof. intros. apply moves_bind; [done|]. intros []; [done|apply moves_ret]. Qed.

Ltac moves_step :=
  lazymatch goal with
  | |- moves (mret _) => refine (moves_ret _)
  | |- moves (lift _) => refine (moves_lift _)
  | |- moves (assert _) => refine (moves_assert _)
  | |- moves (get _) => refine (moves_get _)
  | |- moves (and_then _ _) => refine (moves_and_then _ _ _ _)
  | |- moves (mbind _ _) => refine (moves_bind _ _ _ _); [|intros ?]
  | |- moves (match ?x with _ => _ end) => destruct x
  | |- moves _ => solve [eauto with http]
  end.
Ltac moves_tac := intros; repeat moves_step.

(** ** The cursor *)

Lemma fwd_set_cursor c r : cursor r <= c -> fwd r (set_cursor c r).
Proof. by split. Qed.
Lemma keep_set_cursor c r : keep r (set_cursor c r).
Proof. by split. Qed.
#[export] Hint Resolve keep_set_cursor : http.

Lemma moves_run_out : moves _run_out.
Proof. intros r. unfold wp, _run_out. destruct (_ <=? _); simpl; [reflexivity|done]. Qed.
Lemma moves_end_of_content : moves _end_of_content.
Proof. apply moves_get. Qed.
Lemma moves_buffer_full : moves _buffer_full.
Proof. apply moves_get. Qed.
#[export] Hint Resolve moves_run_out moves_end_of_content moves_buffer_full : http.

(** [ahead] gives the characters between the cursor and the end. *)
Lemma wp_ahead (Q : list Z -> http_request -> Prop) r :
  (forall s, zlen s = end_ r - cursor r -> 0 <= cursor r -> end_ r <= zlen (buffer r) ->
     s = slice (cursor r) (end_ r - cursor r) (buffer r) -> Q s r) -> wp ahead Q r.
Proof.
  intros H. unfold wp, ahead. destruct (Z.leb_spec (cursor r) (end_ r)); simpl; [|done].
  destruct ((0 <=? cursor r) && (end_ r <=? zlen (buffer r))) eqn:E; simpl; [|done]. bsplit.
  apply H; [|done..]. apply zlen_slice; lia.
Qed.
Lemma moves_ahead : moves ahead.
Proof. intros r. by apply wp_ahead. Qed.
#[export] Hint Resolve moves_ahead : http.

(** A scanner that gives back a suffix, [n] characters shorter at least. *)
Definition shrinks {A} (n : A -> Z) (x : A * list Z) (s : list Z) : Prop := zlen x.2 + n x.1 <= zlen s.

Lemma wp_scan_outcome {A} (f : list Z -> outcome (A * list Z)) (n : A -> Z) r :
  (forall s x, f s = Ret x -> 0 <= n x.1 /\ shrinks n x s) ->
  wp (scan_outcome f) (fun a r' => fwd r r' /\ cursor r + n a <= cursor r' <= end_ r') r.
Proof.
  intros Hf. apply wp_bind, wp_ahead. intros s Hs Hc He _.
  apply wp_bind, wp_lift. intros [a s'] E. destruct (Hf _ _ E) as [Hn Hx]. unfold shrinks in Hx. simpl in *.
  pose proof (zlen_nonneg s'). apply wp_bind, wp_modify, wp_ret. split; [apply fwd_set_cursor|simpl]; lia.
Qed.
Lemma wp_scan {A} (f : list Z -> A * list Z) (n : A -> Z) r :
  (forall s, 0 <= n (f s).1 /\ shrinks n (f s) s) ->
  wp (scan f) (fun a r' => fwd r r' /\ cursor r + n a <= cursor r' <= end_ r') r.
Proof.
  intros Hf. apply wp_bind, wp_ahead. intros s Hs Hc He _.
  destruct (Hf s) as [Hn Hx]. unfold shrinks in Hx. destruct (f s) as [a s']. simpl in *.
  pose proof (zlen_nonneg s'). apply wp_bind, wp_modify, wp_ret. split; [apply fwd_set_cursor|simpl]; lia.
Qed.
Lemma moves_scan {A} (f : list Z -> A * list Z) : (forall s, zlen (f s).2 <= zlen s) -> moves (scan f).
Proof.
  intros H r. eapply wp_mono; [apply (wp_scan _ (fun _ => 0))|by intros a r' [? _]].
  intros s. split; [done|]. unfold shrinks. specialize (H s). lia.
Qed.
Lemma moves_scan_outcome {A} (f : list Z -> outcome (A * list Z)) :
  (forall s x, f s = Ret x -> zlen x.2 <= zlen s) -> moves (scan_outcome f).
Proof.
  intros H r. eapply wp_mono; [apply (wp_scan_outcome _ (fun _ => 0))|by intros a r' [? _]].
  intros s x E. split; [done|]. unfold shrinks. specialize (H s _ E). lia.
Qed.

(** ** The text in view *)

(** [s] is what is between the cursor and the end. *)
Record view (r : http_request) (s : list Z) : Prop := View {
  view_cursor : 0 <= cursor r <= end_ r;
  view_size : end_ r <= zlen (buffer r);
  view_text : slice (cursor r) (end_ r - cursor r) (buffer r) = s
}.
Lemma view_zlen r s : view r s -> zlen s = end_ r - cursor r.
Proof. intros [Hc Hs <-]. apply zlen_slice; lia. Qed.
Lemma ahead_run r s : view r s -> ahead r = Ret (Some (s, r)).
Proof.
  intros [Hc Hs Ht]. unfold ahead. rewrite (proj2 (Z.leb_le (cursor r) (end_ r))) by lia. cbn [cassert mbind outcome_bind].
  rewrite (proj2 (Z.leb_le 0 (cursor r))), (proj2 (Z.leb_le (end_ r) (zlen (buffer r)))) by lia. by rewrite Ht.
Qed.
(** The cursor where a suffix starts. *)
Definition at_suffix (s : list Z) (r : http_request) : http_request := set_cursor (end_ r - zlen s) r.
Lemma view_suffix r s s' : view r s -> s' `suffix_of` s -> view (at_suffix s' r) s'.
Proof.
  intros Hv [p ->]. pose proof (view_zlen _ _ Hv) as Hl. rewrite zlen_app in Hl. destruct Hv as [Hc Hs Ht].
  pose proof (zlen_nonneg p). pose proof (zlen_nonneg s').
  split; simpl; [lia|done|].
  replace (end_ r - cursor r) with (zlen p + zlen s') in Ht by lia. rewrite slice_app_split in Ht by lia.
  apply app_inj_1 in Ht as [_ Ht].
  { replace (end_ r - zlen s') with (cursor r + zlen p) by lia.
    by replace (end_ r - (cursor r + zlen p)) with (zlen s') by lia. }
  assert (zlen (slice (cursor r) (zlen p) (buffer r)) = zlen p) by (apply zlen_slice; lia). unfold zlen in *. lia.
Qed.
Lemma scan_run {A} (f : list Z -> A * list Z) r s :
  view r s -> scan f r = Ret (Some ((f s).1, at_suffix (f s).2 r)).
Proof. intros Hv. unfold scan, mbind, HP_bind. rewrite (ahead_run _ _ Hv). simpl. by destruct (f s). Qed.
Lemma scan_outcome_run {A} (f : list Z -> outcome (A * list Z)) r s a s' :
  view r s -> f s = Ret (a, s') -> scan_outcome f r = Ret (Some (a, at_suffix s' r)).
Proof. intros Hv E. unfold scan_outcome, mbind, HP_bind. rewrite (ahead_run _ _ Hv). unfold lift. simpl. by rewrite E. Qed.
Lemma wp_view {A} (m : HP A) (Q : A -> http_request -> Prop) r (f : list Z -> HP A) :
  m = (s ← ahead; f s) -> (forall s, view r s -> wp m Q r) -> wp m Q r.
Proof.
  intros -> H. apply wp_bind, wp_ahead. intros s Hl Hc He Ht.
  assert (Hv : view r s) by (split; [pose proof (zlen_nonneg s); lia|lia|done]).
  specialize (H s Hv). unfold wp, mbind, HP_bind in H. rewrite (ahead_run _ _ Hv) in H. exact H.
Qed.
Lemma wp_scan_view {A} (f : list Z -> A * list Z) (Q : A -> http_request -> Prop) r :
  (forall s, view r s -> Q (f s).1 (at_suffix (f s).2 r)) -> wp (scan f) Q r.
Proof.
  intros H. eapply wp_view; [done|]. intros s Hv. unfold wp. rewrite (scan_run _ _ _ Hv). auto.
Qed.

(** * The HTTP request parser: lexical functions and header values move forwards

    Every lexical function and every parser of a header value leaves the request
    alone but for the cursor, which does not go back; and the loops over
    parameters and ranges end. *)

(** ** The scanners shorten their text *)

Lemma zlen_tail {A} (x : A) s : zlen s <= zlen (x :: s).
Proof. rewrite zlen_cons. lia. Qed.
Ltac zl := simpl in *; rewrite ?zlen_cons in *; change (zlen (@nil Z)) with 0 in *;
  repeat match goal with s : list Z |- _ => lazymatch goal with H : 0 <= zlen s |- _ => fail | _ => pose proof (zlen_nonneg s) end end;
  lia.

Definition crlf_length (b : bool) : Z := if b then 2 else 0.
Lemma skip_crlf_shrinks s : shrinks crlf_length (skip_crlf s) s.
Proof.
  unfold shrinks, crlf_length. destruct s as [|c s]; [done|]. simpl. destruct (c =? 13); [|zl].
  destruct s as [|d s]; [done|]. destruct (d =? 10); zl.
Qed.
Lemma skip_to_crlf_shrinks s : zlen (skip_to_crlf s).2 <= zlen s.
Proof. induction s as [|c s IH]; [done|]. simpl. destruct (_ && _); simpl; [done|]. zl. Qed.
Lemma skip_eol_shrinks s : forall n, zlen (skip_eol n s).2 <= zlen s.
Proof.
  induction s as [|c s IH]; [done|]. intros n. simpl. pose proof (IH n). pose proof (IH (n + 1)).
  repeat case_match; zl.
Qed.
Lemma zlen_drop_le {A} n (s : list A) : zlen (drop n s) <= zlen s.
Proof. unfold zlen. rewrite length_drop. lia. Qed.
Lemma skip_to_eol_shrinks s : zlen (skip_to_eol s).2 <= zlen s.
Proof.
  unfold skip_to_eol. destruct (find_newline s) as [line [|c rest]]; simpl; [apply zlen_nonneg|apply zlen_drop_le].
Qed.
Definition literal_length (literal : list Z) (b : bool) : Z := if b then zlen literal else 0.
Lemma skip_literal_shrinks f literal : forall s, shrinks (literal_length literal) (skip_literal f literal s) s.
Proof.
  unfold shrinks, literal_length. induction literal as [|l literal IH]; intros [|c s]; simpl; [done|zl|done|].
  destruct (_ =? _); simpl; [|zl]. specialize (IH s). destruct (skip_literal f literal s) as [[] s']; zl.
Qed.
Lemma skip_while_shrinks p s : zlen (skip_while p s) <= zlen s.
Proof. induction s as [|c s IH]; [done|]. simpl. destruct (p c); zl. Qed.
Lemma skip_word_shrinks s x : skip_word_printable s = Ret x -> 0 <= x.1 /\ shrinks id x s.
Proof.
  unfold skip_word_printable, shrinks, id. destruct s as [|c s]; [by intros [= <-]|].
  destruct (negb _); [intros [= <-]; zl|].
  pose proof (skip_while_shrinks word_char s). destruct (skip_while _ s) as [|d s']; [intros [= <-]; zl|].
  destruct (isspace d); simpl; [|done]. intros [= <-]. zl.
Qed.
Lemma skip_token_chars_shrinks s : forall s', skip_token_chars s = Ret s' -> zlen s' <= zlen s.
Proof.
  induction s as [|c s IH]; intros s'; simpl; [by intros [= <-]|].
  destruct (is_http_token c) as [[]| |]; simpl; [|by intros [= <-]|done..]. intros E%IH. zl.
Qed.
Lemma skip_token_shrinks s x : skip_token s = Ret x -> 0 <= x.1 /\ shrinks id x s.
Proof.
  unfold skip_token, shrinks, id. destruct s as [|c s]; [by intros [= <-]|].
  destruct (is_http_token c) as [[]| |]; simpl; [|intros [= <-]; zl|done..].
  destruct (skip_token_chars s) as [s'| |] eqn:E; simpl; [|done..]. apply skip_token_chars_shrinks in E.
  destruct s' as [|d s']; intros [= <-]; zl.
Qed.
Lemma quoted_loop_shrinks siz s : forall slosh len dst, zlen (quoted_loop siz slosh len dst s).2 <= zlen s.
Proof.
  induction s as [|c s IH]; intros slosh len dst; simpl; [done|].
  repeat case_match; simpl; rewrite ?zlen_cons; try lia; etransitivity; try apply IH; lia.
Qed.
Lemma quoted_string_shrinks siz s : zlen (quoted_string siz s).2 <= zlen s.
Proof.
  unfold quoted_string. destruct s as [|c s]; [done|]. destruct (negb _); [done|].
  pose proof (quoted_loop_shrinks siz s false 0 []) as H.
  destruct (quoted_loop siz false 0 [] s) as [[[len|] dst] s']; [destruct s' as [|d s']|]; zl.
Qed.

(** ** Forward moves *)

Lemma moves_skip_any : moves _skip_any.
Proof.
  apply moves_bind; [auto with http|]. intros []; [apply moves_ret|].
  apply moves_bind; [|intros; apply moves_ret]. apply moves_modify. intros r. apply fwd_set_cursor. lia.
Qed.
Lemma moves_skip_crlf : moves _skip_crlf.
Proof. apply moves_scan. intros s. pose proof (skip_crlf_shrinks s) as H. unfold shrinks in H. destruct (skip_crlf s) as [[] ?]; zl. Qed.
Lemma moves_skip_to_crlf : moves _skip_to_crlf.
Proof. apply moves_scan, skip_to_crlf_shrinks. Qed.
Lemma moves_skip_eol : moves _skip_eol.
Proof. apply moves_scan. intros s. apply skip_eol_shrinks. Qed.
Lemma moves_skip_to_eol : moves _skip_to_eol.
Proof. apply moves_scan, skip_to_eol_shrinks. Qed.
Lemma wp_skip_literal literal r :
  wp (_skip_literal literal) (fun b r' => fwd r r' /\ cursor r + literal_length literal b <= cursor r' <= end_ r') r.
Proof.
  apply (wp_scan (skip_literal id literal) (literal_length literal)). intros s. split; [|apply skip_literal_shrinks].
  unfold literal_length. destruct (_.1); [apply zlen_nonneg|done].
Qed.
Lemma moves_skip_literal literal : moves (_skip_literal literal).
Proof. intros r. eapply wp_mono; [apply wp_skip_literal|by intros b r' [? _]]. Qed.
Lemma moves_skip_literal_nocase literal : moves (_skip_literal_nocase literal).
Proof.
  apply moves_scan. intros s. pose proof (skip_literal_shrinks toupper literal s) as H. unfold shrinks, literal_length in H.
  pose proof (zlen_nonneg literal). destruct (skip_literal toupper literal s) as [[] ?]; simpl in *; lia.
Qed.
Lemma wp_skip_optional_space r : wp _skip_optional_space (fun _ r' => fwd r r' /\ cursor r + 0 <= cursor r' <= end_ r') r.
Proof.
  apply (wp_scan _ (fun _ => 0)). intros s. split; [done|]. unfold shrinks. simpl.
  pose proof (skip_while_shrinks is_http_space s). lia.
Qed.
Lemma moves_skip_optional_space : moves _skip_optional_space.
Proof. intros r. eapply wp_mono; [apply wp_skip_optional_space|by intros b r' [? _]]. Qed.
#[export] Hint Resolve moves_skip_any moves_skip_crlf moves_skip_to_crlf moves_skip_eol moves_skip_to_eol
  moves_skip_literal moves_skip_literal_nocase moves_skip_optional_space : http.
Lemma moves_skip_space : moves _skip_space.
Proof. unfold _skip_space. moves_tac. Qed.
Lemma moves_scan_word : moves (scan_outcome skip_word_printable).
Proof. apply moves_scan_outcome. intros s x E. destruct (skip_word_shrinks s x E) as [? H]. unfold shrinks, id in H. lia. Qed.
Lemma moves_scan_token : moves (scan_outcome skip_token).
Proof. apply moves_scan_outcome. intros s x E. destruct (skip_token_shrinks s x E) as [? H]. unfold shrinks, id in H. lia. Qed.
#[export] Hint Resolve moves_skip_space moves_scan_word moves_scan_token : http.
Lemma moves_skip_word_printable : moves _skip_word_printable.
Proof. unfold _skip_word_printable. moves_tac. Qed.
Lemma moves_skip_token : moves _skip_token.
Proof. unfold _skip_token. moves_tac. Qed.
#[export] Hint Resolve moves_skip_word_printable moves_skip_token : http.
Lemma moves_parse_token siz : moves (_parse_token siz).
Proof. unfold _parse_token. moves_tac. Qed.
Lemma moves_parse_quoted_string siz : moves (_parse_quoted_string siz).
Proof. apply moves_scan. intros s. apply quoted_string_shrinks. Qed.
#[export] Hint Resolve moves_parse_token moves_parse_quoted_string : http.
Lemma moves_parse_token_or_quoted_string siz : moves (_parse_token_or_quoted_string siz).
Proof. unfold _parse_token_or_quoted_string. moves_tac. Qed.
#[export] Hint Resolve moves_parse_token_or_quoted_string : http.

(** A number is read from a suffix of what may be read. *)
Lemma uint_loop_shrinks w base bounded s : forall avail v nv v' nv' avail' s',
  uint_loop w base bounded avail v nv s = Ret (v', nv', avail', s') -> zlen s' <= zlen s.
Proof.
  induction s as [|c s IH]; intros avail v nv v' nv' avail' s'; simpl; [destruct bounded; [destruct (0 <? avail)|]|];
    try by intros [= <- <- <- <-].
  set (go := if bounded then _ else _). destruct go as [[]| |]; simpl; [|by intros [= <- <- <- <-]|done..].
  destruct (hexvalue c) as [d| |]; simpl; [|done..].
  destruct (_ || _); [by intros [= <- <- <- <-]|]. destruct (_ <? _); [by intros [= <- <- <- <-]|].
  intros E%IH. zl.
Qed.
Lemma strn_to_uint_shrinks w s n base afterp p : strn_to_uint w s n base afterp = Ret p -> zlen (p_end p) <= zlen s.
Proof.
  unfold strn_to_uint. intros H.
  destruct (cassert (0 <? base)); simpl in H; [|done..]. destruct (cassert (base <=? 16)); simpl in H; [|done..].
  destruct (uint_loop _ _ _ _ _ _ s) as [[[[v nv] av] s']| |] eqn:E; simpl in H; [|done..].
  destruct (if afterp then _ else _); simpl in H; [|done..]. injection H as <-. by eapply uint_loop_shrinks.
Qed.
Lemma moves_parse_number parse :
  (forall s p, parse s = Ret p -> zlen (p_end p) <= zlen s) -> moves (parse_number parse).
Proof.
  intros Hp r. apply wp_bind, wp_ahead. intros s Hs Hc He _. destruct s as [|c s]; [by apply wp_ret|].
  destruct (isdigit c); [|by apply wp_ret].
  apply wp_bind, wp_get, wp_bind, wp_lift. intros p E%Hp. apply wp_bind, wp_modify, wp_ret.
  apply fwd_set_cursor. unfold at_offset, zlen in *. rewrite length_drop in E. zl.
Qed.
Lemma moves_parse_http_size_t : moves _parse_http_size_t.
Proof. apply moves_parse_number. intros s p. apply strn_to_uint_shrinks. Qed.
Lemma moves_parse_uint32 : moves _parse_uint32.
Proof. apply moves_parse_number. intros s p. apply strn_to_uint_shrinks. Qed.
#[export] Hint Resolve moves_parse_http_size_t moves_parse_uint32 : http.

(** ** Header values *)

Section values.
Context {arch : Arch} {henv : HttpEnv}.

Lemma moves_sub_read str : moves (sub_read str).
Proof.
  intros r. unfold wp, sub_read. destruct str as [[off|s] len]; destruct (_ && _); simpl; done || reflexivity.
Qed.

(** The room a loop has left, which every pass makes smaller. *)
Definition room (r : http_request) : nat := Z.to_nat (end_ r - cursor r).
Lemma room_fwd r r' : fwd r r' -> (room r' <= room r)%nat.
Proof. intros [[] Hc]. unfold room. lia. Qed.
Lemma room_less r r' : fwd r r' -> cursor r < cursor r' <= end_ r' -> (room r' < room r)%nat.
Proof. intros [[] _] Hc. unfold room. lia. Qed.

(** Reached from [r0], with room for fewer than [n] passes. *)
Definition within (r0 : http_request) (n : nat) (r : http_request) : Prop := fwd r0 r /\ (room r < n)%nat.
Lemma within_fwd r0 n r r' : within r0 n r -> fwd r r' -> within r0 n r'.
Proof. intros [H1 H2] H. split; [by transitivity r|]. pose proof (room_fwd r r' H). lia. Qed.

Lemma wp_on_literal {A} name (yes no : HP A) Q r r0 n :
  within r0 n r -> (forall r', within r0 n r' -> wp yes Q r') -> (forall r', within r0 n r' -> wp no Q r') ->
  wp (on_literal name yes no) Q r.
Proof.
  intros Hr Hy Hn. apply wp_bind, wp_get, wp_bind. eapply wp_moves; [auto with http|].
  intros [] r' Hr'; [by eapply Hy, within_fwd|].
  apply wp_bind, wp_modify, Hn. eapply within_fwd; [exact Hr|].
  split; [|simpl; lia]. transitivity r'; auto with http.
Qed.

Lemma wp_next_parameter r : wp next_parameter (fun b r' => fwd r r' /\ (b = true -> cursor r < cursor r' <= end_ r')) r.
Proof.
  apply wp_and_then. eapply wp_moves; [auto with http|]. intros [] r1 H1; [|done].
  apply wp_and_then. eapply wp_mono; [apply wp_skip_literal|]. intros b r2 [H2 Hc].
  assert (H12 : fwd r r2) by (by transitivity r1). destruct b; [|done].
  eapply wp_mono; [apply wp_skip_optional_space|]. intros b r3 [H3 ?]. split; [by transitivity r2|].
  intros _. destruct H1, H3. change (literal_length (zs ";") true) with 1 in Hc. lia.
Qed.
Lemma moves_skip_parameter : moves skip_parameter.
Proof. unfold skip_parameter. moves_tac. Qed.
Lemma moves_parameter_value siz : moves (parameter_value siz).
Proof. unfold parameter_value. moves_tac. Qed.
Hint Resolve moves_sub_read moves_skip_parameter moves_parameter_value : http.

(** The loops over parameters. *)
Definition loops {S} (loop : nat -> S -> HP (bool * S)) (fuel : nat) : Prop :=
  forall x r r0, within r0 fuel r -> wp (loop fuel x) (fun _ r' => fwd r0 r') r.
Lemma loops_store {S} (loop : nat -> S -> HP (bool * S)) fuel siz put r r0 :
  loops loop fuel -> within r0 fuel r ->
  wp ('(ok, dst) ← parameter_value siz; if ok : bool then loop fuel (put dst) else mret (false, put dst))
    (fun _ r' => fwd r0 r') r.
Proof.
  intros IH H0. apply wp_bind. eapply wp_moves; [auto with http|]. intros [[] dst] r1 H1.
  - eapply IH, within_fwd; done.
  - by eapply within_fwd.
Qed.
Lemma loops_number {S} (loop : nat -> S -> HP (bool * S)) fuel x (parse : HP (option Z)) put r r0 :
  loops loop fuel -> moves parse -> within r0 fuel r ->
  wp (v ← parse; match v with Some v => loop fuel (put v) | None => mret (false, x) end) (fun _ r' => fwd r0 r') r.
Proof.
  intros IH Hp H0. apply wp_bind. eapply wp_moves; [exact Hp|]. intros [v|] r1 H1.
  - eapply IH, within_fwd; done.
  - by eapply within_fwd.
Qed.
Lemma loops_skip {S} (loop : nat -> S -> HP (bool * S)) fuel (x : S) r r0 :
  loops loop fuel -> within r0 fuel r ->
  wp (b ← skip_parameter; if b : bool then loop fuel x else mret (false, x)) (fun _ r' => fwd r0 r') r.
Proof.
  intros IH H0. apply wp_bind. eapply wp_moves; [auto with http|]. intros [] r1 H1.
  - eapply IH, within_fwd; done.
  - by eapply within_fwd.
Qed.
Lemma loops_step {S} fuel (x : S) (k : HP (bool * S)) r r0 :
  within r0 (Datatypes.S fuel) r -> (forall r1, within r0 fuel r1 -> wp k (fun _ r' => fwd r0 r') r1) ->
  wp (b ← next_parameter; if negb b then mret (true, x) else k) (fun _ r' => fwd r0 r') r.
Proof.
  intros Hr Hk. apply wp_bind. eapply wp_mono; [apply wp_next_parameter|]. intros [] r1 [H1 Hc]; simpl.
  - apply Hk. destruct Hr. split; [by transitivity r|]. pose proof (room_less r r1 H1 (Hc eq_refl)). lia.
  - by eapply within_fwd.
Qed.
Ltac loops_tac :=
  intros ? ? ? ?; simpl; eapply loops_step; [eassumption|]; intros ? ?;
  repeat (eapply wp_on_literal; [eassumption|intros ? ?|intros ? ?];
    [first [ eapply loops_store; eassumption | eapply loops_number; [eassumption|auto with http|eassumption]]|]);
  eapply loops_skip; eassumption.

Lemma content_type_loops fuel : loops content_type_loop fuel.
Proof. induction fuel as [|fuel IH]; [intros ? ? ? [_ ?]; lia|]. loops_tac. Qed.

Lemma moves_time_zone_value : moves _parse_quoted_rfc822_time.
Proof. unfold _parse_quoted_rfc822_time. moves_tac. Qed.
Hint Resolve moves_time_zone_value : http.
Lemma disposition_loops fuel : loops disposition_loop fuel.
Proof. induction fuel as [|fuel IH]; [intros ? ? ? [_ ?]; lia|]. loops_tac. Qed.

(** The fuel of the loops is what is ahead, and one more. *)
Lemma moves_loop {S} (loop : nat -> S -> HP (bool * S)) x :
  (forall fuel, loops loop fuel) -> moves (s ← ahead; loop (Datatypes.S (length s)) x).
Proof.
  intros Hl r. apply wp_bind, wp_ahead. intros s Hs _ _ _. apply Hl. split; [done|].
  unfold room, zlen in *. lia.
Qed.
Lemma moves_parse_content_type ct : moves (_parse_content_type ct).
Proof. unfold _parse_content_type. repeat first [apply moves_loop, content_type_loops | moves_step]. Qed.
Lemma moves_parse_content_disposition cd : moves (_parse_content_disposition cd).
Proof. unfold _parse_content_disposition. repeat first [apply moves_loop, disposition_loops | moves_step]. Qed.

Lemma moves_parse_range : moves _parse_range.
Proof. unfold _parse_range. moves_tac. Qed.
Hint Resolve moves_parse_range : http.
Lemma ranges_loop_ends fuel : forall i range nrange r r0,
  within r0 fuel r -> wp (ranges_loop fuel i range nrange) (fun _ r' => fwd r0 r') r.
Proof.
  induction fuel as [|fuel IH]; intros i range nrange r r0 Hr; [destruct Hr; lia|]. cbn [ranges_loop].
  apply wp_bind. eapply wp_moves; [auto with http|]. intros [x|] r1 H1; [|by eapply within_fwd].
  pose proof (within_fwd _ _ _ _ Hr H1) as Hr1.
  apply wp_bind. eapply wp_mono; [apply wp_skip_literal|]. intros [] r2 [H2 Hc]; [|by eapply within_fwd].
  change (literal_length (zs ",") true) with 1 in Hc. pose proof (room_less r1 r2 H2 ltac:(lia)).
  apply wp_bind. eapply wp_moves; [auto with http|]. intros _ r3 H3. apply IH.
  eapply within_fwd; [|exact H3]. destruct Hr1. split; [by transitivity r1|lia].
Qed.
Lemma moves_parse_ranges range nrange : moves (_parse_ranges range nrange).
Proof.
  intros r. apply wp_bind, wp_ahead. intros s Hs _ _ _. apply ranges_loop_ends. split; [done|].
  unfold room, zlen in *. lia.
Qed.

(** Base64 leaves a suffix, or gives back from the first pad on. *)
Lemma b64_body_pads isd isp tod skip dst siz flags st c s n :
  b64_body isd isp tod skip dst siz flags st (c :: s) = Ret n ->
  match n with
  | BContinue st' => b_first_pad st' = b_first_pad st \/ b_first_pad st' = Some (c :: s)
  | BBreak _ s' => s' = c :: s \/ b_first_pad st = Some s'
  end.
Proof.
  unfold b64_body. simpl. destruct (isd c) as [d| |]; simpl; [|done..].
  destruct (negb d && _ && _); [intros [= <-]; auto|].
  destruct (b_pads st <=? 2); simpl; [|done]. destruct (b_pads st =? 2); [intros [= <-]; auto|].
  destruct (b_pads st =? 1).
  - destruct (_ =? 3); [intros [= <-]; auto|]. destruct (_ =? 2); simpl; [|done].
    destruct (isp c); [intros [= <-]; auto|]. destruct (b_first_pad st); [|done]. intros [= <-]; auto.
  - destruct (b_pads st =? 0); simpl; [|done]. destruct (_ && _); [intros [= <-]; auto|].
    destruct (negb d); [intros [= <-]; auto|]. destruct (dst && _).
    + destruct (tod c); simpl; [|done..]. intros [= <-]. left. unfold b64_store. by repeat case_match.
    + destruct (negb _); intros [= <-]; auto.
Qed.
Lemma b64_loop_shrinks isd isp tod skip dst siz unb flags (s0 s : list Z) : forall avail st st' s',
  zlen s <= zlen s0 -> (forall fp, b_first_pad st = Some fp -> zlen fp <= zlen s0) ->
  b64_loop isd isp tod skip dst siz unb flags avail st s = Ret (st', s') -> zlen s' <= zlen s0.
Proof.
  induction s as [|c s IH]; intros avail st st' s' Hs Hfp.
  { simpl. destruct (_ || _); [done|]. by intros [= <- <-]. }
  cbn [b64_loop]. destruct (_ || _); [|by intros [= <- <-]].
  destruct (b64_body _ _ _ _ _ _ _ st (c :: s)) as [n| |] eqn:E; cbn [mbind outcome_bind]; [|done..].
  apply b64_body_pads in E. destruct n as [st1|st1 s1].
  - apply IH; [rewrite zlen_cons in Hs; lia|]. intros fp Hfp1. destruct E as [E|E]; rewrite E in Hfp1; [auto|].
    by injection Hfp1 as <-.
  - intros [= <- <-]. destruct E as [->|E]; auto.
Qed.
Lemma moves_parse_base64 siz : moves (_parse_base64 siz).
Proof.
  intros r. apply wp_bind, wp_get, wp_bind, wp_get, wp_bind, wp_lift. intros [[n bin] after] E.
  apply wp_bind, wp_modify, wp_ret, fwd_set_cursor.
  unfold base64_decode, _base64_decode in E. destruct (b64_loop _ _ _ _ _ _ _ _ _ _ _) as [[st s']| |] eqn:El; simpl in E; [|done..].
  injection E as <- <- <-. destruct (at_offset (cursor r) r) as [|c s] eqn:Es.
  { simpl in El. assert (0 <= sz (end_ r - cursor r)) by (apply Z.mod_pos_bound; pose proof SIZE_MAX_ge; lia).
    destruct (Z.eqb_spec (sz (end_ r - cursor r)) 0); simpl in El; [done|].
    destruct (Z.ltb_spec 0 (sz (end_ r - cursor r))); simpl in El; [done|lia]. }
  apply b64_loop_shrinks with (s0 := at_offset (cursor r) r) in El; [|by rewrite Es|done].
  pose proof (f_equal length Es) as Hl. unfold at_offset in *. rewrite length_drop in Hl. simpl in Hl.
  unfold zlen in *. rewrite length_drop in El. lia.
Qed.
Hint Resolve moves_parse_base64 : http.
Lemma moves_credentials siz : moves (_parse_authorization_credentials_basic siz).
Proof. unfold _parse_authorization_credentials_basic. moves_tac. Qed.
End values.
#[export] Hint Resolve moves_sub_read moves_skip_parameter moves_parameter_value moves_time_zone_value
  moves_parse_content_type moves_parse_content_disposition moves_parse_ranges moves_parse_base64
  moves_credentials : http.
