(* ===== verification/HttpReserve.v ===== *)
(** * The HTTP request parser: the reserved strings and the invariant

    [reserves es r]: the start of the buffer of [r] holds the strings [es], each
    behind the address of the field that points to it.  [_reserve] adds one,
    [_release_reserved] takes them all away; [request_ok] is the invariant of the
    request while it is received, [busy] the state while a parser runs. *)

From Stdlib Require Import ZArith Lia Ascii String.
From stdpp Require Import base tactics list.
From S2P Require Import Prelude Cstring Ctype Str Http HttpValues HttpWp HttpParse.

Local Open Scope Z_scope.

(** ** Lists *)

Lemma splice_splice_after {A} off (a b l : list A) :
  0 <= off -> off + zlen a + zlen b <= zlen l -> splice (off + zlen a) b (splice off a l) = splice off (a ++ b) l.
Proof.
  unfold zlen. intros H1 H2. unfold splice.
  rewrite !drop_app, !take_app, !length_app, !length_take.
  replace (Z.to_nat (off + Z.of_nat (length a)) - (Z.to_nat off `min` length l))%nat with (length a) by lia.
  rewrite (take_ge (take (Z.to_nat off) l)) by (rewrite length_take; lia).
  rewrite <- !app_assoc. f_equal. rewrite Nat.sub_diag, take_0, (take_ge a), app_nil_l by done. f_equal. f_equal.
  rewrite (drop_ge (take _ l)) by (rewrite length_take; lia). rewrite (drop_ge a) by lia. simpl.
  rewrite drop_drop. f_equal. lia.
Qed.
Lemma splice_splice_before {A} off (a b l : list A) :
  0 <= off -> off + zlen a + zlen b <= zlen l -> splice off a (splice (off + zlen a) b l) = splice off (a ++ b) l.
Proof.
  unfold zlen. intros H1 H2. unfold splice.
  rewrite take_app_le by (rewrite length_take; lia).
  rewrite drop_app_length' by (rewrite length_take; lia).
  rewrite take_take, length_app, <- app_assoc. f_equal; [f_equal; lia|]. do 2 f_equal. f_equal. lia.
Qed.

Lemma slice_splice_grow {A} off (new l : list A) :
  0 <= off -> off + zlen new <= zlen l -> slice 0 (off + zlen new) (splice off new l) = slice 0 off l ++ new.
Proof.
  intros H1 H2. rewrite slice_app_split by (pose proof (zlen_nonneg new); lia).
  rewrite slice_splice_before, (slice_splice_same off) by lia. done.
Qed.

Lemma slice_at {A} off (x l : list A) : slice off (zlen x) l = x -> exists rest, drop (Z.to_nat off) l = x ++ rest.
Proof. unfold slice. intros E. exists (drop (Z.to_nat (zlen x)) (drop (Z.to_nat off) l)). etransitivity; [symmetry; apply (take_drop (Z.to_nat (zlen x)))|by f_equal]. Qed.

Lemma strnchr_no_nul s : no_nul s -> strnchr s (length s) 0 = Ret None.
Proof. induction 1 as [|c s Hc _ IH]; [done|]. simpl. destruct (Z.eqb_spec c 0); [done|]. exact IH. Qed.
Lemma strnchr_none_nul s : strnchr s (length s) 0 = Ret None -> no_nul s.
Proof.
  induction s as [|c s IH]; [constructor|]. simpl. destruct (Z.eqb_spec c 0); [done|]. intros E. constructor; [done|]. by apply IH.
Qed.
Lemma no_nul_dec s : {no_nul s} + {~ no_nul s}.
Proof. apply (decide (no_nul s)). Qed.

(** ** The invariant *)

Section reserve.
Context {arch : Arch} {henv : HttpEnv}.

Definition reslim : Z := buffer_size - 1024.

(** A string behind the address of the field that points to it. *)
Definition entry (e : field * list Z) : list Z := pointer_to e.1 ++ e.2 ++ [0].
Definition entry_size (s : list Z) : Z := ptr_bytes + zlen s + 1.

Fixpoint points (off : Z) (es : list (field * list Z)) (str : field -> option loc) : Prop :=
  match es with
  | [] => True
  | (f, s) :: es => str f = Some (InBuffer (off + ptr_bytes)) /\ points (off + entry_size s) es str
  end.

Record reserves (es : list (field * list Z)) (r : http_request) : Prop := Reserves {
  res_bytes : slice 0 (reserved r) (buffer r) = concat (entry <$> es);
  res_no_nul : Forall (fun e => no_nul e.2) es;
  res_once : NoDup es.*1;
  res_points : points 0 es (strings r);
  res_auth : auth_scheme r = NOAUTH -> (FUser ∉ es.*1) /\ (FPassword ∉ es.*1)
}.

Record request_ok (r : http_request) : Prop := RequestOk {
  ok_size : zlen (buffer r) = buffer_size;
  ok_order : 0 <= reserved r <= received r /\ received r <= parsed r <= end_ r /\ end_ r <= buffer_size;
  ok_limit : reserved r <= reslim;
  ok_strings : exists es, reserves es r
}.

(** The addresses of the fields are pointers, and different. *)
Class PointersOk : Prop := {
  pointer_size f : zlen (pointer_to f) = ptr_bytes;
  pointer_inj f g : pointer_to f = pointer_to g -> f = g
}.
Context `{!PointersOk}.

Lemma ptr_pos : 4 <= ptr_bytes <= 8.
Proof. destruct ptr_bytes_spec; lia. Qed.
Lemma zlen_entry f s : zlen (entry (f, s)) = entry_size s.
Proof. unfold entry, entry_size. rewrite !zlen_app, pointer_size. simpl. change (zlen [0]) with 1. lia. Qed.
Lemma entry_size_pos s : ptr_bytes < entry_size s.
Proof. unfold entry_size. pose proof (zlen_nonneg s). lia. Qed.

Lemma points_app off es es' str :
  points off (es ++ es') str <-> points off es str /\ points (off + zlen (concat (entry <$> es))) es' str.
Proof.
  revert off. induction es as [|[f s] es IH]; intros off; simpl.
  - change (zlen []) with 0. rewrite Z.add_0_r. tauto.
  - rewrite IH, zlen_app, zlen_entry, Z.add_assoc. tauto.
Qed.
Lemma points_ext off es str str' :
  (forall f, f ∈ es.*1 -> str' f = str f) -> points off es str -> points off es str'.
Proof.
  revert off. induction es as [|[f s] es IH]; intros off Hf; simpl; [done|]. intros [H1 H2]. split.
  - rewrite Hf; [done|]. simpl. by left.
  - apply IH; [|done]. intros g Hg. apply Hf. simpl. by right.
Qed.
Lemma points_some off es str f : points off es str -> f ∈ es.*1 -> is_Some (str f).
Proof.
  revert off. induction es as [|[g s] es IH]; intros off; simpl; [by intros _ ?%elem_of_nil|].
  intros [H1 H2] [->|Hf]%elem_of_cons; [by rewrite H1|]. by eapply IH.
Qed.

Lemma reserved_size es r : request_ok r -> reserves es r -> reserved r = zlen (concat (entry <$> es)).
Proof.
  intros [] [Hb]. rewrite <- Hb. rewrite zlen_slice; [done|lia|lia|]. lia.
Qed.

Lemma reserves_keep es r r' : keep r r' -> reserves es r -> reserves es r'.
Proof.
  intros K [Hb ? ? ? ?]. split; [|done|done| |].
  - by rewrite (keep_reserved _ _ K), (keep_prefix _ _ K).
  - by rewrite (keep_strings _ _ K).
  - by rewrite (keep_scheme _ _ K).
Qed.
Lemma request_ok_keep r r' : keep r r' -> request_ok r -> request_ok r'.
Proof.
  intros K [Hs Ho Hl [es Hes]]. pose proof (reserves_keep _ _ _ K Hes). destruct K.
  split; [congruence|lia|lia|eauto].
Qed.

(** ** Reserving *)

(** The request after [_reserve] has succeeded. *)
Definition with_string (f : field) (s : list Z) (r : http_request) : http_request :=
  set_string f (Some (InBuffer (reserved r + ptr_bytes)))
    (set_buffer (splice (reserved r) (entry (f, s)) (buffer r))
      (set_received (Z.max (received r) (reserved r + entry_size s)) (set_reserved (reserved r + entry_size s) r))).

Definition reserve_result (f : field) (s : list Z) (r : http_request) : bool * http_request :=
  if reslim <? reserved r + entry_size s then (false, set_result 414 r)
  else if parsed r <? reserved r + entry_size s then (false, set_result 500 r)
  else (true, with_string f s r).

Lemma store_at off bs r : 0 <= off -> off + zlen bs <= zlen (buffer r) ->
  store off bs r = Ret (Some (tt, set_buffer (splice off bs (buffer r)) r)).
Proof.
  intros H1 H2. unfold store. by rewrite (proj2 (Z.leb_le _ _) H1), (proj2 (Z.leb_le _ _) H2).
Qed.

Lemma reserve_run f start len s r :
  request_ok r -> sub_read (Sub start len) r = Ret (Some (s, r)) -> zlen s = len -> no_nul s ->
  _reserve f (Sub start len) r = Ret (Some (reserve_result f s r)).
Proof.
  intros [Hsz Ho Hl _] Hrd Hlen Hnn. pose proof ptr_pos. unfold _reserve.
  unfold mbind, HP_bind. rewrite Hrd. cbn [mbind outcome_bind].
  unfold lift. rewrite (strnchr_no_nul s Hnn). cbn [mbind outcome_bind].
  unfold assert, lift, get, modify, mret, HP_ret, id. cbn [cassert mbind outcome_bind].
  fold reslim. rewrite (proj2 (Z.leb_le _ _) Hl). cbn [cassert mbind outcome_bind].
  unfold reserve_result, entry_size. rewrite Hlen, !Z.add_assoc.
  destruct (Z.ltb_spec reslim (reserved r + ptr_bytes + len + 1)); [done|].
  destruct (Z.ltb_spec (parsed r) (reserved r + ptr_bytes + len + 1)) as [|Hroom]; [done|].
  assert (0 <= len) by (subst; apply zlen_nonneg).
  rewrite (store_at _ s) by (simpl; lia). cbn [mbind outcome_bind buffer set_buffer].
  rewrite (store_at _ [0]) by (simpl; rewrite ?zlen_splice; change (zlen [0]) with 1; lia).
  set (sz := reserved r + ptr_bytes + len + 1) in *. cbn -[Z.add Z.mul splice]. fold sz.
  assert (Hb : splice (reserved r) (pointer_to f)
      (splice (reserved r + ptr_bytes + len) [0] (splice (reserved r + ptr_bytes) s (buffer r)))
    = splice (reserved r) (entry (f, s)) (buffer r)).
  { subst len. rewrite splice_splice_after by (change (zlen [0]) with 1; lia).
    rewrite <- (pointer_size f) at 1. unfold entry. simpl.
    rewrite splice_splice_before; [done|lia|]. rewrite pointer_size, zlen_app. change (zlen [0]) with 1. lia. }
  assert (Hmax : (if received r <? sz then sz else received r) = Z.max (received r) sz) by (zcase; lia).
  assert (Hpar : (Z.max (received r) sz <=? parsed r) = true) by (apply Z.leb_le; lia).
  unfold with_string, entry_size. rewrite Hlen, !Z.add_assoc. fold sz.
  rewrite <- Hb, <- Hmax. rewrite <- Hmax in Hpar. clear Hmax.
  destruct (received r <? sz); cbn -[Z.add Z.mul splice]; rewrite Hpar; cbn -[Z.add Z.mul splice];
    (rewrite store_at; [done|lia|]); cbn -[Z.add Z.mul splice]; rewrite !zlen_splice, pointer_size;
    rewrite ?zlen_splice; change (zlen [0]) with 1; lia.
Qed.

Lemma with_string_reserves es f s r :
  request_ok r -> reserves es r -> no_nul s -> (f ∉ es.*1) -> reserved r + entry_size s <= end_ r ->
  (f = FUser \/ f = FPassword -> auth_scheme r <> NOAUTH) ->
  reserves (es ++ [(f, s)]) (with_string f s r).
Proof.
  intros Hok Hes Hnn Hf Hfit Hauth. pose proof (reserved_size _ _ Hok Hes) as Hres. destruct Hok as [Hsz Ho _ _], Hes as [Hb Hn Hd Hp Ha].
  split.
  - cbn -[splice slice]. rewrite <- (zlen_entry f), slice_splice_grow by (rewrite ?zlen_entry; lia).
    rewrite Hb, fmap_app, concat_app. simpl. by rewrite app_nil_r.
  - apply Forall_app. split; [done|]. by repeat constructor.
  - rewrite fmap_app. apply NoDup_app. split; [done|]. simpl. split; [|apply NoDup_singleton].
    intros g Hg ->%list_elem_of_singleton. done.
  - cbn -[splice]. apply points_app. split.
    + eapply points_ext; [|exact Hp]. intros g Hg. by destruct (decide (g = f)) as [->|].
    + rewrite Z.add_0_l, <- Hres. simpl. by rewrite decide_True.
  - intros Hs. cbn in Hs. rewrite fmap_app. destruct (Ha Hs). split; intros [|Hg%list_elem_of_singleton]%elem_of_app; try done;
      (apply Hauth; [|done]); simpl in Hg; subst; auto.
Qed.

Lemma with_string_ok f s r es :
  request_ok r -> reserves es r -> no_nul s -> (f ∉ es.*1) -> reserved r + entry_size s <= Z.min reslim (parsed r) ->
  (f = FUser \/ f = FPassword -> auth_scheme r <> NOAUTH) ->
  request_ok (with_string f s r).
Proof.
  intros Hok Hes Hnn Hf Hfit Hauth.
  assert (Hr : reserves (es ++ [(f, s)]) (with_string f s r)) by (apply with_string_reserves; auto; destruct Hok; lia).
  destruct Hok as [Hsz Ho Hl _]. pose proof (entry_size_pos s). pose proof ptr_pos.
  split; [|cbn; lia|cbn; lia|eauto].
  cbn -[splice]. rewrite zlen_splice; rewrite ?zlen_entry; lia.
Qed.

(** ** Releasing *)

(** [r'] is [r] with the pointers to the strings [es] reset. *)
Definition forgets (es : list (field * list Z)) (r r' : http_request) : Prop :=
  r' = set_strings (strings r') r /\ forall f, strings r' f = if decide (f ∈ es.*1) then None else strings r f.

Lemma read_pointer_to f : read_pointer (pointer_to f) = Ret f.
Proof.
  unfold read_pointer. destruct (list_find _ _) as [[i g]|] eqn:E; simpl.
  - apply list_find_Some in E as (_ & Hg & _). by apply pointer_inj in Hg as ->.
  - apply list_find_None in E. rewrite Forall_forall in E. exfalso. apply (E f); [|done].
    destruct f; rewrite !elem_of_cons; auto.
Qed.

Lemma nul_before_run s : forall res lim rest, no_nul s -> res + zlen s < lim ->
  nul_before res lim (s ++ 0 :: rest) = Ret (res + zlen s).
Proof.
  induction s as [|c s IH]; intros res lim rest Hs Hl.
  - change (zlen []) with 0 in *. simpl. rewrite (proj2 (Z.ltb_lt _ _)) by lia. by rewrite Z.add_0_r.
  - rewrite zlen_cons in *. apply Forall_cons in Hs as [Hc Hs]. simpl.
    rewrite (proj2 (Z.ltb_lt _ _)) by (pose proof (zlen_nonneg s); lia).
    destruct (Z.eqb_spec c 0); [done|]. rewrite IH by (done || lia). f_equal. lia.
Qed.

Lemma release_loop_run es : forall fuel off r,
  0 <= off -> reserved r <= zlen (buffer r) -> off + zlen (concat (entry <$> es)) = reserved r ->
  slice off (zlen (concat (entry <$> es))) (buffer r) = concat (entry <$> es) ->
  Forall (fun e => no_nul e.2) es -> NoDup es.*1 -> points off es (strings r) -> (length es <= fuel)%nat ->
  exists r', release_loop fuel off r = Ret (Some (reserved r, r')) /\ forgets es r r'.
Proof.
  induction es as [|[f s] es IH]; intros fuel off r Hoff Hsz Hres Hbytes Hnn Hdup Hp Hfuel.
  { change (zlen _) with 0 in Hres. exists r. assert (E : (off <? reserved r) = false) by (apply Z.ltb_ge; lia).
    assert (Hloop : release_loop fuel off r = Ret (Some (off, r))).
    { destruct fuel; simpl; unfold mbind, HP_bind, get, id; simpl; by rewrite E. }
    rewrite Hloop. split; [do 3 f_equal; lia|]. by destruct r. }
  destruct fuel as [|fuel]; [simpl in Hfuel; lia|].
  destruct Hp as [Hpf Hp]. apply Forall_cons in Hnn as [Hs Hnn]. rewrite fmap_cons in Hdup. apply NoDup_cons in Hdup as [Hf Hdup]. cbn [fst snd] in Hf, Hs.
  pose proof ptr_pos. pose proof (zlen_nonneg s). pose proof (entry_size_pos s).
  rewrite fmap_cons in Hres, Hbytes. cbn [concat] in Hres, Hbytes. fold (concat (A := Z)) in *.
  rewrite zlen_app, zlen_entry in Hres. set (tail := concat (entry <$> es)) in *. pose proof (zlen_nonneg tail).
  destruct (slice_at _ _ _ Hbytes) as [rest Hd].
  assert (Hptr : slice off ptr_bytes (buffer r) = pointer_to f).
  { unfold slice. rewrite Hd. unfold entry. cbn [fst snd]. rewrite <- !app_assoc, take_app_length'; [done|].
    pose proof (pointer_size f). unfold zlen in *. lia. }
  assert (Hstr : at_offset (off + ptr_bytes) r = s ++ 0 :: tail ++ rest).
  { unfold at_offset. rewrite Z2Nat.inj_add, <- drop_drop, Hd by lia. unfold entry. cbn [fst snd]. rewrite <- !app_assoc.
    rewrite drop_app_length'; [done|]. pose proof (pointer_size f). unfold zlen in *. lia. }
  assert (Htail : slice (off + entry_size s) (zlen tail) (buffer r) = tail).
  { rewrite zlen_app, slice_app_split in Hbytes by (rewrite ?zlen_entry; pose proof (entry_size_pos s); lia).
    rewrite zlen_entry in Hbytes. apply app_inj_1 in Hbytes; [tauto|].
    pose proof (zlen_entry f s) as He. pose proof (entry_size_pos s).
    assert (zlen (slice off (entry_size s) (buffer r)) = entry_size s) by (apply zlen_slice; lia). unfold zlen in *. lia. }
  destruct (IH fuel (off + entry_size s) (set_string f None r)) as (r' & Hloop & Hr' & Hstrs); try done; try (simpl; lia).
  { eapply points_ext; [|exact Hp]. intros g Hg. simpl. by destruct (decide (g = f)) as [->|]. }
  { simpl in Hfuel. lia. }
  exists r'. split.
  - unfold entry_size in *. simpl. unfold mbind at 1, HP_bind at 1, get at 1, id. simpl.
    rewrite (proj2 (Z.ltb_lt off (reserved r))) by lia. unfold assert, lift, modify, mret, HP_ret.
    unfold mbind, HP_bind, sub_read. rewrite (proj2 (Z.leb_le (off + ptr_bytes + 1) _)) by lia. cbn [cassert mbind outcome_bind].
    rewrite (proj2 (Z.leb_le 0 off)), (proj2 (Z.leb_le 0 ptr_bytes)), (proj2 (Z.leb_le _ (zlen (buffer r)))) by lia.
    cbn [andb mbind outcome_bind]. rewrite Hptr, read_pointer_to. cbn [mbind outcome_bind].
    rewrite Hpf, Z.eqb_refl. cbn [cassert mbind outcome_bind].
    rewrite Hstr. rewrite nul_before_run by (done || lia). cbn [mbind outcome_bind].
    simpl reserved. rewrite (proj2 (Z.ltb_lt _ (reserved r))) by lia. cbn [cassert mbind outcome_bind].
    rewrite !Z.add_assoc in Hloop. exact Hloop.
  - split; [exact Hr'|]. intros g. rewrite Hstrs, fmap_cons. cbn [fst strings set_string set_strings].
    destruct (decide (g = f)) as [->|Hg].
    + rewrite (decide_True (P := f ∈ f :: es.*1)) by (by left). by destruct (decide _).
    + destruct (decide (g ∈ es.*1)); [rewrite decide_True by (by right); done|].
      rewrite decide_False; [done|]. by intros [?|?]%elem_of_cons.
Qed.

Lemma entries_length es : Z.of_nat (length es) <= zlen (concat (entry <$> es)).
Proof.
  induction es as [|[f s] es IH]; [done|]. rewrite fmap_cons. cbn [concat length]. fold (concat (A := Z)).
  rewrite zlen_app, zlen_entry. pose proof (entry_size_pos s). pose proof ptr_pos. lia.
Qed.

Lemma release_run es r : request_ok r -> reserves es r ->
  exists r', _release_reserved r = Ret (Some (tt, set_reserved 0 r')) /\ forgets es r r'.
Proof.
  intros Hok Hes. pose proof (reserved_size _ _ Hok Hes) as Hres. pose proof (entries_length es).
  destruct Hok as [Hsz Ho _ _], Hes as [Hb Hn Hd Hp _].
  destruct (release_loop_run es (Z.to_nat (reserved r)) 0 r) as (r' & Hloop & Hr'); try done; try lia.
  { by rewrite <- Hres. }
  exists r'. split; [|done]. destruct Hr' as [Hr' _]. unfold _release_reserved, mbind, HP_bind, get. cbn [mbind outcome_bind].
  rewrite Hloop. cbn [mbind outcome_bind].
  assert (E : reserved r' = reserved r) by (by rewrite Hr').
  unfold id, assert, lift, modify. rewrite E, Z.eqb_refl. done.
Qed.
End reserve.

(** * The HTTP request parser: the invariant of a request

    Every parser keeps [request_ok], leaves the end of the text where it is, and
    stays or goes on to a later parser ([rank]). *)

Section inv.
Context {arch : Arch} {henv : HttpEnv} {pok : PointersOk}.

(** ** While a parser runs *)

(** The state in a parser that has been called on [r0]. *)
Record busy (r0 r : http_request) : Prop := Busy {
  busy_ok : request_ok r;
  busy_end : end_ r = end_ r0;
  busy_parser : parser r = parser r0;
  busy_phase : phase r = RECEIVE
}.
(** The cursor has not gone back behind the parsed text. *)
Definition ahead_of (r : http_request) : Prop := parsed r <= cursor r.

Lemma busy_keep r0 r r' : busy r0 r -> keep r r' -> busy r0 r'.
Proof.
  intros [Hok He Hp Hph] K. split; [by eapply request_ok_keep| | |]; destruct K; congruence.
Qed.
Lemma ahead_fwd r r' : ahead_of r -> fwd r r' -> ahead_of r'.
Proof. unfold ahead_of. intros H [[] Hc]. lia. Qed.

(** [wp_after]: [m] moves forwards and its result is not looked at. *)
Lemma wp_busy {A} r0 (m : HP A) (Q : A -> http_request -> Prop) r :
  moves m -> busy r0 r -> ahead_of r ->
  (forall a r', busy r0 r' -> ahead_of r' -> fwd r r' -> Q a r') -> wp m Q r.
Proof.
  intros Hm Hb Ha HQ. eapply wp_moves; [done|]. intros a r' Hf.
  apply HQ; [eapply busy_keep; eauto with http|by eapply ahead_fwd|done].
Qed.

Lemma wp_rewind r0 (Q : unit -> http_request -> Prop) r :
  busy r0 r -> (forall r', busy r0 r' -> ahead_of r' -> keep r r' -> cursor r' = parsed r -> Q tt r') -> wp _rewind Q r.
Proof.
  intros Hb HQ. apply wp_bind, wp_bind, wp_get, wp_assert. intros _. apply wp_modify, HQ; auto with http.
  - eapply busy_keep; [done|apply keep_set_cursor].
  - unfold ahead_of. simpl. lia.
Qed.

Lemma reserves_same es r r' :
  reserved r' = reserved r -> buffer r' = buffer r -> strings r' = strings r -> auth_scheme r' = auth_scheme r ->
  reserves es r -> reserves es r'.
Proof. intros E1 E2 E3 E4 []. split; rewrite ?E1, ?E2, ?E3, ?E4; assumption. Qed.

Lemma request_ok_same r r' :
  buffer r' = buffer r -> reserved r' = reserved r -> received r' = received r -> end_ r' = end_ r ->
  parsed r' = parsed r -> strings r' = strings r -> auth_scheme r' = auth_scheme r -> request_ok r -> request_ok r'.
Proof.
  intros E1 E2 E3 E4 E5 E6 E7 [Hs Ho Hl (es & Hes)]. split; [by rewrite E1|lia|lia|].
  exists es. by eapply reserves_same.
Qed.

(** [_commit] where the cursor is not behind. *)
Lemma wp_commit r0 (Q : unit -> http_request -> Prop) r :
  busy r0 r -> ahead_of r -> (busy r0 (set_parsed (cursor r) r) -> Q tt (set_parsed (cursor r) r)) -> wp _commit Q r.
Proof.
  intros [[Hsz Ho Hl [es Hes]] He Hp Hph] Ha HQ. unfold ahead_of in Ha.
  apply wp_bind, wp_bind, wp_get, wp_assert. intros Hc. unfold id in Hc. apply Z.leb_le in Hc. apply wp_modify, HQ.
  split; [|done..]. split; [done|simpl; lia|done|]. exists es. by apply (reserves_same es r).
Qed.

(** ** Reserving *)

(** Strings are reserved for none of [fs]. *)
Definition fresh (fs : list field) (r : http_request) : Prop :=
  exists es, reserves es r /\ forall f, f ∈ fs -> f ∉ es.*1.

Lemma fresh_null r f : request_ok r -> strings r f = None -> fresh [f] r.
Proof.
  intros [_ _ _ [es Hes]] Hf. exists es. split; [done|]. intros g ->%list_elem_of_singleton Hg.
  destruct (points_some _ _ _ _ (res_points _ _ Hes) Hg) as [l E]. congruence.
Qed.
Lemma fresh_same fs r r' :
  reserved r' = reserved r -> buffer r' = buffer r -> strings r' = strings r -> auth_scheme r' = auth_scheme r ->
  fresh fs r -> fresh fs r'.
Proof. intros E1 E2 E3 E4 (es & Hes & Hf). exists es. split; [by apply (reserves_same es r)|done]. Qed.
Lemma fresh_keep fs r r' : keep r r' -> fresh fs r -> fresh fs r'.
Proof. intros K (es & Hes & Hf). exists es. split; [by eapply reserves_keep|done]. Qed.

Lemma sub_read_inv start len r s r' : sub_read (Sub start len) r = Ret (Some (s, r')) -> r' = r /\ zlen s = len.
Proof.
  unfold sub_read. destruct start as [off|l]; destruct (_ && _) eqn:E; simpl; try done; bsplit; intros [= <- <-];
    (split; [done|apply zlen_slice; lia]).
Qed.

Lemma keep_set_result x r : keep r (set_result x r).
Proof. by split. Qed.

Lemma wp_reserve r0 f fs str (Q : bool -> http_request -> Prop) r :
  busy r0 r -> fresh (f :: fs) r -> (f ∉ fs) -> (f = FUser \/ f = FPassword -> auth_scheme r <> NOAUTH) ->
  (forall b r', busy r0 r' -> fresh fs r' -> parsed r' = parsed r -> cursor r' = cursor r ->
     auth_scheme r' = auth_scheme r -> Q b r') ->
  wp (_reserve f str) Q r.
Proof.
  intros Hb (es & Hes & Hfr) Hff Hauth HQ. pose proof (busy_ok _ _ Hb) as Hok. destruct str as [start len].
  destruct (sub_read (Sub start len) r) as [[[s r']|]| |] eqn:Hrd.
  3,4: unfold wp, _reserve, mbind, HP_bind; by rewrite Hrd.
  2: { unfold sub_read in Hrd. destruct start; by destruct (_ && _). }
  destruct (sub_read_inv _ _ _ _ _ Hrd) as [-> Hlen].
  destruct (no_nul_dec s) as [Hnn|Hnn].
  - unfold wp. rewrite (reserve_run f start len s r) by done. unfold reserve_result.
    assert (Hf : f ∉ es.*1) by (apply Hfr; by left).
    assert (Hfs : fresh fs r) by (exists es; split; [done|]; intros g Hg; apply Hfr; by right).
    destruct (Z.ltb_spec reslim (reserved r + entry_size s)); [|destruct (Z.ltb_spec (parsed r) (reserved r + entry_size s))].
    + apply HQ; try done; [eapply busy_keep; [done|apply keep_set_result]|by apply (fresh_keep _ r), Hfs; apply keep_set_result].
    + apply HQ; try done; [eapply busy_keep; [done|apply keep_set_result]|by apply (fresh_keep _ r), Hfs; apply keep_set_result].
    + apply HQ; try done.
      * destruct Hb. split; [|done..]. eapply with_string_ok; try done; lia.
      * exists (es ++ [(f, s)]). split.
        -- apply with_string_reserves; try done. destruct Hok; lia.
        -- intros g Hg. rewrite fmap_app. intros [Hg'|Hg'%list_elem_of_singleton]%elem_of_app.
           ++ by apply (Hfr g); [right|].
           ++ simpl in Hg'. by subst.
  - apply wp_bind. unfold wp at 1. rewrite Hrd. apply wp_bind, wp_lift. intros nul E.
    apply wp_bind, wp_assert. intros E'. destruct nul; [done|]. by apply strnchr_none_nul in E.
Qed.
End inv.
