(* ===== verification/HttpKeeps.v ===== *)
(** * The HTTP request parser: receiving keeps the invariant and ends

    [parsed_to r0 r]: unless it has stopped receiving, the parser called on [r0]
    leaves a request that satisfies the invariant, with the same end of text, and
    the same or a later parser.  The handlers are to leave alone what they do
    not own.  First the parsers of the head, then those of form data, then the loop
    of [http_request_receive]. *)

From Stdlib Require Import ZArith Lia Ascii String.
From stdpp Require Import base tactics list.
From S2P Require Import Prelude Cstring Ctype Str Http HttpValues HttpParse HttpWp HttpReserve.

Local Open Scope Z_scope.

(** What a handler leaves alone while the request is received. *)
Definition handler_ok `{HttpEnv} (h : HP Z) : Prop :=
  forall r, request_ok r -> phase r = RECEIVE ->
    wp h (fun _ r' => phase r' = RECEIVE -> keep r r' /\ cursor r' = cursor r) r.

Class HandlersOk `{HttpEnv} : Prop := {
  first_line_ok h : handle_first_line = Some h -> handler_ok h;
  headers_ok h : handle_headers = Some h -> handler_ok h;
  content_end_ok h : handle_content_end = Some h -> handler_ok h;
  mime_preamble_ok h off bs : handle_mime_preamble form_data = Some h -> handler_ok (h off bs);
  mime_part_start_ok h : handle_mime_part_start form_data = Some h -> handler_ok h;
  mime_part_header_ok h ph : handle_mime_part_header form_data = Some h -> handler_ok (h ph);
  mime_body_ok h off bs : handle_mime_body form_data = Some h -> handler_ok (h off bs);
  mime_part_end_ok h : handle_mime_part_end form_data = Some h -> handler_ok h;
  mime_epilogue_ok h off bs : handle_mime_epilogue form_data = Some h -> handler_ok (h off bs);
  (** The end of the content is answered, or it is an error. *)
  content_end_answers h r : handle_content_end = Some h -> request_ok r -> phase r = RECEIVE ->
    wp h (fun result r' => phase r' = RECEIVE -> result <> 0) r;
  render_ends r : wp render_response (fun _ _ => True) r
}.

Definition rank (p : option http_parser) : Z :=
  match p with
  | Some ParseVerb => 0 | Some ParsePath => 1 | Some ParseVersion => 2 | Some StartHeaders => 3
  | Some ParseHeader => 4 | Some StartBody => 5 | Some RejectContent => 6 | Some ParseFormData => 6 | None => 7
  end.

Section keeps.
Context {arch : Arch} {henv : HttpEnv} {pok : PointersOk} {hok : HandlersOk}.

Definition parsed_to (r0 r : http_request) : Prop :=
  phase r = RECEIVE ->
  request_ok r /\ end_ r = end_ r0 /\ (parser r = parser r0 \/ rank (parser r0) < rank (parser r)).

Lemma parsed_to_busy r0 r : busy r0 r -> parsed_to r0 r.
Proof. intros [] _. auto. Qed.
Hint Resolve parsed_to_busy : http.
Lemma busy_next r0 p r : busy r0 r -> request_ok (set_parser p r).
Proof. intros Hb. by apply (request_ok_same r), (busy_ok r0). Qed.
Lemma parsed_to_next r0 p r : busy r0 r -> rank (parser r0) < rank p -> parsed_to r0 (set_parser p r).
Proof. intros Hb Hp _. split; [by eapply busy_next|]. destruct Hb. auto. Qed.

Lemma wp_handler h r0 r : handler_ok h -> parsed_to r0 r -> phase r = RECEIVE -> wp h (fun _ r' => parsed_to r0 r') r.
Proof.
  intros Hh Hp Hph. destruct (Hp Hph) as (Hok & He & Hpar). eapply wp_mono; [by apply Hh|].
  intros z r' H Hph'. destruct (H Hph') as [K _]. split; [by eapply request_ok_keep|]. destruct K. split; [congruence|].
  rewrite keep_parser. auto.
Qed.

(** Stores that do not concern the invariant. *)
Lemma wp_set r0 f (Q : unit -> http_request -> Prop) r :
  (forall r, keep r (f r)) -> (forall r, cursor (f r) = cursor r) -> busy r0 r -> ahead_of r ->
  (forall r', busy r0 r' -> ahead_of r' -> keep r r' -> Q tt r') -> wp (modify f) Q r.
Proof.
  intros Hk Hc Hb Ha HQ. apply wp_modify, HQ; [by eapply busy_keep| |done].
  unfold ahead_of in *. rewrite Hc. destruct (Hk r). lia.
Qed.

(** ** The request line *)

Ltac same := intros; by split.
Ltac go := eapply wp_busy; [solve [eauto with http]|eassumption|eassumption|].

Lemma verb_loop_ends r0 verbs : forall r (Q : bool -> http_request -> Prop), busy r0 r -> ahead_of r ->
  (forall b r', busy r0 r' -> ahead_of r' -> Q b r') -> wp (verb_loop verbs) Q r.
Proof.
  induction verbs as [|v verbs IH]; intros r Q Hb Ha HQ; [by apply HQ|]. cbn [verb_loop].
  apply wp_bind. eapply wp_rewind; [exact Hb|]. intros r1 Hb1 Ha1 _ _.
  apply wp_bind. eapply wp_busy; [apply moves_and_then; auto with http|done..|]. intros [] r2 Hb2 Ha2 _.
  - apply wp_bind. eapply wp_set; [same|done|done..|]. intros r3 Hb3 Ha3 _. by apply HQ.
  - apply wp_bind. go. intros [] r3 Hb3 Ha3 _; [by apply HQ|by apply IH].
Qed.

Lemma verb_keeps r0 : busy r0 r0 -> ahead_of r0 -> parser r0 = Some ParseVerb ->
  wp http_request_parse_verb (fun _ r => parsed_to r0 r) r0.
Proof.
  intros Hb Ha Hp. unfold http_request_parse_verb.
  apply wp_bind. eapply wp_rewind; [done|]. intros r1 Hb1 Ha1 _ _.
  apply wp_bind, wp_bind, wp_get, wp_assert. intros _.
  apply wp_bind. go. intros o r2 Hb2 Ha2 _.
  apply wp_bind, wp_assert. intros _. apply wp_bind, wp_bind, wp_get, wp_assert. intros _.
  apply wp_bind. eapply verb_loop_ends; [done..|]. intros [] r3 Hb3 Ha3; [by apply parsed_to_busy|].
  apply wp_bind, wp_get. destruct (verb (id r3)); [|by apply parsed_to_busy].
  apply wp_bind. eapply wp_commit; [done..|]. intros Hb4. apply wp_bind, wp_modify, wp_ret.
  eapply parsed_to_next; [done|]. by rewrite Hp.
Qed.

Lemma path_keeps r0 : busy r0 r0 -> ahead_of r0 -> parser r0 = Some ParsePath ->
  wp http_request_parse_path (fun _ r => parsed_to r0 r) r0.
Proof.
  intros Hb Ha Hp. unfold http_request_parse_path.
  apply wp_bind, wp_bind, wp_get, wp_assert. intros Hnull. unfold id in Hnull.
  assert (Hf : fresh [FPath] r0). { apply fresh_null; [by destruct Hb|]. by destruct (strings r0 FPath). }
  apply wp_bind. go. intros [n path] r1 Hb1 Ha1 F1.
  apply wp_bind. eapply wp_busy; [destruct (n =? 0); [apply moves_ret|auto with http]|done..|]. intros [] r2 Hb2 Ha2 F2; simpl.
  - apply wp_bind. eapply wp_commit; [done..|]. intros Hb3. apply wp_bind.
    eapply (wp_reserve r0 FPath []); [done| |apply not_elem_of_nil|by intros []|].
    { eapply (fresh_same _ r2); try done. eapply fresh_keep; [|exact Hf]. apply fwd_keep. by transitivity r1. }
    intros [] r4 Hb4 _ _ _ _; [|by apply parsed_to_busy].
    apply wp_bind, wp_modify, wp_ret. eapply parsed_to_next; [done|]. by rewrite Hp.
  - apply wp_bind. go. intros [] r3 Hb3 Ha3 _; by apply parsed_to_busy.
Qed.

Lemma moves_version_line : moves version_line.
Proof. unfold version_line. moves_tac. Qed.
Lemma version_keeps r0 : busy r0 r0 -> ahead_of r0 -> parser r0 = Some ParseVersion ->
  wp http_request_parse_http_version (fun _ r => parsed_to r0 r) r0.
Proof.
  intros Hb Ha Hp. unfold http_request_parse_http_version.
  do 2 (apply wp_bind, wp_bind, wp_get, wp_assert; intros _).
  apply wp_bind. eapply wp_busy; [apply moves_version_line|done..|]. intros [[major minor]|] r1 Hb1 Ha1 _.
  - apply wp_bind. eapply wp_commit; [done..|]. intros Hb2.
    apply wp_bind, wp_modify, wp_bind, wp_modify, wp_bind, wp_modify.
    set (r2 := set_minor _ _). assert (Hb3 : busy r0 r2) by (eapply busy_keep; [exact Hb2|same]).
    assert (Hn : parsed_to r0 (set_parser (Some StartHeaders) r2)) by (eapply parsed_to_next; [done|by rewrite Hp]).
    destruct handle_first_line as [h|] eqn:E; [|done].
    apply wp_handler; [by apply first_line_ok|done|by destruct Hb3].
  - apply wp_bind. go. intros [] r3 Hb3 Ha3 _; by apply parsed_to_busy.
Qed.

Lemma start_headers_keeps r0 : busy r0 r0 -> ahead_of r0 -> parser r0 = Some StartHeaders ->
  wp http_request_start_parsing_headers (fun _ r => parsed_to r0 r) r0.
Proof.
  intros Hb Ha Hp. unfold http_request_start_parsing_headers.
  apply wp_bind, wp_bind, wp_get, wp_assert. intros _. apply wp_bind, wp_get.
  destruct (negb _); [by apply parsed_to_busy|].
  apply wp_bind, wp_modify, wp_ret. eapply parsed_to_next; [done|]. by rewrite Hp.
Qed.

(** ** Headers *)

Section headers.
Variables (r0 : http_request) (eol nextline : Z).
Hypothesis Hlines : eol <= nextline.

(** In a header line that ends at [eol]. *)
Definition line (r : http_request) : Prop := busy r0 r /\ ahead_of r /\ parsed r <= nextline.
Lemma line_fwd r r' : line r -> fwd r r' -> line r'.
Proof.
  intros (Hb & Ha & Hn) F. split_and!; [eapply busy_keep; eauto with http|by eapply ahead_fwd|].
  destruct F as [[] _]. congruence.
Qed.
Lemma wp_line {A} (m : HP A) (Q : A -> http_request -> Prop) r :
  moves m -> line r -> (forall a r', line r' -> fwd r r' -> Q a r') -> wp m Q r.
Proof. intros Hm Hl HQ. eapply wp_moves; [done|]. intros a r' F. apply HQ; [by eapply line_fwd|done]. Qed.

Lemma wp_next_line (Q : Z -> http_request -> Prop) r : line r ->
  (forall r', r' = set_parsed nextline (set_cursor nextline r) -> busy r0 r' -> ahead_of r' -> Q 0 r') ->
  wp (next_line nextline) Q r.
Proof.
  intros (Hb & Ha & Hn) HQ. apply wp_bind, wp_modify, wp_bind.
  eapply wp_commit; [eapply busy_keep; [exact Hb|apply keep_set_cursor]|done|].
  intros Hb1. apply wp_ret, HQ; [done|done|]. unfold ahead_of. simpl. lia.
Qed.
Lemma next_line_keeps r : line r -> wp (next_line nextline) (fun _ r => parsed_to r0 r) r.
Proof. intros Hl. eapply wp_next_line; [done|]. intros r' _ Hb _. by apply parsed_to_busy. Qed.

Lemma wp_value_ends (Q : bool -> http_request -> Prop) r : line r ->
  (forall b r', line r' -> fwd r r' -> Q b r') -> wp (value_ends eol) Q r.
Proof. intros Hl HQ. eapply wp_line; [unfold value_ends; moves_tac|done|done]. Qed.

Ltac step := eapply wp_line; [solve [eauto with http]|eassumption|].
Ltac bad := apply parsed_to_busy; match goal with H : line _ |- _ => by destruct H end.

(** A store into the request that does not concern the invariant. *)
Lemma wp_line_set f (Q : unit -> http_request -> Prop) r :
  (forall r, keep r (f r)) -> (forall r, cursor (f r) = cursor r) -> line r ->
  (forall r', line r' -> fwd r r' -> Q tt r') -> wp (modify f) Q r.
Proof. intros Hk Hc Hl HQ. eapply wp_line; [apply moves_modify; intros x; split; [done|by rewrite Hc]|done|]. intros [] r' ?. by apply HQ. Qed.
Lemma content_length_keeps r : line r -> wp (content_length_header eol nextline) (fun _ r => parsed_to r0 r) r.
Proof.
  intros Hl. apply wp_bind, wp_get. destruct (negb _); [by apply next_line_keeps|].
  apply wp_bind. step. intros _ r1 L1 _. apply wp_bind. step. intros [length|] r2 L2 _; [|apply wp_ret; bad].
  apply wp_bind. apply wp_value_ends; [done|]. intros [] r3 L3 _; [|apply wp_ret; bad]. simpl.
  apply wp_bind. eapply wp_next_line; [done|]. intros r4 _ Hb4 _. apply wp_bind, wp_modify, wp_ret.
  apply parsed_to_busy. eapply busy_keep; [exact Hb4|same].
Qed.

Lemma content_type_keeps r : line r -> wp (content_type_header eol nextline) (fun _ r => parsed_to r0 r) r.
Proof.
  intros Hl. apply wp_bind, wp_get, wp_bind, wp_lift. intros [] _; [by apply next_line_keeps|].
  apply wp_bind. step. intros _ r1 L1 _. apply wp_bind. step. intros [ok ct] r2 L2 _.
  apply wp_bind. eapply wp_line_set; [same|done|done|]. intros r3 L3 _.
  apply wp_bind, wp_and_then. apply wp_ret. destruct ok; [|apply wp_ret; bad].
  apply wp_value_ends; [done|]. intros [] r4 L4 _; [by apply next_line_keeps|apply wp_ret; bad].
Qed.

Lemma range_keeps r : line r -> wp (range_header eol nextline) (fun _ r => parsed_to r0 r) r.
Proof.
  intros Hl. apply wp_bind, wp_get. destruct (negb _); [by apply next_line_keeps|].
  apply wp_bind. step. intros _ r1 L1 _. apply wp_bind. step. intros [] r2 L2 _; [|apply wp_ret; bad].
  apply wp_bind, wp_get, wp_bind. step. intros [n ranges] r3 L3 _.
  apply wp_bind. eapply wp_line_set; [same|done|done|]. intros r4 L4 _. apply wp_bind.
  destruct (n =? 0); [apply wp_ret, wp_ret; bad|].
  apply wp_value_ends; [done|]. intros [] r5 L5 _; [|apply wp_ret; bad]. simpl.
  apply wp_bind. eapply wp_next_line; [done|]. intros r6 _ Hb6 _. apply wp_bind, wp_modify, wp_ret.
  apply parsed_to_busy. eapply busy_keep; [exact Hb6|same].
Qed.

Lemma origin_keeps r : line r -> wp (origin_header eol nextline) (fun _ r => parsed_to r0 r) r.
Proof.
  intros Hl. apply wp_bind, wp_get. destruct (strings r FOrigin) eqn:E; [by apply next_line_keeps|].
  assert (Hf : fresh [FOrigin] r) by (apply fresh_null; [by destruct Hl as [[]]|done]).
  apply wp_bind. step. intros _ r1 L1 F1. apply wp_bind. step. intros [n origin] r2 L2 F2. apply wp_bind.
  destruct (n =? 0); [apply wp_ret, wp_ret; bad|].
  apply wp_value_ends; [done|]. intros [] r3 L3 F3; [|apply wp_ret; bad]. simpl.
  apply wp_bind. eapply wp_next_line; [done|]. intros r4 -> Hb4 _. apply wp_bind.
  eapply (wp_reserve r0 FOrigin []); [done| |apply not_elem_of_nil|by intros []|].
  { eapply (fresh_same _ r3); try done. eapply fresh_keep; [|exact Hf]. apply fwd_keep.
    by transitivity r1; [|transitivity r2]. }
  intros b r5 Hb5 _ _ _ _. by apply parsed_to_busy.
Qed.

(** *** Authorization *)

(** The credentials on the stack, and the scheme. *)
Definition set_credentials (user password : list Z) (r : http_request) : http_request :=
  set_auth_scheme BASIC (set_string FUser (Some (OnStack user)) (set_string FPassword (Some (OnStack password)) r)).
Lemma credentials_busy user password r : busy r0 r -> auth_scheme r = NOAUTH ->
  busy r0 (set_credentials user password r) /\ fresh [FUser; FPassword] (set_credentials user password r).
Proof.
  intros Hb Hs. destruct Hb as [[Hsz Ho Hl (es & Hes)] He Hp Hph].
  destruct (res_auth _ _ Hes Hs) as [Hu Hpw].
  assert (Hes' : reserves es (set_credentials user password r)).
  { destruct Hes as [Hb Hn Hd Hpt _]. split; [done..| |done]. eapply points_ext; [|exact Hpt]. intros f Hf. simpl.
    destruct (decide (f = FUser)) as [->|]; [done|]. by destruct (decide (f = FPassword)) as [->|]. }
  split; [split; [split; [done|simpl; lia|done|eauto]|done..]|].
  exists es. split; [done|]. intros f [->|[->|Hf%elem_of_nil]%elem_of_cons]%elem_of_cons; done.
Qed.

Lemma wp_authorization n (Q : bool -> http_request -> Prop) r :
  0 <= n -> line r -> auth_scheme r = NOAUTH ->
  (forall b r', busy r0 r' -> ahead_of r' -> Q b r') -> wp (_parse_authorization n) Q r.
Proof.
  intros Hn Hl Hs HQ. assert (HL : forall b r', line r' -> Q b r') by (intros b r' (? & ? & _); auto).
  apply wp_bind, wp_get, wp_bind. eapply wp_line; [apply moves_and_then; auto with http|done|]. intros [] r1 L1 F1.
  - apply wp_bind. step. intros [[user password]|] r2 L2 F2; [|by apply wp_ret, HL].
    apply wp_bind, wp_modify, wp_bind, wp_modify.
    fold (set_credentials user password r2).
    assert (Hs2 : auth_scheme r2 = NOAUTH) by (destruct F1 as [[] _], F2 as [[] _]; congruence).
    destruct L2 as (Hb2 & Ha2 & _). destruct (credentials_busy user password r2 Hb2 Hs2) as [Hb3 Hf3].
    apply wp_bind. eapply wp_commit; [done|done|]. intros Hb4.
    apply wp_and_then, wp_bind, wp_lift. intros len _.
    eapply (wp_reserve r0 FUser [FPassword]); [done| |by intros ?%list_elem_of_singleton|done|].
    { by apply (fresh_same _ (set_credentials user password r2)). }
    intros b r5 Hb5 Hf5 Hp5 Hc5 Hs5. assert (Ha5 : ahead_of r5) by (unfold ahead_of; rewrite Hp5, Hc5; simpl; lia).
    destruct b; [|by apply HQ].
    apply wp_bind, wp_lift. intros len' _.
    eapply (wp_reserve r0 FPassword []); [done|done|apply not_elem_of_nil|by rewrite Hs5|].
    intros b r6 Hb6 _ Hp6 Hc6 _. apply HQ; [done|]. unfold ahead_of. rewrite Hp6, Hc6. exact Ha5.
  - apply wp_bind. eapply wp_line; [apply moves_and_then; auto with http|done|]. intros [] r2 L2 F2.
    + apply wp_bind, wp_modify, wp_ret, HL. eapply line_fwd; [exact L2|]. apply fwd_set_cursor. lia.
    + apply wp_bind. step. intros [k sub] r3 L3 F3. apply wp_bind.
      eapply wp_line; [destruct (k =? 0); [apply moves_ret|auto with http]|done|]. intros b r4 L4 F4. by apply wp_ret, HL.
Qed.

Lemma authorization_keeps r : line r -> wp (authorization_header eol nextline) (fun _ r => parsed_to r0 r) r.
Proof.
  intros Hl. apply wp_bind, wp_get. destruct (Z.eqb_spec (auth_scheme r) NOAUTH) as [Hs|]; [|by apply next_line_keeps].
  apply wp_bind. step. intros _ r1 L1 F1. apply wp_bind, wp_get, wp_bind, wp_and_then.
  eapply wp_authorization; [apply Z.mod_pos_bound; pose proof SIZE_MAX_ge; lia|done|destruct F1 as [[] _]; congruence|].
  assert (Hbad : forall r, busy r0 r -> wp (code ← get result_code; mret (if code =? 0 then 400 else code)) (fun _ r => parsed_to r0 r) r)
    by (intros; by apply parsed_to_busy).
  intros [] r2 Hb2 Ha2; [|by apply Hbad]. unfold value_ends.
  apply wp_and_then. eapply wp_busy; [auto with http|done|done|]. intros [] r3 Hb3 Ha3 _; [|by apply Hbad].
  apply wp_get. destruct (Z.eqb_spec (cursor r3) eol) as [Hc|]; [|by apply Hbad].
  apply wp_bind, wp_bind, wp_get, wp_assert. intros _. apply next_line_keeps.
  unfold ahead_of in Ha3. split_and!; [done|done|lia].
Qed.

Lemma wp_on_header name (yes no : HP Z) r : line r ->
  (forall r', line r' -> wp yes (fun _ r => parsed_to r0 r) r') ->
  (forall r', line r' -> wp no (fun _ r => parsed_to r0 r) r') ->
  wp (on_header name yes no) (fun _ r => parsed_to r0 r) r.
Proof.
  intros (Hb & Ha & Hn) Hy Hno. apply wp_bind. eapply wp_rewind; [done|]. intros r1 Hb1 Ha1 K1 _.
  assert (L1 : line r1) by (split_and!; [done|done|destruct K1; congruence]).
  apply wp_bind. step. intros [] r2 L2 _; auto.
Qed.
End headers.

Lemma blank_line_keeps r0 r : busy r0 r -> ahead_of r -> rank (parser r0) < 5 ->
  wp blank_line (fun _ r => parsed_to r0 r) r.
Proof.
  intros Hb Ha Hr. apply wp_bind. eapply wp_commit; [done..|]. intros Hb1.
  apply wp_bind, wp_get, wp_bind. unfold id. set (r1 := set_parsed _ r) in *.
  assert (Hnext : forall r2, busy r0 r2 ->
    wp (_ ← modify (set_parser (Some StartBody)); match handle_headers with Some h => h | None => mret 0 end)
       (fun _ r => parsed_to r0 r) r2).
  { intros r2 Hb2. apply wp_bind, wp_modify.
    assert (Hn : parsed_to r0 (set_parser (Some StartBody) r2)) by (by eapply parsed_to_next).
    destruct handle_headers as [h|] eqn:E; [|done].
    apply wp_handler; [by apply headers_ok|done|by destruct Hb2]. }
  destruct (_ =? _); [by apply wp_ret, Hnext|]. apply wp_modify, Hnext. eapply busy_keep; [exact Hb1|same].
Qed.

Lemma header_keeps r0 : busy r0 r0 -> ahead_of r0 -> parser r0 = Some ParseHeader ->
  wp http_request_parse_header (fun _ r => parsed_to r0 r) r0.
Proof.
  intros Hb Ha Hp. unfold http_request_parse_header.
  apply wp_bind. go. intros _ r1 Hb1 Ha1 F1. apply wp_bind, wp_get, wp_bind. go. intros _ r2 Hb2 Ha2 F2.
  apply wp_bind, wp_get. unfold id. destruct (_ =? _); [apply blank_line_keeps; [done..|by rewrite Hp]|].
  apply wp_bind, wp_get.
  assert (Hlines : cursor r1 <= cursor r2) by (by destruct F2).
  assert (Hl : line r0 (cursor r2) r2) by (split_and!; done).
  clear Ha2 Hb2 F2. generalize dependent r2. intros r2. generalize (cursor r2). intros nextline Hlines Hl.
  revert r2 Hl. generalize dependent (cursor r1). intros eol Hlines.
  assert (Hrest : forall r, line r0 nextline r -> wp (_ ← _rewind; next_line nextline) (fun _ r => parsed_to r0 r) r).
  { intros r (Hb' & Ha' & Hn'). apply wp_bind. eapply wp_rewind; [done|]. intros r3 Hb3 Ha3 K3 _.
    apply next_line_keeps. split_and!; [done|done|destruct K3; congruence]. }
  pose proof content_length_keeps. pose proof content_type_keeps. pose proof range_keeps.
  pose proof authorization_keeps. pose proof origin_keeps.
  intros r Hl. do 5 (eapply wp_on_header; [eassumption|eauto|clear r Hl; intros r Hl]). eauto.
Qed.
End keeps.

(** * The HTTP request parser: the parsers of the body keep the invariant

    The loops that look for a boundary end, and the parsers of form data keep
    the invariant when their handlers leave alone what they do not own. *)

Section form.
Context {arch : Arch} {henv : HttpEnv} {pok : PointersOk} {hok : HandlersOk}.

Ltac same := intros; by split.
Ltac go := eapply wp_busy; [solve [eauto with http]|eassumption|eassumption|].
Ltac done_with := by apply parsed_to_busy.

Lemma start_body_keeps r0 : busy r0 r0 -> ahead_of r0 -> parser r0 = Some StartBody ->
  wp http_request_start_body (fun _ r => parsed_to r0 r) r0.
Proof.
  intros Hb Ha Hp. unfold http_request_start_body.
  apply wp_bind, wp_bind, wp_get, wp_assert. intros _. apply wp_bind, wp_get, wp_bind, wp_assert. intros _.
  cbv zeta. set (more := _run_out ≫= _).
  assert (Hmore : forall r, parsed_to r0 r -> wp more (fun _ r => parsed_to r0 r) r).
  { intros r Hr. apply wp_bind. eapply wp_moves; [auto with http|]. intros o r' F. apply wp_ret. intros Hph.
    destruct F as [K _]. destruct (Hr ltac:(destruct K; congruence)) as (Hok & He & Hpar).
    split; [by eapply request_ok_keep|]. destruct K. split; [congruence|]. by rewrite keep_parser. }
  assert (Hnext : forall p, 5 < rank p -> wp (_ ← modify (set_parser p); more) (fun _ r => parsed_to r0 r) r0).
  { intros p Hr. apply wp_bind, wp_modify, Hmore. eapply parsed_to_next; [done|]. by rewrite Hp. }
  unfold id. destruct (verb r0) as [[]|]; try (apply wp_bind, wp_modify, wp_ret; eapply parsed_to_next; [done|by rewrite Hp]).
  - destruct (_ && _); [done_with|]. apply wp_bind, wp_lift. intros [] _; [done_with|]. by apply Hnext.
  - destruct (_ =? _); [done_with|]. destruct (_ =? _); [by apply Hnext|].
    apply wp_bind, wp_lift. intros [] _; simpl; [|done_with].
    apply wp_bind, wp_lift. intros m _. apply wp_bind.
    assert (Hf : forall f : bool, wp (if f then
        b ← lift (has_type (multipart_boundary (content_type r0)));
        if negb b then mret 400 else
        _ ← modify (set_parser (Some ParseFormData)); _ ← modify (set_form_state START); more
      else mret 415) (fun _ r => parsed_to r0 r) r0).
    { intros []; [|done_with]. apply wp_bind, wp_lift. intros [] _; simpl; [|done_with].
      apply wp_bind, wp_modify, wp_bind, wp_modify, Hmore. intros _.
      split; [|split; [done|right; by rewrite Hp]]. by apply (request_ok_same r0), (busy_ok r0). }
    destruct m; [apply wp_lift; intros f _; exact (Hf f)|apply wp_ret; exact (Hf false)].
Qed.

(** ** Handlers *)

Lemma wp_invoke r0 handler e (k : HP Z) r :
  (forall h, handler = Some h -> handler_ok h) -> busy r0 r -> ahead_of r ->
  (forall r', busy r0 r' -> ahead_of r' -> wp k (fun _ r => parsed_to r0 r) r') ->
  wp (_INVOKE_HANDLER handler e k) (fun _ r => parsed_to r0 r) r.
Proof.
  intros Hh Hb Ha Hk. unfold _INVOKE_HANDLER. destruct handler as [h|]; [|by apply Hk].
  apply wp_bind. eapply wp_set; [same|done|done|done|]. intros r1 Hb1 Ha1 _. apply wp_bind.
  eapply wp_mono; [apply (Hh h eq_refl); by destruct Hb1|]. intros z r2 H2.
  apply wp_bind, wp_get. unfold id. destruct (bool_decide (phase r2 = RECEIVE)) eqn:E; simpl; bsplit; [|by intros ?].
  destruct (H2 E) as [K Hc]. assert (Hb2 : busy r0 r2) by (by eapply busy_keep).
  assert (Ha2 : ahead_of r2) by (unfold ahead_of in *; rewrite Hc; destruct K; lia).
  destruct (z =? 0); [by apply Hk|]. do 2 (apply wp_bind, wp_assert; intros _). by apply parsed_to_busy.
Qed.
Lemma wp_invoke_buf r0 handler event start stop (k : HP Z) r :
  (forall h off bs, handler = Some h -> handler_ok (h off bs)) -> busy r0 r -> ahead_of r ->
  (forall r', busy r0 r' -> ahead_of r' -> wp k (fun _ r => parsed_to r0 r) r') ->
  wp (_INVOKE_HANDLER_BUF_LEN handler event start stop k) (fun _ r => parsed_to r0 r) r.
Proof.
  intros Hh Hb Ha Hk. unfold _INVOKE_HANDLER_BUF_LEN. destruct (start =? stop); [by apply Hk|].
  destruct handler as [h|]; [|by apply Hk].
  apply wp_bind. go. intros bs r1 Hb1 Ha1 _. apply wp_invoke; [|done..]. intros h' [= <-]. by apply Hh.
Qed.

Lemma start_part_keeps r0 b r : busy r0 r -> ahead_of r ->
  wp (http_request_form_data_start_part b) (fun _ r => parsed_to r0 r) r.
Proof.
  intros Hb Ha. unfold http_request_form_data_start_part. cbv zeta. set (next := if b =? 1 then _ else _).
  assert (Hnext : forall r, busy r0 r -> ahead_of r -> wp next (fun _ r => parsed_to r0 r) r).
  { clear r Hb Ha. intros r Hb Ha. subst next. destruct (b =? 1).
    - do 4 (apply wp_bind; eapply wp_set; [same|done|eassumption|eassumption|intros ? ? ? _]).
      apply wp_invoke; [apply mime_part_start_ok|eassumption|eassumption|]. intros ? ? _. done_with.
    - apply wp_bind. eapply wp_set; [same|done|done|done|]. intros r1 Hb1 _ _. done_with. }
  apply wp_bind, wp_get. destruct (form_data_state (id r)); try (by apply Hnext);
    (apply wp_invoke; [apply mime_part_end_ok|done..]).
Qed.

(** ** Going back *)

Lemma wp_rewind_optional_cr r0 (Q : unit -> http_request -> Prop) r : busy r0 r -> ahead_of r ->
  (forall r', busy r0 r' -> ahead_of r' -> keep r r' -> Q tt r') -> wp _rewind_optional_cr Q r.
Proof.
  intros Hb Ha HQ. unfold wp, _rewind_optional_cr. destruct (Z.ltb_spec (parsed r) (cursor r)); [|apply HQ; [done|done|reflexivity]].
  destruct (or_undef _) as [c| |]; simpl; [|done..]. destruct (c =? 13); [|apply HQ; [done|done|reflexivity]].
  apply HQ; [eapply busy_keep; [done|apply keep_set_cursor]|unfold ahead_of; simpl; lia|apply keep_set_cursor].
Qed.
Lemma wp_rewind_crlf r0 (Q : unit -> http_request -> Prop) r : busy r0 r ->
  (forall r', busy r0 r' -> ahead_of r' -> keep r r' -> Q tt r') -> wp _rewind_crlf Q r.
Proof.
  intros Hb HQ. unfold wp, _rewind_crlf. destruct (Z.leb_spec (parsed r + 2) (cursor r)); simpl; [|done].
  destruct (buffer r @@ (cursor r - 2)) as [c|]; simpl; [|done]. destruct (buffer r @@ (cursor r - 1)) as [d|]; simpl; [|done].
  destruct (c =? 13); simpl; [|done]. destruct (d =? 10); simpl; [|done].
  apply HQ; [eapply busy_keep; [done|apply keep_set_cursor]|unfold ahead_of; simpl; lia|apply keep_set_cursor].
Qed.
(** [_rewind_crlf(r); _commit(r);] and [_rewind_optional_cr(r); _commit(r);] *)
Lemma wp_commit' r0 (Q : unit -> http_request -> Prop) r : busy r0 r -> ahead_of r ->
  (forall r', busy r0 r' -> ahead_of r' -> Q tt r') -> wp _commit Q r.
Proof. intros Hb Ha HQ. eapply wp_commit; [done..|]. intros Hb'. apply HQ; [done|]. unfold ahead_of. simpl. lia. Qed.

Lemma moves_skip_mime_boundary : moves _skip_mime_boundary.
Proof. unfold _skip_mime_boundary. moves_tac. Qed.
Hint Resolve moves_skip_mime_boundary : http.

(** ** The loops *)

Lemma skip_to_crlf_suffix s : (skip_to_crlf s).2 `suffix_of` s.
Proof.
  induction s as [|c s IH]; [done|]. simpl. destruct (_ && _); [done|].
  etransitivity; [exact IH|]. by apply suffix_cons_r.
Qed.
Lemma skip_to_crlf_true s s' : skip_to_crlf s = (true, s') -> exists t, s' = 13 :: 10 :: t.
Proof.
  induction s as [|c s IH]; [done|]. simpl. destruct (_ && _) eqn:E; [|exact IH]. intros [= <-].
  destruct s as [|d s]; [by rewrite andb_false_r in E|]. bsplit. subst. eauto.
Qed.
Lemma wp_skip_to_crlf (Q : bool -> http_request -> Prop) r :
  (forall r', fwd r r' -> Q false r') ->
  (forall r' t, fwd r r' -> view r' (13 :: 10 :: t) -> Q true r') -> wp _skip_to_crlf Q r.
Proof.
  intros Hf Ht. apply wp_scan_view. intros s Hv. pose proof (skip_to_crlf_shrinks s) as Hs.
  pose proof (skip_to_crlf_suffix s) as Hx. pose proof (skip_to_crlf_true s) as Hc. pose proof (view_zlen _ _ Hv).
  destruct (skip_to_crlf s) as [[] s']; simpl in *.
  - destruct (Hc _ eq_refl) as [t ->]. eapply Ht; [apply fwd_set_cursor; lia|by eapply view_suffix].
  - apply Hf, fwd_set_cursor. lia.
Qed.
Lemma view_room r s : view r s -> room r = length s.
Proof. intros Hv. pose proof (view_zlen _ _ Hv). unfold room, zlen in *. lia. Qed.

Lemma body_loop_ends fuel : forall r r0, within r0 fuel r -> wp (body_loop fuel) (fun _ r' => fwd r0 r') r.
Proof.
  induction fuel as [|fuel IH]; intros r r0 Hr; [destruct Hr; lia|]. cbn [body_loop].
  apply wp_bind, wp_skip_to_crlf; [intros r1 F1; by eapply within_fwd|]. intros r1 t F1 Hv1.
  pose proof (within_fwd _ _ _ _ Hr F1) as Hr1. apply wp_bind, wp_get, wp_bind, wp_scan_view. intros s Hv.
  assert (s = 13 :: 10 :: t) as -> by (destruct Hv, Hv1; congruence). simpl. clear Hv.
  set (r2 := at_suffix t r1).
  assert (Hv2 : view r2 t) by (eapply view_suffix; [done|by do 2 apply suffix_cons_r]).
  assert (F2 : fwd r1 r2).
  { apply fwd_set_cursor. pose proof (view_zlen _ _ Hv1) as Hl. rewrite !zlen_cons in Hl. lia. }
  assert (Hr2 : within r0 fuel r2).
  { destruct (within_fwd _ _ _ _ Hr1 F2) as [? _]. split; [done|]. destruct Hr1 as [_ Hroom].
    rewrite (view_room _ _ Hv1) in Hroom. rewrite (view_room _ _ Hv2). simpl in Hroom. lia. }
  apply wp_bind. eapply wp_moves; [auto with http|]. intros b r3 F3.
  destruct (negb (b =? 0)); [by eapply within_fwd|]. by eapply IH, within_fwd.
Qed.

Lemma wp_skip_any (Q : bool -> http_request -> Prop) r :
  cursor r < end_ r -> Q true (set_cursor (cursor r + 1) r) -> wp _skip_any Q r.
Proof.
  intros Hc HQ. unfold wp, _skip_any, mbind, HP_bind, _run_out. rewrite (proj2 (Z.leb_le _ _)) by lia. simpl.
  by rewrite (proj2 (Z.eqb_neq _ _)) by lia.
Qed.
Lemma preamble_loop_ends fuel : forall (at_start : bool) r r0,
  within r0 fuel r -> (at_start = true -> within r0 (pred fuel) r) ->
  wp (preamble_loop fuel at_start) (fun _ r' => fwd r0 r') r.
Proof.
  induction fuel as [|fuel IH]; intros at_start r r0 Hr Hs; [destruct Hr; lia|]. cbn [preamble_loop].
  apply wp_bind. destruct at_start.
  - apply wp_ret. simpl negb. cbn match. apply wp_bind, wp_get, wp_bind, wp_ret, wp_bind.
    eapply wp_moves; [auto with http|]. intros b r1 F1. destruct (negb (b =? 0)); [by eapply within_fwd|].
    apply wp_bind, wp_ret, IH; [|done]. eapply within_fwd; [by apply Hs|done].
  - apply wp_skip_to_crlf; [intros r1 F1; by eapply within_fwd|]. intros r1 t F1 Hv1.
    pose proof (within_fwd _ _ _ _ Hr F1) as Hr1. cbn [negb]. apply wp_bind, wp_get, wp_bind.
    eapply wp_moves; [auto with http|]. intros c r2 F2. apply wp_bind.
    eapply wp_moves; [destruct c; [auto with http|apply moves_ret]|]. intros b r3 F3.
    destruct (negb (b =? 0)); [eapply within_fwd; [exact Hr1|by transitivity r2]|].
    apply wp_bind, wp_bind, wp_modify, wp_bind.
    assert (F4 : fwd r1 (set_cursor (cursor r1) r3)).
    { split; [|simpl; lia]. transitivity r3; [apply fwd_keep; by transitivity r2|apply keep_set_cursor]. }
    assert (He : end_ r3 = end_ r1) by (destruct F2 as [[] _], F3 as [[] _]; congruence).
    pose proof (view_zlen _ _ Hv1) as Hl. rewrite !zlen_cons in Hl. pose proof (zlen_nonneg t).
    apply wp_skip_any; [simpl; lia|]. apply wp_ret, IH; [|done].
    assert (F5 : fwd r1 (set_cursor (cursor r1 + 1) (set_cursor (cursor r1) r3))).
    { transitivity (set_cursor (cursor r1) r3); [done|]. apply fwd_set_cursor. simpl. lia. }
    destruct (within_fwd _ _ _ _ Hr1 F5) as [? _]. split; [done|]. destruct Hr1 as [_ Hroom].
    unfold room in *. simpl. lia.
Qed.

(** ** The states of form data *)

Ltac commit := apply wp_bind; eapply wp_commit'; [eassumption|eassumption|intros ? ? ?].
Ltac back := apply wp_bind; eapply wp_rewind_crlf; [eassumption|intros ? ? ? _].
Ltac back_cr := apply wp_bind; eapply wp_rewind_optional_cr; [eassumption|eassumption|intros ? ? ? _].

Lemma within_ahead (s : list Z) r n : zlen s = end_ r - cursor r -> (length s < n)%nat -> within r n r.
Proof. intros Hs Hn. split; [done|]. unfold room, zlen in *. lia. Qed.

Lemma preamble_keeps r0 at_start r : busy r0 r -> ahead_of r -> wp (form_preamble at_start) (fun _ r => parsed_to r0 r) r.
Proof.
  intros Hb Ha. apply wp_bind, wp_get, wp_bind, wp_ahead. intros s Hs _ _ _.
  apply wp_bind. eapply wp_mono.
  { apply (preamble_loop_ends _ at_start r r); [|intros _]; (eapply within_ahead; [done|simpl; lia]). }
  intros found r1 F1. assert (Hb1 : busy r0 r1) by (eapply busy_keep; eauto with http).
  assert (Ha1 : ahead_of r1) by (by eapply ahead_fwd). destruct found as [[end_preamble b]|].
  - apply wp_bind, wp_bind, wp_get, wp_assert. intros _.
    apply wp_invoke_buf; [apply mime_preamble_ok|done..|]. intros r2 Hb2 Ha2. back. commit. by apply start_part_keeps.
  - apply wp_bind. go. intros [] r2 Hb2 Ha2 _; [done_with|]. back_cr. commit.
    apply wp_bind, wp_get, wp_bind, wp_assert. intros _.
    apply wp_invoke_buf; [apply mime_preamble_ok|eassumption..|]. intros r3 Hb3 _. done_with.
Qed.

Lemma body_keeps r0 r : busy r0 r -> ahead_of r -> wp form_body (fun _ r => parsed_to r0 r) r.
Proof.
  intros Hb Ha. apply wp_bind, wp_get, wp_bind, wp_ahead. intros s Hs _ _ _.
  apply wp_bind. eapply wp_mono; [apply (body_loop_ends _ r r); eapply within_ahead; [done|lia]|].
  intros found r1 F1. assert (Hb1 : busy r0 r1) by (eapply busy_keep; eauto with http).
  assert (Ha1 : ahead_of r1) by (by eapply ahead_fwd). destruct found as [[end_body b]|].
  - back. commit. apply wp_bind, wp_assert. intros _. apply wp_bind. eapply wp_set; [same|done|eassumption..|]. intros r2 Hb2 Ha2 _.
    apply wp_invoke_buf; [apply mime_body_ok|done..|]. intros r3 Hb3 Ha3. by apply start_part_keeps.
  - apply wp_bind. go. intros [] r2 Hb2 Ha2 _; [done_with|]. back_cr. commit.
    apply wp_bind, wp_get, wp_bind, wp_assert. intros _. apply wp_bind. eapply wp_set; [same|done|eassumption..|]. intros r3 Hb3 Ha3 _.
    apply wp_invoke_buf; [apply mime_body_ok|eassumption..|]. intros r4 Hb4 _. done_with.
Qed.

Lemma epilogue_keeps r0 r : busy r0 r -> ahead_of r -> wp form_epilogue (fun _ r => parsed_to r0 r) r.
Proof.
  intros Hb Ha. apply wp_bind, wp_modify, wp_bind, wp_get, wp_bind, wp_assert. intros Hc. unfold id in *. simpl in Hc. bsplit.
  apply wp_invoke_buf; [apply mime_epilogue_ok|eapply busy_keep; [exact Hb|apply keep_set_cursor]|exact Hc|].
  intros r1 Hb1 Ha1. commit. apply wp_bind. go. intros o r2 Hb2 Ha2 _. apply wp_bind, wp_assert. intros _.
  apply wp_bind. go. intros e r3 Hb3 _ _. done_with.
Qed.

Lemma header_done_keeps r0 put no r :
  (forall r, keep r (put r)) -> busy r0 r -> ahead_of r ->
  (forall r', busy r0 r' -> ahead_of r' -> fwd r r' -> wp no (fun _ r => parsed_to r0 r) r') ->
  wp (header_done put no) (fun _ r => parsed_to r0 r) r.
Proof.
  intros Hput Hb Ha Hno. apply wp_bind. eapply wp_busy; [apply moves_and_then; auto with http|done..|].
  intros [] r1 Hb1 Ha1 F1; [|by apply Hno]. back. commit. apply wp_bind, wp_modify, wp_ret, parsed_to_busy. by eapply busy_keep.
Qed.

Lemma part_header_line_keeps r0 labelstr no r :
  busy r0 r -> ahead_of r ->
  (forall r', busy r0 r' -> ahead_of r' -> keep r r' -> wp no (fun _ r => parsed_to r0 r) r') ->
  wp (part_header_line labelstr no) (fun _ r => parsed_to r0 r) r.
Proof.
  intros Hb Ha Hno. assert (Hno' : forall r', busy r0 r' -> ahead_of r' -> fwd r r' -> wp no (fun _ r => parsed_to r0 r) r').
  { intros r' ? ? [? _]. by apply Hno. }
  apply wp_bind, wp_get. destruct (decide _); [|destruct (decide _); [|destruct (decide _)]].
  - destruct (negb _); [done_with|]. apply wp_bind. go. intros [length|] r1 Hb1 Ha1 F1; [|by apply Hno'].
    apply header_done_keeps; [same|done..|]. intros r2 ? ? ?. apply Hno'; [done..|by transitivity r1].
  - apply wp_bind, wp_lift. intros [] _; [done_with|]. apply wp_bind. go. intros [ok ct] r1 Hb1 Ha1 F1.
    apply wp_bind. eapply wp_set; [same|done|done..|]. intros r2 Hb2 Ha2 K2.
    assert (K : keep r r2) by (transitivity r1; auto with http).
    destruct ok; [|by apply Hno]. apply header_done_keeps; [same|done..|]. intros r3 ? ? [? _]. apply Hno; [done..|by transitivity r2].
  - apply wp_bind, wp_lift. intros [] _; [done_with|]. apply wp_bind. go. intros [ok ct] r1 Hb1 Ha1 F1.
    apply wp_bind. eapply wp_set; [same|done|done..|]. intros r2 Hb2 Ha2 K2.
    assert (K : keep r r2) by (transitivity r1; auto with http).
    destruct ok; [|by apply Hno]. apply header_done_keeps; [same|done..|]. intros r3 ? ? [? _]. apply Hno; [done..|by transitivity r2].
  - apply wp_bind. go. intros [] r1 Hb1 Ha1 F1; [|by apply Hno']. commit. done_with.
Qed.

Lemma form_header_keeps r0 r : busy r0 r -> ahead_of r -> wp form_header (fun _ r => parsed_to r0 r) r.
Proof.
  intros Hb Ha. apply wp_bind. go. intros [] r1 Hb1 Ha1 F1; cbn [negb].
  2: { apply wp_bind. go. intros b r2 Hb2 Ha2 _. back_cr. apply wp_bind, wp_bind, wp_get, wp_assert. intros _. commit. done_with. }
  apply wp_bind, wp_get. remember (cursor r1) as sol eqn:Hsol.
  assert (Hback : forall r', keep r1 r' -> busy r0 r' -> busy r0 (set_cursor sol r') /\ ahead_of (set_cursor sol r')).
  { intros r' K Hb'. split; [eapply busy_keep; [done|apply keep_set_cursor]|]. unfold ahead_of in *. simpl.
    destruct K. lia. }
  apply wp_bind. go. intros [] r2 Hb2 Ha2 F2.
  { commit. apply wp_bind, wp_get. apply wp_invoke; [|eassumption..|].
    - intros h. destruct (handle_mime_part_header form_data) as [h'|] eqn:E; simpl; [|done]. intros [= <-].
      by apply mime_part_header_ok.
    - intros r4 Hb4 Ha4. apply wp_bind. eapply wp_set; [same|done|done..|]. intros r5 Hb5 _ _. done_with. }
  apply wp_bind. go. intros [] r3 Hb3 Ha3 F3; [done_with|].
  assert (F13 : keep r1 r3) by (apply fwd_keep; by transitivity r2).
  destruct (Hback r3 F13 Hb3) as [Hb4 Ha4]. apply wp_bind, wp_modify, wp_bind. set (r4 := set_cursor sol r3) in *.
  assert (K4 : keep r1 r4) by (transitivity r3; [done|apply keep_set_cursor]).
  go. intros b r5 Hb5 Ha5 F5. destruct (negb _). { back. commit. by apply start_part_keeps. }
  apply wp_bind. go. intros [] r6 Hb6 Ha6 F6; [done_with|].
  assert (K6 : keep r1 r6) by (transitivity r4; [done|apply fwd_keep; by transitivity r5]).
  destruct (Hback r6 K6 Hb6) as [Hb7 Ha7]. apply wp_bind, wp_modify. set (r7 := set_cursor sol r6) in *.
  assert (K7 : keep r1 r7) by (transitivity r6; [done|apply keep_set_cursor]). cbv zeta. set (unknown := _ ← modify _; _).
  assert (Hunk : forall r', busy r0 r' -> keep r1 r' -> wp unknown (fun _ r => parsed_to r0 r) r').
  { intros r' Hb' K'. destruct (Hback r' K' Hb') as [Hb8 Ha8]. apply wp_bind, wp_modify.
    apply wp_bind. go. intros [] r8 Hb9 Ha9 F9.
    - apply wp_bind, wp_modify. assert (Hb10 : busy r0 (set_cursor (end_ r8) r8)) by (eapply busy_keep; [done|apply keep_set_cursor]).
      assert (Ha10 : ahead_of (set_cursor (end_ r8) r8)) by (unfold ahead_of; destruct Hb9 as [[]]; simpl; lia).
      back_cr. commit. done_with.
    - apply wp_bind. go. intros [] r9 Hb10 _ _; done_with. }
  apply wp_bind. go. intros [n label] r8 Hb8 Ha8 F8. apply wp_bind.
  eapply wp_busy; [destruct (n =? 0); [apply moves_ret|apply moves_and_then; auto with http]|done..|].
  intros [] r9 Hb9 Ha9 F9.
  - assert (K9 : keep r1 r9) by (transitivity r7; [done|apply fwd_keep; by transitivity r8]).
    apply wp_bind. go. intros cs r10 Hb10 Ha10 F10. apply part_header_line_keeps; [done..|].
    intros r11 Hb11 Ha11 K11. apply Hunk; [done|]. transitivity r10; [|done]. transitivity r9; auto with http.
  - apply Hunk; [done|]. transitivity r7; [done|]. apply fwd_keep. by transitivity r8.
Qed.

Lemma form_data_keeps r0 : busy r0 r0 -> ahead_of r0 ->
  wp http_request_parse_body_form_data (fun _ r => parsed_to r0 r) r0.
Proof.
  intros Hb Ha. apply wp_bind, wp_get. destruct (form_data_state r0).
  - apply wp_bind. eapply wp_set; [same|done|done..|]. intros r1 Hb1 Ha1 _. by apply preamble_keeps.
  - by apply preamble_keeps.
  - by apply form_header_keeps.
  - by apply body_keeps.
  - by apply epilogue_keeps.
Qed.

(** Every parser. *)
Lemma parser_keeps p r0 : busy r0 r0 -> ahead_of r0 -> parser r0 = Some p ->
  wp (run_parser p) (fun _ r => parsed_to r0 r) r0.
Proof.
  intros Hb Ha Hp. destruct p; cbn [run_parser].
  - by apply verb_keeps.
  - by apply path_keeps.
  - by apply version_keeps.
  - by apply start_headers_keeps.
  - by apply header_keeps.
  - by apply start_body_keeps.
  - by apply parsed_to_busy.
  - by apply form_data_keeps.
Qed.
End form.
#[export] Hint Resolve moves_skip_mime_boundary : http.

(** * The HTTP request parser: receiving keeps the invariant and ends

    The loop of [http_request_receive] goes on only when a parser has moved on in
    the text or a later parser is set, so it ends after at most [receive_fuel] passes. *)

(** Eight parsers, on at most 8192 characters. *)
Definition receive_fuel : nat := N.to_nat (8 * 8193).

Section receive.
Context {arch : Arch} {henv : HttpEnv} {pok : PointersOk} {hok : HandlersOk}.

Definition measure (r : http_request) : Z := (7 - rank (parser r)) * (buffer_size + 1) + (end_ r - parsed r).
Lemma rank_bounds p : 0 <= rank p <= 7.
Proof. destruct p as [[]|]; simpl; lia. Qed.
Lemma measure_bounds r : request_ok r -> 0 <= measure r < 8 * 8193.
Proof.
  intros [Hs Ho _ _]. pose proof (rank_bounds (parser r)). unfold measure, buffer_size in *. nia.
Qed.

(** ** One pass *)

Lemma take_result_keeps result r :
  wp (take_result result) (fun b r' => keep r r' /\ cursor r' = cursor r /\ (b = true -> result = 0)) r.
Proof.
  assert (Hend : forall r', keep r r' -> cursor r' = cursor r -> (result_code r' = 0 -> result = 0) ->
    wp (code ← get result_code; mret (code =? 0))
      (fun b r' => keep r r' /\ cursor r' = cursor r /\ (b = true -> result = 0)) r').
  { intros r' K Hc H. apply wp_bind, wp_get, wp_ret. split_and!; [done|done|]. intros E. bsplit. auto. }
  apply wp_bind. destruct ((200 <=? result) && (result <? 600)) eqn:E.
  - bsplit. apply wp_bind, wp_bind, wp_get, wp_assert. intros _. apply wp_modify, Hend; [by split|done|]. simpl. lia.
  - destruct (Z.eqb_spec result 0) as [->|]; cbn [negb].
    + by apply wp_ret, Hend.
    + apply wp_modify, Hend; [by split|done|]. by simpl.
Qed.

(** What a pass does to the request [r]. *)
Definition pass_ok (r : http_request) (x : option bool) (r' : http_request) : Prop :=
  phase r' = RECEIVE -> request_ok r' /\ (x = Some true -> measure r' < measure r).

Lemma receive_pass_ok r : request_ok r -> phase r = RECEIVE -> wp receive_pass (pass_ok r) r.
Proof.
  intros Hok Hph. assert (Hb : busy r r) by done. apply wp_bind. eapply wp_rewind; [done|]. intros r1 Hb1 Ha1 K1 Hc1.
  apply wp_bind, wp_get. pose proof (busy_ok _ _ Hb1) as Hok1. pose proof (busy_phase _ _ Hb1) as Hph1.
  destruct (_ && _).
  - apply wp_bind. eapply wp_mono with (Q := fun result r2 => phase r2 = RECEIVE -> request_ok r2 /\ result <> 0).
    { destruct handle_content_end as [h|] eqn:E; [|by apply wp_ret].
      pose proof (content_end_ok h E r1 Hok1 Hph1) as H1. pose proof (content_end_answers h r1 E Hok1 Hph1) as H2.
      unfold wp in *. destruct (h r1) as [[[z r2]|]| |]; try done. intros Hph2. destruct (H1 Hph2) as [K _].
      split; [by eapply request_ok_keep|auto]. }
    intros result r2 H2. apply wp_bind. eapply wp_mono; [apply take_result_keeps|]. intros b r3 (K3 & _ & Hb3).
    apply wp_ret. intros Hph3. destruct (H2 ltac:(destruct K3; congruence)) as [Hok2 Hne].
    split; [by eapply request_ok_keep|]. intros [= ->]. by destruct Hne, Hb3.
  - apply wp_bind, wp_get, wp_bind, wp_get, wp_bind.
    eapply wp_mono with (Q := fun _ r2 => parsed_to r1 r2 /\ parsed r1 <= parsed r2).
    { assert (Hb11 : busy r1 r1) by done. destruct (parser r1) as [p|] eqn:E.
      - apply wp_bind. eapply wp_mono; [by apply parser_keeps|]. intros result r2 H2.
        apply wp_bind, wp_bind, wp_get, wp_assert. intros Hp. unfold id in Hp. bsplit. by apply wp_ret.
      - assert (Hc : parsed r1 <= end_ r1) by (destruct Hok1; lia).
        apply wp_bind, wp_modify, wp_bind.
        eapply (wp_commit r1); [eapply busy_keep; [exact Hb11|apply keep_set_cursor]|exact Hc|].
        intros Hb2. apply wp_ret. split; [by apply parsed_to_busy|exact Hc]. }
    intros result r2 [H2 Hp2]. apply wp_bind, wp_get. unfold id.
    destruct (bool_decide (phase r2 = RECEIVE)) eqn:E2; cbn [negb]; bsplit; [|by apply wp_ret].
    destruct (H2 E2) as (Hok2 & He2 & Hpar2). destruct (result =? 100); [by apply wp_ret|].
    set (stuck := _ && _). apply wp_bind. eapply wp_mono; [apply take_result_keeps|]. intros b r3 (K3 & _ & Hb3).
    apply wp_ret. intros Hph3. split; [by eapply request_ok_keep|]. intros [= ->].
    assert (Hstuck : stuck = false) by (destruct stuck; [by specialize (Hb3 eq_refl)|done]).
    destruct stuck eqn:E; [done|]. specialize (Hb3 eq_refl). subst result.
    apply andb_false_iff in E. rewrite Z.eqb_refl in E. simpl in E.
    pose proof (rank_bounds (parser r2)). destruct K1, K3. unfold measure, buffer_size.
    destruct Hok2 as [_ Ho2 _ _], Hok1 as [_ Ho1 _ _]. unfold buffer_size in *. rewrite keep_parser0, keep_end0, keep_parsed0.
    destruct Hpar2 as [Hpar|Hpar].
    + destruct E as [E|E]; bsplit; [rewrite Hpar, keep_parser; lia|done].
    + rewrite keep_parser in Hpar. nia.
Qed.

Lemma receive_loop_ok fuel : forall r, (phase r = RECEIVE -> request_ok r /\ measure r < Z.of_nat fuel) ->
  wp (receive_loop fuel) (fun _ r' => phase r' = RECEIVE -> request_ok r') r.
Proof.
  induction fuel as [|fuel IH]; intros r Hr.
  - apply wp_bind, wp_get. destruct (bool_decide (phase r = RECEIVE)) eqn:E; cbn [negb]; bsplit; [|by apply wp_ret].
    destruct (Hr E) as [Hok Hm]. pose proof (measure_bounds r Hok). lia.
  - apply wp_bind, wp_get. destruct (bool_decide (phase r = RECEIVE)) eqn:E; cbn [negb]; bsplit; [|by apply wp_ret].
    destruct (Hr E) as [Hok Hm]. apply wp_bind. eapply wp_mono; [by apply receive_pass_ok|].
    intros x r1 H1. destruct x as [[]|]; [|apply wp_ret; intros Hph; by destruct (H1 Hph)..].
    apply IH. intros Hph. destruct (H1 Hph) as [Hok1 Hm1]. split; [done|]. specialize (Hm1 eq_refl). lia.
Qed.

(** ** The response *)

Lemma pending_cons bs i : pending (Some bs :: i) = (length bs + pending i)%nat.
Proof. unfold pending. rewrite fmap_cons. cbn [concat]. fold (concat (A := Z)). simpl. by rewrite length_app. Qed.
Lemma drain_ends fuel : forall r, (pending (input r) < fuel)%nat -> wp (drain_loop fuel) (fun _ _ => True) r.
Proof.
  induction fuel as [|fuel IH]; intros r Hr; [lia|]. cbn [drain_loop]. apply wp_bind, wp_bind, wp_get.
  destruct (input r) as [|[bs|] i] eqn:Ei.
  - by apply wp_ret.
  - apply wp_bind, wp_modify, wp_ret. destruct (take _ bs) as [|c l] eqn:Et; [by apply wp_ret|]. apply IH.
    assert (Hl : (length (take (Z.to_nat 8192) bs) + length (drop (Z.to_nat 8192) bs) = length bs)%nat)
      by (rewrite <- length_app, take_drop; done).
    rewrite Et in Hl. cbn [length] in Hl. rewrite pending_cons in Hr. cbn [input set_input].
    destruct (drop _ bs) as [|d l'] eqn:Ed; rewrite ?pending_cons; cbn [length] in *; lia.
  - apply wp_bind, wp_modify, wp_bind, wp_modify, wp_ret, wp_ret. done.
Qed.

Lemma start_response_ends r : request_ok r ->
  wp http_request_start_response (fun _ r' => phase r' <> RECEIVE) r.
Proof.
  intros Hok. apply wp_bind, wp_bind, wp_get, wp_assert. intros _.
  pose proof (ok_strings _ Hok) as [es Hes]. destruct (release_run es r Hok Hes) as (r1 & E1 & _).
  apply wp_bind. unfold wp at 1. rewrite E1. destruct disable_tx; [by apply wp_modify|].
  apply wp_bind, wp_bind, wp_bind, wp_get, wp_assert. intros _. apply wp_bind, wp_get.
  eapply wp_mono; [apply drain_ends; lia|]. intros _ r2 _. apply wp_bind, wp_get.
  destruct (bool_decide (phase r2 = RECEIVE)) eqn:E; cbn [negb]; bsplit; [|by apply wp_ret].
  assert (Hend : forall (ok : bool) r, wp (if ok then modify (set_phase TRANSMIT) else http_request_finalise)
    (fun _ r' => phase r' <> RECEIVE) r) by (intros [] r'; by apply wp_modify).
  apply wp_bind, wp_get. apply wp_bind. eapply wp_mono with (Q := fun _ _ => True); [by destruct (_ && _); [apply wp_modify|apply wp_ret]|]. intros _ r2' _.
  apply wp_bind. eapply wp_mono; [apply render_ends|]. intros ok r3 _. apply wp_bind.
  destruct ok; [apply wp_ret; exact (Hend true r3)|]. apply wp_bind, wp_modify. eapply wp_mono; [apply render_ends|]. intros ok r4 _. apply Hend.
Qed.

(** ** Receiving *)

Lemma wp_store off bs (Q : unit -> http_request -> Prop) r :
  0 <= off -> off + zlen bs <= zlen (buffer r) -> Q tt (set_buffer (splice off bs (buffer r)) r) -> wp (store off bs) Q r.
Proof. intros H1 H2 H. unfold wp. by rewrite store_at. Qed.
Lemma wp_sub_read start len (Q : list Z -> http_request -> Prop) r :
  (forall bs, zlen bs = len -> Q bs r) -> wp (sub_read (Sub start len)) Q r.
Proof.
  intros H. unfold wp, sub_read. destruct start; (destruct (_ && _) eqn:E; [|done]); bsplit; apply H, zlen_slice; lia.
Qed.

(** A store behind the reserved strings. *)
Lemma store_ok off bs r : request_ok r -> received r <= off -> off + zlen bs <= zlen (buffer r) ->
  request_ok (set_buffer (splice off bs (buffer r)) r).
Proof.
  intros Hok Ho Hs. pose proof Hok as [Hsz Hord Hl (es & Hes)]. apply (request_ok_keep r); [|done].
  split; try done; simpl.
  - apply slice_splice_before; lia.
  - apply zlen_splice; lia.
Qed.

Lemma make_room_ok r : request_ok r -> phase r = RECEIVE ->
  wp make_room (fun room r' => request_ok r' /\ phase r' = RECEIVE /\ room <= buffer_size - end_ r') r.
Proof.
  intros Hok Hph. apply wp_bind, wp_get. unfold id. destruct (_ && _) eqn:E; [apply wp_ret; bsplit; split_and!; [done|done|lia]|].
  match goal with |- wp (if ?b then _ else _) _ _ => destruct b end; [|apply wp_ret; split_and!; [done|done|lia]].
  apply wp_bind, wp_sub_read. intros bs Hbs. pose proof Hok as [Hsz Ho _ _].
  apply wp_bind, wp_store; [lia..|].
  assert (Hok2 : request_ok (set_buffer (splice (received r) bs (buffer r)) r)) by (apply store_ok; [done|lia|lia]).
  set (r2 := set_buffer _ r) in *. apply wp_bind, wp_modify, wp_bind, wp_modify, wp_get.
  split_and!; [|done|].
  - assert (received r2 = received r) by done. assert (parsed r2 = parsed r) by done. clearbody r2.
    destruct Hok2 as [Hs2 Ho2 Hl2 (es & Hes)]. split; [done|simpl; lia|done|]. exists es. by apply (reserves_same es r2).
  - clear E. unfold limit_room. simpl. destruct (_ && _) eqn:E2; bsplit; lia.
Qed.

Lemma http_read_keeps n r :
  wp (http_request_read n) (fun x r' => match x with Some bs => keep r r' /\ zlen bs <= Z.max 0 n | None => phase r' = DONE end) r.
Proof.
  apply wp_bind, wp_get. destruct (input r) as [|[bs|] i]; [apply wp_ret; split; [done|change (zlen []) with 0; lia]| |].
  - apply wp_bind, wp_modify, wp_ret. split; [by split|]. unfold zlen. rewrite length_take. lia.
  - by apply wp_bind, wp_modify, wp_bind, wp_modify, wp_ret.
Qed.

Lemma http_receive_ok (r : http_request) (fuel : nat) : request_ok r -> (receive_fuel <= fuel)%nat ->
  wp (http_request_receive fuel) (fun _ r' => phase r' = RECEIVE -> request_ok r') r.
Proof.
  intros Hok Hfuel. apply wp_bind, wp_bind, wp_get, wp_assert. intros Hph. unfold id in Hph. bsplit.
  do 3 (apply wp_bind, wp_bind, wp_get, wp_assert; intros _).
  apply wp_bind. eapply wp_mono; [by apply make_room_ok|]. intros room r1 (Hok1 & Hph1 & Hroom).
  destruct (room =? 0).
  { apply wp_bind, wp_bind, wp_get, wp_assert. intros _. apply wp_bind, wp_modify.
    eapply wp_mono; [apply start_response_ends|by intros]. by apply (request_ok_same r1). }
  apply wp_bind, wp_assert. intros Hpos. apply wp_bind, wp_bind, wp_get, wp_assert. intros _. bsplit.
  apply wp_bind.
  eapply wp_mono; [by apply http_read_keeps|]. intros x r2 H2.
  destruct x as [bs|]; [|apply wp_ret; intros ?; congruence]. destruct H2 as [H2 Hbs].
  pose proof (request_ok_keep _ _ H2 Hok1) as Hok2. assert (Hend2 : end_ r2 = end_ r1) by (by destruct H2).
  destruct bs as [|c bs]; [by apply wp_ret|]. set (new := c :: bs) in *.
  pose proof Hok2 as [Hsz2 Ho2 _ _]. apply wp_bind, wp_get, wp_bind, wp_store; unfold id; [lia..|].
  apply wp_bind, wp_assert. intros H5. bsplit.
  assert (Hok3 : request_ok (set_buffer (splice (end_ r2) new (buffer r2)) r2)) by (apply store_ok; [done|lia|lia]).
  set (r3 := set_buffer _ r2) in *. apply wp_bind, wp_modify.
  assert (Hok4 : request_ok (set_end (end_ r2 + zlen new) r3)).
  { assert (end_ r2 = end_ r1) by (by destruct H2). assert (end_ r3 = end_ r2) by done. clearbody r3.
    destruct Hok3 as [Hs3 Ho3 Hl3 (es & Hes)]. pose proof (zlen_nonneg new). split; [done|simpl; lia|done|].
    exists es. by apply (reserves_same es r3). }
  assert (Hph4 : phase (set_end (end_ r2 + zlen new) r3) = RECEIVE) by (simpl; destruct H2; congruence).
  set (r4 := set_end _ r3) in *. clearbody r4. apply wp_bind.
  assert (Hrest : forall r, request_ok r -> phase r = RECEIVE ->
    wp (receive_loop fuel ≫= finish_receive) (fun _ r' => phase r' = RECEIVE -> request_ok r') r).
  { clear -Hfuel pok hok. intros r Hok Hph. apply wp_bind. eapply wp_mono.
    { apply receive_loop_ok. intros _. split; [done|]. pose proof (measure_bounds r Hok).
      assert (Z.of_nat receive_fuel = 8 * 8193) by (unfold receive_fuel; rewrite N_nat_Z; done). lia. }
    intros left r1 H1. destruct left; cbn [negb]; [|by apply wp_ret]. apply wp_bind, wp_get. unfold id.
    destruct (bool_decide (phase r1 = RECEIVE)) eqn:E; cbn [negb]; bsplit; [|by apply wp_assert].
    pose proof (H1 E) as Hok1. apply wp_bind.
    destruct (_ =? 0); [apply wp_modify|apply wp_ret];
      (eapply wp_mono; [apply start_response_ends|by intros]; [by apply (request_ok_same r1)]). }
  destruct (_ =? CONTENT_LENGTH_UNKNOWN); [by apply wp_ret, Hrest|]. apply wp_modify, Hrest; [|done]. by apply (request_ok_same r4).
Qed.
End receive.
