(* ===== verification/HttpText.v ===== *)
(** * The HTTP request parser: reading known text

    What the lexical functions return when the text in view is known: literals,
    numbers and words are read up to where they end, and the cursor moves to
    what follows ([at_suffix]).  Then lists of ranges, as written and as closed. *)

From Stdlib Require Import ZArith Lia Ascii String.
From stdpp Require Import base tactics list numbers.
From S2P Require Import Prelude Cstring Ctype Str StrNumbers Http HttpValues HttpWp HttpParse.

Local Open Scope Z_scope.

(** ** Running one step *)

Lemma bind_run {A B} (m : HP A) (f : A -> HP B) r a r' : m r = Ret (Some (a, r')) -> (m ≫= f) r = f a r'.
Proof. intros E. unfold mbind, HP_bind. by rewrite E. Qed.
(** Runs the first function of a sequence, with [tac] to prove what it returns. *)
Tactic Notation "run" tactic3(tac) := (erewrite bind_run by tac); cbv beta iota.
Lemma get_bind {A B} (f : http_request -> A) (k : A -> HP B) r : (get f ≫= k) r = k (f r) r.
Proof. done. Qed.
Lemma and_then_run (m n : HP bool) r b r' :
  m r = Ret (Some (b, r')) -> (m <&&> n) r = if b then n r' else Ret (Some (false, r')).
Proof. intros E. unfold and_then. rewrite (bind_run _ _ _ _ _ E). by destruct b. Qed.

Lemma view_app r s t : view r (s ++ t) -> view (at_suffix t r) t.
Proof. intros Hv. eapply view_suffix; [exact Hv|by apply suffix_app_r]. Qed.
Lemma at_suffix_twice s t r : at_suffix s (at_suffix t r) = at_suffix s r.
Proof. done. Qed.
(** The cursor is where the text in view starts. *)
Lemma at_suffix_view r s : view r s -> at_suffix s r = r.
Proof.
  intros Hv. pose proof (view_zlen _ _ Hv). unfold at_suffix. replace (end_ r - zlen s) with (cursor r) by lia. by destruct r.
Qed.
(** What may be read at the cursor starts with the text in view. *)
Lemma view_offset r s : view r s -> exists beyond, at_offset (cursor r) r = s ++ beyond /\ zlen beyond = zlen (buffer r) - end_ r.
Proof.
  intros Hv. pose proof (view_zlen _ _ Hv) as Hl. destruct Hv as [Hc Hs Ht]. unfold at_offset.
  exists (drop (Z.to_nat (end_ r - cursor r)) (drop (Z.to_nat (cursor r)) (buffer r))). split.
  - unfold slice in Ht. by rewrite <- Ht, take_drop.
  - unfold zlen in *. rewrite !length_drop. lia.
Qed.

Lemma run_out_run r s : view r s -> _run_out r = Ret (Some (match s with [] => true | _ => false end, r)).
Proof.
  intros Hv. pose proof (view_zlen _ _ Hv) as Hl. destruct Hv as [Hc _ _]. unfold _run_out.
  rewrite (proj2 (Z.leb_le _ _)) by lia. simpl. do 3 f_equal.
  destruct s as [|c s]; [change (zlen []) with 0 in Hl; apply Z.eqb_eq; lia|].
  rewrite zlen_cons in Hl. pose proof (zlen_nonneg s). apply Z.eqb_neq. lia.
Qed.

(** ** Literals *)

Lemma skip_literal_app f lit s : skip_literal f lit (lit ++ s) = (true, s).
Proof. induction lit as [|c lit IH]; [by destruct s|]. simpl. by rewrite Z.eqb_refl. Qed.
Lemma literal_run lit s r : view r (lit ++ s) -> _skip_literal lit r = Ret (Some (true, at_suffix s r)).
Proof. intros Hv. unfold _skip_literal. rewrite (scan_run _ _ _ Hv). by rewrite skip_literal_app. Qed.
Lemma literal_nocase_run lit s r : view r (lit ++ s) -> _skip_literal_nocase lit r = Ret (Some (true, at_suffix s r)).
Proof. intros Hv. unfold _skip_literal_nocase. rewrite (scan_run _ _ _ Hv). by rewrite skip_literal_app. Qed.
(** A literal whose first character is not the next one. *)
Lemma literal_other l lit c s r : view r (c :: s) -> c <> l ->
  _skip_literal (l :: lit) r = Ret (Some (false, r)).
Proof.
  intros Hv Hc. unfold _skip_literal. rewrite (scan_run _ _ _ Hv). simpl. unfold id.
  rewrite (proj2 (Z.eqb_neq c l) Hc). simpl. by rewrite (at_suffix_view _ _ Hv).
Qed.

(** ** Spaces *)

Lemma skip_while_app p s t : Forall (fun c => p c = true) s -> (match t with c :: _ => p c = false | [] => True end) ->
  skip_while p (s ++ t) = t.
Proof.
  intros Hs Ht. induction Hs as [|c s Hc _ IH]; simpl; [|by rewrite Hc].
  destruct t as [|c t]; [done|]. simpl. by rewrite Ht.
Qed.
Definition spaces (s : list Z) : Prop := Forall (fun c => is_http_space c = true) s.
Definition no_space (t : list Z) : Prop := match t with c :: _ => is_http_space c = false | [] => True end.
Lemma optional_space_run s t r : view r (s ++ t) -> spaces s -> no_space t ->
  _skip_optional_space r = Ret (Some (true, at_suffix t r)).
Proof. intros Hv Hs Ht. unfold _skip_optional_space. rewrite (scan_run _ _ _ Hv). simpl. by rewrite skip_while_app. Qed.

(** ** Numbers *)

Lemma digit_isdigit c : is_digit_of 10 c = true -> isdigit c = true.
Proof.
  intros H. destruct (is_digit_of_spec 10 c H) as [Hc _]. revert H. apply (implb_true_iff).
  exact (all_bytes_dec (fun c => implb (is_digit_of 10 c) (isdigit c)) eq_refl c Hc).
Qed.

Lemma number_run w ds c s r :
  view r (ds ++ c :: s) -> 0 <= w -> Forall (fun c => is_digit_of 10 c = true) ds -> ds <> [] ->
  radix_value 10 0 ds < 2 ^ w -> is_byte c -> is_digit_of 10 c = false ->
  parse_number (fun s => strn_to_uint w s 0 10 true) r = Ret (Some (Some (radix_value 10 0 ds), at_suffix (c :: s) r)).
Proof.
  intros Hv Hw Hds Hne Hfit Hc Hstop. unfold parse_number. rewrite (bind_run _ _ _ _ _ (ahead_run _ _ Hv)).
  destruct ds as [|d ds]; [done|]. rewrite <- app_comm_cons.
  rewrite (digit_isdigit d) by (by apply Forall_cons_1 in Hds as [? _]).
  unfold mbind, HP_bind, get, lift. cbn [mbind outcome_bind].
  destruct (view_offset _ _ Hv) as (beyond & E & Hb). rewrite E, <- app_assoc.
  rewrite strn_to_uint_digits by (done || lia || exact (conj Hc Hstop)). cbn [mbind outcome_bind modify p_ok p_value p_end orb].
  unfold at_suffix. rewrite zlen_cons, zlen_app, zlen_cons, Hb.
  replace (zlen (buffer r) - _) with (end_ r - (1 + zlen s)) by lia. done.
Qed.
Lemma size_run v c s r :
  view r (decimal v ++ c :: s) -> 0 <= v < 2 ^ 64 -> is_byte c -> is_digit_of 10 c = false ->
  _parse_http_size_t r = Ret (Some (Some v, at_suffix (c :: s) r)).
Proof.
  intros Hv Hr Hc Hs. destruct (decimal_spec v Hr) as [(Hd & E & Hn) _].
  unfold _parse_http_size_t, str_to_uint64, strn_to_uint64. rewrite (number_run 64 _ c s r Hv) by (done || lia). by rewrite E.
Qed.
Lemma uint32_run v c s r :
  view r (decimal v ++ c :: s) -> 0 <= v < 2 ^ 32 -> is_byte c -> is_digit_of 10 c = false ->
  _parse_uint32 r = Ret (Some (Some v, at_suffix (c :: s) r)).
Proof.
  intros Hv Hr Hc Hs. destruct (decimal_spec v) as [(Hd & E & Hn) _]; [lia|].
  unfold _parse_uint32, str_to_uint32, strn_to_uint32. rewrite (number_run 32 _ c s r Hv) by (done || lia). by rewrite E.
Qed.
(** Where no digit follows, no number is read. *)
Lemma size_none c s r : view r (c :: s) -> isdigit c = false -> _parse_http_size_t r = Ret (Some (None, r)).
Proof.
  intros Hv Hc. unfold _parse_http_size_t, parse_number. rewrite (bind_run _ _ _ _ _ (ahead_run _ _ Hv)). by rewrite Hc.
Qed.
Lemma decimal_head v : 0 <= v < 2 ^ 64 -> exists d ds, decimal v = d :: ds /\ isdigit d = true /\ is_byte d.
Proof.
  intros Hv. destruct (decimal_spec v Hv) as [(Hd & _ & Hn) _]. destruct (decimal v) as [|d ds]; [done|].
  apply Forall_cons_1 in Hd as [Hd _]. exists d, ds. split_and!; [done|by apply digit_isdigit|]. by apply is_digit_of_spec in Hd as [? _].
Qed.

(** * The HTTP request parser: ranges

    The text of a Range header is read back as the ranges it was written from,
    and [http_range_close] gives the positions of a resource the ranges ask for. *)

Definition is_size (x : Z) : Prop := 0 <= x < 2 ^ 64.
(** What the parser can produce. *)
Definition range_ok (x : http_range) : Prop :=
  is_size (rg_first x) /\ is_size (rg_last x) /\
  match rg_type x with
  | NIL => False
  | CLOSED => rg_first x <= rg_last x
  | OPEN => rg_last x = 0
  | SUFFIX => rg_first x = 0
  end.

(** ** Reading ranges *)

Definition render_range (x : http_range) : list Z :=
  match rg_type x with
  | NIL => []
  | CLOSED => decimal (rg_first x) ++ zs "-" ++ decimal (rg_last x)
  | OPEN => decimal (rg_first x) ++ zs "-"
  | SUFFIX => zs "-" ++ decimal (rg_last x)
  end.
(** The first range, and the others behind a comma and spaces. *)
Definition render_ranges (x : http_range) (xs : list (list Z * http_range)) : list Z :=
  render_range x ++ concat ((fun '(sp, x) => zs "," ++ sp ++ render_range x) <$> xs).

(** A character that ends a number and a list of ranges. *)
Definition ends_number (c : Z) : Prop := is_byte c /\ is_digit_of 10 c = false /\ isdigit c = false.

Section ranges.
Context {arch : Arch} {henv : HttpEnv}.

Lemma dash_run s r : view r (zs "-" ++ s) -> _skip_literal (zs "-") r = Ret (Some (true, at_suffix s r)).
Proof. apply literal_run. Qed.

Lemma range_run x c s r : range_ok x -> ends_number c -> view r (render_range x ++ c :: s) ->
  _parse_range r = Ret (Some (Some x, at_suffix (c :: s) r)).
Proof.
  intros (Hf & Hl & Ht) (Hc & Hd & Hd') Hv. destruct x as [t first last]. unfold render_range in Hv. cbn [rg_type rg_first rg_last] in *.
  destruct t; [done| | |]; rewrite <- ?app_assoc in Hv; unfold _parse_range.
  1,2: destruct (decimal_head first Hf) as (d & ds & E & Hdd & Hdb);
    assert (Hne : d <> chr "-") by (intros ->; done);
    (run (rewrite E in Hv; by eapply (literal_other (chr "-") [])));
    (run (by apply (size_run first (chr "-") _ r Hv)));
    (pose proof (view_app _ _ _ Hv) as Hv1); (run (by apply dash_run));
    (pose proof (view_app _ _ _ Hv1) as Hv2); rewrite at_suffix_twice in *.
  - run (by apply (size_run last c s _ Hv2)). rewrite (proj2 (Z.ltb_ge last first)) by lia. done.
  - run (by eapply size_none). by subst.
  - run (by apply dash_run). pose proof (view_app _ _ _ Hv) as Hv1.
    run (by apply (size_run last c s _ Hv1)). by subst.
Qed.

(** The array after the ranges from index [i] on have been stored. *)
Fixpoint fill (i : nat) (range xs : list http_range) : list http_range :=
  match xs with [] => range | x :: xs => fill (S i) (<[i:=x]> range) xs end.

Lemma store_fill i (x : http_range) range :
  (if Z.of_nat i <? zlen range then <[Z.to_nat (Z.of_nat i):=x]> range else range) = <[i:=x]> range.
Proof.
  rewrite Nat2Z.id. destruct (Z.ltb_spec (Z.of_nat i) (zlen range)) as [|Hi]; [done|].
  rewrite list_insert_ge; [done|]. unfold zlen in Hi. lia.
Qed.
Lemma render_cons x sp y xs : render_ranges x ((sp, y) :: xs) = render_range x ++ zs "," ++ sp ++ render_ranges y xs.
Proof. unfold render_ranges. rewrite fmap_cons. cbn [concat]. fold (concat (A := Z)). by rewrite <- !app_assoc. Qed.
Lemma render_no_space x xs s : range_ok x -> no_space (render_ranges x xs ++ s).
Proof.
  intros (Hf & Hl & Ht). unfold render_ranges, render_range. destruct x as [[] first last]; cbn [rg_type rg_first rg_last] in *; [done|..| |].
  3: by simpl.
  all: destruct (decimal_head first Hf) as (d & ds & -> & Hd & Hb); simpl.
  all: unfold is_http_space; unfold isdigit, between in Hd; bsplit; apply orb_false_iff; split; apply Z.eqb_neq; unfold chr; simpl; lia.
Qed.

Lemma ranges_loop_run c s : ends_number c -> c <> chr "," -> forall xs x fuel i range r,
  range_ok x -> Forall (fun '(sp, x) => spaces sp /\ range_ok x) xs -> (length xs < fuel)%nat ->
  view r (render_ranges x xs ++ c :: s) ->
  ranges_loop fuel (Z.of_nat i) range (zlen range) r
  = Ret (Some ((Z.of_nat i + 1 + zlen xs, fill i range (x :: xs.*2)), at_suffix (c :: s) r)).
Proof.
  intros Hc Hcomma xs. induction xs as [|[sp y] xs IH]; intros x fuel i range r Hx Hxs Hfuel Hv;
    (destruct fuel as [|fuel]; [simpl in Hfuel; lia|]); cbn [ranges_loop].
  - unfold render_ranges in Hv. cbn [fmap list_fmap concat] in Hv. rewrite app_nil_r in Hv.
    run (by eapply range_run). pose proof (view_app _ _ _ Hv) as Hv1.
    run (by eapply (literal_other (chr ",") [])).
    rewrite store_fill. cbn [fmap list_fmap fill]. change (zlen []) with 0. by rewrite Z.add_0_r.
  - rewrite (render_cons x sp y xs), <- !app_assoc in Hv. apply Forall_cons_1 in Hxs as [[Hsp Hy] Hxs].
    change (zs "," ++ ?l) with (chr "," :: l) in Hv.
    run (eapply (range_run x (chr ",")); [done|done|exact Hv]). pose proof (view_app _ _ _ Hv) as Hv1.
    run (by apply (literal_run (zs ",") _ _ Hv1)). rewrite at_suffix_twice.
    pose proof (view_app _ (zs ",") _ Hv1) as Hv2. rewrite at_suffix_twice in Hv2.
    run (eapply optional_space_run; [exact Hv2|done|by apply render_no_space]). rewrite at_suffix_twice.
    pose proof (view_app _ _ _ Hv2) as Hv3. rewrite at_suffix_twice in Hv3.
    rewrite store_fill. replace (Z.of_nat i + 1) with (Z.of_nat (S i)) by lia.
    replace (zlen range) with (zlen (<[i:=x]> range)) by (unfold zlen; by rewrite length_insert).
    rewrite (IH y fuel (S i) _ _ Hy Hxs) by (done || (simpl in Hfuel; lia)). rewrite at_suffix_twice, zlen_cons.
    do 4 f_equal. lia.
Qed.

Lemma fill_lookup xs : forall i range k, fill i range xs !! k =
  if decide ((i <= k < i + length xs)%nat /\ (k < length range)%nat) then xs !! (k - i)%nat else range !! k.
Proof.
  induction xs as [|x xs IH]; intros i range k; simpl.
  - destruct (decide _); [lia|done].
  - rewrite IH, length_insert. destruct (decide (i = k)) as [->|Hik].
    + rewrite (decide_False (P := (S k <= k < _)%nat /\ _)) by lia. rewrite Nat.sub_diag.
      destruct (decide _) as [[_ Hk]|Hk]; [by rewrite list_lookup_insert_eq|]. rewrite list_insert_ge by lia. done.
    + rewrite list_lookup_insert_ne by done. destruct (decide _), (decide _); try lia; [|done].
      by replace (k - i)%nat with (S (k - S i)) by lia.
Qed.

Lemma render_ranges_length xs x : Forall (fun '(_, x) => range_ok x) xs -> range_ok x ->
  (length xs < length (render_ranges x xs))%nat.
Proof.
  revert x. induction xs as [|[sp y] xs IH]; intros x Hxs Hx.
  - unfold render_ranges. cbn. rewrite app_nil_r. destruct Hx as (Hf & Hl & Ht). unfold render_range. destruct x as [[] first last]; simpl in *; [done|..]; rewrite ?length_app; simpl; lia.
  - rewrite render_cons, !length_app. apply Forall_cons_1 in Hxs as [Hy Hxs]. specialize (IH y Hxs Hy). simpl. lia.
Qed.

Lemma parse_ranges_fill x xs c s range r :
  range_ok x -> Forall (fun '(sp, x) => spaces sp /\ range_ok x) xs -> ends_number c -> c <> chr "," ->
  view r (render_ranges x xs ++ c :: s) ->
  _parse_ranges range (zlen range) r = Ret (Some ((1 + zlen xs, fill 0 range (x :: xs.*2)), at_suffix (c :: s) r)).
Proof.
  intros Hx Hxs Hc Hcomma Hv.
  unfold _parse_ranges. run (by apply ahead_run). apply (ranges_loop_run c s Hc Hcomma xs x _ 0 range r Hx Hxs); [|done].
  rewrite length_app. assert (length xs < length (render_ranges x xs))%nat; [|lia].
  apply render_ranges_length; [|done]. eapply Forall_impl; [|exact Hxs]. by intros [sp y] [_ ?].
Qed.
Lemma fill_length l : forall i range, length (fill i range l) = length range.
Proof. induction l as [|y l IH]; intros i range; [done|]. simpl. by rewrite IH, length_insert. Qed.
(** The first ranges, as many as there is room for. *)
Lemma fill_take l range : take (length l) (fill 0 range l) = take (length range) l.
Proof.
  apply list_eq. intros k. rewrite !lookup_take, fill_lookup.
  destruct (decide (k < length l)%nat), (decide (k < length range)%nat); try done.
  - by rewrite decide_True, Nat.sub_0_r by lia.
  - rewrite decide_False by lia. apply lookup_ge_None. lia.
  - symmetry. apply lookup_ge_None. lia.
Qed.
End ranges.

(** ** Closing ranges *)

(** The positions of a resource that a range asks for. *)
Definition asks_for (len : Z) (x : http_range) (p : Z) : Prop :=
  0 <= p < len /\
  match rg_type x with
  | NIL => False
  | CLOSED => rg_first x <= p <= rg_last x
  | OPEN => rg_first x <= p
  | SUFFIX => len - rg_last x <= p
  end.

(** [dst] has, in order, a closed range for every range of [src] that asks for something. *)
Inductive closes (len : Z) : list http_range -> list http_range -> Prop :=
| closes_nil : closes len [] []
| closes_skip x src dst : (forall p, ~ asks_for len x p) -> closes len src dst -> closes len (x :: src) dst
| closes_take x src first last dst :
    first <= last -> (forall p, asks_for len x p <-> first <= p <= last) -> closes len src dst ->
    closes len (x :: src) (Range CLOSED first last :: dst).

Lemma close_range_spec len x : 0 < len < 2 ^ 64 -> range_ok x ->
  (close_range len x = Ret None /\ (forall p, ~ asks_for len x p)) \/
  exists first last, close_range len x = Ret (Some (Range CLOSED first last)) /\ first <= last /\
    (forall p, asks_for len x p <-> first <= p <= last).
Proof.
  intros Hlen (Hf & Hl & Ht). unfold is_size in *. unfold close_range, asks_for.
  assert (E : u64 (len - 1) = len - 1) by (apply uN_small; lia). rewrite E.
  destruct x as [[] first last]; cbn [rg_type rg_first rg_last mbind outcome_bind] in *; [done|..];
    destruct (Z.ltb_spec first len), (Z.ltb_spec last len); zcase; try lia;
    first [ left; split; [done|]; intros; lia
          | right; eexists _, _; split; [done|]; split; [lia|]; intros; lia ].
Qed.

Lemma range_close_run len src : 0 < len < 2 ^ 64 -> Forall range_ok src ->
  exists dst, http_range_close src len = Ret dst /\ closes len src dst.
Proof.
  intros Hlen. induction 1 as [|x src Hx _ (dst & E & Hd)]; [eexists; split; [done|constructor]|].
  simpl. destruct (close_range_spec len x Hlen Hx) as [(Ec & Hn)|(first & last & Ec & Hfl & Hp)]; rewrite Ec, E; simpl.
  - exists dst. split; [done|]. by apply closes_skip.
  - eexists. split; [done|]. by apply closes_take.
Qed.

(** How many positions closed ranges have. *)
Definition positions (dst : list http_range) : Z := foldr (fun x n => (rg_last x - rg_first x + 1) + n) 0 dst.
Lemma closes_bytes len src dst : closes len src dst -> forall bytes, range_bytes_loop dst (u64 bytes) = Ret (u64 (bytes + positions dst)).
Proof.
  induction 1 as [|x src dst _ _ IH|x src first last dst Hfl Hp _ IH]; intros bytes; simpl; [by rewrite Z.add_0_r|done|].
  rewrite (proj2 (Z.leb_le first last)) by done. cbn [cassert mbind outcome_bind].
  replace (u64 (u64 bytes + (last - first + 1))) with (u64 (bytes + (last - first + 1))) by (unfold uN; by rewrite Zplus_mod_idemp_l).
  rewrite IH. do 2 f_equal. lia.
Qed.
