(* ===== verification/HttpHead.v ===== *)
(** * The HTTP request parser: the head of a request

    What the parsers of the request line and of the headers do on a text in view, and
    the passes of the receive loop over a head that has been written from a verb, a
    path, a version and headers. *)

From Stdlib Require Import ZArith Lia Ascii String.
From stdpp Require Import base tactics list numbers.
From S2P Require Import Prelude Cstring Ctype Str StrNumbers Http HttpValues HttpParse HttpWp HttpReserve HttpText.

Local Open Scope Z_scope.

(** ** Verbs *)

(** What a literal does to a text: it is there, the text is too short, or it is not there. *)
Lemma skip_literal_cases lit s :
  (exists t, s = lit ++ t /\ skip_literal id lit s = (true, t)) \/
  (exists t, t <> [] /\ s ++ t = lit /\ skip_literal id lit s = (false, [])) \/
  ((forall t, s <> lit ++ t) /\ (forall t, s ++ t <> lit) /\
   exists c t, (c :: t) `suffix_of` s /\ skip_literal id lit s = (false, c :: t)).
Proof.
  revert s. induction lit as [|l lit IH]; intros s; [left; exists s; by destruct s|].
  destruct s as [|c s]; [right; left; by exists (l :: lit)|]. cbn [skip_literal]. change (id c =? id l) with (c =? l).
  destruct (Z.eqb_spec c l) as [->|Hc].
  - destruct (IH s) as [(t & -> & E)|[(t & Ht & <- & E)|(H1 & H2 & d & t & Hs & E)]].
    + left. by exists t.
    + right. left. by exists t.
    + right. right. split_and!; [intros w [= Ew]; by apply (H1 w)|intros w [= Ew]; by apply (H2 w)|]. exists d, t. split; [by apply suffix_cons_r|done].
  - right. right. split_and!; [by intros w [= Ec _]|by intros w [= Ec _]|]. by exists c, s.
Qed.

(** Two literals in a row are one. *)
Lemma literals_run a b r s : view r s ->
  (_skip_literal a <&&> _skip_literal b) r
  = Ret (Some ((skip_literal id (a ++ b) s).1, at_suffix (skip_literal id (a ++ b) s).2 r)).
Proof.
  intros Hv. assert (Ha : _skip_literal a r = Ret (Some ((skip_literal id a s).1, at_suffix (skip_literal id a s).2 r)))
    by (apply (scan_run _ _ _ Hv)).
  rewrite (and_then_run _ _ _ _ _ Ha). clear Ha.
  assert (Happ : forall a s, skip_literal id (a ++ b) s
    = if (skip_literal id a s).1 then skip_literal id b (skip_literal id a s).2 else skip_literal id a s).
  { clear. intros a. induction a as [|l a IH]; intros s; [by destruct s|]. destruct s as [|c s]; [done|]. simpl.
    destruct (_ =? _); [apply IH|done]. }
  rewrite Happ. destruct (skip_literal_cases a s) as [(t & -> & E)|[(t & _ & _ & E)|(_ & _ & c & t & _ & E)]]; rewrite E; simpl; [|done..].
  unfold _skip_literal. rewrite (scan_run _ _ t); [done|]. by eapply view_app.
Qed.

Lemma rewind_run r : received r <= parsed r -> _rewind r = Ret (Some (tt, set_cursor (parsed r) r)).
Proof. intros H. unfold _rewind, mbind, HP_bind, get, assert, lift, id. cbn [mbind outcome_bind]. by rewrite (proj2 (Z.leb_le _ _) H). Qed.
Lemma commit_run r : cursor r <= end_ r -> _commit r = Ret (Some (tt, set_parsed (cursor r) r)).
Proof. intros H. unfold _commit, mbind, HP_bind, get, assert, lift, id. cbn [mbind outcome_bind]. by rewrite (proj2 (Z.leb_le _ _) H). Qed.
(** [assert] of a condition on the request. *)
Lemma asserts_run (b : http_request -> bool) r : b r = true -> (r ← get id; assert (b r)) r = Ret (Some (tt, r)).
Proof. intros H. unfold mbind, HP_bind, get, assert, lift, id. cbn [mbind outcome_bind]. by rewrite H. Qed.
Lemma set_cursor_same r : set_cursor (cursor r) r = r.
Proof. by destruct r. Qed.

Section line.
Context {arch : Arch} {henv : HttpEnv}.

(** Where a parser starts: the cursor at the start of the text that is not parsed. *)
Record starts (r : http_request) (s : list Z) : Prop := Starts {
  starts_view : view r s;
  starts_cursor : cursor r = parsed r;
  starts_received : received r <= parsed r
}.

(** The request after the verb [v], where [t] follows. *)
Definition after_verb (v : http_verb) (t : list Z) (r : http_request) : http_request :=
  set_parser (Some ParsePath) (set_parsed (end_ r - zlen t) (set_verb (Some v) (at_suffix t r))).

Definition verb_matches (s : list Z) (v : http_verb) (t : list Z) : Prop := s = word v ++ zs " " ++ t.
(** [s] is the start of a verb and its space. *)
Definition verb_starts (s : list Z) (v : http_verb) : Prop := exists t, t <> [] /\ s ++ t = word v ++ zs " ".

Lemma verb_loop_run r s verbs : starts r s -> forall c,
  (exists v t, verb_matches s v t /\
     verb_loop verbs (set_cursor c r) = Ret (Some (false, set_verb (Some v) (at_suffix t r)))) \/
  (exists v c', verb_starts s v /\ verb_loop verbs (set_cursor c r) = Ret (Some (true, set_cursor c' r))) \/
  (exists c', (forall v t, v ∈ verbs -> ~ verb_matches s v t) /\ (forall v, v ∈ verbs -> ~ verb_starts s v) /\
     verb_loop verbs (set_cursor c r) = Ret (Some (false, set_cursor c' r))).
Proof.
  intros [Hv Hc Hr]. induction verbs as [|v verbs IH]; intros c.
  { right. right. exists c. split_and!; [by intros ? ? ?%elem_of_nil|by intros ? ?%elem_of_nil|done]. }
  cbn [verb_loop]. rewrite (bind_run _ _ _ _ _ (rewind_run (set_cursor c r) Hr)). cbn [parsed set_cursor].
  replace (set_cursor (parsed r) (set_cursor c r)) with r by (rewrite <- Hc; by destruct r).
  rewrite (bind_run _ _ _ _ _ (literals_run (word v) (zs " ") r s Hv)).
  destruct (skip_literal_cases (word v ++ zs " ") s) as [(t & -> & E)|[(t & Ht & Et & E)|(H1 & H2 & d & t & Hs & E)]]; rewrite E; cbn [fst snd].
  - left. exists v, t. split; [unfold verb_matches; by rewrite <- app_assoc|done].
  - right. left. exists v, (cursor (at_suffix [] r)). split; [by exists t|].
    assert (Hv' : view (at_suffix [] r) []) by (eapply view_suffix; [done|apply suffix_nil]).
    by rewrite (bind_run _ _ _ _ _ (run_out_run _ _ Hv')).
  - assert (Hv' : view (at_suffix (d :: t) r) (d :: t)) by (by eapply view_suffix).
    rewrite (bind_run _ _ _ _ _ (run_out_run _ _ Hv')). cbn match.
    destruct (IH (end_ r - zlen (d :: t))) as [H|[H|(c' & Hm & Hst & Hl)]]; [by left|right; by left|].
    right. right. exists c'. split_and!; [| |done].
    + intros u w [->|Hu]%elem_of_cons; [|by apply Hm]. unfold verb_matches. rewrite app_assoc. apply H1.
    + intros u [->|Hu]%elem_of_cons; [|by apply Hst]. intros (w & _ & Hw). by apply (H2 w).
Qed.

Lemma all_verbs v : v ∈ http_verbs.
Proof. destruct v; unfold http_verbs; rewrite !elem_of_cons; tauto. Qed.

(** What [http_request_parse_verb] does on any text. *)
Lemma parse_verb_run r s : starts r s -> s <> [] -> verb r = None ->
  (exists v t, verb_matches s v t /\ http_request_parse_verb r = Ret (Some (0, after_verb v t r))) \/
  (exists v c, verb_starts s v /\ http_request_parse_verb r = Ret (Some (100, set_cursor c r))) \/
  (exists c, (forall v t, ~ verb_matches s v t) /\ (forall v, ~ verb_starts s v) /\
     http_request_parse_verb r = Ret (Some (400, set_cursor c r))).
Proof.
  intros Hst Hne Hverb. pose proof Hst as [Hv Hc Hr]. unfold http_request_parse_verb.
  rewrite (bind_run _ _ _ _ _ (rewind_run r Hr)).
  assert (E : set_cursor (parsed r) r = r) by (rewrite <- Hc; apply set_cursor_same). rewrite E.
  rewrite (bind_run _ _ _ _ _ (asserts_run (fun r => received r <=? cursor r) r ltac:(apply Z.leb_le; lia))).
  rewrite (bind_run _ _ _ _ _ (run_out_run _ _ Hv)).
  destruct s as [|x s0]; [done|]. cbn match. set (s := x :: s0) in *.
  change (assert (negb false) ≫= ?f) with (mret tt ≫= f). rewrite (bind_run (mret tt) _ r tt r eq_refl).
  rewrite (bind_run _ _ _ _ _ (asserts_run (fun r => match verb r with None => true | _ => false end) r ltac:(simpl; by rewrite Hverb))).
  pose proof (verb_loop_run r s http_verbs Hst (cursor r)) as Hloop. rewrite set_cursor_same in Hloop.
  destruct Hloop as [(v & t & Hm & El)|[(v & c & Hs & El)|(c & Hm & Hs & El)]]; rewrite (bind_run _ _ _ _ _ El).
  - left. exists v, t. split; [done|]. pose proof (zlen_nonneg t) as Ht.
    cbn match. unfold mbind at 1, HP_bind at 1, get, id. cbn [mbind outcome_bind verb set_verb].
    rewrite (bind_run _ _ _ _ _ (commit_run (set_verb (Some v) (at_suffix t r)) ltac:(simpl; lia))). done.
  - right. left. by exists v, c.
  - right. right. exists c. split_and!; [intros v t; apply Hm, all_verbs|intros v; apply Hs, all_verbs|].
    unfold mbind, HP_bind, get, id. cbn. by rewrite Hverb.
Qed.

(** A text starts with one verb only. *)
Lemma verb_unique v t s : verb_matches s v t ->
  (forall v' t', verb_matches s v' t' -> v' = v /\ t' = t) /\ (forall v', ~ verb_starts s v').
Proof.
  unfold verb_matches, verb_starts. intros ->. split.
  - intros v' t'. destruct v, v'; simpl; intros [=]; by subst.
  - intros v' (w & Hw & E). rewrite <- !app_assoc in E. destruct v, v'; simpl in E; simplify_eq; by destruct t, w.
Qed.
Lemma parse_verb_here r v t : starts r (word v ++ zs " " ++ t) -> verb r = None ->
  http_request_parse_verb r = Ret (Some (0, after_verb v t r)).
Proof.
  intros Hst Hn. destruct (verb_unique v t _ eq_refl) as [Hu Hs].
  destruct (parse_verb_run r _ Hst) as [(v' & t' & Hm & E)|[(v' & c & Hb & _)|(c & Hm & _)]]; [by destruct v|done|..].
  - destruct (Hu v' t' Hm) as [-> ->]. done.
  - by destruct (Hs v').
  - by destruct (Hm v t).
Qed.

(** ** The path *)

Lemma word_run w t r : Forall (fun c => word_char c = true) w -> w <> [] -> view r (w ++ 32 :: t) ->
  _skip_word_printable r = Ret (Some ((zlen w, Sub (InBuffer (cursor r)) (zlen w)), at_suffix (32 :: t) r)).
Proof.
  intros Hw Hne Hv. unfold _skip_word_printable, mbind at 1, HP_bind at 1, get. cbn [mbind outcome_bind].
  assert (E : skip_word_printable (w ++ 32 :: t) = Ret (zlen w, 32 :: t)).
  { unfold skip_word_printable. destruct w as [|c w]; [done|]. simpl. apply Forall_cons_1 in Hw as [Hc Hw]. rewrite Hc. simpl.
    rewrite skip_while_app by done. simpl. do 2 f_equal. rewrite !zlen_cons, zlen_app, zlen_cons. lia. }
  by rewrite (bind_run _ _ _ _ _ (scan_outcome_run _ _ _ _ _ Hv E)).
Qed.

Lemma view_slice r s t : view r (s ++ t) -> sub_read (Sub (InBuffer (cursor r)) (zlen s)) r = Ret (Some (s, r)).
Proof.
  intros Hv. pose proof (view_zlen _ _ Hv) as Hl. rewrite zlen_app in Hl. pose proof (zlen_nonneg s). pose proof (zlen_nonneg t).
  destruct Hv as [Hc Hs Ht]. unfold sub_read.
  rewrite (proj2 (Z.leb_le 0 (cursor r))), (proj2 (Z.leb_le 0 (zlen s))), (proj2 (Z.leb_le _ (zlen (buffer r)))) by lia. simpl.
  rewrite <- Hl, slice_app_split in Ht by lia. apply app_inj_1 in Ht as [-> _]; [done|].
  assert (zlen (slice (cursor r) (zlen s) (buffer r)) = zlen s) by (apply zlen_slice; lia). unfold zlen in *. lia.
Qed.

Lemma word_no_nul w : Forall (fun c => word_char c = true) w -> no_nul w.
Proof. apply Forall_impl. intros c Hc ->. done. Qed.

Context {pok : PointersOk}.

(** The request after the path has been read, where [t] follows. *)
Definition path_read (t : list Z) (r : http_request) : http_request := set_parsed (end_ r - zlen t) (at_suffix t r).

Lemma path_read_ok t r : request_ok r -> starts r t \/ (exists s, starts r (s ++ t)) -> request_ok (path_read t r).
Proof.
  intros [Hsz Ho Hl (es & Hes)] Hst. assert (Hv : exists s, starts r (s ++ t)) by (destruct Hst; [by exists []|done]).
  destruct Hv as [s [Hv Hc Hr]]. pose proof (view_zlen _ _ Hv) as Hlen. rewrite zlen_app in Hlen.
  pose proof (zlen_nonneg s). pose proof (zlen_nonneg t).
  split; [done|simpl; lia|done|]. exists es. by apply (reserves_same es r).
Qed.

Lemma parse_path_run path t r : request_ok r -> starts r (path ++ zs " " ++ t) ->
  Forall (fun c => word_char c = true) path -> path <> [] -> strings r FPath = None ->
  http_request_parse_path r
  = Ret (Some (0, let '(ok, r') := reserve_result FPath path (path_read t r) in
                  if ok then set_parser (Some ParseVersion) r' else r')).
Proof.
  intros Hok Hst Hw Hne Hnull. pose proof Hst as [Hv Hc Hr]. unfold http_request_parse_path.
  rewrite (bind_run _ _ _ _ _ (asserts_run (fun r => match strings r FPath with None => true | _ => false end) r ltac:(simpl; by rewrite Hnull))).
  rewrite (bind_run _ _ _ _ _ (word_run path t r Hw Hne Hv)). cbv beta iota.
  assert (Hlen : 0 < zlen path) by (destruct path as [|c p]; [done|rewrite zlen_cons; pose proof (zlen_nonneg p); lia]).
  rewrite (proj2 (Z.eqb_neq (zlen path) 0)) by lia. pose proof (view_app _ _ _ Hv) as Hv1.
  rewrite (bind_run _ _ _ _ _ (literal_run (zs " ") t _ Hv1)). cbn [negb]. rewrite at_suffix_twice.
  pose proof (zlen_nonneg t).
  rewrite (bind_run _ _ _ _ _ (commit_run (at_suffix t r) ltac:(simpl; lia))).
  assert (Hok1 : request_ok (path_read t r)).
  { apply path_read_ok; [done|]. right. exists (path ++ zs " "). by rewrite <- app_assoc. }
  assert (Hrd : sub_read (Sub (InBuffer (cursor r)) (zlen path)) (path_read t r) = Ret (Some (path, path_read t r))).
  { pose proof (view_slice _ _ _ Hv) as E. unfold sub_read in *. cbn [buffer path_read at_suffix set_parsed set_cursor].
    destruct (_ && _); [|done]. by injection E as ->. }
  change (set_parsed (cursor (at_suffix t r)) (at_suffix t r)) with (path_read t r).
  pose proof (reserve_run FPath _ _ path (path_read t r) Hok1 Hrd eq_refl (word_no_nul _ Hw)) as Er.
  destruct (reserve_result FPath path (path_read t r)) as [ok r']. rewrite (bind_run _ _ _ _ _ Er). by destruct ok.
Qed.

(** ** The version *)

Definition line_end (eol : list Z) : Prop := eol = [13; 10] \/ eol = [10].

Lemma eol_run eol t r : line_end eol -> view r (eol ++ t) -> _skip_eol r = Ret (Some (true, at_suffix t r)).
Proof. intros He Hv. unfold _skip_eol. rewrite (scan_run _ _ _ Hv). by destruct He as [-> | ->]. Qed.

Definition version_text (major minor : Z) : list Z := zs "HTTP/" ++ decimal major ++ zs "." ++ decimal minor.

Lemma version_line_run major minor eol t r : 0 < major < 255 -> 0 <= minor < 255 -> line_end eol ->
  view r (version_text major minor ++ eol ++ t) ->
  version_line r = Ret (Some (Some (major, minor), at_suffix t r)).
Proof.
  intros Hmaj Hmin Heol Hv. unfold version_text in Hv. rewrite <- !app_assoc in Hv. unfold version_line.
  rewrite (bind_run _ _ _ _ _ (literal_run _ _ _ Hv)). cbn [negb]. pose proof (view_app _ _ _ Hv) as Hv1.
  rewrite (bind_run _ _ _ _ _ (uint32_run major (chr ".") _ _ Hv1 ltac:(lia) ltac:(done) eq_refl)). cbv beta iota.
  rewrite (proj2 (Z.ltb_lt 0 major)), (proj2 (Z.ltb_lt major UINT8_MAX)) by (unfold UINT8_MAX; lia). cbn [andb negb].
  pose proof (view_app _ _ _ Hv1) as Hv2. rewrite at_suffix_twice in Hv2.
  rewrite (bind_run _ _ _ _ _ (literal_run (zs ".") _ _ Hv2)). cbn [negb]. pose proof (view_app _ _ _ Hv2) as Hv3.
  rewrite !at_suffix_twice in *.
  assert (Hnum : exists c s, eol ++ t = c :: s /\ is_byte c /\ is_digit_of 10 c = false) by (destruct Heol as [-> | ->]; by eexists _, _).
  destruct Hnum as (c & s & E & Hc & Hd). rewrite E in Hv3 |- *.
  rewrite (bind_run _ _ _ _ _ (uint32_run minor c s _ Hv3 ltac:(lia) Hc Hd)). cbv beta iota.
  rewrite (proj2 (Z.ltb_lt minor UINT8_MAX)) by (unfold UINT8_MAX; lia). cbn [negb].
  pose proof (view_app _ _ _ Hv3) as Hv4. rewrite <- E, !at_suffix_twice in *.
  by rewrite (bind_run _ _ _ _ _ (eol_run eol t _ Heol Hv4)).
Qed.

(** The request after the version, where [t] follows. *)
Definition after_version (major minor : Z) (t : list Z) (r : http_request) : http_request :=
  set_parser (Some StartHeaders) (set_minor minor (set_major major (set_parsed (end_ r - zlen t) (at_suffix t r)))).

Lemma parse_version_run major minor eol t r : 0 < major < 255 -> 0 <= minor < 255 -> line_end eol ->
  starts r (version_text major minor ++ eol ++ t) -> version_major r = 0 -> version_minor r = 0 ->
  handle_first_line = None ->
  http_request_parse_http_version r = Ret (Some (0, after_version major minor t r)).
Proof.
  intros Hmaj Hmin Heol [Hv Hc Hr] H0 H1 Hh. unfold http_request_parse_http_version.
  rewrite (bind_run _ _ _ _ _ (asserts_run (fun r => version_major r =? 0) r ltac:(by apply Z.eqb_eq))).
  rewrite (bind_run _ _ _ _ _ (asserts_run (fun r => version_minor r =? 0) r ltac:(by apply Z.eqb_eq))).
  rewrite (bind_run _ _ _ _ _ (version_line_run major minor eol t r Hmaj Hmin Heol Hv)). cbv beta iota.
  pose proof (zlen_nonneg t). rewrite (bind_run _ _ _ _ _ (commit_run (at_suffix t r) ltac:(simpl; lia))).
  by rewrite Hh.
Qed.
End line.

(** * The HTTP request parser: from the request line to the end of the headers

    Passes of the receive loop on a known text: the request line, and header
    lines, take one pass for each parser. *)

(** A write does not change what lies entirely after it. *)
Lemma slice_splice_behind {A} off (new l : list A) o n :
  0 <= off -> off + zlen new <= zlen l -> off + zlen new <= o -> slice o n (splice off new l) = slice o n l.
Proof.
  unfold zlen, splice, slice. intros. rewrite app_assoc, drop_app.
  rewrite drop_ge by (rewrite length_app, length_take; lia). rewrite app_nil_l, drop_drop, length_app, length_take.
  do 2 f_equal. lia.
Qed.

Section head.
Context {arch : Arch} {henv : HttpEnv} {pok : PointersOk}.

(** A request that is receiving, with the text [s] to parse next. *)
Record ready (p : http_parser) (r : http_request) (s : list Z) : Prop := Ready {
  ready_starts : starts r s;
  ready_phase : phase r = RECEIVE;
  ready_parser : parser r = Some p;
  ready_result : result_code r = 0;
  ready_more : s <> [] \/ request_content_remaining r <> 0;
  ready_ok : request_ok r
}.

(** One pass in which the parser does not need more text. *)
Lemma loop_step fuel p r s r' p' : ready p r s -> run_parser p r = Ret (Some (0, r')) ->
  phase r' = RECEIVE -> parser r' = Some p' -> result_code r' = 0 ->
  parsed r <= parsed r' -> (p' <> p \/ parsed r < parsed r') ->
  receive_loop (S fuel) r = receive_loop fuel r'.
Proof.
  intros [[Hv Hc Hr] Hph Hp Hcode Hmore Hok] Hrun Hph' Hp' Hcode' Hle Hne.
  cbn [receive_loop]. rewrite get_bind, Hph. simpl (negb _). cbv beta iota.
  assert (Hpass : receive_pass r = Ret (Some (Some true, r'))); [|by rewrite (bind_run _ _ _ _ _ Hpass)].
  unfold receive_pass. rewrite (bind_run _ _ _ _ _ (rewind_run r Hr)), <- Hc, set_cursor_same.
  assert (He : _end_of_content r = Ret (Some (false, r))).
  { unfold _end_of_content, get. do 3 f_equal. apply andb_false_iff. pose proof (view_zlen _ _ Hv) as Hl.
    destruct Hmore as [Hs|Hs]; [left|right; by apply Z.eqb_neq]. apply Z.eqb_neq.
    destruct s as [|c s]; [done|]. rewrite zlen_cons in Hl. pose proof (zlen_nonneg s). lia. }
  rewrite (bind_run _ _ _ _ _ He). cbv beta iota.
  rewrite get_bind, get_bind, Hp.
  assert (E : (result ← run_parser p; _ ← (r0 ← get id; assert (parsed r <=? parsed r0)); mret result) r = Ret (Some (0, r'))).
  { rewrite (bind_run _ _ _ _ _ Hrun).
    by rewrite (bind_run _ _ _ _ _ (asserts_run (fun r0 => parsed r <=? parsed r0) r' ltac:(by apply Z.leb_le))). }
  rewrite (bind_run _ _ _ _ _ E), get_bind. unfold id.
  rewrite Hph'. simpl (negb _). cbv beta iota zeta. change (0 =? 100) with false. change (0 =? 0) with true. cbv iota. cbn [andb].
  assert (Hs : (parsed r' =? parsed r) && bool_decide (parser r' = Some p) = false).
  { apply andb_false_iff. destruct Hne as [Hne|Hlt]; [right|left; apply Z.eqb_neq; lia].
    apply bool_decide_eq_false. rewrite Hp'. congruence. }
  rewrite Hs. unfold take_result. cbn [mbind HP_bind]. unfold mbind, HP_bind, get, mret, HP_ret. simpl. by rewrite Hcode'.
Qed.
Lemma loop_run fuel p r s r' s' p' : ready p r s -> run_parser p r = Ret (Some (0, r')) -> ready p' r' s' ->
  parsed r <= parsed r' -> (p' <> p \/ parsed r < parsed r') ->
  receive_loop (S fuel) r = receive_loop fuel r'.
Proof. intros Hr Hrun []. by eapply loop_step. Qed.

Lemma view_same r r' s : cursor r' = cursor r -> end_ r' = end_ r -> buffer r' = buffer r -> view r s -> view r' s.
Proof. intros E1 E2 E3 [Hc Hs Ht]. split; by rewrite ?E1, ?E2, ?E3. Qed.
Lemma view_with_string f w r s : request_ok r -> view r s -> reserved r + entry_size w <= cursor r ->
  view (with_string f w r) s.
Proof.
  intros [Hsz Ho _ _] [Hc Hs Ht] Hfit. pose proof (entry_size_pos w). pose proof ptr_pos.
  assert (Hz : zlen (entry (f, w)) = entry_size w) by apply zlen_entry.
  split; [done| |]; cbn -[splice slice].
  - rewrite zlen_splice; lia.
  - by rewrite slice_splice_behind by lia.
Qed.

(** ** The request line *)

Definition request_line (v : http_verb) (path : list Z) (major minor : Z) (eol : list Z) : list Z :=
  word v ++ zs " " ++ path ++ zs " " ++ version_text major minor ++ eol.

(** The string a field points to. *)
Definition string_at (f : field) (r : http_request) : outcome (list Z) :=
  match strings r f with
  | Some (InBuffer off) => c_string (at_offset off r)
  | Some (OnStack s) => c_string s
  | None => Undef
  end.

Lemma string_at_same f r r' : strings r' f = strings r f -> buffer r' = buffer r -> string_at f r' = string_at f r.
Proof. intros E1 E2. unfold string_at, at_offset. by rewrite E1, E2. Qed.
Lemma c_string_nul s rest : no_nul s -> c_string (s ++ 0 :: rest) = Ret s.
Proof. induction 1 as [|c s Hc _ IH]; [done|]. simpl. rewrite (proj2 (Z.eqb_neq c 0) Hc), IH. done. Qed.

Lemma string_at_new f w r : request_ok r -> no_nul w -> reserved r + entry_size w <= buffer_size ->
  string_at f (with_string f w r) = Ret w.
Proof.
  intros [Hsz Ho _ _] Hw Hfit. unfold string_at. cbn -[splice]. rewrite decide_True by done. pose proof ptr_pos. pose proof (entry_size_pos w).
  assert (Hs : slice (reserved r) (zlen (entry (f, w))) (splice (reserved r) (entry (f, w)) (buffer r)) = entry (f, w))
    by (apply slice_splice_same; rewrite ?zlen_entry; lia).
  destruct (slice_at _ _ _ Hs) as [rest Hd]. unfold at_offset. cbn [buffer with_string set_string set_strings set_buffer].
  rewrite Z2Nat.inj_add, <- drop_drop, Hd by lia. unfold entry. cbn [fst snd]. rewrite <- !app_assoc.
  rewrite drop_app_length' by (pose proof (pointer_size f); unfold zlen in *; lia). by apply c_string_nul.
Qed.

(** What the parsers of the request line leave alone. *)
Record same_headers (r r' : http_request) : Prop := SameHeaders {
  same_length : content_length r' = content_length r;
  same_type : content_type r' = content_type r;
  same_count : content_range_count r' = content_range_count r;
  same_ranges : content_ranges r' = content_ranges r;
  same_scheme : auth_scheme r' = auth_scheme r;
  same_remaining : request_content_remaining r' = request_content_remaining r;
  same_end : end_ r' = end_ r;
  same_strings : forall f, f <> FPath -> strings r' f = strings r f
}.

(** What has been passed over is parsed. *)
Lemma starts_after s t r : starts r (s ++ t) -> starts (path_read t r) t.
Proof.
  intros [Hv Hc Hr]. pose proof (view_zlen _ _ Hv) as Hl. rewrite zlen_app in Hl. pose proof (zlen_nonneg s).
  split; [by apply (view_same (at_suffix t r)), (view_app _ _ _ Hv)|done|simpl; lia].
Qed.
Lemma starts_same r r' s : cursor r' = cursor r -> end_ r' = end_ r -> buffer r' = buffer r -> parsed r' = parsed r ->
  received r' = received r -> starts r s -> starts r' s.
Proof. intros E1 E2 E3 E4 E5 [Hv Hc Hr]. split; [by eapply view_same|congruence|congruence]. Qed.

(** A step over [s], to [r'], which differs from [path_read t r] in what is not part of the text. *)
Lemma ready_after p p' r s t r' : ready p r (s ++ t) -> buffer r' = buffer r -> end_ r' = end_ r ->
  cursor r' = cursor (path_read t r) -> parsed r' = parsed (path_read t r) -> received r' = received r ->
  reserved r' = reserved r -> strings r' = strings r -> auth_scheme r' = auth_scheme r ->
  phase r' = RECEIVE -> result_code r' = 0 -> parser r' = Some p' -> (t <> [] \/ request_content_remaining r' <> 0) ->
  ready p' r' t /\ parsed r + zlen s = parsed r'.
Proof.
  intros [Hst _ _ _ _ Hok] E1 E2 E3 E4 E5 E6 E7 E8 Hph Hcode Hp Hmore. pose proof (starts_after s t r Hst) as Hst1.
  assert (Hok1 : request_ok (path_read t r)) by (apply path_read_ok; [done|right; by exists s]). split.
  - split; try done; [by apply (starts_same (path_read t r))|by apply (request_ok_same (path_read t r))].
  - rewrite E4. simpl. destruct Hst as [Hv Hc _]. pose proof (view_zlen _ _ Hv) as Hl. rewrite zlen_app in Hl. lia.
Qed.

Lemma verb_pass fuel v t r : ready ParseVerb r (word v ++ zs " " ++ t) -> t <> [] -> verb r = None ->
  ready ParsePath (after_verb v t r) t /\ receive_loop (S fuel) r = receive_loop fuel (after_verb v t r) /\
  parsed r + zlen (word v) + 1 = parsed (after_verb v t r).
Proof.
  intros Hready Ht Hverb. pose proof Hready as Hr. rewrite app_assoc in Hready.
  destruct (ready_after _ ParsePath _ _ _ (after_verb v t r) Hready) as [Hready1 Hp]; try done; [by destruct Hr|by destruct Hr|by left|].
  rewrite zlen_app in Hp. change (zlen (zs " ")) with 1 in Hp. pose proof (zlen_nonneg (word v)).
  split_and!; [done| |lia]. eapply loop_run; [exact Hr| |exact Hready1|lia|by left].
  apply parse_verb_here; [by destruct Hr|done].
Qed.

(** A string has been reserved, and the next parser set. *)
Lemma ready_with_string f w p q t : request_ok q -> starts q t -> phase q = RECEIVE -> result_code q = 0 -> t <> [] ->
  no_nul w -> strings q f = None -> (f = FUser \/ f = FPassword -> auth_scheme q <> NOAUTH) ->
  reserved q + entry_size w <= Z.min reslim (parsed q) ->
  ready p (set_parser (Some p) (with_string f w q)) t /\ string_at f (set_parser (Some p) (with_string f w q)) = Ret w.
Proof.
  intros Hok Hst Hph Hcode Ht Hw Hnull Hauth Hfit. destruct (fresh_null q f Hok Hnull) as (es & Hes & Hf).
  assert (Hok2 : request_ok (with_string f w q)) by (apply (with_string_ok f w q es); try done; apply Hf; by left).
  pose proof Hst as [Hv Hc Hr]. pose proof Hok as [_ Ho _ _].
  assert (Hv2 : view (with_string f w q) t) by (apply view_with_string; [done|done|lia]).
  assert (Hst2 : starts (with_string f w q) t) by (split; [done|exact Hc|destruct Hok2 as [_ Ho2 _ _]; lia]).
  assert (Hph2 : phase (with_string f w q) = RECEIVE) by exact Hph.
  assert (Hcode2 : result_code (with_string f w q) = 0) by exact Hcode.
  assert (Hs2 : string_at f (with_string f w q) = Ret w) by (apply string_at_new; [done|done|lia]).
  generalize dependent (with_string f w q). clear -Ht. intros r Hok _ Hst Hph Hcode Hs. split.
  - split; [by apply (starts_same r)|done..|by left|by apply (request_ok_same r)].
  - rewrite <- Hs. by apply string_at_same.
Qed.

(** The request after the path has been reserved. *)
Definition after_path (path t : list Z) (r : http_request) : http_request :=
  set_parser (Some ParseVersion) (with_string FPath path (path_read t r)).

Lemma path_pass fuel path t r : ready ParsePath r (path ++ zs " " ++ t) -> t <> [] ->
  Forall (fun c => word_char c = true) path -> path <> [] -> strings r FPath = None ->
  reserved r + entry_size path <= Z.min reslim (parsed r + zlen path + 1) ->
  ready ParseVersion (after_path path t r) t /\ receive_loop (S fuel) r = receive_loop fuel (after_path path t r) /\
  string_at FPath (after_path path t r) = Ret path.
Proof.
  intros Hready Ht Hw Hne Hpath Hfit. pose proof Hready as Hr. rewrite app_assoc in Hready. destruct Hr as [Hst Hph Hpar Hcode Hmore Hok].
  destruct (ready_after _ ParsePath _ _ _ (path_read t r) Hready) as [Hq Hp]; try reflexivity; [done..|by left|].
  rewrite zlen_app in Hp. change (zlen (zs " ")) with 1 in Hp. destruct Hq as [Hstq Hphq _ Hcodeq _ Hokq].
  assert (Hfit' : reserved (path_read t r) + entry_size path <= Z.min reslim (parsed (path_read t r))).
  { change (reserved (path_read t r)) with (reserved r). lia. }
  destruct (ready_with_string FPath path ParseVersion (path_read t r) t) as [Hready2 Hs];
    [exact Hokq|exact Hstq|exact Hphq|exact Hcodeq|exact Ht|by apply word_no_nul|exact Hpath|by intros []|exact Hfit'|].
  split; [exact Hready2|]. split; [|exact Hs].
  eapply loop_run; [split; [exact Hst|exact Hph|exact Hpar|exact Hcode|exact Hmore|exact Hok]| |exact Hready2| |left; discriminate].
  - cbn [run_parser]. rewrite (parse_path_run path t r Hok Hst Hw Hne Hpath). unfold reserve_result.
    rewrite (proj2 (Z.ltb_ge reslim (reserved (path_read t r) + entry_size path))) by lia.
    rewrite (proj2 (Z.ltb_ge (parsed (path_read t r)) (reserved (path_read t r) + entry_size path))) by lia. reflexivity.
  - transitivity (parsed (path_read t r)); [pose proof (zlen_nonneg path); lia|]. unfold after_path. generalize (path_read t r). intros q. reflexivity.
Qed.

Lemma version_pass fuel major minor eol t r : ready ParseVersion r (version_text major minor ++ eol ++ t) ->
  (t <> [] \/ request_content_remaining r <> 0) -> handle_first_line = None -> line_end eol ->
  0 < major < 255 -> 0 <= minor < 255 -> version_major r = 0 -> version_minor r = 0 ->
  ready StartHeaders (after_version major minor t r) t /\
  receive_loop (S fuel) r = receive_loop fuel (after_version major minor t r).
Proof.
  intros Hready Ht Hh Heol Hmaj Hmin H0 H1. pose proof Hready as Hr. rewrite app_assoc in Hready.
  destruct (ready_after _ StartHeaders _ _ _ (after_version major minor t r) Hready) as [Hready1 Hp]; try done; try (by destruct Hr).
  pose proof (zlen_nonneg (version_text major minor ++ eol)). split; [done|].
  eapply loop_run; [exact Hr| |exact Hready1|lia|by left].
  apply parse_version_run with (eol := eol); try done. by destruct Hr.
Qed.

Global Instance same_headers_trans : Transitive same_headers.
Proof. intros r1 r2 r3 [] []. split; try congruence. intros f Hf. rewrite same_strings1, same_strings0; done. Qed.
Lemma after_verb_same v t r : same_headers r (after_verb v t r).
Proof. by split. Qed.
Lemma with_string_same w r : same_headers r (with_string FPath w r).
Proof. split; try reflexivity. intros f Hf. simpl. by rewrite decide_False. Qed.
Lemma after_path_same path t r : same_headers r (after_path path t r) /\ verb (after_path path t r) = verb r /\
  version_major (after_path path t r) = version_major r /\ version_minor (after_path path t r) = version_minor r.
Proof.
  split; [|done]. transitivity (path_read t r); [by split|]. unfold after_path. generalize (path_read t r). intros q.
  transitivity (with_string FPath path q); [apply with_string_same|]. generalize (with_string FPath path q). by split.
Qed.
Lemma after_version_same major minor t r : same_headers r (after_version major minor t r) /\
  verb (after_version major minor t r) = verb r /\ string_at FPath (after_version major minor t r) = string_at FPath r.
Proof. split; [by split|]. split; [done|]. by apply string_at_same. Qed.

(** The request after the request line. *)
Definition after_line (v : http_verb) (path : list Z) (major minor : Z) (eol t : list Z) (r : http_request) : http_request :=
  let ver := version_text major minor ++ eol ++ t in
  after_version major minor t (after_path path ver (after_verb v (path ++ zs " " ++ ver) r)).

(** A line of a request that has nothing of the request line yet. *)
Record line_ok (path : list Z) (major minor : Z) (eol : list Z) (r : http_request) : Prop := LineOk {
  line_eol : line_end eol;
  line_major : 0 < major < 255;
  line_minor : 0 <= minor < 255;
  line_path : Forall (fun c => word_char c = true) path;
  line_path_some : path <> [];
  line_new : verb r = None /\ strings r FPath = None /\ version_major r = 0 /\ version_minor r = 0;
  line_room : reserved r + ptr_bytes <= parsed r /\ reserved r + entry_size path <= reslim
}.

Lemma request_line_run fuel v path major minor eol t r :
  handle_first_line = None -> line_ok path major minor eol r ->
  ready ParseVerb r (request_line v path major minor eol ++ t) ->
  (t <> [] \/ request_content_remaining r <> 0) ->
  let r' := after_line v path major minor eol t r in
  receive_loop (S (S (S fuel))) r = receive_loop fuel r' /\ ready StartHeaders r' t /\
  verb r' = Some v /\ string_at FPath r' = Ret path /\ version_major r' = major /\ version_minor r' = minor /\
  same_headers r r'.
Proof.
  intros Hh [Heol Hmaj Hmin Hw Hne (Hverb & Hpath & Hv0 & Hv1) [Hroom Hlim]] Hready Hmore.
  assert (Hfit : reserved r + entry_size path <= Z.min reslim (parsed r + zlen (word v) + 1 + zlen path + 1)).
  { clear -Hroom Hlim. unfold entry_size in *. pose proof (zlen_nonneg (word v)). lia. }
  unfold request_line in Hready. rewrite <- !app_assoc in Hready. unfold after_line.
  set (ver := version_text major minor ++ eol ++ t) in *. set (t1 := path ++ zs " " ++ ver) in *. cbv zeta.
  destruct (verb_pass (S (S fuel)) v t1 r) as (Hready1 & E1 & Hp1); [done|unfold t1; by destruct path|done|].
  assert (Hr1 : reserved (after_verb v t1 r) = reserved r /\ strings (after_verb v t1 r) FPath = None /\
    version_major (after_verb v t1 r) = 0 /\ version_minor (after_verb v t1 r) = 0 /\ verb (after_verb v t1 r) = Some v /\
    request_content_remaining (after_verb v t1 r) = request_content_remaining r) by done.
  pose proof (after_verb_same v t1 r) as S1. generalize dependent (after_verb v t1 r).
  intros r1 Hready1 E1 Hp1 (Hr1 & Hpath1 & Hv01 & Hv11 & Hverb1 & Hrem1) S1.
  destruct (path_pass (S fuel) path ver r1) as (Hready2 & E2 & Hs2); [exact Hready1|done|exact Hw|exact Hne|exact Hpath1|by rewrite Hr1, <- Hp1|].
  destruct (after_path_same path ver r1) as (S2 & Hverb2 & Hv02 & Hv12).
  generalize dependent (after_path path ver r1). intros r2 Hready2 E2 Hs2 S2 Hverb2 Hv02 Hv12.
  assert (Hmore2 : t <> [] \/ request_content_remaining r2 <> 0) by (rewrite (same_remaining _ _ S2), Hrem1; exact Hmore).
  destruct (version_pass fuel major minor eol t r2) as (Hready3 & E3); [done..|congruence|congruence|].
  destruct (after_version_same major minor t r2) as (S3 & Hverb3 & Hs3).
  rewrite E1, E2, E3. split; [done|]. split; [done|]. split; [congruence|]. split; [congruence|]. split; [done|]. split; [done|].
  transitivity r2; [by transitivity r1|done].
Qed.
End head.

(** * The HTTP request parser: header lines

    One pass of the receive loop reads one header line; a whole request head is
    read back as what it was written from. *)

(** ** Lines *)

(** The text of a line: no newline in it, and nothing at its end that would be
    taken for a part of the line's end. *)
Record text_line (l : list Z) : Prop := TextLine {
  tl_newline : Forall (fun c => c <> 10) l;
  tl_last : exists l' c, l = l' ++ [c] /\ c <> 0 /\ c <> 13
}.

Lemma find_newline_app l t : Forall (fun c => c <> 10) l -> find_newline (l ++ 10 :: t) = (l, 10 :: t).
Proof. induction 1 as [|c l Hc _ IH]; [done|]. simpl. by rewrite (proj2 (Z.eqb_neq c 10) Hc), IH. Qed.

Lemma skip_to_eol_line l eol t : text_line l -> line_end eol -> skip_to_eol (l ++ eol ++ t) = (true, eol ++ t).
Proof.
  intros [Hn (l' & c & -> & H0 & H13)] He. unfold skip_to_eol.
  assert (Hd : forall l, drop_nuls (c :: l) = c :: l) by (intros; simpl; by rewrite (proj2 (Z.eqb_neq c 0) H0)).
  assert (Hc : forall l, drop_cr (c :: l) = c :: l) by (intros; simpl; by rewrite (proj2 (Z.eqb_neq c 13) H13)).
  assert (Hl : length (c :: reverse l') = length (l' ++ [c])) by (rewrite length_app; simpl; rewrite length_reverse; lia).
  destruct He as [-> | ->].
  - replace ((l' ++ [c]) ++ [13; 10] ++ t) with (((l' ++ [c]) ++ [13]) ++ 10 :: t) by (by rewrite <- !app_assoc).
    rewrite find_newline_app by (apply Forall_app; split; [done|by repeat constructor]).
    rewrite reverse_snoc, reverse_snoc. change (drop_nuls (13 :: ?l)) with (13 :: l). change (drop_cr (13 :: ?l)) with l.
    rewrite Hd, Hl. rewrite <- !app_assoc. rewrite (app_assoc l'). by rewrite drop_app_length.
  - change ([10] ++ t) with (10 :: t). rewrite find_newline_app by done.
    rewrite reverse_snoc, Hd, Hc, Hd, Hl. by rewrite drop_app_length.
Qed.
Lemma skip_to_eol_blank eol t : line_end eol -> skip_to_eol (eol ++ t) = (true, eol ++ t).
Proof. by intros [-> | ->]. Qed.

Lemma text_line_app l m : Forall (fun c => c <> 10) l -> text_line m -> text_line (l ++ m).
Proof. intros Hl [Hn (m' & c & -> & ?)]. split; [by apply Forall_app|]. exists (l ++ m'), c. by rewrite app_assoc. Qed.
Lemma text_line_last l c : Forall (fun c => c <> 10) l -> c <> 10 -> c <> 0 -> c <> 13 -> text_line (l ++ [c]).
Proof. intros. split; [apply Forall_app; split; [done|by repeat constructor]|by exists l, c]. Qed.

(** ** Header names *)

(** [nm] is [name] but for the case of letters. *)
Definition same_name (name nm : list Z) : Prop := toupper <$> nm = toupper <$> name.
Lemma skip_name name nm s : same_name name nm -> skip_literal toupper name (nm ++ s) = (true, s).
Proof.
  unfold same_name. revert nm. induction name as [|l name IH]; intros [|c nm]; simpl; try done.
  intros [= E1 E2]. rewrite E1, Z.eqb_refl. by apply IH.
Qed.
Lemma skip_other_name name c s : toupper c <> toupper (hd 0 name) -> name <> [] -> (skip_literal toupper name (c :: s)).1 = false.
Proof. destruct name as [|l name]; [done|]. simpl. intros H _. by rewrite (proj2 (Z.eqb_neq _ _) H). Qed.

(** The names [http_request_parse_header] knows. *)
Definition known_names : list (list Z) :=
  [zs "Content-Length:"; zs "Content-Type:"; zs "Range:"; zs "Authorization:"; zs "Origin:"].

(** What follows a line does not make a name of it. *)
Lemma skip_name_end f name l c t : Forall (fun x => f x <> f c) name ->
  (skip_literal f name l).1 = false -> (skip_literal f name (l ++ c :: t)).1 = false.
Proof.
  intros Hn. revert l. induction Hn as [|x name Hx _ IH]; intros l; [by destruct l|].
  destruct l as [|d l]; simpl; [by rewrite (proj2 (Z.eqb_neq (f c) (f x))) by done|]. destruct (_ =? _); [apply IH|done].
Qed.

Section header.
Context {arch : Arch} {henv : HttpEnv} {pok : PointersOk}.

Lemma on_header_yes name yes no nm s c r : starts r (nm ++ s) -> same_name name nm ->
  on_header name yes no (set_cursor c r) = yes (at_suffix s r).
Proof.
  intros [Hv Hc Hr] Hn. unfold on_header. rewrite (bind_run _ _ _ _ _ (rewind_run (set_cursor c r) Hr)).
  replace (set_cursor (parsed (set_cursor c r)) (set_cursor c r)) with r by (simpl; rewrite <- Hc; by destruct r).
  assert (E : _skip_literal_nocase name r = Ret (Some (true, at_suffix s r))).
  { unfold _skip_literal_nocase. rewrite (scan_run _ _ _ Hv). by rewrite (skip_name name nm s Hn). }
  by rewrite (bind_run _ _ _ _ _ E).
Qed.
Lemma on_header_no name yes no s c r : starts r s -> (skip_literal toupper name s).1 = false ->
  exists c', on_header name yes no (set_cursor c r) = no (set_cursor c' r).
Proof.
  intros [Hv Hc Hr] Hn. unfold on_header. rewrite (bind_run _ _ _ _ _ (rewind_run (set_cursor c r) Hr)).
  replace (set_cursor (parsed (set_cursor c r)) (set_cursor c r)) with r by (simpl; rewrite <- Hc; by destruct r).
  assert (E : _skip_literal_nocase name r = Ret (Some (false, at_suffix (skip_literal toupper name s).2 r))).
  { unfold _skip_literal_nocase. rewrite (scan_run _ _ _ Hv). by rewrite Hn. }
  rewrite (bind_run _ _ _ _ _ E). by eexists.
Qed.

(** The end of a line and the start of the next one. *)
Lemma next_line_run t r c : 0 <= zlen t -> next_line (end_ r - zlen t) (set_cursor c r) = Ret (Some (0, path_read t r)).
Proof.
  intros Ht. unfold next_line. rewrite (bind_run (modify _) _ (set_cursor c r) tt (set_cursor (end_ r - zlen t) r) eq_refl).
  rewrite (bind_run _ _ _ _ _ (commit_run (set_cursor (end_ r - zlen t) r) ltac:(simpl; lia))). done.
Qed.
Lemma value_ends_run sp eol t r : spaces sp -> line_end eol -> view r (sp ++ eol ++ t) ->
  value_ends (end_ r - zlen (eol ++ t)) r = Ret (Some (true, at_suffix (eol ++ t) r)).
Proof.
  intros Hsp He Hv. unfold value_ends.
  assert (E : _skip_optional_space r = Ret (Some (true, at_suffix (eol ++ t) r)))
    by (apply (optional_space_run sp); [done|done|by destruct He as [-> | ->]]).
  rewrite (and_then_run _ _ _ _ _ E). unfold get. simpl. by rewrite Z.eqb_refl.
Qed.

(** What follows the line's end when the line is not blank. *)
Definition headers_chain (eol nextline : Z) : HP Z :=
  on_header (zs "Content-Length:") (content_length_header eol nextline) (
  on_header (zs "Content-Type:") (content_type_header eol nextline) (
  on_header (zs "Range:") (range_header eol nextline) (
  on_header (zs "Authorization:") (authorization_header eol nextline) (
  on_header (zs "Origin:") (origin_header eol nextline) (
  _ ← _rewind;
  next_line nextline))))).

Lemma parse_header_line l eol t r : text_line l -> line_end eol -> starts r (l ++ eol ++ t) ->
  http_request_parse_header r
  = headers_chain (end_ r - zlen (eol ++ t)) (end_ r - zlen t) (set_cursor (end_ r - zlen t) r).
Proof.
  intros Hl He [Hv Hc Hr]. unfold http_request_parse_header.
  assert (E : _skip_to_eol r = Ret (Some (true, at_suffix (eol ++ t) r)))
    by (unfold _skip_to_eol; by rewrite (scan_run _ _ _ Hv), (skip_to_eol_line l eol t Hl He)).
  rewrite (bind_run _ _ _ _ _ E), get_bind.
  rewrite (bind_run _ _ _ _ _ (eol_run eol t _ He (view_app _ _ _ Hv))), get_bind. unfold id.
  pose proof (view_zlen _ _ Hv) as Hlen. rewrite zlen_app in Hlen.
  assert (0 < zlen l). { destruct Hl as [_ (l' & c & -> & _)]. rewrite zlen_app, zlen_cons. pose proof (zlen_nonneg l'). change (zlen []) with 0. lia. }
  change (cursor (at_suffix (eol ++ t) r)) with (end_ r - zlen (eol ++ t)).
  change (parsed (at_suffix t (at_suffix (eol ++ t) r))) with (parsed r).
  rewrite (proj2 (Z.eqb_neq (end_ r - zlen (eol ++ t)) (parsed r))) by lia. by rewrite get_bind.
Qed.

(** ** Headers *)

(** A header line: a length, a list of ranges, or a line that the parser does not know. *)
Inductive header : Type :=
| HLength (name sp : list Z) (n : Z)
| HRange (name sp : list Z) (x : http_range) (xs : list (list Z * http_range))
| HOther (line : list Z).
Definition render_header (h : header) : list Z :=
  match h with
  | HLength name sp n => name ++ sp ++ decimal n
  | HRange name sp x xs => name ++ sp ++ zs "bytes=" ++ render_ranges x xs
  | HOther line => line
  end.
Definition header_ok (h : header) : Prop :=
  match h with
  | HLength name sp n => same_name (zs "Content-Length:") name /\ spaces sp /\ is_size n
  | HRange name sp x xs =>
    same_name (zs "Range:") name /\ spaces sp /\ range_ok x /\ Forall (fun '(sp, x) => spaces sp /\ range_ok x) xs
  | HOther line => text_line line /\ Forall (fun name => (skip_literal toupper name line).1 = false) known_names
  end.
(** What a header is to do to the request. *)
Definition apply_header (h : header) (r : http_request) : http_request :=
  match h with
  | HLength _ _ n => if content_length r =? CONTENT_LENGTH_UNKNOWN then set_content_length n r else r
  | HRange _ _ x xs =>
    if content_range_count r =? 0
    then set_range_count (if 5 <? 1 + zlen xs then 0 else 1 + zlen xs) (set_ranges (fill 0 (content_ranges r) (x :: xs.*2)) r)
    else r
  | HOther _ => r
  end.

Lemma name_no_newline name nm : same_name name nm -> Forall (fun c => toupper c <> 10) name -> Forall (fun c => c <> 10) nm.
Proof.
  unfold same_name. revert nm. induction name as [|l name IH]; intros [|c nm]; simpl; try done.
  intros [= Ec E] [Hl Hn]%Forall_cons_1. constructor; [|by apply IH]. intros ->. by apply Hl.
Qed.
Lemma spaces_no_newline sp : spaces sp -> Forall (fun c => c <> 10) sp.
Proof. apply Forall_impl. by intros c Hc ->. Qed.
Lemma decimal_line n : is_size n -> text_line (decimal n).
Proof.
  intros Hn. destruct (decimal_spec n Hn) as [(Hd & _ & Hne) _].
  assert (Hx : forall c, is_digit_of 10 c = true -> c <> 10 /\ c <> 0 /\ c <> 13).
  { intros c Hc. apply digit_isdigit in Hc. unfold isdigit, between in Hc. bsplit. lia. }
  destruct (exists_last Hne) as (l' & c & E). rewrite E in *. apply Forall_app in Hd as [Hd Hc].
  apply Forall_cons_1 in Hc as [Hc _]. apply Hx in Hc as (? & ? & ?). apply text_line_last; try done.
  eapply Forall_impl; [|exact Hd]. intros d Hdd. by apply Hx in Hdd as (? & _).
Qed.
Lemma range_line x : range_ok x -> text_line (render_range x).
Proof.
  intros (Hf & Hl & Ht). unfold render_range. destruct x as [[] first last]; cbn [rg_type rg_first rg_last] in *; [done|..].
  - rewrite app_assoc. apply text_line_app; [apply Forall_app; split; [by apply decimal_line|by repeat constructor]|by apply decimal_line].
  - apply text_line_last; [by apply decimal_line|done..].
  - apply text_line_app; [by repeat constructor|by apply decimal_line].
Qed.
Lemma ranges_line xs : forall x, range_ok x -> Forall (fun '(sp, x) => spaces sp /\ range_ok x) xs -> text_line (render_ranges x xs).
Proof.
  induction xs as [|[sp y] xs IH]; intros x Hx Hxs.
  - unfold render_ranges. cbn. rewrite app_nil_r. by apply range_line.
  - apply Forall_cons_1 in Hxs as [[Hsp Hy] Hxs]. rewrite render_cons. apply text_line_app; [by apply range_line|].
    apply text_line_app; [by repeat constructor|]. apply text_line_app; [by apply spaces_no_newline|]. by apply IH.
Qed.
Lemma header_line h : header_ok h -> text_line (render_header h).
Proof.
  destruct h as [name sp n|name sp x xs|line]; cbn [render_header header_ok].
  - intros (Hn & Hsp & Hs). apply text_line_app; [eapply name_no_newline; [exact Hn|by repeat constructor]|].
    apply text_line_app; [by apply spaces_no_newline|by apply decimal_line].
  - intros (Hn & Hsp & Hx & Hxs). apply text_line_app; [eapply name_no_newline; [exact Hn|by repeat constructor]|].
    apply text_line_app; [by apply spaces_no_newline|]. apply text_line_app; [by repeat constructor|by apply ranges_line].
  - by intros [? _].
Qed.

Lemma eol_ends_number eol t : line_end eol -> exists c s, eol ++ t = c :: s /\ ends_number c /\ c <> chr ",".
Proof. intros [-> | ->]; eexists _, _; (split; [reflexivity|]); repeat split; done. Qed.

Lemma length_run sp n eol t r : spaces sp -> is_size n -> line_end eol -> view r (sp ++ decimal n ++ eol ++ t) ->
  content_length_header (end_ r - zlen (eol ++ t)) (end_ r - zlen t) r
  = Ret (Some (0, path_read t (if content_length r =? CONTENT_LENGTH_UNKNOWN then set_content_length n r else r))).
Proof.
  intros Hsp Hn He Hv. unfold content_length_header. rewrite get_bind. pose proof (zlen_nonneg t).
  destruct (content_length r =? CONTENT_LENGTH_UNKNOWN); cbn [negb].
  2:{ pose proof (next_line_run t r (cursor r) H) as E. by rewrite set_cursor_same in E. }
  assert (Hno : no_space (decimal n ++ eol ++ t)).
  { destruct (decimal_head n Hn) as (d & ds & -> & Hd & _). simpl. unfold is_http_space. unfold isdigit, between in Hd. bsplit.
    apply orb_false_iff. split; apply Z.eqb_neq; unfold chr; simpl; lia. }
  run (by apply (optional_space_run sp (decimal n ++ eol ++ t))). pose proof (view_app _ _ _ Hv) as Hv1.
  destruct (eol_ends_number eol t He) as (c & s & E & (Hb & Hd & _) & _). rewrite E in Hv1.
  rewrite E at 1. rewrite (bind_run _ _ _ _ _ (size_run n c s _ Hv1 Hn Hb Hd)), <- E, at_suffix_twice. cbv beta iota.
  pose proof (view_app _ _ _ Hv1) as Hv2. rewrite <- E, at_suffix_twice in Hv2.
  rewrite (bind_run _ _ _ _ _ (value_ends_run [] eol t (at_suffix (eol ++ t) r) (Forall_nil_2 _) He Hv2)). cbn [negb].
  rewrite at_suffix_twice. by rewrite (bind_run _ _ _ _ _ (next_line_run t r (end_ r - zlen (eol ++ t)) H)).
Qed.

Lemma range_header_run sp x xs eol t r : spaces sp -> range_ok x -> Forall (fun '(sp, x) => spaces sp /\ range_ok x) xs ->
  line_end eol -> zlen (content_ranges r) = 5 -> view r (sp ++ zs "bytes=" ++ render_ranges x xs ++ eol ++ t) ->
  range_header (end_ r - zlen (eol ++ t)) (end_ r - zlen t) r
  = Ret (Some (0, path_read t (
      if content_range_count r =? 0
      then set_range_count (if 5 <? 1 + zlen xs then 0 else 1 + zlen xs) (set_ranges (fill 0 (content_ranges r) (x :: xs.*2)) r)
      else r))).
Proof.
  intros Hsp Hx Hxs He H5 Hv. set (e := end_ r - zlen (eol ++ t)). unfold range_header. rewrite get_bind. pose proof (zlen_nonneg t). pose proof (zlen_nonneg xs).
  destruct (content_range_count r =? 0); cbn [negb].
  2:{ pose proof (next_line_run t r (cursor r) H) as E. by rewrite set_cursor_same in E. }
  rewrite (bind_run _ _ _ _ _ (optional_space_run sp _ r Hv Hsp eq_refl)). pose proof (view_app _ _ _ Hv) as Hv1.
  rewrite (bind_run _ _ _ _ _ (literal_run (zs "bytes=") _ _ Hv1)). cbn [negb]. rewrite at_suffix_twice, get_bind.
  pose proof (view_app _ _ _ Hv1) as Hv2. rewrite at_suffix_twice in Hv2.
  destruct (eol_ends_number eol t He) as (c & s & E & Hc & Hcomma). rewrite E in Hv2 |- *.
  set (r1 := at_suffix (render_ranges x xs ++ c :: s) r) in *.
  assert (Er : _parse_ranges (content_ranges r1) 5 r1
    = Ret (Some ((1 + zlen xs, fill 0 (content_ranges r) (x :: xs.*2)), at_suffix (c :: s) r1))).
  { rewrite <- H5. change (content_ranges r1) with (content_ranges r). by apply parse_ranges_fill. }
  rewrite (bind_run _ _ _ _ _ Er). cbv beta iota. pose proof (view_app _ _ _ Hv2) as Hv3. unfold r1 in *. clear r1 Er.
  rewrite <- E, !at_suffix_twice in *.
  rewrite (bind_run (modify _) _ (at_suffix (eol ++ t) r) tt (set_ranges (fill 0 (content_ranges r) (x :: xs.*2)) (at_suffix (eol ++ t) r)) eq_refl).
  rewrite (proj2 (Z.eqb_neq (1 + zlen xs) 0)) by lia. set (r2 := set_ranges _ (at_suffix _ r)).
  assert (Hv4 : view r2 ([] ++ eol ++ t)) by (apply (view_same (at_suffix (eol ++ t) r)); done).
  assert (Ev : value_ends e r2 = Ret (Some (true, at_suffix (eol ++ t) r2)))
    by exact (value_ends_run [] eol t r2 (Forall_nil_2 _) He Hv4).
  rewrite (bind_run _ _ _ _ _ Ev). cbn [negb].
  assert (En : next_line (end_ r - zlen t) (at_suffix (eol ++ t) r2) = Ret (Some (0, path_read t r2)))
    by exact (next_line_run t r2 (end_ r - zlen (eol ++ t)) H).
  by rewrite (bind_run _ _ _ _ _ En).
Qed.
End header.

(** * The HTTP request parser: the head of a request

    A head written from a verb, a path, a version and headers is read back, one
    pass of the receive loop for each part. *)

Section text.
Context {arch : Arch} {henv : HttpEnv} {pok : PointersOk}.

(** ** One header line *)

(** The five names are tried in turn: the line does not start with this one. *)
Ltac other_name Hst :=
  match goal with
  | |- on_header ?n ?y ?m (set_cursor ?c ?r) = _ =>
    destruct (on_header_no n y m _ c r Hst
      ltac:(solve [assumption | match goal with H : forall name : list Z, _ |- _ => by apply H end])) as [? ->]
  end.
Lemma chain_yes_length eol nl c r nm s : starts r (nm ++ s) -> same_name (zs "Content-Length:") nm ->
  headers_chain eol nl (set_cursor c r) = content_length_header eol nl (at_suffix s r).
Proof. intros. unfold headers_chain. by apply on_header_yes with (nm := nm). Qed.
Lemma chain_yes_range eol nl c r nm s : starts r (nm ++ s) -> same_name (zs "Range:") nm ->
  headers_chain eol nl (set_cursor c r) = range_header eol nl (at_suffix s r).
Proof.
  intros Hst Hn. unfold headers_chain.
  assert (Hf : forall name, toupper (hd 0 name) <> 82 -> name <> [] -> (skip_literal toupper name (nm ++ s)).1 = false).
  { intros name Hne Hnil. destruct nm as [|d nm]; [done|]. cbn [app]. apply skip_other_name; [|done].
    assert (E : toupper d = 82) by (unfold same_name in Hn; rewrite fmap_cons in Hn; by injection Hn). rewrite E. congruence. }
  other_name Hst. other_name Hst.
  by apply on_header_yes with (nm := nm).
Qed.
Lemma chain_no eol nl t c r s : starts r s -> 0 <= zlen t -> nl = end_ r - zlen t ->
  Forall (fun name => (skip_literal toupper name s).1 = false) known_names ->
  headers_chain eol nl (set_cursor c r) = Ret (Some (0, path_read t r)).
Proof.
  intros Hst Ht -> Hn. unfold known_names in Hn. do 5 apply Forall_cons_1 in Hn as [? Hn].
  unfold headers_chain. repeat other_name Hst.
  destruct Hst as [_ _ Hr]. rewrite (bind_run _ _ _ _ _ (rewind_run (set_cursor _ r) Hr)). exact (next_line_run t r (parsed r) Ht).
Qed.

Lemma known_names_end line eol t : line_end eol ->
  Forall (fun name => (skip_literal toupper name line).1 = false) known_names ->
  Forall (fun name => (skip_literal toupper name (line ++ eol ++ t)).1 = false) known_names.
Proof.
  intros He Hn. assert (Hc : Forall (fun name => Forall (fun x => toupper x <> 10 /\ toupper x <> 13) name) known_names).
  { unfold known_names. repeat constructor; done. }
  apply Forall_forall. intros name Hin. rewrite Forall_forall in Hn, Hc. specialize (Hn name Hin). specialize (Hc name Hin).
  destruct He as [-> | ->]; cbn [app]; apply skip_name_end; try done; eapply Forall_impl; try exact Hc; by intros x [? ?].
Qed.

(** One header line, whatever it is. *)
Lemma header_run h eol t r : header_ok h -> line_end eol -> zlen (content_ranges r) = 5 ->
  starts r (render_header h ++ eol ++ t) ->
  http_request_parse_header r = Ret (Some (0, path_read t (apply_header h r))).
Proof.
  intros Hh He H5 Hst. rewrite (parse_header_line _ eol t r (header_line h Hh) He Hst).
  destruct h as [name sp n|name sp x xs|line]; cbn [render_header header_ok apply_header] in *.
  - destruct Hh as (Hn & Hsp & Hs). rewrite <- !app_assoc in Hst. rewrite (chain_yes_length _ _ _ _ _ _ Hst Hn).
    pose proof (view_app _ _ _ (starts_view _ _ Hst)) as Hv.
    etransitivity; [exact (length_run sp n eol t (at_suffix _ r) Hsp Hs He Hv)|].
    change (content_length (at_suffix ?s r)) with (content_length r). by destruct (content_length r =? _).
  - destruct Hh as (Hn & Hsp & Hx & Hxs). rewrite <- !app_assoc in Hst. rewrite (chain_yes_range _ _ _ _ _ _ Hst Hn).
    pose proof (view_app _ _ _ (starts_view _ _ Hst)) as Hv.
    etransitivity; [exact (range_header_run sp x xs eol t (at_suffix _ r) Hsp Hx Hxs He H5 Hv)|].
    change (content_range_count (at_suffix ?s r)) with (content_range_count r). by destruct (content_range_count r =? 0).
  - destruct Hh as [_ Hn]. apply (chain_no _ _ t _ r _ Hst); [apply zlen_nonneg|done|by apply known_names_end].
Qed.

(** What a header leaves alone. *)
Lemma apply_header_same h r : let r' := apply_header h r in
  (buffer r' = buffer r /\ end_ r' = end_ r /\ reserved r' = reserved r /\ received r' = received r /\ strings r' = strings r) /\
  (auth_scheme r' = auth_scheme r /\ phase r' = phase r /\ result_code r' = result_code r /\ parser r' = parser r) /\
  (request_content_remaining r' = request_content_remaining r /\ verb r' = verb r /\
   version_major r' = version_major r /\ version_minor r' = version_minor r) /\
  zlen (content_ranges r') = zlen (content_ranges r).
Proof.
  destruct h as [name sp n|name sp x xs|line]; cbn [apply_header]; [by destruct (content_length r =? _)| |done].
  destruct (content_range_count r =? 0); [|done]. split_and!; try reflexivity.
  exact (f_equal Z.of_nat (fill_length (x :: xs.*2) 0 (content_ranges r))).
Qed.

Lemma header_pass fuel h eol t r : header_ok h -> line_end eol -> zlen (content_ranges r) = 5 -> t <> [] ->
  ready ParseHeader r (render_header h ++ eol ++ t) ->
  ready ParseHeader (path_read t (apply_header h r)) t /\
  receive_loop (S fuel) r = receive_loop fuel (path_read t (apply_header h r)).
Proof.
  intros Hh He H5 Ht Hready. pose proof Hready as Hr. rewrite app_assoc in Hready.
  destruct (apply_header_same h r) as ((E1 & E2 & E3 & E4 & E5) & (E6 & E7 & E8 & E9) & _).
  pose proof Hr as [Hst Hph Hp Hcode _ _].
  destruct (ready_after _ ParseHeader _ _ _ (path_read t (apply_header h r)) Hready) as [Hready1 Hp1];
    cbn [path_read at_suffix set_parsed set_cursor buffer end_ cursor parsed received reserved strings auth_scheme phase result_code parser request_content_remaining];
    rewrite ?E2; [congruence|congruence|done|done|congruence|congruence|congruence|congruence|congruence|congruence|congruence|by left|].
  split; [done|]. pose proof (zlen_nonneg (render_header h)).
  assert (0 < zlen eol) by (by destruct He as [-> | ->]). rewrite zlen_app in Hp1.
  eapply loop_run; [exact Hr| |exact Hready1|lia|right; lia]. by apply (header_run h eol).
Qed.

(** ** The headers *)

Definition headers_text (hs : list (header * list Z)) : list Z := concat ((fun '(h, eol) => render_header h ++ eol) <$> hs).
Definition headers_ok (hs : list (header * list Z)) : Prop := Forall (fun '(h, eol) => header_ok h /\ line_end eol) hs.

(** The length of the first header of a length; the largest length stands for none. *)
Fixpoint first_length (hs : list (header * list Z)) : option Z :=
  match hs with
  | [] => None
  | (HLength _ _ n, _) :: hs => if n =? CONTENT_LENGTH_UNKNOWN then first_length hs else Some n
  | _ :: hs => first_length hs
  end.
(** The ranges of the first header of at most five ranges. *)
Fixpoint first_ranges (hs : list (header * list Z)) : list http_range :=
  match hs with
  | [] => []
  | (HRange _ _ x xs, _) :: hs => if 5 <? 1 + zlen xs then first_ranges hs else x :: xs.*2
  | _ :: hs => first_ranges hs
  end.

(** What is not changed by any header. *)
Record same_line (r r' : http_request) : Prop := SameLine {
  sl_verb : verb r' = verb r;
  sl_major : version_major r' = version_major r;
  sl_minor : version_minor r' = version_minor r;
  sl_path : string_at FPath r' = string_at FPath r;
  sl_remaining : request_content_remaining r' = request_content_remaining r
}.
Global Instance same_line_trans : Transitive same_line.
Proof. intros r1 r2 r3 [] []. split; congruence. Qed.

(** What has been read of the headers: the length, and the ranges. *)
Definition length_of (r : http_request) : option Z :=
  if content_length r =? CONTENT_LENGTH_UNKNOWN then None else Some (content_length r).
Definition ranges_of (r : http_request) : list http_range := take (Z.to_nat (content_range_count r)) (content_ranges r).
(** The first that there is. *)
Definition ranges_or (a b : list http_range) : list http_range := match a with [] => b | _ => a end.

Lemma apply_header_length h eol hs r :
  match length_of (apply_header h r) with Some n => Some n | None => first_length hs end
  = match length_of r with Some n => Some n | None => first_length ((h, eol) :: hs) end.
Proof.
  unfold length_of. destruct h as [name sp n|name sp x xs|line]; simpl; [|by destruct (content_range_count r =? 0)|done].
  destruct (content_length r =? CONTENT_LENGTH_UNKNOWN) eqn:E; simpl; [by destruct (n =? _)|by rewrite E].
Qed.
Lemma apply_header_ranges h eol hs r : zlen (content_ranges r) = 5 -> 0 <= content_range_count r <= 5 ->
  0 <= content_range_count (apply_header h r) <= 5 /\
  ranges_or (ranges_of (apply_header h r)) (first_ranges hs) = ranges_or (ranges_of r) (first_ranges ((h, eol) :: hs)).
Proof.
  intros H5 Hc. unfold ranges_of.
  destruct h as [name sp n|name sp x xs|line]; cbn [apply_header first_ranges]; [by destruct (content_length r =? _)| |done].
  destruct (Z.eqb_spec (content_range_count r) 0) as [E|E]; cbn [content_range_count content_ranges set_range_count set_ranges].
  - rewrite E. change (take (Z.to_nat 0) ?l) with (@nil http_range). pose proof (zlen_nonneg xs).
    destruct (Z.ltb_spec 5 (1 + zlen xs)); [done|]. split; [lia|].
    assert (Hl : Z.to_nat (1 + zlen xs) = length (x :: xs.*2)) by (simpl; rewrite length_fmap; unfold zlen; lia).
    rewrite Hl, fill_take. unfold zlen in H5. rewrite take_ge; [done|lia].
  - split; [done|]. destruct (content_ranges r) as [|y l]; [done|]. by destruct (Z.to_nat _) eqn:E0; [lia|].
Qed.

Lemma headers_run hs t : t <> [] -> headers_ok hs -> forall fuel r, zlen (content_ranges r) = 5 -> 0 <= content_range_count r <= 5 ->
  ready ParseHeader r (headers_text hs ++ t) ->
  exists r', receive_loop (length hs + fuel) r = receive_loop fuel r' /\ ready ParseHeader r' t /\ same_line r r' /\
    length_of r' = match length_of r with Some n => Some n | None => first_length hs end /\
    ranges_of r' = ranges_or (ranges_of r) (first_ranges hs).
Proof.
  intros Ht. induction hs as [|[h eol] hs IH]; intros Hhs fuel r H5 Hc Hready.
  { exists r. split_and!; [done|done|by split|by destruct (length_of r)|by destruct (ranges_of r)]. }
  apply Forall_cons_1 in Hhs as [[Hh He] Hhs].
  assert (E : headers_text ((h, eol) :: hs) ++ t = render_header h ++ eol ++ (headers_text hs ++ t))
    by (unfold headers_text; rewrite fmap_cons; cbn [concat]; by rewrite <- !app_assoc).
  rewrite E in Hready. set (rest := headers_text hs ++ t) in *.
  assert (Hrest : rest <> []) by (unfold rest; intros [_ ?]%app_eq_nil; done).
  destruct (header_pass (length hs + fuel) h eol rest r Hh He H5 Hrest Hready) as [Hready1 Hloop].
  destruct (apply_header_same h r) as ((Eb & _ & _ & _ & Es) & _ & (Er & Ev & Emaj & Emin) & E5).
  pose proof (apply_header_length h eol hs r) as El. destruct (apply_header_ranges h eol hs r H5 Hc) as [Hc1 Eg].
  generalize dependent (apply_header h r). intros r1 Hready1 Hloop Eb Es Er Ev Emaj Emin E5 El Hc1 Eg.
  destruct (IH Hhs fuel (path_read rest r1)) as (r' & E' & Hready' & S' & L' & G'); [by rewrite <- H5, <- E5|exact Hc1|exact Hready1|].
  exists r'. change (length_of (path_read rest r1)) with (length_of r1) in L'.
  change (ranges_of (path_read rest r1)) with (ranges_of r1) in G'.
  split_and!; [cbn [Nat.add length]; congruence|done| |congruence|congruence].
  transitivity (path_read rest r1); [|done]. split; try done. by apply string_at_same; [rewrite <- Es|rewrite <- Eb].
Qed.

Lemma start_pass fuel t r : ready StartHeaders r t -> verb r <> None -> strings r FPath <> None -> version_major r = 1 ->
  ready ParseHeader (set_parser (Some ParseHeader) r) t /\
  receive_loop (S fuel) r = receive_loop fuel (set_parser (Some ParseHeader) r).
Proof.
  intros Hready Hv Hp H1. pose proof Hready as [Hst Hph Hpar Hcode Hmore Hok].
  assert (Hready1 : ready ParseHeader (set_parser (Some ParseHeader) r) t)
    by (split; [by apply (starts_same r)|done..|by apply (request_ok_same r)]).
  split; [done|]. eapply loop_run; [exact Hready| |exact Hready1|simpl; lia|by left].
  cbn [run_parser]. unfold http_request_start_parsing_headers, assert_first_line.
  rewrite (bind_run _ _ _ _ _ (asserts_run (fun r => match verb r, strings r FPath with Some _, Some _ => negb (version_major r =? 0) | _, _ => false end) r
    ltac:(simpl; destruct (verb r), (strings r FPath); by rewrite ?H1))).
  rewrite get_bind. unfold id. by rewrite H1.
Qed.

(** The request after the blank line. *)
Definition after_head (t : list Z) (r : http_request) : http_request :=
  let r' := path_read t r in
  set_parser (Some StartBody)
    (match length_of r with Some n => set_remaining (if n <? zlen t then 0 else n - zlen t) r' | None => r' end).

Lemma blank_pass fuel eol t r : ready ParseHeader r (eol ++ t) -> line_end eol -> handle_headers = None ->
  receive_loop (S fuel) r = receive_loop fuel (after_head t r).
Proof.
  intros Hready He Hh. pose proof Hready as [[Hv Hc Hr] Hph Hpar Hcode Hmore Hok]. pose proof (zlen_nonneg t).
  pose proof (view_zlen _ _ Hv) as Hlen. rewrite zlen_app in Hlen. pose proof (zlen_nonneg eol).
  eapply (loop_step fuel _ _ _ _ StartBody Hready); [|by unfold after_head; destruct (length_of r)..| |by left].
  2:{ unfold after_head. destruct (length_of r); simpl; lia. }
  cbn [run_parser]. unfold http_request_parse_header.
  assert (E : _skip_to_eol r = Ret (Some (true, r))).
  { unfold _skip_to_eol. rewrite (scan_run _ _ _ Hv), (skip_to_eol_blank eol t He). unfold at_suffix. cbn [fst snd].
    replace (end_ r - zlen (eol ++ t)) with (cursor r) by (rewrite zlen_app; lia). by rewrite set_cursor_same. }
  rewrite (bind_run _ _ _ _ _ E), get_bind, (bind_run _ _ _ _ _ (eol_run eol t _ He Hv)), get_bind. unfold id.
  change (parsed (at_suffix t r)) with (parsed r). rewrite Hc, Z.eqb_refl. unfold blank_line.
  rewrite (bind_run _ _ _ _ _ (commit_run (at_suffix t r) ltac:(simpl; lia))). rewrite get_bind. unfold id.
  change (set_parsed (cursor (at_suffix t r)) (at_suffix t r)) with (path_read t r). unfold after_head, length_of.
  change (content_length (path_read t r)) with (content_length r).
  destruct (content_length r =? CONTENT_LENGTH_UNKNOWN); [by rewrite Hh|].
  replace (end_ (path_read t r) - parsed (path_read t r)) with (zlen t) by (simpl; lia). by rewrite Hh.
Qed.

Lemma after_head_facts eol t r : ready ParseHeader r (eol ++ t) ->
  let r' := after_head t r in
  (phase r' = RECEIVE /\ parser r' = Some StartBody /\ starts r' t /\ verb r' = verb r /\ string_at FPath r' = string_at FPath r) /\
  (version_major r' = version_major r /\ version_minor r' = version_minor r /\ length_of r' = length_of r /\ ranges_of r' = ranges_of r) /\
  forall n, length_of r = Some n -> request_content_remaining r' = if n <? zlen t then 0 else n - zlen t.
Proof.
  intros Hready. pose proof (starts_after eol t r (ready_starts _ _ _ Hready)) as Hst. pose proof (ready_phase _ _ _ Hready) as Hph.
  cbv zeta. unfold after_head. destruct (length_of r) as [n|] eqn:E.
  - split; [|split; [|by intros ? [= ->]]].
    + split_and!; [exact Hph|done|by apply (starts_same (path_read t r))|done|by apply string_at_same].
    + split_and!; [done|done|rewrite <- E; done|done].
  - split; [|split; [|done]].
    + split_and!; [exact Hph|done|by apply (starts_same (path_read t r))|done|by apply string_at_same].
    + split_and!; [done|done|rewrite <- E; done|done].
Qed.

(** ** The head *)

Definition head_text (v : http_verb) (path : list Z) (minor : Z) (eol : list Z) (hs : list (header * list Z)) (last : list Z) : list Z :=
  request_line v path 1 minor eol ++ headers_text hs ++ last.

(** A request that has received nothing of the head. *)
Record new_request (r : http_request) : Prop := NewRequest {
  new_length : content_length r = CONTENT_LENGTH_UNKNOWN;
  new_count : content_range_count r = 0;
  new_ranges : zlen (content_ranges r) = 5
}.
(** What is known of a request once its head has been read, and [t] follows. *)
Record head_read (v : http_verb) (path : list Z) (minor : Z) (hs : list (header * list Z)) (t : list Z) (r : http_request) : Prop := HeadRead {
  hr_phase : phase r = RECEIVE;
  hr_parser : parser r = Some StartBody;
  hr_rest : starts r t;
  hr_verb : verb r = Some v;
  hr_path : string_at FPath r = Ret path;
  hr_version : version_major r = 1 /\ version_minor r = minor;
  hr_length : length_of r = first_length hs;
  hr_remaining : forall n, first_length hs = Some n -> request_content_remaining r = if n <? zlen t then 0 else n - zlen t;
  hr_ranges : ranges_of r = first_ranges hs
}.

Lemma head_run fuel v path minor eol hs last t r :
  handle_first_line = None -> handle_headers = None -> line_ok path 1 minor eol r -> headers_ok hs -> line_end last ->
  new_request r -> ready ParseVerb r (head_text v path minor eol hs last ++ t) ->
  exists r', receive_loop (5 + length hs + fuel) r = receive_loop fuel r' /\ head_read v path minor hs t r'.
Proof.
  intros Hf Hh Hl Hhs Hlast [Nl Nc Nr] Hready. unfold head_text in Hready. rewrite <- !app_assoc in Hready.
  set (rest := headers_text hs ++ last ++ t) in *.
  assert (Hlt : last ++ t <> []) by (by destruct Hlast as [-> | ->]).
  assert (Hrest : rest <> []) by (unfold rest; intros [_ ?]%app_eq_nil; done).
  destruct (request_line_run (S (length hs + S fuel)) v path 1 minor eol rest r Hf Hl Hready (or_introl Hrest)) as
    (E1 & Hready1 & V1 & P1 & M1 & N1 & S1).
  generalize dependent (after_line v path 1 minor eol rest r). intros r1 E1 Hready1 V1 P1 M1 N1 S1.
  destruct (start_pass (length hs + S fuel) rest r1 Hready1) as [Hready2 E2]; [congruence| |done|].
  { intros Hn. unfold string_at in P1. by rewrite Hn in P1. }
  set (r2 := set_parser (Some ParseHeader) r1) in *.
  destruct (headers_run hs (last ++ t) Hlt Hhs (S fuel) r2) as (r3 & E3 & Hready3 & S3 & L3 & G3);
    [by change (content_ranges r2) with (content_ranges r1); rewrite (same_ranges _ _ S1)
    |change (content_range_count r2) with (content_range_count r1); rewrite (same_count _ _ S1); lia|exact Hready2|].
  pose proof (blank_pass fuel last t r3 Hready3 Hlast Hh) as E4.
  exists (after_head t r3). split.
  { replace (5 + length hs + fuel)%nat with (S (S (S (S (length hs + S fuel))))) by lia. congruence. }
  assert (Hl2 : length_of r2 = None) by (unfold length_of; change (content_length r2) with (content_length r1);
    rewrite (same_length _ _ S1), Nl; done).
  assert (Hg2 : ranges_of r2 = []) by (unfold ranges_of; change (content_range_count r2) with (content_range_count r1);
    rewrite (same_count _ _ S1), Nc; done).
  rewrite Hl2 in L3. rewrite Hg2 in G3. change (ranges_of r3 = first_ranges hs) in G3. destruct S3 as [S3v S3maj S3min S3p S3r].
  destruct (after_head_facts last t r3 Hready3) as ((F1 & F2 & F3 & F4 & F5) & (F6 & F7 & F8 & F9) & F10).
  assert (P2 : string_at FPath r2 = string_at FPath r1) by (by apply string_at_same).
  assert (V2 : verb r2 = verb r1 /\ version_major r2 = version_major r1 /\ version_minor r2 = version_minor r1) by done.
  destruct V2 as (V2 & M2 & N2). split; try assumption; try (by split; congruence); try congruence.
  intros n Hn. apply F10. congruence.
Qed.
End text.
