(* ===== verification/HttpTheorems.v ===== *)
(** * The HTTP request parser: a server to run it in, and the properties

    A 64-bit machine whose server accepts every part of a form, with requests on which
    the parser stops the program or takes a text for something else than it is; then
    the properties: the invariant and the end of receiving, the reserved strings, the
    request line and headers read back, and ranges closed. *)

From Stdlib Require Import ZArith Lia Ascii String.
From stdpp Require Import base tactics list numbers.
From S2P Require Import Prelude Cstring Ctype Str StrNumbers Http HttpValues HttpParse HttpWp HttpReserve HttpKeeps HttpText HttpHead.

Local Open Scope Z_scope.

Definition accept_part : HP Z := mret 0.
(** The end of the content is answered with "200". *)
Definition answer : HP Z := mret 200.

(** The handlers of form data put what they are given into [events]. *)
#[local] Existing Instance LP64.
#[local] Instance example_env : @HttpEnv LP64 := {|
  handle_first_line := None; handle_headers := None; handle_content_end := Some answer;
  form_data := MimeHandler (Some (fun _ _ => accept_part)) (Some accept_part) (Some (fun _ => accept_part))
    (Some (fun _ _ => accept_part)) (Some accept_part) (Some (fun _ _ => accept_part));
  disable_tx := false;
  idle_timeout := 0;
  www_authenticate := NOAUTH;
  pointer_to f := match f with FPath => 1 | FOrigin => 2 | FUser => 3 | FPassword => 4 end :: repeat 0 7;
  strptime _ := None;
  render_response := mret true
|}.

#[local] Instance example_pointers : PointersOk.
Proof. split; [by intros []|]. by intros [] []. Qed.
#[local] Instance example_handlers : HandlersOk.
Proof.
  assert (H : forall z, handler_ok (mret z)) by (intros z r _ _; by apply wp_ret).
  split; try (intros * [= <-]; apply H); try done.
  intros * [= <-] _ _. by apply wp_ret.
Qed.

(** A cleared request. *)
Definition zeroed : http_request :=
  Request RECEIVE None (fun _ => None) 0 0 0 zero_content_type 0 (replicate 5 (Range NIL 0 0)) 0 None 0 0 0 0 0 0 START
    (PartHeaders 0 zero_content_type zero_disposition) 0 0 (replicate (Z.to_nat buffer_size) 0) [] [].
Definition crlf : list Z := [13; 10].

(** The server on what arrives: the request is received until it has a response. *)
Fixpoint serve_loop (fuel : nat) (packets : list (list Z)) : HP unit :=
  match packets with
  | [] => mret tt
  | _ :: packets =>
    p ← get phase;
    if bool_decide (p = RECEIVE) then _ ← http_request_receive fuel; serve_loop fuel packets else mret tt
  end.
Definition serve (fuel : nat) (packets : list (list Z)) : outcome (option http_request) :=
  let m : HP unit := _ ← http_request_init 5; _ ← modify (set_input (Some <$> packets)); serve_loop fuel packets in
  mbind (M := outcome) (fun x => Ret (snd <$> x)) (m zeroed).
Definition answered (f : http_request -> Z) (o : outcome (option http_request)) : outcome (option Z) :=
  mbind (M := outcome) (fun x : option http_request => Ret (f <$> x)) o.
Definition request_text (line : string) (headers : list string) (body : list Z) : list Z :=
  zs line ++ crlf ++ concat ((fun h => zs h ++ crlf) <$> headers) ++ crlf ++ body.

(** ** Requests that stop the program *)

Lemma control_character_aborts : serve 20 [zs "GET /foo" ++ [1]] = Abort.
Proof. vm_compute. reflexivity. Qed.
Lemma type_parameter_aborts :
  serve 20 [request_text "POST / HTTP/1.0" ["Content-Type: text/plain; q=1"%string] []] = Abort.
Proof. vm_compute. reflexivity. Qed.
Lemma digest_aborts :
  serve 20 [request_text "GET / HTTP/1.0" ["Authorization: Digest abc"%string] []] = Abort.
Proof. vm_compute. reflexivity. Qed.

(** ** Requests that depend on how they are cut into packets *)

(** A header whose line is cut: the part that has arrived is taken for the header. *)
Lemma cut_header_is_taken :
  answered content_length
    (serve 20 [zs "GET /foo HTTP/1.1" ++ crlf ++ zs "Content-Length: 12"; zs "34" ++ crlf ++ crlf]) = Ret (Some 12) /\
  answered content_length
    (serve 20 [zs "GET /foo HTTP/1.1" ++ crlf ++ zs "Content-Length: 1234" ++ crlf ++ crlf]) = Ret (Some 1234).
Proof. split; vm_compute; reflexivity. Qed.

Definition form_head (n : Z) : list Z :=
  zs "POST /up HTTP/1.0" ++ crlf ++ zs "Content-Length: " ++ decimal n ++ crlf ++
  zs "Content-Type: multipart/form-data; boundary=xyz" ++ crlf ++ crlf.
(** A form in the packets [p] and [q]. *)
Definition send_form (p q : list Z) : outcome (option http_request) :=
  let packet := form_head (zlen (p ++ q)) ++ p in serve 40 (match q with [] => [packet] | _ => [packet; q] end).
Definition part_head : list Z := crlf ++ zs "Content-Disposition: form-data; name=f" ++ crlf.
Definition form_end : list Z := zs "hello" ++ crlf ++ zs "--xyz--" ++ crlf.
(** The bytes that the handler of the body has been given. *)
Definition body_bytes (r : http_request) : list Z :=
  concat ((fun e => match e with MimeBody _ bs => bs | _ => [] end) <$> events r).
Definition with_body (o : outcome (option http_request)) : outcome (option (Z * list Z)) :=
  mbind (M := outcome) (fun x : option http_request => Ret ((fun r => (result_code r, body_bytes r)) <$> x)) o.

Lemma cut_part_header_refused :
  answered result_code (send_form (zs "--xyz" ++ part_head ++ zs "Content-Ty") (zs "pe: text/plain" ++ crlf ++ crlf ++ form_end))
  = Ret (Some 400) /\
  answered result_code (send_form (zs "--xyz" ++ part_head ++ zs "Content-Ty" ++ zs "pe: text/plain" ++ crlf ++ crlf ++ form_end) [])
  = Ret (Some 200).
Proof. split; vm_compute; reflexivity. Qed.

Lemma cut_boundary_is_data :
  with_body (send_form (zs "--xyz" ++ part_head ++ crlf ++ zs "hello" ++ crlf ++ zs "--x") (zs "yz--" ++ crlf))
  = Ret (Some (400, zs "hello" ++ crlf ++ zs "--x")) /\
  with_body (send_form (zs "--xyz" ++ part_head ++ crlf ++ zs "hello" ++ crlf ++ zs "--xyz--" ++ crlf) [])
  = Ret (Some (200, zs "hello")).
Proof. split; vm_compute; reflexivity. Qed.

(** ** What is taken for a boundary *)

(** One more dash behind the boundary is passed over. *)
Lemma dash_boundary_accepted :
  with_body (send_form (zs "--xyz-" ++ part_head ++ crlf ++ form_end) []) = Ret (Some (200, zs "hello")).
Proof. vm_compute. reflexivity. Qed.

(** ** Ranges of an empty resource *)

Lemma empty_resource_range : http_range_close [Range OPEN 0 0; Range SUFFIX 0 5] 0
  = Ret [Range CLOSED 0 UINT64_MAX; Range CLOSED 0 UINT64_MAX].
Proof. reflexivity. Qed.

(** * The HTTP request parser: properties

    The invariant of a request and the end of receiving, the strings reserved in
    the buffer, the request line and headers read back, and ranges closed. *)

(** ** The body of a part *)

Section body.
Context {arch : Arch} {henv : HttpEnv} {pok : PointersOk}.

(** What ends a delimiter: 1 stands for another part, 2 for the end of the form. *)
Definition delimiter_end (b : Z) (tail : list Z) : Prop :=
  (b = 1 /\ tail = [13; 10]) \/ (b = 2 /\ tail = zs "--" ++ [13; 10]).
Definition boundary_is (bd : list Z) (r : http_request) : Prop :=
  c_string (multipart_boundary (content_type r)) = Ret bd /\ Forall (fun c => c <> 13) bd.
(** [body] has no line that starts like a delimiter. *)
Definition without (bd body : list Z) : Prop := forall p q, body <> p ++ [13; 10] ++ zs "--" ++ bd ++ q.

Lemma skip_crlf_run t r : view r (13 :: 10 :: t) -> _skip_crlf r = Ret (Some (true, at_suffix t r)).
Proof. intros Hv. unfold _skip_crlf. by rewrite (scan_run _ _ _ Hv). Qed.

Lemma skip_to_crlf_split body t :
  skip_to_crlf (body ++ 13 :: 10 :: t) = (true, 13 :: 10 :: t) \/
  exists pre rest, body = pre ++ 13 :: 10 :: rest /\ skip_to_crlf (body ++ 13 :: 10 :: t) = (true, 13 :: 10 :: rest ++ 13 :: 10 :: t).
Proof.
  induction body as [|c body IH]; [by left|]. cbn [app skip_to_crlf].
  destruct (Z.eqb_spec c 13) as [->|Hc]; cbn [andb].
  - destruct body as [|d body]; cbn [app].
    + by left.
    + destruct (Z.eqb_spec d 10) as [->|Hd]; [right; by exists [], body|].
      destruct IH as [IH|(pre & rest & E & IH)]; [by left|]. right. exists (13 :: pre), rest. split; [by rewrite E|exact IH].
  - destruct IH as [IH|(pre & rest & E & IH)]; [by left|]. right. exists (c :: pre), rest. split; [by rewrite E|exact IH].
Qed.

(** A literal takes a prefix of itself. *)
Lemma skip_literal_takes lit s : exists m, s = m ++ (skip_literal id lit s).2 /\ m `prefix_of` lit.
Proof.
  revert s. induction lit as [|l lit IH]; intros s; [exists []; by destruct s|].
  destruct s as [|c s]; [exists []; split; [done|apply prefix_nil]|]. cbn [skip_literal]. change (id c =? id l) with (c =? l).
  destruct (Z.eqb_spec c l) as [->|]; [|exists []; split; [done|apply prefix_nil]].
  destruct (IH s) as (m & E & Hm). exists (l :: m). split; [by rewrite <- app_comm_cons, <- E|by apply prefix_cons].
Qed.

Lemma boundary_run bd b tail t r : boundary_is bd r -> delimiter_end b tail -> view r (zs "--" ++ bd ++ tail ++ t) ->
  _skip_mime_boundary r = Ret (Some (b, at_suffix t r)).
Proof.
  intros [Hb _] Ht Hv. unfold _skip_mime_boundary.
  assert (E : (ct ← get content_type; lift (c_string (multipart_boundary ct))) r = Ret (Some (bd, r)))
    by (rewrite get_bind; unfold lift; by rewrite Hb).
  rewrite (bind_run _ _ _ _ _ E). rewrite (bind_run _ _ _ _ _ (literals_run (zs "--") bd r _ Hv)).
  rewrite (app_assoc (zs "--")), skip_literal_app. cbn [fst snd negb]. rewrite app_assoc in Hv. pose proof (view_app _ _ _ Hv) as Hv1.
  destruct Ht as [[-> ->]|[-> ->]].
  - assert (Hno : (_skip_literal (zs "--") <&&> _skip_crlf) (at_suffix ([13; 10] ++ t) r) = Ret (Some (false, at_suffix ([13; 10] ++ t) r))).
    { erewrite and_then_run by (by apply literal_other with (c := 13) (s := 10 :: t)). done. }
    rewrite (bind_run _ _ _ _ _ Hno). by rewrite (bind_run _ _ _ _ _ (skip_crlf_run t _ Hv1)).
  - rewrite <- app_assoc in Hv1. pose proof (view_app _ _ _ Hv1) as Hv2.
    assert (Hyes : (_skip_literal (zs "--") <&&> _skip_crlf) (at_suffix ((zs "--" ++ [13; 10]) ++ t) r) = Ret (Some (true, at_suffix t r))).
    { rewrite (and_then_run _ _ _ _ _ (literal_run (zs "--") ([13; 10] ++ t) _ Hv1)). by rewrite (skip_crlf_run t _ Hv2). }
    by rewrite (bind_run _ _ _ _ _ Hyes).
Qed.

(** A text that is not a delimiter is passed over up to where it stops being one. *)
Lemma boundary_not bd rest t r : boundary_is bd r -> without bd (13 :: 10 :: rest) ->
  view r (rest ++ 13 :: 10 :: t) ->
  exists rest', rest' `suffix_of` rest /\ _skip_mime_boundary r = Ret (Some (0, at_suffix (rest' ++ 13 :: 10 :: t) r)).
Proof.
  intros [Hb Hcr] Hw Hv. set (delim := zs "--" ++ bd).
  assert (Hd : Forall (fun c => c <> 13) delim) by (apply Forall_app; split; [by repeat constructor|done]).
  set (s := rest ++ 13 :: 10 :: t) in *.
  destruct (skip_literal_takes delim s) as (m & Em & Hm).
  (* what has been taken holds no CR, so it is a prefix of [rest] *)
  assert (Hrest : exists rest', rest = m ++ rest' /\ (skip_literal id delim s).2 = rest' ++ 13 :: 10 :: t).
  { assert (Hm13 : Forall (fun c => c <> 13) m) by (destruct Hm as [k ->]; by apply Forall_app in Hd as [? _]).
    revert Em. generalize (skip_literal id delim s).2. intros s' Em. unfold s in Em. apply app_eq_inv in Em as [(k & -> & Ek)|(k & -> & Ek)].
    - by exists k.
    - destruct k as [|c k]; [exists []; rewrite !app_nil_r; by split|]. simpl in Ek. injection Ek as <- _.
      apply Forall_app in Hm13 as [_ Hk]. apply Forall_cons_1 in Hk as [Hk _]. done. }
  destruct Hrest as (rest' & -> & Es).
  assert (Hno : (skip_literal id delim s).1 = false).
  { destruct (skip_literal_cases delim s) as [(k & Ek & E)|[(k & _ & _ & E)|(_ & _ & c & k & _ & E)]]; rewrite E; [|done..].
    exfalso. rewrite E in Es, Em. simpl in Es, Em. apply (Hw [] rest'). simpl. do 2 f_equal.
    rewrite Ek in Em. apply app_inv_tail in Em. subst m. unfold delim. by rewrite <- app_assoc. }
  exists rest'. split; [by apply suffix_app_r|]. unfold _skip_mime_boundary.
  assert (E : (ct ← get content_type; lift (c_string (multipart_boundary ct))) r = Ret (Some (bd, r)))
    by (rewrite get_bind; unfold lift; by rewrite Hb).
  rewrite (bind_run _ _ _ _ _ E), (bind_run _ _ _ _ _ (literals_run (zs "--") bd r _ Hv)). fold delim. fold s. by rewrite Hno, Es.
Qed.

Lemma without_suffix bd body body' : body' `suffix_of` body -> without bd body -> without bd body'.
Proof. intros [k ->] Hw p q ->. apply (Hw (k ++ p) q). by rewrite <- app_assoc. Qed.

(** The loop finds the end of the body. *)
Lemma body_loop_run bd b tail t : delimiter_end b tail -> forall fuel body r, boundary_is bd r -> without bd body ->
  view r (body ++ 13 :: 10 :: zs "--" ++ bd ++ tail ++ t) -> (length body < fuel)%nat ->
  body_loop fuel r = Ret (Some (Some (end_ r - zlen (13 :: 10 :: zs "--" ++ bd ++ tail ++ t), b), at_suffix t r)).
Proof.
  intros Ht. induction fuel as [|fuel IH]; intros body r Hb Hw Hv Hfuel; [lia|]. cbn [body_loop].
  set (rest := zs "--" ++ bd ++ tail ++ t) in *.
  destruct (skip_to_crlf_split body rest) as [E|(pre & mid & -> & E)].
  - assert (E1 : _skip_to_crlf r = Ret (Some (true, at_suffix (13 :: 10 :: rest) r))) by (unfold _skip_to_crlf; by rewrite (scan_run _ _ _ Hv), E).
    rewrite (bind_run _ _ _ _ _ E1). cbn [negb]. rewrite get_bind. pose proof (view_app _ _ _ Hv) as Hv1.
    rewrite (bind_run _ _ _ _ _ (skip_crlf_run rest _ Hv1)).
    assert (Hv2 : view (at_suffix rest (at_suffix (13 :: 10 :: rest) r)) rest) by exact (view_app _ [13; 10] _ Hv1).
    rewrite (bind_run _ _ _ _ _ (boundary_run bd b tail t (at_suffix rest (at_suffix (13 :: 10 :: rest) r)) Hb Ht Hv2)).
    assert (Hne : b <> 0) by (by destruct Ht as [[-> _]|[-> _]]). by rewrite (proj2 (Z.eqb_neq b 0) Hne).
  - set (after := mid ++ 13 :: 10 :: rest) in *.
    assert (Ea : (pre ++ 13 :: 10 :: mid) ++ 13 :: 10 :: rest = pre ++ 13 :: 10 :: after) by (unfold after; by rewrite <- app_assoc).
    rewrite Ea in Hv, E.
    assert (E1 : _skip_to_crlf r = Ret (Some (true, at_suffix (13 :: 10 :: after) r))) by (unfold _skip_to_crlf; by rewrite (scan_run _ _ _ Hv), E).
    rewrite (bind_run _ _ _ _ _ E1). cbn [negb]. rewrite get_bind. pose proof (view_app _ _ _ Hv) as Hv1.
    rewrite (bind_run _ _ _ _ _ (skip_crlf_run after _ Hv1)).
    assert (Hv2 : view (at_suffix after (at_suffix (13 :: 10 :: after) r)) after) by exact (view_app _ [13; 10] _ Hv1).
    destruct (boundary_not bd mid rest (at_suffix after (at_suffix (13 :: 10 :: after) r)) Hb (without_suffix _ _ _ (suffix_app_r _ _ _ (reflexivity _)) Hw) Hv2) as (mid' & Hm & E2).
    rewrite (bind_run _ _ _ _ _ E2). cbn [negb Z.eqb]. rewrite !at_suffix_twice.
    assert (Hv3 : view (at_suffix (mid' ++ 13 :: 10 :: rest) r) (mid' ++ 13 :: 10 :: rest)).
    { eapply view_suffix; [exact Hv|]. apply suffix_app_r. do 2 apply suffix_cons_r. unfold after. destruct Hm as [k ->]. exists k. by rewrite <- app_assoc. }
    rewrite (IH mid' (at_suffix (mid' ++ 13 :: 10 :: rest) r) Hb); [done| |exact Hv3|].
    + eapply without_suffix; [|exact Hw]. etransitivity; [exact Hm|]. apply suffix_app_r. by do 2 apply suffix_cons_r.
    + destruct Hm as [k ->]. rewrite !length_app in Hfuel. simpl in Hfuel. rewrite length_app in Hfuel. lia.
Qed.

Lemma rewind_crlf_run t r : view r (13 :: 10 :: t) -> parsed r <= cursor r ->
  _rewind_crlf (at_suffix t r) = Ret (Some (tt, r)).
Proof.
  intros Hv Hp. pose proof (view_zlen _ _ Hv) as Hl. rewrite !zlen_cons in Hl. destruct (view_offset _ _ Hv) as (beyond & E & _).
  destruct Hv as [Hc Hs _]. assert (Ec : end_ r - zlen t = cursor r + 2) by lia. unfold _rewind_crlf, at_suffix.
  cbn [parsed cursor buffer set_cursor]. rewrite Ec.
  replace (cursor r + 2 - 2) with (cursor r) by lia. replace (cursor r + 2 - 1) with (cursor r + 1) by lia.
  rewrite (proj2 (Z.leb_le _ _)) by lia. unfold at_offset in E.
  assert (E0 : buffer r @@ cursor r = Some 13 /\ buffer r @@ (cursor r + 1) = Some 10).
  { unfold zlookup. rewrite (proj2 (Z.ltb_ge (cursor r) 0)), (proj2 (Z.ltb_ge (cursor r + 1) 0)) by lia. rewrite Z2Nat.inj_add by lia. rewrite <- (Nat.add_0_r (Z.to_nat (cursor r))) at 1.
    rewrite <- !lookup_drop, E. done. }
  destruct E0 as [-> ->]. cbn. by destruct r.
Qed.

(** The request once [body] has been read, where [13 :: 10 :: t] follows its boundary. *)
Definition body_read (body t : list Z) (r : http_request) : http_request :=
  add_part_length (zlen body) (path_read (13 :: 10 :: t) r).

Lemma form_body_run bd b tail body t r : boundary_is bd r -> delimiter_end b tail -> without bd body ->
  starts r (body ++ 13 :: 10 :: zs "--" ++ bd ++ tail ++ t) ->
  form_body r = _INVOKE_HANDLER_BUF_LEN (handle_mime_body form_data) MimeBody (parsed r) (parsed r + zlen body)
    (http_request_form_data_start_part b) (body_read body t r).
Proof.
  intros Hb Ht Hw [Hv Hc Hr]. unfold form_body. rewrite get_bind. rewrite (bind_run _ _ _ _ _ (ahead_run _ _ Hv)).
  assert (Hfuel : forall l : list Z, (length body < S (length (body ++ l)))%nat) by (intros l; rewrite length_app; lia).
  rewrite (bind_run _ _ _ _ _ (body_loop_run bd b tail t Ht _ body r Hb Hw Hv (Hfuel _))). clear Hfuel.
  assert (Hend : end_ r - zlen (13 :: 10 :: zs "--" ++ bd ++ tail ++ t) = parsed r + zlen body)
    by (pose proof (view_zlen _ _ Hv) as Hl; rewrite zlen_app in Hl; lia).
  rewrite Hend. set (q := at_suffix (13 :: 10 :: t) r).
  assert (Hq : view q (13 :: 10 :: t)).
  { destruct Ht as [[-> ->]|[-> ->]]; eapply view_suffix; try exact Hv;
      [exists (body ++ 13 :: 10 :: zs "--" ++ bd)|exists (body ++ 13 :: 10 :: zs "--" ++ bd ++ zs "--")];
      rewrite <- !app_assoc; cbn [app]; rewrite <- ?app_assoc; done. }
  assert (Hp : parsed q <= cursor q).
  { pose proof (view_zlen _ _ Hv) as Hl. change (parsed q) with (parsed r). change (cursor q) with (end_ r - zlen (13 :: 10 :: t)).
    destruct Ht as [[-> ->]|[-> ->]]; revert Hl; rewrite !zlen_app, !zlen_cons, !zlen_app; change (zlen (zs "--")) with 2;
      change (zlen [13; 10]) with 2; pose proof (zlen_nonneg bd); pose proof (zlen_nonneg body); rewrite ?zlen_app; change (zlen (zs "--")) with 2;
      change (zlen [13; 10]) with 2; lia. }
  change (at_suffix t r) with (at_suffix t q). rewrite (bind_run _ _ _ _ _ (rewind_crlf_run t q Hq Hp)).
  rewrite (bind_run _ _ _ _ _ (commit_run q ltac:(destruct Hq; lia))).
  pose proof (zlen_nonneg body). rewrite (bind_run (assert (parsed r <=? parsed r + zlen body)) _ _ tt (set_parsed (cursor q) q)
    ltac:(unfold assert, lift; by rewrite (proj2 (Z.leb_le _ _)) by lia)).
  replace (parsed r + zlen body - parsed r) with (zlen body) by lia.
  exact (bind_run (modify _) _ (set_parsed (cursor q) q) tt (body_read body t r) eq_refl).
Qed.
End body.

Section theorems.
Context {arch : Arch} {henv : HttpEnv} {pok : PointersOk}.

(** ** A request from its start *)

(** A request that its caller has cleared. *)
Record cleared (r : http_request) : Prop := Cleared {
  cl_size : zlen (buffer r) = buffer_size;
  cl_strings f : strings r f = None;
  cl_verb : verb r = None;
  cl_version : version_major r = 0 /\ version_minor r = 0;
  cl_ranges : content_range_count r = 0 /\ zlen (content_ranges r) = 5;
  cl_result : result_code r = 0
}.

(** The request after [http_request_init]. *)
Definition initialised (r : http_request) : http_request :=
  set_parser (Some ParseVerb) (set_cursor 32 (set_parsed 32 (set_end 32 (set_received 32 (set_reserved 0
    (set_phase RECEIVE (set_remaining CONTENT_LENGTH_UNKNOWN (set_content_length CONTENT_LENGTH_UNKNOWN r)))))))).
Lemma init_run sockfd r : sockfd <> -1 -> 0 <= idle_timeout -> http_request_init sockfd r = Ret (Some (tt, initialised r)).
Proof.
  intros Hs Hi. unfold http_request_init, assert, lift, mbind, HP_bind, modify.
  rewrite (proj2 (Z.eqb_neq _ _) Hs), (proj2 (Z.leb_le _ _) Hi). done.
Qed.
Lemma init_inv sockfd r r' : http_request_init sockfd r = Ret (Some (tt, r')) -> r' = initialised r.
Proof.
  unfold http_request_init, assert, lift, mbind, HP_bind, modify. destruct (negb _); [|done]. cbn [cassert mbind outcome_bind].
  destruct (_ <=? _); [|done]. cbn [cassert mbind outcome_bind]. by intros [= <-].
Qed.

Lemma initialised_ok r : zlen (buffer r) = buffer_size -> request_ok (initialised r).
Proof.
  intros Hs. split; [done|simpl; unfold buffer_size; lia|simpl; unfold reslim, buffer_size; lia|].
  exists []. split; [done|constructor|constructor|done|intros _; split; by intros ?%elem_of_nil].
Qed.

(** The requests a server has, whatever arrives. *)
Inductive served : http_request -> Prop :=
| served_init sockfd r0 r : zlen (buffer r0) = buffer_size -> http_request_init sockfd r0 = Ret (Some (tt, r)) -> served r
| served_input i r : served r -> served (set_input i r)
| served_receive fuel r r' : served r -> (receive_fuel <= fuel)%nat ->
    http_request_receive fuel r = Ret (Some (tt, r')) -> served r'.

Lemma receive_phase fuel r r' : http_request_receive fuel r = Ret (Some (tt, r')) -> phase r = RECEIVE.
Proof.
  unfold http_request_receive, mbind, HP_bind, get, assert, lift, id. cbn [mbind outcome_bind].
  destruct (bool_decide (phase r = RECEIVE)) eqn:E; [|done]. by bsplit.
Qed.

Lemma served_ok {hok : HandlersOk} r : served r -> phase r = RECEIVE -> request_ok r.
Proof.
  induction 1 as [sockfd r0 r Hs E|i r _ IH|fuel r r' _ IH Hf E].
  - intros _. apply init_inv in E as ->. by apply initialised_ok.
  - intros Hph. apply (request_ok_same r); try done. by apply IH.
  - intros Hph. pose proof (http_receive_ok r fuel (IH (receive_phase _ _ _ E)) Hf) as Hwp. exact (wp_ret_inv _ _ _ _ _ Hwp E Hph).
Qed.

(** ** Strings *)

Lemma reserved_string es1 g w es2 r : request_ok r -> reserves (es1 ++ (g, w) :: es2) r -> string_at g r = Ret w.
Proof.
  intros Hok Hes. pose proof (reserved_size _ _ Hok Hes) as Hres. destruct Hok as [Hsz Ho _ _], Hes as [Hb Hn _ Hp _].
  apply points_app in Hp as [_ [Hg _]]. unfold string_at. rewrite Hg.
  assert (Hz : zlen (buffer r) = buffer_size) by done. unfold at_offset.
  assert (Hd : exists rest, buffer r = concat (entry <$> es1) ++ pointer_to g ++ w ++ 0 :: rest).
  { exists (concat (entry <$> es2) ++ drop (Z.to_nat (reserved r)) (buffer r)).
    rewrite <- (take_drop (Z.to_nat (reserved r)) (buffer r)) at 1. unfold slice in Hb.
    replace (take (Z.to_nat (reserved r)) (buffer r)) with (concat (entry <$> es1 ++ (g, w) :: es2))
      by (rewrite <- Hb; by rewrite drop_0).
    rewrite fmap_app, concat_app. unfold entry at 2. rewrite fmap_cons. cbn [concat fst snd]. fold (concat (A := Z)).
    by rewrite <- !app_assoc. }
  destruct Hd as [rest ->]. rewrite Z.add_0_l, Z2Nat.inj_add, <- drop_drop by (apply zlen_nonneg || (pose proof ptr_pos; lia)).
  rewrite !drop_app_length' by (unfold zlen; pose proof (pointer_size g); unfold zlen in *; lia).
  apply c_string_nul. rewrite Forall_app in Hn. destruct Hn as [_ Hn]. by apply Forall_cons_1 in Hn as [Hw _].
Qed.

Lemma reserve_list f start len s es r : request_ok r -> reserves es r ->
  sub_read (Sub start len) r = Ret (Some (s, r)) -> no_nul s -> (f ∉ es.*1) ->
  (f = FUser \/ f = FPassword -> auth_scheme r <> NOAUTH) ->
  exists (ok : bool) r', _reserve f (Sub start len) r = Ret (Some (ok, r')) /\ request_ok r' /\
    (if ok then reserves (es ++ [(f, s)]) r'
     else reserves es r' /\ (result_code r' = 414 \/ result_code r' = 500)) .
Proof.
  intros Hok Hes Hrd Hnn Hf Hauth. destruct (sub_read_inv _ _ _ _ _ Hrd) as [_ Hlen].
  rewrite (reserve_run f start len s r Hok Hrd Hlen Hnn). unfold reserve_result.
  destruct (Z.ltb_spec reslim (reserved r + entry_size s)); [|destruct (Z.ltb_spec (parsed r) (reserved r + entry_size s))].
  1,2: eexists false, _; split; [done|]; split; [by apply (request_ok_same r)|]; split; [by apply (reserves_same es r)|auto].
  exists true, (with_string f s r). split; [done|]. split; [eapply with_string_ok; try done; lia|].
  apply with_string_reserves; try done. destruct Hok; lia.
Qed.

(** ** The first packet *)

(** A request that waits for its first packet. *)
Record waiting (r : http_request) : Prop := Waiting {
  wt_ok : request_ok r;
  wt_phase : phase r = RECEIVE;
  wt_parser : parser r = Some ParseVerb;
  wt_marks : reserved r = 0 /\ received r = 32 /\ parsed r = 32 /\ cursor r = 32 /\ end_ r = 32;
  wt_remaining : request_content_remaining r = CONTENT_LENGTH_UNKNOWN;
  wt_result : result_code r = 0;
  wt_line : verb r = None /\ strings r FPath = None /\ version_major r = 0 /\ version_minor r = 0;
  wt_new : new_request r
}.
Lemma initialised_waiting r : cleared r -> waiting (initialised r).
Proof.
  intros [Hs Hn Hv [H1 H2] [Hc Hr] Hcode]. split; [by apply initialised_ok|done|done|done|done|exact Hcode| |by split].
  split_and!; [exact Hv|exact (Hn FPath)|exact H1|exact H2].
Qed.

(** The request after its first packet has been stored. *)
Definition stored (bs : list Z) (i : list (option (list Z))) (r : http_request) : http_request :=
  set_end (32 + zlen bs) (set_buffer (splice 32 bs (buffer r)) (set_input i r)).

Lemma stored_ready bs i r : waiting r -> bs <> [] -> zlen bs <= buffer_size - 32 -> ready ParseVerb (stored bs i r) bs.
Proof.
  intros [[Hs Ho Hl (es & Hes)] Hph Hp (M1 & M2 & M3 & M4 & M5) Hrem Hc _ _] Hne Hfit. pose proof (zlen_nonneg bs).
  assert (Hz : zlen (splice 32 bs (buffer r)) = buffer_size) by (rewrite zlen_splice; unfold buffer_size in *; lia).
  split; [|exact Hph|exact Hp|exact Hc|by left|].
  - split; [split|simpl; congruence|simpl; lia]; simpl; [lia|lia|]. rewrite M4.
    replace (32 + zlen bs - 32) with (zlen bs) by lia. apply slice_splice_same; unfold buffer_size in *; lia.
  - split; [exact Hz|simpl; lia|exact Hl|]. exists []. split; [simpl; by rewrite M1|constructor|constructor|done|].
    intros _. split; by intros ?%elem_of_nil.
Qed.

Lemma first_receive fuel bs i r : waiting r -> bs <> [] -> zlen bs <= buffer_size - 32 -> input r = Some bs :: i ->
  http_request_receive fuel r = (receive_loop fuel ≫= finish_receive) (stored bs i r).
Proof.
  intros [[Hs _ _ _] Hph _ (M1 & M2 & M3 & M4 & M5) Hrem _ _ _] Hne Hl Hi. unfold http_request_receive.
  rewrite (bind_run _ _ _ _ _ (asserts_run (fun r => bool_decide (phase r = RECEIVE)) r ltac:(by apply bool_decide_eq_true))).
  rewrite (bind_run _ _ _ _ _ (asserts_run (fun r => end_ r <=? buffer_size) r ltac:(apply Z.leb_le; unfold buffer_size; lia))).
  rewrite (bind_run _ _ _ _ _ (asserts_run (fun r => received r <=? parsed r) r ltac:(apply Z.leb_le; lia))).
  rewrite (bind_run _ _ _ _ _ (asserts_run (fun r => parsed r <=? end_ r) r ltac:(apply Z.leb_le; lia))).
  assert (Hroom : make_room r = Ret (Some (buffer_size - 32, r))) by (unfold make_room; rewrite get_bind; unfold id; by rewrite Hrem, M2, M3, M5).
  rewrite (bind_run _ _ _ _ _ Hroom). change (buffer_size - 32 =? 0) with false. cbv iota.
  rewrite (bind_run (assert (0 <? buffer_size - 32)) _ r tt r eq_refl).
  rewrite (bind_run _ _ _ _ _ (asserts_run (fun r => (request_content_remaining r =? CONTENT_LENGTH_UNKNOWN) || (buffer_size - 32 <=? request_content_remaining r)) r ltac:(cbv beta; by rewrite Hrem))).
  assert (Hr : http_request_read (buffer_size - 32) r = Ret (Some (Some bs, set_input i r))).
  { unfold http_request_read. rewrite get_bind, Hi.
    rewrite drop_ge, take_ge by (unfold zlen, buffer_size in *; lia). done. }
  rewrite (bind_run _ _ _ _ _ Hr). destruct bs as [|c bs]; [done|]. set (new := c :: bs) in *. cbv iota. rewrite get_bind. unfold id.
  change (end_ (set_input i r)) with (end_ r). rewrite M5.
  rewrite (bind_run _ _ _ _ _ (store_at 32 new (set_input i r) ltac:(lia) ltac:(simpl; unfold buffer_size in *; lia))).
  rewrite (bind_run (assert (zlen new <=? buffer_size - 32)) _ _ tt _ (ltac:(unfold assert, lift; by rewrite (proj2 (Z.leb_le _ _) Hl)))).
  change (request_content_remaining (set_input i r)) with (request_content_remaining r). rewrite Hrem, Z.eqb_refl.
  reflexivity.
Qed.

(** ** The properties of requests *)

(** C8: However a request is served and whatever arrives, as long as it is being
    received its offsets are in order inside the buffer and the strings reserved
    at the start of the buffer are whole and pointed to by their fields; and
    receiving the next packet does not go wrong: its loop runs at most
    [receive_fuel] times, and nothing is stored outside the buffer.  The handlers,
    which are the same for the whole request, leave what belongs to the parser
    alone while the request is being received ([HandlersOk]).  A run may still
    stop at an assertion, or be undefined at a read. *)
Theorem request_invariant {hok : HandlersOk} r : served r -> phase r = RECEIVE ->
  request_ok r /\ forall fuel, (receive_fuel <= fuel)%nat -> http_request_receive fuel r <> Ret None.
Proof.
  intros Hs Hph. pose proof (served_ok r Hs Hph) as Hok. split; [done|]. intros fuel Hf.
  eapply wp_fuel, http_receive_ok; done.
Qed.

(** C10: The reserved part of the buffer is a list of strings: every one can be read
    through its field, [_reserve] adds one at its end or refuses with 414 or 500 and
    adds none, and [_release_reserved] frees all and clears the fields that point to them. *)
Theorem reserved_refines es f start len s r : request_ok r -> reserves es r ->
  sub_read (Sub start len) r = Ret (Some (s, r)) -> no_nul s -> (f ∉ es.*1) ->
  (f = FUser \/ f = FPassword -> auth_scheme r <> NOAUTH) ->
  (forall g w, (g, w) ∈ es -> string_at g r = Ret w) /\
  (exists (ok : bool) r', _reserve f (Sub start len) r = Ret (Some (ok, r')) /\ request_ok r' /\
    if ok then reserves (es ++ [(f, s)]) r' else reserves es r' /\ (result_code r' = 414 \/ result_code r' = 500)) /\
  (exists r', _release_reserved r = Ret (Some (tt, r')) /\ reserved r' = 0 /\
    forall g, strings r' g = if decide (g ∈ es.*1) then None else strings r g).
Proof.
  intros Hok Hes Hrd Hnn Hf Hauth. split_and!.
  - intros g w (es1 & es2 & ->)%list_elem_of_split. by eapply reserved_string.
  - by apply reserve_list.
  - destruct (release_run es r Hok Hes) as (r' & E & _ & Hr). exists (set_reserved 0 r'). by split_and!.
Qed.

(** C11: On any text [http_request_parse_verb] passes over a known verb and a space and
    sets it; asks for more when the text is the start of one; and answers 400 otherwise. *)
Theorem verb_classified s r : starts r s -> s <> [] -> verb r = None ->
  (forall v t, verb_matches s v t -> http_request_parse_verb r = Ret (Some (0, after_verb v t r))) /\
  ((exists v, verb_starts s v) -> exists c, http_request_parse_verb r = Ret (Some (100, set_cursor c r))) /\
  ((forall v t, ~ verb_matches s v t) -> (forall v, ~ verb_starts s v) ->
    exists c, http_request_parse_verb r = Ret (Some (400, set_cursor c r))).
Proof.
  intros Hst Hne Hv. destruct (parse_verb_run r s Hst Hne Hv) as [(v & t & Hm & E)|[(v & c & Hb & E)|(c & Hm & Hb & E)]].
  - destruct (verb_unique v t s Hm) as [Hu Hs]. split_and!.
    + intros v' t' [-> ->]%Hu. done.
    + intros [v' Hv']. by destruct (Hs v').
    + intros Hm'. by destruct (Hm' v t).
  - split_and!; [|by exists c|intros _ Hs; by destruct (Hs v)].
    intros v' t' Hm. by destruct (proj2 (verb_unique v' t' s Hm) v).
  - split_and!; [intros v t H; by destruct (Hm v t)|intros [v H]; by destruct (Hb v)|by exists c].
Qed.

(** C9: The head of a request, written from a verb, a path, a version and header lines,
    is read back by the first call of [http_request_receive]: the verb, the path, the
    version, the length of the first header of a length, the ranges of the first header of
    at most five, and how much of the content is still to come. *)
Theorem request_head_roundtrip sockfd fuel v path minor eol hs last t i r :
  handle_first_line = None -> handle_headers = None -> sockfd <> -1 -> 0 <= idle_timeout ->
  cleared r -> input r = Some (head_text v path minor eol hs last ++ t) :: i ->
  zlen (head_text v path minor eol hs last ++ t) <= buffer_size - 32 ->
  line_end eol -> 0 <= minor < 255 -> Forall (fun c => word_char c = true) path -> path <> [] -> entry_size path <= reslim ->
  headers_ok hs -> line_end last ->
  exists r', (_ ← http_request_init sockfd; http_request_receive (5 + length hs + fuel)) r
      = (receive_loop fuel ≫= finish_receive) r' /\
    head_read v path minor hs t r'.
Proof.
  intros Hf Hh Hs Hi Hcl Hin Hfit He Hmin Hw Hne Hlim Hhs Hlast.
  rewrite (bind_run _ _ _ _ _ (init_run sockfd r Hs Hi)). pose proof (initialised_waiting r Hcl) as Hwt.
  assert (Hin1 : input (initialised r) = Some (head_text v path minor eol hs last ++ t) :: i) by exact Hin.
  generalize dependent (initialised r). clear Hin Hcl r Hs Hi. intros r Hwt Hin.
  set (text := head_text v path minor eol hs last ++ t) in *.
  assert (Htext : text <> []) by (unfold text, head_text, request_line; by destruct v).
  rewrite (first_receive _ text i r Hwt Htext Hfit Hin). pose proof (stored_ready text i r Hwt Htext Hfit) as Hready.
  assert (Hnew : new_request (stored text i r)) by (destruct Hwt as [_ _ _ _ _ _ _ []]; by split).
  assert (Hline : line_ok path 1 minor eol (stored text i r)).
  { destruct Hwt as [_ _ _ (M1 & _ & M3 & _) _ _ Hl _]. split; [done|lia|done|done|done|exact Hl|].
    pose proof ptr_pos. simpl. rewrite M1, M3. split; [lia|done]. }
  generalize dependent (stored text i r). intros r1 Hready Hnew Hline.
  destruct (head_run fuel v path minor eol hs last t r1) as (r' & E & Hread); [done..|].
  exists r'. split; [|done]. unfold mbind, HP_bind. by rewrite E.
Qed.

End theorems.

(** C12: The ranges that [_parse_ranges] can produce, closed for a resource that is
    not empty, are, in order, the closed ranges of the positions that they ask for; ranges that
    ask for none are left out; and [http_range_bytes] counts the positions. *)
Theorem range_close_positions len src : 0 < len < 2 ^ 64 -> Forall range_ok src ->
  exists dst, http_range_close src len = Ret dst /\ closes len src dst /\ http_range_bytes dst = Ret (u64 (positions dst)).
Proof.
  intros Hlen Hsrc. destruct (range_close_run len src Hlen Hsrc) as (dst & E & Hd). exists dst. split_and!; [done|done|].
  exact (closes_bytes len src dst Hd 0).
Qed.

(** ** Witnesses *)

Section witnesses.
Local Existing Instances LP64 example_env example_pointers example_handlers.

Lemma zeroed_cleared bs : cleared (set_input [Some bs] zeroed).
Proof. by split. Qed.

Lemma request_invariant_witness : exists r, served r /\ phase r = RECEIVE /\ request_ok r /\
  forall fuel, (receive_fuel <= fuel)%nat -> http_request_receive fuel r <> Ret None.
Proof.
  exists (set_input [Some (zs "GET /")] (initialised zeroed)).
  assert (Hs : served (set_input [Some (zs "GET /")] (initialised zeroed))).
  { apply served_input. by apply (served_init 5 zeroed); [|apply init_run]. }
  split; [exact Hs|]. split; [reflexivity|]. exact (request_invariant _ Hs eq_refl).
Defined.

(** A request with its path "/a" reserved, and the word "b" after it. *)
Definition path_reserved : http_request :=
  set_string FPath (Some (InBuffer 8)) (set_reserved 11 (set_buffer (splice 0 (entry (FPath, zs "/a") ++ replicate 21 0 ++ zs "b") (replicate (Z.to_nat buffer_size) 0))
    (set_end 40 (initialised zeroed)))).
Lemma path_reserved_ok : reserves [(FPath, zs "/a")] path_reserved /\ request_ok path_reserved.
Proof.
  assert (H : reserves [(FPath, zs "/a")] path_reserved).
  { split; [reflexivity|by repeat constructor|by apply NoDup_singleton|by split|].
    intros _. split; by intros ?%list_elem_of_singleton. }
  split; [exact H|]. split; [reflexivity|simpl; unfold buffer_size; lia|vm_compute; discriminate|by exists [(FPath, zs "/a")]].
Qed.

Lemma reserved_refines_witness :
  exists r, (forall g w, (g, w) ∈ [(FPath, zs "/a")] -> string_at g r = Ret w) /\
  (exists (ok : bool) r', _reserve FOrigin (Sub (InBuffer 32) 1) r = Ret (Some (ok, r')) /\ request_ok r' /\
    if ok then reserves ([(FPath, zs "/a")] ++ [(FOrigin, zs "b")]) r'
    else reserves [(FPath, zs "/a")] r' /\ (result_code r' = 414 \/ result_code r' = 500)) /\
  (exists r', _release_reserved r = Ret (Some (tt, r')) /\ reserved r' = 0 /\
    forall g, strings r' g = if decide (g ∈ [(FPath, zs "/a")].*1) then None else strings r g).
Proof.
  exists path_reserved. apply (reserved_refines [(FPath, zs "/a")] FOrigin (InBuffer 32) 1 (zs "b") path_reserved).
  - exact (proj2 path_reserved_ok).
  - exact (proj1 path_reserved_ok).
  - vm_compute. reflexivity.
  - by repeat constructor.
  - by intros ?%list_elem_of_singleton.
  - by intros [|].
Defined.

Lemma verb_classified_witness :
  exists r, http_request_parse_verb r = Ret (Some (0, after_verb GET (zs "/") r)).
Proof.
  set (r := set_end 37 (set_buffer (splice 32 (zs "GET /") (replicate (Z.to_nat buffer_size) 0)) (initialised zeroed))).
  exists r. apply (verb_classified (zs "GET /") r); [|done|reflexivity|reflexivity].
  split; [split|reflexivity|vm_compute; discriminate]; [split; vm_compute; discriminate|vm_compute; discriminate|vm_compute; reflexivity].
Defined.

Definition sample_headers : list (header * list Z) :=
  [(HRange (zs "range:") [32] (Range OPEN 6 0) [([], Range SUFFIX 0 7)], crlf); (HLength (zs "Content-length:") [] 12, [10])].
Definition sample_request : http_request :=
  set_input [Some (head_text GET (zs "/foo") 1 crlf sample_headers crlf ++ zs "x")] zeroed.
Lemma request_head_roundtrip_witness :
  exists r', (_ ← http_request_init 5; http_request_receive (5 + length sample_headers + 10)) sample_request
      = (receive_loop 10 ≫= finish_receive) r' /\
    head_read GET (zs "/foo") 1 sample_headers (zs "x") r'.
Proof.
  assert (Hlen : zlen (head_text GET (zs "/foo") 1 crlf sample_headers crlf ++ zs "x") <= buffer_size - 32) by (vm_compute; discriminate).
  assert (Hlim : entry_size (zs "/foo") <= reslim) by (vm_compute; discriminate).
  assert (Hhs : headers_ok sample_headers) by (repeat constructor; try done; by left || by right).
  assert (Hw : Forall (fun c => word_char c = true) (zs "/foo")) by (by repeat constructor).
  exact (request_head_roundtrip 5 10 GET (zs "/foo") 1 crlf sample_headers crlf (zs "x") [] sample_request eq_refl eq_refl
    ltac:(discriminate) ltac:(reflexivity || lia) (zeroed_cleared _) eq_refl Hlen ltac:(by left) ltac:(lia) Hw ltac:(discriminate) Hlim Hhs ltac:(by left)).
Defined.

Definition form_request : http_request :=
  set_end 48 (set_buffer (splice 32 (zs "hi" ++ crlf ++ zs "--xyz--" ++ crlf ++ zs "bye") (replicate (Z.to_nat buffer_size) 0))
    (set_content_type (set_boundary (zs "xyz" ++ replicate 68 0) zero_content_type) (initialised zeroed))).

Lemma range_close_positions_witness :
  exists dst, http_range_close [Range OPEN 6 0; Range CLOSED 20 30; Range SUFFIX 0 3] 10 = Ret dst /\
    closes 10 [Range OPEN 6 0; Range CLOSED 20 30; Range SUFFIX 0 3] dst /\ http_range_bytes dst = Ret (u64 (positions dst)).
Proof.
  apply (range_close_positions 10 [Range OPEN 6 0; Range CLOSED 20 30; Range SUFFIX 0 3]); [done|].
  repeat constructor; done.
Defined.
End witnesses.
